(* ===== verification/_CoqProject ===== *)
-Q . S2P
Prelude.v
CString.v
AvlMap.v
AvlFacts.v
AvlSpec.v
UriParser.v
UriFacts.v
UriSpec.v
HashFunc.v
StrCommon.v
UriOps.v
UriOpsSpec.v
FMalloc.v
FMallocFacts.v
FMallocSpec.v
DlgTimer.v
DlgTimerFacts.v
DlgTimerInv.v
DlgTimerSpec.v
DlgHash.v
DlgHashSpec.v
DlgPing.v
DlgPingSpec.v
Lumps.v
LumpApply.v
LumpFacts.v
LumpSpec.v
LumpDup.v
DrPrefix.v
DrPrefixFacts.v
DrPrefixSpec.v
DrFallback.v
Numbers.v
NumbersSpec.v
HdrNames.v
HdrNamesSpec.v
HdrBodies.v
ToParser.v
ToFacts.v
ToBounds.v
ViaParser.v
ScanRuns.v
MsgHeaders.v
MsgHeadersSpec.v
MsgHeadersProps.v
MsgRoundtrip.v
ToRoundtrip.v
ToSpec.v
ViaFacts.v
ViaBounds.v
ViaSpec.v
ViaWords.v
ViaRoundtrip.v
MsgBodies.v
MsgStart.v
MsgStartFacts.v
MsgComposed.v
MsgStartSpec.v
TimeRec.v
Calendar.v
TimeRecSpec.v
TimeRecExpr.v
TmReply.v
TmReplyFacts.v
TmReplyCancel.v
TmReplySpec.v
TmPick.v
TmFork.v
Tm2xx.v
TmTimer.v
TmTimerFacts.v
TmTimerSplit.v
TmTimerSpec.v
TmTimerRefine.v
UlContact.v
UlRecord.v
UlFacts.v
UlSync.v
UlOps.v
UlTheorems.v
