(* ===== verification/Prelude.v ===== *)
(** * OpenSIPS in Rocq: root file and shared prelude

    OpenSIPS is a SIP server: processes receive SIP messages, parse them, run a
    routing script over them and forward them; modules keep the state of calls,
    registrations and transactions in shared memory.  This library models parts of
    it that carry logic of their own and that the rest of the server builds on, as
    functions translated from the C sources, and proves what they promise.

    ** The parts and the files that model them

    - The AVL map ([map.c], [map.h]), the associative container of the core and of
      several modules.  [AvlMap] has every function of [map.c]: a node is a tree, a
      pointer to a node is a zipper (the subtree and the frames above it, which stand
      for [avl_parent]), [None] is a null dereference or a failed [assert].
      [AvlFacts] has the balance and order invariants, [AvlSpec] the theorems.  The
      map is generic in its key order, the class [KeyOrder] of [CString];
      [str_key_order] instantiates it with [str_cmp] of [map.c].
    - The SIP URI parser ([parser/parse_uri.c]).  [UriParser] has the state machine
      of [parse_uri] with one definition per macro and per group of states, the end
      of the URI and the scheme; pointers are addresses and lengths are [int]s.
      [UriFacts] has the invariant of the machine, [UriSpec] the theorems.
    - The operations on parsed URIs ([parser/parse_uri.c], [parse_uri.h]): scheme
      names, [parse_uri_headers], [print_uri], [compare_uris], the accessors of the
      parameters and the request-URI cache of a message.  [UriOps] has the
      definitions, [UriOpsSpec] the theorems.
    - The string escapings ([strcommon.c], validity tests of [parse_uri.h]):
      [StrCommon].
    - The string hashes ([hash_func.h]): [HashFunc].
    - The numbers as text ([ut.h], [qvalue.c], [qvalue.h]): [Numbers] has the readers and
      writers of decimal, hexadecimal and escaped text with the rotating buffers of
      [int2str], and the q values; [NumbersSpec] the theorems.
    - The header parser ([parser/parse_hname2.c] with the macros of [case_*.h] and
      [keys.h], [parser/msg_parser.c]).  [HdrNames] has the recognition of header names:
      every macro is a small program of byte comparisons ([hn_code]) that [run] executes
      on the memory.  [HdrBodies] has methods, CSeq and Content-Length.  [MsgHeaders] has
      [get_hdr_field_aux], [parse_headers_aux] with the hooks and sibling chains of the
      message, and [clone_headers]; the parsers of Via and To bodies are behind the class
      [body_parsers], with what the list needs of them as [body_parsers_ok].
      [HdrNamesSpec], [MsgHeadersSpec], [MsgHeadersProps] and [MsgRoundtrip] have the
      theorems.
    - The To and Via parsers ([parser/parse_to.c], [parse_via.c]).  [ToParser] and
      [ViaParser] have the state machines, one definition per group of cases, with the
      writes into the structures as a log of parameters; [ScanRuns] has the runs of
      characters a state passes, [ToFacts], [ToBounds], [ToRoundtrip] and [ToSpec],
      [ViaFacts], [ViaBounds], [ViaWords], [ViaRoundtrip] and [ViaSpec] the theorems.
      [MsgBodies] makes the two parsers the instance of [body_parsers] and discharges
      [body_parsers_ok].
    - The whole message ([parser/parse_fline.c], [parse_msg_opt] of
      [parser/msg_parser.c]): [MsgStart] has the first line and the entry point over the
      header parser, [MsgStartFacts], [MsgComposed] and [MsgStartSpec] the theorems about
      the composition.
    - The time recurrences ([time_rec.c], [trim.h]), which decide when a routing rule
      applies.  [TimeRec] has the parser and the checks, over the class [libc_time] for
      [localtime_r] and [mktime] and with the time zone of the process as state;
      [Calendar] is an instance of the class, zones with a fixed offset over the Gregorian
      calendar; [TimeRecSpec] has the theorems.  [TimeRecExpr] has the expressions of
      recurrences, evaluated as text and as trees.
    - The lumps ([data_lump.c], [lump_struct.h], [msg_translator.c]): the changes modules
      ask for on a received message and the two passes that write the message sent.
      [Lumps] has the lists and their operations, a [struct lump] with its three links as
      a tree; [LumpApply] has the length pass, the writing pass and the end of
      [build_req_buf_from_sip_req]; [LumpFacts], [LumpSpec] and [LumpDup] the theorems.
    - Dynamic routing ([modules/drouting]).  [DrPrefix] has the prefix tree, the rules of
      a routing group by priority, the search with its fallback, the tables of the module
      interface (created, filled and released) and the addition of a rule by the loader;
      [DrPrefixFacts], [DrPrefixSpec] and [DrFallback] the theorems.
    - The transaction module ([modules/tm]), what happens to the replies of a transaction.
      [TmReply] has the decision about a reply, storing and relaying it, local replies, the
      choice of the branch, CANCEL, failure routes, new branches and the final response
      timer, as steps on one transaction with a trace of what is sent; the outcomes of
      allocations and of the script are an argument of the step.  [TmReplyFacts] has the
      invariant of the replies sent upstream, [TmReplyCancel] the one of the CANCELs, and
      [TmReplySpec] the theorems about every run; [TmPick] and [TmFork] are about forks with
      negative answers, [Tm2xx] about the first 2xx of an INVITE.
    - The timer lists of the transaction module ([modules/tm/timer.c]).  [TmTimer] has the
      operations on the linked lists of a timer set in a heap, with the pointers that skip the
      timers of the same time, and the steps of the timer process; [TmTimerFacts] and
      [TmTimerSplit] view a list as a sequence of runs, [TmTimerSpec] has the abstract queues
      and [TmTimerRefine] the theorems.
    - User location ([modules/usrloc]), the contacts of registered users.  [UlContact] has a
      contact, its creation and update from a REGISTER, its states and the doubly linked list
      of the contacts of a record in a heap; [UlRecord] has the records: insertion, update,
      deletion, matching, identifiers, the timer and the refresh events, over the class
      [sql_api] of the SQL driver and the class [ul_text] of the texts other parts make.
      [UlFacts] has the list and the invariant of a record, [UlSync] what the driver must do
      and the pass of the timer, [UlOps] each operation, and [UlTheorems] the runs on a record
      and the theorems.
    - The fast allocator ([mem/f_malloc.c], [f_malloc.h], [f_malloc_dyn.h]).
      [FMalloc] has the operations on a block: headers by address, the list of each
      bucket as the sequence of its addresses.  [FMallocFacts] views the block as a
      sequence of fragments, [FMallocSpec] has the theorems.
    - The dialog module ([modules/dialog]).  [DlgTimer] has the lifetime and delete
      timers of [dlg_timer.c], circular doubly linked lists in a heap from addresses
      to nodes; [DlgTimerFacts] views a list in the heap as a sequence,
      [DlgTimerInv] relates it to an abstract queue, [DlgTimerSpec] has the theorems.
      [DlgHash] has the dialogs, the hash table, reference counts and the state
      machine of [dlg_hash.c] and [dlg_hash.h] (and [dlg_ondelete] of
      [dlg_handlers.c]) over these timers and over [core_hash]; [DlgHashSpec] has
      the theorems.  [DlgPing] and [DlgPingSpec] do the same for the lists of
      dialogs being pinged.

    [compare_uris] calls [parse_uri] and [unescape_user]; a dialog is found through
    [core_hash] of its Call-ID, and dropping its last reference unlinks and frees it
    or hands it to the delete timer, whose routine calls [dlg_ondelete].  User location
    compares contacts with [compare_uris] and hashes addresses with [core_hash].  A message is its
    first line and its fields, a field is found by [parse_hname2] and parsed by the parser of
    its type.

    ** What the theorems show

    - AVL map: insertion and deletion keep the tree ordered and balanced, never
      fault and change exactly one binding; the height is logarithmic; iteration in
      both directions, [map_for_each] and [map_destroy] visit every entry once and in
      order; any sequence of operations refines the finite map [gmap]; the error
      paths of a failed allocation and of a failing callback.
    - URIs: every field of a parsed URI lies in the text and no input makes the
      parser write through a null pointer; addresses, transports and header lists
      are read back as written, and addresses are printed back; [str2uri_type] agrees
      with the parser; [compare_uris] is symmetric, from a characterisation of its
      matching of unknown parameters; URI and backslash escaping are undone by their
      inverses.  A group of theorems states inputs on which the result is not the one
      the URI or the documentation calls for.
    - Allocator: allocation, release and reallocation in place keep the block a
      sequence of fragments without gap or overlap, the free lists exact and the
      statistics equal to the totals, and change only the fragment concerned; two
      theorems state that the first fragment cannot be released and that the
      defragmentation leaves a back pointer into allocated memory.
    - Dialogs: the timer lists refine a queue ordered by timeout under any sequence
      of operations, and expired dialogs are detached and handled in order, each
      once; reference counts are never negative and a dialog is not used after it is
      freed, for any interleaving of the events of its life that keeps to the
      protocol of references; the state only moves forward but for the documented late
      2xx, which never follows a BYE; a linked dialog is found; the collection of dead dialogs from the ping
      lists.  Further theorems state where delayed deletion loses a dialog and where
      the ping list dereferences a null pointer.

    - Numbers: what [int2str] writes is read back, and stays until six more calls; the
      readers return the number modulo the width of their type; a q value is between 0 and
      1000 or an error, and is printed back; [unescape_crlf] in place equals the
      replacement on lists.
    - Header parser: the type of a header is the one documented for its name, whatever
      the case, for every header the macros know, but for the misspelt Accept-Disposition
      and for some names before a tab; a list of fields written with any folding
      is read back; the fields of a message are linked in order, each at its hook and in
      its sibling chain, and asking for headers in two calls gives the same message as
      asking once, a second call for a header that was found changing nothing.  Two theorems state what a failed call leaves behind and how
      [clone_headers] differs from the parser.
    - To and Via: every pointer they store lies in the buffer and every list is complete,
      for any input; addresses with parameters, and stacks of Via bodies, are read back as
      written.  Examples state the inputs on which they differ from the grammar.
    - Messages: [parse_msg] returns on every packet and stores addresses inside it; a
      request or a reply written with a first line and any fields is read back.
    - Time recurrences: for daily and weekly recurrences the times that match are those of
      the repeated interval, but for its first second in one case; the time zone of the
      process is restored; the two evaluations of an expression agree.  Examples state
      where a recurrence means something else than its text.
    - Lumps: the message written is the original with the edits the lists describe, its
      length is the one computed first, so that the server does not abort, as long as the
      lists are well formed and every anchor lies inside its part of the message; every
      sequence of the operations modules use keeps the lists well formed; a copy describes the same edits.
      Two theorems state when the two passes disagree.
    - Dynamic routing: [get_prefix] returns the rule of the longest prefix with a usable
      rule; adding a rule puts it in its list by priority and leaves the others; releasing
      a table frees every linked rule once and leaves the rules of failed additions; the order in which fallback tries the rules, and where
      its index skips some.

    - Transactions: whatever the order of events and whatever fails, after a final reply
      nothing is sent upstream but the 2xx of an INVITE, and no branch is sent two CANCELs
      by the events modelled;
      of a fork with negative answers the best one is relayed with the last answer; the
      first 2xx is relayed at once and the pending branches are cancelled.  Examples state a
      transaction that is never completed, a CANCEL for a request that is not an INVITE and a
      second CANCEL on demand.
      The timer lists implement queues ordered by time under any interleaving of the
      processes that set timers and the one that handles them, and a pass of the
      retransmission timers sends exactly what is due and sets it again.

    - User location: whatever sequence of registrations, updates, deletions and timer passes
      is run on a record, and whatever fails, no null or freed contact is accessed, the
      contacts stay a well formed list in their order, and the state of a contact tells what
      the database has, its store of keys apart, as long as updates keep its address; a pass of
      the timer on a driver that works leaves exactly the valid contacts, in memory and in the
      database; a REGISTER finds the first contact that
      matches, with the answers to old CSeq numbers; identifiers are read back and distinct.
      Further theorems state where an updated contact is put at the wrong end and where
      memory and database part.

    ** Bounds and fuel

    Integers are [Z] with the wrap-around of their C type written out ([u16], [u32],
    [u64], [i32] below).  Loops over trees, texts and zippers are structural.  Loops
    over lists in a heap (also the timer lists and the contacts of a record), and over the
    fragments of a block, take fuel: the number of nodes or headers and one more, which the
    theorems prove to be enough (they state that the operation returns a result); [map_destroy] takes twice the number of nodes of the tree, since each
    step frees a node or rotates one, and [AvlSpec] proves that it ends.  Loops over the
    text of a message take as fuel the distance to its end, since every turn passes a byte;
    running out is a result of its own ([PhStuck], [None]), which the theorems exclude.
    The comparisons of header names are finite: the theorem about names is proved by
    checking every path of [first_switch] once, by evaluation.

    ** What is not modelled

    Log messages, statistics and the choice between the shared, private and
    persistent memory.  An operation that the code runs under a lock is one step;
    interleaving is by sequences of steps.  Allocation results, the clock and the
    callbacks are arguments.  Of the dialog module, the handlers called by the
    transaction module, persistence, replication and profiles are not modelled, nor
    are the routines that send the pings.  Of the message parser, the bodies other than To,
    Via, CSeq and Content-Length, and SDP are not modelled; of the recurrences, printing and
    freeing; of the lumps, the reassembly of parsed bodies and the reply lumps; of
    dynamic routing, gateways, carriers, weights and the rest of the loading from the database; of
    [ut.h], floating point; of the transaction module, the matching of messages, the table
    of transactions and their deletion, building messages, asynchronous routes, the
    commands that cancel branches on demand (t_uac_cancel, t_cancel_branch, t_cancel_trans) and
    the requests of the server itself; of user location, the hash table of a domain and its iteration (the
    pass of the timer is that of a domain with one record), the loading from the database, the
    modes over a cache database, the messages of a cluster, and insertions collected by
    [query_buffer_size].  The remaining parts of the server (the other allocators, the script
    engine, the network layer and the back ends) are not modelled; the first candidates for
    extension are the matching of transactions and the domains of user location over the AVL
    map.

    This file holds the integer types, byte strings, tactics and generic lemmas the
    others share. *)

From stdpp Require Import prelude list strings.
From Stdlib Require Import ZArith Lia Ascii.

Open Scope Z_scope.

(** ** Machine integers *)

(** Unsigned truncation to [w] bits, and its signed counterpart. *)
Definition wrap (w : Z) (x : Z) : Z := x mod 2 ^ w.
Definition swrap (w : Z) (x : Z) : Z :=
  (x + 2 ^ (w - 1)) mod 2 ^ w - 2 ^ (w - 1).

Abbreviation u16 := (wrap 16).
Abbreviation u32 := (wrap 32).
Abbreviation u64 := (wrap 64).
Abbreviation i8 := (swrap 8).
Abbreviation i32 := (swrap 32).

(** C constants of [<limits.h>] the code names. *)
Definition INT_MAX : Z := 2147483647.
Definition USHRT_MAX : Z := 65535.

Lemma wrap_range w x : 0 <= w → 0 <= wrap w x < 2 ^ w.
Proof. intros. apply Z.mod_pos_bound. lia. Qed.

Lemma wrap_small w x : 0 <= x < 2 ^ w → wrap w x = x.
Proof. apply Z.mod_small. Qed.

Lemma wrap_wrap_add w x y : 0 <= w → wrap w (wrap w x + y) = wrap w (x + y).
Proof. intros. unfold wrap. by rewrite Z.add_mod_idemp_l by lia. Qed.

Lemma swrap_small w x :
  1 <= w → - 2 ^ (w - 1) <= x < 2 ^ (w - 1) → swrap w x = x.
Proof.
  intros Hw Hx. unfold swrap.
  assert (2 ^ w = 2 * 2 ^ (w - 1)) by (rewrite <- Z.pow_succ_r by lia; f_equal; lia).
  rewrite Z.mod_small; lia.
Qed.

Lemma swrap_range w x : 1 <= w → - 2 ^ (w - 1) <= swrap w x < 2 ^ (w - 1).
Proof.
  intros Hw. unfold swrap.
  assert (2 ^ w = 2 * 2 ^ (w - 1)) by (rewrite <- Z.pow_succ_r by lia; f_equal; lia).
  pose proof (Z.mod_pos_bound (x + 2 ^ (w - 1)) (2 ^ w)). lia.
Qed.

(** ** Bytes and strings *)

(** A byte of a C string is its value as an [unsigned char]. *)
Abbreviation byte := Z (only parsing).
Abbreviation bytes := (list Z) (only parsing).

Definition byte_ok (c : byte) : Prop := 0 <= c < 256.

(** The bytes of a C string literal, and the code of a character literal. *)
Definition chr (a : ascii) : byte := Z.of_N (N_of_ascii a).
Fixpoint bs (s : string) : bytes :=
  match s with
  | EmptyString => []
  | String a s' => chr a :: bs s'
  end.

Arguments chr _%_char_scope.

(** [tolower] of the C locale, as used by [strncasecmp]. *)
Definition tolower (c : byte) : byte :=
  if (65 <=? c) && (c <=? 90) then c + 32 else c.

(** ** Tactics *)

(** Case analysis on the first [match] or [if] of the goal or of a hypothesis,
    keeping the equation. *)
Ltac case_goal :=
  match goal with
  | |- context [match ?x with _ => _ end] =>
      match x with context [match _ with _ => _ end] => fail 1 | _ => idtac end;
      destruct x eqn:?
  end.
Ltac case_hyp H :=
  match type of H with
  | context [match ?x with _ => _ end] =>
      match x with context [match _ with _ => _ end] => fail 1 | _ => idtac end;
      destruct x eqn:?
  end.

(** Turn boolean comparisons of the context into arithmetic facts. *)
Ltac zbool :=
  repeat match goal with
  | H : (_ =? _) = true |- _ => apply Z.eqb_eq in H
  | H : (_ =? _) = false |- _ => apply Z.eqb_neq in H
  | H : (_ <? _) = true |- _ => apply Z.ltb_lt in H
  | H : (_ <? _) = false |- _ => apply Z.ltb_ge in H
  | H : (_ <=? _) = true |- _ => apply Z.leb_le in H
  | H : (_ <=? _) = false |- _ => apply Z.leb_gt in H
  | H : (_ && _) = true |- _ => apply andb_true_iff in H as [? ?]
  | H : (_ || _) = false |- _ => apply orb_false_iff in H as [? ?]
  | H : negb _ = true |- _ => apply negb_true_iff in H
  | H : negb _ = false |- _ => apply negb_false_iff in H
  end.

(** ** Lists *)

(** The last element of a list, or the element before it when it is empty. *)
Definition last_or {A} (a : A) (l : list A) : A := default a (last l).
Lemma last_or_cons {A} (a x : A) l : last_or a (x :: l) = last_or x l.
Proof. unfold last_or. rewrite last_cons. by destruct (last l). Qed.
Lemma last_or_snoc {A} (a : A) l x : last_or a (l ++ [x]) = x.
Proof. unfold last_or. by rewrite last_snoc. Qed.
Lemma last_or_app {A} (a : A) l l' : last_or a (l ++ l') = last_or (last_or a l) l'.
Proof. revert a. induction l as [|x l IH]; intros a; cbn [app]; [done|]. by rewrite !last_or_cons. Qed.
Lemma last_or_elem {A} (a : A) l : last_or a l ∈ a :: l.
Proof. revert a. induction l as [|x l IH]; intros a; [by left|]. rewrite last_or_cons. right. apply IH. Qed.

(** The hint database of the development. *)
Create HintDb opensips discriminated.
#[export] Hint Resolve Z.le_refl : opensips.
