(* ===== verification/CString.v ===== *)
(** * CString: the C library string comparisons the code uses

    [strncmp], [strncasecmp] and [memcmp] over byte lists, and the comparison
    [str_cmp] of map.c with its order laws, packaged as a [KeyOrder]. *)

From stdpp Require Import prelude list strings.
From Stdlib Require Import ZArith Lia.
From S2P Require Import Prelude.

(** [strncmp(s1, s2, n)]: compares as unsigned chars, stops at a NUL common to
    both.  A byte past the end of a list is read as the terminator. *)
Fixpoint strncmp (n : nat) (s1 s2 : bytes) : Z :=
  match n with
  | O => 0
  | S n' =>
      match s1, s2 with
      | [], [] => 0
      | [], b :: _ => - b
      | a :: _, [] => a
      | a :: s1', b :: s2' =>
          if a =? b then if a =? 0 then 0 else strncmp n' s1' s2' else a - b
      end
  end.

(** [strncasecmp(s1, s2, n)]: the same after lower-casing both bytes. *)
Definition strncasecmp (n : nat) (s1 s2 : bytes) : Z :=
  strncmp n (tolower <$> s1) (tolower <$> s2).

(** Equality test [memcmp(s1, s2, n) == 0] for [s1], [s2] of at least [n] bytes. *)
Definition memeq (n : nat) (s1 s2 : bytes) : bool :=
  bool_decide (take n s1 = take n s2).

(** [str_cmp] of map.c. *)
Definition str_cmp (s1 s2 : bytes) : Z :=
  let ret := strncmp (Nat.min (length s1) (length s2)) s1 s2 in
  if ret =? 0 then Z.of_nat (length s1) - Z.of_nat (length s2) else ret.

(** ** The order interface the AVL map relies on *)

(** A three-way comparison that is a total preorder. *)
Class KeyOrder (K : Type) := {
  kcmp : K → K → Z;
  kcmp_refl k : kcmp k k = 0;
  kcmp_swap a b : Z.sgn (kcmp a b) = - Z.sgn (kcmp b a);
  kcmp_trans a b c : kcmp a b < 0 → kcmp b c < 0 → kcmp a c < 0;
  kcmp_eq_l a b c : kcmp a b = 0 → Z.sgn (kcmp a c) = Z.sgn (kcmp b c);
}.

Section order_facts.
Context `{KeyOrder K}.
Implicit Types a b c : K.

Lemma kcmp_gt a b : 0 < kcmp a b ↔ kcmp b a < 0.
Proof. pose proof (kcmp_swap a b). lia. Qed.

Lemma kcmp_eq_sym a b : kcmp a b = 0 ↔ kcmp b a = 0.
Proof. pose proof (kcmp_swap a b). lia. Qed.

Lemma kcmp_eq_r a b c : kcmp a b = 0 → Z.sgn (kcmp c a) = Z.sgn (kcmp c b).
Proof.
  intros E. rewrite (kcmp_swap c a), (kcmp_swap c b).
  by rewrite (kcmp_eq_l a b c E).
Qed.

Lemma kcmp_lt_eq a b c : kcmp a b < 0 → kcmp b c = 0 → kcmp a c < 0.
Proof. intros Hab E. pose proof (kcmp_eq_r b c a E). lia. Qed.

Lemma kcmp_eq_lt a b c : kcmp a b = 0 → kcmp b c < 0 → kcmp a c < 0.
Proof. intros E Hbc. pose proof (kcmp_eq_l a b c E). lia. Qed.

Lemma kcmp_eq_trans a b c : kcmp a b = 0 → kcmp b c = 0 → kcmp a c = 0.
Proof. intros E Hbc. pose proof (kcmp_eq_l a b c E). lia. Qed.
End order_facts.

(** ** Order laws of [str_cmp] *)

Lemma str_cmp_nil_nil : str_cmp [] [] = 0.
Proof. reflexivity. Qed.

Lemma str_cmp_nil_cons b s : str_cmp [] (b :: s) = - (1 + Z.of_nat (length s)).
Proof. unfold str_cmp. simpl. lia. Qed.

Lemma str_cmp_cons_nil a s : str_cmp (a :: s) [] = 1 + Z.of_nat (length s).
Proof. unfold str_cmp. simpl. lia. Qed.

Lemma str_cmp_cons_cons a b s t :
  str_cmp (a :: s) (b :: t) =
  if a =? b then
    if a =? 0 then Z.of_nat (length s) - Z.of_nat (length t) else str_cmp s t
  else a - b.
Proof.
  unfold str_cmp. cbn [length Nat.min strncmp].
  destruct (a =? b) eqn:E; zbool.
  - destruct (a =? 0); [cbn; lia|]. case_match; lia.
  - rewrite (proj2 (Z.eqb_neq (a - b) 0)) by lia. done.
Qed.

Create Rewrite HintDb strcmp.
#[export] Hint Rewrite str_cmp_nil_nil str_cmp_nil_cons str_cmp_cons_nil
  str_cmp_cons_cons : strcmp.

Ltac strcmp_cases :=
  autorewrite with strcmp in *;
  repeat match goal with
  | |- context [?a =? ?b] => destruct (Z.eqb_spec a b); subst
  | H : context [?a =? ?b] |- _ => destruct (Z.eqb_spec a b); subst
  end.

Lemma str_cmp_refl s : str_cmp s s = 0.
Proof. induction s; strcmp_cases; try lia. Qed.

Lemma str_cmp_swap s : ∀ t, Z.sgn (str_cmp s t) = - Z.sgn (str_cmp t s).
Proof. induction s; intros [|b t]; strcmp_cases; try lia; auto. Qed.

Lemma str_cmp_trans s : ∀ t u, str_cmp s t < 0 → str_cmp t u < 0 → str_cmp s u < 0.
Proof.
  induction s as [|a s IH]; intros [|b t] [|c u] ??; strcmp_cases; try lia; eauto.
Qed.

Lemma str_cmp_eq_l s : ∀ t u, str_cmp s t = 0 → Z.sgn (str_cmp s u) = Z.sgn (str_cmp t u).
Proof.
  induction s as [|a s IH]; intros [|b t] [|c u] ?; strcmp_cases; try lia; eauto.
Qed.

#[export] Instance str_key_order : KeyOrder bytes := {|
  kcmp := str_cmp;
  kcmp_refl := str_cmp_refl;
  kcmp_swap := str_cmp_swap;
  kcmp_trans := str_cmp_trans;
  kcmp_eq_l := str_cmp_eq_l;
|}.

(** A key without NUL bytes. *)
Definition nul_free (s : bytes) : Prop := Forall (λ c, c ≠ 0) s.

#[export] Instance nul_free_dec s : Decision (nul_free s).
Proof. unfold nul_free. apply _. Defined.

(** On such keys the comparison identifies equal strings only. *)
Lemma str_cmp_eq_nul_free s : ∀ t, nul_free s → str_cmp s t = 0 → s = t.
Proof.
  induction s as [|a s IH]; intros [|b t] Hs E; strcmp_cases; try lia; [done| |].
  - by inversion Hs.
  - f_equal. apply IH; [by inversion Hs|done].
Qed.
