(* ===== verification/AvlMap.v ===== *)
(** * AvlMap: the string-keyed AVL map (map.c)

    The tree of [struct avl_node], the map record and every operation of map.c.
    The parent pointer of a node is its position in the tree, so a pointer to a
    node is a zipper: the subtree it roots and the list of frames above it,
    innermost first.  An operation that would dereference a null pointer or
    fail an [assert] returns [None]; allocation results are arguments. *)

From stdpp Require Import prelude list.
From Stdlib Require Import ZArith Lia.
From S2P Require Import Prelude CString.

Section avl_map.
Context {K V : Type} `{KeyOrder K}.

(** [struct avl_node]: links, key, value and balance factor. *)
Inductive avl_node :=
  | Nil
  | Node (l : avl_node) (k : K) (v : V) (b : Z) (r : avl_node).

(** One step of the path from the root: the node whose left ([FrL]) or right
    ([FrR]) link holds the subtree in focus. *)
Inductive frame :=
  | FrL (k : K) (v : V) (b : Z) (r : avl_node)
  | FrR (l : avl_node) (k : K) (v : V) (b : Z).

(** [struct avl_table]; of its flags only [AVLMAP_NO_DUPLICATE] changes what the
    operations compute. *)
Record avl_table := AvlTable {
  avl_root : avl_node;
  avl_count : Z;
  no_duplicate : bool;
  ret_code : Z;
}.

Definition plug (f : frame) (t : avl_node) : avl_node :=
  match f with
  | FrL k v b r => Node t k v b r
  | FrR l k v b => Node l k v b t
  end.

(** Follow the parent pointers to the root. *)
Fixpoint zip (path : list frame) (t : avl_node) : avl_node :=
  match path with
  | [] => t
  | f :: path' => zip path' (plug f t)
  end.

(** ** map_create, map_find, map_size *)

Definition map_create (nodup malloc_ok : bool) : option avl_table :=
  if malloc_ok then Some (AvlTable Nil 0 nodup 0) else None.

Fixpoint find_node (p : avl_node) (key : K) : option V :=
  match p with
  | Nil => None
  | Node l k v _ r =>
      let cmp := kcmp key k in
      if cmp <? 0 then find_node l key
      else if 0 <? cmp then find_node r key
      else Some v
  end.

Definition map_find (tree : avl_table) (key : K) : option V :=
  find_node (avl_root tree) key.

Definition map_size (tree : avl_table) : Z := i32 (avl_count tree).

(** ** map_get *)

(** The search loop of [map_get]: [y] is the depth of the deepest node with a
    non-zero balance factor met so far (the root before any). *)
Inductive descent :=
  | Found (k : K)
  | Absent (path : list frame) (y : nat).

Fixpoint descend (key : K) (p : avl_node) (path : list frame) (y : nat) : descent :=
  match p with
  | Nil => Absent path y
  | Node l k v b r =>
      let cmp := kcmp key k in
      if cmp =? 0 then Found k
      else
        let y' := if b =? 0 then y else length path in
        if 0 <? cmp then descend key r (FrR l k v b :: path) y'
        else descend key l (FrL k v b r :: path) y'
  end.

(** The balance update loop: from the new node up to and including [y]. *)
Fixpoint climb (steps : nat) (p : avl_node) (path : list frame)
    : option (avl_node * list frame) :=
  match steps with
  | O => Some (p, path)
  | S n =>
      match path with
      | [] => None
      | FrL k v b r :: path' => climb n (Node p k v (i8 (b - 1)) r) path'
      | FrR l k v b :: path' => climb n (Node l k v (i8 (b + 1)) p) path'
      end
  end.

(** The rotations of [map_get] at the node [y]. *)
Definition rotate_left_heavy (yl : avl_node) (yk : K) (yv : V) (yr : avl_node)
    : option avl_node :=
  match yl with
  | Nil => None
  | Node xl xk xv xb xr =>
      if xb =? -1 then Some (Node xl xk xv 0 (Node xr yk yv 0 yr))
      else if negb (xb =? 1) then None
      else
        match xr with
        | Nil => None
        | Node wl wk wv wb wr =>
            let '(xb', yb') :=
              if wb =? -1 then (0, 1) else if wb =? 0 then (0, 0) else (-1, 0) in
            Some (Node (Node xl xk xv xb' wl) wk wv 0 (Node wr yk yv yb' yr))
        end
  end.

Definition rotate_right_heavy (yl : avl_node) (yk : K) (yv : V) (yr : avl_node)
    : option avl_node :=
  match yr with
  | Nil => None
  | Node xl xk xv xb xr =>
      if xb =? 1 then Some (Node (Node yl yk yv 0 xl) xk xv 0 xr)
      else if negb (xb =? -1) then None
      else
        match xl with
        | Nil => None
        | Node wl wk wv wb wr =>
            let '(xb', yb') :=
              if wb =? 1 then (0, -1) else if wb =? 0 then (0, 0) else (1, 0) in
            Some (Node (Node yl yk yv yb' wl) wk wv 0 (Node wr xk xv xb' xr))
        end
  end.

Definition rebalance_y (y : avl_node) : option avl_node :=
  match y with
  | Nil => None
  | Node yl yk yv yb yr =>
      if yb =? -2 then rotate_left_heavy yl yk yv yr
      else if yb =? 2 then rotate_right_heavy yl yk yv yr
      else Some y
  end.

(** Linking the new node [n] and rebalancing. *)
Definition link_new (path : list frame) (y : nat) (n : avl_node) : option avl_node :=
  match path with
  | [] => Some n
  | _ =>
      '(t, above) ← climb (length path - y) n path;
      w ← rebalance_y t;
      Some (zip above w)
  end.

Definition with_root (tree : avl_table) (t : avl_node) : avl_table :=
  AvlTable t (avl_count tree) (no_duplicate tree) (ret_code tree).
Definition with_count (tree : avl_table) (c : Z) : avl_table :=
  AvlTable (avl_root tree) c (no_duplicate tree) (ret_code tree).

(** [map_get]: the map after the call and the slot returned, named by the key of
    its node ([None] for a null return).  [node_ok] and [key_ok] say whether the
    two allocations succeed. *)
Definition map_get (tree : avl_table) (key : K) (vnull : V) (node_ok key_ok : bool)
    : option (avl_table * option K) :=
  match descend key (avl_root tree) [] 0 with
  | Found k => Some (tree, Some k)
  | Absent path y =>
      if negb node_ok then Some (tree, None)
      else
        let tree := with_count tree (u64 (avl_count tree + 1)) in
        if negb (no_duplicate tree) && negb key_ok then Some (tree, None)
        else
          t ← link_new path y (Node Nil key vnull 0 Nil);
          Some (with_root tree t, Some key)
  end.

(** ** map_put *)

(** A write through the slot [map_get] returned. *)
Fixpoint set_val (key : K) (item : V) (p : avl_node) : avl_node :=
  match p with
  | Nil => Nil
  | Node l k v b r =>
      let cmp := kcmp key k in
      if cmp <? 0 then Node (set_val key item l) k v b r
      else if 0 <? cmp then Node l k v b (set_val key item r)
      else Node l k item b r
  end.

Definition map_put `{EqDecision V} (table : avl_table) (key : K) (item vnull : V)
    (node_ok key_ok : bool) : option (avl_table * V) :=
  '(table, p) ← map_get table key vnull node_ok key_ok;
  match p with
  | None => Some (table, vnull)
  | Some slot =>
      ret ← find_node (avl_root table) slot;
      Some (with_root table (set_val slot item (avl_root table)),
            if decide (ret = item) then vnull else ret)
  end.

(** ** delete_node, map_remove *)

(** The rebalancing loop of [delete_node]: the subtree [t] in the focus is one
    level lower than before; the innermost frame is the node [y]. *)
Fixpoint del_loop (path : list frame) (t : avl_node) : option avl_node :=
  match path with
  | [] => Some t
  | FrL yk yv yb yr :: path' =>
      let yb := i8 (yb + 1) in
      if yb =? 1 then Some (zip path' (Node t yk yv yb yr))
      else if yb =? 2 then
        match yr with
        | Nil => None
        | Node xl xk xv xb xr =>
            if xb =? -1 then
              match xl with
              | Nil => None
              | Node wl wk wv wb wr =>
                  let '(xb', yb') :=
                    if wb =? 1 then (0, -1) else if wb =? 0 then (0, 0) else (1, 0) in
                  del_loop path'
                    (Node (Node t yk yv yb' wl) wk wv 0 (Node wr xk xv xb' xr))
              end
            else if xb =? 0 then
              Some (zip path' (Node (Node t yk yv 1 xl) xk xv (-1) xr))
            else del_loop path' (Node (Node t yk yv 0 xl) xk xv 0 xr)
        end
      else del_loop path' (Node t yk yv yb yr)
  | FrR yl yk yv yb :: path' =>
      let yb := i8 (yb - 1) in
      if yb =? -1 then Some (zip path' (Node yl yk yv yb t))
      else if yb =? -2 then
        match yl with
        | Nil => None
        | Node xl xk xv xb xr =>
            if xb =? 1 then
              match xr with
              | Nil => None
              | Node wl wk wv wb wr =>
                  let '(xb', yb') :=
                    if wb =? -1 then (0, 1) else if wb =? 0 then (0, 0) else (-1, 0) in
                  del_loop path'
                    (Node (Node xl xk xv xb' wl) wk wv 0 (Node wr yk yv yb' t))
              end
            else if xb =? 0 then
              Some (zip path' (Node xl xk xv 1 (Node xr yk yv (-1) t)))
            else del_loop path' (Node xl xk xv 0 (Node xr yk yv 0 t))
        end
      else del_loop path' (Node yl yk yv yb t)
  end.

(** The walk [while (s->avl_link[0] != NULL) s = s->avl_link[0]] from the node
    [Node l k v b r]: the node reached and the frames entered on the way. *)
Fixpoint leftmost (l : avl_node) (k : K) (v : V) (b : Z) (r : avl_node)
    (path : list frame) : K * V * avl_node * list frame :=
  match l with
  | Nil => (k, v, r, path)
  | Node l' k' v' b' r' => leftmost l' k' v' b' r' (FrL k v b r :: path)
  end.

(** [delete_node] at the node [Node pl _ pv pb pr] found under [path]: the tree
    after the removal. *)
Definition unlink_node (path : list frame) (pl : avl_node) (pb : Z) (pr : avl_node)
    : option avl_node :=
  match pr with
  | Nil => del_loop path pl
  | Node rl rk rv rb rr =>
      match rl with
      | Nil => del_loop (FrR pl rk rv pb :: path) rr
      | Node sl sk sv sb sr =>
          let '(k, v, sub, spine) := leftmost sl sk sv sb sr [FrL rk rv rb rr] in
          del_loop (spine ++ FrR pl k v pb :: path) sub
      end
  end.

Definition delete_node (tree : avl_table) (path : list frame) (p : avl_node)
    : option (avl_table * V) :=
  match p with
  | Nil => None
  | Node pl _ pv pb pr =>
      t ← unlink_node path pl pb pr;
      Some (with_count (with_root tree t) (u64 (avl_count tree - 1)), pv)
  end.

(** The search loop of [map_remove]. *)
Fixpoint locate (key : K) (p : avl_node) (path : list frame)
    : option (avl_node * list frame) :=
  match p with
  | Nil => None
  | Node l k v b r =>
      let cmp := kcmp key k in
      if cmp =? 0 then Some (p, path)
      else if 0 <? cmp then locate key r (FrR l k v b :: path)
      else locate key l (FrL k v b r :: path)
  end.

Definition map_remove (tree : avl_table) (key : K) (vnull : V) : option (avl_table * V) :=
  match locate key (avl_root tree) [] with
  | None => Some (tree, vnull)
  | Some (p, path) => delete_node tree path p
  end.

(** ** map_destroy *)

(** The destruction loop; the result lists the nodes in the order they are
    freed.  [fuel] bounds the iterations. *)
Fixpoint destroy_loop (fuel : nat) (p : avl_node) : option (list (K * V)) :=
  match fuel with
  | O => match p with Nil => Some [] | _ => None end
  | S n =>
      match p with
      | Nil => Some []
      | Node Nil k v _ r =>
          rest ← destroy_loop n r;
          Some ((k, v) :: rest)
      | Node (Node ql qk qv qb qr) k v b r =>
          destroy_loop n (Node ql qk qv qb (Node qr k v b r))
      end
  end.

Fixpoint node_count (t : avl_node) : nat :=
  match t with Nil => 0 | Node l _ _ _ r => S (node_count l + node_count r) end.

(** The values [map_destroy] passes to its [destroy] function: those of the
    freed nodes that are not null. *)
Definition map_destroy `{EqDecision V} (tree : avl_table) (vnull : V) : option (list V) :=
  freed ← destroy_loop (2 * node_count (avl_root tree)) (avl_root tree);
  Some (filter (λ v, v ≠ vnull) (freed.*2)).

(** ** map_for_each *)

(** [process_all]: the calls made to [f], in order, and the [ret_code] after. *)
Fixpoint process_all (f : K → V → Z) (p : avl_node) (ret : Z) : list (K * V) * Z :=
  match p with
  | Nil => ([], ret)
  | Node l k v _ r =>
      if negb (ret =? 0) then ([], ret)
      else
        let '(c1, ret1) := process_all f l ret in
        let ret2 := Z.lor ret1 (f k v) in
        let '(c2, ret3) := process_all f r ret2 in
        (c1 ++ (k, v) :: c2, ret3)
  end.

Definition map_for_each (tree : avl_table) (f : K → V → Z)
    : avl_table * list (K * V) * Z :=
  let '(calls, ret) := process_all f (avl_root tree) 0 in
  (AvlTable (avl_root tree) (avl_count tree) (no_duplicate tree) ret, calls, ret).

(** ** Iterators *)

(** [map_iterator_t]: the current node, or null. *)
Definition iterator : Type := option (avl_node * list frame).

Fixpoint go_left (p : avl_node) (path : list frame) : iterator :=
  match p with
  | Nil => None
  | Node l k v b r =>
      match l with
      | Nil => Some (p, path)
      | _ => go_left l (FrL k v b r :: path)
      end
  end.

Fixpoint go_right (p : avl_node) (path : list frame) : iterator :=
  match p with
  | Nil => None
  | Node l k v b r =>
      match r with
      | Nil => Some (p, path)
      | _ => go_right r (FrR l k v b :: path)
      end
  end.

Definition map_first (tree : avl_table) : iterator := go_left (avl_root tree) [].
Definition map_last (tree : avl_table) : iterator := go_right (avl_root tree) [].

(** The key and value slots of the current node; [None] when there is no node
    (where the C code computes an address from a null pointer). *)
Definition iterator_key (it : iterator) : option K :=
  match it with Some (Node _ k _ _ _, _) => Some k | _ => None end.
Definition iterator_val (it : iterator) : option V :=
  match it with Some (Node _ _ v _ _, _) => Some v | _ => None end.
Definition iterator_is_valid (it : iterator) : bool :=
  match it with Some _ => true | None => false end.

(** The parent walk: up to the first ancestor entered through its left (resp.
    right) link. *)
Fixpoint up_left (p : avl_node) (path : list frame) : iterator :=
  match path with
  | [] => None
  | FrL k v b r :: path' => Some (Node p k v b r, path')
  | FrR l k v b :: path' => up_left (Node l k v b p) path'
  end.

Fixpoint up_right (p : avl_node) (path : list frame) : iterator :=
  match path with
  | [] => None
  | FrR l k v b :: path' => Some (Node l k v b p, path')
  | FrL k v b r :: path' => up_right (Node p k v b r) path'
  end.

(** [iterator_next] and [iterator_prev]; [None] is the return value -1 on an
    invalid iterator, [Some it] the new position with return value 0. *)
Definition iterator_next (it : iterator) : option iterator :=
  match it with
  | Some (Node l k v b r as p, path) =>
      Some (match r with
            | Nil => up_left p path
            | _ => go_left r (FrR l k v b :: path)
            end)
  | _ => None
  end.

Definition iterator_prev (it : iterator) : option iterator :=
  match it with
  | Some (Node l k v b r as p, path) =>
      Some (match l with
            | Nil => up_right p path
            | _ => go_right l (FrL k v b r :: path)
            end)
  | _ => None
  end.

Definition iterator_delete (tree : avl_table) (it : iterator)
    : option (avl_table * iterator * option V) :=
  match it with
  | Some (p, path) =>
      '(tree, v) ← delete_node tree path p;
      Some (tree, None, Some v)
  | None => Some (tree, None, None)
  end.

End avl_map.

Arguments avl_node : clear implicits.
Arguments frame : clear implicits.
Arguments avl_table : clear implicits.
Arguments descent : clear implicits.
Arguments iterator : clear implicits.
