(* ===== verification/AvlFacts.v ===== *)
(** * AvlFacts: correctness of the AVL map (map.c)

    The balance and order invariants of the tree, that every operation keeps
    them, and what each operation does to the ordered list of bindings. *)

From stdpp Require Import prelude list sorting gmap.
From Stdlib Require Import ZArith Lia.
From S2P Require Import Prelude CString AvlMap.

Section avl_facts.
Context {K V : Type} `{KeyOrder K}.
Implicit Types (t l r : avl_node K V) (path : list (frame K V)) (k key : K) (v : V).

(** ** Invariants *)

Fixpoint height t : Z :=
  match t with Nil => 0 | Node l _ _ _ r => 1 + Z.max (height l) (height r) end.

(** Every balance factor is exact and within one. *)
Fixpoint avl t : Prop :=
  match t with
  | Nil => True
  | Node l _ _ b r => avl l ∧ avl r ∧ b = height r - height l ∧ -1 <= b <= 1
  end.

Fixpoint inorder t : list (K * V) :=
  match t with Nil => [] | Node l k v _ r => inorder l ++ (k, v) :: inorder r end.

(** What is left and right of the focus. *)
Fixpoint before path : list (K * V) :=
  match path with
  | [] => []
  | FrL _ _ _ _ :: path' => before path'
  | FrR l k v _ :: path' => before path' ++ inorder l ++ [(k, v)]
  end.
Fixpoint after path : list (K * V) :=
  match path with
  | [] => []
  | FrL k v _ r :: path' => (k, v) :: inorder r ++ after path'
  | FrR _ _ _ _ :: path' => after path'
  end.

(** A context whose hole expects an AVL tree of height [h]. *)
Fixpoint ctx_avl path (h : Z) : Prop :=
  match path with
  | [] => True
  | FrL _ _ b r :: path' =>
      avl r ∧ b = height r - h ∧ -1 <= b <= 1 ∧ ctx_avl path' (1 + Z.max h (height r))
  | FrR l _ _ b :: path' =>
      avl l ∧ b = h - height l ∧ -1 <= b <= 1 ∧ ctx_avl path' (1 + Z.max (height l) h)
  end.

Definition klt (p q : K * V) : Prop := kcmp p.1 q.1 < 0.
#[local] Instance klt_transitive : Transitive klt.
Proof. intros ???. apply kcmp_trans. Qed.

Definition bst t : Prop := StronglySorted klt (inorder t).

Definition wf_map (m : avl_table K V) : Prop :=
  avl (avl_root m) ∧ bst (avl_root m)
  ∧ avl_count m = u64 (Z.of_nat (length (inorder (avl_root m)))).

(** The reference operations on the ordered list of bindings. *)
Fixpoint alookup key (l : list (K * V)) : option V :=
  match l with
  | [] => None
  | (k, v) :: l' => if kcmp key k =? 0 then Some v else alookup key l'
  end.
Fixpoint ainsert key v (l : list (K * V)) : list (K * V) :=
  match l with
  | [] => [(key, v)]
  | (k, w) :: l' => if kcmp key k <? 0 then (key, v) :: (k, w) :: l' else (k, w) :: ainsert key v l'
  end.
Definition aset key v (l : list (K * V)) : list (K * V) :=
  (λ p, if kcmp key p.1 =? 0 then (p.1, v) else p) <$> l.
Definition adelete key (l : list (K * V)) : list (K * V) :=
  filter (λ p, kcmp key p.1 ≠ 0) l.

(** All bindings of [l] are below, resp. above, [key]. *)
Definition all_below key (l : list (K * V)) : Prop := Forall (λ p, kcmp p.1 key < 0) l.
Definition all_above key (l : list (K * V)) : Prop := Forall (λ p, kcmp key p.1 < 0) l.

(** ** Ordered lists of bindings *)

Lemma sorted_mid (a c : list (K * V)) k v :
  StronglySorted klt (a ++ (k, v) :: c) ↔
  StronglySorted klt a ∧ StronglySorted klt c ∧ all_below k a ∧ all_above k c.
Proof.
  unfold all_below, all_above. induction a as [|x a IH]; simpl.
  - split.
    + inversion 1; subst. auto using SSorted_nil.
    + intros (_ & ? & _ & ?). by constructor.
  - split.
    + inversion 1 as [|? ? Hs Hf]; subst. apply IH in Hs as (? & ? & ? & ?).
      apply Forall_app in Hf as [? [? ?]%Forall_cons]. split_and!; auto.
      by constructor.
    + intros (Hxa & Hc & [Hx Ha]%Forall_cons & Hkc). inversion Hxa; subst.
      constructor; [apply IH; auto|]. apply Forall_app. split; [done|].
      apply Forall_cons. split; [done|].
      eapply Forall_impl; [exact Hkc|]. intros y Hy. exact (kcmp_trans _ _ _ Hx Hy).
Qed.

Lemma all_below_trans k key (l : list (K * V)) : all_below k l → kcmp k key < 0 → all_below key l.
Proof. intros Hl Hk. eapply Forall_impl; [exact Hl|]. intros p Hp. exact (kcmp_trans _ _ _ Hp Hk). Qed.

Lemma all_above_trans k key (l : list (K * V)) : all_above k l → kcmp key k < 0 → all_above key l.
Proof. intros Hl Hk. eapply Forall_impl; [exact Hl|]. intros p Hp. exact (kcmp_trans _ _ _ Hk Hp). Qed.

Lemma all_below_eq k key (l : list (K * V)) : all_below k l → kcmp key k = 0 → all_below key l.
Proof.
  intros Hl Hk. eapply Forall_impl; [exact Hl|]. intros p Hp.
  exact (kcmp_lt_eq _ _ _ Hp (proj1 (kcmp_eq_sym _ _) Hk)).
Qed.

Lemma all_above_eq k key (l : list (K * V)) : all_above k l → kcmp key k = 0 → all_above key l.
Proof. intros Hl Hk. eapply Forall_impl; [exact Hl|]. intros p Hp. exact (kcmp_eq_lt _ _ _ Hk Hp). Qed.

Lemma alookup_below key (a c : list (K * V)) : all_below key a → alookup key (a ++ c) = alookup key c.
Proof.
  induction 1 as [|[k v] a Hk _ IH]; [done|]. simpl in *.
  pose proof (kcmp_swap key k). destruct (Z.eqb_spec (kcmp key k) 0); [lia|done].
Qed.

Lemma alookup_app key (a c : list (K * V)) :
  alookup key (a ++ c) = match alookup key a with Some v => Some v | None => alookup key c end.
Proof. induction a as [|[k v] a IH]; simpl; [done|]. by destruct (kcmp key k =? 0). Qed.

Lemma alookup_above key (c : list (K * V)) : all_above key c → alookup key c = None.
Proof.
  induction 1 as [|[k v] c Hk _ IH]; [done|]. simpl in *.
  destruct (Z.eqb_spec (kcmp key k) 0); [lia|done].
Qed.

Lemma ainsert_mid key v (a c : list (K * V)) :
  all_below key a → all_above key c → ainsert key v (a ++ c) = a ++ (key, v) :: c.
Proof.
  intros Ha Hc. induction Ha as [|[k w] a Hk _ IH]; simpl in *.
  - destruct Hc as [|[k w] c Hk _]; simpl in *; [done|].
    destruct (Z.ltb_spec (kcmp key k) 0); [done|lia].
  - pose proof (kcmp_swap key k). destruct (Z.ltb_spec (kcmp key k) 0); [lia|]. by rewrite IH.
Qed.

Lemma adelete_none key (l : list (K * V)) :
  Forall (λ p, kcmp key p.1 ≠ 0) l → adelete key l = l.
Proof.
  unfold adelete. induction 1 as [|p l Hp _ IH]; [done|].
  rewrite filter_cons. case_decide; [by rewrite IH|done].
Qed.

Lemma all_below_ne key (l : list (K * V)) : all_below key l → Forall (λ p, kcmp key p.1 ≠ 0) l.
Proof. intros Hl. eapply Forall_impl; [exact Hl|]. intros p ?. pose proof (kcmp_swap key p.1). simpl in *. lia. Qed.

Lemma all_above_ne key (l : list (K * V)) : all_above key l → Forall (λ p, kcmp key p.1 ≠ 0) l.
Proof. intros Hl. eapply Forall_impl; [exact Hl|]. intros p ?. simpl in *. lia. Qed.

Lemma adelete_mid key k v (a c : list (K * V)) :
  kcmp key k = 0 → all_below key a → all_above key c → adelete key (a ++ (k, v) :: c) = a ++ c.
Proof.
  intros Hk Ha Hc. unfold adelete. rewrite filter_app, filter_cons.
  rewrite decide_False by (simpl; lia). f_equal.
  - apply adelete_none, all_below_ne, Ha.
  - apply adelete_none, all_above_ne, Hc.
Qed.

Lemma aset_none key v (l : list (K * V)) :
  Forall (λ p, kcmp key p.1 ≠ 0) l → aset key v l = l.
Proof.
  unfold aset. induction 1 as [|p l Hp _ IH]; [done|]. rewrite fmap_cons.
  destruct (Z.eqb_spec (kcmp key p.1) 0); [done|]. by rewrite IH.
Qed.

Lemma aset_mid key k v w (a c : list (K * V)) :
  kcmp key k = 0 → all_below key a → all_above key c →
  aset key w (a ++ (k, v) :: c) = a ++ (k, w) :: c.
Proof.
  intros Hk Ha Hc. unfold aset. rewrite fmap_app, fmap_cons. simpl.
  rewrite (proj2 (Z.eqb_eq _ _) Hk). f_equal; [|f_equal].
  - apply aset_none, all_below_ne, Ha.
  - apply aset_none, all_above_ne, Hc.
Qed.

(** ** Trees and zippers *)

Lemma height_nonneg t : 0 <= height t.
Proof. induction t; simpl; lia. Qed.

Lemma inorder_zip path : ∀ t, inorder (zip path t) = before path ++ inorder t ++ after path.
Proof.
  induction path as [|[k v b r|l k v b] path IH]; intros t; simpl.
  - by rewrite app_nil_r.
  - rewrite IH. simpl. by rewrite <- !app_assoc.
  - rewrite IH. simpl. by rewrite <- !app_assoc.
Qed.

Lemma avl_zip path : ∀ t, avl (zip path t) ↔ avl t ∧ ctx_avl path (height t).
Proof.
  induction path as [|[k v b r|l k v b] path IH]; intros t; simpl; [tauto|..];
    rewrite IH; simpl; tauto.
Qed.

Lemma node_count_inorder t : node_count t = length (inorder t).
Proof. induction t; simpl; [done|]. rewrite length_app. simpl. lia. Qed.

Ltac avl_simp :=
  repeat match goal with
  | H : _ ∧ _ |- _ => destruct H
  | H : avl (Node _ _ _ _ _) |- _ => simpl in H
  | H : ctx_avl (_ :: _) _ |- _ => simpl in H
  end.

Ltac inorder_eq :=
  simpl; repeat (rewrite <- app_assoc; simpl); reflexivity.

(** ** Insertion *)

Definition frame_bal (f : frame K V) : Z :=
  match f with FrL _ _ b _ => b | FrR _ _ _ b => b end.

Lemma climb_app n m : ∀ t path,
  climb (n + m) t path =
  match climb n t path with Some (t', path') => climb m t' path' | None => None end.
Proof.
  induction n as [|n IH]; intros t path; [done|].
  destruct path as [|[] path]; simpl; auto.
Qed.

(** The root of a tree that grew leans to one side. *)
Definition root_tilted t : Prop :=
  match t with Nil => False | Node _ _ _ b _ => b ≠ 0 end.

Lemma zero_frame_climb f : ∀ t h path,
  frame_bal f = 0 → avl t → height t = h + 1 → ctx_avl (f :: path) h → 0 <= h →
  ∃ t', climb 1 t (f :: path) = Some (t', path)
    ∧ avl t' ∧ height t' = (h + 1) + 1 ∧ ctx_avl path (h + 1)
    ∧ inorder t' = inorder (plug f t) ∧ root_tilted t'.
Proof.
  destruct f as [k v b r|l k v b]; simpl; intros t h path -> Ht Hh Hc Hp; avl_simp.
  - eexists. split; [done|]. simpl.
    replace (1 + Z.max h (height r)) with (h + 1) in * by lia.
    assert (i8 (0 - 1) = -1) as -> by done. split_and!; auto; lia.
  - eexists. split; [done|]. simpl.
    replace (1 + Z.max (height l) h) with (h + 1) in * by lia.
    assert (i8 (0 + 1) = 1) as -> by done. split_and!; auto; lia.
Qed.

(** Below [y] every balance factor is 0: each subtree grows by one level. *)
Lemma zero_frames_climb pre : ∀ t h path,
  Forall (λ f, frame_bal f = 0) pre → avl t → height t = h + 1 → 0 <= h →
  ctx_avl (pre ++ path) h →
  ∃ t' h', climb (length pre) t (pre ++ path) = Some (t', path)
    ∧ avl t' ∧ height t' = h' + 1 ∧ ctx_avl path h' ∧ 0 <= h'
    ∧ inorder (zip path t') = inorder (zip (pre ++ path) t)
    ∧ (root_tilted t' ∨ t' = t).
Proof.
  induction pre as [|f pre IH]; intros t h path Hz Ht Hh Hp Hc.
  - exists t, h. auto 10.
  - apply Forall_cons in Hz as [Hf Hz].
    destruct (zero_frame_climb f t h (pre ++ path)) as (t1 & E1 & ? & ? & ? & Hin & Htilt); auto.
    destruct (IH t1 (h + 1) path) as (t2 & h2 & E2 & ? & ? & ? & ? & Hin2 & Ht2); auto; [lia|].
    exists t2, h2. split_and!; auto.
    + change (length (f :: pre)) with (1 + length pre)%nat.
      rewrite climb_app. simpl app. by rewrite E1.
    + rewrite Hin2. simpl. rewrite !inorder_zip. by rewrite Hin.
    + left. by destruct Ht2 as [| ->].
Qed.

Lemma rotate_left_ok yl yk yv yr :
  avl yl → avl yr → height yl = height yr + 2 → root_tilted yl →
  ∃ w, rotate_left_heavy yl yk yv yr = Some w ∧ avl w ∧ height w = height yl
    ∧ inorder w = inorder (Node yl yk yv 0 yr).
Proof.
  intros Hl Hr Hh Hxb. destruct yl as [|xl xk xv xb xr]; [done|]. simpl in Hl, Hxb. avl_simp.
  pose proof (height_nonneg yr). pose proof (height_nonneg xl). pose proof (height_nonneg xr).
  unfold rotate_left_heavy. simpl in Hh.
  destruct (Z.eqb_spec xb (-1)).
  - eexists. split; [done|]. simpl. split_and!; auto; try lia.
    inorder_eq.
  - assert (xb = 1) as -> by lia. simpl.
    destruct xr as [|wl wk wv wb wr]; simpl in *; [lia|]. avl_simp.
    destruct (Z.eqb_spec wb (-1)); [|destruct (Z.eqb_spec wb 0)];
      (eexists; split; [done|]; simpl; split_and!; auto; try lia;
       inorder_eq).
Qed.

Lemma rotate_right_ok yl yk yv yr :
  avl yl → avl yr → height yr = height yl + 2 → root_tilted yr →
  ∃ w, rotate_right_heavy yl yk yv yr = Some w ∧ avl w ∧ height w = height yr
    ∧ inorder w = inorder (Node yl yk yv 0 yr).
Proof.
  intros Hl Hr Hh Hxb. destruct yr as [|xl xk xv xb xr]; [done|]. simpl in Hr, Hxb. avl_simp.
  pose proof (height_nonneg yl). pose proof (height_nonneg xl). pose proof (height_nonneg xr).
  unfold rotate_right_heavy. simpl in Hh.
  destruct (Z.eqb_spec xb 1).
  - eexists. split; [done|]. simpl. split_and!; auto; try lia.
    inorder_eq.
  - assert (xb = -1) as -> by lia. simpl.
    destruct xl as [|wl wk wv wb wr]; simpl in *; [lia|]. avl_simp.
    destruct (Z.eqb_spec wb 1); [|destruct (Z.eqb_spec wb 0)];
      (eexists; split; [done|]; simpl; split_and!; auto; try lia;
       inorder_eq).
Qed.

(** At [y] itself: the subtree ends with the height it had, or [y] is the root. *)
Lemma rebalance_climb f path t h :
  avl t → height t = h + 1 → 0 <= h → ctx_avl (f :: path) h →
  (root_tilted t ∨ h = 0) → (frame_bal f = 0 → path = []) →
  ∃ y w, climb 1 t (f :: path) = Some (y, path) ∧ rebalance_y y = Some w
    ∧ avl (zip path w) ∧ inorder (zip path w) = inorder (zip (f :: path) t).
Proof.
  intros Ht Hh Hp Hc Htilt Hroot. setoid_rewrite inorder_zip. setoid_rewrite avl_zip.
  destruct f as [k v b r|l k v b]; simpl in Hc, Hroot; destruct Hc as (Hs & Hb & Hb1 & Hc).
  - assert (b = -1 ∨ b = 0 ∨ b = 1) as [-> | [-> | ->]] by lia; simpl.
    + destruct (rotate_left_ok t k v r) as (w & Hw & Hav & Hhw & Hin); auto;
        [lia|destruct Htilt; auto; pose proof (height_nonneg r); lia|].
      eexists _, w. split; [done|]. split; [done|].
      rewrite Hhw. split_and!; auto; [|rewrite Hin; inorder_eq].
      by replace (height t) with (1 + Z.max h (height r)) by lia.
    + rewrite (Hroot eq_refl) in *. eexists _, _. split; [done|]. split; [done|].
      assert (i8 (0 - 1) = -1) as -> by done. simpl. split_and!; auto; try lia. inorder_eq.
    + eexists _, _. split; [done|]. split; [done|].
      assert (i8 (1 - 1) = 0) as -> by done. simpl. split_and!; auto; try lia; [|inorder_eq].
      by replace (Z.max (height t) (height r)) with (Z.max h (height r)) by lia.
  - assert (b = -1 ∨ b = 0 ∨ b = 1) as [-> | [-> | ->]] by lia; simpl.
    + eexists _, _. split; [done|]. split; [done|].
      assert (i8 (-1 + 1) = 0) as -> by done. simpl. split_and!; auto; try lia; [|inorder_eq].
      by replace (Z.max (height l) (height t)) with (Z.max (height l) h) by lia.
    + rewrite (Hroot eq_refl) in *. eexists _, _. split; [done|]. split; [done|].
      assert (i8 (0 + 1) = 1) as -> by done. simpl. split_and!; auto; try lia. inorder_eq.
    + destruct (rotate_right_ok l k v t) as (w & Hw & Hav & Hhw & Hin); auto;
        [lia|destruct Htilt; auto; pose proof (height_nonneg l); lia|].
      eexists _, w. split; [done|]. split; [done|].
      rewrite Hhw. split_and!; auto; [|rewrite Hin; inorder_eq].
      by replace (height t) with (1 + Z.max (height l) h) by lia.
Qed.

(** What the search leaves: the frames below [y] are balanced, and [y] is
    unbalanced unless it is the root. *)
Definition y_ok path (y : nat) : Prop :=
  path = [] ∧ y = O ∨
  ∃ pre f rest, path = pre ++ f :: rest ∧ y = length rest
    ∧ Forall (λ f, frame_bal f = 0) pre ∧ (frame_bal f = 0 → rest = []).

Lemma y_ok_push path y f :
  y_ok path y → y_ok (f :: path) (if frame_bal f =? 0 then y else length path).
Proof.
  intros Hy. destruct (Z.eqb_spec (frame_bal f) 0).
  - destruct Hy as [[-> ->]|(pre & g & rest & -> & -> & Hz & Hg)]; right.
    + by exists [], f, [].
    + exists (f :: pre), g, rest. auto.
  - right. exists [], f, path. split_and!; auto. done.
Qed.

Lemma link_new_nonempty path y n :
  path ≠ [] →
  link_new path y n =
  ('(t, above) ← climb (length path - y) n path;
   w ← rebalance_y t; Some (zip above w)).
Proof. by destruct path. Qed.

Lemma link_new_ok path y key v :
  y_ok path y → ctx_avl path 0 →
  ∃ t, link_new path y (Node Nil key v 0 Nil) = Some t ∧ avl t
    ∧ inorder t = before path ++ (key, v) :: after path.
Proof.
  intros [[-> ->]|(pre & f & rest & -> & -> & Hz & Hf)] Hc.
  { eexists. split; [done|]. simpl. split_and!; auto; lia. }
  destruct (zero_frames_climb pre (Node Nil key v 0 Nil) 0 (f :: rest))
    as (t & h & E & Ht & Hh & Hc' & Hp & Hin & Htilt); simpl; auto; try lia.

  destruct (rebalance_climb f rest t h) as (yt & w & E1 & E2 & Ha & Hin2); auto.
  { destruct Htilt as [|Heq]; [auto|right]. subst t. simpl in Hh. lia. }
  exists (zip rest w). split_and!; auto.
  - rewrite link_new_nonempty by by destruct pre.
    rewrite length_app. simpl length.
    replace (length pre + S (length rest) - length rest)%nat with (length pre + 1)%nat by lia.
    rewrite climb_app, E, E1. simpl. by rewrite E2.
  - by rewrite Hin2, Hin, inorder_zip.
Qed.

(** ** Searching *)

Lemma bst_node l k v b r :
  bst (Node l k v b r) ↔ bst l ∧ bst r ∧ all_below k (inorder l) ∧ all_above k (inorder r).
Proof. apply sorted_mid. Qed.

Lemma find_node_spec key t : bst t → find_node t key = alookup key (inorder t).
Proof.
  induction t as [|l IHl k v b r IHr]; [done|].
  intros (Hl & Hr & Hlk & Hkr)%bst_node. simpl.
  pose proof (kcmp_swap key k).
  destruct (Z.ltb_spec (kcmp key k) 0); [|destruct (Z.ltb_spec 0 (kcmp key k))].
  - rewrite IHl by done.
    rewrite alookup_app. destruct (alookup key (inorder l)); [done|]. simpl.
    destruct (Z.eqb_spec (kcmp key k) 0); [lia|].
    rewrite alookup_above; [done|]. by eapply all_above_trans.
  - rewrite IHr by done. rewrite alookup_below by (eapply all_below_trans; [done|lia]).
    simpl. destruct (Z.eqb_spec (kcmp key k) 0); [lia|done].
  - rewrite alookup_below by (eapply all_below_eq; [done|lia]).
    simpl. destruct (Z.eqb_spec (kcmp key k) 0); [done|lia].
Qed.

Lemma bst_zip_node path l k v b r :
  bst (zip path (Node l k v b r)) →
  all_below k (before path ++ inorder l) ∧ all_above k (inorder r ++ after path).
Proof.
  unfold bst. rewrite inorder_zip. simpl. rewrite <- app_assoc, app_assoc. simpl.
  intros (_ & _ & ? & ?)%sorted_mid. auto.
Qed.

(** The descent of [map_get]: the key is found, or the hole is where it belongs. *)
Lemma descend_spec key p : ∀ path y,
  y_ok path y → bst (zip path p) → all_below key (before path) → all_above key (after path) →
  match descend key p path y with
  | Found k => kcmp key k = 0 ∧ alookup key (inorder (zip path p)) = find_node p key
               ∧ is_Some (find_node p key)
  | Absent path' y' =>
      y_ok path' y' ∧ zip path' Nil = zip path p
      ∧ all_below key (before path') ∧ all_above key (after path')
  end.
Proof.
  induction p as [|l IHl k v b r IHr]; intros path y Hy Hs Hb Ha; simpl; [auto|].
  destruct (bst_zip_node _ _ _ _ _ _ Hs) as [[? Hlk]%Forall_app [Hkr ?]%Forall_app].
  pose proof (kcmp_swap key k).
  destruct (Z.eqb_spec (kcmp key k) 0) as [E|E].
  - destruct (Z.ltb_spec (kcmp key k) 0); [lia|]. destruct (Z.ltb_spec 0 (kcmp key k)); [lia|].
    split_and!; auto.
    rewrite inorder_zip, alookup_below by done. simpl. rewrite <- app_assoc.
    rewrite alookup_below by (by eapply all_below_eq). simpl.
    destruct (Z.eqb_spec (kcmp key k) 0); [done|lia].
  - destruct (Z.ltb_spec 0 (kcmp key k)).
    + specialize (IHr (FrR l k v b :: path) (if b =? 0 then y else length path)).
      pose proof (y_ok_push path y (FrR l k v b) Hy) as Hy'. simpl in Hy', IHr.
      specialize (IHr Hy' Hs).
      destruct (Z.ltb_spec (kcmp key k) 0); [lia|].
      apply IHr; [|done]. apply Forall_app. split; [done|].
      apply Forall_app. split; [eapply all_below_trans; [done|lia]|].
      constructor; [simpl; lia|constructor].
    + specialize (IHl (FrL k v b r :: path) (if b =? 0 then y else length path)).
      pose proof (y_ok_push path y (FrL k v b r) Hy) as Hy'. simpl in Hy', IHl.
      specialize (IHl Hy' Hs).
      destruct (Z.ltb_spec (kcmp key k) 0); [|lia].
      apply IHl; [done|]. constructor; [simpl; lia|]. apply Forall_app. split; [|done].
      eapply all_above_trans; [done|lia].
Qed.

(** The search of [map_remove]. *)
Lemma locate_spec key p : ∀ path,
  bst (zip path p) → all_below key (before path) → all_above key (after path) →
  match locate key p path with
  | Some (q, path') =>
      ∃ l k v b r, q = Node l k v b r ∧ zip path' q = zip path p ∧ kcmp key k = 0
        ∧ all_below key (before path' ++ inorder l) ∧ all_above key (inorder r ++ after path')
  | None => find_node p key = None ∧ alookup key (inorder (zip path p)) = None
  end.
Proof.
  induction p as [|l IHl k v b r IHr]; intros path Hs Hb Ha; simpl.
  { split; [done|]. rewrite inorder_zip, alookup_below by done. by apply alookup_above. }
  destruct (bst_zip_node _ _ _ _ _ _ Hs) as [[? Hlk]%Forall_app [Hkr ?]%Forall_app].
  pose proof (kcmp_swap key k).
  destruct (Z.eqb_spec (kcmp key k) 0) as [E|E].
  - eexists _, _, _, _, _. split_and!; auto; apply Forall_app; split; auto.
    + by eapply all_below_eq.
    + by eapply all_above_eq.
  - destruct (Z.ltb_spec 0 (kcmp key k)).
    + destruct (Z.ltb_spec (kcmp key k) 0); [lia|].
      apply (IHr (FrR l k v b :: path)); [done| |done]. apply Forall_app. split; [done|].
      apply Forall_app. split; [eapply all_below_trans; [done|lia]|].
      constructor; [simpl; lia|constructor].
    + destruct (Z.ltb_spec (kcmp key k) 0); [|lia].
      apply (IHl (FrL k v b r :: path)); [done|done|].
      constructor; [simpl; lia|]. apply Forall_app. split; [|done].
      eapply all_above_trans; [done|lia].
Qed.

(** ** Removal *)

Lemma zip_app p1 p2 t : zip (p1 ++ p2) t = zip p2 (zip p1 t).
Proof. revert t. induction p1; simpl; auto. Qed.

Lemma before_app p1 p2 : before (p1 ++ p2) = before p2 ++ before p1.
Proof.
  induction p1 as [|[] p1 IH]; simpl; [by rewrite app_nil_r|done|].
  rewrite IH. by rewrite <- app_assoc.
Qed.

Lemma after_app p1 p2 : after (p1 ++ p2) = after p1 ++ after p2.
Proof. induction p1 as [|[] p1 IH]; simpl; [done| |done]. rewrite IH. by rewrite app_assoc. Qed.

(** Use a hypothesis on a context height that is equal by arithmetic. *)
Ltac ctx_height Hc :=
  match type of Hc with ctx_avl _ ?e =>
    match goal with |- ctx_avl _ ?e' => replace e' with e by lia; exact Hc end
  end.
(** The loop stops, or goes on with the subtree one level lower. *)
Ltac del_stop Hc :=
  eexists; split; [reflexivity|]; rewrite avl_zip, inorder_zip; simpl;
  split; [split_and!; auto; try lia; ctx_height Hc | inorder_eq].
Ltac del_go_on IH t h Hc :=
  destruct (IH t h) as (t' & -> & ? & Hin);
  [simpl; split_and!; auto; lia | simpl; lia | ctx_height Hc |
   exists t'; split_and!; [done|done|rewrite Hin; inorder_eq]].

Lemma del_loop_ok path : ∀ t h,
  avl t → height t = h → ctx_avl path (h + 1) →
  ∃ t', del_loop path t = Some t' ∧ avl t' ∧ inorder t' = before path ++ inorder t ++ after path.
Proof.
  induction path as [|[yk yv yb yr|yl yk yv yb] path IH]; intros t h Ht Hh Hc.
  - eexists. split; [done|]. simpl. by rewrite app_nil_r.
  - destruct Hc as (Hr & Hb & Hb1 & Hc). simpl del_loop. pose proof (height_nonneg t).
    assert (yb = -1 ∨ yb = 0 ∨ yb = 1) as [-> | [-> | ->]] by lia; simpl.
    + change (i8 (-1 + 1)) with 0. del_go_on IH (Node t yk yv 0 yr) (h + 1) Hc.
    + change (i8 (0 + 1)) with 1. del_stop Hc.
    + destruct yr as [|xl xk xv xb xr]; simpl in Hb, Hr, Hc; [lia|]. destruct_and! Hr.
      destruct (Z.eqb_spec xb (-1)); [|destruct (Z.eqb_spec xb 0)].
      * destruct xl as [|wl wk wv wb wr]; [simpl in *; pose proof (height_nonneg xr); lia|].
        simpl in *. destruct_and!.
        destruct (Z.eqb_spec wb 1); [|destruct (Z.eqb_spec wb 0)].
        -- del_go_on IH (Node (Node t yk yv (-1) wl) wk wv 0 (Node wr xk xv 0 xr)) (h + 2) Hc.
        -- del_go_on IH (Node (Node t yk yv 0 wl) wk wv 0 (Node wr xk xv 0 xr)) (h + 2) Hc.
        -- del_go_on IH (Node (Node t yk yv 0 wl) wk wv 0 (Node wr xk xv 1 xr)) (h + 2) Hc.
      * del_stop Hc.
      * del_go_on IH (Node (Node t yk yv 0 xl) xk xv 0 xr) (h + 2) Hc.
  - destruct Hc as (Hl & Hb & Hb1 & Hc). simpl del_loop. pose proof (height_nonneg t).
    assert (yb = -1 ∨ yb = 0 ∨ yb = 1) as [-> | [-> | ->]] by lia; simpl.
    + destruct yl as [|xl xk xv xb xr]; simpl in Hb, Hl, Hc; [lia|]. destruct_and! Hl.
      destruct (Z.eqb_spec xb 1); [|destruct (Z.eqb_spec xb 0)].
      * destruct xr as [|wl wk wv wb wr]; [simpl in *; pose proof (height_nonneg xl); lia|].
        simpl in *. destruct_and!.
        destruct (Z.eqb_spec wb (-1)); [|destruct (Z.eqb_spec wb 0)].
        -- del_go_on IH (Node (Node xl xk xv 0 wl) wk wv 0 (Node wr yk yv 1 t)) (h + 2) Hc.
        -- del_go_on IH (Node (Node xl xk xv 0 wl) wk wv 0 (Node wr yk yv 0 t)) (h + 2) Hc.
        -- del_go_on IH (Node (Node xl xk xv (-1) wl) wk wv 0 (Node wr yk yv 0 t)) (h + 2) Hc.
      * del_stop Hc.
      * del_go_on IH (Node xl xk xv 0 (Node xr yk yv 0 t)) (h + 2) Hc.
    + change (i8 (0 - 1)) with (-1). del_stop Hc.
    + change (i8 (1 - 1)) with 0. del_go_on IH (Node yl yk yv 0 t) (h + 1) Hc.
Qed.

(** The walk to the leftmost node: it re-describes the same tree. *)
Lemma leftmost_spec l : ∀ k v b r path,
  let '(k', v', sub, spine) := leftmost l k v b r path in
  (∃ b', zip spine (Node Nil k' v' b' sub) = zip path (Node l k v b r))
  ∧ before spine = before path.
Proof.
  induction l as [|l IH k0 v0 b0 r0 _]; intros k v b r path; simpl; [eauto|].
  specialize (IH k0 v0 b0 r0 (FrL k v b r :: path)).
  destruct (leftmost _ _ _ _ _ _) as [[[k' v'] sub] spine]. auto.
Qed.

Lemma unlink_node_ok path pl k v pb pr :
  avl (zip path (Node pl k v pb pr)) →
  ∃ t, unlink_node path pl pb pr = Some t ∧ avl t
    ∧ inorder t = (before path ++ inorder pl) ++ inorder pr ++ after path.
Proof.
  intros [(Hl & Hr & Hb & Hb1) Hc]%avl_zip. simpl in Hc. unfold unlink_node.
  destruct pr as [|rl rk rv rb rr].
  { simpl in Hb, Hc. pose proof (height_nonneg pl).
    destruct (del_loop_ok path pl (height pl)) as (t & -> & ? & Hin); auto.
    - ctx_height Hc.
    - exists t. split_and!; auto. rewrite Hin. inorder_eq. }
  destruct rl as [|sl sk sv sb sr].
  { simpl in Hb, Hc, Hr. destruct_and! Hr. pose proof (height_nonneg rr).
    destruct (del_loop_ok (FrR pl rk rv pb :: path) rr (height rr)) as (t & -> & ? & Hin);
      simpl; auto.
    - split_and!; auto; try lia. ctx_height Hc.
    - exists t. split_and!; auto. rewrite Hin. inorder_eq. }
  pose proof (leftmost_spec sl sk sv sb sr [FrL rk rv rb rr]) as Hlm.
  destruct (leftmost _ _ _ _ _ _) as [[[k' v'] sub] spine]. destruct Hlm as [(b' & Hz) Hbf].
  simpl in Hz, Hbf. set (pr := Node (Node sl sk sv sb sr) rk rv rb rr) in *.
  assert (avl (zip (spine ++ FrR pl k' v' pb :: path) (Node Nil k' v' b' sub))) as Hav.
  { rewrite zip_app, Hz. apply avl_zip. split; [done|]. cbn [ctx_avl]. auto. }
  apply avl_zip in Hav as [(_ & Hsub & Hb' & ?) Hc']. simpl in Hb', Hc'.
  pose proof (height_nonneg sub).
  destruct (del_loop_ok (spine ++ FrR pl k' v' pb :: path) sub (height sub)) as (t & -> & ? & Hin);
    auto; [ctx_height Hc'|].
  exists t. split_and!; auto. rewrite Hin.
  assert (inorder pr = (k', v') :: inorder sub ++ after spine) as ->.
  { rewrite <- Hz, inorder_zip, Hbf. done. }
  rewrite before_app, after_app, Hbf. inorder_eq.
Qed.
End avl_facts.
