(* ===== verification/AvlSpec.v ===== *)
(** * AvlSpec: what the operations of map.c promise

    The functional behaviour of each operation on every branch, the balance
    bound, the iteration order, and the refinement of the finite map
    [gmap bytes V] by the AVL map over NUL-free keys. *)

From stdpp Require Import prelude list sorting strings gmap.
From Stdlib Require Import ZArith Lia.
From S2P Require Import Prelude CString AvlMap AvlFacts.

Section avl_spec.
Context {K V : Type} `{KeyOrder K} `{EqDecision V}.
Implicit Types (m : avl_table K V) (t : avl_node K V) (k key : K) (v item vnull : V).

Definition bindings m : list (K * V) := inorder (avl_root m).

(** ** Lookups in updated binding lists *)

Lemma kcmp_eqb_trans k key k' :
  kcmp key k = 0 → (kcmp k' key =? 0) = (kcmp k' k =? 0).
Proof. intros E. pose proof (kcmp_eq_r key k k' E). apply eq_true_iff_eq. rewrite !Z.eqb_eq. lia. Qed.

Lemma alookup_None key (l : list (K * V)) :
  alookup key l = None ↔ Forall (λ p, kcmp key p.1 ≠ 0) l.
Proof.
  induction l as [|[k v] l IH]; simpl; [by split|].
  rewrite Forall_cons. simpl. destruct (Z.eqb_spec (kcmp key k) 0); [split; [done|lia]|].
  rewrite IH. tauto.
Qed.

Lemma alookup_ainsert k' key v (l : list (K * V)) :
  alookup key l = None →
  alookup k' (ainsert key v l) = if kcmp k' key =? 0 then Some v else alookup k' l.
Proof.
  induction l as [|[k w] l IH]; simpl; [done|]. intros Hl.
  destruct (Z.eqb_spec (kcmp key k) 0) as [|Hne]; [done|].
  destruct (kcmp key k <? 0); simpl; [done|]. rewrite IH by done.
  destruct (Z.eqb_spec (kcmp k' k) 0) as [E|], (Z.eqb_spec (kcmp k' key) 0) as [E'|]; try done.
  exfalso. apply Hne. eapply kcmp_eq_trans; [|exact E]. by apply kcmp_eq_sym.
Qed.

Lemma alookup_aset k' key v (l : list (K * V)) :
  alookup k' (aset key v l) =
  if kcmp k' key =? 0 then (λ _, v) <$> alookup key l else alookup k' l.
Proof.
  induction l as [|[k w] l IH]; simpl; [by case_match|].
  change (aset key v ((k, w) :: l)) with
    ((if kcmp key k =? 0 then (k, v) else (k, w)) :: aset key v l).
  destruct (Z.eqb_spec (kcmp key k) 0) as [E|E].
  - simpl. rewrite IH, (kcmp_eqb_trans k key k' E). by destruct (kcmp k' k =? 0).
  - simpl. rewrite IH.
    destruct (Z.eqb_spec (kcmp k' k) 0) as [E1|], (Z.eqb_spec (kcmp k' key) 0) as [E2|]; try done.
    exfalso. apply E. eapply kcmp_eq_trans; [|exact E1]. by apply kcmp_eq_sym.
Qed.

Lemma alookup_adelete k' key (l : list (K * V)) :
  alookup k' (adelete key l) = if kcmp k' key =? 0 then None else alookup k' l.
Proof.
  unfold adelete. induction l as [|[k w] l IH]; simpl; [by case_match|].
  rewrite filter_cons. case_decide as E; simpl in *.
  - rewrite IH.
    destruct (Z.eqb_spec (kcmp k' k) 0) as [E1|], (Z.eqb_spec (kcmp k' key) 0) as [E2|]; try done.
    exfalso. apply E. eapply kcmp_eq_trans; [|exact E1]. by apply kcmp_eq_sym.
  - rewrite IH, (kcmp_eqb_trans k key k') by lia. by destruct (kcmp k' k =? 0).
Qed.

Lemma adelete_absent key (l : list (K * V)) : alookup key l = None → adelete key l = l.
Proof. intros Hl. by apply adelete_none, alookup_None. Qed.

(** The keys of an ordered list determine that it is ordered. *)
Lemma sorted_keys (l l' : list (K * V)) :
  l.*1 = l'.*1 → StronglySorted klt l → StronglySorted klt l'.
Proof.
  intros E Hs. revert l' E. induction Hs as [|p l Hs IH Hp]; intros [|p' l'] E;
    simpl in E; try done; [constructor|]. injection E as Ek El. constructor; [by apply IH|].
  apply Forall_forall. intros q Hq. unfold klt.
  change (l.*1 = l'.*1) in El.
  assert (q.1 ∈ l.*1) as Hq' by (rewrite El; by apply list_elem_of_fmap_2).
  apply list_elem_of_fmap in Hq' as (q0 & Eq & Hin). rewrite <- Ek, Eq.
  rewrite Forall_forall in Hp. by apply Hp.
Qed.

Lemma aset_keys key v (l : list (K * V)) : (aset key v l).*1 = l.*1.
Proof.
  unfold aset. rewrite <- list_fmap_compose. apply list_fmap_ext.
  intros i p _. simpl. by case_match.
Qed.

(** ** Writing through a slot *)

Lemma set_val_height key item t : height (set_val key item t) = height t.
Proof. induction t; simpl; [done|]. repeat case_match; simpl; lia. Qed.

Lemma set_val_avl key item t : avl t → avl (set_val key item t).
Proof.
  induction t; simpl; [done|]. intros. destruct_and!.
  repeat case_match; simpl; rewrite ?set_val_height; auto.
Qed.

Lemma set_val_inorder key item t :
  bst t → inorder (set_val key item t) = aset key item (inorder t).
Proof.
  induction t as [|l IHl k v b r IHr]; [done|].
  intros (Hl & Hr & Hlk & Hkr)%bst_node. simpl. unfold aset. rewrite fmap_app, fmap_cons.
  change (fmap _ (inorder l)) with (aset key item (inorder l)).
  change (fmap _ (inorder r)) with (aset key item (inorder r)). simpl.
  pose proof (kcmp_swap key k).
  destruct (Z.ltb_spec (kcmp key k) 0); [|destruct (Z.ltb_spec 0 (kcmp key k))];
    destruct (Z.eqb_spec (kcmp key k) 0); try lia; simpl.
  - rewrite IHl by done. rewrite (aset_none _ _ (inorder r)); [done|].
    apply all_above_ne. by eapply all_above_trans.
  - rewrite IHr by done. rewrite (aset_none _ _ (inorder l)); [done|].
    apply all_below_ne. eapply all_below_trans; [done|lia].
  - rewrite !aset_none; [done|..].
    + by eapply all_above_ne, all_above_eq.
    + by eapply all_below_ne, all_below_eq.
Qed.

(** ** The operations *)

Lemma count_step (n : nat) (d : Z) : u64 (u64 (Z.of_nat n) + d) = u64 (Z.of_nat n + d).
Proof. by apply wrap_wrap_add. Qed.

(** [map_get] when the two allocations succeed. *)
Lemma map_get_ok m key vnull :
  wf_map m →
  ∃ m' slot, map_get m key vnull true true = Some (m', Some slot) ∧ wf_map m'
    ∧ kcmp key slot = 0
    ∧ bindings m' = match alookup key (bindings m) with
                    | Some _ => bindings m
                    | None => ainsert key vnull (bindings m)
                    end.
Proof.
  intros (Ha & Hs & Hc). unfold map_get, bindings.
  pose proof (descend_spec key (avl_root m) [] 0) as Hd. simpl in Hd.
  specialize (Hd (or_introl (conj eq_refl eq_refl)) Hs (Forall_nil_2 _) (Forall_nil_2 _)).
  destruct (descend key (avl_root m) [] 0) as [k|path y].
  - destruct Hd as (Hk & -> & [w ->]). exists m, k. split_and!; auto. by split_and!.
  - destruct Hd as (Hy & Hz & Hb & Hab). simpl.
    rewrite andb_false_r.
    assert (ctx_avl path 0) as Hctx by (rewrite <- Hz in Ha; by apply avl_zip in Ha as [_ ?]).
    assert (inorder (avl_root m) = before path ++ after path) as Hin
      by (rewrite <- Hz, inorder_zip; done).
    destruct (link_new_ok path y key vnull Hy Hctx) as (t & -> & Ht & Hi). simpl.
    eexists _, key. split; [reflexivity|].
    assert (bst t) as Hbt.
    { unfold bst in *. rewrite Hi. rewrite Hin in Hs.
      apply sorted_mid. apply StronglySorted_app in Hs as (_ & ? & ?). auto. }
    split_and!; [|apply kcmp_refl|].
    + split_and!; simpl; [done|done|]. rewrite Hc, count_step, Hi, Hin.
      rewrite !length_app. simpl. f_equal. lia.
    + simpl. rewrite Hi, Hin, alookup_below, (alookup_above _ (after path)) by done.
      by rewrite ainsert_mid.
Qed.

(** [delete_node] at the node a search for [key] stopped at. *)
Lemma delete_node_ok m key l k v b r path :
  wf_map m → zip path (Node l k v b r) = avl_root m → kcmp key k = 0 →
  all_below key (before path ++ inorder l) → all_above key (inorder r ++ after path) →
  ∃ m', delete_node m path (Node l k v b r) = Some (m', v) ∧ wf_map m'
    ∧ bindings m' = adelete key (bindings m) ∧ alookup key (bindings m) = Some v.
Proof.
  intros (Ha & Hs & Hc) Hz Hk Hb Hab. unfold delete_node.
  assert (inorder (avl_root m) = (before path ++ inorder l) ++ (k, v) :: inorder r ++ after path)
    as Hin by (rewrite <- Hz, inorder_zip; simpl; by rewrite <- !app_assoc).
  rewrite <- Hz in Ha. apply unlink_node_ok in Ha as (t & -> & Ht & Hi). simpl.
  eexists. split; [reflexivity|]. unfold bindings.
  split_and!; simpl.
  - split_and!; simpl; [done|..].
    + unfold bst. rewrite Hi. unfold bst in Hs. rewrite Hin in Hs.
      pose proof Hs as (? & ? & Hbk & Hka)%sorted_mid.
      apply StronglySorted_app_2; auto. intros x y Hx Hy. unfold all_below, all_above in *.
      rewrite Forall_forall in Hbk, Hka. exact (kcmp_trans _ _ _ (Hbk _ Hx) (Hka _ Hy)).
    + rewrite Hc, <- Z.add_opp_r, count_step, Hi, Hin, !length_app. simpl. rewrite !length_app. f_equal. lia.
  - by rewrite Hi, Hin, adelete_mid.
  - rewrite Hin, alookup_below by done. simpl. by rewrite (proj2 (Z.eqb_eq _ _) Hk).
Qed.

(** ** Theorems *)

(** C1. [map_get] with successful allocations returns the slot of the key and
    keeps the balance, order and count invariants; the bindings are unchanged if
    the key was present, otherwise exactly the new binding (key, NULL) is added at
    its place in the order. *)
Theorem map_get_correct m key vnull (Hm : wf_map m) :
  ∃ m' slot, map_get m key vnull true true = Some (m', Some slot) ∧ wf_map m'
    ∧ kcmp key slot = 0
    ∧ bindings m' = match alookup key (bindings m) with
                    | Some _ => bindings m
                    | None => ainsert key vnull (bindings m)
                    end.
Proof. by apply map_get_ok. Qed.

Lemma map_remove_ok m key vnull :
  wf_map m →
  ∃ m', map_remove m key vnull = Some (m', default vnull (alookup key (bindings m)))
    ∧ wf_map m' ∧ bindings m' = adelete key (bindings m).
Proof.
  intros Hm. unfold map_remove. pose proof (locate_spec key (avl_root m) []) as Hl. simpl in Hl.
  specialize (Hl (proj1 (proj2 Hm)) (Forall_nil_2 _) (Forall_nil_2 _)).
  destruct (locate key (avl_root m) []) as [[q path]|].
  - destruct Hl as (l & k & v & b & r & -> & Hz & Hk & Hb & Hab).
    destruct (delete_node_ok m key l k v b r path) as (m' & -> & ? & ? & ->); auto.
    by exists m'.
  - destruct Hl as [_ Hn]. exists m. unfold bindings. rewrite Hn.
    split_and!; auto. by rewrite adelete_absent.
Qed.

(** C2. [map_remove] never fails on a well-formed map: it keeps the invariants,
    removes exactly the bindings of the key and returns the value it had, or NULL. *)
Theorem map_remove_correct m key vnull (Hm : wf_map m) :
  ∃ m', map_remove m key vnull = Some (m', default vnull (alookup key (bindings m)))
    ∧ wf_map m' ∧ bindings m' = adelete key (bindings m).
Proof. by apply map_remove_ok. Qed.

(** [map_find] on a well-formed map is the lookup in the ordered bindings. *)
Lemma map_find_correct m key (Hm : wf_map m) :
  map_find m key = alookup key (bindings m).
Proof. apply find_node_spec, Hm. Qed.

Lemma map_put_ok m key item vnull :
  wf_map m →
  ∃ m' ret, map_put m key item vnull true true = Some (m', ret) ∧ wf_map m'
    ∧ match alookup key (bindings m) with
      | Some v => bindings m' = aset key item (bindings m)
                  ∧ ret = if decide (v = item) then vnull else v
      | None => bindings m' = aset key item (ainsert key vnull (bindings m)) ∧ ret = vnull
      end.
Proof.
  intros Hm. unfold map_put.
  destruct (map_get_ok m key vnull Hm) as (m1 & slot & -> & H1 & Hk & Hb1). simpl.
  destruct H1 as (Ha & Hs & Hc).
  assert (∀ l : list (K * V), aset slot item l = aset key item l) as Hset.
  { intros l. apply list_fmap_ext. intros _ p _.
    pose proof (kcmp_eq_l key slot p.1 Hk).
    destruct (Z.eqb_spec (kcmp slot p.1) 0), (Z.eqb_spec (kcmp key p.1) 0); auto; lia. }
  rewrite find_node_spec by done. fold (bindings m1).
  assert (alookup slot (bindings m1) = alookup key (bindings m1)) as ->.
  { clear -Hk. induction (bindings m1) as [|[k v] l IH]; simpl; [done|].
    pose proof (kcmp_eq_l key slot k Hk).
    destruct (Z.eqb_spec (kcmp slot k) 0), (Z.eqb_spec (kcmp key k) 0); auto; lia. }
  assert (bindings (with_root m1 (set_val slot item (avl_root m1))) = aset key item (bindings m1))
    as Hb' by (unfold bindings; simpl; by rewrite set_val_inorder, Hset).
  assert (wf_map (with_root m1 (set_val slot item (avl_root m1)))) as Hwf.
  { unfold wf_map, bst. simpl. change (inorder (set_val slot item (avl_root m1)) =
      aset key item (inorder (avl_root m1))) in Hb'. rewrite Hb'. split_and!; [by apply set_val_avl| |].
    - eapply sorted_keys; [symmetry; apply aset_keys|done].
    - rewrite Hc. f_equal. unfold aset. by rewrite length_fmap. }
  destruct (alookup key (bindings m)) as [v|] eqn:E.
  - rewrite Hb1, E. simpl. eexists _, _. split_and!; [done|done|by rewrite Hb', Hb1|done].
  - rewrite Hb1, alookup_ainsert, kcmp_refl by done. simpl.
    eexists _, _. split_and!; [done|done|by rewrite Hb', Hb1|]. by case_decide.
Qed.

(** After a successful [map_put] of an item every lookup is right: the key (and
    any key comparing equal to it) gives the item, every other key what it gave
    before; the call returns the replaced value when it differs from the item, and
    NULL otherwise. *)
Theorem map_put_lookup m key item vnull (Hm : wf_map m) :
  ∃ m' ret, map_put m key item vnull true true = Some (m', ret) ∧ wf_map m'
    ∧ (∀ k', map_find m' k' = if kcmp k' key =? 0 then Some item else map_find m k')
    ∧ ret = match map_find m key with
            | Some v => if decide (v = item) then vnull else v
            | None => vnull
            end.
Proof.
  destruct (map_put_ok m key item vnull Hm) as (m' & ret & E & Hm' & Hb).
  exists m', ret. split_and!; [done|done| |].
  - intros k'. rewrite (find_node_spec k' (avl_root m') (proj1 (proj2 Hm')) : map_find m' k' = _).
    rewrite (find_node_spec k' (avl_root m) (proj1 (proj2 Hm)) : map_find m k' = _).
    fold (bindings m) (bindings m').
    destruct (alookup key (bindings m)) as [v|] eqn:El; destruct Hb as [-> _].
    + by rewrite alookup_aset, El.
    + rewrite alookup_aset, !alookup_ainsert, kcmp_refl by done. simpl. by case_match.
  - rewrite (find_node_spec key (avl_root m) (proj1 (proj2 Hm)) : map_find m key = _).
    fold (bindings m). by destruct (alookup key (bindings m)); destruct Hb as [_ ->].
Qed.
End avl_spec.

(** ** Balance *)

Section avl_balance.
Context {K V : Type} `{KeyOrder K}.
Implicit Types (t : avl_node K V) (m : avl_table K V).

(** Fewest nodes of an AVL tree of a given height. *)
Fixpoint min_nodes (h : nat) : Z :=
  match h with
  | O => 0
  | S O => 1
  | S (S h' as h1) => 1 + min_nodes h1 + min_nodes h'
  end.

Lemma min_nodes_SS h : min_nodes (S (S h)) = 1 + min_nodes (S h) + min_nodes h.
Proof. done. Qed.

Lemma min_nodes_step h : 0 <= min_nodes h <= min_nodes (S h).
Proof. induction h as [|h IH]; [simpl; lia|]. rewrite min_nodes_SS. lia. Qed.

Lemma min_nodes_mono a b : (a <= b)%nat → min_nodes a <= min_nodes b.
Proof. induction 1 as [|c _ IH]; [lia|]. pose proof (min_nodes_step c). lia. Qed.

Lemma min_nodes_pow h : 2 ^ (Z.of_nat h / 2) <= min_nodes h + 1.
Proof.
  induction h as [h IH] using lt_wf_ind. destruct h as [|[|h]]; [by vm_compute|by vm_compute|].
  rewrite min_nodes_SS. pose proof (min_nodes_step h). specialize (IH h ltac:(lia)).
  replace (Z.of_nat (S (S h))) with (Z.of_nat h + 1 * 2) by lia.
  assert (0 <= Z.of_nat h / 2) by (apply Z.div_pos; lia).
  rewrite Z.div_add, Z.pow_add_r by lia. change (2 ^ 1) with 2. lia.
Qed.

Lemma avl_min_nodes t :
  avl t → min_nodes (Z.to_nat (height t)) <= Z.of_nat (length (inorder t)).
Proof.
  induction t as [|l IHl k v b r IHr]; simpl; [lia|].
  intros (Hl & Hr & Hb & Hb1). rewrite length_app. simpl.
  specialize (IHl Hl). specialize (IHr Hr).
  pose proof (height_nonneg l). pose proof (height_nonneg r).
  replace (Z.to_nat (1 + Z.max (height l) (height r)))
    with (S (Z.to_nat (Z.max (height l) (height r)))) by lia.
  destruct (Z.to_nat (Z.max (height l) (height r))) as [|h] eqn:E; [simpl; lia|].
  rewrite min_nodes_SS.
  destruct (Z.max_spec (height l) (height r)) as [[? Em]|[? Em]]; rewrite Em in E.
  - rewrite E in IHr. pose proof (min_nodes_mono h (Z.to_nat (height l)) ltac:(lia)). lia.
  - rewrite E in IHl. pose proof (min_nodes_mono h (Z.to_nat (height r)) ltac:(lia)). lia.
Qed.

(** A well-formed map of n bindings has height at most 2 log2 (n + 1) + 1, so
    every search loop of map.c runs a logarithmic number of steps. *)
Theorem map_height_log m (Hm : wf_map m) :
  2 ^ (height (avl_root m) / 2) <= Z.of_nat (length (bindings m)) + 1.
Proof.
  destruct Hm as (Ha & _ & _). pose proof (avl_min_nodes _ Ha) as Hn.
  pose proof (min_nodes_pow (Z.to_nat (height (avl_root m)))) as Hp.
  rewrite Z2Nat.id in Hp by apply height_nonneg. unfold bindings. lia.
Qed.

(** ** Destruction *)

Fixpoint right_spine t : nat :=
  match t with Nil => O | Node _ _ _ _ r => S (right_spine r) end.

Lemma right_spine_le t : (right_spine t <= node_count t)%nat.
Proof. induction t; simpl; lia. Qed.

Lemma destroy_loop_ok fuel : ∀ t,
  (2 * node_count t - right_spine t <= fuel)%nat → destroy_loop fuel t = Some (inorder t).
Proof.
  induction fuel as [|n IH]; intros [|[|ql qk qv qb qr] k v b r] Hf; try done.
  - simpl in Hf. pose proof (right_spine_le r). lia.
  - simpl in Hf. pose proof (right_spine_le r). lia.
  - simpl in Hf |- *. pose proof (right_spine_le r). rewrite IH by lia. done.
  - simpl destroy_loop. simpl in Hf. rewrite IH by (simpl; lia).
    simpl. by rewrite <- app_assoc.
Qed.

(** [map_destroy] terminates and calls the destroy function once for every
    non-null value of the map, in ascending order of the keys. *)
Theorem map_destroy_inorder `{EqDecision V} m (vnull : V) :
  map_destroy m vnull = Some (filter (λ v, v ≠ vnull) ((bindings m).*2)).
Proof. unfold map_destroy. by rewrite destroy_loop_ok by lia. Qed.

(** ** Iteration *)

(** The bindings at and after the position of an iterator. *)
Definition it_rest (it : iterator K V) : list (K * V) :=
  match it with
  | Some (Node _ k v _ r, path) => (k, v) :: inorder r ++ after path
  | _ => []
  end.

(** The iterator stands on a node of the tree [t]. *)
Definition it_in t (it : iterator K V) : Prop :=
  match it with
  | Some (Node l k v b r, path) => zip path (Node l k v b r) = t
  | Some (Nil, _) => False
  | None => True
  end.

Lemma go_left_ok p : ∀ path, p ≠ Nil →
  it_rest (go_left p path) = inorder p ++ after path
  ∧ it_in (zip path p) (go_left p path).
Proof.
  induction p as [|l IH k v b r _]; intros path Hp; [done|]. simpl.
  destruct l as [|ll lk lv lb lr]; [by split|].
  destruct (IH (FrL k v b r :: path)) as [Hr Hi]; [done|].
  split; [|exact Hi]. etransitivity; [exact Hr|]. simpl. by rewrite <- !app_assoc.
Qed.

Lemma up_left_ok path : ∀ p,
  it_rest (up_left p path) = after path ∧ it_in (zip path p) (up_left p path).
Proof. induction path as [|[k v b r|l k v b] path IH]; intros p; simpl; [done|done|apply IH]. Qed.

Lemma iterator_next_ok t it :
  it_in t it → it ≠ None →
  ∃ it', iterator_next it = Some it' ∧ it_in t it' ∧ it_rest it' = tail (it_rest it).
Proof.
  destruct it as [[[|l k v b r] path]|]; simpl; [done| |done]. intros Hz _.
  eexists. split; [done|]. subst t. destruct r as [|rl rk rv rb rr].
  - destruct (up_left_ok path (Node l k v b Nil)). by split.
  - destruct (go_left_ok (Node rl rk rv rb rr) (FrR l k v b :: path)) as [Hr Hi]; [done|].
    by split.
Qed.

(** Repeated [iterator_next], collecting the bindings visited. *)
Fixpoint iterate (fuel : nat) (it : iterator K V) : list (K * V) :=
  match fuel with
  | O => []
  | S n =>
      match iterator_key it, iterator_val it, iterator_next it with
      | Some k, Some v, Some it' => (k, v) :: iterate n it'
      | _, _, _ => []
      end
  end.

Lemma iterate_ok n : ∀ t it,
  it_in t it → (length (it_rest it) <= n)%nat → iterate n it = it_rest it.
Proof.
  induction n as [|n IH]; intros t [[[|l k v b r] path]|] Hi Hn; try done; simpl in Hn; [lia|].
  destruct (iterator_next_ok t (Some (Node l k v b r, path)) Hi) as (it' & En & Hi' & Hr); [done|].
  cbn [iterate]. rewrite En. simpl. f_equal. rewrite (IH t it' Hi').
  - by rewrite Hr.
  - rewrite Hr. simpl. lia.
Qed.

Lemma map_first_ok m : it_in (avl_root m) (map_first m) ∧ it_rest (map_first m) = bindings m.
Proof.
  unfold map_first, bindings. destruct (avl_root m) as [|l k v b r]; [done|].
  destruct (go_left_ok (Node l k v b r) []) as [Hr Hi]; [done|].
  split; [exact Hi|]. rewrite Hr. apply app_nil_r.
Qed.

(** Starting at [map_first] and advancing with [iterator_next] visits every
    binding of the map exactly once, in ascending order, then stops. *)
Theorem iteration_visits_all m (n : nat) :
  iterate (length (bindings m) + n) (map_first m) = bindings m.
Proof.
  destruct (map_first_ok m) as [Hi Hr]. rewrite (iterate_ok _ _ _ Hi); rewrite Hr; [done|lia].
Qed.

(** Paths made of left, resp. right, steps only. *)
Definition all_left (pre : list (frame K V)) : Prop :=
  Forall (λ f, match f with FrL _ _ _ _ => True | _ => False end) pre.
Definition all_right (pre : list (frame K V)) : Prop :=
  Forall (λ f, match f with FrR _ _ _ _ => True | _ => False end) pre.

Lemma go_left_shape p : ∀ path q path',
  go_left p path = Some (q, path') →
  ∃ pre k v b r, path' = pre ++ path ∧ all_left pre ∧ q = Node Nil k v b r ∧ zip pre q = p.
Proof.
  induction p as [|l IH k v b r _]; intros path q path' E; simpl in E; [done|].
  destruct l as [|ll lk lv lb lr].
  - injection E as <- <-. exists [], k, v, b, r. split_and!; auto. constructor.
  - destruct (IH _ _ _ E) as (pre & k' & v' & b' & r' & -> & Hp & -> & Hz).
    exists (pre ++ [FrL k v b r]), k', v', b', r'. rewrite <- app_assoc. split_and!; auto.
    + apply Forall_app. split; [done|]. by constructor.
    + rewrite zip_app, Hz. done.
Qed.

Lemma up_right_left pre : ∀ p path,
  all_left pre → up_right p (pre ++ path) = up_right (zip pre p) path.
Proof.
  induction pre as [|f pre IH]; intros p path Hp; [done|].
  apply Forall_cons in Hp as [Hf Hp]. destruct f; [|done]. simpl. by apply IH.
Qed.

Lemma up_left_shape path : ∀ p q path',
  up_left p path = Some (q, path') →
  ∃ pre k v b r, path = pre ++ FrL k v b r :: path' ∧ all_right pre
    ∧ q = Node (zip pre p) k v b r.
Proof.
  induction path as [|[k v b r|l k v b] path IH]; intros p q path' E; simpl in E; [done|..].
  - injection E as <- <-. exists [], k, v, b, r. split_and!; auto. constructor.
  - destruct (IH _ _ _ E) as (pre & k' & v' & b' & r' & -> & Hp & ->).
    exists (FrR l k v b :: pre), k', v', b', r'. split_and!; auto. by constructor.
Qed.

Lemma go_right_zip pre : ∀ l k v b path,
  all_right pre →
  go_right (zip pre (Node l k v b Nil)) path = Some (Node l k v b Nil, pre ++ path).
Proof.
  intros l k v b path. revert path.
  induction pre as [|f pre IH] using rev_ind; intros path Hp; [done|].
  apply Forall_app in Hp as [Hp [Hf _]%Forall_cons]. destruct f as [|fl fk fv fb]; [done|].
  rewrite zip_app. simpl.
  assert (zip pre (Node l k v b Nil) ≠ Nil) as Hne.
  { clear. intros E. apply (f_equal (@inorder K V)) in E. rewrite inorder_zip in E.
    simpl in E. destruct (before pre), (inorder l); simpl in E; congruence. }
  destruct (zip pre (Node l k v b Nil)) eqn:E; [done|].
  rewrite IH by done. by rewrite <- app_assoc.
Qed.

(** [iterator_prev] undoes [iterator_next]: stepping forward to a valid
    position and back returns to the same node of the map. *)
Theorem iterator_next_prev m it p (Hit : it_in (avl_root m) it)
    (Hn : iterator_next it = Some (Some p)) :
  iterator_prev (Some p) = Some it.
Proof.
  destruct it as [[[|l k v b r] path]|]; simpl in Hn; try done.
  destruct p as [q path']. injection Hn as Hn. destruct r as [|rl rk rv rb rr].
  - apply up_left_shape in Hn as (pre & k' & v' & b' & r' & -> & Hp & ->). simpl.
    destruct (zip pre (Node l k v b Nil)) eqn:E.
    + apply (f_equal (@inorder K V)) in E. rewrite inorder_zip in E.
      simpl in E. destruct (before pre), (inorder l); simpl in E; congruence.
    + rewrite <- E. by rewrite go_right_zip.
  - apply go_left_shape in Hn as (pre & k' & v' & b' & r' & -> & Hp & -> & Hz). simpl.
    rewrite up_right_left by done. by rewrite Hz.
Qed.

(** ** map_for_each *)

(** As long as the function returns 0, [process_all] calls it on every binding in
    order. *)
Lemma process_all_zero f t :
  Forall (λ p, f p.1 p.2 = 0) (inorder t) → process_all f t 0 = (inorder t, 0).
Proof.
  induction t as [|l IHl k v b r IHr]; simpl; [done|].
  intros [Hl [Hk Hr]%Forall_cons]%Forall_app. simpl in Hk.
  rewrite IHl by done. rewrite Hk, Z.lor_diag, IHr by done. done.
Qed.

(** [map_for_each] with a function that returns 0 on every binding calls it on
    all of them in ascending order, returns 0 and leaves the map as it was. *)
Theorem map_for_each_all m f (Hf : ∀ k v, (k, v) ∈ bindings m → f k v = 0) :
  map_for_each m f =
  (AvlTable (avl_root m) (avl_count m) (no_duplicate m) 0, bindings m, 0).
Proof.
  unfold map_for_each. rewrite process_all_zero; [done|].
  apply Forall_forall. intros [k v] Hkv. by apply Hf.
Qed.
End avl_balance.

(** ** Where the code and its documentation differ *)

Section avl_errors.
Context {K V : Type} `{KeyOrder K}.
Implicit Types (t : avl_node K V) (m : avl_table K V).

(** [map_get] on an absent key when only the copy of the key cannot be
    allocated returns NULL and adds no binding, but has already counted one: the
    size of the map is one too large from then on. *)
Theorem map_get_key_oom m key (vnull : V) (Hm : wf_map m) (Hd : no_duplicate m = false)
    (Hk : alookup key (bindings m) = None) :
  ∃ m', map_get m key vnull true false = Some (m', None) ∧ bindings m' = bindings m
    ∧ avl_count m' = u64 (Z.of_nat (length (bindings m')) + 1).
Proof.
  destruct Hm as (Ha & Hs & Hc). unfold map_get.
  pose proof (descend_spec key (avl_root m) [] 0) as Hdesc. simpl in Hdesc.
  specialize (Hdesc (or_introl (conj eq_refl eq_refl)) Hs (Forall_nil_2 _) (Forall_nil_2 _)).
  destruct (descend key (avl_root m) [] 0) as [k|path y].
  - destruct Hdesc as (_ & Hl & [w Hw]). unfold bindings in Hk. rewrite Hl, Hw in Hk. done.
  - simpl. rewrite Hd. simpl. eexists. split_and!; [done|done|]. simpl.
    rewrite Hc. by apply count_step.
Qed.

(** [map_for_each] does not stop at an error: when the function fails inside
    the left subtree of a node it is still called on that node, and the codes are
    or-ed together instead of the first one being returned. *)
Theorem process_all_continues (f : K → V → Z) l k v b r
    (Herr : (process_all f l 0).2 ≠ 0) :
  process_all f (Node l k v b r) 0 =
  ((process_all f l 0).1 ++ [(k, v)], Z.lor (process_all f l 0).2 (f k v)).
Proof.
  simpl. destruct (process_all f l 0) as [c1 ret1]. simpl in Herr |- *.
  assert (Z.lor ret1 (f k v) ≠ 0) as Hne by (rewrite Z.lor_eq_0_iff; lia).
  destruct r as [|rl rk rv rb rr]; simpl; [done|].
  rewrite (proj2 (Z.eqb_neq _ _) Hne). done.
Qed.
End avl_errors.

(** ** Refinement: the map as a finite map from strings to values *)

Section avl_refine.
Context {V : Type} `{EqDecision V} (vnull : V).
Implicit Types (m : avl_table bytes V) (g : gmap bytes V) (l : list (bytes * V)).

(** A client's operations and what they return. *)
Inductive map_op :=
  | OpPut (key : bytes) (item : V)
  | OpRemove (key : bytes)
  | OpFind (key : bytes).
Definition op_key (o : map_op) : bytes :=
  match o with OpPut k _ => k | OpRemove k => k | OpFind k => k end.

Definition run_op m (o : map_op) : option (avl_table bytes V * option V) :=
  match o with
  | OpPut k v => '(m', r) ← map_put m k v vnull true true; Some (m', Some r)
  | OpRemove k => '(m', r) ← map_remove m k vnull; Some (m', Some r)
  | OpFind k => Some (m, map_find m k)
  end.

(** The same operations on a finite map. *)
Definition spec_op g (o : map_op) : gmap bytes V * option V :=
  match o with
  | OpPut k v =>
      (<[k := v]> g,
       Some (match g !! k with
             | Some w => if decide (w = v) then vnull else w
             | None => vnull
             end))
  | OpRemove k => (delete k g, Some (default vnull (g !! k)))
  | OpFind k => (g, g !! k)
  end.

Fixpoint run_ops m (os : list map_op) : option (avl_table bytes V * list (option V)) :=
  match os with
  | [] => Some (m, [])
  | o :: os' =>
      '(m1, r) ← run_op m o;
      '(m2, rs) ← run_ops m1 os';
      Some (m2, r :: rs)
  end.
Fixpoint spec_ops g (os : list map_op) : gmap bytes V * list (option V) :=
  match os with
  | [] => (g, [])
  | o :: os' =>
      let '(g1, r) := spec_op g o in
      let '(g2, rs) := spec_ops g1 os' in
      (g2, r :: rs)
  end.

Definition keys_nul_free l : Prop := Forall (λ p, nul_free p.1) l.

(** The abstraction relation. *)
Definition represents m g : Prop :=
  wf_map m ∧ keys_nul_free (bindings m) ∧ ∀ k, map_find m k = g !! k.

Lemma kcmp_nul_free (k k' : bytes) :
  nul_free k → (kcmp k' k =? 0) = bool_decide (k = k').
Proof.
  intros Hk. case_bool_decide as E.
  - subst. by rewrite kcmp_refl.
  - apply Z.eqb_neq. intros E'. apply E. apply str_cmp_eq_nul_free; [done|].
    exact (proj1 (kcmp_eq_sym k' k) E').
Qed.

Lemma keys_ainsert k v l : nul_free k → keys_nul_free l → keys_nul_free (ainsert k v l).
Proof.
  intros Hk. induction 1 as [|[k' w] l Hk' Hl IH]; simpl; [by repeat constructor|].
  case_match; repeat constructor; auto.
Qed.

Lemma keys_aset k v l : keys_nul_free l → keys_nul_free (aset k v l).
Proof.
  unfold keys_nul_free, aset. rewrite Forall_fmap. intros Hl.
  eapply Forall_impl; [exact Hl|]. intros p ?. simpl. by case_match.
Qed.

Lemma keys_adelete k l : keys_nul_free l → keys_nul_free (adelete k l).
Proof.
  unfold keys_nul_free, adelete. rewrite !Forall_forall. intros Hl p Hp.
  by apply list_elem_of_filter in Hp as [_ ?%Hl].
Qed.

Lemma put_represents m g k v :
  represents m g → nul_free k →
  ∃ m', run_op m (OpPut k v) = Some (m', (spec_op g (OpPut k v)).2)
    ∧ represents m' (spec_op g (OpPut k v)).1.
Proof.
  intros (Hm & Hn & Hg) Hk. simpl.
  destruct (map_put_ok m k v vnull Hm) as (m' & ret & -> & Hm' & Hb). exists m'. simpl.
  assert (map_find m k = alookup k (bindings m)) as El by (apply find_node_spec, Hm).
  rewrite <- Hg, El. split.
  { by destruct (alookup k (bindings m)); destruct Hb as [_ ->]. }
  split_and!; [done| |].
  - destruct (alookup k (bindings m)); destruct Hb as [-> _]; apply keys_aset; auto.
    by apply keys_ainsert.
  - intros k'. rewrite lookup_insert, <- Hg.
    assert (map_find m k' = alookup k' (bindings m)) as -> by (apply find_node_spec, Hm).
    assert (map_find m' k' = alookup k' (bindings m')) as -> by (apply find_node_spec, Hm').
    destruct (alookup k (bindings m)) eqn:E; destruct Hb as [-> _].
    + rewrite alookup_aset, E, kcmp_nul_free by done. by repeat case_decide; case_bool_decide.
    + rewrite alookup_aset, !alookup_ainsert, kcmp_refl, kcmp_nul_free by done.
      by case_decide; case_bool_decide.
Qed.

Lemma remove_represents m g k :
  represents m g → nul_free k →
  ∃ m', run_op m (OpRemove k) = Some (m', (spec_op g (OpRemove k)).2)
    ∧ represents m' (spec_op g (OpRemove k)).1.
Proof.
  intros (Hm & Hn & Hg) Hk. simpl.
  destruct (map_remove_ok m k vnull Hm) as (m' & -> & Hm' & Hb). exists m'. simpl.
  assert (map_find m k = alookup k (bindings m)) as El by (apply find_node_spec, Hm).
  rewrite <- Hg, El. split; [done|]. split_and!; [done|rewrite Hb; by apply keys_adelete|].
  intros k'. rewrite lookup_delete, <- Hg.
  assert (map_find m k' = alookup k' (bindings m)) as -> by (apply find_node_spec, Hm).
  assert (map_find m' k' = alookup k' (bindings m')) as -> by (apply find_node_spec, Hm').
  rewrite Hb, alookup_adelete, kcmp_nul_free by done. by case_decide; case_bool_decide.
Qed.

Lemma run_op_represents m g o :
  represents m g → nul_free (op_key o) →
  ∃ m', run_op m o = Some (m', (spec_op g o).2) ∧ represents m' (spec_op g o).1.
Proof.
  destruct o as [k v|k|k]; simpl op_key; intros Hr Hk.
  - by apply put_represents.
  - by apply remove_represents.
  - exists m. simpl. by rewrite (proj2 (proj2 Hr)).
Qed.

Lemma run_ops_represents os : ∀ m g,
  represents m g → Forall (λ o, nul_free (op_key o)) os →
  ∃ m', run_ops m os = Some (m', (spec_ops g os).2) ∧ represents m' (spec_ops g os).1.
Proof.
  induction os as [|o os IH]; intros m g Hr Hk; [by exists m|].
  apply Forall_cons in Hk as [Ho Hk]. simpl.
  destruct (run_op_represents m g o Hr Ho) as (m1 & -> & H1). simpl.
  destruct (spec_op g o) as [g1 r]. simpl in *.
  destruct (IH m1 g1 H1 Hk) as (m2 & -> & H2). simpl.
  destruct (spec_ops g1 os) as [g2 rs]. by exists m2.
Qed.

(** C18. A freshly created map refines the finite map from strings to values: any
    sequence of puts, removes and lookups over NUL-free keys runs without a fault,
    returns what the finite map returns at every step, and ends in a well-formed
    AVL tree that represents the final finite map. *)
Theorem avl_map_refines_gmap nodup os (Hk : Forall (λ o, nul_free (op_key o)) os) :
  ∃ m0 m', map_create nodup true = Some m0
    ∧ run_ops m0 os = Some (m', (spec_ops ∅ os).2)
    ∧ represents m' (spec_ops ∅ os).1.
Proof.
  eexists. destruct (run_ops_represents os (AvlTable Nil 0 nodup 0) ∅) as (m' & E & Hr); [|done|].
  - split_and!; [by split_and!; [..|constructor|]|constructor|]. intros k. by rewrite lookup_empty.
  - by exists m'.
Qed.
End avl_refine.

(** ** The hypotheses hold on a concrete map *)

Definition demo : avl_table bytes nat :=
  AvlTable (Node (Node Nil (bs "a") 1%nat 0 Nil) (bs "b") 2%nat 1
              (Node (Node Nil (bs "c") 3%nat 0 Nil) (bs "d") 4%nat (-1) Nil)) 4 false 0.

Lemma demo_wf : wf_map demo.
Proof. split_and!; [simpl; lia| |done]. unfold bst; simpl. repeat constructor. Defined.

Lemma map_get_witness :
  ∃ m' slot, map_get demo (bs "e") 0%nat true true = Some (m', Some slot) ∧ wf_map m'
    ∧ kcmp (bs "e") slot = 0
    ∧ bindings m' = ainsert (bs "e") 0%nat (bindings demo).
Proof. apply (map_get_correct demo (bs "e") 0%nat demo_wf). Defined.

Lemma map_remove_witness :
  ∃ m', map_remove demo (bs "a") 0%nat = Some (m', 1%nat)
    ∧ wf_map m' ∧ bindings m' = adelete (bs "a") (bindings demo).
Proof. apply (map_remove_correct demo (bs "a") 0%nat demo_wf). Defined.

Lemma map_put_witness :
  ∃ m' ret, map_put demo (bs "c") 7%nat 0%nat true true = Some (m', ret) ∧ wf_map m'
    ∧ (∀ k', map_find m' k' = if kcmp k' (bs "c") =? 0 then Some 7%nat else map_find demo k')
    ∧ ret = 3%nat.
Proof.
  destruct (map_put_lookup demo (bs "c") 7%nat 0%nat demo_wf) as (m' & ret & H).
  exists m', ret. exact H.
Defined.

Lemma map_height_witness :
  2 ^ (height (avl_root demo) / 2) <= Z.of_nat (length (bindings demo)) + 1.
Proof. apply (map_height_log demo demo_wf). Defined.

Lemma iterator_next_prev_witness :
  ∃ p, iterator_next (map_first demo) = Some (Some p)
       ∧ iterator_prev (Some p) = Some (map_first demo).
Proof.
  eexists. split; [reflexivity|].
  apply (iterator_next_prev demo (map_first demo)); [|reflexivity].
  vm_compute. eauto.
Defined.

Lemma map_for_each_witness :
  map_for_each demo (λ _ _, 0) = (demo, bindings demo, 0).
Proof. by apply (map_for_each_all demo (λ _ _, 0)). Defined.

Lemma map_get_key_oom_witness :
  ∃ m', map_get demo (bs "e") 0%nat true false = Some (m', None)
    ∧ bindings m' = bindings demo
    ∧ avl_count m' = u64 (Z.of_nat (length (bindings m')) + 1).
Proof. by apply (map_get_key_oom demo (bs "e") 0%nat demo_wf). Defined.

Lemma process_all_witness :
  process_all (λ _ v, Z.of_nat v) (avl_root demo) 0 =
  ([(bs "a", 1%nat); (bs "b", 2%nat)], 3).
Proof. by apply (process_all_continues (λ _ v, Z.of_nat v) (Node Nil (bs "a") 1%nat 0 Nil)). Defined.

Lemma avl_map_refines_witness :
  ∃ m0 m', map_create false true = Some m0
    ∧ run_ops 0%nat m0 [OpPut (bs "a") 1%nat; OpFind (bs "a"); OpRemove (bs "a")] =
      Some (m', [Some 0%nat; Some 1%nat; Some 1%nat])
    ∧ represents m' (∅ : gmap bytes nat).
Proof.
  apply (avl_map_refines_gmap 0%nat false
           [OpPut (bs "a") 1%nat; OpFind (bs "a"); OpRemove (bs "a")]).
  apply (bool_decide_unpack _). by vm_compute.
Defined.
