(* ===== verification/UriParser.v ===== *)
(** * UriParser: the SIP URI parser (parser/parse_uri.c)

    The character-level state machine of [parse_uri], its per-state actions
    (written as macros in the C code) and the treatment of the end of the URI.

    A pointer is its address: the text starts at the non-null address [buf] and
    [NULL] is 0, so pointer differences, and the lengths the code stores in [int]
    fields, are computed as in C.  A parse ends in [Ok uri], the return value 0, or
    in [Err e], the return value [E_BAD_URI] with the [goto] label taken (the URI
    is then marked [ERROR_URI_T] and its other fields are not used). *)

From stdpp Require Import prelude list strings.
From Stdlib Require Import ZArith Lia Ascii.
From S2P Require Import Prelude CString.

(** ** Data *)

(** [str]: address and [int] length. *)
Record str := Str { str_s : Z; str_len : Z }.
Definition str_null : str := Str 0 0.

(** The [str] from address [a] to address [p]. *)
Definition str_to (a p : Z) : str := Str a (i32 (p - a)).

Inductive uri_type :=
  | ERROR_URI_T | SIP_URI_T | SIPS_URI_T | TEL_URI_T | TELS_URI_T
  | URN_SERVICE_URI_T | URN_NENA_SERVICE_URI_T.
#[export] Instance uri_type_eq_dec : EqDecision uri_type.
Proof. solve_decision. Defined.

(** The parameters [struct sip_uri] has members for; each has a member for the
    whole parameter and one for its value. *)
Inductive pfield :=
  | F_transport | F_ttl | F_user_param | F_maddr | F_method | F_lr | F_r2 | F_gr
  | F_pn_provider | F_pn_prid | F_pn_param | F_pn_purr.
#[export] Instance pfield_eq_dec : EqDecision pfield.
Proof. solve_decision. Defined.

Definition PROTO_UDP : Z := 1.
Definition PROTO_TCP : Z := 2.
Definition PROTO_TLS : Z := 3.
Definition PROTO_SCTP : Z := 4.
Definition PROTO_WS : Z := 5.
Definition PROTO_WSS : Z := 6.
Definition PROTO_OTHER : Z := 17.
Definition URI_MAX_U_PARAMS : nat := 10.

(** [struct sip_uri].  [u_params] lists the used entries of the parallel arrays
    [u_name] and [u_val]; [u_params_no] is its length. *)
Record sip_uri := SipUri {
  user : str;
  passwd : str;
  host : str;
  port : str;
  params : str;
  headers : str;
  port_no : Z;
  proto : Z;
  utype : uri_type;
  pname : pfield → str;
  pval : pfield → str;
  u_params : list (str * str);
}.

(** [memset(uri, 0, ...)] with the type put back. *)
Definition uri_zero (t : uri_type) : sip_uri :=
  SipUri str_null str_null str_null str_null str_null str_null 0 0 t
    (λ _, str_null) (λ _, str_null) [].

Definition set_user u x := SipUri x (passwd u) (host u) (port u) (params u) (headers u)
  (port_no u) (proto u) (utype u) (pname u) (pval u) (u_params u).
Definition set_passwd u x := SipUri (user u) x (host u) (port u) (params u) (headers u)
  (port_no u) (proto u) (utype u) (pname u) (pval u) (u_params u).
Definition set_host u x := SipUri (user u) (passwd u) x (port u) (params u) (headers u)
  (port_no u) (proto u) (utype u) (pname u) (pval u) (u_params u).
Definition set_port u x n := SipUri (user u) (passwd u) (host u) x (params u) (headers u)
  n (proto u) (utype u) (pname u) (pval u) (u_params u).
Definition set_params u x := SipUri (user u) (passwd u) (host u) (port u) x (headers u)
  (port_no u) (proto u) (utype u) (pname u) (pval u) (u_params u).
Definition set_headers u x := SipUri (user u) (passwd u) (host u) (port u) (params u) x
  (port_no u) (proto u) (utype u) (pname u) (pval u) (u_params u).
Definition set_proto u x := SipUri (user u) (passwd u) (host u) (port u) (params u) (headers u)
  (port_no u) x (utype u) (pname u) (pval u) (u_params u).
Definition set_pname u f x := SipUri (user u) (passwd u) (host u) (port u) (params u) (headers u)
  (port_no u) (proto u) (utype u) (λ g, if decide (g = f) then x else pname u g) (pval u)
  (u_params u).
Definition set_pval u f x := SipUri (user u) (passwd u) (host u) (port u) (params u) (headers u)
  (port_no u) (proto u) (utype u) (pname u) (λ g, if decide (g = f) then x else pval u g)
  (u_params u).
Definition set_u_params u x := SipUri (user u) (passwd u) (host u) (port u) (params u) (headers u)
  (port_no u) (proto u) (utype u) (pname u) (pval u) x.

(** The labels of the error exits; [Fault] is a write through a null [param] or
    [param_val] pointer. *)
Inductive uri_err :=
  | error_too_short | error_bad_char | error_bad_host | error_bad_port
  | error_bad_uri | error_headers_label | error_bug | Fault.

Inductive res (A : Type) := Ok (a : A) | Err (e : uri_err).
Arguments Ok {A} a.
Arguments Err {A} e.

(** ** Parser states *)

Inductive state :=
  | URI_INIT | URI_USER | URI_PASSWORD | URI_PASSWORD_ALPHA
  | URI_HOST | URI_HOST_P | URI_HOST6_P | URI_HOST6_END | URI_PORT
  | URI_PARAM | URI_PARAM_P | URI_PARAM_VAL_P | URI_VAL_P | URI_HEADERS
  | PT_T | PT_R | PT_A | PT_N | PT_S | PT_P | PT_O | PT_R2 | PT_T2 | PT_eq
  | PTTL_T2 | PTTL_L | PTTL_eq
  | PU_U | PU_S | PU_E | PU_R | PU_eq
  | PM_M | PM_E | PM_T | PM_H | PM_O | PM_D | PM_eq
  | PMA_A | PMA_D | PMA_D2 | PMA_R | PMA_eq
  | PLR_L | PLR_R_FIN | PLR_eq
  | PG_G | PG_G_FIN | PG_eq
  | PR2_R | PR2_2_FIN | PR2_eq
  | VU_U | VU_D | VU_P_FIN
  | VT_T | VT_C | VT_P_FIN
  | VTLS_L | VTLS_S_FIN
  | VS_S | VS_C | VS_T | VS_P_FIN
  | VW_W | VW_S | VW_S_FIN | VWS_S_FIN
  | PN_P | PN_N | PN_dash | PN_P2 | PN_PR
  | PN1_O | PN1_V | PN1_I | PN1_D | PN1_E | PN1_FIN | PN1_eq
  | PN2_I | PN2_D | PN2_eq
  | PN3_A | PN3_R | PN3_A2 | PN3_M | PN3_eq
  | PN4_U | PN4_R | PN4_R2 | PN4_eq.

(** The local variables of [parse_uri] and the URI being filled.  [param] and
    [param_val] are null or point to a member pair of the URI. *)
Record pstate := PState {
  pst : state;
  p_s : Z;
  p_b : Z;
  p_v : Z;
  param : option pfield;
  param_val : option pfield;
  p_pass : Z;
  p_port_no : Z;
  found_user : bool;
  err_headers : bool;
  p_uri : sip_uri;
}.

Definition with_state x q := PState q (p_s x) (p_b x) (p_v x) (param x) (param_val x)
  (p_pass x) (p_port_no x) (found_user x) (err_headers x) (p_uri x).
Definition with_s x a := PState (pst x) a (p_b x) (p_v x) (param x) (param_val x)
  (p_pass x) (p_port_no x) (found_user x) (err_headers x) (p_uri x).
Definition with_b x a := PState (pst x) (p_s x) a (p_v x) (param x) (param_val x)
  (p_pass x) (p_port_no x) (found_user x) (err_headers x) (p_uri x).
Definition with_v x a := PState (pst x) (p_s x) (p_b x) a (param x) (param_val x)
  (p_pass x) (p_port_no x) (found_user x) (err_headers x) (p_uri x).
Definition with_param x f := PState (pst x) (p_s x) (p_b x) (p_v x) (Some f) (param_val x)
  (p_pass x) (p_port_no x) (found_user x) (err_headers x) (p_uri x).
Definition with_param_val x f := PState (pst x) (p_s x) (p_b x) (p_v x) (param x) (Some f)
  (p_pass x) (p_port_no x) (found_user x) (err_headers x) (p_uri x).
Definition with_pass x a := PState (pst x) (p_s x) (p_b x) (p_v x) (param x) (param_val x)
  a (p_port_no x) (found_user x) (err_headers x) (p_uri x).
Definition with_port_no x n := PState (pst x) (p_s x) (p_b x) (p_v x) (param x) (param_val x)
  (p_pass x) n (found_user x) (err_headers x) (p_uri x).
Definition with_found x f := PState (pst x) (p_s x) (p_b x) (p_v x) (param x) (param_val x)
  (p_pass x) (p_port_no x) f (err_headers x) (p_uri x).
Definition with_err_headers x f := PState (pst x) (p_s x) (p_b x) (p_v x) (param x) (param_val x)
  (p_pass x) (p_port_no x) (found_user x) f (p_uri x).
Definition with_uri x u := PState (pst x) (p_s x) (p_b x) (p_v x) (param x) (param_val x)
  (p_pass x) (p_port_no x) (found_user x) (err_headers x) u.

(** The character at [p] is [a], or one of two. *)
Notation "c == a" := (c =? chr a%char) (at level 70, only parsing).
Definition is2 (c : byte) (a b : ascii) : bool := (c == a) || (c == b).
Arguments is2 _ (_ _)%_char_scope.

(** ** The macros of [parse_uri] *)

(** [still_at_user]: what was taken for a host and parameters is the user. *)
Definition still_at_user (p : Z) (x : pstate) : res pstate :=
  if negb (found_user x) then
    let us := str_s (host (p_uri x)) in
    let u0 := uri_zero (utype (p_uri x)) in
    let u :=
      if p_pass x =? 0 then set_user u0 (str_to us p)
      else set_passwd (set_user u0 (str_to us (p_pass x))) (str_to (p_pass x + 1) p) in
    Ok (with_state (with_err_headers (with_found (with_s (with_uri x u) (p + 1)) true) false)
          URI_HOST)
  else Err error_bad_char.

(** [param_set(b, v)]. *)
Definition param_set (p : Z) (x : pstate) : res pstate :=
  match param x, param_val x with
  | Some f, Some g =>
      Ok (with_uri x (set_pval (set_pname (p_uri x) f (str_to (p_b x) p)) g (str_to (p_v x) p)))
  | _, _ => Err Fault
  end.

(** [u_param_set(b, v)]. *)
Definition u_param_set (p : Z) (x : pstate) : pstate :=
  let u := p_uri x in
  if (length (u_params u) <? URI_MAX_U_PARAMS)%nat then
    let entry :=
      if p_b x <? p_v x then
        (Str (p_b x) (i32 (p_v x - p_b x - 1)),
         if p_v x <? p then str_to (p_v x) p else str_null)
      else (str_to (p_b x) p, str_null) in
    with_uri x (set_u_params u (u_params u ++ [entry]))
  else x.

(** [if (pass) { found_user=1; pass=0; }]: no user after all. *)
Definition drop_pass (x : pstate) : pstate :=
  if p_pass x =? 0 then x else with_pass (with_found x true) 0.

Definition semicolon_case (x : pstate) : pstate := with_state (drop_pass x) URI_PARAM.

Definition question_case (p : Z) (x : pstate) : pstate :=
  let x := with_uri x (set_params (p_uri x) (str_to (p_s x) p)) in
  drop_pass (with_s (with_state x URI_HEADERS) (p + 1)).

(** The update of [pass] on a colon. *)
Definition colon_pass (p : Z) (x : pstate) : pstate :=
  if negb (found_user x) then
    if p_pass x =? 0 then with_pass x p else with_pass (with_found x true) 0
  else x.

Definition colon_case (p : Z) (x : pstate) : pstate :=
  with_state (colon_pass p x) URI_PARAM_P.

Definition param_common_cases (p : Z) (c : byte) (x : pstate) (dflt : res pstate) : res pstate :=
  if c == "@" then still_at_user p x
  else if c == ";" then Ok (semicolon_case x)
  else if c == "?" then Ok (question_case p x)
  else if c == ":" then Ok (colon_case p x)
  else dflt.

Definition u_param_common_cases (p : Z) (c : byte) (x : pstate) (dflt : res pstate) : res pstate :=
  if c == "@" then still_at_user p x
  else if c == ";" then Ok (u_param_set p (semicolon_case x))
  else if c == "?" then Ok (u_param_set p (question_case p x))
  else if c == ":" then Ok (colon_case p x)
  else dflt.

Definition value_common_cases (p : Z) (c : byte) (x : pstate) (dflt : res pstate) : res pstate :=
  if c == "@" then still_at_user p x
  else if c == ";" then param_set p (semicolon_case x)
  else if c == "?" then param_set p (question_case p x)
  else if c == ":" then Ok (with_state (colon_case p x) URI_VAL_P)
  else dflt.

Definition param_switch (p : Z) (c : byte) (x : pstate) (c1 c2 : ascii) (new : state) :=
  if is2 c c1 c2 then Ok (with_state x new)
  else u_param_common_cases p c x (Ok (with_state x URI_PARAM_P)).
Arguments param_switch _ _ _ (_ _)%_char_scope _.

Definition param_switch1 (p : Z) (c : byte) (x : pstate) (c1 : ascii) (new : state) :=
  if c == c1 then Ok (with_state x new)
  else param_common_cases p c x (Ok (with_state x URI_PARAM_P)).
Arguments param_switch1 _ _ _ _%_char_scope _.

Definition param_xswitch1 (c : byte) (x : pstate) (c1 : ascii) (new : state) : res pstate :=
  if c == c1 then Ok (with_state x new) else Err error_bad_char.
Arguments param_xswitch1 _ _ _%_char_scope _.

Definition param_switch_big (p : Z) (c : byte) (x : pstate) (c1 c2 d1 d2 : ascii)
    (new_c new_d : state) :=
  if is2 c c1 c2 then Ok (with_state x new_c)
  else if is2 c d1 d2 then Ok (with_state x new_d)
  else u_param_common_cases p c x (Ok (with_state x URI_PARAM_P)).
Arguments param_switch_big _ _ _ (_ _ _ _)%_char_scope _ _.

Definition param_switch_bigger (p : Z) (c : byte) (x : pstate) (c1 c2 d1 d2 e1 e2 : ascii)
    (new_c new_d new_e : state) :=
  if is2 c c1 c2 then Ok (with_state x new_c)
  else if is2 c d1 d2 then Ok (with_state x new_d)
  else if is2 c e1 e2 then Ok (with_state x new_e)
  else u_param_common_cases p c x (Ok (with_state x URI_PARAM_P)).
Arguments param_switch_bigger _ _ _ (_ _ _ _ _ _)%_char_scope _ _ _.

Definition value_switch (p : Z) (c : byte) (x : pstate) (c1 c2 : ascii) (new : state) :=
  if is2 c c1 c2 then Ok (with_state x new)
  else value_common_cases p c x (Ok (with_state x URI_VAL_P)).
Arguments value_switch _ _ _ (_ _)%_char_scope _.

Definition value_switch_big (p : Z) (c : byte) (x : pstate) (c1 c2 d1 d2 : ascii)
    (new_c new_d : state) :=
  if is2 c c1 c2 then Ok (with_state x new_c)
  else if is2 c d1 d2 then Ok (with_state x new_d)
  else value_common_cases p c x (Ok (with_state x URI_VAL_P)).
Arguments value_switch_big _ _ _ (_ _ _ _)%_char_scope _ _.

Definition res_map {A B} (f : A → B) (r : res A) : res B :=
  match r with Ok a => Ok (f a) | Err e => Err e end.

Definition with_proto (n : Z) (x : pstate) : pstate := with_uri x (set_proto (p_uri x) n).

(** [transport_fin(c_state, proto_no)]: a colon falls through to the default. *)
Definition transport_fin (p : Z) (c : byte) (x : pstate) (proto_no : Z) : res pstate :=
  if c == "@" then still_at_user p x
  else if c == ";" then res_map (with_proto proto_no) (param_set p (semicolon_case x))
  else if c == "?" then res_map (with_proto proto_no) (param_set p (question_case p x))
  else if c == ":" then Ok (with_state (colon_case p x) URI_VAL_P)
  else Ok (with_state x URI_VAL_P).

(** [check_host_end]; [dflt] is what the enclosing switch does otherwise. *)
Definition check_host_end (p : Z) (c : byte) (x : pstate) (dflt : res pstate) : res pstate :=
  let found q :=
    Ok (with_s (with_state (with_uri x (set_host (p_uri x) (str_to (p_s x) p))) q) (p + 1)) in
  if c == ":" then found URI_PORT
  else if c == ";" then found URI_PARAM
  else if c == "?" then found URI_HEADERS
  else if is2 c "&" "@" then Err error_bad_char
  else dflt.

Definition is_digit (c : byte) : bool := (48 <=? c) && (c <=? 57).

(** ** One character in each state *)

(** The unsigned accumulation of [case_port]. *)
Definition port_digit (n : Z) (c : byte) : Z := u32 (n * 10 + (c - 48)).

(** States of the user, password, host and port. *)
Definition step_authority (p : Z) (c : byte) (x : pstate) : res pstate :=
  let u := p_uri x in
  let here := str_to (p_s x) p in
  match pst x with
  | URI_INIT =>
      if c == "[" then Ok (with_s (with_state x URI_HOST6_P) p)
      else if is2 c "]" ":" then Err error_bad_char
      else if c == "@" then Err error_bad_char
      else Ok (with_state x URI_USER)
  | URI_USER =>
      if c == "@" then
        Ok (with_s (with_found (with_state (with_uri x (set_user u here)) URI_HOST) true) (p + 1))
      else if c == ":" then
        Ok (with_s (with_state (with_uri x (set_user u here)) URI_PASSWORD) (p + 1))
      else if c == ";" then
        Ok (with_s (with_state (with_uri x (set_host u here)) URI_PARAM) (p + 1))
      else if c == "?" then
        Ok (with_s (with_state (with_uri x (set_host u here)) URI_HEADERS) (p + 1))
      else if is2 c "[" "]" then Err error_bad_char
      else Ok x
  | URI_PASSWORD =>
      let is_port q :=
        let u1 := set_port u here (u16 (p_port_no x)) in
        let u2 := set_user (set_host u1 (user u1)) str_null in
        Ok (with_s (with_found (with_state (with_uri x u2) q) true) (p + 1)) in
      if c == "@" then
        Ok (with_s (with_found (with_state
              (with_port_no (with_uri x (set_passwd u here)) 0) URI_HOST) true) (p + 1))
      else if c == ";" then is_port URI_PARAM
      else if c == "?" then is_port URI_HEADERS
      else if is_digit c then
        if p_port_no x <? INT_MAX / 10 then Ok (with_port_no x (port_digit (p_port_no x) c))
        else Ok x
      else if is2 c "[" "]" || (c == ":") then Err error_bad_char
      else Ok (with_state (with_port_no x 0) URI_PASSWORD_ALPHA)
  | URI_PASSWORD_ALPHA =>
      if c == "@" then
        Ok (with_s (with_found (with_state (with_uri x (set_passwd u here)) URI_HOST) true) (p + 1))
      else if is2 c ";" "?" then Err error_bad_port
      else if is2 c "[" "]" || (c == ":") then Err error_bad_char
      else Ok x
  | URI_HOST =>
      if c == "[" then Ok (with_state x URI_HOST6_P)
      else if is2 c ":" ";" || is2 c "?" "&" || (c == "@") then Err error_bad_host
      else Ok (with_state x URI_HOST_P)
  | URI_HOST_P => check_host_end p c x (Ok x)
  | URI_HOST6_END => check_host_end p c x (Err error_bad_host)
  | URI_HOST6_P =>
      if c == "]" then Ok (with_state x URI_HOST6_END)
      else if is2 c "[" "&" || is2 c "@" ";" || (c == "?") then Err error_bad_host
      else Ok x
  | URI_PORT =>
      let u1 := set_port u here (u16 (p_port_no x)) in
      if c == ";" then Ok (with_s (with_state (with_uri x u1) URI_PARAM) (p + 1))
      else if c == "?" then Ok (with_s (with_state (with_uri x u1) URI_HEADERS) (p + 1))
      else if is_digit c then
        let n := port_digit (p_port_no x) c in
        if USHRT_MAX <? n then Err error_bad_port else Ok (with_port_no x n)
      else Err error_bad_port
  | _ => Err error_bug
  end.

(** Beginning of a parameter, and parameters without a member of their own. *)
Definition step_param (p : Z) (c : byte) (x : pstate) : res pstate :=
  match pst x with
  | URI_PARAM =>
      let start q := Ok (with_state (with_b x p) q) in
      param_common_cases p c x
        (if is2 c "t" "T" then start PT_T
         else if is2 c "u" "U" then start PU_U
         else if is2 c "m" "M" then start PM_M
         else if is2 c "l" "L" then start PLR_L
         else if is2 c "g" "G" then start PG_G
         else if is2 c "r" "R" then start PR2_R
         else if is2 c "p" "P" then start PN_P
         else start URI_PARAM_P)
  | URI_PARAM_P =>
      u_param_common_cases p c x
        (if c == "=" then Ok (with_state (with_v x (p + 1)) URI_PARAM_VAL_P) else Ok x)
  | URI_PARAM_VAL_P => u_param_common_cases p c x (Ok x)
  | _ => Err error_bug
  end.

(** The state after [name=]: [param] and [param_val] are set, the value starts. *)
Definition param_eq (p : Z) (c : byte) (x : pstate) (f : pfield) : res pstate :=
  let x := with_param_val (with_param x f) f in
  param_common_cases p c x (Ok (with_state (with_v x p) URI_VAL_P)).

(** The state after the last letter of a parameter that needs no value. *)
Definition param_fin (p : Z) (c : byte) (x : pstate) (f : pfield) (eq : state) : res pstate :=
  let fin y := with_uri y (set_pname (p_uri y) f (str_to (p_b y) p)) in
  if c == "@" then still_at_user p x
  else if c == "=" then Ok (with_state x eq)
  else if c == ";" then Ok (fin (semicolon_case x))
  else if c == "?" then Ok (fin (question_case p x))
  else if c == ":" then Ok (colon_case p x)
  else Ok (with_state x URI_PARAM_P).

(** The transport parameter and the transport values. *)
Definition step_transport (p : Z) (c : byte) (x : pstate) : res pstate :=
  match pst x with
  | PT_T => param_switch_big p c x "r" "R" "t" "T" PT_R PTTL_T2
  | PT_R => param_switch p c x "a" "A" PT_A
  | PT_A => param_switch p c x "n" "N" PT_N
  | PT_N => param_switch p c x "s" "S" PT_S
  | PT_S => param_switch p c x "p" "P" PT_P
  | PT_P => param_switch p c x "o" "O" PT_O
  | PT_O => param_switch p c x "r" "R" PT_R2
  | PT_R2 => param_switch p c x "t" "T" PT_T2
  | PT_T2 => param_switch1 p c x "=" PT_eq
  | PT_eq =>
      let x := with_proto PROTO_OTHER (with_param_val (with_param x F_transport) F_transport) in
      let start q := Ok (with_state (with_v x p) q) in
      param_common_cases p c x
        (if is2 c "u" "U" then start VU_U
         else if is2 c "t" "T" then start VT_T
         else if is2 c "s" "S" then start VS_S
         else if is2 c "w" "W" then start VW_W
         else start URI_VAL_P)
  | URI_VAL_P => value_common_cases p c x (Ok x)
  | VU_U => value_switch p c x "d" "D" VU_D
  | VU_D => value_switch p c x "p" "P" VU_P_FIN
  | VU_P_FIN => transport_fin p c x PROTO_UDP
  | VT_T => value_switch_big p c x "c" "C" "l" "L" VT_C VTLS_L
  | VT_C => value_switch p c x "p" "P" VT_P_FIN
  | VT_P_FIN => transport_fin p c x PROTO_TCP
  | VTLS_L => value_switch p c x "s" "S" VTLS_S_FIN
  | VTLS_S_FIN => transport_fin p c x PROTO_TLS
  | VS_S => value_switch p c x "c" "C" VS_C
  | VS_C => value_switch p c x "t" "T" VS_T
  | VS_T => value_switch p c x "p" "P" VS_P_FIN
  | VS_P_FIN => transport_fin p c x PROTO_SCTP
  | VW_W => value_switch p c x "s" "S" VW_S
  | VW_S =>
      if is2 c "s" "S" then Ok (with_state x VWS_S_FIN)
      else transport_fin p c (with_state x VW_S_FIN) PROTO_WS
  | VW_S_FIN => transport_fin p c x PROTO_WS
  | VWS_S_FIN => transport_fin p c x PROTO_WSS
  | _ => Err error_bug
  end.

(** ttl, user, method, maddr, lr, r2 and gr. *)
Definition step_known (p : Z) (c : byte) (x : pstate) : res pstate :=
  match pst x with
  | PTTL_T2 => param_switch p c x "l" "L" PTTL_L
  | PTTL_L => param_switch1 p c x "=" PTTL_eq
  | PTTL_eq => param_eq p c x F_ttl
  | PU_U => param_switch p c x "s" "S" PU_S
  | PU_S => param_switch p c x "e" "E" PU_E
  | PU_E => param_switch p c x "r" "R" PU_R
  | PU_R => param_switch1 p c x "=" PU_eq
  | PU_eq => param_eq p c x F_user_param
  | PM_M => param_switch_big p c x "e" "E" "a" "A" PM_E PMA_A
  | PM_E => param_switch p c x "t" "T" PM_T
  | PM_T => param_switch p c x "h" "H" PM_H
  | PM_H => param_switch p c x "o" "O" PM_O
  | PM_O => param_switch p c x "d" "D" PM_D
  | PM_D => param_switch1 p c x "=" PM_eq
  | PM_eq => param_eq p c x F_method
  | PMA_A => param_switch p c x "d" "D" PMA_D
  | PMA_D => param_switch p c x "d" "D" PMA_D2
  | PMA_D2 => param_switch p c x "r" "R" PMA_R
  | PMA_R => param_switch1 p c x "=" PMA_eq
  | PMA_eq => param_eq p c x F_maddr
  | PLR_L => param_switch p c x "r" "R" PLR_R_FIN
  | PLR_R_FIN => param_fin p c x F_lr PLR_eq
  | PLR_eq => param_eq p c x F_lr
  | PR2_R => param_switch1 p c x "2" PR2_2_FIN
  | PR2_2_FIN => param_fin p c x F_r2 PR2_eq
  | PR2_eq => param_eq p c x F_r2
  | PG_G => param_switch p c x "r" "R" PG_G_FIN
  | PG_G_FIN => param_fin p c x F_gr PG_eq
  | PG_eq => param_eq p c x F_gr
  | _ => Err error_bug
  end.

(** The push-notification parameters of RFC 8599. *)
Definition step_pn (p : Z) (c : byte) (x : pstate) : res pstate :=
  match pst x with
  | PN_P => param_switch p c x "n" "N" PN_N
  | PN_N => param_switch1 p c x "-" PN_dash
  | PN_dash => param_switch p c x "p" "P" PN_P2
  | PN_P2 => param_switch_bigger p c x "r" "R" "a" "A" "u" "U" PN_PR PN3_A PN4_U
  | PN_PR => param_switch_big p c x "o" "O" "i" "I" PN1_O PN2_I
  | PN1_O => param_switch p c x "v" "V" PN1_V
  | PN1_V => param_switch p c x "i" "I" PN1_I
  | PN1_I => param_switch p c x "d" "D" PN1_D
  | PN1_D => param_switch p c x "e" "E" PN1_E
  | PN1_E => param_switch p c x "r" "R" PN1_FIN
  | PN1_FIN => param_fin p c (with_param x F_pn_provider) F_pn_provider PN1_eq
  | PN1_eq => param_eq p c x F_pn_provider
  | PN2_I => param_switch p c x "d" "D" PN2_D
  | PN2_D => param_xswitch1 c x "=" PN2_eq
  | PN2_eq => param_eq p c x F_pn_prid
  | PN3_A => param_switch p c x "r" "R" PN3_R
  | PN3_R => param_switch p c x "a" "A" PN3_A2
  | PN3_A2 => param_switch p c x "m" "M" PN3_M
  | PN3_M => param_xswitch1 c x "=" PN3_eq
  | PN3_eq => param_eq p c x F_pn_param
  | PN4_U => param_switch p c x "r" "R" PN4_R
  | PN4_R => param_switch p c x "r" "R" PN4_R2
  | PN4_R2 => param_xswitch1 c x "=" PN4_eq
  | PN4_eq => param_eq p c x F_pn_purr
  | _ => Err error_bug
  end.

Definition step_headers (p : Z) (c : byte) (x : pstate) : res pstate :=
  if c == "@" then still_at_user p x
  else if c == ";" then
    if found_user x then Err error_bad_char
    else if p_pass x =? 0 then Ok (with_err_headers x true)
    else Err error_headers_label
  else if c == ":" then Ok (colon_pass p x)
  else if c == "?" then Ok (drop_pass x)
  else Ok x.

(** The body of the loop. *)
Definition step (p : Z) (c : byte) (x : pstate) : res pstate :=
  match pst x with
  | URI_INIT | URI_USER | URI_PASSWORD | URI_PASSWORD_ALPHA | URI_HOST | URI_HOST_P
  | URI_HOST6_P | URI_HOST6_END | URI_PORT => step_authority p c x
  | URI_PARAM | URI_PARAM_P | URI_PARAM_VAL_P => step_param p c x
  | URI_HEADERS => step_headers p c x
  | PT_T | PT_R | PT_A | PT_N | PT_S | PT_P | PT_O | PT_R2 | PT_T2 | PT_eq | URI_VAL_P
  | VU_U | VU_D | VU_P_FIN | VT_T | VT_C | VT_P_FIN | VTLS_L | VTLS_S_FIN
  | VS_S | VS_C | VS_T | VS_P_FIN | VW_W | VW_S | VW_S_FIN | VWS_S_FIN => step_transport p c x
  | PTTL_T2 | PTTL_L | PTTL_eq | PU_U | PU_S | PU_E | PU_R | PU_eq
  | PM_M | PM_E | PM_T | PM_H | PM_O | PM_D | PM_eq
  | PMA_A | PMA_D | PMA_D2 | PMA_R | PMA_eq | PLR_L | PLR_R_FIN | PLR_eq
  | PR2_R | PR2_2_FIN | PR2_eq | PG_G | PG_G_FIN | PG_eq => step_known p c x
  | PN_P | PN_N | PN_dash | PN_P2 | PN_PR | PN1_O | PN1_V | PN1_I | PN1_D | PN1_E | PN1_FIN
  | PN1_eq | PN2_I | PN2_D | PN2_eq | PN3_A | PN3_R | PN3_A2 | PN3_M | PN3_eq
  | PN4_U | PN4_R | PN4_R2 | PN4_eq => step_pn p c x
  end.

Fixpoint parse_loop (p : Z) (text : bytes) (x : pstate) : res (Z * pstate) :=
  match text with
  | [] => Ok (p, x)
  | c :: text' =>
      match step p c x with
      | Ok x' => parse_loop (p + 1) text' x'
      | Err e => Err e
      end
  end.

(** ** End of the URI *)

Definition finish (p : Z) (x : pstate) : res sip_uri :=
  let u := p_uri x in
  let here := str_to (p_s x) p in
  let to_params y := Ok (set_params (p_uri y) (str_to (p_s y) p)) in
  let fin_param f := Ok (set_pname (set_params u here) f (str_to (p_b x) p)) in
  let fin_value f :=
    match param_set p (with_uri x (set_params u here)) with
    | Ok y => Ok (f (p_uri y))
    | Err e => Err e
    end in
  match pst x with
  | URI_INIT => Err error_too_short
  | URI_USER => if found_user x then Err error_bad_uri else Ok (set_host u here)
  | URI_PASSWORD =>
      if found_user x then Err error_bad_port
      else if USHRT_MAX <? p_port_no x then Err error_bad_port
      else
        let u1 := set_port u here (u16 (p_port_no x)) in
        Ok (set_user (set_host u1 (user u1)) str_null)
  | URI_PASSWORD_ALPHA => Err error_bad_port
  | URI_HOST_P | URI_HOST6_END => Ok (set_host u here)
  | URI_HOST | URI_HOST6_P => Err error_bad_host
  | URI_PORT => Ok (set_port u here (u16 (p_port_no x)))
  | URI_PARAM | URI_PARAM_P | URI_PARAM_VAL_P => to_params (u_param_set p x)
  | PT_T | PT_R | PT_A | PT_N | PT_S | PT_P | PT_O | PT_R2 | PT_T2 | PT_eq
  | PTTL_T2 | PTTL_L | PTTL_eq | PU_U | PU_S | PU_E | PU_R | PU_eq
  | PM_M | PM_E | PM_T | PM_H | PM_O | PM_D | PM_eq | PLR_L | PR2_R | PG_G => to_params x
  | PLR_R_FIN | PLR_eq => fin_param F_lr
  | PR2_2_FIN | PR2_eq => fin_param F_r2
  | PG_G_FIN | PG_eq => fin_param F_gr
  | PN1_FIN | PN1_eq => fin_param F_pn_provider
  | URI_VAL_P | VU_U | VU_D | VT_T | VT_C | VTLS_L | VS_S | VS_C | VW_W | VS_T =>
      fin_value (λ v, v)
  | VU_P_FIN => fin_value (λ v, set_proto v PROTO_UDP)
  | VT_P_FIN => fin_value (λ v, set_proto v PROTO_TCP)
  | VTLS_S_FIN => fin_value (λ v, set_proto v PROTO_TLS)
  | VS_P_FIN => fin_value (λ v, set_proto v PROTO_SCTP)
  | VW_S | VW_S_FIN => fin_value (λ v, set_proto v PROTO_WS)
  | VWS_S_FIN => fin_value (λ v, set_proto v PROTO_WSS)
  | URI_HEADERS =>
      if err_headers x then Err error_headers_label else Ok (set_headers u here)
  | PN_P | PN_N | PN_dash | PN_P2 | PN_PR | PN1_O | PN1_V | PN1_I | PN1_D | PN1_E
  | PN2_I | PN3_A | PN3_R | PN3_A2 | PN4_U | PN4_R => to_params x
  | PN2_D | PN2_eq | PN3_M | PN3_eq | PN4_R2 | PN4_eq => Err error_bad_uri
  | PMA_A | PMA_D | PMA_D2 | PMA_R | PMA_eq => Err error_bug
  end.

(** The last switch, on the URI type. *)
Definition fix_type (u : sip_uri) : res sip_uri :=
  match utype u with
  | TEL_URI_T | TELS_URI_T => Ok (set_host (set_user u (host u)) (Str (str_s (host u)) 0))
  | SIP_URI_T | SIPS_URI_T | URN_SERVICE_URI_T => Ok u
  | URN_NENA_SERVICE_URI_T => Ok (set_user u str_null)
  | ERROR_URI_T => Err error_bad_uri
  end.

(** ** The scheme and the whole function *)

Definition URN_SERVICE_STR : bytes := bs ":service:".
Definition URN_NENA_SERVICE_STR : bytes := bs ":nena:service:".
Definition SIP_SCH : Z := 0x3a706973.
Definition SIPS_SCH : Z := 0x73706973.
Definition TEL_SCH : Z := 0x3a6c6574.
Definition URN_SERVICE_SCH : Z := 0x3a6e7275.

(** [scheme]: the first four bytes as a little-endian word, lower-cased. *)
Definition scheme_word (b0 b1 b2 b3 : byte) : Z :=
  Z.lor (b0 + Z.shiftl b1 8 + Z.shiftl b2 16 + Z.shiftl b3 24) 0x20202020.

(** The URI type and the number of bytes of the scheme. *)
Definition parse_scheme (text : bytes) : res (uri_type * nat) :=
  match text with
  | b0 :: b1 :: b2 :: b3 :: b4 :: _ =>
      let scheme := scheme_word b0 b1 b2 b3 in
      let rest := drop 3 text in
      if scheme =? SIP_SCH then Ok (SIP_URI_T, 4%nat)
      else if scheme =? SIPS_SCH then
        if b4 == ":" then Ok (SIPS_URI_T, 5%nat) else Err error_bad_uri
      else if scheme =? TEL_SCH then Ok (TEL_URI_T, 4%nat)
      else if scheme =? URN_SERVICE_SCH then
        if (length URN_SERVICE_STR <=? length rest)%nat
           && memeq (length URN_SERVICE_STR) rest URN_SERVICE_STR
        then Ok (URN_SERVICE_URI_T, 12%nat)
        else if (length URN_NENA_SERVICE_STR <=? length rest)%nat
           && memeq (length URN_NENA_SERVICE_STR) rest URN_NENA_SERVICE_STR
        then Ok (URN_NENA_SERVICE_URI_T, 17%nat)
        else Err error_bad_uri
      else Err error_bad_uri
  | _ => Err error_too_short
  end.

Definition init_state (p : Z) (t : uri_type) : pstate :=
  PState URI_INIT p 0 0 None None 0 0 false false (uri_zero t).

Definition parse_uri (buf : Z) (text : bytes) : res sip_uri :=
  match parse_scheme text with
  | Err e => Err e
  | Ok (t, skip) =>
      let p0 := buf + Z.of_nat skip in
      match parse_loop p0 (drop skip text) (init_state p0 t) with
      | Err e => Err e
      | Ok (p, x) =>
          match finish p x with
          | Err e => Err e
          | Ok u => fix_type u
          end
      end
  end.

(** The text of a [str] taken from the buffer. *)
Definition str_text (buf : Z) (text : bytes) (x : str) : bytes :=
  take (Z.to_nat (str_len x)) (drop (Z.to_nat (str_s x - buf)) text).
