(* ===== verification/UriFacts.v ===== *)
(** * UriFacts: invariants of the URI state machine (parser/parse_uri.c)

    Every address the parser stores lies in the text it was given; no state of
    the machine writes through a null parameter pointer. *)

From stdpp Require Import prelude list strings.
From Stdlib Require Import ZArith Lia Ascii.
From S2P Require Import Prelude CString UriParser.

(** A [str] that is null or lies between the addresses [A] and [p]. *)
Definition inb (A p : Z) (x : str) : Prop :=
  x = str_null ∨ (A <= str_s x ∧ 0 <= str_len x ∧ str_s x + str_len x <= p).

(** An unknown parameter: the value is in bounds; so is the name, unless its
    address is null. *)
Definition entry_ok (A p : Z) (e : str * str) : Prop :=
  (inb A p e.1 ∨ str_s e.1 = 0) ∧ inb A p e.2.

Record uri_ok (A p : Z) (u : sip_uri) : Prop := {
  ok_user : inb A p (user u);
  ok_passwd : inb A p (passwd u);
  ok_host : inb A p (host u);
  ok_port : inb A p (port u);
  ok_params : inb A p (params u);
  ok_headers : inb A p (headers u);
  ok_pname f : inb A p (pname u f);
  ok_pval f : inb A p (pval u f);
  ok_unknown : Forall (entry_ok A p) (u_params u);
  ok_count : (length (u_params u) <= URI_MAX_U_PARAMS)%nat;
  ok_port_no : 0 <= port_no u <= USHRT_MAX;
  ok_type : utype u ≠ ERROR_URI_T;
}.

(** What a state knows: nothing was taken for a host yet ([KAuth]); a host may
    still turn out to be the user ([KTail]); inside a parameter name ([KName]);
    inside the value of a known parameter ([KValue]). *)
Inductive kind := KAuth | KTail | KName | KValue.
Definition kind_of (q : state) : kind :=
  match q with
  | URI_INIT | URI_USER | URI_PASSWORD | URI_PASSWORD_ALPHA | URI_HOST | URI_HOST_P
  | URI_HOST6_P | URI_HOST6_END => KAuth
  | URI_PORT | URI_PARAM | URI_PARAM_P | URI_PARAM_VAL_P | URI_HEADERS => KTail
  | URI_VAL_P | VU_U | VU_D | VU_P_FIN | VT_T | VT_C | VT_P_FIN | VTLS_L | VTLS_S_FIN
  | VS_S | VS_C | VS_T | VS_P_FIN | VW_W | VW_S | VW_S_FIN | VWS_S_FIN => KValue
  | _ => KName
  end.

Definition kind_inv (A p : Z) (k : kind) (x : pstate) : Prop :=
  match k with
  | KAuth => found_user x = false → p_pass x = 0
  | KTail => found_user x = false → A <= str_s (host (p_uri x)) <= p
  | KName => (found_user x = false → A <= str_s (host (p_uri x)) <= p) ∧ A <= p_b x
  | KValue => (found_user x = false → A <= str_s (host (p_uri x)) <= p) ∧ A <= p_b x
              ∧ A <= p_v x ∧ is_Some (param x) ∧ is_Some (param_val x)
  end.

Record inv (A p : Z) (x : pstate) : Prop := {
  inv_s : A <= p_s x <= p;
  inv_b : p_b x = 0 ∨ A <= p_b x <= p;
  inv_v : p_v x = 0 ∨ A <= p_v x <= p;
  inv_pass : found_user x = false → p_pass x = 0 ∨ str_s (host (p_uri x)) <= p_pass x < p;
  inv_uri : uri_ok A p (p_uri x);
  inv_kind : kind_inv A p (kind_of (pst x)) x;
}.

(** ** Bounds *)

Section bounds.
Context (A E : Z) (HA : 0 < A) (HE : E - A <= INT_MAX).

Lemma inb_null p : inb A p str_null.
Proof. by left. Qed.

Lemma inb_mono p p' x : p <= p' → inb A p x → inb A p' x.
Proof. intros ? [->|?]; [by left|right; lia]. Qed.

Lemma str_to_len a p : A <= a → a <= p → p <= E → str_len (str_to a p) = p - a.
Proof. intros. apply swrap_small; [lia|]. unfold INT_MAX in HE. change (2 ^ (32 - 1)) with 2147483648. lia. Qed.

Lemma inb_str_to a p : A <= a → a <= p → p <= E → inb A p (str_to a p).
Proof. intros. right. rewrite str_to_len by done. simpl. lia. Qed.

Lemma inb_str_to_le a q p : A <= a → a <= q → q <= p → p <= E → inb A p (str_to a q).
Proof. intros. eapply inb_mono; [|apply inb_str_to]; lia. Qed.

Lemma uri_ok_mono p p' u : p <= p' → uri_ok A p u → uri_ok A p' u.
Proof.
  intros Hp []. constructor; eauto using inb_mono.
  eapply Forall_impl; [done|]. intros e [[?|?] ?]; split; eauto using inb_mono.
Qed.

Lemma uri_zero_ok p t : t ≠ ERROR_URI_T → uri_ok A p (uri_zero t).
Proof.
  intros. constructor; simpl; auto using inb_null; unfold URI_MAX_U_PARAMS, USHRT_MAX; try lia.
Qed.

Lemma set_user_ok p u x : uri_ok A p u → inb A p x → uri_ok A p (set_user u x).
Proof. intros [] ?. by constructor. Qed.
Lemma set_passwd_ok p u x : uri_ok A p u → inb A p x → uri_ok A p (set_passwd u x).
Proof. intros [] ?. by constructor. Qed.
Lemma set_host_ok p u x : uri_ok A p u → inb A p x → uri_ok A p (set_host u x).
Proof. intros [] ?. by constructor. Qed.
Lemma set_port_ok p u x n : uri_ok A p u → inb A p x → uri_ok A p (set_port u x (u16 n)).
Proof.
  intros [] ?. constructor; auto. simpl. unfold USHRT_MAX.
  pose proof (wrap_range 16 n). change (2 ^ 16) with 65536 in *. lia.
Qed.
Lemma set_params_ok p u x : uri_ok A p u → inb A p x → uri_ok A p (set_params u x).
Proof. intros [] ?. by constructor. Qed.
Lemma set_headers_ok p u x : uri_ok A p u → inb A p x → uri_ok A p (set_headers u x).
Proof. intros [] ?. by constructor. Qed.
Lemma set_proto_ok p u n : uri_ok A p u → uri_ok A p (set_proto u n).
Proof. intros []. by constructor. Qed.
Lemma set_pname_ok p u f x : uri_ok A p u → inb A p x → uri_ok A p (set_pname u f x).
Proof. intros [] ?. constructor; auto. intros g. simpl. by case_decide. Qed.
Lemma set_pval_ok p u f x : uri_ok A p u → inb A p x → uri_ok A p (set_pval u f x).
Proof. intros [] ?. constructor; auto. intros g. simpl. by case_decide. Qed.
End bounds.

#[export] Hint Resolve inb_null set_user_ok set_passwd_ok set_host_ok set_port_ok set_params_ok
  set_headers_ok set_proto_ok set_pname_ok set_pval_ok : opensips.

(** ** Steps keep the invariant *)

Section steps.
Context (A E p : Z) (HA : 0 < A) (HE : E - A <= INT_MAX) (Hp : A <= p) (HpE : p < E).
Implicit Types (x y : pstate) (c : byte) (q : state).

(** The result of a step is a state satisfying the invariant at the next
    position, or a regular error. *)
Definition step_ok (r : res pstate) : Prop :=
  match r with Ok y => inv A (p + 1) y | Err e => e ≠ Fault end.

(** The user, if not found yet, starts where the host was recorded. *)
Definition tail_inv x : Prop := found_user x = false → A <= str_s (host (p_uri x)) <= p + 1.

Lemma inv_tail x : inv A p x → kind_of (pst x) ≠ KAuth → tail_inv x.
Proof.
  intros [? ? ? ? ? Hk] Hn Hf. destruct (kind_of (pst x)); simpl in Hk; destruct_and?; try done;
    match goal with H : _ → _ |- _ => specialize (H Hf); lia end.
Qed.

Lemma inv_name x : inv A p x → kind_of (pst x) = KName → A <= p_b x.
Proof. intros [? ? ? ? ? Hk] E1. rewrite E1 in Hk. by destruct Hk. Qed.

(** A state at [p] as a state at [p + 1], with a new machine state. *)
Lemma inv_goto x q :
  inv A p x → kind_inv A (p + 1) (kind_of q) x → inv A (p + 1) (with_state x q).
Proof.
  intros [] Hk. constructor; simpl; auto; try lia.
  - intros Hf. destruct (inv_pass0 Hf); lia.
  - eapply uri_ok_mono; [|done]. lia.
Qed.

Lemma inv_stay x : inv A p x → inv A (p + 1) x.
Proof.
  intros Hi. destruct x as [q s b v pa pv pass pn fu eh u].
  apply (inv_goto (PState q s b v pa pv pass pn fu eh u) q Hi).
  destruct Hi as [? ? ? ? ? Hk]. simpl in *.
  destruct (kind_of q); simpl in *; destruct_and?; split_and?; auto; intros Hf;
    match goal with H : _ = false → _ <= _ <= _ |- _ => specialize (H Hf); lia end.
Qed.

(** Changing the URI only, keeping where the host starts. *)
Lemma inv_set_uri p' x u :
  inv A p' x → uri_ok A p' u → str_s (host u) = str_s (host (p_uri x)) →
  inv A p' (with_uri x u).
Proof.
  intros [? ? ? ? ? Hk] Hu Hh. constructor; simpl; auto.
  - by rewrite Hh.
  - destruct (kind_of (pst x)); simpl in *; rewrite ?Hh; auto.
Qed.

Lemma still_at_user_ok x :
  inv A p x → kind_of (pst x) ≠ KAuth → step_ok (still_at_user p x).
Proof.
  intros Hi Hk. pose proof (inv_tail x Hi Hk) as Ht. destruct Hi as [? ? ? Hpass Hu _].
  unfold still_at_user. destruct (found_user x) eqn:Hf; [done|]. simpl.
  specialize (Ht Hf). specialize (Hpass eq_refl). destruct Hu as [? ? Hh]. 
  assert (str_s (host (p_uri x)) <= p) as Hhp.
  { destruct Hh as [Hh|Hh]; [rewrite Hh in Ht; simpl in Ht; lia|lia]. }
  constructor; simpl; auto; try lia.
  destruct (Z.eqb_spec (p_pass x) 0).
  - apply set_user_ok; [by apply uri_zero_ok|]. eapply inb_str_to_le; eauto; lia.
  - apply set_passwd_ok; [apply set_user_ok; [by apply uri_zero_ok|]|];
      eapply inb_str_to_le; eauto; lia.
Qed.

Lemma drop_pass_inv p' x : inv A p' x → inv A p' (drop_pass x).
Proof.
  intros Hi. unfold drop_pass. destruct (Z.eqb_spec (p_pass x) 0); [done|].
  destruct Hi as [? ? ? ? ? Hk]. constructor; simpl; auto.
  destruct (kind_of (pst x)); simpl in *; destruct_and?; split_and?; auto; done.
Qed.

Lemma tail_goto x q : inv A p x → tail_inv x → kind_of q = KTail → inv A (p + 1) (with_state x q).
Proof. intros. apply inv_goto; [done|]. by rewrite H1. Qed.

Lemma drop_pass_state x q : drop_pass (with_state x q) = with_state (drop_pass x) q.
Proof. unfold drop_pass. simpl. by case_match. Qed.

Lemma semicolon_inv x : inv A p x → tail_inv x → inv A (p + 1) (semicolon_case x).
Proof.
  intros. unfold semicolon_case. rewrite <- drop_pass_state. apply drop_pass_inv. by apply tail_goto.
Qed.

Lemma question_inv x : inv A p x → tail_inv x → inv A (p + 1) (question_case p x).
Proof.
  intros Hi Ht. unfold question_case. apply drop_pass_inv.
  assert (inv A (p + 1) (with_state (with_uri x (set_params (p_uri x) (str_to (p_s x) p))) URI_HEADERS))
    as [].
  { apply tail_goto; [|exact Ht|done]. apply inv_set_uri; [done| |done].
    apply set_params_ok; [apply Hi|]. destruct Hi. eapply inb_str_to; eauto; lia. }
  constructor; simpl in *; auto; lia.
Qed.

Lemma colon_pass_inv x :
  inv A p x → tail_inv x → kind_of (pst x) ≠ KAuth → inv A (p + 1) (colon_pass p x).
Proof.
  intros Hi Ht Hk. pose proof (inv_stay x Hi) as []. unfold colon_pass.
  destruct (found_user x) eqn:Hf; simpl; [by apply inv_stay|].
  pose proof (Ht Hf) as Hh.
  assert (str_s (host (p_uri x)) <= p) as Hhp.
  { destruct Hi as [? ? ? ? [? ? [Hh'|Hh']] _]; [rewrite Hh' in Hh; simpl in Hh; lia|lia]. }
  case_match; constructor; simpl; auto; try lia;
    destruct (kind_of (pst x)); simpl in *; destruct_and?; split_and?; auto; done.
Qed.

(** The entry [u_param_set] adds. *)
Lemma u_param_set_inv p' x :
  (p_b x = 0 ∨ A <= p_b x <= p) → (p_v x = 0 ∨ A <= p_v x <= p) → p <= p' → p' <= E →
  inv A p' x → inv A p' (u_param_set p x).
Proof.
  clear HpE. intros Hb Hv Hpp HE' Hi. unfold u_param_set. case_match eqn:Hl; [|done].
  apply inv_set_uri; [done| |done]. apply Nat.ltb_lt in Hl.
  destruct Hi as [_ _ _ _ [] _]. constructor; simpl; auto.
  - apply Forall_app. split; [done|]. constructor; [|constructor].
    destruct (Z.ltb_spec (p_b x) (p_v x)); (split; simpl; [|try case_match; auto with opensips]).
    + destruct Hb as [->|Hb]; [by right|left]. right. simpl.
      rewrite swrap_small; unfold INT_MAX in HE; change (2 ^ (32 - 1)) with 2147483648; lia.
    + zbool. destruct Hv as [Hv|Hv]; [lia|]. eapply inb_str_to_le; eauto; lia.
    + destruct Hb as [->|Hb]; [by right|left]. eapply inb_str_to_le; eauto; lia.
  - rewrite length_app. simpl. lia.
Qed.

Lemma drop_pass_same x :
  p_b (drop_pass x) = p_b x ∧ p_v (drop_pass x) = p_v x ∧ p_uri (drop_pass x) = p_uri x
  ∧ param (drop_pass x) = param x ∧ param_val (drop_pass x) = param_val x
  ∧ pst (drop_pass x) = pst x.
Proof. unfold drop_pass. by case_match. Qed.

Lemma param_set_ok y :
  inv A (p + 1) y → A <= p_b y <= p → A <= p_v y <= p →
  is_Some (param y) → is_Some (param_val y) → step_ok (param_set p y).
Proof.
  intros Hi Hb Hv [f Hf] [g Hg]. unfold param_set. rewrite Hf, Hg. simpl.
  apply inv_set_uri; [done| |done]. pose proof (inv_uri _ _ _ Hi).
  apply set_pval_ok; [apply set_pname_ok; [done|]|]; eapply inb_str_to_le; eauto; lia.
Qed.

Lemma semicolon_param_set_ok x :
  inv A p x → kind_of (pst x) = KValue →
  step_ok (param_set p (semicolon_case x)) ∧ step_ok (param_set p (question_case p x)).
Proof.
  intros Hi Hk. pose proof (inv_tail x Hi ltac:(by rewrite Hk)) as Ht.
  pose proof (inv_kind _ _ _ Hi) as Hk'. rewrite Hk in Hk'. destruct Hk' as (_ & ? & ? & ? & ?).
  pose proof (inv_b _ _ _ Hi). pose proof (inv_v _ _ _ Hi).
  split; apply param_set_ok; auto using semicolon_inv, question_inv;
    unfold semicolon_case, question_case, with_state; simpl;
    match goal with |- context [drop_pass ?y] => destruct (drop_pass_same y) as (Eb & Ev & _ & Ef & Eg & _) end;
    rewrite ?Eb, ?Ev, ?Ef, ?Eg; simpl; auto; lia.
Qed.

(** *** The common cases *)

Lemma u_param_after x :
  inv A p x → tail_inv x →
  inv A (p + 1) (u_param_set p (semicolon_case x)) ∧ inv A (p + 1) (u_param_set p (question_case p x)).
Proof.
  intros Hi Ht. pose proof (inv_b _ _ _ Hi). pose proof (inv_v _ _ _ Hi).
  split; apply u_param_set_inv; auto using semicolon_inv, question_inv; try lia;
    unfold semicolon_case, question_case, with_state; simpl;
    match goal with |- context [drop_pass ?y] => destruct (drop_pass_same y) as (Eb & Ev & _) end;
    rewrite ?Eb, ?Ev; auto.
Qed.

Lemma colon_inv x q :
  inv A p x → kind_of (pst x) ≠ KAuth →
  (kind_of q = KTail ∨ kind_of q = KValue ∧ kind_of (pst x) = KValue) →
  inv A (p + 1) (with_state (colon_pass p x) q).
Proof.
  intros Hi Hk Hq. pose proof (inv_tail x Hi Hk) as Ht.
  pose proof (colon_pass_inv x Hi Ht Hk) as Hc.
  assert (kind_inv A (p + 1) (kind_of q) (colon_pass p x)) as Hkq.
  { destruct Hc as [_ _ _ _ _ Hkc].
    assert (pst (colon_pass p x) = pst x) as E1 by (unfold colon_pass; by repeat case_match).
    rewrite E1 in Hkc.
    destruct Hq as [->|[-> E2]]; [|by rewrite E2 in Hkc].
    destruct (kind_of (pst x)); simpl in Hkc; destruct_and?; done. }
  destruct Hc. constructor; auto.
Qed.

Lemma param_common_ok c x d :
  inv A p x → kind_of (pst x) ≠ KAuth → step_ok d → step_ok (param_common_cases p c x d).
Proof.
  intros Hi Hk Hd. pose proof (inv_tail x Hi Hk). unfold param_common_cases.
  repeat case_match; [by apply still_at_user_ok|by apply semicolon_inv|by apply question_inv| |done].
  apply colon_inv; auto.
Qed.

Lemma u_param_common_ok c x d :
  inv A p x → kind_of (pst x) ≠ KAuth → step_ok d → step_ok (u_param_common_cases p c x d).
Proof.
  intros Hi Hk Hd. pose proof (inv_tail x Hi Hk). unfold u_param_common_cases.
  repeat case_match; [by apply still_at_user_ok|by apply u_param_after|by apply u_param_after| |done].
  apply colon_inv; auto.
Qed.

Lemma value_common_ok c x d :
  inv A p x → kind_of (pst x) = KValue → step_ok d → step_ok (value_common_cases p c x d).
Proof.
  intros Hi Hk Hd. assert (kind_of (pst x) ≠ KAuth) as Hk' by by rewrite Hk.
  unfold value_common_cases.
  repeat case_match; [by apply still_at_user_ok|by apply semicolon_param_set_ok
    |by apply semicolon_param_set_ok| |done].
  apply (colon_inv x URI_VAL_P); auto.
Qed.

(** Moving inside a parameter name, or to a state of the same kind. *)
Lemma name_goto x q :
  inv A p x → kind_of (pst x) = KName → kind_of q ≠ KAuth → kind_of q ≠ KValue →
  inv A (p + 1) (with_state x q).
Proof.
  intros Hi Hk Ha Hv. apply inv_goto; [done|]. pose proof (inv_tail x Hi ltac:(by rewrite Hk)).
  pose proof (inv_name x Hi Hk). by destruct (kind_of q).
Qed.

Lemma value_goto x q :
  inv A p x → kind_of (pst x) = KValue → kind_of q = KValue → inv A (p + 1) (with_state x q).
Proof.
  intros Hi Hk Hq. pose proof (inv_stay x Hi) as [? ? ? ? ? Hs]. rewrite Hk in Hs.
  apply inv_goto; [done|]. by rewrite Hq.
Qed.

Lemma transport_fin_ok c x n :
  inv A p x → kind_of (pst x) = KValue → step_ok (transport_fin p c x n).
Proof.
  intros Hi Hk. assert (kind_of (pst x) ≠ KAuth) as Hk' by by rewrite Hk.
  assert (∀ r, step_ok r → step_ok (res_map (with_proto n) r)) as Hm.
  { intros [y|e] Hr; [|done]. simpl in *. apply inv_set_uri; [done| |done].
    apply set_proto_ok, Hr. }
  unfold transport_fin. destruct (semicolon_param_set_ok x Hi Hk).
  repeat case_match; auto; [by apply still_at_user_ok|apply (colon_inv x URI_VAL_P); auto|].
  by apply value_goto.
Qed.

Lemma param_eq_ok c x f :
  inv A p x → kind_of (pst x) = KName → step_ok (param_eq p c x f).
Proof.
  intros Hi Hk. unfold param_eq.
  assert (inv A p (with_param_val (with_param x f) f)) as Hi'.
  { destruct Hi as [? ? ? ? ? Hk0]. constructor; simpl; auto. rewrite Hk in *. done. }
  pose proof (inv_name x Hi Hk). pose proof (inv_tail x Hi ltac:(by rewrite Hk)).
  apply param_common_ok; [done|simpl; by rewrite Hk|].
  destruct (inv_stay _ Hi'). constructor; simpl in *; auto; try lia.
  all: split_and?; auto; try lia; eauto.
Qed.

Lemma param_fin_ok c x f q :
  inv A p x → kind_of (pst x) = KName → kind_of q = KName → step_ok (param_fin p c x f q).
Proof.
  intros Hi Hk Hq. assert (kind_of (pst x) ≠ KAuth) as Hk' by by rewrite Hk.
  pose proof (inv_tail x Hi Hk'). pose proof (inv_name x Hi Hk). pose proof (inv_b _ _ _ Hi).
  unfold param_fin.
  assert (∀ y, inv A (p + 1) y → p_b y = p_b x →
    inv A (p + 1) (with_uri y (set_pname (p_uri y) f (str_to (p_b y) p)))) as Hfin.
  { intros y Hy Eb. apply inv_set_uri; [done| |done]. apply set_pname_ok; [apply Hy|].
    rewrite Eb. eapply inb_str_to_le; eauto; lia. }
  repeat case_match; simpl.
  - by apply still_at_user_ok.
  - apply name_goto; auto; by rewrite Hq.
  - apply (Hfin (semicolon_case x)); [by apply semicolon_inv|]. unfold semicolon_case. simpl. apply drop_pass_same.
  - apply (Hfin (question_case p x)); [by apply question_inv|]. unfold question_case.
    match goal with |- p_b (drop_pass ?y) = _ => by rewrite (proj1 (drop_pass_same y)) end.
  - apply colon_inv; auto.
  - by apply name_goto.
Qed.

(** The transitions of the name and value macros. *)
Lemma name_step x q : inv A p x → kind_of (pst x) = KName → kind_of q = KName →
  step_ok (Ok (with_state x q)).
Proof. intros ? ? Hq. apply name_goto; auto; by rewrite Hq. Qed.
Lemma name_default x : inv A p x → kind_of (pst x) = KName → step_ok (Ok (with_state x URI_PARAM_P)).
Proof. intros. by apply name_goto. Qed.
Lemma name_not_auth x : kind_of (pst x) = KName → kind_of (pst x) ≠ KAuth.
Proof. congruence. Qed.

#[local] Hint Resolve name_step name_default name_not_auth u_param_common_ok param_common_ok : core.

Lemma param_switch_ok c x a b q :
  inv A p x → kind_of (pst x) = KName → kind_of q = KName → step_ok (param_switch p c x a b q).
Proof. intros. unfold param_switch. repeat case_match; auto. Qed.
Lemma param_switch1_ok c x a q :
  inv A p x → kind_of (pst x) = KName → kind_of q = KName → step_ok (param_switch1 p c x a q).
Proof. intros. unfold param_switch1. repeat case_match; auto. Qed.
Lemma param_xswitch1_ok c x a q :
  inv A p x → kind_of (pst x) = KName → kind_of q = KName → step_ok (param_xswitch1 c x a q).
Proof. intros. unfold param_xswitch1. repeat case_match; auto; done. Qed.
Lemma param_switch_big_ok c x a b d e q1 q2 :
  inv A p x → kind_of (pst x) = KName → kind_of q1 = KName → kind_of q2 = KName →
  step_ok (param_switch_big p c x a b d e q1 q2).
Proof. intros. unfold param_switch_big. repeat case_match; auto. Qed.
Lemma param_switch_bigger_ok c x a b d e g h q1 q2 q3 :
  inv A p x → kind_of (pst x) = KName → kind_of q1 = KName → kind_of q2 = KName →
  kind_of q3 = KName → step_ok (param_switch_bigger p c x a b d e g h q1 q2 q3).
Proof. intros. unfold param_switch_bigger. repeat case_match; auto. Qed.

Lemma value_step x q : inv A p x → kind_of (pst x) = KValue → kind_of q = KValue →
  step_ok (Ok (with_state x q)).
Proof. intros. by apply value_goto. Qed.
#[local] Hint Resolve value_step value_common_ok : core.
Lemma value_switch_ok c x a b q :
  inv A p x → kind_of (pst x) = KValue → kind_of q = KValue → step_ok (value_switch p c x a b q).
Proof. intros. unfold value_switch. repeat case_match; auto. Qed.
Lemma value_switch_big_ok c x a b d e q1 q2 :
  inv A p x → kind_of (pst x) = KValue → kind_of q1 = KValue → kind_of q2 = KValue →
  step_ok (value_switch_big p c x a b d e q1 q2).
Proof. intros. unfold value_switch_big. repeat case_match; auto. Qed.

(** A state whose action is one macro: apply the macro's lemma. *)
Ltac macro_step Eq :=
  first [apply param_switch_ok | apply param_switch1_ok | apply param_xswitch1_ok
        | apply param_switch_big_ok | apply param_switch_bigger_ok | apply value_switch_ok
        | apply value_switch_big_ok | apply transport_fin_ok | apply param_eq_ok
        | apply param_fin_ok];
  solve [done | by rewrite Eq].

(** The first letter of a known parameter. *)
Lemma start_name x q :
  inv A p x → kind_of (pst x) = KTail → kind_of q ≠ KAuth → kind_of q ≠ KValue →
  inv A (p + 1) (with_state (with_b x p) q).
Proof.
  intros Hi Hk Ha Hv. pose proof (inv_tail x Hi ltac:(by rewrite Hk)).
  destruct (inv_stay x Hi). constructor; simpl; auto; try lia.
  by destruct (kind_of q).
Qed.

Lemma start_value x q :
  inv A p x → kind_of (pst x) = KName → kind_of q = KValue →
  is_Some (param x) → is_Some (param_val x) → inv A (p + 1) (with_state (with_v x p) q).
Proof.
  intros Hi Hk Hq ? ?. pose proof (inv_tail x Hi ltac:(by rewrite Hk)).
  pose proof (inv_name x Hi Hk). destruct (inv_stay x Hi). constructor; simpl; auto; try lia.
  rewrite Hq. by split_and!.
Qed.

Lemma step_param_ok c x : inv A p x → kind_of (pst x) = KTail → step_ok (step_param p c x).
Proof.
  intros Hi Hk. assert (kind_of (pst x) ≠ KAuth) as Hk' by by rewrite Hk.
  unfold step_param. destruct (pst x) eqn:Eq; try done.
  - apply param_common_ok; [done|by rewrite Eq|].
    repeat case_match; apply start_name; auto; try by rewrite Eq.
  - apply u_param_common_ok; [done|by rewrite Eq|]. case_match; [|by apply inv_stay].
    pose proof (inv_tail x Hi ltac:(by rewrite Eq)).
    destruct (inv_stay x Hi). constructor; simpl; auto; lia.
  - apply u_param_common_ok; [done|by rewrite Eq|]. by apply inv_stay.
Qed.

Lemma step_headers_ok c x : inv A p x → pst x = URI_HEADERS → step_ok (step_headers p c x).
Proof.
  intros Hi Eq. assert (kind_of (pst x) ≠ KAuth) as Hk' by by rewrite Eq.
  pose proof (inv_tail x Hi Hk'). unfold step_headers. repeat case_match; simpl; try done.
  - by apply still_at_user_ok.
  - destruct (inv_stay x Hi). constructor; auto.
  - by apply colon_pass_inv.
  - by apply drop_pass_inv, inv_stay.
  - by apply inv_stay.
Qed.

Lemma step_transport_ok c x : inv A p x → step_ok (step_transport p c x).
Proof.
  intros Hi. unfold step_transport.
  destruct (pst x) eqn:Eq; try done;
    try macro_step Eq.
  - apply value_common_ok; [done|by rewrite Eq|by apply inv_stay].
  - set (y := with_proto PROTO_OTHER (with_param_val (with_param x F_transport) F_transport)).
    assert (inv A p y) as Hy.
    { apply inv_set_uri; [|apply set_proto_ok, Hi|done].
      destruct Hi as [? ? ? ? ? Hk0]. constructor; simpl; auto. by rewrite Eq in *. }
    apply param_common_ok; [done|by simpl; rewrite Eq|].
    repeat case_match; apply start_value; simpl; auto; by rewrite Eq.
  - case_match; [apply value_goto; auto; by rewrite Eq|].
    apply transport_fin_ok; [|done].
    destruct Hi as [? ? ? ? ? Hk0]. constructor; simpl; auto. by rewrite Eq in Hk0.
Qed.

Lemma step_known_ok c x : inv A p x → step_ok (step_known p c x).
Proof.
  intros Hi. unfold step_known.
  destruct (pst x) eqn:Eq; try done;
    macro_step Eq.
Qed.

Lemma step_pn_ok c x : inv A p x → step_ok (step_pn p c x).
Proof.
  intros Hi. unfold step_pn.
  destruct (pst x) eqn:Eq; try done;
    try macro_step Eq.
  apply param_fin_ok; [|by simpl; rewrite Eq|done].
  destruct Hi as [? ? ? ? ? Hk0]. constructor; simpl; auto. by rewrite Eq in *.
Qed.

(** Recording a [str] and starting the next one after the separator. *)
Lemma auth_next x u q f n :
  inv A p x → uri_ok A p u →
  (f = false → found_user x = false ∧
     (kind_of q = KAuth ∧ p_pass x = 0 ∨
      kind_of q = KTail ∧ (p_pass x = 0 ∨ str_s (host u) <= p_pass x < p)
      ∧ A <= str_s (host u) <= p + 1)) →
  kind_of q = KAuth ∨ kind_of q = KTail →
  inv A (p + 1) (PState q (p + 1) (p_b x) (p_v x) (param x) (param_val x) (p_pass x) n f
                  (err_headers x) u).
Proof.
  intros [] Hu Hf Hq. constructor; simpl; auto; try lia.
  - intros ->. destruct (Hf eq_refl) as [_ [[_ ?]|(_ & [?|?] & _)]]; [auto|auto|right; lia].
  - eapply uri_ok_mono; [|done]. lia.
  - destruct Hq as [Hq|Hq]; rewrite Hq; simpl; intros ->;
      destruct (Hf eq_refl) as [_ [[? ?]|(? & _ & ?)]]; solve [congruence | lia].
Qed.

Lemma step_authority_ok c x : inv A p x → step_ok (step_authority p c x).
Proof.
  intros Hi. pose proof Hi as [Hs Hb Hv Hpass Hu Hk].
  assert (inb A p (str_to (p_s x) p)) as Hh by (eapply inb_str_to; eauto; lia).
  assert (∀ q, kind_of q = KAuth → kind_of (pst x) = KAuth → inv A (p + 1) (with_state x q)) as Hgo.
  { intros q E1 E2. apply inv_goto; [done|]. rewrite E1. by rewrite E2 in Hk. }
  assert (∀ n, inv A (p + 1) (with_port_no x n)) as Hport.
  { intros n. destruct (inv_stay x Hi). by constructor. }
  unfold step_authority, check_host_end. destruct (pst x) eqn:Eq; try done; simpl in Hk;
    repeat case_match; try done; simpl;
    try (by apply Hgo); try (by apply inv_stay); try (by apply Hport);
    unfold with_s, with_found, with_state, with_uri, with_port_no; simpl;
    try (apply auth_next; [done|eauto 10 using ok_user with opensips|done|by auto]);
    try (apply auth_next; [done|eauto 10 with opensips|simpl; intros ?; try done; split; [done|]|by auto]).
  all: try (left; split; [done|auto]; fail).
  all: try (right; split; [done|]; split; [auto|lia]; fail).
  all: match goal with Hf : found_user _ = false |- _ =>
         specialize (Hpass Hf); specialize (Hk Hf);
         right; split; [done|lia] end.
Qed.

Lemma step_inv c x : inv A p x → step_ok (step p c x).
Proof.
  intros Hi. unfold step.
  destruct (pst x) eqn:Eq;
    first [by apply step_authority_ok | by apply step_transport_ok | by apply step_known_ok
          | by apply step_pn_ok | by apply step_headers_ok
          | apply step_param_ok; [done|by rewrite Eq]].
Qed.
End steps.

(** ** The whole parser *)

Section whole.
Context (A E : Z) (HA : 0 < A) (HE : E - A <= INT_MAX).

Lemma parse_loop_inv text : ∀ p x,
  A <= p → p + Z.of_nat (length text) <= E → inv A p x →
  match parse_loop p text x with
  | Ok (p', x') => p' = p + Z.of_nat (length text) ∧ inv A p' x'
  | Err e => e ≠ Fault
  end.
Proof.
  induction text as [|c text IH]; intros p x Hp Hl Hi; simpl.
  { split; [lia|done]. }
  simpl in Hl. pose proof (step_inv A E p HA HE Hp ltac:(lia) c x Hi) as Hs.
  destruct (step p c x) as [y|e]; simpl in Hs; [|done].
  specialize (IH (p + 1) y ltac:(lia) ltac:(lia) Hs).
  destruct (parse_loop (p + 1) text y) as [[p' x']|]; [|done].
  destruct IH as [-> ?]. split; [lia|done].
Qed.

Lemma finish_ok p x :
  A <= p <= E → inv A p x →
  match finish p x with Ok u => uri_ok A p u | Err e => e ≠ Fault end.
Proof.
  intros Hp Hi. pose proof Hi as [Hs Hb Hv _ Hu Hk].
  assert (inb A p (str_to (p_s x) p)) as Hh by (eapply inb_str_to; eauto; lia).
  assert (∀ n, kind_of (pst x) = KName → uri_ok A p
    (set_pname (set_params (p_uri x) (str_to (p_s x) p)) n (str_to (p_b x) p))) as Hname.
  { intros n E1. rewrite E1 in Hk. destruct Hk. apply set_pname_ok; [by apply set_params_ok|].
    eapply inb_str_to; eauto; lia. }
  assert (∀ f : sip_uri → sip_uri, (∀ u, uri_ok A p u → uri_ok A p (f u)) →
    kind_of (pst x) = KValue →
    match (match param_set p (with_uri x (set_params (p_uri x) (str_to (p_s x) p))) with
           | Ok y => Ok (f (p_uri y)) | Err e => Err e end)
    with Ok u => uri_ok A p u | Err e => e ≠ Fault end) as Hval.
  { intros f Hf E1. rewrite E1 in Hk. destruct Hk as (_ & ? & ? & [g Hg] & [h Hh']).
    unfold param_set. simpl. rewrite Hg, Hh'. apply Hf. simpl.
    apply set_pval_ok; [apply set_pname_ok; [by apply set_params_ok|]|]; eapply inb_str_to; eauto; lia. }
  unfold finish. destruct (pst x) eqn:Eq; try done; simpl in *;
    repeat match goal with |- context [if ?b then _ else _] => destruct b; [done|] end;
    try solve [apply Hname; done
              | match goal with |- context [set_proto _ ?n] => apply (Hval (λ v, set_proto v n)) | _ => apply (Hval id) end;
                [|done]; unfold id; auto using set_proto_ok
              | eauto 8 using ok_user with opensips].
  all: pose proof (inv_uri _ _ _ (u_param_set_inv A E p HA HE p x Hb Hv ltac:(lia) ltac:(lia) Hi)) as Hu'.
  all: assert (p_s (u_param_set p x) = p_s x) as -> by (unfold u_param_set; by repeat case_match).
  all: by apply set_params_ok.
Qed.

Lemma fix_type_ok p u :
  uri_ok A p u → match fix_type u with Ok v => uri_ok A p v | Err e => e ≠ Fault end.
Proof.
  intros Hu.
  assert (uri_ok A p (set_host (set_user u (host u)) (Str (str_s (host u)) 0))) as Htel.
  { apply set_host_ok; [apply set_user_ok; [done|apply Hu]|].
    destruct (ok_host _ _ _ Hu) as [->|?]; [by left|right; simpl; lia]. }
  unfold fix_type. destruct (utype u) eqn:Et; auto. by apply set_user_ok, inb_null.
Qed.
End whole.

Lemma parse_scheme_ok text t n :
  parse_scheme text = Ok (t, n) → t ≠ ERROR_URI_T ∧ (4 <= n <= length text)%nat.
Proof.
  unfold parse_scheme.
  destruct text as [|b0 [|b1 [|b2 [|b3 [|b4 text]]]]]; try done.
  repeat case_match; intros [= <- <-]; (split; [done|]);
    repeat match goal with H : (_ && _) = true |- _ => apply andb_true_iff in H as [? ?] end;
    repeat match goal with H : (_ <=? _)%nat = true |- _ => apply Nat.leb_le in H end;
    simpl in *; lia.
Qed.

Lemma init_inv A p t : A <= p → 0 < A → t ≠ ERROR_URI_T → inv A p (init_state p t).
Proof. intros. constructor; simpl; auto; try lia. by apply uri_zero_ok. Qed.

Lemma parse_uri_inv buf text :
  0 < buf → Z.of_nat (length text) <= INT_MAX →
  match parse_uri buf text with
  | Ok u => uri_ok buf (buf + Z.of_nat (length text)) u
  | Err e => e ≠ Fault
  end.
Proof.
  intros Hb Hl. unfold parse_uri. destruct (parse_scheme text) as [[t n]|e] eqn:Es.
  2:{ revert Es. unfold parse_scheme. repeat case_match; congruence. }
  apply parse_scheme_ok in Es as [Ht Hn].
  set (E := buf + Z.of_nat (length text)). set (p0 := buf + Z.of_nat n).
  assert (length (drop n text) = length text - n)%nat as Hd by apply length_drop.
  pose proof (parse_loop_inv buf E Hb ltac:(lia) (drop n text) p0 (init_state p0 t)) as Hloop.
  rewrite Hd in Hloop. specialize (Hloop ltac:(lia) ltac:(lia) (init_inv buf p0 t ltac:(lia) Hb Ht)).
  destruct (parse_loop p0 (drop n text) (init_state p0 t)) as [[p x]|e]; [|done].
  destruct Hloop as [Hp Hi].
  assert (p = E) as -> by lia.
  pose proof (finish_ok buf E Hb ltac:(lia) E x ltac:(lia) Hi) as Hf.
  destruct (finish E x) as [u|e]; [|done]. by apply fix_type_ok.
Qed.
