(* ===== verification/UriSpec.v ===== *)
(** * UriSpec: what [parse_uri] promises (parser/parse_uri.c)

    Memory safety of the parsed fields, the fields recovered from a well-formed
    address, and the inputs on which the parser's result is not what the URI
    says. *)

From stdpp Require Import prelude list strings.
From Stdlib Require Import ZArith Lia Ascii.
From S2P Require Import Prelude CString UriParser UriFacts.

(** ** Running the machine over a stretch of text *)

Lemma parse_loop_app a b : ∀ p x,
  parse_loop p (a ++ b) x =
  match parse_loop p a x with Ok (p', x') => parse_loop p' b x' | Err e => Err e end.
Proof.
  induction a as [|c a IH]; intros p x; simpl; [done|]. destruct (step p c x); auto.
Qed.

(** Characters that leave the state as it is. *)
Lemma parse_loop_stay l x :
  Forall (λ c, ∀ p, step p c x = Ok x) l →
  ∀ p, parse_loop p l x = Ok (p + Z.of_nat (length l), x).
Proof.
  induction 1 as [|c l Hc _ IH]; intros p; simpl; [by rewrite Z.add_0_r|].
  rewrite Hc, IH. do 2 f_equal. lia.
Qed.

(** ** Character classes *)

(** Allowed in a user or password: none of [@ : ; ? \[ \]]. *)
Definition plain (c : byte) : Prop := Forall (λ d, c ≠ d) (bs "@:;?[]").
(** Allowed in a host: none of [: ; ? & @], nor a bracket at its start. *)
Definition host_char (c : byte) : Prop := Forall (λ d, c ≠ d) (bs ":;?&@").
Definition host_text (h : bytes) : Prop :=
  match h with [] => False | c :: h' => c ≠ chr "[" ∧ host_char c ∧ Forall host_char h' end.
Definition digit (c : byte) : Prop := 48 <= c <= 57.

#[export] Instance plain_dec c : Decision (plain c).
Proof. unfold plain. apply _. Defined.
#[export] Instance host_char_dec c : Decision (host_char c).
Proof. unfold host_char. apply _. Defined.
#[export] Instance host_text_dec h : Decision (host_text h).
Proof. destruct h; simpl; apply _. Defined.
#[export] Instance digit_dec c : Decision (digit c).
Proof. unfold digit. apply _. Defined.

Definition dec_value (l : bytes) : Z := foldl (λ n c, n * 10 + (c - 48)) 0 l.

(** Decide the character tests of a step from the class of the character. *)
Ltac forall_simpl :=
  repeat match goal with
  | H : Forall _ (bs _) |- _ => cbv [bs] in H
  | H : Forall _ (_ :: _) |- _ => apply Forall_cons in H as [? H]
  end.
Ltac char_tests :=
  unfold is2;
  repeat match goal with
  | H : ?c ≠ chr ?a |- context [?c =? chr ?a] => rewrite (proj2 (Z.eqb_neq c (chr a)) H)
  end; simpl.

Section machine.
Implicit Types (p : Z) (x : pstate) (c : byte).

Lemma step_init_plain p c x :
  pst x = URI_INIT → plain c → step p c x = Ok (with_state x URI_USER).
Proof. unfold plain. intros E Hc. forall_simpl. unfold step, step_authority. rewrite E. by char_tests. Qed.

Lemma step_user_plain p c x : pst x = URI_USER → plain c → step p c x = Ok x.
Proof. unfold plain. intros E Hc. forall_simpl. unfold step, step_authority. rewrite E. by char_tests. Qed.

Lemma step_alpha_plain p c x : pst x = URI_PASSWORD_ALPHA → plain c → step p c x = Ok x.
Proof. unfold plain. intros E Hc. forall_simpl. unfold step, step_authority. rewrite E. by char_tests. Qed.

Lemma step_host_first p c x :
  pst x = URI_HOST → c ≠ chr "[" → host_char c → step p c x = Ok (with_state x URI_HOST_P).
Proof.
  unfold host_char. intros E Hb Hc. forall_simpl. unfold step, step_authority. rewrite E. by char_tests.
Qed.

Lemma step_host_rest p c x : pst x = URI_HOST_P → host_char c → step p c x = Ok x.
Proof.
  unfold host_char. intros E Hc. forall_simpl. unfold step, step_authority, check_host_end. rewrite E.
  by char_tests.
Qed.

Lemma step_password_plain p c x :
  pst x = URI_PASSWORD → plain c →
  step p c x =
  Ok (if is_digit c then
        if p_port_no x <? INT_MAX / 10
        then with_port_no (with_state x URI_PASSWORD) (port_digit (p_port_no x) c) else x
      else with_port_no (with_state x URI_PASSWORD_ALPHA) 0).
Proof.
  unfold plain. intros E Hc. forall_simpl. unfold step, step_authority. rewrite E. char_tests.
  destruct x; simpl in *; subst. by repeat case_match.
Qed.

(** The password states: whatever was accumulated as a port, the address of the
    password and the user stay. *)
Lemma loop_password l : ∀ p x,
  Forall plain l → pst x = URI_PASSWORD ∨ pst x = URI_PASSWORD_ALPHA →
  ∃ q n, parse_loop p l x = Ok (p + Z.of_nat (length l), with_port_no (with_state x q) n)
    ∧ (q = URI_PASSWORD ∨ q = URI_PASSWORD_ALPHA)
    ∧ ((pst x = URI_PASSWORD_ALPHA → p_port_no x = 0) → q = URI_PASSWORD_ALPHA → n = 0).
Proof.
  induction l as [|c l IH]; intros p x Hl Hx.
  { exists (pst x), (p_port_no x). simpl. rewrite Z.add_0_r. by destruct x. }
  apply Forall_cons in Hl as [Hc Hl]. simpl.
  assert (∃ q n, step p c x = Ok (with_port_no (with_state x q) n)
     ∧ (q = URI_PASSWORD ∨ q = URI_PASSWORD_ALPHA)
     ∧ ((pst x = URI_PASSWORD_ALPHA → p_port_no x = 0) → q = URI_PASSWORD_ALPHA → n = 0))
    as (q & n & -> & Hq & Hn).
  { destruct Hx as [Ex|Ex].
    - rewrite (step_password_plain p c x Ex Hc).
      destruct (is_digit c); [destruct (_ <? _)|].
      + eexists _, _; split; [reflexivity|]. naive_solver.
      + exists URI_PASSWORD, (p_port_no x). split; [by destruct x; simpl in *; subst|naive_solver].
      + eexists _, _; split; [reflexivity|]. naive_solver.
    - rewrite step_alpha_plain by done. exists (pst x), (p_port_no x).
      split; [by destruct x|naive_solver]. }
  destruct (IH (p + 1) (with_port_no (with_state x q) n) Hl Hq) as (q' & n' & -> & Hq' & Hn').
  exists q', n'. split; [do 2 f_equal; lia|]. split; [done|].
  intros H Hq''. apply Hn'; [|done]. simpl. auto.
Qed.

Lemma loop_host h p x :
  host_text h → pst x = URI_HOST →
  parse_loop p h x = Ok (p + Z.of_nat (length h), with_state x URI_HOST_P).
Proof.
  destruct h as [|c h]; [done|]. intros (Hb & Hc & Hh) Hx. simpl.
  rewrite (step_host_first p c x) by done.
  rewrite parse_loop_stay.
  - do 2 f_equal. lia.
  - eapply Forall_impl; [exact Hh|]. intros d Hd q. by apply step_host_rest.
Qed.

Lemma dec_value_mono l : ∀ n, 0 <= n → Forall digit l → n <= foldl (λ n c, n * 10 + (c - 48)) n l.
Proof.
  induction l as [|c l IH]; intros n Hn Hl; simpl; [lia|].
  apply Forall_cons in Hl as [[? ?] Hl]. etransitivity; [|apply IH; [lia|done]]. lia.
Qed.

(** Digits in the port state, as long as the value fits in 16 bits. *)
Lemma loop_port l : ∀ p x,
  pst x = URI_PORT → Forall digit l → 0 <= p_port_no x →
  foldl (λ n c, n * 10 + (c - 48)) (p_port_no x) l <= USHRT_MAX →
  parse_loop p l x =
  Ok (p + Z.of_nat (length l), with_port_no x (foldl (λ n c, n * 10 + (c - 48)) (p_port_no x) l)).
Proof.
  induction l as [|c l IH]; intros p x Hx Hl Hn Hmax; simpl in *.
  { rewrite Z.add_0_r. by destruct x. }
  apply Forall_cons in Hl as [[Hc1 Hc2] Hl].
  pose proof (dec_value_mono l (p_port_no x * 10 + (c - 48)) ltac:(lia) Hl).
  assert (port_digit (p_port_no x) c = p_port_no x * 10 + (c - 48)) as Hd.
  { apply wrap_small. unfold USHRT_MAX in Hmax. change (2 ^ 32) with 4294967296. lia. }
  assert (step p c x = Ok (with_port_no x (p_port_no x * 10 + (c - 48)))) as ->.
  { unfold step, step_authority. rewrite Hx, Hd. cbv [chr].
    repeat (rewrite (proj2 (Z.eqb_neq c _)) by (simpl; lia)).
    unfold is_digit. rewrite (proj2 (Z.leb_le 48 c) Hc1), (proj2 (Z.leb_le c 57) Hc2). simpl.
    rewrite (proj2 (Z.ltb_ge _ _)) by lia. done. }
  rewrite IH; simpl; auto; [|lia]. do 2 f_equal. lia.
Qed.

(** ** An address, written and read back *)

(** [user[:password]@] *)
Definition userinfo (us : bytes) (pw : option bytes) : bytes :=
  us ++ match pw with Some w => chr ":" :: w | None => [] end ++ [chr "@"].
(** [host[:port]] *)
Definition hostport (h : bytes) (po : option bytes) : bytes :=
  h ++ match po with Some d => chr ":" :: d | None => [] end.

Definition passwd_at (p : Z) (pw : option bytes) : str :=
  match pw with Some w => str_to p (p + Z.of_nat (length w)) | None => str_null end.

Lemma loop_user us p0 t :
  us ≠ [] → Forall plain us →
  parse_loop p0 us (init_state p0 t) =
  Ok (p0 + Z.of_nat (length us), with_state (init_state p0 t) URI_USER).
Proof.
  destruct us as [|c us]; [done|]. intros _ [Hc Hl]%Forall_cons. simpl.
  rewrite (step_init_plain p0 c) by done.
  rewrite parse_loop_stay; [do 2 f_equal; lia|].
  eapply Forall_impl; [exact Hl|]. intros d Hd q. by apply step_user_plain.
Qed.

Lemma parse_loop_cons p c l x y :
  step p c x = Ok y → parse_loop p (c :: l) x = parse_loop (p + 1) l y.
Proof. intros E. simpl. by rewrite E. Qed.

Lemma loop_userinfo us pw p0 t :
  us ≠ [] → Forall plain us → (∀ w, pw = Some w → Forall plain w) →
  ∃ x, parse_loop p0 (userinfo us pw) (init_state p0 t) =
         Ok (p0 + Z.of_nat (length (userinfo us pw)), x) ∧
    pst x = URI_HOST ∧ p_s x = p0 + Z.of_nat (length (userinfo us pw)) ∧ p_port_no x = 0 ∧
    p_uri x = set_passwd (set_user (uri_zero t) (str_to p0 (p0 + Z.of_nat (length us))))
                (passwd_at (p0 + Z.of_nat (length us) + 1) pw).
Proof.
  intros Hn Hu Hw. unfold userinfo. rewrite parse_loop_app, loop_user by done.
  destruct pw as [w|]; cbn [app]; rewrite !length_app; cbn [length].
  - erewrite parse_loop_cons by reflexivity. rewrite parse_loop_app, length_app; cbn [length].
    match goal with |- context [parse_loop ?p w ?y] =>
      destruct (loop_password w p y (Hw w eq_refl) ltac:(by left)) as (q & n & E & Hq & Hn0) end.
    rewrite E. destruct Hq as [-> | ->]; [|rewrite Hn0 by done];
      (erewrite parse_loop_cons by reflexivity); eexists; cbn [parse_loop];
      (split; [do 2 f_equal; lia|]); simpl; repeat split; lia.
  - erewrite parse_loop_cons by reflexivity. eexists; cbn [parse_loop].
    split; [do 2 f_equal; lia|]. simpl; repeat split; lia.
Qed.

Definition port_at (u : sip_uri) (p : Z) (po : option bytes) : sip_uri :=
  match po with
  | Some d => set_port u (str_to p (p + Z.of_nat (length d))) (dec_value d)
  | None => u
  end.

Definition port_text (po : option bytes) : Prop :=
  ∀ d, po = Some d → Forall digit d ∧ dec_value d <= USHRT_MAX.

Lemma loop_hostport h po p x :
  host_text h → port_text po → pst x = URI_HOST → p_s x = p → p_port_no x = 0 →
  ∃ y, parse_loop p (hostport h po) x = Ok (p + Z.of_nat (length (hostport h po)), y) ∧
    finish (p + Z.of_nat (length (hostport h po))) y =
    Ok (port_at (set_host (p_uri x) (str_to p (p + Z.of_nat (length h))))
          (p + Z.of_nat (length h) + 1) po).
Proof.
  intros Hh Hp Hx Hs H0. unfold hostport. rewrite parse_loop_app, loop_host by done.
  rewrite length_app. destruct po as [d|]; cbn [length].
  - destruct (Hp d eq_refl) as [Hd Hm]. erewrite parse_loop_cons by reflexivity.
    rewrite loop_port; simpl; rewrite ?H0; auto; [|lia]. eexists; split; [do 2 f_equal; lia|].
    unfold finish, port_at; simpl. rewrite Hs. f_equal. unfold dec_value.
    f_equal; [f_equal; lia|]. apply wrap_small.
    pose proof (dec_value_mono d 0 ltac:(lia) Hd). unfold dec_value, USHRT_MAX in *.
    change (2 ^ 16) with 65536. lia.
  - eexists. cbn [parse_loop]. split; [do 2 f_equal; lia|]. unfold finish; simpl. rewrite Hs.
    by rewrite Nat.add_0_r.
Qed.
End machine.

(** ** The text of the parsed fields *)

Lemma str_text_mid buf pre t post :
  0 <= buf → Z.of_nat (length t) <= INT_MAX →
  str_text buf (pre ++ t ++ post)
    (str_to (buf + Z.of_nat (length pre)) (buf + Z.of_nat (length pre) + Z.of_nat (length t))) = t.
Proof.
  intros Hb Hl. unfold str_text, str_to; simpl.
  replace (buf + Z.of_nat (length pre) + Z.of_nat (length t) - (buf + Z.of_nat (length pre)))
    with (Z.of_nat (length t)) by lia.
  replace (buf + Z.of_nat (length pre) - buf) with (Z.of_nat (length pre)) by lia.
  unfold INT_MAX in Hl. rewrite swrap_small by (change (2 ^ 31) with 2147483648; lia).
  by rewrite !Nat2Z.id, drop_app_length, take_app_length.
Qed.

(** The same at an address given by an equation. *)
Lemma str_text_at buf text pre t post a b :
  text = pre ++ t ++ post → 0 <= buf → Z.of_nat (length t) <= INT_MAX →
  a = buf + Z.of_nat (length pre) → b = a + Z.of_nat (length t) →
  str_text buf text (str_to a b) = t.
Proof. intros -> ?? -> ->. by apply str_text_mid. Qed.

(** Close [str_text buf text (str_to a b) = t] by what precedes and follows [t]. *)
Ltac text_at pre post :=
  eapply (str_text_at _ _ pre _ post);
  [rewrite ?app_nil_r, <- ?app_assoc; reflexivity | rewrite ?length_app; simpl length; lia ..].

(** [sip:user[:password]@host[:port]] *)
Definition sip_address (us : bytes) (pw : option bytes) (h : bytes) (po : option bytes) : bytes :=
  bs "sip:" ++ userinfo us pw ++ hostport h po.

Lemma parse_sip_address buf us pw h po :
  us ≠ [] → Forall plain us → (∀ w, pw = Some w → Forall plain w) →
  host_text h → port_text po →
  let p0 := buf + 4 in
  let p1 := p0 + Z.of_nat (length (userinfo us pw)) in
  parse_uri buf (sip_address us pw h po) =
  Ok (port_at (set_host
        (set_passwd (set_user (uri_zero SIP_URI_T) (str_to p0 (p0 + Z.of_nat (length us))))
           (passwd_at (p0 + Z.of_nat (length us) + 1) pw))
        (str_to p1 (p1 + Z.of_nat (length h)))) (p1 + Z.of_nat (length h) + 1) po).
Proof.
  intros Hn Hu Hw Hh Hp p0 p1. unfold parse_uri.
  assert (parse_scheme (sip_address us pw h po) = Ok (SIP_URI_T, 4%nat)) as ->.
  { unfold sip_address, userinfo. destruct us; [done|]. by vm_compute. }
  change (drop 4 (sip_address us pw h po)) with (userinfo us pw ++ hostport h po).
  cbv zeta. change (buf + Z.of_nat 4) with p0. rewrite parse_loop_app.
  destruct (loop_userinfo us pw p0 SIP_URI_T Hn Hu Hw) as (x & -> & Hx & Hs & H0 & Huri).
  fold p1. destruct (loop_hostport h po p1 x Hh Hp Hx Hs H0) as (y & -> & ->).
  rewrite Huri. unfold fix_type. by destruct po.
Qed.

Definition opt_text (o : option bytes) : bytes := default [] o.

(** C15. A written address is read back: for a non-empty user and an optional
    password without the separators, a host and an optional port of at most 65535,
    [parse_uri] accepts [sip:user[:password]@host[:port]] as a SIP URI whose fields
    have exactly these texts and whose port number is the value of the digits. *)
Theorem parse_uri_roundtrip buf us pw h po :
  0 < buf → us ≠ [] → Forall plain us → (∀ w, pw = Some w → Forall plain w) →
  host_text h → port_text po →
  Z.of_nat (length (sip_address us pw h po)) <= INT_MAX →
  ∃ u, parse_uri buf (sip_address us pw h po) = Ok u ∧ utype u = SIP_URI_T ∧
    str_text buf (sip_address us pw h po) (user u) = us ∧
    str_text buf (sip_address us pw h po) (passwd u) = opt_text pw ∧
    str_text buf (sip_address us pw h po) (host u) = h ∧
    str_text buf (sip_address us pw h po) (port u) = opt_text po ∧
    port_no u = dec_value (opt_text po).
Proof.
  intros Hb Hn Hu Hw Hh Hp Hl. eexists. split; [by apply parse_sip_address|].
  unfold sip_address, userinfo, hostport in *.
  assert (length (bs "sip:") = 4%nat) as L4 by done.
  rewrite !length_app, L4 in Hl. rewrite !length_app. split_and!.
  - by destruct po.
  - destruct po; simpl user;
      eapply (str_text_at _ _ (bs "sip:")); rewrite <- ?app_assoc; rewrite ?L4; (done || lia).
  - destruct pw as [w|]; [|by destruct po]. cbn [app length] in *. rewrite ?length_app in Hl.
    destruct po; simpl passwd; eapply (str_text_at _ _ (bs "sip:" ++ us ++ [chr ":"]));
      rewrite <- ?app_assoc; rewrite ?length_app; cbn [app opt_text default]; simpl length;
      rewrite <- ?app_assoc; try done; lia.
  - destruct po; simpl host;
      eapply (str_text_at _ _ (bs "sip:" ++ userinfo us pw)); unfold userinfo;
      rewrite <- ?app_assoc; rewrite ?length_app; simpl length; try done; lia.
  - destruct po as [d|]; [|by destruct pw]. cbn [app length] in *. simpl port.
    rewrite <- (app_nil_r d) at 1.
    eapply (str_text_at _ _ (bs "sip:" ++ userinfo us pw ++ h ++ [chr ":"]) d []); unfold userinfo;
      rewrite <- ?app_assoc; rewrite ?length_app; simpl length; try done; lia.
  - by destruct po.
Qed.

(** ** A host without a user, and what follows it *)

Definition host_start (p0 p : Z) (t : uri_type) (q : state) : pstate :=
  PState q (p + 1) 0 0 None None 0 0 false false (set_host (uri_zero t) (str_to p0 p)).

(** [sip:host;] leaves the machine at the beginning of a parameter. *)
Lemma parse_sip_host buf h rest :
  h ≠ [] → Forall plain h →
  let p0 := buf + 4 in
  let p := p0 + Z.of_nat (length h) in
  parse_uri buf (bs "sip:" ++ h ++ chr ";" :: rest) =
  match parse_loop (p + 1) rest (host_start p0 p SIP_URI_T URI_PARAM) with
  | Ok (e, x) => match finish e x with Ok u => fix_type u | Err er => Err er end
  | Err er => Err er
  end.
Proof.
  intros Hn Hh p0 p. unfold parse_uri.
  assert (parse_scheme (bs "sip:" ++ h ++ chr ";" :: rest) = Ok (SIP_URI_T, 4%nat)) as ->.
  { destruct h; [done|]. by vm_compute. }
  change (drop 4 (bs "sip:" ++ h ++ chr ";" :: rest)) with (h ++ chr ";" :: rest).
  cbv zeta. change (buf + Z.of_nat 4) with p0.
  rewrite parse_loop_app, loop_user by done. fold p.
  by erewrite parse_loop_cons by reflexivity.
Qed.

(** Characters given literally: run the machine over them. *)
Ltac run_step :=
  match goal with
  | |- context [parse_loop ?p (?c :: ?l) ?x] =>
      let r := eval cbv -[Z.add Z.sub Z.ltb Z.of_nat length str_to set_pname set_pval set_params
                          set_proto set_host set_user set_port u_param_set user uri_zero
                          INT_MAX wrap swrap dec_value] in (step p c x) in
      match r with Ok ?y => rewrite (parse_loop_cons p c l x y eq_refl) end
  end.
Ltac run_steps := unfold host_start; cbn [app bs]; repeat run_step; cbn [parse_loop].

(** The transports and the numbers [parse_uri] gives them. *)
Definition transports : list (bytes * Z) :=
  [(bs "udp", PROTO_UDP); (bs "tcp", PROTO_TCP); (bs "tls", PROTO_TLS);
   (bs "sctp", PROTO_SCTP); (bs "ws", PROTO_WS); (bs "wss", PROTO_WSS)].

Lemma transport_value buf h w n :
  h ≠ [] → Forall plain h → (w, n) ∈ transports →
  let p0 := buf + 4 in
  let p := p0 + Z.of_nat (length h) in
  ∃ u, parse_uri buf (bs "sip:" ++ h ++ chr ";" :: bs "transport=" ++ w) = Ok u ∧
    utype u = SIP_URI_T ∧ proto u = n ∧ host u = str_to p0 p ∧
    pname u F_transport = str_to (p + 1) (p + 1 + 10 + Z.of_nat (length w)) ∧
    pval u F_transport = str_to (p + 1 + 10) (p + 1 + 10 + Z.of_nat (length w)).
Proof.
  intros Hn Hh Hw p0 p. rewrite parse_sip_host by done. fold p0 p.
  unfold transports in Hw. rewrite !elem_of_cons, elem_of_nil in Hw.
  repeat (destruct Hw as [[= -> ->]|Hw]); [..|done];
    run_steps; (eexists; split; [reflexivity|]); simpl; split_and!; try done; f_equal; lia.
Qed.

(** ** The numeric port of a host without a user *)

Lemma digit_plain c : digit c → plain c.
Proof.
  intros [??]. unfold plain. cbn [bs].
  do 6 (apply Forall_cons; split; [by intros ->|]). apply Forall_nil_2.
Qed.

(** Digits in the password state, while the accumulator is below the cap. *)
Lemma loop_password_digits l : ∀ p x,
  pst x = URI_PASSWORD → Forall digit l → 0 <= p_port_no x →
  foldl (λ n c, n * 10 + (c - 48)) (p_port_no x) l < INT_MAX / 10 * 10 →
  parse_loop p l x =
  Ok (p + Z.of_nat (length l), with_port_no x (foldl (λ n c, n * 10 + (c - 48)) (p_port_no x) l)).
Proof.
  change (INT_MAX / 10) with 214748364.
  induction l as [|c l IH]; intros p x Hx Hl Hn Hmax; simpl in *.
  { rewrite Z.add_0_r. by destruct x. }
  apply Forall_cons in Hl as [[Hc1 Hc2] Hl].
  pose proof (dec_value_mono l (p_port_no x * 10 + (c - 48)) ltac:(lia) Hl).
  rewrite (step_password_plain p c x Hx (digit_plain c (conj Hc1 Hc2))). unfold is_digit.
  rewrite (proj2 (Z.leb_le 48 c) Hc1), (proj2 (Z.leb_le c 57) Hc2). simpl andb.
  change (INT_MAX / 10) with 214748364. rewrite (proj2 (Z.ltb_lt _ _)) by lia.
  unfold port_digit. rewrite wrap_small by (change (2 ^ 32) with 4294967296; lia).
  rewrite IH; simpl; auto; [|lia]. do 2 f_equal; [lia|]. by destruct x; simpl in *; subst.
Qed.

(** The machine after [sip:host:digits]. *)
Lemma parse_sip_host_port buf h d rest :
  h ≠ [] → Forall plain h → Forall digit d → dec_value d < INT_MAX / 10 * 10 →
  let p0 := buf + 4 in
  let p := p0 + Z.of_nat (length h) in
  parse_uri buf (bs "sip:" ++ h ++ chr ":" :: d ++ rest) =
  match parse_loop (p + 1 + Z.of_nat (length d)) rest
          (PState URI_PASSWORD (p + 1) 0 0 None None 0 (dec_value d) false false
             (set_user (uri_zero SIP_URI_T) (str_to p0 p))) with
  | Ok (e, x) => match finish e x with Ok u => fix_type u | Err er => Err er end
  | Err er => Err er
  end.
Proof.
  intros Hn Hh Hd Hm p0 p. unfold parse_uri.
  assert (parse_scheme (bs "sip:" ++ h ++ chr ":" :: d ++ rest) = Ok (SIP_URI_T, 4%nat)) as ->.
  { destruct h; [done|]. by vm_compute. }
  change (drop 4 (bs "sip:" ++ h ++ chr ":" :: d ++ rest)) with (h ++ chr ":" :: d ++ rest).
  cbv zeta. change (buf + Z.of_nat 4) with p0.
  rewrite parse_loop_app, loop_user by done. fold p.
  erewrite parse_loop_cons by reflexivity.
  by rewrite parse_loop_app, loop_password_digits.
Qed.

(** ** Theorems *)

(** C14. Memory safety of the parser: for any text at a non-null address, a
    successful [parse_uri] returns fields that are null or lie inside the text
    (the names of unknown parameters may also have a null address, see [empty_param_null_name]), at most
    [URI_MAX_U_PARAMS] unknown parameters and a 16-bit port; a failing one never
    writes through a null [param]/[param_val] pointer. *)
Theorem parse_uri_in_bounds buf text :
  0 < buf → Z.of_nat (length text) <= INT_MAX →
  match parse_uri buf text with
  | Ok u => uri_ok buf (buf + Z.of_nat (length text)) u
  | Err e => e ≠ Fault
  end.
Proof. apply parse_uri_inv. Qed.

(** The transport parameter: [sip:host;transport=w] with [w] one of the six
    transports selects its protocol number, and the parameter and its value are the
    texts [transport=w] and [w]. *)
Theorem parse_uri_transport buf h w n :
  0 < buf → h ≠ [] → Forall plain h → (w, n) ∈ transports →
  Z.of_nat (length h) <= INT_MAX - 19 →
  let text := bs "sip:" ++ h ++ chr ";" :: bs "transport=" ++ w in
  ∃ u, parse_uri buf text = Ok u ∧ utype u = SIP_URI_T ∧ proto u = n ∧
    str_text buf text (host u) = h ∧
    str_text buf text (pname u F_transport) = bs "transport=" ++ w ∧
    str_text buf text (pval u F_transport) = w.
Proof.
  intros Hb Hn Hh Hw Hl text.
  assert (length w <= 4)%nat as Hlw.
  { unfold transports in Hw. rewrite !elem_of_cons, elem_of_nil in Hw.
    repeat (destruct Hw as [[= -> _]|Hw]); [simpl; lia..|done]. }
  destruct (transport_value buf h w n Hn Hh Hw) as (u & Hp & ? & ? & Hhost & Hpn & Hpv).
  exists u. rewrite Hhost, Hpn, Hpv. split_and!; [done..| | |].
  - text_at (bs "sip:") (chr ";" :: bs "transport=" ++ w).
  - text_at (bs "sip:" ++ h ++ [chr ";"]) (@nil byte).
  - text_at (bs "sip:" ++ h ++ [chr ";"] ++ bs "transport=") (@nil byte).
Qed.

(** A port above 65535 is refused at the end of the URI but accepted, and
    truncated to 16 bits, when parameters follow: [sip:host:digits] is
    [error_bad_port] while [sip:host:digits;lr] parses with port number
    [digits mod 65536]. *)
Theorem port_truncated_before_params buf h d :
  h ≠ [] → Forall plain h → Forall digit d → dec_value d < INT_MAX / 10 * 10 →
  (∃ u, parse_uri buf (bs "sip:" ++ h ++ chr ":" :: d ++ bs ";lr") = Ok u ∧
        port_no u = dec_value d mod 65536) ∧
  (USHRT_MAX < dec_value d →
   parse_uri buf (bs "sip:" ++ h ++ chr ":" :: d ++ []) = Err error_bad_port).
Proof.
  intros Hn Hh Hd Hm. rewrite !parse_sip_host_port by done. split.
  - cbn [bs]. run_steps. eexists; split; [reflexivity|]. reflexivity.
  - intros Ho. cbn [parse_loop]. unfold finish; simpl. by rewrite (proj2 (Z.ltb_lt _ _) Ho).
Qed.

(** A trailing semicolon: [sip:host;] is accepted with one unknown parameter
    whose name has a null address and, as its length, the low 32 bits of the
    address of the end of the URI. *)
Lemma empty_param_null_name buf h :
  h ≠ [] → Forall plain h →
  ∃ u, parse_uri buf (bs "sip:" ++ h ++ chr ";" :: []) = Ok u ∧
    u_params u = [(Str 0 (i32 (buf + 4 + Z.of_nat (length h) + 1)), str_null)].
Proof.
  intros Hn Hh. rewrite parse_sip_host by done. cbn [parse_loop].
  eexists; split; [reflexivity|]. simpl. unfold str_to. do 4 f_equal. lia.
Qed.

(** [maddr] at the end of the URI: a URI that ends anywhere between [;ma] and
    [;maddr=] is rejected by the "bug in parse_uri" exit, whatever the host. *)
Lemma maddr_prefix_is_bug buf h k :
  h ≠ [] → Forall plain h → (2 <= k <= 6)%nat →
  parse_uri buf (bs "sip:" ++ h ++ chr ";" :: take k (bs "maddr=")) = Err error_bug.
Proof.
  intros Hn Hh Hk. rewrite parse_sip_host by done.
  assert (k = 2 ∨ k = 3 ∨ k = 4 ∨ k = 5 ∨ k = 6)%nat as Hk' by lia.
  destruct_or! Hk'; subst; cbn [bs take]; run_steps; reflexivity.
Qed.

(** The value pointer survives its parameter: in [sip:host;x=1;] the empty last
    parameter is recorded as a second [x], with the value [1;]. *)
Lemma stale_value_duplicates buf h :
  0 < buf → h ≠ [] → Forall plain h → Z.of_nat (length h) <= INT_MAX - 9 →
  let text := bs "sip:" ++ h ++ chr ";" :: bs "x=1;" in
  ∃ u, parse_uri buf text = Ok u ∧
    map (λ e, (str_text buf text e.1, str_text buf text e.2)) (u_params u) =
    [(bs "x", bs "1"); (bs "x", bs "1;")].
Proof.
  intros Hb Hn Hh Hl text. unfold text at 1. rewrite parse_sip_host by done. run_steps.
  unfold u_param_set; simpl. rewrite (proj2 (Z.ltb_lt _ _)) by lia.
  rewrite !(proj2 (Z.ltb_lt _ _)) by lia.
  assert (∀ a b, Str a (i32 (b - a - 1)) = str_to a (b - 1)) as Hstr
    by (intros a b; unfold str_to; do 2 f_equal; lia).
  rewrite !Hstr. eexists; split; [reflexivity|]. simpl. unfold text. repeat f_equal.
  - text_at (bs "sip:" ++ h ++ [chr ";"]) (bs "=1;").
  - text_at (bs "sip:" ++ h ++ [chr ";"] ++ bs "x=") (bs ";").
  - text_at (bs "sip:" ++ h ++ [chr ";"]) (bs "=1;").
  - text_at (bs "sip:" ++ h ++ [chr ";"] ++ bs "x=") (@nil byte).
Qed.

(** The digits of a text first taken for the port of a host are not forgotten
    when an [@] shows that it was a user: the port number of the second host is
    computed from both. *)
Lemma port_no_not_reset :
  let text := bs "sip:[::1]:50;x@host:60" in
  ∃ u, parse_uri 1000 text = Ok u ∧ str_text 1000 text (user u) = bs "[::1]:50;x" ∧
    str_text 1000 text (host u) = bs "host" ∧ str_text 1000 text (port u) = bs "60" ∧
    port_no u = 5060.
Proof. eexists; split; [vm_compute; reflexivity|]. by vm_compute. Qed.

(** ** The hypotheses hold on concrete URIs *)

Lemma parse_uri_in_bounds_witness :
  match parse_uri 1000 (bs "sip:bob:pw@h:5061;lr") with
  | Ok u => uri_ok 1000 (1000 + Z.of_nat (length (bs "sip:bob:pw@h:5061;lr"))) u
  | Err e => e ≠ Fault
  end.
Proof. apply (parse_uri_in_bounds 1000 (bs "sip:bob:pw@h:5061;lr")); by vm_compute. Defined.

Lemma port_text_some d : Forall digit d → dec_value d <= USHRT_MAX → port_text (Some d).
Proof. by intros ?? ? [= <-]. Qed.

Lemma parse_uri_roundtrip_witness :
  let text := sip_address (bs "bob") (Some (bs "p5")) (bs "example.org") (Some (bs "5061")) in
  ∃ u, parse_uri 1000 text = Ok u ∧ utype u = SIP_URI_T ∧
    str_text 1000 text (user u) = bs "bob" ∧ str_text 1000 text (passwd u) = bs "p5" ∧
    str_text 1000 text (host u) = bs "example.org" ∧ str_text 1000 text (port u) = bs "5061" ∧
    port_no u = 5061.
Proof.
  apply (parse_uri_roundtrip 1000 (bs "bob") (Some (bs "p5")) (bs "example.org") (Some (bs "5061"))).
  - done.
  - done.
  - apply (bool_decide_unpack _). by vm_compute.
  - intros w [= <-]. apply (bool_decide_unpack _). by vm_compute.
  - apply (bool_decide_unpack _). by vm_compute.
  - apply port_text_some; [apply (bool_decide_unpack _)|]; by vm_compute.
  - by vm_compute.
Defined.

Lemma parse_uri_transport_witness :
  let text := bs "sip:h;transport=tls" in
  ∃ u, parse_uri 1000 text = Ok u ∧ utype u = SIP_URI_T ∧ proto u = PROTO_TLS ∧
    str_text 1000 text (host u) = bs "h" ∧
    str_text 1000 text (pname u F_transport) = bs "transport=tls" ∧
    str_text 1000 text (pval u F_transport) = bs "tls".
Proof.
  apply (parse_uri_transport 1000 (bs "h") (bs "tls") PROTO_TLS).
  - done.
  - done.
  - apply (bool_decide_unpack _). by vm_compute.
  - apply (bool_decide_unpack _). by vm_compute.
  - by vm_compute.
Defined.

Lemma port_truncated_witness :
  (∃ u, parse_uri 1000 (bs "sip:h:70000;lr") = Ok u ∧ port_no u = 4464) ∧
  (USHRT_MAX < 70000 → parse_uri 1000 (bs "sip:h:70000") = Err error_bad_port).
Proof.
  apply (port_truncated_before_params 1000 (bs "h") (bs "70000")).
  - done.
  - apply (bool_decide_unpack _). by vm_compute.
  - apply (bool_decide_unpack _). by vm_compute.
  - by vm_compute.
Defined.

Lemma empty_param_witness :
  ∃ u, parse_uri 1000 (bs "sip:h;") = Ok u ∧ u_params u = [(Str 0 1006, str_null)].
Proof.
  apply (empty_param_null_name 1000 (bs "h")); [done|apply (bool_decide_unpack _); by vm_compute].
Defined.

Lemma maddr_prefix_witness : parse_uri 1000 (bs "sip:h;maddr") = Err error_bug.
Proof.
  apply (maddr_prefix_is_bug 1000 (bs "h") 5); [done| |lia].
  apply (bool_decide_unpack _); by vm_compute.
Defined.

Lemma stale_value_witness :
  let text := bs "sip:h;x=1;" in
  ∃ u, parse_uri 1000 text = Ok u ∧
    map (λ e, (str_text 1000 text e.1, str_text 1000 text e.2)) (u_params u) =
    [(bs "x", bs "1"); (bs "x", bs "1;")].
Proof.
  apply (stale_value_duplicates 1000 (bs "h")); [done|done| |by vm_compute].
  apply (bool_decide_unpack _); by vm_compute.
Defined.
