(* ===== verification/HashFunc.v ===== *)
(** * HashFunc: the string hashes of the core (hash_func.h)

    [core_hash] and [core_case_hash] on unsigned 32-bit arithmetic; a [char] is
    signed.  A string argument that may be null is an [option]. *)

From stdpp Require Import prelude list.
From Stdlib Require Import ZArith Lia.
From S2P Require Import Prelude.

(** The value of a [char] holding the byte [b]. *)
Definition schar (b : byte) : Z := if b <? 128 then b else b - 256.

(** [ch_h_inc]: [h += v ^ (v >> 3)] *)
Definition ch_h_inc (h v : Z) : Z := u32 (h + Z.lxor v (Z.shiftr v 3)).

(** [ch_icase] *)
Definition ch_icase (c : Z) : Z := if (65 <=? c) && (c <=? 90) then Z.lor c 0x20 else c.

(** The last one to three characters: [v <<= 8; v += *p]. *)
Definition hash_tail (f : Z → Z) (s : bytes) : Z :=
  foldl (λ v b, u32 (u32 (Z.shiftl v 8) + f (schar b))) 0 s.

(** One string: four characters at a time, then the tail.  [f] maps the
    characters. *)
Fixpoint hash_str (f : Z → Z) (s : bytes) (h : Z) : Z :=
  match s with
  | a :: b :: c :: d :: s' =>
      let v := u32 (Z.shiftl (f (schar a)) 24 + Z.shiftl (f (schar b)) 16
                    + Z.shiftl (f (schar c)) 8 + f (schar d)) in
      hash_str f s' (ch_h_inc h v)
  | _ => ch_h_inc h (hash_tail f s)
  end.

Definition hash_fin (h size : Z) : Z :=
  let h := u32 (u32 (h + Z.shiftr h 11) + u32 (Z.shiftr h 13 + Z.shiftr h 23)) in
  if size =? 0 then h else Z.land h (u32 (size - 1)).

Definition hash_with (f : Z → Z) (s1 : bytes) (s2 : option bytes) (size : Z) : Z :=
  let h := hash_str f s1 0 in
  let h := match s2 with Some s => hash_str f s h | None => h end in
  hash_fin h size.

Definition core_hash : bytes → option bytes → Z → Z := hash_with (λ c, c).
Definition core_case_hash : bytes → option bytes → Z → Z := hash_with ch_icase.

(** ** Facts *)

Lemma u32_range n : 0 <= u32 n < 2 ^ 32.
Proof. apply Z.mod_pos_bound. done. Qed.

Lemma hash_fin_range h n : (n < 32)%nat → 0 <= hash_fin h (2 ^ Z.of_nat n) < 2 ^ Z.of_nat n.
Proof.
  intros Hn. unfold hash_fin.
  assert (0 < 2 ^ Z.of_nat n) as Hpos by (apply Z.pow_pos_nonneg; lia).
  rewrite (proj2 (Z.eqb_neq _ _)) by lia.
  assert (2 ^ Z.of_nat n < 2 ^ 32) by (apply Z.pow_lt_mono_r; lia).
  rewrite (wrap_small 32 (2 ^ Z.of_nat n - 1)) by lia.
  replace (2 ^ Z.of_nat n - 1) with (Z.ones (Z.of_nat n)) by (rewrite Z.ones_equiv; lia).
  rewrite Z.land_ones by lia. apply Z.mod_pos_bound. lia.
Qed.

Lemma lor_case c : 65 <= c <= 90 → Z.lor c 0x20 = c + 32.
Proof.
  intros Hc. assert (Forall (λ c, Z.lor c 0x20 = c + 32) (seqZ 65 26)) as HF
    by (apply (bool_decide_unpack _); by vm_compute).
  rewrite Forall_forall in HF. apply HF, elem_of_seqZ. lia.
Qed.

Lemma icase_tolower b : ch_icase (schar (tolower b)) = ch_icase (schar b).
Proof.
  unfold tolower. destruct ((65 <=? b) && (b <=? 90)) eqn:E; [|done].
  apply andb_true_iff in E as [E1 E2]. zbool. unfold schar, ch_icase.
  rewrite !(proj2 (Z.ltb_lt _ 128)) by lia.
  rewrite (proj2 (Z.leb_gt (b + 32) 90)), andb_false_r by lia.
  rewrite (proj2 (Z.leb_le 65 b)), (proj2 (Z.leb_le b 90)) by lia. simpl. by rewrite lor_case by lia.
Qed.

(** Induction four characters at a time, as the loop of [core_hash] goes. *)
Lemma four_ind (P : bytes → Prop) :
  P [] → (∀ a, P [a]) → (∀ a b, P [a; b]) → (∀ a b c, P [a; b; c]) →
  (∀ a b c d s, P s → P (a :: b :: c :: d :: s)) → ∀ s, P s.
Proof.
  intros H0 H1 H2 H3 H4. fix IH 1. intros [|a [|b [|c [|d s]]]];
    [exact H0|exact (H1 a)|exact (H2 a b)|exact (H3 a b c)|exact (H4 a b c d s (IH s))].
Qed.

Lemma hash_str_tolower s : ∀ h, hash_str ch_icase (map tolower s) h = hash_str ch_icase s h.
Proof.
  induction s as [|a|a b|a b c|a b c d s IH] using four_ind; intros h; cbn [map hash_str];
    unfold hash_tail; cbn [foldl]; rewrite ?icase_tolower; [done..|apply IH].
Qed.

(** ** Theorems *)

(** For a table of [2^n] buckets both hashes return the index of a bucket. *)
Theorem core_hash_in_table (n : nat) (Hn : (n < 32)%nat) s1 s2 :
  0 <= core_hash s1 s2 (2 ^ Z.of_nat n) < 2 ^ Z.of_nat n
  ∧ 0 <= core_case_hash s1 s2 (2 ^ Z.of_nat n) < 2 ^ Z.of_nat n.
Proof. split; by apply hash_fin_range. Qed.

(** [core_case_hash] does not depend on the case of ASCII letters. *)
Lemma core_case_hash_case s1 s2 size :
  core_case_hash (map tolower s1) (map tolower <$> s2) size = core_case_hash s1 s2 size.
Proof.
  unfold core_case_hash, hash_with. rewrite hash_str_tolower.
  destruct s2; simpl; by rewrite ?hash_str_tolower.
Qed.

Lemma core_hash_witness :
  0 <= core_hash [97; 98; 99; 100; 200] None (2 ^ Z.of_nat 12) < 2 ^ Z.of_nat 12
  ∧ 0 <= core_case_hash [97; 98; 99; 100; 200] None (2 ^ Z.of_nat 12) < 2 ^ Z.of_nat 12.
Proof. apply (core_hash_in_table 12 ltac:(lia) [97; 98; 99; 100; 200] None). Defined.
