(* ===== verification/StrCommon.v ===== *)
(** * StrCommon: escaping of strings (strcommon.c, parser/parse_uri.h)

    The backslash, XML and URI escapings of the core.  A destination buffer is the
    list of the bytes written; the size of the buffer is an argument where the
    code checks it. *)

From stdpp Require Import prelude list strings.
From Stdlib Require Import ZArith Lia Ascii.
From S2P Require Import Prelude.

(** ** Backslashes *)

(** [escape_common] *)
Fixpoint escape_common (src : bytes) : bytes :=
  match src with
  | [] => []
  | c :: src' =>
      if c =? 39 then [92; c] ++ escape_common src'
      else if c =? 34 then [92; c] ++ escape_common src'
      else if c =? 92 then [92; c] ++ escape_common src'
      else if c =? 0 then [92; 48] ++ escape_common src'
      else c :: escape_common src'
  end.

(** [unescape_common] *)
Fixpoint unescape_common (src : bytes) : bytes :=
  match src with
  | [] => []
  | c :: src' =>
      match src' with
      | d :: src'' =>
          if c =? 92 then
            if d =? 39 then 39 :: unescape_common src''
            else if d =? 34 then 34 :: unescape_common src''
            else if d =? 92 then 92 :: unescape_common src''
            else if d =? 48 then 0 :: unescape_common src''
            else c :: unescape_common src'
          else c :: unescape_common src'
      | [] => [c]
      end
  end.

Definition is_dec (c : byte) : bool := (48 <=? c) && (c <=? 57).

(** [unescape_xml] *)
Fixpoint unescape_xml (src : bytes) : bytes :=
  match src with
  | [] => []
  | c :: src1 =>
      match src1 with
      | h :: a :: b :: semi :: src2 =>
          if (c =? 38) && (h =? 35) && (semi =? 59) && is_dec a && is_dec b
          then wrap 8 ((a - 48) * 10 + b - 48) :: unescape_xml src2
          else c :: unescape_xml src1
      | _ => c :: unescape_xml src1
      end
  end.

(** ** URI escaping *)

(** The characters [is_username_char] accepts, in the order of its table. *)
Definition username_chars : bytes :=
  bs "!$&'()*+,-./0123456789;=?ABCDEFGHIJKLMNOPQRSTUVWXYZ_abcdefghijklmnopqrstuvwxyz~".
Definition is_username_char (c : byte) : bool := bool_decide (c ∈ username_chars).

(** The characters [_escape_param] leaves as they are: alphanumeric ([isalnum]),
    unreserved and param-unreserved. *)
Definition is_alnum (c : byte) : bool :=
  is_dec c || (65 <=? c) && (c <=? 90) || (97 <=? c) && (c <=? 122).
Definition param_unreserved : bytes := bs "-_.!~*'()[]/:&+$".
Definition is_param_char (c : byte) : bool := is_alnum c || bool_decide (c ∈ param_unreserved).

(** A hexadecimal digit, as the escaping functions write it. *)
Definition hex_char (x : Z) : byte := if x <? 10 then x + 48 else x - 10 + 97.

(** [%xy] *)
Definition escape_char (c : byte) : bytes := [37; hex_char (Z.shiftr c 4); hex_char (Z.land c 0x0f)].

Definition printable (c : byte) : bool := (32 <=? c) && (c <=? 126).

(** The loop of the two functions: [keep] says which characters need no
    escaping. *)
Fixpoint escape_loop (keep : byte → bool) (sin : bytes) : option bytes :=
  match sin with
  | [] => Some []
  | c :: sin' =>
      if printable c then
        out ← escape_loop keep sin';
        Some ((if keep c then [c] else escape_char c) ++ out)
      else None
  end.

(** [_escape_user] and [_escape_param]: [None] is the return value -1; [room] is
    [sout->len]. *)
Definition escape_user (sin : bytes) (room : Z) : option bytes :=
  if room <? 3 * Z.of_nat (length sin) + 1 then None else escape_loop is_username_char sin.
Definition escape_param (sin : bytes) (room : Z) : option bytes :=
  if room <? 3 * Z.of_nat (length sin) + 1 then None else escape_loop is_param_char sin.

(** The value of a hexadecimal digit. *)
Definition hex_val (c : byte) : option Z :=
  if (48 <=? c) && (c <=? 57) then Some (c - 48)
  else if (97 <=? c) && (c <=? 102) then Some (c - 97 + 10)
  else if (65 <=? c) && (c <=? 70) then Some (c - 65 + 10)
  else None.

Inductive unescaped :=
  | UOk (out : bytes)
  | UError
  | UFault.

Definition ucons (c : byte) (r : unescaped) : unescaped :=
  match r with UOk out => UOk (c :: out) | _ => r end.

(** The loop of [_unescape_user]: [mem] is the memory from [p] on and [left] the
    number of characters before the end of the string, which [p] may have passed;
    [UFault] is a read after the end of [mem].  The [char] accumulator holds a
    value of at most 255; values above 126 and below 32 are refused, the values
    above 127 because they are negative. *)
Fixpoint unescape_loop (mem : bytes) (left : Z) : unescaped :=
  if left <=? 0 then UOk []
  else
    match mem with
    | [] => UFault
    | c :: mem1 =>
        if c =? 37 then
          match mem1 with
          | [] => UFault
          | x :: mem2 =>
              match hex_val x with
              | None => UError
              | Some hi =>
                  match mem2 with
                  | [] => UFault
                  | y :: mem3 =>
                      match hex_val y with
                      | None => UError
                      | Some lo =>
                          let v := Z.shiftl hi 4 + lo in
                          if printable v then ucons v (unescape_loop mem3 (left - 3)) else UError
                      end
                  end
              end
          end
        else ucons c (unescape_loop mem1 (left - 1))
    end.

(** [_unescape_user] and [_unescape_param] on the string of [len] characters at
    the beginning of [mem]. *)
Definition unescape_user (mem : bytes) (len room : Z) : unescaped :=
  if (len <? 0) || (room <? len + 1) then UError else unescape_loop mem len.
Definition unescape_param : bytes → Z → Z → unescaped := unescape_user.

Definition is_xdigit (c : byte) : bool :=
  (48 <=? c) && (c <=? 57) || (65 <=? c) && (c <=? 70) || (97 <=? c) && (c <=? 102).

(** The characters [is_uri_parameter_char] accepts, in the order of its table. *)
Definition uri_parameter_chars : bytes :=
  bs "!$&'()*+-./0123456789:ABCDEFGHIJKLMNOPQRSTUVWXYZ[]_abcdefghijklmnopqrstuvwxyz~".
Definition is_uri_parameter_char (c : byte) : bool := bool_decide (c ∈ uri_parameter_chars).

(** The loop [is_username_str] and [is_uri_parameter_str] share: only the table of
    characters differs. *)
Fixpoint valid_escaped (ok : byte → bool) (s : bytes) : bool :=
  match s with
  | [] => true
  | c :: s1 =>
      if 128 <=? c then false
      else if c =? 37 then
        match s1 with
        | x :: y :: s2 => if is_xdigit x && is_xdigit y then valid_escaped ok s2 else false
        | _ => false
        end
      else if ok c then valid_escaped ok s1 else false
  end.
Definition is_username_str : bytes → bool := valid_escaped is_username_char.
Definition is_uri_parameter_str : bytes → bool := valid_escaped is_uri_parameter_char.

(** ** Facts *)

Lemma printable_cases (P : byte → Prop) :
  Forall P (seqZ 32 95) → ∀ c, printable c = true → P c.
Proof.
  intros HF c Hc. unfold printable in Hc. apply andb_true_iff in Hc as [H1 H2]. zbool.
  rewrite Forall_forall in HF. apply HF, elem_of_seqZ. lia.
Qed.

(** Facts about single printable characters, by inspection of all of them. *)
Ltac by_inspection :=
  apply printable_cases; apply (bool_decide_unpack _); by vm_compute.

Lemma escape_char_value c : printable c = true →
  hex_val (hex_char (Z.shiftr c 4)) = Some (Z.shiftr c 4)
  ∧ hex_val (hex_char (Z.land c 0x0f)) = Some (Z.land c 0x0f)
  ∧ Z.shiftl (Z.shiftr c 4) 4 + Z.land c 0x0f = c.
Proof. revert c. by_inspection. Qed.

Lemma escape_char_xdigits c : printable c = true →
  is_xdigit (hex_char (Z.shiftr c 4)) = true ∧ is_xdigit (hex_char (Z.land c 0x0f)) = true.
Proof. revert c. by_inspection. Qed.

Lemma username_char_plain c : printable c = true → is_username_char c = true → c ≠ 37 ∧ c < 128.
Proof.
  intros Hc. revert c Hc.
  apply (printable_cases (λ c, is_username_char c = true → c ≠ 37 ∧ c < 128)).
  apply (bool_decide_unpack _). by vm_compute.
Qed.

Lemma param_char_plain c : printable c = true → is_param_char c = true →
  c ≠ 37 ∧ c < 128 ∧ is_uri_parameter_char c = true.
Proof.
  intros Hc. revert c Hc.
  apply (printable_cases (λ c, is_param_char c = true → c ≠ 37 ∧ c < 128 ∧ is_uri_parameter_char c = true)).
  apply (bool_decide_unpack _). by vm_compute.
Qed.

(** One escaped character is read back, whatever follows. *)
Lemma unescape_step c rest left :
  printable c = true → 3 <= left →
  unescape_loop (escape_char c ++ rest) left = ucons c (unescape_loop rest (left - 3)).
Proof.
  intros Hc Hl. destruct (escape_char_value c Hc) as (H1 & H2 & H3).
  unfold escape_char. cbn [app unescape_loop]. rewrite (proj2 (Z.leb_gt left 0)) by lia.
  change (37 =? 37) with true. cbv iota. rewrite H1, H2. cbv zeta. by rewrite H3, Hc.
Qed.

Lemma unescape_escape_loop keep (Hkeep : ∀ c, printable c = true → keep c = true → c ≠ 37) s :
  ∀ e rest, escape_loop keep s = Some e →
  unescape_loop (e ++ rest) (Z.of_nat (length e)) = UOk s.
Proof.
  induction s as [|c s IH]; intros e rest E; cbn [escape_loop] in E.
  { injection E as <-. simpl. by destruct rest. }
  destruct (printable c) eqn:Hc; [|done].
  destruct (escape_loop keep s) as [out|] eqn:Eo; [|done]. injection E as <-.
  rewrite <- app_assoc, length_app, Nat2Z.inj_add. destruct (keep c) eqn:Hk.
  - cbn [app unescape_loop length]. rewrite (proj2 (Z.leb_gt _ 0)) by lia.
    rewrite (proj2 (Z.eqb_neq c 37)) by auto.
    replace (Z.of_nat 1 + Z.of_nat (length out) - 1) with (Z.of_nat (length out)) by lia.
    by rewrite IH.
  - rewrite unescape_step by (simpl length; lia || done).
    replace (Z.of_nat (length (escape_char c)) + Z.of_nat (length out) - 3)
      with (Z.of_nat (length out)) by (simpl length; lia).
    by rewrite IH.
Qed.

Lemma escape_loop_length keep s : ∀ e, escape_loop keep s = Some e →
  (length s <= length e <= 3 * length s)%nat.
Proof.
  induction s as [|c s IH]; intros e E; cbn [escape_loop] in E; [by injection E as <-|].
  destruct (printable c); [|done].
  destruct (escape_loop keep s) as [out|]; [|done]. injection E as <-.
  specialize (IH out eq_refl). rewrite length_app. destruct (keep c); simpl; lia.
Qed.

Lemma escape_loop_valid keep ok
    (Hkeep : ∀ c, printable c = true → keep c = true → c ≠ 37 ∧ c < 128 ∧ ok c = true) s :
  ∀ e, escape_loop keep s = Some e → valid_escaped ok e = true.
Proof.
  induction s as [|c s IH]; intros e E; cbn [escape_loop] in E; [by injection E as <-|].
  destruct (printable c) eqn:Hc; [|done].
  destruct (escape_loop keep s) as [out|]; [|done]. injection E as <-.
  specialize (IH out eq_refl). destruct (keep c) eqn:Hk.
  - destruct (Hkeep c Hc Hk) as (H1 & H2 & H3). cbn [app valid_escaped].
    rewrite (proj2 (Z.leb_gt 128 c) H2), (proj2 (Z.eqb_neq c 37) H1), H3. done.
  - destruct (escape_char_xdigits c Hc) as [H1 H2]. unfold escape_char.
    cbn [app valid_escaped]. simpl. by rewrite H1, H2.
Qed.

Lemma escape_loop_total keep s : Forall (λ c, printable c = true) s → is_Some (escape_loop keep s).
Proof.
  induction 1 as [|c s Hc _ [out IH]]; cbn [escape_loop]; [by eexists|].
  rewrite Hc, IH. by eexists.
Qed.

(** ** Theorems *)

(** URI escaping round trip: any string of printable characters fits, when the
    buffer has three bytes per character and one more, and reading the escaped
    user or parameter back gives the string, whatever follows it in memory; the
    escaped user passes [is_username_str] and the escaped parameter
    [is_uri_parameter_str]. *)
Theorem uri_escape_roundtrip s room rest
    (Hs : Forall (λ c, printable c = true) s) (Hroom : 3 * Z.of_nat (length s) + 1 <= room) :
  (∃ e, escape_user s room = Some e ∧ Z.of_nat (length e) + 1 <= room ∧ is_username_str e = true
    ∧ unescape_user (e ++ rest) (Z.of_nat (length e)) room = UOk s)
  ∧ (∃ e, escape_param s room = Some e ∧ Z.of_nat (length e) + 1 <= room
    ∧ is_uri_parameter_str e = true
    ∧ unescape_param (e ++ rest) (Z.of_nat (length e)) room = UOk s).
Proof.
  unfold escape_user, escape_param, unescape_param, unescape_user.
  rewrite (proj2 (Z.ltb_ge room _)) by lia.
  destruct (escape_loop_total is_username_char s Hs) as [e He].
  destruct (escape_loop_total is_param_char s Hs) as [e' He'].
  pose proof (escape_loop_length _ _ _ He). pose proof (escape_loop_length _ _ _ He').
  split; eexists; (split; [eassumption|]); rewrite (proj2 (Z.ltb_ge _ 0)), (proj2 (Z.ltb_ge room _)) by lia;
    simpl; split_and!; try lia.
  - eapply escape_loop_valid; [|done]. intros c H1 H2. split_and!; [by apply username_char_plain..|done].
  - eapply unescape_escape_loop; [|done]. intros c H1 H2. by apply username_char_plain.
  - eapply escape_loop_valid; [|done]. apply param_char_plain.
  - eapply unescape_escape_loop; [|done]. intros c H1 H2. by apply param_char_plain.
Qed.

(** Backslash escaping round trip: [unescape_common] undoes [escape_common] on
    any bytes, and the escaped string takes at most twice the space. *)
Lemma common_escape_roundtrip s :
  unescape_common (escape_common s) = s ∧ (length (escape_common s) <= 2 * length s)%nat.
Proof.
  induction s as [|c s [IH Hl]]; [done|]. cbn [escape_common].
  destruct (Z.eqb_spec c 39) as [->|]; [simpl; split; [by f_equal|lia]|].
  destruct (Z.eqb_spec c 34) as [->|]; [simpl; split; [by f_equal|lia]|].
  destruct (Z.eqb_spec c 92) as [->|]; [simpl; split; [by f_equal|lia]|].
  destruct (Z.eqb_spec c 0) as [->|]; [simpl; split; [by f_equal|lia]|].
  split; [|simpl; lia]. cbn [unescape_common]. rewrite (proj2 (Z.eqb_neq c 92)) by done.
  destruct (escape_common s) as [|d e]; [by rewrite <- IH|]. by rewrite IH.
Qed.

(** A truncated escape is completed from the memory after the string: the four
    characters [ab%4] are read as [abA] when a [1] follows them in memory, and
    refused when a [z] follows. *)
Lemma unescape_reads_past_end :
  unescape_user (bs "ab%4" ++ bs "1@host") 4 1024 = UOk (bs "abA")
  ∧ unescape_user (bs "ab%4" ++ bs "z@host") 4 1024 = UError
  ∧ unescape_user (bs "ab%4") 4 1024 = UFault.
Proof. by vm_compute. Qed.

Lemma uri_escape_witness :
  (∃ e, escape_user (bs "a b@c") 16 = Some e ∧ Z.of_nat (length e) + 1 <= 16 ∧ is_username_str e = true
    ∧ unescape_user (e ++ bs "@h") (Z.of_nat (length e)) 16 = UOk (bs "a b@c"))
  ∧ (∃ e, escape_param (bs "a b@c") 16 = Some e ∧ Z.of_nat (length e) + 1 <= 16
    ∧ is_uri_parameter_str e = true
    ∧ unescape_param (e ++ bs "@h") (Z.of_nat (length e)) 16 = UOk (bs "a b@c")).
Proof.
  apply (uri_escape_roundtrip (bs "a b@c") 16 (bs "@h")).
  - apply (bool_decide_unpack _). by vm_compute.
  - by vm_compute.
Defined.
