(* ===== verification/UriOps.v ===== *)
(** * UriOps: the operations on parsed URIs (parser/parse_uri.c, parse_uri.h)

    The scheme table and its inverse, the parser of the header part of a URI, the
    printer, the accessors of the parameters and the comparison of two URIs.  A
    text in memory is a [buffer], its address and its bytes; the fields of a parsed
    URI are read in the buffer it was parsed from. *)

From stdpp Require Import prelude list strings.
From Stdlib Require Import ZArith Lia Ascii.
From S2P Require Import Prelude CString UriParser HashFunc StrCommon.

(** ** Memory *)

Record buffer := Buffer { b_addr : Z; b_text : bytes }.

(** The text of a field, and the memory from its first byte on. *)
Definition rd (B : buffer) (x : str) : bytes := str_text (b_addr B) (b_text B) x.
Definition mem_from (B : buffer) (x : str) : bytes :=
  drop (Z.to_nat (str_s x - b_addr B)) (b_text B).

(** ** Schemes *)

(** [uri_type_names] *)
Definition uri_type_names (t : uri_type) : bytes :=
  match t with
  | ERROR_URI_T => []
  | SIP_URI_T => bs "sip"
  | SIPS_URI_T => bs "sips"
  | TEL_URI_T => bs "tel"
  | TELS_URI_T => bs "tels"
  | URN_SERVICE_URI_T => bs "urn:service"
  | URN_NENA_SERVICE_URI_T => bs "urn:nena:service"
  end.

(** [uri_type2str]: what is written to [result], or the null pointer. *)
Definition uri_type2str (t : uri_type) : option bytes :=
  if decide (t = ERROR_URI_T) then None else Some (uri_type_names t).
Definition uri_typestrlen (t : uri_type) : Z := Z.of_nat (length (uri_type_names t)).

(** The [int] computed from the first four (signed) characters. *)
Definition scheme_int (b0 b1 b2 b3 : byte) : Z :=
  i32 (Z.lor (i32 (schar b0 + schar b1 * 256 + schar b2 * 65536 + schar b3 * 16777216))
         0x20202020).

(** [str2uri_type] on the memory [buf] points to; [None] when a byte after its end
    is read (the function is not given a length). *)
Definition str2uri_type (buf : bytes) : option uri_type :=
  match buf with
  | b0 :: b1 :: b2 :: b3 :: rest =>
      let scheme := scheme_int b0 b1 b2 b3 in
      if scheme =? SIP_SCH then Some SIP_URI_T
      else if scheme =? SIPS_SCH then
        match rest with
        | [] => None
        | b4 :: _ => Some (if b4 =? chr ":" then SIPS_URI_T else ERROR_URI_T)
        end
      else if scheme =? TEL_SCH then Some TEL_URI_T
      else if scheme =? URN_SERVICE_SCH then
        if (length (drop 3 buf) <? length URN_SERVICE_STR)%nat then None
        else if memeq (length URN_SERVICE_STR) (drop 3 buf) URN_SERVICE_STR
        then Some URN_SERVICE_URI_T
        else if (length (drop 3 buf) <? length URN_NENA_SERVICE_STR)%nat then None
        else if memeq (length URN_NENA_SERVICE_STR) (drop 3 buf) URN_NENA_SERVICE_STR
        then Some URN_NENA_SERVICE_URI_T
        else Some ERROR_URI_T
      else Some ERROR_URI_T
  | _ => None
  end.

(** ** The headers of a URI *)

Inductive hstate := URI_H_HEADER | URI_H_VALUE.

(** The locals of [parse_uri_headers]: the state, [h], [v], the index [i] that
    [header] and [header_val] follow, and the two arrays, as one list of pairs. *)
Record hparse := HParse { h_st : hstate; h_h : Z; h_v : Z; h_i : nat; h_arr : list (str * str) }.

(** Writes through [header] and [header_val]. *)
Definition put_name (arr : list (str * str)) (i : nat) (x : str) : list (str * str) :=
  alter (λ e, (x, e.2)) i arr.
Definition put_val (arr : list (str * str)) (i : nat) (x : str) : list (str * str) :=
  alter (λ e, (e.1, x)) i arr.

(** Advance to the next entry; [None] is the return of -1. *)
Definition h_advance (x : hparse) : option hparse :=
  if (S (h_i x) <? length (h_arr x))%nat
  then Some (HParse (h_st x) (h_h x) (h_v x) (S (h_i x)) (h_arr x)) else None.

(** One character of the loop. *)
Definition h_step (p : Z) (c : byte) (x : hparse) : option hparse :=
  let i := h_i x in
  match h_st x with
  | URI_H_HEADER =>
      if c =? chr "=" then
        Some (HParse URI_H_VALUE (h_h x) (p + 1) i (put_name (h_arr x) i (str_to (h_h x) p)))
      else if c =? chr "?" then
        let h := p + 1 in
        h_advance (HParse URI_H_HEADER h (h_v x) i
                     (put_val (put_name (h_arr x) i (str_to h p)) i str_null))
      else Some x
  | URI_H_VALUE =>
      if c =? chr "=" then Some x
      else if c =? chr "?" then
        h_advance (HParse URI_H_HEADER (p + 1) (h_v x) i
                     (put_val (h_arr x) i (str_to (h_v x) p)))
      else Some x
  end.

Fixpoint h_loop (p : Z) (text : bytes) (x : hparse) : option (Z * hparse) :=
  match text with
  | [] => Some (p, x)
  | c :: rest => match h_step p c x with Some y => h_loop (p + 1) rest y | None => None end
  end.

(** The last switch. *)
Definition h_finish (p : Z) (x : hparse) : list (str * str) :=
  let i := h_i x in
  match h_st x with
  | URI_H_HEADER => put_val (put_name (h_arr x) i (str_to (h_h x) p)) i str_null
  | URI_H_VALUE => put_val (h_arr x) i (str_to (h_v x) p)
  end.

(** [parse_uri_headers] on the headers at address [s], for arrays of [h_size]
    entries, at least one; [None] is the return of -1. *)
Definition parse_uri_headers (s : Z) (headers : bytes) (h_size : nat) : option (list (str * str)) :=
  match h_loop s headers
          (HParse URI_H_HEADER s 0 0 (replicate h_size (str_null, str_null))) with
  | Some (p, x) => Some (h_finish p x)
  | None => None
  end.

(** ** Printing *)

(** Outcome of [print_uri]: the text written with return value 0, the return of
    -1, or a write after the end of the buffer. *)
Inductive printed := Printed (out : bytes) | NoSpace | Overrun.

(** [append_char], [append_str_chunk]: [None] is the return of -1. *)
Definition append_char (cap : Z) (ch : byte) (out : bytes) : option bytes :=
  if cap <? Z.of_nat (length out) + 1 then None else Some (out ++ [ch]).
Definition append_str_chunk (cap : Z) (B : buffer) (x : str) (out : bytes) : option bytes :=
  if cap <? Z.of_nat (length out) + str_len x then None else Some (out ++ rd B x).

(** A field preceded by a character, left out when its pointer is null: the code
    for [passwd], [host], [port] and the macro [append_param]. *)
Definition append_opt (cap : Z) (B : buffer) (ch : byte) (x : str) (out : bytes) : option bytes :=
  if str_s x =? 0 then Some out
  else append_char cap ch out ≫= append_str_chunk cap B x.

(** [append_uk_param] *)
Definition append_uk_param (cap : Z) (B : buffer) (nv : str * str) (out : bytes) : option bytes :=
  if str_s nv.1 =? 0 then Some out
  else
    o1 ← append_char cap (chr ";") out;
    o2 ← append_str_chunk cap B nv.1 o1;
    append_opt cap B (chr "=") nv.2 o2.

Definition printed_params : list pfield :=
  [F_transport; F_ttl; F_user_param; F_maddr; F_method; F_lr; F_r2; F_gr;
   F_pn_provider; F_pn_prid; F_pn_param; F_pn_purr].

(** Everything after the scheme. *)
Definition print_rest (B : buffer) (u : sip_uri) (cap : Z) (out : bytes) : option bytes :=
  o1 ← append_char cap (chr ":") out;
  o2 ← append_str_chunk cap B (user u) o1;
  o3 ← append_opt cap B (chr ":") (passwd u) o2;
  o4 ← append_opt cap B (chr "@") (host u) o3;
  o5 ← append_opt cap B (chr ":") (port u) o4;
  o6 ← foldl (λ o f, o ≫= append_opt cap B (chr ";") (pname u f)) (Some o5) printed_params;
  foldl (λ o nv, o ≫= append_uk_param cap B nv) (Some o6) (u_params u).

(** [print_uri] into a buffer of [cap] bytes; the scheme is copied first, without
    a test of the room. *)
Definition print_uri (B : buffer) (u : sip_uri) (cap : Z) : printed :=
  if cap <? uri_typestrlen (utype u) then Overrun
  else
    match print_rest B u cap (uri_type_names (utype u)) with
    | Some out => Printed out
    | None => NoSpace
    end.

(** ** Accessors *)

(** [trim_user_params] on the text of the user. *)
Fixpoint trim_user_params (user : bytes) : bytes :=
  match user with
  | [] => []
  | c :: rest => if c =? chr ";" then [] else c :: trim_user_params rest
  end.

(** [str_match] and [str_casematch] of ut.h, on texts. *)
Definition text_match (a b : bytes) : bool :=
  bool_decide (length a = length b) && memeq (length a) a b.
Definition text_casematch (a b : bytes) : bool :=
  bool_decide (length a = length b) && bool_decide (map tolower a = map tolower b).

(** The known parameters, in the order the tests of [get_uri_param_val] try those
    that start with the same letter. *)
Definition known_params : list (bytes * pfield) :=
  [(bs "pn-provider", F_pn_provider); (bs "pn-prid", F_pn_prid); (bs "pn-param", F_pn_param);
   (bs "pn-purr", F_pn_purr); (bs "transport", F_transport); (bs "ttl", F_ttl);
   (bs "user", F_user_param); (bs "maddr", F_maddr); (bs "method", F_method);
   (bs "lr", F_lr); (bs "r2", F_r2); (bs "gr", F_gr)].

(** [get_uri_param_val] for a parameter name of the text [param] (empty: a null or
    empty name); [None] is the return of -1. *)
Definition get_uri_param_val (B : buffer) (u : sip_uri) (param : bytes) : option str :=
  match param with
  | [] => None
  | _ =>
      match list_find (λ e, text_casematch param e.1 = true) known_params with
      | Some (_, (_, f)) => Some (pval u f)
      | None =>
          match list_find (λ nv, text_match param (rd B nv.1) = true) (u_params u) with
          | Some (_, (_, v)) => Some v
          | None => None
          end
      end
  end.

(** [get_uri_param_idx]: the index among the unknown parameters, or -1. *)
Definition get_uri_param_idx (B : buffer) (u : sip_uri) (param : bytes) : Z :=
  match list_find (λ nv, text_match (rd B nv.1) param = true) (u_params u) with
  | Some (i, _) => Z.of_nat i
  | None => -1
  end.

(** [get_uri_port]: the port and the protocol; [default_rfc_port] is the table the
    transport modules fill. *)
Definition get_uri_port (default_rfc_port : Z → Z) (u : sip_uri) : Z * Z :=
  let proto :=
    if proto u =? 0
    then if decide (utype u = SIPS_URI_T ∨ utype u = TELS_URI_T) then PROTO_TLS else PROTO_UDP
    else proto u in
  (if port_no u =? 0 then default_rfc_port proto else port_no u, proto).

(** ** Comparison *)

Definition UNESCAPED_BUF_LEN : Z := 1024.

(** [compare_uri_val]: [true] when the two texts differ. *)
Definition compare_uri_val (cmp : nat → bytes → bytes → Z) (a b : bytes) : bool :=
  if decide (length a = length b)
  then if decide (length a = 0%nat) then false else negb (cmp (length a) a b =? 0)
  else true.

(** The inner loop over the unknown parameters of the second URI: [None] is the
    return of 1, [Some] the new flags. *)
Fixpoint match_param (n v : bytes) (second : list (bytes * bytes)) (matched : list bool)
    : option (list bool) :=
  match second, matched with
  | (n2, v2) :: second', m :: matched' =>
      if negb m && bool_decide (length n = length n2) && (strncasecmp (length n) n n2 =? 0) then
        if decide (length v = length v2) then
          if decide (length v = 0%nat) then Some (true :: matched')
          else if strncasecmp (length v2) v v2 =? 0 then Some (true :: matched')
          else None
        else None
      else cons m <$> match_param n v second' matched'
  | _, _ => Some matched
  end.

(** The outer loop: [false] is the return of 1. *)
Fixpoint match_params (first second : list (bytes * bytes)) (matched : list bool) : bool :=
  match first with
  | [] => true
  | (n, v) :: first' =>
      match match_param n v second matched with
      | Some matched' => match_params first' second matched'
      | None => false
      end
  end.

(** The fields compared after the user, in the order of the code. *)
Definition fields_differ (B1 B2 : buffer) (u1 u2 : sip_uri) : bool :=
  compare_uri_val strncmp (rd B1 (passwd u1)) (rd B2 (passwd u2))
  || compare_uri_val strncasecmp (rd B1 (host u1)) (rd B2 (host u2))
  || compare_uri_val strncmp (rd B1 (port u1)) (rd B2 (port u2))
  || existsb (λ f, compare_uri_val strncasecmp (rd B1 (pval u1 f)) (rd B2 (pval u2 f)))
       printed_params.

Definition u_texts (B : buffer) (u : sip_uri) : list (bytes * bytes) :=
  (λ nv, (rd B nv.1, rd B nv.2)) <$> u_params u.

(** The test on the unknown parameters with its shortcut. *)
Definition u_params_match (l1 l2 : list (bytes * bytes)) : bool :=
  if bool_decide (l1 = []) || bool_decide (l2 = []) then true
  else match_params l1 l2 (replicate URI_MAX_U_PARAMS false).

(** [unescape_user] of both users into the local buffers, the second one only when
    the first succeeds: the texts, [inl false] for the return of -1, [inl true]
    for a read after the end of the memory. *)
Definition unescape_users (B1 B2 : buffer) (u1 u2 : sip_uri) : bool + (bytes * bytes) :=
  match unescape_user (mem_from B1 (user u1)) (str_len (user u1)) UNESCAPED_BUF_LEN with
  | UError => inl false
  | UFault => inl true
  | UOk a =>
      match unescape_user (mem_from B2 (user u2)) (str_len (user u2)) UNESCAPED_BUF_LEN with
      | UError => inl false
      | UFault => inl true
      | UOk b => inr (a, b)
      end
  end.

(** The result of the rest of a comparison once the users are unescaped: [None] is
    a read out of bounds. *)
Definition with_users (r : bool + (bytes * bytes)) (k : bytes → bytes → Z) : option Z :=
  match r with
  | inl true => None
  | inl false => Some (-1)
  | inr (a, b) => Some (k a b)
  end.

(** The part of [compare_uris] after both URIs are parsed. *)
Definition compare_parsed (B1 B2 : buffer) (u1 u2 : sip_uri) : option Z :=
  if decide (utype u1 = utype u2) then
    with_users (unescape_users B1 B2 u1 u2) (λ a b,
      if compare_uri_val strncmp a b || fields_differ B1 B2 u1 u2 then 1
      else if negb (u_params_match (u_texts B1 u1) (u_texts B2 u2)) then 1
      else if compare_uri_val strncasecmp (rd B1 (headers u1)) (rd B2 (headers u2)) then 1
      else 0)
  else Some 1.

(** The comparison of two raw texts that are equal but for the case. *)
Definition compare_raw (B1 B2 : buffer) : option Z :=
  match parse_uri (b_addr B1) (b_text B1), parse_uri (b_addr B2) (b_text B2) with
  | Ok u1, Ok u2 =>
      with_users (unescape_users B1 B2 u1 u2) (λ a b,
        if compare_uri_val strncmp a b
           || compare_uri_val strncmp (rd B1 (passwd u1)) (rd B2 (passwd u2))
        then 1 else 0)
  | _, _ => Some (-1)
  end.

(** A URI as the caller gives it: the raw text or null, and the parsed form (in a
    buffer of its own) or null. *)
Record uri_arg := UriArg { raw_uri : option buffer; parsed_uri : option (buffer * sip_uri) }.

(** The parsed form that is compared. *)
Definition arg_parsed (a : uri_arg) : option (buffer * sip_uri) :=
  match parsed_uri a with
  | Some x => Some x
  | None =>
      match raw_uri a with
      | Some B =>
          match parse_uri (b_addr B) (b_text B) with Ok u => Some (B, u) | Err _ => None end
      | None => None
      end
  end.

Definition arg_given (a : uri_arg) : bool :=
  match raw_uri a, parsed_uri a with None, None => false | _, _ => true end.

(** Both raw texts given, of one length and equal but for the case. *)
Definition raw_equal (a b : uri_arg) : option (buffer * buffer) :=
  match raw_uri a, raw_uri b with
  | Some B1, Some B2 =>
      if bool_decide (length (b_text B1) = length (b_text B2))
         && (strncasecmp (length (b_text B1)) (b_text B1) (b_text B2) =? 0)
      then Some (B1, B2) else None
  | _, _ => None
  end.

(** [compare_uris]: 0, 1 or -1; [None] is a read out of bounds. *)
Definition compare_uris (a b : uri_arg) : option Z :=
  if negb (arg_given a) || negb (arg_given b) then Some (-1)
  else
    match raw_equal a b with
    | Some (B1, B2) => compare_raw B1 B2
    | None =>
        match arg_parsed a, arg_parsed b with
        | Some (B1, u1), Some (B2, u2) => compare_parsed B1 B2 u1 u2
        | _, _ => Some (-1)
        end
    end.

(** ** The request line *)

(** The members of [struct sip_msg] the R-URI cache uses. *)
Record ruri_msg := RuriMsg {
  m_new_uri : option buffer; m_request_uri : buffer;
  m_parsed_uri : option (buffer * sip_uri); m_parsed_orig_ruri : option (buffer * sip_uri);
}.

(** [parse_sip_msg_uri]: 1 when cached, 0 when parsed, -1 on error; the cache is
    [Some] when its [_ok] flag is set. *)
Definition parse_sip_msg_uri (m : ruri_msg) : ruri_msg * Z :=
  match m_parsed_uri m with
  | Some _ => (m, 1)
  | None =>
      let B := default (m_request_uri m) (m_new_uri m) in
      match parse_uri (b_addr B) (b_text B) with
      | Ok u => (RuriMsg (m_new_uri m) (m_request_uri m) (Some (B, u)) (m_parsed_orig_ruri m), 0)
      | Err _ => (RuriMsg (m_new_uri m) (m_request_uri m) None (m_parsed_orig_ruri m), -1)
      end
  end.

Definition parse_orig_ruri (m : ruri_msg) : ruri_msg * Z :=
  match m_parsed_orig_ruri m with
  | Some _ => (m, 1)
  | None =>
      let B := m_request_uri m in
      match parse_uri (b_addr B) (b_text B) with
      | Ok u => (RuriMsg (m_new_uri m) (m_request_uri m) (m_parsed_uri m) (Some (B, u)), 0)
      | Err _ => (RuriMsg (m_new_uri m) (m_request_uri m) (m_parsed_uri m) None, -1)
      end
  end.
