(* ===== verification/UriOpsSpec.v ===== *)
(** * UriOpsSpec: theorems about the operations on parsed URIs

    The comparison of unknown parameters is characterised by their occurrences,
    from which the symmetry of [compare_uris] follows; the printer inverts the
    parser on addresses; [str2uri_type] agrees with [parse_uri]; the header parser
    reads back a list of headers. *)

From stdpp Require Import prelude list strings.
From Stdlib Require Import ZArith Lia Ascii.
From S2P Require Import Prelude CString UriParser UriFacts UriSpec HashFunc StrCommon UriOps.

(** ** Comparison of texts *)

(** Equality but for the case, and exact equality, as the C code decides them. *)
Definition case_eq (a b : bytes) : bool := str_cmp (tolower <$> a) (tolower <$> b) =? 0.
Definition text_eq (a b : bytes) : bool := str_cmp a b =? 0.

Lemma str_cmp_0 a b : str_cmp a b = 0 ↔ length a = length b ∧ strncmp (length a) a b = 0.
Proof.
  unfold str_cmp. split.
  - destruct (strncmp _ _ _ =? 0) eqn:E; zbool; [|lia]. intros Hl.
    assert (length a = length b) as Hab by lia. split; [done|].
    by rewrite <- Hab, Nat.min_id in E.
  - intros [Hl E]. rewrite <- Hl, Nat.min_id, E. simpl. lia.
Qed.

Lemma text_eq_test a b :
  text_eq a b = bool_decide (length a = length b) && (strncmp (length a) a b =? 0).
Proof.
  unfold text_eq. apply eq_true_iff_eq.
  rewrite andb_true_iff, bool_decide_eq_true, !Z.eqb_eq. apply str_cmp_0.
Qed.

Lemma case_eq_test a b :
  case_eq a b = bool_decide (length a = length b) && (strncasecmp (length a) a b =? 0).
Proof.
  unfold case_eq. pose proof (text_eq_test (tolower <$> a) (tolower <$> b)) as E.
  unfold text_eq in E. by rewrite E, !length_fmap.
Qed.

Lemma text_eq_sym a b : text_eq a b = text_eq b a.
Proof.
  unfold text_eq. apply eq_true_iff_eq. rewrite !Z.eqb_eq.
  pose proof (str_cmp_swap a b). lia.
Qed.

Lemma case_eq_refl a : case_eq a a = true.
Proof. apply Z.eqb_eq, str_cmp_refl. Qed.
Lemma case_eq_sym a b : case_eq a b = case_eq b a.
Proof. apply text_eq_sym. Qed.

Lemma case_eq_l a b c : case_eq a b = true → case_eq a c = case_eq b c.
Proof.
  unfold case_eq. intros E%Z.eqb_eq. apply eq_true_iff_eq. rewrite !Z.eqb_eq.
  pose proof (str_cmp_eq_l _ _ (tolower <$> c) E). lia.
Qed.

Lemma compare_uri_val_text a b : compare_uri_val strncmp a b = negb (text_eq a b).
Proof.
  rewrite text_eq_test. unfold compare_uri_val. case_decide; rewrite ?bool_decide_eq_true_2,
    ?bool_decide_eq_false_2 by done; [|done]. case_decide as Hz; [|done]. by rewrite Hz.
Qed.

Lemma compare_uri_val_case a b : compare_uri_val strncasecmp a b = negb (case_eq a b).
Proof.
  rewrite case_eq_test. unfold compare_uri_val. case_decide; rewrite ?bool_decide_eq_true_2,
    ?bool_decide_eq_false_2 by done; [|done]. case_decide as Hz; [|done]. by rewrite Hz.
Qed.

Lemma compare_uri_val_sym a b :
  compare_uri_val strncmp a b = compare_uri_val strncmp b a
  ∧ compare_uri_val strncasecmp a b = compare_uri_val strncasecmp b a.
Proof.
  by rewrite !compare_uri_val_text, !compare_uri_val_case, (text_eq_sym a b), (case_eq_sym a b).
Qed.

(** ** Unknown parameters *)

(** The values of the parameters named [n], in order, without the entries marked
    as matched. *)
Fixpoint remaining (n : bytes) (l : list (bytes * bytes)) (matched : list bool) : list bytes :=
  match l, matched with
  | (n2, v2) :: l', m :: matched' =>
      if negb m && case_eq n n2 then v2 :: remaining n l' matched' else remaining n l' matched'
  | _, _ => []
  end.

(** The values of all parameters named [n]. *)
Definition occurrences (n : bytes) (l : list (bytes * bytes)) : list bytes :=
  (filter (λ e, case_eq n e.1 = true) l).*2.

(** The two lists agree at every position both have. *)
Fixpoint agree (l1 l2 : list bytes) : bool :=
  match l1, l2 with
  | a :: l1', b :: l2' => case_eq a b && agree l1' l2'
  | _, _ => true
  end.

Lemma agree_sym l1 : ∀ l2, agree l1 l2 = agree l2 l1.
Proof. induction l1 as [|a l1 IH]; intros [|b l2]; simpl; [done..|]. by rewrite case_eq_sym, IH. Qed.

Lemma agree_refl l : agree l l = true.
Proof. induction l; simpl; [done|]. by rewrite case_eq_refl. Qed.

Lemma agree_nil_r l : agree l [] = true.
Proof. by destruct l. Qed.

Lemma occurrences_cons n m v l :
  occurrences n ((m, v) :: l) = if case_eq n m then v :: occurrences n l else occurrences n l.
Proof. unfold occurrences. rewrite filter_cons; simpl. case_decide as E; [by rewrite E|]. by destruct case_eq. Qed.

Lemma remaining_fresh n l : ∀ k, (length l <= k)%nat → remaining n l (replicate k false) = occurrences n l.
Proof.
  induction l as [|[m v] l IH]; intros [|k] Hk; simpl in *; [done..|lia|].
  rewrite occurrences_cons, IH by lia. done.
Qed.

Lemma remaining_cong m n l : ∀ ms, case_eq m n = true → remaining m l ms = remaining n l ms.
Proof.
  induction l as [|[n2 v2] l IH]; intros [|b ms] Hmn; simpl; [done..|].
  by rewrite (case_eq_l _ _ n2 Hmn), IH.
Qed.

(** What the inner loop does: it compares with the first unmatched occurrence of
    the name, and marks it. *)
Lemma match_param_spec n v l : ∀ ms,
  match match_param n v l ms with
  | None => ∃ v2 r, remaining n l ms = v2 :: r ∧ case_eq v v2 = false
  | Some ms' =>
      (∀ v2 r, remaining n l ms = v2 :: r → case_eq v v2 = true) ∧
      ∀ m, remaining m l ms' =
        if case_eq m n then tail (remaining m l ms) else remaining m l ms
  end.
Proof.
  assert (∀ m (r : list bytes), r = [] → r = if case_eq m n then tail r else r) as Hnil.
  { intros m r ->. by destruct case_eq. }
  induction l as [|[n2 v2] l IH]; intros [|b ms]; simpl; try (split; [done|]; intros; by destruct case_eq).
  rewrite <- andb_assoc, <- case_eq_test. destruct b; simpl.
  - specialize (IH ms). by destruct match_param.
  - destruct (case_eq n n2) eqn:En; [clear IH|].
    + assert (∀ m, remaining m l ms = if case_eq m n then tail (if case_eq m n2 then v2 :: remaining m l ms
        else remaining m l ms) else if case_eq m n2 then v2 :: remaining m l ms else remaining m l ms) as Hm.
      { intros m. rewrite (case_eq_sym m n2), (case_eq_sym m n), (case_eq_l _ _ m En). by destruct (case_eq n2 m). }
      pose proof (case_eq_test v v2) as Ev. destruct (decide (length v = length v2)) as [Hl|Hl].
      * rewrite bool_decide_eq_true_2 in Ev by done. simpl in Ev.
        destruct (decide (length v = 0%nat)) as [Hz|Hz].
        { rewrite Hz in Ev. simpl in Ev. split; [|done]. intros ?? [= <- <-]. by rewrite Ev. }
        rewrite <- Hl, <- Ev. destruct (case_eq v v2) eqn:E; [|eauto]. split; [|done]. by intros ?? [= <- <-].
      * rewrite bool_decide_eq_false_2 in Ev by done. eauto.
    + specialize (IH ms). destruct (match_param n v l ms) as [ms'|]; simpl; [|done].
      destruct IH as [IH1 IH2]. split; [done|]. intros m. rewrite IH2.
      destruct (case_eq m n) eqn:Emn; [|done]. by rewrite (case_eq_l _ _ n2 Emn), En.
Qed.

Lemma match_params_spec l2 l1 : ∀ ms,
  match_params l1 l2 ms = true ↔ ∀ m, agree (occurrences m l1) (remaining m l2 ms) = true.
Proof.
  induction l1 as [|[n v] l1 IH]; intros ms; simpl; [done|].
  pose proof (match_param_spec n v l2 ms) as Hs. destruct (match_param n v l2 ms) as [ms'|].
  - destruct Hs as [Hv Hr]. rewrite IH. apply forall_proper; intros m.
    rewrite occurrences_cons, Hr. destruct (case_eq m n) eqn:Em; [|done].
    rewrite <- (remaining_cong m n) in Hv by done.
    destruct (remaining m l2 ms) as [|v2 r]; simpl; [by rewrite agree_nil_r|].
    by rewrite (Hv v2 r).
  - destruct Hs as (v2 & r & Hr & Hv). split; [done|]. intros H. specialize (H n).
    rewrite occurrences_cons, case_eq_refl, Hr in H. simpl in H. by rewrite Hv in H.
Qed.

(** The test on the unknown parameters holds exactly when, for every name, the
    values of its occurrences in the two URIs agree pairwise. *)
Lemma u_params_match_spec l1 l2 :
  (length l2 <= URI_MAX_U_PARAMS)%nat →
  u_params_match l1 l2 = true ↔ ∀ m, agree (occurrences m l1) (occurrences m l2) = true.
Proof.
  intros Hl. unfold u_params_match. case_bool_decide as E1; cbn [orb].
  { subst. by split. }
  case_bool_decide as E2; cbn [orb].
  { subst. split; [|done]. intros _ m. apply agree_nil_r. }
  rewrite match_params_spec. apply forall_proper; intros m. by rewrite remaining_fresh.
Qed.

Lemma u_params_match_sym l1 l2 :
  (length l1 <= URI_MAX_U_PARAMS)%nat → (length l2 <= URI_MAX_U_PARAMS)%nat →
  u_params_match l1 l2 = u_params_match l2 l1.
Proof.
  intros H1 H2. apply eq_true_iff_eq. rewrite !u_params_match_spec by done.
  apply forall_proper; intros m. by rewrite agree_sym.
Qed.

(** ** Comparison of URIs *)

(** A URI with the number of unknown parameters the arrays have room for. *)
Definition arg_ok (a : uri_arg) : Prop :=
  (∀ B, raw_uri a = Some B → 0 < b_addr B ∧ Z.of_nat (length (b_text B)) <= INT_MAX) ∧
  (∀ B u, parsed_uri a = Some (B, u) → (length (u_params u) <= URI_MAX_U_PARAMS)%nat).

Lemma arg_parsed_count a B u :
  arg_ok a → arg_parsed a = Some (B, u) → (length (u_params u) <= URI_MAX_U_PARAMS)%nat.
Proof.
  intros [Hr Hp]. unfold arg_parsed. destruct (parsed_uri a) as [[B' u']|] eqn:Ep.
  { intros [= -> ->]. eauto. }
  destruct (raw_uri a) as [B'|]; [|done]. destruct (Hr B' eq_refl) as [Hb Hl].
  pose proof (parse_uri_inv (b_addr B') (b_text B') Hb Hl) as Hu.
  destruct (parse_uri (b_addr B') (b_text B')); [|done]. intros [= -> ->]. apply Hu.
Qed.

(** Two runs with the users swapped agree when neither reads out of bounds. *)
Lemma with_users_sym B1 B2 u1 u2 k k' r r' :
  (∀ a b, k a b = k' b a) →
  with_users (unescape_users B1 B2 u1 u2) k = Some r →
  with_users (unescape_users B2 B1 u2 u1) k' = Some r' → r = r'.
Proof.
  intros Hk. unfold with_users, unescape_users. repeat case_match; simplify_eq;
    intros; simplify_eq; auto.
Qed.

Lemma fields_differ_sym B1 B2 u1 u2 : fields_differ B1 B2 u1 u2 = fields_differ B2 B1 u2 u1.
Proof.
  unfold fields_differ. f_equal; [f_equal; [f_equal|]; apply compare_uri_val_sym|].
  induction printed_params as [|f l IH]; simpl; [done|]. rewrite IH. f_equal. apply compare_uri_val_sym.
Qed.

Lemma compare_parsed_sym B1 B2 u1 u2 r r' :
  (length (u_params u1) <= URI_MAX_U_PARAMS)%nat → (length (u_params u2) <= URI_MAX_U_PARAMS)%nat →
  compare_parsed B1 B2 u1 u2 = Some r → compare_parsed B2 B1 u2 u1 = Some r' → r = r'.
Proof.
  intros H1 H2. unfold compare_parsed.
  destruct (decide (utype u1 = utype u2)) as [E|E], (decide (utype u2 = utype u1)); try congruence.
  apply with_users_sym. intros a b. rewrite fields_differ_sym, (u_params_match_sym (u_texts B1 u1)).
  2,3: unfold u_texts; by rewrite length_fmap.
  by rewrite (proj1 (compare_uri_val_sym a b)), (proj2 (compare_uri_val_sym (rd B1 (headers u1)) _)).
Qed.

Lemma raw_equal_sym a b B1 B2 : raw_equal a b = Some (B1, B2) ↔ raw_equal b a = Some (B2, B1).
Proof.
  unfold raw_equal. destruct (raw_uri a) as [B1'|], (raw_uri b) as [B2'|]; try done.
  rewrite <- !case_eq_test, (case_eq_sym (b_text B1')). case_match; naive_solver.
Qed.

Lemma compare_raw_sym B1 B2 r r' :
  compare_raw B1 B2 = Some r → compare_raw B2 B1 = Some r' → r = r'.
Proof.
  unfold compare_raw. destruct (parse_uri (b_addr B1) _), (parse_uri (b_addr B2) _); try congruence.
  apply with_users_sym. intros x y.
  by rewrite (proj1 (compare_uri_val_sym x y)), (proj1 (compare_uri_val_sym (rd B1 _) _)).
Qed.

(** [compare_uris] is symmetric: whatever mix of raw and parsed forms the two
    URIs are given in, the comparisons in the two orders, when none of them reads out
    of bounds, return the same value; in particular the greedy matching of the unknown
    parameters does not depend on which URI is scanned first. *)
Theorem compare_uris_sym a b r r' :
  arg_ok a → arg_ok b → compare_uris a b = Some r → compare_uris b a = Some r' → r = r'.
Proof.
  intros Ha Hb. unfold compare_uris. rewrite (orb_comm (negb (arg_given b))).
  destruct (negb (arg_given a) || negb (arg_given b)); [congruence|].
  destruct (raw_equal a b) as [[B1 B2]|] eqn:E.
  { apply raw_equal_sym in E. rewrite E. apply compare_raw_sym. }
  destruct (raw_equal b a) as [[B1 B2]|] eqn:E'.
  { apply raw_equal_sym in E'. congruence. }
  destruct (arg_parsed a) as [[B1 u1]|] eqn:E1, (arg_parsed b) as [[B2 u2]|] eqn:E2; try congruence.
  apply compare_parsed_sym; eauto using arg_parsed_count.
Qed.

(** ** The type of a parsed URI is the one of its scheme *)

Definition keeps (t : uri_type) (r : res pstate) : Prop :=
  match r with Ok y => utype (p_uri y) = t | Err _ => True end.

Create HintDb uri_type discriminated.

Ltac keeps_cases :=
  repeat match goal with
  | |- context [if ?b then _ else _] => destruct b
  | |- context [match ?o with Some _ => _ | None => _ end] => destruct o
  end; simpl; try done.

Section keep_type.
Context (t : uri_type) (p : Z) (c : byte) (x : pstate).
Hypothesis Ht : utype (p_uri x) = t.

Lemma drop_pass_type : utype (p_uri (drop_pass x)) = t.
Proof. unfold drop_pass. keeps_cases. Qed.
Lemma colon_pass_type : utype (p_uri (colon_pass p x)) = t.
Proof. unfold colon_pass. keeps_cases. Qed.
Lemma still_at_user_type : keeps t (still_at_user p x).
Proof. unfold still_at_user. keeps_cases. Qed.
Lemma param_set_type : keeps t (param_set p x).
Proof. unfold param_set. keeps_cases. Qed.
Lemma u_param_set_type : utype (p_uri (u_param_set p x)) = t.
Proof. unfold u_param_set. destruct (_ <? _)%nat; done. Qed.
End keep_type.

Section keep_type_cases.
Context (t : uri_type) (p : Z) (c : byte) (x : pstate).
Hypothesis Ht : utype (p_uri x) = t.

Lemma semicolon_type : utype (p_uri (semicolon_case x)) = t.
Proof. by apply drop_pass_type. Qed.
Lemma question_type : utype (p_uri (question_case p x)) = t.
Proof. by apply drop_pass_type. Qed.
Lemma colon_type : utype (p_uri (colon_case p x)) = t.
Proof. by apply colon_pass_type. Qed.

Lemma param_common_type d : keeps t d → keeps t (param_common_cases p c x d).
Proof.
  intros. unfold param_common_cases. keeps_cases;
    auto using still_at_user_type, semicolon_type, question_type, colon_type.
Qed.
Lemma u_param_common_type d : keeps t d → keeps t (u_param_common_cases p c x d).
Proof.
  intros. unfold u_param_common_cases. keeps_cases;
    auto using still_at_user_type, semicolon_type, question_type, colon_type, u_param_set_type.
Qed.
Lemma value_common_type d : keeps t d → keeps t (value_common_cases p c x d).
Proof.
  intros. unfold value_common_cases. keeps_cases;
    auto using still_at_user_type, semicolon_type, question_type, colon_pass_type, param_set_type.
Qed.
Lemma with_proto_type n r : keeps t r → keeps t (res_map (with_proto n) r).
Proof. by destruct r. Qed.
Lemma transport_fin_type n : keeps t (transport_fin p c x n).
Proof.
  unfold transport_fin. keeps_cases; auto using still_at_user_type, semicolon_type, question_type,
    colon_pass_type, param_set_type, with_proto_type.
Qed.
Lemma param_fin_type f eq : keeps t (param_fin p c x f eq).
Proof.
  unfold param_fin. keeps_cases;
    auto using still_at_user_type, semicolon_type, question_type, colon_type.
Qed.
Lemma check_host_end_type d : keeps t d → keeps t (check_host_end p c x d).
Proof. intros. unfold check_host_end. keeps_cases. Qed.
End keep_type_cases.

#[local] Hint Resolve param_common_type u_param_common_type value_common_type transport_fin_type
  param_fin_type check_host_end_type still_at_user_type drop_pass_type colon_pass_type : uri_type.
#[local] Hint Extern 1 (keeps _ (Ok _)) => reflexivity : uri_type.
#[local] Hint Extern 1 (keeps _ (Err _)) => exact I : uri_type.
#[local] Hint Extern 1 (_ = _) => reflexivity : uri_type.

Lemma step_type p c x : keeps (utype (p_uri x)) (step p c x).
Proof.
  unfold step, step_authority, step_param, step_transport, step_known, step_pn, step_headers,
    param_switch, param_switch1, param_xswitch1, param_switch_big, param_switch_bigger,
    value_switch, value_switch_big, param_eq.
  destruct (pst x); keeps_cases; eauto with uri_type.
Qed.

Lemma parse_loop_type text : ∀ p x p' y,
  parse_loop p text x = Ok (p', y) → utype (p_uri y) = utype (p_uri x).
Proof.
  induction text as [|c text IH]; intros p x p' y; simpl; [by intros [= _ ->]|].
  pose proof (step_type p c x) as Hs. destruct (step p c x) as [z|]; [|done].
  intros E. rewrite (IH _ _ _ _ E). exact Hs.
Qed.

Lemma finish_type p x u : finish p x = Ok u → utype u = utype (p_uri x).
Proof.
  unfold finish. pose proof (u_param_set_type _ p x eq_refl) as Hu.
  pose proof (param_set_type _ p (with_uri x (set_params (p_uri x) (str_to (p_s x) p))) eq_refl) as Hp.
  destruct (pst x); simpl; repeat case_match; intros; simplify_eq; simpl in *; done.
Qed.

Lemma parse_uri_type buf text u :
  parse_uri buf text = Ok u → ∃ skip, parse_scheme text = Ok (utype u, skip).
Proof.
  unfold parse_uri. destruct (parse_scheme text) as [[t skip]|]; [|done]. intros E. exists skip.
  destruct (parse_loop _ _ _) as [[p x]|] eqn:El; [|done]. apply parse_loop_type in El. simpl in El.
  destruct (finish p x) as [v|] eqn:Ef; [|done]. apply finish_type in Ef.
  do 2 f_equal. rewrite <- El, <- Ef. unfold fix_type in E.
  destruct (utype v) eqn:Ev; simplify_eq; by rewrite ?Ev.
Qed.

(** ** Schemes *)

(** A word that equals a scheme constant was built from 7-bit characters. *)
Lemma scheme_word_ascii b0 b1 b2 b3 k :
  byte_ok b0 → byte_ok b1 → byte_ok b2 → byte_ok b3 →
  Z.land k 0x80808080 = 0 → scheme_word b0 b1 b2 b3 = k →
  b0 < 128 ∧ b1 < 128 ∧ b2 < 128 ∧ b3 < 128.
Proof.
  unfold byte_ok, scheme_word. intros H0 H1 H2 H3 Hk Hw.
  set (S := b0 + Z.shiftl b1 8 + Z.shiftl b2 16 + Z.shiftl b3 24) in *.
  assert (∀ n, Z.testbit 0x80808080 n = true → 0 <= n → (S / 2 ^ n) mod 2 = 0) as Hb.
  { intros n Hn ?. apply Z.testbit_false; [done|].
    assert (Z.testbit (Z.land k 0x80808080) n = false) as E by (rewrite Hk; apply Z.testbit_0_l).
    rewrite Z.land_spec, Hn, andb_true_r, <- Hw, Z.lor_spec in E.
    by apply orb_false_iff in E as [-> _]. }
  pose proof (Hb 7 eq_refl ltac:(lia)) as B0. pose proof (Hb 15 eq_refl ltac:(lia)) as B1.
  pose proof (Hb 23 eq_refl ltac:(lia)) as B2. pose proof (Hb 31 eq_refl ltac:(lia)) as B3.
  unfold S in *. rewrite !Z.shiftl_mul_pow2 in * by lia.
  change (2 ^ 7) with 128 in *. change (2 ^ 8) with 256 in *. change (2 ^ 15) with 32768 in *.
  change (2 ^ 16) with 65536 in *. change (2 ^ 23) with 8388608 in *.
  change (2 ^ 24) with 16777216 in *. change (2 ^ 31) with 2147483648 in *.
  clear Hb Hw Hk S. Z.div_mod_to_equations. lia.
Qed.

Lemma scheme_int_word b0 b1 b2 b3 k :
  byte_ok b0 → byte_ok b1 → byte_ok b2 → byte_ok b3 →
  Z.land k 0x80808080 = 0 → 0 <= k < 2 ^ 31 →
  scheme_word b0 b1 b2 b3 = k → scheme_int b0 b1 b2 b3 = k.
Proof.
  intros H0 H1 H2 H3 Hk Hr Hw.
  destruct (scheme_word_ascii b0 b1 b2 b3 k) as (L0 & L1 & L2 & L3); try done.
  unfold scheme_int, schar, byte_ok in *.
  rewrite (proj2 (Z.ltb_lt b0 128)), (proj2 (Z.ltb_lt b1 128)), (proj2 (Z.ltb_lt b2 128)),
    (proj2 (Z.ltb_lt b3 128)) by done.
  rewrite (swrap_small 32 (b0 + _ + _ + _)) by (change (2 ^ (32 - 1)) with 2147483648; lia).
  unfold scheme_word in Hw. rewrite !Z.shiftl_mul_pow2 in Hw by lia.
  change (2 ^ 8) with 256 in Hw. change (2 ^ 16) with 65536 in Hw. change (2 ^ 24) with 16777216 in Hw.
  rewrite Hw. apply swrap_small; [lia|]. change (32 - 1) with 31. lia.
Qed.

(** [str2uri_type] agrees with the parser: on the text of a URI that
    [parse_uri] accepts, it reads no byte after the end and returns the type of the
    parsed URI, although it computes the scheme from signed characters. *)
Theorem str2uri_type_agrees buf text u :
  Forall byte_ok text → parse_uri buf text = Ok u → str2uri_type text = Some (utype u).
Proof.
  intros Hok [skip E]%parse_uri_type. unfold parse_scheme in E.
  destruct text as [|b0 [|b1 [|b2 [|b3 [|b4 rest]]]]]; try done.
  rewrite !Forall_cons in Hok. destruct Hok as (H0 & H1 & H2 & H3 & _).
  assert (∀ k, Z.land k 0x80808080 = 0 → 0 <= k < 2 ^ 31 → scheme_word b0 b1 b2 b3 = k →
    scheme_int b0 b1 b2 b3 = k) as Hs by (intros; by apply scheme_int_word).
  unfold str2uri_type. cbv zeta in *.
  destruct (scheme_word b0 b1 b2 b3 =? SIP_SCH) eqn:E1; zbool.
  { rewrite (Hs SIP_SCH) by done. by injection E as <- _. }
  destruct (scheme_word b0 b1 b2 b3 =? SIPS_SCH) eqn:E2; zbool.
  { rewrite (Hs SIPS_SCH) by done. change (SIPS_SCH =? SIP_SCH) with false. rewrite Z.eqb_refl.
    cbv iota. destruct (b4 =? chr ":"); [|done]. by injection E as <- _. }
  destruct (scheme_word b0 b1 b2 b3 =? TEL_SCH) eqn:E3; zbool.
  { rewrite (Hs TEL_SCH) by done. by injection E as <- _. }
  destruct (scheme_word b0 b1 b2 b3 =? URN_SERVICE_SCH) eqn:E4; zbool; [|done].
  rewrite (Hs URN_SERVICE_SCH) by done.
  change (URN_SERVICE_SCH =? SIP_SCH) with false. change (URN_SERVICE_SCH =? SIPS_SCH) with false.
  change (URN_SERVICE_SCH =? TEL_SCH) with false. rewrite Z.eqb_refl. cbv iota.
  rewrite !Nat.ltb_antisym. destruct (length URN_SERVICE_STR <=? _)%nat eqn:L1; cbn [negb andb] in *.
  - destruct memeq; [by injection E as <- _|].
    destruct (length URN_NENA_SERVICE_STR <=? _)%nat; [|done]. cbn [negb andb] in *.
    destruct memeq; [|done]. by injection E as <- _.
  - destruct (length URN_NENA_SERVICE_STR <=? _)%nat eqn:L2; [|done].
    apply Nat.leb_gt in L1. apply Nat.leb_le in L2.
    change (length URN_SERVICE_STR) with 9%nat in L1.
    change (length URN_NENA_SERVICE_STR) with 14%nat in L2. lia.
Qed.

(** ** Printing *)

(** [x] is a non-null field with the text [t]. *)
Definition field_is (B : buffer) (x : str) (t : bytes) : Prop :=
  str_s x ≠ 0 ∧ rd B x = t ∧ str_len x = Z.of_nat (length t).

(** The text of an optional field with its separator. *)
Definition opt_field (ch : byte) (o : option bytes) : bytes :=
  match o with Some t => ch :: t | None => [] end.
Definition opt_field_is (B : buffer) (x : str) (o : option bytes) : Prop :=
  match o with Some t => field_is B x t | None => str_s x = 0 end.

Lemma append_opt_ok cap B ch x o out :
  opt_field_is B x o → Z.of_nat (length (out ++ opt_field ch o)) <= cap →
  append_opt cap B ch x out = Some (out ++ opt_field ch o).
Proof.
  unfold append_opt. destruct o as [t|]; simpl; [|by intros ->; rewrite app_nil_r].
  intros (Hs & Ht & Hl). rewrite (proj2 (Z.eqb_neq _ _) Hs), length_app. simpl. intros Hc.
  unfold append_char. rewrite (proj2 (Z.ltb_ge _ _)) by lia. simpl.
  unfold append_str_chunk. rewrite length_app, Hl, Ht; simpl.
  rewrite (proj2 (Z.ltb_ge _ _)) by lia. by rewrite <- app_assoc.
Qed.

(** [print_uri] on a URI without parameters. *)
Lemma print_plain B u ty us pw h po cap :
  utype u = ty → field_is B (user u) us → opt_field_is B (passwd u) pw → field_is B (host u) h →
  opt_field_is B (port u) po → (∀ f, pname u f = str_null) → u_params u = [] →
  let text := uri_type_names ty ++ chr ":" :: us ++ opt_field (chr ":") pw
                ++ chr "@" :: h ++ opt_field (chr ":") po in
  Z.of_nat (length text) <= cap → print_uri B u cap = Printed text.
Proof.
  intros <- (Hus & Hur & Hul) Hpw Hh Hpo Hn Hu0 text Hc. unfold print_uri, uri_typestrlen, text in *.
  rewrite !length_app in Hc; simpl in Hc; rewrite !length_app in Hc; simpl in Hc;
    rewrite !length_app in Hc.
  rewrite (proj2 (Z.ltb_ge _ _)) by lia. unfold print_rest, append_char.
  rewrite (proj2 (Z.ltb_ge _ _)) by lia. cbn [mbind option_bind]. unfold append_str_chunk at 1.
  rewrite length_app, Hul, Hur; simpl length.
  rewrite (proj2 (Z.ltb_ge _ _)) by lia. cbn [mbind option_bind].
  rewrite (append_opt_ok _ _ _ _ pw) by (rewrite ?length_app; simpl length; (done || lia)).
  cbn [mbind option_bind].
  rewrite (append_opt_ok _ _ _ _ (Some h)) by (rewrite ?length_app; simpl length; (done || lia)).
  cbn [mbind option_bind].
  rewrite (append_opt_ok _ _ _ _ po) by (rewrite ?length_app; simpl length; (done || lia)).
  cbn [mbind option_bind]. rewrite Hu0.
  assert (∀ l (out : bytes), foldl (λ o f, o ≫= append_opt cap B (chr ";") (pname u f)) (Some out) l
    = Some out) as ->.
  { induction l as [|f l IH]; intros out; [done|]. cbn [foldl mbind option_bind].
    unfold append_opt at 2. rewrite Hn. apply IH. }
  simpl. by rewrite <- !app_assoc.
Qed.

Lemma field_is_at buf text pre t post a b :
  text = pre ++ t ++ post → 0 < buf → Z.of_nat (length t) <= INT_MAX →
  a = buf + Z.of_nat (length pre) → b = a + Z.of_nat (length t) →
  field_is (Buffer buf text) (str_to a b) t.
Proof.
  intros Ht Hb Hl Ha Hab. split_and!; simpl; [lia| |].
  - apply (str_text_at buf text pre t post); (done || lia).
  - rewrite Hab. unfold INT_MAX in Hl. rewrite swrap_small; [lia..|].
    change (2 ^ (32 - 1)) with 2147483648. lia.
Qed.

(** Close [field_is] by what precedes and follows the text. *)
Ltac field_at pre post :=
  eapply (field_is_at _ _ pre _ post);
  [rewrite ?app_nil_r, <- ?app_assoc; cbn [app]; rewrite <- ?app_assoc; reflexivity
  | rewrite ?length_app; simpl length; rewrite ?length_app; simpl length; lia ..].

Lemma port_at_fields u p po :
  utype (port_at u p po) = utype u ∧ user (port_at u p po) = user u ∧
  passwd (port_at u p po) = passwd u ∧ host (port_at u p po) = host u ∧
  pname (port_at u p po) = pname u ∧ u_params (port_at u p po) = u_params u.
Proof. by destruct po. Qed.

(** Printing inverts parsing: [sip:user[:password]@host[:port]] is parsed and
    printed back as the same text by [print_uri], in any buffer with room for it. *)
Theorem print_uri_roundtrip buf us pw h po cap :
  0 < buf → us ≠ [] → Forall plain us → (∀ w, pw = Some w → Forall plain w) →
  host_text h → port_text po →
  let text := sip_address us pw h po in
  Z.of_nat (length text) <= INT_MAX → Z.of_nat (length text) <= cap →
  ∃ u, parse_uri buf text = Ok u ∧ print_uri (Buffer buf text) u cap = Printed text.
Proof.
  intros Hb Hn Hu Hw Hh Hp text Hl Hc. eexists. split; [by apply parse_sip_address|].
  assert (text = uri_type_names SIP_URI_T ++ chr ":" :: us ++ opt_field (chr ":") pw
    ++ chr "@" :: h ++ opt_field (chr ":") po) as Ht.
  { unfold text, sip_address, userinfo, hostport. simpl. by rewrite <- !app_assoc. }
  assert (length text = 4 + length us + length (opt_field (chr ":") pw) + 1 + length h
    + length (opt_field (chr ":") po))%nat as Hlen.
  { rewrite Ht, !length_app. simpl. rewrite !length_app. simpl. rewrite length_app. lia. }
  rewrite Hlen in Hl. clearbody text.
  change (userinfo us pw) with (us ++ opt_field (chr ":") pw ++ [chr "@"]).
  match goal with |- context [port_at ?u ?p po] =>
    destruct (port_at_fields u p po) as (Et & Eu & Epw & Eh & Epn & Eup) end.
  rewrite Ht at 2. apply (print_plain _ _ SIP_URI_T us pw h po); rewrite ?Et, ?Eu, ?Epw, ?Eh, ?Epn, ?Eup;
    [done| | | | |done|done|by rewrite <- Ht]; subst text; clear Hlen Hc.
  - field_at (bs "sip:") (opt_field (chr ":") pw ++ chr "@" :: h ++ opt_field (chr ":") po).
  - destruct pw as [w|]; [|done]; simpl opt_field in *; simpl length in Hl; simpl passwd.
    field_at (bs "sip:" ++ us ++ [chr ":"]) (chr "@" :: h ++ opt_field (chr ":") po).
  - simpl host. field_at (bs "sip:" ++ us ++ opt_field (chr ":") pw ++ [chr "@"]) (opt_field (chr ":") po).
  - destruct po as [d|]; [|by destruct pw]; simpl opt_field in *; simpl length in Hl; simpl port.
    field_at (bs "sip:" ++ us ++ opt_field (chr ":") pw ++ [chr "@"] ++ h ++ [chr ":"]) (@nil byte).
Qed.

(** A URI without a user is not printed back: an [@] is added before the host, and
    the parser refuses the result. *)
Lemma print_uri_no_user :
  let B := Buffer 1000 (bs "sip:host") in
  ∃ u, parse_uri 1000 (bs "sip:host") = Ok u ∧ print_uri B u 100 = Printed (bs "sip:@host")
    ∧ parse_uri 1000 (bs "sip:@host") = Err error_bad_char.
Proof. eexists. split; [vm_compute; reflexivity|]. by vm_compute. Qed.

(** ** Headers *)

(** The text of a list of headers. *)
Definition header_text (h : bytes * bytes) : bytes := h.1 ++ chr "=" :: h.2.
Fixpoint headers_text (hs : list (bytes * bytes)) : bytes :=
  match hs with
  | [] => []
  | [h] => header_text h
  | h :: hs' => header_text h ++ chr "?" :: headers_text hs'
  end.

(** A name has neither [=] nor [?], a value no [?]. *)
Definition header_ok (h : bytes * bytes) : Prop :=
  Forall (λ c, c ≠ chr "=" ∧ c ≠ chr "?") h.1 ∧ Forall (λ c, c ≠ chr "?") h.2.

(** The entries for headers written from address [p] on. *)
Fixpoint header_entries (p : Z) (hs : list (bytes * bytes)) : list (str * str) :=
  match hs with
  | [] => []
  | (n, v) :: hs' =>
      let e := p + Z.of_nat (length n) in
      let q := e + 1 + Z.of_nat (length v) in
      (str_to p e, str_to (e + 1) q) :: header_entries (q + 1) hs'
  end.

Lemma h_loop_app t1 : ∀ p t2 x,
  h_loop p (t1 ++ t2) x =
  match h_loop p t1 x with Some (q, y) => h_loop q t2 y | None => None end.
Proof.
  induction t1 as [|c t1 IH]; intros p t2 x; simpl; [done|]. by destruct h_step.
Qed.

Lemma h_loop_name n : ∀ p x,
  h_st x = URI_H_HEADER → Forall (λ c, c ≠ chr "=" ∧ c ≠ chr "?") n →
  h_loop p n x = Some (p + Z.of_nat (length n), x).
Proof.
  induction n as [|c n IH]; intros p x Hx Hn; simpl; [do 2 f_equal; lia|].
  rewrite Forall_cons in Hn. destruct Hn as [[He Hq] Hn]. unfold h_step. rewrite Hx.
  rewrite (proj2 (Z.eqb_neq _ _) He), (proj2 (Z.eqb_neq _ _) Hq), IH by done. do 2 f_equal. lia.
Qed.

Lemma h_loop_value v : ∀ p x,
  h_st x = URI_H_VALUE → Forall (λ c, c ≠ chr "?") v →
  h_loop p v x = Some (p + Z.of_nat (length v), x).
Proof.
  induction v as [|c v IH]; intros p x Hx Hv; simpl; [do 2 f_equal; lia|].
  rewrite Forall_cons in Hv. destruct Hv as [Hq Hv]. unfold h_step. rewrite Hx.
  rewrite (proj2 (Z.eqb_neq _ _) Hq). destruct (c =? _); rewrite IH by done; do 2 f_equal; lia.
Qed.

Lemma alter_middle {A} (f : A → A) (l1 : list A) e l2 i :
  i = length l1 → alter f i (l1 ++ e :: l2) = l1 ++ f e :: l2.
Proof. intros ->. induction l1; simpl; [done|]. f_equal. done. Qed.

(** One header, up to its end. *)
Lemma h_loop_header n v p v0 i l1 e l2 :
  header_ok (n, v) → i = length l1 →
  h_loop p (header_text (n, v)) (HParse URI_H_HEADER p v0 i (l1 ++ e :: l2)) =
  let q := p + Z.of_nat (length n) in
  Some (q + 1 + Z.of_nat (length v),
        HParse URI_H_VALUE p (q + 1) i (l1 ++ (str_to p q, e.2) :: l2)).
Proof.
  intros [Hn Hv] Hi. unfold header_text; simpl fst in *; simpl snd in *.
  rewrite h_loop_app, h_loop_name by done. cbn [h_loop]. unfold h_step; simpl h_st; cbv iota.
  rewrite Z.eqb_refl; cbv iota beta zeta. rewrite h_loop_value by done. unfold put_name; simpl h_arr; simpl h_i.
  by rewrite alter_middle.
Qed.

Lemma h_loop_headers hs : ∀ p v0 i l1 l2,
  hs ≠ [] → Forall header_ok hs → i = length l1 → (length hs <= length l2)%nat →
  ∃ q x, h_loop p (headers_text hs) (HParse URI_H_HEADER p v0 i (l1 ++ l2)) = Some (q, x) ∧
    h_finish q x = l1 ++ header_entries p hs ++ drop (length hs) l2.
Proof.
  induction hs as [|[n v] hs IH]; intros p v0 i l1 l2 Hne Hok Hi Hl; [done|].
  rewrite Forall_cons in Hok. destruct Hok as [Hh Hok]. destruct l2 as [|e l2]; [simpl in Hl; lia|].
  destruct hs as [|h hs].
  - simpl headers_text. rewrite h_loop_header by done. cbv zeta. do 2 eexists. split; [done|].
    unfold h_finish; simpl. unfold put_val. by rewrite alter_middle.
  - change (headers_text ((n, v) :: h :: hs))
      with (header_text (n, v) ++ chr "?" :: headers_text (h :: hs)).
    rewrite h_loop_app, h_loop_header by done. cbv zeta. cbn [h_loop].
    unfold h_step; simpl h_st; cbv iota. change (chr "?" =? chr "=") with false. rewrite Z.eqb_refl.
    cbv iota beta zeta.
    unfold put_val; simpl h_arr; simpl h_i; simpl h_v. rewrite alter_middle by done. simpl fst.
    unfold h_advance; simpl h_arr; simpl h_i; simpl h_v; simpl h_h; simpl h_st.
    rewrite (proj2 (Nat.ltb_lt _ _)) by (rewrite length_app; simpl in *; lia).
    match goal with |- context [l1 ++ ?a :: l2] =>
      replace (l1 ++ a :: l2) with ((l1 ++ [a]) ++ l2) by by rewrite <- app_assoc end.
    match goal with |- context [HParse _ ?p1 ?v1 _ (?m ++ l2)] =>
      destruct (IH p1 v1 (S i) m l2) as (q & x & -> & Hf) end; [done|done| | |].
    + rewrite length_app. simpl. lia.
    + simpl in *. lia.
    + do 2 eexists. split; [done|]. rewrite Hf. cbn [header_entries]. by rewrite <- app_assoc.
Qed.

Lemma header_entries_length hs : ∀ p, length (header_entries p hs) = length hs.
Proof. induction hs as [|[n v] hs IH]; intros p; simpl; [done|]. by rewrite IH. Qed.

Lemma header_entries_text hs : ∀ s pre p,
  0 < s → p = s + Z.of_nat (length pre) →
  Z.of_nat (length (pre ++ headers_text hs)) <= INT_MAX →
  (λ e, (str_text s (pre ++ headers_text hs) e.1, str_text s (pre ++ headers_text hs) e.2))
    <$> header_entries p hs = hs.
Proof.
  induction hs as [|[n v] hs IH]; intros s pre p Hs Hp Hl; [done|].
  assert (∃ post, headers_text ((n, v) :: hs) = n ++ [chr "="] ++ v ++ post
    ∧ (hs ≠ [] → post = chr "?" :: headers_text hs)) as (post & Ht & Hpost).
  { destruct hs as [|h hs]; [exists []|eexists].
    - split; [|done]. simpl. unfold header_text. simpl. by rewrite app_nil_r.
    - split; [|done]. simpl. unfold header_text. simpl. by rewrite <- app_assoc. }
  rewrite Ht in *. rewrite !length_app in Hl. simpl in Hl. cbn [header_entries fmap list_fmap].
  f_equal; [f_equal|].
  - eapply (str_text_at s _ pre n); [done|lia..].
  - eapply (str_text_at s _ (pre ++ n ++ [chr "="]) v); rewrite <- ?app_assoc; [done|lia|lia| |lia].
    rewrite !length_app. simpl. lia.
  - destruct hs as [|h hs]; [done|]. rewrite (Hpost ltac:(done)) in *.
    specialize (IH s (pre ++ n ++ [chr "="] ++ v ++ [chr "?"])).
    rewrite <- !app_assoc in IH. cbn [app] in IH. apply IH; [done| |].
    + rewrite !length_app. simpl. rewrite length_app. simpl. lia.
    + rewrite !length_app in *. simpl in *. rewrite length_app. simpl. lia.
Qed.

(** Headers are read back: for a non-empty list of at most [h_size] headers
    whose names have neither [=] nor [?] and whose values have no [?], the text
    [n1=v1?n2=v2...] is accepted by [parse_uri_headers], its first entries have exactly
    these names and values and the others stay null. *)
Theorem parse_uri_headers_roundtrip s hs h_size :
  0 < s → hs ≠ [] → Forall header_ok hs → (length hs <= h_size)%nat →
  Z.of_nat (length (headers_text hs)) <= INT_MAX →
  ∃ entries, parse_uri_headers s (headers_text hs) h_size =
      Some (entries ++ replicate (h_size - length hs) (str_null, str_null)) ∧
    (λ e, (str_text s (headers_text hs) e.1, str_text s (headers_text hs) e.2)) <$> entries = hs.
Proof.
  intros Hs Hne Hok Hsz Hl. exists (header_entries s hs). split.
  - unfold parse_uri_headers.
    destruct (h_loop_headers hs s 0 0 [] (replicate h_size (str_null, str_null)))
      as (q & x & E & Hf); [done..|by rewrite length_replicate|].
    cbn [app] in E, Hf. rewrite E, Hf. by rewrite drop_replicate.
  - apply (header_entries_text hs s [] s Hs); [simpl; lia|done].
Qed.

(** A header without a value gets the address after it and the length -1. *)
Lemma header_without_value :
  parse_uri_headers 1000 (bs "ab?c=d") 2
  = Some [(Str 1003 (-1), str_null); (Str 1003 1, Str 1005 1)].
Proof. done. Qed.

(** ** The hypotheses hold on concrete inputs *)

Lemma compare_uris_witness :
  let a := UriArg (Some (Buffer 1000 (bs "sip:bob@Example.com;x=1;y=2"))) None in
  let b := UriArg (Some (Buffer 2000 (bs "sip:%62ob@example.com;y=2;x=3"))) None in
  compare_uris a b = Some 1 ∧ compare_uris b a = Some 1 ∧ 1 = 1.
Proof.
  intros a b. assert (compare_uris a b = Some 1) as E1 by (vm_compute; reflexivity).
  assert (compare_uris b a = Some 1) as E2 by (vm_compute; reflexivity).
  split; [exact E1|]. split; [exact E2|]. refine (compare_uris_sym a b 1 1 _ _ E1 E2).
  - split; [|done]. intros B [= <-]. vm_compute. by split.
  - split; [|done]. intros B [= <-]. vm_compute. by split.
Defined.

Lemma print_uri_witness :
  ∃ u, parse_uri 1000 (sip_address (bs "bob") (Some (bs "pw")) (bs "h.com") (Some (bs "5060"))) = Ok u
    ∧ print_uri (Buffer 1000 (bs "sip:bob:pw@h.com:5060")) u 64 = Printed (bs "sip:bob:pw@h.com:5060").
Proof.
  refine (print_uri_roundtrip 1000 (bs "bob") (Some (bs "pw")) (bs "h.com") (Some (bs "5060")) 64 _ _ _ _ _ _ _ _).
  - lia.
  - done.
  - apply (bool_decide_unpack _); by vm_compute.
  - intros w [= <-]. apply (bool_decide_unpack _); by vm_compute.
  - apply (bool_decide_unpack _); by vm_compute.
  - intros d [= <-]. split; [repeat constructor; by vm_compute|by vm_compute].
  - by vm_compute.
  - by vm_compute.
Defined.

Lemma str2uri_type_witness :
  str2uri_type (bs "SIPs:a@b") = Some SIPS_URI_T.
Proof.
  assert (∃ u, parse_uri 1000 (bs "SIPs:a@b") = Ok u ∧ utype u = SIPS_URI_T) as (u & E & Ht).
  { eexists. split; [vm_compute; reflexivity|done]. }
  assert (Forall byte_ok (bs "SIPs:a@b")) as Hb.
  { repeat (apply Forall_cons; split; [by vm_compute|]). apply Forall_nil. done. }
  rewrite <- Ht. exact (str2uri_type_agrees 1000 (bs "SIPs:a@b") u Hb E).
Defined.

Lemma parse_uri_headers_witness :
  ∃ entries, parse_uri_headers 1000 (bs "Subject=hi=x?b=") 3 =
      Some (entries ++ [(str_null, str_null)]) ∧
    (λ e, (str_text 1000 (bs "Subject=hi=x?b=") e.1, str_text 1000 (bs "Subject=hi=x?b=") e.2))
      <$> entries = [(bs "Subject", bs "hi=x"); (bs "b", [])].
Proof.
  refine (parse_uri_headers_roundtrip 1000 [(bs "Subject", bs "hi=x"); (bs "b", [])] 3 _ _ _ _ _).
  - lia.
  - done.
  - repeat (apply Forall_cons; split); [split; apply (bool_decide_unpack _); by vm_compute..|].
    apply Forall_nil. done.
  - simpl. lia.
  - by vm_compute.
Defined.
