(* ===== verification/FMalloc.v ===== *)
(** * FMalloc: the fast allocator (mem/f_malloc.c, mem/f_malloc.h, mem/f_malloc_dyn.h)

    A block of memory is a sequence of fragments, each a header and its payload, with
    the free ones also linked in the bucket of their size.  [frags] is the memory
    seen as headers, by address; the header of a fragment swallowed by its
    neighbour stays there.  The doubly linked list of a bucket is the sequence of the
    addresses linked in it, first one first, and [frag_is_free], the test of the
    member [prev], is the field [f_free].

    The model is the 64-bit build with the options of [Makefile.conf.template]:
    [STATISTICS] and [DBG_MALLOC] are on and several allocators are compiled, so that a
    header has the three debugging members and [fm_free] makes the test of
    [check_double_free].  [None] is a call of [abort()] or an access to an address
    without a header. *)

From stdpp Require Import prelude list gmap.
From Stdlib Require Import ZArith Lia.
From S2P Require Import Prelude.

(** ** Sizes and buckets *)

Definition ROUNDTO : Z := 8.
Definition FRAG_OVERHEAD : Z := 56.
Definition MIN_FRAG_SIZE : Z := ROUNDTO.
Definition F_MALLOC_OPTIMIZE_FACTOR : Z := 14.
Definition F_MALLOC_OPTIMIZE : Z := 16384.
Definition F_HASH_SIZE : Z := F_MALLOC_OPTIMIZE / ROUNDTO + (64 - F_MALLOC_OPTIMIZE_FACTOR) + 1.
(** [sizeof(struct fm_block)]: eight words and the buckets of two words each. *)
Definition FM_BLOCK_SIZE : Z := 64 + 16 * F_HASH_SIZE.

Definition ROUNDTO_MASK : Z := 2 ^ 64 - ROUNDTO.
Definition ROUNDUP (s : Z) : Z := Z.land (u64 (s + (ROUNDTO - 1))) ROUNDTO_MASK.
Definition ROUNDDOWN (s : Z) : Z := Z.land s ROUNDTO_MASK.

(** [big_hash_idx]: the loop shifts [s] until its highest bit is set; it ends after
    at most 63 rounds for a positive [s]. *)
Fixpoint big_hash_loop (rounds : nat) (s idx : Z) : Z :=
  match rounds with
  | O => idx
  | S k => if Z.testbit s 63 then idx else big_hash_loop k (u64 (Z.shiftl s 1)) (idx - 1)
  end.
Definition big_hash_idx (s : Z) : Z := big_hash_loop 63 s 63.

(** [_GET_HASH(s, inc)] and [GET_HASH(s)]. *)
Definition get_hash_inc (s inc : Z) : Z :=
  if s <=? F_MALLOC_OPTIMIZE then s / ROUNDTO
  else F_MALLOC_OPTIMIZE / ROUNDTO + big_hash_idx s - F_MALLOC_OPTIMIZE_FACTOR + 1 + inc.
Definition get_hash (s : Z) : Z := get_hash_inc s 0.

(** ** Data *)

Record fm_frag := Frag { f_size : Z; f_free : bool; f_pf : Z }.

Record fm_block := Block {
  b_size : Z; b_used : Z; b_real_used : Z; b_max_real_used : Z; b_fragments : Z;
  first_frag : Z; last_frag : Z;
  frags : gmap Z fm_frag;
  free_hash : Z → list Z;
  free_no : Z → Z;
}.

Definition with_frags b m := Block (b_size b) (b_used b) (b_real_used b) (b_max_real_used b)
  (b_fragments b) (first_frag b) (last_frag b) m (free_hash b) (free_no b).
Definition with_used b u r := Block (b_size b) u r (b_max_real_used b)
  (b_fragments b) (first_frag b) (last_frag b) (frags b) (free_hash b) (free_no b).
Definition with_fragments b m n := Block (b_size b) (b_used b) (b_real_used b) m
  n (first_frag b) (last_frag b) (frags b) (free_hash b) (free_no b).
(** One bucket replaced. *)
Definition with_bucket b h l n := Block (b_size b) (b_used b) (b_real_used b) (b_max_real_used b)
  (b_fragments b) (first_frag b) (last_frag b) (frags b)
  (λ g, if g =? h then l else free_hash b g) (λ g, if g =? h then n else free_no b g).

Definition put_frag b a f := with_frags b (<[a := f]> (frags b)).
Definition with_size f s := Frag s (f_free f) (f_pf f).
Definition with_free f x := Frag (f_size f) x (f_pf f).
Definition with_pf f a := Frag (f_size f) (f_free f) a.

Definition frag_next (a : Z) (f : fm_frag) : Z := a + FRAG_OVERHEAD + f_size f.

(** ** Free lists *)

Definition free_minus (b : fm_block) (size : Z) : fm_block :=
  with_used b (u64 (b_used b + size)) (u64 (b_real_used b + size)).
Definition free_plus (b : fm_block) (size : Z) : fm_block :=
  with_used b (u64 (b_used b - size)) (u64 (b_real_used b - size)).

Definition fm_insert_free (b : fm_block) (a : Z) : option fm_block :=
  f ← frags b !! a;
  let h := get_hash (f_size f) in
  let b := put_frag b a (with_free f true) in
  let b := with_bucket b h (a :: free_hash b h) (u64 (free_no b h + 1)) in
  Some (free_plus b (f_size f)).

(** A fragment that is not free has no [prev] to write through. *)
Definition fm_remove_free (b : fm_block) (a : Z) : option fm_block :=
  f ← frags b !! a;
  if f_free f then
    let h := get_hash (f_size f) in
    let b := with_bucket b h (filter (λ x, x ≠ a) (free_hash b h)) (u64 (free_no b h - 1)) in
    let b := put_frag b a (with_free f false) in
    Some (free_minus b (f_size f))
  else None.

(** [used] grows by a header when two free fragments become one. *)
Definition used_plus (b : fm_block) (n : Z) : fm_block :=
  with_used b (u64 (b_used b + n)) (b_real_used b).

(** ** fm_malloc_init *)

(** [None] is the return of a null pointer. *)
Definition fm_malloc_init (address size : Z) : option fm_block :=
  let start := ROUNDUP address in
  if size <? start - address then None
  else
    let size := size - (start - address) in
    if size <? MIN_FRAG_SIZE + FRAG_OVERHEAD then None
    else
      let size := ROUNDDOWN size in
      let init_overhead := ROUNDUP FM_BLOCK_SIZE + 2 * FRAG_OVERHEAD in
      if size <? init_overhead then None
      else
        let first := start + ROUNDUP FM_BLOCK_SIZE in
        let last := start + size - FRAG_OVERHEAD in
        fm_insert_free
          (Block size (size - init_overhead) size init_overhead 0 first last
             (<[first := Frag (size - init_overhead) false 0]>
                {[last := Frag 0 false first]}) (λ _, []) (λ _, 0)) first.

(** ** fm_split_frag *)

Definition fm_split_frag (b : fm_block) (a size : Z) : option fm_block :=
  f ← frags b !! a;
  let rest := u64 (f_size f - size) in
  if FRAG_OVERHEAD + MIN_FRAG_SIZE <? rest then
    let f := with_size f size in
    let b := put_frag b a f in
    let n := frag_next a f in
    let nf := Frag (rest - FRAG_OVERHEAD) false a in
    let b := put_frag b n nf in
    nn ← frags b !! frag_next n nf;
    let b := put_frag b (frag_next n nf) (with_pf nn n) in
    fm_insert_free (used_plus b (- FRAG_OVERHEAD)) n
  else Some b.

(** ** fm_malloc *)

(** The first bucket from [h] on that is not empty. *)
Fixpoint find_bucket (k : nat) (fh : Z → list Z) (h : Z) : option Z :=
  match k with
  | O => None
  | S k =>
      match fh h with
      | [] => find_bucket k fh (h + 1)
      | a :: _ => Some a
      end
  end.

(** A free fragment before [last_frag]. *)
Definition free_before_last (b : fm_block) (n : Z) : option bool :=
  if n <? last_frag b then nf ← frags b !! n; Some (f_free nf) else Some false.

(** The inner loop of the defragmentation: the free fragments from [n] on are
    joined to [a]; the result has the fragment after them and whether [a] is now
    large enough. *)
Fixpoint join_loop (fuel : nat) (b : fm_block) (a n size : Z) : option (fm_block * Z * bool) :=
  match fuel with
  | O => None
  | S k =>
      b ← fm_remove_free b n;
      f ← frags b !! a;
      nf ← frags b !! n;
      let f := with_size f (u64 (f_size f + (f_size nf + FRAG_OVERHEAD))) in
      let b := used_plus (put_frag b a f) FRAG_OVERHEAD in
      if size <? f_size f then Some (b, n, true)
      else
        let n := frag_next a f in
        c ← free_before_last b n;
        if (c : bool) then join_loop k b a n size else Some (b, n, false)
  end.

(** The outer loop: [Some a] is the jump to [solved]. *)
Fixpoint defrag_loop (fuel : nat) (b : fm_block) (a size : Z) : option (fm_block * option Z) :=
  match fuel with
  | O => None
  | S k =>
      if a <? last_frag b then
        f ← frags b !! a;
        let n := frag_next a f in
        c ← free_before_last b n;
        if c && f_free f then
          b ← fm_remove_free b a;
          '(b, n, solved) ← join_loop (S (base.size (frags b))) b a n size;
          if (solved : bool) then Some (b, Some a)
          else
            b ← fm_insert_free b a;
            defrag_loop k b n size
        else defrag_loop k b n size
      else Some (b, None)
  end.

(** The statistics at the end of [fm_malloc] and of [fm_realloc]. *)
Definition note_max (b : fm_block) : fm_block :=
  with_fragments b (Z.max (b_max_real_used b) (b_real_used b)) (b_fragments b).
Definition solved_stats (b : fm_block) : fm_block :=
  let b := note_max b in with_fragments b (b_max_real_used b) (u64 (b_fragments b + 1)).

(** [fm_malloc]: the block and the pointer returned, 0 for null. *)
Definition fm_malloc (b : fm_block) (size : Z) : option (fm_block * Z) :=
  let size := ROUNDUP size in
  let h := get_hash_inc size 1 in
  match find_bucket (Z.to_nat (F_HASH_SIZE - h)) (free_hash b) h with
  | Some a =>
      b ← fm_remove_free b a;
      b ← fm_split_frag b a size;
      Some (solved_stats b, a + FRAG_OVERHEAD)
  | None =>
      '(b, r) ← defrag_loop (S (base.size (frags b))) b (first_frag b) size;
      match r with
      | Some a => Some (solved_stats b, a + FRAG_OVERHEAD)
      | None => Some (b, 0)
      end
  end.

(** ** fm_free *)

Definition frag_seems_valid (b : fm_block) (f : fm_frag) : bool :=
  (first_frag b <=? f_pf f) && (f_pf f <=? last_frag b).

(** Joining [f] with the fragment after it. *)
Definition join_next (b : fm_block) (a : Z) : option fm_block :=
  f ← frags b !! a;
  let neigh := frag_next a f in
  c ← free_before_last b neigh;
  if (c : bool) then
    b ← fm_remove_free b neigh;
    nf ← frags b !! neigh;
    f ← frags b !! a;
    let b := put_frag b a (with_size f (u64 (f_size f + (f_size nf + FRAG_OVERHEAD)))) in
    nn ← frags b !! frag_next neigh nf;
    let b := put_frag b (frag_next neigh nf) (with_pf nn a) in
    Some (used_plus b FRAG_OVERHEAD)
  else Some b.

(** Joining [f] with the fragment before it: the block and the fragment that
    remains. *)
Definition join_prev (b : fm_block) (a : Z) : option (fm_block * Z) :=
  f ← frags b !! a;
  let neigh := f_pf f in
  if neigh =? 0 then Some (b, a)
  else
    nf ← frags b !! neigh;
    if f_free nf then
      b ← fm_remove_free b neigh;
      nf ← frags b !! neigh;
      f ← frags b !! a;
      let b := put_frag b neigh (with_size nf (u64 (f_size nf + (f_size f + FRAG_OVERHEAD)))) in
      nn ← frags b !! frag_next a f;
      let b := put_frag b (frag_next a f) (with_pf nn neigh) in
      Some (used_plus b FRAG_OVERHEAD, neigh)
    else Some (b, a).

Definition fm_free (b : fm_block) (p : Z) : option fm_block :=
  if p =? 0 then Some b
  else
    let a := p - FRAG_OVERHEAD in
    f ← frags b !! a;
    if negb (frag_seems_valid b f) || f_free f then None
    else
      b ← join_next b a;
      '(b, a) ← join_prev b a;
      b ← fm_insert_free b a;
      Some (with_fragments b (b_max_real_used b) (u64 (b_fragments b - 1))).

(** ** fm_realloc *)

(** [fm_realloc]: the block, the pointer returned and, when the data were moved,
    the number of bytes copied. *)
Definition fm_realloc (b : fm_block) (p size : Z) : option (fm_block * Z * option Z) :=
  if size =? 0 then
    b ← fm_free b p;
    Some (b, 0, None)
  else if p =? 0 then
    '(b, q) ← fm_malloc b size;
    Some (b, q, None)
  else
    let a := p - FRAG_OVERHEAD in
    f ← frags b !! a;
    let size := ROUNDUP size in
    let orig_size := f_size f in
    if size <? f_size f then
      b ← fm_split_frag b a size;
      Some (note_max b, p, None)
    else if f_size f <? size then
      let diff := size - f_size f in
      let n := frag_next a f in
      c ← free_before_last b n;
      nf ← frags b !! n;
      if c && (diff <=? f_size nf + FRAG_OVERHEAD) then
        b ← fm_remove_free b n;
        let f := with_size f (u64 (f_size f + (f_size nf + FRAG_OVERHEAD))) in
        let b := put_frag b a f in
        nn ← frags b !! frag_next a f;
        let b := put_frag b (frag_next a f) (with_pf nn a) in
        let b := used_plus b FRAG_OVERHEAD in
        b ← (if size <? f_size f then fm_split_frag b a size else Some b);
        Some (note_max b, p, None)
      else
        '(b, q) ← fm_malloc b size;
        if q =? 0 then Some (note_max b, 0, None)
        else
          b ← fm_free b p;
          Some (note_max b, q, Some orig_size)
    else Some (note_max b, p, None).

(** [fm_frag_size]: the usable size behind a pointer. *)
Definition fm_frag_size (b : fm_block) (p : Z) : option Z :=
  if p =? 0 then Some 0 else f ← frags b !! (p - FRAG_OVERHEAD); Some (f_size f).

(** The part of [fm_info] kept with statistics: total, free, used and the number of
    free fragments. *)
Definition fm_info (b : fm_block) : Z * Z * Z * Z :=
  (b_size b, u64 (b_size b - b_real_used b), b_used b,
   foldr (λ h acc, free_no b h + acc) 0 (seqZ 0 F_HASH_SIZE)).
