(* ===== verification/FMallocFacts.v ===== *)
(** * FMallocFacts: the fragments of a block as a sequence

    The sequence of physical fragments, the well-formedness of a block (fragments
    that fill it without gap or overlap, free lists that hold exactly the free
    fragments of each size, exact statistics) and what each primitive does to the
    sequence. *)

From stdpp Require Import prelude list gmap.
From Stdlib Require Import ZArith Lia.
From S2P Require Import Prelude FMalloc.

(** ** Buckets *)

Lemma big_hash_loop_log2 n : ∀ s, 0 < s → s < 2 ^ 64 → 63 - Z.of_nat n <= Z.log2 s →
  ∀ idx, big_hash_loop n s idx = idx - (63 - Z.log2 s).
Proof.
  induction n as [|n IH]; intros s Hs Hs' Hn idx; cbn [big_hash_loop].
  { assert (Z.log2 s <= 63) by (apply Z.lt_succ_r, Z.log2_lt_pow2; done). lia. }
  assert (Z.log2 s <= 63) as Hlog by (apply Z.lt_succ_r, Z.log2_lt_pow2; done).
  destruct (Z.testbit s 63) eqn:Ht.
  - assert (63 <= Z.log2 s); [|lia]. destruct (decide (63 <= Z.log2 s)); [done|].
    rewrite Z.bits_above_log2 in Ht by lia. done.
  - assert (Z.log2 s <> 63) as Hne.
    { intros E. rewrite <- E, Z.bit_log2 in Ht by done. done. }
    assert (s < 2 ^ 63) as Hlt by (apply Z.log2_lt_pow2; lia).
    assert (u64 (Z.shiftl s 1) = 2 * s) as ->.
    { rewrite Z.shiftl_mul_pow2 by lia. unfold wrap.
      rewrite Z.mod_small; [lia|]. change (2 ^ 64) with (2 ^ 63 * 2). change (2 ^ 1) with 2. lia. }
    assert (Z.log2 (2 * s) = Z.log2 s + 1) as E by (rewrite Z.log2_double by done; lia).
    rewrite IH; [lia|lia| |lia]. change (2 ^ 64) with (2 * 2 ^ 63). lia.
Qed.

(** [big_hash_idx] is the index of the highest bit. *)
Lemma big_hash_idx_log2 s : 0 < s < 2 ^ 64 → big_hash_idx s = Z.log2 s.
Proof.
  intros [H1 H2]. unfold big_hash_idx. rewrite big_hash_loop_log2; [lia..|].
  pose proof (Z.log2_nonneg s). lia.
Qed.

Lemma get_hash_range s inc : 0 <= s < 2 ^ 64 → 0 <= inc → 0 <= get_hash_inc s inc.
Proof.
  intros Hs Hi. unfold get_hash_inc. destruct (Z.leb_spec s F_MALLOC_OPTIMIZE) as [H|H].
  - apply Z.div_pos; [lia|done].
  - rewrite big_hash_idx_log2 by (unfold F_MALLOC_OPTIMIZE in H; lia).
    pose proof (Z.log2_nonneg s). unfold F_MALLOC_OPTIMIZE, ROUNDTO, F_MALLOC_OPTIMIZE_FACTOR.
    change (16384 / 8) with 2048. lia.
Qed.

(** Every fragment of a bucket the search looks at is large enough. *)
Lemma bucket_fits size f h :
  0 <= size < 2 ^ 64 → 0 <= f < 2 ^ 64 → size mod ROUNDTO = 0 →
  get_hash_inc size 1 <= h → get_hash f = h → size <= f.
Proof.
  intros Hs Hf Hm Hh Hg. unfold get_hash, get_hash_inc, F_MALLOC_OPTIMIZE, F_MALLOC_OPTIMIZE_FACTOR, ROUNDTO in *.
  change (16384 / 8) with 2048 in *.
  destruct (Z.leb_spec size 16384) as [H1|H1], (Z.leb_spec f 16384) as [H2|H2].
  - Z.div_mod_to_equations. lia.
  - lia.
  - rewrite big_hash_idx_log2 in Hh by lia.
    assert (14 <= Z.log2 size) by (apply Z.log2_le_pow2; lia). Z.div_mod_to_equations. lia.
  - rewrite big_hash_idx_log2 in Hh by lia. rewrite big_hash_idx_log2 in Hg by lia.
    apply Z.lt_le_incl, Z.log2_lt_cancel. lia.
Qed.

Lemma land_mask x : 0 <= x < 2 ^ 64 → Z.land x ROUNDTO_MASK = x / ROUNDTO * ROUNDTO.
Proof.
  intros Hx. unfold ROUNDTO_MASK, ROUNDTO. apply Z.bits_inj'. intros n Hn. rewrite Z.land_spec.
  replace (x / 8 * 8) with (Z.shiftl (Z.shiftr x 3) 3)
    by (rewrite Z.shiftl_mul_pow2, Z.shiftr_div_pow2 by lia; done).
  change (2 ^ 64 - 8) with (Z.shiftl (Z.ones 61) 3).
  rewrite !Z.shiftl_spec by lia. destruct (decide (n < 3)) as [L|L].
  { rewrite (Z.testbit_neg_r _ (n - 3)) by lia. rewrite (Z.testbit_neg_r _ (n - 3)) by lia.
    by rewrite andb_false_r. }
  rewrite Z.shiftr_spec by lia. replace (n - 3 + 3) with n by lia.
  destruct (decide (n - 3 < 61)) as [L2|L2].
  - rewrite Z.ones_spec_low by lia. by rewrite andb_true_r.
  - rewrite Z.ones_spec_high by lia. rewrite andb_false_r. symmetry.
    destruct (decide (x = 0)) as [->|]; [apply Z.testbit_0_l|].
    apply Z.bits_above_log2; [lia|]. apply Z.log2_lt_pow2; [lia|].
    assert (2 ^ 64 <= 2 ^ n) by (apply Z.pow_le_mono_r; lia). lia.
Qed.

Lemma roundup_spec s : 0 <= s <= 2 ^ 64 - 8 →
  s <= ROUNDUP s < 2 ^ 64 ∧ ROUNDUP s mod ROUNDTO = 0.
Proof.
  intros Hs. unfold ROUNDUP. rewrite land_mask by (apply wrap_range; lia). unfold ROUNDTO.
  rewrite wrap_small by lia. split; [|apply Z.mod_mul; lia]. Z.div_mod_to_equations. lia.
Qed.

Lemma rounddown_spec s : 0 <= s < 2 ^ 64 → 0 <= ROUNDDOWN s <= s.
Proof.
  intros Hs. unfold ROUNDDOWN. rewrite land_mask by done. unfold ROUNDTO.
  Z.div_mod_to_equations. lia.
Qed.

(** ** The sequence of fragments *)

Abbreviation flist := (list (Z * fm_frag)).

(** The fragments from address [a] to address [e], each with its header. *)
Fixpoint chain (m : gmap Z fm_frag) (a : Z) (ps : flist) (e : Z) : Prop :=
  match ps with
  | [] => a = e
  | (x, f) :: ps => x = a ∧ m !! a = Some f ∧ 0 <= f_size f ∧ chain m (frag_next a f) ps e
  end.

Lemma chain_app m l : ∀ a r e,
  chain m a (l ++ r) e ↔ ∃ x, chain m a l x ∧ chain m x r e.
Proof.
  induction l as [|[y f] l IH]; intros a r e; simpl.
  - split; [eauto|]. by intros (x & -> & ?).
  - rewrite IH. split.
    + intros (? & ? & ? & x & ? & ?). eauto 10.
    + intros (x & (? & ? & ? & ?) & ?). eauto 10.
Qed.

Lemma chain_le m ps : ∀ a e, chain m a ps e → a <= e.
Proof.
  induction ps as [|[y f] ps IH]; intros a e; simpl; [lia|].
  intros (-> & _ & Hs & H%IH). unfold frag_next, FRAG_OVERHEAD in H. lia.
Qed.

(** Addresses of a chain. *)
Lemma chain_bounds m ps : ∀ a e x f, chain m a ps e → (x, f) ∈ ps →
  a <= x ∧ frag_next x f <= e ∧ m !! x = Some f ∧ 0 <= f_size f.
Proof.
  induction ps as [|[y g] ps IH]; intros a e x f; simpl; [by intros _ ?%elem_of_nil|].
  intros (-> & Hm & Hs & Hc) [[= -> ->]|Hin]%elem_of_cons.
  - split_and!; [lia|by eapply chain_le|done..].
  - destruct (IH _ _ _ _ Hc Hin) as (? & ? & ? & ?). unfold frag_next, FRAG_OVERHEAD in *.
    split_and!; [lia|done..].
Qed.

(** Headers outside the addresses of the chain do not matter. *)
Lemma frag_chain_frame m m' ps : ∀ a e,
  chain m a ps e → (∀ x, a <= x < e → m' !! x = m !! x) → chain m' a ps e.
Proof.
  induction ps as [|[y f] ps IH]; intros a e; simpl; [done|].
  intros (-> & Hm & Hs & Hc) Hx. pose proof (chain_le _ _ _ _ Hc) as Hle.
  unfold frag_next, FRAG_OVERHEAD in *. split_and!; [done| |done|].
  - rewrite Hx by lia. done.
  - apply IH; [done|]. intros x Hx'. apply Hx. lia.
Qed.

Lemma chain_insert m ps a e x f :
  chain m a ps e → x < a ∨ e <= x → chain (<[x := f]> m) a ps e.
Proof.
  intros Hc Hx. eapply frag_chain_frame; [done|]. intros y Hy. apply lookup_insert_ne. lia.
Qed.

(** ** Free and allocated fragments *)

(** Address and size of the free and of the allocated fragments. *)
Definition frees (ps : flist) : list (Z * Z) :=
  (λ p, (p.1, f_size p.2)) <$> filter (λ p, f_free p.2 = true) ps.
Definition allocs (ps : flist) : list (Z * Z) :=
  (λ p, (p.1, f_size p.2)) <$> filter (λ p, f_free p.2 = false) ps.

Fixpoint total (l : list (Z * Z)) : Z := match l with [] => 0 | x :: l => x.2 + total l end.

Lemma total_app l1 l2 : total (l1 ++ l2) = total l1 + total l2.
Proof. induction l1; simpl; lia. Qed.

Lemma frees_app l r : frees (l ++ r) = frees l ++ frees r.
Proof. unfold frees. by rewrite filter_app, fmap_app. Qed.
Lemma allocs_app l r : allocs (l ++ r) = allocs l ++ allocs r.
Proof. unfold allocs. by rewrite filter_app, fmap_app. Qed.

Lemma frees_cons a f ps :
  frees ((a, f) :: ps) = if f_free f then (a, f_size f) :: frees ps else frees ps.
Proof. unfold frees. rewrite filter_cons. simpl. case_decide as E; rewrite ?E; [done|]. by destruct (f_free f). Qed.
Lemma allocs_cons a f ps :
  allocs ((a, f) :: ps) = if f_free f then allocs ps else (a, f_size f) :: allocs ps.
Proof. unfold allocs. rewrite filter_cons. simpl. case_decide as E; rewrite ?E; [done|]. by destruct (f_free f). Qed.

Lemma frees_in ps x : x ∈ (frees ps).*1 → x ∈ ps.*1.
Proof.
  induction ps as [|[a f] ps IH]; [done|]. rewrite frees_cons. destruct (f_free f);
    rewrite ?fmap_cons, ?elem_of_cons; naive_solver.
Qed.

(** A new predecessor for the first fragment of a sequence. *)
Definition set_head_pf (ps : flist) (n : Z) : flist :=
  match ps with [] => [] | (x, g) :: ps => (x, with_pf g n) :: ps end.

Lemma set_head_pf_views ps n :
  frees (set_head_pf ps n) = frees ps ∧ allocs (set_head_pf ps n) = allocs ps.
Proof. destruct ps as [|[x g] ps]; [done|]. simpl. by rewrite !frees_cons, !allocs_cons. Qed.

(** ** Well-formed blocks *)

(** The free lists hold exactly the free fragments, each in the bucket of its
    size and once. *)
Definition lists_ok (fh : Z → list Z) (no : Z → Z) (fs : list (Z * Z)) : Prop :=
  ∀ h, NoDup (fh h) ∧ no h = u64 (Z.of_nat (length (fh h))) ∧
    ∀ a, a ∈ fh h ↔ ∃ s, (a, s) ∈ fs ∧ get_hash s = h.

Record wf (b : fm_block) (ps : flist) : Prop := {
  wf_chain : chain (frags b) (first_frag b) ps (last_frag b);
  wf_last : is_Some (frags b !! last_frag b);
  wf_bounds : 0 < first_frag b ∧ last_frag b < 2 ^ 64;
  wf_lists : lists_ok (free_hash b) (free_no b) (frees ps);
  wf_used : b_used b = u64 (total (allocs ps));
  wf_real : b_real_used b = u64 (b_size b - total (frees ps));
}.

(** The physical predecessors: [pf] of each fragment and of the last header. *)
Fixpoint pf_chain (prev : Z) (ps : flist) (last_pf : Z) : Prop :=
  match ps with
  | [] => last_pf = prev
  | (a, f) :: ps => f_pf f = prev ∧ pf_chain a ps last_pf
  end.
(** [pf] of the last header. *)
Definition lpf (b : fm_block) : Z :=
  match frags b !! last_frag b with Some lf => f_pf lf | None => 0 end.
Definition pf_ok (b : fm_block) (ps : flist) : Prop := pf_chain 0 ps (lpf b).

Lemma pf_chain_mid l : ∀ p a f r q,
  pf_chain p (l ++ (a, f) :: r) q ↔ pf_chain p l (f_pf f) ∧ pf_chain a r q.
Proof. induction l as [|[x g] l IH]; intros p a f r q; simpl; [done|]. rewrite IH. tauto. Qed.

Lemma lpf_put b x f : x ≠ last_frag b → lpf (put_frag b x f) = lpf b.
Proof. intros Hx. unfold lpf; simpl. by rewrite lookup_insert_ne. Qed.

(** ** Free lists *)

Lemma lists_insert fh no l r a s :
  lists_ok fh no (l ++ r) → a ∉ (l ++ r).*1 → let h := get_hash s in
  lists_ok (λ g, if g =? h then a :: fh h else fh g)
    (λ g, if g =? h then u64 (no h + 1) else no g) (l ++ (a, s) :: r).
Proof.
  intros Hok Ha h g. destruct (Hok g) as (Hnd & Hno & Hin).
  assert (∀ x t, (x, t) ∈ l ++ (a, s) :: r ↔ (x = a ∧ t = s) ∨ (x, t) ∈ l ++ r) as Hmem.
  { intros x t. rewrite !elem_of_app, elem_of_cons. naive_solver. }
  destruct (Z.eqb_spec g h) as [->|Hne].
  - split_and!.
    + apply NoDup_cons. split; [|done]. intros (t & Ht & _)%Hin. apply Ha, list_elem_of_fmap. by exists (a, t).
    + simpl length. rewrite Hno. rewrite wrap_wrap_add by lia. f_equal. lia.
    + intros x. rewrite elem_of_cons, Hin. setoid_rewrite Hmem. naive_solver.
  - split_and!; [done..|]. intros x. rewrite Hin. setoid_rewrite Hmem. naive_solver.
Qed.

Lemma filter_ne_length a (l : list Z) : NoDup l → a ∈ l →
  length l = S (length (filter (λ x, x ≠ a) l)).
Proof.
  induction 1 as [|x l Hx Hl IH]; [by intros ?%elem_of_nil|]. intros [->|Ha]%elem_of_cons.
  - rewrite filter_cons_False by tauto. simpl. f_equal. clear IH Hl.
    induction l as [|y l IH]; [done|]. rewrite not_elem_of_cons in Hx.
    rewrite filter_cons_True by naive_solver. simpl. f_equal. apply IH. tauto.
  - rewrite filter_cons_True by naive_solver. simpl. f_equal. by apply IH.
Qed.

Lemma lists_remove fh no l r a s :
  lists_ok fh no (l ++ (a, s) :: r) → a ∉ (l ++ r).*1 → let h := get_hash s in
  lists_ok (λ g, if g =? h then filter (λ x, x ≠ a) (fh h) else fh g)
    (λ g, if g =? h then u64 (no h - 1) else no g) (l ++ r).
Proof.
  intros Hok Ha h g. destruct (Hok g) as (Hnd & Hno & Hin).
  assert (∀ x t, (x, t) ∈ l ++ (a, s) :: r ↔ (x = a ∧ t = s) ∨ (x, t) ∈ l ++ r) as Hmem.
  { intros x t. rewrite !elem_of_app, elem_of_cons. naive_solver. }
  assert (∀ x t, (x, t) ∈ l ++ r → x ≠ a) as Hne.
  { intros x t Hx ->. apply Ha, list_elem_of_fmap. by exists (a, t). }
  destruct (Z.eqb_spec g h) as [->|Hg].
  - assert (a ∈ fh h) as Hah by (apply Hin; exists s; rewrite Hmem; auto).
    split_and!; [by apply NoDup_filter| |].
    + rewrite Hno, (filter_ne_length a) by done. rewrite <- Z.add_opp_r, wrap_wrap_add by lia. f_equal. lia.
    + intros x. rewrite list_elem_of_filter, Hin. setoid_rewrite Hmem. naive_solver.
  - split_and!; [done..|]. intros x. rewrite Hin. setoid_rewrite Hmem.
    split; [|naive_solver]. intros (t & [[-> ->]|Ht] & Hg'); [done|]. eauto.
Qed.

(** ** The primitives on the sequence of fragments *)

Lemma chain_mid m a l x f r e :
  chain m a (l ++ (x, f) :: r) e →
  chain m a l x ∧ m !! x = Some f ∧ 0 <= f_size f ∧ chain m (frag_next x f) r e ∧
  a <= x ∧ frag_next x f <= e.
Proof.
  intros (y & Hl & -> & Hm & Hs & Hr)%chain_app.
  pose proof (chain_le _ _ _ _ Hl). pose proof (chain_le _ _ _ _ Hr). done.
Qed.

(** Replacing a header by one of the same size. *)
Lemma chain_update m a l x f f' r e :
  chain m a (l ++ (x, f) :: r) e → f_size f' = f_size f →
  chain (<[x := f']> m) a (l ++ (x, f') :: r) e.
Proof.
  intros (Hl & Hm & Hs & Hr & Hx & He)%chain_mid Hsz. apply chain_app. exists x. split.
  - apply chain_insert; [done|]. lia.
  - simpl. rewrite lookup_insert, Hsz. destruct (decide (x = x)); [|done]. split_and!; [done..|].
    unfold frag_next in *. rewrite Hsz. apply chain_insert; [done|].
    unfold FRAG_OVERHEAD. lia.
Qed.

Lemma chain_fresh m a l x f r e :
  chain m a (l ++ (x, f) :: r) e → x ∉ (l ++ r).*1.
Proof.
  intros (Hl & Hm & Hs & Hr & _)%chain_mid Hin.
  rewrite fmap_app, elem_of_app, !list_elem_of_fmap in Hin.
  destruct Hin as [([y g] & -> & Hy)|([y g] & -> & Hy)].
  - destruct (chain_bounds _ _ _ _ _ _ Hl Hy) as (_ & H & _ & Hg). unfold frag_next, FRAG_OVERHEAD in H.
    simpl in H. lia.
  - destruct (chain_bounds _ _ _ _ _ _ Hr Hy) as (H & _). unfold frag_next, FRAG_OVERHEAD in H.
    simpl in H. lia.
Qed.

Lemma frees_fresh m a l x f r e :
  chain m a (l ++ (x, f) :: r) e → x ∉ (frees l ++ frees r).*1.
Proof. intros Hc Hin. rewrite <- frees_app in Hin. apply frees_in in Hin. by eapply chain_fresh. Qed.

Lemma insert_free_ok b l a f r :
  wf b (l ++ (a, f) :: r) → f_free f = false →
  ∃ b', fm_insert_free b a = Some b' ∧ wf b' (l ++ (a, with_free f true) :: r) ∧
    first_frag b' = first_frag b ∧ last_frag b' = last_frag b ∧ b_size b' = b_size b ∧
    lpf b' = lpf b ∧ (∀ x, x ≠ a → frags b' !! x = frags b !! x).
Proof.
  intros [Hc Hl Hb Hf Hu Hr] Hff. destruct (chain_mid _ _ _ _ _ _ _ Hc) as (_ & Hm & Hs & _ & Hx & He).
  unfold fm_insert_free. rewrite Hm. cbn [mbind option_bind]. eexists. split; [done|].
  unfold frag_next, FRAG_OVERHEAD in He.
  split; [|split_and!; [done..|apply (lpf_put b a); lia|intros x Hxa; simpl; by rewrite lookup_insert_ne]].
  rewrite !frees_app, frees_cons, Hff in *. rewrite !allocs_app, allocs_cons, Hff in *.
  rewrite !total_app in *. cbn [total snd] in *. split; simpl.
  - by eapply chain_update.
  - destruct Hl as [lf Hl]. destruct (decide (a = last_frag b)) as [->|];
      [by eexists; rewrite lookup_insert_eq|]. exists lf. by rewrite lookup_insert_ne.
  - done.
  - rewrite frees_app, frees_cons. apply lists_insert; [done|]. by eapply frees_fresh.
  - rewrite allocs_app, allocs_cons, total_app. simpl. rewrite Hu, <- Z.add_opp_r, wrap_wrap_add by lia.
    f_equal. lia.
  - rewrite frees_app, frees_cons, total_app. simpl. rewrite Hr, <- Z.add_opp_r, wrap_wrap_add by lia.
    f_equal. lia.
Qed.

Lemma remove_free_ok b l a f r :
  wf b (l ++ (a, f) :: r) → f_free f = true →
  ∃ b', fm_remove_free b a = Some b' ∧ wf b' (l ++ (a, with_free f false) :: r) ∧
    first_frag b' = first_frag b ∧ last_frag b' = last_frag b ∧ b_size b' = b_size b ∧
    lpf b' = lpf b ∧ (∀ x, x ≠ a → frags b' !! x = frags b !! x).
Proof.
  intros [Hc Hl Hb Hf Hu Hr] Hff. destruct (chain_mid _ _ _ _ _ _ _ Hc) as (_ & Hm & Hs & _ & Hx & He).
  unfold fm_remove_free. rewrite Hm. cbn [mbind option_bind]. rewrite Hff. eexists. split; [done|].
  unfold frag_next, FRAG_OVERHEAD in He.
  split; [|split_and!; [done..|apply (lpf_put b a); lia|intros x Hxa; simpl; by rewrite lookup_insert_ne]].
  rewrite !frees_app, frees_cons, Hff in *. rewrite !allocs_app, allocs_cons, Hff in *.
  rewrite !total_app in *. cbn [total snd] in *. split; simpl.
  - by eapply chain_update.
  - destruct Hl as [lf Hl]. destruct (decide (a = last_frag b)) as [->|];
      [by eexists; rewrite lookup_insert_eq|]. exists lf. by rewrite lookup_insert_ne.
  - done.
  - rewrite frees_app, frees_cons. apply lists_remove; [done|]. by eapply frees_fresh.
  - rewrite allocs_app, allocs_cons, total_app. simpl. rewrite Hu, wrap_wrap_add by lia. f_equal. lia.
  - rewrite frees_app, frees_cons, total_app. simpl. rewrite Hr, wrap_wrap_add by lia. f_equal. lia.
Qed.

(** ** Joining and splitting *)

(** A header in the chain fits below the end of the block. *)
Lemma chain_size m a l x f r e :
  chain m a (l ++ (x, f) :: r) e → 0 < a → e < 2 ^ 64 → 0 <= f_size f < 2 ^ 64.
Proof.
  intros (_ & _ & ? & _ & ? & He)%chain_mid ??. unfold frag_next, FRAG_OVERHEAD in He. lia.
Qed.

(** Two used fragments become one. *)
Lemma merge_ok b l a f n nf r :
  wf b (l ++ (a, f) :: (n, nf) :: r) → f_free f = false → f_free nf = false →
  let f' := with_size f (u64 (f_size f + (f_size nf + FRAG_OVERHEAD))) in
  f_size f' = f_size f + f_size nf + FRAG_OVERHEAD ∧ frag_next a f' = frag_next n nf ∧
  wf (used_plus (put_frag b a f') FRAG_OVERHEAD) (l ++ (a, f') :: r) ∧
  lpf (used_plus (put_frag b a f') FRAG_OVERHEAD) = lpf b.
Proof.
  intros [Hc Hl Hb Hf Hu Hr] Hff Hnf f'.
  destruct (chain_mid _ _ _ _ _ _ _ Hc) as (Hcl & Hm & Hs & Hcr & Hx & He).
  destruct Hcr as (-> & Hmn & Hsn & Hcr). pose proof (chain_le _ _ _ _ Hcr) as Hle.
  unfold frag_next, FRAG_OVERHEAD in *.
  assert (f_size f' = f_size f + f_size nf + 56) as Hsz.
  { simpl. rewrite wrap_small; lia. }
  split_and!; [done|unfold FRAG_OVERHEAD; rewrite Hsz; lia| |apply (lpf_put b a); lia].
  rewrite !frees_app, !frees_cons, Hff, Hnf in *. rewrite !allocs_app, !allocs_cons, Hff, Hnf in *.
  rewrite !total_app in *. cbn [total snd] in *. split; simpl.
  - apply chain_app. exists a. split; [apply chain_insert; [done|lia]|]. cbn [chain].
    rewrite lookup_insert_eq. split_and!; [done..|lia|].
    unfold frag_next. rewrite Hsz. unfold FRAG_OVERHEAD.
    replace (a + 56 + (f_size f + f_size nf + 56)) with (a + 56 + f_size f + 56 + f_size nf) by lia.
    apply chain_insert; [done|lia].
  - destruct Hl as [lf Hl]. exists lf. rewrite lookup_insert_ne; [done|lia].
  - done.
  - rewrite frees_app, frees_cons. change (f_free f') with (f_free f). by rewrite Hff.
  - rewrite allocs_app, allocs_cons, total_app. change (f_free f') with (f_free f).
    rewrite Hff. cbn [total snd]. rewrite Hsz, Hu, wrap_wrap_add by lia. f_equal. unfold FRAG_OVERHEAD. lia.
  - rewrite frees_app, frees_cons. change (f_free f') with (f_free f). by rewrite Hff, total_app.
Qed.

(** Setting the predecessor of the fragment, or the last header, after [l]. *)
Lemma set_pf_ok b l r x n :
  wf b (l ++ r) → chain (frags b) (first_frag b) l x →
  ∃ nn, frags b !! x = Some nn ∧ wf (put_frag b x (with_pf nn n)) (l ++ set_head_pf r n) ∧
    ∀ p, pf_chain p r (lpf b) → pf_chain n (set_head_pf r n) (lpf (put_frag b x (with_pf nn n))).
Proof.
  intros [Hc Hl Hb Hf Hu Hr] Hcl. destruct r as [|[y g] r].
  - rewrite app_nil_r in *. assert (x = last_frag b) as ->.
    { clear -Hc Hcl. revert Hc Hcl. generalize (first_frag b), (last_frag b).
      induction l as [|[y f] l IH]; intros c e; simpl; [congruence|]. naive_solver. }
    destruct Hl as [nn Hl]. exists nn. split; [done|]. split.
    2:{ intros p _. simpl. unfold lpf; simpl. by rewrite lookup_insert_eq. }
    split; simpl; [|by eexists; rewrite lookup_insert_eq|done..].
    apply chain_insert; [done|lia].
  - assert (x = y) as <-.
    { apply chain_mid in Hc as (Hc & _). clear -Hc Hcl. revert Hc Hcl. generalize (first_frag b).
      induction l as [|[z f] l IH]; intros c; simpl; [congruence|]. naive_solver. }
    destruct (chain_mid _ _ _ _ _ _ _ Hc) as (_ & Hm & Hs & _ & Hx & He).
    unfold frag_next, FRAG_OVERHEAD in He. exists g. split; [done|]. simpl set_head_pf. split.
    2:{ intros p [_ Hp]. rewrite lpf_put by lia. by split. }
    rewrite !frees_app, !frees_cons in *. rewrite !allocs_app, !allocs_cons in *.
    split; simpl; rewrite ?frees_app, ?frees_cons, ?allocs_app, ?allocs_cons; [| |done..].
    + by eapply chain_update.
    + destruct Hl as [lf Hl]. exists lf. rewrite lookup_insert_ne; [done|lia].
Qed.

Lemma chain_head m a l x f : ∀ r e, chain m a (l ++ (x, f) :: r) e →
  chain m a (l ++ [(x, f)]) (frag_next x f).
Proof.
  intros r e (Hl & Hm & Hs & _)%chain_mid. apply chain_app. exists x. split; [done|]. by simpl.
Qed.

(** What [fm_split_frag] leaves of a used fragment and what follows it. *)
Definition split_tail (a size : Z) (f : fm_frag) (r : flist) : flist :=
  if FRAG_OVERHEAD + MIN_FRAG_SIZE <? f_size f - size then
    let f' := with_size f size in
    let n := frag_next a f' in
    (a, f') :: (n, Frag (f_size f - size - FRAG_OVERHEAD) true a) :: set_head_pf r n
  else (a, f) :: r.

Lemma split_ok b l a f r size :
  wf b (l ++ (a, f) :: r) → f_free f = false → 0 <= size <= f_size f →
  ∃ b', fm_split_frag b a size = Some b' ∧ wf b' (l ++ split_tail a size f r) ∧
    (pf_ok b (l ++ (a, f) :: r) → pf_ok b' (l ++ split_tail a size f r)) ∧
    first_frag b' = first_frag b ∧ last_frag b' = last_frag b ∧ b_size b' = b_size b.
Proof.
  intros Hw Hff Hsz. pose proof Hw as [Hc Hl Hb Hf Hu Hr].
  destruct (chain_mid _ _ _ _ _ _ _ Hc) as (Hcl & Hm & Hs & Hcr & Hx & He).
  unfold fm_split_frag, split_tail. rewrite Hm. cbn [mbind option_bind].
  unfold frag_next, FRAG_OVERHEAD, MIN_FRAG_SIZE, ROUNDTO in *.
  rewrite wrap_small by lia. destruct (Z.ltb_spec (56 + 8) (f_size f - size)) as [Hrest|]; [|eauto 10].
  set (f' := with_size f size). set (n := a + 56 + size).
  set (nf := Frag (f_size f - size - 56) false a).
  change (a + 56 + f_size f') with n. change (n + 56 + f_size nf) with (n + 56 + (f_size f - size - 56)).
  assert (wf (used_plus (put_frag (put_frag b a f') n nf) (-56)) (l ++ [(a, f'); (n, nf)] ++ r)) as Hw1.
  { rewrite !frees_app, !frees_cons, Hff in *. rewrite !allocs_app, !allocs_cons, Hff in *.
    rewrite !total_app in *. cbn [total snd] in *.
    split; simpl; rewrite ?frees_app, ?frees_cons, ?allocs_app, ?allocs_cons, ?total_app.
    - apply chain_app. exists a. split.
      { apply chain_insert; [apply chain_insert; [done|lia]|unfold n; lia]. }
      cbn [chain]. rewrite lookup_insert_ne by (unfold n; lia). rewrite lookup_insert_eq.
      change (frag_next a f') with n. rewrite lookup_insert_eq.
      split_and!; [done..|simpl; lia|done|done|simpl; lia|]. unfold frag_next, FRAG_OVERHEAD. simpl f_size.
      replace (n + 56 + (f_size f - size - 56)) with (a + 56 + f_size f) by (unfold n; lia).
      apply chain_insert; [apply chain_insert; [done|lia]|unfold n; lia].
    - destruct Hl as [lf Hl]. exists lf. rewrite !lookup_insert_ne; [done|lia|unfold n; lia].
    - done.
    - simpl. by rewrite Hff.
    - simpl. rewrite Hff. simpl. rewrite Hu, wrap_wrap_add by lia. f_equal. lia.
    - simpl. by rewrite Hff. }
  rewrite app_assoc in Hw1.
  destruct (set_pf_ok _ _ _ (n + 56 + (f_size f - size - 56)) n Hw1) as (nn & Hnn & Hw2 & Hpf).
  { pose proof (wf_chain _ _ Hw1) as Hc1. rewrite <- app_assoc in Hc1. simpl in Hc1.
    change ((a, f') :: (n, nf) :: r) with ([(a, f')] ++ (n, nf) :: r) in Hc1.
    rewrite app_assoc in Hc1. apply chain_head in Hc1. by rewrite <- app_assoc in Hc1. }
  simpl in Hnn.
  match goal with |- context [frags ?B !! ?x] => change (frags B !! x)
    with (<[n:=nf]> (<[a:=f']> (frags b)) !! (n + 56 + (f_size f - size - 56))) end.
  rewrite Hnn. cbn [mbind option_bind].
  rewrite <- app_assoc in Hw2. simpl in Hw2.
  change ((a, f') :: (n, nf) :: set_head_pf r n) with ([(a, f')] ++ (n, nf) :: set_head_pf r n) in Hw2.
  rewrite app_assoc in Hw2.
  destruct (insert_free_ok _ _ _ _ _ Hw2 eq_refl) as (b' & E & Hw3 & E1 & E2 & E3 & E4 & _).
  exists b'. rewrite <- app_assoc in Hw3. split_and!; [exact E|exact Hw3| |done..].
  unfold pf_ok. rewrite !pf_chain_mid. intros [Hp1 Hp2]. split; [exact Hp1|].
  split; [done|]. rewrite E4. apply (Hpf a).
  assert (lpf (used_plus (put_frag (put_frag b a f') n nf) (-56)) = lpf b) as ->; [|done].
  transitivity (lpf (put_frag b a f')); [apply (lpf_put (put_frag b a f') n)|apply (lpf_put b a)];
    simpl; unfold n; lia.
Qed.
