(* ===== verification/FMallocSpec.v ===== *)
(** * FMallocSpec: what the fast allocator promises (mem/f_malloc.c)

    Allocation and release keep a block well formed, change exactly one allocated
    fragment and keep the statistics exact; the defragmentation forgets to update the
    back pointer of the fragment that follows the one it builds. *)

From stdpp Require Import prelude list gmap.
From Stdlib Require Import ZArith Lia.
From S2P Require Import Prelude FMalloc FMallocFacts.

(** ** Statistics do not matter for well-formedness *)

Lemma wf_fragments b m n ps : wf b ps → wf (with_fragments b m n) ps.
Proof. by intros []. Qed.

Lemma wf_next_free b l a f r :
  wf b (l ++ (a, f) :: r) →
  free_before_last b (frag_next a f) =
  Some (match r with (_, g) :: _ => f_free g | [] => false end).
Proof.
  intros [Hc _ _ _ _ _]. destruct (chain_mid _ _ _ _ _ _ _ Hc) as (_ & _ & _ & Hr & _ & _).
  unfold free_before_last. destruct r as [|[x g] r].
  - simpl in Hr. by rewrite (proj2 (Z.ltb_ge _ _)) by lia.
  - destruct Hr as (-> & Hm & Hs & Hr%chain_le).
    rewrite (proj2 (Z.ltb_lt _ _)) by (unfold frag_next, FRAG_OVERHEAD in *; lia). by rewrite Hm.
Qed.

Lemma chain_length m ps : ∀ a e, chain m a ps e → (length ps <= base.size m)%nat.
Proof.
  intros a e Hc. assert (NoDup ps.*1 ∧ ∀ x, x ∈ ps.*1 → is_Some (m !! x)) as [Hnd Hin].
  { revert a Hc. induction ps as [|[x f] ps IH]; intros a; simpl.
    { split; [constructor|by intros ? ?%elem_of_nil]. }
    intros (-> & Hm & Hs & Hc). destruct (IH _ Hc) as [Hnd Hin]. split.
    - constructor; [|done]. rewrite list_elem_of_fmap. intros ([y g] & -> & Hy).
      destruct (chain_bounds _ _ _ _ _ _ Hc Hy) as (H & _). unfold frag_next, FRAG_OVERHEAD in H. simpl in H. lia.
    - intros y [->|Hy]%elem_of_cons; [by eexists|auto]. }
  rewrite <- (length_fmap fst), <- size_dom.
  rewrite <- (size_list_to_set (C := gset Z)) by done. apply subseteq_size.
  intros x Hx%elem_of_list_to_set%Hin. by apply elem_of_dom.
Qed.

(** ** Defragmentation *)

Lemma join_loop_ok size l a : ∀ fuel b f n nf r,
  wf b (l ++ (a, f) :: (n, nf) :: r) → f_free f = false → f_free nf = true →
  (length r < fuel)%nat →
  ∃ b' f' r' n' solved, join_loop fuel b a n size = Some (b', n', solved) ∧
    wf b' (l ++ (a, f') :: r') ∧ f_free f' = false ∧ allocs r' = allocs r ∧
    (length r' <= length r)%nat ∧ (solved = true → size < f_size f') ∧
    (solved = false → n' = frag_next a f') ∧
    first_frag b' = first_frag b ∧ last_frag b' = last_frag b.
Proof.
  induction fuel as [|k IH]; intros b f n nf r Hw Hf Hnf Hk; [lia|]. cbn [join_loop].
  change ((a, f) :: (n, nf) :: r) with ([(a, f)] ++ (n, nf) :: r) in Hw. rewrite app_assoc in Hw.
  destruct (remove_free_ok _ _ _ _ _ Hw Hnf) as (b1 & -> & Hw1 & E1 & E2 & _). cbn [mbind option_bind].
  rewrite <- app_assoc in Hw1. cbn [app] in Hw1.
  destruct (chain_mid _ _ _ _ _ _ _ (wf_chain _ _ Hw1)) as (_ & Ha & _ & Hn & _).
  destruct Hn as (-> & Hn & _). rewrite Ha. cbn [mbind option_bind]. rewrite Hn. cbn [mbind option_bind].
  destruct (merge_ok _ _ _ _ _ _ _ Hw1 Hf eq_refl) as (Hsz & _ & Hw2 & _). simpl f_size in *.
  set (f1 := with_size f (u64 (f_size f + (f_size nf + FRAG_OVERHEAD)))) in *.
  change (u64 (f_size f + (f_size nf + FRAG_OVERHEAD))) with (f_size f1).
  destruct (Z.ltb_spec size (f_size f1)) as [Hlt|Hge].
  { do 5 eexists. split; [done|]. split_and!; try done. }
  rewrite (wf_next_free _ _ _ _ _ Hw2). cbn [mbind option_bind].
  destruct r as [|[x g] r]; [|destruct (f_free g) eqn:Hg].
  - do 5 eexists. split; [done|]. by split_and!.
  - destruct (chain_mid _ _ _ _ _ _ _ (wf_chain _ _ Hw2)) as (_ & _ & _ & (Hx & _) & _).
    rewrite <- Hx. simpl in Hk.
    destruct (IH _ f1 x g r Hw2 Hf Hg ltac:(lia))
      as (b' & f' & r' & n' & sv & E & Hw' & Hf' & Hal & Hlen & H1 & H2 & H3 & H4).
    exists b', f', r', n', sv. split; [exact E|]. rewrite allocs_cons, Hg. simpl. split_and!; try done; try lia.
    + rewrite H3. done.
    + rewrite H4. done.
  - do 5 eexists. split; [done|]. by split_and!.
Qed.

(** The result of the outer loop. *)
Definition defrag_result (size : Z) (al : list (Z * Z)) (b' : fm_block) (res : option Z) : Prop :=
  match res with
  | None => ∃ ps', wf b' ps' ∧ allocs ps' = al
  | Some x => ∃ l f r, wf b' (l ++ (x, f) :: r) ∧ f_free f = false ∧ size < f_size f ∧
      allocs l ++ allocs r = al
  end.

Lemma defrag_loop_ok size : ∀ fuel b l r a,
  wf b (l ++ r) → chain (frags b) (first_frag b) l a → (length r < fuel)%nat →
  ∃ b' res, defrag_loop fuel b a size = Some (b', res) ∧ defrag_result size (allocs (l ++ r)) b' res.
Proof.
  induction fuel as [|k IH]; intros b l r a Hw Hcl Hk; [lia|]. cbn [defrag_loop].
  pose proof (wf_chain _ _ Hw) as Hc. destruct r as [|[x f] r].
  { destruct (proj1 (chain_app _ _ _ _ _) Hc) as (y & Hy & ->).
    assert (a = last_frag b) as ->.
    { clear -Hy Hcl. revert Hy Hcl. generalize (first_frag b).
      induction l as [|[z g] l IH]; intros c; simpl; [congruence|]. naive_solver. }
    rewrite Z.ltb_irrefl. do 2 eexists. split; [done|]. by exists (l ++ []). }
  destruct (chain_mid _ _ _ _ _ _ _ Hc) as (Hcl' & Hm & Hs & Hcr & Hx & He).
  assert (a = x) as ->.
  { clear -Hcl' Hcl. revert Hcl' Hcl. generalize (first_frag b).
    induction l as [|[z g] l IH]; intros c; simpl; [congruence|]. naive_solver. }
  simpl in Hk. unfold frag_next, FRAG_OVERHEAD in He. rewrite (proj2 (Z.ltb_lt _ _)) by lia.
  rewrite Hm. cbn [mbind option_bind]. rewrite (wf_next_free _ _ _ _ _ Hw). cbn [mbind option_bind].
  assert (∃ b' res, defrag_loop k b (frag_next x f) size = Some (b', res) ∧
    defrag_result size (allocs (l ++ (x, f) :: r)) b' res) as Hskip.
  { destruct (IH b (l ++ [(x, f)]) r (frag_next x f)) as (b' & res & E & Hr).
    - by rewrite <- app_assoc.
    - by eapply chain_head.
    - lia.
    - rewrite <- app_assoc in Hr. eauto. }
  destruct r as [|[y g] r]; [exact Hskip|]. destruct (f_free g) eqn:Hg; [|exact Hskip].
  destruct (f_free f) eqn:Hf; [clear Hskip|exact Hskip]. cbn [andb].
  destruct (remove_free_ok _ _ _ _ _ Hw Hf) as (b1 & -> & Hw1 & E1 & E2 & _). cbn [mbind option_bind].
  pose proof (chain_length _ _ _ _ (wf_chain _ _ Hw1)) as Hlen. rewrite length_app in Hlen. simpl in Hlen.
  assert (frag_next x f = y) as -> by (destruct Hcr as [-> _]; done).
  destruct (join_loop_ok size l x (S (base.size (frags b1))) b1 _ y g r Hw1 eq_refl Hg ltac:(lia))
    as (b2 & f2 & r2 & n2 & sv & -> & Hw2 & Hf2 & Hal & Hl2 & Hsv & Hn2 & E3 & E4).
  cbn [mbind option_bind]. destruct sv.
  - do 2 eexists. split; [done|]. exists l, f2, r2. split_and!; [done|done|by apply Hsv|].
    by rewrite allocs_app, !allocs_cons, Hf, Hg, Hal.
  - rewrite (Hn2 eq_refl) in *. destruct (insert_free_ok _ _ _ _ _ Hw2 Hf2)
      as (b3 & -> & Hw3 & E5 & E6 & _). cbn [mbind option_bind].
    destruct (IH b3 (l ++ [(x, with_free f2 true)]) r2 (frag_next x f2)) as (b' & res & E & Hr).
    + by rewrite <- app_assoc.
    + apply (chain_head _ _ _ _ (with_free f2 true)) with (r := r2) (e := last_frag b3), Hw3.
    + simpl in Hk; lia.
    + do 2 eexists. split; [done|]. rewrite <- app_assoc in Hr. simpl in Hr.
      rewrite !allocs_app, !allocs_cons, Hf, Hg in *. simpl in Hr. by rewrite Hal in Hr.
Qed.

(** ** Allocation *)

Lemma find_bucket_some fh : ∀ k h a, find_bucket k fh h = Some a →
  ∃ h', h <= h' < h + Z.of_nat k ∧ a ∈ fh h'.
Proof.
  induction k as [|k IH]; intros h a; simpl; [done|]. destruct (fh h) as [|y l] eqn:E.
  - intros (h' & ? & ?)%IH. exists h'. split; [lia|done].
  - intros [= ->]. exists h. split; [lia|]. rewrite E. by left.
Qed.

Lemma frees_elem ps a s : (a, s) ∈ frees ps →
  ∃ l f r, ps = l ++ (a, f) :: r ∧ f_free f = true ∧ f_size f = s.
Proof.
  unfold frees. rewrite list_elem_of_fmap. intros ([x f] & [= -> ->] & [Hf Hin]%list_elem_of_filter).
  apply list_elem_of_split in Hin as (l & r & ->). eauto 10.
Qed.

Lemma allocs_elem ps a s : (a, s) ∈ allocs ps →
  ∃ l f r, ps = l ++ (a, f) :: r ∧ f_free f = false ∧ f_size f = s.
Proof.
  unfold allocs. rewrite list_elem_of_fmap. intros ([x f] & [= -> ->] & [Hf Hin]%list_elem_of_filter).
  apply list_elem_of_split in Hin as (l & r & ->). eauto 10.
Qed.

Lemma split_tail_allocs a size f r :
  f_free f = false → size <= f_size f →
  ∃ s, size <= s ∧ allocs (split_tail a size f r) = (a, s) :: allocs r.
Proof.
  intros Hf Hs. unfold split_tail. destruct (_ <? _).
  - exists size. split; [lia|]. rewrite !allocs_cons. simpl. rewrite Hf.
    by rewrite (proj2 (set_head_pf_views _ _)).
  - exists (f_size f). split; [done|]. by rewrite allocs_cons, Hf.
Qed.

(** [al'] is [al] with one more allocated fragment at [a], of at least [size]
    bytes. *)
Definition one_more (al al' : list (Z * Z)) (a size : Z) : Prop :=
  ∃ l r s, al = l ++ r ∧ al' = l ++ (a, s) :: r ∧ size <= s.

Lemma fm_malloc_ok b ps size :
  wf b ps → 0 <= size <= 2 ^ 64 - 8 →
  ∃ b' ps' p, fm_malloc b size = Some (b', p) ∧ wf b' ps' ∧
    (p = 0 ∧ allocs ps' = allocs ps ∨
     one_more (allocs ps) (allocs ps') (p - FRAG_OVERHEAD) size) ∧
    (∀ a, find_bucket (Z.to_nat (F_HASH_SIZE - get_hash_inc (ROUNDUP size) 1)) (free_hash b)
            (get_hash_inc (ROUNDUP size) 1) = Some a → p = a + FRAG_OVERHEAD ∧ (pf_ok b ps → pf_ok b' ps')).
Proof.
  intros Hw Hs. destruct (roundup_spec size Hs) as [Hr Hm]. unfold fm_malloc. cbv zeta.
  set (h := get_hash_inc (ROUNDUP size) 1). destruct (find_bucket _ _ h) as [a|] eqn:Ef.
  - apply find_bucket_some in Ef as (h' & Hh & Ha).
    apply (proj2 (proj2 (wf_lists _ _ Hw h'))) in Ha as (s & Hin & Hg).
    apply frees_elem in Hin as (l & f & r & -> & Hff & Hfs).
    pose proof (chain_size _ _ _ _ _ _ _ (wf_chain _ _ Hw) (proj1 (wf_bounds _ _ Hw)) (proj2 (wf_bounds _ _ Hw))) as Hsz.
    assert (ROUNDUP size <= f_size f) as Hfit.
    { subst s. apply (bucket_fits _ _ h'); [lia|done|done|lia|done]. }
    destruct (remove_free_ok _ _ _ _ _ Hw Hff) as (b1 & -> & Hw1 & E1 & E2 & _ & E4 & _). cbn [mbind option_bind].
    destruct (split_ok _ _ _ _ _ (ROUNDUP size) Hw1 eq_refl) as (b2 & -> & Hw2 & Hpf & _); [simpl; lia|].
    cbn [mbind option_bind]. do 3 eexists. split; [done|]. split; [by apply wf_fragments, wf_fragments|].
    destruct (split_tail_allocs a (ROUNDUP size) (with_free f false) r) as (s' & Hs' & Hal); [done..|].
    split.
    + right. exists (allocs l), (allocs r), s'. rewrite !allocs_app, allocs_cons, Hff, Hal.
      replace (a + FRAG_OVERHEAD - FRAG_OVERHEAD) with a by lia. split_and!; [done..|lia].
    + intros a' [= <-]. split; [done|]. intros Hp. apply Hpf.
      unfold pf_ok in *. rewrite E4. by rewrite pf_chain_mid in *.
  - destruct (defrag_loop_ok (ROUNDUP size) (S (base.size (frags b))) b [] ps (first_frag b))
      as (b' & res & -> & Hres); [done|done| |].
    { pose proof (chain_length _ _ _ _ (wf_chain _ _ Hw)). lia. }
    cbn [mbind option_bind]. destruct res as [a|].
    + destruct Hres as (l & f & r & Hw' & Hff & Hlt & Hal). do 3 eexists. split; [done|].
      split; [by apply wf_fragments, wf_fragments|]. split; [|done]. right.
      exists (allocs l), (allocs r), (f_size f). rewrite allocs_app, allocs_cons, Hff, Hal.
      replace (a + FRAG_OVERHEAD - FRAG_OVERHEAD) with a by lia. split_and!; [done..|lia].
    + destruct Hres as (ps' & Hw' & Hal). exists b', ps', 0. split; [done|]. split; [done|]. split; [by left|done].
Qed.

(** ** Release *)

Lemma join_next_ok b l a f r :
  wf b (l ++ (a, f) :: r) → f_free f = false → pf_ok b (l ++ (a, f) :: r) →
  ∃ b' f' r', join_next b a = Some b' ∧ wf b' (l ++ (a, f') :: r') ∧ f_free f' = false ∧
    f_pf f' = f_pf f ∧ pf_ok b' (l ++ (a, f') :: r') ∧ allocs r' = allocs r ∧
    first_frag b' = first_frag b ∧ last_frag b' = last_frag b.
Proof.
  intros Hw Hf Hp. pose proof (wf_chain _ _ Hw) as Hc.
  destruct (chain_mid _ _ _ _ _ _ _ Hc) as (_ & Hm & _ & Hcr & _).
  unfold join_next. rewrite Hm. cbn [mbind option_bind]. rewrite (wf_next_free _ _ _ _ _ Hw).
  cbn [mbind option_bind].
  destruct r as [|[n nf] r]; [|destruct (f_free nf) eqn:Hnf]; [by eauto 12| |by eauto 12].
  destruct Hcr as (-> & Hn & _ & _).
  change ((a, f) :: (?x, nf) :: r) with ([(a, f)] ++ (x, nf) :: r) in Hw.
  rewrite app_assoc in Hw.
  destruct (remove_free_ok _ _ _ _ _ Hw Hnf) as (b1 & -> & Hw1 & E1 & E2 & _ & E4 & _). cbn [mbind option_bind].
  rewrite <- app_assoc in Hw1. cbn [app] in Hw1.
  destruct (chain_mid _ _ _ _ _ _ _ (wf_chain _ _ Hw1)) as (_ & Ha & _ & (_ & Hn1 & _) & _).
  rewrite Hn1. cbn [mbind option_bind]. rewrite Ha. cbn [mbind option_bind].
  destruct (merge_ok _ _ _ _ _ _ _ Hw1 Hf eq_refl) as (Hsz & Hnx & Hw2 & Hl2). simpl f_size in *.
  set (f1 := with_size f (u64 (f_size f + (f_size nf + FRAG_OVERHEAD)))) in *.
  set (b2 := used_plus (put_frag b1 a f1) FRAG_OVERHEAD) in *.
  change ((a, f1) :: r) with ([(a, f1)] ++ r) in Hw2. rewrite app_assoc in Hw2.
  destruct (set_pf_ok b2 (l ++ [(a, f1)]) r (frag_next a f1) a Hw2) as (nn & Hnn & Hw3 & Hpf).
  { apply chain_head with (r := r) (e := last_frag b2). rewrite <- app_assoc in Hw2. apply Hw2. }
  rewrite Hnx in *. change (frags b2) with (frags (put_frag b1 a f1)) in Hnn. rewrite Hnn.
  cbn [mbind option_bind]. do 3 eexists. split; [done|]. rewrite <- app_assoc in Hw3. cbn [app] in Hw3.
  split; [exact Hw3|]. split_and!; [done..| | |done|done].
  - unfold pf_ok in *. rewrite pf_chain_mid in *. destruct Hp as [Hp1 [_ Hp2]]. split; [done|].
    apply (Hpf (frag_next a f)). rewrite Hl2, E4. exact Hp2.
  - rewrite (proj2 (set_head_pf_views _ _)), allocs_cons. by rewrite Hnf.
Qed.

Lemma join_prev_ok b l a f r :
  wf b (l ++ (a, f) :: r) → f_free f = false → pf_ok b (l ++ (a, f) :: r) →
  ∃ b' a' l' f' r', join_prev b a = Some (b', a') ∧ wf b' (l' ++ (a', f') :: r') ∧
    f_free f' = false ∧ pf_ok b' (l' ++ (a', f') :: r') ∧
    allocs l' ++ allocs r' = allocs l ++ allocs r.
Proof.
  intros Hw Hf Hp. pose proof (wf_chain _ _ Hw) as Hc.
  destruct (chain_mid _ _ _ _ _ _ _ Hc) as (Hcl & Hm & _ & Hcr & Hfa & _).
  unfold join_prev. rewrite Hm. cbn [mbind option_bind].
  destruct (Z.eqb_spec (f_pf f) 0) as [E0|E0]; [by eauto 12|].
  destruct l as [|[p pf] l _] using rev_ind.
  { destruct Hp as [Hp _]. done. }
  assert (f_pf f = p) as ->.
  { unfold pf_ok in Hp. rewrite pf_chain_mid in Hp. destruct Hp as [Hp _].
    rewrite pf_chain_mid in Hp. apply Hp. }
  rewrite <- app_assoc in *. cbn [app] in *.
  destruct (chain_mid _ _ _ _ _ _ _ Hc) as (_ & Hpm & _ & (-> & _) & _).
  rewrite Hpm. cbn [mbind option_bind]. destruct (f_free pf) eqn:Hpf0.
  2:{ exists b, (frag_next p pf), (l ++ [(p, pf)]), f, r. rewrite <- app_assoc. by split_and!. }
  destruct (remove_free_ok _ _ _ _ _ Hw Hpf0) as (b1 & -> & Hw1 & E1 & E2 & _ & E4 & _). cbn [mbind option_bind].
  destruct (chain_mid _ _ _ _ _ _ _ (wf_chain _ _ Hw1)) as (_ & Hp1 & _ & (_ & Ha1 & _) & _).
  rewrite Hp1. cbn [mbind option_bind].
  change (frag_next p (with_free pf false)) with (frag_next p pf) in *. rewrite Ha1. cbn [mbind option_bind].
  destruct (merge_ok _ _ _ _ _ _ _ Hw1 eq_refl Hf) as (Hsz & Hnx & Hw2 & Hl2). simpl f_size in *.
  set (f1 := with_size (with_free pf false) (u64 (f_size pf + (f_size f + FRAG_OVERHEAD)))) in *.
  set (b2 := used_plus (put_frag b1 p f1) FRAG_OVERHEAD) in *.
  change ((p, f1) :: r) with ([(p, f1)] ++ r) in Hw2. rewrite app_assoc in Hw2.
  destruct (set_pf_ok b2 (l ++ [(p, f1)]) r (frag_next p f1) p Hw2) as (nn & Hnn & Hw3 & Hpf).
  { apply chain_head with (r := r) (e := last_frag b2). rewrite <- app_assoc in Hw2. apply Hw2. }
  rewrite Hnx in *. change (frags b2) with (frags (put_frag b1 p f1)) in Hnn. rewrite Hnn.
  cbn [mbind option_bind]. rewrite <- app_assoc in Hw3. cbn [app] in Hw3.
  exists (put_frag b2 (frag_next (frag_next p pf) f) (with_pf nn p)), p, l, f1, (set_head_pf r p).
  split; [done|]. split; [exact Hw3|]. split_and!; [done| |].
  - unfold pf_ok in *. rewrite pf_chain_mid in *. destruct Hp as [Hq1 [_ Hq2]]. split; [done|].
    apply (Hpf (frag_next p pf)). rewrite Hl2, E4. exact Hq2.
  - rewrite (proj2 (set_head_pf_views _ _)), allocs_app, allocs_cons, Hpf0. by rewrite app_nil_r.
Qed.

Lemma fm_free_ok b l a f r :
  wf b (l ++ (a, f) :: r) → pf_ok b (l ++ (a, f) :: r) → f_free f = false → l ≠ [] →
  ∃ b' ps', fm_free b (a + FRAG_OVERHEAD) = Some b' ∧ wf b' ps' ∧ pf_ok b' ps' ∧
    allocs ps' = allocs l ++ allocs r.
Proof.
  intros Hw Hp Hf Hl. pose proof (wf_chain _ _ Hw) as Hc. pose proof (wf_bounds _ _ Hw) as Hb.
  destruct (chain_mid _ _ _ _ _ _ _ Hc) as (Hcl & Hm & Hs & _ & Hfa & He).
  unfold fm_free. rewrite (proj2 (Z.eqb_neq _ _)) by (unfold FRAG_OVERHEAD; lia).
  replace (a + FRAG_OVERHEAD - FRAG_OVERHEAD) with a by lia. rewrite Hm. cbn [mbind option_bind].
  assert (frag_seems_valid b f = true) as ->.
  { destruct l as [|[p pf] l _] using rev_ind; [done|].
    unfold pf_ok in Hp. rewrite pf_chain_mid in Hp. destruct Hp as [Hp _].
    rewrite pf_chain_mid in Hp. destruct Hp as [_ Hp]. simpl in Hp.
    destruct (chain_bounds _ _ _ _ p pf Hcl) as (? & H2 & _ & ?); [set_solver|].
    unfold frag_seems_valid, frag_next, FRAG_OVERHEAD in *. rewrite Hp.
    apply andb_true_iff; split; apply Z.leb_le; lia. }
  rewrite Hf. cbn [negb orb].
  destruct (join_next_ok _ _ _ _ _ Hw Hf Hp) as (b1 & f1 & r1 & -> & Hw1 & Hf1 & _ & Hp1 & Hal1 & _).
  cbn [mbind option_bind].
  destruct (join_prev_ok _ _ _ _ _ Hw1 Hf1 Hp1) as (b2 & a2 & l2 & f2 & r2 & -> & Hw2 & Hf2 & Hp2 & Hal2).
  cbn [mbind option_bind].
  destruct (insert_free_ok _ _ _ _ _ Hw2 Hf2) as (b3 & -> & Hw3 & _ & E2 & _ & E4 & _). cbn [mbind option_bind].
  do 2 eexists. split; [done|]. split; [by apply wf_fragments|]. split.
  - change (pf_ok b3 (l2 ++ (a2, with_free f2 true) :: r2)). unfold pf_ok in *. rewrite E4.
    by rewrite pf_chain_mid in *.
  - rewrite allocs_app, allocs_cons. simpl. by rewrite Hal2, Hal1.
Qed.

(** ** Theorems *)

(** Allocated fragments, headers included, do not overlap and lie in the block. *)
Definition separate (b : fm_block) (al : list (Z * Z)) : Prop :=
  (∀ x s, (x, s) ∈ al → first_frag b <= x ∧ x + FRAG_OVERHEAD + s <= last_frag b) ∧
  (∀ x s y t, (x, s) ∈ al → (y, t) ∈ al → x < y → x + FRAG_OVERHEAD + s <= y).

Lemma wf_separate b ps : wf b ps → separate b (allocs ps).
Proof.
  intros Hw. pose proof (wf_chain _ _ Hw) as Hc. split.
  - intros x s (l & f & r & -> & _ & <-)%allocs_elem.
    apply chain_mid in Hc as (_ & _ & _ & _ & ? & ?). done.
  - intros x s y t (l & f & r & -> & _ & <-)%allocs_elem Hy Hxy.
    apply chain_mid in Hc as (Hl & _ & _ & Hr & _ & _).
    assert ((∃ g, (y, g) ∈ l) ∨ y = x ∨ ∃ g, (y, g) ∈ r) as [[g Hg]|[->|[g Hg]]].
    { apply allocs_elem in Hy as (l' & g & r' & E & _).
      assert ((y, g) ∈ l ++ (x, f) :: r) as Hin by (rewrite E; set_solver).
      rewrite elem_of_app, elem_of_cons in Hin. naive_solver. }
    + destruct (chain_bounds _ _ _ _ _ _ Hl Hg) as (_ & H & _ & ?). unfold frag_next, FRAG_OVERHEAD in H. lia.
    + lia.
    + destruct (chain_bounds _ _ _ _ _ _ Hr Hg) as (H & _). exact H.
Qed.

(** A block is valid with the given allocated fragments. *)
Definition valid (b : fm_block) (al : list (Z * Z)) : Prop := ∃ ps, wf b ps ∧ allocs ps = al.
Definition valid_pf (b : fm_block) (al : list (Z * Z)) : Prop :=
  ∃ ps, wf b ps ∧ pf_ok b ps ∧ allocs ps = al.

(** The initial block is valid and has nothing allocated. *)
Lemma fm_malloc_init_valid address size b :
  0 < address → 0 <= size → address + size <= 2 ^ 64 - 8 →
  fm_malloc_init address size = Some b → valid_pf b [].
Proof.
  intros Ha Hs Hb. unfold fm_malloc_init.
  destruct (roundup_spec address ltac:(lia)) as [Hr _].
  destruct (Z.ltb_spec size (ROUNDUP address - address)) as [|H1]; [done|].
  destruct (Z.ltb_spec (size - (ROUNDUP address - address)) (MIN_FRAG_SIZE + FRAG_OVERHEAD)) as [|H2]; [done|].
  set (sz := ROUNDDOWN (size - (ROUNDUP address - address))).
  assert (0 <= sz <= size - (ROUNDUP address - address)) as Hsz.
  { apply rounddown_spec. lia. }
  change (ROUNDUP FM_BLOCK_SIZE) with 33648. unfold FRAG_OVERHEAD in *. change (33648 + 2 * 56) with 33760.
  destruct (Z.ltb_spec sz 33760) as [|H3]; [done|].
  set (start := ROUNDUP address) in *. intros E.
  match type of E with fm_insert_free ?B _ = _ => set (b0 := B) in * end.
  assert (wf b0 [(start + 33648, Frag (sz - 33760) false 0)]) as Hw.
  { split; simpl.
    - rewrite lookup_insert_eq. unfold frag_next, FRAG_OVERHEAD. simpl. split_and!; [done..|lia|lia].
    - rewrite lookup_insert_ne by lia. rewrite lookup_singleton_eq. by eexists.
    - lia.
    - intros h. split_and!; [constructor|done|]. intros a. split; [by intros ?%elem_of_nil|].
      by intros (s & ?%elem_of_nil & _).
    - rewrite wrap_small; unfold FRAG_OVERHEAD; simpl; lia.
    - rewrite wrap_small; simpl; lia. }
  destruct (insert_free_ok b0 [] _ _ [] Hw eq_refl) as (b' & E' & Hw' & _ & E2 & _ & E4 & _).
  simpl f_size in *. rewrite E in E'. injection E' as <-. eexists. split_and!; [exact Hw'| |done].
  unfold pf_ok. rewrite E4. simpl. unfold lpf; simpl. rewrite lookup_insert_ne by lia.
  by rewrite lookup_singleton_eq.
Qed.

(** C16. Allocation: on any valid block, [fm_malloc] ends without a fault in a valid
    block; it returns null and changes no allocated fragment, or returns one more
    fragment with room for [size] bytes while every other one keeps its address and
    size.  Allocated fragments never overlap, and [used] is exactly their total. *)
Theorem fm_malloc_correct b al size :
  valid b al → 0 <= size <= 2 ^ 64 - 8 →
  ∃ b' al' p, fm_malloc b size = Some (b', p) ∧ valid b' al' ∧ separate b' al' ∧
    b_used b' = u64 (total al') ∧
    (p = 0 ∧ al' = al ∨ one_more al al' (p - FRAG_OVERHEAD) size).
Proof.
  intros (ps & Hw & <-) Hs. destruct (fm_malloc_ok b ps size Hw Hs) as (b' & ps' & p & E & Hw' & Hp & _).
  exists b', (allocs ps'), p. split_and!; [done|by exists ps'|by apply wf_separate|apply Hw'|done].
Qed.

(** C17. Release: on a valid block whose back pointers are right, [fm_free] of any
    allocated fragment but the first one of the block ends without a fault in a valid
    block, again with right back pointers, where that fragment alone is gone;
    [used] decreases by its size. *)
Theorem fm_free_correct b al1 a s al2 :
  valid_pf b (al1 ++ (a, s) :: al2) → a ≠ first_frag b →
  ∃ b', fm_free b (a + FRAG_OVERHEAD) = Some b' ∧ valid_pf b' (al1 ++ al2) ∧
    b_used b' = u64 (b_used b - s).
Proof.
  intros (ps & Hw & Hp & Hal) Ha.
  assert (∃ l f r, ps = l ++ (a, f) :: r ∧ f_free f = false ∧ f_size f = s ∧ allocs l = al1 ∧ allocs r = al2)
    as (l & f & r & -> & Hf & Hfs & <- & <-).
  { clear Hw Hp Ha. revert al1 Hal. induction ps as [|[x g] ps IH]; intros al1 Hal.
    { by destruct al1. }
    rewrite allocs_cons in Hal. destruct (f_free g) eqn:Hg.
    - destruct (IH _ Hal) as (l & f & r & -> & ? & ? & ? & ?).
      exists ((x, g) :: l), f, r. rewrite allocs_cons, Hg. by split_and!.
    - destruct al1 as [|e al1].
      + injection Hal as -> Hg2 <-. exists [], g, ps. by split_and!.
      + injection Hal as <- Hal. destruct (IH _ Hal) as (l & f & r & -> & ? & ? & <- & ?).
        exists ((x, g) :: l), f, r. rewrite allocs_cons, Hg. by split_and!. }
  destruct (fm_free_ok b l a f r) as (b' & ps' & E & Hw' & Hp' & Hal'); [done..| |].
  { intros ->. pose proof (wf_chain _ _ Hw) as [Hx _]. done. }
  exists b'. split_and!; [done|by exists ps'|].
  rewrite (wf_used _ _ Hw'), (wf_used _ _ Hw), Hal', allocs_app, allocs_cons, Hf, !total_app.
  simpl. rewrite <- Z.add_opp_r, wrap_wrap_add by lia. f_equal. lia.
Qed.

(** The first fragment of a block cannot be released: its back pointer is null,
    so that [check_double_free] takes it for a dangling pointer and aborts. *)
Theorem fm_free_first_aborts b s al :
  valid_pf b ((first_frag b, s) :: al) → fm_free b (first_frag b + FRAG_OVERHEAD) = None.
Proof.
  intros (ps & Hw & Hp & Hal). pose proof (wf_bounds _ _ Hw) as [Hb _].
  assert (∃ l f r, ps = l ++ (first_frag b, f) :: r) as (l & f & r & ->).
  { destruct (allocs_elem ps (first_frag b) s) as (l & f & r & -> & _); [rewrite Hal; by left|eauto]. }
  pose proof (wf_chain _ _ Hw) as Hc. destruct (chain_mid _ _ _ _ _ _ _ Hc) as (Hl & Hm & _).
  assert (l = []) as ->.
  { destruct l as [|[x g] l]; [done|]. destruct Hl as (_ & _ & Hg & Hl%chain_le).
    unfold frag_next, FRAG_OVERHEAD in Hl. lia. }
  unfold fm_free. rewrite (proj2 (Z.eqb_neq _ _)) by (unfold FRAG_OVERHEAD; lia).
  replace (first_frag b + FRAG_OVERHEAD - FRAG_OVERHEAD) with (first_frag b) by lia.
  rewrite Hm. cbn [mbind option_bind]. destruct Hp as [Hpf _].
  unfold frag_seems_valid. rewrite Hpf, (proj2 (Z.leb_gt _ _)) by lia. done.
Qed.

(** ** Reallocation in place *)

Lemma fm_split_in_place b l a f r size :
  wf b (l ++ (a, f) :: r) → f_free f = false → 0 <= size <= f_size f →
  ∃ b' ps', fm_split_frag b a size = Some b' ∧ wf b' ps' ∧
    (pf_ok b (l ++ (a, f) :: r) → pf_ok b' ps') ∧
    ∃ s, size <= s ∧ allocs ps' = allocs l ++ (a, s) :: allocs r.
Proof.
  intros Hw Hf Hs. destruct (split_ok b l a f r size Hw Hf Hs) as (b' & E & Hw' & Hp & _).
  destruct (split_tail_allocs a size f r Hf ltac:(lia)) as (s & Hss & Hal).
  exists b', (l ++ split_tail a size f r). split_and!; [done..|]. exists s. by rewrite allocs_app, Hal.
Qed.

(** Growing into the next fragment. *)
Lemma absorb_next b l a f n nf r :
  wf b (l ++ (a, f) :: (n, nf) :: r) → f_free f = false → f_free nf = true →
  pf_ok b (l ++ (a, f) :: (n, nf) :: r) →
  let f1 := with_size f (u64 (f_size f + (f_size nf + FRAG_OVERHEAD))) in
  ∃ b1 nn, fm_remove_free b n = Some b1 ∧
    frags (put_frag b1 a f1) !! frag_next a f1 = Some nn ∧
    let b2 := used_plus (put_frag (put_frag b1 a f1) (frag_next a f1) (with_pf nn a)) FRAG_OVERHEAD in
    let ps2 := l ++ (a, f1) :: set_head_pf r a in
    wf b2 ps2 ∧ pf_ok b2 ps2 ∧ f_size f1 = f_size f + f_size nf + FRAG_OVERHEAD.
Proof.
  intros Hw Hf Hnf Hp f1.
  change ((a, f) :: (n, nf) :: r) with ([(a, f)] ++ (n, nf) :: r) in Hw. rewrite app_assoc in Hw.
  destruct (remove_free_ok _ _ _ _ _ Hw Hnf) as (b1 & -> & Hw1 & E1 & E2 & _ & E4 & _).
  rewrite <- app_assoc in Hw1. cbn [app] in Hw1.
  destruct (merge_ok _ _ _ _ _ _ _ Hw1 Hf eq_refl) as (Hsz & Hnx & Hw2 & Hl2).
  change (with_size f (u64 (f_size f + (f_size (with_free nf false) + FRAG_OVERHEAD)))) with f1 in *.
  change ((a, f1) :: r) with ([(a, f1)] ++ r) in Hw2. rewrite app_assoc in Hw2.
  destruct (set_pf_ok _ (l ++ [(a, f1)]) r (frag_next a f1) a Hw2) as (nn & Hnn & Hw3 & Hpf).
  { eapply chain_head. rewrite <- app_assoc in Hw2. apply Hw2. }
  exists b1, nn. split; [done|]. split; [exact Hnn|]. rewrite <- app_assoc in Hw3. cbn [app] in Hw3.
  split; [exact Hw3|]. split; [|exact Hsz]. unfold pf_ok in *. rewrite pf_chain_mid in *.
  destruct Hp as [Hp1 [_ Hp2]]. split; [done|]. apply (Hpf n). rewrite Hl2, E4. exact Hp2.
Qed.

(** Reallocation in place: when the fragment is large enough for [size] bytes, or
    the next one is free and together they are, [fm_realloc] returns the same pointer
    without copying, in a valid block where only the size of that fragment changed, to
    at least [size]. *)
Theorem fm_realloc_in_place b l a f r size :
  wf b (l ++ (a, f) :: r) → pf_ok b (l ++ (a, f) :: r) → f_free f = false →
  0 < size <= 2 ^ 64 - 8 →
  ROUNDUP size <= f_size f ∨
    (∃ n nf r', r = (n, nf) :: r' ∧ f_free nf = true ∧
       ROUNDUP size <= f_size f + f_size nf + FRAG_OVERHEAD) →
  ∃ b' s, fm_realloc b (a + FRAG_OVERHEAD) size = Some (b', a + FRAG_OVERHEAD, None) ∧
    size <= s ∧ valid_pf b' (allocs l ++ (a, s) :: allocs r).
Proof.
  intros Hw Hp Hf Hs Hfit. pose proof (wf_chain _ _ Hw) as Hc. pose proof (wf_bounds _ _ Hw) as Hb.
  destruct (chain_mid _ _ _ _ _ _ _ Hc) as (_ & Hm & Hs0 & Hcr & Ha & _).
  destruct (roundup_spec size ltac:(lia)) as [Hr _]. unfold fm_realloc.
  rewrite (proj2 (Z.eqb_neq size 0)) by lia.
  rewrite (proj2 (Z.eqb_neq (a + FRAG_OVERHEAD) 0)) by (unfold FRAG_OVERHEAD; lia).
  replace (a + FRAG_OVERHEAD - FRAG_OVERHEAD) with a by lia. rewrite Hm. cbn [mbind option_bind].
  destruct (Z.ltb_spec (ROUNDUP size) (f_size f)) as [Hlt|Hge].
  { destruct (fm_split_in_place b l a f r (ROUNDUP size) Hw Hf ltac:(lia))
      as (b' & ps' & -> & Hw' & Hp' & s & Hss & Hal). cbn [mbind option_bind].
    exists (note_max b'), s. split; [done|]. split; [lia|]. exists ps'. split_and!; [by apply wf_fragments|by apply Hp'|done]. }
  destruct (Z.ltb_spec (f_size f) (ROUNDUP size)) as [Hlt|Hle].
  2:{ exists (note_max b), (f_size f). split; [done|]. split; [lia|]. exists (l ++ (a, f) :: r).
      split_and!; [by apply wf_fragments|done|]. by rewrite allocs_app, allocs_cons, Hf. }
  destruct Hfit as [?|(n & nf & r' & -> & Hnf & Hfit)]; [lia|].
  rewrite (wf_next_free _ _ _ _ _ Hw). cbn [mbind option_bind]. destruct Hcr as (-> & Hmn & _).
  rewrite Hmn. cbn [mbind option_bind]. rewrite Hnf, (proj2 (Z.leb_le _ _)) by lia. cbn [andb].
  destruct (absorb_next b l a f _ nf r' Hw Hf Hnf Hp) as (b1 & nn & -> & Hnn & Hw2 & Hp2 & Hsz).
  cbn [mbind option_bind]. rewrite Hnn. cbn [mbind option_bind].
  set (f1 := with_size f (u64 (f_size f + (f_size nf + FRAG_OVERHEAD)))) in *.
  assert (allocs ((frag_next a f, nf) :: r') = allocs (set_head_pf r' a)) as Hal'
    by (rewrite (proj2 (set_head_pf_views _ _)), allocs_cons; by rewrite Hnf).
  destruct (Z.ltb_spec (ROUNDUP size) (f_size f1)) as [Hlt2|Hge2].
  - destruct (fm_split_in_place _ l a f1 (set_head_pf r' a) (ROUNDUP size) Hw2 Hf ltac:(lia))
      as (b' & ps' & -> & Hw' & Hp' & s & Hss & Hal). cbn [mbind option_bind].
    exists (note_max b'), s. split; [done|]. split; [lia|]. exists ps'.
    split_and!; [by apply wf_fragments|by apply Hp'|]. by rewrite Hal', Hal.
  - cbn [mbind option_bind]. eexists (note_max _), (f_size f1). split; [done|]. split; [lia|].
    exists (l ++ (a, f1) :: set_head_pf r' a). split_and!; [by apply wf_fragments|exact Hp2|].
    rewrite allocs_app, allocs_cons, Hal'. by change (f_free f1) with (f_free f); rewrite Hf.
Qed.

(** ** The back pointer the defragmentation forgets *)

(** Four allocations, the release of the third one, a shrinking reallocation of the
    second one (which leaves two adjacent free fragments), and an allocation that
    only fits in both together: the block, its pointer and the fourth pointer. *)
Definition defrag_run : option (fm_block * Z * Z) :=
  b ← fm_malloc_init 8000 36000;
  '(b, _) ← fm_malloc b 96;
  '(b, p2) ← fm_malloc b 1000;
  '(b, p3) ← fm_malloc b 504;
  '(b, p4) ← fm_malloc b 304;
  b ← fm_free b p3;
  '(b, _, _) ← fm_realloc b p2 200;
  '(b, d) ← fm_malloc b 1200;
  Some (b, d, p4).

(** The defragmentation of [fm_malloc] does not set the back pointer of the
    fragment after the one it builds: in this run the back pointer of the fourth
    fragment points into the payload of the new one.  Whatever its owner writes there is
    then read as a header by [fm_free] of the fourth pointer; with data that look like
    a free fragment, the freed memory is joined with a part of the allocated fragment,
    and the next allocation returns a pointer inside it. *)
Theorem defrag_stale_back_pointer :
  ∃ b d p4 f4, defrag_run = Some (b, d, p4) ∧ frags b !! (p4 - FRAG_OVERHEAD) = Some f4 ∧
    fm_frag_size b d = Some 1304 ∧ d < f_pf f4 < d + 1304 ∧
    ∀ w, ∃ b1 b2 q, fm_free (put_frag b (f_pf f4) (Frag 504 true w)) p4 = Some b1 ∧
      fm_malloc b1 1000 = Some (b2, q) ∧ fm_frag_size b2 d = Some 1304 ∧ d < q < d + 1304.
Proof.
  do 4 eexists. split; [vm_compute; reflexivity|]. split; [vm_compute; reflexivity|].
  split; [vm_compute; reflexivity|]. split; [vm_compute; by split|]. intros w.
  do 3 eexists. split; [vm_compute; reflexivity|]. split; [vm_compute; reflexivity|].
  split; [vm_compute; reflexivity|]. vm_compute. by split.
Qed.

(** ** The hypotheses hold on concrete blocks *)

Definition new_block : fm_block :=
  default (Block 0 0 0 0 0 0 0 ∅ (λ _, []) (λ _, 0)) (fm_malloc_init 8000 36000).

Lemma new_block_valid : valid_pf new_block [].
Proof.
  apply (fm_malloc_init_valid 8000 36000); [lia|lia|lia|]. vm_compute. reflexivity.
Defined.

(** Two allocated fragments and no free one. *)
Definition full_frags : list (Z * fm_frag) :=
  [(1000, Frag 64 false 0); (1120, Frag 400 false 1000)].
Definition full_block : fm_block :=
  Block 34320 464 34320 34320 2 1000 1576
    (<[1000 := Frag 64 false 0]> (<[1120 := Frag 400 false 1000]> {[1576 := Frag 0 false 1120]}))
    (λ _, []) (λ _, 0).

Lemma full_block_wf : wf full_block full_frags ∧ pf_ok full_block full_frags.
Proof.
  split; [split|].
  - by vm_compute.
  - by eexists.
  - by vm_compute.
  - intros h. split_and!; [constructor|done|]. intros a. split; [by intros ?%elem_of_nil|].
    by intros (s & ?%elem_of_nil & _).
  - done.
  - done.
  - by vm_compute.
Defined.

Lemma fm_malloc_witness :
  ∃ b' al' p, fm_malloc new_block 100 = Some (b', p) ∧ valid b' al' ∧ separate b' al' ∧
    b_used b' = u64 (total al') ∧
    (p = 0 ∧ al' = [] ∨ one_more [] al' (p - FRAG_OVERHEAD) 100).
Proof.
  refine (fm_malloc_correct new_block [] 100 _ _); [|lia].
  destruct new_block_valid as (ps & Hw & _ & Hal). by exists ps.
Defined.

Lemma fm_free_witness :
  ∃ b', fm_free full_block (1120 + FRAG_OVERHEAD) = Some b' ∧ valid_pf b' [(1000, 64)] ∧
    b_used b' = u64 (b_used full_block - 400).
Proof.
  refine (fm_free_correct full_block [(1000, 64)] 1120 400 [] _ _); [|done].
  exists full_frags. split; [apply full_block_wf|]. split; [apply full_block_wf|done].
Defined.

Lemma fm_free_first_witness : fm_free full_block (1000 + FRAG_OVERHEAD) = None.
Proof.
  refine (fm_free_first_aborts full_block 64 [(1120, 400)] _).
  exists full_frags. split; [apply full_block_wf|]. split; [apply full_block_wf|done].
Defined.

Lemma fm_realloc_witness :
  ∃ b' s, fm_realloc full_block (1120 + FRAG_OVERHEAD) 200 = Some (b', 1120 + FRAG_OVERHEAD, None) ∧
    200 <= s ∧ valid_pf b' [(1000, 64); (1120, s)].
Proof.
  refine (fm_realloc_in_place full_block [(1000, Frag 64 false 0)] 1120 (Frag 400 false 1000) [] 200 _ _ _ _ _).
  - apply full_block_wf.
  - apply full_block_wf.
  - done.
  - lia.
  - left. by vm_compute.
Defined.
