(* ===== verification/DlgTimer.v ===== *)
(** * DlgTimer: the dialog timers (modules/dialog/dlg_timer.c)

    The circular doubly linked list of [struct dlg_tl] behind the dialog
    timeout timer and the delete timer, and the two ping lists.

    A heap maps the addresses of list nodes to their contents; the sentinel
    [timer->first] is a node like the others.  0 is [NULL], -1 is
    [FAKE_DIALOG_TL]; neither is the address of a node.  An access to an address
    without a node is [None].  The code runs each operation under the lock of its
    timer, so an operation is one step. *)

From stdpp Require Import prelude list gmap.
From Stdlib Require Import ZArith Lia.
From S2P Require Import Prelude.

(** ** struct dlg_tl and memory accesses *)

Record dlg_tl := Tl { tl_next : Z; tl_prev : Z; tl_timeout : Z }.
Abbreviation heap := (gmap Z dlg_tl).

Definition NULL : Z := 0.
Definition FAKE_DIALOG_TL : Z := -1.

Definition set_next (h : heap) (a x : Z) : option heap :=
  n ← h !! a; Some (<[a := Tl x (tl_prev n) (tl_timeout n)]> h).
Definition set_prev (h : heap) (a x : Z) : option heap :=
  n ← h !! a; Some (<[a := Tl (tl_next n) x (tl_timeout n)]> h).
Definition set_timeout (h : heap) (a x : Z) : option heap :=
  n ← h !! a; Some (<[a := Tl (tl_next n) (tl_prev n) x]> h).

(** [_init_gen_dlg_timer]: the sentinel points to itself; [None] when one of the
    allocations fails.  The other nodes are zeroed by their owners. *)
Definition init_gen_dlg_timer (h : heap) (first : Z) (shm_ok lock_ok init_ok : bool)
    : option heap :=
  if shm_ok && lock_ok && init_ok then Some (<[first := Tl first first 0]> h) else None.

(** ** Insertion and removal *)

(** [for (ptr = first.prev; ptr != &first; ptr = ptr->prev) if (ptr->timeout <=
    tl->timeout) break;] *)
Fixpoint insert_scan (fuel : nat) (h : heap) (first timeout ptr : Z) : option Z :=
  match fuel with
  | O => None
  | S k =>
      if ptr =? first then Some ptr
      else
        n ← h !! ptr;
        if tl_timeout n <=? timeout then Some ptr
        else insert_scan k h first timeout (tl_prev n)
  end.

Definition insert_gen_timer_unsafe (h : heap) (first tl : Z) : option heap :=
  f ← h !! first;
  t ← h !! tl;
  ptr ← insert_scan (S (size h)) h first (tl_timeout t) (tl_prev f);
  h ← set_prev h tl ptr;
  p ← h !! ptr;
  h ← set_next h tl (tl_next p);
  t ← h !! tl;
  h ← set_next h (tl_prev t) tl;
  t ← h !! tl;
  set_prev h (tl_next t) tl.

(** [remove_dlg_timer_unsafe] *)
Definition remove_dlg_timer_unsafe (h : heap) (tl : Z) : option heap :=
  t ← h !! tl;
  h ← set_next h (tl_prev t) (tl_next t);
  t ← h !! tl;
  set_prev h (tl_next t) (tl_prev t).

(** ** The operations of the dialog timer

    Each returns the heap and the return code; [ticks] is [get_ticks()]. *)

Definition insert_dlg_timer (h : heap) (first tl ticks interval : Z) : option (heap * Z) :=
  t ← h !! tl;
  if negb (tl_next t =? NULL) || negb (tl_prev t =? NULL) then Some (h, -1)
  else
    h ← set_timeout h tl (u32 (ticks + interval));
    h ← insert_gen_timer_unsafe h first tl;
    Some (h, 0).

Definition insert_attempt_dlg_del_timer (h : heap) (first tl ticks interval : Z)
    : option (heap * Z) :=
  t ← h !! tl;
  if tl_prev t =? NULL then
    if negb (tl_next t =? NULL) then Some (h, -2)
    else
      h ← set_timeout h tl (u32 (ticks + interval));
      h ← insert_gen_timer_unsafe h first tl;
      Some (h, 0)
  else Some (h, -1).

Definition remove_dlg_timer (h : heap) (tl : Z) : option (heap * Z) :=
  t ← h !! tl;
  if (tl_prev t =? NULL) && (tl_timeout t =? 0) then Some (h, 1)
  else if (tl_prev t =? NULL) || (tl_next t =? NULL) || (tl_next t =? FAKE_DIALOG_TL)
  then Some (h, -1)
  else
    h ← remove_dlg_timer_unsafe h tl;
    h ← set_next h tl FAKE_DIALOG_TL;
    h ← set_prev h tl NULL;
    h ← set_timeout h tl 0;
    Some (h, 0).

Definition update_dlg_timer (h : heap) (first tl ticks timeout : Z) : option (heap * Z) :=
  t ← h !! tl;
  if tl_next t =? FAKE_DIALOG_TL then Some (h, 0)
  else if negb (tl_next t =? NULL) && (tl_prev t =? NULL) then Some (h, -1)
  else
    '(h, ret) ← (if negb (tl_next t =? NULL)
                 then h ← remove_dlg_timer_unsafe h tl; Some (h, 0)
                 else Some (h, 1));
    h ← set_timeout h tl (u32 (ticks + timeout));
    h ← insert_gen_timer_unsafe h first tl;
    Some (h, ret).

(** ** Expiration *)

(** [while (tl != end && tl->timeout <= time) { tl->prev = 0; tl->timeout = 0;
    tl = tl->next; }] *)
Fixpoint expire_scan (fuel : nat) (h : heap) (endp time tl : Z) : option (heap * Z) :=
  match fuel with
  | O => None
  | S k =>
      if tl =? endp then Some (h, tl)
      else
        t ← h !! tl;
        if tl_timeout t <=? time then
          h ← set_prev h tl NULL;
          h ← set_timeout h tl 0;
          t ← h !! tl;
          expire_scan k h endp time (tl_next t)
        else Some (h, tl)
  end.

(** [_get_gen_expired_dlgs]: the heap and the head of the detached list. *)
Definition get_gen_expired_dlgs (h : heap) (first time : Z) : option (heap * Z) :=
  f ← h !! first;
  n ← h !! tl_next f;
  if (tl_next f =? first) || (time <? tl_timeout n) then Some (h, FAKE_DIALOG_TL)
  else
    '(h, tl) ← expire_scan (S (size h)) h first time (tl_next f);
    f ← h !! first;
    n ← h !! tl_next f;
    if (tl =? first) && negb (tl_prev n =? NULL) then Some (h, FAKE_DIALOG_TL)
    else
      let ret := tl_next f in
      t ← h !! tl;
      h ← set_next h (tl_prev t) FAKE_DIALOG_TL;
      h ← set_next h first tl;
      h ← set_prev h tl first;
      Some (h, ret).

(** The two timers of the module: [d_timer] and [ddel_timer], in separate heaps
    (the members [tl] and [del_tl] of a dialog). *)
Record timers := Timers { d_heap : heap; ddel_heap : heap }.

(** One [while (tl != FAKE_DIALOG_TL)] loop of [dlg_timer_routine] on the timer
    selected by [get]/[put], with the handler [hdl]; the result lists the nodes
    handed to it. *)
Fixpoint run_expired (get : timers → heap) (put : timers → heap → timers)
    (hdl : timers → Z → option timers) (fuel : nat) (s : timers) (tl : Z)
    : option (timers * list Z) :=
  match fuel with
  | O => None
  | S k =>
      if tl =? FAKE_DIALOG_TL then Some (s, [])
      else
        t ← get s !! tl;
        h ← set_next (get s) tl FAKE_DIALOG_TL;
        s ← hdl (put s h) tl;
        '(s, calls) ← run_expired get put hdl k s (tl_next t);
        Some (s, tl :: calls)
  end.

Definition put_d (s : timers) (h : heap) : timers := Timers h (ddel_heap s).
Definition put_ddel (s : timers) (h : heap) : timers := Timers (d_heap s) h.

(** [dlg_timer_routine]: the nodes handed to [timer_hdl] and to [del_timer_hdl]. *)
Definition dlg_timer_routine (timer_hdl del_timer_hdl : timers → Z → option timers)
    (first del_first dlg_del_delay : Z) (s : timers) (ticks : Z)
    : option (timers * list Z * list Z) :=
  '(h, tl) ← get_gen_expired_dlgs (d_heap s) first ticks;
  '(s, c1) ← run_expired d_heap put_d timer_hdl (S (size h)) (put_d s h) tl;
  if dlg_del_delay =? 0 then Some (s, c1, [])
  else
    '(h, tl) ← get_gen_expired_dlgs (ddel_heap s) del_first ticks;
    '(s, c2) ← run_expired ddel_heap put_ddel del_timer_hdl (S (size h)) (put_ddel s h) tl;
    Some (s, c1, c2).
