(* ===== verification/DlgTimerFacts.v ===== *)
(** * DlgTimerFacts: the timer list as a sorted sequence

    The circular list in the heap as the sequence of its nodes, the effect of the
    pointer operations on it, and the well-formedness invariant of a timer. *)

From stdpp Require Import prelude list sorting gmap.
From Stdlib Require Import ZArith Lia.
From S2P Require Import Prelude DlgTimer.

(** ** Field views of a heap *)

Definition hnext (h : heap) (a : Z) : option Z := tl_next <$> h !! a.
Definition hprev (h : heap) (a : Z) : option Z := tl_prev <$> h !! a.
Definition htime (h : heap) (a : Z) : option Z := tl_timeout <$> h !! a.

Lemma lookup_fields h a n :
  h !! a = Some n ↔
  hnext h a = Some (tl_next n) ∧ hprev h a = Some (tl_prev n) ∧ htime h a = Some (tl_timeout n).
Proof.
  unfold hnext, hprev, htime. destruct (h !! a) as [[]|]; simpl; destruct n; split.
  - by intros [= -> -> ->].
  - by intros ([= ->] & [= ->] & [= ->]).
  - done.
  - by intros (? & _).
Qed.

(** [h'] is [h] with the fields of the views replaced. *)
Record effect (h h' : heap) (fn fp ft : Z → option Z) : Prop := {
  eff_next a : hnext h' a = fn a;
  eff_prev a : hprev h' a = fp a;
  eff_time a : htime h' a = ft a;
  eff_dom : dom h' = dom h;
  eff_size : size h' = size h;
}.

Definition upd (f : Z → option Z) (a x : Z) : Z → option Z := λ y, if decide (y = a) then Some x else f y.

Lemma upd_eq f a x : upd f a x a = Some x.
Proof. unfold upd. by rewrite decide_True. Qed.
Lemma upd_ne f a x y : y ≠ a → upd f a x y = f y.
Proof. intros. unfold upd. by rewrite decide_False. Qed.

Section effects.
Context (h0 : heap).

Lemma effect_refl : effect h0 h0 (hnext h0) (hprev h0) (htime h0).
Proof. by constructor. Qed.

Lemma insert_effect h fn fp ft a n' (He : effect h0 h fn fp ft) (Ha : is_Some (h !! a)) :
  effect h0 (<[a := n']> h) (upd fn a (tl_next n')) (upd fp a (tl_prev n')) (upd ft a (tl_timeout n')).
Proof.
  destruct He as [En Ep Et Ed Es].
  constructor.
  1-3: intros b; unfold upd; rewrite <- ?En, <- ?Ep, <- ?Et; unfold hnext, hprev, htime;
    destruct (decide (b = a)) as [->|];
    [by rewrite lookup_insert_eq|by rewrite lookup_insert_ne by done].
  - rewrite dom_insert_lookup_L by done. done.
  - rewrite <- Es. by rewrite map_size_insert_Some.
Qed.

Lemma effect_ext h fn fp ft fn' fp' ft' :
  effect h0 h fn fp ft → (∀ a, fn a = fn' a) → (∀ a, fp a = fp' a) → (∀ a, ft a = ft' a) →
  effect h0 h fn' fp' ft'.
Proof. intros [] ???. constructor; congruence. Qed.

Lemma upd_same (f : Z → option Z) a x b : f a = Some x → upd f a x b = f b.
Proof. intros E. unfold upd. case_decide; by subst. Qed.

Lemma effect_lookup h fn fp ft a :
  effect h0 h fn fp ft → is_Some (h0 !! a) →
  ∃ x y z, h !! a = Some (Tl x y z) ∧ fn a = Some x ∧ fp a = Some y ∧ ft a = Some z.
Proof.
  intros [En Ep Et Ed _] Ha.
  apply elem_of_dom in Ha. rewrite <- Ed in Ha. apply elem_of_dom in Ha as [[x y z] Ha].
  exists x, y, z. split; [done|]. rewrite <- En, <- Ep, <- Et. by apply lookup_fields in Ha.
Qed.

Lemma set_next_effect h fn fp ft a x :
  effect h0 h fn fp ft → is_Some (h0 !! a) →
  ∃ h', set_next h a x = Some h' ∧ effect h0 h' (upd fn a x) fp ft.
Proof.
  intros He Ha. destruct (effect_lookup _ _ _ _ _ He Ha) as (n & p & t & E & ? & ? & ?).
  unfold set_next. rewrite E. simpl. eexists; split; [done|].
  eapply effect_ext; [by apply insert_effect|..]; intros b; simpl; [done|by apply upd_same..].
Qed.

Lemma set_prev_effect h fn fp ft a x :
  effect h0 h fn fp ft → is_Some (h0 !! a) →
  ∃ h', set_prev h a x = Some h' ∧ effect h0 h' fn (upd fp a x) ft.
Proof.
  intros He Ha. destruct (effect_lookup _ _ _ _ _ He Ha) as (n & p & t & E & ? & ? & ?).
  unfold set_prev. rewrite E. simpl. eexists; split; [done|].
  eapply effect_ext; [by apply insert_effect|..]; intros b; simpl; first [done|by apply upd_same].
Qed.

Lemma set_timeout_effect h fn fp ft a x :
  effect h0 h fn fp ft → is_Some (h0 !! a) →
  ∃ h', set_timeout h a x = Some h' ∧ effect h0 h' fn fp (upd ft a x).
Proof.
  intros He Ha. destruct (effect_lookup _ _ _ _ _ He Ha) as (n & p & t & E & ? & ? & ?).
  unfold set_timeout. rewrite E. simpl. eexists; split; [done|].
  eapply effect_ext; [by apply insert_effect|..]; intros b; simpl; first [done|by apply upd_same].
Qed.
End effects.

(** ** Segments of the list *)

(** From [a], through the nodes [l], to [b], linked both ways. *)
Fixpoint seg (h : heap) (a : Z) (l : list Z) (b : Z) : Prop :=
  match l with
  | [] => hnext h a = Some b ∧ hprev h b = Some a
  | x :: l' => hnext h a = Some x ∧ hprev h x = Some a ∧ seg h x l' b
  end.

(** The first node after, and the last node before, a position. *)
Definition after_or (l : list Z) (b : Z) : Z := default b (head l).
Definition before_or (a : Z) (l : list Z) : Z := default a (last l).

Lemma before_or_cons a x l : before_or a (x :: l) = before_or x l.
Proof. unfold before_or. rewrite last_cons. by destruct (last l). Qed.

Lemma before_or_elem a l : before_or a l ∈ a :: l.
Proof.
  unfold before_or. destruct (last l) as [x|] eqn:E; [|by left].
  right. apply last_Some in E as [l' ->]. set_solver.
Qed.

Lemma after_or_elem l b : after_or l b ∈ l ++ [b].
Proof. unfold after_or. destruct l; simpl; set_solver. Qed.

Lemma seg_app h a l1 x l2 b : seg h a (l1 ++ x :: l2) b ↔ seg h a l1 x ∧ seg h x l2 b.
Proof.
  revert a. induction l1 as [|y l1 IH]; intros a; simpl; [tauto|]. rewrite IH. tauto.
Qed.

Lemma seg_ext h h' a l b :
  (∀ y, y ∈ a :: l → hnext h' y = hnext h y) →
  (∀ y, y ∈ l ++ [b] → hprev h' y = hprev h y) →
  seg h a l b → seg h' a l b.
Proof.
  revert a. induction l as [|x l IH]; intros a Hn Hp; simpl.
  - intros [??]. rewrite Hn, Hp by set_solver. done.
  - intros (? & ? & ?). rewrite Hn, Hp by set_solver. split_and!; [done..|].
    apply IH; [..|done]; intros; [apply Hn|apply Hp]; set_solver.
Qed.

(** Linking the node [x] between the two halves of a segment. *)
Lemma seg_link h h' l1 x l2 b : ∀ a,
  let p := before_or a l1 in
  let n := after_or l2 b in
  seg h a (l1 ++ l2) b → NoDup (a :: l1 ++ l2) → NoDup (l1 ++ l2 ++ [b]) →
  x ∉ a :: l1 ++ l2 → x ≠ b →
  (∀ y, hnext h' y = upd (upd (hnext h) p x) x n y) →
  (∀ y, hprev h' y = upd (upd (hprev h) x p) n x y) →
  seg h' a (l1 ++ x :: l2) b.
Proof.
  induction l1 as [|z l1 IH]; intros a p n Hs Ha Hb Hx Hxb Hn Hp; simpl in *.
  - subst p n. unfold before_or, after_or in *; simpl in *.
    rewrite Hn, Hp, upd_ne, upd_eq by set_solver.
    destruct l2 as [|y l2]; simpl in *.
    + rewrite Hn, Hp, upd_eq. rewrite upd_ne, !upd_eq by done. done.
    + rewrite Hn, Hp, upd_eq. rewrite (upd_ne _ _ _ x), !upd_eq by set_solver.
      destruct Hs as (_ & _ & Hs). split_and!; [done..|].
      apply NoDup_cons in Ha as [Ha _]. apply NoDup_cons in Hb as [Hb _].
      eapply seg_ext; [..|exact Hs]; intros w Hw.
      * rewrite Hn, !upd_ne by set_solver. done.
      * rewrite Hp, !upd_ne by set_solver. done.
  - destruct Hs as (H1 & H2 & Hs). subst p. rewrite before_or_cons in *.
    pose proof (before_or_elem z l1). pose proof (after_or_elem l2 b).
    apply NoDup_cons in Ha as [Ha1 Ha]. pose proof Hb as [Hb1 Hb']%NoDup_cons.
    rewrite Hn, Hp. rewrite !upd_ne by set_solver. split_and!; [done..|].
    apply IH; auto. set_solver.
Qed.

(** Unlinking a node. *)
Lemma seg_unlink h h' l1 x l2 b : ∀ a,
  let p := before_or a l1 in
  let n := after_or l2 b in
  seg h a (l1 ++ x :: l2) b → NoDup (a :: l1 ++ x :: l2) → NoDup (l1 ++ x :: l2 ++ [b]) →
  (∀ y, y ≠ x → hnext h' y = upd (hnext h) p n y) →
  (∀ y, y ≠ x → hprev h' y = upd (hprev h) n p y) →
  seg h' a (l1 ++ l2) b.
Proof.
  induction l1 as [|z l1 IH]; intros a p n Hs Ha Hb Hn Hp; simpl in *.
  - subst p n. unfold before_or, after_or in *; simpl in *. destruct Hs as (_ & _ & Hs).
    apply NoDup_cons in Ha as [Hax Ha]. apply NoDup_cons in Hb as [Hxb Hb].
    destruct l2 as [|y l2]; simpl in *.
    + rewrite Hn, Hp, !upd_eq by set_solver. done.
    + rewrite Hn, Hp, !upd_eq by set_solver.
      destruct Hs as (_ & _ & Hs). split_and!; [done..|].
      eapply seg_ext; [..|exact Hs]; intros w Hw.
      * apply NoDup_cons in Ha as [? _]. rewrite Hn, !upd_ne by set_solver. done.
      * apply NoDup_cons in Hb as [? _]. rewrite Hp, !upd_ne by set_solver. done.
  - destruct Hs as (H1 & H2 & Hs). subst p. rewrite before_or_cons in *.
    pose proof (before_or_elem z l1). pose proof (after_or_elem l2 b).
    apply NoDup_cons in Ha as [Ha1 Ha]. pose proof Hb as [Hb1 Hb']%NoDup_cons.
    rewrite Hn, Hp by set_solver. rewrite !upd_ne by set_solver. split_and!; [done..|].
    by apply IH.
Qed.

Lemma seg_next h a l1 l2 b :
  seg h a (l1 ++ l2) b → hnext h (before_or a l1) = Some (after_or l2 b).
Proof.
  revert a. induction l1 as [|x l1 IH]; intros a; simpl.
  - destruct l2; simpl; unfold before_or, after_or; naive_solver.
  - rewrite before_or_cons. naive_solver.
Qed.

Lemma seg_prev h a l1 l2 b :
  seg h a (l1 ++ l2) b → hprev h (after_or l2 b) = Some (before_or a l1).
Proof.
  revert a. induction l1 as [|x l1 IH]; intros a; simpl.
  - destruct l2; simpl; unfold before_or, after_or; naive_solver.
  - rewrite before_or_cons. naive_solver.
Qed.

Lemma seg_in_heap h a l b y : seg h a l b → y ∈ a :: l → is_Some (h !! y).
Proof.
  revert a. induction l as [|x l IH]; intros a Hs Hy; simpl in *.
  - assert (y = a) as -> by set_solver. apply fmap_is_Some with (f := tl_next).
    destruct Hs as [Hs _]. by eexists.
  - destruct Hs as (H1 & H2 & H3). apply elem_of_cons in Hy as [->|Hy]; [|by eapply IH].
    apply fmap_is_Some with (f := tl_next). by eexists.
Qed.

Lemma length_le_size (h : heap) (l : list Z) :
  NoDup l → (∀ y, y ∈ l → is_Some (h !! y)) → (length l <= size h)%nat.
Proof.
  intros Hd Hl. rewrite <- size_dom, <- (size_list_to_set (C:=gset Z) l) by done.
  apply subseteq_size. intros y Hy%elem_of_list_to_set. by apply elem_of_dom, Hl.
Qed.

(** ** The position of a new node *)

Definition time_of (h : heap) (a : Z) : Z := default 0 (htime h a).

Lemma time_of_lookup h a n : h !! a = Some n → time_of h a = tl_timeout n.
Proof. intros E. unfold time_of, htime. by rewrite E. Qed.

Lemma insert_scan_ok h first t : ∀ l r fuel,
  seg h first (l ++ r) first → first ∉ l → (length l < fuel)%nat →
  ∃ l1 l2, l = l1 ++ l2 ∧ insert_scan fuel h first t (before_or first l) = Some (before_or first l1)
    ∧ Forall (λ y, t < time_of h y) l2
    ∧ (∀ y, last l1 = Some y → time_of h y <= t).
Proof.
  induction l as [|x l IH] using rev_ind; intros r [|fuel] Hs Hf Hl;
    rewrite ?length_app in Hl; simpl in Hl; try lia.
  { exists [], []. simpl. by rewrite Z.eqb_refl. }
  rewrite <- app_assoc in Hs. simpl in Hs.
  destruct (seg_in_heap h first (l ++ x :: r) first x Hs ltac:(set_solver)) as [n Hn].
  pose proof (seg_prev h first l (x :: r) first Hs) as Hp. unfold after_or in Hp; simpl in Hp.
  assert (before_or first (l ++ [x]) = x) as Hx by (unfold before_or; by rewrite last_snoc).
  rewrite Hx. simpl. rewrite (proj2 (Z.eqb_neq x first)) by set_solver. rewrite Hn. simpl.
  destruct (Z.leb_spec (tl_timeout n) t).
  - exists (l ++ [x]), []. rewrite app_nil_r, Hx. split_and!; [done..|].
    intros y. rewrite last_snoc. intros [= <-]. by rewrite (time_of_lookup _ _ _ Hn).
  - unfold hprev in Hp. rewrite Hn in Hp. injection Hp as ->.
    destruct (IH (x :: r) fuel Hs ltac:(set_solver) ltac:(lia)) as (l1 & l2 & -> & E & H2 & H1).
    exists l1, (l2 ++ [x]). rewrite E, app_assoc. split_and!; try done.
    apply Forall_app. split; [done|]. apply Forall_singleton.
    by rewrite (time_of_lookup _ _ _ Hn).
Qed.

#[local] Arguments insert_scan : simpl never.

(** The effect of linking and unlinking on the heap. *)
Lemma insert_gen_effect h first l x :
  seg h first l first → NoDup (first :: l) → x ∉ first :: l → is_Some (h !! x) →
  ∃ l1 l2 h', l = l1 ++ l2 ∧ insert_gen_timer_unsafe h first x = Some h'
    ∧ effect h h' (upd (upd (hnext h) (before_or first l1) x) x (after_or l2 first))
                  (upd (upd (hprev h) x (before_or first l1)) (after_or l2 first) x) (htime h)
    ∧ Forall (λ y, time_of h x < time_of h y) l2
    ∧ (∀ y, last l1 = Some y → time_of h y <= time_of h x).
Proof.
  intros Hs Hd Hx Hxh. pose proof Hd as [Hf _]%NoDup_cons.
  assert (length l < S (size h))%nat as Hl.
  { pose proof (length_le_size h (first :: l) Hd (λ y, seg_in_heap h first l first y Hs)).
    simpl in *. lia. }
  rewrite <- (app_nil_r l) in Hs.
  destruct (insert_scan_ok h first (time_of h x) l [] (S (size h)) Hs Hf Hl)
    as (l1 & l2 & -> & Hscan & H2 & H1).
  rewrite app_nil_r in Hs. set (p := before_or first l1) in *. set (n := after_or l2 first) in *.
  pose proof (seg_next h first l1 l2 first Hs) as Hpn. fold p n in Hpn.
  pose proof (seg_prev h first (l1 ++ l2) [] first ltac:(by rewrite app_nil_r)) as Hfp.
  unfold after_or in Hfp; simpl in Hfp.
  assert (p ∈ first :: l1 ++ l2) as Hp
    by (pose proof (before_or_elem first l1); subst p; set_solver).
  assert (n ∈ first :: l1 ++ l2) as Hn
    by (pose proof (after_or_elem l2 first); subst n; set_solver).
  assert (is_Some (h !! p)) as Hph by by eapply seg_in_heap.
  assert (is_Some (h !! n)) as Hnh by by eapply seg_in_heap.
  assert (is_Some (h !! first)) as [nf Hfh] by (eapply seg_in_heap; [done|set_solver]).
  exists l1, l2. unfold insert_gen_timer_unsafe.
  unfold hprev in Hfp. rewrite Hfh in Hfp |- *. injection Hfp as Hfp. simpl.
  pose proof Hxh as [nx Hxx]. rewrite Hxx. simpl.
  rewrite <- (time_of_lookup _ _ _ Hxx), Hfp, Hscan. simpl.
  destruct (set_prev_effect h h _ _ _ x p (effect_refl h) Hxh) as (h1 & -> & E1). simpl.
  destruct (effect_lookup _ _ _ _ _ p E1 Hph) as (pn & pp & pt & -> & En & _). simpl.
  rewrite Hpn in En. injection En as <-.
  destruct (set_next_effect h _ _ _ _ x n E1 Hxh) as (h2 & -> & E2). simpl.
  destruct (effect_lookup _ _ _ _ _ x E2 Hxh) as (xn & xp & xt & -> & _ & Ep & _). simpl.
  rewrite upd_eq in Ep. injection Ep as <-.
  destruct (set_next_effect h _ _ _ _ p x E2 Hph) as (h3 & -> & E3). simpl.
  destruct (effect_lookup _ _ _ _ _ x E3 Hxh) as (xn' & xp' & xt' & -> & En & _). simpl.
  rewrite upd_ne, upd_eq in En by set_solver. injection En as <-.
  destruct (set_prev_effect h _ _ _ _ n x E3 Hnh) as (h4 & -> & E4).
  exists h4. split_and!; try done.
  eapply effect_ext; [exact E4|..]; try done.
  intros a. unfold upd. repeat case_decide; subst; done.
Qed.

Lemma remove_unsafe_effect h first l1 x l2 :
  seg h first (l1 ++ x :: l2) first → NoDup (first :: l1 ++ x :: l2) →
  ∃ h', remove_dlg_timer_unsafe h x = Some h'
    ∧ effect h h' (upd (hnext h) (before_or first l1) (after_or l2 first))
                  (upd (hprev h) (after_or l2 first) (before_or first l1)) (htime h).
Proof.
  intros Hs Hd. set (p := before_or first l1) in *. set (n := after_or l2 first) in *.
  pose proof (seg_prev h first l1 (x :: l2) first Hs) as Hxp.
  unfold after_or in Hxp; simpl in Hxp. fold p in Hxp.
  pose proof (seg_next h first (l1 ++ [x]) l2 first ltac:(by rewrite <- app_assoc)) as Hxn.
  unfold before_or in Hxn. rewrite last_snoc in Hxn. simpl in Hxn. fold n in Hxn.
  pose proof (before_or_elem first l1) as Hp. fold p in Hp.
  pose proof (after_or_elem l2 first) as Hn. fold n in Hn.
  assert (x ≠ p ∧ x ≠ n) as [Hxp' Hxn'].
  { apply NoDup_cons in Hd as [Hf Hd]. apply NoDup_app in Hd as (_ & H1 & [H2 _]%NoDup_cons).
    split; [set_solver|]. set_solver. }
  assert (∀ y, y ∈ first :: l1 ++ x :: l2 → is_Some (h !! y)) as Hall
    by (intros; by eapply seg_in_heap).
  assert (is_Some (h !! p)) as Hph by (apply Hall; set_solver).
  assert (is_Some (h !! n)) as Hnh by (apply Hall; set_solver).
  assert (is_Some (h !! x)) as Hxh by (apply Hall; set_solver).
  unfold remove_dlg_timer_unsafe.
  destruct (effect_lookup _ _ _ _ _ x (effect_refl h) Hxh) as (a & b & t & -> & En & Ep & _). simpl.
  rewrite Hxn in En. rewrite Hxp in Ep. injection En as <-. injection Ep as <-.
  destruct (set_next_effect h h _ _ _ p n (effect_refl h) Hph) as (h1 & -> & E1). simpl.
  destruct (effect_lookup _ _ _ _ _ x E1 Hxh) as (a & b & t' & -> & En & Ep & _). simpl.
  rewrite upd_ne, Hxn in En by done. rewrite Hxp in Ep. injection En as <-. injection Ep as <-.
  destruct (set_prev_effect h _ _ _ _ n p E1 Hnh) as (h2 & -> & E2). eauto.
Qed.
