(* ===== verification/DlgTimerInv.v ===== *)
(** * DlgTimerInv: the invariant of a dialog timer (modules/dialog/dlg_timer.c)

    The abstract timer, a queue of (node, timeout) pairs in the order of the
    timeouts and the set of nodes that left it, and the proof that each operation
    on the list in the heap follows it. *)

From stdpp Require Import prelude list sorting gmap.
From Stdlib Require Import ZArith Lia.
From S2P Require Import Prelude DlgTimer DlgTimerFacts.

(** ** The abstract timer *)

Abbreviation entry := (Z * Z)%type.
Definition by_timeout (x y : entry) : Prop := x.2 <= y.2.

Record atimer := ATimer { live : list entry; gone : gset Z }.

(** A new entry goes after all the entries with a timeout not above its own. *)
Fixpoint enqueue (a t : Z) (q : list entry) : list entry :=
  match q with
  | [] => [(a, t)]
  | (b, s) :: q' => if s <=? t then (b, s) :: enqueue a t q' else (a, t) :: q
  end.

Definition dequeue (a : Z) (q : list entry) : list entry := filter (λ e, e.1 ≠ a) q.

(** The entries due at [time], and the others. *)
Fixpoint due (time : Z) (q : list entry) : list entry :=
  match q with
  | [] => []
  | e :: q' => if e.2 <=? time then e :: due time q' else []
  end.
Definition not_due (time : Z) (q : list entry) : list entry := drop (length (due time q)) q.

(** ** The invariant of a timer *)

(** The list holds the queue; a node outside it is idle (zeroed) or, when it is
    in the set, expired or removed.  The nodes of [busy] are in the hands of the
    operation being executed. *)
Record timer_inv (busy : gset Z) (h : heap) (first : Z) (s : atimer) : Prop := {
  tm_seg : seg h first ((live s).*1) first;
  tm_nodup : NoDup (first :: (live s).*1);
  tm_time : Forall (λ e, htime h e.1 = Some e.2) (live s);
  tm_sorted : StronglySorted by_timeout (live s);
  tm_out a n : h !! a = Some n → a ∉ first :: (live s).*1 → a ∉ busy →
    n = if decide (a ∈ gone s) then Tl FAKE_DIALOG_TL NULL 0 else Tl NULL NULL 0;
  tm_busy a : a ∈ busy → a ∉ first :: (live s).*1;
  tm_gone a : a ∈ gone s → a ∉ first :: (live s).*1;
  tm_null : h !! NULL = None;
  tm_fake : h !! FAKE_DIALOG_TL = None;
}.
Abbreviation timer_ok := (timer_inv ∅).

(** *** Facts about the queue *)

Lemma enqueue_split a t q1 q2 :
  StronglySorted by_timeout (q1 ++ q2) →
  Forall (λ e, t < e.2) q2 → (∀ e, last q1 = Some e → e.2 <= t) →
  enqueue a t (q1 ++ q2) = q1 ++ (a, t) :: q2.
Proof.
  induction q1 as [|[b s] q1 IH]; simpl; intros Hs H2 H1.
  - destruct q2 as [|[b s] q2]; simpl; [done|]. apply Forall_cons in H2 as [Ht _]. simpl in Ht.
    by rewrite (proj2 (Z.leb_gt s t) Ht).
  - apply StronglySorted_inv in Hs as [Hs Hall].
    assert (s <= t) as Hst.
    { destruct q1 as [|e q1] using rev_ind; [by apply (H1 (b, s))|].
      pose proof (H1 e ltac:(by rewrite app_comm_cons, last_snoc)) as He.
      rewrite Forall_forall in Hall. specialize (Hall e ltac:(set_solver)).
      unfold by_timeout in Hall; simpl in Hall. lia. }
    rewrite (proj2 (Z.leb_le s t) Hst). f_equal. apply IH; [done..|].
    intros e He. apply H1. destruct q1; [done|]. exact He.
Qed.

Lemma enqueue_elem a t q e : e ∈ enqueue a t q ↔ e = (a, t) ∨ e ∈ q.
Proof.
  induction q as [|[b s] q IH]; simpl; [set_solver|]. case_match; set_solver.
Qed.

Lemma enqueue_sorted a t q :
  StronglySorted by_timeout q → StronglySorted by_timeout (enqueue a t q).
Proof.
  induction 1 as [|[b s] q Hq IH Hall]; simpl; [by repeat constructor|].
  destruct (Z.leb_spec s t).
  - constructor; [done|]. apply Forall_forall. intros e [->|He]%enqueue_elem; [done|].
    rewrite Forall_forall in Hall. auto.
  - constructor; [by constructor|]. constructor; [by unfold by_timeout; simpl; lia|].
    eapply Forall_impl; [exact Hall|]. unfold by_timeout; simpl. intros; lia.
Qed.

Lemma filter_id {A} (P : A → Prop) `{∀ x, Decision (P x)} (l : list A) :
  (∀ x, x ∈ l → P x) → filter P l = l.
Proof.
  induction l as [|x l IH]; intros Hl; [done|].
  rewrite filter_cons_True by set_solver. f_equal. set_solver.
Qed.

Lemma dequeue_split a t q1 q2 :
  a ∉ q1.*1 → a ∉ q2.*1 → dequeue a (q1 ++ (a, t) :: q2) = q1 ++ q2.
Proof.
  intros H1 H2. unfold dequeue. rewrite filter_app, filter_cons_False by (simpl; tauto).
  f_equal; apply filter_id; intros e He E; [apply H1|apply H2]; apply list_elem_of_fmap; eauto.
Qed.

Lemma queue_split (q : list entry) a : a ∈ q.*1 → NoDup (q.*1) →
  ∃ q1 t q2, q = q1 ++ (a, t) :: q2 ∧ a ∉ q1.*1 ∧ a ∉ q2.*1.
Proof.
  intros ([b t] & -> & Hq)%list_elem_of_fmap Hd. apply list_elem_of_split in Hq as (q1 & q2 & ->).
  exists q1, t, q2. rewrite fmap_app in Hd. simpl in Hd.
  apply NoDup_app in Hd as (_ & H1 & [H2 _]%NoDup_cons). split_and!; [done| |done].
  intros H. apply (H1 b); set_solver.
Qed.

Lemma sorted_remove q1 (e : entry) q2 :
  StronglySorted by_timeout (q1 ++ e :: q2) → StronglySorted by_timeout (q1 ++ q2).
Proof.
  induction q1 as [|e' q1 IH]; simpl; intros Hs; apply StronglySorted_inv in Hs as [Hs Hall]; [done|].
  constructor; [auto|]. rewrite Forall_forall in *. set_solver.
Qed.

Lemma sorted_app_r (q1 q2 : list entry) :
  StronglySorted by_timeout (q1 ++ q2) → StronglySorted by_timeout q2.
Proof. induction q1; simpl; [done|]. intros [? _]%StronglySorted_inv. auto. Qed.

(** *** Facts about the heap *)

Lemma lookup_ext (h h' : heap) a :
  hnext h' a = hnext h a → hprev h' a = hprev h a → htime h' a = htime h a → h' !! a = h !! a.
Proof.
  unfold hnext, hprev, htime. destruct (h' !! a) as [[]|], (h !! a) as [[]|]; simpl; congruence.
Qed.

Lemma effect_lookup_same h h' fn fp ft a :
  effect h h' fn fp ft → fn a = hnext h a → fp a = hprev h a → ft a = htime h a → h' !! a = h !! a.
Proof. intros [En Ep Et _ _] ???. apply lookup_ext; congruence. Qed.

Lemma effect_none h h' fn fp ft a : effect h h' fn fp ft → h !! a = None → h' !! a = None.
Proof. intros [_ _ _ Ed _]. rewrite <- !not_elem_of_dom. by rewrite Ed. Qed.

Lemma nodup_ring (first : Z) l : NoDup (first :: l) → NoDup (l ++ [first]).
Proof. by rewrite (Permutation_cons_append l first). Qed.

Lemma seg_not_null busy h first s a :
  timer_inv busy h first s → a ∈ (live s).*1 →
  ∃ n, h !! a = Some n ∧ tl_prev n ≠ NULL ∧ tl_next n ≠ NULL ∧ tl_next n ≠ FAKE_DIALOG_TL.
Proof.
  intros Hi Ha. pose proof (tm_seg _ _ _ _ Hi) as Hs.
  destruct (seg_in_heap _ _ _ _ a Hs ltac:(set_solver)) as [n Hn]. exists n. split; [done|].
  apply list_elem_of_split in Ha as (l1 & l2 & Hl). rewrite Hl in Hs.
  pose proof (seg_prev _ _ l1 (a :: l2) _ Hs) as Hp.
  pose proof (seg_next _ _ (l1 ++ [a]) l2 _ ltac:(by rewrite <- app_assoc)) as Hx.
  unfold after_or, before_or in Hp, Hx. rewrite last_snoc in Hx. simpl in Hp, Hx.
  apply lookup_fields in Hn as (Hn1 & Hn2 & _). rewrite Hn2 in Hp. rewrite Hn1 in Hx.
  injection Hp as ->. injection Hx as ->.
  assert (∀ b, b ∈ first :: l1 ++ a :: l2 → b ≠ NULL ∧ b ≠ FAKE_DIALOG_TL) as Hb.
  { intros b Hb. destruct (seg_in_heap _ _ _ _ b Hs Hb) as [m Hm].
    pose proof (tm_null _ _ _ _ Hi). pose proof (tm_fake _ _ _ _ Hi). split; congruence. }
  pose proof (before_or_elem first l1). pose proof (after_or_elem l2 first).
  split; [|split]; apply Hb; unfold before_or, after_or in *; set_solver.
Qed.

(** ** Linking and unlinking a node *)

Lemma link_node h first s a t :
  timer_inv {[a]} h first s → is_Some (h !! a) → a ∉ first :: (live s).*1 → a ∉ gone s →
  ∃ h1 h', set_timeout h a t = Some h1 ∧ insert_gen_timer_unsafe h1 first a = Some h'
    ∧ timer_ok h' first (ATimer (enqueue a t (live s)) (gone s)) ∧ dom h' = dom h.
Proof.
  intros Hi Ha Hout Hgone. destruct s as [q G]. simpl in *.
  destruct (set_timeout_effect h h _ _ _ a t (effect_refl h) Ha) as (h1 & E1 & He1).
  assert (seg h1 first q.*1 first) as Hs1.
  { eapply seg_ext; [..|apply Hi]; intros y _; [by rewrite (eff_next _ _ _ _ _ He1)|
      by rewrite (eff_prev _ _ _ _ _ He1)]. }
  assert (is_Some (h1 !! a)) as Ha1.
  { apply elem_of_dom. rewrite (eff_dom _ _ _ _ _ He1). by apply elem_of_dom. }
  destruct (insert_gen_effect h1 first q.*1 a Hs1 (tm_nodup _ _ _ _ Hi) Hout Ha1)
    as (l1 & l2 & h' & Hl & E2 & He2 & H2 & H1).
  exists h1, h'. split_and!; [done|done| |].
  2:{ by rewrite (eff_dom _ _ _ _ _ He2), (eff_dom _ _ _ _ _ He1). }
  apply fmap_app_inv in Hl as (q1 & q2 & -> & -> & ->).
  destruct Hi as [Hs Hd Ht Hso Ho Hbz Hg Hn Hf]; simpl in *.
  assert (∀ e, e ∈ q1 ++ q2 → time_of h1 e.1 = e.2) as Htime.
  { intros e He. unfold time_of. rewrite (eff_time _ _ _ _ _ He1), upd_ne.
    - rewrite Forall_forall in Ht. by rewrite (Ht e He).
    - intros Ea. apply Hout. right. apply list_elem_of_fmap. eauto. }
  assert (time_of h1 a = t) as Hta by (unfold time_of; by rewrite (eff_time _ _ _ _ _ He1), upd_eq).
  assert (enqueue a t (q1 ++ q2) = q1 ++ (a, t) :: q2) as Hq.
  { apply enqueue_split; [done|..].
    - rewrite Forall_fmap in H2. rewrite Forall_forall in H2 |- *. intros e He.
      specialize (H2 e He). simpl in H2. rewrite Hta, Htime in H2 by set_solver. done.
    - intros e He. specialize (H1 e.1 ltac:(by rewrite fmap_last, He)).
      rewrite Hta, Htime in H1; [done|]. apply last_Some in He as [q1' ->]. set_solver. }
  pose proof (enqueue_sorted a t _ Hso) as Hso'. rewrite Hq in Hso' |- *.
  rewrite !fmap_app in *. constructor; simpl; rewrite ?fmap_app; simpl.
  - eapply seg_link; [exact Hs1|..]; try done.
    + apply nodup_ring in Hd. by rewrite app_assoc.
    + set_solver.
    + apply He2.
    + apply He2.
  - rewrite <- Permutation_middle. apply NoDup_cons in Hd as [??].
    apply NoDup_cons; split; [set_solver|]. apply NoDup_cons; split; [set_solver|done].
  - apply Forall_app in Ht as [Ht1 Ht2]. rewrite Forall_app, Forall_cons.
    rewrite Forall_forall in Ht1, Ht2. rewrite !Forall_forall. simpl.
    rewrite (eff_time _ _ _ _ _ He2), (eff_time _ _ _ _ _ He1), upd_eq. split_and!; [|done|];
      intros e He; rewrite (eff_time _ _ _ _ _ He2), (eff_time _ _ _ _ _ He1), upd_ne; auto;
      intros Ea; apply Hout; right; rewrite <- fmap_app; apply list_elem_of_fmap; exists e; set_solver.
  - done.
  - intros b n Hb Hbo _. pose proof (before_or_elem first q1.*1). pose proof (after_or_elem q2.*1 first).
    apply (Ho b n); [|set_solver|set_solver]. rewrite <- Hb.
    rewrite (effect_lookup_same _ _ _ _ _ b He2); [|rewrite !upd_ne; set_solver..|done].
    symmetry. apply (effect_lookup_same _ _ _ _ _ b He1); [done..|]. rewrite upd_ne; set_solver.
  - intros b Hb. by apply elem_of_empty in Hb.
  - intros b Hb. specialize (Hg b Hb). set_solver.
  - by eapply effect_none, effect_none.
  - by eapply effect_none, effect_none.
Qed.

Lemma unlink_node h first s a :
  timer_ok h first s → a ∈ (live s).*1 →
  ∃ h', remove_dlg_timer_unsafe h a = Some h'
    ∧ timer_inv {[a]} h' first (ATimer (dequeue a (live s)) (gone s))
    ∧ a ∉ first :: (dequeue a (live s)).*1 ∧ dom h' = dom h.
Proof.
  intros Hi Ha. destruct s as [q G]. simpl in *.
  destruct Hi as [Hs Hd Ht Hso Ho Hbz Hg Hn Hf]; simpl in *.
  pose proof Hd as [Hfirst Hdq]%NoDup_cons.
  destruct (queue_split q a Ha Hdq) as (q1 & t & q2 & -> & H1 & H2).
  rewrite dequeue_split by done. rewrite !fmap_app in *. simpl in *.
  destruct (remove_unsafe_effect h first q1.*1 a q2.*1 Hs Hd) as (h' & E & He).
  pose proof (before_or_elem first q1.*1). pose proof (after_or_elem q2.*1 first).
  exists h'. split_and!; [done| |set_solver|by rewrite (eff_dom _ _ _ _ _ He)].
  constructor; simpl; rewrite ?fmap_app.
  - eapply seg_unlink; [exact Hs|done|..].
    + apply nodup_ring in Hd. by rewrite <- app_assoc in Hd.
    + intros y _. apply He.
    + intros y _. apply He.
  - rewrite <- Permutation_middle in Hdq. apply NoDup_cons in Hdq as [_ Hdq].
    apply NoDup_cons. split; [set_solver|done].
  - apply Forall_app in Ht as [Ht1 [_ Ht2]%Forall_cons].
    apply Forall_app; split; rewrite Forall_forall in *; intros e Hin;
      rewrite (eff_time _ _ _ _ _ He); auto.
  - by eapply sorted_remove.
  - intros b n Hb Hbo Hbusy. apply (Ho b n); [|set_solver|set_solver].
    rewrite <- Hb. symmetry. apply (effect_lookup_same _ _ _ _ _ b He); [rewrite upd_ne; set_solver..|done].
  - intros b ->%elem_of_singleton. set_solver.
  - intros b Hb. specialize (Hg b Hb). set_solver.
  - by eapply effect_none.
  - by eapply effect_none.
Qed.

Lemma timer_ok_busy a h first s :
  a ∉ first :: (live s).*1 → timer_ok h first s → timer_inv {[a]} h first s.
Proof.
  intros Ha [Hs Hd Ht Hso Ho Hbz Hg Hn Hf]. constructor; auto.
  - intros; apply Ho; set_solver.
  - by intros b ->%elem_of_singleton.
Qed.

(** A node outside the list. *)
Lemma out_node h first s a :
  timer_ok h first s → is_Some (h !! a) → a ∉ first :: (live s).*1 →
  h !! a = Some (if decide (a ∈ gone s) then Tl FAKE_DIALOG_TL NULL 0 else Tl NULL NULL 0).
Proof. intros Hi [n Hn] Ho. rewrite Hn. f_equal. apply (tm_out _ _ _ _ Hi a n); set_solver. Qed.

Lemma dequeue_notin a (q : list entry) : a ∉ (dequeue a q).*1.
Proof.
  intros (e & -> & He)%list_elem_of_fmap. unfold dequeue in He.
  by apply list_elem_of_filter in He as [? _].
Qed.

(** Retiring a node that has just been unlinked. *)
Lemma retire_node h first s a :
  timer_inv {[a]} h first s → is_Some (h !! a) → a ∉ first :: (live s).*1 →
  ∃ h1 h2 h', set_next h a FAKE_DIALOG_TL = Some h1 ∧ set_prev h1 a NULL = Some h2
    ∧ set_timeout h2 a 0 = Some h' ∧ timer_ok h' first (ATimer (live s) ({[a]} ∪ gone s))
    ∧ dom h' = dom h.
Proof.
  intros [Hs Hd Ht Hso Ho Hbz Hg Hn Hf] Ha Hout.
  destruct (set_next_effect h h _ _ _ a FAKE_DIALOG_TL (effect_refl h) Ha) as (h1 & E1 & He1).
  destruct (set_prev_effect h _ _ _ _ a NULL He1 Ha) as (h2 & E2 & He2).
  destruct (set_timeout_effect h _ _ _ _ a 0 He2 Ha) as (h' & E3 & He).
  exists h1, h2, h'. split_and!; [done..| |by rewrite (eff_dom _ _ _ _ _ He)].
  constructor; simpl; try done.
  - eapply seg_ext; [..|exact Hs]; intros y Hy;
      rewrite ?(eff_next _ _ _ _ _ He), ?(eff_prev _ _ _ _ _ He), upd_ne; set_solver.
  - rewrite Forall_forall in Ht |- *. intros e Hin. rewrite (eff_time _ _ _ _ _ He), upd_ne; [auto|].
    intros <-. apply Hout. right. apply list_elem_of_fmap. eauto.
  - intros b n Hb Hbo _. destruct (decide (b = a)) as [->|Hba].
    + rewrite decide_True by set_solver. apply lookup_fields in Hb as (X & Y & Z').
      rewrite (eff_next _ _ _ _ _ He), upd_eq in X. rewrite (eff_prev _ _ _ _ _ He), upd_eq in Y.
      rewrite (eff_time _ _ _ _ _ He), upd_eq in Z'. destruct n; simpl in *. congruence.
    + rewrite (effect_lookup_same _ _ _ _ _ b He) in Hb by (by rewrite upd_ne).
      rewrite (Ho b n Hb Hbo) by set_solver. repeat case_decide; set_solver.
  - intros b [->%elem_of_singleton|Hb]%elem_of_union; [done|auto].
  - by eapply effect_none.
  - by eapply effect_none.
Qed.

(** ** The operations *)

(** The abstract operations. *)
Definition spec_insert (s : atimer) (a t : Z) : atimer * Z :=
  if decide (a ∈ (live s).*1 ∨ a ∈ gone s) then (s, -1)
  else (ATimer (enqueue a t (live s)) (gone s), 0).
Definition spec_attempt (s : atimer) (a t : Z) : atimer * Z :=
  if decide (a ∈ (live s).*1) then (s, -1)
  else if decide (a ∈ gone s) then (s, -2)
  else (ATimer (enqueue a t (live s)) (gone s), 0).
Definition spec_remove (s : atimer) (a : Z) : atimer * Z :=
  if decide (a ∈ (live s).*1) then (ATimer (dequeue a (live s)) ({[a]} ∪ gone s), 0)
  else (s, 1).
Definition spec_update (s : atimer) (a t : Z) : atimer * Z :=
  if decide (a ∈ gone s) then (s, 0)
  else if decide (a ∈ (live s).*1)
  then (ATimer (enqueue a t (dequeue a (live s))) (gone s), 0)
  else (ATimer (enqueue a t (live s)) (gone s), 1).

Section operations.
Context (h : heap) (first : Z) (s : atimer) (Hok : timer_ok h first s).
Context (a : Z) (Ha : is_Some (h !! a)) (Hfirst : a ≠ first).

Lemma insert_dlg_timer_ok ticks interval :
  ∃ h', insert_dlg_timer h first a ticks interval = Some (h', (spec_insert s a (u32 (ticks + interval))).2)
    ∧ timer_ok h' first (spec_insert s a (u32 (ticks + interval))).1 ∧ dom h' = dom h.
Proof.
  unfold insert_dlg_timer, spec_insert. case_decide as Hin.
  - assert (∃ n, h !! a = Some n ∧ tl_next n ≠ NULL) as (n & -> & Hn).
    { destruct Hin as [Hin|Hin].
      - destruct (seg_not_null _ _ _ _ a Hok Hin) as (n & ? & ? & ? & ?). eauto.
      - rewrite (out_node _ _ _ _ Hok Ha) by by apply (tm_gone _ _ _ _ Hok).
        rewrite decide_True by done. by eexists. }
    simpl. rewrite (proj2 (Z.eqb_neq _ _) Hn). simpl. eauto.
  - apply Decidable.not_or in Hin as [Hl Hg].
    assert (a ∉ first :: (live s).*1) as Ho by set_solver.
    rewrite (out_node _ _ _ _ Hok Ha Ho), decide_False by done. simpl.
    destruct (link_node h first s a (u32 (ticks + interval)) (timer_ok_busy a _ _ _ Ho Hok) Ha Ho Hg)
      as (h1 & h' & -> & E & H' & Hd).
    simpl. rewrite E. simpl. eauto.
Qed.

Lemma insert_attempt_ok ticks interval :
  ∃ h', insert_attempt_dlg_del_timer h first a ticks interval =
          Some (h', (spec_attempt s a (u32 (ticks + interval))).2)
    ∧ timer_ok h' first (spec_attempt s a (u32 (ticks + interval))).1 ∧ dom h' = dom h.
Proof.
  unfold insert_attempt_dlg_del_timer, spec_attempt. case_decide as Hl; [|case_decide as Hg].
  - destruct (seg_not_null _ _ _ _ a Hok Hl) as (n & -> & Hp & _). simpl.
    rewrite (proj2 (Z.eqb_neq _ _) Hp). eauto.
  - rewrite (out_node _ _ _ _ Hok Ha), decide_True by first [done|by apply (tm_gone _ _ _ _ Hok)].
    simpl. eauto.
  - assert (a ∉ first :: (live s).*1) as Ho by set_solver.
    rewrite (out_node _ _ _ _ Hok Ha Ho), decide_False by done. simpl.
    destruct (link_node h first s a (u32 (ticks + interval)) (timer_ok_busy a _ _ _ Ho Hok) Ha Ho Hg)
      as (h1 & h' & -> & E & H' & Hd).
    simpl. rewrite E. simpl. eauto.
Qed.

Lemma remove_dlg_timer_ok :
  ∃ h', remove_dlg_timer h a = Some (h', (spec_remove s a).2)
    ∧ timer_ok h' first (spec_remove s a).1 ∧ dom h' = dom h.
Proof.
  unfold remove_dlg_timer, spec_remove. case_decide as Hl.
  - destruct (seg_not_null _ _ _ _ a Hok Hl) as (n & -> & Hp & Hn & Hf). simpl.
    rewrite (proj2 (Z.eqb_neq _ _) Hp), (proj2 (Z.eqb_neq _ _) Hn), (proj2 (Z.eqb_neq _ _) Hf). simpl.
    destruct (unlink_node h first s a Hok Hl) as (h1 & -> & H1 & Ho & Hd1). simpl.
    assert (is_Some (h1 !! a)) as Ha1 by (apply elem_of_dom; rewrite Hd1; by apply elem_of_dom).
    destruct (retire_node h1 first _ a H1 Ha1 Ho) as (h2 & h3 & h' & -> & E3 & E4 & H' & Hd). simpl.
    rewrite E3. simpl. rewrite E4. simpl. exists h'. by rewrite Hd, Hd1.
  - rewrite (out_node _ _ _ _ Hok Ha) by set_solver. simpl. case_decide; simpl; eauto.
Qed.

Lemma update_dlg_timer_ok ticks timeout :
  ∃ h', update_dlg_timer h first a ticks timeout = Some (h', (spec_update s a (u32 (ticks + timeout))).2)
    ∧ timer_ok h' first (spec_update s a (u32 (ticks + timeout))).1 ∧ dom h' = dom h.
Proof.
  unfold update_dlg_timer, spec_update. case_decide as Hg; [|case_decide as Hl].
  - rewrite (out_node _ _ _ _ Hok Ha), decide_True by first [done|by apply (tm_gone _ _ _ _ Hok)].
    simpl. eauto.
  - destruct (seg_not_null _ _ _ _ a Hok Hl) as (n & -> & Hp & Hn & Hf). simpl.
    rewrite (proj2 (Z.eqb_neq _ _) Hp), (proj2 (Z.eqb_neq _ _) Hn), (proj2 (Z.eqb_neq _ _) Hf). simpl.
    destruct (unlink_node h first s a Hok Hl) as (h1 & -> & H1 & Ho & Hd1). simpl.
    assert (is_Some (h1 !! a)) as Ha1 by (apply elem_of_dom; rewrite Hd1; by apply elem_of_dom).
    destruct (link_node h1 first _ a (u32 (ticks + timeout)) H1 Ha1 Ho Hg)
      as (h2 & h' & -> & E & H' & Hd).
    simpl. rewrite E. simpl. exists h'. by rewrite Hd, Hd1.
  - assert (a ∉ first :: (live s).*1) as Ho by set_solver.
    rewrite (out_node _ _ _ _ Hok Ha Ho), decide_False by done. simpl.
    destruct (link_node h first s a (u32 (ticks + timeout)) (timer_ok_busy a _ _ _ Ho Hok) Ha Ho Hg)
      as (h1 & h' & -> & E & H' & Hd).
    simpl. rewrite E. simpl. eauto.
Qed.
End operations.

(** ** Expiration *)

(** The pointer [x] walks through the nodes [l], which carry neither a previous
    node nor a timeout, to [e]. *)
Fixpoint detached (h : heap) (x : Z) (l : list Z) (e : Z) : Prop :=
  match l with
  | [] => x = e
  | y :: l' => x = y ∧ ∃ n, h !! y = Some (Tl n NULL 0) ∧ detached h n l' e
  end.

(** The same walk in the list before the nodes are detached. *)
Fixpoint walk (h : heap) (x : Z) (l : list Z) (e : Z) : Prop :=
  match l with
  | [] => x = e
  | y :: l' => x = y ∧ ∃ n, hnext h y = Some n ∧ walk h n l' e
  end.

Lemma walk_ext h h' l e : ∀ x,
  (∀ y, y ∈ l → hnext h' y = hnext h y) → walk h x l e → walk h' x l e.
Proof.
  induction l as [|y l IH]; intros x Hn; simpl; [done|].
  intros (-> & n & E & Hw). split; [done|]. exists n. rewrite Hn by set_solver.
  split; [done|]. apply IH; [set_solver|done].
Qed.

Lemma seg_walk h a l1 l2 b : seg h a (l1 ++ l2) b →
  walk h (after_or (l1 ++ l2) b) l1 (after_or l2 b).
Proof.
  revert a. induction l1 as [|x l1 IH]; intros a; simpl; [done|]. intros (_ & _ & Hs).
  split; [done|]. exists (after_or (l1 ++ l2) b).
  split; [exact (seg_next h x [] (l1 ++ l2) b Hs)|by eapply IH].
Qed.

Definition zeroed (l : list Z) (f : Z → option Z) : Z → option Z :=
  λ y, if decide (y ∈ l) then Some 0 else f y.

Lemma expire_scan_ok first time e : ∀ l fuel h x,
  walk h x l e → NoDup l → first ∉ l → e ∉ l → (length l < fuel)%nat →
  Forall (λ y, time_of h y <= time) l →
  (∀ y, y ∈ l → is_Some (h !! y)) → (e = first ∨ (is_Some (h !! e) ∧ time < time_of h e)) →
  ∃ h', expire_scan fuel h first time x = Some (h', e)
    ∧ effect h h' (hnext h) (zeroed l (hprev h)) (zeroed l (htime h)).
Proof.
  induction l as [|y l IH]; intros [|fuel] h x Hw Hd Hf He Hl Ht Hin Hend; simpl in *; try lia.
  - subst x. exists h. split.
    + destruct Hend as [->|[[n Hn] Hlt]]; [by rewrite Z.eqb_refl|].
      case_match; [done|]. rewrite Hn. simpl. rewrite (time_of_lookup _ _ _ Hn) in Hlt.
      by rewrite (proj2 (Z.leb_gt _ _) Hlt).
    + by constructor; intros; unfold zeroed; rewrite ?decide_False by set_solver.
  - destruct Hw as (-> & n & Hn & Hw). apply NoDup_cons in Hd as [Hyl Hd].
    apply Forall_cons in Ht as [Hty Ht].
    rewrite (proj2 (Z.eqb_neq y first)) by set_solver.
    assert (is_Some (h !! y)) as Hy by (apply Hin; set_solver).
    destruct (effect_lookup _ _ _ _ _ y (effect_refl h) Hy) as (a & b & t & Ey & Ea & Eb & Et).
    rewrite Ey. simpl. rewrite (time_of_lookup _ _ _ Ey) in Hty. simpl in Hty.
    rewrite (proj2 (Z.leb_le _ _) Hty).
    destruct (set_prev_effect h h _ _ _ y NULL (effect_refl h) Hy) as (h1 & -> & E1). simpl.
    destruct (set_timeout_effect h _ _ _ _ y 0 E1 Hy) as (h2 & -> & E2). simpl.
    destruct (effect_lookup _ _ _ _ _ y E2 Hy) as (a' & b' & t' & -> & Ea' & _). simpl.
    rewrite Hn in Ea'. injection Ea' as <-.
    assert (∀ z, z ≠ y → time_of h2 z = time_of h z) as Htz
      by (intros; unfold time_of; by rewrite (eff_time _ _ _ _ _ E2), upd_ne).
    destruct (IH fuel h2 n) as (h' & E' & He'); [..|exists h'; split; [done|]]; try done.
    + eapply walk_ext; [|exact Hw]. intros; apply E2.
    + set_solver.
    + set_solver.
    + lia.
    + rewrite Forall_forall in *. intros z Hz. rewrite Htz by set_solver. auto.
    + intros z Hz. apply elem_of_dom. rewrite (eff_dom _ _ _ _ _ E2). apply elem_of_dom. set_solver.
    + destruct Hend as [->|[Hx Hlt]]; [by left|right]. split.
      * apply elem_of_dom. rewrite (eff_dom _ _ _ _ _ E2). by apply elem_of_dom.
      * rewrite Htz; [done|set_solver].
    + destruct He' as [En Ep Et' Ed Es]. destruct E2 as [En2 Ep2 Et2 Ed2 Es2].
      constructor; intros; [rewrite En; auto| | |congruence|congruence];
        rewrite ?Ep, ?Et'; unfold zeroed; rewrite ?Ep2, ?Et2; unfold upd;
        repeat case_decide; set_solver.
Qed.

Lemma due_app time q : q = due time q ++ not_due time q.
Proof.
  unfold not_due. induction q as [|e q IH]; simpl; [done|]. case_match; simpl; [by f_equal|done].
Qed.

Lemma due_le time q : Forall (λ e, e.2 <= time) (due time q).
Proof. induction q as [|e q IH]; simpl; [done|]. case_match; zbool; by constructor. Qed.

Lemma not_due_head time q e r : not_due time q = e :: r → time < e.2.
Proof.
  unfold not_due. induction q as [|e' q IH]; simpl; [done|].
  case_match; zbool; simpl; [auto|]. by intros [= -> _].
Qed.

Lemma walk_detached h h' l e : ∀ x,
  (∀ y n, y ∈ l → hnext h y = Some n → y ≠ before_or 0 l → h' !! y = Some (Tl n NULL 0)) →
  (∀ y, last l = Some y → h' !! y = Some (Tl FAKE_DIALOG_TL NULL 0)) →
  l ≠ [] → NoDup l → walk h x l e → detached h' x l FAKE_DIALOG_TL.
Proof.
  induction l as [|y l IH]; intros x Hn Hl Hne Hd; [done|]. simpl.
  intros (-> & n & E & Hw). split; [done|]. apply NoDup_cons in Hd as [Hy Hd].
  destruct l as [|z l]; [exists FAKE_DIALOG_TL; split; [by apply Hl|done]|].
  exists n. split.
  - apply Hn; [set_solver|done|]. rewrite before_or_cons.
    pose proof (before_or_elem z l). rewrite before_or_cons. set_solver.
  - apply IH; auto. intros y' n' Hy' E' Hne'. apply Hn; [set_solver|done|].
    by rewrite !before_or_cons in *.
Qed.

Lemma get_expired_none h first s time :
  timer_ok h first s → due time (live s) = [] →
  get_gen_expired_dlgs h first time = Some (h, FAKE_DIALOG_TL).
Proof.
  intros Hi Hdue. pose proof (tm_seg _ _ _ _ Hi) as Hs. unfold get_gen_expired_dlgs.
  destruct (seg_in_heap _ _ _ _ first Hs ltac:(set_solver)) as [f Hf].
  pose proof (seg_next _ _ [] _ _ Hs) as Hn. unfold before_or in Hn; simpl in Hn.
  unfold hnext in Hn. rewrite Hf in Hn |- *. injection Hn as Hn. simpl. rewrite Hn.
  pose proof (due_app time (live s)) as Hq. rewrite Hdue in Hq. simpl in Hq.
  destruct (live s) as [|[a t] q] eqn:El; unfold after_or; simpl.
  - rewrite Hf, Z.eqb_refl. done.
  - symmetry in Hq. apply not_due_head in Hq. simpl in Hq.
    pose proof (tm_time _ _ _ _ Hi) as Ht. rewrite El in Ht. apply Forall_cons in Ht as [Ht _].
    simpl in Ht. unfold htime in Ht. destruct (h !! a) as [n|]; [|done]. simpl in *.
    injection Ht as ->. rewrite (proj2 (Z.ltb_lt _ _) Hq), orb_true_r. done.
Qed.

(** The effect of detaching the prefix [l1] of the list. *)
Lemma get_expired_effect h first time l1 l2 :
  seg h first (l1 ++ l2) first → NoDup (first :: l1 ++ l2) → l1 ≠ [] →
  Forall (λ y, time_of h y <= time) l1 →
  (∀ y r, l2 = y :: r → time < time_of h y) →
  ∃ h', get_gen_expired_dlgs h first time = Some (h', after_or (l1 ++ l2) first)
    ∧ effect h h' (upd (upd (hnext h) (before_or first l1) FAKE_DIALOG_TL) first (after_or l2 first))
         (upd (zeroed l1 (hprev h)) (after_or l2 first) first) (zeroed l1 (htime h)).
Proof.
  intros Hs Hd Hl1 Hle Hhead.
  pose proof Hd as [Hfirst Hd12]%NoDup_cons.
  pose proof (proj1 (NoDup_app _ _) Hd12) as (Hd1 & Hd1' & Hd2).
  assert (∀ y, y ∈ first :: l1 ++ l2 → is_Some (h !! y)) as Hin by (intros; by eapply seg_in_heap).
  set (e := after_or l2 first). set (p := before_or first l1).
  pose proof (after_or_elem l2 first) as Hen. fold e in Hen.
  assert (e ∉ l1) as Hel1.
  { intros He. apply elem_of_app in Hen as [Hen|Hen%list_elem_of_singleton]; [by apply (Hd1' e)|].
    rewrite Hen in He. set_solver. }
  assert (p ∈ l1) as Hp.
  { subst p. destruct l1 as [|y l1']; [done|]. rewrite before_or_cons. apply before_or_elem. }
  pose proof (seg_walk h first l1 l2 first Hs) as Hw. fold e in Hw.
  pose proof (seg_prev h first l1 l2 first Hs) as Hep. fold e p in Hep.
  assert (e = first ∨ (is_Some (h !! e) ∧ time < time_of h e)) as Hend.
  { subst e. destruct l2 as [|y r]; [by left|]. right. split; [apply Hin; set_solver|by eapply Hhead]. }
  clearbody e p. assert (first ≠ p) as Hpf by set_solver.
  unfold get_gen_expired_dlgs. destruct (Hin first ltac:(set_solver)) as [f Ef].
  pose proof (seg_next _ _ [] _ _ Hs) as Hfn. unfold before_or in Hfn; simpl in Hfn.
  pose proof Hfn as Hfn'. unfold hnext in Hfn'. rewrite Ef in Hfn' |- *. injection Hfn' as Hfn'.
  cbn [mbind option_bind]. rewrite Hfn'. set (x := after_or (l1 ++ l2) first) in *.
  assert (x ∈ l1) as Hx by (subst x; destruct l1; [done|]; set_solver).
  clearbody x. destruct (Hin x ltac:(set_solver)) as [nx Ex]. rewrite Ex. cbn [mbind option_bind].
  rewrite (proj2 (Z.eqb_neq x first)) by set_solver. cbn [orb].
  assert (tl_timeout nx <= time) as Hxt.
  { rewrite <- (time_of_lookup _ _ _ Ex). rewrite Forall_forall in Hle. auto. }
  rewrite (proj2 (Z.ltb_ge _ _) Hxt).
  destruct (expire_scan_ok first time e l1 (S (size h)) h x Hw Hd1) as (h1 & -> & He1); try done.
  { set_solver. }
  { pose proof (length_le_size h (first :: l1 ++ l2) Hd Hin) as Hlen. simpl in Hlen.
    rewrite length_app in Hlen. lia. }
  { intros; apply Hin; set_solver. }
  cbn [mbind option_bind].
  destruct (effect_lookup _ _ _ _ _ first He1 ltac:(apply Hin; set_solver))
    as (f1 & f2 & f3 & -> & Ef1 & _). cbn [mbind option_bind tl_next].
  rewrite Hfn in Ef1. injection Ef1 as <-.
  destruct (effect_lookup _ _ _ _ _ x He1 ltac:(by eexists)) as (x1 & x2 & x3 & -> & _ & Ex2 & _).
  unfold zeroed in Ex2. rewrite decide_True in Ex2 by done. injection Ex2 as <-.
  cbn [mbind option_bind tl_prev].
  replace ((e =? first) && negb (0 =? NULL)) with false by (by rewrite andb_false_r).
  destruct (effect_lookup _ _ _ _ _ e He1 ltac:(apply Hin; set_solver))
    as (e1 & e2 & e3 & -> & _ & Ee2 & _). cbn [mbind option_bind tl_prev].
  unfold zeroed in Ee2. rewrite decide_False, Hep in Ee2 by done. injection Ee2 as <-.
  destruct (set_next_effect h _ _ _ _ p FAKE_DIALOG_TL He1 ltac:(apply Hin; set_solver)) as (h2 & -> & He2).
  cbn [mbind option_bind].
  destruct (set_next_effect h _ _ _ _ first e He2 ltac:(apply Hin; set_solver)) as (h3 & -> & He3).
  cbn [mbind option_bind].
  destruct (set_prev_effect h _ _ _ _ e first He3 ltac:(apply Hin; set_solver)) as (h4 & -> & He4).
  by exists h4.
Qed.

(** Closing the list over a detached prefix. *)
Lemma seg_drop_prefix h h' a l1 l2 b :
  seg h a (l1 ++ l2) b → NoDup (l2 ++ [b]) →
  (∀ y, y ∈ l2 → hnext h' y = hnext h y) → hnext h' a = Some (after_or l2 b) →
  (∀ y, y ∈ l2 ++ [b] → y ≠ after_or l2 b → hprev h' y = hprev h y) →
  hprev h' (after_or l2 b) = Some a →
  seg h' a l2 b.
Proof.
  intros Hs Hd Hn Ha Hp Hb. unfold after_or in *. destruct l2 as [|y l2]; simpl in *; [done|].
  split_and!; [done..|]. apply seg_app in Hs as [_ Hs].
  apply NoDup_cons in Hd as [Hd _].
  eapply seg_ext; [..|exact Hs]; [set_solver|]. intros w Hw. apply Hp; set_solver.
Qed.

Lemma get_expired_some h first s time :
  timer_ok h first s → due time (live s) ≠ [] →
  ∃ h' ret, get_gen_expired_dlgs h first time = Some (h', ret)
    ∧ detached h' ret (due time (live s)).*1 FAKE_DIALOG_TL
    ∧ timer_inv (list_to_set (due time (live s)).*1) h' first (ATimer (not_due time (live s)) (gone s))
    ∧ dom h' = dom h ∧ size h' = size h.
Proof.
  intros Hi Hdue. destruct s as [q G]; simpl in *.
  pose proof (due_app time q) as Hq. pose proof (due_le time q) as Hle.
  pose proof (not_due_head time q) as Hhead.
  set (d := due time q) in *. set (r := not_due time q) in *. clearbody d r. subst q.
  destruct Hi as [Hs Hd Ht Hso Ho Hbz Hg Hn Hf]; simpl in *.
  assert (∀ e, e ∈ d ++ r → time_of h e.1 = e.2) as Htime.
  { intros e He. rewrite Forall_forall in Ht. unfold time_of. by rewrite (Ht e He). }
  rewrite !fmap_app in *. set (l1 := d.*1) in *. set (l2 := r.*1) in *.
  assert (l1 ≠ []) as Hl1 by (subst l1; by destruct d).
  destruct (get_expired_effect h first time l1 l2 Hs Hd Hl1) as (h' & E & He).
  { apply Forall_fmap. rewrite Forall_forall in Hle |- *. intros y Hy. simpl.
    rewrite Htime by set_solver. auto. }
  { intros y r' Hr. subst l2. destruct r as [|e r'']; [done|]. injection Hr as <- <-.
    rewrite Htime by set_solver. by eapply Hhead. }
  eexists h', _. split; [exact E|].
  pose proof Hd as [Hfirst Hd12]%NoDup_cons.
  pose proof (proj1 (NoDup_app _ _) Hd12) as (Hd1 & Hd1' & Hd2).
  pose proof (after_or_elem l2 first) as Hen.
  assert (after_or l2 first ∉ l1) as Hel1.
  { intros Hx. apply elem_of_app in Hen as [Hen|Hen%list_elem_of_singleton];
      [by apply (Hd1' (after_or l2 first))|]. rewrite Hen in Hx. set_solver. }
  assert (before_or first l1 ∈ l1) as Hp.
  { destruct l1 as [|y l1']; [done|]. rewrite before_or_cons. apply before_or_elem. }
  assert (∀ y, y ∈ l1 → y ≠ first ∧ y ≠ after_or l2 first) as Hl1f.
  { intros y Hy. split; [|by intros ->]. intros ->. apply Hfirst, elem_of_app. by left. }
  assert (∀ y, y ∈ l2 → y ≠ first ∧ y ≠ before_or first l1) as Hl2f.
  { intros y Hy. split; [|by intros ->; apply (Hd1' _ Hp)].
    intros ->. apply Hfirst, elem_of_app. by right. }
  split_and!; [| |apply He|apply He].
  - apply (walk_detached h h' l1 (after_or l2 first)); [| |exact Hl1|exact Hd1|by eapply seg_walk].
    + intros y n Hy Hyn Hne. destruct (Hl1f y Hy). apply lookup_fields. simpl.
      assert (y ≠ before_or first l1)
        by (intros ->; apply Hne; by destruct l1; [|rewrite !before_or_cons]).
      destruct He as [-> -> -> _ _]. unfold zeroed. rewrite !upd_ne, !decide_True by done. done.
    + intros y Hy. assert (y = before_or first l1) as -> by (unfold before_or; by rewrite Hy).
      destruct (Hl1f _ Hp). apply lookup_fields. simpl. destruct He as [-> -> -> _ _].
      unfold zeroed. rewrite upd_ne, upd_eq by done. split; [done|].
      by rewrite upd_ne, !decide_True by done.
  - constructor; simpl; try done.
    + apply (seg_drop_prefix h h' first l1 l2 first Hs).
      * apply nodup_ring, NoDup_cons. split; [|done]. intros ?. by apply Hfirst, elem_of_app; right.
      * intros y Hy. destruct (Hl2f y Hy). by rewrite (eff_next _ _ _ _ _ He), !upd_ne.
      * by rewrite (eff_next _ _ _ _ _ He), upd_eq.
      * intros y Hy Hne. rewrite (eff_prev _ _ _ _ _ He), upd_ne by done.
        unfold zeroed. rewrite decide_False; [done|]. intros Hy1.
        apply elem_of_app in Hy as [Hy|Hy%list_elem_of_singleton]; [by apply (Hd1' y)|].
        by destruct (Hl1f y Hy1).
      * by rewrite (eff_prev _ _ _ _ _ He), upd_eq.
    + apply NoDup_cons. split; [|done]. intros ?. by apply Hfirst, elem_of_app; right.
    + apply Forall_app in Ht as [_ Ht]. rewrite Forall_forall in Ht |- *. intros e Hin.
      rewrite (eff_time _ _ _ _ _ He). unfold zeroed. rewrite decide_False; [auto|].
      intros Hx. apply (Hd1' _ Hx). apply list_elem_of_fmap. eauto.
    + by eapply sorted_app_r.
    + intros a n Ha Hao Hbusy. rewrite elem_of_list_to_set in Hbusy.
      assert (a ≠ first ∧ a ≠ before_or first l1 ∧ a ≠ after_or l2 first) as (Ha1 & Ha2 & Ha3).
      { split_and!; [set_solver|by intros ->|]. intros ->. apply Hao, elem_of_cons.
        apply elem_of_app in Hen as [?|?%list_elem_of_singleton]; auto. }
      apply (Ho a n); [|set_solver|set_solver]. rewrite <- Ha. symmetry.
      apply (effect_lookup_same _ _ _ _ _ a He); [by rewrite !upd_ne| |];
        unfold zeroed; rewrite ?upd_ne by done; by rewrite decide_False.
    + intros a Ha%elem_of_list_to_set [->|Hx]%elem_of_cons; [by destruct (Hl1f first Ha)|].
      by apply (Hd1' a).
    + intros a Ha Hx. apply (Hg a Ha). set_solver.
    + by eapply effect_none.
    + by eapply effect_none.
Qed.

(** Either way. *)
Lemma get_expired_ok h first s time :
  timer_ok h first s →
  ∃ h' ret, get_gen_expired_dlgs h first time = Some (h', ret)
    ∧ detached h' ret (due time (live s)).*1 FAKE_DIALOG_TL
    ∧ timer_inv (list_to_set (due time (live s)).*1) h' first (ATimer (not_due time (live s)) (gone s))
    ∧ dom h' = dom h ∧ size h' = size h.
Proof.
  intros Hi. destruct (decide (due time (live s) = [])) as [Hd|]; [|by apply get_expired_some].
  exists h, FAKE_DIALOG_TL. rewrite (get_expired_none h first s) by done.
  pose proof (due_app time (live s)) as Hq. rewrite Hd in Hq |- *. simpl in *.
  rewrite <- Hq. destruct s; by split_and!.
Qed.

(** ** The loops of [dlg_timer_routine] *)

Definition retire (a : Z) (s : atimer) : atimer := ATimer (live s) ({[a]} ∪ gone s).

(** The node at the head of the detached list is marked as expired. *)
Lemma retire_detached h first s a n l :
  timer_inv (list_to_set (a :: l)) h first s → a ∉ l → h !! a = Some (Tl n NULL 0) →
  detached h n l FAKE_DIALOG_TL →
  ∃ h', set_next h a FAKE_DIALOG_TL = Some h' ∧ timer_inv (list_to_set l) h' first (retire a s)
    ∧ detached h' n l FAKE_DIALOG_TL.
Proof.
  intros [Hs Hd Ht Hso Ho Hbz Hg Hn Hf] Hal Ha Hdet.
  unfold set_next. rewrite Ha. simpl. eexists; split; [done|].
  assert (a ∉ first :: (live s).*1) as Hout by (apply Hbz; set_solver).
  assert (∀ y, y ≠ a → <[a := Tl FAKE_DIALOG_TL NULL 0]> h !! y = h !! y) as Hsame
    by (intros; by rewrite lookup_insert_ne).
  split.
  - constructor; simpl; try done.
    + eapply seg_ext; [..|exact Hs]; intros y Hy; unfold hnext, hprev; rewrite Hsame; set_solver.
    + rewrite Forall_forall in Ht |- *. intros e He. unfold htime. rewrite Hsame; [by apply Ht|].
      intros <-. apply Hout, elem_of_cons. right. apply list_elem_of_fmap. eauto.
    + intros b m Hb Hbo Hbl. destruct (decide (b = a)) as [->|Hba].
      * rewrite lookup_insert_eq in Hb. injection Hb as <-. by rewrite decide_True by set_solver.
      * rewrite Hsame in Hb by done. rewrite (Ho b m Hb Hbo) by set_solver.
        repeat case_decide; set_solver.
    + intros b Hb. apply Hbz. set_solver.
    + intros b [->%elem_of_singleton|Hb]%elem_of_union; [done|auto].
    + rewrite Hsame; [done|]. intros <-. congruence.
    + rewrite Hsame; [done|]. intros <-. congruence.
  - clear -Hdet Hal Hsame. revert n Hdet. induction l as [|y l IH]; intros n; simpl; [done|].
    intros (-> & m & Hy & Hdet). split; [done|]. exists m. rewrite Hsame by set_solver.
    split; [done|]. apply IH; [set_solver|done].
Qed.

Section routine.
Context (get : timers → heap) (put : timers → heap → timers) (first : Z).
Context (Hget : ∀ σ h, get (put σ h) = h).
Context (hdl : timers → Z → option timers).

(** What the handler may do to the timer, as a relation on abstract timers: it
    keeps the invariant and leaves the nodes still to be handled alone. *)
Context (R : Z → atimer → atimer → Prop).
Definition handler_respects : Prop :=
  ∀ σ a s x l, timer_inv (list_to_set l) (get σ) first s → detached (get σ) x l FAKE_DIALOG_TL →
  ∃ σ' s', hdl σ a = Some σ' ∧ R a s s' ∧ timer_inv (list_to_set l) (get σ') first s'
    ∧ detached (get σ') x l FAKE_DIALOG_TL.

(** The abstract effect of handling the nodes of a list in order. *)
Inductive handled : list Z → atimer → atimer → Prop :=
  | handled_nil s : handled [] s s
  | handled_cons a l s s1 s2 : R a (retire a s) s1 → handled l s1 s2 → handled (a :: l) s s2.

Lemma run_expired_ok (Hh : handler_respects) : ∀ l fuel σ x s,
  timer_inv (list_to_set l) (get σ) first s → detached (get σ) x l FAKE_DIALOG_TL → NoDup l →
  (length l < fuel)%nat →
  ∃ σ' s', run_expired get put hdl fuel σ x = Some (σ', l) ∧ handled l s s'
    ∧ timer_ok (get σ') first s'.
Proof.
  induction l as [|a l IH]; intros [|fuel] σ x s Hi Hdet Hd Hf; simpl in Hf; try lia.
  - simpl in Hdet. subst x. simpl. exists σ, s. split_and!; [done|constructor|done].
  - destruct Hdet as (-> & n & Ha & Hdet). apply NoDup_cons in Hd as [Hal Hd].
    assert (a ≠ FAKE_DIALOG_TL) as Hfk by (intros ->; rewrite (tm_fake _ _ _ _ Hi) in Ha; done).
    destruct (retire_detached (get σ) first s a n l Hi Hal Ha Hdet) as (h1 & E1 & Hi1 & Hd1).
    simpl. rewrite (proj2 (Z.eqb_neq _ _) Hfk), Ha. simpl. rewrite E1. simpl.
    destruct (Hh (put σ h1) a (retire a s) n l) as (σ1 & s1 & -> & HR & Hi2 & Hd2);
      [by rewrite Hget..|]. simpl.
    destruct (IH fuel σ1 n s1 Hi2 Hd2 Hd ltac:(lia)) as (σ2 & s2 & -> & Hhd & Hok).
    simpl. exists σ2, s2. split_and!; [done|by econstructor|done].
Qed.
End routine.

(** A property of the delete timer that the dialog handler keeps. *)
Lemma run_expired_keeps hdl (P : heap → Prop)
    (Hk : ∀ σ a σ', hdl σ a = Some σ' → P (ddel_heap σ) → P (ddel_heap σ')) : ∀ fuel σ x σ' l,
  run_expired d_heap put_d hdl fuel σ x = Some (σ', l) → P (ddel_heap σ) → P (ddel_heap σ').
Proof.
  induction fuel as [|fuel IH]; intros σ x σ' l; simpl; [done|].
  case_match; [by intros [= <- _]|]. destruct (d_heap σ !! x) as [t|]; [|done]. simpl.
  destruct (set_next _ _ _) as [h|]; [|done]. simpl.
  destruct (hdl _ x) as [σ1|] eqn:Eh; [|done]. simpl.
  destruct (run_expired _ _ _ _ _ _) as [[σ2 c]|] eqn:E; [|done]. simpl. intros [= <- _] HP.
  eapply IH; [exact E|]. by apply (Hk _ _ _ Eh).
Qed.
