(* ===== verification/DlgTimerSpec.v ===== *)
(** * DlgTimerSpec: what the dialog timers promise (modules/dialog/dlg_timer.c)

    The refinement of the abstract timer by the list in the heap over any
    sequence of operations, the functional behaviour of each operation, and the
    order in which the timer routine hands expired nodes to the handlers. *)

From stdpp Require Import prelude list sorting gmap.
From Stdlib Require Import ZArith Lia.
From S2P Require Import Prelude DlgTimer DlgTimerFacts DlgTimerInv.

(** ** Sequences of operations *)

Inductive timer_op :=
  | TInsert (a ticks interval : Z)
  | TAttempt (a ticks interval : Z)
  | TRemove (a : Z)
  | TUpdate (a ticks timeout : Z)
  | TTick (ticks : Z).

Definition op_node (o : timer_op) : option Z :=
  match o with
  | TInsert a _ _ | TAttempt a _ _ | TRemove a | TUpdate a _ _ => Some a
  | TTick _ => None
  end.

(** The result of an operation: its return code, or the nodes handed to the
    handler.  The handlers of this sequence do nothing. *)
Definition no_op_handler (σ : timers) (_ : Z) : option timers := Some σ.

Definition run_timer_op (h : heap) (first : Z) (o : timer_op) : option (heap * list Z) :=
  match o with
  | TInsert a ticks i => '(h, r) ← insert_dlg_timer h first a ticks i; Some (h, [r])
  | TAttempt a ticks i => '(h, r) ← insert_attempt_dlg_del_timer h first a ticks i; Some (h, [r])
  | TRemove a => '(h, r) ← remove_dlg_timer h a; Some (h, [r])
  | TUpdate a ticks t => '(h, r) ← update_dlg_timer h first a ticks t; Some (h, [r])
  | TTick ticks =>
      '(σ, calls, _) ← dlg_timer_routine no_op_handler no_op_handler first 0 0 (Timers h ∅) ticks;
      Some (d_heap σ, calls)
  end.

Definition spec_timer_op (s : atimer) (o : timer_op) : atimer * list Z :=
  match o with
  | TInsert a ticks i => let '(s, r) := spec_insert s a (u32 (ticks + i)) in (s, [r])
  | TAttempt a ticks i => let '(s, r) := spec_attempt s a (u32 (ticks + i)) in (s, [r])
  | TRemove a => let '(s, r) := spec_remove s a in (s, [r])
  | TUpdate a ticks t => let '(s, r) := spec_update s a (u32 (ticks + t)) in (s, [r])
  | TTick ticks =>
      let out := (due ticks (live s)).*1 in
      (ATimer (not_due ticks (live s)) (list_to_set out ∪ gone s), out)
  end.

Fixpoint run_timer_ops (h : heap) (first : Z) (os : list timer_op) : option (heap * list (list Z)) :=
  match os with
  | [] => Some (h, [])
  | o :: os' =>
      '(h, r) ← run_timer_op h first o;
      '(h, rs) ← run_timer_ops h first os';
      Some (h, r :: rs)
  end.
Fixpoint spec_timer_ops (s : atimer) (os : list timer_op) : atimer * list (list Z) :=
  match os with
  | [] => (s, [])
  | o :: os' =>
      let '(s, r) := spec_timer_op s o in
      let '(s, rs) := spec_timer_ops s os' in
      (s, r :: rs)
  end.

(** ** Auxiliary facts *)

Lemma due_nodup h first s time : timer_ok h first s → NoDup (due time (live s)).*1.
Proof.
  intros Hi. pose proof (tm_nodup _ _ _ _ Hi) as [_ Hd]%NoDup_cons.
  rewrite (due_app time (live s)), fmap_app in Hd. by apply NoDup_app in Hd as [? _].
Qed.

Lemma due_length h first s time : timer_ok h first s → (length (due time (live s)).*1 <= size h)%nat.
Proof.
  intros Hi. apply length_le_size; [by eapply due_nodup|]. intros y Hy.
  eapply seg_in_heap; [apply Hi|]. apply elem_of_cons. right.
  rewrite (due_app time (live s)), fmap_app. apply elem_of_app. by left.
Qed.

(** One timer of the routine, with any handler that respects it. *)
Lemma expire_and_run get put first hdl R σ s time :
  (∀ σ h, get (put σ h) = h) → handler_respects get first hdl R → timer_ok (get σ) first s →
  ∃ h ret σ' s', get_gen_expired_dlgs (get σ) first time = Some (h, ret)
    ∧ run_expired get put hdl (S (size h)) (put σ h) ret = Some (σ', (due time (live s)).*1)
    ∧ handled R (due time (live s)).*1 (ATimer (not_due time (live s)) (gone s)) s'
    ∧ timer_ok (get σ') first s'.
Proof.
  intros Hget Hh Hok. destruct (get_expired_ok (get σ) first s time Hok) as (h & ret & E & Hdet & Hi & _ & Hs).
  destruct (run_expired_ok get put first Hget hdl R Hh (due time (live s)).*1 (S (size h)) (put σ h) ret
              (ATimer (not_due time (live s)) (gone s))) as (σ' & s' & E' & Hhd & Hok');
    rewrite ?Hget; auto.
  - by eapply due_nodup.
  - rewrite Hs. pose proof (due_length (get σ) first s time Hok). lia.
  - exists h, ret, σ', s'. by split_and!.
Qed.

Definition unchanged (_ : Z) (s s' : atimer) : Prop := s' = s.

Lemma no_op_respects get first : handler_respects get first no_op_handler unchanged.
Proof. intros σ a s x l Hi Hd. by exists σ, s. Qed.

Lemma handled_unchanged l : ∀ s s',
  handled unchanged l s s' → s' = ATimer (live s) (list_to_set l ∪ gone s).
Proof.
  induction l as [|a l IH]; intros s s' Hh; inversion Hh; subst; simpl.
  - destruct s'. f_equal. set_solver.
  - match goal with H : unchanged _ _ _ |- _ => unfold unchanged in H; subst end.
    match goal with H : handled _ l _ _ |- _ => apply IH in H as -> end.
    simpl. f_equal. set_solver.
Qed.

Lemma run_no_op_dom fuel : ∀ σ x σ' l,
  run_expired d_heap put_d no_op_handler fuel σ x = Some (σ', l) → dom (d_heap σ') = dom (d_heap σ).
Proof.
  induction fuel as [|fuel IH]; intros σ x σ' l; simpl; [done|].
  case_match; [by intros [= <- _]|]. destruct (d_heap σ !! x) as [t|] eqn:Ex; [|done]. simpl.
  unfold set_next. rewrite Ex. simpl.
  destruct (run_expired _ _ _ _ _ _) as [[σ1 c]|] eqn:E; [|done]. simpl. intros [= <- _].
  apply IH in E as ->. simpl. by rewrite dom_insert_lookup_L.
Qed.

Lemma run_timer_op_ok h first s o :
  timer_ok h first s → (∀ a, op_node o = Some a → is_Some (h !! a) ∧ a ≠ first) →
  ∃ h', run_timer_op h first o = Some (h', (spec_timer_op s o).2)
    ∧ timer_ok h' first (spec_timer_op s o).1 ∧ dom h' = dom h.
Proof.
  intros Hok Hn. destruct o as [a t i|a t i|a|a t i|t]; simpl in *.
  1-4: destruct (Hn a eq_refl) as [Ha Hf].
  - destruct (insert_dlg_timer_ok h first s Hok a Ha Hf t i) as (h' & -> & ? & ?).
    exists h'. by destruct (spec_insert s a _).
  - destruct (insert_attempt_ok h first s Hok a Ha Hf t i) as (h' & -> & ? & ?).
    exists h'. by destruct (spec_attempt s a _).
  - destruct (remove_dlg_timer_ok h first s Hok a Ha Hf) as (h' & -> & ? & ?).
    exists h'. by destruct (spec_remove s a).
  - destruct (update_dlg_timer_ok h first s Hok a Ha Hf t i) as (h' & -> & ? & ?).
    exists h'. by destruct (spec_update s a _).
  - destruct (get_expired_ok h first s t Hok) as (h1 & ret & E & _ & _ & Hd & _).
    destruct (expire_and_run d_heap put_d first no_op_handler unchanged (Timers h ∅) s t)
      as (h2 & ret2 & σ' & s' & E2 & Er & Hhd & Hok'); [done|apply no_op_respects|done|].
    simpl in E2. rewrite E in E2. injection E2 as <- <-.
    unfold dlg_timer_routine. simpl d_heap. rewrite E. cbn [mbind option_bind].
    rewrite Er. cbn [mbind option_bind]. exists (d_heap σ'). split; [done|].
    apply handled_unchanged in Hhd as ->. split; [done|].
    by rewrite (run_no_op_dom _ _ _ _ _ Er).
Qed.

Lemma run_timer_ops_ok os : ∀ h first s,
  timer_ok h first s →
  Forall (λ o, ∀ a, op_node o = Some a → is_Some (h !! a) ∧ a ≠ first) os →
  ∃ h', run_timer_ops h first os = Some (h', (spec_timer_ops s os).2)
    ∧ timer_ok h' first (spec_timer_ops s os).1.
Proof.
  induction os as [|o os IH]; intros h first s Hok Hn; simpl; [eauto|].
  apply Forall_cons in Hn as [Ho Hn].
  destruct (run_timer_op_ok h first s o Hok Ho) as (h1 & -> & Hok1 & Hd). simpl.
  destruct (spec_timer_op s o) as [s1 r]. simpl in *.
  destruct (IH h1 first s1 Hok1) as (h' & -> & Hok').
  { eapply Forall_impl; [exact Hn|]. intros o' Ho' a Ea. destruct (Ho' a Ea) as [Ha ?].
    split; [|done]. apply elem_of_dom. rewrite Hd. by apply elem_of_dom. }
  simpl. destruct (spec_timer_ops s1 os) as [s2 rs]. simpl in *. eauto.
Qed.

(** The nodes of a set, zeroed as [shm_malloc]'s callers leave them. *)
Definition idle_nodes (N : gset Z) : heap := gset_to_gmap (Tl NULL NULL 0) N.

Lemma init_timer_ok (N : gset Z) first :
  first ∉ N → first ≠ NULL → first ≠ FAKE_DIALOG_TL → NULL ∉ N → FAKE_DIALOG_TL ∉ N →
  timer_ok (<[first := Tl first first 0]> (idle_nodes N)) first (ATimer [] ∅).
Proof.
  intros Hf H0 H1 H2 H3. unfold idle_nodes. constructor; simpl.
  - unfold hnext, hprev. by rewrite lookup_insert_eq.
  - apply NoDup_singleton.
  - constructor.
  - constructor.
  - intros a n Ha Ho _. rewrite lookup_insert_ne in Ha by set_solver.
    by apply lookup_gset_to_gmap_Some in Ha as [_ <-].
  - intros a Ha. by apply elem_of_empty in Ha.
  - intros a Ha. by apply elem_of_empty in Ha.
  - rewrite lookup_insert_ne by done. by apply lookup_gset_to_gmap_None.
  - rewrite lookup_insert_ne by done. by apply lookup_gset_to_gmap_None.
Qed.

(** ** Theorems *)

(** C33. The timer refines its abstract queue: from the initial timer over any set
    [N] of zeroed nodes, any sequence of insertions, delete-timer attempts,
    removals, updates and timer ticks on nodes of [N] runs without touching an
    invalid pointer, every return code and every list of expired nodes is the one
    of the abstract queue, and the list in memory ends as the sorted queue. *)
Theorem dlg_timer_refines (N : gset Z) first os
    (Hf : first ∉ N) (Hf0 : first ≠ NULL) (Hf1 : first ≠ FAKE_DIALOG_TL)
    (HN0 : NULL ∉ N) (HN1 : FAKE_DIALOG_TL ∉ N)
    (Hos : Forall (λ o, ∀ a, op_node o = Some a → a ∈ N) os) :
  ∃ h0 h', init_gen_dlg_timer (idle_nodes N) first true true true = Some h0
    ∧ run_timer_ops h0 first os = Some (h', (spec_timer_ops (ATimer [] ∅) os).2)
    ∧ timer_ok h' first (spec_timer_ops (ATimer [] ∅) os).1.
Proof.
  eexists. destruct (run_timer_ops_ok os (<[first := Tl first first 0]> (idle_nodes N)) first (ATimer [] ∅))
    as (h' & E & Hok); [by apply init_timer_ok| |by exists h'].
  eapply Forall_impl; [exact Hos|]. intros o Ho a Ea. specialize (Ho a Ea).
  split; [|set_solver]. unfold idle_nodes. rewrite lookup_insert_ne by set_solver.
  exists (Tl NULL NULL 0). by apply lookup_gset_to_gmap_Some.
Qed.

(** The timer routine hands to the dialog handler exactly the nodes whose
    timeout is not after [ticks], in the order of their timeouts, each once, and
    then, unless there is no delete delay, to the delete handler exactly the nodes
    of the delete timer due at that moment.  The handlers may do anything that
    keeps the timers well formed and leaves the nodes still to be handled alone. *)
Theorem dlg_timer_routine_order hdl del_hdl R Rd first del_first delay σ s sd ticks
    (Hh : handler_respects d_heap first hdl R)
    (Hd : handler_respects ddel_heap del_first del_hdl Rd)
    (Hkeep : ∀ σ a σ', hdl σ a = Some σ' → (∃ sd, timer_ok (ddel_heap σ) del_first sd) →
                       ∃ sd, timer_ok (ddel_heap σ') del_first sd)
    (Hok : timer_ok (d_heap σ) first s) (Hokd : timer_ok (ddel_heap σ) del_first sd) :
  ∃ h ret σ1 sd1 σ',
    get_gen_expired_dlgs (d_heap σ) first ticks = Some (h, ret)
    ∧ run_expired d_heap put_d hdl (S (size h)) (put_d σ h) ret = Some (σ1, (due ticks (live s)).*1)
    ∧ timer_ok (ddel_heap σ1) del_first sd1
    ∧ dlg_timer_routine hdl del_hdl first del_first delay σ ticks =
      Some (σ', (due ticks (live s)).*1, if delay =? 0 then [] else (due ticks (live sd1)).*1).
Proof.
  destruct (expire_and_run d_heap put_d first hdl R σ s ticks (λ _ _, eq_refl) Hh Hok)
    as (h & ret & σ1 & s1 & E1 & E2 & _ & _).
  destruct (run_expired_keeps hdl (λ h, ∃ sd, timer_ok h del_first sd) Hkeep _ _ _ _ _ E2)
    as [sd1 Hsd1]; [by exists sd|].
  destruct (expire_and_run ddel_heap put_ddel del_first del_hdl Rd σ1 sd1 ticks (λ _ _, eq_refl) Hd Hsd1)
    as (hd & retd & σ2 & s2 & F1 & F2 & _ & _).
  exists h, ret, σ1, sd1, (if delay =? 0 then σ1 else σ2). split_and!; [done..|].
  unfold dlg_timer_routine. rewrite E1. cbn [mbind option_bind]. rewrite E2. cbn [mbind option_bind].
  destruct (delay =? 0); [done|]. rewrite F1. cbn [mbind option_bind]. by rewrite F2.
Qed.

(** A dialog removed from its timer cannot be put back: after
    [remove_dlg_timer], both [insert_dlg_timer] (with an error) and
    [update_dlg_timer] leave the list as it is; [update_dlg_timer] returns 0, which
    its comment documents as "inserted in timer list with the new timeout". *)
Theorem removed_node_stays_out h first s a ticks t
    (Hok : timer_ok h first s) (Ha : a ∈ (live s).*1) :
  ∃ h', remove_dlg_timer h a = Some (h', 0)
    ∧ update_dlg_timer h' first a ticks t = Some (h', 0)
    ∧ insert_dlg_timer h' first a ticks t = Some (h', -1)
    ∧ timer_ok h' first (ATimer (dequeue a (live s)) ({[a]} ∪ gone s)).
Proof.
  destruct (seg_not_null _ _ _ _ a Hok Ha) as (n & Hn & _).
  assert (a ≠ first) as Hf.
  { intros ->. pose proof (tm_nodup _ _ _ _ Hok) as [? _]%NoDup_cons. done. }
  destruct (remove_dlg_timer_ok h first s Hok a ltac:(by eexists) Hf) as (h' & E & Hok' & Hd).
  unfold spec_remove in *. rewrite decide_True in * by done. simpl in *.
  assert (h' !! a = Some (Tl FAKE_DIALOG_TL NULL 0)) as Ha'.
  { rewrite (out_node h' first _ a Hok'); simpl.
    - by rewrite decide_True by set_solver.
    - apply elem_of_dom. rewrite Hd. apply elem_of_dom. by eexists.
    - apply (tm_gone _ _ _ _ Hok'). simpl. set_solver. }
  exists h'. unfold update_dlg_timer, insert_dlg_timer. by rewrite Ha'.
Qed.

(** [_get_gen_expired_dlgs] detaches exactly the due prefix of the queue, in
    order, as a list ended by [FAKE_DIALOG_TL] whose nodes have neither a previous
    node nor a timeout, and leaves the rest of the queue linked. *)
Theorem get_expired_detaches_due h first s time (Hok : timer_ok h first s) :
  ∃ h' ret, get_gen_expired_dlgs h first time = Some (h', ret)
    ∧ detached h' ret (due time (live s)).*1 FAKE_DIALOG_TL
    ∧ seg h' first (not_due time (live s)).*1 first
    ∧ Forall (λ e, e.2 <= time) (due time (live s))
    ∧ Forall (λ e, time < e.2) (not_due time (live s)).
Proof.
  destruct (get_expired_ok h first s time Hok) as (h' & ret & E & Hdet & Hi & _).
  exists h', ret. split_and!; [done|done|apply Hi|apply due_le|].
  pose proof (tm_sorted _ _ _ _ Hi) as Hs. simpl in Hs.
  destruct (not_due time (live s)) as [|e r] eqn:En; [done|].
  pose proof (not_due_head time (live s) e r En) as He.
  apply StronglySorted_inv in Hs as [_ Hs]. constructor; [done|].
  eapply Forall_impl; [exact Hs|]. unfold by_timeout. intros; lia.
Qed.

(** ** The hypotheses hold on concrete timers *)

Definition demo_ops : list timer_op :=
  [TInsert 20 0 7; TInsert 10 0 5; TUpdate 20 0 9; TTick 6; TRemove 20; TUpdate 10 6 5].

Lemma dlg_timer_refines_witness :
  ∃ h0 h', init_gen_dlg_timer (idle_nodes {[10; 20]}) 1 true true true = Some h0
    ∧ run_timer_ops h0 1 demo_ops = Some (h', [[0]; [0]; [0]; [10]; [0]; [0]])
    ∧ timer_ok h' 1 (ATimer [] {[10; 20]}).
Proof.
  destruct (dlg_timer_refines {[10; 20]} 1 demo_ops) as (h0 & h' & E & Er & Hok);
    [apply (bool_decide_unpack _); by vm_compute..| |].
  - repeat constructor; simpl; intros a [= <-]; apply (bool_decide_unpack _); by vm_compute.
  - exists h0, h'. split_and!; [done|exact Er|].
    replace {[10; 20]} with (gone (spec_timer_ops (ATimer [] ∅) demo_ops).1); [exact Hok|].
    by apply (bool_decide_unpack _); vm_compute.
Defined.

Lemma demo_timer : ∃ h, timer_ok h 1 (ATimer [(10, 5); (20, 7)] ∅).
Proof.
  destruct (run_timer_ops_ok [TInsert 20 0 7; TInsert 10 0 5]
              (<[1 := Tl 1 1 0]> (idle_nodes {[10; 20]})) 1 (ATimer [] ∅)) as (h & _ & Hok).
  - apply init_timer_ok; apply (bool_decide_unpack _); by vm_compute.
  - do 2 (apply Forall_cons; split; [intros a [= <-]; by split; [eexists; vm_compute|]|]).
    apply Forall_nil_2.
  - exists h. exact Hok.
Qed.

Lemma dlg_timer_routine_witness :
  ∃ h h1 ret σ1 sd1 σ',
    get_gen_expired_dlgs h 1 6 = Some (h1, ret)
    ∧ run_expired d_heap put_d no_op_handler (S (size h1)) (Timers h1 h) ret = Some (σ1, [10])
    ∧ timer_ok (ddel_heap σ1) 1 sd1
    ∧ dlg_timer_routine no_op_handler no_op_handler 1 1 0 (Timers h h) 6 = Some (σ', [10], []).
Proof.
  destruct demo_timer as [h Hok]. exists h.
  apply (dlg_timer_routine_order no_op_handler no_op_handler unchanged unchanged 1 1 0 (Timers h h)
           (ATimer [(10, 5); (20, 7)] ∅) (ATimer [(10, 5); (20, 7)] ∅) 6).
  - apply no_op_respects.
  - apply no_op_respects.
  - by intros σ a σ' [= <-].
  - exact Hok.
  - exact Hok.
Defined.

Lemma removed_node_witness :
  ∃ h h', remove_dlg_timer h 20 = Some (h', 0)
    ∧ update_dlg_timer h' 1 20 3 4 = Some (h', 0)
    ∧ insert_dlg_timer h' 1 20 3 4 = Some (h', -1)
    ∧ timer_ok h' 1 (ATimer [(10, 5)] ({[20]} ∪ ∅)).
Proof.
  destruct demo_timer as [h Hok]. exists h.
  apply (removed_node_stays_out h 1 _ 20 3 4 Hok). apply (bool_decide_unpack _); by vm_compute.
Defined.

Lemma get_expired_witness :
  ∃ h h' ret, get_gen_expired_dlgs h 1 6 = Some (h', ret)
    ∧ detached h' ret [10] FAKE_DIALOG_TL ∧ seg h' 1 [20] 1
    ∧ Forall (λ e, e.2 <= 6) [(10, 5)] ∧ Forall (λ e, 6 < e.2) [(20, 7)].
Proof.
  destruct demo_timer as [h Hok]. exists h.
  apply (get_expired_detaches_due h 1 (ATimer [(10, 5); (20, 7)] ∅) 6 Hok).
Defined.
