(* ===== verification/DlgHash.v ===== *)
(** * DlgHash: the dialog table (modules/dialog/dlg_hash.c and dlg_hash.h)

    The dialogs, their hash table, reference counts and state machine.  Dialogs
    are known by address; the doubly linked list of a bucket is the sequence of
    the addresses linked in it.  The members [tl] and [del_tl] of a dialog are the
    nodes at its address in the heaps of the two timers.  An operation runs under
    the lock of the bucket and is one step; [None] is an [abort()] or an access to
    a dialog that was freed. *)

From stdpp Require Import prelude list gmap.
From Stdlib Require Import ZArith Lia.
From S2P Require Import Prelude CString HashFunc DlgTimer.

(** ** Data *)

Inductive dlg_state :=
  | DLG_STATE_UNCONFIRMED | DLG_STATE_EARLY | DLG_STATE_CONFIRMED_NA
  | DLG_STATE_CONFIRMED | DLG_STATE_DELETED.
#[export] Instance dlg_state_eq_dec : EqDecision dlg_state.
Proof. solve_decision. Defined.

(** The numeric values of the states. *)
Definition state_no (q : dlg_state) : Z :=
  match q with
  | DLG_STATE_UNCONFIRMED => 1 | DLG_STATE_EARLY => 2 | DLG_STATE_CONFIRMED_NA => 3
  | DLG_STATE_CONFIRMED => 4 | DLG_STATE_DELETED => 5
  end.

Inductive dlg_event :=
  | DLG_EVENT_TDEL | DLG_EVENT_RPL1xx | DLG_EVENT_RPL2xx | DLG_EVENT_RPL3xx
  | DLG_EVENT_REQPRACK | DLG_EVENT_REQACK | DLG_EVENT_REQBYE | DLG_EVENT_REQ
  | DLG_EVENT_UNKNOWN.
#[export] Instance dlg_event_eq_dec : EqDecision dlg_event.
Proof. solve_decision. Defined.

Definition DLG_DIR_NONE : Z := 0.
Definition DLG_DIR_DOWNSTREAM : Z := 1.
Definition DLG_DIR_UPSTREAM : Z := 2.

(** [struct dlg_cell]: the members the table works with.  [legs] holds the tags of
    the legs in use, the caller's first; [has_bye] is the bit [DLG_FLAG_HASBYE] of
    the flags; [leg_200ok] is [legs_no\[DLG_LEG_200OK\]]. *)
Record dlg_cell := DlgCell {
  d_ref : Z;
  d_h_id : Z;
  d_h_entry : Z;
  d_state : dlg_state;
  d_has_bye : bool;
  d_del_delay : Z;
  d_callid : bytes;
  d_legs : list bytes;
  d_leg_200ok : Z;
}.
Definition with_ref c n := DlgCell n (d_h_id c) (d_h_entry c) (d_state c) (d_has_bye c)
  (d_del_delay c) (d_callid c) (d_legs c) (d_leg_200ok c).
Definition with_h_id c n := DlgCell (d_ref c) n (d_h_entry c) (d_state c) (d_has_bye c)
  (d_del_delay c) (d_callid c) (d_legs c) (d_leg_200ok c).
Definition with_dstate c q := DlgCell (d_ref c) (d_h_id c) (d_h_entry c) q (d_has_bye c)
  (d_del_delay c) (d_callid c) (d_legs c) (d_leg_200ok c).
Definition with_bye c := DlgCell (d_ref c) (d_h_id c) (d_h_entry c) (d_state c) true
  (d_del_delay c) (d_callid c) (d_legs c) (d_leg_200ok c).

(** [struct dlg_entry] *)
Record dlg_entry := DlgEntry { e_cells : list Z; e_next_id : Z; e_cnt : Z }.

(** The dialogs, the table and the timers of the module. *)
Record dlg_sys := DlgSys {
  cells : gmap Z dlg_cell;
  entries : list dlg_entry;
  tmr : timers;
}.
Definition with_cells s m := DlgSys m (entries s) (tmr s).
Definition with_entries s l := DlgSys (cells s) l (tmr s).
Definition with_tmr s t := DlgSys (cells s) (entries s) t.
Definition put_cell s a c := with_cells s (<[a := c]> (cells s)).

(** The module parameter [dlg_del_delay], the clock and the addresses of the
    sentinels of the two timers. *)
Record dlg_env := DlgEnv {
  dlg_del_delay : Z;
  env_ticks : Z;
  env_first : Z;
  env_del_first : Z;
}.

(** ** Creation and linking *)

(** [build_new_dlg]: a zeroed cell in the unconfirmed state, on the bucket of its
    Call-ID; [legs] is filled later. *)
Definition build_new_dlg (size : Z) (callid : bytes) : dlg_cell :=
  DlgCell 0 0 (core_hash callid None size) DLG_STATE_UNCONFIRMED false 0 callid [] 0.

(** [link_dlg_unsafe] on the bucket of the dialog *)
Definition link_dlg_unsafe (s : dlg_sys) (a : Z) : option dlg_sys :=
  c ← cells s !! a;
  e ← entries s !! Z.to_nat (d_h_entry c);
  let c := with_h_id c (e_next_id e) in
  let c := with_ref c (i32 (d_ref c + 1)) in
  let e := DlgEntry (e_cells e ++ [a]) (u32 (e_next_id e + 1)) (u32 (e_cnt e + 1)) in
  Some (with_entries (put_cell s a c) (<[Z.to_nat (d_h_entry c) := e]> (entries s))).

Definition link_dlg (s : dlg_sys) (a extra_refs : Z) : option dlg_sys :=
  s ← link_dlg_unsafe s a;
  c ← cells s !! a;
  Some (put_cell s a (with_ref c (i32 (d_ref c + extra_refs)))).

Definition unlink_unsafe_dlg (s : dlg_sys) (a : Z) : option dlg_sys :=
  c ← cells s !! a;
  e ← entries s !! Z.to_nat (d_h_entry c);
  let e := DlgEntry (filter (λ b, b ≠ a) (e_cells e)) (e_next_id e) (u32 (e_cnt e - 1)) in
  Some (with_entries s (<[Z.to_nat (d_h_entry c) := e]> (entries s))).

(** [destroy_dlg]: out of the timer, then freed together with its timer nodes. *)
Definition destroy_dlg (s : dlg_sys) (a : Z) : option dlg_sys :=
  '(h, _) ← remove_dlg_timer (d_heap (tmr s)) a;
  Some (DlgSys (delete a (cells s)) (entries s)
          (Timers (delete a h) (delete a (ddel_heap (tmr s))))).

(** ** Reference counts *)

Definition ref_dlg_unsafe (s : dlg_sys) (a cnt : Z) : option dlg_sys :=
  c ← cells s !! a;
  Some (put_cell s a (with_ref c (i32 (d_ref c + cnt)))).

Definition unref_dlg_unsafe (env : dlg_env) (s : dlg_sys) (a cnt : Z) : option dlg_sys :=
  c ← cells s !! a;
  let c := with_ref c (i32 (d_ref c - cnt)) in
  let s := put_cell s a c in
  if d_ref c <? 0 then None
  else if d_ref c <=? 0 then
    if (dlg_del_delay env =? 0) && (d_del_delay c =? 0) then
      s ← unlink_unsafe_dlg s a;
      destroy_dlg s a
    else
      '(h, _) ← insert_attempt_dlg_del_timer (ddel_heap (tmr s)) (env_del_first env) a (env_ticks env)
                  (if d_del_delay c =? 0 then dlg_del_delay env else d_del_delay c);
      Some (with_tmr s (put_ddel (tmr s) h))
  else Some s.

(** [_ref_dlg] and [_unref_dlg] *)
Definition ref_dlg : dlg_sys → Z → Z → option dlg_sys := ref_dlg_unsafe.
Definition unref_dlg : dlg_env → dlg_sys → Z → Z → option dlg_sys := unref_dlg_unsafe.

(** [dlg_ondelete], the handler of the delete timer (dlg_handlers.c). *)
Definition dlg_ondelete (s : dlg_sys) (a : Z) : option dlg_sys :=
  c ← cells s !! a;
  if d_ref c <=? 0 then
    s ← unlink_unsafe_dlg s a;
    destroy_dlg s a
  else Some s.

(** ** Lookup *)

(** The first dialog of a bucket that satisfies a test. *)
Fixpoint find_cell (m : gmap Z dlg_cell) (test : dlg_cell → bool) (l : list Z) : option (option Z) :=
  match l with
  | [] => Some None
  | a :: l' => c ← m !! a; if test c then Some (Some a) else find_cell m test l'
  end.

(** Take a reference on what was found. *)
Definition ref_found (s : dlg_sys) (r : option Z) : option (dlg_sys * option Z) :=
  match r with
  | None => Some (s, None)
  | Some a => s ← ref_dlg_unsafe s a 1; Some (s, Some a)
  end.

Definition is_deleted (c : dlg_cell) : bool := bool_decide (d_state c = DLG_STATE_DELETED).

(** [lookup_dlg]: the search stops at the first dialog with the identifier, even
    when that one is refused. *)
Definition lookup_dlg (s : dlg_sys) (h_entry h_id : Z) (active_only : bool)
    : option (dlg_sys * option Z) :=
  if Z.of_nat (length (entries s)) <=? h_entry then Some (s, None)
  else
    e ← entries s !! Z.to_nat h_entry;
    r ← find_cell (cells s) (λ c, d_h_id c =? h_id) (e_cells e);
    match r with
    | None => Some (s, None)
    | Some a =>
        c ← cells s !! a;
        if active_only && is_deleted c then Some (s, None) else ref_found s (Some a)
    end.

Definition get_dlg_by_callid (s : dlg_sys) (callid : bytes) (active_only : bool)
    : option (dlg_sys * option Z) :=
  let h_entry := core_hash callid None (Z.of_nat (length (entries s))) in
  e ← entries s !! Z.to_nat h_entry;
  r ← find_cell (cells s)
        (λ c, negb (active_only && (state_no DLG_STATE_CONFIRMED <? state_no (d_state c)))
              && (Z.of_nat (length (d_callid c)) =? Z.of_nat (length callid))
              && (strncmp (length callid) (d_callid c) callid =? 0)) (e_cells e);
  ref_found s r.

(** A stored string and a string of the message: same length and [strncmp]. *)
Definition str_match (x y : bytes) : bool :=
  (Z.of_nat (length x) =? Z.of_nat (length y)) && (strncmp (length y) x y =? 0).

(** The index of the first callee leg with the given tag, from index [i] on. *)
Fixpoint find_leg (tag : bytes) (legs : list bytes) (i : Z) : option Z :=
  match legs with
  | [] => None
  | t :: legs' => if str_match t tag then Some i else find_leg tag legs' (i + 1)
  end.

(** [match_dialog]: the direction when the dialog matches, and the value it leaves
    in [*dst_leg] either way (-1 stands for [(unsigned int)-1], not set). *)
Definition match_dialog (c : dlg_cell) (callid ftag ttag : bytes) (dst_leg : Z)
    : option Z * Z :=
  if negb (str_match (d_callid c) callid) then (None, dst_leg)
  else
    let caller := default [] (head (d_legs c)) in
    let check (dir : Z) (tag : bytes) (dst : Z) : option Z * Z :=
      if (1 <? length (d_legs c))%nat then
        match find_leg tag (tail (d_legs c)) 1 with
        | Some i => (Some dir, if dst =? -1 then i else dst)
        | None => (None, dst)
        end
      else (if (length tag =? 0)%nat then Some dir else None, dst) in
    if str_match caller ftag then check DLG_DIR_DOWNSTREAM ttag dst_leg
    else if str_match caller ttag then check DLG_DIR_UPSTREAM ftag 0
    else (None, dst_leg).

(** The loop of [get_dlg] over a bucket: the dialog, the direction and the
    destination leg. *)
Fixpoint get_dlg_loop (m : gmap Z dlg_cell) (callid ftag ttag : bytes) (backup dst_leg : Z)
    (l : list Z) : option (option (Z * Z) * Z) :=
  match l with
  | [] => Some (None, dst_leg)
  | a :: l' =>
      c ← m !! a;
      match match_dialog c callid ftag ttag dst_leg with
      | (Some dir, dst) =>
          if is_deleted c then get_dlg_loop m callid ftag ttag backup backup l'
          else Some (Some (a, dir), dst)
      | (None, dst) => get_dlg_loop m callid ftag ttag backup dst l'
      end
  end.

Definition get_dlg (s : dlg_sys) (callid ftag ttag : bytes) (dst_leg : Z)
    : option (dlg_sys * option (Z * Z) * Z) :=
  let h_entry := core_hash callid None (Z.of_nat (length (entries s))) in
  e ← entries s !! Z.to_nat h_entry;
  '(r, dst) ← get_dlg_loop (cells s) callid ftag ttag dst_leg dst_leg (e_cells e);
  match r with
  | None => Some (s, None, dst)
  | Some (a, dir) => s ← ref_dlg_unsafe s a 1; Some (s, Some (a, dir), dst)
  end.

(** ** The state machine *)

(** What [next_state_dlg] reports: the states before and after, the references the
    caller has to drop, whether the event was logged as bogus, and whether the
    state-changed event and the replicated deletion were raised. *)
Record transition := Transition {
  old_state : dlg_state;
  new_state : dlg_state;
  unref : Z;
  bogus : bool;
  changed_raised : bool;
  deletion_replicated : bool;
}.

(** The switches of [next_state_dlg]: the table after the event, [unref] and
    whether the event was bogus. *)
Definition event_switch (env : dlg_env) (s : dlg_sys) (a : Z) (c : dlg_cell) (event : dlg_event)
    (dir last_dst_leg : Z) : option (dlg_sys * Z * bool) :=
  let stay (b : bool) := Some (s, 0, b) in
  let go (q : dlg_state) (u : Z) := Some (put_cell s a (with_dstate c q), u, false) in
  match event with
  | DLG_EVENT_TDEL =>
      match d_state c with
      | DLG_STATE_UNCONFIRMED | DLG_STATE_EARLY =>
          s ← unref_dlg_unsafe env (put_cell s a (with_dstate c DLG_STATE_DELETED)) a 1;
          Some (s, 1, false)
      | DLG_STATE_CONFIRMED_NA | DLG_STATE_CONFIRMED =>
          s ← unref_dlg_unsafe env s a 1;
          Some (s, 0, false)
      | DLG_STATE_DELETED => Some (s, 1, false)
      end
  | DLG_EVENT_RPL1xx =>
      match d_state c with
      | DLG_STATE_UNCONFIRMED | DLG_STATE_EARLY => go DLG_STATE_EARLY 0
      | _ => stay true
      end
  | DLG_EVENT_RPL3xx =>
      match d_state c with
      | DLG_STATE_UNCONFIRMED | DLG_STATE_EARLY => go DLG_STATE_DELETED 1
      | _ => stay true
      end
  | DLG_EVENT_RPL2xx =>
      match d_state c with
      | DLG_STATE_DELETED =>
          if d_has_bye c then stay true
          else
            s ← ref_dlg_unsafe s a 1;
            c ← cells s !! a;
            Some (put_cell s a (with_dstate c DLG_STATE_CONFIRMED_NA), 0, false)
      | DLG_STATE_UNCONFIRMED | DLG_STATE_EARLY => go DLG_STATE_CONFIRMED_NA 0
      | DLG_STATE_CONFIRMED_NA | DLG_STATE_CONFIRMED => stay false
      end
  | DLG_EVENT_REQACK =>
      match d_state c with
      | DLG_STATE_CONFIRMED_NA => go DLG_STATE_CONFIRMED 0
      | DLG_STATE_CONFIRMED | DLG_STATE_DELETED => stay false
      | _ => stay true
      end
  | DLG_EVENT_REQBYE =>
      match d_state c with
      | DLG_STATE_CONFIRMED_NA | DLG_STATE_CONFIRMED =>
          if (dir =? DLG_DIR_DOWNSTREAM) && negb (last_dst_leg =? d_leg_200ok c) then stay false
          else Some (put_cell s a (with_dstate (with_bye c) DLG_STATE_DELETED), 1, false)
      | DLG_STATE_DELETED => stay false
      | _ =>
          if last_dst_leg =? 0 then stay true
          else Some (put_cell s a (with_bye c), 0, false)
      end
  | DLG_EVENT_REQPRACK | DLG_EVENT_REQ =>
      match d_state c with
      | DLG_STATE_EARLY | DLG_STATE_CONFIRMED_NA | DLG_STATE_CONFIRMED => stay false
      | _ => stay true
      end
  | DLG_EVENT_UNKNOWN => stay false
  end.

Definition next_state_dlg (env : dlg_env) (repl_cluster : bool) (s : dlg_sys) (a : Z)
    (event : dlg_event) (dir last_dst_leg : Z) (replicate_events : bool)
    : option (dlg_sys * transition) :=
  c ← cells s !! a;
  '(s, u, b) ← event_switch env s a c event dir last_dst_leg;
  c' ← cells s !! a;
  let old := d_state c in
  let new := d_state c' in
  Some (s, Transition old new u b (bool_decide (old ≠ new))
    (repl_cluster && replicate_events
     && bool_decide (old = DLG_STATE_CONFIRMED_NA ∨ old = DLG_STATE_CONFIRMED)
     && bool_decide (new = DLG_STATE_DELETED))).

(** ** Dialog identifiers: [dlg_get_db_id] and [dlg_parse_db_id] *)

Definition dlg_get_db_id (h_entry h_id : Z) : Z := Z.lor (u64 (Z.shiftl h_entry 32)) h_id.
Definition dlg_parse_db_id (did : Z) : Z * Z :=
  (u32 (Z.shiftr did 32), u32 (Z.land did 0xFFFFFFFF)).
