(* ===== verification/DlgHashSpec.v ===== *)
(** * DlgHashSpec: what the dialog table promises (modules/dialog/dlg_hash.c)

    Reference counting over the life of a dialog, the transitions of the state
    machine, linking and lookup, and the deletion delay. *)

From stdpp Require Import prelude list sorting gmap.
From Stdlib Require Import ZArith Lia.
From S2P Require Import Prelude CString HashFunc DlgTimer DlgTimerFacts DlgTimerInv DlgHash.

(** ** The life of a dialog

    Who holds references on a dialog: the table while the dialog is not deleted,
    the transaction callbacks ([tm]) and other holders ([held]), among them the
    callers of [next_state_dlg] that were told to drop a reference.  A call is
    made by a holder; a call nobody may make leaves things as they are. *)

Inductive lstate :=
  | Alive (s : dlg_sys) (tm held : nat)
  | Freed (s : dlg_sys) (tm held : nat) (last : dlg_state).

Inductive call :=
  | CRef
  | CUnref (n : nat)
  | CTdel
  | CEvent (e : dlg_event) (dir last_dst_leg : Z).

Section life.
Context (env : dlg_env) (a : Z).
Context (Hdelay : dlg_del_delay env = 0).

Definition settle (s' : dlg_sys) (tm held : nat) (q : dlg_state) : lstate :=
  match cells s' !! a with Some _ => Alive s' tm held | None => Freed s' tm held q end.

(** Room for another reference in an [int]. *)
Definition room (tm held : nat) : bool := Z.of_nat (tm + held) + 2 <=? INT_MAX.

Definition life_call (l : lstate) (k : call) : option lstate :=
  match l with
  | Freed _ _ _ _ => Some l
  | Alive s tm held =>
      match k with
      | CRef =>
          if room tm held then s' ← ref_dlg s a 1; Some (Alive s' tm (S held)) else Some l
      | CUnref n =>
          if (n <=? held)%nat then
            c ← cells s !! a;
            s' ← unref_dlg env s a (Z.of_nat n);
            Some (settle s' tm (held - n) (d_state c))
          else Some l
      | CTdel =>
          match tm with
          | O => Some l
          | S tm' =>
              '(s', t) ← next_state_dlg env false s a DLG_EVENT_TDEL DLG_DIR_UPSTREAM 0 true;
              Some (Alive s' tm' (held + Z.to_nat (unref t)))
          end
      | CEvent e dir leg =>
          if decide (e = DLG_EVENT_TDEL) then Some l
          else if (0 <? tm + held)%nat && room tm held then
            '(s', t) ← next_state_dlg env false s a e dir leg true;
            Some (Alive s' tm (held + Z.to_nat (unref t)))
          else Some l
      end
  end.

Fixpoint life_run (l : lstate) (ks : list call) : option lstate :=
  match ks with
  | [] => Some l
  | k :: ks' => l' ← life_call l k; life_run l' ks'
  end.

(** The table's own reference. *)
Definition hash_ref (c : dlg_cell) : Z := if decide (d_state c = DLG_STATE_DELETED) then 0 else 1.

(** The dialog is linked in its bucket's table entry and its timer node is one of
    the well-formed timer. *)
Definition placed (s : dlg_sys) (c : dlg_cell) : Prop :=
  d_del_delay c = 0 ∧ is_Some (entries s !! Z.to_nat (d_h_entry c)) ∧
  is_Some (d_heap (tmr s) !! a) ∧ a ≠ env_first env ∧
  ∃ at_, timer_ok (d_heap (tmr s)) (env_first env) at_.

Definition life_inv (l : lstate) : Prop :=
  match l with
  | Alive s tm held =>
      ∃ c, cells s !! a = Some c ∧ placed s c ∧ 0 < d_ref c
        ∧ d_ref c = hash_ref c + Z.of_nat (tm + held) ∧ Z.of_nat (tm + held) + 1 <= INT_MAX
  | Freed s tm held q =>
      cells s !! a = None ∧ tm = 0%nat ∧ held = 0%nat ∧ q = DLG_STATE_DELETED
  end.

Lemma i32_small n : 0 <= n <= INT_MAX → i32 n = n.
Proof. intros Hn. unfold INT_MAX in Hn. apply swrap_small; [done|]. change (2 ^ (32 - 1)) with 2147483648. lia. Qed.

(** A cell whose static members are those of another one. *)
Lemma placed_put s c c' :
  placed s c → d_del_delay c' = d_del_delay c → d_h_entry c' = d_h_entry c →
  placed (put_cell s a c') c'.
Proof. unfold placed. intros H -> ->. exact H. Qed.

Lemma lookup_put s c : cells (put_cell s a c) !! a = Some c.
Proof. apply lookup_insert_eq. Qed.

Lemma ref_dlg_ok s c n :
  cells s !! a = Some c → 0 <= d_ref c + n <= INT_MAX →
  ref_dlg_unsafe s a n = Some (put_cell s a (with_ref c (d_ref c + n))).
Proof. intros E Hn. unfold ref_dlg_unsafe. rewrite E. simpl. by rewrite i32_small. Qed.

Lemma unref_dlg_alive s c n :
  cells s !! a = Some c → 0 < d_ref c - n <= INT_MAX →
  unref_dlg_unsafe env s a n = Some (put_cell s a (with_ref c (d_ref c - n))).
Proof.
  intros E Hn. unfold unref_dlg_unsafe. rewrite E. simpl. rewrite i32_small by lia.
  rewrite (proj2 (Z.ltb_ge _ _)), (proj2 (Z.leb_gt _ _)) by lia. done.
Qed.

Lemma unref_dlg_last s c n :
  cells s !! a = Some c → placed s c → d_ref c = n →
  ∃ s', unref_dlg_unsafe env s a n = Some s' ∧ cells s' !! a = None.
Proof.
  intros E (Hdel & [e He] & Hnode & Hf & at_ & Hok) Hn.
  unfold unref_dlg_unsafe. rewrite E. simpl. rewrite Hn, Z.sub_diag, Hdelay, Hdel. simpl.
  unfold unlink_unsafe_dlg. rewrite lookup_put. simpl. rewrite He. simpl.
  unfold destroy_dlg. simpl.
  destruct (remove_dlg_timer_ok _ _ _ Hok a Hnode Hf) as (h' & -> & _). simpl.
  eexists; split; [done|]. simpl. apply lookup_delete_eq.
Qed.

(** The outcome of a switch that keeps the dialog: the references that are not the
    table's change by [u - drop]. *)
Definition kept (c : dlg_cell) (drop : Z) (r : option (dlg_sys * Z * bool)) : Prop :=
  ∃ s' u b c', r = Some (s', u, b) ∧ cells s' !! a = Some c' ∧ placed s' c' ∧ 0 < d_ref c'
    ∧ 0 <= u <= 1 ∧ d_ref c' - hash_ref c' = d_ref c - hash_ref c + u - drop.

Lemma kept_put s c c' u drop b :
  placed s c → d_del_delay c' = d_del_delay c → d_h_entry c' = d_h_entry c → 0 < d_ref c' →
  0 <= u <= 1 → d_ref c' - hash_ref c' = d_ref c - hash_ref c + u - drop →
  kept c drop (Some (put_cell s a c', u, b)).
Proof.
  intros Hp H1 H2 H3 H4 H5. eexists _, _, _, c'. split; [done|]. rewrite lookup_put.
  split_and!; try done; try lia. by apply placed_put with c.
Qed.

Lemma kept_stay s c b : cells s !! a = Some c → placed s c → 0 < d_ref c → kept c 0 (Some (s, 0, b)).
Proof. intros. eexists _, _, _, c. split; [done|]. split_and!; done || lia. Qed.

Ltac hash_refs := unfold hash_ref; simpl; repeat case_decide; first [congruence|lia].
Ltac keep_put := apply kept_put; [done|done|done|simpl; lia|lia|hash_refs].

(** An event other than the end of the transaction. *)
Lemma switch_keeps s c e dir leg :
  cells s !! a = Some c → placed s c → 0 < d_ref c → d_ref c + 1 <= INT_MAX → e ≠ DLG_EVENT_TDEL →
  kept c 0 (event_switch env s a c e dir leg).
Proof.
  intros E Hp Hr Hmax He. unfold event_switch.
  destruct e; try done; destruct (d_state c) eqn:Eq; try (by apply kept_stay); try keep_put;
    try (case_match; [by apply kept_stay|]; keep_put).
  (* 2xx on a deleted dialog *)
  destruct (d_has_bye c); [by apply kept_stay|].
  rewrite (ref_dlg_ok s c 1 E) by lia. cbn [mbind option_bind]. rewrite lookup_put.
  cbn [mbind option_bind]. eexists _, _, _, _. split; [done|]. rewrite lookup_put. split; [done|].
  split; [eapply placed_put; [by eapply (placed_put s c)|done|done]|].
  split_and!; [simpl; lia|lia|lia|hash_refs].
Qed.

(** The end of the transaction: its holder is gone. *)
Lemma tdel_keeps s c :
  cells s !! a = Some c → placed s c → 0 < d_ref c <= INT_MAX →
  (d_state c ≠ DLG_STATE_DELETED → 1 < d_ref c) →
  kept c 1 (event_switch env s a c DLG_EVENT_TDEL DLG_DIR_UPSTREAM 0).
Proof.
  intros E Hp Hr Ht. unfold event_switch.
  assert (∀ q, d_state c ≠ DLG_STATE_DELETED →
    unref_dlg_unsafe env (put_cell s a (with_dstate c q)) a 1 =
    Some (put_cell (put_cell s a (with_dstate c q)) a (with_ref (with_dstate c q) (d_ref c - 1)))) as Hu.
  { intros q Hq. specialize (Ht Hq). by rewrite (unref_dlg_alive _ (with_dstate c q) 1 (lookup_put _ _)) by (simpl; lia). }
  destruct (d_state c) eqn:Eq.
  1-2: rewrite Hu by done; cbn [mbind option_bind]; eexists _, _, _, _; split; [done|];
    rewrite lookup_put; split; [done|]; specialize (Ht ltac:(done));
    (split; [eapply placed_put; [by eapply (placed_put s c)|done|done]|]);
    split_and!; [simpl; lia|lia|lia|hash_refs].
  1-2: specialize (Ht ltac:(done)); rewrite (unref_dlg_alive s c 1 E) by lia;
    cbn [mbind option_bind]; keep_put.
  eexists _, _, _, c. split; [done|]. split_and!; done || lia.
Qed.

Lemma next_state_of_switch s c e dir leg drop :
  cells s !! a = Some c → kept c drop (event_switch env s a c e dir leg) →
  ∃ s' t c', next_state_dlg env false s a e dir leg true = Some (s', t)
    ∧ cells s' !! a = Some c' ∧ placed s' c' ∧ 0 < d_ref c' ∧ 0 <= unref t <= 1
    ∧ d_ref c' - hash_ref c' = d_ref c - hash_ref c + unref t - drop.
Proof.
  intros E (s' & u & b & c' & Es & E' & ? & ? & ? & ?). unfold next_state_dlg.
  rewrite E. cbn [mbind option_bind]. rewrite Es. cbn [mbind option_bind]. rewrite E'.
  cbn [mbind option_bind]. eexists _, _, c'. split; [done|]. simpl. split_and!; done || lia.
Qed.

Lemma hash_ref_range c : 0 <= hash_ref c <= 1.
Proof. unfold hash_ref. case_decide; lia. Qed.

Lemma life_call_ok l k : life_inv l → ∃ l', life_call l k = Some l' ∧ life_inv l'.
Proof.
  destruct l as [s tm held|s tm held q]; [|intros Hl; by exists (Freed s tm held q)].
  intros Hl. pose proof Hl as (c & E & Hp & Hr & Hsum & Hmax).
  pose proof (hash_ref_range c) as Hh.
  destruct k as [|n| |e dir leg]; simpl.
  - destruct (room tm held) eqn:Hroom; [|eauto]. unfold room in Hroom. zbool.
    unfold ref_dlg. rewrite (ref_dlg_ok s c 1 E) by lia. cbn [mbind option_bind].
    eexists; split; [done|]. exists (with_ref c (d_ref c + 1)). rewrite lookup_put.
    split; [done|]. split; [by apply placed_put with c|].
    assert (hash_ref (with_ref c (d_ref c + 1)) = hash_ref c) as -> by done. simpl. lia.
  - destruct (n <=? held)%nat eqn:Hn; [|eauto]. apply Nat.leb_le in Hn.
    rewrite E. cbn [mbind option_bind]. unfold unref_dlg.
    destruct (decide (d_ref c = Z.of_nat n)) as [Heq|Hne].
    + destruct (unref_dlg_last s c (Z.of_nat n) E Hp Heq) as (s' & -> & E').
      cbn [mbind option_bind]. eexists; split; [done|]. unfold settle. rewrite E'. simpl.
      assert (hash_ref c = 0) as Hz by lia. unfold hash_ref in Hz. case_decide; [|done].
      split_and!; done || lia.
    + rewrite (unref_dlg_alive s c (Z.of_nat n) E) by lia. cbn [mbind option_bind].
      eexists; split; [done|]. unfold settle. rewrite lookup_put. simpl.
      exists (with_ref c (d_ref c - Z.of_nat n)). rewrite lookup_insert_eq.
      split; [done|]. split; [by apply placed_put with c|].
      assert (hash_ref (with_ref c (d_ref c - Z.of_nat n)) = hash_ref c) as -> by done. simpl. lia.
  - destruct tm as [|tm]; [eauto|].
    destruct (next_state_of_switch s c DLG_EVENT_TDEL DLG_DIR_UPSTREAM 0 1 E) as
      (s' & t & c' & -> & E' & Hp' & Hr' & Hu & Hs').
    { apply tdel_keeps; [done|done|lia|]. unfold hash_ref in *. case_decide; [done|]. lia. }
    cbn [mbind option_bind]. eexists; split; [done|]. exists c'.
    pose proof (hash_ref_range c'). split_and!; try done; lia.
  - case_decide as He; [eauto|]. destruct ((0 <? tm + held)%nat && room tm held) eqn:Hg; [|eauto].
    apply andb_true_iff in Hg as [_ Hroom]. unfold room in Hroom. zbool.
    destruct (next_state_of_switch s c e dir leg 0 E) as
      (s' & t & c' & -> & E' & Hp' & Hr' & Hu & Hs').
    { apply switch_keeps; try done. lia. }
    cbn [mbind option_bind]. eexists; split; [done|]. exists c'.
    pose proof (hash_ref_range c'). split_and!; try done; lia.
Qed.

Lemma life_run_ok ks : ∀ l, life_inv l → ∃ l', life_run l ks = Some l' ∧ life_inv l'.
Proof.
  induction ks as [|k ks IH]; intros l Hl; simpl; [eauto|].
  destruct (life_call_ok l k Hl) as (l1 & -> & H1). simpl. auto.
Qed.
End life.

(** ** The transitions *)

(** The state and the mark of the BYE of a dialog after an event that the switch accepts. *)
Lemma switch_state env s a c e dir leg s' u b c' :
  cells s !! a = Some c → event_switch env s a c e dir leg = Some (s', u, b) →
  cells s' !! a = Some c' →
  (d_state c' = d_state c
   ∨ (e = DLG_EVENT_RPL2xx ∧ d_state c = DLG_STATE_DELETED ∧ d_has_bye c = false
      ∧ d_state c' = DLG_STATE_CONFIRMED_NA)
   ∨ state_no (d_state c) < state_no (d_state c'))
  ∧ (d_has_bye c = true → d_has_bye c' = true)
  ∧ (e = DLG_EVENT_REQBYE → d_state c ≠ d_state c' → d_has_bye c' = true).
Proof.
  intros E. unfold event_switch, ref_dlg_unsafe.
  assert (∀ s0 c0 n s1 c1, cells s0 !! a = Some c0 → unref_dlg_unsafe env s0 a n = Some s1 →
            cells s1 !! a = Some c1 → d_state c1 = d_state c0 ∧ d_has_bye c1 = d_has_bye c0) as Hunref.
  { intros s0 c0 n s1 c1 E0. unfold unref_dlg_unsafe. rewrite E0. cbn [mbind option_bind].
    case_match; [done|]. case_match.
    - case_match.
      + unfold unlink_unsafe_dlg. rewrite lookup_put. cbn [mbind option_bind].
        destruct (entries _ !! _); [|done]. cbn [mbind option_bind]. unfold destroy_dlg.
        destruct (remove_dlg_timer _ _) as [[h r]|]; [|done]. intros [= <-]. simpl.
        by rewrite lookup_delete_eq.
      + destruct (insert_attempt_dlg_del_timer _ _ _ _ _) as [[h r]|]; [|done]. intros [= <-]. simpl.
        rewrite lookup_insert_eq. by intros [= <-].
    - intros [= <-]. rewrite lookup_put. by intros [= <-]. }
  destruct e; destruct (d_state c) eqn:Eq; rewrite ?E; cbn [mbind option_bind]; try case_match;
    rewrite ?lookup_put; cbn [mbind option_bind];
    try (intros [= <- <- <-]; rewrite ?lookup_put, ?E; intros [= <-]; simpl; rewrite ?Eq;
         split; [first [by left | by right; right | by right; left]|split; congruence]).
  1-4: destruct (unref_dlg_unsafe _ _ _ _) as [s1|] eqn:Eu; [|done]; cbn [mbind option_bind];
    intros [= <- <- <-] E'; eapply Hunref in Eu; [|apply lookup_put || exact E|exact E'];
    destruct Eu as [-> ->]; simpl; rewrite ?Eq;
    (split; [first [by left | by right; right]|split; congruence]).
Qed.

(** ** Linking and lookup *)

(** The identifiers in a bucket are below the next one. *)
Definition bucket_ok (m : gmap Z dlg_cell) (e : dlg_entry) : Prop :=
  0 <= e_next_id e < 2 ^ 32 - 1 ∧ NoDup (e_cells e) ∧
  Forall (λ b, ∃ c, m !! b = Some c ∧ 0 <= d_h_id c < e_next_id e) (e_cells e).

Lemma find_cell_skip m test l1 a l2 :
  Forall (λ b, ∃ c, m !! b = Some c ∧ test c = false) l1 →
  find_cell m test (l1 ++ a :: l2) = find_cell m test (a :: l2).
Proof.
  induction 1 as [|b l1 (c & E & Ht) _ IH]; [done|]. simpl app. cbn [find_cell].
  rewrite E. cbn [mbind option_bind]. rewrite Ht. exact IH.
Qed.

Section linking.
Context (s : dlg_sys) (a : Z) (c : dlg_cell) (e : dlg_entry).
Context (Hc : cells s !! a = Some c) (He : entries s !! Z.to_nat (d_h_entry c) = Some e).
Context (Hpos : 0 <= d_h_entry c) (Ha : a ∉ e_cells e) (Hok : bucket_ok (cells s) e).

Definition linked_cell (extra : Z) : dlg_cell :=
  with_ref (with_h_id c (e_next_id e)) (i32 (i32 (d_ref c + 1) + extra)).

Lemma link_dlg_eq extra :
  link_dlg s a extra =
  Some (DlgSys (<[a := linked_cell extra]> (cells s))
          (<[Z.to_nat (d_h_entry c) := DlgEntry (e_cells e ++ [a]) (u32 (e_next_id e + 1))
                                         (u32 (e_cnt e + 1))]> (entries s)) (tmr s)).
Proof.
  unfold link_dlg, link_dlg_unsafe. rewrite Hc. cbn [mbind option_bind]. rewrite He.
  cbn [mbind option_bind with_entries cells put_cell with_cells]. rewrite lookup_insert_eq.
  cbn [mbind option_bind]. unfold put_cell, with_cells, with_entries; simpl.
  by rewrite insert_insert_eq.
Qed.

Lemma bucket_link_ok extra :
  bucket_ok (<[a := linked_cell extra]> (cells s))
    (DlgEntry (e_cells e ++ [a]) (u32 (e_next_id e + 1)) (u32 (e_cnt e + 1))) ∨
  e_next_id e + 1 = 2 ^ 32 - 1.
Proof.
  destruct Hok as (Hid & Hd & Hall).
  destruct (decide (e_next_id e + 1 = 2 ^ 32 - 1)) as [|Hne]; [by right|left].
  assert (u32 (e_next_id e + 1) = e_next_id e + 1) as Hu by (apply wrap_small; lia).
  unfold bucket_ok; simpl. rewrite Hu. split_and!; [lia|lia| |].
  - apply NoDup_app. split; [done|]. split; [|apply NoDup_singleton]. set_solver.
  - apply Forall_app. split.
    + rewrite Forall_forall in Hall |- *. intros b Hb. destruct (Hall b Hb) as (cb & Eb & ?).
      exists cb. rewrite lookup_insert_ne by set_solver. split; [done|lia].
    + apply Forall_singleton. eexists. rewrite lookup_insert_eq. split; [done|]. simpl. lia.
Qed.

Lemma lookup_linked extra active :
  active && is_deleted c = false →
  lookup_dlg (DlgSys (<[a := linked_cell extra]> (cells s))
          (<[Z.to_nat (d_h_entry c) := DlgEntry (e_cells e ++ [a]) (u32 (e_next_id e + 1))
                                         (u32 (e_cnt e + 1))]> (entries s)) (tmr s))
    (d_h_entry c) (e_next_id e) active =
  Some (DlgSys (<[a := with_ref (linked_cell extra) (i32 (d_ref (linked_cell extra) + 1))]> (cells s))
          (<[Z.to_nat (d_h_entry c) := DlgEntry (e_cells e ++ [a]) (u32 (e_next_id e + 1))
                                         (u32 (e_cnt e + 1))]> (entries s)) (tmr s), Some a).
Proof.
  intros Hact. destruct Hok as (Hid & Hd & Hall). unfold lookup_dlg. simpl.
  pose proof (lookup_lt_Some _ _ _ He) as Hlen. rewrite length_insert.
  rewrite (proj2 (Z.leb_gt _ _)) by lia. rewrite list_lookup_insert_eq by done.
  cbn [mbind option_bind e_cells]. rewrite find_cell_skip.
  - cbn [find_cell]. rewrite lookup_insert_eq. cbn [mbind option_bind linked_cell d_h_id with_ref with_h_id].
    rewrite Z.eqb_refl. cbn [mbind option_bind]. rewrite lookup_insert_eq. cbn [mbind option_bind].
    unfold is_deleted in *. simpl. rewrite Hact. unfold ref_found, ref_dlg_unsafe. simpl.
    rewrite lookup_insert_eq. cbn [mbind option_bind]. unfold put_cell, with_cells; simpl.
    by rewrite insert_insert_eq.
  - rewrite Forall_forall in Hall |- *. intros b Hb. destruct (Hall b Hb) as (cb & Eb & ?).
    exists cb. rewrite lookup_insert_ne by set_solver. split; [done|]. apply Z.eqb_neq. lia.
Qed.
End linking.

(** ** Identifiers *)

Lemma db_id_roundtrip_aux h_entry h_id :
  0 <= h_entry < 2 ^ 32 → 0 <= h_id < 2 ^ 32 →
  dlg_parse_db_id (dlg_get_db_id h_entry h_id) = (h_entry, h_id).
Proof.
  intros He Hi. unfold dlg_parse_db_id, dlg_get_db_id.
  rewrite (wrap_small 64) by (rewrite Z.shiftl_mul_pow2 by lia; lia).
  change 0xFFFFFFFF with (Z.ones 32). f_equal.
  - rewrite Z.shiftr_lor, Z.shiftr_shiftl_l, Z.sub_diag, Z.shiftl_0_r by lia.
    rewrite (Z.shiftr_div_pow2 h_id), Z.div_small, Z.lor_0_r by lia. by apply wrap_small.
  - rewrite Z.land_lor_distr_l, !Z.land_ones, Z.shiftl_mul_pow2, Z.mod_mul by lia.
    rewrite Z.lor_0_l, Z.mod_small by lia. by apply wrap_small.
Qed.

(** ** Theorems *)

(** C32. Reference counting is safe: start with a dialog linked in the table in the
    unconfirmed state, counted once for the table, [tm] times for transactions and
    [held] times for other holders, with immediate deletion.  Whatever references
    its holders take and drop, whenever transactions end, and whatever events the
    holders feed to [next_state_dlg], no call aborts on a negative count or
    touches the dialog after it was freed; while the dialog is there its count is
    exactly the number of its holders, and it is freed only when it is deleted and
    nobody holds it. *)
Theorem dialog_refcount_safe env a s c tm held ks
    (Hdelay : dlg_del_delay env = 0) (Hc : cells s !! a = Some c) (Hp : placed env a s c)
    (Hq : d_state c = DLG_STATE_UNCONFIRMED)
    (Href : d_ref c = 1 + Z.of_nat (tm + held)) (Hmax : d_ref c <= INT_MAX) :
  ∃ l', life_run env a (Alive s tm held) ks = Some l' ∧ life_inv env a l'.
Proof.
  apply life_run_ok; [done|]. exists c. unfold hash_ref. rewrite decide_False by (by rewrite Hq).
  split_and!; done || lia.
Qed.

(** The events of the dialog [a], in order, with their transitions; between two events
    everything may change but the state of the dialog and its mark of the BYE. *)
Inductive dlg_events (env : dlg_env) (cl : bool) (a : Z) : dlg_sys → list (dlg_event * transition) → Prop :=
  | ev_end s : dlg_events env cl a s []
  | ev_next s s1 s' c c1 e dir leg repl t tr :
      cells s !! a = Some c → cells s1 !! a = Some c1 →
      d_state c1 = d_state c → d_has_bye c1 = d_has_bye c →
      next_state_dlg env cl s1 a e dir leg repl = Some (s', t) →
      dlg_events env cl a s' tr → dlg_events env cl a s ((e, t) :: tr).

Lemma next_state_facts env cl s a e dir leg repl s' t c :
  cells s !! a = Some c → next_state_dlg env cl s a e dir leg repl = Some (s', t) →
  ∃ c', cells s' !! a = Some c' ∧ old_state t = d_state c ∧ new_state t = d_state c'
    ∧ (changed_raised t = true ↔ new_state t ≠ old_state t)
    ∧ (new_state t = old_state t ∨ state_no (old_state t) < state_no (new_state t)
       ∨ (e = DLG_EVENT_RPL2xx ∧ old_state t = DLG_STATE_DELETED ∧ new_state t = DLG_STATE_CONFIRMED_NA
          ∧ d_has_bye c = false))
    ∧ (d_has_bye c = true → d_has_bye c' = true)
    ∧ (e = DLG_EVENT_REQBYE → old_state t ≠ new_state t → d_has_bye c' = true).
Proof.
  intros Ec Hrun. unfold next_state_dlg in Hrun. rewrite Ec in Hrun. cbn [mbind option_bind] in Hrun.
  destruct (event_switch env s a c e dir leg) as [[[s1 u] b]|] eqn:Es; [|done].
  cbn [mbind option_bind] in Hrun. destruct (cells s1 !! a) as [c'|] eqn:Ec'; [|done].
  injection Hrun as <- <-. simpl.
  destruct (switch_state _ _ _ _ _ _ _ _ _ _ _ Ec Es Ec') as (H1 & H2 & H3).
  exists c'. split_and!; try done.
  - rewrite bool_decide_eq_true. split; congruence.
  - naive_solver.
Qed.

(** Once deleted after a BYE, a dialog stays deleted. *)
Lemma bye_final env cl a s tr c : dlg_events env cl a s tr → cells s !! a = Some c →
  d_state c = DLG_STATE_DELETED → d_has_bye c = true →
  Forall (λ x, new_state x.2 = DLG_STATE_DELETED) tr.
Proof.
  intros Hev. revert c. induction Hev as [|s s1 s' c0 c1 e dir leg repl t tr E0 E1 Hst Hb Hn Hev IH];
    intros c Ec Hq Hbye; constructor; simplify_eq.
  - destruct (next_state_facts _ _ _ _ _ _ _ _ _ _ _ E1 Hn) as (c' & _ & Ho & _ & _ & Hcase & _).
    rewrite Ho, Hst, Hq in Hcase. destruct Hcase as [?|[H|(_ & _ & _ & ?)]]; [done| |congruence].
    by destruct (new_state t).
  - destruct (next_state_facts _ _ _ _ _ _ _ _ _ _ _ E1 Hn) as (c' & E' & Ho & Hn' & _ & Hcase & Hb' & _).
    apply (IH c'); [done| |apply Hb'; congruence]. rewrite <- Hn'.
    rewrite Ho, Hst, Hq in Hcase. destruct Hcase as [?|[H|(_ & _ & _ & ?)]]; [done| |congruence].
    by destruct (new_state t).
Qed.

(** A BYE only moves a dialog to the deleted state. *)
Lemma bye_deletes env cl s a dir leg repl s' t :
  next_state_dlg env cl s a DLG_EVENT_REQBYE dir leg repl = Some (s', t) →
  old_state t ≠ new_state t → new_state t = DLG_STATE_DELETED.
Proof.
  unfold next_state_dlg. destruct (cells s !! a) as [c|] eqn:Ec; [|done]. cbn [mbind option_bind].
  destruct (event_switch _ _ _ _ _ _ _) as [[[s1 u] b]|] eqn:Es; [|done]. cbn [mbind option_bind].
  destruct (cells s1 !! a) as [c'|] eqn:Ec'; [|done]. intros [= <- <-]. simpl. unfold event_switch in Es.
  destruct (d_state c) eqn:Eq; repeat case_match; simplify_eq; try rewrite lookup_put in Ec';
    simplify_eq; simpl; rewrite ?Eq; done.
Qed.


(** A deleted dialog that saw a BYE stays deleted: no event changes its state,
    and only the end of its transaction asks for a reference to be dropped. *)
Theorem deleted_with_bye_is_final env cl s a c e dir leg repl
    (Hc : cells s !! a = Some c) (Hq : d_state c = DLG_STATE_DELETED) (Hb : d_has_bye c = true) :
  ∃ t, next_state_dlg env cl s a e dir leg repl = Some (s, t)
    ∧ new_state t = DLG_STATE_DELETED
    ∧ unref t = (if decide (e = DLG_EVENT_TDEL) then 1 else 0).
Proof.
  unfold next_state_dlg. rewrite Hc. cbn [mbind option_bind]. unfold event_switch.
  rewrite Hq. destruct e; rewrite ?Hb; cbn [mbind option_bind]; rewrite Hc; cbn [mbind option_bind];
    rewrite Hq; eexists; (split; [done|]); done.
Qed.

(** Linking a dialog makes it findable: after [link_dlg] the dialog is at the
    end of its bucket under a fresh identifier, [lookup_dlg] with this identifier
    returns it with one more reference, and the identifiers of the bucket stay
    below the next one (unless the 32-bit counter is about to wrap). *)
Theorem link_then_lookup s a c e extra
    (Hc : cells s !! a = Some c) (He : entries s !! Z.to_nat (d_h_entry c) = Some e)
    (Hpos : 0 <= d_h_entry c) (Ha : a ∉ e_cells e) (Hok : bucket_ok (cells s) e)
    (Hq : d_state c ≠ DLG_STATE_DELETED) :
  ∃ s' s'' e', link_dlg s a extra = Some s'
    ∧ lookup_dlg s' (d_h_entry c) (e_next_id e) true = Some (s'', Some a)
    ∧ d_ref <$> cells s'' !! a = Some (i32 (i32 (i32 (d_ref c + 1) + extra) + 1))
    ∧ entries s'' !! Z.to_nat (d_h_entry c) = Some e' ∧ e_cells e' = e_cells e ++ [a]
    ∧ (bucket_ok (cells s') e' ∨ e_next_id e + 1 = 2 ^ 32 - 1).
Proof.
  pose proof (lookup_lt_Some _ _ _ He) as Hlen.
  eexists _, _, _. split; [by apply link_dlg_eq|].
  split; [apply lookup_linked; try done; unfold is_deleted; by rewrite bool_decide_eq_false_2|].
  simpl. rewrite lookup_insert_eq, list_lookup_insert_eq by done. split_and!; try done.
  by apply bucket_link_ok.
Qed.

(** The 64-bit database identifier of a dialog determines its bucket and its
    identifier in the bucket. *)
Lemma db_id_roundtrip h_entry h_id
    (He : 0 <= h_entry < 2 ^ 32) (Hi : 0 <= h_id < 2 ^ 32) :
  dlg_parse_db_id (dlg_get_db_id h_entry h_id) = (h_entry, h_id).
Proof. by apply db_id_roundtrip_aux. Qed.

(** With a deletion delay, a dialog that was still referenced when its delete
    timer fired is never freed: [dlg_ondelete] leaves it, and dropping the last
    reference leaves it in the table with no reference and out of the delete
    timer. *)
Theorem delayed_delete_leaks env s a c at_
    (Hdelay : dlg_del_delay env ≠ 0) (Hc : cells s !! a = Some c) (Href : d_ref c = 1)
    (Hok : timer_ok (ddel_heap (tmr s)) (env_del_first env) at_) (Hgone : a ∈ gone at_)
    (Hnode : is_Some (ddel_heap (tmr s) !! a)) :
  dlg_ondelete s a = Some s
  ∧ unref_dlg env s a 1 = Some (put_cell s a (with_ref c 0)).
Proof.
  unfold dlg_ondelete, unref_dlg, unref_dlg_unsafe. rewrite Hc. cbn [mbind option_bind].
  rewrite Href. split; [done|]. simpl.
  rewrite (proj2 (Z.eqb_neq _ _) Hdelay). simpl.
  unfold insert_attempt_dlg_del_timer.
  rewrite (out_node _ _ _ _ Hok Hnode) by by apply (tm_gone _ _ _ _ Hok).
  rewrite decide_True by done. simpl. unfold put_ddel. simpl. by destruct s as [? ? []].
Qed.

(** ** Small tables *)

Definition demo_env (delay : Z) : dlg_env := DlgEnv delay 100 1 2.
Definition demo_cell (callid : bytes) (legs : list bytes) (id ref : Z) (q : dlg_state) : dlg_cell :=
  DlgCell ref id 0 q false 0 callid legs 0.
Definition demo_heap (first : Z) : heap := <[first := Tl first first 0]> {[10 := Tl 0 0 0]}.
Definition demo_sys (c : dlg_cell) : dlg_sys :=
  DlgSys {[10 := c]} [DlgEntry [10] 8 1] (Timers (demo_heap 1) (demo_heap 2)).

Lemma demo_heap_ok first : first ≠ 0 → first ≠ -1 → first ≠ 10 →
  timer_ok (demo_heap first) first (ATimer [] ∅).
Proof.
  intros H0 H1 H10. constructor; simpl.
  - unfold hnext, hprev, demo_heap. by rewrite lookup_insert_eq.
  - apply NoDup_singleton.
  - constructor.
  - constructor.
  - intros a n Ha Ho _. unfold demo_heap in Ha. rewrite lookup_insert_ne in Ha by set_solver.
    by apply lookup_singleton_Some in Ha as [_ <-].
  - intros a Ha. by apply elem_of_empty in Ha.
  - intros a Ha. by apply elem_of_empty in Ha.
  - unfold demo_heap. by rewrite lookup_insert_ne, lookup_singleton_ne.
  - unfold demo_heap. by rewrite lookup_insert_ne, lookup_singleton_ne.
Qed.

(** A dialog of the same Call-ID that does not match leaves its mark on the
    destination leg: a request from [f] to [x] matches the second dialog (caller
    [f], callee [x]) of the bucket, but the first one (caller [x], callee [y]) has
    set the leg to 0, so [get_dlg] reports the caller as the destination of a
    downstream request; without the first dialog it reports leg 1. *)
Theorem get_dlg_stale_leg :
  let x := [120] in let y := [121] in let f := [102] in let cid := [99] in
  let m := {[10 := demo_cell cid [x; y] 1 1 DLG_STATE_CONFIRMED;
             20 := demo_cell cid [f; x] 2 1 DLG_STATE_CONFIRMED]} in
  let table l := DlgSys m [DlgEntry l 8 2] (Timers ∅ ∅) in
  (∃ s', get_dlg (table [10; 20]) cid f x (-1) = Some (s', Some (20, DLG_DIR_DOWNSTREAM), 0))
  ∧ (∃ s', get_dlg (table [20]) cid f x (-1) = Some (s', Some (20, DLG_DIR_DOWNSTREAM), 1)).
Proof. split; eexists; vm_compute; reflexivity. Qed.

(** A deletion delay set on one dialog only: dropping the last reference puts
    the dialog into the delete timer, but with the module's own delay at 0 the
    timer routine never looks at that timer, at any time and with any dialog
    handler that leaves the delete timer alone. *)
Theorem custom_delay_never_fires env s a c at_ hdl del_hdl
    (Hdelay : dlg_del_delay env = 0) (Hc : cells s !! a = Some c) (Href : d_ref c = 1)
    (Hcustom : d_del_delay c ≠ 0)
    (Hok : timer_ok (ddel_heap (tmr s)) (env_del_first env) at_)
    (Hidle : a ∉ env_del_first env :: (live at_).*1 ∧ a ∉ gone at_)
    (Hnode : is_Some (ddel_heap (tmr s) !! a))
    (Hhdl : ∀ σ b σ', hdl σ b = Some σ' → ddel_heap σ' = ddel_heap σ) :
  ∃ s', unref_dlg env s a 1 = Some s' ∧ is_Some (cells s' !! a)
    ∧ (∃ at', timer_ok (ddel_heap (tmr s')) (env_del_first env) at' ∧ a ∈ (live at').*1)
    ∧ (∀ t σ' c1 c2,
         dlg_timer_routine hdl del_hdl (env_first env) (env_del_first env) (dlg_del_delay env) (tmr s') t
         = Some (σ', c1, c2) → c2 = [] ∧ ddel_heap σ' = ddel_heap (tmr s')).
Proof.
  destruct Hidle as [Hout Hng].
  unfold unref_dlg, unref_dlg_unsafe. rewrite Hc. cbn [mbind option_bind]. rewrite Href.
  simpl. rewrite Hdelay, (proj2 (Z.eqb_neq _ _) Hcustom). simpl.
  destruct (insert_attempt_ok _ _ _ Hok a Hnode ltac:(set_solver) (env_ticks env) (d_del_delay c))
    as (h' & -> & Hok' & _). simpl. eexists; split; [done|]. simpl. rewrite lookup_insert_eq.
  split; [eauto|]. split.
  - eexists; split; [exact Hok'|]. unfold spec_attempt. rewrite !decide_False by set_solver. simpl.
    apply list_elem_of_fmap. eexists; split; [|apply enqueue_elem; by left]. done.
  - intros t σ' c1 c2. unfold dlg_timer_routine. cbn -[run_expired].
    destruct (get_gen_expired_dlgs _ _ _) as [[h ret]|]; [|done]. cbn [mbind option_bind].
    destruct (run_expired d_heap put_d hdl _ _ _) as [[σ1 l]|] eqn:Er; [|done]. cbn [mbind option_bind].
    intros [= <- _ <-]. split; [done|].
    by eapply (run_expired_keeps hdl (λ h0, h0 = h')) in Er; [|intros ? ? ? ->%Hhdl|].
Qed.

(** ** The hypotheses hold on the small tables *)

Lemma dialog_refcount_witness :
  ∃ l', life_run (demo_env 0) 10 (Alive (demo_sys (demo_cell [99] [[120]] 1 2 DLG_STATE_UNCONFIRMED)) 1 0)
          [CEvent DLG_EVENT_RPL2xx 2 0; CRef; CTdel; CEvent DLG_EVENT_REQBYE 2 0; CUnref 2] = Some l'
    ∧ life_inv (demo_env 0) 10 l'.
Proof.
  apply (dialog_refcount_safe (demo_env 0) 10 _ (demo_cell [99] [[120]] 1 2 DLG_STATE_UNCONFIRMED) 1 0);
    try done.
  split_and!; try done. exists (ATimer [] ∅). by apply demo_heap_ok.
Defined.


Lemma deleted_final_witness :
  let c := with_bye (demo_cell [99] [[120]] 1 2 DLG_STATE_DELETED) in
  ∃ t, next_state_dlg (demo_env 0) false (demo_sys c) 10 DLG_EVENT_RPL2xx 2 0 true = Some (demo_sys c, t)
    ∧ new_state t = DLG_STATE_DELETED ∧ unref t = 0.
Proof.
  by apply (deleted_with_bye_is_final (demo_env 0) false
           (demo_sys (with_bye (demo_cell [99] [[120]] 1 2 DLG_STATE_DELETED))) 10
           (with_bye (demo_cell [99] [[120]] 1 2 DLG_STATE_DELETED)) DLG_EVENT_RPL2xx 2 0 true).
Defined.

Lemma link_then_lookup_witness :
  let c := demo_cell [99] [[120]] 0 0 DLG_STATE_UNCONFIRMED in
  ∃ s' s'' e', link_dlg (DlgSys {[20 := c]} [DlgEntry [] 8 0] (Timers ∅ ∅)) 20 1 = Some s'
    ∧ lookup_dlg s' 0 8 true = Some (s'', Some 20)
    ∧ d_ref <$> cells s'' !! 20 = Some 3
    ∧ entries s'' !! 0%nat = Some e' ∧ e_cells e' = [20]
    ∧ (bucket_ok (cells s') e' ∨ 8 + 1 = 2 ^ 32 - 1).
Proof.
  apply (link_then_lookup
    (DlgSys {[20 := demo_cell [99] [[120]] 0 0 DLG_STATE_UNCONFIRMED]} [DlgEntry [] 8 0] (Timers ∅ ∅))
    20 (demo_cell [99] [[120]] 0 0 DLG_STATE_UNCONFIRMED) (DlgEntry [] 8 0) 1); try done.
  - apply (bool_decide_unpack _). by vm_compute.
  - split_and!; [done|done|constructor|constructor].
Defined.

Lemma db_id_witness : dlg_parse_db_id (dlg_get_db_id 4095 123456789) = (4095, 123456789).
Proof. by apply (db_id_roundtrip 4095 123456789). Defined.

Definition fired_heap (first : Z) : heap := <[first := Tl first first 0]> {[10 := Tl (-1) 0 0]}.
Definition fired_sys (c : dlg_cell) : dlg_sys :=
  DlgSys {[10 := c]} [DlgEntry [10] 8 1] (Timers (demo_heap 1) (fired_heap 2)).

Lemma fired_heap_ok : timer_ok (fired_heap 2) 2 (ATimer [] {[10]}).
Proof.
  constructor; simpl.
  - done.
  - apply NoDup_singleton.
  - constructor.
  - constructor.
  - intros a n Ha Ho _. unfold fired_heap in Ha. rewrite lookup_insert_ne in Ha by set_solver.
    apply lookup_singleton_Some in Ha as [<- <-]. by rewrite decide_True by set_solver.
  - intros a Ha. by apply elem_of_empty in Ha.
  - intros a ->%elem_of_singleton. apply (bool_decide_unpack _). by vm_compute.
  - done.
  - done.
Qed.

Lemma delayed_delete_witness :
  let c := demo_cell [99] [[120]] 1 1 DLG_STATE_DELETED in
  dlg_ondelete (fired_sys c) 10 = Some (fired_sys c)
  ∧ unref_dlg (demo_env 5) (fired_sys c) 10 1 = Some (put_cell (fired_sys c) 10 (with_ref c 0)).
Proof.
  apply (delayed_delete_leaks (demo_env 5) (fired_sys (demo_cell [99] [[120]] 1 1 DLG_STATE_DELETED)) 10
           (demo_cell [99] [[120]] 1 1 DLG_STATE_DELETED) (ATimer [] {[10]})); try done.
  exact fired_heap_ok.
Defined.

Definition custom_cell : dlg_cell := DlgCell 1 1 0 DLG_STATE_DELETED true 7 [99] [[120]] 0.

Lemma custom_delay_witness :
  ∃ s', unref_dlg (demo_env 0) (demo_sys custom_cell) 10 1 = Some s' ∧ is_Some (cells s' !! 10)
    ∧ (∃ at', timer_ok (ddel_heap (tmr s')) 2 at' ∧ 10 ∈ (live at').*1)
    ∧ (∀ t σ' c1 c2, dlg_timer_routine (λ σ _, Some σ) (λ σ _, Some σ) 1 2 0 (tmr s') t
         = Some (σ', c1, c2) → c2 = [] ∧ ddel_heap σ' = ddel_heap (tmr s')).
Proof.
  apply (custom_delay_never_fires (demo_env 0) (demo_sys custom_cell) 10 custom_cell (ATimer [] ∅)
           (λ σ _, Some σ) (λ σ _, Some σ)); try done.
  - by apply demo_heap_ok.
  - simpl. set_solver.
  - by intros σ b σ' [= <-].
Defined.
