(* ===== verification/DlgPing.v ===== *)
(** * DlgPing: the in-dialog pinging lists (modules/dialog/dlg_timer.c)

    The lists behind [ping_timer] (OPTIONS) and [reinvite_ping_timer]: doubly
    linked, ended by null pointers, with the first and the last node known.  A heap
    maps addresses to [struct dlg_ping_list]; 0 is [NULL] and an access to an
    address without a node is [None].  Each operation runs under the lock of its
    list. *)

From stdpp Require Import prelude list gmap.
From Stdlib Require Import ZArith Lia.
From S2P Require Import Prelude DlgHash.

(** ** Data *)

(** [struct dlg_ping_list] *)
Record ping_node := PingNode { pn_dlg : Z; pn_timeout : Z; pn_next : Z; pn_prev : Z }.
(** [struct dlg_ping_timer] and [struct dlg_reinvite_ping_timer] *)
Record ping_list := PingList { pl_first : Z; pl_last : Z }.

Inductive ping_status := DLG_PING_SUCCESS | DLG_PING_PENDING | DLG_PING_FAIL.
#[export] Instance ping_status_eq_dec : EqDecision ping_status.
Proof. solve_decision. Defined.

(** The members of a dialog that pinging works with: its state, the four ping
    flags, the status of the caller's and of the callee's leg for each kind of
    ping, and its nodes in the two lists. *)
Record ping_dlg := PingDlg {
  pd_state : dlg_state;
  pd_ping_caller : bool;
  pd_ping_callee : bool;
  pd_reinvite_caller : bool;
  pd_reinvite_callee : bool;
  pd_caller_reply : ping_status;
  pd_callee_reply : ping_status;
  pd_caller_confirmed : ping_status;
  pd_callee_confirmed : ping_status;
  pd_pl : Z;
  pd_reinvite_pl : Z;
}.

Record ping_sys := PingSys {
  nodes : gmap Z ping_node;
  dlgs : gmap Z ping_dlg;
  ping_timer : ping_list;
  reinvite_ping_timer : ping_list;
}.

Definition with_nodes s m := PingSys m (dlgs s) (ping_timer s) (reinvite_ping_timer s).
Definition with_dlgs s m := PingSys (nodes s) m (ping_timer s) (reinvite_ping_timer s).

(** The list selected by the argument [reinvite]. *)
Definition the_list (reinvite : bool) (s : ping_sys) : ping_list :=
  if reinvite then reinvite_ping_timer s else ping_timer s.
Definition with_list (reinvite : bool) (s : ping_sys) (l : ping_list) : ping_sys :=
  if reinvite then PingSys (nodes s) (dlgs s) (ping_timer s) l
  else PingSys (nodes s) (dlgs s) l (reinvite_ping_timer s).
Definition set_first r s a := with_list r s (PingList a (pl_last (the_list r s))).
Definition set_last r s a := with_list r s (PingList (pl_first (the_list r s)) a).

Definition set_pnext (s : ping_sys) (a x : Z) : option ping_sys :=
  n ← nodes s !! a;
  Some (with_nodes s (<[a := PingNode (pn_dlg n) (pn_timeout n) x (pn_prev n)]> (nodes s))).
Definition set_pprev (s : ping_sys) (a x : Z) : option ping_sys :=
  n ← nodes s !! a;
  Some (with_nodes s (<[a := PingNode (pn_dlg n) (pn_timeout n) (pn_next n) x]> (nodes s))).
Definition set_ptimeout (s : ping_sys) (a x : Z) : option ping_sys :=
  n ← nodes s !! a;
  Some (with_nodes s (<[a := PingNode (pn_dlg n) x (pn_next n) (pn_prev n)]> (nodes s))).

(** ** Insertion *)

(** [for (it = first; it; it = it->next) if (it->timeout >= node->timeout) break;] *)
Fixpoint ping_scan (fuel : nat) (m : gmap Z ping_node) (timeout it : Z) : option Z :=
  match fuel with
  | O => None
  | S k =>
      if it =? 0 then Some 0
      else
        n ← m !! it;
        if timeout <=? pn_timeout n then Some it else ping_scan k m timeout (pn_next n)
  end.

(** The body shared by the two insertion functions, on the list [r]. *)
Definition insert_ping_node (r : bool) (s : ping_sys) (node ticks new_timeout : Z) : option ping_sys :=
  s ← set_ptimeout s node (u32 (ticks + new_timeout));
  n ← nodes s !! node;
  let l := the_list r s in
  if pl_first l =? 0 then Some (set_last r (set_first r s node) node)
  else
    let append s :=
      s ← set_pprev s node (pl_last l);
      s ← set_pnext s (pl_last l) node;
      Some (set_last r s node) in
    last ← nodes s !! pl_last l;
    if pn_timeout last <=? pn_timeout n then append s
    else
      it ← ping_scan (S (size (nodes s))) (nodes s) (pn_timeout n) (pl_first l);
      if it =? 0 then append s
      else
        i ← nodes s !! it;
        s ← set_pnext s (pn_prev i) node;
        i ← nodes s !! it;
        s ← set_pprev s node (pn_prev i);
        s ← set_pnext s node it;
        set_pprev s it node.

Definition unsafe_insert_ping_timer : ping_sys → Z → Z → Z → option ping_sys :=
  insert_ping_node false.
Definition unsafe_insert_reinvite_ping_timer : ping_sys → Z → Z → Z → option ping_sys :=
  insert_ping_node true.

Definition with_pl d a := PingDlg (pd_state d) (pd_ping_caller d) (pd_ping_callee d)
  (pd_reinvite_caller d) (pd_reinvite_callee d) (pd_caller_reply d) (pd_callee_reply d)
  (pd_caller_confirmed d) (pd_callee_confirmed d) a (pd_reinvite_pl d).
Definition with_reinvite_pl d a := PingDlg (pd_state d) (pd_ping_caller d) (pd_ping_callee d)
  (pd_reinvite_caller d) (pd_reinvite_callee d) (pd_caller_reply d) (pd_callee_reply d)
  (pd_caller_confirmed d) (pd_callee_confirmed d) (pd_pl d) a.
Definition with_replies d x y := PingDlg (pd_state d) (pd_ping_caller d) (pd_ping_callee d)
  (pd_reinvite_caller d) (pd_reinvite_callee d) x y
  (pd_caller_confirmed d) (pd_callee_confirmed d) (pd_pl d) (pd_reinvite_pl d).
Definition with_confirmed d x y := PingDlg (pd_state d) (pd_ping_caller d) (pd_ping_callee d)
  (pd_reinvite_caller d) (pd_reinvite_callee d) (pd_caller_reply d) (pd_callee_reply d)
  x y (pd_pl d) (pd_reinvite_pl d).

(** [insert_ping_timer]: [node] is the address [shm_malloc] returns, 0 on failure. *)
Definition insert_ping_timer (s : ping_sys) (dlg node ticks interval : Z) : option (ping_sys * Z) :=
  if node =? 0 then Some (s, -1)
  else
    let s := with_nodes s (<[node := PingNode dlg 0 0 0]> (nodes s)) in
    s ← unsafe_insert_ping_timer s node ticks interval;
    d ← dlgs s !! dlg;
    let d := with_replies (with_pl d node) DLG_PING_SUCCESS DLG_PING_SUCCESS in
    Some (with_dlgs s (<[dlg := d]> (dlgs s)), 0).

Definition insert_reinvite_ping_timer (s : ping_sys) (dlg node ticks interval : Z)
    : option (ping_sys * Z) :=
  if node =? 0 then Some (s, -1)
  else
    let s := with_nodes s (<[node := PingNode dlg 0 0 0]> (nodes s)) in
    s ← unsafe_insert_reinvite_ping_timer s node ticks interval;
    d ← dlgs s !! dlg;
    let d := with_confirmed (with_reinvite_pl d node) DLG_PING_SUCCESS DLG_PING_SUCCESS in
    Some (with_dlgs s (<[dlg := d]> (dlgs s)), 0).

(** ** Detaching *)

Definition detach_ping_node_unsafe (s : ping_sys) (it : Z) (reinvite : bool) : option ping_sys :=
  i ← nodes s !! it;
  s ← (if negb (pn_next i =? 0) && negb (pn_prev i =? 0) then
         s ← set_pnext s (pn_prev i) (pn_next i);
         i ← nodes s !! it;
         set_pprev s (pn_next i) (pn_prev i)
       else if negb (pn_next i =? 0) then
         s ← set_pprev s (pn_next i) 0;
         Some (set_first reinvite s (pn_next i))
       else if negb (pn_prev i =? 0) then
         s ← set_pnext s (pn_prev i) 0;
         Some (set_last reinvite s (pn_prev i))
       else Some (set_last reinvite (set_first reinvite s 0) 0));
  s ← set_pprev s it 0;
  set_pnext s it 0.

(** ** Expiration *)

(** Pinging failed on a leg that is pinged. *)
Definition ping_failed (reinvite : bool) (d : ping_dlg) : bool :=
  if reinvite then
    pd_reinvite_caller d && bool_decide (pd_caller_confirmed d = DLG_PING_FAIL)
    || pd_reinvite_callee d && bool_decide (pd_callee_confirmed d = DLG_PING_FAIL)
  else
    pd_ping_caller d && bool_decide (pd_caller_reply d = DLG_PING_FAIL)
    || pd_ping_callee d && bool_decide (pd_callee_reply d = DLG_PING_FAIL).

(** The dialog forgets its node. *)
Definition forget_node (reinvite : bool) (s : ping_sys) (dlg : Z) : option ping_sys :=
  d ← dlgs s !! dlg;
  let d := if reinvite then with_reinvite_pl d 0 else with_pl d 0 in
  Some (with_dlgs s (<[dlg := d]> (dlgs s))).

(** Push the detached node [it] on the list whose head is [head]. *)
Definition push_node (s : ping_sys) (it head : Z) : option (ping_sys * Z) :=
  if head =? 0 then Some (s, it)
  else s ← set_pnext s it head; Some (s, it).

(** The loop of [get_timeout_dlgs]: the table and the heads of the two lists. *)
Fixpoint get_timeout_loop (fuel : nat) (reinvite : bool) (s : ping_sys) (exp del it : Z)
    : option (ping_sys * Z * Z) :=
  match fuel with
  | O => None
  | S k =>
      if it =? 0 then Some (s, exp, del)
      else
        i ← nodes s !! it;
        d ← dlgs s !! pn_dlg i;
        let next := pn_next i in
        if bool_decide (pd_state d = DLG_STATE_DELETED) then
          s ← detach_ping_node_unsafe s it reinvite;
          s ← forget_node reinvite s (pn_dlg i);
          '(s, del) ← push_node s it del;
          get_timeout_loop k reinvite s exp del next
        else if ping_failed reinvite d then
          s ← detach_ping_node_unsafe s it reinvite;
          s ← forget_node reinvite s (pn_dlg i);
          '(s, exp) ← push_node s it exp;
          get_timeout_loop k reinvite s exp del next
        else get_timeout_loop k reinvite s exp del next
  end.

(** [get_timeout_dlgs]: the table, [*expired] and [*to_be_deleted]. *)
Definition get_timeout_dlgs (s : ping_sys) (reinvite : bool) : option (ping_sys * Z * Z) :=
  get_timeout_loop (S (size (nodes s))) reinvite s 0 0 (pl_first (the_list reinvite s)).

(** ** Replies to pings *)

(** [dlg_handle_seq_reply] on the status of the leg the reply came from: the new
    status and the return value.  [faked] is [rpl == FAKED_REPLY]. *)
Definition dlg_handle_seq_reply (faked : bool) (statuscode : Z) : ping_status * Z :=
  if faked || (statuscode =? 408) then (DLG_PING_FAIL, -1)
  else if statuscode =? 481 then (DLG_PING_FAIL, -1)
  else (DLG_PING_SUCCESS, 0).
