(* ===== verification/DlgPingSpec.v ===== *)
(** * DlgPingSpec: what the pinging lists promise (modules/dialog/dlg_timer.c)

    The well-formed list, what insertion, detaching and the collection of dead
    dialogs do to it, and the insertion that dereferences a null pointer. *)

From stdpp Require Import prelude list gmap.
From Stdlib Require Import ZArith Lia.
From S2P Require Import Prelude DlgHash DlgPing.

(** ** Well-formed lists *)

Definition hd_or (x : Z) (l : list Z) : Z := default x (head l).

(** The nodes [l] linked in this order, after [p] and before [nx]. *)
Fixpoint pseg (m : gmap Z ping_node) (p : Z) (l : list Z) (nx : Z) : Prop :=
  match l with
  | [] => True
  | a :: l' =>
      ∃ n, m !! a = Some n ∧ pn_prev n = p ∧ pn_next n = hd_or nx l' ∧ pseg m a l' nx
  end.

Definition list_ok (r : bool) (s : ping_sys) (l : list Z) : Prop :=
  pseg (nodes s) 0 l 0 ∧ the_list r s = PingList (hd_or 0 l) (last_or 0 l) ∧ NoDup l ∧ 0 ∉ l.

Lemma hd_or_app x l1 l2 : hd_or x (l1 ++ l2) = hd_or (hd_or x l2) l1.
Proof. by destruct l1. Qed.

Lemma pseg_app m l1 l2 nx : ∀ p,
  pseg m p (l1 ++ l2) nx ↔ pseg m p l1 (hd_or nx l2) ∧ pseg m (last_or p l1) l2 nx.
Proof.
  induction l1 as [|a l1 IH]; intros p; simpl; [tauto|].
  rewrite last_or_cons. setoid_rewrite IH. rewrite hd_or_app. naive_solver.
Qed.

Lemma pseg_frame m m' l nx : ∀ p,
  (∀ y, y ∈ l → m' !! y = m !! y) → pseg m p l nx → pseg m' p l nx.
Proof.
  induction l as [|a l IH]; intros p Hm; simpl; [done|].
  intros (n & E & Hp & Hn & Hs). exists n. rewrite Hm by set_solver. split_and!; try done.
  apply IH; [set_solver|done].
Qed.

Lemma pseg_in m p l nx a : pseg m p l nx → a ∈ l → is_Some (m !! a).
Proof.
  revert p. induction l as [|b l IH]; intros p Hs Ha; [set_solver|].
  destruct Hs as (n & E & _ & _ & Hs). apply elem_of_cons in Ha as [->|Ha]; [eauto|by eapply IH].
Qed.

(** The last node of a segment, pointed elsewhere. *)
Lemma pseg_retarget m l a n p nx nx' :
  pseg m p (l ++ [a]) nx → a ∉ l → m !! a = Some n →
  pseg (<[a := PingNode (pn_dlg n) (pn_timeout n) nx' (pn_prev n)]> m) p (l ++ [a]) nx'.
Proof.
  rewrite !pseg_app. simpl. intros [Hs (n' & E & Hp & _)] Hal E'.
  rewrite E in E'. injection E' as ->. split.
  - eapply pseg_frame; [|exact Hs]. intros y Hy. rewrite lookup_insert_ne; [done|set_solver].
  - eexists. rewrite lookup_insert_eq. by split.
Qed.

(** The first node of a segment, pointed back elsewhere. *)
Lemma pseg_reback m l a n p p' nx :
  pseg m p (a :: l) nx → a ∉ l → m !! a = Some n →
  pseg (<[a := PingNode (pn_dlg n) (pn_timeout n) (pn_next n) p']> m) p' (a :: l) nx.
Proof.
  simpl. intros (n' & E & _ & Hn & Hs) Hal E'.
  rewrite E in E'. injection E' as ->. eexists. rewrite lookup_insert_eq.
  split; [done|]. simpl. split_and!; [done|done|].
  eapply pseg_frame; [|exact Hs]. intros y Hy. rewrite lookup_insert_ne; [done|set_solver].
Qed.

Lemma the_list_with_list r s l : the_list r (with_list r s l) = l.
Proof. by destruct r. Qed.
Lemma nodes_with_list r s l : nodes (with_list r s l) = nodes s.
Proof. by destruct r. Qed.
Lemma the_list_with_nodes r s m : the_list r (with_nodes s m) = the_list r s.
Proof. by destruct r. Qed.
Lemma dlgs_with_list r s l : dlgs (with_list r s l) = dlgs s.
Proof. by destruct r. Qed.

(** ** Insertion at the end *)

Lemma insert_ping_append r s l node n ticks t :
  list_ok r s l → node ∉ l → node ≠ 0 → nodes s !! node = Some n → pn_next n = 0 → pn_prev n = 0 →
  (∀ b nb, last l = Some b → nodes s !! b = Some nb → pn_timeout nb <= u32 (ticks + t)) →
  ∃ s', insert_ping_node r s node ticks t = Some s' ∧ list_ok r s' (l ++ [node]).
Proof.
  intros (Hs & Hl & Hd & H0) Hnl Hn0 En Hnx Hpv Hlast. unfold insert_ping_node, set_ptimeout.
  rewrite En. cbn [mbind option_bind nodes with_nodes]. rewrite lookup_insert_eq.
  cbn [mbind option_bind]. rewrite the_list_with_nodes, Hl. cbn [pl_first pl_last].
  destruct l as [|b l'] using rev_ind.
  - simpl. eexists; split; [done|]. unfold set_last, set_first.
    split_and!; rewrite ?nodes_with_list, ?the_list_with_list; simpl.
    + eexists. rewrite lookup_insert_eq. split; [done|]. by rewrite Hnx.
    + done.
    + apply NoDup_singleton.
    + set_solver.
  - clear IHl'. rename l' into l. rewrite last_or_snoc. assert (b ≠ node) as Hbn by set_solver.
    assert (b ∉ l) as Hbl by (apply NoDup_app in Hd as (_ & Hd & _); set_solver).
    rewrite hd_or_app. assert (hd_or (hd_or 0 [b]) l ≠ 0) as Hf.
    { unfold hd_or. destruct l; simpl; set_solver. }
    rewrite (proj2 (Z.eqb_neq _ _) Hf).
    destruct (pseg_in _ _ _ _ b Hs ltac:(set_solver)) as [nb Eb].
    rewrite lookup_insert_ne by set_solver. rewrite Eb. cbn [mbind option_bind].
    specialize (Hlast b nb ltac:(by rewrite last_snoc) Eb).
    rewrite (proj2 (Z.leb_le _ _)) by exact Hlast.
    unfold set_pprev at 1. cbn [nodes with_nodes]. rewrite lookup_insert_eq. cbn [mbind option_bind].
    unfold set_pnext. cbn [nodes with_nodes]. rewrite !lookup_insert_ne by set_solver. rewrite Eb.
    cbn [mbind option_bind]. eexists; split; [done|]. unfold set_last.
    split_and!; rewrite ?nodes_with_list, ?the_list_with_list, ?the_list_with_nodes; simpl.
    + rewrite pseg_app. split.
      * apply pseg_retarget with 0; [|done|by rewrite !lookup_insert_ne by done].
        eapply pseg_frame; [|exact Hs]. intros y Hy. by rewrite !lookup_insert_ne by set_solver.
      * simpl. eexists. rewrite lookup_insert_ne, lookup_insert_eq by done. split; [done|].
        simpl. by rewrite last_or_snoc.
    + rewrite Hl. f_equal; [|by rewrite last_or_snoc]. rewrite !hd_or_app. by destruct l.
    + apply NoDup_app. split; [done|]. split; [set_solver|apply NoDup_singleton].
    + set_solver.
Qed.

(** ** Insertion before the first node *)

Lemma insert_ping_before_first r s a l node n ticks t nb na :
  list_ok r s (a :: l) → nodes s !! 0 = None → node ∉ a :: l → nodes s !! node = Some n →
  nodes s !! last_or 0 (a :: l) = Some nb → u32 (ticks + t) < pn_timeout nb →
  nodes s !! a = Some na → u32 (ticks + t) <= pn_timeout na →
  insert_ping_node r s node ticks t = None.
Proof.
  intros (Hs & Hl & Hd & H0) Hnull Hnl En Eb Hb Ea Ha. unfold insert_ping_node, set_ptimeout.
  rewrite En. cbn [mbind option_bind nodes with_nodes]. rewrite lookup_insert_eq.
  cbn [mbind option_bind]. rewrite the_list_with_nodes, Hl. cbn [pl_first pl_last].
  assert (a ≠ 0) as Ha0 by set_solver. assert (node ≠ a) by set_solver.
  change (hd_or 0 (a :: l)) with a. rewrite (proj2 (Z.eqb_neq _ _) Ha0).
  assert (last_or 0 (a :: l) ∈ a :: l) as Hin.
  { unfold last_or. destruct (last (a :: l)) as [z|] eqn:Ez; [|by apply last_None in Ez].
    apply last_Some in Ez as [l' ->]. simpl. set_solver. }
  rewrite lookup_insert_ne by set_solver. rewrite Eb. cbn [mbind option_bind].
  rewrite (proj2 (Z.leb_gt _ _)) by exact Hb. cbn [ping_scan].
  rewrite (proj2 (Z.eqb_neq _ _) Ha0). rewrite lookup_insert_ne by done. rewrite Ea.
  cbn [mbind option_bind]. rewrite (proj2 (Z.leb_le _ _)) by exact Ha. cbn [mbind option_bind].
  rewrite (proj2 (Z.eqb_neq _ _) Ha0). rewrite lookup_insert_ne by done. rewrite Ea.
  cbn [mbind option_bind].
  destruct Hs as (na' & Ea' & Hp & _). rewrite Ea in Ea'. injection Ea' as <-. rewrite Hp.
  unfold set_pnext. cbn [nodes with_nodes]. rewrite lookup_insert_ne by congruence.
  by rewrite Hnull.
Qed.

(** ** Detaching *)

Lemma pseg_node m l1 a l2 :
  pseg m 0 (l1 ++ a :: l2) 0 →
  ∃ n, m !! a = Some n ∧ pn_prev n = last_or 0 l1 ∧ pn_next n = hd_or 0 l2
    ∧ pseg m 0 l1 a ∧ pseg m a l2 0.
Proof. rewrite pseg_app. intros [H1 (n & E & Hp & Hn & H2)]. by exists n. Qed.

Lemma last_or_0 l : 0 ∉ l → last_or 0 l = 0 → l = [].
Proof.
  intros H0. unfold last_or. destruct (last l) as [x|] eqn:E; [|by apply last_None in E].
  apply last_Some in E as [l' ->]. simpl. intros ->. set_solver.
Qed.
Lemma hd_or_0 l : 0 ∉ l → hd_or 0 l = 0 → l = [].
Proof. destruct l; [done|]. unfold hd_or; simpl. intros ? ->. set_solver. Qed.

(** What a detached node looks like. *)
Definition alone (n : ping_node) : ping_node := PingNode (pn_dlg n) (pn_timeout n) 0 0.

(** Relinking the neighbours of a node, in the heap. *)
Lemma pseg_bypass m l1 l2 p x np nx' :
  pseg m 0 (l1 ++ [p]) np → pseg m nx' (x :: l2) 0 → NoDup (l1 ++ p :: x :: l2) →
  ∃ n1 n2, m !! p = Some n1 ∧ m !! x = Some n2 ∧
    pseg (<[x := PingNode (pn_dlg n2) (pn_timeout n2) (pn_next n2) p]>
           (<[p := PingNode (pn_dlg n1) (pn_timeout n1) x (pn_prev n1)]> m)) 0
      ((l1 ++ [p]) ++ x :: l2) 0.
Proof.
  intros H1 H2 Hd.
  destruct (pseg_in _ _ _ _ p H1 ltac:(set_solver)) as [n1 E1].
  destruct (pseg_in _ _ _ _ x H2 ltac:(set_solver)) as [n2 E2].
  apply NoDup_app in Hd as (Hd1 & Hd12 & Hd2). apply NoDup_cons in Hd2 as [Hp Hd2].
  apply NoDup_cons in Hd2 as [Hx Hd2]. exists n1, n2. split_and!; [done..|].
  assert (x ≠ p) as Hxp by set_solver.
  apply pseg_app. split.
  - eapply pseg_frame; [|apply (pseg_retarget m l1 p n1 0 np x H1); [set_solver|done]].
    intros y Hy. rewrite lookup_insert_ne; [done|set_solver].
  - rewrite last_or_snoc. eapply pseg_reback; [|done|by rewrite lookup_insert_ne].
    eapply pseg_frame; [|exact H2]. intros y Hy. rewrite lookup_insert_ne; [done|set_solver].
Qed.

(** What relinking around a node keeps. *)
Definition same_but (l : list Z) (s s' : ping_sys) : Prop :=
  dlgs s' = dlgs s ∧ (∀ y, y ∉ l → nodes s' !! y = nodes s !! y)
  ∧ (∀ y, pn_dlg <$> nodes s' !! y = pn_dlg <$> nodes s !! y) ∧ size (nodes s') = size (nodes s).

Lemma same_but_refl l s : same_but l s s.
Proof. by split_and!. Qed.
Lemma same_but_trans l l' s1 s2 s3 :
  same_but l s1 s2 → same_but l' s2 s3 → (∀ y, y ∈ l → y ∈ l') → same_but l' s1 s3.
Proof.
  intros (D1 & N1 & P1 & S1) (D2 & N2 & P2 & S2) Hl. split_and!; [congruence| | |congruence].
  - intros y Hy. rewrite N2, N1; auto.
  - intros y. by rewrite P2, P1.
Qed.
Lemma same_but_list l s r x : same_but l s (with_list r s x).
Proof. by destruct r. Qed.

Lemma same_but_node l s a n n' :
  nodes s !! a = Some n → a ∈ l → pn_dlg n' = pn_dlg n →
  same_but l s (with_nodes s (<[a := n']> (nodes s))).
Proof.
  intros E Ha Hd. split_and!; simpl; [done|..].
  - intros y Hy. rewrite lookup_insert_ne; [done|set_solver].
  - intros y. destruct (decide (y = a)) as [->|]; [|by rewrite lookup_insert_ne].
    rewrite lookup_insert_eq, E. simpl. by rewrite Hd.
  - rewrite map_size_insert_Some; [done|by eexists].
Qed.

(** The relinking of [detach_ping_node_unsafe]. *)
Lemma relink_ok r s l1 a l2 n :
  list_ok r s (l1 ++ a :: l2) → nodes s !! a = Some n →
  ∃ s1,
    (if negb (pn_next n =? 0) && negb (pn_prev n =? 0) then
       s ← set_pnext s (pn_prev n) (pn_next n);
       i ← nodes s !! a;
       set_pprev s (pn_next i) (pn_prev i)
     else if negb (pn_next n =? 0) then
       s ← set_pprev s (pn_next n) 0;
       Some (set_first r s (pn_next n))
     else if negb (pn_prev n =? 0) then
       s ← set_pnext s (pn_prev n) 0;
       Some (set_last r s (pn_prev n))
     else Some (set_last r (set_first r s 0) 0)) = Some s1
    ∧ list_ok r s1 (l1 ++ l2) ∧ same_but (l1 ++ l2) s s1.
Proof.
  intros (Hs & Hl & Hd & H0) En.
  destruct (pseg_node _ _ _ _ Hs) as (n' & En' & Hp & Hn & H1 & H2).
  rewrite En in En'. injection En' as <-. rewrite Hp, Hn.
  assert (a ∉ l1 ∧ a ∉ l2) as [Ha1 Ha2].
  { apply NoDup_app in Hd as (_ & Hd1 & [Hd2 _]%NoDup_cons). split; [|done].
    intros Ha. by apply (Hd1 a Ha), elem_of_cons; left. }
  assert (NoDup (l1 ++ l2)) as Hd'.
  { rewrite <- Permutation_middle in Hd. by apply NoDup_cons in Hd as [_ Hd]. }
  destruct l1 as [|p l1 _] using rev_ind; destruct l2 as [|x l2].
  - eexists; split; [done|]. split; [|by destruct r].
    unfold set_last, set_first. split_and!; rewrite ?nodes_with_list, ?the_list_with_list;
      [done|done|constructor|set_solver].
  - assert (x ≠ 0) as Hx0 by set_solver. change (hd_or 0 (x :: l2)) with x.
    change (last_or 0 []) with 0. rewrite (proj2 (Z.eqb_neq _ _) Hx0). simpl.
    destruct (pseg_in _ _ _ _ x H2 ltac:(set_solver)) as [nx Ex].
    unfold set_pprev. rewrite Ex. cbn [mbind option_bind]. eexists; split; [done|].
    unfold set_first. split.
    + split_and!; rewrite ?nodes_with_list, ?the_list_with_list, ?the_list_with_nodes; simpl.
      * apply (pseg_reback _ l2 x nx a); [done| |done]. by apply NoDup_cons in Hd' as [? _].
      * rewrite Hl. simpl. by rewrite !last_or_cons.
      * done.
      * set_solver.
    + eapply same_but_trans; [apply (same_but_node (x :: l2) s x nx)|apply same_but_list|]; 
        try done; set_solver.
  - assert (p ≠ 0) as Hp0 by set_solver. change (hd_or 0 []) with 0. rewrite last_or_snoc.
    rewrite (proj2 (Z.eqb_neq _ _) Hp0). simpl.
    destruct (pseg_in _ _ _ _ p H1 ltac:(set_solver)) as [np Ep].
    unfold set_pnext. rewrite Ep. cbn [mbind option_bind]. eexists; split; [done|].
    unfold set_last. rewrite app_nil_r in *. split.
    + split_and!; rewrite ?nodes_with_list, ?the_list_with_list, ?the_list_with_nodes; simpl.
      * apply (pseg_retarget _ l1 p np 0 a); [done| |done].
        apply NoDup_app in Hd' as (_ & Hd' & _). set_solver.
      * rewrite Hl. f_equal; [|by rewrite last_or_snoc]. simpl. rewrite !hd_or_app. by destruct l1.
      * done.
      * set_solver.
    + eapply same_but_trans; [apply (same_but_node (l1 ++ [p]) s p np)|apply same_but_list|];
        try done; set_solver.
  - assert (p ≠ 0 ∧ x ≠ 0) as [Hp0 Hx0] by set_solver. change (hd_or 0 (x :: l2)) with x.
    rewrite last_or_snoc. rewrite (proj2 (Z.eqb_neq _ _) Hp0), (proj2 (Z.eqb_neq _ _) Hx0). simpl.
    destruct (pseg_bypass (nodes s) l1 l2 p x a a H1 H2) as (np & nx & Ep & Ex & Hb).
    { by rewrite <- app_assoc in Hd'. }
    unfold set_pnext. rewrite Ep. cbn [mbind option_bind nodes with_nodes].
    rewrite lookup_insert_ne by set_solver. rewrite En. cbn [mbind option_bind]. rewrite Hn, Hp.
    change (hd_or 0 (x :: l2)) with x. rewrite last_or_snoc.
    assert (x ≠ p) as Hxp.
    { rewrite <- app_assoc in Hd'. apply NoDup_app in Hd' as (_ & _ & [Hx _]%NoDup_cons). set_solver. }
    unfold set_pprev. cbn [nodes with_nodes]. rewrite lookup_insert_ne by done. rewrite Ex.
    cbn [mbind option_bind]. eexists; split; [done|]. split.
    + split_and!; rewrite ?the_list_with_nodes; simpl.
      * exact Hb.
      * rewrite Hl. f_equal; [rewrite !hd_or_app; by destruct l1|]. by rewrite !last_or_app, !last_or_cons.
      * done.
      * set_solver.
    + eapply (same_but_trans ((l1 ++ [p]) ++ x :: l2));
        [apply (same_but_node _ s p np (PingNode (pn_dlg np) (pn_timeout np) x (pn_prev np)));
         [done|set_solver|done]| |done].
      eapply (same_but_node _ (with_nodes s _) x nx); [simpl; by rewrite lookup_insert_ne|set_solver|done].
Qed.

Lemma list_ok_out r s l a n' :
  list_ok r s l → a ∉ l → list_ok r (with_nodes s (<[a := n']> (nodes s))) l.
Proof.
  intros (Hs & Hl & Hd & H0) Ha. split_and!; rewrite ?the_list_with_nodes; simpl; try done.
  eapply pseg_frame; [|exact Hs]. intros y Hy. rewrite lookup_insert_ne; [done|set_solver].
Qed.

Lemma set_alone s a n :
  nodes s !! a = Some n →
  (s' ← set_pprev s a 0; set_pnext s' a 0) = Some (with_nodes s (<[a := alone n]> (nodes s))).
Proof.
  intros E. unfold set_pprev, set_pnext. rewrite E. cbn [mbind option_bind nodes with_nodes].
  rewrite lookup_insert_eq. cbn [mbind option_bind]. unfold with_nodes; simpl. by rewrite insert_insert_eq.
Qed.

Lemma detach_ok r s l1 a l2 :
  list_ok r s (l1 ++ a :: l2) →
  ∃ n s', nodes s !! a = Some n ∧ detach_ping_node_unsafe s a r = Some s'
    ∧ list_ok r s' (l1 ++ l2) ∧ nodes s' !! a = Some (alone n) ∧ same_but (l1 ++ a :: l2) s s'.
Proof.
  intros Hok. pose proof Hok as (Hs & _ & Hd & _).
  destruct (pseg_node _ _ _ _ Hs) as (n & En & _).
  destruct (relink_ok r s l1 a l2 n Hok En) as (s1 & E1 & Hok1 & Hsame).
  assert (a ∉ l1 ++ l2) as Ha.
  { rewrite <- Permutation_middle in Hd. by apply NoDup_cons in Hd as [Ha _]. }
  pose proof Hsame as (_ & Hn1 & _). assert (nodes s1 !! a = Some n) as En1 by by rewrite Hn1.
  exists n. unfold detach_ping_node_unsafe. rewrite En. cbn [mbind option_bind]. rewrite E1.
  cbn [mbind option_bind]. rewrite (set_alone s1 a n En1). eexists; split_and!; [done|done|..].
  - by apply list_ok_out.
  - simpl. by rewrite lookup_insert_eq.
  - eapply same_but_trans; [exact Hsame| |set_solver].
    apply (same_but_node _ s1 a n); [done|set_solver|done].
Qed.

(** ** Collecting the dead and the failed *)

(** A list linked through [next] only, ended by a null pointer. *)
Fixpoint chain (m : gmap Z ping_node) (x : Z) (l : list Z) : Prop :=
  match l with
  | [] => x = 0
  | a :: l' => x = a ∧ ∃ n, m !! a = Some n ∧ chain m (pn_next n) l'
  end.

Lemma chain_frame m m' l : ∀ x, (∀ y, y ∈ l → m' !! y = m !! y) → chain m x l → chain m' x l.
Proof.
  induction l as [|a l IH]; intros x Hm; simpl; [done|]. intros (-> & n & E & Hc).
  split; [done|]. exists n. rewrite Hm by set_solver. split; [done|]. apply IH; [set_solver|done].
Qed.

(** The verdict on a dialog. *)
Inductive verdict := Dead | Failed | Live.
#[export] Instance verdict_eq_dec : EqDecision verdict.
Proof. solve_decision. Defined.
Definition judge (r : bool) (d : ping_dlg) : verdict :=
  if decide (pd_state d = DLG_STATE_DELETED) then Dead
  else if ping_failed r d then Failed else Live.

(** The verdict on the dialog of a node is [v]. *)
Definition judged (r : bool) (s : ping_sys) (a : Z) (v : verdict) : Prop :=
  ∃ n d, nodes s !! a = Some n ∧ dlgs s !! pn_dlg n = Some d ∧ judge r d = v.

Lemma judge_forget r d : judge r (if r then with_reinvite_pl d 0 else with_pl d 0) = judge r d.
Proof. by destruct r. Qed.

Lemma forget_node_ok r s dlg d :
  dlgs s !! dlg = Some d →
  ∃ s', forget_node r s dlg = Some s' ∧ nodes s' = nodes s ∧ (∀ r, the_list r s' = the_list r s)
    ∧ (∀ y e, dlgs s !! y = Some e → ∃ e', dlgs s' !! y = Some e' ∧ judge r e' = judge r e).
Proof.
  intros E. unfold forget_node. rewrite E. cbn [mbind option_bind]. eexists; split; [done|].
  split_and!; [done|by intros []|]. intros y e Ey. simpl. destruct (decide (y = dlg)) as [->|].
  - rewrite lookup_insert_eq. eexists; split; [done|]. rewrite E in Ey. injection Ey as <-.
    apply judge_forget.
  - rewrite lookup_insert_ne by done. eauto.
Qed.

Lemma push_node_ok s a n head l :
  nodes s !! a = Some (alone n) → chain (nodes s) head l → a ∉ l →
  ∃ s', push_node s a head = Some (s', a) ∧ chain (nodes s') a (a :: l)
    ∧ (∀ r, the_list r s' = the_list r s) ∧ dlgs s' = dlgs s
    ∧ (∀ y, y ≠ a → nodes s' !! y = nodes s !! y) ∧ pn_dlg <$> nodes s' !! a = Some (pn_dlg n)
    ∧ size (nodes s') = size (nodes s).
Proof.
  intros E Hc Ha. unfold push_node. destruct (Z.eqb_spec head 0) as [->|Hne].
  - exists s. split_and!; try done; [|by rewrite E]. split; [done|].
    exists (alone n). split; [done|]. destruct l; [done|]. simpl. simpl in Hc.
    destruct Hc as (-> & m & Em & Hc). simpl. split; [done|]. eauto.
  - unfold set_pnext. rewrite E. cbn [mbind option_bind]. eexists; split; [done|].
    split_and!; simpl; try (by intros []); try done.
    + split; [done|]. eexists. rewrite lookup_insert_eq. split; [done|]. simpl.
      eapply chain_frame; [|exact Hc]. intros y Hy. rewrite lookup_insert_ne; [done|set_solver].
    + intros y Hy. by rewrite lookup_insert_ne.
    + by rewrite lookup_insert_eq.
    + rewrite map_size_insert_Some; [done|by eexists].
Qed.

Section collect.
Context (r : bool) (v : Z → verdict).

Lemma judged_keep s s' (l : list Z) :
  (∀ y, pn_dlg <$> nodes s' !! y = pn_dlg <$> nodes s !! y) →
  (∀ y e, dlgs s !! y = Some e → ∃ e', dlgs s' !! y = Some e' ∧ judge r e' = judge r e) →
  (∀ y, y ∈ l → judged r s y (v y)) → ∀ y, y ∈ l → judged r s' y (v y).
Proof.
  intros Hn Hd Hl y Hy. destruct (Hl y Hy) as (n & d & En & Ed & Hj).
  specialize (Hn y). rewrite En in Hn. destruct (nodes s' !! y) as [n'|] eqn:En'; [|done].
  simpl in Hn. injection Hn as Hn. destruct (Hd _ _ Ed) as (d' & Ed' & Hj').
  exists n', d'. by rewrite Hn, Hj', Hj.
Qed.

(** Moving a node from the list to the chain [L]. *)
Lemma extract_ok s K a R L M hl hm n d :
  list_ok r s (K ++ a :: R) → nodes s !! a = Some n → dlgs s !! pn_dlg n = Some d →
  chain (nodes s) hl L → chain (nodes s) hm M → (∀ y, y ∈ L ++ M → y ∉ K ++ a :: R) →
  (∀ y, y ∈ R → judged r s y (v y)) →
  ∃ s1 s2 s', detach_ping_node_unsafe s a r = Some s1 ∧ forget_node r s1 (pn_dlg n) = Some s2
    ∧ push_node s2 a hl = Some (s', a)
    ∧ list_ok r s' (K ++ R) ∧ chain (nodes s') a (a :: L) ∧ chain (nodes s') hm M
    ∧ (∀ y, y ∈ R → judged r s' y (v y)) ∧ size (nodes s') = size (nodes s).
Proof.
  intros Hok En Ed HL HM Hdis Hv.
  destruct (detach_ok r s K a R Hok) as (n0 & s1 & En0 & E1 & Hok1 & Ea1 & Hd1 & Hn1 & Hp1 & Hsz1).
  rewrite En in En0. injection En0 as <-.
  destruct (forget_node_ok r s1 (pn_dlg n) d) as (s2 & E2 & Hn2 & Hl2 & Hj2); [by rewrite Hd1|].
  assert (a ∉ L ∧ a ∉ M) as [HaL HaM] by (split; intros ?; apply (Hdis a); set_solver).
  destruct (push_node_ok s2 a n hl L) as (s' & E3 & Hc3 & Hl3 & Hd3 & Hn3 & Ha3 & Hsz3).
  { by rewrite Hn2. }
  { rewrite Hn2. eapply chain_frame; [|exact HL]. intros y Hy. apply Hn1, Hdis. set_solver. }
  { done. }
  assert (a ∉ K ++ R) as Ha.
  { destruct Hok as (_ & _ & Hd & _). rewrite <- Permutation_middle in Hd.
    by apply NoDup_cons in Hd as [Ha _]. }
  exists s1, s2, s'. split_and!; try done.
  - destruct Hok1 as (Hs & Hl & Hd & H0). split_and!; try done.
    + eapply pseg_frame; [|exact Hs]. intros y Hy. rewrite Hn3, Hn2; [done|set_solver].
    + by rewrite Hl3, Hl2.
  - eapply chain_frame; [|exact HM]. intros y Hy.
    rewrite Hn3, Hn2, Hn1; [done|apply Hdis; set_solver|set_solver].
  - eapply judged_keep; [..|exact Hv].
    + intros y. destruct (decide (y = a)) as [->|]; [by rewrite Ha3, En|]. by rewrite Hn3, Hn2.
    + intros y e Ey. rewrite Hd3. apply Hj2. by rewrite Hd1.
  - by rewrite Hsz3, Hn2, Hsz1.
Qed.

Definition with_verdict (x : verdict) (l : list Z) : list Z := filter (λ a, v a = x) l.

Lemma get_timeout_loop_ok R : ∀ fuel s K E D he hd,
  list_ok r s (K ++ R) → chain (nodes s) he E → chain (nodes s) hd D →
  (∀ y, y ∈ E ++ D → y ∉ K ++ R) → NoDup (E ++ D) → (∀ y, y ∈ R → judged r s y (v y)) →
  (length R < fuel)%nat →
  ∃ s' e d, get_timeout_loop fuel r s he hd (hd_or 0 R) = Some (s', e, d)
    ∧ list_ok r s' (K ++ with_verdict Live R)
    ∧ chain (nodes s') e (reverse (with_verdict Failed R) ++ E)
    ∧ chain (nodes s') d (reverse (with_verdict Dead R) ++ D).
Proof.
  induction R as [|a R IH]; intros [|fuel] s K E D he hd Hok HE HD Hdis Hnd Hv Hf;
    simpl in Hf; try lia.
  { simpl. eexists _, _, _. by split_and!. }
  pose proof Hok as (Hs & _ & Hd & H0). assert (a ≠ 0) as Ha0 by set_solver.
  destruct (Hv a ltac:(set_solver)) as (n & d & En & Ed & Hj).
  destruct (pseg_node _ _ _ _ Hs) as (n' & En' & _ & Hnext & _). rewrite En in En'. injection En' as <-.
  assert (∀ y, y ∈ R → judged r s y (v y)) as HvR by set_solver.
  change (hd_or 0 (a :: R)) with a. cbn [get_timeout_loop].
  rewrite (proj2 (Z.eqb_neq _ _) Ha0), En. cbn [mbind option_bind]. rewrite Ed. cbn [mbind option_bind].
  rewrite Hnext. unfold judge in Hj. unfold with_verdict.
  assert (a ∉ K ++ R) as HaKR.
  { rewrite <- Permutation_middle in Hd. by apply NoDup_cons in Hd as [? _]. }
  assert (a ∉ E ++ D) as HaED.
  { intros Ha. apply (Hdis a Ha). rewrite elem_of_app, elem_of_cons. auto. }
  assert (∀ y, y ∈ a :: E ++ D → y ∉ K ++ R) as Hdis'.
  { intros y [->|Hy]%elem_of_cons Hin; [done|]. apply (Hdis y Hy).
    rewrite elem_of_app in Hin |- *. rewrite elem_of_cons. tauto. }
  assert (NoDup (a :: E ++ D)) as Hnd' by (by apply NoDup_cons).
  case_decide as Hdel.
  - rewrite bool_decide_eq_true_2 by done.
    destruct (extract_ok s K a R D E hd he n d Hok En Ed HD HE) as
      (s1 & s2 & s' & -> & E2 & E3 & Hok' & HD' & HE' & Hv' & _);
      [intros y Hy; apply Hdis; rewrite elem_of_app in *; tauto|done|].
    cbn [mbind option_bind]. rewrite E2. cbn [mbind option_bind]. rewrite E3. cbn [mbind option_bind].
    destruct (IH fuel s' K E (a :: D) he a) as (s3 & e & d3 & -> & ? & ? & ?); try done.
    { intros y. rewrite <- Permutation_middle. apply Hdis'. } { by rewrite <- Permutation_middle. } { lia. }
    exists s3, e, d3. rewrite (filter_cons_True (λ a, v a = Dead)), (filter_cons_False (λ a, v a = Live)),
        (filter_cons_False (λ a, v a = Failed)) by congruence.
    by rewrite reverse_cons, <- app_assoc.
  - rewrite bool_decide_eq_false_2 by done. destruct (ping_failed r d).
    + destruct (extract_ok s K a R E D he hd n d Hok En Ed HE HD) as
        (s1 & s2 & s' & -> & E2 & E3 & Hok' & HE' & HD' & Hv' & _); [done|done|].
      cbn [mbind option_bind]. rewrite E2. cbn [mbind option_bind]. rewrite E3. cbn [mbind option_bind].
      destruct (IH fuel s' K (a :: E) D a hd) as (s3 & e & d3 & -> & ? & ? & ?); try done.
      { lia. }
      exists s3, e, d3. rewrite (filter_cons_True (λ a, v a = Failed)), (filter_cons_False (λ a, v a = Live)),
        (filter_cons_False (λ a, v a = Dead)) by congruence.
      by rewrite reverse_cons, <- app_assoc.
    + destruct (IH fuel s (K ++ [a]) E D he hd) as (s3 & e & d3 & -> & Hok3 & ? & ?); try done.
      { by rewrite <- app_assoc. } { by rewrite <- app_assoc. } { lia. }
      exists s3, e, d3. rewrite (filter_cons_True (λ a, v a = Live)), (filter_cons_False (λ a, v a = Failed)),
        (filter_cons_False (λ a, v a = Dead)) by congruence.
      rewrite <- app_assoc in Hok3. by split_and!.
Qed.
End collect.

(** ** Theorems *)

(** [get_timeout_dlgs] takes out of a well-formed ping list exactly the nodes
    of deleted dialogs and of dialogs with a failed ping, and returns them as two
    null-ended chains (in reverse order); the others stay linked in order.  [v] is
    the verdict on the dialog of each node. *)
Theorem get_timeout_partitions r s l v
    (Hok : list_ok r s l) (Hv : ∀ a, a ∈ l → judged r s a (v a)) :
  ∃ s' exp del, get_timeout_dlgs s r = Some (s', exp, del)
    ∧ list_ok r s' (filter (λ a, v a = Live) l)
    ∧ chain (nodes s') exp (reverse (filter (λ a, v a = Failed) l))
    ∧ chain (nodes s') del (reverse (filter (λ a, v a = Dead) l)).
Proof.
  unfold get_timeout_dlgs. pose proof Hok as (Hs & Hl & Hd & _). rewrite Hl. cbn [pl_first].
  destruct (get_timeout_loop_ok r v l (S (size (nodes s))) s [] [] [] 0 0) as (s' & e & d & E & H1 & H2 & H3);
    try done.
  - intros y Hy. set_solver.
  - constructor.
  - apply le_n_S. rewrite <- size_dom, <- (size_list_to_set (C:=gset Z) l) by done.
    apply subseteq_size. intros y Hy%elem_of_list_to_set. apply elem_of_dom.
    by eapply pseg_in.
  - exists s', e, d. rewrite app_nil_r in H2, H3. by split_and!.
Qed.

(** Both insertion functions append a fresh node whose timeout is not before
    the last one's, as it is when all dialogs are pinged at the same interval. *)
Theorem ping_insert_appends (r : bool) s l node n ticks interval
    (Hok : list_ok r s l) (Hnew : node ∉ l ∧ node ≠ 0)
    (Hn : nodes s !! node = Some n) (Hz : pn_next n = 0 ∧ pn_prev n = 0)
    (Hlast : ∀ b nb, last l = Some b → nodes s !! b = Some nb → pn_timeout nb <= u32 (ticks + interval)) :
  ∃ s', (if r then unsafe_insert_reinvite_ping_timer else unsafe_insert_ping_timer)
          s node ticks interval = Some s'
    ∧ list_ok r s' (l ++ [node]).
Proof.
  destruct Hnew, Hz.
  destruct (insert_ping_append r s l node n ticks interval) as (s' & E & Hok'); try done.
  exists s'. by destruct r.
Qed.

(** A node that belongs before the first one crashes the insertion: when its
    timeout is below the last one's and not above the first one's, the write
    through the null [prev] of the first node is reached. *)
Theorem ping_insert_first_crashes (r : bool) s a l node n ticks interval na nb
    (Hok : list_ok r s (a :: l)) (Hnull : nodes s !! 0 = None) (Hnew : node ∉ a :: l)
    (Hn : nodes s !! node = Some n)
    (Hb : nodes s !! last_or 0 (a :: l) = Some nb) (Htb : u32 (ticks + interval) < pn_timeout nb)
    (Ha : nodes s !! a = Some na) (Hta : u32 (ticks + interval) <= pn_timeout na) :
  (if r then unsafe_insert_reinvite_ping_timer else unsafe_insert_ping_timer)
    s node ticks interval = None.
Proof.
  pose proof (insert_ping_before_first r s a l node n ticks interval nb na Hok Hnull Hnew Hn Hb Htb Ha Hta).
  by destruct r.
Qed.

(** ** The hypotheses hold on a concrete list *)

Definition demo_dlg (q : dlg_state) (st : ping_status) : ping_dlg :=
  PingDlg q true false false false st DLG_PING_SUCCESS DLG_PING_SUCCESS DLG_PING_SUCCESS 0 0.
Definition demo_pings : ping_sys :=
  PingSys {[10 := PingNode 1 5 20 0; 20 := PingNode 2 6 30 10; 30 := PingNode 3 7 0 20;
            40 := PingNode 1 0 0 0]}
    {[1 := demo_dlg DLG_STATE_DELETED DLG_PING_SUCCESS; 2 := demo_dlg DLG_STATE_CONFIRMED DLG_PING_SUCCESS;
      3 := demo_dlg DLG_STATE_CONFIRMED DLG_PING_FAIL]}
    (PingList 10 30) (PingList 0 0).

Lemma demo_pings_ok : list_ok false demo_pings [10; 20; 30].
Proof.
  split_and!; [|done| |].
  - simpl. do 3 (eexists; split_and!; [reflexivity|done|done|]). done.
  - apply (bool_decide_unpack _). by vm_compute.
  - apply (bool_decide_unpack _). by vm_compute.
Qed.

Lemma get_timeout_witness :
  ∃ s' exp del, get_timeout_dlgs demo_pings false = Some (s', exp, del)
    ∧ list_ok false s' [20] ∧ chain (nodes s') exp [30] ∧ chain (nodes s') del [10].
Proof.
  destruct (get_timeout_partitions false demo_pings [10; 20; 30]
           (λ a, if a =? 10 then Dead else if a =? 20 then Live else Failed))
    as (s' & e & d & E & H1 & H2 & H3); [exact demo_pings_ok| |exists s', e, d; by split_and!].
  - intros a Ha. rewrite !elem_of_cons, elem_of_nil in Ha.
    destruct Ha as [->|[->|[->|[]]]]; eexists _, _; (split_and!; [reflexivity|reflexivity|done]).
Defined.

Lemma ping_insert_witness :
  ∃ s', unsafe_insert_ping_timer demo_pings 40 4 30 = Some s' ∧ list_ok false s' [10; 20; 30; 40].
Proof.
  apply (ping_insert_appends false demo_pings [10; 20; 30] 40 (PingNode 1 0 0 0) 4 30).
  - exact demo_pings_ok.
  - split; [|done]. apply (bool_decide_unpack _). by vm_compute.
  - done.
  - done.
  - intros b nb [= <-] [= <-]. by vm_compute.
Defined.

Lemma ping_insert_crash_witness : unsafe_insert_ping_timer demo_pings 40 1 3 = None.
Proof.
  apply (ping_insert_first_crashes false demo_pings 10 [20; 30] 40 (PingNode 1 0 0 0) 1 3
           (PingNode 1 5 20 0) (PingNode 3 7 0 20)); try done.
  - exact demo_pings_ok.
  - apply (bool_decide_unpack _). by vm_compute.
Defined.
