(* ===== verification/Lumps.v ===== *)
(** * Lumps: changes to a SIP message (data_lump.c, lump_struct.h)

    A module does not edit the text of a message.  It anchors a lump at an offset
    of it ([LUMP_NOP]) or marks a range for deletion ([LUMP_DEL]), and hangs what is
    to be inserted from the lump, in its [before] and [after] chains.  The lump lists of a
    message are sorted by offset; the code that rebuilds the text is in [LumpApply].

    A lump is reached through three pointers: [next] on the main list, [before] and
    [after] on the chains.  The type [lumps] is a possibly null pointer to a lump, and
    a lump inside such a structure is named by the path of pointers that leads to it.
    [None] is a call of [abort]. *)

From stdpp Require Import prelude list.
From Stdlib Require Import ZArith Lia.
From S2P Require Import Prelude.

(** ** Data (lump_struct.h) *)

Inductive lump_op := LUMP_NOP | LUMP_DEL | LUMP_ADD | LUMP_ADD_SUBST | LUMP_ADD_OPT | LUMP_SKIP.

Inductive lump_subst :=
  | SUBST_NOP
  | SUBST_RCV_IP | SUBST_SND_IP
  | SUBST_RCV_PORT | SUBST_SND_PORT
  | SUBST_RCV_PROTO | SUBST_SND_PROTO
  | SUBST_RCV_ALL | SUBST_SND_ALL.

Inductive lump_conditions :=
  | COND_FALSE | COND_TRUE
  | COND_IF_SAME_REALMS | COND_IF_DIFF_REALMS
  | COND_IF_DIFF_AF | COND_IF_DIFF_PROTO | COND_IF_DIFF_PORT | COND_IF_DIFF_IP.

#[export] Instance lump_op_eq_dec : EqDecision lump_op.
Proof. solve_decision. Defined.
#[export] Instance lump_subst_eq_dec : EqDecision lump_subst.
Proof. solve_decision. Defined.
#[export] Instance lump_conditions_eq_dec : EqDecision lump_conditions.
Proof. solve_decision. Defined.

(** [enum lump_flag] *)
Definition LUMPFLAG_SHMEM : Z := 2.
Definition LUMPFLAG_BRANCH : Z := 4.
Definition LUMPFLAG_COND_TRUE : Z := 8.

(** The union [u].  A value is the address of a buffer and what it holds; the
    address is what the other members of the union read. *)
Inductive lump_u :=
  | u_offset (offset : Z)
  | u_subst (subst : lump_subst)
  | u_cond (cond : lump_conditions)
  | u_value (ptr : Z) (value : bytes).

(** The fields of [struct lump] other than the pointers to lumps. *)
Record lump_data := mk_lump {
  l_type : Z;
  l_op : lump_op;
  l_u : lump_u;
  l_len : Z;
  l_flags : Z;
}.

(** A possibly null [struct lump *]. *)
Inductive lumps :=
  | LNull
  | Lump (d : lump_data) (before after next : lumps).

(** Position of an enumerator, the value of the enumeration as an integer. *)
Definition subst_code (s : lump_subst) : Z :=
  match s with
  | SUBST_NOP => 0 | SUBST_RCV_IP => 1 | SUBST_SND_IP => 2
  | SUBST_RCV_PORT => 3 | SUBST_SND_PORT => 4
  | SUBST_RCV_PROTO => 5 | SUBST_SND_PROTO => 6
  | SUBST_RCV_ALL => 7 | SUBST_SND_ALL => 8
  end.
Definition cond_code (c : lump_conditions) : Z :=
  match c with
  | COND_FALSE => 0 | COND_TRUE => 1
  | COND_IF_SAME_REALMS => 2 | COND_IF_DIFF_REALMS => 3
  | COND_IF_DIFF_AF => 4 | COND_IF_DIFF_PROTO => 5
  | COND_IF_DIFF_PORT => 6 | COND_IF_DIFF_IP => 7
  end.

(** [l->u.offset], whatever member of the union was written: the low 32 bits. *)
Definition lump_offset (d : lump_data) : Z :=
  match l_u d with
  | u_offset o => o
  | u_subst s => subst_code s
  | u_cond c => cond_code c
  | u_value p _ => u32 p
  end.

(** [enum lump_dir] *)
Inductive lump_dir := LD_NEXT | LD_BEFORE | LD_AFTER.

Definition follow (dir : lump_dir) (l : lumps) : lumps :=
  match l with
  | LNull => LNull
  | Lump _ b a n => match dir with LD_NEXT => n | LD_BEFORE => b | LD_AFTER => a end
  end.

Definition set_link (dir : lump_dir) (l x : lumps) : lumps :=
  match l with
  | LNull => LNull
  | Lump d b a n =>
      match dir with
      | LD_NEXT => Lump d b a x
      | LD_BEFORE => Lump d x a n
      | LD_AFTER => Lump d b x n
      end
  end.

(** Apply an operation to the lump at the end of a path. *)
Fixpoint lump_at (path : list lump_dir) (f : lumps → lumps) (l : lumps) : lumps :=
  match path with
  | [] => f l
  | dir :: path' => set_link dir l (lump_at path' f (follow dir l))
  end.

(** ** Inserting lumps *)

Section insert.

(** The global [init_lump_flags]. *)
Variable init_lump_flags : Z.

(** Each function starts from a lump filled with zeroes. *)
Definition add_data (value : Z * bytes) (len type : Z) : lump_data :=
  mk_lump type LUMP_ADD (u_value value.1 value.2) len init_lump_flags.
Definition subst_data (subst : lump_subst) (type : Z) : lump_data :=
  mk_lump type LUMP_ADD_SUBST (u_subst subst) 0 init_lump_flags.
Definition cond_data (c : lump_conditions) (type : Z) : lump_data :=
  mk_lump type LUMP_ADD_OPT (u_cond c) 0 init_lump_flags.
Definition skip_data : lump_data :=
  mk_lump 0 LUMP_SKIP (u_offset 0) 0 init_lump_flags.

(** The common part: the new lump takes over the chain of the lump it is linked
    to.  [ok] is the result of the allocation; a null result leaves the list as it is. *)
Definition link_after (ok : bool) (d : lump_data) (l : lumps) : option lumps :=
  match l with
  | Lump ld b a n => if ok then Some (Lump ld b (Lump d LNull a LNull) n) else None
  | LNull => None
  end.
Definition link_before (ok : bool) (d : lump_data) (l : lumps) : option lumps :=
  match l with
  | Lump ld b a n => if ok then Some (Lump ld (Lump d b LNull LNull) a n) else None
  | LNull => None
  end.

Definition insert_new_lump_after (ok : bool) (l : lumps) (new_hdr : Z * bytes) (len type : Z) :=
  link_after ok (add_data new_hdr len type) l.
Definition insert_new_lump_before (ok : bool) (l : lumps) (new_hdr : Z * bytes) (len type : Z) :=
  link_before ok (add_data new_hdr len type) l.
Definition insert_subst_lump_after (ok : bool) (l : lumps) (subst : lump_subst) (type : Z) :=
  link_after ok (subst_data subst type) l.
Definition insert_subst_lump_before (ok : bool) (l : lumps) (subst : lump_subst) (type : Z) :=
  link_before ok (subst_data subst type) l.
Definition insert_cond_lump_after (ok : bool) (l : lumps) (c : lump_conditions) (type : Z) :=
  link_after ok (cond_data c type) l.
Definition insert_cond_lump_before (ok : bool) (l : lumps) (c : lump_conditions) (type : Z) :=
  link_before ok (cond_data c type) l.
Definition insert_skip_lump_after (ok : bool) (l : lumps) := link_after ok skip_data l.
Definition insert_skip_lump_before (ok : bool) (l : lumps) := link_before ok skip_data l.

(** [append_new_lump] and [insert_new_lump] put a lump on the main list itself. *)
Fixpoint append_new_lump (ok : bool) (lst : lumps) (new_hdr : Z * bytes) (len type : Z)
    : option lumps :=
  match lst with
  | LNull => if ok then Some (Lump (add_data new_hdr len type) LNull LNull LNull) else None
  | Lump d b a n => Lump d b a <$> append_new_lump ok n new_hdr len type
  end.
Definition insert_new_lump (ok : bool) (lst : lumps) (new_hdr : Z * bytes) (len type : Z)
    : option lumps :=
  if ok then Some (Lump (add_data new_hdr len type) LNull LNull lst) else None.

(** ** Anchors and deletions *)

(** The sorted insertion shared by [del_lump] and [anchor_lump]: the new lump goes
    before the first [NOP] or [DEL] of a greater offset.  The second component is the path to it. *)
Fixpoint insert_sorted (d : lump_data) (offset : Z) (lst : lumps) : lumps * list lump_dir :=
  match lst with
  | LNull => (Lump d LNull LNull LNull, [])
  | Lump td b a n =>
      if (bool_decide (l_op td = LUMP_DEL) || bool_decide (l_op td = LUMP_NOP))
         && (offset <? lump_offset td)
      then (Lump d LNull LNull lst, [])
      else let '(n', path) := insert_sorted d offset n in (Lump td b a n', LD_NEXT :: path)
  end.

(** The fields of [struct sip_msg] that the lumps need: the text, the offset of the end of the
    headers if it was reached, and the two lists. *)
Record lump_msg := mk_lump_msg {
  m_buf : bytes;
  m_len : Z;
  m_eoh : option Z;
  m_add_rm : lumps;
  m_body_lumps : lumps;
}.

(** Which of the two lists a lump at [offset] goes to. *)
Definition is_body_offset (m : lump_msg) (offset : Z) : bool :=
  match m_eoh m with Some e => e <? offset | None => false end.

Definition insert_lump (m : lump_msg) (d : lump_data) (offset : Z) : lump_msg * list lump_dir :=
  if is_body_offset m offset then
    let '(l, path) := insert_sorted d offset (m_body_lumps m) in
    (mk_lump_msg (m_buf m) (m_len m) (m_eoh m) (m_add_rm m) l, path)
  else
    let '(l, path) := insert_sorted d offset (m_add_rm m) in
    (mk_lump_msg (m_buf m) (m_len m) (m_eoh m) l (m_body_lumps m), path).

(** [None] is [abort]; a failed allocation returns a null pointer and the message as it was. *)
Definition del_lump (ok : bool) (m : lump_msg) (offset len type : Z)
    : option (lump_msg * option (list lump_dir)) :=
  if m_len m <? offset then None
  else if m_len m <? u32 (offset + len) then None
  else if ok then
    let '(m', path) :=
      insert_lump m (mk_lump type LUMP_DEL (u_offset offset) len init_lump_flags) offset in
    Some (m', Some path)
  else Some (m, None).

Definition anchor_lump (ok : bool) (m : lump_msg) (offset type : Z)
    : option (lump_msg * option (list lump_dir)) :=
  if m_len m <? offset then None
  else if ok then
    let '(m', path) :=
      insert_lump m (mk_lump type LUMP_NOP (u_offset offset) 0 init_lump_flags) offset in
    Some (m', Some path)
  else Some (m, None).

(** ** Release *)

(** [free_lump] aborts on a value in shared memory. *)
Definition free_lump (d : lump_data) : option unit :=
  match l_op d, l_u d with
  | LUMP_ADD, u_value p _ =>
      if p =? 0 then Some ()
      else if negb (Z.land (l_flags d) LUMPFLAG_SHMEM =? 0) then None else Some ()
  | _, _ => Some ()
  end.

(** ** Duplication *)

(** The outcome of [dup_lump_list_r]: a copy, an error after a failed allocation,
    or the [abort] of [free_lump] on the error path. *)
Inductive dup_result := DupOk (l : lumps) | DupError | DupAbort.

(** The results of the allocations in order, null when the list is exhausted. *)
Definition pkg_malloc (allocs : list (option Z)) : option Z * list (option Z) :=
  match allocs with [] => (None, []) | p :: r => (p, r) end.

(** The copy of the lump itself; only a [LUMP_ADD] needs a buffer.  [None] is a
    failed allocation. *)
Definition dup_data (d : lump_data) (allocs : list (option Z))
    : option lump_data * list (option Z) :=
  let copy u := mk_lump (l_type d) (l_op d) u (l_len d) init_lump_flags in
  match l_op d, l_u d with
  | LUMP_ADD, u_value _ v =>
      let '(p, allocs) := pkg_malloc allocs in
      ((λ p, copy (u_value p (take (Z.to_nat (l_len d)) v))) <$> p, allocs)
  | _, u => (Some (copy u), allocs)
  end.

(** The label [deeperror]. *)
Definition deeperror (d : lump_data) : dup_result :=
  match free_lump d with Some _ => DupError | None => DupAbort end.

(** Continue with the copy of a sublist. *)
Definition dup_then (d : lump_data) (r : dup_result * list (option Z))
    (k : lumps → list (option Z) → dup_result * list (option Z))
    : dup_result * list (option Z) :=
  match r with
  | (DupOk l, allocs) => k l allocs
  | (DupError, allocs) => (deeperror d, allocs)
  | (DupAbort, allocs) => (DupAbort, allocs)
  end.

Fixpoint dup_lump_list_r (l : lumps) (dir : lump_dir) (allocs : list (option Z))
    : dup_result * list (option Z) :=
  match l with
  | LNull => (DupOk LNull, allocs)
  | Lump d b a n =>
      match pkg_malloc allocs with
      | (None, allocs) => (DupError, allocs)
      | (Some _, allocs) =>
          match dup_data d allocs with
          | (None, allocs) => (DupError, allocs)
          | (Some d', allocs) =>
              match dir with
              | LD_NEXT =>
                  dup_then d' (dup_lump_list_r b LD_BEFORE allocs) (λ b' allocs,
                  dup_then d' (dup_lump_list_r a LD_AFTER allocs) (λ a' allocs,
                  dup_then d' (dup_lump_list_r n LD_NEXT allocs) (λ n' allocs,
                  (DupOk (Lump d' b' a' n'), allocs))))
              | LD_BEFORE =>
                  dup_then d' (dup_lump_list_r b LD_BEFORE allocs) (λ b' allocs,
                  (DupOk (Lump d' b' LNull LNull), allocs))
              | LD_AFTER =>
                  dup_then d' (dup_lump_list_r a LD_AFTER allocs) (λ a' allocs,
                  (DupOk (Lump d' LNull a' LNull), allocs))
              end
          end
      end
  end.

(** A null result is an empty list or an error; [None] is an [abort]. *)
Definition dup_lump_list (l : lumps) (allocs : list (option Z)) : option lumps :=
  match (dup_lump_list_r l LD_NEXT allocs).1 with
  | DupOk l' => Some l'
  | DupError => Some LNull
  | DupAbort => None
  end.

End insert.

(** ** Deletion by flags *)

Fixpoint free_chain (dir : lump_dir) (r : lumps) : option unit :=
  match r with
  | LNull => Some ()
  | Lump d b a n =>
      free_lump d ;; free_chain dir (match dir with LD_NEXT => n | LD_BEFORE => b | LD_AFTER => a end)
  end.

Fixpoint free_lump_list (l : lumps) : option unit :=
  match l with
  | LNull => Some ()
  | Lump d b a n =>
      free_chain LD_BEFORE b ;; free_chain LD_AFTER a ;; free_lump d ;; free_lump_list n
  end.

(** The loop over a [before] or [after] chain, with the test [del]. *)
Fixpoint del_chain (del : Z → bool) (dir : lump_dir) (r : lumps) : option lumps :=
  match r with
  | LNull => Some LNull
  | Lump d b a n =>
      let rest := match dir with LD_NEXT => n | LD_BEFORE => b | LD_AFTER => a end in
      if del (l_flags d) then free_lump d ;; del_chain del dir rest
      else rest' ← del_chain del dir rest; Some (set_link dir r rest')
  end.

Fixpoint del_lumps (del : Z → bool) (l : lumps) : option lumps :=
  match l with
  | LNull => Some LNull
  | Lump d b a n =>
      if del (l_flags d) then free_lump_list (Lump d b a LNull) ;; del_lumps del n
      else
        a' ← del_chain del LD_AFTER a;
        b' ← del_chain del LD_BEFORE b;
        n' ← del_lumps del n;
        Some (Lump d b' a' n')
  end.

Definition del_flaged_lumps (l : lumps) (flags : Z) : option lumps :=
  del_lumps (λ f, negb (Z.land f flags =? 0)) l.
Definition del_notflaged_lumps (l : lumps) (not_flags : Z) : option lumps :=
  del_lumps (λ f, negb (Z.land (Z.lnot f) not_flags =? 0)) l.
