(* ===== verification/LumpApply.v ===== *)
(** * LumpApply: rebuilding a message from its lumps (msg_translator.c)

    [lumps_len] computes by how much the lumps change the length of a message,
    [process_lumps] writes the changed text.  The two loops must agree: the buffer
    is allocated with the computed length, and the server aborts when the written
    length differs.  The text written so far is a list of bytes, whose length is the
    offset into the new buffer; [None] is a read outside of a buffer.  The code
    repeats the loop over a [before] or [after] chain eight times; it is one
    definition here, [walk_chain], with what it does to an inserted lump as argument. *)

From stdpp Require Import prelude list strings.
From Stdlib Require Import ZArith Lia.
From S2P Require Import Prelude Lumps.

(** ** Sockets and messages *)

(** [enum sip_protos] *)
Definition PROTO_NONE : Z := 0.
Definition PROTO_UDP : Z := 1.
Definition PROTO_TCP : Z := 2.
Definition PROTO_TLS : Z := 3.
Definition PROTO_SCTP : Z := 4.
Definition PROTO_WS : Z := 5.
Definition PROTO_WSS : Z := 6.

Definition SIP_PORT : Z := 5060.
Definition TRANSPORT_PARAM : bytes := bs ";transport=".

(** [struct ip_addr] *)
Record ip_addr := mk_ip { ip_af : Z; ip_len : Z; ip_u : bytes }.

Definition ip_addr_cmp (ip1 ip2 : ip_addr) : bool :=
  (ip_af ip1 =? ip_af ip2)
  && bool_decide (take (Z.to_nat (ip_len ip1)) (ip_u ip1) = take (Z.to_nat (ip_len ip1)) (ip_u ip2)).

(** The fields of [struct socket_info] the lumps use. *)
Record socket_info := mk_sock {
  so_address : ip_addr;
  so_address_str : bytes;
  so_port_no : Z;
  so_port_no_str : bytes;
  so_proto : Z;
  so_adv_name_str : bytes;
  so_adv_port_str : bytes;
}.

(** A [str] whose buffer and length are set apart: [None] is a null pointer. *)
Record gstr := mk_gstr { g_s : option bytes; g_len : Z }.

Definition zlen (s : bytes) : Z := Z.of_nat (length s).
Definition str_of (s : bytes) : gstr := mk_gstr (Some s) (zlen s).

(** The source of a [memcpy] of [len] bytes from the start of a buffer. *)
Definition read_buf (s : option bytes) (len : Z) : option bytes :=
  if len =? 0 then Some []
  else match s with
  | Some b => if (0 <=? len) && (len <=? zlen b) then Some (take (Z.to_nat len) b) else None
  | None => None
  end.
Definition read_str (g : gstr) : option bytes := read_buf (g_s g) (g_len g).

(** What the lumps read of the message and of the global settings. *)
Record lump_env := mk_env {
  e_buf : bytes;
  e_bind_address : option socket_info;
  e_dst_ip : ip_addr;
  e_dst_port : Z;
  e_proto : Z;
  e_set_global_address : gstr;
  e_set_global_port : gstr;
  e_default_global_address : gstr;
  e_default_global_port : gstr;
}.

(** ** The script functions that set the advertised address (core_cmds.c) *)

(** The buffer of a string after [memcpy] to its start. *)
Definition overwrite (buf new : bytes) : bytes := new ++ drop (length new) buf.

(** [w_set_adv_address] and [w_set_adv_port] on the string they set: the buffer
    grows when the new value is longer than the current one.  A failed
    reallocation leaves a null pointer; the result is [false] for it.  A copy of
    no bytes to a null pointer changes nothing. *)
Definition set_adv_str (ok : bool) (g : gstr) (v : bytes) : gstr * bool :=
  let v_len := Z.of_nat (length v) in
  if (g_len g <? v_len) && negb ok then (mk_gstr None (g_len g), false)
  else
    let s :=
      if g_len g <? v_len
      then Some (take (length v) (default [] (g_s g)))
      else g_s g in
    (mk_gstr ((λ b, overwrite b v) <$> s) v_len, true).

Definition w_set_adv_address (ok : bool) (e : lump_env) (v : bytes) : lump_env * bool :=
  let '(g, r) := set_adv_str ok (e_set_global_address e) v in
  (mk_env (e_buf e) (e_bind_address e) (e_dst_ip e) (e_dst_port e) (e_proto e) g
     (e_set_global_port e) (e_default_global_address e) (e_default_global_port e), r).
Definition w_set_adv_port (ok : bool) (e : lump_env) (v : bytes) : lump_env * bool :=
  let '(g, r) := set_adv_str ok (e_set_global_port e) v in
  (mk_env (e_buf e) (e_bind_address e) (e_dst_ip e) (e_dst_port e) (e_proto e)
     (e_set_global_address e) g (e_default_global_address e) (e_default_global_port e), r).

(** ** Conditions *)

Definition set_cond (d : lump_data) : lump_data :=
  mk_lump (l_type d) (l_op d) (l_u d) (l_len d) (Z.lor (l_flags d) LUMPFLAG_COND_TRUE).
Definition clear_cond (d : lump_data) : lump_data :=
  mk_lump (l_type d) (l_op d) (l_u d) (l_len d)
    (Z.land (l_flags d) (Z.lnot LUMPFLAG_COND_TRUE)).

(** The condition of the lump: whether it is false, given the address, port and
    protocol the message was received on and the sending socket. *)
Definition cond_fails (c : lump_conditions) (ip : ip_addr) (port proto : Z)
    (snd_s : socket_info) : bool :=
  match c with
  | COND_FALSE => true
  | COND_TRUE => false
  | COND_IF_DIFF_REALMS =>
      (port =? so_port_no snd_s) && (proto =? so_proto snd_s) && ip_addr_cmp ip (so_address snd_s)
  | COND_IF_SAME_REALMS =>
      negb (port =? so_port_no snd_s) || negb (proto =? so_proto snd_s)
      || negb (ip_addr_cmp ip (so_address snd_s))
  | COND_IF_DIFF_AF => ip_af ip =? ip_af (so_address snd_s)
  | COND_IF_DIFF_PROTO => proto =? so_proto snd_s
  | COND_IF_DIFF_PORT => port =? so_port_no snd_s
  | COND_IF_DIFF_IP => ip_addr_cmp ip (so_address snd_s)
  end.

(** [lump_check_opt]: the test and the lump with the flag updated.  Without a
    sending socket every condition but the constant ones holds and no flag changes. *)
Definition lump_check_opt (e : lump_env) (snd_s : option socket_info) (d : lump_data)
    : bool * lump_data :=
  match l_u d with
  | u_cond COND_FALSE => (false, d)
  | u_cond COND_TRUE => (true, set_cond d)
  | u_cond c =>
      match snd_s with
      | None => (true, d)
      | Some s =>
          let '(ip, port, proto) :=
            match e_bind_address e with
            | Some b => (so_address b, so_port_no b, so_proto b)
            | None => (e_dst_ip e, e_dst_port e, e_proto e)
            end in
          if cond_fails c ip port proto s then (false, clear_cond d) else (true, set_cond d)
      end
  | _ => (false, d)
  end.

(** ** Addresses and ports that substitutions expand to *)

(** A selected string, and whether it is the socket's own ([port_no_str] or
    [address_str]). *)
Record sel := mk_sel { sel_own : bool; sel_str : gstr }.

(** [send_address_str] and [send_port_str]: the advertised string of the socket, the one set
    for the message, the global default, the socket's own.  [use_global] is the test that
    the message has one. *)
Definition send_select (adv own : socket_info → bytes) (use_global : gstr → bool)
    (set_global default_global : gstr) (send_sock : option socket_info) : sel :=
  let fallback :=
    if use_global set_global then mk_sel false set_global
    else match g_s default_global with
    | Some _ => mk_sel false default_global
    | None => mk_sel true (match send_sock with Some s => str_of (own s) | None => mk_gstr None 0 end)
    end in
  match send_sock with
  | Some s => match adv s with [] => fallback | v => mk_sel false (str_of v) end
  | None => fallback
  end.

(** [rcv_address_str] and [rcv_port_str] *)
Definition rcv_select (adv own : socket_info → bytes) (default_global : gstr)
    (b : socket_info) : sel :=
  match adv b with
  | [] => match g_s default_global with
          | Some _ => mk_sel false default_global
          | None => mk_sel true (str_of (own b))
          end
  | v => mk_sel false (str_of v)
  end.

(** [lumps_len] tests the pointer of the string set for the message,
    [process_lumps] its length. *)
Definition global_by_s (g : gstr) : bool := match g_s g with Some _ => true | None => false end.
Definition global_by_len (g : gstr) : bool := negb (g_len g =? 0).

Section subst.
Variable e : lump_env.
Variable send_sock : option socket_info.
Variable use_global : gstr → bool.

Definition send_address_str : sel :=
  send_select so_adv_name_str so_address_str use_global
    (e_set_global_address e) (e_default_global_address e) send_sock.
Definition send_port_str : sel :=
  send_select so_adv_port_str so_port_no_str use_global
    (e_set_global_port e) (e_default_global_port e) send_sock.
Definition rcv_address_str : socket_info → sel :=
  rcv_select so_adv_name_str so_address_str (e_default_global_address e).
Definition rcv_port_str : socket_info → sel :=
  rcv_select so_adv_port_str so_port_no_str (e_default_global_port e).
End subst.

(** The names of the protocols in [SUBST_LUMP] and the lengths in [SUBST_LUMP_LEN]. *)
Definition proto_name (proto : Z) : bytes :=
  if (proto =? PROTO_NONE) || (proto =? PROTO_UDP) then bs "udp"
  else if proto =? PROTO_TCP then bs "tcp"
  else if proto =? PROTO_TLS then bs "tls"
  else if proto =? PROTO_SCTP then bs "sctp"
  else if proto =? PROTO_WS then bs "ws"
  else if proto =? PROTO_WSS then bs "wss"
  else [].
Definition proto_len (proto : Z) : Z :=
  if (proto =? PROTO_NONE) || (proto =? PROTO_UDP) || (proto =? PROTO_TCP)
     || (proto =? PROTO_TLS) || (proto =? PROTO_WSS) then 3
  else if proto =? PROTO_SCTP then 4
  else if proto =? PROTO_WS then 2
  else 0.

Definition transport_param (proto : Z) : bytes :=
  if (proto =? PROTO_NONE) || (proto =? PROTO_UDP) then []
  else if proto =? PROTO_TCP then TRANSPORT_PARAM ++ bs "tcp"
  else if proto =? PROTO_TLS then TRANSPORT_PARAM ++ bs "tls"
  else if proto =? PROTO_SCTP then TRANSPORT_PARAM ++ bs "sctp"
  else if proto =? PROTO_WS then TRANSPORT_PARAM ++ bs "ws"
  else if proto =? PROTO_WSS then TRANSPORT_PARAM ++ bs "wss"
  else [].
Definition transport_len (proto : Z) : Z :=
  let param_len := Z.of_nat (length TRANSPORT_PARAM) in
  if (proto =? PROTO_NONE) || (proto =? PROTO_UDP) then 0
  else if (proto =? PROTO_TCP) || (proto =? PROTO_TLS) || (proto =? PROTO_WSS) then param_len + 3
  else if proto =? PROTO_SCTP then param_len + 4
  else if proto =? PROTO_WS then param_len + 2
  else 0.

(** [SUBST_*_ALL]: address, port unless it is the default one of the socket, transport. *)
Definition subst_all (s : socket_info) (addr port : sel) : option bytes :=
  a ← read_str (sel_str addr);
  p ← (if negb (so_port_no s =? SIP_PORT) || negb (sel_own port)
       then app (bs ":") <$> read_str (sel_str port) else Some []);
  Some (a ++ p ++ transport_param (so_proto s)).
Definition subst_all_len (s : socket_info) (addr port : sel) : Z :=
  g_len (sel_str addr)
  + (if negb (so_port_no s =? SIP_PORT) || negb (sel_own port)
     then 1 + g_len (sel_str port) else 0)
  + transport_len (so_proto s).

(** [SUBST_LUMP]: what is written; nothing when the socket is missing. *)
Definition subst_lump (e : lump_env) (send_sock : option socket_info) (s : lump_subst)
    : option bytes :=
  let on (so : option socket_info) (f : socket_info → option bytes) :=
    match so with Some x => f x | None => Some [] end in
  let snd_addr := send_address_str e send_sock global_by_len in
  let snd_port := send_port_str e send_sock global_by_len in
  match s with
  | SUBST_RCV_IP => on (e_bind_address e) (λ b, read_str (sel_str (rcv_address_str e b)))
  | SUBST_RCV_PORT => on (e_bind_address e) (λ b, read_str (sel_str (rcv_port_str e b)))
  | SUBST_RCV_ALL =>
      on (e_bind_address e) (λ b, subst_all b (rcv_address_str e b) (rcv_port_str e b))
  | SUBST_SND_IP => on send_sock (λ _, read_str (sel_str snd_addr))
  | SUBST_SND_PORT => on send_sock (λ _, read_str (sel_str snd_port))
  | SUBST_SND_ALL => on send_sock (λ so, subst_all so snd_addr snd_port)
  | SUBST_RCV_PROTO => on (e_bind_address e) (λ b, Some (proto_name (so_proto b)))
  | SUBST_SND_PROTO => on send_sock (λ so, Some (proto_name (so_proto so)))
  | SUBST_NOP => Some []
  end.

(** [SUBST_LUMP_LEN]: what is added to the length. *)
Definition subst_lump_len (e : lump_env) (send_sock : option socket_info) (s : lump_subst) : Z :=
  let on (so : option socket_info) (f : socket_info → Z) :=
    match so with Some x => f x | None => 0 end in
  let snd_addr := send_address_str e send_sock global_by_s in
  let snd_port := send_port_str e send_sock global_by_s in
  match s with
  | SUBST_RCV_IP => on (e_bind_address e) (λ b, g_len (sel_str (rcv_address_str e b)))
  | SUBST_RCV_PORT => on (e_bind_address e) (λ b, g_len (sel_str (rcv_port_str e b)))
  | SUBST_RCV_PROTO => on (e_bind_address e) (λ b, proto_len (so_proto b))
  | SUBST_RCV_ALL =>
      on (e_bind_address e) (λ b, subst_all_len b (rcv_address_str e b) (rcv_port_str e b))
  | SUBST_SND_IP => on send_sock (λ _, g_len (sel_str snd_addr))
  | SUBST_SND_PORT => on send_sock (λ _, g_len (sel_str snd_port))
  | SUBST_SND_PROTO => on send_sock (λ so, proto_len (so_proto so))
  | SUBST_SND_ALL => on send_sock (λ so, subst_all_len so snd_addr snd_port)
  | SUBST_NOP => 0
  end.

(** ** The loop over a chain *)

Section walk.
Context {A : Type}.
Variable check_opt : lump_data → bool * lump_data.
(** What a [LUMP_ADD] or [LUMP_ADD_SUBST] does. *)
Variable emit : lump_data → A → A.

(** The body of the loop for one lump that is not a [LUMP_SKIP]: the new
    state, the lump, and whether the loop goes on. *)
Definition walk_one (d : lump_data) (st : A) : A * lump_data * bool :=
  match l_op d with
  | LUMP_ADD | LUMP_ADD_SUBST => (emit d st, d, true)
  | LUMP_ADD_OPT => let '(ok, d') := check_opt d in (st, d', ok)
  | LUMP_SKIP | LUMP_NOP | LUMP_DEL => (st, d, true)
  end.

(** The rest of the loop after a jump to the last lump of the chain. *)
Fixpoint walk_last (dir : lump_dir) (r : lumps) (st : A) : A * lumps :=
  match r with
  | LNull => (st, LNull)
  | Lump d b a n =>
      match (match dir with LD_NEXT => n | LD_BEFORE => b | LD_AFTER => a end) with
      | LNull => let '(st', d', _) := walk_one d st in (st', Lump d' b a n)
      | Lump _ _ _ _ as rest =>
          let '(st', rest') :=
            walk_last dir (match dir with LD_NEXT => n | LD_BEFORE => b | LD_AFTER => a end) st in
          (st', set_link dir r rest')
      end
  end.

Fixpoint walk_chain (dir : lump_dir) (r : lumps) (st : A) : A * lumps :=
  match r with
  | LNull => (st, LNull)
  | Lump d b a n =>
      let rest := match dir with LD_NEXT => n | LD_BEFORE => b | LD_AFTER => a end in
      match l_op d, follow dir rest with
      | LUMP_SKIP, Lump _ _ _ _ =>
          let '(st', rest') := walk_last dir rest st in (st', set_link dir r rest')
      | _, _ =>
          let '(st', d', go) := walk_one d st in
          if go then
            let '(st'', rest') :=
              walk_chain dir (match dir with LD_NEXT => n | LD_BEFORE => b | LD_AFTER => a end) st' in
            (st'', set_link dir (Lump d' b a n) rest')
          else (st', Lump d' b a n)
      end
  end.
End walk.

(** ** lumps_len *)

Section apply.
Variable e : lump_env.
Variable send_sock : option socket_info.

(** [SUBST_LUMP_LEN] on a lump, and the effect of an inserted lump on [new_len]. *)
Definition lump_subst_len (d : lump_data) : Z :=
  match l_u d with u_subst s => subst_lump_len e send_sock s | _ => 0 end.
Definition emit_len (d : lump_data) (new_len : Z) : Z :=
  match l_op d with
  | LUMP_ADD => u32 (new_len + l_len d)
  | _ => u32 (new_len + lump_subst_len d)
  end.
Definition chain_len := walk_chain (lump_check_opt e send_sock) emit_len.

(** The condition of both loops to leave a lump out. *)
Definition in_deleted (s_offset last_del : Z) (d : lump_data) : bool :=
  (lump_offset d <? s_offset) && negb (lump_offset d =? last_del).

(** The [switch] on the operation of a lump of the main list, on
    [new_len], [s_offset] and [last_del]. *)
Definition len_main (d : lump_data) (st : Z * Z * Z) : Z * Z * Z :=
  let '(new_len, s_offset, last_del) := st in
  match l_op d with
  | LUMP_DEL =>
      let last_del := lump_offset d in
      if lump_offset d <? s_offset then
        if s_offset <? u32 (lump_offset d + l_len d) then
          (u32 (new_len - u32 (l_len d - (s_offset - lump_offset d))),
           u32 (lump_offset d + l_len d), last_del)
        else (new_len, s_offset, last_del)
      else (u32 (new_len - l_len d), u32 (lump_offset d + l_len d), last_del)
  | LUMP_ADD => (u32 (new_len + l_len d), s_offset, last_del)
  | LUMP_ADD_SUBST => (u32 (new_len + lump_subst_len d), s_offset, last_del)
  | LUMP_NOP | LUMP_ADD_OPT | LUMP_SKIP => (new_len, s_offset, last_del)
  end.

Fixpoint lumps_len_loop (max_offset : Z) (t : lumps) (st : Z * Z * Z) : Z * lumps :=
  let '(new_len, s_offset, last_del) := st in
  match t with
  | LNull => (new_len, LNull)
  | Lump d b a n =>
      if negb (lump_offset d <? u32 max_offset) then (new_len, t)
      else if in_deleted s_offset last_del d then
        let '(len, n') := lumps_len_loop max_offset n st in (len, Lump d b a n')
      else
        let '(new_len, b') := chain_len LD_BEFORE b new_len in
        let '(new_len, s_offset, last_del) := len_main d (new_len, s_offset, last_del) in
        let '(new_len, a') := chain_len LD_AFTER a new_len in
        let '(len, n') := lumps_len_loop max_offset n (new_len, s_offset, last_del) in
        (len, Lump d b' a' n')
  end.

(** The result, an [int], and the lumps with the flags of their conditions. *)
Definition lumps_len (l : lumps) (max_offset : Z) : Z * lumps :=
  let '(len, l') := lumps_len_loop max_offset l (0, 0, 0) in (i32 len, l').

(** ** process_lumps *)

Definition lump_bytes (d : lump_data) : option bytes :=
  match l_op d, l_u d with
  | LUMP_ADD, u_value _ v => read_buf (Some v) (l_len d)
  | LUMP_ADD_SUBST, u_subst s => subst_lump e send_sock s
  | _, _ => Some []
  end.
Definition emit_bytes (d : lump_data) (out : option bytes) : option bytes :=
  o ← out; x ← lump_bytes d; Some (o ++ x).
Definition chain_bytes := walk_chain (lump_check_opt e send_sock) emit_bytes.

(** [memcpy(new_buf+offset, orig+s_offset, size)] *)
Definition copy_orig (s_offset size : Z) (out : option bytes) : option bytes :=
  o ← out;
  if s_offset + size <=? zlen (e_buf e)
  then Some (o ++ take (Z.to_nat size) (drop (Z.to_nat s_offset) (e_buf e)))
  else None.

(** The cases [LUMP_NOP] and [LUMP_DEL]; the state is the text written, [s_offset] and
    [last_del]. *)
Definition process_nop_del (d : lump_data) (b a : lumps) (st : option bytes * Z * Z)
    : (option bytes * Z * Z) * lumps * lumps :=
  let '(out, s_offset, last_del) := st in
  let '(out, s_offset) :=
    if s_offset <? lump_offset d
    then (copy_orig s_offset (lump_offset d - s_offset) out, lump_offset d)
    else (out, s_offset) in
  let last_del := if bool_decide (l_op d = LUMP_DEL) then lump_offset d else last_del in
  let '(out, b') := chain_bytes LD_BEFORE b out in
  let s_offset :=
    if bool_decide (l_op d = LUMP_DEL) && (s_offset <? u32 (lump_offset d + l_len d))
    then u32 (s_offset + u32 (l_len d - (s_offset - lump_offset d)))
    else s_offset in
  let '(out, a') := chain_bytes LD_AFTER a out in
  ((out, s_offset, last_del), b', a').

(** The cases [LUMP_ADD], [LUMP_ADD_SUBST] and [LUMP_ADD_OPT] on the main list. *)
Definition process_add (d : lump_data) (b a : lumps) (out : option bytes)
    : option bytes * lump_data * lumps * lumps :=
  let '(ok, d') :=
    if bool_decide (l_op d = LUMP_ADD_OPT) then lump_check_opt e send_sock d else (true, d) in
  if negb ok then (out, d', b, a)
  else
    let '(out, b') := chain_bytes LD_BEFORE b out in
    let out := if bool_decide (l_op d = LUMP_ADD_OPT) then out else emit_bytes d' out in
    let '(out, a') := chain_bytes LD_AFTER a out in
    (out, d', b', a').

(** One turn of the main loop on a lump that is not skipped and not a [LUMP_SKIP]. *)
Definition process_lump (d : lump_data) (b a : lumps) (st : option bytes * Z * Z)
    : (option bytes * Z * Z) * (lump_data * lumps * lumps) :=
  match l_op d with
  | LUMP_NOP | LUMP_DEL => let '(st', b', a') := process_nop_del d b a st in (st', (d, b', a'))
  | LUMP_ADD | LUMP_ADD_SUBST | LUMP_ADD_OPT =>
      let '(out, s_offset, last_del) := st in
      let '(out', d', b', a') := process_add d b a out in ((out', s_offset, last_del), (d', b', a'))
  | LUMP_SKIP => (st, (d, b, a))
  end.

(** The rest of the main loop after a jump to its last lump. *)
Fixpoint process_last (max_offset : Z) (t : lumps) (st : option bytes * Z * Z)
    : (option bytes * Z * Z) * lumps :=
  match t with
  | LNull => (st, LNull)
  | Lump d b a LNull =>
      let '(out, s_offset, last_del) := st in
      if negb (lump_offset d <? u32 max_offset) || in_deleted s_offset last_del d then (st, t)
      else let '(st', (d', b', a')) := process_lump d b a st in (st', Lump d' b' a' LNull)
  | Lump d b a n => let '(st', n') := process_last max_offset n st in (st', Lump d b a n')
  end.

Fixpoint process_loop (max_offset : Z) (t : lumps) (st : option bytes * Z * Z)
    : (option bytes * Z * Z) * lumps :=
  let '(out, s_offset, last_del) := st in
  match t with
  | LNull => (st, LNull)
  | Lump d b a n =>
      if negb (lump_offset d <? u32 max_offset) then (st, t)
      else if in_deleted s_offset last_del d then
        let '(st', n') := process_loop max_offset n st in (st', Lump d b a n')
      else
        match l_op d, follow LD_NEXT n with
        | LUMP_SKIP, Lump _ _ _ _ =>
            let '(st', n') := process_last max_offset n st in (st', Lump d b a n')
        | _, _ =>
            let '(st', (d', b', a')) := process_lump d b a st in
            let '(st'', n') := process_loop max_offset n st' in (st'', Lump d' b' a' n')
        end
  end.

(** [process_lumps]: the text written, the offset reached in the original and the lumps. *)
Definition process_lumps (l : lumps) (out : bytes) (orig_offs max_offset : Z)
    : option (bytes * Z) * lumps :=
  let '((out', s_offset, _), l') := process_loop max_offset l (Some out, orig_offs, 0) in
  ((λ o, (o, s_offset)) <$> out', l').
End apply.

(** ** The message as a whole *)

(** [apply_msg_changes] for a message whose body was not parsed: the header lumps, the body lumps,
    then the rest of the text up to [max_offset]. *)
Definition apply_msg_changes (e : lump_env) (sock : option socket_info) (add_rm body_lumps : lumps)
    (new_buf : bytes) (orig_offs max_offset : Z) : option bytes * (lumps * lumps) :=
  match process_lumps e sock add_rm new_buf orig_offs (-1) with
  | (Some (out, s_offset), add_rm') =>
      match process_lumps e sock body_lumps out s_offset max_offset with
      | (Some (out, s_offset), body_lumps') =>
          (copy_orig e s_offset (max_offset - s_offset) (Some out), (add_rm', body_lumps'))
      | (None, body_lumps') => (None, (add_rm', body_lumps'))
      end
  | (None, add_rm') => (None, (add_rm', body_lumps))
  end.

(** What [build_req_buf_from_sip_req] does from [build_msg] on, and
    [build_res_buf_from_sip_res] with no new URI: compute the length, write the text up to
    the URI and the new URI, apply the lumps, compare.  [body_delta] is the result of
    [calculate_body_diff]; [len] is the useful length of the message; [uri] is the
    position and length of the request URI.  [LenMismatch] is the
    [abort] that follows when the computed and the written length differ. *)
Inductive build_result :=
  | Built (text : bytes) (new_len : Z)
  | LenMismatch (text : bytes) (new_len : Z)
  | BadRead.

Definition calculate_body_diff (e : lump_env) (sock : option socket_info) (body_lumps : lumps)
    : Z * lumps :=
  lumps_len e sock body_lumps (-1).

Definition build_msg (e : lump_env) (sock : option socket_info) (add_rm body_lumps : lumps)
    (new_uri : option bytes) (uri_pos uri_len : Z) (len body_delta : Z) : build_result :=
  let '(hdr_delta, add_rm) := lumps_len e sock add_rm (-1) in
  let new_len := u32 (len + body_delta + hdr_delta) in
  let new_len :=
    match new_uri with Some u => u32 (new_len - uri_len + zlen u) | None => new_len end in
  let '(out, s_offset) :=
    match new_uri with
    | Some u => ((λ o, o ++ u) <$> copy_orig e 0 uri_pos (Some []), uri_pos + uri_len)
    | None => (Some [], 0)
    end in
  match out with
  | None => BadRead
  | Some out =>
      match (apply_msg_changes e sock add_rm body_lumps out s_offset len).1 with
      | None => BadRead
      | Some text => if u32 (zlen text) =? new_len then Built text new_len else LenMismatch text new_len
      end
  end.
