(* ===== verification/LumpFacts.v ===== *)
(** * LumpFacts: lump lists as edits of the text

    The invariants of the lump lists, the simulation between the two passes over
    them, and the reference semantics: a list of edits (insert some text at a
    position, delete a range from it) rendered position by position. *)

From stdpp Require Import prelude list strings.
From Stdlib Require Import ZArith Lia.
From S2P Require Import Prelude Lumps LumpApply.

(** ** Lumps up to their flags *)

(** The passes only change the flag that records the outcome of a condition. *)
Definition erase_data (d : lump_data) : lump_data :=
  mk_lump (l_type d) (l_op d) (l_u d) (l_len d) 0.
Fixpoint erase (l : lumps) : lumps :=
  match l with
  | LNull => LNull
  | Lump d b a n => Lump (erase_data d) (erase b) (erase a) (erase n)
  end.

Lemma erase_set_link dir l x : erase (set_link dir l x) = set_link dir (erase l) (erase x).
Proof. by destruct l, dir. Qed.

Lemma set_link_follow dir l : set_link dir l (follow dir l) = l.
Proof. by destruct l, dir. Qed.

Lemma follow_link dir d b a n :
  match dir with LD_NEXT => n | LD_BEFORE => b | LD_AFTER => a end = follow dir (Lump d b a n).
Proof. by destruct dir. Qed.

Lemma check_opt_erase e so d :
  (lump_check_opt e so (erase_data d)).1 = (lump_check_opt e so d).1 ∧
  erase_data (lump_check_opt e so d).2 = erase_data d.
Proof.
  destruct d as [ty op u len fl]. unfold lump_check_opt, erase_data. cbn.
  destruct u as [| |c|]; [done|done| |done].
  destruct (match e_bind_address e with Some b => _ | None => _ end) as [[ip port] proto].
  by destruct so, c; cbn; repeat case_match.
Qed.

(** ** Two walks over the same chain *)

(** Every lump of a chain satisfies [P]. *)
Fixpoint chain_forall (P : lump_data → Prop) (dir : lump_dir) (r : lumps) : Prop :=
  match r with
  | LNull => True
  | Lump d b a n =>
      P d ∧ chain_forall P dir (match dir with LD_NEXT => n | LD_BEFORE => b | LD_AFTER => a end)
  end.

Section sim.
Context {A B : Type} (check : lump_data → bool * lump_data).
Context (ea : lump_data → A → A) (eb : lump_data → B → B).
Context (P : lump_data → Prop) (R : A → B → Prop).
Hypothesis Hemit : ∀ d x y, l_op d = LUMP_ADD ∨ l_op d = LUMP_ADD_SUBST →
  P d → R x y → R (ea d x) (eb d y).

Lemma walk_one_sim d x y : P d → R x y →
  R (walk_one check ea d x).1.1 (walk_one check eb d y).1.1 ∧
  (walk_one check ea d x).1.2 = (walk_one check eb d y).1.2 ∧
  (walk_one check ea d x).2 = (walk_one check eb d y).2.
Proof. intros. unfold walk_one. destruct (l_op d) eqn:?; cbn; repeat case_match; auto. Qed.

Lemma walk_last_sim dir r : ∀ x y, chain_forall P dir r → R x y →
  R (walk_last check ea dir r x).1 (walk_last check eb dir r y).1 ∧
  (walk_last check ea dir r x).2 = (walk_last check eb dir r y).2.
Proof.
  induction r as [|d b IHb a IHa n IHn]; intros x y HP HR; [done|].
  destruct HP as [Hd HP].
  pose proof (walk_one_sim d x y Hd HR) as Hone.
  destruct dir; cbn in HP |- *;
    [specialize (IHn x y HP HR); clear IHb IHa; destruct n
    |specialize (IHb x y HP HR); clear IHa IHn; destruct b
    |specialize (IHa x y HP HR); clear IHb IHn; destruct a];
    repeat case_match; cbn in *; destruct_and?; subst; eauto.
Qed.

Lemma walk_chain_sim dir r : ∀ x y, chain_forall P dir r → R x y →
  R (walk_chain check ea dir r x).1 (walk_chain check eb dir r y).1 ∧
  (walk_chain check ea dir r x).2 = (walk_chain check eb dir r y).2.
Proof.
  induction r as [|d b IHb a IHa n IHn]; intros x y HP HR; [done|].
  destruct HP as [Hd HP]. cbn [walk_chain].
  destruct (walk_one_sim d x y Hd HR) as (HR1 & Hd' & Hgo).
  pose proof (walk_last_sim dir _ x y HP HR) as Hlast.
  destruct (walk_one check ea d x) as [[x1 d1] g1] eqn:E1.
  destruct (walk_one check eb d y) as [[y1 d2] g2] eqn:E2. cbn in HR1, Hd', Hgo. subst d2 g2.
  assert (∀ X : A * lumps, ∀ Y : B * lumps, R X.1 Y.1 ∧ X.2 = Y.2 →
    R (let '(s, r') := X in (s, set_link dir (Lump d1 b a n) r')).1
      (let '(s, r') := Y in (s, set_link dir (Lump d1 b a n) r')).1 ∧
    (let '(s, r') := X in (s, set_link dir (Lump d1 b a n) r')).2 =
    (let '(s, r') := Y in (s, set_link dir (Lump d1 b a n) r')).2) as Hpair.
  { intros [] [] [? ?]; cbn in *. by subst. }
  assert (R (walk_chain check ea dir (match dir with LD_NEXT => n | LD_BEFORE => b | LD_AFTER => a end) x1).1
            (walk_chain check eb dir (match dir with LD_NEXT => n | LD_BEFORE => b | LD_AFTER => a end) y1).1 ∧
          (walk_chain check ea dir (match dir with LD_NEXT => n | LD_BEFORE => b | LD_AFTER => a end) x1).2 =
          (walk_chain check eb dir (match dir with LD_NEXT => n | LD_BEFORE => b | LD_AFTER => a end) y1).2)
    as Hrec by (destruct dir; auto).
  apply Hpair in Hrec.
  destruct (l_op d); try (destruct g1; [exact Hrec|by split]).
  destruct (follow dir _); [destruct g1; [exact Hrec|by split]|].
  revert Hlast. destruct (walk_last check ea dir _ x), (walk_last check eb dir _ y).
  cbn. intros [? ->]. done.
Qed.
End sim.

Lemma chain_forall_mono (P Q : lump_data → Prop) dir r :
  (∀ d, P d → Q d) → chain_forall P dir r → chain_forall Q dir r.
Proof.
  intros HPQ. induction r as [|d b IHb a IHa n IHn]; [done|].
  intros [? ?]. split; [auto|]. destruct dir; auto.
Qed.

Lemma chain_forall_true dir r : chain_forall (λ _, True) dir r.
Proof. induction r; [done|]. split; [done|]. by destruct dir. Qed.

(** Erasing the flags commutes with a walk. *)
Section erase_walk.
Context {A : Type} (check : lump_data → bool * lump_data) (emit : lump_data → A → A).
Hypothesis Hcheck : ∀ d, (check (erase_data d)).1 = (check d).1 ∧
  erase_data (check d).2 = erase_data d.
Hypothesis Hemit : ∀ d x, emit (erase_data d) x = emit d x.

Lemma walk_one_erase d x :
  (walk_one check emit (erase_data d) x).1.1 = (walk_one check emit d x).1.1 ∧
  (walk_one check emit (erase_data d) x).2 = (walk_one check emit d x).2 ∧
  erase_data (walk_one check emit d x).1.2 = erase_data d.
Proof.
  unfold walk_one. cbn [l_op erase_data]. pose proof (Hcheck d) as [H1 H2].
  destruct (l_op d); cbn; try rewrite Hemit; auto.
  destruct (check d), (check (erase_data d)). cbn in *. by subst.
Qed.

Lemma walk_last_erase dir r x :
  (walk_last check emit dir (erase r) x).1 = (walk_last check emit dir r x).1 ∧
  erase (walk_last check emit dir r x).2 = erase r.
Proof.
  induction r as [|d b IHb a IHa n IHn]; [done|].
  destruct (walk_one_erase d x) as (Hx & _ & He).
  assert (∀ r0, follow dir (Lump d b a n) = r0 →
    (walk_last check emit dir (erase r0) x).1 = (walk_last check emit dir r0 x).1 ∧
    erase (walk_last check emit dir r0 x).2 = erase r0) as IH by (destruct dir; cbn; by intros ? <-).
  destruct (follow dir (Lump d b a n)) as [|d0 b0 a0 n0] eqn:Ef.
  - destruct dir; cbn in Ef; subst; cbn;
      destruct (walk_one check emit d x) as [[? ?] ?];
      destruct (walk_one check emit (erase_data d) x) as [[? ?] ?]; cbn in *; by rewrite He, Hx.
  - destruct (IH _ eq_refl) as [H1 H2].
    assert (∀ y, walk_last check emit dir (Lump d b a n) y =
      (let '(st', r') := walk_last check emit dir (Lump d0 b0 a0 n0) y in
       (st', set_link dir (Lump d b a n) r'))) as E1 by (destruct dir; cbn in Ef; by subst).
    assert (∀ y, walk_last check emit dir (erase (Lump d b a n)) y =
      (let '(st', r') := walk_last check emit dir (erase (Lump d0 b0 a0 n0)) y in
       (st', set_link dir (erase (Lump d b a n)) r'))) as E2
      by (destruct dir; cbn in Ef; by subst).
    rewrite E1, E2. destruct (walk_last check emit dir (Lump d0 b0 a0 n0) x).
    destruct (walk_last check emit dir (erase (Lump d0 b0 a0 n0)) x). cbn [fst snd] in *.
    split; [done|]. rewrite erase_set_link, H2, <- Ef. by destruct dir.
Qed.

Lemma walk_chain_erase dir r : ∀ x,
  (walk_chain check emit dir (erase r) x).1 = (walk_chain check emit dir r x).1 ∧
  erase (walk_chain check emit dir r x).2 = erase r.
Proof.
  induction r as [|d b IHb a IHa n IHn]; intros x; [done|].
  cbn [walk_chain erase].
  destruct (walk_one_erase d x) as (Hx & Hg & He).
  set (rest := match dir with LD_NEXT => n | LD_BEFORE => b | LD_AFTER => a end).
  assert (match dir with LD_NEXT => erase n | LD_BEFORE => erase b | LD_AFTER => erase a end
          = erase rest) as -> by (by destruct dir).
  assert (∀ x, (walk_chain check emit dir (erase rest) x).1 = (walk_chain check emit dir rest x).1 ∧
    erase (walk_chain check emit dir rest x).2 = erase rest) as IH by (destruct dir; auto).
  pose proof (walk_last_erase dir rest x) as Hlast.
  assert (erase (set_link dir (Lump d b a n) rest) = erase (Lump d b a n)) as Hlink
    by (by destruct dir).
  destruct (walk_one check emit (erase_data d) x) as [[x1 d1] g1].
  destruct (walk_one check emit d x) as [[x2 d2] g2]. cbn in Hx, Hg, He. subst x1 g1.
  specialize (IH x2).
  destruct (walk_chain check emit dir (erase rest) x2) as [s1 r1].
  destruct (walk_chain check emit dir rest x2) as [s2 r2]. destruct IH as [Hs Hr]. cbn in Hs, Hr.
  assert (((if g2 then (s1, set_link dir (Lump d1 (erase b) (erase a) (erase n)) r1)
            else (x2, Lump d1 (erase b) (erase a) (erase n))).1 =
           (if g2 then (s2, set_link dir (Lump d2 b a n) r2) else (x2, Lump d2 b a n)).1) ∧
    erase (if g2 then (s2, set_link dir (Lump d2 b a n) r2) else (x2, Lump d2 b a n)).2 =
    erase (Lump d b a n)) as Hgo.
  { destruct g2; cbn [fst snd]; (split; [done|]); [|cbn; by rewrite He].
    rewrite erase_set_link, Hr. cbn. rewrite He. by destruct dir. }
  assert (follow dir (erase rest) = erase (follow dir rest)) as -> by (by destruct dir, rest).
  cbn [l_op erase_data].
  destruct (l_op d); try exact Hgo. destruct (follow dir rest) eqn:Ef; [exact Hgo|]. cbn [erase].
  destruct (walk_last check emit dir (erase rest) x), (walk_last check emit dir rest x).
  destruct Hlast as [? Hl]. cbn [fst snd] in *. split; [done|].
  rewrite erase_set_link, Hl, <- erase_set_link. exact Hlink.
Qed.
End erase_walk.

(** ** What a chain inserts *)

Section text.
Variable e : lump_env.
Variable so : option socket_info.

(** The text a chain inserts; [None] is a read outside of a buffer. *)
Definition chain_text (dir : lump_dir) (r : lumps) : bytes :=
  default [] (chain_bytes e so dir r (Some [])).1.

(** A string that can be read, and a string set for a message: with the pointer and
    the length both set or both unset. *)
Definition gstr_ok (g : gstr) : Prop :=
  match g_s g with Some b => 0 <= g_len g <= zlen b | None => g_len g = 0 end.
Definition global_ok (g : gstr) : Prop := gstr_ok g ∧ global_by_s g = global_by_len g.

Definition env_ok : Prop :=
  global_ok (e_set_global_address e) ∧ global_ok (e_set_global_port e) ∧
  gstr_ok (e_default_global_address e) ∧ gstr_ok (e_default_global_port e).

(** A lump whose text can be read. *)
Definition lump_ok (d : lump_data) : Prop :=
  match l_op d, l_u d with
  | LUMP_ADD, u_value _ v => 0 <= l_len d <= zlen v
  | LUMP_ADD, _ => False
  | LUMP_ADD_SUBST, u_subst _ => True
  | LUMP_ADD_SUBST, _ => False
  | _, _ => True
  end.

Lemma zlen_app (x y : bytes) : zlen (x ++ y) = zlen x + zlen y.
Proof. unfold zlen. rewrite length_app. lia. Qed.

Lemma zlen_nonneg (x : bytes) : 0 <= zlen x.
Proof. unfold zlen. lia. Qed.

Lemma read_buf_ok b len : 0 <= len <= zlen b →
  read_buf (Some b) len = Some (take (Z.to_nat len) b) ∧ zlen (take (Z.to_nat len) b) = len.
Proof.
  intros H. unfold read_buf. unfold zlen in *. split; [|rewrite length_take; lia].
  destruct (Z.eqb_spec len 0) as [->|]; [done|].
  rewrite !(proj2 (Z.leb_le _ _)) by lia. done.
Qed.

Lemma read_str_ok g : gstr_ok g → ∃ x, read_str g = Some x ∧ zlen x = g_len g.
Proof.
  unfold gstr_ok, read_str. destruct (g_s g); intros H.
  - eexists. by apply read_buf_ok.
  - rewrite H. by exists [].
Qed.

Lemma str_of_ok s : gstr_ok (str_of s).
Proof. unfold gstr_ok, str_of. cbn. pose proof (zlen_nonneg s). lia. Qed.

Lemma send_select_ok adv own f set def : global_ok set → gstr_ok def →
  f = global_by_s ∨ f = global_by_len →
  send_select adv own f set def so = send_select adv own global_by_s set def so ∧
  gstr_ok (sel_str (send_select adv own f set def so)).
Proof.
  intros [Hs Heq] Hd Hf.
  assert (f set = global_by_s set) as Hfs by (destruct Hf; congruence).
  unfold send_select. rewrite Hfs. split; [done|].
  destruct so as [s|]; [destruct (adv s)|]; try apply str_of_ok;
    (destruct (global_by_s set); [done|]); (destruct (g_s def); [done|]); cbn;
    first [apply str_of_ok | done].
Qed.

Lemma rcv_select_ok adv own def b : gstr_ok def → gstr_ok (sel_str (rcv_select adv own def b)).
Proof.
  intros Hd. unfold rcv_select. destruct (adv b), (g_s def); first [apply str_of_ok | exact Hd].
Qed.

Local Ltac proto_cases p :=
  repeat match goal with
  | |- context [p =? ?c] => destruct (Z.eqb_spec p c) as [->|?]; [done|]
  end; done.

Lemma proto_name_len p : zlen (proto_name p) = proto_len p.
Proof.
  unfold proto_name, proto_len.
  proto_cases p.
Qed.

Lemma transport_param_len p : zlen (transport_param p) = transport_len p.
Proof.
  unfold transport_param, transport_len.
  proto_cases p.
Qed.

Lemma subst_all_ok s (addr port : sel) : gstr_ok (sel_str addr) → gstr_ok (sel_str port) →
  ∃ x, subst_all s addr port = Some x ∧ zlen x = subst_all_len s addr port.
Proof.
  intros Ha Hp. unfold subst_all, subst_all_len.
  destruct (read_str_ok _ Ha) as (x & -> & Hx), (read_str_ok _ Hp) as (y & -> & Hy).
  destruct (_ || _); cbn [mbind option_bind fmap option_fmap option_map]; eexists; (split; [reflexivity|]);
    rewrite !zlen_app, transport_param_len; unfold zlen in *; cbn [length bs]; lia.
Qed.

(** A substitution is written with the length computed for it. *)
Lemma subst_lump_ok s : env_ok →
  ∃ x, subst_lump e so s = Some x ∧ zlen x = subst_lump_len e so s.
Proof.
  intros (Ha & Hp & Hda & Hdp).
  destruct (send_select_ok so_adv_name_str so_address_str global_by_len _ _ Ha Hda) as [Ea Oa];
    [by right|].
  destruct (send_select_ok so_adv_port_str so_port_no_str global_by_len _ _ Hp Hdp) as [Ep Op];
    [by right|].
  unfold subst_lump, subst_lump_len, send_address_str, send_port_str.
  rewrite <- Ea, <- Ep.
  pose proof (λ b, rcv_select_ok so_adv_name_str so_address_str _ b Hda) as Ra.
  pose proof (λ b, rcv_select_ok so_adv_port_str so_port_no_str _ b Hdp) as Rp.
  destruct s; [by exists []|..];
    lazymatch goal with
    | |- context [e_bind_address] => destruct (e_bind_address e)
    | _ => destruct so
    end;
    try (by exists []); unfold rcv_address_str, rcv_port_str;
    first [by apply read_str_ok | by apply subst_all_ok
          | eexists; split; [reflexivity|apply proto_name_len]].
Qed.

(** An inserted lump is written with the length computed for it. *)
Lemma lump_bytes_ok d : env_ok → lump_ok d → l_op d = LUMP_ADD ∨ l_op d = LUMP_ADD_SUBST →
  ∃ x, lump_bytes e so d = Some x ∧ ∀ n, emit_len e so d n = u32 (n + zlen x).
Proof.
  intros He Hd Hop. unfold lump_ok, lump_bytes, emit_len, lump_subst_len in *.
  destruct Hop as [Hop|Hop]; rewrite Hop in *; destruct (l_u d); try done.
  - destruct (read_buf_ok _ _ Hd) as [-> Hl]. eexists; split; [done|]. intros n. by rewrite Hl.
  - destruct (subst_lump_ok subst He) as (x & -> & Hl). exists x. split; [done|]. by rewrite Hl.
Qed.

Lemma emit_bytes_ok d : env_ok → lump_ok d → l_op d = LUMP_ADD ∨ l_op d = LUMP_ADD_SUBST →
  ∃ x, ∀ o, emit_bytes e so d (Some o) = Some (o ++ x).
Proof.
  intros He Hd Hop. destruct (lump_bytes_ok d He Hd Hop) as (x & E & _).
  exists x. intros o. unfold emit_bytes. cbn [mbind option_bind]. by rewrite E.
Qed.

(** A chain appends its text, whatever was written before. *)
Lemma chain_bytes_ok dir r out : env_ok → chain_forall lump_ok dir r →
  (chain_bytes e so dir r (Some out)).1 = Some (out ++ chain_text dir r) ∧
  (chain_bytes e so dir r (Some out)).2 = (chain_bytes e so dir r (Some [])).2.
Proof.
  intros He Hr. unfold chain_text, chain_bytes.
  destruct (walk_chain_sim (lump_check_opt e so) (emit_bytes e so) (emit_bytes e so) lump_ok
    (λ x y, ∃ o, y = Some o ∧ x = Some (out ++ o))) with (dir := dir) (r := r)
    (x := Some out) (y := Some (@nil Z)) as [(o & -> & ->) H2]; [|done| |done].
  - intros d x y Hop Hd (o & -> & ->).
    destruct (emit_bytes_ok d He Hd Hop) as (t & Ht). rewrite !Ht.
    eexists; split; [done|]. by rewrite app_assoc.
  - exists []. by rewrite app_nil_r.
Qed.

Lemma chain_len_ok dir r n : env_ok → chain_forall lump_ok dir r → n = u32 n →
  (chain_len e so dir r n).1 = u32 (n + zlen (chain_text dir r)) ∧
  (chain_len e so dir r n).2 = (chain_bytes e so dir r (Some [])).2.
Proof.
  intros He Hr Hn. unfold chain_text, chain_bytes, chain_len.
  destruct (walk_chain_sim (lump_check_opt e so) (emit_len e so) (emit_bytes e so) lump_ok
    (λ x y, ∃ o, y = Some o ∧ x = u32 (n + zlen o))) with (dir := dir) (r := r)
    (x := n) (y := Some (@nil Z)) as [(o & -> & ->) H2]; [|done| |done].
  - intros d x y Hop Hd (o & -> & ->).
    destruct (lump_bytes_ok d He Hd Hop) as (t & Ht & Hl).
    exists (o ++ t). unfold emit_bytes. cbn [mbind option_bind]. rewrite Ht. split; [done|].
    rewrite Hl, wrap_wrap_add, zlen_app by done. f_equal. lia.
  - exists []. split; [done|]. by rewrite Z.add_0_r.
Qed.

(** The text of a chain does not depend on the flags. *)
Lemma emit_bytes_erase d x : emit_bytes e so (erase_data d) x = emit_bytes e so d x.
Proof. by destruct d. Qed.

Lemma chain_text_erase dir r : chain_text dir (erase r) = chain_text dir r.
Proof.
  unfold chain_text, chain_bytes. f_equal.
  apply walk_chain_erase; [apply check_opt_erase|apply emit_bytes_erase].
Qed.

Lemma chain_bytes_erase dir r : erase (chain_bytes e so dir r (Some [])).2 = erase r.
Proof. apply walk_chain_erase; [apply check_opt_erase|apply emit_bytes_erase]. Qed.

Lemma chain_forall_erase dir r : chain_forall lump_ok dir (erase r) ↔ chain_forall lump_ok dir r.
Proof.
  induction r as [|d b IHb a IHa n IHn]; [done|]. cbn.
  assert (lump_ok (erase_data d) ↔ lump_ok d) as -> by (by destruct d).
  destruct dir; [rewrite IHn|rewrite IHb|rewrite IHa]; done.
Qed.

(** ** Lump lists as edits *)

(** Insert [ed_text] at [ed_pos] and delete [ed_del] bytes from there. *)
Record edit := mk_edit { ed_pos : nat; ed_del : nat; ed_text : bytes }.

Definition lump_edit (d : lump_data) (b a : lumps) : edit :=
  mk_edit (Z.to_nat (lump_offset d))
    (if bool_decide (l_op d = LUMP_DEL) then Z.to_nat (l_len d) else 0)
    (chain_text LD_BEFORE b ++ chain_text LD_AFTER a).

Fixpoint edits_of (l : lumps) : list edit :=
  match l with
  | LNull => []
  | Lump d b a n => lump_edit d b a :: edits_of n
  end.

(** An edit strictly inside a range that an earlier one deletes is lost.  [ld] and [en] are the
    start and the end of the last deleted range. *)
Fixpoint kept (ld en : nat) (es : list edit) : list edit :=
  match es with
  | [] => []
  | x :: es =>
      if (ld <? ed_pos x)%nat && (ed_pos x <? en)%nat then kept ld en es
      else if (ed_del x =? 0)%nat then x :: kept ld en es
      else x :: kept (ed_pos x) (en `max` (ed_pos x + ed_del x))%nat es
  end.

(** The well-formed lists: anchors and deletions of ascending offsets between [lo] and [hi],
    with readable chains. *)
Fixpoint lumps_ok (lo hi : Z) (l : lumps) : Prop :=
  match l with
  | LNull => True
  | Lump d b a n =>
      (l_op d = LUMP_NOP ∨ l_op d = LUMP_DEL) ∧
      (∃ o, l_u d = u_offset o ∧ lo <= o ∧ o <= hi ∧
        (l_op d = LUMP_DEL → 0 <= l_len d ∧ o + l_len d <= hi)) ∧
      chain_forall lump_ok LD_BEFORE b ∧ chain_forall lump_ok LD_AFTER a ∧
      lumps_ok (lump_offset d) hi n
  end.

(** Every lump of a list is anchored before [mx]. *)
Definition below (mx : Z) (l : lumps) : Prop := chain_forall (λ d, lump_offset d < mx) LD_NEXT l.

(** ** The text segment by segment *)

Definition slice (i j : nat) : bytes := take (j - i) (drop i (e_buf e)).

(** The text the edits produce from position [s] on, and the position reached. *)
Fixpoint seg (s : nat) (es : list edit) : bytes * nat :=
  match es with
  | [] => ([], s)
  | x :: es =>
      let s1 := (s `max` ed_pos x)%nat in
      let '(t, s') := seg (s1 `max` (ed_pos x + ed_del x))%nat es in
      (slice s s1 ++ ed_text x ++ t, s')
  end.

(** By how much the edits change the length. *)
Fixpoint delta (en : nat) (es : list edit) : Z :=
  match es with
  | [] => 0
  | x :: es =>
      let en' := (en `max` (ed_pos x + ed_del x))%nat in
      zlen (ed_text x) - (Z.of_nat en' - Z.of_nat (en `max` ed_pos x)%nat) + delta en' es
  end.

(** The state of either loop, with [sn] the position reached, [en] the end of the deleted
    ranges, [ld] the start of the last one and [ld'] the variable [last_del]. *)
Definition loop_inv (lo sn ld en : nat) (ld' : Z) : Prop :=
  (en ≤ sn ≤ en `max` lo)%nat ∧ ((en ≤ lo)%nat ∨ (ld' = Z.of_nat ld ∧ (ld ≤ lo)%nat)).

Lemma in_deleted_kept lo sn ld en ld' d o : loop_inv lo sn ld en ld' →
  l_u d = u_offset o → Z.of_nat lo <= o →
  in_deleted (Z.of_nat sn) ld' d
  = (ld <? Z.to_nat o)%nat && (Z.to_nat o <? en)%nat.
Proof.
  intros [Hs Hld] Hu Ho. unfold in_deleted, lump_offset. rewrite Hu.
  destruct (Z.ltb_spec o (Z.of_nat sn)), (Z.eqb_spec o ld'),
    (Nat.ltb_spec ld (Z.to_nat o)), (Nat.ltb_spec (Z.to_nat o) en); cbn; try done; lia.
Qed.

Lemma slice_length i j : (i ≤ j)%nat → Z.of_nat j <= zlen (e_buf e) → length (slice i j) = (j - i)%nat.
Proof. intros. unfold slice, zlen in *. rewrite length_take, length_drop. lia. Qed.

Lemma copy_orig_slice i j out : (i ≤ j)%nat → Z.of_nat j <= zlen (e_buf e) →
  copy_orig e (Z.of_nat i) (Z.of_nat j - Z.of_nat i) (Some out) = Some (out ++ slice i j).
Proof.
  intros. unfold copy_orig. cbn [mbind option_bind]. rewrite (proj2 (Z.leb_le _ _)) by lia.
  unfold slice. do 3 f_equal; [lia|]. f_equal. lia.
Qed.

Lemma slice_nil i : slice i i = [].
Proof. unfold slice. by rewrite Nat.sub_diag. Qed.

(** One anchor or deletion that is not lost. *)
Lemma process_nop_del_ok d b a out sn ld' o : env_ok →
  (l_op d = LUMP_NOP ∨ l_op d = LUMP_DEL) → l_u d = u_offset o → 0 <= o →
  (l_op d = LUMP_DEL → 0 <= l_len d ∧ o + l_len d <= zlen (e_buf e)) →
  o <= zlen (e_buf e) → zlen (e_buf e) < 2 ^ 32 → Z.of_nat sn <= zlen (e_buf e) →
  chain_forall lump_ok LD_BEFORE b → chain_forall lump_ok LD_AFTER a →
  let x := lump_edit d b a in
  (process_nop_del e so d b a (Some out, Z.of_nat sn, ld')).1.1 =
    (Some (out ++ slice sn (sn `max` ed_pos x)%nat ++ ed_text x),
     Z.of_nat (sn `max` ed_pos x `max` (ed_pos x + ed_del x))%nat,
     if bool_decide (l_op d = LUMP_DEL) then o else ld').
Proof.
  intros He Hop Hu Ho Hdel Hol Hbuf Hsn Hb Ha x. unfold process_nop_del.
  assert (lump_offset d = o) as Hoff by (unfold lump_offset; by rewrite Hu).
  rewrite Hoff.
  assert (ed_pos x = Z.to_nat o) as Hpos by (cbn; by rewrite Hoff).
  assert ((if Z.of_nat sn <? o then (copy_orig e (Z.of_nat sn) (o - Z.of_nat sn) (Some out), o)
           else (Some out, Z.of_nat sn)) =
          (Some (out ++ slice sn (sn `max` ed_pos x)%nat), Z.of_nat (sn `max` ed_pos x)%nat)) as ->.
  { rewrite Hpos. destruct (Z.ltb_spec (Z.of_nat sn) o).
    - rewrite Nat.max_r by lia. rewrite <- (copy_orig_slice sn (Z.to_nat o)) by lia.
      rewrite Z2Nat.id by lia. done.
    - rewrite Nat.max_l by lia. by rewrite slice_nil, app_nil_r. }
  destruct (chain_bytes_ok LD_BEFORE b (out ++ slice sn (sn `max` ed_pos x)%nat) He Hb) as [E1 _].
  destruct (chain_bytes e so LD_BEFORE b _) as [o1 b'] eqn:Eb. cbn in E1. subst o1.
  destruct (chain_bytes_ok LD_AFTER a
    ((out ++ slice sn (sn `max` ed_pos x)%nat) ++ chain_text LD_BEFORE b) He Ha) as [E2 _].
  destruct (chain_bytes e so LD_AFTER a _) as [o2 a'] eqn:Ea. cbn [fst snd] in E2 |- *. subst o2.
  f_equal. f_equal.
  - unfold x, lump_edit. cbn [ed_text]. by rewrite <- !app_assoc.
  - unfold x, lump_edit in *. cbn [ed_del ed_pos] in *. rewrite Hoff.
    destruct Hop as [Hop|Hop]; rewrite Hop; [rewrite !bool_decide_false by done; cbn; lia|].
    rewrite !bool_decide_true by done. destruct (Hdel Hop). cbn [andb].
    rewrite (wrap_small 32 (o + _)) by lia.
    destruct (Z.ltb_spec (Z.of_nat (sn `max` Z.to_nat o)%nat) (o + l_len d)); [|lia].
    rewrite (wrap_small 32 (l_len d - _)) by lia. rewrite wrap_small by lia. lia.
Qed.

(** The invariant after a lump is lost, and after it is kept. *)
Lemma loop_inv_drop lo pos sn ld en ld' :
  loop_inv lo sn ld en ld' → (lo ≤ pos)%nat → loop_inv pos sn ld en ld'.
Proof. unfold loop_inv. lia. Qed.

Definition next_ld (ld : nat) (x : edit) : nat := if (ed_del x =? 0)%nat then ld else ed_pos x.
Definition next_en (en : nat) (x : edit) : nat :=
  (if (ed_del x =? 0)%nat then en else en `max` (ed_pos x + ed_del x))%nat.

Lemma kept_cons ld en x es : kept ld en (x :: es) =
  if (ld <? ed_pos x)%nat && (ed_pos x <? en)%nat then kept ld en es
  else x :: kept (next_ld ld x) (next_en en x) es.
Proof. cbn. unfold next_ld, next_en. by destruct (_ && _), (ed_del x =? 0)%nat. Qed.

Lemma loop_inv_keep lo sn ld en ld' x (b : bool) :
  loop_inv lo sn ld en ld' → (lo ≤ ed_pos x)%nat →
  (ld <? ed_pos x)%nat && (ed_pos x <? en)%nat = false → (b = false → ed_del x = 0%nat) →
  loop_inv (ed_pos x) (sn `max` ed_pos x `max` (ed_pos x + ed_del x))%nat
    (next_ld ld x) (next_en en x) (if b then Z.of_nat (ed_pos x) else ld').
Proof.
  intros Hinv Hlo Hk Hb. unfold loop_inv, next_ld, next_en in *.
  apply andb_false_iff in Hk. rewrite !Nat.ltb_ge in Hk.
  destruct (Nat.eqb_spec (ed_del x) 0), b; try specialize (Hb eq_refl); lia.
Qed.

(** A list of edits that either loop goes through. *)
Lemma lump_edit_pos d b a o : l_u d = u_offset o → ed_pos (lump_edit d b a) = Z.to_nat o.
Proof. intros Hu. unfold lump_edit, lump_offset. by rewrite Hu. Qed.

Lemma process_loop_ok mx l : env_ok → zlen (e_buf e) < 2 ^ 32 →
  ∀ lo out sn ld en ld', loop_inv lo sn ld en ld' → Z.of_nat sn <= zlen (e_buf e) →
  lumps_ok (Z.of_nat lo) (zlen (e_buf e)) l → below (u32 mx) l →
  (process_loop e so mx l (Some out, Z.of_nat sn, ld')).1.1 =
    (Some (out ++ (seg sn (kept ld en (edits_of l))).1),
     Z.of_nat (seg sn (kept ld en (edits_of l))).2).
Proof.
  intros He Hbuf. induction l as [|d b _ a _ n IH]; intros lo out sn ld en ld' Hinv Hsn Hok Hbel.
  { cbn. by rewrite app_nil_r. }
  destruct Hok as (Hop & (o & Hu & Hlo & Hhi & Hdel) & Hb & Ha & Hn). destruct Hbel as [Hmx Hbel].
  assert (lump_offset d = o) as Hoff by (unfold lump_offset; by rewrite Hu).
  cbn [process_loop edits_of]. rewrite (proj2 (Z.ltb_lt _ _)) by done. cbn [negb].
  rewrite kept_cons, (in_deleted_kept lo sn ld en ld' d o Hinv Hu) by done.
  rewrite (lump_edit_pos d b a o Hu).
  rewrite Hoff in Hn. assert (o = Z.of_nat (Z.to_nat o)) as Hon by lia. rewrite Hon in Hn.
  destruct (_ && _) eqn:Ek.
  - destruct (process_loop e so mx n _) as [st' n'] eqn:E. cbn [fst].
    specialize (IH (Z.to_nat o) out sn ld en ld'). rewrite E in IH. cbn [fst] in IH. apply IH; try done.
    eapply loop_inv_drop; [done|lia].
  - set (x := lump_edit d b a). fold x.
    assert (ed_pos x = Z.to_nat o) as Hpos by (apply lump_edit_pos, Hu).
    assert (Z.of_nat (ed_pos x + ed_del x) <= zlen (e_buf e)) as Hend.
    { rewrite Hpos. unfold x, lump_edit. cbn [ed_del].
      destruct Hop as [Hop|Hop]; rewrite Hop; [rewrite bool_decide_false by done; lia|].
      rewrite bool_decide_true by done. specialize (Hdel Hop). lia. }
    pose proof (process_nop_del_ok d b a out sn ld' o He Hop Hu ltac:(lia) Hdel Hhi Hbuf Hsn Hb Ha)
      as Hone. cbv zeta in Hone. fold x in Hone.
    assert (process_lump e so d b a (Some out, Z.of_nat sn, ld') =
      (let '(st', b', a') := process_nop_del e so d b a (Some out, Z.of_nat sn, ld') in
       (st', (d, b', a')))) as Epl by (unfold process_lump; by destruct Hop as [-> | ->]).
    assert (∀ (X Y : (option bytes * Z * Z) * lumps),
      match l_op d, follow LD_NEXT n with LUMP_SKIP, Lump _ _ _ _ => X | _, _ => Y end = Y) as ->
      by (intros; by destruct Hop as [-> | ->]).
    rewrite Epl. destruct (process_nop_del e so d b a _) as [[st1 b'] a']. cbn [fst] in Hone. subst st1.
    specialize (IH (ed_pos x) (out ++ slice sn (sn `max` ed_pos x)%nat ++ ed_text x)
      (sn `max` ed_pos x `max` (ed_pos x + ed_del x))%nat (next_ld ld x) (next_en en x)
      (if bool_decide (l_op d = LUMP_DEL) then o else ld')).
    destruct (process_loop e so mx n _) as [st2 n'] eqn:E. cbn [fst] in IH |- *.
    rewrite IH; [| |lia|by rewrite Hpos|done].
    + cbn [seg]. destruct (seg _ (kept _ _ _)). cbn [fst snd]. by rewrite <- !app_assoc.
    + rewrite Hon, <- Hpos.
      apply (loop_inv_keep lo); [done|lia|by rewrite Hpos|].
      intros Hbd. unfold x, lump_edit. cbn [ed_del]. by rewrite Hbd.
Qed.

Lemma u32_sub_u32 x y : u32 (x - u32 y) = u32 (x - y).
Proof. unfold wrap. by rewrite Zminus_mod_idemp_r. Qed.

Lemma wrap_wrap_sub w x y : 0 <= w → wrap w (wrap w x - y) = wrap w (x - y).
Proof. intros. apply (wrap_wrap_add w x (- y)). done. Qed.

Lemma u32_idem x : u32 (u32 x) = u32 x.
Proof. unfold wrap. by rewrite Zmod_mod. Qed.

(** Edits at or after a position. *)
Definition from_pos (p : nat) (es : list edit) : Prop := Forall (λ x, (p ≤ ed_pos x)%nat) es.

Lemma kept_forall (P : edit → Prop) es : ∀ ld en, Forall P es → Forall P (kept ld en es).
Proof.
  induction es as [|x es IH]; intros ld en Hes; [done|].
  apply Forall_cons in Hes as [? ?]. rewrite kept_cons. destruct (_ && _); auto.
Qed.

Lemma edits_of_from lo hi l : lumps_ok lo hi l → from_pos (Z.to_nat lo) (edits_of l).
Proof.
  revert lo. induction l as [|d b _ a _ n IH]; intros lo; [by constructor|].
  intros (_ & (o & Hu & Hlo & _) & _ & _ & Hn). cbn.
  assert (lump_offset d = o) as Hoff by (unfold lump_offset; by rewrite Hu).
  constructor; [rewrite (lump_edit_pos d b a o Hu); lia|].
  eapply Forall_impl; [apply (IH _ Hn)|]. cbn. lia.
Qed.

Lemma delta_max p sn es : from_pos p es → delta (sn `max` p)%nat es = delta sn es.
Proof.
  intros Hp. destruct es as [|x es]; [done|]. apply Forall_cons in Hp as [Hx _]. cbn.
  replace (sn `max` p `max` (ed_pos x + ed_del x))%nat
    with (sn `max` (ed_pos x + ed_del x))%nat by lia.
  by replace (sn `max` p `max` ed_pos x)%nat with (sn `max` ed_pos x)%nat by lia.
Qed.

(** The length pass on one lump that is not lost: [s_offset] is the end of the deleted ranges or,
    after an empty deletion, its position. *)
Lemma len_main_ok d b a o n sn ld' : n = u32 n → (l_op d = LUMP_NOP ∨ l_op d = LUMP_DEL) →
  l_u d = u_offset o → 0 <= o →
  (l_op d = LUMP_DEL → 0 <= l_len d ∧ o + l_len d < 2 ^ 32) →
  let x := lump_edit d b a in
  let sn' := if bool_decide (l_op d = LUMP_DEL) then (sn `max` (ed_pos x + ed_del x))%nat else sn in
  ∃ n', len_main e so d (n, Z.of_nat sn, ld') =
    (n', Z.of_nat sn', if bool_decide (l_op d = LUMP_DEL) then o else ld') ∧
  n' = u32 (n - (Z.of_nat (sn `max` (ed_pos x + ed_del x))%nat - Z.of_nat (sn `max` ed_pos x)%nat)).
Proof.
  intros Hn Hop Hu Ho Hdel x sn'. unfold len_main, sn'.
  assert (lump_offset d = o) as Hoff by (unfold lump_offset; by rewrite Hu).
  assert (ed_pos x = Z.to_nat o) as Hpos by (apply lump_edit_pos, Hu).
  assert (ed_del x = if bool_decide (l_op d = LUMP_DEL) then Z.to_nat (l_len d) else 0%nat) as Hd
    by done.
  rewrite Hpos, Hd, Hoff. clear Hd sn'.
  destruct Hop as [Hop|Hop]; rewrite Hop in *;
    [rewrite !bool_decide_false by done|rewrite !bool_decide_true by done].
  { eexists; split; [done|]. rewrite Hn at 1. f_equal. lia. }
  destruct (Hdel eq_refl) as [Hl Hol]. rewrite (wrap_small 32 (o + _)) by lia.
  destruct (Z.ltb_spec o (Z.of_nat sn)).
  - destruct (Z.ltb_spec (Z.of_nat sn) (o + l_len d)).
    + eexists. split; [f_equal; f_equal; lia|].
      rewrite u32_sub_u32. f_equal. lia.
    + eexists. split; [f_equal; f_equal; lia|]. rewrite Hn at 1. f_equal. lia.
  - eexists. split; [f_equal; f_equal; lia|]. f_equal. lia.
Qed.

Lemma lumps_len_loop_ok mx l : env_ok → zlen (e_buf e) < 2 ^ 32 →
  ∀ lo n sn ld en ld', loop_inv lo sn ld en ld' → n = u32 n →
  lumps_ok (Z.of_nat lo) (zlen (e_buf e)) l → below (u32 mx) l →
  (lumps_len_loop e so mx l (n, Z.of_nat sn, ld')).1 = u32 (n + delta sn (kept ld en (edits_of l))).
Proof.
  intros He Hbuf. induction l as [|d b _ a _ t IH]; intros lo n sn ld en ld' Hinv Hn Hok Hbel.
  { cbn. by rewrite Z.add_0_r. }
  destruct Hok as (Hop & (o & Hu & Hlo & Hhi & Hdel) & Hb & Ha & Ht). destruct Hbel as [Hmx Hbel].
  assert (lump_offset d = o) as Hoff by (unfold lump_offset; by rewrite Hu).
  cbn [lumps_len_loop edits_of]. rewrite (proj2 (Z.ltb_lt _ _)) by done. cbn [negb].
  rewrite kept_cons, (in_deleted_kept lo sn ld en ld' d o Hinv Hu) by done.
  rewrite (lump_edit_pos d b a o Hu).
  rewrite Hoff in Ht. assert (o = Z.of_nat (Z.to_nat o)) as Hon by lia. rewrite Hon in Ht.
  destruct (_ && _) eqn:Ek.
  - specialize (IH (Z.to_nat o) n sn ld en ld').
    destruct (lumps_len_loop e so mx t _) as [len t'] eqn:E. cbn [fst] in IH |- *. apply IH; try done.
    eapply loop_inv_drop; [done|lia].
  - set (x := lump_edit d b a). fold x.
    assert (ed_pos x = Z.to_nat o) as Hpos by (apply lump_edit_pos, Hu).
    destruct (chain_len_ok LD_BEFORE b n He Hb Hn) as [E1 _].
    destruct (chain_len e so LD_BEFORE b n) as [n1 b']. cbn [fst] in E1.
    destruct (len_main_ok d b a o n1 sn ld') as (n2 & E2 & Hn2); [subst; by rewrite u32_idem|done..|lia| |].
    { intros Hd. destruct (Hdel Hd). lia. }
    fold x in E2, Hn2. rewrite E2.
    destruct (chain_len_ok LD_AFTER a n2 He Ha) as [E3 _]; [subst; by rewrite u32_idem|].
    destruct (chain_len e so LD_AFTER a n2) as [n3 a']. cbn [fst] in E3.
    set (sn' := if bool_decide (l_op d = LUMP_DEL) then (sn `max` (ed_pos x + ed_del x))%nat else sn) in *.
    specialize (IH (ed_pos x) n3 sn' (next_ld ld x) (next_en en x)
      (if bool_decide (l_op d = LUMP_DEL) then o else ld')).
    destruct (lumps_len_loop e so mx t _) as [len t'] eqn:E. cbn [fst] in IH |- *.
    rewrite IH; [| |subst; by rewrite u32_idem|by rewrite Hpos|done].
    + rewrite E3, Hn2, E1, !wrap_wrap_add, wrap_wrap_sub by done. cbn [delta].
      assert (zlen (ed_text x) = zlen (chain_text LD_BEFORE b) + zlen (chain_text LD_AFTER a)) as ->
        by (unfold x, lump_edit; apply zlen_app).
      assert (delta sn' (kept (next_ld ld x) (next_en en x) (edits_of t)) =
        delta (sn `max` (ed_pos x + ed_del x))%nat (kept (next_ld ld x) (next_en en x) (edits_of t)))
        as ->; [|rewrite <- Z.add_assoc, wrap_wrap_add by done; f_equal; lia].
      unfold sn'. destruct (bool_decide (l_op d = LUMP_DEL)) eqn:Hbd; [done|].
      replace (ed_pos x + ed_del x)%nat with (ed_pos x)
        by (unfold x, lump_edit; cbn [ed_del]; rewrite Hbd; lia).
      symmetry. apply delta_max, kept_forall.
      rewrite Hpos. apply edits_of_from in Ht. by rewrite Nat2Z.id in Ht.
    + rewrite Hon, <- Hpos. unfold sn'. rewrite <- Hpos in Ek.
      destruct (bool_decide (l_op d = LUMP_DEL)) eqn:Hbd.
      * eapply (loop_inv_keep lo _ _ _ _ x true) in Hinv; [|lia|done|done].
        by replace (sn `max` ed_pos x `max` (ed_pos x + ed_del x))%nat
          with (sn `max` (ed_pos x + ed_del x))%nat in Hinv by lia.
      * assert (ed_del x = 0%nat) as Hd0 by (unfold x, lump_edit; cbn [ed_del]; by rewrite Hbd).
        eapply (loop_inv_keep lo _ _ _ _ x false) in Hinv as Hinv'; [|lia|done|done].
        unfold loop_inv, next_en in *. rewrite Hd0 in *. cbn in *. lia.
Qed.

(** ** The text position by position *)

(** The edits end inside of the text. *)
Definition within (hi : nat) (es : list edit) : Prop :=
  Forall (λ x, (ed_pos x + ed_del x ≤ hi)%nat) es.

Lemma seg_length es : ∀ s, within (length (e_buf e)) es → (s ≤ length (e_buf e))%nat →
  zlen (seg s es).1 = delta s es + Z.of_nat (seg s es).2 - Z.of_nat s ∧
  (s ≤ (seg s es).2)%nat.
Proof.
  induction es as [|x es IH]; intros s Hes Hs; [unfold zlen; cbn; lia|].
  apply Forall_cons in Hes as [Hx Hes]. cbn.
  specialize (IH (s `max` ed_pos x `max` (ed_pos x + ed_del x))%nat Hes ltac:(lia)).
  destruct (seg _ es) as [t s'] eqn:E. cbn [fst snd] in *.
  rewrite !zlen_app. unfold zlen in *. rewrite slice_length by (unfold zlen; lia).
  replace (s `max` (ed_pos x + ed_del x))%nat
    with (s `max` ed_pos x `max` (ed_pos x + ed_del x))%nat by lia. lia.
Qed.

(** What is inserted at a position, and whether its byte is deleted. *)
Definition inserted (es : list edit) (i : nat) : bytes :=
  flat_map (λ x, if (ed_pos x =? i)%nat then ed_text x else []) es.
Definition deleted (es : list edit) (i : nat) : bool :=
  existsb (λ x, (ed_pos x <=? i)%nat && (i <? ed_pos x + ed_del x)%nat) es.

(** The reference: between [lo] and [hi], at each position the insertions in their order,
    then the byte unless it is deleted; the insertions at [hi] come last. *)
Definition edited (es : list edit) (lo hi : nat) : bytes :=
  flat_map (λ i, inserted es i ++ if deleted es i then [] else option_list (e_buf e !! i))
    (seq lo (hi - lo)) ++ inserted es hi.

Lemma inserted_cons x es i :
  inserted (x :: es) i = (if (ed_pos x =? i)%nat then ed_text x else []) ++ inserted es i.
Proof. done. Qed.

Lemma deleted_cons x es i :
  deleted (x :: es) i =
  ((ed_pos x <=? i)%nat && (i <? ed_pos x + ed_del x)%nat) || deleted es i.
Proof. done. Qed.

(** The same with the bytes of [from, upto) deleted too. *)
Definition rend (es : list edit) (from upto lo hi : nat) : bytes :=
  flat_map (λ i, inserted es i ++
      if ((from <=? i)%nat && (i <? upto)%nat) || deleted es i then []
      else option_list (e_buf e !! i)) (seq lo (hi - lo)).

Lemma flat_map_ext_seq {B} (f g : nat → list B) lo n :
  (∀ i, (lo ≤ i < lo + n)%nat → f i = g i) → flat_map f (seq lo n) = flat_map g (seq lo n).
Proof.
  revert lo. induction n as [|n IH]; intros lo H; [done|]. cbn.
  rewrite (H lo), (IH (S lo)) by lia || (intros; apply H; lia). done.
Qed.

Lemma rend_ext es es' f u f' u' lo hi :
  (∀ i, (lo ≤ i < hi)%nat → inserted es i = inserted es' i ∧
    ((f <=? i)%nat && (i <? u)%nat) || deleted es i
    = ((f' <=? i)%nat && (i <? u')%nat) || deleted es' i) →
  rend es f u lo hi = rend es' f' u' lo hi.
Proof.
  intros H. apply flat_map_ext_seq. intros i Hi. destruct (H i) as [-> ->]; [lia|done].
Qed.

Lemma rend_split es f u lo mid hi : (lo ≤ mid ≤ hi)%nat →
  rend es f u lo hi = rend es f u lo mid ++ rend es f u mid hi.
Proof.
  intros. unfold rend. rewrite <- flat_map_app. f_equal.
  replace (hi - lo)%nat with ((mid - lo) + (hi - mid))%nat by lia. rewrite seq_app.
  do 2 f_equal. lia.
Qed.

(** Before the first edit nothing happens. *)
Lemma no_edit_before es p i : from_pos p es → (i < p)%nat →
  inserted es i = [] ∧ deleted es i = false.
Proof.
  intros Hes Hi. induction Hes as [|x es Hx _ IH]; [done|].
  rewrite inserted_cons, deleted_cons. destruct IH as [-> ->].
  rewrite (proj2 (Nat.eqb_neq _ _)), (proj2 (Nat.leb_gt _ _)) by lia. done.
Qed.

Lemma option_list_slice lo n : (lo + n ≤ length (e_buf e))%nat →
  flat_map (λ i, option_list (e_buf e !! i)) (seq lo n) = take n (drop lo (e_buf e)).
Proof.
  revert lo. induction n as [|n IH]; intros lo H; [done|]. cbn [seq flat_map].
  rewrite IH by lia. destruct (lookup_lt_is_Some_2 (e_buf e) lo) as [c Hc]; [lia|].
  rewrite Hc. cbn. rewrite (drop_S _ _ _ Hc). done.
Qed.

Lemma rend_slice es f u p lo hi : from_pos p es → (lo ≤ hi ≤ p)%nat → (u ≤ lo)%nat →
  (hi ≤ length (e_buf e))%nat → rend es f u lo hi = slice lo hi.
Proof.
  intros Hes H Hu Hlen. unfold slice. rewrite <- option_list_slice by lia.
  apply flat_map_ext_seq. intros i Hi. destruct (no_edit_before es p i Hes) as [-> ->]; [lia|].
  rewrite (proj2 (Nat.ltb_ge i u)) by lia. by rewrite andb_false_r.
Qed.

Lemma rend_deleted es f u p lo hi : from_pos p es → (hi ≤ p)%nat → (f ≤ lo)%nat → (hi ≤ u)%nat →
  rend es f u lo hi = [].
Proof.
  intros Hes H Hf Hu. unfold rend.
  rewrite (flat_map_ext_seq _ (λ _, [])); [by induction (seq _ _)|].
  intros i Hi. destruct (no_edit_before es p i Hes) as [-> ->]; [lia|].
  by rewrite (proj2 (Nat.leb_le _ _)), (proj2 (Nat.ltb_lt _ _)) by lia.
Qed.

(** An edit at the position where the rendering starts. *)
Lemma rend_here x es s hi : (ed_pos x ≤ hi)%nat → (ed_pos x ≤ s)%nat →
  rend (x :: es) (ed_pos x) s (ed_pos x) hi ++ inserted (x :: es) hi =
  ed_text x ++ rend es (ed_pos x) (s `max` (ed_pos x + ed_del x))%nat (ed_pos x) hi ++ inserted es hi.
Proof.
  intros Hp Hs. set (p := ed_pos x).
  assert (∀ i, (p ≤ i)%nat →
    ((p <=? i)%nat && (i <? s)%nat) || deleted (x :: es) i =
    ((p <=? i)%nat && (i <? s `max` (p + ed_del x))%nat) || deleted es i) as Hd.
  { intros i Hi. rewrite deleted_cons. fold p. rewrite (proj2 (Nat.leb_le p i)) by done. cbn [andb].
    destruct (Nat.ltb_spec i s), (Nat.ltb_spec i (p + ed_del x)),
      (Nat.ltb_spec i (s `max` (p + ed_del x))%nat); cbn [orb]; done || (exfalso; lia). }
  destruct (decide (p = hi)) as [<-|Hne].
  { unfold rend. rewrite Nat.sub_diag, inserted_cons. unfold p. by rewrite Nat.eqb_refl. }
  rewrite !(rend_split _ _ _ p (S p) hi) by lia.
  rewrite (rend_ext (x :: es) es p s p (s `max` (p + ed_del x))%nat (S p) hi).
  2: { intros i Hi. split; [|apply Hd; lia]. rewrite inserted_cons.
       by rewrite (proj2 (Nat.eqb_neq _ _)) by (unfold p in *; lia). }
  unfold rend at 1 3. replace (S p - p)%nat with 1%nat by lia. cbn [seq flat_map].
  rewrite (Hd p), !inserted_cons by lia.
  rewrite (proj2 (Nat.eqb_eq (ed_pos x) p)), (proj2 (Nat.eqb_neq (ed_pos x) hi)) by done.
  by rewrite !app_nil_r, <- !app_assoc.
Qed.

(** Edits the segments go through in order: at the last position or past what is deleted. *)
Fixpoint compat (last s : nat) (es : list edit) : Prop :=
  match es with
  | [] => True
  | x :: es =>
      (ed_pos x = last ∨ (s ≤ ed_pos x)%nat) ∧ from_pos (ed_pos x) es ∧
      compat (ed_pos x) (s `max` ed_pos x `max` (ed_pos x + ed_del x))%nat es
  end.

Lemma seg_rend es : ∀ last s hi, compat last s es → (last ≤ s ≤ hi)%nat →
  within hi es → (hi ≤ length (e_buf e))%nat →
  (seg s es).1 ++ slice (seg s es).2 hi = rend es last s last hi ++ inserted es hi.
Proof.
  induction es as [|x es IH]; intros last s hi Hc Hs Hes Hhi.
  { cbn. rewrite (rend_split _ _ _ last s hi) by lia.
    rewrite (rend_deleted [] last s s) by (by constructor) || lia.
    rewrite (rend_slice [] last s hi) by (by constructor) || lia. by rewrite app_nil_r. }
  destruct Hc as (Hpos & Hfrom & Hc). apply Forall_cons in Hes as [Hx Hes].
  cbn [seg]. specialize (IH _ _ hi Hc ltac:(lia) Hes Hhi).
  destruct (seg _ es) as [t s'] eqn:E. cbn [fst snd] in *. rewrite <- !app_assoc, IH.
  destruct (decide (ed_pos x = last)) as [<-|Hne].
  - rewrite Nat.max_l, slice_nil by lia. cbn [app]. by rewrite rend_here by lia.
  - destruct Hpos as [|Hpos]; [done|]. rewrite Nat.max_r by lia.
    assert (from_pos (ed_pos x) (x :: es)) as Hf by (by constructor).
    rewrite (rend_split (x :: es) last s last (ed_pos x) hi) by lia.
    rewrite (rend_split (x :: es) last s last s (ed_pos x)) by lia.
    rewrite (rend_deleted _ last s (ed_pos x) last s) by done || lia.
    rewrite (rend_slice _ last s (ed_pos x) s (ed_pos x)) by done || lia.
    cbn [app]. rewrite <- app_assoc. f_equal.
    rewrite (rend_ext (x :: es) (x :: es) last s (ed_pos x) (ed_pos x) (ed_pos x) hi).
    + by rewrite rend_here by lia.
    + intros i Hi. split; [done|]. f_equal.
      rewrite (proj2 (Nat.ltb_ge i s)), (proj2 (Nat.ltb_ge i (ed_pos x))) by lia.
      by rewrite !andb_false_r.
Qed.
End text.
