(* ===== verification/LumpSpec.v ===== *)
(** * LumpSpec: what the lumps promise

    The text rebuilt from the lumps is the one the edits describe, its length is the
    one computed beforehand, and the operations that build the lump lists keep them
    sorted; where the length computation and the writer disagree. *)

From stdpp Require Import prelude list strings.
From Stdlib Require Import ZArith Lia.
From S2P Require Import Prelude Lumps LumpApply LumpFacts.

(** ** The flags do not matter *)

Section flags.
Variable e : lump_env.
Variable so : option socket_info.

Lemma lump_offset_erase d : lump_offset (erase_data d) = lump_offset d.
Proof. by destruct d. Qed.

Lemma edits_of_erase l : edits_of e so (erase l) = edits_of e so l.
Proof.
  induction l as [|d b _ a _ n IH]; [done|]. cbn. rewrite IH. f_equal.
  unfold lump_edit. cbn [l_op l_len erase_data]. by rewrite lump_offset_erase, !chain_text_erase.
Qed.

Lemma lumps_ok_erase lo hi l : lumps_ok lo hi (erase l) ↔ lumps_ok lo hi l.
Proof.
  revert lo. induction l as [|d b _ a _ n IH]; intros lo; [done|]. cbn [lumps_ok erase].
  rewrite IH, !chain_forall_erase, lump_offset_erase. done.
Qed.

Lemma below_erase mx l : below mx (erase l) ↔ below mx l.
Proof.
  unfold below. induction l as [|d b _ a _ n IH]; [done|]. cbn. by rewrite IH, lump_offset_erase.
Qed.

Lemma chain_len_erase dir r n : erase (chain_len e so dir r n).2 = erase r.
Proof.
  apply walk_chain_erase; [apply check_opt_erase|]. intros [] x.
  unfold emit_len, lump_subst_len. done.
Qed.

Lemma lumps_len_loop_erase mx l : ∀ st, erase (lumps_len_loop e so mx l st).2 = erase l.
Proof.
  induction l as [|d b _ a _ n IH]; intros [[len s] ld]; [done|]. cbn [lumps_len_loop].
  destruct (negb _); [done|]. destruct (in_deleted s ld d).
  - specialize (IH (len, s, ld)). destruct (lumps_len_loop e so mx n _). cbn in *. by rewrite IH.
  - pose proof (chain_len_erase LD_BEFORE b len) as Hb.
    destruct (chain_len e so LD_BEFORE b len) as [len1 b'].
    destruct (len_main e so d (len1, s, ld)) as [[len2 s2] ld2].
    pose proof (chain_len_erase LD_AFTER a len2) as Ha.
    destruct (chain_len e so LD_AFTER a len2) as [len3 a'].
    specialize (IH (len3, s2, ld2)). destruct (lumps_len_loop e so mx n _). cbn in *. by rewrite IH, Ha, Hb.
Qed.

Lemma lumps_len_erase mx l : erase (lumps_len e so l mx).2 = erase l.
Proof.
  unfold lumps_len. pose proof (lumps_len_loop_erase mx l (0, 0, 0)) as H.
  by destruct (lumps_len_loop e so mx l (0, 0, 0)).
Qed.

(** After the length pass the list means the same. *)
Lemma lumps_len_same mx l l' : l' = (lumps_len e so l mx).2 →
  edits_of e so l' = edits_of e so l ∧
  (∀ lo hi, lumps_ok lo hi l' ↔ lumps_ok lo hi l) ∧ (∀ m, below m l' ↔ below m l).
Proof.
  intros ->. pose proof (lumps_len_erase mx l) as H. split_and!.
  - by rewrite <- edits_of_erase, H, edits_of_erase.
  - intros. by rewrite <- lumps_ok_erase, H, lumps_ok_erase.
  - intros. by rewrite <- below_erase, H, below_erase.
Qed.
End flags.

(** ** Sorted edits *)

Section edits.
Variable e : lump_env.
Variable so : option socket_info.
Hypothesis Henv : env_ok e.
Hypothesis Hbuf : zlen (e_buf e) < 2 ^ 32 - 1.

(** The edits of a list, without the lost ones. *)
Definition edits_kept (l : lumps) : list edit := kept 0 0 (edits_of e so l).

Lemma kept_compat hi l : ∀ lo ld en last,
  lumps_ok (Z.of_nat lo) hi l → (last ≤ lo)%nat → (en ≤ last ∨ ld = last)%nat →
  compat last (en `max` last)%nat (kept ld en (edits_of e so l)).
Proof.
  induction l as [|d b _ a _ n IH]; intros lo ld en last Hok Hlo Hld; [done|].
  destruct Hok as (Hop & (o & Hu & Ho & _) & _ & _ & Hn).
  assert (lump_offset d = o) as Hoff by (unfold lump_offset; by rewrite Hu).
  rewrite Hoff in Hn. assert (o = Z.of_nat (Z.to_nat o)) as Hon by lia. rewrite Hon in Hn.
  cbn [edits_of]. rewrite kept_cons.
  pose proof (lump_edit_pos e so d b a o Hu) as Hpos.
  set (x := lump_edit e so d b a) in *.
  destruct (_ && _) eqn:Ek; [apply (IH (Z.to_nat o)); [done|lia..]|].
  apply andb_false_iff in Ek. rewrite !Nat.ltb_ge in Ek.
  cbn [compat]. split; [lia|]. split.
  - apply kept_forall. rewrite Hpos. apply (edits_of_from e so) in Hn. by rewrite Nat2Z.id in Hn.
  - replace (en `max` last `max` ed_pos x `max` (ed_pos x + ed_del x))%nat
      with (next_en en x `max` ed_pos x)%nat
      by (unfold next_en; destruct (Nat.eqb_spec (ed_del x) 0); lia).
    apply (IH (Z.to_nat o)); [done|lia|].
    unfold next_en, next_ld. destruct (Nat.eqb_spec (ed_del x) 0); lia.
Qed.

Lemma edits_within lo hi l : 0 <= lo → lumps_ok lo hi l → within (Z.to_nat hi) (edits_of e so l).
Proof.
  revert lo. induction l as [|d b _ a _ n IH]; intros lo Hlo; [by constructor|].
  intros (Hop & (o & Hu & Ho & Hhi & Hdel) & _ & _ & Hn).
  assert (lump_offset d = o) as Hoff by (unfold lump_offset; by rewrite Hu).
  constructor; [|apply (IH (lump_offset d)); [lia|done]].
  unfold lump_edit. cbn [ed_pos ed_del]. rewrite Hoff.
  destruct Hop as [Hop|Hop]; rewrite Hop;
    [rewrite bool_decide_false by done; lia|rewrite bool_decide_true by done].
  specialize (Hdel Hop). lia.
Qed.

(** The first pass. *)
Lemma lumps_len_delta mx l lo : lumps_ok (Z.of_nat lo) (zlen (e_buf e)) l → below (u32 mx) l →
  (lumps_len e so l mx).1 = i32 (u32 (delta lo (edits_kept l))).
Proof.
  intros Hok Hbel. unfold lumps_len.
  pose proof (lumps_len_loop_ok e so mx l Henv ltac:(lia) lo 0 0%nat 0%nat 0%nat 0
    ltac:(unfold loop_inv; lia) eq_refl Hok Hbel) as H.
  destruct (lumps_len_loop e so mx l (0, 0, 0)) eqn:E. change (Z.of_nat 0) with 0 in H.
  rewrite E in H. cbn [fst] in *.
  rewrite H. do 2 f_equal. fold (edits_kept l). cbn.
  rewrite <- (delta_max lo 0); [done|].
  apply kept_forall. apply (edits_of_from e so) in Hok. by rewrite Nat2Z.id in Hok.
Qed.

(** The second pass. *)
Lemma process_lumps_seg mx l lo out : lumps_ok (Z.of_nat lo) (zlen (e_buf e)) l → below (u32 mx) l →
  (lo ≤ length (e_buf e))%nat →
  (process_lumps e so l out (Z.of_nat lo) mx).1 =
  Some (out ++ (seg e lo (edits_kept l)).1, Z.of_nat (seg e lo (edits_kept l)).2).
Proof.
  intros Hok Hbel Hlo. unfold process_lumps.
  pose proof (process_loop_ok e so mx l Henv ltac:(lia) lo out lo 0%nat 0%nat 0
    ltac:(unfold loop_inv; lia) ltac:(unfold zlen; lia) Hok Hbel) as H.
  destruct (process_loop e so mx l _) as [[[out' s'] ld'] l']. cbn [fst] in *.
  injection H as -> ->. done.
Qed.

Lemma segment_app s es1 es2 :
  seg e s (es1 ++ es2) =
  ((seg e s es1).1 ++ (seg e (seg e s es1).2 es2).1, (seg e (seg e s es1).2 es2).2).
Proof.
  revert s. induction es1 as [|x es1 IH]; intros s; cbn; [by destruct (seg e s es2)|].
  rewrite IH. destruct (seg e _ es1) as [t s1]. cbn. by rewrite <- !app_assoc.
Qed.

Lemma seg_end s es hi : (s ≤ hi)%nat → within hi es → ((seg e s es).2 ≤ hi)%nat.
Proof.
  revert s. induction es as [|x es IH]; intros s Hs Hes; [done|].
  apply Forall_cons in Hes as [Hx Hes]. cbn.
  specialize (IH (s `max` ed_pos x `max` (ed_pos x + ed_del x))%nat ltac:(lia) Hes).
  by destruct (seg e _ es).
Qed.

Lemma compat_from last s E es : compat last E es → (s ≤ E)%nat → from_pos E es → compat last s es.
Proof.
  destruct es as [|x es]; [done|]. intros (_ & Hf & Hc) Hs Hfrom.
  apply Forall_cons in Hfrom as [Hx _]. split; [lia|]. split; [done|].
  by replace (s `max` ed_pos x `max` (ed_pos x + ed_del x))%nat
    with (E `max` ed_pos x `max` (ed_pos x + ed_del x))%nat by lia.
Qed.

Lemma compat_app last s E es1 es2 : compat last s es1 → (last ≤ s ≤ E)%nat → within E es1 →
  from_pos E es2 → compat E E es2 → compat last s (es1 ++ es2).
Proof.
  revert last s. induction es1 as [|x es1 IH]; intros last s Hc Hs Hw Hf Hc2; cbn [app].
  - destruct es2 as [|y es2]; [done|]. destruct Hc2 as (_ & Hfy & Hcy).
    apply Forall_cons in Hf as [Hy _]. split; [lia|]. split; [done|].
    by replace (s `max` ed_pos y `max` (ed_pos y + ed_del y))%nat
      with (E `max` ed_pos y `max` (ed_pos y + ed_del y))%nat by lia.
  - destruct Hc as (Hp & Hfx & Hc). apply Forall_cons in Hw as [Hx Hw]. split; [done|]. split.
    + apply Forall_app. split; [done|]. eapply Forall_impl; [exact Hf|]. cbn. lia.
    + apply IH; [done|lia|done..].
Qed.

Lemma edited_rend es lo hi : edited e es lo hi = rend e es lo lo lo hi ++ inserted es hi.
Proof.
  unfold edited, rend. f_equal. apply flat_map_ext_seq. intros i Hi.
  by rewrite (proj2 (Nat.ltb_ge i lo)), andb_false_r by lia.
Qed.

Lemma edits_kept_facts lo hi l : lumps_ok (Z.of_nat lo) (Z.of_nat hi) l →
  compat lo lo (edits_kept l) ∧ from_pos lo (edits_kept l) ∧ within hi (edits_kept l).
Proof.
  intros Hok. split_and!.
  - apply (kept_compat _ l lo 0%nat 0%nat lo Hok); lia.
  - apply kept_forall. apply (edits_of_from e so) in Hok. by rewrite Nat2Z.id in Hok.
  - apply kept_forall. apply (edits_within (Z.of_nat lo)) in Hok; [|lia]. by rewrite Nat2Z.id in Hok.
Qed.

Lemma lumps_ok_weaken lo hi hi' l : hi <= hi' → lumps_ok lo hi l → lumps_ok lo hi' l.
Proof.
  intros Hhi. revert lo. induction l as [|d b _ a _ n IH]; intros lo; [done|].
  intros (Hop & (o & Hu & Ho & Hoh & Hdel) & Hb & Ha & Hn).
  split; [done|]. split; [|by auto].
  exists o. split; [done|]. split; [done|]. split; [lia|]. intros Hd. specialize (Hdel Hd). lia.
Qed.

Lemma lumps_ok_below lo hi l : lumps_ok lo hi l → hi < 2 ^ 32 - 1 → below (u32 (-1)) l.
Proof.
  intros Hok Hhi. change (u32 (-1)) with (2 ^ 32 - 1). revert lo Hok.
  induction l as [|d b _ a _ n IH]; intros lo; [done|].
  intros (_ & (o & Hu & _ & Hoh & _) & _ & _ & Hn). split; [|by eapply IH].
  unfold lump_offset. rewrite Hu. lia.
Qed.

(** Both lists and the rest of the text, from [lo] to [hi], with the headers ending at [eoh]. *)
Lemma apply_msg_changes_ok l1 l2 out lo eoh hi :
  (lo ≤ eoh ≤ hi)%nat → (hi ≤ length (e_buf e))%nat →
  lumps_ok (Z.of_nat lo) (Z.of_nat eoh) l1 → lumps_ok (Z.of_nat eoh) (Z.of_nat hi) l2 →
  below (Z.of_nat hi) l2 →
  (apply_msg_changes e so l1 l2 out (Z.of_nat lo) (Z.of_nat hi)).1 =
    Some (out ++ edited e (edits_kept l1 ++ edits_kept l2) lo hi) ∧
  zlen (edited e (edits_kept l1 ++ edits_kept l2) lo hi) =
    Z.of_nat hi - Z.of_nat lo + delta lo (edits_kept l1) + delta eoh (edits_kept l2).
Proof.
  intros Hlo Hhi Hok1 Hok2 Hbel2.
  destruct (edits_kept_facts _ _ _ Hok1) as (Hc1 & Hf1 & Hw1).
  destruct (edits_kept_facts _ _ _ Hok2) as (Hc2 & Hf2 & Hw2).
  set (es1 := edits_kept l1) in *. set (es2 := edits_kept l2) in *.
  assert (∀ lo' hi' l, lumps_ok lo' (Z.of_nat hi') l → (hi' ≤ hi)%nat →
    lumps_ok lo' (zlen (e_buf e)) l) as Hweak
    by (intros ???? Hle; eapply lumps_ok_weaken; [|done]; unfold zlen; lia).
  set (s1 := (seg e lo es1).2).
  assert (s1 ≤ eoh)%nat as Hs1 by (apply seg_end; [lia|done]).
  assert (within hi (es1 ++ es2)) as Hw.
  { apply Forall_app. split; [|done]. eapply Forall_impl; [exact Hw1|]. cbn. lia. }
  assert (lumps_ok (Z.of_nat s1) (zlen (e_buf e)) l2) as Hok2'.
  { apply Hweak in Hok2; [|lia]. destruct l2 as [|d b a n]; [done|].
    destruct Hok2 as (? & (o & ? & ? & ?) & ?). split; [done|]. split; [|done].
    exists o. split; [done|]. split; [lia|done]. }
  assert (seg e lo (es1 ++ es2) = ((seg e lo es1).1 ++ (seg e s1 es2).1, (seg e s1 es2).2)) as Eapp
    by apply segment_app.
  pose proof (seg_rend e (es1 ++ es2) lo lo hi
    ltac:(apply (compat_app _ _ eoh); [done|lia|done..]) ltac:(lia) Hw Hhi) as Hrend.
  rewrite <- edited_rend, Eapp in Hrend. cbn [fst snd] in Hrend.
  assert ((seg e s1 es2).2 ≤ hi)%nat as Hs2 by (apply seg_end; [lia|done]).
  assert (u32 (Z.of_nat hi) = Z.of_nat hi) as Eu by (apply wrap_small; unfold zlen in Hbuf; lia).
  split.
  - unfold apply_msg_changes.
    pose proof (process_lumps_seg (-1) l1 lo out (Hweak _ _ _ Hok1 ltac:(lia))
      ltac:(eapply lumps_ok_below; [exact Hok1|unfold zlen in Hbuf; lia]) ltac:(lia)) as P1.
    destruct (process_lumps e so l1 out _ _) as [[[o1 z1]|] l1'];
      cbn [fst] in P1; [injection P1 as -> ->|done].
    pose proof (process_lumps_seg (Z.of_nat hi) l2 s1 (out ++ (seg e lo es1).1) Hok2'
      ltac:(by rewrite Eu) ltac:(lia)) as P2. fold es1 es2 s1 in P2 |- *.
    destruct (process_lumps e so l2 _ _ _) as [[[o2 z2]|] l2'];
      cbn [fst] in P2; [injection P2 as -> ->|done]. cbn [fst].
    rewrite copy_orig_slice by (unfold zlen; lia). by rewrite <- Hrend, <- !app_assoc.
  - rewrite <- Hrend, !zlen_app.
    assert (within (length (e_buf e)) es1) as Hwb1 by (eapply Forall_impl; [exact Hw1|cbn; lia]).
    assert (within (length (e_buf e)) es2) as Hwb2 by (eapply Forall_impl; [exact Hw2|cbn; lia]).
    destruct (seg_length e es1 lo Hwb1 ltac:(lia)) as [L1 _]. fold s1 in L1.
    destruct (seg_length e es2 s1 Hwb2 ltac:(lia)) as [L2 _].
    assert (zlen (slice e (seg e s1 es2).2 hi) = Z.of_nat hi - Z.of_nat (seg e s1 es2).2) as ->
      by (unfold zlen; rewrite slice_length by (unfold zlen; lia); lia).
    assert (delta s1 es2 = delta eoh es2) as Ed.
    { rewrite <- (delta_max eoh s1) by done. by rewrite Nat.max_r by done. }
    lia.
Qed.
End edits.

(** ** The theorems *)

Lemma i32_congr x : ∃ k, i32 x = x + k * 2 ^ 32.
Proof.
  exists (- ((x + 2 ^ 31) / 2 ^ 32)). unfold swrap. change (32 - 1) with 31.
  pose proof (Z.div_mod (x + 2 ^ 31) (2 ^ 32)). lia.
Qed.

Lemma u32_congr x : ∃ k, u32 x = x + k * 2 ^ 32.
Proof.
  exists (- (x / 2 ^ 32)). unfold wrap. pose proof (Z.div_mod x (2 ^ 32)). lia.
Qed.

Lemma u32_eq x y k : x = y + k * 2 ^ 32 → u32 x = u32 y.
Proof. intros ->. unfold wrap. by rewrite Z.mod_add. Qed.

(** The truncations inside of the computed length do not matter. *)
Lemma sum_congr a b c : u32 (a + i32 (u32 b) + i32 (u32 c)) = u32 (a + b + c).
Proof.
  destruct (i32_congr (u32 b)) as [k1 ->], (i32_congr (u32 c)) as [k2 ->],
    (u32_congr b) as [k3 ->], (u32_congr c) as [k4 ->].
  apply (u32_eq _ _ (k1 + k2 + k3 + k4)). lia.
Qed.

Lemma sum_congr2 a b c x y :
  u32 (u32 (a + i32 (u32 b) + i32 (u32 c)) - x + y) = u32 (a + b + c - x + y).
Proof.
  rewrite sum_congr. destruct (u32_congr (a + b + c)) as [k ->].
  apply (u32_eq _ _ k). lia.
Qed.


(** A message, and a socket to send it from. *)
Definition demo_text : bytes :=
  bs "OPTIONS sip:a@b SIP/2.0|Via: SIP/2.0/UDP c|To: d|Content-Length: 2||hi".
Definition demo_sock : socket_info :=
  mk_sock (mk_ip 2 4 [10; 0; 0; 1]) (bs "10.0.0.1") 5062 (bs "5062") PROTO_TCP [] [].
Definition demo_env : lump_env :=
  mk_env demo_text (Some demo_sock) (mk_ip 2 4 [10; 0; 0; 1]) 5060 PROTO_UDP
    (mk_gstr None 0) (mk_gstr None 0) (mk_gstr None 0) (mk_gstr None 0).

(** A Via line is inserted at offset 24, with a substituted address; the To line of offsets 43 to 48 is
    replaced; a letter is inserted in the body. *)
Definition demo_hdr_lumps : lumps :=
  Lump (mk_lump 1 LUMP_NOP (u_offset 24) 0 0)
    (Lump (mk_lump 1 LUMP_ADD (u_value 1000 (bs "Via: ")) 5 0)
       (Lump (mk_lump 1 LUMP_ADD_SUBST (u_subst SUBST_SND_ALL) 0 0)
          (Lump (mk_lump 1 LUMP_ADD (u_value 1008 (bs "|")) 1 0) LNull LNull LNull) LNull LNull)
       LNull LNull) LNull
  (Lump (mk_lump 3 LUMP_DEL (u_offset 43) 6 0) LNull
    (Lump (mk_lump 3 LUMP_ADD (u_value 1016 (bs "To: x|")) 6 0) LNull LNull LNull) LNull).
Definition demo_body_lumps : lumps :=
  Lump (mk_lump 0 LUMP_NOP (u_offset 69) 0 0)
    (Lump (mk_lump 0 LUMP_ADD (u_value 1024 (bs "!")) 1 0) LNull LNull LNull) LNull LNull.

(** Decides the invariant of a concrete list. *)
Ltac lumps_ok_tac :=
  repeat match goal with
  | |- lumps_ok _ _ _ => hnf
  | |- chain_forall _ _ _ => hnf
  | |- _ ∧ _ => split
  | |- True => exact I
  | |- ∃ _, _ => eexists; split; [reflexivity|]
  | |- _ ∨ _ => first [left; reflexivity | right; reflexivity]
  | |- _ → _ => let H := fresh in intros H; try discriminate H
  | |- _ <= _ => vm_compute; discriminate
  | |- _ < _ => vm_compute; reflexivity
  | |- lump_ok _ => first [exact I | split]
  end.


(** ** The lists built by the operations *)

(** Every lump reachable from a pointer satisfies [P]. *)
Fixpoint all_lumps (P : lump_data → Prop) (l : lumps) : Prop :=
  match l with
  | LNull => True
  | Lump d b a n => P d ∧ all_lumps P b ∧ all_lumps P a ∧ all_lumps P n
  end.

(** The invariant of a lump list of a message: anchors and deletions sorted by offset
    from [lo] on, anchored before [mx] and ending at [hi], with readable insertions. *)
Fixpoint main_ok (lo hi mx : Z) (l : lumps) : Prop :=
  match l with
  | LNull => True
  | Lump d b a n =>
      (l_op d = LUMP_NOP ∨ l_op d = LUMP_DEL) ∧
      (∃ o, l_u d = u_offset o ∧ lo <= o ∧ o <= hi ∧ o < mx ∧
        (l_op d = LUMP_DEL → 0 <= l_len d ∧ o + l_len d <= hi)) ∧
      all_lumps lump_ok b ∧ all_lumps lump_ok a ∧
      main_ok (lump_offset d) hi mx n
  end.

Lemma all_lumps_chain P dir l : all_lumps P l → chain_forall P dir l.
Proof.
  induction l as [|d b IHb a IHa n IHn]; [done|]. intros (? & ? & ? & ?).
  split; [done|]. destruct dir; auto.
Qed.

Lemma main_ok_lumps lo hi mx l : main_ok lo hi mx l → lumps_ok lo hi l ∧ below mx l.
Proof.
  revert lo. induction l as [|d b _ a _ n IH]; intros lo; [done|].
  intros (Hop & (o & Hu & ? & ? & ? & ?) & Hb & Ha & Hn). destruct (IH _ Hn) as [? ?].
  repeat split; auto using all_lumps_chain.
  - exists o. auto.
  - unfold lump_offset. by rewrite Hu.
Qed.

Lemma main_ok_lower lo lo' hi mx l : lo' <= lo → main_ok lo hi mx l → main_ok lo' hi mx l.
Proof.
  intros Hle. destruct l as [|d b a n]; [done|].
  intros (Hop & (o & Hu & ? & ?) & ?). split; [done|]. split; [|done].
  exists o. split; [done|]. split; [lia|done].
Qed.

(** A sorted insertion keeps the list sorted. *)
Lemma insert_sorted_ok lo hi mx d o l : main_ok lo hi mx l →
  (l_op d = LUMP_NOP ∨ l_op d = LUMP_DEL) → l_u d = u_offset o →
  lo <= o → o <= hi → o < mx → (l_op d = LUMP_DEL → 0 <= l_len d ∧ o + l_len d <= hi) →
  main_ok lo hi mx (insert_sorted d o l).1.
Proof.
  intros Hok Hop Hu Hlo Hhi Hmx Hdel. revert lo Hok Hlo.
  assert (lump_offset d = o) as Hoff by (unfold lump_offset; by rewrite Hu).
  induction l as [|td b _ a _ n IH]; intros lo Hok Hlo.
  { cbn. repeat split; auto. exists o. auto. }
  destruct Hok as (Htop & (to & Htu & Hto & Hr) & Hb & Ha & Hn).
  assert (lump_offset td = to) as Htoff by (unfold lump_offset; by rewrite Htu).
  cbn [insert_sorted]. rewrite Htoff. rewrite Htoff in Hn.
  assert (bool_decide (l_op td = LUMP_DEL) || bool_decide (l_op td = LUMP_NOP) = true) as ->
    by (destruct Htop as [-> | ->]; reflexivity).
  destruct (Z.ltb_spec o to); cbn [andb].
  - cbn [fst main_ok]. rewrite Hoff, Htoff.
    refine (conj Hop (conj _ (conj I (conj I (conj Htop (conj _ (conj Hb (conj Ha Hn)))))))).
    + exists o. auto.
    + exists to. split; [done|]. split; [lia|done].
  - specialize (IH to Hn ltac:(lia)). destruct (insert_sorted d o n) as [n' path].
    cbn [fst main_ok] in *. rewrite Htoff.
    refine (conj Htop (conj _ (conj Hb (conj Ha IH)))). exists to. auto.
Qed.

(** The lump at the end of a path. *)
Fixpoint lookup_path (path : list lump_dir) (l : lumps) : lumps :=
  match path with
  | [] => l
  | dir :: path' => lookup_path path' (follow dir l)
  end.

(** The path returned for a new anchor or deletion leads to it. *)
Lemma insert_sorted_path d o l :
  ∃ n, lookup_path (insert_sorted d o l).2 (insert_sorted d o l).1 = Lump d LNull LNull n.
Proof.
  induction l as [|td b _ a _ n IH]; [by exists LNull|]. cbn [insert_sorted].
  destruct (_ && _); [by eexists|]. by destruct (insert_sorted d o n).
Qed.

(** Inserting text at a lump, wherever it is, keeps the invariant. *)
Definition link_op (f : lumps → option lumps) (l : lumps) : lumps := default l (f l).

Inductive insert_op (flags : Z) : (lumps → option lumps) → Prop :=
  | op_new_after ok v len type : 0 <= len <= zlen v.2 →
      insert_op flags (λ l, insert_new_lump_after flags ok l v len type)
  | op_new_before ok v len type : 0 <= len <= zlen v.2 →
      insert_op flags (λ l, insert_new_lump_before flags ok l v len type)
  | op_subst_after ok s type : insert_op flags (λ l, insert_subst_lump_after flags ok l s type)
  | op_subst_before ok s type : insert_op flags (λ l, insert_subst_lump_before flags ok l s type)
  | op_cond_after ok c type : insert_op flags (λ l, insert_cond_lump_after flags ok l c type)
  | op_cond_before ok c type : insert_op flags (λ l, insert_cond_lump_before flags ok l c type)
  | op_skip_after ok : insert_op flags (insert_skip_lump_after flags ok)
  | op_skip_before ok : insert_op flags (insert_skip_lump_before flags ok).

(** Every insertion links one readable lump to the chain of a lump. *)
Lemma insert_op_link flags f : insert_op flags f →
  ∃ ok d, lump_ok d ∧ (f = link_after ok d ∨ f = link_before ok d).
Proof. intros []; do 2 eexists; (split; [|first [by left|by right]]); done. Qed.

Lemma link_op_all flags f l : insert_op flags f → all_lumps lump_ok l → all_lumps lump_ok (link_op f l).
Proof.
  intros (ok & d & Hd & Hf)%insert_op_link Hl. destruct l as [|ld b a n]; [by destruct Hf as [-> | ->]|].
  destruct Hl as (? & ? & ? & ?). by destruct Hf as [-> | ->], ok; cbn; split_and!.
Qed.

Lemma lump_at_all flags f path l : insert_op flags f → all_lumps lump_ok l →
  all_lumps lump_ok (lump_at path (link_op f) l).
Proof.
  intros Hf. revert l. induction path as [|dir path IH]; intros l Hl; [by eapply link_op_all|].
  destruct l as [|d b a n]; [done|]. destruct Hl as (? & ? & ? & ?).
  destruct dir; cbn; auto.
Qed.

Lemma lump_at_main flags f path lo hi mx l : insert_op flags f → main_ok lo hi mx l →
  main_ok lo hi mx (lump_at path (link_op f) l).
Proof.
  intros Hf. revert lo l. induction path as [|dir path IH]; intros lo l Hl.
  - apply insert_op_link in Hf as (ok & d & Hd & Hf).
    destruct l as [|ld b a n]; [by destruct Hf as [-> | ->]|].
    destruct Hl as (? & ? & ? & ? & ?). by destruct Hf as [-> | ->], ok; cbn; split_and!.
  - destruct l as [|d b a n]; [done|]. destruct Hl as (? & ? & ? & ? & ?).
    destruct dir; cbn; split_and!; eauto using lump_at_all.
Qed.

(** ** Sequences of operations *)

(** The end of the headers; the whole message while it was not reached. *)
Definition hdr_end (m : lump_msg) : Z := match m_eoh m with Some e => e | None => m_len m end.

(** One operation of a module on the lumps of a message.  What a module has to respect: a header lump
    starts after the first line ([lo]), a deletion lies in the message and one in the headers ends
    in them, a body lump starts before [bend], and the length of an inserted text is that of its
    buffer or less.  [append_new_lump] and [insert_new_lump], which put a text in the main list
    itself, are not among the operations: no code of the server calls them. *)
Inductive lump_step (flags lo bend : Z) : lump_msg → lump_msg → Prop :=
  | step_del ok m offset len type m' r :
      del_lump flags ok m offset len type = Some (m', r) →
      lo <= offset → 0 <= len → offset + len < 2 ^ 32 → offset + len <= m_len m →
      (offset <= hdr_end m → offset + len <= hdr_end m) →
      (hdr_end m < offset → offset < bend) →
      lump_step flags lo bend m m'
  | step_anchor ok m offset type m' r :
      anchor_lump flags ok m offset type = Some (m', r) →
      lo <= offset → (hdr_end m < offset → offset < bend) →
      lump_step flags lo bend m m'
  | step_insert_hdr m f path :
      insert_op flags f →
      lump_step flags lo bend m (mk_lump_msg (m_buf m) (m_len m) (m_eoh m)
        (lump_at path (link_op f) (m_add_rm m)) (m_body_lumps m))
  | step_insert_body m f path :
      insert_op flags f →
      lump_step flags lo bend m (mk_lump_msg (m_buf m) (m_len m) (m_eoh m)
        (m_add_rm m) (lump_at path (link_op f) (m_body_lumps m))).

(** The invariant of a message. *)
Definition msg_ok (lo bend : Z) (m : lump_msg) : Prop :=
  m_len m = zlen (m_buf m) ∧ 0 <= lo <= hdr_end m ∧ hdr_end m <= m_len m ∧
  main_ok lo (hdr_end m) (2 ^ 32 - 1) (m_add_rm m) ∧
  main_ok (hdr_end m) (m_len m) bend (m_body_lumps m).

Lemma is_body_offset_hdr m o : o <= m_len m → is_body_offset m o = (hdr_end m <? o).
Proof. intros. unfold is_body_offset, hdr_end. destruct (m_eoh m); [done|]. symmetry. apply Z.ltb_ge. lia. Qed.

Lemma insert_lump_ok lo bend m d o : msg_ok lo bend m → m_len m < 2 ^ 32 - 1 →
  (l_op d = LUMP_NOP ∨ l_op d = LUMP_DEL) → l_u d = u_offset o → lo <= o → o <= m_len m →
  (l_op d = LUMP_DEL → 0 <= l_len d ∧ o + l_len d <= m_len m ∧
    (o <= hdr_end m → o + l_len d <= hdr_end m)) →
  (hdr_end m < o → o < bend) →
  msg_ok lo bend (insert_lump m d o).1.
Proof.
  intros (Hl & Hlo & He & Hh & Hb) Hlen Hop Hu Hlo' Hol Hdel Hbody. unfold insert_lump.
  rewrite is_body_offset_hdr by done. destruct (Z.ltb_spec (hdr_end m) o).
  - pose proof (insert_sorted_ok (hdr_end m) (m_len m) bend d o (m_body_lumps m) Hb Hop Hu) as H1.
    destruct (insert_sorted d o (m_body_lumps m)).
    refine (conj Hl (conj Hlo (conj He (conj Hh (H1 _ _ _ _))))); try lia.
    intros Hd. specialize (Hdel Hd). lia.
  - pose proof (insert_sorted_ok lo (hdr_end m) (2 ^ 32 - 1) d o (m_add_rm m) Hh Hop Hu) as H1.
    destruct (insert_sorted d o (m_add_rm m)).
    refine (conj Hl (conj Hlo (conj He (conj (H1 _ _ _ _) Hb)))); try lia.
    intros Hd. specialize (Hdel Hd). lia.
Qed.

Lemma lump_step_ok flags lo bend m m' : lump_step flags lo bend m m' → msg_ok lo bend m → m_len m < 2 ^ 32 - 1 →
  msg_ok lo bend m' ∧ m_buf m' = m_buf m ∧ m_eoh m' = m_eoh m ∧ m_len m' = m_len m.
Proof.
  assert (∀ d o, (insert_lump m d o).1 = m' → m_buf m' = m_buf m ∧ m_eoh m' = m_eoh m ∧ m_len m' = m_len m)
    as Hsame by (intros d o <-; unfold insert_lump; by repeat case_match).
  intros Hst Hok Hlen.
  destruct Hst as [ok m offset len type m' r Hd|ok m offset type m' r Hd|m f path Hf|m f path Hf].
  - unfold del_lump in Hd. destruct (_ <? offset) eqn:E1; [done|].
    destruct (_ <? u32 _); [done|]. destruct ok; [|by simplify_eq].
    pose proof (insert_lump_ok lo bend m (mk_lump type LUMP_DEL (u_offset offset) len flags) offset Hok Hlen) as Hi.
    pose proof (Hsame (mk_lump type LUMP_DEL (u_offset offset) len flags) offset) as Hs.
    destruct (insert_lump m _ offset) as [m1 p]. simplify_eq. zbool.
    split; [apply Hi; auto; lia|by apply Hs].
  - unfold anchor_lump in Hd. destruct (_ <? offset) eqn:E1; [done|]. destruct ok; [|by simplify_eq].
    pose proof (insert_lump_ok lo bend m (mk_lump type LUMP_NOP (u_offset offset) 0 flags) offset Hok Hlen) as Hi.
    pose proof (Hsame (mk_lump type LUMP_NOP (u_offset offset) 0 flags) offset) as Hs.
    destruct (insert_lump m _ offset) as [m1 p]. simplify_eq. zbool.
    split; [apply Hi; auto; try lia; done|by apply Hs].
  - destruct Hok as (H1 & H2 & H3 & H4 & H5). split; [|done].
    refine (conj H1 (conj H2 (conj H3 (conj _ H5)))). by eapply lump_at_main.
  - destruct Hok as (H1 & H2 & H3 & H4 & H5). split; [|done].
    refine (conj H1 (conj H2 (conj H3 (conj H4 _)))). by eapply lump_at_main.
Qed.

(** C31. Whatever sequence of lump operations is performed on a message, its two lists stay
    sorted by offset, inside of their part of the message and without a chain that reads
    outside of a buffer.  The operations are deletions, anchors and the insertions at a lump,
    anywhere in the message after its first line, deletions in the headers ending in them and
    inserted texts not longer than their buffer.  The lumps of the body are as far as the
    operations put them: when none is anchored at the very end of the message (as some
    modules do), these are the hypotheses under which the message is rebuilt without
    aborting. *)
Theorem lump_ops_invariant flags lo bend buf eoh m' :
  zlen buf < 2 ^ 32 - 1 → 0 <= lo → (match eoh with Some x => lo <= x <= zlen buf | None => lo <= zlen buf end) →
  rtc (lump_step flags lo bend) (mk_lump_msg buf (zlen buf) eoh LNull LNull) m' →
  m_buf m' = buf ∧
  let e := match eoh with Some x => x | None => zlen buf end in
  lumps_ok lo e (m_add_rm m') ∧ lumps_ok e (zlen buf) (m_body_lumps m') ∧
  below bend (m_body_lumps m').
Proof.
  intros Hbuf Hlo He Hrtc.
  set (m := mk_lump_msg buf (zlen buf) eoh LNull LNull) in *.
  assert (msg_ok lo bend m) as Hok.
  { unfold msg_ok, hdr_end. cbn. destruct eoh; split_and!; try done; lia. }
  assert (msg_ok lo bend m' ∧ m_buf m' = buf ∧ m_eoh m' = eoh ∧ m_len m' = zlen buf) as (Hok' & Hb & Hh & Hl).
  { assert (m_buf m = buf ∧ m_eoh m = eoh ∧ m_len m = zlen buf) as (? & ? & ?) by done.
    clearbody m. induction Hrtc as [m|m m1 m2 Hst _ IH]; [done|].
    destruct (lump_step_ok _ _ _ _ _ Hst Hok) as (? & ? & ? & ?); [lia|]. apply IH; congruence. }
  split; [done|]. destruct Hok' as (_ & _ & _ & Hhdr & Hbody).
  unfold hdr_end in *. rewrite Hh, Hl in *.
  apply main_ok_lumps in Hhdr as [? _]. apply main_ok_lumps in Hbody as [? ?]. done.
Qed.

(** The lists of a message after an anchor, a deletion before it and two insertions. *)
Lemma lump_ops_invariant_witness :
  ∃ m', rtc (lump_step 0 15 70) (mk_lump_msg demo_text 70 (Some 66) LNull LNull) m' ∧
    lumps_ok 15 66 (m_add_rm m') ∧ edits_of demo_env (Some demo_sock) (m_add_rm m') =
      [mk_edit 24 0 (bs "Via: 10.0.0.1|"); mk_edit 43 6 []].
Proof.
  set (m0 := mk_lump_msg demo_text 70 (Some 66) LNull LNull).
  set (m1 := (default (m0, None) (del_lump 0 true m0 43 6 3)).1).
  set (m2 := (default (m1, None) (anchor_lump 0 true m1 24 1)).1).
  set (f := λ v l, insert_new_lump_before 0 true l (1000, v) (zlen v) 1).
  set (m3 := mk_lump_msg (m_buf m2) (m_len m2) (m_eoh m2)
    (lump_at [] (link_op (f (bs "10.0.0.1|"))) (m_add_rm m2)) (m_body_lumps m2)).
  set (m4 := mk_lump_msg (m_buf m3) (m_len m3) (m_eoh m3)
    (lump_at [] (link_op (f (bs "Via: "))) (m_add_rm m3)) (m_body_lumps m3)).
  assert (rtc (lump_step 0 15 70) m0 m4) as Hrtc.
  { eapply (rtc_l _ m0 m1).
    { eapply (step_del 0 15 70 true m0 43 6 3); [reflexivity|..]; vm_compute; intros; discriminate || done. }
    eapply (rtc_l _ m1 m2).
    { eapply (step_anchor 0 15 70 true m1 24 1); [reflexivity|..]; vm_compute; intros; discriminate || done. }
    eapply (rtc_l _ m2 m3).
    { apply step_insert_hdr. apply op_new_before. vm_compute. split; discriminate. }
    eapply (rtc_l _ m3 m4); [|reflexivity].
    apply step_insert_hdr. apply op_new_before. vm_compute. split; discriminate. }
  exists m4. split; [exact Hrtc|].
  destruct (lump_ops_invariant 0 15 70 demo_text (Some 66) m4) as (_ & H & _);
    [by vm_compute|lia|vm_compute; split; discriminate|exact Hrtc|].
  split; [exact H|]. vm_compute. reflexivity.
Defined.

(** ** Where the two passes disagree *)

(** The advertised address set and then cleared by the script. *)
Definition set_then_clear (e : lump_env) (v : bytes) : lump_env :=
  (w_set_adv_address true (w_set_adv_address true e v).1 []).1.

Lemma set_then_clear_env e v : e_set_global_address e = mk_gstr None 0 → v ≠ [] →
  e_set_global_address (set_then_clear e v) = mk_gstr (Some v) 0 ∧
  e_default_global_address (set_then_clear e v) = e_default_global_address e ∧
  e_buf (set_then_clear e v) = e_buf e.
Proof.
  intros Hg Hv. unfold set_then_clear, w_set_adv_address.
  assert (set_adv_str true (mk_gstr None 0) v = (mk_gstr (Some v) (zlen v), true)) as E1.
  { unfold set_adv_str. cbn [g_len g_s default]. rewrite take_nil, andb_false_r.
    assert (0 <? Z.of_nat (length v) = true) as -> by (by destruct v).
    cbn [fmap option_fmap option_map]. unfold overwrite. by rewrite drop_nil, app_nil_r. }
  assert (set_adv_str true (mk_gstr (Some v) (zlen v)) [] = (mk_gstr (Some v) 0, true)) as E2.
  { unfold set_adv_str. cbn [g_len g_s length]. change (Z.of_nat 0) with 0.
    rewrite (proj2 (Z.ltb_ge _ _)) by (pose proof (zlen_nonneg v); lia). done. }
  rewrite Hg, E1. cbn [e_set_global_address fst]. rewrite E2. done.
Qed.

(** After the script has set an advertised address and then set it to the empty string, the length pass
    still uses the string set (of length 0) while the writer falls back to the address of the socket: a message
    with a lump that substitutes the sending address is written past the length of its buffer
    and the server aborts. *)
Theorem adv_address_cleared_aborts e s v buf type flags :
  e_set_global_address e = mk_gstr None 0 → v ≠ [] →
  so_adv_name_str s = [] → e_default_global_address e = mk_gstr None 0 →
  e_buf e = buf → zlen buf + zlen (so_address_str s) < 2 ^ 32 → so_address_str s ≠ [] →
  build_msg (set_then_clear e v) (Some s)
    (Lump (mk_lump type LUMP_NOP (u_offset 0) 0 flags)
       (Lump (mk_lump type LUMP_ADD_SUBST (u_subst SUBST_SND_IP) 0 flags) LNull LNull LNull)
       LNull LNull)
    LNull None 0 0 (zlen buf) 0 =
  LenMismatch (so_address_str s ++ buf) (zlen buf).
Proof.
  intros Hg Hv Hadv Hdef Hbuf Hlen Haddr.
  destruct (set_then_clear_env e v Hg Hv) as (Hg2 & Hd2 & Hb2).
  set (e2 := set_then_clear e v) in *. clearbody e2. rewrite Hdef in Hd2. rewrite Hbuf in Hb2.
  set (l := Lump _ _ _ _).
  assert (lump_subst_len e2 (Some s) (mk_lump type LUMP_ADD_SUBST (u_subst SUBST_SND_IP) 0 flags) = 0) as S1.
  { unfold lump_subst_len, subst_lump_len, send_address_str, send_select. cbn.
    by rewrite Hadv, Hg2. }
  assert (lump_bytes e2 (Some s) (mk_lump type LUMP_ADD_SUBST (u_subst SUBST_SND_IP) 0 flags) =
    Some (so_address_str s)) as S2.
  { unfold lump_bytes, subst_lump, send_address_str, send_select. cbn [l_op l_u].
    rewrite Hadv, Hg2, Hd2. cbn [g_len g_s global_by_len Z.eqb negb sel_str].
    unfold read_str, str_of. cbn [g_s g_len].
    destruct (read_buf_ok (so_address_str s) (zlen (so_address_str s))) as [-> _].
    - pose proof (zlen_nonneg (so_address_str s)). lia.
    - unfold zlen. by rewrite Nat2Z.id, firstn_all. }
  assert (lumps_len e2 (Some s) l (-1) = (0, l)) as L.
  { unfold lumps_len, l. cbn [lumps_len_loop]. unfold chain_len. cbn [walk_chain follow l_op walk_one].
    unfold walk_one, emit_len. cbn [l_op]. rewrite S1. reflexivity. }
  assert (process_lumps e2 (Some s) l [] 0 (-1) = (Some (so_address_str s, 0), l)) as P.
  { unfold process_lumps, l. cbn [process_loop l_op]. unfold process_lump, process_nop_del, chain_bytes.
    cbn [walk_chain follow l_op walk_one]. unfold walk_one, emit_bytes. cbn [l_op].
    rewrite S2. reflexivity. }
  unfold build_msg. rewrite L. unfold apply_msg_changes. rewrite P.
  change (process_lumps e2 (Some s) LNull (so_address_str s) 0 (zlen buf)) with
    (Some (so_address_str s, 0), LNull). cbv iota beta.
  assert (copy_orig e2 0 (zlen buf - 0) (Some (so_address_str s)) = Some (so_address_str s ++ buf)) as ->.
  { unfold copy_orig. cbn [mbind option_bind]. rewrite Hb2, Z.add_0_l, Z.sub_0_r.
    rewrite (proj2 (Z.leb_le _ _)) by lia. unfold zlen. by rewrite Nat2Z.id, drop_0, firstn_all. }
  cbn [fst]. pose proof (zlen_nonneg buf) as H0.
  assert (0 < zlen (so_address_str s)) as H1
    by (destruct (so_address_str s); [done|unfold zlen; cbn [length]; lia]).
  rewrite !Z.add_0_r, zlen_app, !wrap_small by lia.
  by rewrite (proj2 (Z.eqb_neq _ _)) by lia.
Qed.

Lemma adv_address_cleared_aborts_witness :
  build_msg (set_then_clear demo_env (bs "1.2.3.4")) (Some demo_sock)
    (Lump (mk_lump 1 LUMP_NOP (u_offset 0) 0 0)
       (Lump (mk_lump 1 LUMP_ADD_SUBST (u_subst SUBST_SND_IP) 0 0) LNull LNull LNull)
       LNull LNull)
    LNull None 0 0 70 0 = LenMismatch (bs "10.0.0.1" ++ demo_text) 70.
Proof.
  apply (adv_address_cleared_aborts demo_env demo_sock (bs "1.2.3.4") demo_text 1 0);
    first [reflexivity | discriminate | vm_compute; reflexivity].
Defined.
