(* ===== verification/LumpDup.v ===== *)
(** * LumpDup: copies of lump lists and deletion by flags

    [dup_lump_list] copies only the chains the writer follows; the copy describes the same edits.
    [del_flaged_lumps] and [del_notflaged_lumps] keep exactly the lumps their flags select. *)

From stdpp Require Import prelude list strings.
From Stdlib Require Import ZArith Lia.
From S2P Require Import Prelude Lumps LumpApply LumpFacts LumpSpec.

(** ** Chains of related lumps *)

(** A copy of a lump: the value is in another buffer, cut to its length. *)
Definition copy_of (d d' : lump_data) : Prop :=
  l_op d' = l_op d ∧ l_len d' = l_len d ∧
  match l_op d, l_u d, l_u d' with
  | LUMP_ADD, u_value _ v, u_value _ v' => v' = take (Z.to_nat (l_len d)) v
  | LUMP_ADD, u, u' => u = u'
  | _, u, u' => u = u'
  end.

Fixpoint chain_copy (dir : lump_dir) (r r' : lumps) : Prop :=
  match r, r' with
  | LNull, LNull => True
  | Lump d b a n, Lump d' b' a' n' =>
      copy_of d d' ∧
      chain_copy dir (match dir with LD_NEXT => n | LD_BEFORE => b | LD_AFTER => a end)
        (match dir with LD_NEXT => n' | LD_BEFORE => b' | LD_AFTER => a' end)
  | _, _ => False
  end.

Section copy.
Variable e : lump_env.
Variable so : option socket_info.

Lemma check_opt_copy d d' : l_op d = LUMP_ADD_OPT → copy_of d d' →
  (lump_check_opt e so d').1 = (lump_check_opt e so d).1.
Proof.
  intros Hop (Hop' & _ & Hu). rewrite Hop in Hu.
  assert (l_u d' = l_u d) as E by (by destruct (l_u d), (l_u d')).
  unfold lump_check_opt. rewrite E. destruct (l_u d) as [| |c|]; try done.
  destruct c, so; try done; destruct (match e_bind_address e with Some b => _ | None => _ end) as [[? ?] ?];
    by destruct (cond_fails _ _ _ _ _).
Qed.

Lemma emit_bytes_copy d d' x : lump_ok d → copy_of d d' → emit_bytes e so d' x = emit_bytes e so d x.
Proof.
  intros Hok (Hop & Hl & Hu). unfold emit_bytes, lump_bytes, lump_ok in *. rewrite Hop.
  destruct x as [x|]; [|done]. cbn [mbind option_bind].
  destruct (l_op d), (l_u d), (l_u d'); simplify_eq; try done.
  destruct (read_buf_ok value (l_len d) Hok) as [-> Hz]. rewrite Hl.
  destruct (read_buf_ok (take (Z.to_nat (l_len d)) value) (l_len d)) as [-> _]; [lia|].
  cbn. by rewrite take_take, Nat.min_id.
Qed.

Lemma walk_one_copy d d' x : lump_ok d → copy_of d d' →
  (walk_one (lump_check_opt e so) (emit_bytes e so) d' x).1.1 =
    (walk_one (lump_check_opt e so) (emit_bytes e so) d x).1.1 ∧
  (walk_one (lump_check_opt e so) (emit_bytes e so) d' x).2 =
    (walk_one (lump_check_opt e so) (emit_bytes e so) d x).2.
Proof.
  intros Hok Hc. pose proof Hc as (Hop & _). unfold walk_one. rewrite Hop.
  destruct (l_op d) eqn:E; cbn; rewrite ?(emit_bytes_copy d d') by done; try done.
  pose proof (check_opt_copy d d' E Hc) as H.
  destruct (lump_check_opt e so d), (lump_check_opt e so d'). done.
Qed.

(** The pointer a chain goes on through. *)
Abbreviation go dir b a n := (match dir with LD_NEXT => n | LD_BEFORE => b | LD_AFTER => a end) (only parsing).

Lemma walk_last_copy dir r : ∀ r' x, chain_forall lump_ok dir r → chain_copy dir r r' →
  (walk_last (lump_check_opt e so) (emit_bytes e so) dir r' x).1 =
  (walk_last (lump_check_opt e so) (emit_bytes e so) dir r x).1.
Proof.
  induction r as [|d b IHb a IHa n IHn]; intros [|d' b' a' n'] x Hok Hc; try done.
  destruct Hok as [Hd Hok], Hc as [Hcd Hc].
  destruct (walk_one_copy d d' x Hd Hcd) as [H1 _].
  assert (∀ x, (walk_last (lump_check_opt e so) (emit_bytes e so) dir (go dir b' a' n') x).1 =
    (walk_last (lump_check_opt e so) (emit_bytes e so) dir (go dir b a n) x).1) as IH
    by (intros; destruct dir; auto).
  assert (∀ d b a n, (walk_last (lump_check_opt e so) (emit_bytes e so) dir (Lump d b a n) x).1 =
    match go dir b a n with
    | LNull => (walk_one (lump_check_opt e so) (emit_bytes e so) d x).1.1
    | _ => (walk_last (lump_check_opt e so) (emit_bytes e so) dir (go dir b a n) x).1
    end) as Hw.
  { intros d0 b0 a0 n0. destruct dir; cbn [walk_last];
      [destruct n0|destruct b0|destruct a0]; by repeat case_match. }
  rewrite !Hw. destruct (go dir b a n) eqn:E1, (go dir b' a' n') eqn:E2; try done.
Qed.

Lemma walk_chain_copy dir r : ∀ r' x, chain_forall lump_ok dir r → chain_copy dir r r' →
  (walk_chain (lump_check_opt e so) (emit_bytes e so) dir r' x).1 =
  (walk_chain (lump_check_opt e so) (emit_bytes e so) dir r x).1.
Proof.
  induction r as [|d b IHb a IHa n IHn]; intros [|d' b' a' n'] x Hok Hc; try done.
  destruct Hok as [Hd Hok], Hc as [Hcd Hc].
  destruct (walk_one_copy d d' x Hd Hcd) as [H1 H2]. pose proof Hcd as (Hop & _).
  assert (∀ x, (walk_chain (lump_check_opt e so) (emit_bytes e so) dir (go dir b' a' n') x).1 =
    (walk_chain (lump_check_opt e so) (emit_bytes e so) dir (go dir b a n) x).1) as IH
    by (intros; destruct dir; auto).
  pose proof (walk_last_copy dir _ _ x Hok Hc) as Hlast.
  assert (follow dir (go dir b a n) = LNull ↔ follow dir (go dir b' a' n') = LNull) as Hf.
  { clear -Hc. destruct (go dir b a n) as [|? b1 a1 n1], (go dir b' a' n') as [|? b2 a2 n2]; try done.
    destruct Hc as [_ Hc]. destruct dir; cbn in *;
      [destruct n1, n2|destruct b1, b2|destruct a1, a2]; done. }
  assert (∀ d b a n, (walk_chain (lump_check_opt e so) (emit_bytes e so) dir (Lump d b a n) x).1 =
    match l_op d, follow dir (go dir b a n) with
    | LUMP_SKIP, Lump _ _ _ _ => (walk_last (lump_check_opt e so) (emit_bytes e so) dir (go dir b a n) x).1
    | _, _ =>
        let '(st, _, c) := walk_one (lump_check_opt e so) (emit_bytes e so) d x in
        if c then (walk_chain (lump_check_opt e so) (emit_bytes e so) dir (go dir b a n) st).1 else st
    end) as Hw.
  { intros d0 b0 a0 n0. cbn [walk_chain].
    destruct (walk_one _ _ d0 x) as [[st1 d1] c1]; destruct (l_op d0), (follow dir (go dir b0 a0 n0)), c1;
      by repeat case_match. }
  rewrite !Hw, Hop.
  destruct (walk_one _ _ d x) as [[st1 d1] c1], (walk_one _ _ d' x) as [[st2 d2] c2].
  cbn [fst snd] in H1, H2. subst st2 c2.
  destruct (l_op d); try (destruct c1; [apply IH|done]).
  destruct (follow dir (go dir b a n)), (follow dir (go dir b' a' n')); try done;
    try (destruct c1; [apply IH|done]); exfalso; naive_solver.
Qed.

Lemma chain_text_copy dir r r' : chain_forall lump_ok dir r → chain_copy dir r r' →
  chain_text e so dir r' = chain_text e so dir r.
Proof. intros. unfold chain_text, chain_bytes. by rewrite (walk_chain_copy dir r r'). Qed.

(** ** The copy *)

Variable flags : Z.

Fixpoint lumps_size (l : lumps) : nat :=
  match l with
  | LNull => 0
  | Lump _ b a n => S (lumps_size b + lumps_size a + lumps_size n)
  end.

(** Allocations that succeed, enough for [n] lumps. *)
Definition mem_for (n : nat) (allocs : list (option Z)) : Prop :=
  Forall is_Some allocs ∧ (2 * n ≤ length allocs)%nat.

Lemma pkg_malloc_ok n allocs : Forall is_Some allocs → (S n ≤ length allocs)%nat →
  ∃ p rest, pkg_malloc allocs = (Some p, rest) ∧ Forall is_Some rest ∧ (n ≤ length rest)%nat.
Proof.
  intros Hall Hlen. destruct allocs as [|a rest]; cbn in Hlen; [lia|].
  apply Forall_cons in Hall as [[p ->] ?]. exists p, rest. repeat split; [done|lia].
Qed.

Lemma dup_data_ok n d allocs : Forall is_Some allocs → (S n ≤ length allocs)%nat →
  ∃ d' rest, dup_data flags d allocs = (Some d', rest) ∧ copy_of d d' ∧
    Forall is_Some rest ∧ (n ≤ length rest)%nat.
Proof.
  intros Hall Hlen. unfold dup_data, copy_of.
  destruct (pkg_malloc_ok n allocs Hall Hlen) as (p & rest & -> & ? & ?).
  destruct (l_op d) eqn:Hop, (l_u d) eqn:Hu; cbn; do 2 eexists;
    (split; [reflexivity|]); cbn; rewrite ?Hop, ?Hu; repeat split; try done; lia.
Qed.

Lemma dup_lump_list_r_chain dir r : ∀ n allocs, dir ≠ LD_NEXT → mem_for (lumps_size r + n) allocs →
  ∃ r' rest, dup_lump_list_r flags r dir allocs = (DupOk r', rest) ∧ chain_copy dir r r' ∧
    mem_for n rest.
Proof.
  induction r as [|d b IHb a IHa t IHt]; intros n allocs Hdir [Hall Hlen].
  { exists LNull, allocs. repeat split; [done|cbn in Hlen; lia]. }
  cbn [lumps_size] in Hlen. cbn [dup_lump_list_r].
  destruct (pkg_malloc_ok (2 * (lumps_size b + lumps_size a + n) + 1) allocs Hall ltac:(lia))
    as (p & al1 & -> & Hall1 & Hlen1).
  destruct (dup_data_ok (2 * (lumps_size b + lumps_size a + n)) d al1 Hall1 ltac:(lia))
    as (d' & al2 & -> & Hd & Hall2 & Hlen2).
  destruct dir; [done|..].
  - destruct (IHb n al2) as (b' & rest & -> & ? & ?); [done|split; [done|lia]|].
    do 2 eexists. split; [reflexivity|]. repeat split; try done; apply H0 || apply Hd.
  - destruct (IHa n al2) as (a' & rest & -> & ? & ?); [done|split; [done|lia]|].
    do 2 eexists. split; [reflexivity|]. repeat split; try done; apply H0 || apply Hd.
Qed.

(** A main list whose lumps have the same chains. *)
Fixpoint main_copy (l l' : lumps) : Prop :=
  match l, l' with
  | LNull, LNull => True
  | Lump d b a n, Lump d' b' a' n' =>
      copy_of d d' ∧ chain_copy LD_BEFORE b b' ∧ chain_copy LD_AFTER a a' ∧ main_copy n n'
  | _, _ => False
  end.

Lemma dup_lump_list_r_main l : ∀ n allocs, mem_for (lumps_size l + n) allocs →
  ∃ l' rest, dup_lump_list_r flags l LD_NEXT allocs = (DupOk l', rest) ∧ main_copy l l' ∧ mem_for n rest.
Proof.
  induction l as [|d b _ a _ t IH]; intros n allocs [Hall Hlen].
  { exists LNull, allocs. repeat split; [done|cbn in Hlen; lia]. }
  cbn [lumps_size] in Hlen. cbn [dup_lump_list_r].
  set (sz := (lumps_size b + (lumps_size a + (lumps_size t + n)))%nat).
  destruct (pkg_malloc_ok (2 * sz + 1) allocs Hall ltac:(lia)) as (p & al1 & -> & Hall1 & Hlen1).
  destruct (dup_data_ok (2 * sz) d al1 Hall1 ltac:(lia)) as (d' & al2 & -> & Hd & Hall2 & Hlen2).
  destruct (dup_lump_list_r_chain LD_BEFORE b (lumps_size a + (lumps_size t + n)) al2)
    as (b' & al3 & -> & Hb & Hm3); [done|split; [done|lia]|]. cbn [dup_then].
  destruct (dup_lump_list_r_chain LD_AFTER a (lumps_size t + n) al3) as (a' & al4 & -> & Ha & Hm4);
    [done..|]. cbn [dup_then].
  destruct (IH n al4 Hm4) as (t' & rest & -> & Ht & Hm). cbn [dup_then].
  do 2 eexists. split; [reflexivity|]. done.
Qed.

Lemma main_copy_edits lo hi l : ∀ l', lumps_ok lo hi l → main_copy l l' →
  edits_of e so l' = edits_of e so l.
Proof.
  revert lo. induction l as [|d b _ a _ n IH]; intros lo [|d' b' a' n'] Hok Hc; try done.
  destruct Hok as (Hop & (o & Hu & _) & Hb & Ha & Hn), Hc as ((Hop' & Hl & Hu') & Hcb & Hca & Hcn).
  cbn [edits_of]. rewrite (IH _ _ Hn Hcn). f_equal. unfold lump_edit.
  rewrite (chain_text_copy LD_BEFORE b b'), (chain_text_copy LD_AFTER a a') by done.
  rewrite Hop', Hl. do 2 f_equal. unfold lump_offset.
  assert (l_u d' = l_u d) as -> by (rewrite Hu in *; by destruct Hop as [Ho|Ho]; rewrite Ho in *).
  done.
Qed.
End copy.

(** When the allocations succeed, the copy of a lump list made by [dup_lump_list] describes the same edits
    as the list, although the copy leaves out the pointers of chain lumps that no pass follows. *)
Theorem dup_lump_list_same e so flags lo hi l allocs :
  lumps_ok lo hi l → mem_for (lumps_size l) allocs →
  ∃ l', dup_lump_list flags l allocs = Some l' ∧ edits_of e so l' = edits_of e so l.
Proof.
  intros Hok Hmem. rewrite <- (Nat.add_0_r (lumps_size l)) in Hmem.
  destruct (dup_lump_list_r_main flags l 0 allocs Hmem) as (l' & rest & E & Hc & _).
  exists l'. unfold dup_lump_list. rewrite E. split; [done|]. by eapply main_copy_edits.
Qed.

Lemma dup_lump_list_same_witness :
  ∃ l', dup_lump_list 4 demo_hdr_lumps (replicate 12 (Some 2000)) = Some l' ∧
    edits_of demo_env (Some demo_sock) l' =
      [mk_edit 24 0 (bs "Via: 10.0.0.1:5062;transport=tcp|"); mk_edit 43 6 (bs "To: x|")].
Proof.
  refine (dup_lump_list_same demo_env (Some demo_sock) 4 15 67 demo_hdr_lumps (replicate 12 (Some 2000)) _ _).
  - lumps_ok_tac.
  - split; [|by vm_compute; lia]. apply Forall_replicate. by eexists.
Defined.

(** An allocation that fails makes the copy fail. *)
Lemma dup_lump_list_oom flags d b a n rest :
  dup_lump_list flags (Lump d b a n) (None :: rest) = Some LNull.
Proof. done. Qed.

(** ** Deletion by flags *)

(** A chain, and a main list with its chains, as sequences. *)
Fixpoint chain_list (dir : lump_dir) (r : lumps) : list lump_data :=
  match r with
  | LNull => []
  | Lump d b a n => d :: chain_list dir (match dir with LD_NEXT => n | LD_BEFORE => b | LD_AFTER => a end)
  end.
Fixpoint main_list (l : lumps) : list (lump_data * list lump_data * list lump_data) :=
  match l with
  | LNull => []
  | Lump d b a n => (d, chain_list LD_BEFORE b, chain_list LD_AFTER a) :: main_list n
  end.

Section delete.
Variable del : Z → bool.

Definition keeps (d : lump_data) : bool := negb (del (l_flags d)).
Definition filter_chains (x : lump_data * list lump_data * list lump_data) :=
  (x.1.1, List.filter keeps x.1.2, List.filter keeps x.2).

Lemma del_chain_list dir r r' : del_chain del dir r = Some r' →
  chain_list dir r' = List.filter keeps (chain_list dir r).
Proof.
  revert r'. induction r as [|d b IHb a IHa n IHn]; intros r' H; [by simplify_eq/=|].
  cbn [del_chain chain_list List.filter] in H |- *. unfold keeps at 1.
  destruct (del (l_flags d)); cbn [negb].
  - destruct (free_lump d) as [[]|]; [|done]. destruct dir; auto.
  - apply bind_Some in H as (rest' & E & H). simplify_eq.
    destruct dir; cbn [set_link chain_list]; f_equal; auto.
Qed.

Lemma del_lumps_list l l' : del_lumps del l = Some l' →
  main_list l' = filter_chains <$> List.filter (λ x, keeps x.1.1) (main_list l).
Proof.
  revert l'. induction l as [|d b _ a _ n IH]; intros l' H; [by simplify_eq/=|].
  cbn [del_lumps main_list List.filter] in *. unfold keeps at 1. cbn [fst].
  destruct (del (l_flags d)); cbn [negb].
  - destruct (free_lump_list _) as [[]|]; [|done]. by apply IH.
  - apply bind_Some in H as (a' & Ea & H). apply bind_Some in H as (b' & Eb & H).
    apply bind_Some in H as (n' & En & H). simplify_eq.
    cbn [main_list]. rewrite (IH n') by done. rewrite fmap_cons. f_equal. unfold filter_chains. cbn [fst snd].
    by rewrite (del_chain_list LD_BEFORE b b'), (del_chain_list LD_AFTER a a') by done.
Qed.

(** Lumps that are not in shared memory can be freed. *)
Definition private (d : lump_data) : Prop := Z.land (l_flags d) LUMPFLAG_SHMEM = 0.

Lemma free_lump_private d : private d → free_lump d = Some ().
Proof. intros H. unfold free_lump. rewrite H. by repeat case_match. Qed.

Lemma free_chain_private dir r : all_lumps private r → free_chain dir r = Some ().
Proof.
  induction r as [|d b IHb a IHa n IHn]; [done|]. intros (Hd & Hb & Ha & Hn). cbn.
  rewrite free_lump_private by done. destruct dir; auto.
Qed.

Lemma free_lump_list_private l : all_lumps private l → free_lump_list l = Some ().
Proof.
  induction l as [|d b _ a _ n IHn]; [done|]. intros (Hd & Hb & Ha & Hn). cbn.
  rewrite !free_chain_private, free_lump_private by done. auto.
Qed.

Lemma del_chain_total dir r : all_lumps private r → is_Some (del_chain del dir r).
Proof.
  induction r as [|d b IHb a IHa n IHn]; [by eexists|]. intros (Hd & Hb & Ha & Hn). cbn.
  rewrite free_lump_private by done.
  assert (is_Some (del_chain del dir (match dir with LD_NEXT => n | LD_BEFORE => b | LD_AFTER => a end)))
    as [x Hx] by (destruct dir; auto).
  rewrite Hx. destruct (del (l_flags d)); by eexists.
Qed.

Lemma del_lumps_total l : all_lumps private l → is_Some (del_lumps del l).
Proof.
  induction l as [|d b _ a _ n IHn]; [by eexists|]. intros (Hd & Hb & Ha & Hn). cbn [del_lumps].
  destruct (IHn Hn) as [n' ->].
  destruct (del_chain_total LD_BEFORE b Hb) as [b' ->], (del_chain_total LD_AFTER a Ha) as [a' ->].
  rewrite free_lump_list_private by done. destruct (del (l_flags d)); by eexists.
Qed.
End delete.

(** Lumps none of which is in shared memory: [del_flaged_lumps] returns, and keeps in order the main
    lumps without any of the flags, each with those of its chains without any of them. *)
Theorem del_flaged_lumps_filters l flags : all_lumps private l →
  let del f := negb (Z.land f flags =? 0) in
  ∃ l', del_flaged_lumps l flags = Some l' ∧
    main_list l' = filter_chains del <$> List.filter (λ x, keeps del x.1.1) (main_list l).
Proof.
  intros Hp del. destruct (del_lumps_total del l Hp) as [l' H].
  exists l'. split; [done|]. by apply del_lumps_list.
Qed.

(** ** The end of the body *)

(** An anchor of the body at the very end of the message is counted by [calculate_body_diff], whose bound is
    [-1], but not written by [process_lumps], whose bound is the length of the message: the
    build aborts. *)
Theorem anchor_at_end_aborts e so (v : bytes) p type flags :
  0 < zlen v < 2 ^ 31 → zlen (e_buf e) + zlen v < 2 ^ 32 - 1 →
  let body := Lump (mk_lump type LUMP_NOP (u_offset (zlen (e_buf e))) 0 flags) LNull
    (Lump (mk_lump type LUMP_ADD (u_value p v) (zlen v) flags) LNull LNull LNull) LNull in
  let '(body_delta, body') := calculate_body_diff e so body in
  build_msg e so LNull body' None 0 0 (zlen (e_buf e)) body_delta =
  LenMismatch (e_buf e) (zlen (e_buf e) + zlen v).
Proof.
  intros Hv Hbuf body. pose proof (zlen_nonneg (e_buf e)) as H0.
  assert (calculate_body_diff e so body = (zlen v, body)) as ->.
  { unfold calculate_body_diff, lumps_len, body. cbn [lumps_len_loop lump_offset l_u].
    change (u32 (-1)) with (2 ^ 32 - 1). rewrite (proj2 (Z.ltb_lt _ _)) by lia. cbn [negb].
    unfold in_deleted. cbn [lump_offset l_u]. rewrite (proj2 (Z.ltb_ge _ 0)) by lia. cbn [andb].
    unfold chain_len. cbn [walk_chain len_main l_op follow]. unfold walk_one, emit_len. cbn [l_op l_len].
    cbn. rewrite wrap_small by lia. rewrite swrap_small by (change (32 - 1) with 31; lia). done. }
  unfold build_msg. change (lumps_len e so LNull (-1)) with (0, LNull). cbv beta iota.
  unfold apply_msg_changes. change (process_lumps e so LNull [] 0 (-1)) with (Some (@nil Z, 0), LNull).
  cbv beta iota.
  assert (process_lumps e so body [] 0 (zlen (e_buf e)) = (Some ([], 0), body)) as ->.
  { unfold process_lumps, body. cbn [process_loop lump_offset l_u].
    rewrite wrap_small by lia. by rewrite Z.ltb_irrefl. }
  assert (copy_orig e 0 (zlen (e_buf e) - 0) (Some []) = Some (e_buf e)) as ->.
  { unfold copy_orig. cbn [mbind option_bind]. rewrite (proj2 (Z.leb_le _ _)) by lia.
    rewrite Z.sub_0_r. unfold zlen. rewrite Nat2Z.id. by rewrite drop_0, firstn_all. }
  cbn [fst]. rewrite Z.add_0_r, !wrap_small by lia. by rewrite (proj2 (Z.eqb_neq _ _)) by lia.
Qed.
