(* ===== verification/DrPrefix.v ===== *)
(** * DrPrefix: the prefix tree of dynamic routing (modules/drouting)

    [prefix_tree.c] keeps the routing rules in a tree indexed by the characters of
    their prefix; at each node the rules of a routing group are a list sorted by
    priority ([add_rt_info] of [routing.c]).  A number is routed by the longest prefix
    with a usable rule, and on failure by the next rule, then by shorter prefixes, then by
    the rules without a prefix (the search of [do_routing] in [drouting.c]).

    A rule is a record with its address; its reference count is in a store by
    address.  The parent pointers of the tree are the stack of the nodes gone
    through.  Allocations succeed or fail in the order of a list of booleans, all of them after its end. *)

From stdpp Require Import prelude list gmap.
From Stdlib Require Import ZArith Lia.
From S2P Require Import Prelude.

Definition DR_PREFIX_ARRAY_SIZE : Z := 128.
Definition RG_INIT_LEN : nat := 4.

(** ** Characters of prefixes *)

(** [dr_char2idx] and [ptree_children] *)
Record char_table := mk_table { ct_idx : list Z; ptree_children : Z }.

Definition table_set (t : char_table) (c : Z) : char_table :=
  mk_table (<[Z.to_nat c := i8 (ptree_children t)]> (ct_idx t)) (ptree_children t + 1).

(** [init_prefix_tree]: the digits, then the extra characters in the range of the table. *)
Definition init_prefix_tree (extra_prefix_chars : bytes) : char_table :=
  let t0 := mk_table (replicate (Z.to_nat DR_PREFIX_ARRAY_SIZE) (-1)) 0 in
  let digits := foldl table_set t0 (seqZ 48 10) in
  foldl (λ t c, if DR_PREFIX_ARRAY_SIZE <=? c then t else table_set t c) digits extra_prefix_chars.

(** [IDX_OF_CHAR], [UIDX_OF_CHAR] and [IS_VALID_PREFIX_CHAR]; a character is an
    unsigned byte. *)
Definition idx_of_char (t : char_table) (c : byte) : Z := nth (Z.to_nat c) (ct_idx t) (-1).
Definition uidx_of_char (t : char_table) (c : byte) : Z := wrap 8 (idx_of_char t c).
Definition is_valid_prefix_char (t : char_table) (c : byte) : bool :=
  (c <? DR_PREFIX_ARRAY_SIZE) && negb (idx_of_char t c =? -1).

(** ** The tree *)

Section tree.
(** The time recurrence of a rule, and the result of [tmrec_expr_check] on it at the
    time of the search. *)
Context {tmrec : Type}.
Variable tmrec_expr_check : tmrec → bool.

(** [rt_info_t]: its address, priority and recurrence. *)
Record rt_info := mk_rt { rt_addr : Z; rt_priority : Z; rt_time_rec : option tmrec }.

(** [rg_entry_t]; the list of wrappers is the list of the rules. *)
Record rg_entry := mk_rg { rgid : Z; rtlw : list rt_info }.

(** [ptree_node_t] without the child; [None] is a null [rg]. *)
Record node_data := mk_node { rg_len : nat; rg_pos : nat; rg : option (list rg_entry) }.

(** [ptree_t]: the array of the nodes, each with its child. *)
Inductive ptree := PTree (ptnode : list (node_data * option ptree)).

Definition ptnode (t : ptree) := match t with PTree l => l end.

(** A node cleared by [INIT_PTREE_NODE], and an entry cleared by [add_rt_info]. *)
Definition null_node : node_data := mk_node 0 0 None.
Definition null_entry : rg_entry := mk_rg 0 [].

(** [INIT_PTREE_NODE] *)
Definition new_ptree (tbl : char_table) : ptree :=
  PTree (replicate (Z.to_nat (ptree_children tbl)) (null_node, None)).

(** ** Adding a rule *)

(** The allocations to come, and the rules in memory with their reference counts. *)
Record dr_mem := mk_mem { mem_allocs : list bool; mem_refs : gmap Z Z }.

Definition alloc (m : dr_mem) : bool * dr_mem :=
  match mem_allocs m with
  | [] => (true, m)
  | b :: r => (b, mk_mem r (mem_refs m))
  end.

(** [r->ref_cnt++], an [unsigned short] *)
Definition ref_rt (m : dr_mem) (r : rt_info) : dr_mem :=
  mk_mem (mem_allocs m) (<[rt_addr r := u16 (default 0 (mem_refs m !! rt_addr r) + 1)]> (mem_refs m)).

(** A new rule, cleared by [memset]: no list has it. *)
Definition new_rt (m : dr_mem) (r : rt_info) : dr_mem := mk_mem (mem_allocs m) (<[rt_addr r := 0]> (mem_refs m)).

(** The insertion in the list of a group: before the first rule of a lower priority. *)
Fixpoint insert_rt (r : rt_info) (l : list rt_info) : list rt_info :=
  match l with
  | [] => [r]
  | h :: t => if rt_priority h <? rt_priority r then r :: h :: t else h :: insert_rt r t
  end.

(** The index of the entry of a group among the first [pos]; [pos] when there is none. *)
Fixpoint find_rg (id : Z) (pos : nat) (l : list rg_entry) : nat :=
  match pos, l with
  | S pos', x :: l' => if rgid x =? id then 0 else S (find_rg id pos' l')
  | _, _ => 0
  end.

(** The array of groups: allocated when the node has none ... *)
Definition alloc_rg (pn : node_data) (m : dr_mem) : node_data * dr_mem :=
  match rg pn with
  | Some _ => (pn, m)
  | None =>
      let '(ok, m) := alloc m in
      if ok then (mk_node RG_INIT_LEN 0 (Some (replicate RG_INIT_LEN null_entry)), m)
      else (mk_node RG_INIT_LEN (rg_pos pn) None, m)
  end.

(** ... and longer by [RG_INIT_LEN] when it is full, the old one kept if that fails. *)
Definition grow_rg (pn : node_data) (a : list rg_entry) (m : dr_mem)
    : bool * node_data * list rg_entry * dr_mem :=
  let '(ok, m) := alloc m in
  if ok then
    let a' := a ++ replicate RG_INIT_LEN null_entry in
    (true, mk_node (rg_len pn + RG_INIT_LEN) (rg_pos pn) (Some a'), a', m)
  else (false, pn, a, m).

(** [add_rt_info]: the return value, the node and the memory.  The index [i] is always inside of the
    array. *)
Definition add_rt_info (pn : node_data) (r : rt_info) (id : Z) (m : dr_mem) : Z * node_data * dr_mem :=
  let '(ok, m) := alloc m in
  if negb ok then (-1, pn, m) else
  let '(pn, m) := alloc_rg pn m in
  match rg pn with
  | None => (-1, pn, m)
  | Some a =>
      let i := find_rg id (rg_pos pn) a in
      let '(ok, pn, a, m) :=
        if (i =? rg_len pn)%nat then grow_rg pn a m else (true, pn, a, m) in
      if negb ok then (-1, pn, m) else
      let m := ref_rt m r in
      match a !! i with
      | None => (-1, pn, m)
      | Some en =>
          match rtlw en with
          | [] => (0, mk_node (rg_len pn) (S (rg_pos pn)) (Some (<[i := mk_rg id [r]]> a)), m)
          | l => (0, mk_node (rg_len pn) (rg_pos pn) (Some (<[i := mk_rg (rgid en) (insert_rt r l)]> a)), m)
          end
      end
  end.

(** [add_prefix]; [None] is an access outside of the array of a node. *)
Fixpoint add_prefix (tbl : char_table) (t : ptree) (prefix : bytes) (r : rt_info) (id : Z) (m : dr_mem)
    : option (Z * ptree * dr_mem) :=
  match prefix with
  | [] => Some (0, t, m)
  | c :: rest =>
      if negb (is_valid_prefix_char tbl c) then Some (-1, t, m) else
      let i := Z.to_nat (uidx_of_char tbl c) in
      '(nd, next) ← ptnode t !! i;
      match rest with
      | [] =>
          let '(res, nd', m) := add_rt_info nd r id m in
          Some (if res <? 0 then -1 else 0, PTree (<[i := (nd', next)]> (ptnode t)), m)
      | _ =>
          let '(child, m) :=
            match next with
            | Some ch => (Some ch, m)
            | None => let '(ok, m) := alloc m in (if ok then Some (new_ptree tbl) else None, m)
            end in
          match child with
          | None => Some (-1, t, m)
          | Some ch =>
              '(res, ch', m) ← add_prefix tbl ch rest r id m;
              Some (res, PTree (<[i := (nd, Some ch')]> (ptnode t)), m)
          end
      end
  end.

(** ** Searching *)

(** The loop over the rules of a group in [internal_check_rt], from the one of index [j]. *)
Fixpoint check_list (rgidx j : Z) (l : list rt_info) : option (rt_info * Z) :=
  match l with
  | [] => None
  | h :: t =>
      if (rgidx <=? j) && match rt_time_rec h with None => true | Some tr => tmrec_expr_check tr end
      then Some (h, match t with [] => 0 | _ => j + 1 end)
      else check_list rgidx (j + 1) t
  end.

(** [internal_check_rt]: the rule and the new index. *)
Definition internal_check_rt (nd : node_data) (id : Z) (rgidx : Z) : option (rt_info * Z) :=
  match rg nd with
  | None => None
  | Some a =>
      let i := find_rg id (rg_pos nd) a in
      if (i <? rg_pos nd)%nat then
        match a !! i with Some en => check_list rgidx 0 (rtlw en) | None => None end
      else None
  end.

Definition check_rt (nd : node_data) (id : Z) : option rt_info := fst <$> internal_check_rt nd id 0.

(** The first loop of [get_prefix]: down to the last character or to a leaf.  The result
    is the stack of the nodes with the characters that lead on from them; [inr true] is the
    exit on a character that cannot be in a prefix, [inr false] an access outside of an array. *)
Fixpoint go_down (tbl : char_table) (t : ptree) (stack : list (ptree * byte)) (s : bytes)
    : list (ptree * byte) + bool :=
  match s with
  | [] => inl stack
  | c :: rest =>
      if negb (is_valid_prefix_char tbl c) then inr true
      else match rest with
      | [] => inl ((t, c) :: stack)
      | _ =>
          let idx := idx_of_char tbl c in
          if idx <? 0 then inr false
          else match ptnode t !! Z.to_nat idx with
          | None => inr false
          | Some (_, None) => inl ((t, c) :: stack)
          | Some (_, Some t') => go_down tbl t' ((t, c) :: stack) rest
          end
      end
  end.

(** The second loop: up to the root, until a node has a usable rule.  The result is the rule if any, the
    length of the matched prefix and the index; [None] is an access outside of an array. *)
Fixpoint go_up (tbl : char_table) (stack : list (ptree * byte)) (id rgidx : Z)
    : option (option rt_info * Z * Z) :=
  match stack with
  | [] => Some (None, 0, rgidx)
  | (t, c) :: up =>
      let idx := idx_of_char tbl c in
      if idx <? 0 then None
      else match ptnode t !! Z.to_nat idx with
      | None => None
      | Some (nd, _) =>
          match internal_check_rt nd id rgidx with
          | Some (rt, rgidx') => Some (Some rt, Z.of_nat (S (length up)), rgidx')
          | None => go_up tbl up id rgidx
          end
      end
  end.

(** [get_prefix]: the rule, [matched_len] ([None] when it is not written) and the index. *)
Definition get_prefix (tbl : char_table) (t : ptree) (prefix : bytes) (id rgidx : Z)
    : option (option rt_info * option Z * Z) :=
  match prefix with
  | [] => Some (None, None, rgidx)
  | _ =>
      match go_down tbl t [] prefix with
      | inr true => Some (None, None, rgidx)
      | inr false => None
      | inl stack => '(rt, len, idx) ← go_up tbl stack id rgidx; Some (rt, Some len, idx)
      end
  end.

(** ** The search for a rule with fallback (do_routing) *)

(** [rt_data_t] as far as rules go, and [dr_head_t]. *)
Record rt_data := mk_data { noprefix : node_data; pt : ptree }.

(** [create_dr_head]: a table without rules, [None] when there is no memory. *)
Definition create_dr_head (tbl : char_table) (m : dr_mem) : option rt_data * dr_mem :=
  let '(ok, m) := alloc m in
  if negb ok then (None, m) else
  let '(ok, m) := alloc m in
  (if ok then Some (mk_data null_node (new_ptree tbl)) else None, m).

(** A rule put under a prefix in a group, an empty prefix being the prefixless node. *)
Definition link_rule (tbl : char_table) (d : rt_data) (prefix : bytes) (r : rt_info) (id : Z) (m : dr_mem)
    : option (Z * rt_data * dr_mem) :=
  match prefix with
  | [] =>
      let '(res, nd, m) := add_rt_info (noprefix d) r id m in
      Some (if res =? 0 then 0 else -1, mk_data nd (pt d), m)
  | _ =>
      '(res, t, m) ← add_prefix tbl (pt d) prefix r id m;
      Some (if res =? 0 then 0 else -1, mk_data (noprefix d) t, m)
  end.

(** [add_rule_api]: the rule is allocated, at [addr] if there is memory, and linked; it stays
    allocated when that fails. *)
Definition add_rule_api (tbl : char_table) (d : rt_data) (prefix : bytes) (gr_id priority : Z) (time_rec : option tmrec)
    (addr : Z) (m : dr_mem) : option (Z * rt_data * dr_mem) :=
  let '(ok, m) := alloc m in
  if negb ok then Some (-1, d, m) else
  let rule := mk_rt addr priority time_rec in
  link_rule tbl d prefix rule gr_id (new_rt m rule).

(** [add_rule] of the loader: a rule linked in each group of a list in turn.  A group is given by the
    result of its conversion, [None] where it is refused (not a number, a bad character after it, out of bounds). *)
Fixpoint add_groups (tbl : char_table) (d : rt_data) (prefix : bytes) (rule : rt_info) (grplst : list (option Z)) (m : dr_mem)
    : option (Z * rt_data * dr_mem) :=
  match grplst with
  | [] => Some (0, d, m)
  | None :: _ => Some (-1, d, m)
  | Some t :: rest =>
      '(res, d, m) ← link_rule tbl d prefix rule (u32 t) m;
      if res =? 0 then add_groups tbl d prefix rule rest m else Some (-1, d, m)
  end.
Definition add_rule (tbl : char_table) (d : rt_data) (prefix : bytes) (rule : rt_info) (grplst : list (option Z)) (m : dr_mem)
    : option (Z * rt_data * dr_mem) :=
  match grplst with [] => Some (-1, d, m) | _ => add_groups tbl d prefix rule grplst m end.

(** The variables of the search: the rule found, the length of the matched
    prefix and the index of the next rule. *)
Record found := mk_found { f_rt : rt_info; f_prefix_len : Z; f_rule_idx : Z }.

(** From the label [search_again] to the rule: a prefix, else the rules without a prefix, with -1 as the
    index once their last one is reached.  [Some None] is the exit without a rule; with [strict] the
    prefix must be the whole number. *)
Definition search_rule (tbl : char_table) (d : rt_data) (strict : bool) (username : bytes) (grp rule_idx : Z)
    : option (option found) :=
  '(rt, len, idx) ← get_prefix tbl (pt d) username grp rule_idx;
  if strict && negb (match rt, len with
                     | Some _, Some n => n =? Z.of_nat (length username)
                     | _, _ => false end)
  then Some None
  else match rt with
  | Some r => Some (Some (mk_found r (default 0 len) idx))
  | None =>
      if 0 <=? idx then
        match internal_check_rt (noprefix d) grp idx with
        | Some (r, idx') => Some (Some (mk_found r 0 (if idx' =? 0 then -1 else idx')))
        | None => Some None
        end
      else Some None
  end.

(** The fallback at [search_again]: what is left of the number, unless nothing is. *)
Definition fallback (username : bytes) (f : found) : option bytes :=
  let len := f_prefix_len f - (if f_rule_idx f =? 0 then 1 else 0) in
  if (len =? 0) && (f_rule_idx f <=? 0) then None
  else Some (take (Z.to_nat len) username).

(** The sequence of rules tried when every one of them falls back. *)
Fixpoint tried_rules (fuel : nat) (tbl : char_table) (d : rt_data) (username : bytes) (grp rule_idx : Z)
    : option (list rt_info) :=
  match fuel with
  | O => None
  | S fuel =>
      f ← search_rule tbl d false username grp rule_idx;
      match f with
      | None => Some []
      | Some f =>
          match fallback username f with
          | None => Some [f_rt f]
          | Some u => cons (f_rt f) <$> tried_rules fuel tbl d u grp (f_rule_idx f)
          end
      end
  end.

(** ** Release *)

(** [del_rt_list_api]: the count of each rule goes down and a rule without references is freed ([freed] is the list
    of the addresses freed).  [None] is the use of a rule that is not there any more. *)
Fixpoint del_rt_list_api (rwl : list rt_info) (st : gmap Z Z * list Z) : option (gmap Z Z * list Z) :=
  match rwl with
  | [] => Some st
  | t :: rwl =>
      let '(refs, freed) := st in
      cnt ← refs !! rt_addr t;
      let cnt := u16 (cnt - 1) in
      if cnt =? 0 then del_rt_list_api rwl (delete (rt_addr t) refs, rt_addr t :: freed)
      else del_rt_list_api rwl (<[rt_addr t := cnt]> refs, freed)
  end.

(** The groups of a node, up to [rg_pos]. *)
Definition del_node (nd : node_data) (st : gmap Z Z * list Z) : option (gmap Z Z * list Z) :=
  match rg nd with
  | None => Some st
  | Some a => foldl (λ st en, st ← st; del_rt_list_api (rtlw en) st) (Some st) (take (rg_pos nd) a)
  end.

Fixpoint del_tree_api (t : ptree) (st : gmap Z Z * list Z) : option (gmap Z Z * list Z) :=
  match t with
  | PTree l =>
      (fix loop l st :=
        match l with
        | [] => Some st
        | (nd, next) :: l' =>
            st ← del_node nd st;
            st ← match next with Some ch => del_tree_api ch st | None => Some st end;
            loop l' st
        end) l st
  end.

(** [free_dr_head], as far as the rules go: the tree, then the prefixless rules. *)
Definition free_dr_head (d : rt_data) (st : gmap Z Z * list Z) : option (gmap Z Z * list Z) :=
  st ← del_tree_api (pt d) st; del_node (noprefix d) st.
End tree.

Arguments rt_info : clear implicits.
Arguments rg_entry : clear implicits.
Arguments node_data : clear implicits.
Arguments ptree : clear implicits.
Arguments rt_data : clear implicits.
Arguments found : clear implicits.
