(* ===== verification/DrPrefixFacts.v ===== *)
(** * DrPrefixFacts: the prefix tree as a map from prefixes and groups to rules

    The invariants of the character table, of a node and of the tree, and the view of a tree
    as a function from a prefix and a routing group to a list of rules. *)

From stdpp Require Import prelude list gmap.
From Stdlib Require Import ZArith Lia Sorted.
From S2P Require Import Prelude DrPrefix.

(** ** The character table *)

(** Every character has no index or one below the number of children, and two characters do
    not share one. *)
Record table_ok (t : char_table) : Prop := {
  tok_len : length (ct_idx t) = 128%nat;
  tok_children : 0 <= ptree_children t <= 127;
  tok_range : ∀ i x, ct_idx t !! i = Some x → x = -1 ∨ 0 <= x < ptree_children t;
  tok_inj : ∀ i j x, ct_idx t !! i = Some x → ct_idx t !! j = Some x → x ≠ -1 → i = j;
}.

Lemma table_set_ok t c : table_ok t → 0 <= c < 128 → ptree_children t < 127 → table_ok (table_set t c).
Proof.
  intros [Hl Hc Hr Hi] Hb Hch. unfold table_set.
  assert (i8 (ptree_children t) = ptree_children t) as ->
    by (apply swrap_small; [lia|]; change (8 - 1) with 7; lia).
  constructor; cbn.
  - by rewrite length_insert.
  - lia.
  - intros i x Hx. destruct (decide (i = Z.to_nat c)) as [->|].
    + rewrite list_lookup_insert_eq in Hx by lia. simplify_eq. lia.
    + rewrite list_lookup_insert_ne in Hx by done. specialize (Hr i x Hx). lia.
  - intros i j x Hx Hy Hne.
    destruct (decide (i = Z.to_nat c)) as [->|], (decide (j = Z.to_nat c)) as [->|]; [done|..];
      rewrite ?list_lookup_insert_eq in Hx by lia; rewrite ?list_lookup_insert_eq in Hy by lia;
      rewrite ?list_lookup_insert_ne in Hx by done; rewrite ?list_lookup_insert_ne in Hy by done;
      simplify_eq; [specialize (Hr _ _ Hy); lia|specialize (Hr _ _ Hx); lia|eauto].
Qed.

Lemma table_sets_ok l t : table_ok t → Forall (λ c, 0 <= c) l →
  ptree_children t + Z.of_nat (length l) <= 127 →
  table_ok (foldl (λ t c, if DR_PREFIX_ARRAY_SIZE <=? c then t else table_set t c) t l) ∧
  ptree_children (foldl (λ t c, if DR_PREFIX_ARRAY_SIZE <=? c then t else table_set t c) t l)
    <= ptree_children t + Z.of_nat (length l).
Proof.
  revert t. induction l as [|c l IH]; intros t Ht Hl Hch; [cbn; split; [done|lia]|].
  apply Forall_cons in Hl as [Hc Hl]. cbn [foldl length] in *.
  destruct (Z.leb_spec DR_PREFIX_ARRAY_SIZE c) as [?|Hlt].
  - destruct (IH t Ht Hl) as [? ?]; [lia|]. split; [done|lia].
  - change DR_PREFIX_ARRAY_SIZE with 128 in Hlt.
    destruct (IH (table_set t c)) as [? ?]; [apply table_set_ok; [done|lia..]|done|cbn; lia|].
    split; [done|]. cbn in *. lia.
Qed.

(** The table is fit for use with up to 117 extra characters. *)
Lemma init_prefix_tree_ok extra : Forall (λ c, 0 <= c) extra → (length extra ≤ 117)%nat →
  table_ok (init_prefix_tree extra).
Proof.
  intros He Hlen. unfold init_prefix_tree.
  set (t0 := foldl table_set _ _).
  assert (t0 = foldl (λ t c, if DR_PREFIX_ARRAY_SIZE <=? c then t else table_set t c)
    (mk_table (replicate (Z.to_nat DR_PREFIX_ARRAY_SIZE) (-1)) 0) (seqZ 48 10)) as E
    by (vm_compute; reflexivity).
  destruct (table_sets_ok (seqZ 48 10) (mk_table (replicate (Z.to_nat DR_PREFIX_ARRAY_SIZE) (-1)) 0))
    as [H1 H2].
  - constructor; cbn; [done|lia|..].
    + intros i x Hx. apply (list_elem_of_lookup_2 _ i) in Hx. vm_compute in Hx.
      left. repeat (apply elem_of_cons in Hx as [->|Hx]; [done|]). by apply elem_of_nil in Hx.
    + intros i j x Hx _ Hne. exfalso. apply Hne.
      apply (list_elem_of_lookup_2 _ i) in Hx. vm_compute in Hx.
      repeat (apply elem_of_cons in Hx as [->|Hx]; [done|]). by apply elem_of_nil in Hx.
  - vm_compute. repeat constructor; discriminate.
  - vm_compute. discriminate.
  - rewrite <- E in H1, H2. cbn in H2. apply table_sets_ok; [done|done|].
    rewrite length_seqZ in H2. lia.
Qed.

Section facts.
Context {tmrec : Type}.
Variable tmrec_expr_check : tmrec → bool.
Variable tbl : char_table.
Hypothesis Htbl : table_ok tbl.

Abbreviation node_data := (node_data tmrec).
Abbreviation ptree := (ptree tmrec).
Abbreviation rt_info := (rt_info tmrec).
Abbreviation rg_entry := (rg_entry tmrec).
Implicit Types (t : ptree) (nd : node_data) (r : rt_info) (a : list rg_entry).

Abbreviation valid c := (is_valid_prefix_char tbl c = true).
Definition all_valid (s : bytes) : Prop := Forall (λ c, 0 <= c ∧ is_valid_prefix_char tbl c = true) s.

Lemma valid_idx c : 0 <= c → valid c →
  0 <= idx_of_char tbl c < ptree_children tbl ∧ uidx_of_char tbl c = idx_of_char tbl c.
Proof.
  intros Hc Hv. unfold is_valid_prefix_char in Hv. zbool.
  change DR_PREFIX_ARRAY_SIZE with 128 in *. unfold uidx_of_char, idx_of_char in *.
  destruct (lookup_lt_is_Some_2 (ct_idx tbl) (Z.to_nat c)) as [x Hx]; [rewrite (tok_len _ Htbl); lia|].
  rewrite (nth_lookup_Some _ _ _ _ Hx) in *.
  destruct (tok_range _ Htbl _ _ Hx); [done|]. split; [done|].
  apply wrap_small. pose proof (tok_children _ Htbl). lia.
Qed.

Lemma idx_inj c d : 0 <= c → 0 <= d → valid c → valid d → idx_of_char tbl c = idx_of_char tbl d → c = d.
Proof.
  intros Hc Hd Hvc Hvd E. pose proof (valid_idx c Hc Hvc). unfold is_valid_prefix_char, idx_of_char in *. zbool.
  change DR_PREFIX_ARRAY_SIZE with 128 in *.
  destruct (lookup_lt_is_Some_2 (ct_idx tbl) (Z.to_nat c)) as [x Hx]; [rewrite (tok_len _ Htbl); lia|].
  destruct (lookup_lt_is_Some_2 (ct_idx tbl) (Z.to_nat d)) as [y Hy]; [rewrite (tok_len _ Htbl); lia|].
  rewrite (nth_lookup_Some _ _ _ _ Hx), (nth_lookup_Some _ _ _ _ Hy) in *. subst y.
  assert (Z.to_nat c = Z.to_nat d) by (eapply (tok_inj _ Htbl); eauto). lia.
Qed.

(** ** Nodes *)

(** Rules in descending order of priority. *)
Definition sorted_rules : list rt_info → Prop :=
  StronglySorted (λ r1 r2, rt_priority r2 <= rt_priority r1).

(** The groups of a node: the first [rg_pos] entries are in use and distinct, the others empty. *)
Record array_ok (a : list rg_entry) (pos : nat) : Prop := {
  aok_used : ∀ i en, a !! i = Some en → (i < pos)%nat → rtlw en ≠ [] ∧ sorted_rules (rtlw en);
  aok_free : ∀ i en, a !! i = Some en → (pos ≤ i)%nat → rtlw en = [];
  aok_dist : ∀ i j x y, a !! i = Some x → a !! j = Some y → (i < pos)%nat → (j < pos)%nat →
    rgid x = rgid y → i = j;
}.
Definition node_ok (nd : node_data) : Prop :=
  match rg nd with
  | None => True
  | Some a => length a = rg_len nd ∧ (rg_pos nd ≤ rg_len nd)%nat ∧ array_ok a (rg_pos nd)
  end.

(** The rules of a group at a node. *)
Definition group_rules (nd : node_data) (id : Z) : list rt_info :=
  match rg nd with
  | None => []
  | Some a =>
      let i := find_rg id (rg_pos nd) a in
      if (i <? rg_pos nd)%nat then match a !! i with Some en => rtlw en | None => [] end else []
  end.

Lemma find_rg_le id pos a : (find_rg id pos a ≤ pos)%nat.
Proof.
  revert a. induction pos as [|pos IH]; intros [|x a]; cbn; try lia.
  case_match; [lia|]. specialize (IH a). lia.
Qed.

Lemma find_rg_found id pos a i en : (pos ≤ length a)%nat → find_rg id pos a = i → (i < pos)%nat →
  a !! i = Some en → rgid en = id.
Proof.
  revert a i. induction pos as [|pos IH]; intros [|x a] i Hl Hf Hi Hen; cbn in *; try lia.
  destruct (Z.eqb_spec (rgid x) id); [by simplify_eq/=|].
  destruct i as [|i]; [done|]. cbn in Hen. eapply (IH a i); [lia|congruence|lia|done].
Qed.

Lemma find_rg_is id pos a i en : a !! i = Some en → (i < pos)%nat → rgid en = id →
  (∀ j x, (j < i)%nat → a !! j = Some x → rgid x ≠ id) → find_rg id pos a = i.
Proof.
  revert a i. induction pos as [|pos IH]; intros [|x a] i Hen Hi Hid Hbefore; try (done || lia).
  destruct i as [|i]; cbn in *; simplify_eq.
  - by rewrite Z.eqb_refl.
  - rewrite (proj2 (Z.eqb_neq _ _)) by (apply (Hbefore 0%nat); [lia|done]). f_equal.
    apply IH; [done|lia|done|]. intros j y Hj Hy. apply (Hbefore (S j)); [lia|done].
Qed.

Lemma find_rg_none id pos a : (∀ j x, (j < pos)%nat → a !! j = Some x → rgid x ≠ id) →
  (pos ≤ length a)%nat → find_rg id pos a = pos.
Proof.
  revert a. induction pos as [|pos IH]; intros [|x a] Hne Hl; cbn in *; try (done || lia).
  rewrite (proj2 (Z.eqb_neq _ _)) by (apply (Hne 0%nat); [lia|done]). f_equal.
  apply IH; [|lia]. intros j y Hj Hy. apply (Hne (S j)); [lia|done].
Qed.

Lemma find_rg_le_found id pos a j x : a !! j = Some x → (j < pos)%nat → rgid x = id →
  (find_rg id pos a ≤ j)%nat.
Proof.
  revert a j. induction pos as [|pos IH]; intros [|y a] j Hx Hj E; cbn; try (done || lia).
  destruct (Z.eqb_spec (rgid y) id); [lia|]. destruct j as [|j]; [by simplify_eq/=|].
  specialize (IH a j Hx ltac:(lia) E). lia.
Qed.

(** The rules of a group, from any entry that has it. *)
Lemma group_rules_entry nd a i en : rg nd = Some a → node_ok nd → a !! i = Some en → (i < rg_pos nd)%nat →
  group_rules nd (rgid en) = rtlw en.
Proof.
  intros Ha Hok Hen Hi. unfold node_ok, group_rules in *. rewrite Ha in *.
  destruct Hok as (Hl & Hp & Hok).
  rewrite (find_rg_is (rgid en) (rg_pos nd) a i en); [|done..|].
  - by rewrite (proj2 (Nat.ltb_lt _ _)), Hen by done.
  - intros j x Hj Hx E. pose proof (aok_dist _ _ Hok i j en x Hen Hx ltac:(lia) ltac:(lia)). naive_solver lia.
Qed.

Lemma group_rules_none nd a id : rg nd = Some a → node_ok nd →
  (∀ i en, a !! i = Some en → (i < rg_pos nd)%nat → rgid en ≠ id) → group_rules nd id = [].
Proof.
  intros Ha Hok Hne. unfold node_ok, group_rules in *. rewrite Ha in *. destruct Hok as (Hl & Hp & Hok).
  rewrite find_rg_none; [by rewrite Nat.ltb_irrefl|naive_solver|lia].
Qed.

Lemma insert_rt_sorted r l : sorted_rules l → sorted_rules (insert_rt r l).
Proof.
  unfold sorted_rules. induction 1 as [|h t Ht IH Hh]; cbn; [by repeat constructor|].
  destruct (Z.ltb_spec (rt_priority h) (rt_priority r)).
  - constructor; [by constructor|]. constructor; [lia|]. eapply Forall_impl; [exact Hh|]. cbn. lia.
  - constructor; [done|]. clear -Hh H.
    induction Hh as [|x t Hx Ht IH]; cbn; [by repeat constructor|].
    case_match; repeat constructor; auto.
Qed.

(** The place of a rule in a sorted list. *)
Lemma insert_rt_split r l : sorted_rules l →
  ∃ l1 l2, l = l1 ++ l2 ∧ insert_rt r l = l1 ++ r :: l2 ∧
    Forall (λ x, rt_priority r <= rt_priority x) l1 ∧ Forall (λ x, rt_priority x < rt_priority r) l2.
Proof.
  induction 1 as [|h l Hs IH Hh]; [by exists [], []|]. cbn [insert_rt].
  destruct (Z.ltb_spec (rt_priority h) (rt_priority r)) as [Hlt|Hge].
  - exists [], (h :: l). split_and!; [done..|constructor; [done|]]. eapply Forall_impl; [exact Hh|]. cbn. lia.
  - destruct IH as (l1 & l2 & -> & -> & H1 & H2). exists (h :: l1), l2. split_and!; [done..|by constructor|done].
Qed.

Lemma insert_rt_perm r l : insert_rt r l ≡ₚ r :: l.
Proof.
  induction l as [|h t IH]; cbn; [done|]. case_match; [done|]. rewrite IH. apply Permutation_swap.
Qed.

(** All the rules of a node. *)
Definition node_rules (nd : node_data) : list rt_info :=
  match rg nd with None => [] | Some a => mjoin (rtlw <$> take (rg_pos nd) a) end.

Lemma join_update a i en x r : a !! i = Some en → rtlw x ≡ₚ r :: rtlw en →
  mjoin (rtlw <$> <[i := x]> a) ≡ₚ r :: mjoin (rtlw <$> a).
Proof.
  revert i. induction a as [|y a IH]; intros [|i] Hi Hx; simplify_eq/=; [by rewrite Hx|].
  rewrite IH by done. by rewrite Permutation_middle.
Qed.

Lemma insert_rt_nonempty r l : insert_rt r l ≠ [].
Proof. destruct l; cbn; [done|]. by case_match. Qed.

(** A group has an entry or not. *)
Lemma group_cases id pos a :
  (∃ j y, a !! j = Some y ∧ (j < pos)%nat ∧ rgid y = id) ∨
  (∀ j y, a !! j = Some y → (j < pos)%nat → rgid y ≠ id).
Proof.
  revert a. induction pos as [|pos IH]; intros [|x a]; [right; naive_solver lia..|].
  destruct (decide (rgid x = id)) as [|Hne]; [left; exists 0%nat, x; split_and!; [done|lia|done]|].
  destruct (IH a) as [(j & y & ? & ? & ?)|Hno].
  - left. exists (S j), y. split_and!; [done|lia|done].
  - right. intros [|j] y Hy Hj; [by simplify_eq/=|]. apply (Hno j); [done|lia].
Qed.

(** ** Adding a rule at a node *)

(** Changing the rules of a group in place. *)
Lemma update_entry_ok nd a i en l : rg nd = Some a → node_ok nd → a !! i = Some en → (i < rg_pos nd)%nat →
  l ≠ [] → sorted_rules l →
  let nd' := mk_node (rg_len nd) (rg_pos nd) (Some (<[i := mk_rg (rgid en) l]> a)) in
  node_ok nd' ∧ (∀ id, group_rules nd' id = if id =? rgid en then l else group_rules nd id) ∧
  ∀ r, l ≡ₚ r :: rtlw en → node_rules nd' ≡ₚ r :: node_rules nd.
Proof.
  intros Ha Hok Hen Hi Hl Hs nd'.
  pose proof Hok as Hok0. unfold node_ok in Hok0. rewrite Ha in Hok0. destruct Hok0 as (Hlen & Hp & Hb).
  assert (∀ j y, <[i := mk_rg (rgid en) l]> a !! j = Some y →
    (j = i ∧ y = mk_rg (rgid en) l) ∨ (j ≠ i ∧ a !! j = Some y)) as Hlk.
  { intros j y Hy. destruct (decide (j = i)) as [->|].
    - rewrite list_lookup_insert_eq in Hy by lia. naive_solver.
    - rewrite list_lookup_insert_ne in Hy by done. naive_solver. }
  assert (node_ok nd') as Hok'.
  { unfold node_ok. cbn. rewrite length_insert. split_and!; [done..|]. constructor.
    - intros j y [[-> ->]|[? Hy]]%Hlk Hj; [done|by eapply aok_used].
    - intros j y [[-> ->]|[? Hy]]%Hlk Hj; [lia|by eapply aok_free].
    - intros j k x y [[-> ->]|[? Hx]]%Hlk [[-> ->]|[? Hy]]%Hlk Hj Hk E; cbn in E; [done|..].
      + symmetry. eapply (aok_dist _ _ Hb _ _ _ _ Hy Hen); [done..|]. by rewrite E.
      + eapply (aok_dist _ _ Hb _ _ _ _ Hx Hen); done.
      + by eapply (aok_dist _ _ Hb). }
  split; [done|]. split.
  2: { intros r Hr. unfold node_rules, nd'. cbn. rewrite Ha.
       rewrite take_insert_lt by done. apply (join_update _ i en); [by rewrite lookup_take_lt|done]. }
  intros id. destruct (Z.eqb_spec id (rgid en)) as [->|Hne].
  - change (rgid en) with (rgid (mk_rg (rgid en) l)).
    apply (group_rules_entry nd' (<[i := mk_rg (rgid en) l]> a) i); [done..| |done].
    by rewrite list_lookup_insert_eq by lia.
  - destruct (group_cases id (rg_pos nd) a) as [(j & y & Hy & Hj & Hid)|Hno].
    + rewrite <- Hid, (group_rules_entry nd a j y Ha Hok Hy Hj).
      apply (group_rules_entry nd' (<[i := mk_rg (rgid en) l]> a) j); [done..| |done].
      rewrite list_lookup_insert_ne; [done|]. intros ->. naive_solver.
    + rewrite (group_rules_none nd a id Ha Hok) by naive_solver.
      apply (group_rules_none nd' (<[i := mk_rg (rgid en) l]> a) id); [done..|].
      intros j y [[-> ->]|[? Hy]]%Hlk Hj E; naive_solver.
Qed.

(** Opening a new group in the first free entry. *)
Lemma new_entry_ok nd a id r : rg nd = Some a → node_ok nd → (rg_pos nd < length a)%nat →
  (∀ i en, a !! i = Some en → (i < rg_pos nd)%nat → rgid en ≠ id) →
  let nd' := mk_node (rg_len nd) (S (rg_pos nd)) (Some (<[rg_pos nd := mk_rg id [r]]> a)) in
  node_ok nd' ∧ (∀ id', group_rules nd' id' = if id' =? id then [r] else group_rules nd id') ∧
  node_rules nd' ≡ₚ r :: node_rules nd.
Proof.
  intros Ha Hok Hp Hno nd'.
  pose proof Hok as Hok0. unfold node_ok in Hok0. rewrite Ha in Hok0. destruct Hok0 as (Hlen & _ & Hb).
  set (p := rg_pos nd) in *.
  assert (∀ j y, <[p := mk_rg id [r]]> a !! j = Some y →
    (j = p ∧ y = mk_rg id [r]) ∨ (j ≠ p ∧ a !! j = Some y)) as Hlk.
  { intros j y Hy. destruct (decide (j = p)) as [->|].
    - rewrite list_lookup_insert_eq in Hy by lia. naive_solver.
    - rewrite list_lookup_insert_ne in Hy by done. naive_solver. }
  assert (node_ok nd') as Hok'.
  { unfold node_ok. cbn. rewrite length_insert. split_and!; [done|lia|]. constructor.
    - intros j y [[-> ->]|[? Hy]]%Hlk Hj; [split; [done|by repeat constructor]|].
      eapply aok_used; [done..|lia].
    - intros j y [[-> ->]|[? Hy]]%Hlk Hj; [lia|]. eapply aok_free; [done..|lia].
    - intros j k x y [[-> ->]|[? Hx]]%Hlk [[-> ->]|[? Hy]]%Hlk Hj Hk E; cbn in E; [done|..].
      + exfalso. apply (Hno k y Hy); [lia|done].
      + exfalso. apply (Hno j x Hx); [lia|done].
      + eapply (aok_dist _ _ Hb); [done..|lia|lia|done]. }
  split; [done|]. split.
  2: { unfold node_rules, nd'. cbn [rg rg_pos]. rewrite Ha. fold p.
       rewrite (take_S_r _ _ (mk_rg id [r])) by (by rewrite list_lookup_insert_eq by lia).
       rewrite take_insert_ge by lia. rewrite fmap_app, join_app. cbn. by rewrite Permutation_app_comm. }
  intros id'. destruct (Z.eqb_spec id' id) as [->|Hne].
  - change id with (rgid (mk_rg id [r])) at 1.
    apply (group_rules_entry nd' (<[p := mk_rg id [r]]> a) p); [done..| |cbn; lia].
    by rewrite list_lookup_insert_eq by lia.
  - destruct (group_cases id' p a) as [(j & y & Hy & Hj & Hid)|Hno'].
    + rewrite <- Hid, (group_rules_entry nd a j y Ha Hok Hy Hj).
      apply (group_rules_entry nd' (<[p := mk_rg id [r]]> a) j); [done..| |cbn; lia].
      rewrite list_lookup_insert_ne; [done|lia].
    + rewrite (group_rules_none nd a id' Ha Hok) by naive_solver.
      apply (group_rules_none nd' (<[p := mk_rg id [r]]> a) id'); [done..|].
      intros j y [[-> ->]|[? Hy]]%Hlk Hj E; [cbn in E; congruence|].
      apply (Hno' j y Hy); [cbn in Hj; lia|done].
Qed.

Lemma null_entries i (en : rg_entry) :
  [null_entry; null_entry; null_entry; null_entry] !! i = Some en → en = null_entry.
Proof. do 4 (destruct i as [|i]; [by intros; simplify_eq/=|]). by destruct i. Qed.

(** Making room in the array. *)
Lemma extend_ok nd a : rg nd = Some a → node_ok nd →
  let nd' := mk_node (rg_len nd + RG_INIT_LEN) (rg_pos nd)
    (Some (a ++ replicate RG_INIT_LEN (@null_entry tmrec))) in
  node_ok nd' ∧ (∀ id, group_rules nd' id = group_rules nd id) ∧ node_rules nd' = node_rules nd.
Proof.
  intros Ha Hok nd'.
  pose proof Hok as Hok0. unfold node_ok in Hok0. rewrite Ha in Hok0. destruct Hok0 as (Hlen & Hp & Hb).
  set (z := replicate RG_INIT_LEN (@null_entry tmrec)) in *.
  assert (∀ j y, (a ++ z) !! j = Some y → (j < rg_pos nd)%nat → a !! j = Some y) as Hlk.
  { intros j y Hy Hj. by rewrite lookup_app_l in Hy by lia. }
  assert (node_ok nd') as Hok'.
  { unfold node_ok. cbn. rewrite length_app. split_and!; [subst z; unfold RG_INIT_LEN; cbn; lia|lia|].
    constructor.
    - intros j y Hy Hj. eapply aok_used; [done| |done]. by apply Hlk.
    - intros j y Hy Hj. apply lookup_app_Some in Hy as [Hy|[_ Hy]]; [by eapply aok_free|].
      by apply null_entries in Hy as ->.
    - intros j k x y Hx Hy Hj Hk E. eapply (aok_dist _ _ Hb); eauto. }
  split; [done|]. split.
  2: { unfold node_rules, nd'. cbn [rg rg_pos]. rewrite Ha. by rewrite take_app_le by lia. }
  intros id.
  destruct (group_cases id (rg_pos nd) a) as [(j & y & Hy & Hj & Hid)|Hno].
  - rewrite <- Hid, (group_rules_entry nd a j y Ha Hok Hy Hj).
    apply (group_rules_entry nd' (a ++ z) j); [done..| |done]. by apply lookup_app_l_Some.
  - rewrite (group_rules_none nd a id Ha Hok) by naive_solver.
    apply (group_rules_none nd' (a ++ z) id); [done..|]. intros j y Hy Hj. apply Hlk in Hy; [|done]. eauto.
Qed.

Lemma empty_array_ok :
  let nd := mk_node RG_INIT_LEN 0 (Some (replicate RG_INIT_LEN (@null_entry tmrec))) in
  node_ok nd ∧ (∀ id, group_rules nd id = []) ∧ node_rules nd = [].
Proof.
  split; [|done]. unfold node_ok. cbn. split_and!; [done|lia|].
  constructor; [intros i en _ Hi; inversion Hi| |intros i j x y _ _ Hi; inversion Hi].
  intros i en Hen _. by apply null_entries in Hen as ->.
Qed.

(** What [add_rt_info] does to the rules of a node: it inserts the rule in its group, or fails and changes
    none. *)
Definition rules_updated (ok : bool) (id : Z) (r : rt_info) (f f' : Z → list rt_info) : Prop :=
  ∀ id', f' id' = if ok && (id' =? id) then insert_rt r (f id) else f id'.

Lemma alloc_refs (m : dr_mem) : mem_refs (alloc m).2 = mem_refs m.
Proof. unfold alloc. by destruct (mem_allocs m). Qed.

(** The last part of [add_rt_info], once there is room in the array. *)
Lemma link_rt_ok nd a r id : rg nd = Some a → node_ok nd → (find_rg id (rg_pos nd) a < length a)%nat →
  ∃ nd', node_ok nd' ∧ rules_updated true id r (group_rules nd) (group_rules nd') ∧
  node_rules nd' ≡ₚ r :: node_rules nd ∧
  ∀ m, match a !! find_rg id (rg_pos nd) a with
  | None => (-1, nd, m)
  | Some en =>
      match rtlw en with
      | [] => (0, mk_node (rg_len nd) (S (rg_pos nd)) (Some (<[find_rg id (rg_pos nd) a := mk_rg id [r]]> a)), m)
      | l => (0, mk_node (rg_len nd) (rg_pos nd)
                (Some (<[find_rg id (rg_pos nd) a := mk_rg (rgid en) (insert_rt r l)]> a)), m)
      end
  end = (0, nd', m : dr_mem).
Proof.
  intros Ha Hok Hi. pose proof Hok as Hok0. unfold node_ok in Hok0. rewrite Ha in Hok0.
  destruct Hok0 as (Hlen & Hp & Hb).
  destruct (group_cases id (rg_pos nd) a) as [(j & y & Hy & Hj & Hid)|Hno].
  - assert (find_rg id (rg_pos nd) a = j) as ->.
    { apply (find_rg_is _ _ _ _ y); [done..|]. intros k x Hk Hx E.
      pose proof (aok_dist _ _ Hb j k y x Hy Hx ltac:(lia) ltac:(lia)). naive_solver lia. }
    destruct (aok_used _ _ Hb j y Hy Hj) as [Hne Hs]. rewrite Hy.
    destruct (update_entry_ok nd a j y (insert_rt r (rtlw y)) Ha Hok Hy Hj
      (insert_rt_nonempty r _) (insert_rt_sorted r _ Hs)) as (Hok' & Hr & Hperm).
    exists (mk_node (rg_len nd) (rg_pos nd) (Some (<[j := mk_rg (rgid y) (insert_rt r (rtlw y))]> a))).
    split; [done|]. split; [|split; [by apply Hperm, insert_rt_perm|intros m; by destruct (rtlw y)]].
    intros id'. rewrite Hr, Hid. cbn [andb]. destruct (Z.eqb_spec id' id) as [->|]; [|done].
    by rewrite <- Hid, (group_rules_entry nd a j y Ha Hok Hy Hj).
  - rewrite find_rg_none in * by (naive_solver || lia).
    destruct (lookup_lt_is_Some_2 a (rg_pos nd) Hi) as [en Hen].
    pose proof (aok_free _ _ Hb _ _ Hen ltac:(lia)) as Hnil. rewrite Hen, Hnil.
    destruct (new_entry_ok nd a id r Ha Hok Hi Hno) as (Hok' & Hr & Hperm).
    eexists. split; [exact Hok'|]. split; [|by split].
    intros id'. rewrite Hr. cbn [andb]. destruct (Z.eqb_spec id' id) as [->|]; [|done].
    by rewrite (group_rules_none nd a id Ha Hok Hno).
Qed.

Lemma alloc_empty m : mem_allocs m = [] → alloc m = (true, m).
Proof. intros E. unfold alloc. by rewrite E. Qed.

Lemma alloc_rg_ok nd m : node_ok nd →
  node_ok (alloc_rg nd m).1 ∧ (∀ id, group_rules (alloc_rg nd m).1 id = group_rules nd id) ∧
  node_rules (alloc_rg nd m).1 = node_rules nd ∧ mem_refs (alloc_rg nd m).2 = mem_refs m ∧
  (mem_allocs m = [] → is_Some (rg (alloc_rg nd m).1) ∧ mem_allocs (alloc_rg nd m).2 = []).
Proof.
  intros Hok. unfold alloc_rg. destruct (rg nd) as [a|] eqn:Ha.
  - split_and!; [done..|]. intros. split; [by eexists|done].
  - pose proof (alloc_refs m) as R. pose proof (alloc_empty m) as N.
    destruct empty_array_ok as (He1 & He2 & He3).
    assert (∀ id, group_rules nd id = []) as Hnil by (intros id; unfold group_rules; by rewrite Ha).
    assert (node_rules nd = []) as Hnr by (unfold node_rules; by rewrite Ha).
    destruct (alloc m) as [[] m']; cbn [fst snd] in *; (split_and!; [done| |by rewrite Hnr|done|]).
    + intros id. by rewrite He2, Hnil.
    + intros E. specialize (N E). simplify_eq. split; [by eexists|done].
    + intros id. by rewrite Hnil.
    + intros E. by specialize (N E).
Qed.

(** Growing leaves the index found, which is past the last group, as it is. *)
Lemma grow_rg_ok nd a m id : rg nd = Some a → node_ok nd → find_rg id (rg_pos nd) a = rg_len nd →
  let '(ok, nd', a', m') := grow_rg nd a m in
  rg nd' = Some a' ∧ node_ok nd' ∧ (∀ id, group_rules nd' id = group_rules nd id) ∧
  node_rules nd' = node_rules nd ∧
  (ok = true → find_rg id (rg_pos nd') a' = rg_len nd ∧ (rg_len nd < length a')%nat) ∧
  mem_refs m' = mem_refs m ∧ (mem_allocs m = [] → ok = true ∧ mem_allocs m' = []).
Proof.
  intros Ha Hok Hf. unfold grow_rg.
  pose proof (alloc_refs m) as R. pose proof (alloc_empty m) as N.
  destruct (extend_ok nd a Ha Hok) as (Hok2 & Hr2 & Hn2).
  pose proof Hok as Hok1. unfold node_ok in Hok1. rewrite Ha in Hok1. destruct Hok1 as (Hlen & Hp & Hb).
  pose proof (find_rg_le id (rg_pos nd) a) as Hle.
  destruct (alloc m) as [[] m']; cbn [fst snd] in *.
  - split_and!; [done..| |done|intros E; specialize (N E); by simplify_eq].
    intros _. split; [|rewrite length_app; unfold RG_INIT_LEN; cbn; lia].
    assert (rg_pos nd = rg_len nd) as Epos by lia. cbn [rg_pos]. rewrite <- Epos.
    apply find_rg_none; [|rewrite length_app; lia].
    intros j x Hj Hx E. rewrite lookup_app_l in Hx by lia.
    pose proof (find_rg_le_found id (rg_pos nd) a j x Hx Hj E). lia.
  - split_and!; [done..|intros E; by specialize (N E)].
Qed.

Lemma add_rt_info_ok nd r id m : node_ok nd →
  ∃ (ok : bool) nd' m', add_rt_info nd r id m = (if ok then 0 else -1, nd', m') ∧ node_ok nd' ∧
    rules_updated ok id r (group_rules nd) (group_rules nd') ∧
    (node_rules nd' ≡ₚ if ok then r :: node_rules nd else node_rules nd) ∧
    mem_refs m' = (if ok then mem_refs (ref_rt m r) else mem_refs m) ∧
    (mem_allocs m = [] → ok = true ∧ mem_allocs m' = []).
Proof.
  intros Hok. unfold add_rt_info.
  pose proof (alloc_refs m) as R1. pose proof (alloc_empty m) as N1.
  destruct (alloc m) as [ok1 m1]. cbn [fst snd] in *.
  destruct ok1; cbn [negb]; [|exists false, nd, m1; split_and!; [done..|intros E; by specialize (N1 E)]].
  destruct (alloc_rg_ok nd m1 Hok) as (Hok1 & Hr1 & Hn1 & R2 & N2).
  destruct (alloc_rg nd m1) as [nd1 m2]. cbn [fst snd] in *.
  assert (mem_allocs m = [] → is_Some (rg nd1) ∧ mem_allocs m2 = []) as N12
    by (intros E; specialize (N1 E); simplify_eq; auto).
  destruct (rg nd1) as [a|] eqn:Ha1.
  2: { exists false, nd1, m2. split_and!; [done|done|intros id'; apply Hr1|by rewrite Hn1|congruence|].
       intros E. destruct (N12 E) as [[? ?] _]. done. }
  pose proof Hok1 as Hok1'. unfold node_ok in Hok1'. rewrite Ha1 in Hok1'. destruct Hok1' as (Hlen & Hp & Hb).
  pose proof (find_rg_le id (rg_pos nd1) a) as Hle.
  destruct (Nat.eqb_spec (find_rg id (rg_pos nd1) a) (rg_len nd1)) as [Heq|Hneq].
  - pose proof (grow_rg_ok nd1 a m2 id Ha1 Hok1 Heq) as Hg.
    destruct (grow_rg nd1 a m2) as [[[ok3 nd2] a2] m3]. destruct Hg as (Ha2 & Hok2 & Hr2 & Hn2 & Hf2 & R3 & N3).
    destruct ok3; cbn [negb].
    2: { exists false, nd2, m3. split_and!; [done|done| |by rewrite Hn2, Hn1|congruence|].
         - intros id'. cbn. by rewrite Hr2, Hr1.
         - intros E. destruct (N12 E) as [_ E2]. by destruct (N3 E2). }
    destruct (Hf2 eq_refl) as [Ef Hlt].
    destruct (link_rt_ok nd2 a2 r id Ha2 Hok2) as (nd3 & Hok3 & Hr3 & Hn3 & E3); [lia|].
    rewrite Heq, <- Ef, E3. exists true, nd3, (ref_rt m3 r). split_and!; [done|done| |by rewrite Hn3, Hn2, Hn1| |].
    + intros id'. rewrite Hr3, !Hr2, !Hr1. done.
    + unfold ref_rt. cbn. by rewrite R3, R2, R1.
    + intros E. destruct (N12 E) as [_ E2]. by destruct (N3 E2).
  - cbn [negb]. destruct (link_rt_ok nd1 a r id Ha1 Hok1) as (nd3 & Hok3 & Hr3 & Hn3 & E3); [lia|].
    rewrite E3. exists true, nd3, (ref_rt m2 r). split_and!; [done|done| |by rewrite Hn3, Hn1| |].
    + intros id'. rewrite Hr3, !Hr1. done.
    + unfold ref_rt. cbn. by rewrite R2, R1.
    + intros E. by destruct (N12 E).
Qed.
End facts.
