(* ===== verification/DrPrefixSpec.v ===== *)
(** * DrPrefixSpec: what dynamic routing promises

    Adding a rule changes the rules of one prefix and group and no other; a search returns the first usable
    rule of the longest prefix that has one. *)

From stdpp Require Import prelude list gmap.
From Stdlib Require Import ZArith Lia Sorted.
From S2P Require Import Prelude DrPrefix DrPrefixFacts.

Section tree.
Context {tmrec : Type}.
Variable tmrec_expr_check : tmrec → bool.
Variable tbl : char_table.
Hypothesis Htbl : table_ok tbl.

Abbreviation node_data := (node_data tmrec).
Abbreviation ptree := (ptree tmrec).
Abbreviation rt_info := (rt_info tmrec).
Abbreviation rt_data := (rt_data tmrec).
Implicit Types (t : ptree) (nd : node_data) (r : rt_info).

(** ** The tree as a map *)

(** The rules of a group for a prefix. *)
Fixpoint rules (t : ptree) (p : bytes) (id : Z) : list rt_info :=
  match p with
  | [] => []
  | c :: rest =>
      match ptnode t !! Z.to_nat (idx_of_char tbl c) with
      | None => []
      | Some (nd, next) =>
          match rest with
          | [] => group_rules nd id
          | _ => match next with Some ch => rules ch rest id | None => [] end
          end
      end
  end.

(** Every node of the tree has all its children and an array of groups in order. *)
Inductive tree_ok : ptree → Prop :=
  | TreeOk l :
      length l = Z.to_nat (ptree_children tbl) →
      (∀ i nd next, l !! i = Some (nd, next) → node_ok nd) →
      (∀ i nd ch, l !! i = Some (nd, Some ch) → tree_ok ch) →
      tree_ok (PTree l).

(** All the rules of a tree. *)
Fixpoint tree_rules (t : ptree) : list rt_info :=
  match t with
  | PTree l =>
      (fix loop l :=
        match l with
        | [] => []
        | (nd, next) :: l' =>
            node_rules nd ++ match next with Some ch => tree_rules ch | None => [] end ++ loop l'
        end) l
  end.
Definition child_rules (x : node_data * option ptree) : list rt_info :=
  node_rules x.1 ++ match x.2 with Some ch => tree_rules ch | None => [] end.

Lemma tree_rules_eq l : tree_rules (PTree l) = mjoin (child_rules <$> l).
Proof.
  induction l as [|[nd next] l IH]; [done|]. cbn in IH |- *. rewrite IH. unfold child_rules. cbn.
  by rewrite <- app_assoc.
Qed.

Lemma new_ptree_ok : tree_ok (new_ptree tbl) ∧ (∀ p id, rules (new_ptree tbl) p id = []) ∧
  tree_rules (new_ptree tbl) = [].
Proof.
  unfold new_ptree. set (n := Z.to_nat (ptree_children tbl)). split_and!.
  - constructor.
    + apply length_replicate.
    + intros i nd next H. apply lookup_replicate in H as [[= -> ->] _]. done.
    + intros i nd ch H. by apply lookup_replicate in H as [[= ? ?] _].
  - intros [|c rest] id; [done|]. cbn. destruct (replicate n _ !! _) as [[nd next]|] eqn:E; [|done].
    apply lookup_replicate in E as [[= -> ->] _]. by destruct rest.
  - rewrite tree_rules_eq. induction n as [|n IH]; [done|]. cbn. done.
Qed.

(** Two prefixes of valid characters that go through different children. *)
Lemma rules_other_child l i x p id c rest :
  p = c :: rest → (Z.to_nat (idx_of_char tbl c) ≠ i) →
  rules (PTree (<[i := x]> l)) p id = rules (PTree l) p id.
Proof. intros -> Hne. cbn. by rewrite list_lookup_insert_ne. Qed.

(** What an addition does to all prefixes and groups. *)
Definition map_updated (ok : bool) (prefix : bytes) (id : Z) (r : rt_info) (t t' : ptree) : Prop :=
  ∀ p id', all_valid tbl p →
    rules t' p id' = if ok && bool_decide (p = prefix) && (id' =? id)
                     then insert_rt r (rules t prefix id) else rules t p id'.

Lemma child_update_rules l i nd next x r : l !! i = Some (nd, next) →
  child_rules x ≡ₚ r :: child_rules (nd, next) →
  tree_rules (PTree (<[i := x]> l)) ≡ₚ r :: tree_rules (PTree l).
Proof.
  rewrite !tree_rules_eq. revert i.
  induction l as [|y l IH]; intros [|i] Hi Hx; simplify_eq/=; [by rewrite Hx|].
  rewrite IH by done. by rewrite Permutation_middle.
Qed.

Lemma child_same_rules l i nd next x : l !! i = Some (nd, next) →
  child_rules x ≡ₚ child_rules (nd, next) →
  tree_rules (PTree (<[i := x]> l)) ≡ₚ tree_rules (PTree l).
Proof.
  rewrite !tree_rules_eq. revert i.
  induction l as [|y l IH]; intros [|i] Hi Hx; simplify_eq/=; [by rewrite Hx|]. by rewrite IH.
Qed.

Lemma tree_ok_update l i nd next nd' next' : tree_ok (PTree l) → l !! i = Some (nd, next) →
  node_ok nd' → (∀ ch, next' = Some ch → tree_ok ch) → tree_ok (PTree (<[i := (nd', next')]> l)).
Proof.
  inversion 1 as [? Hlen Hn Hc]; subst. intros Hi Hnd Hnext. constructor.
  - by rewrite length_insert.
  - intros j x y Hj. destruct (decide (j = i)) as [->|].
    + rewrite list_lookup_insert_eq in Hj by (by eapply lookup_lt_Some). by simplify_eq.
    + rewrite list_lookup_insert_ne in Hj by done. eauto.
  - intros j x y Hj. destruct (decide (j = i)) as [->|].
    + rewrite list_lookup_insert_eq in Hj by (by eapply lookup_lt_Some). simplify_eq. eauto.
    + rewrite list_lookup_insert_ne in Hj by done. eauto.
Qed.

(** Access to the child of a valid character. *)
Lemma tree_child t c : tree_ok t → 0 <= c → is_valid_prefix_char tbl c = true →
  ∃ nd next, ptnode t !! Z.to_nat (idx_of_char tbl c) = Some (nd, next) ∧ node_ok nd ∧
    (∀ ch, next = Some ch → tree_ok ch).
Proof.
  inversion 1 as [l Hlen Hn Hc]; subst. intros H0 Hv. cbn.
  destruct (valid_idx tbl Htbl c H0 Hv) as [Hidx _].
  destruct (lookup_lt_is_Some_2 l (Z.to_nat (idx_of_char tbl c))) as [[nd next] Hl]; [lia|].
  exists nd, next. split_and!; [done|eauto|]. intros ch ->. eauto.
Qed.

(** The characters of [p] go to the child of [c] only if [p] starts with [c]. *)
Lemma rules_at_child l c x p id : 0 <= c → is_valid_prefix_char tbl c = true → all_valid tbl p →
  (∀ rest, p = c :: rest → rules (PTree (<[Z.to_nat (idx_of_char tbl c) := x]> l)) p id = rules (PTree l) p id) →
  rules (PTree (<[Z.to_nat (idx_of_char tbl c) := x]> l)) p id = rules (PTree l) p id.
Proof.
  intros H0 Hv Hp Hsame. destruct p as [|d rest]; [done|].
  apply Forall_cons in Hp as [[Hd Hvd] _].
  destruct (decide (d = c)) as [->|Hne]; [by eapply Hsame|].
  eapply rules_other_child; [done|]. intros E. apply Hne.
  pose proof (valid_idx tbl Htbl c H0 Hv). pose proof (valid_idx tbl Htbl d Hd Hvd).
  apply (idx_inj tbl Htbl); [done..|]. lia.
Qed.

Lemma add_prefix_ok prefix : ∀ t r id m, tree_ok t → prefix ≠ [] → Forall (λ c, 0 <= c) prefix →
  ∃ (ok : bool) t' m', add_prefix tbl t prefix r id m = Some (if ok then 0 else -1, t', m') ∧
    tree_ok t' ∧ map_updated ok prefix id r t t' ∧
    (tree_rules t' ≡ₚ if ok then r :: tree_rules t else tree_rules t) ∧
    mem_refs m' = (if ok then mem_refs (ref_rt m r) else mem_refs m) ∧
    (mem_allocs m = [] → all_valid tbl prefix → ok = true ∧ mem_allocs m' = []).
Proof.
  induction prefix as [|c rest IH]; intros t r id m Ht Hne Hpos; [done|].
  apply Forall_cons in Hpos as [H0 Hpos]. cbn [add_prefix].
  assert (∀ m, ∃ (ok : bool) t' m', Some (-1, t, m) = Some (if ok then 0 else -1, t', m') ∧
    tree_ok t' ∧ map_updated ok (c :: rest) id r t t' ∧
    (tree_rules t' ≡ₚ if ok then r :: tree_rules t else tree_rules t) ∧
    mem_refs m' = (if ok then mem_refs (ref_rt m r) else mem_refs m) ∧ ok = false) as Hfail
    by (intros m'; exists false, t, m'; by split_and!).
  destruct (is_valid_prefix_char tbl c) eqn:Hv; cbn [negb].
  2: { destruct (Hfail m) as (ok & t' & m' & E & ? & ? & ? & ? & ->).
       exists false, t', m'. split_and!; [done..|].
       intros _ [[_ Hvc] _]%Forall_cons. congruence. }
  destruct (tree_child t c Ht H0 Hv) as (nd & next & Hl & Hnd & Hch).
  destruct (valid_idx tbl Htbl c H0 Hv) as [Hidx ->]. rewrite Hl. cbn [mbind option_bind].
  destruct t as [l]. cbn [ptnode] in *. set (i := Z.to_nat (idx_of_char tbl c)) in *.
  destruct rest as [|c2 rest].
  - (* the last character *)
    destruct (add_rt_info_ok nd r id m Hnd) as (ok & nd' & m' & -> & Hok' & Hr & Hperm & Hrefs & Hall).
    exists ok, (PTree (<[i := (nd', next)]> l)), m'.
    assert (i < length l)%nat as Hi by (by eapply lookup_lt_Some). split_and!.
    + by destruct ok.
    + by eapply tree_ok_update.
    + intros p id' Hp. destruct (decide (p = [c])) as [->|Hpne].
      * rewrite bool_decide_true by done. cbn. fold i. rewrite list_lookup_insert_eq, Hl by done.
        rewrite (Hr id'). by destruct ok.
      * rewrite bool_decide_false, andb_false_r by done. cbn [andb].
        apply rules_at_child; [done..|]. intros rest ->. cbn. fold i.
        rewrite list_lookup_insert_eq, Hl by done. by destruct rest.
    + destruct ok.
      * eapply child_update_rules; [done|]. unfold child_rules. cbn. by rewrite Hperm.
      * eapply child_same_rules; [done|]. unfold child_rules. cbn. by rewrite Hperm.
    + done.
    + intros E _. by apply Hall.
  - (* on to the child *)
    set (step := match next with Some ch => (Some ch, m) | None => _ end).
    assert (∃ child m1, step = (child, m1) ∧ mem_refs m1 = mem_refs m ∧
      (mem_allocs m = [] → is_Some child ∧ mem_allocs m1 = []) ∧
      (∀ ch, child = Some ch → tree_ok ch ∧
        tree_rules ch = match next with Some ch' => tree_rules ch' | None => [] end ∧
        ∀ p id', rules ch p id' = match next with Some ch' => rules ch' p id' | None => [] end))
      as (child & m1 & -> & R1 & N1 & Hc).
    { unfold step. destruct next as [ch|].
      - exists (Some ch), m. split_and!; [done|done|by eauto|]. intros ? [= <-]. split_and!; auto.
      - pose proof (alloc_refs m) as R. pose proof (alloc_empty m) as N.
        destruct new_ptree_ok as (? & ? & ?).
        destruct (alloc m) as [[] m1]; cbn [snd] in *; do 2 eexists; (split; [reflexivity|]);
          (split_and!; [done| |]).
        + intros E. specialize (N E). simplify_eq. by eauto.
        + intros ? [= <-]. done.
        + intros E. by specialize (N E).
        + done. }
    destruct child as [ch|].
    2: { destruct (Hfail m1) as (ok & t' & m' & E & ? & ? & ? & Hr & ->).
         exists false, t', m'. split_and!; [done..|by rewrite Hr|].
         intros E' _. destruct (N1 E') as [[? ?] _]. done. }
    destruct (Hc ch eq_refl) as (Hok & Htr & Hrules).
    destruct (IH ch r id m1 Hok ltac:(done) Hpos) as (ok & ch' & m' & -> & Hok' & Hupd & Hperm & Hrefs & Hall).
    cbn [mbind option_bind].
    exists ok, (PTree (<[i := (nd, Some ch')]> l)), m'.
    assert (i < length l)%nat as Hi by (by eapply lookup_lt_Some). split_and!.
    + done.
    + eapply tree_ok_update; [done..|]. by intros ? [= <-].
    + intros p id' Hp. destruct p as [|d p]; [by rewrite andb_false_r|].
      destruct (decide (d = c)) as [->|Hdne].
      * apply Forall_cons in Hp as [_ Hp]. cbn [rules ptnode]. fold i.
        rewrite list_lookup_insert_eq, Hl by done. destruct p as [|c3 p].
        { rewrite bool_decide_false, andb_false_r by done. done. }
        rewrite (Hupd (c3 :: p) id' Hp), !Hrules.
        rewrite (bool_decide_ext (c3 :: p = c2 :: rest) (c :: c3 :: p = c :: c2 :: rest)) by naive_solver.
        done.
      * rewrite bool_decide_false, andb_false_r by naive_solver. cbn [andb].
        apply rules_at_child; [done..|]. intros rest' E. naive_solver.
    + destruct ok.
      * eapply child_update_rules; [done|]. unfold child_rules. cbn. rewrite Hperm, Htr.
        by rewrite Permutation_middle.
      * eapply child_same_rules; [done|]. unfold child_rules. cbn. by rewrite Hperm, Htr.
    + rewrite Hrefs. unfold ref_rt. cbn. by rewrite R1.
    + intros E [_ Hv2]%Forall_cons. destruct (N1 E) as [_ E1]. by apply Hall.
Qed.

(** A rule is added under a prefix of valid characters only. *)
Lemma add_prefix_valid prefix : ∀ t r id m t' m', Forall (λ c, 0 <= c) prefix →
  add_prefix tbl t prefix r id m = Some (0, t', m') → all_valid tbl prefix.
Proof.
  induction prefix as [|c rest IH]; intros t r id m t' m' Hpos; [constructor|]. apply Forall_cons in Hpos as [H0 Hpos].
  cbn [add_prefix]. destruct (is_valid_prefix_char tbl c) eqn:Hv; [|done]. cbn [negb].
  destruct (ptnode t !! _) as [[nd next]|]; [|done]. cbn [mbind option_bind].
  destruct rest as [|c2 rest]; [by repeat constructor|]. set (step := match next with Some ch => (Some ch, m) | None => _ end).
  destruct step as [[ch|] m1]; [|done].
  destruct (add_prefix tbl ch (c2 :: rest) r id m1) as [[[res ch'] m2]|] eqn:E; [|done]. cbn [mbind option_bind].
  intros [= -> _ _]. apply Forall_cons. split; [done|]. by eapply IH.
Qed.

(** ** The longest prefix *)

(** The reference search: the prefixes of [s] of at most [n] characters, from the longest to the
    shortest, and the first usable rule of index [rgidx] or more. *)
Fixpoint longest (t : ptree) (s : bytes) (id rgidx : Z) (n : nat) : option (rt_info * nat * Z) :=
  match n with
  | O => None
  | S n' =>
      match check_list tmrec_expr_check rgidx 0 (rules t (take n s) id) with
      | Some (r, i) => Some (r, n, i)
      | None => longest t s id rgidx n'
      end
  end.

Lemma internal_check_group nd id rgidx :
  internal_check_rt tmrec_expr_check nd id rgidx = check_list tmrec_expr_check rgidx 0 (group_rules nd id).
Proof.
  unfold internal_check_rt, group_rules. destruct (rg nd) as [a|]; [|done].
  destruct (_ <? _)%nat; [|done]. by destruct (a !! _).
Qed.

Lemma rules_cons l c x s nd ch id :
  l !! Z.to_nat (idx_of_char tbl c) = Some (nd, Some ch) →
  rules (PTree l) (c :: x :: s) id = rules ch (x :: s) id.
Proof. intros Hl. cbn. by rewrite Hl. Qed.

(** Through a child. *)
Lemma longest_child l c x s nd ch id rgidx n :
  l !! Z.to_nat (idx_of_char tbl c) = Some (nd, Some ch) →
  longest (PTree l) (c :: x :: s) id rgidx (S n) =
  match longest ch (x :: s) id rgidx n with
  | Some (r, k, i) => Some (r, S k, i)
  | None => longest (PTree l) (c :: x :: s) id rgidx 1
  end.
Proof.
  intros Hl. induction n as [|n IH]; [done|].
  change (longest (PTree l) (c :: x :: s) id rgidx (S (S n))) with
    (match check_list tmrec_expr_check rgidx 0 (rules (PTree l) (c :: x :: take n s) id) with
     | Some (r, i) => Some (r, S (S n), i)
     | None => longest (PTree l) (c :: x :: s) id rgidx (S n)
     end).
  rewrite (rules_cons l c x (take n s) nd ch id Hl), IH. cbn [longest firstn].
  by destruct (check_list _ _ _ _) as [[]|].
Qed.

(** Below a leaf there are no rules. *)
Lemma longest_leaf l c x s nd id rgidx n :
  l !! Z.to_nat (idx_of_char tbl c) = Some (nd, None) →
  longest (PTree l) (c :: x :: s) id rgidx (S n) = longest (PTree l) (c :: x :: s) id rgidx 1.
Proof.
  intros Hl. induction n as [|n IH]; [done|]. rewrite <- IH.
  cbn [longest firstn rules ptnode]. by rewrite Hl.
Qed.

Lemma longest_one l c s id rgidx nd next :
  l !! Z.to_nat (idx_of_char tbl c) = Some (nd, next) →
  longest (PTree l) (c :: s) id rgidx 1 =
  match internal_check_rt tmrec_expr_check nd id rgidx with Some (r, i) => Some (r, 1%nat, i) | None => None end.
Proof.
  intros Hl. rewrite internal_check_group. cbn [longest firstn rules ptnode]. rewrite Hl.
  by destruct (check_list _ _ _ _) as [[]|].
Qed.

Lemma go_up_one t c up id rgidx nd next : 0 <= idx_of_char tbl c →
  ptnode t !! Z.to_nat (idx_of_char tbl c) = Some (nd, next) →
  go_up tmrec_expr_check tbl ((t, c) :: up) id rgidx =
  match internal_check_rt tmrec_expr_check nd id rgidx with
  | Some (r, i) => Some (Some r, Z.of_nat (S (length up)), i)
  | None => go_up tmrec_expr_check tbl up id rgidx
  end.
Proof. intros Hi Hl. cbn. rewrite (proj2 (Z.ltb_ge _ _)), Hl by done. done. Qed.

(** Down and up again: the longest prefix below, or what is found above. *)
Lemma go_down_up s : ∀ t stack, tree_ok t → all_valid tbl s → s ≠ [] →
  ∃ st, go_down tbl t stack s = inl st ∧ ∀ id rgidx,
    go_up tmrec_expr_check tbl st id rgidx =
    match longest t s id rgidx (length s) with
    | Some (r, n, i) => Some (Some r, Z.of_nat (n + length stack), i)
    | None => go_up tmrec_expr_check tbl stack id rgidx
    end.
Proof.
  induction s as [|c s IH]; intros t stack Ht Hv Hne; [done|].
  apply Forall_cons in Hv as [[H0 Hvc] Hv]. cbn [go_down]. rewrite Hvc. cbn [negb].
  destruct (tree_child t c Ht H0 Hvc) as (nd & next & Hl & _ & Hch).
  destruct (valid_idx tbl Htbl c H0 Hvc) as [Hidx _].
  assert (∀ id rgidx, go_up tmrec_expr_check tbl ((t, c) :: stack) id rgidx =
    match longest t (c :: s) id rgidx 1 with
    | Some (r, n, i) => Some (Some r, Z.of_nat (n + length stack), i)
    | None => go_up tmrec_expr_check tbl stack id rgidx
    end) as Hone.
  { intros id rgidx. destruct t as [l]. cbn [ptnode] in Hl.
    rewrite (go_up_one (PTree l) c stack id rgidx nd next) by (done || lia).
    rewrite (longest_one l c s id rgidx nd next Hl). by destruct (internal_check_rt _ _ _ _) as [[]|]. }
  destruct s as [|x s]; [by exists ((t, c) :: stack)|].
  rewrite (proj2 (Z.ltb_ge _ _)) by lia. rewrite Hl. destruct t as [l]. cbn [ptnode] in Hl.
  destruct next as [ch|].
  - destruct (IH ch ((PTree l, c) :: stack) (Hch ch eq_refl) Hv ltac:(done)) as (st & -> & Hup).
    exists st. split; [done|]. intros id rgidx. rewrite Hup. cbn [length].
    rewrite (longest_child l c x s nd ch id rgidx (S (length s)) Hl). cbn [length].
    destruct (longest ch (x :: s) id rgidx (S (length s))) as [[[r n] i]|]; [|apply Hone].
    do 3 f_equal. lia.
  - exists ((PTree l, c) :: stack). split; [done|]. intros id rgidx. rewrite Hone.
    cbn [length]. by rewrite (longest_leaf l c x s nd id rgidx (S (length s)) Hl).
Qed.

(** [get_prefix] on a number of valid characters is the reference search. *)
Lemma get_prefix_longest s t id rgidx : tree_ok t → all_valid tbl s → s ≠ [] →
  get_prefix tmrec_expr_check tbl t s id rgidx =
  Some match longest t s id rgidx (length s) with
       | Some (r, n, i) => (Some r, Some (Z.of_nat n), i)
       | None => (None, Some 0, rgidx)
       end.
Proof.
  intros Ht Hv Hne. unfold get_prefix. destruct s as [|c s]; [done|].
  destruct (go_down_up (c :: s) t [] Ht Hv Hne) as (st & -> & Hup). rewrite Hup.
  destruct (longest t (c :: s) id rgidx (length (c :: s))) as [[[r n] i]|]; [|done].
  cbn [mbind option_bind length]. by rewrite Nat.add_0_r.
Qed.

(** ** Usable rules *)

Definition usable (r : rt_info) : bool :=
  match rt_time_rec r with None => true | Some tr => tmrec_expr_check tr end.

Lemma check_list_some rgidx j l r i : check_list tmrec_expr_check rgidx j l = Some (r, i) →
  ∃ l1 l2, l = l1 ++ r :: l2 ∧ usable r = true ∧ rgidx <= j + Z.of_nat (length l1) ∧
    (∀ k x, l1 !! k = Some x → rgidx <= j + Z.of_nat k → usable x = false) ∧
    i = match l2 with [] => 0 | _ => j + Z.of_nat (length l1) + 1 end.
Proof.
  revert j. induction l as [|h l IH]; intros j H; [done|]. cbn [check_list] in H.
  destruct ((rgidx <=? j) && _) eqn:E.
  - simplify_eq. zbool. exists [], l. split_and!; [done|done|cbn; lia|done|].
    destruct l; [done|]. cbn. lia.
  - destruct (IH _ H) as (l1 & l2 & -> & Hu & Hi & Hb & ->).
    exists (h :: l1), l2. split_and!; [done|done|cbn; lia| |destruct l2; [done|cbn [length]; lia]].
    intros [|k] x Hk Hle; simplify_eq/=; [|apply (Hb k); [done|lia]].
    apply andb_false_iff in E as [E|E]; [zbool; lia|done].
Qed.

Lemma check_list_none rgidx j l : check_list tmrec_expr_check rgidx j l = None →
  ∀ k x, l !! k = Some x → rgidx <= j + Z.of_nat k → usable x = false.
Proof.
  revert j. induction l as [|h l IH]; intros j H k x Hk Hle; [done|]. cbn [check_list] in H.
  destruct ((rgidx <=? j) && _) eqn:E; [done|].
  destruct k as [|k]; simplify_eq/=; [|apply (IH _ H k); [done|lia]].
  apply andb_false_iff in E as [E|E]; [zbool; lia|done].
Qed.

Lemma group_rules_sorted nd id : node_ok nd → sorted_rules (group_rules nd id).
Proof.
  intros Hok. unfold group_rules. pose proof Hok as Hok0. unfold node_ok in Hok0.
  destruct (rg nd) as [a|]; [|constructor]. destruct Hok0 as (_ & _ & Hb).
  destruct (Nat.ltb_spec (find_rg id (rg_pos nd) a) (rg_pos nd)); [|constructor].
  destruct (a !! _) eqn:E; [|constructor]. by eapply aok_used.
Qed.

Lemma rules_sorted p : ∀ t id, tree_ok t → sorted_rules (rules t p id).
Proof.
  induction p as [|c p IH]; intros t id Ht; [constructor|]. cbn.
  destruct (ptnode t !! _) as [[nd next]|] eqn:E; [|constructor].
  inversion Ht as [l Hlen Hn Hc]; subst. cbn in E.
  destruct p as [|x p]; [by eapply group_rules_sorted, Hn|].
  destruct next as [ch|]; [|constructor]. eapply IH, Hc, E.
Qed.

Lemma longest_some t s id rgidx n r k i : longest t s id rgidx n = Some (r, k, i) →
  (1 ≤ k ≤ n)%nat ∧ check_list tmrec_expr_check rgidx 0 (rules t (take k s) id) = Some (r, i) ∧
  ∀ k', (k < k' ≤ n)%nat → check_list tmrec_expr_check rgidx 0 (rules t (take k' s) id) = None.
Proof.
  induction n as [|n IH]; [done|]. cbn [longest].
  destruct (check_list _ _ _ (rules t (take (S n) s) id)) as [[r' i']|] eqn:E; intros H.
  - simplify_eq. split_and!; [lia..|done|]. intros; lia.
  - destruct (IH H) as (? & ? & Hno). split_and!; [lia..|done|].
    intros k' Hk'. destruct (decide (k' = S n)) as [->|]; [done|apply Hno; lia].
Qed.

Lemma longest_none t s id rgidx n : longest t s id rgidx n = None →
  ∀ k, (1 ≤ k ≤ n)%nat → check_list tmrec_expr_check rgidx 0 (rules t (take k s) id) = None.
Proof.
  induction n as [|n IH]; intros H k Hk; [lia|]. cbn [longest] in H.
  destruct (check_list _ _ _ (rules t (take (S n) s) id)) as [[]|] eqn:E; [done|].
  destruct (decide (k = S n)) as [->|]; [done|apply IH; [done|lia]].
Qed.

(** No usable rule in a list. *)
Definition none_usable (l : list rt_info) : Prop := Forall (λ r, usable r = false) l.

Lemma none_usable_check l : check_list tmrec_expr_check 0 0 l = None → none_usable l.
Proof.
  intros H. apply Forall_lookup. intros k x Hk. eapply (check_list_none 0 0 l H k x Hk). lia.
Qed.
End tree.

(** C29. For a number of characters that prefixes can have, [get_prefix] returns a rule of the longest prefix
    of the number that has a usable rule in the group, and of these the one of the highest priority, with the
    length of the prefix; it returns none only when no prefix of the number has a usable rule.  A rule out of
    its time is not usable, so a shorter prefix is taken when all rules of the longest one are out of
    their time, where the documentation of the module chooses the longest prefix first and applies the time
    to its rules only. *)
Theorem get_prefix_longest_match {tmrec} (check : tmrec → bool) tbl (t : ptree tmrec) s id :
  table_ok tbl → tree_ok tbl t → all_valid tbl s → s ≠ [] →
  match get_prefix check tbl t s id 0 with
  | Some (Some r, Some len, _) => ∃ n,
      len = Z.of_nat n ∧ (1 ≤ n ≤ length s)%nat ∧ r ∈ rules tbl t (take n s) id ∧ usable check r = true ∧
      (∀ r', r' ∈ rules tbl t (take n s) id → usable check r' = true → rt_priority r' <= rt_priority r) ∧
      (∀ n', (n < n' ≤ length s)%nat → none_usable check (rules tbl t (take n' s) id))
  | Some (None, Some len, _) =>
      len = 0 ∧ ∀ n, (1 ≤ n ≤ length s)%nat → none_usable check (rules tbl t (take n s) id)
  | _ => False
  end.
Proof.
  intros Htbl Ht Hv Hne. rewrite (get_prefix_longest check tbl Htbl) by done.
  destruct (longest check tbl t s id 0 (length s)) as [[[r n] i]|] eqn:E.
  - apply longest_some in E as (Hn & Hc & Hlong). exists n.
    apply check_list_some in Hc as (l1 & l2 & El & Hu & _ & Hb & _).
    pose proof (rules_sorted tbl (take n s) t id Ht) as Hs. rewrite El in Hs |- *.
    split_and!; [done|lia..|set_solver|done| |].
    + intros r' Hr' Hu'. apply elem_of_app in Hr' as [Hr'|Hr'].
      * apply list_elem_of_lookup in Hr' as [k Hk].
        rewrite (Hb k r' Hk ltac:(lia)) in Hu'. done.
      * apply elem_of_cons in Hr' as [->|Hr']; [lia|].
        clear -Hs Hr'. induction l1 as [|x l1 IH]; inversion Hs as [|? ? Hs' Hall]; subst; [|auto].
        rewrite Forall_forall in Hall. by apply Hall.
    + intros n' Hn'. apply none_usable_check, Hlong. lia.
  - split; [done|]. intros n Hn. eapply none_usable_check, longest_none; [done|lia].
Qed.
