(* ===== verification/DrFallback.v ===== *)
(** * DrFallback: routing tables, the order of fallback and the release of the rules

    Adding rules to a routing table refines a map from prefixes and groups to sorted lists; the
    release of a table frees every linked rule once and the
    rules of failed additions never; the sequence of the rules that [do_routing] tries when each of them fails. *)

From stdpp Require Import prelude list gmap.
From Stdlib Require Import ZArith Lia Sorted.
From S2P Require Import Prelude DrPrefix DrPrefixFacts DrPrefixSpec.

(** ** A routing table as a map *)

Section data.
Context {tmrec : Type}.
Variable check : tmrec → bool.
Variable tbl : char_table.
Hypothesis Htbl : table_ok tbl.
Abbreviation rt_info := (rt_info tmrec).
Abbreviation rt_data := (rt_data tmrec).

(** The rules of a group for a prefix; the empty prefix stands for the prefixless rules. *)
Definition data_rules (d : rt_data) (p : bytes) (id : Z) : list rt_info :=
  match p with [] => group_rules (noprefix d) id | _ => rules tbl (pt d) p id end.

Definition data_ok (d : rt_data) : Prop := node_ok (noprefix d) ∧ tree_ok tbl (pt d).

(** All the rules, with repetitions. *)
Definition all_rules (d : rt_data) : list rt_info := tree_rules (pt d) ++ node_rules (noprefix d).

Lemma data_rules_sorted d p id : data_ok d → sorted_rules (data_rules d p id).
Proof. intros [Hn Ht]. destruct p as [|c p]; [by apply group_rules_sorted|by apply rules_sorted]. Qed.

Lemma link_rule_ok d prefix r id m : data_ok d → Forall (λ c, 0 <= c) prefix →
  ∃ (ok : bool) d' m', link_rule tbl d prefix r id m = Some (if ok then 0 else -1, d', m') ∧
    data_ok d' ∧
    (∀ p id', all_valid tbl p →
       data_rules d' p id' = if ok && bool_decide (p = prefix) && (id' =? id)
                             then insert_rt r (data_rules d prefix id) else data_rules d p id') ∧
    (all_rules d' ≡ₚ if ok then r :: all_rules d else all_rules d) ∧
    mem_refs m' = (if ok then mem_refs (ref_rt m r) else mem_refs m) ∧
    (mem_allocs m = [] → all_valid tbl prefix → ok = true ∧ mem_allocs m' = []) ∧
    (ok = true → all_valid tbl prefix).
Proof.
  intros [Hn Ht] Hpos. unfold link_rule, all_rules. destruct prefix as [|c prefix].
  - destruct (add_rt_info_ok (noprefix d) r id m Hn) as (ok & nd & m' & -> & Hok & Hr & Hperm & Hrefs & Hall).
    exists ok, (mk_data nd (pt d)), m'. split_and!; [by destruct ok|done| | |done|auto|intros _; constructor].
    + intros [|x p] id' Hp; cbn [data_rules]; [|by rewrite bool_decide_false, andb_false_r].
      cbn [noprefix]. rewrite (Hr id'), bool_decide_true, andb_true_r by done. done.
    + cbn [pt noprefix]. destruct ok; rewrite Hperm; [by rewrite Permutation_middle|done].
  - destruct (add_prefix_ok tbl Htbl (c :: prefix) (pt d) r id m Ht ltac:(done) Hpos)
      as (ok & t' & m' & E & Hok & Hr & Hperm & Hrefs & Hall). rewrite E. cbn [mbind option_bind].
    exists ok, (mk_data (noprefix d) t'), m'. split_and!; [by destruct ok|done| | |done|auto|].
    + intros [|x p] id' Hp; cbn [data_rules]; [by rewrite bool_decide_false, andb_false_r|].
      cbn [pt]. by rewrite (Hr (x :: p) id' Hp).
    + cbn [pt noprefix]. destruct ok; by rewrite Hperm.
    + intros ->. by apply add_prefix_valid in E.
Qed.

(** The addition of a fresh rule: it is linked once, or left allocated without a link, or not
    allocated. *)
Lemma add_rule_api_ok d prefix id prio tr addr m : data_ok d → Forall (λ c, 0 <= c) prefix →
  let r := mk_rt addr prio tr in
  ∃ (ok : bool) d' m', add_rule_api tbl d prefix id prio tr addr m = Some (if ok then 0 else -1, d', m') ∧
    data_ok d' ∧
    (∀ p id', all_valid tbl p →
       data_rules d' p id' = if ok && bool_decide (p = prefix) && (id' =? id)
                             then insert_rt r (data_rules d prefix id) else data_rules d p id') ∧
    (all_rules d' ≡ₚ if ok then r :: all_rules d else all_rules d) ∧
    (if ok then mem_refs m' = <[addr := 1]> (mem_refs m)
     else mem_refs m' = mem_refs m ∨ mem_refs m' = <[addr := 0]> (mem_refs m)) ∧
    (mem_allocs m = [] → all_valid tbl prefix → ok = true) ∧
    (ok = true → all_valid tbl prefix).
Proof.
  intros Hd Hpos r. unfold add_rule_api.
  pose proof (alloc_refs m) as R. pose proof (alloc_empty m) as N.
  destruct (alloc m) as [[] m1]; cbn [fst snd negb] in *.
  - change (mk_rt addr prio tr) with r. cbv zeta. destruct (link_rule_ok d prefix r id (new_rt m1 r) Hd Hpos) as (ok & d' & m' & -> & Hd' & Hr & Hp & Hrefs & Hall & Hv).
    exists ok, d', m'. split_and!; [done|done|done|done| | |done].
    + rewrite Hrefs. destruct ok; cbn; [|rewrite R; by right]. by rewrite lookup_insert_eq, insert_insert_eq, R.
    + intros E Hav. apply Hall; [|done]. specialize (N E). by simplify_eq.
  - exists false, d, m1. split_and!; [done..|left; done|intros E; by specialize (N E)|done].
Qed.
End data.


(** ** The release *)

Section release.
Context {tmrec : Type}.
Variable tbl : char_table.
Abbreviation rt_info := (rt_info tmrec).
Abbreviation rt_data := (rt_data tmrec).

(** How many times the rule of an address occurs. *)
Definition occurs (a : Z) (l : list rt_info) : nat := length (List.filter (λ r, rt_addr r =? a) l).

(** The rules in memory are those of [l], none of them twice and each with the count 1, and the unlinked ones of [base]. *)
Definition refs_ok (base refs : gmap Z Z) (l : list rt_info) : Prop :=
  ∀ a, match occurs a l with
       | 0%nat => refs !! a = base !! a
       | 1%nat => refs !! a = Some 1 ∧ base !! a = None
       | _ => False
       end.

Lemma occurs_cons a r l : occurs a (r :: l) = ((if (rt_addr r =? a)%Z then 1 else 0) + occurs a l)%nat.
Proof. unfold occurs. cbn. by destruct (rt_addr r =? a). Qed.

Lemma occurs_app a l1 l2 : occurs a (l1 ++ l2) = (occurs a l1 + occurs a l2)%nat.
Proof. unfold occurs. by rewrite List.filter_app, length_app. Qed.

Lemma occurs_in a l : occurs a l ≠ 0%nat ↔ a ∈ rt_addr <$> l.
Proof.
  induction l as [|r l IH]; [cbn; set_solver|]. rewrite occurs_cons, fmap_cons, elem_of_cons, <- IH.
  destruct (Z.eqb_spec (rt_addr r) a); naive_solver lia.
Qed.

Lemma del_rt_list_app (l1 l2 : list rt_info) (st : gmap Z Z * list Z) :
  del_rt_list_api (l1 ++ l2) st = (st ← del_rt_list_api l1 st; del_rt_list_api l2 st).
Proof.
  revert st. induction l1 as [|h l1 IH]; intros [refs freed]; [done|]. cbn.
  destruct (refs !! rt_addr h); [|done]. cbn. case_match; apply IH.
Qed.

Lemma del_node_list nd st : del_node nd st = del_rt_list_api (@node_rules tmrec nd) st.
Proof.
  unfold del_node, node_rules. destruct (rg nd) as [a|]; [|done].
  generalize (take (rg_pos nd) a) as l. intros l.
  assert (∀ o, foldl (λ st en, st ← st; del_rt_list_api (rtlw en) st) o l =
    (st ← o; del_rt_list_api (mjoin (rtlw <$> l)) st)) as H; [|by rewrite (H (Some st))].
  induction l as [|en l IH]; intros [st'|]; try done.
  - cbn [foldl]. rewrite IH. cbn [fmap list_fmap mjoin list_join mbind option_bind].
    by rewrite del_rt_list_app.
  - cbn [foldl]. rewrite IH. done.
Qed.

Lemma del_tree_list (t : ptree tmrec) : tree_ok tbl t → ∀ st, del_tree_api t st = del_rt_list_api (tree_rules t) st.
Proof.
  induction 1 as [l Hlen Hn Hc IH]. clear Hlen Hn Hc. cbn [del_tree_api tree_rules].
  induction l as [|[nd next] l IHl]; intros st; [done|].
  rewrite del_rt_list_app, <- del_node_list. destruct (del_node nd st) as [st1|]; [|done].
  cbn [mbind option_bind]. rewrite del_rt_list_app.
  assert (match next with Some ch => del_tree_api ch st1 | None => Some st1 end =
    del_rt_list_api (match next with Some ch => tree_rules ch | None => [] end) st1) as ->
    by (destruct next as [ch|]; [by apply (IH 0%nat nd)|done]).
  destruct (del_rt_list_api _ st1) as [st2|]; [|done]. cbn [mbind option_bind].
  apply IHl. intros i nd' ch Hi. by apply (IH (S i) nd' ch).
Qed.

Lemma del_rt_list_ok base (l : list rt_info) : ∀ refs freed, refs_ok base refs l →
  ∃ fr, del_rt_list_api l (refs, freed) = Some (base, fr ++ freed) ∧ NoDup fr ∧ ∀ a, a ∈ fr ↔ a ∈ rt_addr <$> l.
Proof.
  induction l as [|h l IH]; intros refs freed Hok.
  { exists []. split_and!; [|constructor|set_solver]. cbn. do 2 f_equal. apply map_eq. exact Hok. }
  cbn [del_rt_list_api]. pose proof (Hok (rt_addr h)) as Hh. rewrite occurs_cons, Z.eqb_refl in Hh.
  destruct (occurs (rt_addr h) l) as [|n] eqn:En; [|done]. cbn in Hh. destruct Hh as [-> Hb]. cbn [mbind option_bind].
  change (u16 (1 - 1) =? 0) with true. cbv iota.
  destruct (IH (delete (rt_addr h) refs) (rt_addr h :: freed)) as (fr & -> & Hnd & Hfr).
  { intros a. pose proof (Hok a) as Ha. rewrite occurs_cons in Ha. destruct (Z.eqb_spec (rt_addr h) a) as [Heq|Hne].
    - rewrite <- Heq. by rewrite En, lookup_delete_eq, Hb.
    - cbn in Ha. by rewrite lookup_delete_ne. }
  assert (Hnot : rt_addr h ∉ rt_addr <$> l) by (rewrite <- occurs_in; lia).
  exists (fr ++ [rt_addr h]). rewrite <- app_assoc. split_and!; [done| |].
  - apply NoDup_app. split_and!; [done| |apply NoDup_singleton]. intros x Hx ->%list_elem_of_singleton. by apply Hnot, Hfr.
  - intros a. rewrite elem_of_app, list_elem_of_singleton, fmap_cons, elem_of_cons, Hfr. tauto.
Qed.

Lemma refs_ok_perm base refs l l' : l ≡ₚ l' → refs_ok base refs l → refs_ok base refs l'.
Proof.
  intros Hp Hok a. assert (occurs a l' = occurs a l) as ->; [|apply Hok].
  clear Hok. induction Hp; rewrite ?occurs_cons; lia.
Qed.

Lemma refs_ok_link base refs r l : refs_ok base refs l → refs !! rt_addr r = None →
  refs_ok base (<[rt_addr r := 1]> refs) (r :: l).
Proof.
  intros Hok Hnew a. rewrite occurs_cons. pose proof (Hok a) as Ha. destruct (Z.eqb_spec (rt_addr r) a) as [Heq|Hne]; cbn.
  - rewrite <- Heq in *. destruct (occurs _ l) as [|[|]]; [|destruct Ha; congruence|done]. rewrite lookup_insert_eq. split; [done|congruence].
  - by rewrite lookup_insert_ne.
Qed.

Lemma refs_ok_leak base refs addr l : refs_ok base refs l → refs !! addr = None →
  refs_ok (<[addr := 0]> base) (<[addr := 0]> refs) l.
Proof.
  intros Hok Hnew a. pose proof (Hok a) as Ha. destruct (decide (a = addr)) as [->|Hne].
  - destruct (occurs _ l) as [|[|]]; [|destruct Ha; congruence|done]. by rewrite !lookup_insert_eq.
  - by rewrite !lookup_insert_ne.
Qed.

Lemma refs_ok_nodup base refs l : refs_ok base refs l → NoDup (rt_addr <$> l).
Proof.
  revert refs. induction l as [|r l IH]; intros refs Hok; [constructor|]. cbn [fmap list_fmap].
  assert (occurs (rt_addr r) l = 0%nat) as E.
  { specialize (Hok (rt_addr r)). rewrite occurs_cons, Z.eqb_refl in Hok. by destruct (occurs _ l). }
  apply NoDup_cons. split; [rewrite <- occurs_in; lia|].
  apply (IH (match base !! rt_addr r with Some v => <[rt_addr r := v]> refs | None => delete (rt_addr r) refs end)).
  intros a. pose proof (Hok a) as Ha. rewrite occurs_cons in Ha. destruct (Z.eqb_spec (rt_addr r) a) as [Heq|Hne].
  - rewrite <- Heq, E. destruct (base !! rt_addr r); by rewrite ?lookup_insert_eq, ?lookup_delete_eq.
  - cbn in Ha. destruct (base !! rt_addr r); by rewrite ?lookup_insert_ne, ?lookup_delete_ne.
Qed.
End release.

(** A table created and rules added to it one after the other, each at an address that no rule in memory has.  An addition
    that fails may leave a rule in memory that no list has ([leaked]). *)
Inductive table_built {tmrec} (tbl : char_table) : rt_data tmrec → gmap Z Z → gset Z → Prop :=
  | built_new d m m' : mem_refs m = ∅ → create_dr_head tbl m = (Some d, m') → table_built tbl d (mem_refs m') ∅
  | built_add d leaked prefix id prio tr addr m m' d' :
      table_built tbl d (mem_refs m) leaked → Forall (λ c, 0 <= c) prefix → mem_refs m !! addr = None →
      add_rule_api tbl d prefix id prio tr addr m = Some (0, d', m') →
      table_built tbl d' (mem_refs m') leaked
  | built_fail d leaked prefix id prio tr addr m m' d' :
      table_built tbl d (mem_refs m) leaked → Forall (λ c, 0 <= c) prefix → mem_refs m !! addr = None →
      add_rule_api tbl d prefix id prio tr addr m = Some (-1, d', m') →
      table_built tbl d' (mem_refs m') (if bool_decide (is_Some (mem_refs m' !! addr)) then {[addr]} ∪ leaked else leaked).

Lemma create_dr_head_refs {tmrec} tbl m d m' : create_dr_head (tmrec := tmrec) tbl m = (Some d, m') →
  d = mk_data null_node (new_ptree tbl) ∧ mem_refs m' = mem_refs m.
Proof.
  unfold create_dr_head. pose proof (alloc_refs m) as R. destruct (alloc m) as [[] m1]; [|done]. cbn [fst snd negb] in *.
  pose proof (alloc_refs m1) as R1. destruct (alloc m1) as [[] m2]; [|done]. cbn [fst snd] in *. intros [= <- <-]. split; [done|congruence].
Qed.

Lemma table_built_ok {tmrec} tbl (d : rt_data tmrec) refs leaked : table_ok tbl → table_built tbl d refs leaked →
  data_ok tbl d ∧ refs_ok (gset_to_gmap 0 leaked) refs (all_rules d).
Proof.
  intros Htbl. induction 1 as [d m m' Hm E|d leaked prefix id prio tr addr m m' d' _ [Hd Hr] Hpos Hnew E|d leaked prefix id prio tr addr m m' d' _ [Hd Hr] Hpos Hnew E].
  - apply create_dr_head_refs in E as [-> ->]. destruct (new_ptree_ok (tmrec := tmrec) tbl) as (? & _ & Hnil).
    split; [done|]. unfold all_rules. cbn [pt noprefix]. rewrite Hnil, Hm. intros a. cbn. by rewrite lookup_gset_to_gmap.
  - destruct (add_rule_api_ok tbl Htbl d prefix id prio tr addr m Hd Hpos) as ([] & d1 & m1 & E1 & Hd1 & _ & Hp & Hrefs & _);
      rewrite E in E1; [|done]. injection E1 as <- <-. split; [done|]. rewrite Hrefs.
    eapply refs_ok_perm; [symmetry; exact Hp|]. by apply (refs_ok_link _ _ (mk_rt addr prio tr)).
  - destruct (add_rule_api_ok tbl Htbl d prefix id prio tr addr m Hd Hpos) as ([] & d1 & m1 & E1 & Hd1 & _ & Hp & Hrefs & _);
      rewrite E in E1; [done|]. injection E1 as <- <-. split; [done|].
    eapply refs_ok_perm; [symmetry; exact Hp|]. destruct Hrefs as [-> | ->].
    + rewrite bool_decide_false; [done|]. rewrite Hnew. by intros [].
    + rewrite bool_decide_true by (rewrite lookup_insert_eq; by eexists). rewrite gset_to_gmap_union_singleton.
      by apply refs_ok_leak.
Qed.

(** C35. A routing table of the module interface is created, rules are added to it, also with additions that fail, and it is
    released.  Before the release every linked rule is in one list and its reference count is 1.  The release frees every
    linked rule exactly once and uses none after it is freed; what is left in memory afterwards are exactly the
    rules whose addition failed after they were allocated, which no function frees. *)
Theorem table_release_frees_once {tmrec} tbl (d : rt_data tmrec) refs leaked :
  table_ok tbl → table_built tbl d refs leaked →
  data_ok tbl d ∧ NoDup (rt_addr <$> all_rules d) ∧
  (∀ r, r ∈ all_rules d → refs !! rt_addr r = Some 1) ∧
  ∃ freed, free_dr_head d (refs, []) = Some (gset_to_gmap 0 leaked, freed) ∧ NoDup freed ∧
    ∀ a, a ∈ freed ↔ a ∈ rt_addr <$> all_rules d.
Proof.
  intros Htbl Hb. destruct (table_built_ok tbl d refs leaked Htbl Hb) as [Hd Hr].
  split; [done|]. split; [by eapply refs_ok_nodup|]. split.
  { intros r Hin. specialize (Hr (rt_addr r)). apply (list_elem_of_fmap_2 rt_addr), occurs_in in Hin.
    by destruct (occurs _ _) as [|[|]]; destruct Hr. }
  destruct Hd as [Hn Ht]. unfold free_dr_head. rewrite (del_tree_list tbl) by done.
  assert ((st ← del_rt_list_api (tree_rules (pt d)) (refs, []); del_node (noprefix d) st) =
    del_rt_list_api (all_rules d) (refs, [])) as ->.
  { unfold all_rules. rewrite del_rt_list_app. destruct (del_rt_list_api _ _); [|done]. cbn. apply del_node_list. }
  destruct (del_rt_list_ok (gset_to_gmap 0 leaked) (all_rules d) refs [] Hr) as (fr & -> & Hnd & Hfr).
  exists (fr ++ []). rewrite app_nil_r. by split_and!.
Qed.

(** ** A small routing table *)

(** Digits and the plus sign; a recurrence is whether the rule is in its time. *)
Definition demo_tbl : char_table := init_prefix_tree [43].
Definition demo_rt (addr prio : Z) (tr : option bool) : rt_info bool := mk_rt addr prio tr.

Definition demo_step (x : rt_data bool * dr_mem) (p : bytes) (addr prio : Z) (tr : option bool) : rt_data bool * dr_mem :=
  match add_rule_api demo_tbl x.1 p 7 prio tr addr x.2 with Some (_, d, m) => (d, m) | None => x end.

Definition demo_0 : rt_data bool * dr_mem := (mk_data null_node (new_ptree demo_tbl), mk_mem [] ∅).
Definition demo_1 := demo_step demo_0 [49] 100 1 None.
Definition demo_2 := demo_step demo_1 [49; 50] 101 1 (Some false).
Definition demo_3 := demo_step demo_2 [49; 50] 102 5 None.
Definition demo_4 := demo_step demo_3 [] 103 1 None.
(** A letter cannot be in a prefix. *)
Definition demo_5 := demo_step demo_4 [97] 104 1 None.

Lemma demo_tbl_ok : table_ok demo_tbl.
Proof. apply init_prefix_tree_ok; [by repeat constructor|cbn; lia]. Qed.

Lemma demo_step_built x leaked p addr prio tr : table_built demo_tbl x.1 (mem_refs x.2) leaked → Forall (λ c, 0 <= c) p →
  mem_refs x.2 !! addr = None → (∃ d m, add_rule_api demo_tbl x.1 p 7 prio tr addr x.2 = Some (0, d, m)) →
  table_built demo_tbl (demo_step x p addr prio tr).1 (mem_refs (demo_step x p addr prio tr).2) leaked.
Proof. intros Hb Hp Hnew (d & m & E). unfold demo_step. rewrite E. by eapply built_add. Qed.

Lemma demo_built : table_built demo_tbl demo_4.1 (mem_refs demo_4.2) ∅.
Proof.
  do 4 (apply demo_step_built; [|by repeat constructor|by vm_compute|eexists _, _; vm_compute; reflexivity]).
  by eapply (built_new demo_tbl _ (mk_mem [] ∅)).
Qed.

Lemma demo_failed : table_built demo_tbl demo_5.1 (mem_refs demo_5.2) {[104]}.
Proof.
  assert (({[104]} : gset Z) = if bool_decide (is_Some (mem_refs demo_5.2 !! 104)) then {[104]} ∪ ∅ else ∅) as ->
    by (by vm_compute).
  eapply built_fail with (prefix := [97]) (id := 7) (prio := 1) (tr := None) (m := demo_4.2);
    [apply demo_built|by repeat constructor|by vm_compute|vm_compute; reflexivity].
Qed.

Lemma demo_ok : data_ok demo_tbl demo_4.1.
Proof. exact (proj1 (table_built_ok _ _ _ _ demo_tbl_ok demo_built)). Qed.

Lemma table_release_frees_once_witness : (length (all_rules demo_5.1) = 4)%nat ∧
  ∃ freed, free_dr_head demo_5.1 (mem_refs demo_5.2, []) = Some ({[104 := 0]}, freed) ∧ NoDup freed ∧
    ∀ a, a ∈ freed ↔ a ∈ rt_addr <$> all_rules demo_5.1.
Proof.
  split; [by vm_compute|].
  destruct (table_release_frees_once demo_tbl demo_5.1 (mem_refs demo_5.2) {[104]} demo_tbl_ok demo_failed) as (_ & _ & _ & H).
  rewrite gset_to_gmap_singleton in H. exact H.
Defined.


(** The loader frees a rule whose group list has an error although it is already linked in the groups before
    the error: the release of the table uses a rule that is not there any more. *)
Example loader_frees_linked_rule :
  ∃ d m, add_rule demo_tbl demo_0.1 [49] (demo_rt 100 1 None) [Some 7; None] (new_rt demo_0.2 (demo_rt 100 1 None)) = Some (-1, d, m) ∧
    data_rules demo_tbl d [49] 7 = [demo_rt 100 1 None] ∧
    free_dr_head d (delete 100 (mem_refs m), [100]) = None.
Proof. eexists _, _. split; [vm_compute; reflexivity|]. split; vm_compute; reflexivity. Qed.

Lemma get_prefix_longest_match_witness :
  get_prefix id demo_tbl (pt demo_4.1) [49; 50; 51] 7 0 = Some (Some (demo_rt 102 5 None), Some 2, 1) ∧
  ∃ n, 2 = Z.of_nat n ∧ (1 ≤ n ≤ 3)%nat ∧
    demo_rt 102 5 None ∈ rules demo_tbl (pt demo_4.1) (take n [49; 50; 51]) 7.
Proof.
  pose proof (get_prefix_longest_match id demo_tbl (pt demo_4.1) [49; 50; 51] 7 demo_tbl_ok (proj2 demo_ok)
    ltac:(repeat constructor; by vm_compute) ltac:(discriminate)) as H.
  assert (get_prefix id demo_tbl (pt demo_4.1) [49; 50; 51] 7 0 = Some (Some (demo_rt 102 5 None), Some 2, 1)) as E
    by (vm_compute; reflexivity).
  rewrite E in H. split; [exact E|]. destruct H as (n & H1 & H2 & H3 & _). exists n. auto.
Defined.

(** ** The order of fallback *)

Section order.
Context {tmrec : Type}.
Variable check : tmrec → bool.
Variable tbl : char_table.
Hypothesis Htbl : table_ok tbl.
Abbreviation rt_info := (rt_info tmrec).
Abbreviation rt_data := (rt_data tmrec).
Implicit Types (d : rt_data).

(** The rules of the prefixes of at most [n] characters, from the longest to the shortest. *)
Fixpoint prefix_rules (d : rt_data) (s : bytes) (grp : Z) (n : nat) : list rt_info :=
  match n with
  | O => []
  | S n' => rules tbl (pt d) (take n s) grp ++ prefix_rules d s grp n'
  end.

(** The prefixless rules, which are only reached when no rule has the first character alone as its prefix. *)
Definition prefixless (d : rt_data) (s : bytes) (grp : Z) : list rt_info :=
  match rules tbl (pt d) (take 1 s) grp with
  | [] => group_rules (noprefix d) grp
  | _ => []
  end.

Lemma search_rule_nil d grp idx : 0 <= idx →
  search_rule check tbl d false [] grp idx =
  Some match check_list check idx 0 (group_rules (noprefix d) grp) with
       | Some (r, i) => Some (mk_found r 0 (if i =? 0 then -1 else i))
       | None => None
       end.
Proof.
  intros Hi. unfold search_rule. cbn [get_prefix mbind option_bind andb].
  rewrite (proj2 (Z.leb_le _ _)) by done. rewrite internal_check_group.
  by destruct (check_list _ _ _ _) as [[]|].
Qed.

Lemma search_rule_longest d s grp idx : tree_ok tbl (pt d) → all_valid tbl s → s ≠ [] → 0 <= idx →
  search_rule check tbl d false s grp idx =
  match longest check tbl (pt d) s grp idx (length s) with
  | Some (r, n, i) => Some (Some (mk_found r (Z.of_nat n) i))
  | None => search_rule check tbl d false [] grp idx
  end.
Proof.
  intros Ht Hv Hs Hi. rewrite search_rule_nil by done. unfold search_rule.
  rewrite (get_prefix_longest check tbl Htbl) by done. cbn [mbind option_bind andb].
  destruct (longest _ _ _ _ _ _ _) as [[[r n] i]|]; [done|].
  rewrite (proj2 (Z.leb_le _ _)) by done. rewrite internal_check_group.
  by destruct (check_list _ _ _ _) as [[]|].
Qed.

Lemma longest_take d s m grp idx n : (n ≤ m)%nat →
  longest check tbl (pt d) (take m s) grp idx n = longest check tbl (pt d) s grp idx n.
Proof.
  intros Hm. induction n as [|n IH]; [done|]. cbn [longest]. rewrite take_take, Nat.min_l by lia.
  by rewrite IH by lia.
Qed.

(** The parts of the list of rules tried. *)
Hypothesis all_usable : ∀ tr, check tr = true.

Lemma check_list_all j l idx : j <= idx →
  check_list check idx j l =
  match l !! Z.to_nat (idx - j) with
  | Some r => Some (r, match drop (S (Z.to_nat (idx - j))) l with [] => 0 | _ => idx + 1 end)
  | None => None
  end.
Proof.
  revert j. induction l as [|h l IH]; intros j Hj; [done|]. cbn [check_list].
  assert (match rt_time_rec h with Some tr => check tr | None => true end = true) as ->
    by (by destruct (rt_time_rec h)).
  destruct (Z.leb_spec idx j) as [?|?]; cbn [andb].
  - replace idx with j by lia. rewrite Z.sub_diag. cbn. by rewrite drop_0.
  - rewrite IH by lia. replace (Z.to_nat (idx - j)) with (S (Z.to_nat (idx - (j + 1)))) by lia. done.
Qed.

(** A rule found at [idx] with others after it, or as the last one. *)
Lemma check_list_at l (k : nat) r : l !! k = Some r →
  check_list check (Z.of_nat k) 0 l =
  Some (r, match drop (S k) l with [] => 0 | _ => Z.of_nat k + 1 end).
Proof.
  intros Hk. rewrite check_list_all by lia. rewrite Z.sub_0_r, Nat2Z.id, Hk. done.
Qed.

Lemma check_list_end l (k : nat) : (length l ≤ k)%nat → check_list check (Z.of_nat k) 0 l = None.
Proof.
  intros Hk. rewrite check_list_all by lia. rewrite Z.sub_0_r, Nat2Z.id.
  by rewrite lookup_ge_None_2.
Qed.

(** The prefixless rules in order. *)
Lemma tried_nil d grp : ∀ fuel (k : nat), (length (group_rules (noprefix d) grp) < fuel + k)%nat →
  (k ≤ length (group_rules (noprefix d) grp))%nat → (0 < fuel)%nat →
  tried_rules check fuel tbl d [] grp (Z.of_nat k) = Some (drop k (group_rules (noprefix d) grp)).
Proof.
  set (l := group_rules (noprefix d) grp).
  induction fuel as [|fuel IH]; intros k Hf Hk Hpos; [lia|]. cbn [tried_rules].
  rewrite search_rule_nil by lia. fold l. cbn [mbind option_bind].
  destruct (decide (k = length l)) as [->|].
  { rewrite check_list_end, drop_all by lia. done. }
  destruct (lookup_lt_is_Some_2 l k) as [r Hr]; [lia|].
  rewrite (check_list_at l k r Hr), (drop_S _ _ _ Hr).
  destruct (drop (S k) l) as [|x rest] eqn:E; [done|].
  assert (S k < length l)%nat as Hlt by (apply (f_equal length) in E; rewrite length_drop in E; cbn in E; lia).
  rewrite (proj2 (Z.eqb_neq (Z.of_nat k + 1) 0)) by lia.
  unfold fallback. cbn [f_prefix_len f_rule_idx f_rt].
  rewrite (proj2 (Z.eqb_neq (Z.of_nat k + 1) 0)), (proj2 (Z.leb_gt (Z.of_nat k + 1) 0)) by lia.
  rewrite andb_false_r, take_nil. replace (Z.of_nat k + 1) with (Z.of_nat (S k)) by lia.
  rewrite IH by lia. by rewrite <- E.
Qed.

(** A prefix without rules is as good as the next shorter one. *)
Lemma tried_shorter d s grp fuel : tree_ok tbl (pt d) → all_valid tbl s → s ≠ [] →
  rules tbl (pt d) s grp = [] →
  tried_rules check fuel tbl d s grp 0 = tried_rules check fuel tbl d (take (length s - 1) s) grp 0.
Proof.
  intros Ht Hv Hs Hnil. destruct fuel as [|fuel]; [done|]. cbn [tried_rules].
  set (n := (length s - 1)%nat).
  assert (length s = S n) as En by (destruct s; [done|cbn in *; lia]).
  assert (search_rule check tbl d false s grp 0 = search_rule check tbl d false (take n s) grp 0) as Es.
  { rewrite search_rule_longest by done || lia. rewrite En. cbn [longest].
    rewrite firstn_all2 by lia. rewrite Hnil. cbn [check_list].
    destruct (decide (n = 0%nat)) as [->|].
    - by rewrite take_0.
    - rewrite (search_rule_longest d (take n s)); [|done|by apply Forall_take| |lia].
      + rewrite length_take_le by lia. by rewrite longest_take by lia.
      + intros E. apply (f_equal length) in E. rewrite length_take_le in E by lia. cbn in E. lia. }
  rewrite Es. destruct (search_rule check tbl d false (take n s) grp 0) as [[f|]|] eqn:E; try done.
  cbn [mbind option_bind].
  assert (f_prefix_len f <= Z.of_nat n) as Hle.
  { destruct (decide (n = 0%nat)) as [Hn|Hn].
    - rewrite Hn, take_0, search_rule_nil in E by lia.
      destruct (check_list _ _ _ _) as [[]|]; simplify_eq/=. lia.
    - rewrite search_rule_longest in E; [|done|by apply Forall_take| |lia].
      + destruct (longest _ _ _ _ _ _ _) as [[[r k] i]|] eqn:El.
        * simplify_eq/=. apply longest_some in El as (? & _). rewrite length_take_le in * by lia. lia.
        * rewrite search_rule_nil in E by lia. destruct (check_list _ _ _ _) as [[]|]; simplify_eq/=. lia.
      + intros E'. apply (f_equal length) in E'. rewrite length_take_le in E' by lia. cbn in E'. lia. }
  unfold fallback. destruct (_ && _); [done|].
  rewrite take_take, Nat.min_l; [done|]. case_match; lia.
Qed.

Lemma prefix_rules_take d s grp m n : (n ≤ m)%nat →
  prefix_rules d (take m s) grp n = prefix_rules d s grp n.
Proof.
  intros Hm. induction n as [|n IH]; [done|]. cbn [prefix_rules]. rewrite take_take, Nat.min_l by lia.
  by rewrite IH by lia.
Qed.

Lemma prefixless_take d s grp m : (0 < m)%nat → prefixless d (take m s) grp = prefixless d s grp.
Proof. intros Hm. unfold prefixless. by rewrite take_take, Nat.min_l by lia. Qed.

(** The rules still to be tried from the one of index [k] of prefix [s] on. *)
Definition rest_rules (d : rt_data) (s : bytes) (grp : Z) (k : nat) : list rt_info :=
  drop k (rules tbl (pt d) s grp) ++ prefix_rules d s grp (length s - 1) ++ prefixless d s grp.

Lemma rest_rules_shorter d s grp : (2 ≤ length s)%nat →
  rest_rules d (take (length s - 1) s) grp 0 =
  prefix_rules d s grp (length s - 1) ++ prefixless d s grp.
Proof.
  intros Hs. unfold rest_rules. rewrite drop_0, length_take_le by lia.
  destruct (length s - 1)%nat as [|n] eqn:E; [lia|].
  cbn [prefix_rules]. rewrite Nat.sub_succ, Nat.sub_0_r.
  rewrite prefix_rules_take, prefixless_take by lia. by rewrite <- app_assoc.
Qed.

(** The first rule tried at a prefix that has one of index [k]. *)
Lemma search_rule_here d s grp (k : nat) r : tree_ok tbl (pt d) → all_valid tbl s → s ≠ [] →
  rules tbl (pt d) s grp !! k = Some r →
  search_rule check tbl d false s grp (Z.of_nat k) =
  Some (Some (mk_found r (Z.of_nat (length s))
    match drop (S k) (rules tbl (pt d) s grp) with [] => 0 | _ => Z.of_nat k + 1 end)).
Proof.
  intros Ht Hv Hs Hr. rewrite search_rule_longest by done || lia.
  destruct (length s) as [|n] eqn:En; [by destruct s|]. cbn [longest].
  rewrite firstn_all2 by lia. by rewrite (check_list_at _ k r Hr).
Qed.

Lemma tried_rules_ok n : ∀ d s grp fuel (k : nat), length s = n → s ≠ [] →
  tree_ok tbl (pt d) → all_valid tbl s →
  (k = 0 ∨ k < length (rules tbl (pt d) s grp))%nat → (length (rest_rules d s grp k) < fuel)%nat →
  tried_rules check fuel tbl d s grp (Z.of_nat k) = Some (rest_rules d s grp k).
Proof.
  induction n as [|n IHn]; intros d s grp fuel k Hn Hs Ht Hv Hk Hfuel; [by destruct s|].
  set (s' := take (length s - 1) s).
  assert (n ≠ 0%nat → s' ≠ []) as Hs'.
  { intros Hne E. apply (f_equal length) in E. unfold s' in E. rewrite length_take_le in E by lia. cbn in E. lia. }
  assert (all_valid tbl s') as Hv' by (by apply Forall_take).
  assert (length s' = n) as Hn' by (unfold s'; rewrite length_take_le; lia).
  destruct (rules tbl (pt d) s grp) as [|r0 l0] eqn:El.
  { (* no rules for this prefix *)
    assert (k = 0%nat) as -> by (cbn in Hk; lia). change (Z.of_nat 0) with 0.
    rewrite (tried_shorter d s grp fuel Ht Hv Hs El). fold s'.
    destruct (decide (n = 0%nat)) as [->|Hne].
    - unfold s', rest_rules, prefixless in *. rewrite Hn in *. cbn [Nat.sub] in *.
      rewrite take_0, firstn_all2, El in * by lia. cbn in *.
      change 0 with (Z.of_nat 0). rewrite tried_nil by (cbn; lia). by rewrite drop_0.
    - assert (rest_rules d s grp 0 = rest_rules d s' grp 0) as Er.
      { unfold s'. rewrite rest_rules_shorter by lia. unfold rest_rules. by rewrite El. }
      rewrite Er in Hfuel |- *. change 0 with (Z.of_nat 0). apply IHn; auto. }
  revert fuel k Hk Hfuel. rewrite <- El. intros fuel.
  induction fuel as [|fuel IHf]; intros k Hk Hfuel; [lia|].
  assert (is_Some (rules tbl (pt d) s grp !! k)) as [r Hr].
  { apply lookup_lt_is_Some_2. destruct Hk as [->|]; [rewrite El; cbn; lia|done]. }
  cbn [tried_rules]. rewrite (search_rule_here d s grp k r) by done. cbn [mbind option_bind].
  assert (rest_rules d s grp k = r :: rest_rules d s grp (S k)) as Ec
    by (unfold rest_rules; by rewrite (drop_S _ _ _ Hr)).
  unfold fallback. cbn [f_prefix_len f_rule_idx f_rt].
  destruct (drop (S k) (rules tbl (pt d) s grp)) as [|x rest] eqn:Ed.
  - (* the last rule of this prefix *)
    cbn [Z.eqb Z.leb]. rewrite andb_true_r.
    assert (rest_rules d s grp (S k) = prefix_rules d s grp (length s - 1) ++ prefixless d s grp) as Er
      by (unfold rest_rules; by rewrite Ed).
    destruct (Z.eqb_spec (Z.of_nat (length s) - 1) 0) as [E1|E1].
    + rewrite Ec, Er. unfold prefixless. replace (length s - 1)%nat with 0%nat by lia.
      rewrite firstn_all2, El by lia. done.
    + replace (Z.to_nat (Z.of_nat (length s) - 1)) with (length s - 1)%nat by lia. fold s'.
      rewrite Ec in Hfuel |- *. rewrite Er in Hfuel |- *.
      rewrite <- rest_rules_shorter in Hfuel |- * by lia. fold s' in Hfuel |- *.
      change 0 with (Z.of_nat 0). rewrite (IHn d s' grp fuel 0%nat);
        [done|done|apply Hs'; lia|done|done|by left|cbn in Hfuel; lia].
  - (* another rule of this prefix *)
    assert (S k < length (rules tbl (pt d) s grp))%nat
      by (apply (f_equal length) in Ed; rewrite length_drop in Ed; cbn in Ed; lia).
    rewrite (proj2 (Z.eqb_neq (Z.of_nat k + 1) 0)), (proj2 (Z.leb_gt (Z.of_nat k + 1) 0)) by lia.
    rewrite andb_false_r, Z.sub_0_r, Nat2Z.id, firstn_all.
    replace (Z.of_nat k + 1) with (Z.of_nat (S k)) by lia.
    rewrite Ec in Hfuel |- *. rewrite IHf; [done|by right|cbn in Hfuel; lia].
Qed.
End order.

(** When every rule found fails and falls back to the next, and no rule is out of its time, the rules tried
    for a number are those of its prefixes, from the longest to the shortest and by priority within each; the search ends.  The
    prefixless rules come last, but only if no rule has the first character of the number as its whole prefix: after
    such a rule the fallback stops (username.len is 0 and rule_idx is 0) without trying them. *)
Theorem fallback_order {tmrec} (check : tmrec → bool) tbl (d : rt_data tmrec) s grp fuel :
  table_ok tbl → data_ok tbl d → (∀ tr, check tr = true) → all_valid tbl s → s ≠ [] →
  let expected := prefix_rules tbl d s grp (length s) ++ prefixless tbl d s grp in
  (length expected < fuel)%nat →
  tried_rules check fuel tbl d s grp 0 = Some expected.
Proof.
  intros Htbl [Hn Ht] Hall Hv Hs expected Hfuel.
  assert (expected = rest_rules tbl d s grp 0) as E.
  { unfold expected, rest_rules. rewrite drop_0. destruct (length s) as [|n] eqn:El; [by destruct s|].
    cbn [prefix_rules]. rewrite firstn_all2, Nat.sub_succ, Nat.sub_0_r by lia. by rewrite <- app_assoc. }
  rewrite E in Hfuel |- *. change 0 with (Z.of_nat 0).
  eapply tried_rules_ok; eauto.
Qed.

(** The index of the next rule, which counts the rules of the prefix matched last, is also applied to the
    shorter prefixes and to the prefixless rules when the rest of the rules of that prefix are
    out of their time: their first rules are skipped.  Here a prefix has a rule that failed and one out of time,
    and every shorter prefix, and the prefixless node, has at most one rule: none of them is tried. *)
Theorem fallback_index_skips {tmrec} (check : tmrec → bool) tbl (d : rt_data tmrec) s grp r1 r2 :
  table_ok tbl → data_ok tbl d → all_valid tbl s → s ≠ [] →
  rules tbl (pt d) s grp = [r1; r2] → usable check r1 = true → usable check r2 = false →
  (∀ n, (1 ≤ n < length s)%nat → (length (rules tbl (pt d) (take n s) grp) ≤ 1)%nat) →
  (length (group_rules (noprefix d) grp) ≤ 1)%nat →
  tried_rules check 2 tbl d s grp 0 = Some [r1].
Proof.
  intros Htbl [Hn Ht] Hv Hs Hr Hu1 Hu2 Hshort Hnop.
  assert (∀ l, (length l ≤ 1)%nat → check_list check 1 0 l = None) as Hone.
  { intros [|x [|y l]] Hl; cbn in *; [done|done|lia]. }
  assert (∀ n, (n < length s)%nat → longest check tbl (pt d) s grp 1 n = None) as Hlong.
  { induction n as [|n IH]; intros Hlt; [done|]. cbn [longest]. rewrite Hone by (apply Hshort; lia). apply IH. lia. }
  assert (∃ n, length s = S n) as [n En] by (destruct s; [done|by eexists]).
  cbn [tried_rules]. rewrite (search_rule_longest check tbl Htbl) by done || lia.
  rewrite En. cbn [longest]. rewrite firstn_all2, Hr by lia. cbn [check_list].
  unfold usable in Hu1. rewrite Hu1. change (0 <=? 0) with true. cbn [andb mbind option_bind].
  unfold fallback. cbn [f_prefix_len f_rule_idx f_rt].
  change (0 + 1) with 1. change (1 =? 0) with false. change (1 <=? 0) with false.
  rewrite andb_false_r, Z.sub_0_r, Nat2Z.id, firstn_all2 by lia.
  rewrite (search_rule_longest check tbl Htbl) by done || lia. rewrite En. cbn [longest].
  rewrite firstn_all2, Hr by lia. cbn [check_list]. unfold usable in Hu2. rewrite Hu2.
  change (1 <=? 0) with false. rewrite andb_false_r. cbn [andb].
  rewrite Hlong, search_rule_nil, Hone by done || lia. done.
Qed.

Lemma fallback_order_witness :
  tried_rules (λ _ : bool, true) 5 demo_tbl demo_4.1 [49; 50; 51] 7 0 =
    Some [demo_rt 102 5 None; demo_rt 101 1 (Some false); demo_rt 100 1 None].
Proof.
  refine (fallback_order (λ _ : bool, true) demo_tbl demo_4.1 [49; 50; 51] 7 5 demo_tbl_ok demo_ok _ _ _ _).
  - reflexivity.
  - repeat constructor; by vm_compute.
  - discriminate.
  - vm_compute. lia.
Defined.

Lemma fallback_index_skips_witness :
  tried_rules id 2 demo_tbl demo_4.1 [49; 50] 7 0 = Some [demo_rt 102 5 None].
Proof.
  apply (fallback_index_skips id demo_tbl demo_4.1 [49; 50] 7 (demo_rt 102 5 None) (demo_rt 101 1 (Some false))
    demo_tbl_ok demo_ok); try reflexivity; try discriminate.
  - repeat constructor; by vm_compute.
  - intros n Hn. assert (n = 1%nat) as -> by (cbn in Hn; lia). vm_compute. lia.
Defined.
