(* ===== verification/Numbers.v ===== *)
(** * Numbers as text

    The conversions between integers and text that every module of the server uses, from
    [ut.h], and the q values of contacts, from [qvalue.h] and [qvalue.c].  Unsigned and
    signed results wrap at the width of their C type; a pointer that may be null is an
    [option]; a number returned through a pointer is returned beside the return code,
    with the value the pointer held before where the code does not write it. *)

From stdpp Require Import prelude list strings.
From Stdlib Require Import ZArith Lia Ascii.
From S2P Require Import Prelude.

(** ** Reading decimal numbers *)

Definition is_digit (c : byte) : bool := (48 <=? c) && (c <=? 57).

(** The loop of [str2s]: [ret] has 16 bits, [i] counts the digits. *)
Fixpoint str2s_loop (s : bytes) (ret i : Z) : option Z :=
  match s with
  | [] => Some ret
  | c :: s =>
      if is_digit c then
        let ret := u16 (ret * 10 + c - 48) in
        if 5 <? i + 1 then None else str2s_loop s ret (i + 1)
      else None
  end.

(** The result and the error flag. *)
Definition str2s (s : bytes) : Z * bool :=
  match str2s_loop s 0 0 with
  | Some ret => (ret, false)
  | None => (0, true)
  end.

(** The loop of [str2short], [str2int] and [str2int64], at the width of [*_r]: the number
    written so far, and whether every character was a digit. *)
Fixpoint str2num_loop (w : Z) (s : bytes) (r : Z) : Z * bool :=
  match s with
  | [] => (r, true)
  | c :: s =>
      if is_digit c then str2num_loop w s (wrap w (wrap w (r * 10) + (c - 48)))
      else (r, false)
  end.

Definition str2num (w : Z) (s : option bytes) (r : Z) : Z * Z :=
  match s with
  | None | Some [] => (-1, r)
  | Some s =>
      let '(r, ok) := str2num_loop w s 0 in
      (if ok then 0 else -1, r)
  end.

Definition str2short := str2num 16.
Definition str2int := str2num 32.
Definition str2int64 := str2num 64.

(** [str2sint] multiplies by the sign at the end, also when it stops at a character that
    is not a digit. *)
Fixpoint str2sint_loop (s : bytes) (r : Z) : Z * bool :=
  match s with
  | [] => (r, true)
  | c :: s =>
      if is_digit c then str2sint_loop s (i32 (i32 (r * 10) + (c - 48)))
      else (r, false)
  end.

Definition str2sint (s : option bytes) (r : Z) : Z * Z :=
  match s with
  | None | Some [] => (-1, r)
  | Some (c :: t) =>
      let '(sign, body) :=
        if c =? chr "-" then (-1, t) else if c =? chr "+" then (1, t) else (1, c :: t) in
      let '(r, ok) := str2sint_loop body 0 in
      (if ok then 0 else -1, i32 (r * sign))
  end.

(** ** Writing decimal numbers *)

Definition INT2STR_MAX_LEN : nat := 22.

(** A store through a pointer into a buffer. *)
Definition store (s : bytes) (i : Z) (c : byte) : option bytes :=
  if (0 <=? i) && (i <? Z.of_nat (length s)) then Some (<[Z.to_nat i := c]> s) else None.

(** The do-while loop of [int2bstr], from position [i] down; it ends when the number is
    used up or the buffer is full, so [fuel] above the number of positions is enough. *)
Fixpoint int2bstr_loop (fuel : nat) (l : Z) (s : bytes) (i : Z) : option (bytes * Z) :=
  match fuel with
  | O => None
  | S fuel =>
      s ← store s i (l mod 10 + 48);
      let i := i - 1 in
      let l := l / 10 in
      if negb (l =? 0) && (0 <=? i) then int2bstr_loop fuel l s i else Some (s, i)
  end.

(** The buffer, the position of the first digit and the length. *)
Definition int2bstr (l : Z) (s : bytes) : option (bytes * Z * Z) :=
  let i := Z.of_nat INT2STR_MAX_LEN - 2 in
  s ← store s (Z.of_nat INT2STR_MAX_LEN - 1) 0;
  '(s, i) ← int2bstr_loop INT2STR_MAX_LEN l s i;
  Some (s, i + 1, Z.of_nat INT2STR_MAX_LEN - 2 - i).

(** The static buffers [int2str] and [sint2str] write to in turn. *)
Definition INT2STR_BUF_NO : Z := 7.
Record str_bufs := mk_bufs { int2str_buf_index : Z; int2str_buf : list bytes }.

Definition getstrbufindex (b : str_bufs) : Z * str_bufs :=
  (int2str_buf_index b mod INT2STR_BUF_NO,
   mk_bufs (u32 (int2str_buf_index b + 1)) (int2str_buf b)).

(** A string returned by [int2str] is a place in one of the buffers. *)
Record buf_str := mk_bstr { bs_buf : Z; bs_pos : Z; bs_len : Z }.

Definition int2str (b : str_bufs) (l : Z) : option (str_bufs * buf_str) :=
  let '(n, b) := getstrbufindex b in
  s ← int2str_buf b !! Z.to_nat n;
  '(s, p, len) ← int2bstr l s;
  Some (mk_bufs (int2str_buf_index b) (<[Z.to_nat n := s]> (int2str_buf b)), mk_bstr n p len).

(** The negation of the least [long], which the language leaves undefined, is [None]. *)
Definition sint2str (b : str_bufs) (l : Z) : option (str_bufs * buf_str) :=
  let sign := l <? 0 in
  l ← (if sign then if l =? - 2 ^ 63 then None else Some (- l) else Some l);
  '(b, p) ← int2str b (u64 l);
  if sign then
    s ← int2str_buf b !! Z.to_nat (bs_buf p);
    s ← store s (bs_pos p - 1) (chr "-");
    Some (mk_bufs (int2str_buf_index b) (<[Z.to_nat (bs_buf p) := s]> (int2str_buf b)),
          mk_bstr (bs_buf p) (bs_pos p - 1) (bs_len p + 1))
  else Some (b, p).

(** The text a returned string stands for, and the byte after it. *)
Definition buf_text (b : str_bufs) (p : buf_str) : option bytes :=
  s ← int2str_buf b !! Z.to_nat (bs_buf p);
  if (0 <=? bs_pos p) && (bs_pos p + bs_len p <=? Z.of_nat (length s))
  then Some (take (Z.to_nat (bs_len p)) (drop (Z.to_nat (bs_pos p)) s)) else None.

(** [btostr] and [rctostr]: up to three digits, without leading zeros. *)
Definition rctostr (val : Z) : bytes :=
  let a := val / 100 in
  let b := val mod 100 / 10 in
  (if negb (a =? 0) then [wrap 8 (a + 48)] else []) ++
  (if negb (b =? 0) || negb (a =? 0) then [b + 48] else []) ++
  [48 + val mod 10].

Definition btostr (val : Z) : bytes := rctostr (wrap 8 val).

(** ** Hexadecimal numbers *)

(** The value of a hexadecimal digit, as the chains of tests compute it. *)
Definition hex_digit (c : byte) : option Z :=
  if (48 <=? c) && (c <=? 57) then Some (c - 48)
  else if (97 <=? c) && (c <=? 102) then Some (c - 97 + 10)
  else if (65 <=? c) && (c <=? 70) then Some (c - 65 + 10)
  else None.

Definition hex2int (c : byte) : Z := match hex_digit c with Some v => v | None => -1 end.

(** The digits are read from the last to the first. *)
Fixpoint rev_hex_loop (w : Z) (unsafe : bool) (s : bytes) (r : Z) : Z * Z :=
  match s with
  | [] => (0, r)
  | c :: s =>
      let r := wrap w (Z.shiftl r 4) in
      match hex_digit c with
      | Some v => rev_hex_loop w unsafe s (wrap w (r + v))
      | None => (if unsafe then 0 else -1, r)
      end
  end.

Definition reverse_hex2int (s : bytes) : Z * Z := rev_hex_loop 32 false (rev s) 0.
Definition reverse_hex2int64 (s : bytes) (unsafe : bool) : Z * Z :=
  rev_hex_loop 64 unsafe (rev s) 0.

Definition fourbits2char (d : Z) : byte :=
  if 10 <=? d then d + chr "a" - 10 else d + chr "0".

(** The bytes written at the cursor, the room left and what is left of the number.  The
    number loses four bits in each round, so sixteen rounds are enough for 64 bits. *)
Fixpoint rev_hex_write (fuel : nat) (size nr : Z) : bytes * Z * Z :=
  match fuel with
  | O => ([], size, nr)
  | S fuel =>
      if negb (size =? 0) && negb (nr =? 0) then
        let c := fourbits2char (Z.land nr 15) in
        let '(out, size, nr) := rev_hex_write fuel (size - 1) (Z.shiftr nr 4) in
        (c :: out, size, nr)
      else ([], size, nr)
  end.

Definition int2reverse_hex (size nr : Z) : Z * bytes * Z :=
  if negb (size =? 0) && (nr =? 0) then (1, [chr "0"], size - 1)
  else
    let '(out, size, nr) := rev_hex_write 16 size nr in
    (if negb (nr =? 0) then -1 else 1, out, size).

Fixpoint hexstr_loop (s : bytes) (r : Z) : option Z :=
  match s with
  | [] => Some r
  | c :: s =>
      let r := i32 (Z.shiftl r 4) in
      match hex_digit c with
      | Some v => hexstr_loop s (i32 (r + v))
      | None => None
      end
  end.

Definition hexstr2int (s : bytes) (val : Z) : Z * Z :=
  match hexstr_loop s 0 with
  | Some r => (0, u32 r)
  | None => (-1, val)
  end.

Definition strno2int (s : bytes) (mask : Z) : Z * Z :=
  match s with
  | 48 :: 120 :: (_ :: _) as t => hexstr2int (drop 2 t) mask
  | _ => str2int (Some s) mask
  end.

(** ** Hexadecimal text of a string *)

Definition string2hex (s : bytes) : bytes :=
  match s with
  | [] => [chr "0"]
  | _ => s ≫= λ c, [fourbits2char (Z.land (Z.shiftr (i8 c) 4) 15); fourbits2char (Z.land (i8 c) 15)]
  end.

(** [None] is the return value -1; a last odd digit is ignored. *)
Fixpoint hex2string (s : bytes) : option bytes :=
  match s with
  | a :: b :: s =>
      hi ← hex_digit a;
      lo ← hex_digit b;
      r ← hex2string s;
      Some (wrap 8 (wrap 8 (Z.shiftl hi 4) + lo) :: r)
  | _ => Some []
  end.

(** ** Escapes and telephone numbers *)

(** [un_escape]: the characters written, and whether the whole text was translated (the
    text written before an error stays in the new string). *)
Fixpoint un_escape (user : bytes) : bytes * bool :=
  match user with
  | [] => ([], true)
  | 37 :: t =>
      match t with
      | h :: l :: t =>
          let hi := hex2int h in
          let lo := hex2int l in
          if hi <? 0 then ([], false)
          else if lo <? 0 then ([], false)
          else
            let value := Z.shiftl hi 4 + lo in
            if (value <? 32) || (126 <? value) then ([], false)
            else let '(out, ok) := un_escape t in (value :: out, ok)
      | _ => ([], false)
      end
  | c :: t => let '(out, ok) := un_escape t in (c :: out, ok)
  end.

(** [memmove(p + 1, p + 2, lim - (p + 2))] in a buffer that ends at [lim]. *)
Definition shift_down (s : bytes) (p : nat) : bytes :=
  take (S p) s ++ drop (S (S p)) s ++ drop (length s - 1) s.

(** [unescape_crlf] works in place, up to the end the string had at first; the result is
    the buffer and the new length.  [togo] is the distance of [p] from that end. *)
Fixpoint crlf_loop (togo : nat) (s : bytes) (p : nat) (len : Z) : bytes * Z :=
  match togo with
  | O => (s, len)
  | S togo =>
      let '(s, len) :=
        if (nth p s 0 =? chr "\") && (S p <? length s)%nat then
          if nth (S p) s 0 =? chr "r" then (shift_down (<[p := 13]> s) p, len - 1)
          else if nth (S p) s 0 =? chr "n" then (shift_down (<[p := 10]> s) p, len - 1)
          else (s, len)
        else (s, len) in
      crlf_loop togo s (S p) len
  end.

Definition unescape_crlf (s : bytes) : bytes * Z := crlf_loop (length s) s 0 (Z.of_nat (length s)).

Definition _is_e164 (user : bytes) (require_plus : bool) (max_digits : Z) : Z :=
  match user with
  | [] => -1
  | c :: t =>
      let start := if c =? chr "+" then Some t else if require_plus then None else Some user in
      match start with
      | None => -1
      | Some d =>
          let n := Z.of_nat (length d) in
          if (n <? 2) || (max_digits <? n) then -1
          else if forallb is_digit d then 1 else -1
      end
  end.

Definition is_e164 (user : bytes) : Z := _is_e164 user true 15.

(** ** Q values *)

Definition Q_UNSPECIFIED : Z := -1.
Definition MAX_Q : Z := 1000.
Definition MIN_Q : Z := 0.

Definition len_q (q : Z) : Z :=
  if q =? Q_UNSPECIFIED then 0
  else if MAX_Q <=? q then 1
  else if q <=? MIN_Q then 1
  else if Z.rem q 100 =? 0 then 2 + 1
  else if Z.rem q 10 =? 0 then 2 + 2
  else 2 + 3.

(** The characters in the static buffer, without the final zero. *)
Definition q2str (q : Z) : bytes :=
  if q =? Q_UNSPECIFIED then []
  else if MAX_Q <=? q then bs "1"
  else if q <=? MIN_Q then bs "0"
  else
    bs "0." ++ (Z.quot q 100 + 48) ::
      (let q := Z.rem q 100 in
       if q =? 0 then []
       else (Z.quot q 10 + 48) ::
         (let q := Z.rem q 10 in if q =? 0 then [] else [q + 48])).

(** The states of [str2q]. *)
Inductive qstate := ST_START | ST_0 | ST_1 | ST_0_PT | ST_1_PT | ST_1_PT_0 | ST_0_PT_N.

Definition E_INVALID_PARAMS : Z := -14.
Definition E_Q_INV_CHAR : Z := -15.
Definition E_Q_EMPTY : Z := -16.
Definition E_Q_TOO_BIG : Z := -17.

(** [*q], [digits], [order] and the state. *)
Record qparse := mk_q { q_val : Z; q_digits : Z; q_order : Z; q_state : qstate }.

(** A digit where only other digits can follow, or a bad character. *)
Definition q_refuse (lo : Z) (c : byte) : Z :=
  if (lo <=? c) && (c <=? 57) then E_Q_TOO_BIG else E_Q_INV_CHAR.

(** One turn of the loop: the new state, or the error with which the function returns. *)
Definition q_step (x : qparse) (c : byte) : qparse + Z :=
  let '(mk_q q digits order st) := x in
  match st with
  | ST_START =>
      if (c =? 32) || (c =? 9) then inl x
      else if c =? chr "0" then inl (mk_q 0 digits order ST_0)
      else if c =? chr "1" then inl (mk_q 1000 digits order ST_1)
      else if c =? chr "." then inl (mk_q 0 digits order ST_0_PT)
      else inr E_Q_INV_CHAR
  | ST_0 =>
      if c =? chr "0" then inl x
      else if c =? chr "." then inl (mk_q q digits order ST_0_PT)
      else if c =? chr "1" then inl (mk_q 1000 digits order ST_1)
      else inr (q_refuse 50 c)
  | ST_1 => if c =? chr "." then inl (mk_q q digits order ST_1_PT) else inr (q_refuse 48 c)
  | ST_0_PT =>
      if is_digit c then inl (mk_q ((c - 48) * order) digits (Z.quot order 10) ST_0_PT_N)
      else inr E_Q_INV_CHAR
  | ST_1_PT =>
      if c =? chr "0" then inl (mk_q q digits order ST_1_PT_0) else inr (q_refuse 49 c)
  | ST_1_PT_0 => if c =? chr "0" then inl x else inr (q_refuse 49 c)
  | ST_0_PT_N =>
      if is_digit c then
        if digits <=? 3 then inl (mk_q (q + (c - 48) * order) (digits + 1) (Z.quot order 10) st)
        else inl x
      else inr E_Q_INV_CHAR
  end.

Fixpoint q_loop (x : qparse) (s : bytes) : Z * Z :=
  match s with
  | [] => (match q_state x with ST_START => E_Q_EMPTY | _ => 0 end, q_val x)
  | c :: s =>
      match q_step x c with
      | inl x => q_loop x s
      | inr e => (e, q_val x)
      end
  end.

(** The return value and [*q], which held [q] before. *)
Definition str2q (q : Z) (s : option bytes) : Z * Z :=
  match s with
  | None => (E_INVALID_PARAMS, q)
  | Some s => q_loop (mk_q q 1 100 ST_START) s
  end.
