(* ===== verification/NumbersSpec.v ===== *)
(** * Theorems on numbers as text

    The decimal and hexadecimal writers are inverted by the readers; the readers reduce
    numbers that do not fit; the static buffers of [int2str] keep a string for six more
    calls; [unescape_crlf], which shifts the text in place, computes the replacement of
    the escapes; q values are in range and printed as they are read. *)

From stdpp Require Import prelude list strings.
From Stdlib Require Import ZArith Lia Ascii.
From S2P Require Import Prelude StrCommon Numbers.

(** ** Decimal numerals *)

(** The number a sequence of digits stands for, continuing from [v]. *)
Definition dec_from (v : Z) (s : bytes) : Z := fold_left (λ v c, v * 10 + (c - 48)) s v.

(** [s] is the numeral of [l]: digits only, and no leading zero. *)
Definition numeral (s : bytes) (l : Z) : Prop :=
  forallb is_digit s = true ∧ dec_from 0 s = l ∧ s ≠ [] ∧ (head s = Some 48 → s = [48]).

Lemma dec_from_app v s t : dec_from v (s ++ t) = dec_from (dec_from v s) t.
Proof. apply fold_left_app. Qed.

Lemma dec_from_mod w a b s : 0 <= w → wrap w a = wrap w b → wrap w (dec_from a s) = wrap w (dec_from b s).
Proof.
  revert a b. induction s as [|c s IH]; intros a b Hw Hab; [done|]. simpl. apply IH; [done|].
  unfold wrap in *. rewrite (Z.add_mod (a * 10)), (Z.add_mod (b * 10)) by lia.
  by rewrite (Z.mul_mod a), (Z.mul_mod b), Hab by lia.
Qed.

(** What the readers return on digits, for any width. *)
Lemma str2num_loop_digits w s : 0 <= w → ∀ r, forallb is_digit s = true →
  str2num_loop w s (wrap w r) = (wrap w (dec_from r s), true).
Proof.
  intros Hw. induction s as [|c s IH]; intros r; [done|]. simpl. intros [Hc Hs]%andb_prop. rewrite Hc.
  rewrite <- (IH (r * 10 + (c - 48)) Hs). f_equal.
  rewrite wrap_wrap_add by done. unfold wrap.
  rewrite Z.add_mod, Z.mul_mod, Z.mod_mod, <- Z.mul_mod, <- Z.add_mod by lia. done.
Qed.

(** Before the first character that is not a digit the number read is kept. *)
Lemma str2num_loop_stops w s c t : 0 <= w → ∀ r, forallb is_digit s = true → is_digit c = false →
  str2num_loop w (s ++ c :: t) (wrap w r) = (wrap w (dec_from r s), false).
Proof.
  intros Hw. induction s as [|d s IH]; intros r; simpl.
  { by intros _ ->. }
  intros [Hd Hs]%andb_prop Hc. rewrite Hd. rewrite <- (IH (r * 10 + (d - 48)) Hs Hc). f_equal.
  rewrite wrap_wrap_add by done. unfold wrap.
  rewrite Z.add_mod, Z.mul_mod, Z.mod_mod, <- Z.mul_mod, <- Z.add_mod by lia. done.
Qed.

Lemma str2num_digits w s r : 0 <= w → s ≠ [] → forallb is_digit s = true →
  str2num w (Some s) r = (0, wrap w (dec_from 0 s)).
Proof.
  intros Hw Hs Hd. destruct s as [|c s]; [done|]. unfold str2num.
  replace 0 with (wrap w 0) at 1 by (unfold wrap; by rewrite Z.mod_0_l by lia).
  by rewrite str2num_loop_digits.
Qed.

Lemma dec_from_bounds s : ∀ v, 0 <= v → forallb is_digit s = true →
  0 <= dec_from v s < (v + 1) * 10 ^ Z.of_nat (length s).
Proof.
  induction s as [|c s IH]; intros v Hv; simpl; [lia|]. intros [Hc Hs]%andb_prop.
  unfold is_digit in Hc. rewrite Nat2Z.inj_succ, Z.pow_succ_r by lia.
  specialize (IH (v * 10 + (c - 48)) ltac:(lia) Hs). unfold dec_from in *.
  assert (0 < 10 ^ Z.of_nat (length s)) by (apply Z.pow_pos_nonneg; lia). nia.
Qed.

Lemma str2s_loop_digits s : ∀ r i, 0 <= i → forallb is_digit s = true →
  i + Z.of_nat (length s) <= 5 → str2s_loop s (u16 r) i = Some (u16 (dec_from r s)).
Proof.
  induction s as [|c s IH]; intros r i Hi; [done|]. simpl. intros [Hc Hs]%andb_prop Hl. rewrite Hc.
  destruct (Z.ltb_spec 5 (i + 1)); [lia|].
  replace (u16 (u16 r * 10 + c - 48)) with (u16 (r * 10 + (c - 48))); [apply IH; [lia|done|lia]|].
  unfold wrap. rewrite <- Z.add_sub_assoc. rewrite Z.add_mod, Z.mul_mod by lia.
  by rewrite (Z.add_mod (r mod _ * 10)), (Z.mul_mod (r mod _)), Z.mod_mod by lia.
Qed.

Lemma str2s_loop_refuses s : ∀ r i, 0 <= i <= 5 →
  forallb is_digit s = false ∨ 5 < i + Z.of_nat (length s) → str2s_loop s r i = None.
Proof.
  induction s as [|c s IH]; intros r i Hi; simpl; [intros [?|?]; [done|lia]|].
  destruct (is_digit c); [|done]. simpl. intros H.
  destruct (Z.ltb_spec 5 (i + 1)); [done|]. apply IH; [lia|]. destruct H; [by left|right; lia].
Qed.

(** ** Writing a number into a buffer *)

Lemma store_some s (n : nat) c : (n < length s)%nat → store s (Z.of_nat n) c = Some (<[n := c]> s).
Proof.
  intros Hn. unfold store. rewrite Nat2Z.id.
  destruct (Z.leb_spec 0 (Z.of_nat n)); [|lia]. by destruct (Z.ltb_spec (Z.of_nat n) (Z.of_nat (length s))); [|lia].
Qed.

Lemma digit_of_mod l : is_digit (l mod 10 + 48) = true.
Proof. unfold is_digit. pose proof (Z.mod_pos_bound l 10). lia. Qed.

Lemma numeral_snoc s l d : numeral s l → 0 < l → is_digit d = true → numeral (s ++ [d]) (l * 10 + (d - 48)).
Proof.
  intros (Hd & Hv & Hne & Hz) Hl Hdig. split; [|split; [|split]].
  - rewrite forallb_app, Hd. simpl. by rewrite Hdig.
  - rewrite dec_from_app, Hv. done.
  - by destruct s.
  - destruct s as [|c s]; [done|]. simpl. intros [= ->]. specialize (Hz eq_refl). injection Hz as ->.
    unfold dec_from in Hv. simpl in Hv. lia.
Qed.

Lemma numeral_digit l : 0 <= l < 10 → numeral [l + 48] l.
Proof.
  intros Hl. split; [|split; [|split]]; [unfold is_digit; simpl; lia|unfold dec_from; simpl; lia|done|].
  simpl. by intros [= ->].
Qed.

(** The loop fills the positions from [n] down with the numeral of the number. *)
Lemma int2bstr_loop_writes fuel : ∀ l s n, (n < fuel)%nat → (n < length s)%nat →
  0 <= l < 10 ^ Z.of_nat (S n) →
  ∃ ds, int2bstr_loop fuel l s (Z.of_nat n) =
          Some (take (S n - length ds) s ++ ds ++ drop (S n) s, Z.of_nat n - Z.of_nat (length ds)) ∧
        numeral ds l ∧ (length ds <= S n)%nat.
Proof.
  induction fuel as [|fuel IH]; intros l s n Hf Hn Hl; [lia|]. cbn [int2bstr_loop].
  rewrite store_some by done. cbn [mbind option_bind].
  assert (Hdiv : l = l / 10 * 10 + l mod 10) by (rewrite (Z.div_mod l 10) at 1; lia).
  pose proof (Z.mod_pos_bound l 10).
  destruct (Z.eqb_spec (l / 10) 0) as [H0|H0]; cbn [negb andb].
  - exists [l mod 10 + 48]. split; [|split; [|simpl; lia]].
    + do 2 f_equal. rewrite insert_take_drop by done. simpl. by rewrite Nat.sub_0_r.
    + rewrite Hdiv at 2. rewrite H0. apply numeral_digit. lia.
  - destruct n as [|n].
    { exfalso. apply H0. apply Z.div_small. change (10 ^ Z.of_nat 1) with 10 in Hl. lia. }
    destruct (Z.leb_spec 0 (Z.of_nat (S n) - 1)); [|lia].
    replace (Z.of_nat (S n) - 1) with (Z.of_nat n) by lia.
    edestruct (IH (l / 10) (<[S n := l mod 10 + 48]> s) n) as (ds & -> & Hnum & Hlen);
      [lia|rewrite length_insert; lia|split; [apply Z.div_pos; lia|]|].
    { apply Z.div_lt_upper_bound; [lia|]. rewrite <- Z.pow_succ_r by lia.
      replace (Z.succ (Z.of_nat (S n))) with (Z.of_nat (S (S n))) by lia. lia. }
    exists (ds ++ [l mod 10 + 48]). split; [|split; [|rewrite length_app; simpl; lia]].
    + rewrite length_app. simpl length. do 2 f_equal; [|lia].
      replace (S (S n) - (length ds + 1))%nat with (S n - length ds)%nat by lia.
      rewrite take_insert_ge by lia. rewrite <- !app_assoc. do 2 f_equal.
      rewrite (drop_S _ (l mod 10 + 48)) by (apply list_lookup_insert_eq; lia).
      simpl. f_equal. apply drop_insert_lt. lia.
    + assert (0 <= l / 10) by (apply Z.div_pos; lia).
      pose proof (numeral_snoc ds (l / 10) (l mod 10 + 48) Hnum ltac:(lia) (digit_of_mod l)) as HH.
      by replace (l / 10 * 10 + (l mod 10 + 48 - 48)) with l in HH by lia.
Qed.

(** A 64-bit number fits in the buffer with its final zero and room for a sign. *)
Lemma int2bstr_writes l s : length s = INT2STR_MAX_LEN → 0 <= l < 2 ^ 64 →
  ∃ ds, int2bstr l s = Some (take (21 - length ds) s ++ ds ++ [0], 21 - Z.of_nat (length ds), Z.of_nat (length ds)) ∧
        numeral ds l ∧ (length ds <= 20)%nat.
Proof.
  intros Hs Hl. unfold int2bstr. unfold INT2STR_MAX_LEN in *.
  change (Z.of_nat 22 - 1) with (Z.of_nat 21). rewrite store_some by lia. cbn [mbind option_bind].
  change (Z.of_nat 22 - 2) with (Z.of_nat 20).
  destruct (int2bstr_loop_writes 22 l (<[21%nat := 0]> s) 20) as (ds & -> & Hnum & Hlen);
    [lia|rewrite length_insert; lia|change (2 ^ 64) with 18446744073709551616 in Hl;
     change (10 ^ Z.of_nat 21) with 1000000000000000000000; lia|].
  cbn [mbind option_bind].
  assert (Hlen' : (length ds <= 20)%nat).
  { destruct (decide (length ds = 21%nat)) as [E|]; [|lia]. exfalso.
    destruct Hnum as (Hd & Hv & Hne & Hz). destruct ds as [|c ds]; [done|]. simpl in E. cbn [forallb] in Hd.
    apply andb_prop in Hd as [Hc Hd]. unfold dec_from in Hv. cbn [fold_left] in Hv.
    replace (0 * 10 + (c - 48)) with (c - 48) in Hv by lia.
    destruct (Z.eqb_spec c 48) as [->|Hc0]; [specialize (Hz eq_refl); injection Hz as ->; simpl in E; lia|].
    assert (Hlow : ∀ t v, 0 <= v → forallb is_digit t = true → v * 10 ^ Z.of_nat (length t) <= dec_from v t).
    { clear. induction t as [|c t IH]; intros v Hv; simpl; [lia|]. intros [Hc Ht]%andb_prop.
      unfold is_digit in Hc. rewrite Nat2Z.inj_succ, Z.pow_succ_r by lia.
      specialize (IH (v * 10 + (c - 48)) ltac:(lia) Ht). unfold dec_from in *.
      assert (0 < 10 ^ Z.of_nat (length t)) by (apply Z.pow_pos_nonneg; lia). nia. }
    unfold is_digit in Hc. specialize (Hlow ds (c - 48) ltac:(lia) Hd). unfold dec_from in Hlow.
    replace (length ds) with 20%nat in Hlow by lia. change (10 ^ Z.of_nat 20) with 100000000000000000000 in Hlow.
    change (2 ^ 64) with 18446744073709551616 in Hl. lia. }
  exists ds. split; [|done]. rewrite take_insert_ge by lia.
  assert (Hdrop : drop 21 (<[21%nat:=0]> s) = [0]).
  { rewrite (drop_S _ 0) by (apply list_lookup_insert_eq; lia). f_equal.
    apply nil_length_inv. rewrite length_drop, length_insert. lia. }
  rewrite Hdrop. repeat f_equal; lia.
Qed.

(** ** The static buffers *)

Definition bufs_ok (b : str_bufs) : Prop :=
  0 <= int2str_buf_index b < 2 ^ 32 ∧ length (int2str_buf b) = 7%nat ∧
  Forall (λ s, length s = INT2STR_MAX_LEN) (int2str_buf b).

(** A call of [sint2str] or of [int2str], with the number it can be given, and the text
    it must return. *)
Definition num_call (b : str_bufs) (c : bool * Z) : option (str_bufs * buf_str) :=
  if c.1 then sint2str b c.2 else int2str b c.2.

Definition call_ok (c : bool * Z) : Prop :=
  if c.1 then - 2 ^ 63 < c.2 < 2 ^ 63 else 0 <= c.2 < 2 ^ 64.

Definition decimal (s : bytes) (l : Z) : Prop :=
  if l <? 0 then ∃ ds, s = chr "-" :: ds ∧ numeral ds (- l) else numeral s l.

Lemma getstrbufindex_buf b : bufs_ok b →
  ∃ s, int2str_buf b !! Z.to_nat (int2str_buf_index b mod 7) = Some s ∧ length s = INT2STR_MAX_LEN.
Proof.
  intros (Hi & Hl & Hall). pose proof (Z.mod_pos_bound (int2str_buf_index b) 7 ltac:(lia)).
  destruct (lookup_lt_is_Some_2 (int2str_buf b) (Z.to_nat (int2str_buf_index b mod 7))) as [s Hs]; [lia|].
  exists s. split; [done|]. eapply Forall_lookup_1 in Hall; eauto.
Qed.

(** What a call does: it writes one buffer, the one the counter names. *)
Definition call_result (b : str_bufs) (l : Z) (b' : str_bufs) (p : buf_str) (s : bytes) (t : bytes) : Prop :=
  let n := Z.to_nat (int2str_buf_index b mod 7) in
  b' = mk_bufs (u32 (int2str_buf_index b + 1)) (<[n := s]> (int2str_buf b)) ∧
  bs_buf p = int2str_buf_index b mod 7 ∧ length s = INT2STR_MAX_LEN ∧
  (∃ pre, s = pre ++ t ++ [0] ∧ bs_pos p = Z.of_nat (length pre) ∧ bs_len p = Z.of_nat (length t)) ∧
  decimal t l.

Lemma int2str_result b l : bufs_ok b → 0 <= l < 2 ^ 64 →
  ∃ b' p s t, int2str b l = Some (b', p) ∧ call_result b l b' p s t ∧ (length t <= 20)%nat.
Proof.
  intros Hb Hl. destruct (getstrbufindex_buf b Hb) as (s & Hs & Hlen).
  destruct (int2bstr_writes l s Hlen Hl) as (ds & Hw & Hnum & Hds).
  unfold int2str, getstrbufindex. cbn [int2str_buf int2str_buf_index]. unfold INT2STR_BUF_NO.
  rewrite Hs. cbn [mbind option_bind]. rewrite Hw. cbn [mbind option_bind].
  unfold INT2STR_MAX_LEN in Hlen.
  eexists _, _, _, ds. split; [reflexivity|]. split; [|done].
  split; [reflexivity|]. split; [done|]. split.
  { rewrite !length_app, length_take. simpl. unfold INT2STR_MAX_LEN. lia. }
  split.
  { eexists. split; [reflexivity|]. simpl. rewrite length_take. lia. }
  unfold decimal. by destruct (Z.ltb_spec l 0); [lia|].
Qed.

Lemma sint2str_result b l : bufs_ok b → - 2 ^ 63 < l < 2 ^ 63 →
  ∃ b' p s t, sint2str b l = Some (b', p) ∧ call_result b l b' p s t.
Proof.
  intros Hb Hl. unfold sint2str.
  change (- 2 ^ 63) with (-9223372036854775808) in *. change (2 ^ 63) with 9223372036854775808 in Hl.
  destruct (Z.ltb_spec l 0) as [Hneg|Hpos].
  - destruct (Z.eqb_spec l (-9223372036854775808)); [lia|]. cbn [mbind option_bind].
    rewrite (wrap_small 64 (- l)) by (change (2 ^ 64) with 18446744073709551616; lia).
    destruct (int2str_result b (- l) Hb) as (b' & p & s & t & -> & (-> & Hn & Hlen & (pre & -> & Hp & Htl) & Hd) & Ht);
      [lia|].
    unfold decimal in Hd. destruct (Z.ltb_spec (- l) 0) as [?|_]; [lia|].
    cbn [mbind option_bind int2str_buf int2str_buf_index]. rewrite Hn, Hp.
    destruct (getstrbufindex_buf b Hb) as (s & Hs & _).
    rewrite list_lookup_insert_eq by (by eapply lookup_lt_Some). cbn [mbind option_bind].
    unfold INT2STR_MAX_LEN in Hlen. rewrite !length_app in Hlen. simpl in Hlen.
    destruct pre as [|c pre _] using rev_ind; [simpl in Hlen; lia|]. rewrite length_app in *. simpl in Hlen. simpl length.
    replace (Z.of_nat (length pre + 1) - 1) with (Z.of_nat (length pre)) by lia.
    rewrite store_some by (rewrite !length_app; simpl; lia). cbn [mbind option_bind].
    eexists _, _, _, (chr "-" :: t). split; [reflexivity|].
    split; [by rewrite list_insert_insert_eq|]. split; [done|]. split.
    { rewrite length_insert, !length_app. simpl. unfold INT2STR_MAX_LEN. lia. }
    split.
    { exists pre. split; [|simpl; split; lia]. rewrite <- !app_assoc.
      by rewrite (insert_app_r_alt pre), Nat.sub_diag by lia. }
    unfold decimal. destruct (Z.ltb_spec l 0); [|lia]. by exists t.
  - cbn [mbind option_bind]. rewrite wrap_small by (change (2 ^ 64) with 18446744073709551616; lia).
    destruct (int2str_result b l Hb) as (b' & p & s & t & -> & Hr & Ht); [lia|].
    cbn [mbind option_bind]. by exists b', p, s, t.
Qed.

Lemma num_call_result b c : bufs_ok b → call_ok c →
  ∃ b' p s t, num_call b c = Some (b', p) ∧ call_result b c.2 b' p s t.
Proof.
  destruct c as [[|] l]; intros Hb Hc; unfold num_call, call_ok in *; simpl in *.
  - by apply sint2str_result.
  - destruct (int2str_result b l Hb Hc) as (b' & p & s & t & ? & ? & _). by exists b', p, s, t.
Qed.

Lemma call_result_text b l b' p s t : bufs_ok b → call_result b l b' p s t →
  buf_text b' p = Some t ∧ bufs_ok b' ∧
  int2str_buf b' !! Z.to_nat (bs_buf p) = Some s ∧ s !! Z.to_nat (bs_pos p + bs_len p) = Some 0.
Proof.
  intros Hb (-> & Hn & Hlen & (pre & Hs & Hp & Hl) & _).
  destruct (getstrbufindex_buf b Hb) as (s0 & Hs0 & _). apply lookup_lt_Some in Hs0.
  destruct Hb as (Hi & Hb7 & Hall).
  assert (Hbuf : int2str_buf (mk_bufs (u32 (int2str_buf_index b + 1))
            (<[Z.to_nat (int2str_buf_index b mod 7) := s]> (int2str_buf b))) !! Z.to_nat (bs_buf p) = Some s).
  { simpl. rewrite Hn. by apply list_lookup_insert_eq. }
  split; [|split; [|split; [done|]]].
  - unfold buf_text. rewrite Hbuf. cbn [mbind option_bind]. rewrite Hp, Hl.
    assert (Z.of_nat (length s) = Z.of_nat (length pre) + Z.of_nat (length t) + 1)
      by (rewrite Hs, !length_app; simpl; lia).
    destruct (Z.leb_spec 0 (Z.of_nat (length pre))); [|lia].
    destruct (Z.leb_spec (Z.of_nat (length pre) + Z.of_nat (length t)) (Z.of_nat (length s))); [|lia]. simpl.
    rewrite !Nat2Z.id, Hs, drop_app_length, take_app_length. done.
  - split; [apply wrap_range; lia|]. simpl. rewrite length_insert. split; [done|]. by apply Forall_insert.
  - rewrite Hp, Hl, Hs, app_assoc. rewrite <- Nat2Z.inj_add, Nat2Z.id, <- length_app.
    by rewrite lookup_app_r, Nat.sub_diag by lia.
Qed.

(** ** Reading back what was written *)

Lemma dec_from_ge s : ∀ v, 0 <= v → forallb is_digit s = true → v <= dec_from v s.
Proof.
  induction s as [|c s IH]; intros v Hv; [unfold dec_from; simpl; lia|]. cbn [forallb].
  intros [Hc Hs]%andb_prop. unfold is_digit in Hc.
  specialize (IH (v * 10 + (c - 48)) ltac:(lia) Hs). unfold dec_from in *. simpl. lia.
Qed.

Lemma str2sint_loop_digits s : ∀ r, 0 <= r → forallb is_digit s = true → dec_from r s <= INT_MAX →
  str2sint_loop s r = (dec_from r s, true).
Proof.
  induction s as [|c s IH]; intros r Hr; [done|]. cbn [forallb str2sint_loop].
  intros [Hc Hs]%andb_prop Hm. rewrite Hc. unfold is_digit in Hc.
  change (dec_from r (c :: s)) with (dec_from (r * 10 + (c - 48)) s) in *.
  pose proof (dec_from_ge s (r * 10 + (c - 48)) ltac:(lia) Hs). unfold INT_MAX in Hm.
  rewrite (swrap_small 32 (r * 10)) by (change (2 ^ (32 - 1)) with 2147483648; lia).
  rewrite (swrap_small 32 (r * 10 + (c - 48))) by (change (2 ^ (32 - 1)) with 2147483648; lia).
  apply IH; [lia|done|done].
Qed.

Lemma str2int64_numeral s l r : numeral s l → 0 <= l < 2 ^ 64 → str2int64 (Some s) r = (0, l).
Proof.
  intros (Hd & Hv & Hne & _) Hl. unfold str2int64. rewrite str2num_digits by (done || lia).
  by rewrite Hv, wrap_small by lia.
Qed.

Lemma str2sint_decimal s l r : decimal s l → - INT_MAX <= l <= INT_MAX → str2sint (Some s) r = (0, l).
Proof.
  intros Hs Hl. unfold decimal in Hs. destruct (Z.ltb_spec l 0) as [Hneg|Hpos].
  - destruct Hs as (ds & -> & Hd & Hv & _). unfold str2sint. change (chr "-" =? chr "-") with true. cbv iota.
    rewrite str2sint_loop_digits by (done || lia). rewrite Hv. cbv iota. f_equal.
    unfold INT_MAX in Hl. rewrite swrap_small by (change (2 ^ (32 - 1)) with 2147483648; lia). lia.
  - destruct Hs as (Hd & Hv & Hne & _). destruct s as [|c s]; [done|]. unfold str2sint.
    assert (Hc : 48 <= c) by (cbn [forallb] in Hd; apply andb_prop in Hd as [Hd _]; unfold is_digit in Hd; lia).
    change (chr "-") with 45. change (chr "+") with 43.
    destruct (Z.eqb_spec c 45); [lia|]. destruct (Z.eqb_spec c 43); [lia|].
    rewrite str2sint_loop_digits by (done || lia). rewrite Hv. f_equal.
    unfold INT_MAX in Hl. rewrite swrap_small by (change (2 ^ (32 - 1)) with 2147483648; lia). lia.
Qed.

(** C38. Numbers written by [int2str] and [sint2str] are read back: a call on any 64-bit number
    (unsigned for the first, signed for the second, but for the least one, whose negation is
    undefined) takes the static buffer whose number is the counter modulo seven, advances the
    counter, and leaves the other buffers as they are; the text it returns lies in that
    buffer, is the decimal numeral of the number, without leading zeros and followed by a
    zero byte, [str2int64] reads the number from it when it is not negative, and [str2sint]
    when its absolute value fits in an [int]. *)
Theorem int2str_roundtrip b c : bufs_ok b → call_ok c →
  ∃ b' p s t, num_call b c = Some (b', p) ∧ bufs_ok b' ∧
    bs_buf p = int2str_buf_index b mod 7 ∧ int2str_buf_index b' = u32 (int2str_buf_index b + 1) ∧
    (∀ n, n ≠ bs_buf p → 0 <= n → int2str_buf b' !! Z.to_nat n = int2str_buf b !! Z.to_nat n) ∧
    buf_text b' p = Some t ∧ decimal t c.2 ∧
    int2str_buf b' !! Z.to_nat (bs_buf p) = Some s ∧ s !! Z.to_nat (bs_pos p + bs_len p) = Some 0 ∧
    (0 <= c.2 → ∀ r, str2int64 (Some t) r = (0, c.2)) ∧
    (- INT_MAX <= c.2 <= INT_MAX → ∀ r, str2sint (Some t) r = (0, c.2)).
Proof.
  intros Hb Hc. destruct (num_call_result b c Hb Hc) as (b' & p & s & t & Hcall & Hr).
  destruct (call_result_text _ _ _ _ _ _ Hb Hr) as (Ht & Hb' & Hs & Hz). destruct Hr as (E & Hn & _ & _ & Hd).
  exists b', p, s, t. do 3 (split; [done|]). split; [by rewrite E|]. split.
  { intros n Hne Hn0. rewrite E. cbn [int2str_buf]. apply list_lookup_insert_ne. rewrite Hn in Hne.
    pose proof (Z.mod_pos_bound (int2str_buf_index b) 7 ltac:(lia)). lia. }
  do 4 (split; [done|]). split; [|intros; by apply str2sint_decimal].
  intros Hpos r. apply str2int64_numeral.
  - unfold decimal in Hd. by destruct (Z.ltb_spec c.2 0); [lia|].
  - unfold call_ok in Hc. destruct c as [[|] l]; simpl in *; [|lia].
    change (2 ^ 63) with 9223372036854775808 in Hc. change (2 ^ 64) with 18446744073709551616. lia.
Qed.

Definition zero_bufs (n : Z) : str_bufs := mk_bufs n (replicate 7 (replicate 22 0)).

Lemma zero_bufs_ok n : 0 <= n < 2 ^ 32 → bufs_ok (zero_bufs n).
Proof. intros Hn. split; [done|]. split; [done|]. by repeat constructor. Qed.

Lemma int2str_roundtrip_witness :
  ∃ b' p s t, num_call (zero_bufs 13) (true, -2147483647) = Some (b', p) ∧ bufs_ok b' ∧
    bs_buf p = 6 ∧ int2str_buf_index b' = 14 ∧
    (∀ n, n ≠ bs_buf p → 0 <= n → int2str_buf b' !! Z.to_nat n = int2str_buf (zero_bufs 13) !! Z.to_nat n) ∧
    buf_text b' p = Some t ∧ decimal t (-2147483647) ∧
    int2str_buf b' !! Z.to_nat (bs_buf p) = Some s ∧ s !! Z.to_nat (bs_pos p + bs_len p) = Some 0 ∧
    (0 <= -2147483647 → ∀ r, str2int64 (Some t) r = (0, -2147483647)) ∧
    (- INT_MAX <= -2147483647 <= INT_MAX → ∀ r, str2sint (Some t) r = (0, -2147483647)).
Proof.
  apply (int2str_roundtrip (zero_bufs 13) (true, -2147483647)).
  - apply zero_bufs_ok. lia.
  - unfold call_ok. simpl. lia.
Defined.

(** ** How long a string lives *)

Fixpoint num_calls (b : str_bufs) (cs : list (bool * Z)) : option str_bufs :=
  match cs with
  | [] => Some b
  | c :: cs => '(b, _) ← num_call b c; num_calls b cs
  end.

(** Calls whose turn is not that of buffer [n] leave it as it is. *)
Lemma num_calls_keep cs : ∀ b n s, bufs_ok b → Forall call_ok cs →
  int2str_buf_index b + Z.of_nat (length cs) <= 2 ^ 32 →
  (∀ k, 0 <= k < Z.of_nat (length cs) → (int2str_buf_index b + k) mod 7 ≠ n) → 0 <= n →
  int2str_buf b !! Z.to_nat n = Some s →
  ∃ b', num_calls b cs = Some b' ∧ bufs_ok b' ∧ int2str_buf b' !! Z.to_nat n = Some s.
Proof.
  induction cs as [|c cs IH]; intros b n s Hb Hcs Hi Hk Hn Hs; [by exists b|].
  apply Forall_cons_1 in Hcs as [Hc Hcs]. cbn [num_calls].
  destruct (num_call_result b c Hb Hc) as (b' & p & s' & t & -> & Hr). cbn [mbind option_bind].
  destruct (call_result_text _ _ _ _ _ _ Hb Hr) as (_ & Hb' & _). destruct Hr as (-> & _).
  assert (Hi0 := proj1 Hb). simpl length in *.
  destruct cs as [|c2 cs].
  { exists (mk_bufs (u32 (int2str_buf_index b + 1))
      (<[Z.to_nat (int2str_buf_index b mod 7) := s']> (int2str_buf b))). split; [done|]. split; [done|]. simpl.
    rewrite list_lookup_insert_ne; [done|]. specialize (Hk 0 ltac:(lia)). rewrite Z.add_0_r in Hk.
    pose proof (Z.mod_pos_bound (int2str_buf_index b) 7). lia. }
  apply IH; [done|done| | |done|]; cbn [int2str_buf_index int2str_buf];
    rewrite ?wrap_small by (simpl in *; lia).
  - simpl in *. lia.
  - intros k Hk'. replace (int2str_buf_index b + 1 + k) with (int2str_buf_index b + (k + 1)) by lia. apply Hk. lia.
  - rewrite list_lookup_insert_ne; [done|]. specialize (Hk 0 ltac:(lia)). rewrite Z.add_0_r in Hk.
    pose proof (Z.mod_pos_bound (int2str_buf_index b) 7). lia.
Qed.

(** A string returned by [int2str] or [sint2str] stays what it was while at most six more
    calls are made, as long as the 32-bit counter of the buffers does not wrap in between. *)
Theorem int2str_survives b c cs : bufs_ok b → call_ok c → Forall call_ok cs →
  (length cs <= 6)%nat → int2str_buf_index b + 1 + Z.of_nat (length cs) <= 2 ^ 32 →
  ∃ b1 p t b2, num_call b c = Some (b1, p) ∧ decimal t c.2 ∧ buf_text b1 p = Some t ∧
    num_calls b1 cs = Some b2 ∧ buf_text b2 p = Some t.
Proof.
  intros Hb Hc Hcs Hl Hi. destruct (num_call_result b c Hb Hc) as (b1 & p & s & t & Hcall & Hr).
  destruct (call_result_text _ _ _ _ _ _ Hb Hr) as (Ht & Hb1 & Hs & _).
  destruct Hr as (E & Hn & _ & _ & Hd). assert (Hi0 := proj1 Hb).
  destruct cs as [|c1 cs]; [by exists b1, p, t, b1|].
  destruct (num_calls_keep (c1 :: cs) b1 (bs_buf p) s Hb1 Hcs) as (b2 & Hrun & Hb2 & Hs2).
  - subst b1. cbn [int2str_buf_index]. simpl in *. rewrite wrap_small; lia.
  - intros k Hk. subst b1. cbn [int2str_buf_index]. rewrite Hn, wrap_small by (simpl in *; lia).
    pose proof (Z.mod_pos_bound (int2str_buf_index b) 7 ltac:(lia)).
    rewrite (Z.div_mod (int2str_buf_index b) 7) at 1 by lia.
    intros E. replace (7 * (int2str_buf_index b / 7) + int2str_buf_index b mod 7 + 1 + k)
      with (int2str_buf_index b mod 7 + (1 + k) + int2str_buf_index b / 7 * 7) in E by lia.
    rewrite Z_mod_plus_full in E. simpl length in *.
    destruct (decide (int2str_buf_index b mod 7 + (1 + k) < 7)).
    + rewrite Z.mod_small in E by lia. lia.
    + rewrite <- (Z_mod_plus_full _ (-1) 7), Z.mod_small in E by lia. lia.
  - rewrite Hn. apply Z.mod_pos_bound. lia.
  - done.
  - exists b1, p, t, b2. do 4 (split; [done|]). unfold buf_text in *. by rewrite Hs2, <- Hs.
Qed.

Lemma int2str_survives_witness :
  ∃ b1 p t b2, num_call (zero_bufs 5) (false, 42) = Some (b1, p) ∧ decimal t 42 ∧ buf_text b1 p = Some t ∧
    num_calls b1 (replicate 6 (true, -7)) = Some b2 ∧ buf_text b2 p = Some t.
Proof.
  apply (int2str_survives (zero_bufs 5) (false, 42)).
  - apply zero_bufs_ok. lia.
  - unfold call_ok. simpl. lia.
  - apply Forall_replicate. unfold call_ok. simpl. lia.
  - simpl. lia.
  - simpl. lia.
Defined.

(** The bound of six is exact; and where the counter wraps, which is not at a multiple of
    the number of buffers, the fourth call already reuses the buffer. *)
Definition text_after (b : str_bufs) (c : bool * Z) (cs : list (bool * Z)) : option bytes :=
  '(b, p) ← num_call b c;
  b ← num_calls b cs;
  buf_text b p.

Example int2str_seventh_overwrites :
  text_after (zero_bufs 5) (false, 42) (replicate 6 (false, 99)) = Some (bs "42") ∧
  text_after (zero_bufs 5) (false, 42) (replicate 7 (false, 99)) = Some (bs "99") ∧
  text_after (zero_bufs 4294967295) (false, 42) (replicate 3 (false, 99)) = Some (bs "42") ∧
  text_after (zero_bufs 4294967295) (false, 42) (replicate 4 (false, 99)) = Some (bs "99").
Proof. by vm_compute. Qed.

(** ** Numbers that do not fit *)

(** The decimal readers reduce: on a text of digits [str2short], [str2int] and [str2int64]
    succeed with the number modulo 2^16, 2^32 and 2^64, and [str2s], which refuses more
    than five digits, returns the number modulo 2^16 without an error.  On a text with
    another character they fail; the first three then leave the number read before that
    character in the result. *)
Theorem decimal_readers_wrap s r : s ≠ [] → forallb is_digit s = true →
  (str2short (Some s) r = (0, u16 (dec_from 0 s)) ∧
   str2int (Some s) r = (0, u32 (dec_from 0 s)) ∧
   str2int64 (Some s) r = (0, u64 (dec_from 0 s)) ∧
   str2s s = if (length s <=? 5)%nat then (u16 (dec_from 0 s), false) else (0, true)) ∧
  (∀ c t, is_digit c = false →
   str2short (Some (s ++ c :: t)) r = (-1, u16 (dec_from 0 s)) ∧
   str2int (Some (s ++ c :: t)) r = (-1, u32 (dec_from 0 s)) ∧
   str2int64 (Some (s ++ c :: t)) r = (-1, u64 (dec_from 0 s)) ∧
   str2s (s ++ c :: t) = (0, true)).
Proof.
  intros Hne Hd.
  assert (Hbad : ∀ w c t, 0 <= w → is_digit c = false →
            str2num w (Some (s ++ c :: t)) r = (-1, wrap w (dec_from 0 s))).
  { intros w c t Hw Hc. unfold str2num. destruct s as [|d s]; [done|]. rewrite <- app_comm_cons.
    pose proof (str2num_loop_stops w (d :: s) c t Hw 0 Hd Hc) as HH.
    replace (wrap w 0) with 0 in HH by (unfold wrap; by rewrite Z.mod_0_l by lia).
    rewrite <- app_comm_cons in HH. by rewrite HH. }
  split.
  - split; [by apply str2num_digits|]. split; [by apply str2num_digits|]. split; [by apply str2num_digits|].
    unfold str2s. destruct (Nat.leb_spec (length s) 5).
    + pose proof (str2s_loop_digits s 0 0 ltac:(lia) Hd ltac:(lia)) as HH.
      change (u16 0) with 0 in HH. by rewrite HH.
    + rewrite str2s_loop_refuses; [done|lia|right; lia].
  - intros c t Hc. split; [by apply Hbad|]. split; [by apply Hbad|]. split; [by apply Hbad|].
    unfold str2s. rewrite str2s_loop_refuses; [done|lia|left].
    rewrite forallb_app. simpl. by rewrite Hc, andb_false_r.
Qed.

Lemma decimal_readers_wrap_witness :
  str2s (bs "70000") = (4464, false) ∧
  (str2short (Some (bs "70000")) 0 = (0, u16 (dec_from 0 (bs "70000"))) ∧
   str2int (Some (bs "70000")) 0 = (0, u32 (dec_from 0 (bs "70000"))) ∧
   str2int64 (Some (bs "70000")) 0 = (0, u64 (dec_from 0 (bs "70000"))) ∧
   str2s (bs "70000") =
     if (length (bs "70000") <=? 5)%nat then (u16 (dec_from 0 (bs "70000")), false) else (0, true)).
Proof. split; [reflexivity|]. by apply (decimal_readers_wrap (bs "70000") 0). Defined.

(** ** Hexadecimal *)

(** A property of the numbers below [n] that can be evaluated. *)
Lemma range_forall (P : Z → Prop) `{∀ c, Decision (P c)} (n : nat) :
  forallb (λ c, bool_decide (P c)) (Z.of_nat <$> seq 0 n) = true → ∀ c, 0 <= c < Z.of_nat n → P c.
Proof.
  intros HP c Hc. rewrite forallb_forall in HP. apply (bool_decide_eq_true_1 _), HP, list_elem_of_In, list_elem_of_fmap.
  exists (Z.to_nat c). split; [lia|]. apply elem_of_seq. lia.
Qed.

Lemma hex_digit_fourbits d : 0 <= d < 16 → hex_digit (fourbits2char d) = Some d.
Proof.
  intros Hd. apply (range_forall (λ d, hex_digit (fourbits2char d) = Some d) 16); [by vm_compute|lia].
Qed.

Definition hexd (c : byte) : Z := default 0 (hex_digit c).
Definition all_hex (s : bytes) : Prop := Forall (λ c, is_Some (hex_digit c)) s.

(** The number of a text whose first digit is the least significant. *)
Definition le_val (s : bytes) : Z := foldr (λ c v, v * 16 + hexd c) 0 s.

Lemma rev_hex_loop_digits w u s : 0 <= w → ∀ r, all_hex s →
  rev_hex_loop w u s (wrap w r) = (0, wrap w (fold_left (λ v c, v * 16 + hexd c) s r)).
Proof.
  intros Hw. induction s as [|c s IH]; intros r Hs; [done|]. apply Forall_cons_1 in Hs as [[v Hv] Hs]. simpl.
  rewrite Hv, <- (IH (r * 16 + hexd c) Hs). f_equal. unfold hexd. rewrite Hv. cbn [default].
  rewrite wrap_wrap_add by done. rewrite Z.shiftl_mul_pow2 by lia. change (2 ^ 4) with 16. unfold wrap.
  rewrite Z.add_mod, Z.mul_mod, Z.mod_mod, <- Z.mul_mod, <- Z.add_mod by lia. done.
Qed.

Lemma rev_hex_read w u s : 0 <= w → all_hex s → rev_hex_loop w u (rev s) 0 = (0, wrap w (le_val s)).
Proof.
  intros Hw Hs. pose proof (rev_hex_loop_digits w u (rev s) Hw 0) as HH.
  replace (wrap w 0) with 0 in HH by (unfold wrap; by rewrite Z.mod_0_l by lia).
  rewrite HH by (by apply Forall_rev). do 2 f_equal.
  rewrite <- fold_left_rev_right, rev_involutive. done.
Qed.

Lemma rev_hex_write_spec fuel : ∀ size nr out left rest, 0 <= size → 0 <= nr < 16 ^ Z.of_nat fuel →
  rev_hex_write fuel size nr = (out, left, rest) →
  all_hex out ∧ left = size - Z.of_nat (length out) ∧ 0 <= left ∧ 0 <= rest ∧
  nr = le_val out + 16 ^ Z.of_nat (length out) * rest ∧ 0 <= le_val out < 16 ^ Z.of_nat (length out) ∧
  (rest = 0 ∨ left = 0).
Proof.
  induction fuel as [|fuel IH]; intros size nr out left rest Hsz Hnr; cbn [rev_hex_write].
  { intros [= <- <- <-]. simpl in *. split; [constructor|]. lia. }
  destruct (Z.eqb_spec size 0) as [Hs0|Hs0]; cbn [negb andb].
  { intros [= <- <- <-]. simpl in *. split; [constructor|]. lia. }
  destruct (Z.eqb_spec nr 0) as [Hn0|Hn0]; cbn [negb].
  { intros [= <- <- <-]. simpl in *. split; [constructor|]. lia. }
  destruct (rev_hex_write fuel (size - 1) (Z.shiftr nr 4)) as [[out' left'] rest'] eqn:Hw.
  intros [= <- <- <-]. rewrite Z.shiftr_div_pow2 in Hw by lia. change (2 ^ 4) with 16 in Hw.
  rewrite Nat2Z.inj_succ, Z.pow_succ_r in Hnr by lia.
  apply IH in Hw as (Hall & Hl & Hl0 & Hr0 & Hv & Hb & Hend);
    [|lia|split; [apply Z.div_pos; lia|apply Z.div_lt_upper_bound; lia]].
  assert (Hd : Z.land nr 15 = nr mod 16) by (change 15 with (Z.ones 4); by rewrite Z.land_ones by lia).
  pose proof (Z.mod_pos_bound nr 16 ltac:(lia)) as Hm. pose proof (Z.div_mod nr 16 ltac:(lia)) as Hdm.
  assert (Hc : hex_digit (fourbits2char (Z.land nr 15)) = Some (nr mod 16)) by (rewrite Hd; by apply hex_digit_fourbits).
  split; [constructor; [by rewrite Hc|done]|]. cbn [length le_val foldr]. fold (le_val out').
  unfold hexd. rewrite Hc. cbn [default from_option id]. rewrite Nat2Z.inj_succ, Z.pow_succ_r by lia.
  split; [lia|]. split; [done|]. split; [done|]. split; [nia|]. split; [nia|]. done.
Qed.

(** Hexadecimal numbers with the least significant digit first: [int2reverse_hex] writes
    at most [size] characters and reports success exactly when the number has at most that
    many digits; what it wrote is then read back by [reverse_hex2int64], and by
    [reverse_hex2int] when the number has 32 bits. *)
Theorem reverse_hex_roundtrip size nr : 0 < size → 0 <= nr < 2 ^ 64 →
  ∃ ret out left, int2reverse_hex size nr = (ret, out, left) ∧
    left = size - Z.of_nat (length out) ∧ 0 <= left ∧
    (nr < 16 ^ size → ret = 1 ∧ (∀ u, reverse_hex2int64 out u = (0, nr)) ∧
       (nr < 2 ^ 32 → reverse_hex2int out = (0, nr))) ∧
    (16 ^ size <= nr → ret = -1 ∧ left = 0).
Proof.
  intros Hs Hn. unfold int2reverse_hex. destruct (Z.eqb_spec size 0) as [?|_]; [lia|].
  destruct (Z.eqb_spec nr 0) as [->|Hn0]; cbn [negb andb].
  { eexists _, _, _. split; [reflexivity|]. split; [done|]. split; [lia|].
    split; [done|]. assert (0 < 16 ^ size) by (apply Z.pow_pos_nonneg; lia). lia. }
  destruct (rev_hex_write 16 size nr) as [[out left] rest] eqn:Hw.
  apply rev_hex_write_spec in Hw as (Hall & Hl & Hl0 & Hr0 & Hv & Hb & Hend); [|lia|done].
  eexists _, _, _. split; [reflexivity|]. split; [done|]. split; [done|].
  assert (Hmono : 16 ^ Z.of_nat (length out) <= 16 ^ size) by (apply Z.pow_le_mono_r; lia).
  split.
  - intros Hlt. assert (rest = 0) as ->.
    { destruct Hend as [?|E]; [done|]. replace (Z.of_nat (length out)) with size in * by lia. nia. }
    rewrite Z.mul_0_r, Z.add_0_r in Hv. split; [done|].
    split; [intros u|intros H32]; (unfold reverse_hex2int, reverse_hex2int64; rewrite rev_hex_read by (done || lia));
      f_equal; rewrite <- Hv; apply wrap_small; lia.
  - intros Hge. destruct (Z.eqb_spec rest 0) as [->|Hr]; [nia|]. cbn [negb]. split; [done|]. destruct Hend; lia.
Qed.

Lemma reverse_hex_roundtrip_witness :
  ∃ ret out left, int2reverse_hex 8 3735928559 = (ret, out, left) ∧
    left = 8 - Z.of_nat (length out) ∧ 0 <= left ∧
    (3735928559 < 16 ^ 8 → ret = 1 ∧ (∀ u, reverse_hex2int64 out u = (0, 3735928559)) ∧
       (3735928559 < 2 ^ 32 → reverse_hex2int out = (0, 3735928559))) ∧
    (16 ^ 8 <= 3735928559 → ret = -1 ∧ left = 0).
Proof. apply (reverse_hex_roundtrip 8 3735928559); lia. Defined.

(** Text written as hexadecimal is read back. *)
Theorem hex2string_string2hex s : Forall byte_ok s → hex2string (string2hex s) = Some s.
Proof.
  intros Hs. destruct s as [|c s]; [done|]. unfold string2hex. revert Hs. generalize (c :: s). clear.
  induction 1 as [|c s Hc Hs IH]; [done|]. cbn [mbind list_bind app hex2string].
  assert (Hi : Z.land (Z.shiftr (i8 c) 4) 15 = c / 16 ∧ Z.land (i8 c) 15 = c mod 16).
  { apply (range_forall (λ c, Z.land (Z.shiftr (i8 c) 4) 15 = c / 16 ∧ Z.land (i8 c) 15 = c mod 16) 256);
      [by vm_compute|unfold byte_ok in Hc; lia]. }
  destruct Hi as [-> ->]. unfold byte_ok in Hc. pose proof (Z.mod_pos_bound c 16 ltac:(lia)).
  rewrite (hex_digit_fourbits (c / 16)) by (split; [apply Z.div_pos|apply Z.div_lt_upper_bound]; lia).
  rewrite (hex_digit_fourbits (c mod 16)) by lia. cbn [mbind option_bind] in *. rewrite IH. cbn [mbind option_bind].
  do 2 f_equal. rewrite Z.shiftl_mul_pow2 by lia. change (2 ^ 4) with 16.
  assert (c / 16 < 16) by (apply Z.div_lt_upper_bound; lia). assert (0 <= c / 16) by (apply Z.div_pos; lia).
  pose proof (Z.div_mod c 16 ltac:(lia)).
  rewrite (wrap_small 8 (c / 16 * 16)) by (change (2 ^ 8) with 256; lia).
  rewrite wrap_small by (change (2 ^ 8) with 256; lia). lia.
Qed.

(** ** Escapes *)

Lemma un_escape_plain c t : c ≠ 37 → un_escape (c :: t) = (c :: (un_escape t).1, (un_escape t).2).
Proof.
  intros Hc. rewrite (surjective_pairing (un_escape t)) at 1. simpl.
  assert (E : ∀ A (x y : A), match c with 37 => x | _ => y end = y).
  { intros. destruct c as [|c|c]; try done. do 6 (destruct c as [c|c|]; try done). }
  etransitivity; [apply E|]. by destruct (un_escape t).
Qed.

(** [un_escape] reads back what the escaping functions of [strcommon.c] write. *)
Lemma un_escape_escape_loop keep s : (∀ c, printable c = true → keep c = true → c ≠ 37) →
  ∀ e, escape_loop keep s = Some e → un_escape e = (s, true).
Proof.
  intros Hkeep. induction s as [|c s IH]; intros e; cbn [escape_loop]; [by intros [= <-]|].
  destruct (printable c) eqn:Hc; [|done]. destruct (escape_loop keep s) as [out|]; [|done].
  specialize (IH out eq_refl). cbn [mbind option_bind]. intros [= <-].
  destruct (keep c) eqn:Hk; cbn [app].
  - rewrite un_escape_plain by (by apply Hkeep). by rewrite IH.
  - destruct (escape_char_value c Hc) as (H1 & H2 & H3). unfold printable in Hc.
    unfold escape_char. cbn [app un_escape]. unfold hex2int.
    change (hex_digit (hex_char (Z.shiftr c 4))) with (hex_val (hex_char (Z.shiftr c 4))).
    change (hex_digit (hex_char (Z.land c 15))) with (hex_val (hex_char (Z.land c 15))).
    rewrite H1, H2, H3, IH.
    assert (0 <= Z.shiftr c 4) by (apply Z.shiftr_nonneg; lia).
    assert (0 <= Z.land c 15) by (apply Z.land_nonneg; lia).
    destruct (Z.ltb_spec (Z.shiftr c 4) 0); [lia|]. destruct (Z.ltb_spec (Z.land c 15) 0); [lia|].
    destruct (Z.ltb_spec c 32); [lia|]. by destruct (Z.ltb_spec 126 c); [lia|].
Qed.

(** The replacement of the two-character escapes for carriage return and line feed. *)
Fixpoint crlf_text (s : bytes) : bytes :=
  match s with
  | [] => []
  | c :: t =>
      match t with
      | d :: t' =>
          if c =? 92 then
            if d =? 114 then 13 :: crlf_text t'
            else if d =? 110 then 10 :: crlf_text t'
            else c :: crlf_text t
          else c :: crlf_text t
      | [] => [c]
      end
  end.

Lemma drop_to_last (l : bytes) c : last l = Some c → drop (length l - 1) l = [c].
Proof.
  destruct l as [|x l _] using rev_ind; [done|]. rewrite last_snoc. intros [= ->].
  rewrite length_app. simpl. by rewrite Nat.add_sub, drop_app_length.
Qed.

Lemma shift_down_app pre a b t c : last (b :: t) = Some c →
  shift_down (pre ++ a :: b :: t) (length pre) = pre ++ a :: t ++ [c].
Proof.
  intros Hc. unfold shift_down. rewrite (drop_to_last _ c) by (by rewrite last_app, last_cons_cons, Hc).
  rewrite <- (Nat.add_1_r (length pre)), <- Nat.add_succ_r, drop_app_add, take_app_add.
  simpl. by rewrite <- !app_assoc.
Qed.

(** After the text the buffer holds copies of its last character, where no escape can
    start. *)
Lemma crlf_loop_stale k : ∀ pre c len, crlf_loop k (pre ++ replicate k c) (length pre) len = (pre ++ replicate k c, len).
Proof.
  induction k as [|k IH]; intros pre c len; [done|]. cbn [crlf_loop replicate]. rewrite nth_middle.
  specialize (IH (pre ++ [c]) c len). rewrite length_app, Nat.add_1_r, <- app_assoc in IH. cbn [app] in IH.
  destruct (Z.eqb_spec c (chr "\")) as [->|]; [|exact IH]. cbn [andb].
  destruct (S (length pre) <? _)%nat eqn:Hl; [|exact IH].
  apply Nat.ltb_lt in Hl. rewrite length_app in Hl. simpl in Hl. rewrite length_replicate in Hl.
  destruct k as [|k]; [lia|].
  replace (nth (S (length pre)) _ 0) with (chr "\"); [exact IH|].
  rewrite app_nth2, Nat.sub_succ_l, Nat.sub_diag by lia. done.
Qed.

Lemma length_snoc' (pre : bytes) x : length (pre ++ [x]) = S (length pre).
Proof. rewrite length_app. simpl. lia. Qed.

Lemma crlf_loop_spec n : ∀ pre rest k c, (length rest <= n)%nat → (rest = [] ∨ last rest = Some c) →
  ∃ k', crlf_loop (length rest + k) (pre ++ rest ++ replicate k c) (length pre)
          (Z.of_nat (length pre + length rest)) =
        (pre ++ crlf_text rest ++ replicate k' c, Z.of_nat (length pre + length (crlf_text rest))).
Proof.
  induction n as [|n IH]; intros pre rest k c Hn Hlast.
  { destruct rest; [|simpl in Hn; lia]. exists k. apply crlf_loop_stale. }
  destruct rest as [|x rest]; [exists k; apply crlf_loop_stale|]. destruct Hlast as [?|Hlast]; [done|].
  (* the character stays *)
  assert (Hkeep : ∃ k', crlf_loop (length rest + k) (pre ++ x :: rest ++ replicate k c) (S (length pre))
            (Z.of_nat (length pre + S (length rest))) =
          (pre ++ x :: crlf_text rest ++ replicate k' c, Z.of_nat (length pre + S (length (crlf_text rest))))).
  { simpl in Hn. destruct (IH (pre ++ [x]) rest k c) as [k' Hk']; [lia|destruct rest; [by left|right; by rewrite <- Hlast]|].
    rewrite length_snoc', <- !app_assoc in Hk'. cbn [app] in Hk'.
    rewrite !Nat.add_succ_r. by exists k'. }
  (* an escape becomes one character *)
  assert (Hesc : ∀ y rest' z, rest = y :: rest' →
            ∃ k', crlf_loop (length rest + k) (pre ++ z :: (rest' ++ replicate k c) ++ [c]) (S (length pre))
              (Z.of_nat (length pre + S (length rest)) - 1) =
            (pre ++ z :: crlf_text rest' ++ replicate k' c, Z.of_nat (length pre + S (length (crlf_text rest'))))).
  { intros y rest' z ->. simpl in Hn. destruct (IH (pre ++ [z]) rest' (S k) c) as [k' Hk'];
      [lia|destruct rest'; [by left|right; by rewrite <- Hlast]|].
    exists k'. rewrite length_snoc', <- !app_assoc in Hk'. cbn [app] in Hk'.
    rewrite replicate_S_end, Nat.add_succ_r in Hk'. rewrite <- app_assoc. cbn [length Nat.add].
    replace (Z.of_nat (length pre + S (S (length rest'))) - 1) with (Z.of_nat (S (length pre) + length rest')) by lia.
    rewrite Hk'. f_equal. f_equal. lia. }
  cbn [length Nat.add crlf_loop app]. rewrite nth_middle. change (chr "\") with 92.
  destruct rest as [|y rest].
  { cbn [crlf_text app]. destruct (Z.eqb_spec x 92) as [->|]; [|exact Hkeep]. cbn [andb].
    destruct (S (length pre) <? _)%nat eqn:Hl; [|exact Hkeep]. apply Nat.ltb_lt in Hl.
    rewrite length_app in Hl. simpl in Hl. rewrite length_replicate in Hl.
    injection Hlast as <-. destruct k as [|k]; [lia|].
    replace (nth (S (length pre)) _ 0) with 92; [exact Hkeep|].
    rewrite app_nth2, Nat.sub_succ_l, Nat.sub_diag by lia. done. }
  assert (Hnth : nth (S (length pre)) (pre ++ x :: (y :: rest) ++ replicate k c) 0 = y).
  { rewrite app_nth2, Nat.sub_succ_l, Nat.sub_diag by lia. done. }
  cbn [app] in Hnth |- *. rewrite Hnth. change (chr "r") with 114. change (chr "n") with 110.
  assert (Hlt : (S (length pre) <? length (pre ++ x :: y :: rest ++ replicate k c))%nat = true).
  { apply Nat.ltb_lt. rewrite length_app. simpl. lia. }
  rewrite Hlt, andb_true_r.
  assert (Hlast' : last (y :: rest ++ replicate k c) = Some c).
  { rewrite last_cons_cons in Hlast. destruct k as [|k]; [by rewrite app_nil_r|].
    rewrite replicate_S_end, app_assoc, app_comm_cons, last_snoc. done. }
  assert (Hins : ∀ z, <[length pre := z]> (pre ++ x :: y :: rest ++ replicate k c) = pre ++ z :: y :: rest ++ replicate k c).
  { intros z. by rewrite insert_app_r_alt, Nat.sub_diag by lia. }
  cbn [crlf_text]. destruct (Z.eqb_spec x 92) as [->|]; [|exact Hkeep].
  rewrite !Hins, !(shift_down_app pre _ y _ c) by done.
  destruct (Z.eqb_spec y 114) as [->|]; [by apply (Hesc 114)|].
  destruct (Z.eqb_spec y 110) as [->|]; [by apply (Hesc 110)|]. exact Hkeep.
Qed.

(** [unescape_crlf], which shifts the rest of the text down at each escape and goes on to
    the end the text had at first, over the characters left behind, computes the text
    with the escapes for carriage return and line feed replaced. *)
Theorem unescape_crlf_correct s :
  let '(buf, len) := unescape_crlf s in
  len = Z.of_nat (length (crlf_text s)) ∧ take (Z.to_nat len) buf = crlf_text s.
Proof.
  unfold unescape_crlf. destruct s as [|x s]; [done|].
  assert (Hl : ∃ c, last (x :: s) = Some c) by (destruct (last (x :: s)) eqn:E; [by eexists|by apply last_None in E]).
  destruct Hl as [c Hc]. destruct (crlf_loop_spec (length (x :: s)) [] (x :: s) 0 c) as [k' Hk']; [lia|by right|].
  cbn [app replicate] in Hk'. rewrite app_nil_r, Nat.add_0_r in Hk'. cbn [length Nat.add] in Hk' |- *. rewrite Hk'.
  split; [done|]. by rewrite Nat2Z.id, take_app_length.
Qed.

(** Telephone numbers: a plus sign and two to fifteen digits. *)
Lemma is_e164_correct u : is_e164 u = 1 ↔
  ∃ d, u = chr "+" :: d ∧ (2 <= length d <= 15)%nat ∧ forallb is_digit d = true.
Proof.
  unfold is_e164, _is_e164. destruct u as [|c t]; [split; [done|intros (d & ? & _); done]|].
  destruct (Z.eqb_spec c (chr "+")) as [->|Hc]; [|split; [done|intros (d & [= -> _] & _); done]].
  destruct (Z.ltb_spec (Z.of_nat (length t)) 2) as [H1|H1]; cbn [orb].
  { split; [done|]. intros (d & [= <-] & ? & _). lia. }
  destruct (Z.ltb_spec 15 (Z.of_nat (length t))) as [H2|H2]; cbn [orb].
  { split; [done|]. intros (d & [= <-] & ? & _). lia. }
  destruct (forallb is_digit t) eqn:Hd.
  - split; [|done]. intros _. exists t. split; [done|]. split; [lia|done].
  - split; [done|]. intros (d & [= <-] & _ & ?). congruence.
Qed.

(** ** Q values *)

Lemma len_q_q2str q : Z.of_nat (length (q2str q)) = len_q q.
Proof.
  unfold q2str, len_q, MAX_Q, MIN_Q. destruct (q =? Q_UNSPECIFIED); [done|].
  destruct (1000 <=? q); [done|]. destruct (Z.leb_spec q 0); [done|].
  rewrite (Z.rem_mod_nonneg q 100), (Z.rem_mod_nonneg q 10) by lia.
  pose proof (Z.mod_pos_bound q 100 ltac:(lia)).
  rewrite (Z.rem_mod_nonneg (q mod 100) 10) by lia.
  assert (E : q mod 100 mod 10 = q mod 10) by (symmetry; apply Znumtheory.Zmod_div_mod; [lia..|by exists 10]).
  rewrite E. destruct (Z.eqb_spec (q mod 100) 0) as [E0|]; [done|]. by destruct (Z.eqb_spec (q mod 10) 0).
Qed.

(** What the parser knows of the number in each state. *)
Definition q_inv (x : qparse) : Prop :=
  match q_state x with
  | ST_START => q_order x = 100
  | ST_0 => q_val x = 0 ∧ q_order x = 100
  | ST_0_PT => q_val x = 0 ∧ q_order x = 100
  | ST_1 | ST_1_PT | ST_1_PT_0 => q_val x = 1000
  | ST_0_PT_N => 0 <= q_val x ∧ q_val x + 10 * q_order x <= 1000 ∧
                 (q_order x = 10 ∨ q_order x = 1 ∨ q_order x = 0)
  end.

Lemma q_step_inv x c x' : q_inv x → q_step x c = inl x' → q_inv x' ∧ q_state x' ≠ ST_START ∨ x' = x.
Proof.
  destruct x as [q d o []]; unfold q_inv, q_step; cbn [q_state q_val q_order]; intros Hi; repeat case_match;
    intros [= <-]; cbn [q_state q_val q_order]; try (by right); left; (split; [|done]); try lia;
    unfold is_digit in *.
  - destruct Hi as [-> ->]. change (Z.quot 100 10) with 10. lia.
  - destruct Hi as (? & ? & [-> | [-> | ->]]);
      [change (Z.quot 10 10) with 1|change (Z.quot 1 10) with 0|change (Z.quot 0 10) with 0]; lia.
Qed.

Lemma q_loop_range s : ∀ x v, q_inv x → q_loop x s = (0, v) → 0 <= v <= 1000.
Proof.
  induction s as [|c s IH]; intros x v Hi; cbn [q_loop].
  - destruct x as [q d o []]; unfold q_inv, E_Q_EMPTY in *; cbn [q_state q_val q_order] in *; intros [= <-]; lia.
  - destruct (q_step x c) as [x'|e] eqn:Hs.
    + apply IH. destruct (q_step_inv x c x' Hi Hs) as [[? _]| ->]; done.
    + intros [= -> _]. exfalso. revert Hs. destruct x as [q d o []]; unfold q_step, q_refuse; repeat case_match; done.
Qed.

(** The result does not depend on what [*q] held. *)
Lemma str2q_init r c s : c = 48 ∨ c = 49 → str2q r (Some (c :: s)) = str2q 0 (Some (c :: s)).
Proof. by intros [-> | ->]. Qed.

(** C39. Q values are well formed: when [str2q] succeeds the value is between 0 and 1000; every
    value in that range is printed by [q2str] as a text that [str2q] reads back exactly;
    and [len_q], with which the callers compute the space they need, is the length of the
    text for every value. *)
Theorem qvalue_valid r :
  (∀ s v, str2q r s = (0, v) → MIN_Q <= v <= MAX_Q) ∧
  (∀ q, MIN_Q <= q <= MAX_Q → str2q r (Some (q2str q)) = (0, q)) ∧
  (∀ q, Z.of_nat (length (q2str q)) = len_q q).
Proof.
  split; [|split; [|apply len_q_q2str]].
  - intros [s|] v; [|done]. by apply q_loop_range.
  - intros q Hq. assert (H : head (q2str q) = Some 48 ∨ head (q2str q) = Some 49).
    { unfold q2str, Q_UNSPECIFIED, MAX_Q, MIN_Q in *. repeat case_match; simpl; auto. lia. }
    assert (E : str2q 0 (Some (q2str q)) = (0, q)).
    { apply (range_forall (λ q, str2q 0 (Some (q2str q)) = (0, q)) 1001); [by vm_compute|unfold MIN_Q, MAX_Q in Hq; lia]. }
    rewrite <- E. destruct (q2str q) as [|c s]; [by destruct H|]. apply str2q_init. destruct H as [[= ->]|[= ->]]; auto.
Qed.

(** The last digits are ignored and a q above one is refused. *)
Example str2q_cases :
  str2q 7 (Some (bs "0.12345")) = (0, 123) ∧ str2q 7 (Some (bs "1.001")) = (E_Q_TOO_BIG, 1000) ∧
  str2q 7 (Some (bs "0.5;")) = (E_Q_INV_CHAR, 500) ∧ str2q 7 (Some (bs " ")) = (E_Q_EMPTY, 7) ∧
  str2q 7 (Some (bs "01")) = (0, 1000).
Proof. done. Qed.

(** A text with anything after the number is read as zero by the lenient form of
    [reverse_hex2int64], since the digits are read from the end. *)
Example reverse_hex2int64_unsafe :
  reverse_hex2int64 (bs "a1") true = (0, 26) ∧ reverse_hex2int64 (bs "a1 ") true = (0, 0) ∧
  reverse_hex2int64 (bs "-a1") true = (0, 416).
Proof. done. Qed.
