(* ===== verification/HdrNames.v ===== *)
(** * Names of header fields

    [parse_hname2] of [parser/parse_hname2.c]: the name of a header field is recognised by
    comparing words of four bytes, read from memory and put in lower case by an or with
    0x20 in every byte, with the constants of [parser/keys.h].  The tests are written in
    macros, one file [parser/case_*.h] for each first word; here each macro is a term of
    the type [hn_code], whose constructors are the statements the macros are made of, and
    [run] executes it.  The macro [HAVE], which bounds the reads in builds for fuzzing, is
    1 in the other builds: reads may pass the end of the buffer, so the memory is a
    function from addresses to bytes. *)

From stdpp Require Import prelude list strings.
From Stdlib Require Import ZArith Lia Ascii.
From S2P Require Import Prelude.

(** ** Header types *)

Inductive hdr_types_t :=
  | HDR_ERROR_T | HDR_OTHER_T | HDR_VIA_T | HDR_VIA2_T | HDR_TO_T | HDR_FROM_T | HDR_CSEQ_T
  | HDR_CALLID_T | HDR_CONTACT_T | HDR_MAXFORWARDS_T | HDR_ROUTE_T | HDR_RECORDROUTE_T
  | HDR_PATH_T | HDR_CONTENTTYPE_T | HDR_CONTENTLENGTH_T | HDR_AUTHORIZATION_T | HDR_EXPIRES_T
  | HDR_PROXYAUTH_T | HDR_SUPPORTED_T | HDR_PROXYREQUIRE_T | HDR_UNSUPPORTED_T | HDR_ALLOW_T
  | HDR_EVENT_T | HDR_ACCEPT_T | HDR_ACCEPTLANGUAGE_T | HDR_ORGANIZATION_T | HDR_PRIORITY_T
  | HDR_SUBJECT_T | HDR_USERAGENT_T | HDR_ACCEPTDISPOSITION_T | HDR_CONTENTDISPOSITION_T
  | HDR_DIVERSION_T | HDR_RPID_T | HDR_REFER_TO_T | HDR_SESSION_EXPIRES_T | HDR_MIN_SE_T
  | HDR_PPI_T | HDR_PAI_T | HDR_PRIVACY_T | HDR_RETRY_AFTER_T | HDR_CALL_INFO_T
  | HDR_WWW_AUTHENTICATE_T | HDR_PROXY_AUTHENTICATE_T | HDR_MIN_EXPIRES_T | HDR_FEATURE_CAPS_T
  | HDR_REPLACES_T | HDR_TO_PATH_T | HDR_FROM_PATH_T | HDR_MESSAGE_ID_T | HDR_BYTE_RANGE_T
  | HDR_FAILURE_REPORT_T | HDR_SUCCESS_REPORT_T | HDR_STATUS_T | HDR_USE_PATH_T
  | HDR_SECURITY_CLIENT_T | HDR_SECURITY_SERVER_T | HDR_SECURITY_VERIFY_T | HDR_EOH_T.

#[export] Instance hdr_types_t_eq_dec : EqDecision hdr_types_t.
Proof. solve_decision. Defined.

(** The values of the enumeration. *)
Definition hdr_code (t : hdr_types_t) : Z :=
  match t with
  | HDR_ERROR_T => -1
  | HDR_OTHER_T => 0
  | HDR_VIA_T => 1
  | HDR_VIA2_T => 2
  | HDR_TO_T => 3
  | HDR_FROM_T => 4
  | HDR_CSEQ_T => 5
  | HDR_CALLID_T => 6
  | HDR_CONTACT_T => 7
  | HDR_MAXFORWARDS_T => 8
  | HDR_ROUTE_T => 9
  | HDR_RECORDROUTE_T => 10
  | HDR_PATH_T => 11
  | HDR_CONTENTTYPE_T => 12
  | HDR_CONTENTLENGTH_T => 13
  | HDR_AUTHORIZATION_T => 14
  | HDR_EXPIRES_T => 15
  | HDR_PROXYAUTH_T => 16
  | HDR_SUPPORTED_T => 17
  | HDR_PROXYREQUIRE_T => 18
  | HDR_UNSUPPORTED_T => 19
  | HDR_ALLOW_T => 20
  | HDR_EVENT_T => 21
  | HDR_ACCEPT_T => 22
  | HDR_ACCEPTLANGUAGE_T => 23
  | HDR_ORGANIZATION_T => 24
  | HDR_PRIORITY_T => 25
  | HDR_SUBJECT_T => 26
  | HDR_USERAGENT_T => 27
  | HDR_ACCEPTDISPOSITION_T => 28
  | HDR_CONTENTDISPOSITION_T => 29
  | HDR_DIVERSION_T => 30
  | HDR_RPID_T => 31
  | HDR_REFER_TO_T => 32
  | HDR_SESSION_EXPIRES_T => 33
  | HDR_MIN_SE_T => 34
  | HDR_PPI_T => 35
  | HDR_PAI_T => 36
  | HDR_PRIVACY_T => 37
  | HDR_RETRY_AFTER_T => 38
  | HDR_CALL_INFO_T => 39
  | HDR_WWW_AUTHENTICATE_T => 40
  | HDR_PROXY_AUTHENTICATE_T => 41
  | HDR_MIN_EXPIRES_T => 42
  | HDR_FEATURE_CAPS_T => 43
  | HDR_REPLACES_T => 44
  | HDR_TO_PATH_T => 45
  | HDR_FROM_PATH_T => 46
  | HDR_MESSAGE_ID_T => 47
  | HDR_BYTE_RANGE_T => 48
  | HDR_FAILURE_REPORT_T => 49
  | HDR_SUCCESS_REPORT_T => 50
  | HDR_STATUS_T => 51
  | HDR_USE_PATH_T => 52
  | HDR_SECURITY_CLIENT_T => 53
  | HDR_SECURITY_SERVER_T => 54
  | HDR_SECURITY_VERIFY_T => 55
  | HDR_EOH_T => 56
  end.

(** ** Keys *)

Definition _via1_ : Z := 0x3a616976.
Definition _from_ : Z := 0x6d6f7266.
Definition _to12_ : Z := 0x203a6f74.
Definition _cseq_ : Z := 0x71657363.
Definition _call_ : Z := 0x6c6c6163.
Definition _cont_ : Z := 0x746e6f63.
Definition _rout_ : Z := 0x74756f72.
Definition _max__ : Z := 0x2d78616d.
Definition _reco_ : Z := 0x6f636572.
Definition _via2_ : Z := 0x20616976.
Definition _auth_ : Z := 0x68747561.
Definition _supp_ : Z := 0x70707573.
Definition _expi_ : Z := 0x69707865.
Definition _prox_ : Z := 0x786f7270.
Definition _allo_ : Z := 0x6f6c6c61.
Definition _path_ : Z := 0x68746170.
Definition _unsu_ : Z := 0x75736e75.
Definition _even_ : Z := 0x6e657665.
Definition _acce_ : Z := 0x65636361.
Definition _orga_ : Z := 0x6167726f.
Definition _prio_ : Z := 0x6f697270.
Definition _subj_ : Z := 0x6a627573.
Definition _user_ : Z := 0x72657375.
Definition _dive_ : Z := 0x65766964.
Definition _remo_ : Z := 0x6f6d6572.
Definition _refe_ : Z := 0x65666572.
Definition _sess_ : Z := 0x73736573.
Definition _min__ : Z := 0x2d6e696d.
Definition _p_pr_ : Z := 0x72702d70.
Definition _p_as_ : Z := 0x73612d70.
Definition _priv_ : Z := 0x76697270.
Definition _retr_ : Z := 0x72746572.
Definition _www__ : Z := 0x2d777777.
Definition _feat_ : Z := 0x74616566.
Definition _repl_ : Z := 0x6c706572.
Definition _to_p_ : Z := 0x702d6f74.
Definition _mess_ : Z := 0x7373656d.
Definition _byte_ : Z := 0x65747962.
Definition _fail_ : Z := 0x6c696166.
Definition _succ_ : Z := 0x63637573.
Definition _stat_ : Z := 0x74617473.
Definition _use__ : Z := 0x2d657375.
Definition _secu_ : Z := 0x75636573.
Definition __pat_ : Z := 0x7461702d.
Definition __id1_ : Z := 0x3a64692d.
Definition __id2_ : Z := 0x2064692d.
Definition __inf_ : Z := 0x666e692d.
Definition _act1_ : Z := 0x3a746361.
Definition _act2_ : Z := 0x20746361.
Definition _ent__ : Z := 0x2d746e65.
Definition _leng_ : Z := 0x676e656c.
Definition _th12_ : Z := 0x203a6874.
Definition _type_ : Z := 0x65707974.
Definition _disp_ : Z := 0x70736964.
Definition _osit_ : Z := 0x7469736f.
Definition _ion1_ : Z := 0x3a6e6f69.
Definition _ion2_ : Z := 0x206e6f69.
Definition _forw_ : Z := 0x77726f66.
Definition _ards_ : Z := 0x73647261.
Definition _rd_r_ : Z := 0x722d6472.
Definition _oute_ : Z := 0x6574756f.
Definition _oriz_ : Z := 0x7a69726f.
Definition _atio_ : Z := 0x6f697461.
Definition _res1_ : Z := 0x3a736572.
Definition _res2_ : Z := 0x20736572.
Definition _y_au_ : Z := 0x75612d79.
Definition _y_re_ : Z := 0x65722d79.
Definition _thor_ : Z := 0x726f6874.
Definition _then_ : Z := 0x6e656874.
Definition _izat_ : Z := 0x74617a69.
Definition _tica_ : Z := 0x61636974.
Definition _quir_ : Z := 0x72697571.
Definition _ppor_ : Z := 0x726f7070.
Definition _ted1_ : Z := 0x3a646574.
Definition _ted2_ : Z := 0x20646574.
Definition _pt_l_ : Z := 0x6c2d7470.
Definition _pt_d_ : Z := 0x64617470.
Definition _angu_ : Z := 0x75676e61.
Definition _age1_ : Z := 0x3a656761.
Definition _age2_ : Z := 0x20656761.
Definition _ispo_ : Z := 0x6f707369.
Definition _siti_ : Z := 0x69746973.
Definition _niza_ : Z := 0x617a696e.
Definition _tion_ : Z := 0x6e6f6974.
Definition _rity_ : Z := 0x79746972.
Definition _ect1_ : Z := 0x3a746365.
Definition _ect2_ : Z := 0x20746365.
Definition __age_ : Z := 0x6567612d.
Definition _orte_ : Z := 0x6574726f.
Definition _rsio_ : Z := 0x6f697372.
Definition _te_p_ : Z := 0x702d6574.
Definition _arty_ : Z := 0x79747261.
Definition _r_to_ : Z := 0x6f742d72.
Definition _ion__ : Z := 0x2d6e6f69.
Definition _efer_ : Z := 0x72656665.
Definition _red__ : Z := 0x2d646572.
Definition _iden_ : Z := 0x6e656469.
Definition _tity_ : Z := 0x79746974.
Definition _sert_ : Z := 0x74726573.
Definition _ed_i_ : Z := 0x692d6465.
Definition _dent_ : Z := 0x746e6564.
Definition _ity1_ : Z := 0x3a797469.
Definition _ity2_ : Z := 0x20797469.
Definition _acy1_ : Z := 0x3a796361.
Definition _acy2_ : Z := 0x20796361.
Definition _y_af_ : Z := 0x66612d79.
Definition _ter1_ : Z := 0x3a726574.
Definition _ter2_ : Z := 0x20726574.
Definition _enti_ : Z := 0x69746e65.
Definition _cate_ : Z := 0x65746163.
Definition _ure__ : Z := 0x2d657275.
Definition _caps_ : Z := 0x73706163.
Definition _aces_ : Z := 0x73656361.
Definition _ath1_ : Z := 0x3a687461.
Definition _ath2_ : Z := 0x20687461.
Definition _age__ : Z := 0x2d656761.
Definition __ran_ : Z := 0x6e61722d.
Definition _repo_ : Z := 0x6f706572.
Definition _ess__ : Z := 0x2d737365.
Definition __cli_ : Z := 0x696c632d.
Definition __ser_ : Z := 0x7265732d.
Definition __ver_ : Z := 0x7265762d.
Definition _ent1_ : Z := 0x3a746e65.
Definition _ent2_ : Z := 0x20746e65.
Definition _ver1_ : Z := 0x3a726576.
Definition _ver2_ : Z := 0x20726576.
Definition _ify1_ : Z := 0x3a796669.
Definition _ify2_ : Z := 0x20796669.

(** ** The macros *)

Inductive hn_code :=
  | Return (ty : hdr_types_t) (len n : Z)   (** [hdr->type], [hdr->name.len]; [return p + n] *)
  | DcEnd (ty : hdr_types_t) (len n : Z)    (** the same; [p += n; goto dc_end] *)
  | DcCont (ty : hdr_types_t) (len n : Z)   (** the same; [p += n; goto dc_cont] *)
  | Other                                   (** [goto other] *)
  | Adv (n : Z) (k : hn_code)               (** [p += n] *)
  | If4 (key : Z) (yes no : hn_code)        (** [LOWER_DWORD(READ(p)) == key] *)
  | If1 (off c : Z) (yes no : hn_code)      (** [LOWER_BYTE(p[off]) == c] *)
  | IfRaw (off c : Z) (yes no : hn_code).   (** [p[off] == c] *)

(** A switch over [LOWER_DWORD(READ(p))], and what follows it. *)
Definition switch4 (cases : list (Z * hn_code)) (k : hn_code) : hn_code :=
  foldr (λ c rest, If4 c.1 c.2 rest) k cases.

(** The last word of a name with the colon, and with a space. *)
Definition last4 (ty : hdr_types_t) (len : Z) (k1 k2 : Z) : hn_code :=
  switch4 [(k1, Return ty len 4); (k2, DcCont ty len 4)] Other.

(** One more byte of a name, two more bytes tested one after the other, and two tested
    together. *)
Definition byte1 (c : ascii) (ty : hdr_types_t) (len : Z) : hn_code :=
  If1 0 (chr c) (DcCont ty len 1) Other.
Definition byte2 (c d : ascii) (ty : hdr_types_t) (len : Z) : hn_code :=
  If1 0 (chr c) (Adv 1 (byte1 d ty len)) Other.
Definition both2 (c d : ascii) (ty : hdr_types_t) (len : Z) : hn_code :=
  If1 0 (chr c) (If1 1 (chr d) (DcCont ty len 2) Other) Other.

Definition via1_CASE : hn_code := Return HDR_VIA_T 3 4.
Definition via2_CASE : hn_code := DcEnd HDR_VIA_T 3 4.

Definition from_CASE : hn_code :=
  Adv 4 (IfRaw 0 (chr "-")
    (If4 __pat_ (If1 4 (chr "h") (DcCont HDR_FROM_PATH_T 9 5) Other) Other)
    (DcCont HDR_FROM_T 4 0)).

Definition to12_CASE : hn_code := Return HDR_TO_T 2 4.
Definition cseq_CASE : hn_code := DcCont HDR_CSEQ_T 4 4.

Definition call_CASE : hn_code :=
  Adv 4 (switch4 [(__id1_, Return HDR_CALLID_T 7 4); (__id2_, DcEnd HDR_CALLID_T 7 4);
                  (__inf_, Adv 4 (byte1 "o" HDR_CALL_INFO_T 9))] Other).

Definition TH_CASE : hn_code :=
  switch4 [(_th12_, Return HDR_CONTENTLENGTH_T 14 4)] (byte2 "t" "h" HDR_CONTENTLENGTH_T 14).
Definition ion_CASE : hn_code :=
  switch4 [(_ion1_, Return HDR_CONTENTDISPOSITION_T 19 4); (_ion2_, DcEnd HDR_CONTENTDISPOSITION_T 19 4)] Other.
Definition CONTENT_CASE : hn_code :=
  switch4 [(_leng_, Adv 4 TH_CASE); (_type_, DcCont HDR_CONTENTTYPE_T 12 4);
           (_disp_, Adv 4 (switch4 [(_osit_, Adv 4 ion_CASE)] Other))] Other.
Definition cont_CASE : hn_code :=
  Adv 4 (switch4 [(_act1_, Return HDR_CONTACT_T 7 4); (_act2_, DcEnd HDR_CONTACT_T 7 4);
                  (_ent__, Adv 4 CONTENT_CASE)] Other).

Definition rout_CASE : hn_code := Adv 4 (byte1 "e" HDR_ROUTE_T 5).

Definition max_CASE : hn_code :=
  Adv 4 (switch4 [(_forw_, Adv 4 (If4 _ards_ (DcCont HDR_MAXFORWARDS_T 12 4) Other))] Other).

Definition reco_CASE : hn_code :=
  Adv 4 (switch4 [(_rd_r_, Adv 4 (If4 _oute_ (DcCont HDR_RECORDROUTE_T 12 4) Other))] Other).

Definition path_CASE : hn_code := Adv 4 (DcCont HDR_PATH_T 4 0).

Definition auth_CASE : hn_code :=
  Adv 4 (If4 _oriz_ (Adv 4 (If4 _atio_ (Adv 4 (byte1 "n" HDR_AUTHORIZATION_T 13)) Other)) Other).

Definition expi_CASE : hn_code := Adv 4 (last4 HDR_EXPIRES_T 7 _res1_ _res2_).

Definition TH2_CASE : hn_code :=
  switch4 [(_thor_, Adv 4 (switch4 [(_izat_, Adv 4 (last4 HDR_PROXYAUTH_T 19 _ion1_ _ion2_))] Other));
           (_then_, Adv 4 (switch4 [(_tica_, Adv 4 (both2 "t" "e" HDR_PROXY_AUTHENTICATE_T 18))] Other))] Other.
Definition prox_CASE : hn_code :=
  Adv 4 (switch4 [(_y_au_, Adv 4 TH2_CASE);
                  (_y_re_, Adv 4 (switch4 [(_quir_, Adv 4 (byte1 "e" HDR_PROXYREQUIRE_T 13))] Other))] Other).

Definition allo_CASE : hn_code := Adv 4 (byte1 "w" HDR_ALLOW_T 5).

Definition unsu_CASE : hn_code :=
  Adv 4 (switch4 [(_ppor_, Adv 4 (last4 HDR_UNSUPPORTED_T 11 _ted1_ _ted2_))] Other).

Definition even_CASE : hn_code := Adv 4 (byte1 "t" HDR_EVENT_T 5).

Definition acce_CASE : hn_code :=
  Adv 4 (switch4
    [(_pt_l_, Adv 4 (switch4 [(_angu_, Adv 4 (last4 HDR_ACCEPTLANGUAGE_T 15 _age1_ _age2_))] Other));
     (_pt_d_, Adv 4 (switch4 [(_ispo_, Adv 4 (switch4 [(_siti_,
                Adv 4 (byte2 "o" "n" HDR_ACCEPTDISPOSITION_T 18))] Other))] Other))]
    (byte2 "p" "t" HDR_ACCEPT_T 6)).

Definition orga_CASE : hn_code :=
  Adv 4 (switch4 [(_niza_, Adv 4 (If4 _tion_ (DcCont HDR_ORGANIZATION_T 12 4) Other))] Other).

Definition prio_CASE : hn_code := Adv 4 (If4 _rity_ (DcCont HDR_PRIORITY_T 8 4) Other).

Definition subj_CASE : hn_code := Adv 4 (last4 HDR_SUBJECT_T 7 _ect1_ _ect2_).

Definition user_CASE : hn_code :=
  Adv 4 (switch4 [(__age_, Adv 4 (byte2 "n" "t" HDR_USERAGENT_T 10))] Other).

Definition supp_CASE : hn_code :=
  Adv 4 (switch4 [(_orte_, Adv 4 (byte1 "d" HDR_SUPPORTED_T 9))] Other).

Definition dive_CASE : hn_code :=
  Adv 4 (switch4 [(_rsio_, Adv 4 (byte1 "n" HDR_DIVERSION_T 9))] Other).

Definition remo_CASE : hn_code :=
  Adv 4 (If4 _te_p_ (Adv 4 (If4 _arty_ (Adv 4 (last4 HDR_RPID_T 15 __id1_ __id2_)) Other)) Other).

Definition refe_CASE : hn_code := Adv 4 (If4 _r_to_ (DcCont HDR_REFER_TO_T 8 4) Other).

Definition sess_CASE : hn_code :=
  Adv 4 (If4 _ion__ (Adv 4 (If4 _expi_ (Adv 4 (last4 HDR_SESSION_EXPIRES_T 15 _res1_ _res2_)) Other)) Other).

Definition min__CASE : hn_code :=
  Adv 4 (If1 0 (chr "s") (Adv 1 (byte1 "e" HDR_MIN_SE_T 6))
    (switch4 [(_expi_, Adv 4 (last4 HDR_MIN_EXPIRES_T 11 _res1_ _res2_))] Other)).

Definition p_pr_CASE : hn_code :=
  Adv 4 (If4 _efer_ (Adv 4 (If4 _red__ (Adv 4 (If4 _iden_ (Adv 4
    (If4 _tity_ (DcCont HDR_PPI_T 20 4) Other)) Other)) Other)) Other).

Definition p_as_CASE : hn_code :=
  Adv 4 (If4 _sert_ (Adv 4 (If4 _ed_i_ (Adv 4 (If4 _dent_ (Adv 4
    (last4 HDR_PAI_T 19 _ity1_ _ity2_)) Other)) Other)) Other).

Definition priv_CASE : hn_code := Adv 4 (last4 HDR_PRIVACY_T 7 _acy1_ _acy2_).

Definition retr_CASE : hn_code :=
  Adv 4 (If4 _y_af_ (Adv 4 (last4 HDR_RETRY_AFTER_T 11 _ter1_ _ter2_)) Other).

Definition www_CASE : hn_code :=
  Adv 4 (switch4 [(_auth_, Adv 4 (switch4 [(_enti_, Adv 4
    (switch4 [(_cate_, DcCont HDR_WWW_AUTHENTICATE_T 16 4)] Other))] Other))] Other).

Definition feat_CASE : hn_code :=
  Adv 4 (switch4 [(_ure__, Adv 4 (If4 _caps_ (DcCont HDR_FEATURE_CAPS_T 12 4) Other))] Other).

Definition repl_CASE : hn_code := Adv 4 (If4 _aces_ (DcCont HDR_REPLACES_T 8 4) Other).

Definition to_p_CASE : hn_code := Adv 4 (last4 HDR_TO_PATH_T 7 _ath1_ _ath2_).

Definition mess_CASE : hn_code :=
  Adv 4 (switch4 [(_age__, Adv 4 (both2 "i" "d" HDR_MESSAGE_ID_T 10))] Other).

Definition byte_CASE : hn_code :=
  Adv 4 (switch4 [(__ran_, Adv 4 (both2 "g" "e" HDR_BYTE_RANGE_T 10))] Other).

Definition fail_CASE : hn_code :=
  Adv 4 (switch4 [(_ure__, Adv 4 (switch4 [(_repo_, Adv 4 (both2 "r" "t" HDR_FAILURE_REPORT_T 14))] Other))] Other).

Definition succ_CASE : hn_code :=
  Adv 4 (switch4 [(_ess__, Adv 4 (switch4 [(_repo_, Adv 4 (both2 "r" "t" HDR_SUCCESS_REPORT_T 14))] Other))] Other).

Definition stat_CASE : hn_code := Adv 4 (both2 "u" "s" HDR_STATUS_T 6).

Definition use__CASE : hn_code := Adv 4 (If4 _path_ (DcCont HDR_USE_PATH_T 8 4) Other).

Definition secu_CASE : hn_code :=
  Adv 4 (If4 _rity_ (Adv 4 (switch4
    [(__cli_, Adv 4 (last4 HDR_SECURITY_CLIENT_T 15 _ent1_ _ent2_));
     (__ser_, Adv 4 (last4 HDR_SECURITY_SERVER_T 15 _ver1_ _ver2_));
     (__ver_, Adv 4 (last4 HDR_SECURITY_VERIFY_T 15 _ify1_ _ify2_))] Other)) Other).

(** The compact form of a name. *)
Definition PARSE_COMPACT (id : hdr_types_t) : hn_code :=
  IfRaw 1 32 (DcEnd id 1 2) (IfRaw 1 9 (DcEnd id 1 2) (IfRaw 1 (chr ":") (Return id 1 2) Other)).

(** The default of the first switch. *)
Definition first_byte : hn_code :=
  foldr (λ c rest, If1 0 (chr c.1) c.2 rest) Other
    [("t"%char, If1 1 (chr "o") (DcCont HDR_TO_T 2 2)
             (If1 1 32 (DcEnd HDR_TO_T 1 2) (If1 1 9 (DcEnd HDR_TO_T 1 2)
             (If1 1 (chr ":") (Return HDR_TO_T 1 2) Other))));
     ("v"%char, PARSE_COMPACT HDR_VIA_T); ("f"%char, PARSE_COMPACT HDR_FROM_T);
     ("i"%char, PARSE_COMPACT HDR_CALLID_T); ("m"%char, PARSE_COMPACT HDR_CONTACT_T);
     ("l"%char, PARSE_COMPACT HDR_CONTENTLENGTH_T); ("k"%char, PARSE_COMPACT HDR_SUPPORTED_T);
     ("c"%char, PARSE_COMPACT HDR_CONTENTTYPE_T); ("o"%char, PARSE_COMPACT HDR_EVENT_T);
     ("x"%char, PARSE_COMPACT HDR_SESSION_EXPIRES_T)].

Definition FIRST_QUATERNIONS : list (Z * hn_code) :=
  [(_via1_, via1_CASE); (_from_, from_CASE); (_to12_, to12_CASE); (_cseq_, cseq_CASE);
   (_call_, call_CASE); (_cont_, cont_CASE); (_rout_, rout_CASE); (_max__, max_CASE);
   (_reco_, reco_CASE); (_via2_, via2_CASE); (_auth_, auth_CASE); (_supp_, supp_CASE);
   (_expi_, expi_CASE); (_prox_, prox_CASE); (_allo_, allo_CASE); (_path_, path_CASE);
   (_unsu_, unsu_CASE); (_even_, even_CASE); (_acce_, acce_CASE); (_orga_, orga_CASE);
   (_prio_, prio_CASE); (_subj_, subj_CASE); (_user_, user_CASE); (_dive_, dive_CASE);
   (_remo_, remo_CASE); (_refe_, refe_CASE); (_sess_, sess_CASE); (_min__, min__CASE);
   (_p_pr_, p_pr_CASE); (_p_as_, p_as_CASE); (_priv_, priv_CASE); (_retr_, retr_CASE);
   (_www__, www_CASE); (_feat_, feat_CASE); (_repl_, repl_CASE); (_to_p_, to_p_CASE);
   (_mess_, mess_CASE); (_byte_, byte_CASE); (_fail_, fail_CASE); (_succ_, succ_CASE);
   (_stat_, stat_CASE); (_use__, use__CASE); (_secu_, secu_CASE)].

Definition first_switch : hn_code := switch4 FIRST_QUATERNIONS first_byte.

(** ** The function *)

Section hname.
(** The memory the message is in. *)
Context (mem : Z → byte).

Definition LOWER_BYTE (b : Z) : Z := Z.lor b 0x20.
Definition LOWER_DWORD (d : Z) : Z := Z.lor d 0x20202020.
Definition READ (p : Z) : Z :=
  mem p + Z.shiftl (mem (p + 1)) 8 + Z.shiftl (mem (p + 2)) 16 + Z.shiftl (mem (p + 3)) 24.

(** Where the tests lead. *)
Inductive hn_jump :=
  | JReturn (ty : hdr_types_t) (len p : Z)
  | JDcEnd (ty : hdr_types_t) (len p : Z)
  | JDcCont (ty : hdr_types_t) (len p : Z)
  | JOther (p : Z).

Fixpoint run (a : hn_code) (p : Z) : hn_jump :=
  match a with
  | Return ty len n => JReturn ty len (p + n)
  | DcEnd ty len n => JDcEnd ty len (p + n)
  | DcCont ty len n => JDcCont ty len (p + n)
  | Other => JOther p
  | Adv n k => run k (p + n)
  | If4 key yes no => if LOWER_DWORD (READ p) =? key then run yes p else run no p
  | If1 off c yes no => if LOWER_BYTE (mem (p + off)) =? c then run yes p else run no p
  | IfRaw off c yes no => if mem (p + off) =? c then run yes p else run no p
  end.

Definition is_ws (c : byte) : bool := (c =? 32) || (c =? 9).

(** [skip_ws]: [n] is the distance to the end. *)
Fixpoint skip_ws_loop (n : nat) (p : Z) : Z :=
  match n with
  | O => p
  | S n => if is_ws (mem p) then skip_ws_loop n (p + 1) else p
  end.
Definition skip_ws (p end_ : Z) : Z := skip_ws_loop (Z.to_nat (end_ - p)) p.

(** What the function returns: the pointer of an error, or the type, the length of the
    name, which starts at [begin], and the pointer after the colon. *)
Inductive hn_result :=
  | HnError (tmp : Z)
  | HnOk (ty : hdr_types_t) (len : Z) (tmp : Z).

(** Only spaces before the colon. *)
Definition to_colon (ty : hdr_types_t) (len p end_ : Z) : hn_result :=
  let p := skip_ws p end_ in
  if (end_ <=? p) || negb (mem p =? chr ":") then HnError 0 else HnOk ty len (p + 1).

Definition dc_end (ty : hdr_types_t) (len p end_ : Z) : hn_result :=
  if end_ <=? p then HnError 0 else to_colon ty len p end_.

(** The label [other]: [n] is the distance to the end. *)
Fixpoint other_loop (n : nat) (begin p end_ : Z) : hn_result :=
  match n with
  | O => HnError 0
  | S n =>
      if mem p =? chr ":" then HnOk HDR_OTHER_T (p - begin) (p + 1)
      else if is_ws (mem p) then to_colon HDR_OTHER_T (p - begin) (p + 1) end_
      else other_loop n begin (p + 1) end_
  end.
Definition other (begin p end_ : Z) : hn_result := other_loop (Z.to_nat (end_ - p)) begin p end_.

Definition dc_cont (ty : hdr_types_t) (len begin p end_ : Z) : hn_result :=
  if end_ <=? p then HnError 0
  else if mem p =? chr ":" then HnOk ty len (p + 1)
  else if is_ws (mem p) then to_colon ty len (p + 1) end_
  else other begin p end_.

Definition jump (begin end_ : Z) (j : hn_jump) : hn_result :=
  match j with
  | JReturn ty len p => HnOk ty len p
  | JDcEnd ty len p => dc_end ty len p end_
  | JDcCont ty len p => dc_cont ty len begin p end_
  | JOther p => other begin p end_
  end.

Definition parse_hname2 (begin end_ : Z) : hn_result :=
  if end_ - begin <? 4 then HnError begin else jump begin end_ (run first_switch begin).
End hname.
