(* ===== verification/HdrNamesSpec.v ===== *)
(** * Theorems on the names of header fields

    The tests of [parse_hname2] are a tree of comparisons.  Its paths are collected with
    the tests they pass ([paths]); that each path ends as it should is then a property of
    finitely many paths that is evaluated, and the theorem follows for every text: the
    function gives the type of the name in a table, whatever the case of the letters. *)

From stdpp Require Import prelude list strings.
From Stdlib Require Import ZArith Lia Ascii.
From S2P Require Import Prelude HdrNames.

(** ** The table *)

(** The names with the types that [hf.h] gives them; the last component tells that the end of
    the name is compared together with the character after it, which can then be a colon or a
    space but not a tab. *)
Definition known_names : list (bytes * hdr_types_t * bool) :=
  (λ x, (bs x.1.1, x.1.2, x.2)) <$>
  [("via", HDR_VIA_T, true); ("v", HDR_VIA_T, false); ("to", HDR_TO_T, false); ("t", HDR_TO_T, true);
   ("from", HDR_FROM_T, false); ("f", HDR_FROM_T, false); ("cseq", HDR_CSEQ_T, false);
   ("call-id", HDR_CALLID_T, true); ("i", HDR_CALLID_T, false);
   ("contact", HDR_CONTACT_T, true); ("m", HDR_CONTACT_T, false);
   ("max-forwards", HDR_MAXFORWARDS_T, false); ("route", HDR_ROUTE_T, false);
   ("record-route", HDR_RECORDROUTE_T, false); ("path", HDR_PATH_T, false);
   ("content-type", HDR_CONTENTTYPE_T, false); ("c", HDR_CONTENTTYPE_T, false);
   ("content-length", HDR_CONTENTLENGTH_T, false); ("l", HDR_CONTENTLENGTH_T, false);
   ("authorization", HDR_AUTHORIZATION_T, false); ("expires", HDR_EXPIRES_T, true);
   ("proxy-authorization", HDR_PROXYAUTH_T, true); ("supported", HDR_SUPPORTED_T, false);
   ("k", HDR_SUPPORTED_T, false); ("proxy-require", HDR_PROXYREQUIRE_T, false);
   ("unsupported", HDR_UNSUPPORTED_T, true); ("allow", HDR_ALLOW_T, false);
   ("event", HDR_EVENT_T, false); ("o", HDR_EVENT_T, false); ("accept", HDR_ACCEPT_T, false);
   ("accept-language", HDR_ACCEPTLANGUAGE_T, true); ("organization", HDR_ORGANIZATION_T, false);
   ("priority", HDR_PRIORITY_T, false); ("subject", HDR_SUBJECT_T, true);
   ("user-agent", HDR_USERAGENT_T, false); ("content-disposition", HDR_CONTENTDISPOSITION_T, true);
   ("diversion", HDR_DIVERSION_T, false); ("remote-party-id", HDR_RPID_T, true);
   ("refer-to", HDR_REFER_TO_T, false); ("session-expires", HDR_SESSION_EXPIRES_T, true);
   ("x", HDR_SESSION_EXPIRES_T, false); ("min-se", HDR_MIN_SE_T, false);
   ("p-preferred-identity", HDR_PPI_T, false); ("p-asserted-identity", HDR_PAI_T, true);
   ("privacy", HDR_PRIVACY_T, true); ("retry-after", HDR_RETRY_AFTER_T, true);
   ("call-info", HDR_CALL_INFO_T, false); ("www-authenticate", HDR_WWW_AUTHENTICATE_T, false);
   ("proxy-authenticate", HDR_PROXY_AUTHENTICATE_T, false); ("min-expires", HDR_MIN_EXPIRES_T, true);
   ("feature-caps", HDR_FEATURE_CAPS_T, false); ("replaces", HDR_REPLACES_T, false);
   ("to-path", HDR_TO_PATH_T, true); ("from-path", HDR_FROM_PATH_T, false);
   ("message-id", HDR_MESSAGE_ID_T, false); ("byte-range", HDR_BYTE_RANGE_T, false);
   ("failure-report", HDR_FAILURE_REPORT_T, false); ("success-report", HDR_SUCCESS_REPORT_T, false);
   ("status", HDR_STATUS_T, false); ("use-path", HDR_USE_PATH_T, false);
   ("security-client", HDR_SECURITY_CLIENT_T, true); ("security-server", HDR_SECURITY_SERVER_T, true);
   ("security-verify", HDR_SECURITY_VERIFY_T, true)]%string.

(** The name of the last type of [hf.h], and what the constants of [keys.h] spell for it. *)
Definition acceptdisposition_name : bytes := bs "accept-disposition".
Definition acceptdisposition_key : bytes := bs "acceptadisposition".

(** The names that the tests recognise. *)
Definition header_table : list (bytes * hdr_types_t * bool) :=
  known_names ++ [(acceptdisposition_key, HDR_ACCEPTDISPOSITION_T, false)].

(** The type that [hf.h] gives to a name in lower case, and the names whose end is compared
    with the character after it. *)
Definition documented_type (n : bytes) : hdr_types_t :=
  match list_find (λ e, e.1.1 = n) (known_names ++ [(acceptdisposition_name, HDR_ACCEPTDISPOSITION_T, false)]) with
  | Some (_, (_, ty, _)) => ty
  | None => HDR_OTHER_T
  end.
Definition end_compared (n : bytes) : bool :=
  bool_decide (n ∈ omap (λ e : bytes * hdr_types_t * bool, if e.2 then Some e.1.1 else None) known_names).

(** The type of a name followed by the spaces and tabs [ws]. *)
Definition hdr_type_of (name ws : bytes) : hdr_types_t :=
  match list_find (λ e, e.1.1 = tolower <$> name) header_table with
  | Some (_, (_, ty, strict)) =>
      if strict && bool_decide (head ws = Some 9) then HDR_OTHER_T else ty
  | None => HDR_OTHER_T
  end.

(** Characters a name can have, and characters of the names of the table. *)
Definition plain (c : byte) : bool := (33 <=? c) && (c <? 256) && negb (c =? 58).
Definition lc (c : byte) : bool := ((97 <=? c) && (c <=? 122)) || (c =? 45).

(** ** Words and their bytes *)

(** The bytes of a word. *)
Definition bytes4 (key : Z) : bytes :=
  [key mod 256; key / 256 mod 256; key / 65536 mod 256; key / 16777216].

Lemma lor_split a b m n : 0 <= a < 256 → 0 <= m < 256 →
  Z.lor (a + 256 * b) (m + 256 * n) = Z.lor a m + 256 * Z.lor b n.
Proof.
  intros Ha Hm.
  assert (Hmod : Z.lor (a + 256 * b) (m + 256 * n) mod 256 = Z.lor a m).
  { change 256 with (2 ^ 8). rewrite <- !Z.land_ones, Z.land_lor_distr_l, !Z.land_ones by lia.
    change (2 ^ 8) with 256. rewrite !(Z.mul_comm 256), !Z_mod_plus_full, !Z.mod_small by lia. done. }
  assert (Hdiv : Z.lor (a + 256 * b) (m + 256 * n) / 256 = Z.lor b n).
  { change 256 with (2 ^ 8). rewrite <- !Z.shiftr_div_pow2, Z.shiftr_lor, !Z.shiftr_div_pow2 by lia.
    change (2 ^ 8) with 256. rewrite !(Z.mul_comm 256), !Z_div_plus_full, !Z.div_small by lia. done. }
  rewrite (Z.div_mod (Z.lor (a + 256 * b) (m + 256 * n)) 256) by lia. lia.
Qed.

Lemma lower_byte_range b : 0 <= b < 256 → 0 <= LOWER_BYTE b < 256.
Proof.
  intros Hb. unfold LOWER_BYTE. split; [apply Z.lor_nonneg; lia|].
  assert (H : Z.lor b 32 mod 2 ^ 8 = Z.lor b 32).
  { rewrite <- Z.land_ones, Z.land_lor_distr_l, !Z.land_ones by lia.
    rewrite (Z.mod_small b) by (change (2 ^ 8) with 256; lia). done. }
  rewrite <- H. apply Z.mod_pos_bound. lia.
Qed.

Lemma low_byte_mod a x : 0 <= a < 256 → (a + 256 * x) mod 256 = a.
Proof. intros Ha. by rewrite Z.mul_comm, Z_mod_plus_full, Z.mod_small by lia. Qed.

Lemma low_byte_div a x : 0 <= a < 256 → (a + 256 * x) / 256 = x.
Proof. intros Ha. by rewrite Z.mul_comm, Z_div_plus_full, Z.div_small by lia. Qed.

Section bytes.
Context (mem : Z → byte) (Hmem : ∀ a, 0 <= mem a < 256).

Lemma lower_read p : LOWER_DWORD (READ mem p) =
  LOWER_BYTE (mem p) + 256 * (LOWER_BYTE (mem (p + 1)) +
    256 * (LOWER_BYTE (mem (p + 2)) + 256 * LOWER_BYTE (mem (p + 3)))).
Proof.
  unfold LOWER_DWORD, READ, LOWER_BYTE. rewrite !Z.shiftl_mul_pow2 by lia.
  change (2 ^ 8) with 256. change (2 ^ 16) with 65536. change (2 ^ 24) with 16777216.
  replace (mem p + mem (p + 1) * 256 + mem (p + 2) * 65536 + mem (p + 3) * 16777216) with
    (mem p + 256 * (mem (p + 1) + 256 * (mem (p + 2) + 256 * mem (p + 3)))) by lia.
  change 538976288 with (32 + 256 * (32 + 256 * (32 + 256 * 32))).
  rewrite !lor_split by (apply Hmem || lia). done.
Qed.

Lemma lower_read_key p key :
  LOWER_DWORD (READ mem p) = key ↔
  LOWER_BYTE <$> [mem p; mem (p + 1); mem (p + 2); mem (p + 3)] = bytes4 key.
Proof.
  rewrite lower_read. unfold bytes4. cbn [fmap list_fmap].
  pose proof (lower_byte_range _ (Hmem p)). pose proof (lower_byte_range _ (Hmem (p + 1))).
  pose proof (lower_byte_range _ (Hmem (p + 2))). pose proof (lower_byte_range _ (Hmem (p + 3))).
  generalize dependent (LOWER_BYTE (mem p)). generalize dependent (LOWER_BYTE (mem (p + 1))).
  generalize dependent (LOWER_BYTE (mem (p + 2))). generalize dependent (LOWER_BYTE (mem (p + 3))).
  intros d Hd c Hc b Hb a Ha. split.
  - intros <-. replace 65536 with (256 * 256) by lia. replace 16777216 with (256 * 256 * 256) by lia.
    rewrite <- !Z.div_div by lia. by rewrite !low_byte_div, !low_byte_mod by done.
  - intros [= -> -> -> ->]. pose proof (Z.div_mod key 256 ltac:(lia)).
    pose proof (Z.div_mod (key / 256) 256 ltac:(lia)). pose proof (Z.div_mod (key / 256 / 256) 256 ltac:(lia)).
    replace 65536 with (256 * 256) by lia. replace 16777216 with (256 * 256 * 256) by lia.
    rewrite <- !Z.div_div by lia. lia.
Qed.
End bytes.

(** ** Paths *)

Inductive hn_test :=
  | T4 (o : Z) (ks : bytes)
  | T1 (o c : Z)
  | TRaw (o c : Z).

(** The paths of a piece of code that starts at offset [o]: the tests with their answers,
    the last one first, and the jump. *)
Fixpoint paths (a : hn_code) (o : Z) : list (list (hn_test * bool) * hn_jump) :=
  let branch t yes no :=
    ((λ x, ((t, true) :: x.1, x.2)) <$> paths yes o) ++ ((λ x, ((t, false) :: x.1, x.2)) <$> paths no o) in
  match a with
  | Return ty len n => [([], JReturn ty len (o + n))]
  | DcEnd ty len n => [([], JDcEnd ty len (o + n))]
  | DcCont ty len n => [([], JDcCont ty len (o + n))]
  | Other => [([], JOther o)]
  | Adv n k => paths k (o + n)
  | If4 key yes no => branch (T4 o (bytes4 key)) yes no
  | If1 off c yes no => branch (T1 (o + off) c) yes no
  | IfRaw off c yes no => branch (TRaw (o + off) c) yes no
  end.

Definition move (b : Z) (j : hn_jump) : hn_jump :=
  match j with
  | JReturn ty len p => JReturn ty len (b + p)
  | JDcEnd ty len p => JDcEnd ty len (b + p)
  | JDcCont ty len p => JDcCont ty len (b + p)
  | JOther p => JOther (b + p)
  end.

Section paths.
Context (mem : Z → byte) (Hmem : ∀ a, 0 <= mem a < 256) (begin : Z).

Definition word_at (p : Z) : bytes := [mem p; mem (p + 1); mem (p + 2); mem (p + 3)].

Definition passes (t : hn_test) : bool :=
  match t with
  | T4 o ks => bool_decide (LOWER_BYTE <$> word_at (begin + o) = ks)
  | T1 o c => LOWER_BYTE (mem (begin + o)) =? c
  | TRaw o c => mem (begin + o) =? c
  end.

Definition answers (x : hn_test * bool) : Prop := passes x.1 = x.2.

Lemma run_path a : ∀ o, ∃ cs j, (cs, j) ∈ paths a o ∧ Forall answers cs ∧ run mem a (begin + o) = move begin j.
Proof.
  assert (Hif : ∀ t yes no o,
    (∃ cs j, (cs, j) ∈ paths yes o ∧ Forall answers cs ∧ run mem yes (begin + o) = move begin j) →
    (∃ cs j, (cs, j) ∈ paths no o ∧ Forall answers cs ∧ run mem no (begin + o) = move begin j) →
    ∃ cs j, (cs, j) ∈ ((λ x, ((t, true) :: x.1, x.2)) <$> paths yes o) ++ ((λ x, ((t, false) :: x.1, x.2)) <$> paths no o)
      ∧ Forall answers cs ∧ (if passes t then run mem yes (begin + o) else run mem no (begin + o)) = move begin j).
  { intros t yes no o (cs1 & j1 & Hin1 & Hall1 & Hr1) (cs2 & j2 & Hin2 & Hall2 & Hr2).
    destruct (passes t) eqn:Ht.
    - exists ((t, true) :: cs1), j1. split; [|by split; [constructor|]].
      apply elem_of_app. left. apply list_elem_of_fmap. by exists (cs1, j1).
    - exists ((t, false) :: cs2), j2. split; [|by split; [constructor|]].
      apply elem_of_app. right. apply list_elem_of_fmap. by exists (cs2, j2). }
  induction a; intros o; cbn [run paths];
    try (eexists [], _; split; [by apply list_elem_of_singleton|split; [constructor|cbn [move]; f_equal; lia]]).
  - rewrite <- Z.add_assoc. apply IHa.
  - replace (LOWER_DWORD (READ mem (begin + o)) =? key) with (passes (T4 o (bytes4 key))); [by apply Hif|].
    cbn [passes]. apply eq_true_iff_eq. rewrite bool_decide_eq_true, Z.eqb_eq. symmetry. by apply lower_read_key.
  - rewrite <- Z.add_assoc. by apply (Hif (T1 (o + off) c)).
  - rewrite <- Z.add_assoc. by apply (Hif (TRaw (o + off) c)).
Qed.
End paths.

(** ** What a passed test says of the bytes *)

(** The lower-case byte at offset [i], and that the byte at [i] cannot be part of a name,
    as far as the passed tests tell. *)
Fixpoint known (cs : list (hn_test * bool)) (i : Z) : option Z :=
  match cs with
  | [] => None
  | (T4 o ks, true) :: cs => if (o <=? i) && (i <? o + 4) then ks !! Z.to_nat (i - o) else known cs i
  | (T1 o c, true) :: cs => if i =? o then Some c else known cs i
  | _ :: cs => known cs i
  end.

Definition closes (i : Z) (x : hn_test * bool) : bool :=
  match x with
  | (T4 o ks, true) =>
      (o <=? i) && (i <? o + 4) &&
      match ks !! Z.to_nat (i - o) with Some c => (c =? 32) || (c =? 58) | None => false end
  | (T1 o c, true) => (i =? o) && ((c =? 32) || (c =? 58) || (c =? 9))
  | (TRaw o c, true) => (i =? o) && ((c =? 32) || (c =? 58) || (c =? 9))
  | _ => false
  end.

(** Facts on a byte, by inspection of the 256 values. *)
Lemma byte_inspect (P : Z → Prop) `{∀ c, Decision (P c)} :
  forallb (λ c, bool_decide (P c)) (Z.of_nat <$> seq 0 256) = true → ∀ c, 0 <= c < 256 → P c.
Proof.
  intros HP c Hc. rewrite forallb_forall in HP. apply (bool_decide_eq_true_1 _), HP, list_elem_of_In, list_elem_of_fmap.
  exists (Z.to_nat c). split; [lia|]. apply elem_of_seq. lia.
Qed.

Lemma lower_not_plain c : 0 <= c < 256 → LOWER_BYTE c = 32 ∨ LOWER_BYTE c = 58 ∨ LOWER_BYTE c = 9 → plain c = false.
Proof. revert c. apply (byte_inspect (λ c, LOWER_BYTE c = 32 ∨ LOWER_BYTE c = 58 ∨ LOWER_BYTE c = 9 → plain c = false)). by vm_compute. Qed.

Lemma lower_plain c : 0 <= c < 256 → plain c = true → lc (LOWER_BYTE c) = true → tolower c = LOWER_BYTE c.
Proof. revert c. apply (byte_inspect (λ c, plain c = true → lc (LOWER_BYTE c) = true → tolower c = LOWER_BYTE c)). by vm_compute. Qed.

Lemma tolower_lc c : 0 <= c < 256 → plain c = true → lc (tolower c) = true → LOWER_BYTE c = tolower c.
Proof. revert c. apply (byte_inspect (λ c, plain c = true → lc (tolower c) = true → LOWER_BYTE c = tolower c)). by vm_compute. Qed.

Lemma lc_not_sep c : 0 <= c < 256 → lc (LOWER_BYTE c) = true → is_ws c = false ∧ c ≠ 58.
Proof. revert c. apply (byte_inspect (λ c, lc (LOWER_BYTE c) = true → is_ws c = false ∧ c ≠ 58)). by vm_compute. Qed.

Lemma dash_raw c : 0 <= c < 256 → plain c = true → tolower c = 45 → c = 45.
Proof. revert c. apply (byte_inspect (λ c, plain c = true → tolower c = 45 → c = 45)). by vm_compute. Qed.

Lemma plain_sep c : plain c = true → is_ws c = false ∧ c ≠ 58.
Proof. unfold plain, is_ws. lia. Qed.

Section knowledge.
Context (mem : Z → byte) (Hmem : ∀ a, 0 <= mem a < 256) (begin : Z).

Lemma T4_bytes o ks i c : passes mem begin (T4 o ks) = true → o <= i < o + 4 →
  ks !! Z.to_nat (i - o) = Some c → LOWER_BYTE (mem (begin + i)) = c.
Proof.
  cbn [passes]. intros <-%bool_decide_eq_true Hi Hc.
  assert (H : i = o ∨ i = o + 1 ∨ i = o + 2 ∨ i = o + 3) by lia.
  destruct H as [-> | [-> | [-> | ->]]]; [rewrite Z.sub_diag in Hc|rewrite Z.add_simpl_l in Hc..];
    cbn in Hc; injection Hc as <-; by rewrite ?Z.add_assoc.
Qed.

Lemma known_sound cs i c : Forall (answers mem begin) cs → known cs i = Some c → LOWER_BYTE (mem (begin + i)) = c.
Proof.
  induction 1 as [|[t b] cs Ht _ IH]; [done|]. cbn [known]. unfold answers in Ht. cbn [fst snd] in Ht.
  destruct t as [o ks|o d|o d], b; try done.
  - destruct (Z.leb_spec o i); [|done]. destruct (Z.ltb_spec i (o + 4)); [|done]. cbn [andb]. by apply T4_bytes.
  - destruct (Z.eqb_spec i o) as [->|]; [|done]. intros [= ->]. by apply Z.eqb_eq.
Qed.

Lemma closes_sound x i : answers mem begin x → closes i x = true → plain (mem (begin + i)) = false.
Proof.
  destruct x as [t b]. unfold answers. cbn [fst snd]. destruct t as [o ks|o d|o d], b; cbn [closes]; try done; intros Ht.
  - intros [[H1 H2]%andb_prop H3]%andb_prop. destruct (ks !! _) as [c|] eqn:Hc; [|done].
    apply lower_not_plain; [apply Hmem|]. rewrite (T4_bytes o ks i c Ht ltac:(lia) Hc). lia.
  - intros [Hi%Z.eqb_eq Hd]%andb_prop. subst. apply Z.eqb_eq in Ht. apply lower_not_plain; [apply Hmem|]. lia.
  - intros [Hi%Z.eqb_eq Hd]%andb_prop. subst. apply Z.eqb_eq in Ht. rewrite Ht. unfold plain. lia.
Qed.
End knowledge.

(** ** Checks of the paths *)

(** The first [n] bytes in lower case. *)
Definition word (cs : list (hn_test * bool)) (n : Z) : option bytes :=
  mapM (known cs) (Z.of_nat <$> seq 0 (Z.to_nat n)).

Definition in_table (n : bytes) (ty : hdr_types_t) : bool :=
  existsb (λ e, bool_decide (e.1.1 = n) && bool_decide (e.1.2 = ty)) header_table.

(** A path that finds a type has read a name of the table, and what follows it unless the
    jump is to [dc_cont] right after the name; the others jump to [other] before the end
    of the letters they have read. *)
Definition check_path (x : list (hn_test * bool) * hn_jump) : bool :=
  let '(cs, j) := x in
  let is_name ty len :=
    match word cs len with Some n => (0 <? len) && forallb lc n && in_table n ty | None => false end in
  match j with
  | JOther o => (0 <=? o) && match word cs o with Some s => forallb lc s | None => false end
  | JReturn ty len _ | JDcEnd ty len _ => is_name ty len && existsb (closes len) cs
  | JDcCont ty len o => is_name ty len && ((o =? len) || existsb (closes len) cs)
  end.

Definition test_off (t : hn_test) : Z := match t with T4 o _ | T1 o _ | TRaw o _ => o end.

Lemma paths_checked :
  forallb (λ x, check_path x && forallb (λ y, 0 <=? test_off y.1) x.1) (paths first_switch 0) = true.
Proof. by vm_compute. Qed.

(** A known beginning and a word: equal as far as known. *)
Fixpoint agree (l ks : bytes) : bool :=
  match l, ks with
  | v :: l, k :: ks => if v =? k then agree l ks else false
  | _, _ => true
  end.

(** What is known of a text that starts with the name [n] and the separator [x]. *)
Definition possible (n : bytes) (x : Z) (y : hn_test * bool) : bool :=
  let low := n ++ [LOWER_BYTE x] in
  match y with
  | (T4 o ks, b) =>
      let l := drop (Z.to_nat o) low in
      if b then agree l ks else negb (agree l ks && (length ks =? 4)%nat && (4 <=? length l)%nat)
  | (T1 o c, b) => match low !! Z.to_nat o with Some v => Bool.eqb (v =? c) b | None => true end
  | (TRaw o c, b) =>
      if o =? Z.of_nat (length n) then Bool.eqb (x =? c) b
      else match low !! Z.to_nat o with
           | Some v => if b then v =? LOWER_BYTE c else negb ((v =? 45) && (c =? 45))
           | None => true
           end
  end.

(** How the search must end for a name of the table. *)
Definition good (n : bytes) (ty : hdr_types_t) (strict : bool) (x : Z) (y : list (hn_test * bool) * hn_jump) : bool :=
  let '(cs, j) := y in
  let len := Z.of_nat (length n) in
  if strict && (x =? 9) then match j with JOther o => (0 <=? o) && (o <=? len) | _ => false end
  else
    match j with
    | JReturn t l p =>
        bool_decide (t = ty) && (l =? len) && (x =? 58) &&
        ((p =? len + 1) || ((p =? len + 2) && bool_decide (known cs (len + 1) = Some 32)))
    | JDcEnd t l p => bool_decide (t = ty) && (l =? len) && is_ws x && (p =? len + 1)
    | JDcCont t l p => bool_decide (t = ty) && (l =? len) && ((p =? len) || (is_ws x && (p =? len + 1)))
    | JOther _ => false
    end.

(** [forallb] that stops at the first failure when it is evaluated. *)
Fixpoint allb {A} (f : A → bool) (l : list A) : bool :=
  match l with
  | [] => true
  | x :: l => if f x then allb f l else false
  end.

Lemma allb_true {A} (f : A → bool) l : allb f l = true ↔ Forall (λ x, f x = true) l.
Proof.
  induction l as [|x l IH]; cbn [allb]; [done|]. rewrite Forall_cons.
  destruct (f x); [|by split; [|intros [? _]]]. rewrite IH. by split; [|intros [_ ?]].
Qed.

Lemma table_checked :
  let ps := paths first_switch 0 in
  allb (λ e, if allb lc e.1.1 then allb (λ x, allb (λ y,
    if allb (possible e.1.1 x) y.1 then good e.1.1 e.1.2 e.2 x y else true) ps) [58; 32; 9] else false) header_table = true.
Proof. by vm_compute. Qed.

(** ** The theorem *)

Definition text_at (mem : Z → byte) (p : Z) (s : bytes) : Prop :=
  ∀ i c, s !! i = Some c → mem (p + Z.of_nat i) = c.

Lemma text_at_cons mem p c s : text_at mem p (c :: s) ↔ mem p = c ∧ text_at mem (p + 1) s.
Proof.
  split.
  - intros H. split; [specialize (H 0%nat c eq_refl); by rewrite Z.add_0_r in H|].
    intros i d Hd. specialize (H (S i) d Hd). rewrite <- H. f_equal. lia.
  - intros [H1 H2] [|i] d; cbn [lookup list_lookup]; [intros [= <-]; by rewrite Z.add_0_r|].
    intros Hd. rewrite <- (H2 i d Hd). f_equal. lia.
Qed.

Lemma text_at_app mem p s t : text_at mem p (s ++ t) ↔ text_at mem p s ∧ text_at mem (p + Z.of_nat (length s)) t.
Proof.
  revert p. induction s as [|c s IH]; intros p; [simpl; rewrite Z.add_0_r; split; [|naive_solver]; by split|].
  rewrite <- app_comm_cons, !text_at_cons, IH. simpl length.
  replace (p + 1 + Z.of_nat (length s)) with (p + Z.of_nat (S (length s))) by lia. naive_solver.
Qed.

Lemma agree_lookup l : ∀ ks, (∀ i v k, l !! i = Some v → ks !! i = Some k → v = k) → agree l ks = true.
Proof.
  induction l as [|v l IH]; intros [|k ks] H; try done. cbn [agree].
  rewrite (H 0%nat v k eq_refl eq_refl), Z.eqb_refl. apply IH. intros i. apply (H (S i)).
Qed.

Lemma agree_take l : ∀ ks, agree l ks = true → (length ks <= length l)%nat → take (length ks) l = ks.
Proof.
  induction l as [|v l IH]; intros [|k ks] Ha Hl; simpl in *; try done; [lia|].
  destruct (Z.eqb_spec v k) as [->|]; [|done]. f_equal. apply IH; [done|lia].
Qed.

Section correct.
Context (mem : Z → byte) (Hmem : ∀ a, 0 <= mem a < 256) (begin end_ : Z).

Lemma skip_ws_sep ws : ∀ p, forallb is_ws ws = true → text_at mem p (ws ++ [58]) →
  p + Z.of_nat (length ws) < end_ → skip_ws mem p end_ = p + Z.of_nat (length ws).
Proof.
  unfold skip_ws. induction ws as [|c ws IH]; intros p; cbn [app forallb]; rewrite text_at_cons.
  - intros _ [Hc _] He. simpl length in *. destruct (Z.to_nat (end_ - p)) eqn:E; [lia|].
    cbn [skip_ws_loop]. rewrite Hc. change (is_ws 58) with false. cbv iota. lia.
  - intros [Hw Hws]%andb_prop [Hc Ht] He. simpl length in *. destruct (Z.to_nat (end_ - p)) eqn:E; [lia|].
    cbn [skip_ws_loop]. rewrite Hc, Hw. replace n with (Z.to_nat (end_ - (p + 1))) by lia.
    rewrite (IH (p + 1) Hws Ht) by lia. lia.
Qed.

Lemma to_colon_sep ty len ws p : forallb is_ws ws = true → text_at mem p (ws ++ [58]) →
  p + Z.of_nat (length ws) < end_ → to_colon mem ty len p end_ = HnOk ty len (p + Z.of_nat (length ws) + 1).
Proof.
  intros Hws Ht He. unfold to_colon. rewrite (skip_ws_sep ws) by done.
  apply text_at_app in Ht as [_ Ht]. apply text_at_cons in Ht as [-> _].
  by destruct (Z.leb_spec end_ (p + Z.of_nat (length ws))); [lia|].
Qed.

Lemma dc_cont_sep ty len ws p : forallb is_ws ws = true → text_at mem p (ws ++ [58]) →
  p + Z.of_nat (length ws) < end_ → dc_cont mem ty len begin p end_ = HnOk ty len (p + Z.of_nat (length ws) + 1).
Proof.
  intros Hws Ht He. unfold dc_cont. destruct (Z.leb_spec end_ p); [lia|].
  destruct ws as [|c ws]; cbn [app forallb] in *; apply text_at_cons in Ht as [-> Ht].
  - cbv iota. simpl length. rewrite Z.add_0_r. done.
  - apply andb_prop in Hws as [Hc Hws]. rewrite Hc. simpl length in *.
    destruct (Z.eqb_spec c (chr ":")) as [->|_]; [done|]. rewrite (to_colon_sep _ _ ws) by (done || lia). f_equal. lia.
Qed.

Lemma other_name nm ws : ∀ p, forallb plain nm = true → forallb is_ws ws = true →
  text_at mem p (nm ++ ws ++ [58]) → p + Z.of_nat (length nm + length ws) < end_ →
  other mem begin p end_ =
    HnOk HDR_OTHER_T (p + Z.of_nat (length nm) - begin) (p + Z.of_nat (length nm + length ws) + 1).
Proof.
  unfold other. induction nm as [|c nm IH]; intros p Hnm Hws Ht He; cbn [app forallb] in *; simpl length in *.
  - destruct (Z.to_nat (end_ - p)) eqn:E; [lia|]. cbn [other_loop]. simpl Nat.add in *. rewrite Z.add_0_r.
    destruct ws as [|c ws]; cbn [app forallb] in *; simpl length in *; apply text_at_cons in Ht as [Hc Ht]; rewrite Hc.
    + by rewrite Z.add_0_r.
    + apply andb_prop in Hws as [Hw Hws]. rewrite Hw. destruct (Z.eqb_spec c (chr ":")) as [->|_]; [done|].
      rewrite (to_colon_sep _ _ ws) by (done || lia). f_equal. lia.
  - apply andb_prop in Hnm as [Hc Hnm]. apply text_at_cons in Ht as [Hm Ht].
    destruct (Z.to_nat (end_ - p)) eqn:E; [lia|]. cbn [other_loop]. rewrite Hm.
    destruct (plain_sep c Hc) as [-> Hne]. destruct (Z.eqb_spec c (chr ":")) as [->|_]; [done|].
    replace n with (Z.to_nat (end_ - (p + 1))) by lia. rewrite (IH (p + 1) Hnm Hws Ht) by lia. f_equal; lia.
Qed.
End correct.

Section named.
Context (mem : Z → byte) (Hmem : ∀ a, 0 <= mem a < 256) (begin end_ : Z) (name ws : bytes).
Context (Hplain : forallb plain name = true) (Hws : forallb is_ws ws = true).
Context (Ht : text_at mem begin (name ++ ws ++ [58])).
Context (He : begin + Z.of_nat (length name + length ws) < end_).

Abbreviation colon := (begin + Z.of_nat (length name + length ws)).

(** The first character after the name. *)
Definition separator : Z := match ws with [] => 58 | c :: _ => c end.

Lemma separator_cases : separator = 58 ∧ ws = [] ∨ separator = 32 ∨ separator = 9.
Proof.
  clear - Hws. unfold separator. destruct ws as [|c t]; [by left|right].
  cbn [forallb] in Hws. unfold is_ws in Hws. lia.
Qed.

Lemma name_byte i c : name !! i = Some c → mem (begin + Z.of_nat i) = c ∧ plain c = true.
Proof.
  intros Hi. split.
  - apply text_at_app in Ht as [Ht' _]. by apply Ht'.
  - rewrite forallb_forall in Hplain. apply Hplain, list_elem_of_In. by eapply list_elem_of_lookup_2.
Qed.

Lemma separator_byte : mem (begin + Z.of_nat (length name)) = separator.
Proof.
  apply text_at_app in Ht as [_ Ht']. unfold separator. destruct ws as [|c t]; by apply text_at_cons in Ht' as [? _].
Qed.

(** Bytes that cannot be in a name bound its length from above, letters and dashes from
    below. *)
Lemma name_short i : 0 <= i → plain (mem (begin + i)) = false → Z.of_nat (length name) <= i.
Proof.
  intros Hi Hp. destruct (decide (Z.of_nat (length name) <= i)) as [|Hlt]; [done|]. exfalso.
  destruct (lookup_lt_is_Some_2 name (Z.to_nat i)) as [c Hc]; [lia|].
  apply name_byte in Hc as [Hm Hc]. rewrite Z2Nat.id in Hm by lia. congruence.
Qed.

Lemma name_long n : (∀ i, 0 <= i < n → lc (LOWER_BYTE (mem (begin + i))) = true) → n <= Z.of_nat (length name).
Proof.
  intros H. destruct (decide (n <= Z.of_nat (length name))) as [|Hlt]; [done|]. exfalso.
  specialize (H (Z.of_nat (length name)) ltac:(lia)). rewrite separator_byte in H.
  destruct separator_cases as [[E _]|[E|E]]; rewrite E in H; done.
Qed.

Lemma word_lc cs n s : Forall (answers mem begin) cs → word cs n = Some s →
  ∀ i, 0 <= i < n → ∃ c, s !! Z.to_nat i = Some c ∧ LOWER_BYTE (mem (begin + i)) = c.
Proof.
  intros Hcs Hw i Hi. unfold word in Hw. apply mapM_Some_1 in Hw.
  pose proof (Forall2_lookup_l _ _ _ (Z.to_nat i) i Hw) as HH. destruct HH as (c & Hc & Hk).
  - rewrite list_lookup_fmap, lookup_seq_lt by lia. simpl. f_equal. lia.
  - exists c. split; [done|]. by eapply known_sound.
Qed.

(** A word of letters and dashes that covers the name is the name in lower case. *)
Lemma word_name cs s : Forall (answers mem begin) cs → word cs (Z.of_nat (length name)) = Some s →
  forallb lc s = true → s = tolower <$> name.
Proof.
  intros Hcs Hw Hlc. assert (Hlen : length s = length name).
  { unfold word in Hw. apply length_mapM in Hw. rewrite length_fmap, length_seq, Nat2Z.id in Hw. done. }
  apply list_eq_same_length with (length s); [by rewrite length_fmap|done|].
  intros i x y Hi Hx Hy. rewrite list_lookup_fmap in Hy. destruct (name !! i) as [c|] eqn:Hc; [|done]. injection Hy as <-.
  destruct (word_lc cs _ s Hcs Hw (Z.of_nat i)) as (d & Hd & Hlow); [lia|]. rewrite Nat2Z.id in Hd.
  assert (x = d) as -> by congruence. apply name_byte in Hc as [Hm Hp]. rewrite Hm in Hlow.
  rewrite <- Hlow. symmetry. apply lower_plain; [rewrite <- Hm; apply Hmem|done|].
  rewrite Hlow. rewrite forallb_forall in Hlc. apply Hlc, list_elem_of_In. by eapply list_elem_of_lookup_2.
Qed.

Lemma other_from o : 0 <= o <= Z.of_nat (length name) →
  other mem begin (begin + o) end_ = HnOk HDR_OTHER_T (Z.of_nat (length name)) (colon + 1).
Proof.
  intros Ho.
  assert (Hd : text_at mem (begin + o) (drop (Z.to_nat o) name ++ ws ++ [58])).
  { rewrite <- (take_drop (Z.to_nat o) name), <- app_assoc in Ht. apply text_at_app in Ht as [_ Ht'].
    rewrite length_take in Ht'. by replace (Z.of_nat (Z.to_nat o `min` length name)) with o in Ht' by lia. }
  rewrite (other_name mem begin end_ (drop (Z.to_nat o) name) ws); try done.
  - rewrite length_drop. f_equal; lia.
  - rewrite <- (take_drop (Z.to_nat o) name), forallb_app in Hplain. by apply andb_prop in Hplain as [_ ?].
  - rewrite length_drop. lia.
Qed.

(** The paths that a text with a name of the table can take. *)
Lemma low_byte n i v : tolower <$> name = n → forallb lc n = true →
  (n ++ [LOWER_BYTE separator]) !! i = Some v → LOWER_BYTE (mem (begin + Z.of_nat i)) = v.
Proof.
  intros <- Hlc Hv. apply lookup_app_Some in Hv as [Hv|[Hge Hv]].
  - assert (lc v = true).
    { rewrite forallb_forall in Hlc. apply Hlc, list_elem_of_In. by eapply list_elem_of_lookup_2. }
    rewrite list_lookup_fmap in Hv. destruct (name !! i) as [c|] eqn:Hc; [|done]. injection Hv as <-.
    apply name_byte in Hc as [Hm Hp]. rewrite Hm. apply tolower_lc; [rewrite <- Hm; apply Hmem|done|done].
  - rewrite length_fmap in Hge, Hv. apply list_lookup_singleton_Some in Hv as [Hi <-].
    replace i with (length name) by lia. by rewrite separator_byte.
Qed.

Lemma possible_sound n y : tolower <$> name = n → forallb lc n = true → 0 <= test_off y.1 →
  answers mem begin y → possible n separator y = true.
Proof.
  intros Hn Hlc Ho Hy. destruct y as [t b]. unfold answers in Hy. cbn [fst snd] in *.
  pose proof (λ i v, low_byte n i v Hn Hlc) as Hlow.
  assert (Hlow' : ∀ o v, 0 <= o → (n ++ [LOWER_BYTE separator]) !! Z.to_nat o = Some v → LOWER_BYTE (mem (begin + o)) = v).
  { intros o v Ho' Hv. apply Hlow in Hv. by rewrite Z2Nat.id in Hv. }
  destruct t as [o ks|o c|o c]; cbn [possible test_off passes] in *.
  - assert (Hw : ∀ i v k, drop (Z.to_nat o) (n ++ [LOWER_BYTE separator]) !! i = Some v →
              (LOWER_BYTE <$> word_at mem (begin + o)) !! i = Some k → v = k).
    { intros i v k Hv Hk. rewrite lookup_drop in Hv. apply Hlow in Hv. rewrite <- Hv.
      replace (begin + Z.of_nat (Z.to_nat o + i)) with (begin + o + Z.of_nat i) by lia.
      do 4 (destruct i as [|i]; [cbn in Hk; injection Hk as <-; by rewrite ?Z.add_0_r|]). done. }
    destruct b.
    + apply bool_decide_eq_true in Hy. apply agree_lookup. by rewrite <- Hy.
    + apply bool_decide_eq_false in Hy. apply negb_true_iff, not_true_iff_false. intros [[Ha Hl]%andb_prop H4]%andb_prop.
      apply Hy. apply Nat.eqb_eq in Hl. apply Nat.leb_le in H4. apply agree_take in Ha; [|lia]. rewrite Hl in Ha.
      apply list_eq_same_length with 4%nat; [done|done|]. intros i x y Hi Hx Hy'. symmetry. eapply Hw; [|exact Hx].
      rewrite <- Ha in Hy'. by rewrite lookup_take_lt in Hy' by lia.
  - destruct (_ !! Z.to_nat o) as [v|] eqn:Hv; [|done]. apply Hlow' in Hv; [|done]. subst v. rewrite Hy.
    apply eqb_reflx.
  - destruct (Z.eqb_spec o (Z.of_nat (length n))) as [->|Hne].
    { rewrite <- Hn, length_fmap, separator_byte in Hy. rewrite Hy. apply eqb_reflx. }
    destruct (_ !! Z.to_nat o) as [v|] eqn:Hv; [|done].
    assert (Hin := Hv). apply Hlow' in Hv; [|done]. destruct b.
    + apply Z.eqb_eq in Hy. rewrite Hy in Hv. by apply Z.eqb_eq.
    + apply negb_true_iff, not_true_iff_false. intros [->%Z.eqb_eq ->%Z.eqb_eq]%andb_prop.
      apply lookup_app_Some in Hin as [Hin|[Hge Hin]].
      2:{ apply list_lookup_singleton_Some in Hin as [? _]. lia. }
      rewrite <- Hn, list_lookup_fmap in Hin. destruct (name !! Z.to_nat o) as [c|] eqn:Hc; [|done]. injection Hin as Hin.
      apply name_byte in Hc as [Hm Hp]. rewrite Z2Nat.id in Hm by lia.
      apply dash_raw in Hin; [|rewrite <- Hm; apply Hmem|done]. rewrite Hm, Hin in Hy. done.
Qed.

(** The pointer returned is the one after the colon, or one further when the next byte
    is a space or zero. *)
Definition after_colon (p : Z) : Prop :=
  p = colon + 1 ∨ p = colon + 2 ∧ (mem (colon + 1) = 32 ∨ mem (colon + 1) = 0).

Lemma lower_space c : 0 <= c < 256 → LOWER_BYTE c = 32 → c = 32 ∨ c = 0.
Proof. revert c. apply (byte_inspect (λ c, LOWER_BYTE c = 32 → c = 32 ∨ c = 0)). by vm_compute. Qed.

Lemma ws_tail : ws ≠ [] → text_at mem (begin + (Z.of_nat (length name) + 1)) (tail ws ++ [58]) ∧
  forallb is_ws (tail ws) = true ∧ Z.of_nat (length ws) = Z.of_nat (length (tail ws)) + 1.
Proof.
  intros Hne. apply text_at_app in Ht as [_ Ht']. destruct ws as [|c t]; [done|]. cbn [app tail forallb length] in *.
  apply text_at_cons in Ht' as [_ Ht']. apply andb_prop in Hws as [_ ?].
  split; [|split; [done|lia]]. by replace (begin + (Z.of_nat (length name) + 1)) with (begin + Z.of_nat (length name) + 1) by lia.
Qed.

Lemma jump_good ty strict cs j : Forall (answers mem begin) cs →
  good (tolower <$> name) ty strict separator (cs, j) = true →
  ∃ p, jump mem begin end_ (move begin j) =
         HnOk (if strict && (separator =? 9) then HDR_OTHER_T else ty) (Z.of_nat (length name)) p ∧ after_colon p.
Proof.
  intros Hcs. cbn [good]. rewrite length_fmap. destruct (strict && (separator =? 9)).
  { destruct j as [| | |o]; try done. intros [H1 H2]%andb_prop. cbn [move jump].
    rewrite other_from by lia. eexists. split; [done|by left]. }
  assert (Hsep : is_ws separator = true → ws ≠ []).
  { intros H. unfold separator in H. by destruct ws. }
  assert (Hcolon : separator = 58 → ws = []).
  { intros H. destruct separator_cases as [[_ ?]|[?|?]]; [done|lia|lia]. }
  assert (Hbase := Ht). apply text_at_app in Hbase as [_ Hbase].
  destruct j as [t l p|t l p|t l p|o]; cbn [move jump]; [| | |done].
  - intros [[[->%bool_decide_eq_true ->%Z.eqb_eq]%andb_prop Hx%Z.eqb_eq]%andb_prop Hp]%andb_prop.
    specialize (Hcolon Hx). exists (begin + p). split; [done|]. unfold after_colon. rewrite Hcolon. simpl length.
    apply orb_prop in Hp as [->%Z.eqb_eq|[->%Z.eqb_eq Hk%bool_decide_eq_true]%andb_prop]; [left; lia|right].
    split; [lia|]. apply (known_sound mem begin) in Hk; [|done].
    replace (begin + Z.of_nat (length name + 0) + 1) with (begin + (Z.of_nat (length name) + 1)) by lia.
    apply lower_space; [apply Hmem|done].
  - intros [[[->%bool_decide_eq_true ->%Z.eqb_eq]%andb_prop Hx]%andb_prop ->%Z.eqb_eq]%andb_prop.
    destruct (ws_tail (Hsep Hx)) as (H1 & H2 & H3). unfold dc_end.
    destruct (Z.leb_spec end_ (begin + (Z.of_nat (length name) + 1))); [lia|].
    rewrite (to_colon_sep mem end_ _ _ (tail ws)) by (done || lia). eexists. split; [done|left; lia].
  - intros [[->%bool_decide_eq_true ->%Z.eqb_eq]%andb_prop Hp]%andb_prop.
    apply orb_prop in Hp as [->%Z.eqb_eq|[Hx ->%Z.eqb_eq]%andb_prop].
    + rewrite (dc_cont_sep mem begin end_ _ _ ws) by (done || lia). eexists. split; [done|left; lia].
    + destruct (ws_tail (Hsep Hx)) as (H1 & H2 & H3).
      rewrite (dc_cont_sep mem begin end_ _ _ (tail ws)) by (done || lia). eexists. split; [done|left; lia].
Qed.

(** A name that is not in the table. *)
Lemma jump_unknown cs j : Forall (answers mem begin) cs → check_path (cs, j) = true →
  (∀ e, e ∈ header_table → e.1.1 ≠ tolower <$> name) →
  jump mem begin end_ (move begin j) = HnOk HDR_OTHER_T (Z.of_nat (length name)) (colon + 1).
Proof.
  intros Hcs Hc Hun. cbn [check_path] in Hc.
  assert (Hlong : ∀ n s, word cs n = Some s → forallb lc s = true → n <= Z.of_nat (length name)).
  { intros n s Hw Hlc. apply name_long. intros i Hi. destruct (word_lc cs n s Hcs Hw i Hi) as (c & Hs & ->).
    rewrite forallb_forall in Hlc. apply Hlc, list_elem_of_In. by eapply list_elem_of_lookup_2. }
  assert (Hname : ∀ ty len, match word cs len with
             | Some n => (0 <? len) && forallb lc n && in_table n ty | None => false end = true →
           0 < len ∧ len < Z.of_nat (length name)).
  { intros ty len H. destruct (word cs len) as [n|] eqn:Hw; [|done].
    apply andb_prop in H as [[H0 Hlc]%andb_prop Hin]. split; [lia|].
    pose proof (Hlong len n Hw Hlc). destruct (decide (len = Z.of_nat (length name))) as [->|]; [|lia].
    exfalso. apply (word_name cs n Hcs) in Hw; [|done]. unfold in_table in Hin. apply existsb_exists in Hin as (e & He' & Heq).
    apply andb_prop in Heq as [Heq%bool_decide_eq_true _]. apply (Hun e); [by apply list_elem_of_In|congruence]. }
  assert (Hclosed : ∀ len, 0 < len < Z.of_nat (length name) → existsb (closes len) cs = true → False).
  { intros len Hlen H. apply existsb_exists in H as (x & Hx & H). apply list_elem_of_In in Hx.
    eapply Forall_forall in Hcs; [|exact Hx].
    pose proof (name_short len ltac:(lia) (closes_sound mem Hmem begin x len Hcs H)). lia. }
  destruct j as [t l p|t l p|t l p|o]; cbn [move jump].
  - apply andb_prop in Hc as [H1%Hname H2]. by destruct (Hclosed _ H1 H2).
  - apply andb_prop in Hc as [H1%Hname H2]. by destruct (Hclosed _ H1 H2).
  - apply andb_prop in Hc as [H1%Hname H2]. apply orb_prop in H2 as [->%Z.eqb_eq|H2]; [|by destruct (Hclosed _ H1 H2)].
    unfold dc_cont. destruct (Z.leb_spec end_ (begin + l)); [lia|].
    destruct (lookup_lt_is_Some_2 name (Z.to_nat l)) as [c Hcl]; [lia|].
    apply name_byte in Hcl as [Hm Hp]. rewrite Z2Nat.id in Hm by lia. rewrite Hm.
    destruct (plain_sep c Hp) as [-> Hne]. destruct (Z.eqb_spec c (chr ":")) as [->|_]; [done|].
    apply other_from. lia.
  - apply andb_prop in Hc as [H0 Hc]. destruct (word cs o) as [s|] eqn:Hw; [|done].
    pose proof (Hlong o s Hw Hc). apply other_from. lia.
Qed.
End named.

(** Recognition of a header name, in the form the proofs about whole fields use. *)
Lemma parse_hname2_spec mem begin end_ name ws :
  (∀ a, 0 <= mem a < 256) → forallb plain name = true → forallb is_ws ws = true →
  text_at mem begin (name ++ ws ++ [58]) → begin + Z.of_nat (length name + length ws) < end_ →
  4 <= end_ - begin →
  ∃ p, parse_hname2 mem begin end_ = HnOk (hdr_type_of name ws) (Z.of_nat (length name)) p ∧
       after_colon mem begin name ws p.
Proof.
  intros Hmem Hplain Hws Ht He Hlen. unfold parse_hname2. destruct (Z.ltb_spec (end_ - begin) 4); [lia|].
  destruct (run_path mem Hmem begin first_switch 0) as (cs & j & Hin & Hcs & Hrun). rewrite Z.add_0_r in Hrun. rewrite Hrun.
  pose proof paths_checked as Hpc. rewrite forallb_forall in Hpc. specialize (Hpc (cs, j)).
  apply list_elem_of_In in Hin as Hin'. apply Hpc in Hin'. apply andb_prop in Hin' as [Hchk Hoff]. cbn [fst] in Hoff.
  unfold hdr_type_of. destruct (list_find _ header_table) as [[k [[n ty] strict]]|] eqn:Hf.
  - apply list_find_Some in Hf as (Hk & Hn & _). cbn [fst] in Hn. subst n.
    pose proof table_checked as Htc. cbv zeta in Htc. rewrite allb_true, Forall_forall in Htc.
    specialize (Htc _ (list_elem_of_lookup_2 _ _ _ Hk)). cbn [fst snd] in Htc.
    destruct (allb lc (tolower <$> name)) eqn:Hlc; [|done]. apply allb_true in Hlc.
    assert (Hlc' : forallb lc (tolower <$> name) = true).
    { apply forallb_forall. intros x Hx. rewrite Forall_forall in Hlc. by apply Hlc, list_elem_of_In. }
    rewrite allb_true, Forall_forall in Htc. specialize (Htc (separator ws)).
    rewrite allb_true, Forall_forall in Htc.
    assert (Hsep : separator ws ∈ [58; 32; 9]).
    { apply list_elem_of_In. simpl. destruct (separator_cases ws Hws) as [[-> _]|[-> | ->]]; auto. }
    specialize (Htc Hsep (cs, j) Hin). cbn [fst] in Htc.
    assert (Hposs : allb (possible (tolower <$> name) (separator ws)) cs = true).
    { apply allb_true, Forall_forall. intros y Hy. eapply (possible_sound mem Hmem begin end_ name ws Hplain Hws Ht He); [done|done| |].
      - rewrite forallb_forall in Hoff. apply list_elem_of_In in Hy. specialize (Hoff y Hy). lia.
      - rewrite Forall_forall in Hcs. by apply Hcs. }
    rewrite Hposs in Htc.
    destruct (jump_good mem Hmem begin end_ name ws Hplain Hws Ht He ty strict cs j Hcs Htc) as (p & Hp & Ha).
    exists p. split; [|done]. rewrite Hp. f_equal. f_equal.
    unfold separator. destruct ws as [|c t]; cbn [head]; [by destruct strict|].
    destruct (Z.eqb_spec c 9) as [->|Hc]; [by rewrite bool_decide_eq_true_2|]. rewrite bool_decide_eq_false_2; [done|congruence].
  - exists (begin + Z.of_nat (length name + length ws) + 1). split; [|by left].
    apply (jump_unknown mem Hmem begin end_ name ws Hplain Hws Ht He cs j Hcs Hchk).
    intros e He'. apply list_find_None in Hf. rewrite Forall_forall in Hf. by apply Hf.
Qed.

(** The table evaluated: the flag of an entry is [end_compared] of its name, and the two
    spellings of Accept-Disposition are not among the other names. *)
Lemma known_names_checked e : e ∈ known_names →
  end_compared e.1.1 = e.2 ∧ e.1.1 ≠ acceptdisposition_name ∧ e.1.1 ≠ acceptdisposition_key.
Proof.
  assert (H : forallb (λ e, bool_decide (end_compared e.1.1 = e.2 ∧ e.1.1 ≠ acceptdisposition_name ∧
    e.1.1 ≠ acceptdisposition_key)) known_names = true) by (by vm_compute).
  rewrite forallb_forall in H. intros He%list_elem_of_In. by apply (bool_decide_eq_true_1 _), H.
Qed.

(** The types given are the documented ones, with two exceptions. *)
Lemma hdr_type_of_documented name ws :
  let n := tolower <$> name in
  hdr_type_of name ws =
    if bool_decide (n = acceptdisposition_name) then HDR_OTHER_T
    else if bool_decide (n = acceptdisposition_key) then HDR_ACCEPTDISPOSITION_T
    else if end_compared n && bool_decide (head ws = Some 9) then HDR_OTHER_T
    else documented_type n.
Proof.
  intros n. unfold hdr_type_of, documented_type, header_table. fold n. clearbody n.
  destruct (list_find (λ e, e.1.1 = n) known_names) as [[k [[x ty] strict]]|] eqn:Hf.
  - erewrite !list_find_app_l by done. pose proof Hf as (Hk & Hx & _)%list_find_Some. cbn [fst] in Hx. subst x.
    destruct (known_names_checked _ (list_elem_of_lookup_2 _ _ _ Hk)) as (He & H1 & H2). cbn [fst snd] in *.
    by rewrite (bool_decide_eq_false_2 _ H1), (bool_decide_eq_false_2 _ H2), He.
  - rewrite !list_find_app_r by done.
    assert (Hs : end_compared n = false).
    { apply bool_decide_eq_false_2. intros (e & He & E)%list_elem_of_omap. apply list_find_None in Hf.
      rewrite Forall_forall in Hf. destruct (e.2); [|done]. injection E as E. by apply (Hf e He). }
    rewrite Hs. cbn [andb list_find fst snd]. destruct (decide (n = acceptdisposition_name)) as [->|Hn1]; [done|].
    destruct (decide (n = acceptdisposition_key)) as [->|Hn2]; [done|].
    rewrite (bool_decide_eq_false_2 _ Hn1), (bool_decide_eq_false_2 _ Hn2), !decide_False by congruence. done.
Qed.

(** C11. The name of a header field is recognised: when the buffer has, within its end, a name
    of characters that are neither blanks, control characters nor colons, then spaces and
    tabs, then a colon, [parse_hname2] returns a type, the length of the name, and the pointer
    after the colon, one byte further when that byte is a space or zero and the name is To or
    Content-Length.  The type depends on the name in lower case.  It is the one that the
    comments of hf.h document for it (or the type of unknown headers), with two exceptions
    where the code departs from them: Accept-Disposition is unknown, because the constants
    of keys.h spell acceptadisposition, and that name has its type; and the names whose end
    is compared in one word with the next character (Via, t, Call-ID, Contact, Expires and the others
    of [end_compared]) are unknown when a tab follows them. *)
Theorem parse_hname2_correct mem begin end_ name ws :
  (∀ a, 0 <= mem a < 256) → forallb plain name = true → forallb is_ws ws = true →
  text_at mem begin (name ++ ws ++ [58]) → begin + Z.of_nat (length name + length ws) < end_ →
  4 <= end_ - begin →
  (∃ p, parse_hname2 mem begin end_ = HnOk (hdr_type_of name ws) (Z.of_nat (length name)) p ∧
        after_colon mem begin name ws p) ∧
  let n := tolower <$> name in
  hdr_type_of name ws =
    if bool_decide (n = acceptdisposition_name) then HDR_OTHER_T
    else if bool_decide (n = acceptdisposition_key) then HDR_ACCEPTDISPOSITION_T
    else if end_compared n && bool_decide (head ws = Some 9) then HDR_OTHER_T
    else documented_type n.
Proof. intros. split; [by apply parse_hname2_spec|apply hdr_type_of_documented]. Qed.
