(* ===== verification/HdrBodies.v ===== *)
(** * Bodies of header fields

    White space and tokens ([parser/parser_f.h]), method names ([parser/parse_methods.c]),
    and the parsers of the CSeq ([parser/parse_cseq.c]) and Content-Length
    ([parser/parse_content.c]) header fields.  The functions work on the memory between a
    pointer and the end of the message; a loop over a range of addresses recurs on the
    distance to its end. *)

From stdpp Require Import prelude list strings.
From Stdlib Require Import ZArith Lia Ascii.
From S2P Require Import Prelude HdrNames.

(** The allocator: each call succeeds or fails as the list says, and succeeds after its
    end. *)
Definition pkg_alloc (al : list bool) : bool * list bool :=
  match al with [] => (true, []) | ok :: al => (ok, al) end.

Section bodies.
Context (mem : Z → byte).

(** ** White space and tokens *)

Definition dist (p end_ : Z) : nat := Z.to_nat (end_ - p).

(** The first address from [p] on, before [end_], where [stop] holds. *)
Fixpoint scan_loop (stop : byte → bool) (n : nat) (p : Z) : Z :=
  match n with
  | O => p
  | S n => if stop (mem p) then p else scan_loop stop n (p + 1)
  end.
Definition scan (stop : byte → bool) (p end_ : Z) : Z := scan_loop stop (dist p end_) p.

Definition is_eol (c : byte) : bool := (c =? 10) || (c =? 13).

Definition eat_space_end (p pend : Z) : Z := scan (λ c, negb (is_ws c)) p pend.
Definition eat_token_end (p pend : Z) : Z := scan (λ c, is_ws c || is_eol c) p pend.
Definition eat_token2_end (p pend : Z) (delim : byte) : Z := scan (λ c, (c =? delim) || is_eol c) p pend.
Definition is_empty_end (p pend : Z) : bool :=
  let p := eat_space_end p pend in (p <? pend) && is_eol (mem p).

(** Spaces, tabs and line folding: at most three bytes in each turn. *)
Fixpoint eat_lws_loop (n : nat) (p pend : Z) : Z :=
  match n with
  | O => p
  | S n =>
      if p <? pend then
        if is_ws (mem p) then eat_lws_loop n (p + 1) pend
        else if (mem p =? 10) && (p + 1 <? pend) && is_ws (mem (p + 1)) then eat_lws_loop n (p + 2) pend
        else if (mem p =? 13) && (p + 2 <? pend) && (mem (p + 1) =? 10) && is_ws (mem (p + 2))
        then eat_lws_loop n (p + 3) pend
        else p
      else p
  end.
Definition eat_lws_end (p pend : Z) : Z := eat_lws_loop (dist p pend) p pend.

(** ** Methods *)

Definition METHOD_UNDEF : Z := 0.
Definition METHOD_INVITE : Z := 1.
Definition METHOD_CANCEL : Z := 2.
Definition METHOD_ACK : Z := 4.
Definition METHOD_BYE : Z := 8.
Definition METHOD_INFO : Z := 16.
Definition METHOD_OPTIONS : Z := 32.
Definition METHOD_UPDATE : Z := 64.
Definition METHOD_REGISTER : Z := 128.
Definition METHOD_MESSAGE : Z := 256.
Definition METHOD_SUBSCRIBE : Z := 512.
Definition METHOD_NOTIFY : Z := 1024.
Definition METHOD_PRACK : Z := 2048.
Definition METHOD_REFER : Z := 4096.
Definition METHOD_PUBLISH : Z := 8192.
Definition METHOD_OTHER : Z := 16384.

Definition method_char (c : byte) : bool :=
  ((65 <=? c) && (c <=? 90)) || ((97 <=? c) && (c <=? 122)) || ((48 <=? c) && (c <=? 57)) ||
  (c =? 45) || (c =? 46) || (c =? 33) || (c =? 37) || (c =? 42) || (c =? 95) || (c =? 43) ||
  (c =? 96) || (c =? 39) || (c =? 126).

(** The characters a method can be followed by. *)
Definition method_end (c : byte) : bool :=
  (c =? 0) || (c =? 44) || is_ws c || is_eol c.

Section method.
(** [start], and [max], the distance of [end]. *)
Context (start max : Z).

(** The letters from offset [off] on, in either case. *)
Fixpoint letters (off : Z) (s : bytes) : bool :=
  match s with
  | [] => true
  | l :: s => ((mem (start + off) =? l) || (mem (start + off) =? l - 32)) && letters (off + 1) s
  end.

(** The label [unknown]: the pointer returned ([None] is a null pointer). *)
Fixpoint unknown_loop (n : nat) (len : Z) : option Z :=
  match n with
  | O => Some (start + max)
  | S n =>
      if method_end (mem (start + len)) then Some (start + len)
      else if method_char (mem (start + len)) then unknown_loop n (len + 1)
      else None
  end.
Definition unknown (len : Z) : option Z * Z := (unknown_loop (Z.to_nat (max - len)) len, METHOD_OTHER).

Definition method_done (m len : Z) : option Z * Z :=
  if (len <? max) && negb (method_end (mem (start + len))) then unknown len
  else (Some (start + len), m).

(** A method with its length and the letters after the first one. *)
Definition try_method (m len : Z) (rest : string) (other : option Z * Z) : option Z * Z :=
  if max <? len then unknown 0 else if letters 1 (bs rest) then method_done m len else other.

Definition parse_method_at : option Z * Z :=
  let c := mem start in
  let ini l := (c =? chr l) || (c =? chr l - 32) in
  if ini "a"%char then try_method METHOD_ACK 3 "ck" (unknown 0)
  else if ini "b"%char then try_method METHOD_BYE 3 "ye" (unknown 0)
  else if ini "c"%char then try_method METHOD_CANCEL 6 "ancel" (unknown 0)
  else if ini "i"%char then
    try_method METHOD_INFO 4 "nfo" (try_method METHOD_INVITE 6 "nvite" (unknown 0))
  else if ini "m"%char then try_method METHOD_MESSAGE 7 "essage" (unknown 0)
  else if ini "n"%char then try_method METHOD_NOTIFY 6 "otify" (unknown 0)
  else if ini "o"%char then try_method METHOD_OPTIONS 7 "ptions" (unknown 0)
  else if ini "p"%char then
    try_method METHOD_PRACK 5 "rack" (try_method METHOD_PUBLISH 7 "ublish" (unknown 0))
  else if ini "r"%char then
    try_method METHOD_REFER 5 "efer" (try_method METHOD_REGISTER 8 "egister" (unknown 0))
  else if ini "s"%char then try_method METHOD_SUBSCRIBE 9 "ubscribe" (unknown 0)
  else if ini "u"%char then try_method METHOD_UPDATE 6 "pdate" (unknown 0)
  else unknown 0.
End method.

(** [parse_method] with a given [end]: the pointer returned and the method. *)
Definition parse_method (start end_ : Z) : option Z * Z := parse_method_at start (end_ - start).

(** The loop of [parse_methods]; every turn but the last passes at least a comma. *)
Definition is_lws (c : byte) : bool := is_ws c || is_eol c.
Definition skip_lws (p end_ : Z) : Z := scan (λ c, negb (is_lws c)) p end_.

Fixpoint parse_methods_loop (n : nat) (p end_ methods : Z) : option Z :=
  match n with
  | O => Some methods
  | S n =>
      if p <? end_ then
        match parse_method p end_ with
        | (None, _) => None
        | (Some p, m) =>
            let methods := Z.lor methods m in
            let p := skip_lws p end_ in
            if (end_ <=? p) || (mem p =? 0) then Some methods
            else if mem p =? 44 then
              let p := skip_lws (p + 1) end_ in
              if end_ <=? p then Some methods else parse_methods_loop n p end_ methods
            else None
        end
      else Some methods
  end.

(** [parse_methods] on the [len] bytes at [s]: the methods, or the return value -1. *)
Definition parse_methods (s len : Z) : option Z :=
  let p := skip_lws s (s + len) in
  if s + len <=? p then Some 0 else parse_methods_loop (dist p (s + len)) p (s + len) 0.

(** ** CSeq *)

Record cseq_body := mk_cseq {
  cs_number : Z * Z;  (** address and length *)
  cs_method : Z * Z;
  cs_method_id : Z
}.

(** The pointer after the header and its contents, [None] on an error. *)
Definition parse_cseq (buf end_ : Z) : option (Z * cseq_body) :=
  let t := eat_token_end buf end_ in
  if end_ <=? t then None
  else
    let m := eat_space_end t end_ in
    let m_end := eat_token_end m end_ in
    if end_ <=? m_end then None
    else if m_end =? m then None
    else
      match parse_method m m_end with
      | (None, _) => None
      | (Some _, id) =>
          let cb := mk_cseq (buf, t - buf) (m, m_end - m) id in
          let t := eat_lws_end m_end end_ in
          if end_ <=? t then None
          else if (mem t =? 13) && (t + 1 <? end_) && (mem (t + 1) =? 10) then Some (t + 2, cb)
          else if mem t =? 10 then Some (t + 1, cb)
          else None
      end.

(** ** Content-Length *)

(** White space before the number: also a carriage return before a line feed. *)
Fixpoint cl_lead (n : nat) (p end_ : Z) : Z :=
  match n with
  | O => p
  | S n =>
      if is_ws (mem p) || ((mem p =? 13) && (p + 1 <? end_) && (mem (p + 1) =? 10))
         || ((mem p =? 10) && (p + 1 <? end_) && is_ws (mem (p + 1)))
      then cl_lead n (p + 1) end_ else p
  end.

(** The digits; [None] when the number could overflow. *)
Fixpoint cl_number (n : nat) (p number : Z) : option (Z * Z) :=
  match n with
  | O => Some (p, number)
  | S n =>
      if (48 <=? mem p) && (mem p <=? 57) then
        if INT_MAX / 10 <=? number then None
        else cl_number n (p + 1) (number * 10 + (mem p - 48))
      else Some (p, number)
  end.

Fixpoint cl_trail (n : nat) (p end_ : Z) : Z :=
  match n with
  | O => p
  | S n =>
      if is_ws (mem p) || ((mem p =? 10) && (p + 1 <? end_) && is_ws (mem (p + 1)))
      then cl_trail n (p + 1) end_ else p
  end.

Definition parse_content_length (buffer end_ : Z) : option (Z * Z) :=
  let p := cl_lead (dist buffer end_) buffer end_ in
  if p =? end_ then None
  else
    match cl_number (dist p end_) p 0 with
    | None => None
    | Some (q, number) =>
        if (q =? end_) || (q =? p) then None
        else
          let q := cl_trail (dist q end_) q end_ in
          if q =? end_ then None
          else if mem q =? 10 then Some (q + 1, number)
          else if (mem q =? 13) && negb (q + 1 =? end_) && (mem (q + 1) =? 10) then Some (q + 2, number)
          else None
    end.
End bodies.
