(* ===== verification/ToParser.v ===== *)
(** * ToParser: the parser of address headers (parser/parse_to.c)

    [parse_to] reads the body of a To header, an address with an optional display name
    and parameters; [parse_multi_to] reads a list of such bodies separated by commas.
    The state machine is translated switch by switch: first the case of the character,
    then the status.  A pointer is its address and [NULL] is 0; the memory is a function
    from addresses to bytes.  Writing through the null pointer [param] is [PFault]. *)

From stdpp Require Import prelude list strings.
From Stdlib Require Import ZArith Lia Ascii.
From S2P Require Import Prelude CString UriParser HdrNames HdrBodies.

(** ** Data *)

Inductive to_status :=
  | START_TO | DISPLAY_QUOTED | E_DISPLAY_QUOTED | DISPLAY_TOKEN | DISPLAY_TOKEN2
  | S_URI_ENCLOSED | URI_ENCLOSED | E_URI_ENCLOSED
  | URI_OR_TOKEN | MAYBE_URI_END | END | F_CR | F_LF | F_CRLF
  | S_PARA_NAME | PARA_NAME | S_EQUAL | S_PARA_VALUE | TAG1 | TAG2
  | TAG3 | PARA_VALUE_TOKEN | PARA_VALUE_QUOTED | E_PARA_VALUE.
#[export] Instance to_status_eq_dec : EqDecision to_status.
Proof. solve_decision. Defined.

(** [struct to_param]: [tp_tag] is the type [TAG_PARAM]. *)
Record to_param := ToParam { tp_tag : bool; tp_name : str; tp_value : str }.

(** [struct to_body] without [parsed_uri]; the list of parameters is in order, and the
    bodies chained by [next] are the elements of a list. *)
Record to_body := ToBody {
  tb_error : bool;
  tb_body : str;
  tb_uri : str;
  tb_display : str;
  tb_tag_value : str;
  tb_params : list to_param
}.

Definition to_zero : to_body := ToBody false str_null str_null str_null str_null [].

Definition set_body (b : to_body) x :=
  ToBody (tb_error b) x (tb_uri b) (tb_display b) (tb_tag_value b) (tb_params b).
Definition set_uri (b : to_body) x :=
  ToBody (tb_error b) (tb_body b) x (tb_display b) (tb_tag_value b) (tb_params b).
Definition set_display (b : to_body) x :=
  ToBody (tb_error b) (tb_body b) (tb_uri b) x (tb_tag_value b) (tb_params b).

(** A member [str] whose pointer, or whose length up to [p], is set. *)
Definition at_ (s : str) (p : Z) : str := Str p (str_len s).
Definition upto (s : str) (p : Z) : str := str_to (str_s s) p.

(** ** Parameters *)

(** The local variables of [parse_to_param] and the body it fills; [pp_al] is the
    allocator. *)
Record pp := PP {
  pp_st : to_status;
  pp_saved : to_status;
  pp_param : option to_param;
  pp_body : to_body;
  pp_al : list bool
}.

Definition pp_with (x : pp) (st : to_status) : pp := PP st (pp_saved x) (pp_param x) (pp_body x) (pp_al x).
Definition pp_save (x : pp) (sv : to_status) : pp := PP (pp_st x) sv (pp_param x) (pp_body x) (pp_al x).

(** What the body of the loop does: go on (after one more character when [skip]), or
    one of the labels [endofheader], [parse_error] and [error]. *)
Inductive pp_out :=
  | PGo (skip : bool) (x : pp)
  | PEnd (x : pp)
  | PErr (x : pp)
  | PFault.

Definition on_param (x : pp) (f : to_param → to_param) (k : pp → pp_out) : pp_out :=
  match pp_param x with
  | Some p => k (PP (pp_st x) (pp_saved x) (Some (f p)) (pp_body x) (pp_al x))
  | None => PFault
  end.

(** The macro [add_param]. *)
Definition add_param (x : pp) (k : pp → pp_out) : pp_out :=
  match pp_param x with
  | Some p =>
      let b := pp_body x in
      k (PP (pp_st x) (pp_saved x) None
           (ToBody (tb_error b) (tb_body b) (tb_uri b) (tb_display b)
              (if tp_tag p then tp_value p else tb_tag_value b) (tb_params b ++ [p]))
           (pp_al x))
  | None => PFault
  end.

Definition name_at (tmp : Z) (p : to_param) := ToParam (tp_tag p) (at_ (tp_name p) tmp) (tp_value p).
Definition name_len (tmp : Z) (p : to_param) := ToParam (tp_tag p) (upto (tp_name p) tmp) (tp_value p).
Definition value_at (tmp : Z) (p : to_param) := ToParam (tp_tag p) (tp_name p) (at_ (tp_value p) tmp).
Definition value_len (tmp : Z) (p : to_param) := ToParam (tp_tag p) (tp_name p) (upto (tp_value p) tmp).
Definition no_value (p : to_param) := ToParam (tp_tag p) (tp_name p) str_null.
Definition to_tag (p : to_param) := ToParam true (tp_name p) (tp_value p).

Definition go (q : to_status) (x : pp) : pp_out := PGo false (pp_with x q).
Definition stay (x : pp) : pp_out := PGo false x.

(** The statuses of a name: [TAG3] also marks the parameter as the tag. *)
Definition end_name (tmp : Z) (x : pp) (k : pp → pp_out) : pp_out :=
  if decide (pp_st x = TAG3) then on_param x to_tag (λ x, on_param x (name_len tmp) k)
  else on_param x (name_len tmp) k.

Definition end_value (tmp : Z) (x : pp) (k : pp → pp_out) : pp_out :=
  on_param x (value_len tmp) (λ x, add_param x k).

(** The cases ['\n'] and ['\r'], which only differ in the status [f] they enter. *)
Definition pp_newline (tmp : Z) (f : to_status) (x : pp) (rest : pp_out) : pp_out :=
  match pp_st x with
  | S_PARA_NAME | S_EQUAL | S_PARA_VALUE | E_PARA_VALUE => go f (pp_save x (pp_st x))
  | TAG3 | PARA_NAME | TAG1 | TAG2 => end_name tmp x (λ x, go f (pp_save x S_EQUAL))
  | PARA_VALUE_TOKEN =>
      on_param x (value_len tmp) (λ x, add_param (pp_with (pp_save x E_PARA_VALUE) f) stay)
  | _ => rest
  end.

(** [PARA_NAME], [S_EQUAL] and [S_PARA_VALUE] at the end of a parameter without a
    value, which a tag must not lack. *)
Definition valueless (tmp : Z) (x : pp) (k : pp → pp_out) : pp_out :=
  match pp_param x with
  | Some p => if tp_tag p then PErr x else on_param x (value_at tmp) k
  | None => PFault
  end.

(** [E_PARA_VALUE] of the case [0] and [','], and of the case [';']. *)
Definition pp_stop (multi : bool) (c : byte) (x : pp) : pp_out :=
  let x := pp_save x (pp_st x) in
  if negb multi && (c =? chr ",") then PErr x else PEnd x.

Definition pp_next (x : pp) : pp_out :=
  let '(ok, al) := pkg_alloc (pp_al x) in
  if ok then PGo false (PP S_PARA_NAME (pp_saved x) (Some (ToParam false str_null str_null)) (pp_body x) al)
  else PErr (PP (pp_st x) (pp_saved x) None (pp_body x) al).

Definition is_fold (q : to_status) : bool :=
  match q with F_CRLF | F_LF | F_CR => true | _ => false end.

(** The cases of the letters of "tag": [next] is where [TAG1], [TAG2] and [TAG3] lead,
    [first] the status after the first letter of a name. *)
Definition pp_letter (tmp : Z) (first : to_status) (next : to_status → to_status) (x : pp)
    (bad : pp_out) : pp_out :=
  match pp_st x with
  | PARA_VALUE_QUOTED | PARA_VALUE_TOKEN | PARA_NAME => stay x
  | S_PARA_NAME => on_param x (name_at tmp) (go first)
  | S_PARA_VALUE => on_param x (value_at tmp) (go PARA_VALUE_TOKEN)
  | TAG1 | TAG2 | TAG3 => go (next (pp_st x)) x
  | F_CRLF | F_LF | F_CR => PEnd x
  | _ => bad
  end.

(** The body of the loop on the character [c] at [tmp], with [c1] the one after it. *)
Definition pp_step (multi : bool) (c c1 : byte) (tmp end_ : Z) (x : pp) : pp_out :=
  if (c =? 32) || (c =? 9) then
    match pp_st x with
    | TAG3 | PARA_NAME | TAG1 | TAG2 => end_name tmp x (go S_EQUAL)
    | PARA_VALUE_TOKEN => on_param x (value_len tmp) (λ x, add_param (pp_with x E_PARA_VALUE) stay)
    | F_CRLF | F_LF | F_CR => go (pp_saved x) x
    | _ => stay x
    end
  else if c =? 10 then
    pp_newline tmp F_LF x
      match pp_st x with
      | F_CR => go F_CRLF x
      | F_CRLF | F_LF => PEnd (pp_with x (pp_saved x))
      | _ => PErr x
      end
  else if c =? 13 then
    pp_newline tmp F_CR x
      match pp_st x with
      | F_CRLF | F_CR | F_LF => PEnd (pp_with x (pp_saved x))
      | _ => PErr x
      end
  else if (c =? 0) || (c =? chr ",") then
    let fin x := end_value tmp (pp_with x E_PARA_VALUE) (pp_stop multi c) in
    match pp_st x with
    | PARA_VALUE_QUOTED => stay x
    | PARA_NAME => on_param x (name_len tmp) (λ x, valueless tmp x fin)
    | S_EQUAL | S_PARA_VALUE => valueless tmp x fin
    | PARA_VALUE_TOKEN => fin x
    | E_PARA_VALUE => pp_stop multi c x
    | _ => PErr x
    end
  else if c =? chr "\" then
    match pp_st x with
    | PARA_VALUE_QUOTED =>
        if tmp + 1 =? end_ then PErr x
        else PGo (negb ((c1 =? 13) || (c1 =? 10))) x
    | _ => PErr x
    end
  else if c =? 34 then
    match pp_st x with
    | S_PARA_VALUE => on_param x (value_at (tmp + 1)) (go PARA_VALUE_QUOTED)
    | PARA_VALUE_QUOTED => end_value tmp x (go E_PARA_VALUE)
    | F_CRLF | F_LF | F_CR => PEnd x
    | _ => PErr x
    end
  else if c =? chr ";" then
    let fin x := end_value tmp x pp_next in
    match pp_st x with
    | PARA_VALUE_QUOTED => stay x
    | PARA_NAME => on_param x (name_len tmp) (λ x, valueless tmp x fin)
    | S_EQUAL | S_PARA_VALUE => valueless tmp x fin
    | PARA_VALUE_TOKEN => fin x
    | E_PARA_VALUE => pp_next x
    | F_CRLF | F_LF | F_CR => PEnd x
    | _ => PErr x
    end
  else if (c =? chr "T") || (c =? chr "t") then pp_letter tmp TAG1 (λ _, PARA_NAME) x (PErr x)
  else if (c =? chr "A") || (c =? chr "a") then
    pp_letter tmp PARA_NAME (λ q, match q with TAG1 => TAG2 | _ => PARA_NAME end) x (PErr x)
  else if (c =? chr "G") || (c =? chr "g") then
    pp_letter tmp PARA_NAME (λ q, match q with TAG2 => TAG3 | _ => PARA_NAME end) x (PErr x)
  else if c =? chr "=" then
    match pp_st x with
    | PARA_VALUE_QUOTED => stay x
    | TAG3 | PARA_NAME | TAG1 | TAG2 => end_name tmp x (go S_PARA_VALUE)
    | S_EQUAL => go S_PARA_VALUE x
    | F_CRLF | F_LF | F_CR => PEnd x
    | _ => PErr x
    end
  else pp_letter tmp PARA_NAME (λ _, PARA_NAME) x (PErr x).

(** What [parse_to_param] returns and stores: [pr_tmp], [*returned_status] and the body. *)
Inductive pp_result :=
  | PResult (tmp : Z) (st : to_status) (b : to_body) (al : list bool)
  | PRFault
  | PRStuck.

(** The labels [parse_error] and [error]: the parameters are freed. *)
Definition pp_error (tmp : Z) (x : pp) : pp_result :=
  let b := pp_body x in
  PResult tmp (pp_st x)
    (ToBody true (tb_body b) (tb_uri b) (tb_display b) (tb_tag_value b) []) (pp_al x).

(** The label [endofheader]. *)
Definition pp_end (tmp : Z) (x : pp) : pp_result :=
  match pp_param x with
  | None => PResult tmp (pp_saved x) (pp_body x) (pp_al x)
  | Some p =>
      if decide (pp_saved x = S_EQUAL ∨ pp_saved x = S_PARA_VALUE) then
        if tp_tag p then pp_error tmp x
        else
          let b := pp_body x in
          PResult tmp E_PARA_VALUE
            (ToBody (tb_error b) (tb_body b) (tb_uri b) (tb_display b) (tb_tag_value b)
               (tb_params b ++ [no_value p])) (pp_al x)
      else PResult tmp (pp_saved x) (pp_body x) (pp_al x)
  end.

Section parse_to.
Context (mem : Z → byte).

Fixpoint pp_loop (n : nat) (multi : bool) (tmp end_ : Z) (x : pp) : pp_result :=
  if tmp <? end_ then
    match n with
    | O => PRStuck
    | S n =>
        match pp_step multi (mem tmp) (mem (tmp + 1)) tmp end_ x with
        | PGo skip x => pp_loop n multi (if skip then tmp + 2 else tmp + 1) end_ x
        | PEnd x => pp_end tmp x
        | PErr x => pp_error tmp x
        | PFault => PRFault
        end
    end
  else if decide (pp_st x = PARA_VALUE_QUOTED) then pp_error tmp x
  else pp_end tmp x.

Definition parse_to_param (multi : bool) (buffer end_ : Z) (b : to_body) (al : list bool) : pp_result :=
  pp_loop (dist buffer end_) multi buffer end_ (PP E_PARA_VALUE E_PARA_VALUE None b al).

(** ** The bodies *)

(** The local variables of [_parse_to]: the bodies before the current one are in
    [t_done]. *)
Record pt := PT {
  t_st : to_status;
  t_saved : to_status;
  t_mark : Z;
  t_done : list to_body;
  t_cur : to_body;
  t_al : list bool
}.

Definition t_with (x : pt) (st : to_status) : pt :=
  PT st (t_saved x) (t_mark x) (t_done x) (t_cur x) (t_al x).
Definition t_save (x : pt) (sv : to_status) : pt :=
  PT (t_st x) sv (t_mark x) (t_done x) (t_cur x) (t_al x).
Definition t_end_mark (x : pt) (m : Z) : pt :=
  PT (t_st x) (t_saved x) m (t_done x) (t_cur x) (t_al x).
Definition t_body (x : pt) (f : to_body → to_body) : pt :=
  PT (t_st x) (t_saved x) (t_mark x) (t_done x) (f (t_cur x)) (t_al x).

(** What the body of the loop does; [TAt] is the label [endofheader] with the value
    of [tmp], [TGo] continues after the character at the given address. *)
Inductive pt_out :=
  | TGo (tmp : Z) (x : pt)
  | TAt (tmp : Z) (x : pt)
  | TErr (al : list bool)
  | TFault
  | TStuck.

Definition uri_upto (p : Z) (b : to_body) : to_body := set_uri b (upto (tb_uri b) p).
Definition display_upto (p : Z) (b : to_body) : to_body := set_display b (upto (tb_display b) p).
Definition body_upto (p : Z) (b : to_body) : to_body := set_body b (upto (tb_body b) p).
Definition body_at (p : Z) (b : to_body) : to_body := set_body b (at_ (tb_body b) p).

(** A new body instance after a comma. *)
Definition next_body (tmp : Z) (x : pt) : pt_out :=
  let '(ok, al) := pkg_alloc (t_al x) in
  if ok then TGo tmp (PT START_TO START_TO 0 (t_done x ++ [t_cur x]) to_zero al) else TErr al.

(** The cases ['\n'] and ['\r']. *)
Definition t_newline (tmp : Z) (f : to_status) (x : pt) (rest : pt_out) : pt_out :=
  match t_st x with
  | URI_OR_TOKEN => TGo tmp (t_with (t_save (t_end_mark x tmp) MAYBE_URI_END) f)
  | MAYBE_URI_END | DISPLAY_TOKEN | DISPLAY_TOKEN2 | E_DISPLAY_QUOTED | END =>
      TGo tmp (t_with (t_save x (t_st x)) f)
  | _ => rest
  end.

(** The parameters of the current body, and what follows them. *)
Definition t_params (multi : bool) (tmp end_ : Z) (x : pt) : pt_out :=
  let x := t_body x (body_upto tmp) in
  match parse_to_param multi tmp end_ (t_cur x) (t_al x) with
  | PResult tmp saved b al =>
      let x := PT (t_st x) saved (t_mark x) (t_done x) b al in
      if negb (tb_error b) && multi && (mem tmp =? chr ",") then next_body tmp x
      else TAt tmp x
  | PRFault => TFault
  | PRStuck => TStuck
  end.

(** The body of the loop on the character [c] at [tmp]. *)
Definition t_step (multi : bool) (c : byte) (tmp end_ : Z) (x : pt) : pt_out :=
  let stay := TGo tmp x in
  let goto q := TGo tmp (t_with x q) in
  let err := TErr (t_al x) in
  if (c =? 32) || (c =? 9) then
    match t_st x with
    | F_CRLF | F_LF | F_CR => goto (t_saved x)
    | URI_ENCLOSED => TGo tmp (t_with (t_body x (uri_upto tmp)) E_URI_ENCLOSED)
    | URI_OR_TOKEN => TGo tmp (t_with (t_end_mark x tmp) MAYBE_URI_END)
    | DISPLAY_TOKEN => TGo tmp (t_with (t_end_mark x tmp) DISPLAY_TOKEN2)
    | _ => stay
    end
  else if c =? 10 then
    t_newline tmp F_LF x
      match t_st x with
      | F_CR => goto F_CRLF
      | F_CRLF | F_LF => TAt tmp x
      | _ => err
      end
  else if c =? 13 then
    t_newline tmp F_CR x
      match t_st x with
      | F_CRLF | F_CR | F_LF => TAt tmp x
      | _ => err
      end
  else if c =? 0 then
    match t_st x with
    | URI_OR_TOKEN | MAYBE_URI_END => TAt tmp (t_save (t_body x (uri_upto tmp)) END)
    | END => TAt tmp (t_save x END)
    | _ => err
    end
  else if c =? chr "," then
    match t_st x with
    | DISPLAY_QUOTED | URI_ENCLOSED => stay
    | URI_OR_TOKEN => if multi then next_body tmp (t_body x (uri_upto tmp)) else stay
    | MAYBE_URI_END => if multi then next_body tmp (t_body x (uri_upto tmp)) else err
    | END => if multi then next_body tmp x else err
    | _ => err
    end
  else if c =? chr "\" then
    match t_st x with
    | DISPLAY_QUOTED => TGo (tmp + 1) x
    | _ => err
    end
  else if c =? chr "<" then
    match t_st x with
    | START_TO => TGo tmp (t_with (t_body x (body_at tmp)) S_URI_ENCLOSED)
    | DISPLAY_QUOTED => stay
    | E_DISPLAY_QUOTED => goto S_URI_ENCLOSED
    | URI_OR_TOKEN | DISPLAY_TOKEN =>
        TGo tmp (t_with (t_body (t_end_mark x tmp) (display_upto tmp)) S_URI_ENCLOSED)
    | DISPLAY_TOKEN2 | MAYBE_URI_END =>
        TGo tmp (t_with (t_body x (display_upto (t_mark x))) S_URI_ENCLOSED)
    | F_CRLF | F_LF | F_CR => TAt tmp x
    | _ => err
    end
  else if c =? chr ">" then
    match t_st x with
    | DISPLAY_QUOTED => stay
    | URI_ENCLOSED => TGo tmp (t_with (t_body x (uri_upto tmp)) END)
    | E_URI_ENCLOSED => goto END
    | F_CRLF | F_LF | F_CR => TAt tmp x
    | _ => err
    end
  else if c =? 34 then
    match t_st x with
    | START_TO =>
        TGo tmp (t_with (t_body x (λ b, set_display (body_at tmp b) (at_ (tb_display b) tmp))) DISPLAY_QUOTED)
    | DISPLAY_QUOTED =>
        TGo tmp (t_with (t_body x (λ b, set_display b
          (Str (str_s (tb_display b)) (i32 (tmp - str_s (tb_display b) + 1))))) E_DISPLAY_QUOTED)
    | F_CRLF | F_LF | F_CR => TAt tmp x
    | _ => err
    end
  else if c =? chr ";" then
    match t_st x with
    | DISPLAY_QUOTED | DISPLAY_TOKEN | URI_ENCLOSED => stay
    | URI_OR_TOKEN => t_params multi tmp end_ (t_body (t_end_mark x tmp) (uri_upto tmp))
    | MAYBE_URI_END => t_params multi tmp end_ (t_body x (uri_upto (t_mark x)))
    | END => t_params multi tmp end_ x
    | F_CRLF | F_LF | F_CR => TAt tmp x
    | _ => err
    end
  else
    match t_st x with
    | START_TO =>
        TGo tmp (t_with (t_body x (λ b,
          set_display (set_uri (body_at tmp b) (at_ (tb_uri b) tmp)) (at_ (tb_display b) tmp))) URI_OR_TOKEN)
    | S_URI_ENCLOSED => TGo tmp (t_with (t_body x (λ b, set_uri b (at_ (tb_uri b) tmp))) URI_ENCLOSED)
    | MAYBE_URI_END | DISPLAY_TOKEN2 => goto DISPLAY_TOKEN
    | DISPLAY_QUOTED | DISPLAY_TOKEN | URI_ENCLOSED | URI_OR_TOKEN => stay
    | F_CRLF | F_LF | F_CR => TAt tmp x
    | _ => err
    end.

(** The bodies and the pointer returned; [TrError] is the label [error]: the first body
    is marked, and the parameters and the other bodies are freed. *)
Inductive to_result :=
  | TrOk (tmp : Z) (bodies : list to_body)
  | TrError
  | TrFault
  | TrStuck.

(** The label [endofheader]. *)
Definition t_end (tmp : Z) (x : pt) : to_result :=
  let b := t_cur x in
  let b := if str_len (tb_display b) =? 0 then set_display b (Str 0 (str_len (tb_display b))) else b in
  match t_saved x with
  | MAYBE_URI_END => TrOk tmp (t_done x ++ [body_upto tmp (uri_upto (t_mark x) b)])
  | END => TrOk tmp (t_done x ++ [body_upto tmp b])
  | E_PARA_VALUE => TrOk tmp (t_done x ++ [b])
  | _ => TrError
  end.

Fixpoint t_loop (n : nat) (multi : bool) (tmp end_ : Z) (x : pt) : to_result * list bool :=
  if tmp <? end_ then
    match n with
    | O => (TrStuck, t_al x)
    | S n =>
        match t_step multi (mem tmp) tmp end_ x with
        | TGo tmp x => t_loop n multi (tmp + 1) end_ x
        | TAt tmp x => (t_end tmp x, t_al x)
        | TErr al => (TrError, al)
        | TFault => (TrFault, t_al x)
        | TStuck => (TrStuck, t_al x)
        end
    end
  else (t_end tmp x, t_al x).

Definition _parse_to (multi : bool) (al : list bool) (buffer end_ : Z) : to_result * list bool :=
  t_loop (dist buffer end_) multi buffer end_ (PT START_TO START_TO 0 [] to_zero al).

Definition parse_to := _parse_to false.
Definition parse_multi_to := _parse_to true.
End parse_to.

(** What a caller gets: the pointer and the first body with those after it, unless the first
    one is marked as an error. *)
Definition to_bodies (r : to_result) : option (Z * (to_body * list to_body)) :=
  match r with
  | TrOk tmp (b :: bs) => if tb_error b then None else Some (tmp, (b, bs))
  | _ => None
  end.

Definition to_text (mem : Z → byte) (s : str) : bytes :=
  (λ i, mem (str_s s + Z.of_nat i)) <$> seq 0 (Z.to_nat (str_len s)).
