(* ===== verification/ToFacts.v ===== *)
(** * ToFacts: the invariant of the address parser (parser/parse_to.c)

    No status of the machine writes through a null [param], and every string it stores lies
    between the beginning of the body and the place it has reached. *)

From stdpp Require Import prelude list strings.
From Stdlib Require Import ZArith Lia Ascii.
From S2P Require Import Prelude CString UriParser UriFacts HdrNames HdrBodies ToParser.

(** ** Strings *)

(** A string whose pointer is set and whose length is not. *)
Definition begun (A p : Z) (s : str) : Prop := A <= str_s s <= p ∧ str_len s = 0.

Definition param_ok (A p : Z) (t : to_param) : Prop := inb A p (tp_name t) ∧ inb A p (tp_value t).

Record body_ok (A p : Z) (b : to_body) : Prop := {
  ok_body : inb A p (tb_body b);
  ok_uri : inb A p (tb_uri b);
  ok_display : inb A p (tb_display b);
  ok_tag : inb A p (tb_tag_value b);
  ok_tparams : Forall (param_ok A p) (tb_params b);
}.

(** What a status of [parse_to_param] knows of [param]. *)
Definition shape (A p : Z) (q : to_status) (o : option to_param) : Prop :=
  match q with
  | E_PARA_VALUE => o = None
  | S_PARA_NAME => ∃ t, o = Some t ∧ tp_name t = str_null ∧ tp_value t = str_null
  | PARA_NAME | TAG1 | TAG2 | TAG3 => ∃ t, o = Some t ∧ begun A p (tp_name t) ∧ tp_value t = str_null
  | S_EQUAL | S_PARA_VALUE => ∃ t, o = Some t ∧ inb A p (tp_name t) ∧ tp_value t = str_null
  | PARA_VALUE_TOKEN | PARA_VALUE_QUOTED => ∃ t, o = Some t ∧ inb A p (tp_name t) ∧ begun A p (tp_value t)
  | _ => False
  end.

(** The statuses a line can be folded in. *)
Definition can_fold (q : to_status) : bool :=
  match q with S_PARA_NAME | S_EQUAL | S_PARA_VALUE | E_PARA_VALUE => true | _ => false end.

Definition shaped (A p : Z) (x : pp) : Prop :=
  if is_fold (pp_st x) then can_fold (pp_saved x) = true ∧ shape A p (pp_saved x) (pp_param x)
  else shape A p (pp_st x) (pp_param x).

Definition pinv (A p : Z) (x : pp) : Prop :=
  body_ok A p (pp_body x) ∧ shaped A p x ∧ can_fold (pp_saved x) = true.

(** The statuses of [_parse_to] that end a body. *)
Definition ends_body (q : to_status) : bool :=
  match q with MAYBE_URI_END | END => true | _ => false end.

Section bounds.
Context (A E : Z) (HA : 0 < A) (HE : E - A <= INT_MAX).

Lemma begun_inb p s : begun A p s → inb A p s.
Proof. intros [H1 H2]. right. lia. Qed.

Lemma begun_mono p p' s : p <= p' → begun A p s → begun A p' s.
Proof. intros ? []. split; [lia|done]. Qed.

Lemma begun_at p s : A <= p → str_len s = 0 → begun A p (at_ s p).
Proof. intros. split; [simpl; lia|done]. Qed.

Lemma upto_inb s q p : A <= str_s s <= q → q <= p → p <= E → inb A p (upto s q).
Proof. intros. apply (inb_str_to_le A E HE); lia. Qed.

Lemma body_ok_mono p p' b : p <= p' → body_ok A p b → body_ok A p' b.
Proof.
  intros Hp []. constructor; eauto using inb_mono.
  eapply Forall_impl; [done|]. intros t []. split; eauto using inb_mono.
Qed.

Lemma to_zero_ok p : body_ok A p to_zero.
Proof. constructor; by (left || apply Forall_nil). Qed.

Lemma shape_mono p p' q o : p <= p' → shape A p q o → shape A p' q o.
Proof.
  intros Hp. destruct q; cbn; try done; intros (t & -> & Hn & Hv); exists t;
    repeat split; eauto using inb_mono; try apply Hn; try apply Hv; destruct Hn, Hv; lia.
Qed.

(** A parameter of any shape is in bounds. *)
Lemma shape_param p q t : shape A p q (Some t) → param_ok A p t.
Proof.
  destruct q; cbn; try done; intros (t' & [= <-] & Hn & Hv); split;
    try (rewrite Hn; by left); try (rewrite Hv; by left); eauto using begun_inb.
Qed.

Lemma shaped_param p x t : shaped A p x → pp_param x = Some t → param_ok A p t.
Proof.
  intros Hs Ht. unfold shaped in Hs. rewrite Ht in Hs.
  destruct (is_fold (pp_st x)); [destruct Hs as [_ Hs]|]; eauto using shape_param.
Qed.

(** ** The parameters *)

Definition pout_ok (p : Z) (o : pp_out) : Prop :=
  match o with
  | PGo skip x => pinv A (p + 1) x
  | PEnd x =>
      body_ok A p (pp_body x) ∧ (∀ t, pp_param x = Some t → param_ok A p t) ∧
      can_fold (pp_saved x) = true ∧ ends_body (pp_st x) = false
  | PErr x => body_ok A p (pp_body x) ∧ ends_body (pp_st x) = false
  | PFault => False
  end.

Lemma pinv_mono p p' x : p <= p' → pinv A p x → pinv A p' x.
Proof.
  intros Hp (Hb & Hs & Hv). split; [by eapply body_ok_mono|]. split; [|done]. unfold shaped in *.
  destruct (is_fold _); [destruct Hs; split; [done|]|]; by eapply shape_mono.
Qed.

Lemma pinv_ends p x : pinv A p x → ends_body (pp_st x) = false.
Proof. intros (_ & Hs & _). unfold shaped in Hs. by destruct (pp_st x). Qed.

End bounds.

Ltac pp_unfold :=
  unfold pp_step, pp_newline, pp_letter, end_name, end_value, valueless, pp_stop, pp_next, add_param, on_param, go, stay.

(** Close the cases of a step: the strings set by it and those it leaves. *)
Ltac to_str :=
  repeat match goal with
  | H : begun _ _ _ |- _ => destruct H as [? ?]
  | H : tp_value _ = str_null |- _ => rewrite H in *
  | H : tp_name _ = str_null |- _ => rewrite H in *
  end;
  first
  [ done
  | left; done
  | split; cbn; lia
  | eapply upto_inb; [eassumption|cbn in *; lia..]
  | right; cbn in *; lia
  | eapply inb_mono; [|eassumption]; lia ].

Section params.
Context (A E : Z) (HA : 0 < A) (HE : E - A <= INT_MAX).

Section step.
Context (p : Z) (Hp : A <= p < E).

Ltac pp_body :=
  match goal with
  | H : body_ok ?A ?q _ |- body_ok ?A ?q _ =>
      first [ exact H
            | destruct H; constructor; cbn;
              [done..| first [done | to_str | case_match; [to_str|done]]
               | apply Forall_app_2; [done|apply Forall_singleton; split; cbn; to_str]] ]
  end.
Ltac pp_shape :=
  unfold shaped; cbn;
  first [ done
        | eexists; split; [reflexivity|]; split; cbn; to_str
        | split; [done|]; eexists; split; [reflexivity|]; split; cbn; to_str
        | split; [done|]; eapply shape_mono; [|done]; lia
        | match goal with H : can_fold ?q = true |- _ =>
            destruct q; try discriminate H; (eapply shape_mono; [|eassumption]; lia) end ].
Ltac pp_case :=
  match goal with
  | |- pout_ok _ _ (PGo _ _) => split; [cbn; pp_body|split; [pp_shape|cbn; done]]
  | |- pout_ok _ _ (PErr _) => split; [cbn; pp_body|done]
  | |- pout_ok _ _ (PEnd _) =>
      split_and!; [cbn; pp_body|cbn; intros ? ?; simplify_eq; first [split; cbn; to_str | eapply shape_param; eassumption]
        |done|cbn; first [done|by match goal with H : can_fold ?q = true |- _ => destruct q end]]
  end.
Ltac pp_run :=
  repeat (cbn [pp_st pp_saved pp_param pp_body pp_al pp_with pp_save tp_tag to_tag name_len name_at value_len value_at];
    lazymatch goal with
    | |- pout_ok _ _ (match ?b with _ => _ end) => destruct b eqn:?
    | |- pout_ok _ _ (?f _ _ _ _ _) => unfold f
    | |- pout_ok _ _ (?f _ _ _ _) => unfold f
    | |- pout_ok _ _ (?f _ _ _) => unfold f
    | |- pout_ok _ _ (?f _ _) => unfold f
    | |- pout_ok _ _ (?f _) => unfold f
    end);
  cbn [pp_st pp_saved pp_param pp_body pp_al pp_with pp_save].

Lemma pp_step_ok multi c c1 x : pinv A p x → pout_ok A p (pp_step multi c c1 p E x).
Proof.
  destruct x as [st sv o b al]. intros (Hb & Hs & Hsv). unfold shaped in Hs. cbn in Hb, Hs, Hsv.
  assert (Hb' : body_ok A (p + 1) b) by (eapply body_ok_mono; [|done]; lia).
  unfold pp_step.
  destruct st; cbn in Hs; try done; try (destruct Hs as (t & -> & Hn & Hv)); try subst o; try (destruct Hs as [Hf Hs]);
    pp_run; try discriminate; try pp_case.
Qed.

End step.

Section result.
Context (p : Z) (Hp : p <= E).

(** The end of the parameters. *)
Definition presult_ok (r : pp_result) : Prop :=
  match r with
  | PResult tmp st b al => p <= tmp <= E ∧ body_ok A tmp b ∧ ends_body st = false
  | _ => False
  end.

Lemma pp_end_ok x : pout_ok A p (PEnd x) → presult_ok (pp_end p x).
Proof.
  intros (Hb & Ht & Hsv & Hst). unfold pp_end, pp_error. destruct (pp_param x) as [t|].
  - specialize (Ht t eq_refl). case_decide; [|cbn; split; [lia|]; split; [done|by destruct (pp_saved x)]].
    destruct (tp_tag t); cbn; (split; [lia|]); (split; [|done]); destruct Hb; constructor; cbn; try done.
    apply Forall_app_2; [done|]. apply Forall_singleton. split; [apply Ht|by left].
  - cbn. split; [lia|]. split; [done|by destruct (pp_saved x)].
Qed.

Lemma pp_error_ok x : pout_ok A p (PErr x) → presult_ok (pp_error p x).
Proof. intros [[] ?]. split; [lia|]. split; [|done]. by constructor. Qed.
End result.

Lemma presult_mono p p' r : p <= p' → presult_ok p' r → presult_ok p r.
Proof. intros Hp. destruct r; cbn; [|done..]. intros (H1 & H2 & H3). split; [lia|done]. Qed.

(** A skipped character is before the end. *)
Lemma pp_step_skip multi c c1 p x y : pp_step multi c c1 p E x = PGo true y → p + 1 ≠ E.
Proof.
  pp_unfold.
  repeat case_match; intros [=]; subst; zbool; done.
Qed.

Lemma pp_loop_ok mem multi n : ∀ p x, A <= p <= E → (dist p E <= n)%nat → pinv A p x →
  presult_ok p (pp_loop mem n multi p E x).
Proof.
  induction n as [|n IH]; intros p x Hp Hn Hx; cbn [pp_loop]; destruct (Z.ltb_spec p E) as [Hlt|Hge];
    [unfold dist in Hn; lia| | |].
  2: { pose proof (pp_step_ok p ltac:(lia) multi (mem p) (mem (p + 1)) x Hx) as Hs.
       destruct (pp_step _ _ _ _ _ _) as [skip y|y|y|] eqn:Hstep; [|apply pp_end_ok; [lia|done]|apply pp_error_ok; [lia|done]|done].
       destruct skip.
       - apply pp_step_skip in Hstep. apply (presult_mono p (p + 2)); [lia|]. apply IH; [lia|unfold dist in *; lia|].
         eapply pinv_mono; [|exact Hs]. lia.
       - apply (presult_mono p (p + 1)); [lia|]. apply IH; [lia|unfold dist in *; lia|done]. }
  all: pose proof (pinv_ends A p x Hx) as He; destruct Hx as (Hb & Hs & Hv); case_decide;
    [apply pp_error_ok; [lia|done]|apply pp_end_ok; [lia|]; split_and!; try done; intros t Ht; by eapply shaped_param].
Qed.
End params.

(** ** Allocations *)

Lemma pkg_alloc_nil ok al : pkg_alloc [] = (ok, al) → ok = true ∧ al = [].
Proof. by intros [= <- <-]. Qed.

Definition pout_al (o : pp_out) : list bool :=
  match o with PGo _ x | PEnd x | PErr x => pp_al x | PFault => [] end.

Lemma pp_step_al multi c c1 p e x : pp_al x = [] → pout_al (pp_step multi c c1 p e x) = [].
Proof.
  intros Hal. pp_unfold.
  destruct x as [st sv o b al]. cbn in Hal. subst al. cbn [pp_al pkg_alloc].
  repeat case_match; try done; simplify_eq/=; done.
Qed.

Lemma pp_loop_al mem multi e n : ∀ p x, pp_al x = [] →
  match pp_loop mem n multi p e x with PResult _ _ _ al => al = [] | _ => True end.
Proof.
  assert (Hend : ∀ p x, pp_al x = [] → match pp_end p x with PResult _ _ _ al => al = [] | _ => True end).
  { intros p x Hx. unfold pp_end, pp_error. repeat case_match; simplify_eq/=; done. }
  induction n as [|n IH]; intros p x Hx; cbn [pp_loop]; destruct (p <? e);
    [done|case_decide; [done|by apply Hend]| |case_decide; [done|by apply Hend]].
  pose proof (pp_step_al multi (mem p) (mem (p + 1)) p e x Hx) as Hal.
  destruct (pp_step _ _ _ _ _ _); cbn in Hal; [by apply IH|by apply Hend|done|done].
Qed.
