(* ===== verification/ToBounds.v ===== *)
(** * ToBounds: the strings of an address header lie in its text (parser/parse_to.c)

    The invariant of [_parse_to] over the one of its parameters: which strings of the current
    body are set in each status.  Lemmas on the results of [_parse_to] as a whole. *)

From stdpp Require Import prelude list strings.
From Stdlib Require Import ZArith Lia Ascii.
From S2P Require Import Prelude CString UriParser UriFacts HdrNames HdrBodies ToParser ToFacts.

(** ** The bodies *)

(** What a status knows of the current body. *)
Definition tshape (A p : Z) (q : to_status) (mark : Z) (b : to_body) : Prop :=
  match q with
  | START_TO => b = to_zero
  | DISPLAY_QUOTED => begun A p (tb_body b) ∧ begun A p (tb_display b) ∧ str_len (tb_uri b) = 0
  | E_DISPLAY_QUOTED | S_URI_ENCLOSED => begun A p (tb_body b) ∧ inb A p (tb_display b) ∧ str_len (tb_uri b) = 0
  | URI_ENCLOSED => begun A p (tb_body b) ∧ inb A p (tb_display b) ∧ begun A p (tb_uri b)
  | E_URI_ENCLOSED | END => begun A p (tb_body b) ∧ inb A p (tb_display b) ∧ inb A p (tb_uri b)
  | URI_OR_TOKEN | DISPLAY_TOKEN => begun A p (tb_body b) ∧ begun A p (tb_display b) ∧ begun A p (tb_uri b)
  | MAYBE_URI_END | DISPLAY_TOKEN2 =>
      begun A p (tb_body b) ∧ begun A mark (tb_display b) ∧ begun A mark (tb_uri b) ∧ mark <= p
  | _ => False
  end.

Definition tfold (q : to_status) : bool :=
  match q with MAYBE_URI_END | DISPLAY_TOKEN | DISPLAY_TOKEN2 | E_DISPLAY_QUOTED | END => true | _ => false end.

Definition tshaped (A p : Z) (x : pt) : Prop :=
  if is_fold (t_st x) then tfold (t_saved x) = true ∧ tshape A p (t_saved x) (t_mark x) (t_cur x)
  else tshape A p (t_st x) (t_mark x) (t_cur x).

Record tinv (A p : Z) (x : pt) : Prop := {
  ti_done : Forall (body_ok A p) (t_done x);
  ti_cur : body_ok A p (t_cur x);
  ti_shape : tshaped A p x;
  ti_start : t_st x = START_TO ∨ t_st x = DISPLAY_QUOTED → t_saved x = START_TO;
}.

(** What [endofheader] relies on. *)
Record tend (A p : Z) (x : pt) : Prop := {
  te_done : Forall (body_ok A p) (t_done x);
  te_cur : body_ok A p (t_cur x);
  te_shape : ends_body (t_saved x) = true → tshape A p (t_saved x) (t_mark x) (t_cur x);
}.

Section bodies.
Context (mem : Z → byte) (A E : Z) (HA : 0 < A) (HE : E - A <= INT_MAX).

Lemma tshape_mono p p' q m b : p <= p' → tshape A p q m b → tshape A p' q m b.
Proof.
  intros Hp. destruct q; cbn; intuition eauto using begun_mono, inb_mono with lia.
Qed.

Lemma bodies_mono p p' l : p <= p' → Forall (body_ok A p) l → Forall (body_ok A p') l.
Proof. intros Hp Hl. eapply Forall_impl; [done|]. intros b. by apply body_ok_mono. Qed.

Lemma t_end_ok p x : p <= E → tend A p x →
  match t_end p x with TrOk tmp l => tmp = p ∧ Forall (body_ok A p) l ∧ l ≠ [] | TrError => True | _ => False end.
Proof.
  intros Hp [Hd Hc Hs]. unfold t_end.
  set (b := if _ =? 0 then _ else _).
  assert (Hb : body_ok A p b).
  { unfold b. destruct (Z.eqb_spec (str_len (tb_display (t_cur x))) 0) as [->|]; [|done].
    destruct Hc. constructor; cbn; try done. by left. }
  assert (Hsame : tb_body b = tb_body (t_cur x) ∧ tb_uri b = tb_uri (t_cur x)) by (unfold b; by destruct (_ =? 0)).
  destruct Hsame as [E1 E2]. clearbody b.
  destruct (t_saved x); try done; cbn in Hs; (split; [done|]); (split; [|by destruct (t_done x)]);
    (apply Forall_app_2; [done|]); apply Forall_singleton; try done.
  - destruct (Hs eq_refl) as ((Hb1 & Hb2) & _ & (Hu1 & Hu2) & Hm). destruct Hb. constructor; cbn; try done.
    + rewrite E1. eapply upto_inb; [done|lia..].
    + rewrite E2. eapply upto_inb; [done|lia..].
  - destruct (Hs eq_refl) as ((Hb1 & Hb2) & _). destruct Hb. constructor; cbn; try done.
    rewrite E1. eapply upto_inb; [done|lia..].
Qed.

Section step.
Context (p : Z) (Hp : A <= p < E).

Definition tout_ok (multi : bool) (o : pt_out) : Prop :=
  match o with
  | TGo tmp x => p <= tmp ∧ tinv A (tmp + 1) x
  | TAt tmp x => p <= tmp <= E ∧ tend A tmp x
  | TErr _ => True
  | TFault | TStuck => False
  end.

Lemma next_body_ok multi tmp x : p <= tmp → Forall (body_ok A (tmp + 1)) (t_done x) → body_ok A (tmp + 1) (t_cur x) →
  tout_ok multi (next_body tmp x).
Proof.
  intros Htmp Hd Hc. unfold next_body. destruct (pkg_alloc _) as [[|] al]; [|done]. split; [done|].
  constructor; cbn; [by apply Forall_app_2, Forall_singleton|apply to_zero_ok|done|done].
Qed.

Lemma t_params_ok multi x : Forall (body_ok A p) (t_done x) → body_ok A p (t_cur x) → begun A p (tb_body (t_cur x)) →
  tout_ok multi (t_params mem multi p E x).
Proof.
  intros Hd Hc Hb. unfold t_params. set (y := t_body x (body_upto p)).
  assert (Hy : body_ok A p (t_cur y)).
  { destruct Hb, Hc. constructor; cbn; try done. eapply upto_inb; [done|lia..]. }
  pose proof (pp_loop_ok A E HE mem multi (dist p E) p (PP E_PARA_VALUE E_PARA_VALUE None (t_cur y) (t_al y))
    ltac:(lia) ltac:(done)) as Hl.
  unfold parse_to_param. destruct (pp_loop _ _ _ _ _ _) as [tmp st b al| |].
  2, 3: destruct Hl; by split; [|split].
  destruct Hl as (Ht & Hbok & Hst); [by split; [|split]|].
  destruct (_ && _).
  - apply next_body_ok; cbn; [lia| |].
    + eapply bodies_mono; [|done]. lia.
    + eapply body_ok_mono; [|done]. lia.
  - split; [lia|]. constructor; cbn; [eapply bodies_mono; [|done]; lia|done|by rewrite Hst].
Qed.

Lemma quoted_inb s : A <= str_s s <= p → inb A (p + 1) (Str (str_s s) (i32 (p - str_s s + 1))).
Proof.
  intros Hs. replace (p - str_s s + 1) with (p + 1 - str_s s) by lia. apply (inb_str_to A E HE); lia.
Qed.

Ltac t_cbn := cbn [tb_body tb_uri tb_display tb_tag_value tb_params tb_error set_body set_uri set_display body_at body_upto uri_upto display_upto t_st t_saved t_mark t_done t_cur t_al t_with t_save t_end_mark t_body] in *.
Ltac t_str :=
  repeat match goal with H : begun _ _ _ |- _ => destruct H as [? ?] end;
  first [ done | cbn in *; lia | left; done | split; cbn in *; lia | apply quoted_inb; cbn in *; lia | eapply upto_inb; [eassumption|cbn in *; lia..] | right; cbn in *; lia
        | eapply inb_mono; [|eassumption]; lia ].
Ltac t_body_ok :=
  match goal with
  | H : body_ok ?A ?q _ |- body_ok ?A ?q _ =>
      first [ exact H | destruct H; constructor; t_cbn; t_str ]
  end.
Ltac t_shape :=
  unfold tshaped; cbn [is_fold tfold tshape]; t_cbn; cbn [is_fold tfold tshape];
  first [ done
        | by match goal with H : tfold ?q = true |- _ =>
            destruct q; try discriminate H; (eapply tshape_mono; [|eassumption]; lia) end
        | split; [done|]; eapply tshape_mono; [|eassumption]; lia
        | split_and!; t_str
        | split_and!; [done|t_str..] ].
Ltac t_go := split; [lia|]; constructor; cbn [t_st t_saved t_mark t_done t_cur t_al t_with t_save t_end_mark t_body];
  [ first [assumption | eapply bodies_mono; [|eassumption]; lia]
  | t_cbn; first [t_body_ok | eapply body_ok_mono; [|eassumption]; lia]
  | t_shape
  | first [ by intros [? | ?] | by intros _; auto | match goal with H : tfold ?q = true |- _ => by destruct q; intros [?|?] end ] ].

Ltac t_at := split; [lia|]; constructor; t_cbn; [assumption|t_body_ok|];
  intros _; first [ assumption | cbn [tshape]; t_cbn; split_and!; t_str ].

Lemma t_step_ok multi c x : tinv A p x → tout_ok multi (t_step mem multi c p E x).
Proof.
  destruct x as [st sv mark done cur al]. intros [Hd Hc Hs Hst]. unfold tshaped in Hs. cbn in Hd, Hc, Hs, Hst.
  assert (Hc' : body_ok A (p + 1) cur) by (eapply body_ok_mono; [|done]; lia).
  assert (Hd' : Forall (body_ok A (p + 1)) done) by (eapply bodies_mono; [|done]; lia).
  unfold t_step, t_newline.
  destruct st; cbn in Hs; try done; try subst cur; repeat match type of Hs with _ ∧ _ => let H := fresh "Hs" in destruct Hs as [H Hs] end;
    cbn [t_st t_saved t_mark t_done t_cur t_al].
  all: repeat lazymatch goal with |- tout_ok _ (match ?b with _ => _ end) => destruct b eqn:? end.
  all: try exact I.
  all: lazymatch goal with
    | |- tout_ok _ (TGo _ _) => t_go
    | |- tout_ok _ (TAt _ _) => t_at
    | |- tout_ok _ (next_body _ _) => apply next_body_ok; t_cbn; [lia|assumption|t_body_ok]
    | |- tout_ok _ (t_params _ _ _ _ _) => apply t_params_ok; t_cbn; [assumption|t_body_ok|t_str]
    end.
Qed.
End step.


(** The loop: a body that ends before the end of the text, or a text that ends with a line. *)
Definition tresult_ok (p0 : Z) (eol : bool) (r : to_result) : Prop :=
  match r with
  | TrOk tmp l => p0 < tmp <= E ∧ l ≠ [] ∧ (tmp < E ∨ eol = true → Forall (body_ok A tmp) l)
  | TrError => True
  | _ => False
  end.

(** The character before a place in the text explains the status there. *)
Definition tback (p : Z) (x : pt) : Prop :=
  is_fold (t_st x) = true ∨ t_st x = DISPLAY_QUOTED ∨ t_st x = START_TO ∨ is_eol (mem (p - 1)) = false.

Lemma t_step_back multi p x tmp y : p < E → t_step mem multi (mem p) p E x = TGo tmp y →
  tback (tmp + 1) y ∧ (E < tmp + 1 → t_st y = DISPLAY_QUOTED ∨ t_st y = START_TO).
Proof.
  intros Hp. unfold tback.
  assert (Hnext : ∀ tmp' z, next_body tmp' z = TGo tmp y → t_st y = START_TO).
  { intros tmp' z. unfold next_body. destruct (pkg_alloc _) as [[|] ?]; [|done]. by intros [= _ <-]. }
  assert (Hpar : ∀ z, t_params mem multi p E z = TGo tmp y → t_st y = START_TO).
  { intros z. unfold t_params. destruct (parse_to_param _ _ _ _ _ _); [|done..]. destruct (_ && _); [apply Hnext|done]. }
  assert (Hstay : tmp = p → is_fold (t_st y) = true ∨ is_eol (mem p) = false →
    (is_fold (t_st y) = true ∨ t_st y = DISPLAY_QUOTED ∨ t_st y = START_TO ∨ is_eol (mem (tmp + 1 - 1)) = false) ∧
    (E < tmp + 1 → t_st y = DISPLAY_QUOTED ∨ t_st y = START_TO)).
  { intros -> Hf. split; [|lia]. replace (p + 1 - 1) with p by lia. destruct Hf as [Hf|Hf]; auto. }
  assert (Heol : is_eol (mem p) = (mem p =? 10) || (mem p =? 13)) by done.
  unfold t_step, t_newline.
  destruct ((mem p =? 32) || (mem p =? 9)) eqn:Hws.
  { assert (is_eol (mem p) = false) by (rewrite Heol; lia). destruct (t_st x); intros [= <- <-]; by apply Hstay; [|right]. }
  destruct (mem p =? 10).
  { destruct (t_st x); try done; intros [= <- <-]; apply Hstay; (done || by left). }
  destruct (mem p =? 13).
  { destruct (t_st x); try done; intros [= <- <-]; apply Hstay; (done || by left). }
  repeat case_match; try done; intros Hgo;
    first [ apply Hnext in Hgo as Hst; by auto | apply Hpar in Hgo as Hst; by auto
          | injection Hgo as <- <-; first [by apply Hstay; [|right] | auto] ].
Qed.

Lemma t_step_start multi p x tmp y : t_st x = START_TO → t_step mem multi (mem p) p E x ≠ TAt tmp y.
Proof. intros Hst. unfold t_step, t_newline. rewrite Hst. by repeat case_match. Qed.

Lemma t_end_start p x : t_saved x = START_TO → t_end p x = TrError.
Proof. intros Hs. unfold t_end. by rewrite Hs. Qed.

Lemma t_end_some p x tmp l : t_end p x = TrOk tmp l → tmp = p ∧ l ≠ [].
Proof. unfold t_end. destruct (t_saved x); try done; intros [= <- <-]; (split; [done|]); by destruct (t_done x). Qed.

Lemma t_loop_ok multi p0 n : ∀ p x, A <= p → (dist p E <= n)%nat → tinv A p x → tback p x →
  (E < p → t_st x = DISPLAY_QUOTED ∨ t_st x = START_TO) → p0 < p ∨ p = p0 ∧ t_st x = START_TO →
  tresult_ok p0 (is_eol (mem (E - 1))) (t_loop mem n multi p E x).1.
Proof.
  assert (Hstop : ∀ p x, E <= p → tinv A p x → tback p x →
    (E < p → t_st x = DISPLAY_QUOTED ∨ t_st x = START_TO) → p0 < p ∨ p = p0 ∧ t_st x = START_TO →
    tresult_ok p0 (is_eol (mem (E - 1))) (t_end p x)).
  { intros p x Hge [Hd Hc Hs Hst] Hback Hout Hp0.
    destruct (decide (t_st x = DISPLAY_QUOTED ∨ t_st x = START_TO)) as [Hq|Hq].
    { rewrite t_end_start; [done|]. apply Hst. tauto. }
    assert (p = E) as -> by (destruct (decide (E < p)); [tauto|lia]).
    destruct (is_fold (t_st x)) eqn:Hf.
    - unfold tshaped in Hs. rewrite Hf in Hs. destruct Hs as [_ Hs].
      pose proof (t_end_ok E x ltac:(lia) ltac:(constructor; try done; by intros _)) as Hend.
      destruct (t_end E x); [|done..]. destruct Hend as (-> & ? & ?). cbn. split; [|by split]. destruct Hp0 as [|[? ?]]; [lia|tauto].
    - destruct Hback as [?|[?|[?|Heol]]]; [congruence|tauto..|]. destruct (t_end E x) as [tmp l| | |] eqn:Hend; [|done|..];
        [|unfold t_end in Hend; by destruct (t_saved x)..].
      apply t_end_some in Hend as [-> Hl]. split; [destruct Hp0 as [|[? ?]]; [lia|tauto]|]. split; [done|].
      rewrite Heol. intros [?|?]; [lia|done]. }
  induction n as [|n IH]; intros p x Hp Hn Hx Hback Hout Hp0; cbn [t_loop]; destruct (Z.ltb_spec p E) as [Hlt|Hge];
    [unfold dist in Hn; lia|by apply Hstop| |by apply Hstop].
  pose proof (t_step_ok p ltac:(lia) multi (mem p) x Hx) as Hok.
  destruct (t_step _ _ _ _ _ _) as [tmp y|tmp y|al| |] eqn:Hstep; [| |done..].
  - destruct Hok as [Htmp Hy]. destruct (t_step_back _ _ _ _ _ Hlt Hstep) as [Hb Ho].
    apply IH; try done; [lia|unfold dist in *; lia|]. left. destruct Hp0 as [|[? ?]]; lia.
  - destruct Hok as [Htmp Hy]. cbn [fst]. pose proof (t_end_ok tmp y ltac:(lia) Hy) as Hend.
    destruct Hp0 as [Hp0|[_ Hst]]; [|by apply (t_step_start multi p x tmp y) in Hst].
    destruct (t_end tmp y); [|done..]. destruct Hend as (-> & ? & ?). split; [lia|]. by split.
Qed.
End bodies.

(** ** The parser as a whole *)

(** [_parse_to] always returns; when it accepts, it has passed at least one character and the
    strings of every body lie in what it read, provided the header ends before the end of the
    text or the text ends with a line. *)
Lemma parse_to_bounds mem multi al buffer end_ : 0 < buffer → end_ - buffer <= INT_MAX →
  tresult_ok buffer end_ buffer (is_eol (mem (end_ - 1))) (_parse_to mem multi al buffer end_).1.
Proof.
  intros HA HE. unfold _parse_to. apply t_loop_ok; try done.
  - constructor; cbn; [apply Forall_nil_2|apply to_zero_ok|done|done].
  - by right; right; left.
  - by right.
  - by right.
Qed.

(** ** Allocations *)

Definition tout_al (x : pt) (o : pt_out) : list bool :=
  match o with TGo _ x | TAt _ x => t_al x | TErr al => al | _ => t_al x end.

Lemma t_step_al mem multi c p e x : t_al x = [] → tout_al x (t_step mem multi c p e x) = [].
Proof.
  intros Hal.
  assert (Hnext : ∀ tmp z, t_al z = [] → tout_al x (next_body tmp z) = []).
  { intros tmp z Hz. unfold next_body. by rewrite Hz. }
  assert (Hpar : ∀ z, t_al z = [] → tout_al x (t_params mem multi p e z) = []).
  { intros z Hz. unfold t_params, parse_to_param.
    pose proof (pp_loop_al mem multi e (dist p e) p
      (PP E_PARA_VALUE E_PARA_VALUE None (t_cur (t_body z (body_upto p))) (t_al (t_body z (body_upto p)))) Hz) as Hl.
    destruct (pp_loop _ _ _ _ _ _); [|done..]. destruct (_ && _); [by apply Hnext|done]. }
  unfold t_step, t_newline. repeat case_match; first [done | by apply Hnext | by apply Hpar].
Qed.

Lemma t_loop_al mem multi e n : ∀ p x, t_al x = [] → (t_loop mem n multi p e x).2 = [].
Proof.
  induction n as [|n IH]; intros p x Hx; cbn [t_loop]; destruct (p <? e); try done.
  pose proof (t_step_al mem multi (mem p) p e x Hx) as Hal. destruct (t_step _ _ _ _ _ _); cbn in *; by try apply IH.
Qed.
