(* ===== verification/ViaParser.v ===== *)
(** * ViaParser: the parser of Via headers (parser/parse_via.c)

    [parse_via] reads the body of a Via header: protocol, version, transport, host, port,
    parameters and comment, for each of the bodies separated by commas.  It has four
    loops: the protocol ([w_step]), the rest of a body ([v_step]), and in
    [parse_via_param] the name ([n_step]) and the value ([f_step]) of a parameter.  A
    pointer is its address and [NULL] is 0. *)

From stdpp Require Import prelude list strings.
From Stdlib Require Import ZArith Lia Ascii.
From S2P Require Import Prelude CString UriParser Numbers HdrNames HdrBodies ToParser.

(** ** States *)

Inductive via_state :=
  | F_HOST | P_HOST | L_PORT | F_PORT | P_PORT | L_PARAM | F_PARAM | P_PARAM
  | L_VIA | F_VIA | F_COMMENT | P_COMMENT | F_IP6HOST | P_IP6HOST
  | F_CRLF | F_LF | F_CR | END_OF_HEADER
  | F_SIP | SIP1 | SIP2 | FIN_SIP | L_VER | F_VER | VER1 | VER2 | FIN_VER
  | UDP1 | UDP2 | FIN_UDP | TCP_TLS1 | TCP2 | FIN_TCP | TLS2 | FIN_TLS
  | SCTP1 | SCTP2 | SCTP3 | FIN_SCTP | WS1 | WS_WSS | FIN_WS | FIN_WSS
  | OTHER_PROTO | L_PROTO | F_PROTO
  | L_VALUE | F_VALUE | P_VALUE | P_STRING
  | HIDDEN1 | HIDDEN2 | HIDDEN3 | HIDDEN4 | HIDDEN5 | TTL1 | TTL2
  | BRANCH1 | BRANCH2 | BRANCH3 | BRANCH4 | BRANCH5
  | MADDR1 | MADDR2 | MADDR3 | MADDR4
  | RECEIVED1 | RECEIVED2 | RECEIVED3 | RECEIVED4 | RECEIVED5 | RECEIVED6 | RECEIVED7
  | RPORT1 | RPORT2 | RPORT3 | ALIAS1 | ALIAS2 | ALIAS3 | ALIAS4
  | FIN_HIDDEN | FIN_TTL | FIN_BRANCH | FIN_MADDR | FIN_RECEIVED | FIN_RPORT | FIN_I | FIN_ALIAS
  | GEN_PARAM | PARAM_ERROR.
#[export] Instance via_state_eq_dec : EqDecision via_state.
Proof. solve_decision. Defined.

(** The types of the parameters are the final states of their names, with the same
    codes. *)
Abbreviation PARAM_HIDDEN := FIN_HIDDEN.
Abbreviation PARAM_TTL := FIN_TTL.
Abbreviation PARAM_BRANCH := FIN_BRANCH.
Abbreviation PARAM_MADDR := FIN_MADDR.
Abbreviation PARAM_RECEIVED := FIN_RECEIVED.
Abbreviation PARAM_RPORT := FIN_RPORT.
Abbreviation PARAM_I := FIN_I.
Abbreviation PARAM_ALIAS := FIN_ALIAS.

(** [struct via_param] *)
Record via_param := ViaParam {
  vp_type : via_state;
  vp_name : str;
  vp_value : str;
  vp_start : Z;
  vp_size : Z
}.

Definition vp_set_type (q : via_state) (p : via_param) :=
  ViaParam q (vp_name p) (vp_value p) (vp_start p) (vp_size p).
Definition vp_name_at (a : Z) (p : via_param) :=
  ViaParam (vp_type p) (at_ (vp_name p) a) (vp_value p) (vp_start p) (vp_size p).
Definition vp_name_upto (a : Z) (p : via_param) :=
  ViaParam (vp_type p) (upto (vp_name p) a) (vp_value p) (vp_start p) (vp_size p).
Definition vp_set_value (v : str) (p : via_param) :=
  ViaParam (vp_type p) (vp_name p) v (vp_start p) (vp_size p).
Definition vp_value_upto (a : Z) (p : via_param) := vp_set_value (upto (vp_value p) a) p.
Definition vp_size_upto (a : Z) (p : via_param) :=
  ViaParam (vp_type p) (vp_name p) (vp_value p) (vp_start p) (i32 (a - vp_start p)).

(** ** Parameters *)

(** The states and the parameter [parse_via_param] works on. *)
Record np := NP { n_st : via_state; n_saved : via_state; n_param : via_param }.

Inductive n_out :=
  | NGo (x : np)        (** the next character *)
  | NFind (x : np)      (** [find_value] *)
  | NEnd (x : np)       (** [endofparam] and [endofvalue] *)
  | NEndVia (x : np)    (** [end_via] *)
  | NErr.               (** [parse_error] *)

Definition is_crlf (q : via_state) : bool :=
  match q with F_LF | F_CR | F_CRLF => true | _ => false end.

Definition n_goto (q : via_state) (x : np) : np := NP q (n_saved x) (n_param x).
Definition n_save (q : via_state) (x : np) : np := NP (n_st x) q (n_param x).
Definition n_map (f : via_param → via_param) (x : np) : np := NP (n_st x) (n_saved x) (f (n_param x)).
Definition n_header_end (x : np) : n_out := NEndVia (n_goto END_OF_HEADER x).

(** The end of a name at [tmp]: its type is the state, or [GEN_PARAM]. *)
Definition n_named (ty : via_state) (tmp : Z) : np → np :=
  n_map (λ p, vp_name_upto tmp (vp_set_type ty p)).
Definition n_sized (tmp : Z) : np → np := n_map (vp_size_upto tmp).

(** The letters of the known names: the state after the first letter of a name, and
    after a letter inside it. *)
Definition name_first (c : byte) : via_state :=
  let c := tolower c in
  if c =? chr "h" then HIDDEN1 else if c =? chr "i" then FIN_I
  else if c =? chr "t" then TTL1 else if c =? chr "m" then MADDR1
  else if c =? chr "a" then ALIAS1 else if c =? chr "r" then RECEIVED1
  else if c =? chr "b" then BRANCH1 else GEN_PARAM.

Definition name_next (c : byte) (q : via_state) : via_state :=
  let c := tolower c in
  if c =? chr "h" then match q with BRANCH5 => FIN_BRANCH | _ => GEN_PARAM end
  else if c =? chr "i" then
    match q with HIDDEN1 => HIDDEN2 | RECEIVED4 => RECEIVED5 | ALIAS2 => ALIAS3 | _ => GEN_PARAM end
  else if c =? chr "d" then
    match q with
    | HIDDEN2 => HIDDEN3 | HIDDEN3 => HIDDEN4 | MADDR2 => MADDR3 | MADDR3 => MADDR4
    | RECEIVED7 => FIN_RECEIVED | _ => GEN_PARAM
    end
  else if c =? chr "e" then
    match q with
    | HIDDEN4 => HIDDEN5 | RECEIVED1 => RECEIVED2 | RECEIVED3 => RECEIVED4
    | RECEIVED6 => RECEIVED7 | _ => GEN_PARAM
    end
  else if c =? chr "n" then match q with HIDDEN5 => FIN_HIDDEN | BRANCH3 => BRANCH4 | _ => GEN_PARAM end
  else if c =? chr "t" then match q with TTL1 => TTL2 | RPORT3 => FIN_RPORT | _ => GEN_PARAM end
  else if c =? chr "l" then match q with TTL2 => FIN_TTL | ALIAS1 => ALIAS2 | _ => GEN_PARAM end
  else if c =? chr "a" then
    match q with MADDR1 => MADDR2 | BRANCH2 => BRANCH3 | ALIAS3 => ALIAS4 | _ => GEN_PARAM end
  else if c =? chr "r" then
    match q with MADDR4 => FIN_MADDR | BRANCH1 => BRANCH2 | RPORT2 => RPORT3 | _ => GEN_PARAM end
  else if c =? chr "c" then match q with RECEIVED2 => RECEIVED3 | BRANCH4 => BRANCH5 | _ => GEN_PARAM end
  else if c =? chr "v" then match q with RECEIVED5 => RECEIVED6 | _ => GEN_PARAM end
  else if c =? chr "p" then match q with RECEIVED1 => RPORT1 | _ => GEN_PARAM end
  else if c =? chr "o" then match q with RPORT1 => RPORT2 | _ => GEN_PARAM end
  else if c =? chr "s" then match q with ALIAS4 => FIN_ALIAS | _ => GEN_PARAM end
  else GEN_PARAM.

(** The loop over the name. *)
Definition n_step (c : byte) (tmp : Z) (x : np) : n_out :=
  if (c =? 32) || (c =? 9) then
    match n_st x with
    | FIN_HIDDEN | FIN_ALIAS => NEnd (n_goto L_PARAM (n_named (n_st x) tmp x))
    | FIN_BRANCH | FIN_TTL | FIN_MADDR | FIN_RECEIVED | FIN_RPORT | FIN_I =>
        NFind (n_goto L_VALUE (n_named (n_st x) tmp x))
    | F_PARAM => NGo x
    | F_LF | F_CR | F_CRLF => NGo (n_goto (n_saved x) x)
    | _ => NFind (n_goto L_VALUE (n_named GEN_PARAM tmp x))
    end
  else if c =? 10 then
    match n_st x with
    | FIN_HIDDEN | FIN_ALIAS => NEnd (n_goto F_LF (n_save L_PARAM (n_sized tmp (n_named (n_st x) tmp x))))
    | FIN_BRANCH | FIN_TTL | FIN_MADDR | FIN_RECEIVED | FIN_RPORT | FIN_I =>
        NFind (n_goto F_LF (n_save L_VALUE (n_sized tmp (n_named (n_st x) tmp x))))
    | F_PARAM => NGo (n_goto F_LF (n_save (n_st x) x))
    | F_LF | F_CRLF => n_header_end x
    | F_CR => NGo (n_goto F_CRLF x)
    | _ => NFind (n_goto F_LF (n_save L_VALUE (n_sized tmp (n_named GEN_PARAM tmp x))))
    end
  else if c =? 13 then
    match n_st x with
    | FIN_HIDDEN | FIN_ALIAS => NEnd (n_goto F_CR (n_save L_PARAM (n_sized tmp (n_named (n_st x) tmp x))))
    | FIN_BRANCH | FIN_TTL | FIN_MADDR | FIN_RECEIVED | FIN_RPORT | FIN_I =>
        NFind (n_goto F_CR (n_save L_VALUE (n_sized tmp (n_named (n_st x) tmp x))))
    | F_PARAM => NGo (n_goto F_CR (n_save (n_st x) x))
    | F_CR | F_CRLF => n_header_end x
    | _ => NFind (n_goto F_CR (n_save L_VALUE (n_sized tmp (n_named GEN_PARAM tmp x))))
    end
  else if c =? chr "=" then
    match n_st x with
    | FIN_BRANCH | FIN_TTL | FIN_MADDR | FIN_RECEIVED | FIN_RPORT | FIN_I =>
        NFind (n_goto F_VALUE (n_named (n_st x) tmp x))
    | F_PARAM | FIN_HIDDEN | FIN_ALIAS => NErr
    | F_CR | F_LF | F_CRLF => n_header_end x
    | _ => NFind (n_goto F_VALUE (n_named GEN_PARAM tmp x))
    end
  else if c =? chr ";" then
    match n_st x with
    | FIN_HIDDEN | FIN_RPORT | FIN_ALIAS => NEnd (n_goto F_PARAM (n_named (n_st x) tmp x))
    | FIN_BRANCH | FIN_MADDR | FIN_TTL | FIN_RECEIVED | FIN_I => NErr
    | F_CR | F_LF | F_CRLF => n_header_end x
    | _ => NEnd (n_goto F_PARAM (n_named GEN_PARAM tmp x))
    end
  else if c =? chr "," then
    match n_st x with
    | FIN_HIDDEN | FIN_RPORT | FIN_ALIAS => NEnd (n_goto F_VIA (n_named (n_st x) tmp x))
    | FIN_BRANCH | FIN_MADDR | FIN_TTL | FIN_RECEIVED | FIN_I => NErr
    | F_CR | F_LF | F_CRLF => n_header_end x
    | _ => NEnd (n_goto F_VIA (n_named GEN_PARAM tmp x))
    end
  else
    match n_st x with
    | F_PARAM => NGo (n_goto (name_first c) (n_map (vp_name_at tmp) x))
    | F_CR | F_LF | F_CRLF => n_header_end x
    | q => NGo (n_goto (name_next c q) x)
    end.

(** The loop over the value. *)
Definition f_step (c : byte) (tmp : Z) (x : np) : n_out :=
  if (c =? 32) || (c =? 9) then
    match n_st x with
    | L_VALUE | F_VALUE | P_STRING => NGo x
    | P_VALUE => NEnd (n_goto L_PARAM (n_map (vp_value_upto tmp) x))
    | F_CR | F_LF | F_CRLF => NGo (n_goto (n_saved x) x)
    | _ => NErr
    end
  else if c =? 10 then
    match n_st x with
    | L_VALUE | F_VALUE | P_STRING => NGo (n_goto F_LF (n_sized tmp (n_save (n_st x) x)))
    | P_VALUE => NEnd (n_goto F_LF (n_save L_PARAM (n_map (vp_value_upto tmp) x)))
    | F_LF | F_CRLF => n_header_end x
    | F_CR => NGo (n_goto F_CRLF x)
    | _ => NErr
    end
  else if c =? 13 then
    match n_st x with
    | L_VALUE | F_VALUE | P_STRING => NGo (n_goto F_CR (n_sized tmp (n_save (n_st x) x)))
    | P_VALUE => NEnd (n_goto F_CR (n_save L_PARAM (n_map (vp_value_upto tmp) x)))
    | F_LF | F_CR | F_CRLF => n_header_end x
    | _ => NErr
    end
  else if c =? chr "=" then
    match n_st x with
    | L_VALUE => NGo (n_goto F_VALUE x)
    | P_STRING => NGo x
    | F_LF | F_CR | F_CRLF => n_header_end x
    | _ => NErr
    end
  else if c =? chr ";" then
    match n_st x with
    | P_VALUE => NEnd (n_goto F_PARAM (n_map (vp_value_upto tmp) x))
    | F_VALUE => NEnd (n_goto F_PARAM (n_map (λ p, vp_set_value (Str (str_s (vp_value p)) 0) p) x))
    | P_STRING => NGo x
    | F_LF | F_CR | F_CRLF => n_header_end x
    | L_VALUE =>
        if decide (vp_type (n_param x) = FIN_RPORT)
        then NEnd (n_goto F_PARAM (n_map (vp_set_value str_null) x)) else NErr
    | _ => NErr
    end
  else if c =? chr "," then
    match n_st x with
    | P_VALUE => NEnd (n_goto F_VIA (n_map (vp_value_upto tmp) x))
    | P_STRING | F_LF | F_CR | F_CRLF => n_header_end x
    | L_VALUE =>
        if decide (vp_type (n_param x) = FIN_RPORT)
        then NEnd (n_goto F_VIA (n_map (vp_set_value str_null) x)) else NErr
    | _ => NErr
    end
  else if c =? 34 then
    match n_st x with
    | F_VALUE => NGo (n_goto P_STRING (n_map (λ p, vp_set_value (at_ (vp_value p) (tmp + 1)) p) x))
    | P_STRING => NEnd (n_goto L_PARAM (n_map (vp_value_upto tmp) x))
    | F_LF | F_CR | F_CRLF => n_header_end x
    | _ => NErr
    end
  else if c =? 0 then NGo x
  else
    match n_st x with
    | F_VALUE => NGo (n_goto P_VALUE (n_map (λ p, vp_set_value (at_ (vp_value p) tmp) p) x))
    | P_VALUE | P_STRING => NGo x
    | F_LF | F_CR | F_CRLF => n_header_end x
    | _ => NErr
    end.

(** What [parse_via_param] returns: the pointer with the states and the parameter, or an error. *)
Inductive np_result :=
  | NpOk (tmp : Z) (x : np)
  | NpErr
  | NpStuck.

Definition n_end_via (tmp : Z) (x : np) : np_result :=
  if decide (vp_type (n_param x) = GEN_PARAM ∨ vp_type (n_param x) = PARAM_RPORT)
  then NpOk tmp (n_save L_PARAM x) else NpErr.

Section parse_via.
Context (mem : Z → byte).

Fixpoint f_loop (n : nat) (tmp end_ : Z) (x : np) : np_result :=
  if tmp <? end_ then
    match n with
    | O => NpStuck
    | S n =>
        match f_step (mem tmp) tmp x with
        | NGo x => f_loop n (tmp + 1) end_ x
        | NEnd x => NpOk tmp (n_sized tmp x)
        | NEndVia x => n_end_via tmp x
        | NFind _ | NErr => NpErr
        end
    end
  else NpErr.

Fixpoint n_loop (n : nat) (tmp end_ : Z) (x : np) : np_result :=
  if tmp <? end_ then
    match n with
    | O => NpStuck
    | S n =>
        match n_step (mem tmp) tmp x with
        | NGo x => n_loop n (tmp + 1) end_ x
        | NFind x => f_loop (dist (tmp + 1) end_) (tmp + 1) end_ x
        | NEnd x => NpOk tmp (n_sized tmp x)
        | NEndVia x => n_end_via tmp x
        | NErr => NpErr
        end
    end
  else NpErr.

Definition parse_via_param (p end_ : Z) (state saved_state : via_state) (param : via_param) : np_result :=
  n_loop (dist p end_) p end_ (NP state saved_state (vp_set_type PARAM_ERROR param)).

(** ** Bodies *)

(** [struct via_body]; [vb_next] is in the list of bodies, the members [branch],
    [received], [rport], [i], [alias] and [maddr] are the parameters they point to. *)
Record via_body := ViaBody {
  vb_name : str;
  vb_version : str;
  vb_transport : str;
  vb_host : str;
  vb_proto : Z;
  vb_port : Z;
  vb_port_str : str;
  vb_params : str;
  vb_comment : str;
  vb_bsize : Z;
  vb_param_lst : list via_param;
  vb_hook : via_state → option via_param
}.

Definition via_zero : via_body :=
  ViaBody str_null str_null str_null str_null 0 0 str_null str_null str_null 0 [] (λ _, None).

Definition set_name b x := ViaBody x (vb_version b) (vb_transport b) (vb_host b) (vb_proto b)
  (vb_port b) (vb_port_str b) (vb_params b) (vb_comment b) (vb_bsize b) (vb_param_lst b) (vb_hook b).
Definition set_version b x := ViaBody (vb_name b) x (vb_transport b) (vb_host b) (vb_proto b)
  (vb_port b) (vb_port_str b) (vb_params b) (vb_comment b) (vb_bsize b) (vb_param_lst b) (vb_hook b).
Definition set_transport b x := ViaBody (vb_name b) (vb_version b) x (vb_host b) (vb_proto b)
  (vb_port b) (vb_port_str b) (vb_params b) (vb_comment b) (vb_bsize b) (vb_param_lst b) (vb_hook b).
Definition set_vhost b x := ViaBody (vb_name b) (vb_version b) (vb_transport b) x (vb_proto b)
  (vb_port b) (vb_port_str b) (vb_params b) (vb_comment b) (vb_bsize b) (vb_param_lst b) (vb_hook b).
Definition set_vproto b x := ViaBody (vb_name b) (vb_version b) (vb_transport b) (vb_host b) x
  (vb_port b) (vb_port_str b) (vb_params b) (vb_comment b) (vb_bsize b) (vb_param_lst b) (vb_hook b).
Definition set_vport b x := ViaBody (vb_name b) (vb_version b) (vb_transport b) (vb_host b) (vb_proto b)
  x (vb_port_str b) (vb_params b) (vb_comment b) (vb_bsize b) (vb_param_lst b) (vb_hook b).
Definition set_port_str b x := ViaBody (vb_name b) (vb_version b) (vb_transport b) (vb_host b) (vb_proto b)
  (vb_port b) x (vb_params b) (vb_comment b) (vb_bsize b) (vb_param_lst b) (vb_hook b).
Definition set_vparams b x := ViaBody (vb_name b) (vb_version b) (vb_transport b) (vb_host b) (vb_proto b)
  (vb_port b) (vb_port_str b) x (vb_comment b) (vb_bsize b) (vb_param_lst b) (vb_hook b).
Definition set_comment b x := ViaBody (vb_name b) (vb_version b) (vb_transport b) (vb_host b) (vb_proto b)
  (vb_port b) (vb_port_str b) (vb_params b) x (vb_bsize b) (vb_param_lst b) (vb_hook b).
Definition set_bsize b x := ViaBody (vb_name b) (vb_version b) (vb_transport b) (vb_host b) (vb_proto b)
  (vb_port b) (vb_port_str b) (vb_params b) (vb_comment b) x (vb_param_lst b) (vb_hook b).

Definition host_upto (p : Z) b := set_vhost b (upto (vb_host b) p).
Definition port_upto (p : Z) b := set_port_str b (upto (vb_port_str b) p).
Definition params_upto (p : Z) b := set_vparams b (upto (vb_params b) p).
Definition comment_at (p : Z) b := set_comment b (at_ (vb_comment b) p).

(** Adding a parameter to the list and to the shortcuts. *)
Definition add_via_param (p : via_param) (b : via_body) : via_body :=
  ViaBody (vb_name b) (vb_version b) (vb_transport b) (vb_host b) (vb_proto b) (vb_port b)
    (vb_port_str b) (vb_params b) (vb_comment b) (vb_bsize b) (vb_param_lst b ++ [p])
    match vp_type p with
    | PARAM_BRANCH | PARAM_RECEIVED | PARAM_RPORT | PARAM_I | PARAM_ALIAS | PARAM_MADDR =>
        λ q, if decide (q = vp_type p) then Some p else vb_hook b q
    | _ => vb_hook b
    end.

(** The local variables of [parse_via] and the current body. *)
Record vs := VS {
  v_st : via_state;
  v_saved : via_state;
  v_nest : Z;
  v_pstart : Z;
  v_vb : via_body;
  v_al : list bool
}.

Definition v_goto (q : via_state) (x : vs) : vs := VS q (v_saved x) (v_nest x) (v_pstart x) (v_vb x) (v_al x).
Definition v_save (q : via_state) (x : vs) : vs := VS (v_st x) q (v_nest x) (v_pstart x) (v_vb x) (v_al x).
Definition v_map (f : via_body → via_body) (x : vs) : vs :=
  VS (v_st x) (v_saved x) (v_nest x) (v_pstart x) (f (v_vb x)) (v_al x).
Definition v_nesting (n : Z) (x : vs) : vs := VS (v_st x) (v_saved x) n (v_pstart x) (v_vb x) (v_al x).
Definition v_param_start (p : Z) (x : vs) : vs := VS (v_st x) (v_saved x) (v_nest x) p (v_vb x) (v_al x).

(** The labels of [parse_via]; [VGo] goes on after the character at [tmp]. *)
Inductive v_out :=
  | VGo (tmp : Z) (x : vs)
  | VMain (x : vs)                (** [main_via] *)
  | VEndHdr (tmp : Z) (x : vs)    (** [endofheader] *)
  | VNext (x : vs)                (** [nextvia] *)
  | VErr (al : list bool)         (** [parse_error] and [error] *)
  | VStuck.

(** ** The protocol *)

(** The states inside the name of a transport. *)
Definition in_proto (q : via_state) : bool :=
  match q with
  | UDP1 | UDP2 | FIN_UDP | TCP_TLS1 | TCP2 | FIN_TCP | TLS2 | FIN_TLS
  | SCTP1 | SCTP2 | SCTP3 | FIN_SCTP | WS1 | WS_WSS | FIN_WS | FIN_WSS => true
  | _ => false
  end.

(** The transports that may be ended by a character; [lf] and [sp] are the cases ['\n']
    and [' ']. *)
Definition fin_proto (sp lf : bool) (q : via_state) : option Z :=
  match q with
  | FIN_UDP => Some PROTO_UDP
  | FIN_TCP => Some PROTO_TCP
  | FIN_TLS => Some PROTO_TLS
  | FIN_SCTP => if sp then Some PROTO_SCTP else None
  | WS_WSS | FIN_WS => Some PROTO_WS
  | FIN_WSS => Some (if lf then PROTO_WS else PROTO_WSS)
  | OTHER_PROTO => Some PROTO_OTHER
  | _ => None
  end.

(** The letters that start a transport, and those that continue a word. *)
Definition word_first (c : byte) : option via_state :=
  let c := tolower c in
  if c =? chr "s" then Some SCTP1 else if c =? chr "u" then Some UDP1
  else if c =? chr "t" then Some TCP_TLS1 else if c =? chr "w" then Some WS1
  else if (c =? chr "i") || (c =? chr "p") || (c =? chr "d") || (c =? chr "c") || (c =? chr "l")
       || (c =? chr "2") || (c =? chr ".") || (c =? chr "0") then None
  else Some OTHER_PROTO.

Definition word_next (c : byte) (q : via_state) : option via_state :=
  let c := tolower c in
  if c =? chr "s" then match q with TLS2 => Some FIN_TLS | WS1 => Some WS_WSS | WS_WSS => Some FIN_WSS | _ => None end
  else if c =? chr "i" then match q with SIP1 => Some SIP2 | _ => None end
  else if c =? chr "p" then
    match q with SIP2 => Some FIN_SIP | UDP2 => Some FIN_UDP | TCP2 => Some FIN_TCP | SCTP3 => Some FIN_SCTP | _ => None end
  else if c =? chr "d" then match q with UDP1 => Some UDP2 | _ => None end
  else if c =? chr "t" then match q with SCTP2 => Some SCTP3 | _ => None end
  else if c =? chr "c" then match q with TCP_TLS1 => Some TCP2 | SCTP1 => Some SCTP2 | _ => None end
  else if c =? chr "l" then match q with TCP_TLS1 => Some TLS2 | _ => None end
  else if c =? chr "." then match q with VER1 => Some VER2 | _ => None end
  else if c =? chr "0" then match q with VER2 => Some FIN_VER | _ => None end
  else None.

(** The cases ['\n'] and ['\r'], which enter the state [f]. *)
Definition w_newline (lf : bool) (f : via_state) (tmp : Z) (x : vs) (rest : v_out) : v_out :=
  match v_st x with
  | L_VER | F_SIP | F_VER | F_PROTO | L_PROTO => VGo tmp (v_goto f (v_save (v_st x) x))
  | FIN_SIP => VGo tmp (v_goto f (v_save L_VER (v_map (λ b, set_name b (upto (vb_name b) tmp)) x)))
  | FIN_VER => VGo tmp (v_goto f (v_save L_PROTO (v_map (λ b, set_version b (upto (vb_version b) tmp)) x)))
  | q =>
      match fin_proto false lf q with
      | Some n =>
          VMain (v_goto f (v_save F_HOST
            (v_map (λ b, set_vproto (set_transport b (upto (vb_transport b) tmp)) n) x)))
      | None => rest
      end
  end.

Definition w_step (c : byte) (tmp : Z) (x : vs) : v_out :=
  if (c =? 32) || (c =? 9) then
    match v_st x with
    | L_VER | L_PROTO | F_SIP | F_VER | F_PROTO => VGo tmp x
    | FIN_SIP => VGo tmp (v_goto L_VER (v_map (λ b, set_name b (upto (vb_name b) tmp)) x))
    | FIN_VER => VGo tmp (v_goto L_PROTO (v_map (λ b, set_version b (upto (vb_version b) tmp)) x))
    | F_LF | F_CRLF | F_CR => VGo tmp (v_goto (v_saved x) x)
    | q =>
        match fin_proto true false q with
        | Some n =>
            VMain (v_goto F_HOST (v_map (λ b, set_vproto (set_transport b (upto (vb_transport b) tmp)) n) x))
        | None => VErr (v_al x)
        end
    end
  else if c =? 10 then
    w_newline true F_LF tmp x
      match v_st x with
      | F_CR => VGo tmp (v_goto F_CRLF x)
      | F_LF | F_CRLF => VEndHdr tmp x
      | _ => VErr (v_al x)
      end
  else if c =? 13 then
    w_newline false F_CR tmp x
      match v_st x with
      | F_LF | F_CR | F_CRLF => VEndHdr tmp x
      | _ => VErr (v_al x)
      end
  else if c =? chr "/" then
    match v_st x with
    | FIN_SIP => VGo tmp (v_goto F_VER (v_map (λ b, set_name b (upto (vb_name b) tmp)) x))
    | FIN_VER => VGo tmp (v_goto F_PROTO (v_map (λ b, set_version b (upto (vb_version b) tmp)) x))
    | L_VER => VGo tmp (v_goto F_VER x)
    | L_PROTO => VGo tmp (v_goto F_PROTO x)
    | _ => VErr (v_al x)
    end
  else
    match v_st x with
    | F_SIP =>
        if tolower c =? chr "s"
        then VGo tmp (v_goto SIP1 (v_map (λ b, set_name b (at_ (vb_name b) tmp)) x)) else VErr (v_al x)
    | F_VER =>
        if c =? chr "2"
        then VGo tmp (v_goto VER1 (v_map (λ b, set_version b (at_ (vb_version b) tmp)) x)) else VErr (v_al x)
    | F_PROTO =>
        match word_first c with
        | Some q => VGo tmp (v_goto q (v_map (λ b, set_transport b (at_ (vb_transport b) tmp)) x))
        | None => VErr (v_al x)
        end
    | OTHER_PROTO => VGo tmp x
    | q =>
        match word_next c q with
        | Some q' => VGo tmp (v_goto q' x)
        | None => if in_proto q then VGo tmp (v_goto OTHER_PROTO x) else VErr (v_al x)
        end
    end.

(** ** Host, port, parameters and comment *)

Definition v_newline (f : via_state) (tmp : Z) (x : vs) (rest : v_out) : v_out :=
  match v_st x with
  | F_HOST | L_PORT | F_PORT | L_PARAM | F_PARAM | F_VIA | L_VIA | F_COMMENT | P_COMMENT
  | F_IP6HOST | P_IP6HOST => VGo tmp (v_goto f (v_save (v_st x) x))
  | P_HOST => VGo tmp (v_goto f (v_save L_PORT (v_map (host_upto tmp) x)))
  | P_PORT => VGo tmp (v_goto f (v_save L_PARAM (v_map (port_upto tmp) x)))
  | P_PARAM => VGo tmp (v_goto f (v_save L_PARAM x))
  | _ => rest
  end.

(** A character allowed in a comment, in the states of a comment or at the end of a
    line; [bad] in the other states. *)
Definition v_comment (tmp : Z) (x : vs) (bad : v_out) : v_out :=
  match v_st x with
  | F_COMMENT => VGo tmp (v_goto P_COMMENT (v_map (comment_at tmp) x))
  | P_COMMENT => VGo tmp x
  | F_CRLF | F_LF | F_CR => VEndHdr tmp x
  | _ => bad
  end.

Definition host_char (c : byte) : bool :=
  ((97 <=? c) && (c <=? 122)) || ((65 <=? c) && (c <=? 90)) || ((48 <=? c) && (c <=? 57))
  || (c =? chr "-") || (c =? chr ".").
Definition ip6_char (c : byte) : bool :=
  ((97 <=? c) && (c <=? 102)) || ((65 <=? c) && (c <=? 70)) || ((48 <=? c) && (c <=? 57)) || (c =? chr ":").
Definition port_char (c : byte) : bool := (48 <=? c) && (c <=? 57).

(** A parameter, from the first character of its name at [tmp] on. *)
Definition v_param (tmp end_ : Z) (x : vs) : v_out :=
  let x := if str_s (vb_params (v_vb x)) =? 0
           then v_map (λ b, set_vparams b (at_ (vb_params b) (v_pstart x))) x else x in
  let '(ok, al) := pkg_alloc (v_al x) in
  if ok then
    match parse_via_param tmp end_ (v_st x) (v_saved x) (ViaParam F_HOST str_null str_null (v_pstart x) 0) with
    | NpErr => VErr al
    | NpStuck => VStuck
    | NpOk tmp y =>
        let p := n_param y in
        let x := VS (n_st y) (n_saved y) (v_nest x) (v_pstart x) (v_vb x) al in
        match n_st y with
        | F_PARAM => VGo tmp (v_param_start (tmp + 1) (v_map (λ b, add_via_param p (params_upto tmp b)) x))
        | L_PARAM | F_LF | F_CR => VGo tmp (v_map (λ b, add_via_param p (params_upto tmp b)) x)
        | F_VIA => VGo tmp (v_map (λ b, add_via_param p (params_upto (vp_start p + vp_size p) b)) x)
        | END_OF_HEADER => VEndHdr tmp (v_map (λ b, add_via_param p (params_upto (vp_start p + vp_size p) b)) x)
        | _ => VErr al
        end
    end
  else VErr al.

Definition v_step (c : byte) (tmp end_ : Z) (x : vs) : v_out :=
  if (c =? 32) || (c =? 9) then
    match v_st x with
    | F_HOST | L_PORT | F_PORT | L_PARAM | F_PARAM | L_VIA | F_VIA | F_COMMENT | P_COMMENT => VGo tmp x
    | P_HOST => VGo tmp (v_goto L_PORT (v_map (host_upto tmp) x))
    | P_PORT => VGo tmp (v_goto L_PARAM (v_map (port_upto tmp) x))
    | P_PARAM => VGo tmp (v_goto L_PARAM x)
    | F_CRLF | F_LF | F_CR => VGo tmp (v_goto (v_saved x) x)
    | _ => VErr (v_al x)
    end
  else if c =? 10 then
    v_newline F_LF tmp x
      match v_st x with
      | F_CR => VGo tmp (v_goto F_CRLF x)
      | F_CRLF | F_LF => VEndHdr tmp x
      | _ => VErr (v_al x)
      end
  else if c =? 13 then
    v_newline F_CR tmp x
      match v_st x with
      | F_CRLF | F_CR | F_LF => VEndHdr tmp x
      | _ => VErr (v_al x)
      end
  else if c =? chr ":" then
    match v_st x with
    | F_IP6HOST => VGo tmp (v_goto P_IP6HOST x)
    | P_IP6HOST => VGo tmp x
    | P_HOST => VGo tmp (v_goto F_PORT (v_map (host_upto tmp) x))
    | L_PORT => VGo tmp (v_goto F_PORT x)
    | _ => v_comment tmp x (VErr (v_al x))
    end
  else if c =? chr ";" then
    match v_st x with
    | P_HOST => VGo tmp (v_param_start (tmp + 1) (v_goto F_PARAM (v_map (host_upto tmp) x)))
    | P_PORT => VGo tmp (v_param_start (tmp + 1) (v_goto F_PARAM (v_map (port_upto tmp) x)))
    | L_PORT | L_PARAM | P_PARAM => VGo tmp (v_param_start (tmp + 1) (v_goto F_PARAM x))
    | _ => v_comment tmp x (VErr (v_al x))
    end
  else if c =? chr "," then
    match v_st x with
    | P_HOST => VGo tmp (v_goto F_VIA (v_map (host_upto tmp) x))
    | P_PORT => VGo tmp (v_goto F_VIA (v_map (port_upto tmp) x))
    | L_PORT | L_PARAM | P_PARAM | L_VIA => VGo tmp (v_goto F_VIA x)
    | F_VIA => VGo tmp x
    | _ => v_comment tmp x (VErr (v_al x))
    end
  else if c =? chr "(" then
    match v_st x with
    | P_HOST => VGo tmp (v_nesting (v_nest x + 1) (v_goto F_COMMENT (v_map (host_upto tmp) x)))
    | P_PORT => VGo tmp (v_nesting (v_nest x + 1) (v_goto F_COMMENT (v_map (port_upto tmp) x)))
    | P_PARAM | L_PORT | L_PARAM | L_VIA =>
        VGo tmp (v_nesting (v_nest x + 1) (v_goto F_COMMENT (v_map (params_upto tmp) x)))
    | P_COMMENT | F_COMMENT => VGo tmp (v_nesting (v_nest x + 1) x)
    | F_CRLF | F_LF | F_CR => VEndHdr tmp x
    | _ => VErr (v_al x)
    end
  else if c =? chr ")" then
    match v_st x with
    | F_COMMENT | P_COMMENT =>
        if v_nest x =? 0 then VErr (v_al x)
        else if v_nest x =? 1 then
          VGo tmp (v_nesting 0 (v_goto L_VIA (v_map (λ b, set_comment b (upto (vb_comment b) tmp)) x)))
        else VGo tmp (v_nesting (v_nest x - 1) x)
    | F_CRLF | F_LF | F_CR => VEndHdr tmp x
    | _ => VErr (v_al x)
    end
  else if c =? chr "[" then
    match v_st x with
    | F_HOST => VGo tmp (v_goto F_IP6HOST (v_map (λ b, set_vhost b (at_ (vb_host b) tmp)) x))
    | _ => v_comment tmp x (VErr (v_al x))
    end
  else if c =? chr "]" then
    match v_st x with
    | P_IP6HOST =>
        VGo tmp (v_goto L_PORT (v_map (λ b, set_vhost b
          (Str (str_s (vb_host b)) (i32 (tmp - str_s (vb_host b) + 1)))) x))
    | _ => v_comment tmp x (VErr (v_al x))
    end
  else if c =? 0 then VGo tmp x
  else
    match v_st x with
    | F_HOST =>
        if host_char c then VGo tmp (v_goto P_HOST (v_map (λ b, set_vhost b (at_ (vb_host b) tmp)) x)) else VErr (v_al x)
    | P_HOST => if host_char c then VGo tmp x else VErr (v_al x)
    | F_PORT =>
        if port_char c then VGo tmp (v_goto P_PORT (v_map (λ b, set_port_str b (at_ (vb_port_str b) tmp)) x))
        else VErr (v_al x)
    | P_PORT => if port_char c then VGo tmp x else VErr (v_al x)
    | F_PARAM => v_param tmp end_ x
    | P_PARAM => VGo tmp x
    | F_VIA => VNext x
    | F_IP6HOST => if ip6_char c then VGo tmp (v_goto P_IP6HOST x) else VErr (v_al x)
    | P_IP6HOST => if ip6_char c then VGo tmp x else VErr (v_al x)
    | _ => v_comment tmp x (VErr (v_al x))
    end.

(** The two loops over a body: from its protocol to one of the final labels. *)
Fixpoint v_loop (n : nat) (tmp end_ : Z) (x : vs) : Z * v_out :=
  if tmp <? end_ then
    match n with
    | O => (tmp, VStuck)
    | S n =>
        match v_step (mem tmp) tmp end_ x with
        | VGo tmp x => v_loop n (tmp + 1) end_ x
        | o => (tmp, o)
        end
    end
  else (tmp, VGo tmp x).

Fixpoint w_loop (n : nat) (tmp end_ : Z) (x : vs) : Z * v_out :=
  if tmp <? end_ then
    match n with
    | O => (tmp, VStuck)
    | S n =>
        match w_step (mem tmp) tmp x with
        | VGo _ x => w_loop n (tmp + 1) end_ x
        | VMain x => v_loop (dist (tmp + 1) end_) (tmp + 1) end_ (v_nesting 0 x)
        | o => (tmp, o)
        end
    end
  else (tmp, VErr (v_al x)).

(** ** The end of a body *)

(** The test of the state at [endofpacket]. *)
Definition final_state (q : via_state) : bool :=
  match q with
  | P_HOST | L_PORT | P_PORT | L_PARAM | P_PARAM | P_VALUE | GEN_PARAM | FIN_HIDDEN | L_VIA => true
  | _ => false
  end.

(** The size and the port; [None] is an invalid port. *)
Definition v_close (buffer tmp : Z) (b : via_body) : option via_body :=
  let b := set_bsize b (u32 (tmp - buffer)) in
  if str_s (vb_port_str b) =? 0 then Some b
  else
    let '(port, err) := str2s (to_text mem (vb_port_str b)) in
    if err then None else Some (set_vport b port).

Inductive via_result :=
  | ViaOk (tmp : Z) (bodies : list via_body)
  | ViaError
  | ViaStuck.

Definition v_finish (done : list via_body) (buffer tmp : Z) (st : via_state) (x : vs) : via_result :=
  if final_state st then
    match v_close buffer tmp (v_vb x) with
    | Some b => ViaOk tmp (done ++ [b])
    | None => ViaError
    end
  else ViaError.

(** The label [parse_again]. *)
Fixpoint via_loop (n : nat) (done : list via_body) (al : list bool) (buffer end_ : Z)
    : via_result * list bool :=
  match n with
  | O => (ViaStuck, al)
  | S n =>
      match w_loop (dist buffer end_) buffer end_ (VS F_SIP F_HOST 0 0 via_zero al) with
      | (_, VEndHdr tmp x) => (v_finish done buffer tmp (v_saved x) x, v_al x)
      | (tmp, VGo _ x) => (v_finish done buffer tmp (v_st x) x, v_al x)
      | (tmp, VNext x) =>
          match v_close buffer tmp (v_vb x) with
          | Some b =>
              let '(ok, al) := pkg_alloc (v_al x) in
              if ok then via_loop n (done ++ [b]) al tmp end_ else (ViaError, al)
          | None => (ViaError, v_al x)
          end
      | (_, VErr al) => (ViaError, al)
      | (_, _) => (ViaStuck, al)
      end
  end.

Definition parse_via (al : list bool) (buffer end_ : Z) : via_result * list bool :=
  via_loop (S (dist buffer end_)) [] al buffer end_.
End parse_via.
