(* ===== verification/ScanRuns.v ===== *)
(** * ScanRuns: runs of a scanning loop

    The parsers of header bodies are loops that read one character at a time, with fuel for
    the characters left.  [runs] relates two configurations of such a loop that have the same
    result whatever the fuel beyond what is needed; it is how a text is followed through the
    states of a parser.  The lemmas on [to_text] give the text a string holds. *)

From stdpp Require Import prelude list strings.
From Stdlib Require Import ZArith Lia Ascii.
From S2P Require Import Prelude CString UriParser HdrNames HdrNamesSpec HdrBodies ToParser.

(** ** Runs *)

Section runs.
Context {X R : Type} (loop : nat → Z → X → R) (end_ : Z).

Definition runs (p : Z) (x : X) (p' : Z) (x' : X) : Prop :=
  ∀ n, (dist p end_ <= n)%nat → ∃ n', (dist p' end_ <= n')%nat ∧ loop n p x = loop n' p' x'.

Definition ends (p : Z) (x : X) (r : R) : Prop := ∀ n, (dist p end_ <= n)%nat → loop n p x = r.

Lemma runs_refl p x : runs p x p x.
Proof. intros n Hn. by exists n. Qed.

Lemma runs_trans p x p1 x1 p2 x2 : runs p x p1 x1 → runs p1 x1 p2 x2 → runs p x p2 x2.
Proof. intros H1 H2 n Hn. destruct (H1 n Hn) as (n1 & Hn1 & ->). by apply H2. Qed.

Lemma runs_ends p x p1 x1 r : runs p x p1 x1 → ends p1 x1 r → ends p x r.
Proof. intros H1 H2 n Hn. destruct (H1 n Hn) as (n1 & Hn1 & ->). by apply H2. Qed.

(** A loop that reads a character at a time. *)
Context (mem : Z → byte).

(** A text of characters that leave the configuration as it is. *)
Lemma runs_while (ok : byte → bool) (x : X) (s : bytes) :
  (∀ q, q < end_ → ok (mem q) = true → runs q x (q + 1) x) →
  ∀ p, forallb ok s = true → text_at mem p s → p + Z.of_nat (length s) <= end_ →
  runs p x (p + Z.of_nat (length s)) x.
Proof.
  intros Hstep. induction s as [|c s IH]; intros p Hs Ht He.
  - replace (p + Z.of_nat (length [])) with p by (simpl; lia). apply runs_refl.
  - cbn [forallb] in Hs. apply andb_prop in Hs as [Hc Hs]. apply text_at_cons in Ht as [Hm Ht]. simpl length in *.
    eapply runs_trans; [apply Hstep; [lia|by rewrite Hm]|].
    replace (p + Z.of_nat (S (length s))) with (p + 1 + Z.of_nat (length s)) by lia. apply IH; [done|done|lia].
Qed.
End runs.

Lemma runs_to {X R} (loop : nat → Z → X → R) e p x q y q' : q = q' → runs loop e p x q y → runs loop e p x q' y.
Proof. by intros ->. Qed.

(** Use that a character is none of those a class excludes. *)
Ltac not_chars H :=
  apply negb_true_iff in H;
  repeat match goal with H : (_ || _) = false |- _ => apply orb_false_iff in H; destruct H end;
  repeat match goal with H : (?c =? ?k) = false |- context [?c =? ?k] => rewrite H end; cbn [orb].

(** ** Texts *)

Lemma to_text_str mem a s n : text_at mem a s → n = Z.of_nat (length s) → to_text mem (Str a n) = s.
Proof.
  intros Ht ->. unfold to_text. cbn [str_s str_len]. rewrite Nat2Z.id. apply list_eq. intros i.
  rewrite list_lookup_fmap. destruct (decide (i < length s)%nat) as [Hi|Hi].
  - rewrite lookup_seq_lt by done. cbn. destruct (lookup_lt_is_Some_2 s i Hi) as [c Hc]. rewrite Hc. f_equal. by apply Ht.
  - rewrite lookup_seq_ge, (lookup_ge_None_2 s) by lia. done.
Qed.

Lemma to_text_null mem a : to_text mem (Str a 0) = [].
Proof. done. Qed.

Lemma i32_fits x : 0 <= x <= INT_MAX → i32 x = x.
Proof. intros H. unfold i32. apply swrap_small; unfold INT_MAX in *; simpl; lia. Qed.

(** The text between two places. *)
Lemma to_text_upto mem s a q n : text_at mem a s → q = a + Z.of_nat (length s) → Z.of_nat (length s) <= INT_MAX →
  to_text mem (upto (Str a n) q) = s.
Proof.
  intros Ht -> Hs. unfold upto, str_to. cbn [str_s]. apply to_text_str; [done|]. rewrite i32_fits; lia.
Qed.

Lemma text_at_snoc mem p s c : text_at mem p (s ++ [c]) ↔ text_at mem p s ∧ mem (p + Z.of_nat (length s)) = c.
Proof. rewrite text_at_app, text_at_cons. split; [tauto|]. intros [? ?]. split; [done|]. split; [done|]. intros i d. by rewrite lookup_nil. Qed.
