(* ===== verification/MsgHeaders.v ===== *)
(** * Header fields of a message

    [get_hdr_field_aux], [parse_headers_aux] and [clone_headers] of
    [parser/msg_parser.c].  The message is text in memory; [parse_headers_aux] parses the
    header fields one after the other, from where it stopped the last time, until the
    requested ones have been found, and links each in the list of all fields and at the
    hook of its type.  A header field is named by its position in the list of fields, so
    the sibling pointers and the hooks are positions.

    The parsers of the Via and To bodies are arguments ([body_parsers]): the results about
    them are stated for any functions that keep to the documented interface, which [MsgBodies]
    shows of the parsers of [ToParser] and [ViaParser].  The counter
    of Via fields and the error code and reply the functions set for the caller are left
    out. *)

From stdpp Require Import prelude list strings fin_maps.
From Stdlib Require Import ZArith Lia Ascii.
From S2P Require Import Prelude HdrNames HdrBodies.

(** ** The interface of the body parsers *)

(** A parser of a body gets the state of the allocator, the address of the body and the end of
    the message, and returns the address of the next header field with the parsed body, or
    an error, and the new state of the allocator. *)
Class body_parsers := {
  via_body : Type;
  via_next : via_body → option via_body;
  to_body : Type;
  parse_via : (Z → byte) → list bool → Z → Z → option (Z * via_body) * list bool;
  parse_to : (Z → byte) → list bool → Z → Z → option (Z * to_body) * list bool
}.

(** ** Data *)

Inductive parsed_body `{body_parsers} :=
  | ParsedVia (v : via_body)
  | ParsedCseq (c : cseq_body)
  | ParsedTo (t : to_body)
  | ParsedLength (n : Z).

(** [struct hdr_field]: strings are an address and a length. *)
Record hdr_field `{body_parsers} := mk_hdr {
  hf_type : hdr_types_t;
  hf_name : Z * Z;
  hf_body : Z * Z;
  hf_len : Z;
  hf_parsed : option parsed_body;
  hf_sibling : option nat
}.

Arguments ParsedVia {_} _.
Arguments ParsedCseq {_} _.
Arguments ParsedTo {_} _.
Arguments ParsedLength {_} _.
Arguments mk_hdr {_} _ _ _ _ _ _.

(** What [get_hdr_field_aux] reports in [hdr->type], with the pointer it returns. *)
Inductive hf_result `{body_parsers} :=
  | HfError
  | HfEoh
  | HfOk (hf : hdr_field) (tmp : Z).

Arguments HfError {_}.
Arguments HfEoh {_}.
Arguments HfOk {_} _ _.

Section get_hdr_field.
Context `{body_parsers} (mem : Z → byte).

(** [q_memchr] for a line feed. *)
Definition find_lf (p end_ : Z) : option Z :=
  let q := scan mem (λ c, c =? 10) p end_ in if q <? end_ then Some q else None.

(** The body up to the first line that does not start with white space: the address of
    the next header field. *)
Fixpoint skip_lines (n : nat) (tmp end_ : Z) : option Z :=
  match n with
  | O => None
  | S n =>
      match find_lf tmp end_ with
      | None => None
      | Some q =>
          let next := q + 1 in
          if (next <? end_) && is_ws (mem next) then skip_lines n next end_ else Some next
      end
  end.
Definition skip_body (tmp end_ : Z) : option Z := skip_lines (dist tmp end_) tmp end_.

(** [trim_r]. *)
Fixpoint trim_r_loop (n : nat) (s : Z) : Z :=
  match n with
  | O => 0
  | S m =>
      let c := mem (s + Z.of_nat m) in
      if (c =? 0) || (c =? 13) || (c =? 10) then trim_r_loop m s else Z.of_nat n
  end.
Definition trim_r (s len : Z) : Z := trim_r_loop (Z.to_nat len) s.

(** The types whose bodies are only skipped. *)
Definition skipped (ty : hdr_types_t) : bool :=
  match ty with
  | HDR_ERROR_T | HDR_VIA_T | HDR_VIA2_T | HDR_CSEQ_T | HDR_TO_T | HDR_CONTENTLENGTH_T | HDR_EOH_T => false
  | _ => true
  end.

(** The field whose body starts at [b] and ends before [tmp]. *)
Definition mk_field (ty : hdr_types_t) (name : Z * Z) (b tmp : Z) (parsed : option parsed_body) : hf_result :=
  HfOk (mk_hdr ty name (b, trim_r b (tmp - b)) (tmp - name.1) parsed None) tmp.

Definition body_skip (ty : hdr_types_t) (name : Z * Z) (tmp end_ : Z) : hf_result :=
  match skip_body tmp end_ with
  | Some next => mk_field ty name tmp next None
  | None => HfError
  end.

(** A body that is parsed: its structure is allocated first. *)
Definition body_parse {A} (al : list bool) (parse : list bool → option (Z * A) * list bool) (wrap : A → parsed_body)
    (ty : hdr_types_t) (name : Z * Z) (b : Z) : hf_result * list bool :=
  let '(ok, al) := pkg_alloc al in
  if ok then
    let '(r, al) := parse al in
    (match r with Some (tmp, x) => mk_field ty name b tmp (Some (wrap x)) | None => HfError end, al)
  else (HfError, al).

Definition get_hdr_field_aux (al : list bool) (buf end_ : Z) (well_known : bool) : hf_result * list bool :=
  if is_eol (mem buf) then (HfEoh, al)
  else
    match parse_hname2 mem buf end_ with
    | HnError _ => (HfError, al)
    | HnOk ty len tmp =>
        let name := (buf, len) in
        let tmp := eat_lws_end mem tmp end_ in
        if end_ <=? tmp then (HfError, al)
        else if skipped ty then (body_skip ty name tmp end_, al)
        else
          match ty with
          | HDR_VIA_T =>
              if well_known then body_parse al (λ al, parse_via mem al tmp end_) ParsedVia ty name tmp
              else (body_skip ty name tmp end_, al)
          | HDR_CSEQ_T =>
              if well_known then body_parse al (λ al, (parse_cseq mem tmp end_, al)) ParsedCseq ty name tmp
              else (body_skip ty name tmp end_, al)
          | HDR_TO_T =>
              if well_known then body_parse al (λ al, parse_to mem al tmp end_) ParsedTo ty name tmp
              else (body_skip ty name tmp end_, al)
          | HDR_CONTENTLENGTH_T =>
              (if well_known then
                 match parse_content_length mem tmp end_ with
                 | Some (next, n) => mk_field ty name tmp next (Some (ParsedLength n))
                 | None => HfError
                 end
               else body_skip ty name tmp end_, al)
          | _ => (HfError, al)
          end
    end.
End get_hdr_field.

(** ** The message *)

(** [~(hdr_flags_t)0] for the end of the headers, one bit for each other type. *)
Definition HDR_T2F (ty : hdr_types_t) : Z :=
  match ty with HDR_EOH_T => 2 ^ 64 - 1 | _ => Z.shiftl 1 (hdr_code ty) end.

(** How a field is linked in the message: at a hook with its siblings, at a hook that
    keeps the first one, or at none. *)
Inductive hook_kind := HkSibling | HkFirst | HkNone.

Definition hdr_kind (ty : hdr_types_t) : option hook_kind :=
  match ty with
  | HDR_OTHER_T | HDR_TO_PATH_T | HDR_FROM_PATH_T | HDR_MESSAGE_ID_T | HDR_BYTE_RANGE_T
  | HDR_FAILURE_REPORT_T | HDR_SUCCESS_REPORT_T | HDR_STATUS_T | HDR_USE_PATH_T
  | HDR_RETRY_AFTER_T => Some HkNone
  | HDR_CALLID_T | HDR_TO_T | HDR_CSEQ_T | HDR_FROM_T | HDR_MAXFORWARDS_T | HDR_CONTENTTYPE_T
  | HDR_CONTENTLENGTH_T | HDR_EXPIRES_T | HDR_ORGANIZATION_T | HDR_PRIORITY_T | HDR_SUBJECT_T
  | HDR_USERAGENT_T | HDR_CONTENTDISPOSITION_T | HDR_RPID_T | HDR_REFER_TO_T
  | HDR_SESSION_EXPIRES_T | HDR_MIN_SE_T | HDR_MIN_EXPIRES_T | HDR_PRIVACY_T => Some HkFirst
  | HDR_VIA_T | HDR_CONTACT_T | HDR_ROUTE_T | HDR_RECORDROUTE_T | HDR_PATH_T | HDR_AUTHORIZATION_T
  | HDR_PROXYAUTH_T | HDR_PROXYREQUIRE_T | HDR_SUPPORTED_T | HDR_UNSUPPORTED_T | HDR_ALLOW_T
  | HDR_EVENT_T | HDR_ACCEPT_T | HDR_ACCEPTLANGUAGE_T | HDR_ACCEPTDISPOSITION_T | HDR_DIVERSION_T
  | HDR_CALL_INFO_T | HDR_WWW_AUTHENTICATE_T | HDR_PROXY_AUTHENTICATE_T | HDR_PPI_T | HDR_PAI_T
  | HDR_FEATURE_CAPS_T | HDR_REPLACES_T | HDR_SECURITY_CLIENT_T | HDR_SECURITY_SERVER_T
  | HDR_SECURITY_VERIFY_T => Some HkSibling
  | HDR_ERROR_T | HDR_VIA2_T | HDR_EOH_T => None
  end.

(** The fields of [struct sip_msg] the header parser works on; [msg_end] is the address
    after the message and [hook ty] the field of the type [ty] ([msg->to], [msg->contact]
    and so on; [msg->h_via1] for Via). *)
Record sip_msg `{body_parsers} := mk_msg {
  msg_end : Z;
  unparsed : Z;
  eoh : option Z;
  parsed_flag : Z;
  headers : list hdr_field;
  hook : hdr_types_t → option nat;
  via1 : option via_body;
  via2 : option via_body
}.

Arguments mk_msg {_} _ _ _ _ _ _ _ _.

Section parse_headers.
Context `{body_parsers} (mem : Z → byte).

Definition with_flag (m : sip_msg) (f : Z) : sip_msg :=
  mk_msg (msg_end m) (unparsed m) (eoh m) f (headers m) (hook m) (via1 m) (via2 m).
Definition with_hook (m : sip_msg) (ty : hdr_types_t) (i : nat) : sip_msg :=
  mk_msg (msg_end m) (unparsed m) (eoh m) (parsed_flag m) (headers m)
    (λ t, if decide (t = ty) then Some i else hook m t) (via1 m) (via2 m).
Definition with_headers (m : sip_msg) (l : list hdr_field) : sip_msg :=
  mk_msg (msg_end m) (unparsed m) (eoh m) (parsed_flag m) l (hook m) (via1 m) (via2 m).
Definition with_unparsed (m : sip_msg) (p : Z) : sip_msg :=
  mk_msg (msg_end m) p (eoh m) (parsed_flag m) (headers m) (hook m) (via1 m) (via2 m).
Definition with_eoh (m : sip_msg) (p : Z) : sip_msg :=
  mk_msg (msg_end m) (unparsed m) (Some p) (parsed_flag m) (headers m) (hook m) (via1 m) (via2 m).
Definition with_vias (m : sip_msg) (v1 v2 : option via_body) : sip_msg :=
  mk_msg (msg_end m) (unparsed m) (eoh m) (parsed_flag m) (headers m) (hook m) v1 v2.
Definition add_flag (m : sip_msg) (ty : hdr_types_t) : sip_msg :=
  with_flag m (Z.lor (parsed_flag m) (HDR_T2F ty)).

Definition set_sibling (hf : hdr_field) (i : nat) : hdr_field :=
  mk_hdr (hf_type hf) (hf_name hf) (hf_body hf) (hf_len hf) (hf_parsed hf) (Some i).

(** The last field of the chain of siblings that starts at [i]; the chain has at most as
    many fields as the list. *)
Fixpoint chain_last (n : nat) (l : list hdr_field) (i : nat) : nat :=
  match n with
  | O => i
  | S n => match l !! i ≫= hf_sibling with Some j => chain_last n l j | None => i end
  end.

(** [_add_last] with the member [sibling]: field [i] is appended to the chain at the
    hook of its type. *)
Definition link_sibling_hdr (m : sip_msg) (ty : hdr_types_t) (i : nat) : sip_msg :=
  match hook m ty with
  | None => with_hook m ty i
  | Some h =>
      let j := chain_last (length (headers m)) (headers m) h in
      with_headers m (alter (λ hf, set_sibling hf i) j (headers m))
  end.

(** The case of Via: the first two bodies are also kept. *)
Definition link_vias (m : sip_msg) (hf : hdr_field) (i : nat) : sip_msg :=
  match hf_parsed hf with
  | Some (ParsedVia v) =>
      match via1 m with
      | None =>
          let m := with_hook m HDR_VIA_T i in
          match via_next v with
          | Some v' => add_flag (with_vias m (Some v) (Some v')) HDR_VIA2_T
          | None => with_vias m (Some v) (via2 m)
          end
      | Some v1 =>
          match via2 m with
          | None => add_flag (with_vias m (Some v1) (Some v)) HDR_VIA2_T
          | Some _ => m
          end
      end
  | _ => m
  end.

(** The switch over the type of the new field [hf], which will be at position [i]. *)
Definition link_hdr (m : sip_msg) (hf : hdr_field) (i : nat) : option sip_msg :=
  match hdr_kind (hf_type hf) with
  | None => None
  | Some HkNone => Some m
  | Some HkFirst =>
      let m := match hook m (hf_type hf) with None => with_hook m (hf_type hf) i | Some _ => m end in
      Some (add_flag m (hf_type hf))
  | Some HkSibling =>
      let m := add_flag (link_sibling_hdr m (hf_type hf) i) (hf_type hf) in
      Some (if decide (hf_type hf = HDR_VIA_T) then link_vias m hf i else m)
  end.

(** Adding the field to the list of all fields. *)
Definition add_hdr (m : sip_msg) (hf : hdr_field) : option sip_msg :=
  m ← link_hdr m hf (length (headers m));
  Some (with_headers m (headers m ++ [hf])).

(** The results of the loop: the label [skip] with the value of [tmp], the label
    [error], or no end within [n] turns. *)
Inductive ph_result :=
  | PhSkip (m : sip_msg) (tmp : Z) (al : list bool)
  | PhError (m : sip_msg) (al : list bool)
  | PhStuck.

Fixpoint ph_loop (n : nat) (al : list bool) (m : sip_msg) (tmp flags : Z) (well_known : bool) : ph_result :=
  if (tmp <? msg_end m) && negb (Z.land flags (parsed_flag m) =? flags) then
    match n with
    | O => PhStuck
    | S n =>
        let '(ok, al) := pkg_alloc al in
        if ok then
          match get_hdr_field_aux mem al tmp (msg_end m) well_known with
          | (HfError, al) => PhError m al
          | (HfEoh, al) => PhSkip (add_flag (with_eoh m tmp) HDR_EOH_T) tmp al
          | (HfOk hf rest, al) =>
              match add_hdr m hf with
              | Some m => ph_loop n al m rest flags well_known
              | None => PhError m al
              end
          end
        else PhError m al
    end
  else PhSkip m tmp al.

(** Every field takes at least one byte. *)
Definition parse_headers_aux (al : list bool) (m : sip_msg) (flags : Z) (next well_known : bool)
    : option (Z * sip_msg * list bool) :=
  let orig_flag := if next then parsed_flag m else 0 in
  let m := if next then with_flag m (Z.ldiff (parsed_flag m) flags) else m in
  match ph_loop (dist (unparsed m) (msg_end m)) al m (unparsed m) flags well_known with
  | PhSkip m tmp al => Some (0, with_unparsed m tmp, al)
  | PhError m al => Some (-1, if next then with_flag m (Z.lor (parsed_flag m) orig_flag) else m, al)
  | PhStuck => None
  end.

Definition parse_headers (al : list bool) (m : sip_msg) (flags : Z) (next : bool) :=
  parse_headers_aux al m flags next true.

Definition check_transaction_quadruple (al : list bool) (m : sip_msg) : option (bool * sip_msg * list bool) :=
  '(r, m, al) ← parse_headers al m
    (Z.lor (Z.lor (Z.lor (HDR_T2F HDR_FROM_T) (HDR_T2F HDR_TO_T)) (HDR_T2F HDR_CALLID_T)) (HDR_T2F HDR_CSEQ_T)) false;
  let is_set ty := match hook m ty with Some _ => true | None => false end in
  Some (negb (r =? -1) && is_set HDR_FROM_T && is_set HDR_TO_T && is_set HDR_CALLID_T && is_set HDR_CSEQ_T, m, al).

(** ** Cloning the list *)

(** The hooks [clone_headers] sets without siblings. *)
Definition clone_kind (ty : hdr_types_t) : option hook_kind :=
  match ty with
  | HDR_REPLACES_T => Some HkFirst
  | HDR_ERROR_T | HDR_VIA2_T | HDR_EOH_T => Some HkNone
  | _ => hdr_kind ty
  end.

Definition unlinked (hf : hdr_field) : hdr_field :=
  mk_hdr (hf_type hf) (hf_name hf) (hf_body hf) (hf_len hf) (hf_parsed hf) None.

(** One turn of the loop: field [i] of the copy is linked at its hook, in place of the
    one before it where there are no siblings. *)
Definition clone_hdr (m : sip_msg) (hf : hdr_field) : sip_msg :=
  let i := length (headers m) in
  let ty := hf_type hf in
  let m :=
    match clone_kind ty with
    | Some HkSibling => link_sibling_hdr m ty i
    | Some HkFirst => with_hook m ty i
    | _ => m
    end in
  with_headers m (headers m ++ [unlinked hf]).

(** [None]: the store before the array when there is no header. *)
Definition clone_headers (ok : bool) (from_msg to_msg : sip_msg) : option (Z * sip_msg) :=
  if ok then
    match headers from_msg with
    | [] => None
    | l =>
        let cleared := mk_msg (msg_end to_msg) (unparsed to_msg) (eoh to_msg) (parsed_flag to_msg) []
          (λ t, match clone_kind t with Some HkSibling | Some HkFirst => None | _ => hook to_msg t end)
          (via1 to_msg) (via2 to_msg) in
        Some (0, foldl clone_hdr cleared l)
    end
  else Some (-1, to_msg).
End parse_headers.
