(* ===== verification/MsgHeadersSpec.v ===== *)
(** * Theorems on the header fields of a message

    [parse_headers_aux] ends, and parsing in several calls gives the same message as
    parsing in one; the hooks and the chains of siblings hold the fields of their types in
    order; header fields written one after the other are read back.  A call that fails
    leaves the fields it has linked in the message but not the place it has reached, so
    that they are linked again by the next call. *)

From stdpp Require Import prelude list strings fin_maps.
From Stdlib Require Import ZArith Lia Ascii.
From S2P Require Import Prelude HdrNames HdrNamesSpec HdrBodies MsgHeaders.

(** ** The law of the body parsers *)

(** A parsed body takes at least one byte. *)
Class body_parsers_ok `{body_parsers} : Prop := {
  parse_via_advances mem al p end_ q v al' : p < end_ → parse_via mem al p end_ = (Some (q, v), al') → p < q;
  parse_to_advances mem al p end_ q t al' : p < end_ → parse_to mem al p end_ = (Some (q, t), al') → p < q;
  parse_via_allocs mem p end_ : (parse_via mem [] p end_).2 = [];
  parse_to_allocs mem p end_ : (parse_to mem [] p end_).2 = []
}.

(** ** Progress *)

Lemma jumps_advance : forallb (λ x, match x.2 with JReturn _ _ p => 0 <? p | JDcEnd _ _ p | JDcCont _ _ p | JOther p => 0 <=? p end)
  (paths first_switch 0) = true.
Proof. by vm_compute. Qed.

Section progress.
Context (mem : Z → byte) (Hmem : ∀ a, 0 <= mem a < 256).

Lemma skip_ws_ge p end_ : p <= skip_ws mem p end_.
Proof.
  unfold skip_ws. generalize (Z.to_nat (end_ - p)). intros n. revert p.
  induction n as [|n IH]; intros p; cbn [skip_ws_loop]; [lia|]. destruct (is_ws _); [|lia]. specialize (IH (p + 1)). lia.
Qed.

Lemma to_colon_ge ty len p end_ ty' len' q : to_colon mem ty len p end_ = HnOk ty' len' q → p < q.
Proof. unfold to_colon. destruct (_ || _); [done|]. intros [= <- <- <-]. pose proof (skip_ws_ge p end_). lia. Qed.

Lemma other_ge begin p end_ ty len q : other mem begin p end_ = HnOk ty len q → p < q.
Proof.
  unfold other. generalize (Z.to_nat (end_ - p)). intros n. revert p.
  induction n as [|n IH]; intros p; cbn [other_loop]; [done|].
  destruct (_ =? _); [intros [= <- <- <-]; lia|]. destruct (is_ws _); [intros Hq%to_colon_ge; lia|].
  intros Hq%IH. lia.
Qed.

Lemma dc_cont_ge ty len begin p end_ ty' len' q : dc_cont mem ty len begin p end_ = HnOk ty' len' q → p < q.
Proof.
  unfold dc_cont. destruct (end_ <=? p); [done|]. destruct (_ =? _); [intros [= <- <- <-]; lia|].
  destruct (is_ws _); [intros Hq%to_colon_ge; lia|apply other_ge].
Qed.

Lemma parse_hname2_advances begin end_ ty len q : parse_hname2 mem begin end_ = HnOk ty len q → begin < q.
Proof.
  unfold parse_hname2. destruct (_ <? 4); [done|].
  destruct (run_path mem Hmem begin first_switch 0) as (cs & j & Hin & _ & Hrun). rewrite Z.add_0_r in Hrun. rewrite Hrun.
  pose proof jumps_advance as Hj. rewrite forallb_forall in Hj. apply list_elem_of_In, Hj in Hin. cbn [snd] in Hin.
  destruct j as [t l p|t l p|t l p|p]; cbn [move jump].
  - intros [= <- <- <-]. lia.
  - unfold dc_end. destruct (end_ <=? begin + p); [done|]. intros Hq%to_colon_ge. lia.
  - intros Hq%dc_cont_ge. lia.
  - intros Hq%other_ge. lia.
Qed.

Lemma scan_ge stop p end_ : p <= scan mem stop p end_.
Proof.
  unfold scan. generalize (dist p end_). intros n. revert p.
  induction n as [|n IH]; intros p; cbn [scan_loop]; [lia|]. destruct (stop _); [lia|]. specialize (IH (p + 1)). lia.
Qed.

Lemma eat_lws_ge p end_ : p <= eat_lws_end mem p end_.
Proof.
  unfold eat_lws_end. generalize (dist p end_). intros n. revert p.
  induction n as [|n IH]; intros p; cbn [eat_lws_loop]; [lia|]. repeat case_match; try lia.
  - specialize (IH (p + 1)). lia.
  - specialize (IH (p + 2)). lia.
  - specialize (IH (p + 3)). lia.
Qed.

Lemma parse_cseq_advances p end_ q c : parse_cseq mem p end_ = Some (q, c) → p < q.
Proof.
  unfold parse_cseq. pose proof (scan_ge (λ c, is_ws c || is_eol c) p end_) as H1.
  fold (eat_token_end mem p end_) in H1. set (t := eat_token_end mem p end_) in *.
  pose proof (scan_ge (λ c, negb (is_ws c)) t end_) as H2. fold (eat_space_end mem t end_) in H2.
  set (m := eat_space_end mem t end_) in *.
  pose proof (scan_ge (λ c, is_ws c || is_eol c) m end_) as H3. fold (eat_token_end mem m end_) in H3.
  set (m_end := eat_token_end mem m end_) in *. pose proof (eat_lws_ge m_end end_) as H4.
  repeat case_match; try done; intros [= <- <-]; lia.
Qed.

Lemma cl_lead_ge n : ∀ p end_, p <= cl_lead mem n p end_.
Proof. induction n as [|n IH]; intros p end_; cbn [cl_lead]; [lia|]. case_match; [|lia]. specialize (IH (p + 1) end_). lia. Qed.
Lemma cl_trail_ge n : ∀ p end_, p <= cl_trail mem n p end_.
Proof. induction n as [|n IH]; intros p end_; cbn [cl_trail]; [lia|]. case_match; [|lia]. specialize (IH (p + 1) end_). lia. Qed.
Lemma cl_number_ge n : ∀ p v q w, cl_number mem n p v = Some (q, w) → p <= q.
Proof.
  induction n as [|n IH]; intros p v q w; cbn [cl_number]; [intros [= <- <-]; lia|].
  case_match; [|intros [= <- <-]; lia]. case_match; [done|]. intros Hq%IH. lia.
Qed.

Lemma parse_content_length_advances p end_ q n : parse_content_length mem p end_ = Some (q, n) → p < q.
Proof.
  unfold parse_content_length. pose proof (cl_lead_ge (dist p end_) p end_) as H1.
  set (a := cl_lead mem (dist p end_) p end_) in *. destruct (a =? end_); [done|].
  destruct (cl_number mem (dist a end_) a 0) as [[b number]|] eqn:Hn; [|done]. apply cl_number_ge in Hn.
  destruct (_ || _); [done|]. pose proof (cl_trail_ge (dist b end_) b end_) as H2.
  repeat case_match; try done; intros [= <- <-]; lia.
Qed.

Lemma skip_lines_ge n : ∀ p end_ q, skip_lines mem n p end_ = Some q → p < q.
Proof.
  induction n as [|n IH]; intros p end_ q; cbn [skip_lines]; [done|]. unfold find_lf.
  pose proof (scan_ge (λ c, c =? 10) p end_). destruct (_ <? end_); [|done]. destruct (_ && _); [intros Hq%IH; lia|].
  intros [= <-]. lia.
Qed.
End progress.

(** ** The loop *)

Section loop.
Context `{body_parsers_ok} (mem : Z → byte) (Hmem : ∀ a, 0 <= mem a < 256).

Lemma body_skip_ok ty name tmp end_ hf next : body_skip mem ty name tmp end_ = HfOk hf next →
  hf_type hf = ty ∧ tmp < next.
Proof.
  unfold body_skip, skip_body. destruct (skip_lines _ _ _ _) eqn:Hs; [|done]. apply skip_lines_ge in Hs.
  intros [= <- <-]. done.
Qed.

Lemma body_parse_ok {A} al (parse : list bool → option (Z * A) * list bool) w ty name b hf next al' :
  body_parse mem al parse w ty name b = (HfOk hf next, al') → hf_type hf = ty ∧ ∃ al1 x, parse al1 = (Some (next, x), al').
Proof.
  unfold body_parse. destruct (pkg_alloc al) as [[|] al1]; [|done]. destruct (parse al1) as [[[tmp x]|] al2] eqn:Hr; [|done].
  intros [= <- <- <-]. split; [done|]. by exists al1, x.
Qed.

Lemma get_hdr_field_advances al buf end_ wk hf next al' :
  get_hdr_field_aux mem al buf end_ wk = (HfOk hf next, al') → buf < next.
Proof.
  unfold get_hdr_field_aux. destruct (is_eol _); [done|].
  destruct (parse_hname2 mem buf end_) as [|ty len tmp] eqn:Hn; [done|].
  apply parse_hname2_advances in Hn; [|done]. pose proof (eat_lws_ge mem tmp end_) as Hl.
  set (b := eat_lws_end mem tmp end_) in *. destruct (Z.leb_spec end_ b); [done|].
  destruct (skipped ty).
  { destruct (body_skip _ _ _ _ _) eqn:Hs; try done. intros [= <- <- <-]. apply body_skip_ok in Hs as [_ ?]. lia. }
  destruct ty; try done; destruct wk;
    try (destruct (body_skip _ _ _ _ _) eqn:Hs; try done; intros [= <- <- <-]; apply body_skip_ok in Hs as [_ ?]; lia).
  - intros Hp. apply body_parse_ok in Hp as (_ & al1 & x & Hx). apply parse_via_advances in Hx; lia.
  - intros Hp. apply body_parse_ok in Hp as (_ & al1 & x & Hx). apply parse_to_advances in Hx; lia.
  - intros Hp. apply body_parse_ok in Hp as (_ & al1 & x & [= Hx _]). apply parse_cseq_advances in Hx; lia.
  - destruct (parse_content_length mem b end_) as [[q n]|] eqn:Hc; [|done]. intros [= <- <- <-].
    apply parse_content_length_advances in Hc. lia.
Qed.

(** Linking a field keeps the end of the message and only adds flags. *)
Lemma add_hdr_frame m hf m' : add_hdr m hf = Some m' →
  msg_end m' = msg_end m ∧ unparsed m' = unparsed m ∧ ∀ f, Z.land f (parsed_flag m) = f → Z.land f (parsed_flag m') = f.
Proof.
  assert (Hf : ∀ a b f, Z.land f a = f → Z.land f (Z.lor a b) = f).
  { intros a b f Hf. rewrite Z.land_lor_distr_r, Hf. apply Z.bits_inj'. intros k _.
    rewrite Z.lor_spec, Z.land_spec. by destruct (Z.testbit f k). }
  unfold add_hdr, link_hdr. destruct (hdr_kind (hf_type hf)) as [[]|]; [| | |done];
    cbn [mbind option_bind]; intros [= <-]; cbn.
  - unfold link_sibling_hdr, link_vias. destruct (hook m (hf_type hf)); repeat case_match; cbn;
      (split; [done|]); (split; [done|]); intros f Hf'; repeat apply Hf; done.
  - destruct (hook m (hf_type hf)); cbn; (split; [done|]); (split; [done|]); intros f Hf'; by apply Hf.
  - by split.
Qed.

Abbreviation unsatisfied f m := (negb (Z.land f (parsed_flag m) =? f)).

(** With as many turns as there are bytes the loop ends, and more turns change nothing. *)
Lemma ph_loop_ends n : ∀ al m tmp f wk, (dist tmp (msg_end m) <= n)%nat → ph_loop mem n al m tmp f wk ≠ PhStuck.
Proof.
  induction n as [|n IH]; intros al m tmp f wk Hn; cbn [ph_loop].
  - unfold dist in Hn. by destruct (Z.ltb_spec tmp (msg_end m)); [lia|].
  - destruct (Z.ltb_spec tmp (msg_end m)); [|done]. cbn [andb]. destruct (negb _); [|done].
    destruct (pkg_alloc al) as [[|] al1]; [|done].
    destruct (get_hdr_field_aux mem al1 tmp (msg_end m) wk) as [[| |hf rest] al2] eqn:Hg; [done|done|].
    apply get_hdr_field_advances in Hg. destruct (add_hdr m hf) as [m'|] eqn:Ha; [|done].
    apply add_hdr_frame in Ha as (He & _). apply IH. rewrite He. unfold dist in *. lia.
Qed.

Lemma ph_loop_more n : ∀ k al m tmp f wk r, ph_loop mem n al m tmp f wk = r → r ≠ PhStuck → ph_loop mem (n + k) al m tmp f wk = r.
Proof.
  induction n as [|n IH]; intros k al m tmp f wk r; cbn [ph_loop Nat.add].
  - destruct (_ && _) eqn:Hc; [by intros <-|]. intros <- _. destruct k; cbn [ph_loop]; by rewrite Hc.
  - destruct (_ && _); [|done]. destruct (pkg_alloc al) as [[|] al1]; [|done].
    destruct (get_hdr_field_aux mem al1 tmp (msg_end m) wk) as [[| |hf rest] al2]; [done|done|].
    destruct (add_hdr m hf); [|done]. apply IH.
Qed.

Lemma land_lor_satisfied f1 f2 x : (Z.land (Z.lor f1 f2) x =? Z.lor f1 f2) = (Z.land f1 x =? f1) && (Z.land f2 x =? f2).
Proof.
  apply eq_true_iff_eq. rewrite andb_true_iff, !Z.eqb_eq. split.
  - intros Hl. assert (Hb : ∀ k, 0 <= k → Z.testbit (Z.land (Z.lor f1 f2) x) k = Z.testbit (Z.lor f1 f2) k) by (intros; by rewrite Hl).
    split; apply Z.bits_inj'; intros k Hk; specialize (Hb k Hk); rewrite Z.land_spec, ?Z.lor_spec in *;
      destruct (Z.testbit f1 k), (Z.testbit f2 k), (Z.testbit x k); done.
  - intros [H1 H2]. by rewrite Z.land_lor_distr_l, H1, H2.
Qed.

(** Flags that are already there do not matter. *)
Lemma ph_loop_satisfied n : ∀ al m tmp f1 f2 wk, Z.land f1 (parsed_flag m) = f1 →
  ph_loop mem n al m tmp (Z.lor f1 f2) wk = ph_loop mem n al m tmp f2 wk.
Proof.
  induction n as [|n IH]; intros al m tmp f1 f2 wk Hf; cbn [ph_loop]; rewrite land_lor_satisfied, (proj2 (Z.eqb_eq _ _) Hf);
    cbn [andb]; [done|]. destruct (_ && _); [|done]. destruct (pkg_alloc al) as [[|] al1]; [|done].
  destruct (get_hdr_field_aux mem al1 tmp (msg_end m) wk) as [[| |hf rest] al2]; [done|done|].
  destruct (add_hdr m hf) as [m'|] eqn:Ha; [|done]. apply IH. by apply add_hdr_frame in Ha as (_ & _ & ->).
Qed.

Lemma ph_loop_stop n al m tmp f wk : msg_end m <= tmp → ph_loop mem n al m tmp f wk = PhSkip m tmp al.
Proof. intros Ht. destruct n; cbn [ph_loop]; by destruct (Z.ltb_spec tmp (msg_end m)); [lia|]. Qed.

(** A loop that stops without an error, and the loop that looks for more: both work
    through the same fields. *)
Lemma ph_loop_resume n : ∀ al m tmp f1 f2 wk m1 tmp1 al1,
  0 <= f2 < 2 ^ 64 → ph_loop mem n al m tmp f1 wk = PhSkip m1 tmp1 al1 →
  tmp <= tmp1 ∧ msg_end m1 = msg_end m ∧
  ∀ k, (dist tmp1 (msg_end m1) <= k)%nat →
    ph_loop mem (n + k) al m tmp (Z.lor f1 f2) wk = ph_loop mem k al1 m1 tmp1 f2 wk.
Proof.
  assert (Hstop : ∀ n al m tmp f1 f2 wk, (tmp <? msg_end m) && unsatisfied f1 m = false →
    ∀ k, (dist tmp (msg_end m) <= k)%nat →
    ph_loop mem (n + k) al m tmp (Z.lor f1 f2) wk = ph_loop mem k al m tmp f2 wk).
  { intros n0 al m tmp f1 f2 wk Hc k Hk. destruct (Z.ltb_spec tmp (msg_end m)); [|by rewrite !ph_loop_stop by done].
    cbn [andb] in Hc. apply negb_false_iff, Z.eqb_eq in Hc. rewrite ph_loop_satisfied by done.
    rewrite Nat.add_comm. apply ph_loop_more; [done|]. by apply ph_loop_ends. }
  induction n as [|n IH]; intros al m tmp f1 f2 wk m1 tmp1 al1 Hf2; cbn [ph_loop].
  - destruct (_ && _) eqn:Hc; [done|]. intros [= <- <- <-]. split; [lia|]. split; [done|]. by apply (Hstop 0%nat).
  - destruct (_ && _) eqn:Hc.
    2:{ intros [= <- <- <-]. split; [lia|]. split; [done|]. by apply (Hstop (S n)). }
    apply andb_prop in Hc as [Ht Hu].
    destruct (pkg_alloc al) as [[|] al0] eqn:Hal; [|done].
    destruct (get_hdr_field_aux mem al0 tmp (msg_end m) wk) as [[| |hf rest] al2] eqn:Hg; [done| |].
    + intros [= <- <- <-]. split; [lia|]. split; [done|]. intros k Hk. cbn [ph_loop Nat.add].
      rewrite Ht, land_lor_satisfied, negb_andb, Hu. cbn [andb orb]. rewrite Hal, Hg.
      assert (Hall : Z.land f2 (parsed_flag (add_flag (with_eoh m tmp) HDR_EOH_T)) =? f2 = true).
      { apply Z.eqb_eq. cbn [parsed_flag add_flag with_flag with_eoh]. apply Z.bits_inj'. intros i Hi. rewrite Z.land_spec, Z.lor_spec.
        change (HDR_T2F HDR_EOH_T) with (Z.ones 64). rewrite Z.testbit_ones_nonneg by lia.
        destruct (Z.ltb_spec i 64); [by rewrite orb_true_r, andb_true_r|].
        rewrite (Z.bits_above_log2 f2 i); [done|lia|]. destruct (decide (f2 = 0)) as [->|]; [simpl; lia|].
        assert (Z.log2 f2 < 64) by (apply Z.log2_lt_pow2; lia). lia. }
      destruct k; cbn [ph_loop]; rewrite Hall; cbn [negb]; by rewrite andb_false_r.
    + destruct (add_hdr m hf) as [m'|] eqn:Ha; [|done]. intros Hrun.
      apply (IH al2 m' rest f1 f2 wk m1 tmp1 al1 Hf2) in Hrun as (Hle & He & Hk).
      apply get_hdr_field_advances in Hg as Hadv. apply add_hdr_frame in Ha as Hframe. destruct Hframe as (He' & _ & _).
      split; [lia|]. split; [congruence|]. intros k Hk'. cbn [ph_loop Nat.add].
      rewrite Ht, land_lor_satisfied, negb_andb, Hu. cbn [andb orb]. rewrite Hal, Hg, Ha. by apply Hk.
Qed.

(** The loop does not look at [msg->unparsed]. *)
Definition at_unparsed (u : Z) (r : ph_result) : ph_result :=
  match r with
  | PhSkip m tmp al => PhSkip (with_unparsed m u) tmp al
  | PhError m al => PhError (with_unparsed m u) al
  | PhStuck => PhStuck
  end.

Lemma add_hdr_unparsed m u hf : add_hdr (with_unparsed m u) hf = (λ m, with_unparsed m u) <$> add_hdr m hf.
Proof.
  unfold add_hdr, link_hdr. destruct (hdr_kind (hf_type hf)) as [[]|]; [| |done|done]; cbn.
  - unfold link_sibling_hdr, link_vias. cbn. destruct (hook m (hf_type hf)); cbn;
      (destruct (decide (hf_type hf = HDR_VIA_T)); [|done]); (destruct (hf_parsed hf) as [[v| | |]|]; try done);
      cbn; (destruct (via1 m); [by destruct (via2 m)|by destruct (via_next v)]).
  - by destruct (hook m (hf_type hf)).
Qed.

Lemma ph_loop_unparsed n : ∀ al m u tmp f wk,
  ph_loop mem n al (with_unparsed m u) tmp f wk = at_unparsed u (ph_loop mem n al m tmp f wk).
Proof.
  induction n as [|n IH]; intros al m u tmp f wk; cbn [ph_loop]; cbn [msg_end parsed_flag with_unparsed];
    (destruct (_ && _); [|done]); [done|].
  destruct (pkg_alloc al) as [[|] al1]; [|done].
  destruct (get_hdr_field_aux mem al1 tmp (msg_end m) wk) as [[| |hf rest] al2]; [done|done|].
  rewrite add_hdr_unparsed. destruct (add_hdr m hf); [apply IH|done].
Qed.
End loop.


(** ** Hooks and siblings *)

(** The positions of the fields of a type, in order. *)
Fixpoint idx_from `{body_parsers} (n : nat) (l : list hdr_field) (ty : hdr_types_t) : list nat :=
  match l with
  | [] => []
  | hf :: l => (if decide (hf_type hf = ty) then [n] else []) ++ idx_from (S n) l ty
  end.
Definition type_idx `{body_parsers} (l : list hdr_field) (ty : hdr_types_t) : list nat := idx_from 0 l ty.

(** The parsed Via bodies, in the order of the fields. *)
Definition via_bodies `{body_parsers} (l : list hdr_field) : list via_body :=
  omap (λ hf, match hf_parsed hf with Some (ParsedVia v) => Some v | _ => None end) l.

(** The message knows its fields: the hook of a type whose fields are siblings is the
    first of them and each leads to the next one, the other hooks are the first field of
    their type, and the first two Via bodies are at hand. *)
Record linked `{body_parsers} (wk : bool) (m : sip_msg) : Prop := {
  linked_hook ty : hdr_kind ty = Some HkSibling ∨ hdr_kind ty = Some HkFirst →
    hook m ty = head (type_idx (headers m) ty);
  linked_next ty k i : hdr_kind ty = Some HkSibling → type_idx (headers m) ty !! k = Some i →
    headers m !! i ≫= hf_sibling = type_idx (headers m) ty !! S k;
  linked_via1 : wk = true → via1 m = head (via_bodies (headers m));
  linked_via2 : wk = true → via2 m =
    match via_bodies (headers m) with
    | v1 :: rest => match via_next v1 with Some v => Some v | None => head rest end
    | [] => None
    end;
  linked_vias : wk = true → via_bodies (headers m) = [] → type_idx (headers m) HDR_VIA_T = [];
  linked_novia : wk = false → via_bodies (headers m) = []
}.

Section linked.
Context `{body_parsers}.

Lemma type_idx_types (l l' : list hdr_field) ty : hf_type <$> l = hf_type <$> l' → type_idx l ty = type_idx l' ty.
Proof.
  unfold type_idx. generalize 0%nat. revert l'. induction l as [|hf l IH]; intros [|hf' l'] n; try done.
  cbn [fmap list_fmap idx_from]. intros [= -> E]. f_equal. by apply IH.
Qed.

Lemma type_idx_snoc (l : list hdr_field) hf ty :
  type_idx (l ++ [hf]) ty = type_idx l ty ++ (if decide (hf_type hf = ty) then [length l] else []).
Proof.
  unfold type_idx. rewrite <- (Nat.add_0_l (length l)). generalize 0%nat.
  induction l as [|x l IH]; intros n; cbn [app idx_from length].
  - by rewrite Nat.add_0_r, app_nil_r.
  - rewrite IH, app_assoc, Nat.add_succ_r. done.
Qed.

Lemma idx_from_elem n (l : list hdr_field) ty i : i ∈ idx_from n l ty → (n <= i)%nat ∧ hf_type <$> l !! (i - n)%nat = Some ty.
Proof.
  revert n. induction l as [|hf l IH]; intros n; cbn [idx_from]; [by intros ?%not_elem_of_nil|].
  intros [Hi|Hi]%elem_of_app.
  - destruct (decide (hf_type hf = ty)) as [<-|]; [|by apply not_elem_of_nil in Hi].
    apply list_elem_of_singleton in Hi as ->. by rewrite Nat.sub_diag.
  - apply IH in Hi as [Hle Hi]. split; [lia|]. by replace (i - n)%nat with (S (i - S n)) by lia.
Qed.

Lemma type_idx_elem (l : list hdr_field) ty k i : type_idx l ty !! k = Some i → hf_type <$> l !! i = Some ty.
Proof. intros [_ Hi]%list_elem_of_lookup_2%idx_from_elem. by rewrite Nat.sub_0_r in Hi. Qed.

Lemma type_idx_nodup (l : list hdr_field) ty : NoDup (type_idx l ty).
Proof.
  unfold type_idx. generalize 0%nat. induction l as [|hf l IH]; intros n; cbn [idx_from]; [constructor|].
  destruct (decide _); [|apply IH]. apply NoDup_cons. split; [|apply IH]. intros Hn%idx_from_elem. lia.
Qed.

Lemma type_idx_length (l : list hdr_field) ty : (length (type_idx l ty) <= length l)%nat.
Proof.
  unfold type_idx. generalize 0%nat. induction l as [|hf l IH]; intros n; cbn [idx_from length]; [done|].
  rewrite length_app. specialize (IH (S n)). destruct (decide _); simpl; lia.
Qed.

(** Walking the chain leads to the last field of the type. *)
Lemma chain_last_idx (l : list hdr_field) idx :
  (∀ k i, idx !! k = Some i → l !! i ≫= hf_sibling = idx !! S k) →
  ∀ n k i, idx !! k = Some i → (length idx <= n + k + 1)%nat → last idx = Some (chain_last n l i).
Proof.
  intros Hnext. induction n as [|n IH]; intros k i Hk Hn.
  - apply lookup_lt_Some in Hk as Hlt. rewrite last_lookup. replace (pred (length idx)) with k by lia. done.
  - cbn [chain_last]. rewrite (Hnext k i Hk). destruct (idx !! S k) as [j|] eqn:Hj.
    + apply (IH (S k)); [done|lia].
    + apply lookup_lt_Some in Hk as Hlt. apply lookup_ge_None in Hj. rewrite last_lookup.
      by replace (pred (length idx)) with k by lia.
Qed.

(** What [link_sibling_hdr] does to the fields: the last sibling leads to the new one. *)
Definition hook_first (m : sip_msg) (ty : hdr_types_t) : Prop := hook m ty = head (type_idx (headers m) ty).
Definition chain_ok (l : list hdr_field) (ty : hdr_types_t) : Prop :=
  ∀ k i, type_idx l ty !! k = Some i → l !! i ≫= hf_sibling = type_idx l ty !! S k.

Lemma set_sibling_types (l : list hdr_field) (i j : nat) : hf_type <$> alter (λ hf, set_sibling hf i) j l = hf_type <$> l.
Proof. apply list_eq. intros k. rewrite !list_lookup_fmap. destruct (decide (k = j)) as [->|].
  - rewrite list_lookup_alter_eq. by destruct (l !! j).
  - by rewrite list_lookup_alter_ne.
Qed.

(** A new field without siblings does not disturb a chain. *)
Lemma chain_snoc_other l hf ty : hf_type hf ≠ ty → chain_ok l ty → chain_ok (l ++ [hf]) ty.
Proof.
  intros Hne Hc k i. rewrite type_idx_snoc, decide_False, app_nil_r by done. intros Hk.
  pose proof (type_idx_elem l ty k i Hk) as Hi. destruct (l !! i) as [x|] eqn:Hx; [|done].
  rewrite lookup_app_l by (by eapply lookup_lt_Some). rewrite <- (Hc k i Hk). done.
Qed.

Lemma chain_snoc_first l hf ty : hf_type hf = ty → hf_sibling hf = None → type_idx l ty = [] → chain_ok (l ++ [hf]) ty.
Proof.
  intros Hty Hs Hn k i. rewrite type_idx_snoc, Hn, decide_True by done. simpl. destruct k as [|k]; [|done].
  intros [= <-]. rewrite lookup_app_r, Nat.sub_diag by lia. done.
Qed.

(** Setting the sibling of the last field of a chain extends it. *)
Lemma chain_snoc_last l hf ty (j : nat) : hf_type hf = ty → hf_sibling hf = None → chain_ok l ty →
  last (type_idx l ty) = Some j → chain_ok (alter (λ x, set_sibling x (length l)) j l ++ [hf]) ty.
Proof.
  intros Hty Hs Hc Hj. set (l1 := alter _ j l).
  assert (Hti : type_idx l1 ty = type_idx l ty) by (apply type_idx_types, set_sibling_types).
  assert (Hl1 : length l1 = length l) by apply length_alter.
  rewrite last_lookup in Hj. set (z := pred (length (type_idx l ty))) in *.
  intros k i. rewrite type_idx_snoc, Hti, decide_True, Hl1 by done. intros Hk.
  destruct (decide (k < length (type_idx l ty))%nat) as [Hlt|Hge].
  - rewrite lookup_app_l in Hk by done. pose proof (type_idx_elem l ty k i Hk) as Hi.
    destruct (l !! i) as [x|] eqn:Hx; [|done]. apply lookup_lt_Some in Hx as Hxl.
    rewrite lookup_app_l by (rewrite Hl1; done). destruct (decide (i = j)) as [->|Hij].
    + assert (k = z) as -> by (eapply NoDup_lookup; [apply type_idx_nodup|done|done]).
      unfold l1. rewrite list_lookup_alter_eq, Hx. cbn [mbind option_bind fmap option_map option_fmap set_sibling hf_sibling].
      rewrite lookup_app_r by (unfold z in *; lia). replace (S z - length (type_idx l ty))%nat with 0%nat by (unfold z in *; lia). done.
    + unfold l1. rewrite list_lookup_alter_ne by done. rewrite (Hc k i Hk).
      destruct (decide (S k < length (type_idx l ty))%nat) as [Hlt2|]; [by rewrite lookup_app_l|].
      exfalso. apply Hij. assert (k = z) as -> by (unfold z; lia). congruence.
  - rewrite lookup_app_r in Hk by lia. apply list_lookup_singleton_Some in Hk as [Hk <-].
    rewrite lookup_app_r by lia. rewrite Hl1, Nat.sub_diag. cbn [lookup list_lookup mbind option_bind]. rewrite Hs.
    symmetry. apply lookup_ge_None. rewrite length_app. simpl. lia.
Qed.

Lemma chain_alter_other l ty' (j i : nat) x : l !! j = Some x → hf_type x ≠ ty' → chain_ok l ty' →
  chain_ok (alter (λ x, set_sibling x i) j l) ty'.
Proof.
  intros Hx Hne Hc k a. rewrite (type_idx_types _ l) by apply set_sibling_types. intros Hk.
  pose proof (type_idx_elem l ty' k a Hk) as Ha. rewrite list_lookup_alter_ne; [by apply Hc|].
  intros ->. rewrite Hx in Ha. cbn in Ha. congruence.
Qed.

(** The effect of [link_sibling_hdr] and of adding the field to the list. *)
Lemma link_sibling_snoc m hf : let ty := hf_type hf in
  hook_first m ty → chain_ok (headers m) ty → hf_sibling hf = None →
  let m' := link_sibling_hdr m ty (length (headers m)) in
  let l' := headers m' ++ [hf] in
  hf_type <$> headers m' = hf_type <$> headers m ∧ hf_parsed <$> headers m' = hf_parsed <$> headers m ∧
  via1 m' = via1 m ∧ via2 m' = via2 m ∧ hook m' ty = head (type_idx l' ty) ∧ chain_ok l' ty ∧
  (∀ ty', ty' ≠ ty → hook m' ty' = hook m ty' ∧ (chain_ok (headers m) ty' → chain_ok l' ty')).
Proof.
  intros ty Hh Hc Hsib. unfold hook_first in Hh. cbv zeta. unfold link_sibling_hdr.
  destruct (hook m ty) as [h|] eqn:Hhook.
  - destruct (type_idx (headers m) ty) as [|h' idx] eqn:Hidx; [done|]. injection Hh as <-.
    assert (Hlast : last (type_idx (headers m) ty) = Some (chain_last (length (headers m)) (headers m) h)).
    { apply (chain_last_idx (headers m) _ Hc _ 0%nat); [by rewrite Hidx|]. pose proof (type_idx_length (headers m) ty). lia. }
    set (j := chain_last _ _ h) in *. cbn [headers with_headers hook via1 via2].
    assert (Hj : ∃ x, headers m !! j = Some x ∧ hf_type x = ty).
    { rewrite last_lookup in Hlast. apply type_idx_elem in Hlast. destruct (headers m !! j) as [x|]; [|done].
      exists x. cbn in Hlast. by injection Hlast as <-. }
    destruct Hj as (x & Hx & Hxty).
    split; [apply set_sibling_types|]. split.
    { apply list_eq. intros k. rewrite !list_lookup_fmap. destruct (decide (k = j)) as [->|];
        [rewrite list_lookup_alter_eq; by rewrite Hx|by rewrite list_lookup_alter_ne]. }
    split; [done|]. split; [done|]. split.
    { rewrite type_idx_snoc, (type_idx_types _ (headers m)), Hidx by apply set_sibling_types. by rewrite Hhook. }
    split; [by apply chain_snoc_last|]. intros ty' Hne. split; [done|]. intros Hc'.
    apply chain_snoc_other; [done|]. apply (chain_alter_other _ _ _ _ x); [done|congruence|done].
  - destruct (type_idx (headers m) ty) as [|] eqn:Hidx; [|done]. cbn [headers with_hook hook via1 via2].
    do 4 (split; [done|]). split; [rewrite type_idx_snoc, Hidx, !decide_True by done; done|].
    split; [by apply chain_snoc_first|]. intros ty' Hne. rewrite decide_False by done. split; [done|].
    intros Hc'. by apply chain_snoc_other.
Qed.

(** A field as [get_hdr_field_aux] makes it. *)
Definition fresh_hdr (wk : bool) (hf : hdr_field) : Prop :=
  hf_sibling hf = None ∧
  match hf_parsed hf with
  | Some (ParsedVia _) => hf_type hf = HDR_VIA_T ∧ wk = true
  | _ => hf_type hf = HDR_VIA_T → wk = false
  end.

Lemma get_hdr_field_fresh mem al buf end_ wk hf next al' :
  get_hdr_field_aux mem al buf end_ wk = (HfOk hf next, al') → fresh_hdr wk hf.
Proof.
  assert (Hskip : ∀ ty name tmp hf next, body_skip mem ty name tmp end_ = HfOk hf next →
    (ty = HDR_VIA_T → wk = false) → fresh_hdr wk hf).
  { intros ty name tmp hf' next' Hs Hty. unfold body_skip in Hs. destruct (skip_body _ _ _); [|done].
    injection Hs as <- <-. by split. }
  unfold get_hdr_field_aux. destruct (is_eol _); [done|].
  destruct (parse_hname2 mem buf end_) as [|ty len tmp]; [done|]. destruct (_ <=? _); [done|].
  destruct (skipped ty) eqn:Hsk.
  { destruct (body_skip _ _ _ _ _) eqn:Hs; try done. intros [= <- <- <-]. eapply Hskip; [done|by intros ->]. }
  unfold body_parse, mk_field.
  destruct ty; try done; destruct wk;
    try (destruct (body_skip _ _ _ _ _) eqn:Hs; try done; intros [= <- <- <-]; by eapply Hskip);
    repeat case_match; try done; intros [= <- <- <-]; by split.
Qed.

Lemma via_bodies_snoc l hf : via_bodies (l ++ [hf]) =
  via_bodies l ++ match hf_parsed hf with Some (ParsedVia v) => [v] | _ => [] end.
Proof. unfold via_bodies. rewrite omap_app. f_equal. cbn. by destruct (hf_parsed hf) as [[]|]. Qed.

Lemma via_bodies_parsed l l' : hf_parsed <$> l = hf_parsed <$> l' → via_bodies l = via_bodies l'.
Proof.
  unfold via_bodies. revert l'. induction l as [|hf l IH]; intros [|hf' l']; try done.
  cbn [fmap list_fmap]. intros [= E1 E2]. cbn. rewrite E1, (IH l' E2). done.
Qed.

(** Adding a field whose hooks and chains are right keeps the rest as it was. *)
Lemma linked_snoc wk m m' hf : linked wk m → fresh_hdr wk hf →
  hf_type <$> headers m' = hf_type <$> headers m → hf_parsed <$> headers m' = hf_parsed <$> headers m →
  let l' := headers m' ++ [hf] in
  (∀ ty, hdr_kind ty = Some HkSibling ∨ hdr_kind ty = Some HkFirst → hook m' ty = head (type_idx l' ty)) →
  (∀ ty, hdr_kind ty = Some HkSibling → chain_ok l' ty) →
  (wk = true → via1 m' = head (via_bodies l')) →
  (wk = true → via2 m' = match via_bodies l' with
     | v1 :: rest => match via_next v1 with Some v => Some v | None => head rest end | [] => None end) →
  linked wk (with_headers m' l').
Proof.
  intros Hm [Hs Hp] Ht Hpar l' Hhook Hch Hv1 Hv2. split; cbn [headers with_headers hook via1 via2]; try done.
  - intros ty k i Hk. by apply Hch.
  - intros Hwk. unfold l'. rewrite via_bodies_snoc, type_idx_snoc, (via_bodies_parsed _ _ Hpar), (type_idx_types _ _ _ Ht).
    intros [Hb Hh]%app_eq_nil. rewrite (linked_vias _ _ Hm Hwk Hb). simpl. apply decide_False. intros Hty.
    destruct (hf_parsed hf) as [[]|]; try done; specialize (Hp Hty); congruence.
  - intros Hwk. unfold l'. rewrite via_bodies_snoc, (via_bodies_parsed _ _ Hpar), (linked_novia _ _ Hm Hwk).
    destruct (hf_parsed hf) as [[]|]; try done. destruct Hp. congruence.
Qed.

Lemma hook_snoc_other m m' hf ty : hook_first m ty → hf_type <$> headers m' = hf_type <$> headers m →
  hook m' ty = hook m ty → hf_type hf ≠ ty → hook m' ty = head (type_idx (headers m' ++ [hf]) ty).
Proof.
  intros Hh Ht -> Hne. rewrite type_idx_snoc, decide_False, app_nil_r, (type_idx_types _ _ _ Ht) by done. apply Hh.
Qed.

Lemma vias_snoc_other wk m hf : linked wk m → fresh_hdr wk hf → hf_type hf ≠ HDR_VIA_T ∨ wk = false →
  ∀ l, hf_parsed <$> l = hf_parsed <$> headers m → via_bodies (l ++ [hf]) = via_bodies (headers m).
Proof.
  intros Hm [_ Hp] Hne l Hl. rewrite via_bodies_snoc, (via_bodies_parsed _ _ Hl).
  destruct (hf_parsed hf) as [[]|]; try (by rewrite app_nil_r). destruct Hp. destruct Hne; congruence.
Qed.

(** The first two Via bodies. *)
Lemma link_vias_bodies m hf v i : hf_parsed hf = Some (ParsedVia v) →
  via1 m = head (via_bodies (headers m)) →
  via2 m = match via_bodies (headers m) with
     | v1 :: rest => match via_next v1 with Some v => Some v | None => head rest end | [] => None end →
  let m' := link_vias m hf i in
  headers m' = headers m ∧ via1 m' = head (via_bodies (headers m) ++ [v]) ∧
  via2 m' = match via_bodies (headers m) ++ [v] with
     | v1 :: rest => match via_next v1 with Some v => Some v | None => head rest end | [] => None end ∧
  (∀ ty, hook m' ty = if decide (ty = HDR_VIA_T) then
     match via_bodies (headers m) with [] => Some i | _ => hook m ty end else hook m ty).
Proof.
  intros Hp H1 H2. unfold link_vias. rewrite Hp. destruct (via_bodies (headers m)) as [|v1 rest]; cbn in H1; rewrite H1.
  - destruct (via_next v) as [v'|] eqn:Hn; cbn; by rewrite ?H2, ?Hn.
  - destruct (via2 m) as [v2|] eqn:Hv2; cbn.
    + split; [done|]. split; [done|]. split; [|intros ty; by destruct (decide _)].
      rewrite Hv2, H2. destruct (via_next v1); [done|]. by destruct rest.
    + split; [done|]. split; [done|]. split; [|intros ty; by destruct (decide _)].
      destruct (via_next v1); [done|]. by destruct rest.
Qed.

Lemma add_hdr_linked wk m hf m' : linked wk m → fresh_hdr wk hf → add_hdr m hf = Some m' → linked wk m'.
Proof.
  intros Hm Hf Ha. unfold add_hdr, link_hdr in Ha.
  assert (Hh : ∀ ty, hdr_kind ty = Some HkSibling ∨ hdr_kind ty = Some HkFirst → hook_first m ty)
    by (intros; by apply (linked_hook _ _ Hm)).
  assert (Hc : ∀ ty, hdr_kind ty = Some HkSibling → chain_ok (headers m) ty)
    by (intros ty Hk k i; by apply (linked_next _ _ Hm)).
  assert (Hvias : hf_type hf ≠ HDR_VIA_T ∨ wk = false → ∀ m1, hf_parsed <$> headers m1 = hf_parsed <$> headers m →
     via_bodies (headers m1 ++ [hf]) = via_bodies (headers m)) by (intros; by apply (vias_snoc_other wk m)).
  destruct (hdr_kind (hf_type hf)) as [[]|] eqn:Hk; [| | |done]; cbn [mbind option_bind] in Ha.
  - destruct (link_sibling_snoc m hf) as (Ht & Hp & Hv1 & Hv2 & Hhk & Hch & Hother); [by apply Hh; left|by apply Hc|by destruct Hf|].
    set (m1 := link_sibling_hdr m (hf_type hf) (length (headers m))) in *.
    assert (Hhook' : ∀ ty, hdr_kind ty = Some HkSibling ∨ hdr_kind ty = Some HkFirst →
              hook m1 ty = head (type_idx (headers m1 ++ [hf]) ty)).
    { intros ty Hty. destruct (decide (ty = hf_type hf)) as [->|Hne]; [done|].
      apply (hook_snoc_other m); [by apply Hh|done|by apply Hother|done]. }
    assert (Hch' : ∀ ty, hdr_kind ty = Some HkSibling → chain_ok (headers m1 ++ [hf]) ty).
    { intros ty Hty. destruct (decide (ty = hf_type hf)) as [->|Hne]; [done|]. apply Hother; [done|by apply Hc]. }
    destruct (decide (hf_type hf = HDR_VIA_T)) as [Hvia|Hvia].
    2:{ injection Ha as <-. apply (linked_snoc wk m (add_flag m1 (hf_type hf)) hf); try done; cbn [via1 via2 headers add_flag with_flag];
        intros Hwk; rewrite Hvias by (done || by left); [rewrite Hv1; by apply (linked_via1 _ _ Hm)|rewrite Hv2; by apply (linked_via2 _ _ Hm)]. }
    assert (Hfp := proj2 Hf). cbv beta in Hfp. destruct wk.
    2:{ assert (Hnp : link_vias (add_flag m1 (hf_type hf)) hf (length (headers m)) = add_flag m1 (hf_type hf)).
        { unfold link_vias. destruct (hf_parsed hf) as [[]|]; try done. by destruct Hfp. }
        rewrite Hnp in Ha. injection Ha as <-. by apply (linked_snoc false m (add_flag m1 (hf_type hf)) hf). }
    destruct (hf_parsed hf) as [[v| | |]|] eqn:Hparsed; try (specialize (Hfp Hvia); done).
    assert (Hb : via_bodies (headers m1) = via_bodies (headers m)) by (by apply via_bodies_parsed).
    destruct (link_vias_bodies (add_flag m1 (hf_type hf)) hf v (length (headers m)) Hparsed) as (Hl & Hl1 & Hl2 & Hlh).
    { cbn [via1 via2 headers add_flag with_flag]. rewrite Hv1, Hb. by apply (linked_via1 _ _ Hm). }
    { cbn [via1 via2 headers add_flag with_flag]. rewrite Hv2, Hb. by apply (linked_via2 _ _ Hm). }
    set (m2 := link_vias _ hf _) in *. cbn [headers add_flag with_flag hook] in Hl, Hl1, Hl2, Hlh.
    injection Ha as <-. rewrite Hl. rewrite <- Hl in Ht, Hp, Hhook', Hch'. rewrite <- Hl.
    assert (Hbs : via_bodies (headers m2 ++ [hf]) = via_bodies (headers m1) ++ [v])
      by (by rewrite via_bodies_snoc, Hparsed, Hl).
    apply (linked_snoc true m m2 hf); try done.
    + intros ty Hty. rewrite Hlh, <- Hhook' by done. destruct (decide (ty = HDR_VIA_T)) as [->|]; [|done].
      destruct (via_bodies (headers m1)) eqn:Hbe; [|done].
      rewrite Hhook' by (by left). rewrite type_idx_snoc, (type_idx_types _ _ _ Ht), (linked_vias _ _ Hm eq_refl) by congruence.
      rewrite decide_True by done. simpl. f_equal. apply (f_equal length) in Ht. by rewrite !length_fmap in Ht.
    + intros _. by rewrite Hbs.
    + intros _. by rewrite Hbs.
  - injection Ha as <-. set (m1 := match hook m (hf_type hf) with None => _ | Some _ => m end).
    assert (Hm1 : headers m1 = headers m ∧ via1 m1 = via1 m ∧ via2 m1 = via2 m)
      by (unfold m1; by destruct (hook m (hf_type hf))).
    destruct Hm1 as (Hl & Hv1 & Hv2).
    assert (Hne : hf_type hf ≠ HDR_VIA_T) by (intros E; rewrite E in Hk; done).
    apply (linked_snoc wk m (add_flag m1 (hf_type hf)) hf); try done; cbn [via1 via2 headers add_flag with_flag hook];
      rewrite ?Hl; try done.
    + intros ty Hty. rewrite type_idx_snoc. destruct (decide (hf_type hf = ty)) as [<-|Hne'].
      * specialize (Hh (hf_type hf) (or_intror Hk)). unfold hook_first in Hh. unfold m1.
        destruct (hook m (hf_type hf)) as [h|] eqn:Hhk; [|cbn; rewrite decide_True by done];
          destruct (type_idx (headers m) (hf_type hf)); try done. cbn. by rewrite Hhk.
      * rewrite app_nil_r, <- (Hh ty Hty). unfold m1. destruct (hook m (hf_type hf)); [done|]. cbn.
        by rewrite decide_False.
    + intros ty Hty. apply chain_snoc_other; [congruence|by apply Hc].
    + intros Hwk. rewrite Hv1, Hvias by (done || by left). by apply (linked_via1 _ _ Hm).
    + intros Hwk. rewrite Hv2, Hvias by (done || by left). by apply (linked_via2 _ _ Hm).
  - injection Ha as <-. assert (Hne : hf_type hf ≠ HDR_VIA_T) by (intros E; rewrite E in Hk; done).
    apply (linked_snoc wk m m hf); try done.
    + intros ty Hty. apply (hook_snoc_other m); [by apply Hh|done|done|]. intros <-. destruct Hty; congruence.
    + intros ty Hty. apply chain_snoc_other; [congruence|by apply Hc].
    + intros Hwk. rewrite Hvias by (done || by left). by apply (linked_via1 _ _ Hm).
    + intros Hwk. rewrite Hvias by (done || by left). by apply (linked_via2 _ _ Hm).
Qed.
End linked.
