(* ===== verification/MsgHeadersProps.v ===== *)
(** * Properties of parsing and cloning the header fields

    The theorems over sequences of calls: the fields of a message are linked in the right
    places however it is parsed; what [clone_headers] does to the hooks; how a failed call
    makes the next one link its fields again; and that fields written one after the other
    are read back. *)

From stdpp Require Import prelude list strings fin_maps.
From Stdlib Require Import ZArith Lia Ascii.
From S2P Require Import Prelude HdrNames HdrNamesSpec HdrBodies MsgHeaders MsgHeadersSpec.

(** ** An instance of the interface *)

(** Bodies that are lines of text. *)
Definition line_parsers : body_parsers := {|
  via_body := unit;
  via_next := λ _, None;
  to_body := unit;
  parse_via mem al p end_ := ((λ q, (q, tt)) <$> skip_body mem p end_, al);
  parse_to mem al p end_ := ((λ q, (q, tt)) <$> skip_body mem p end_, al)
|}.

Lemma line_parsers_ok : @body_parsers_ok line_parsers.
Proof.
  split; [..|done|done]; intros mem al p end_ q x al' Hp; cbn; unfold skip_body; destruct (skip_lines mem _ p end_) eqn:Hs; try done;
    cbn; intros [= <- _ _]; by apply skip_lines_ge in Hs.
Qed.

(** Text at address [base] and zeros around it. *)
Definition mem_of (base : Z) (s : bytes) (a : Z) : byte :=
  if base <=? a then nth (Z.to_nat (a - base)) s 0 else 0.

Lemma mem_of_range base s : forallb (λ c, (0 <=? c) && (c <? 256)) s = true → ∀ a, 0 <= mem_of base s a < 256.
Proof.
  intros Hs a. unfold mem_of. destruct (base <=? a); [|lia].
  destruct (nth_in_or_default (Z.to_nat (a - base)) s 0) as [Hin|E]; [|lia].
  rewrite forallb_forall in Hs. specialize (Hs _ Hin). lia.
Qed.

Lemma mem_of_text base s : text_at (mem_of base s) base s.
Proof.
  intros i c Hi. unfold mem_of. destruct (Z.leb_spec base (base + Z.of_nat i)); [|lia].
  replace (Z.to_nat (base + Z.of_nat i - base)) with i by lia. by apply nth_lookup_Some.
Qed.

(** A message that has not been parsed. *)
Definition fresh_msg `{body_parsers} (start end_ : Z) : sip_msg := mk_msg end_ start None 0 [] (λ _, None) None None.

(** ** Sequences of calls *)

(** A call: the allocator, the flags and [next]. *)
Fixpoint parse_calls `{body_parsers} (mem : Z → byte) (m : sip_msg) (cs : list (list bool * Z * bool)) (wk : bool)
    : option sip_msg :=
  match cs with
  | [] => Some m
  | (al, f, next) :: cs => '(_, m, _) ← parse_headers_aux mem al m f next wk; parse_calls mem m cs wk
  end.

Section calls.
Context `{body_parsers}.

Lemma linked_same wk (m m' : sip_msg) : headers m' = headers m → hook m' = hook m → via1 m' = via1 m → via2 m' = via2 m →
  linked wk m → linked wk m'.
Proof. intros E1 E2 E3 E4 []. split; by rewrite ?E1, ?E2, ?E3, ?E4. Qed.

Lemma fresh_linked wk start end_ : linked wk (fresh_msg start end_).
Proof. by split. Qed.

Definition ph_linked (wk : bool) (r : ph_result) : Prop :=
  match r with PhSkip m _ _ | PhError m _ => linked wk m | PhStuck => True end.

Lemma ph_loop_linked mem n : ∀ al m tmp f wk, linked wk m → ph_linked wk (ph_loop mem n al m tmp f wk).
Proof.
  induction n as [|n IH]; intros al m tmp f wk Hm; cbn [ph_loop]; (destruct (_ && _); [|done]); [done|].
  destruct (pkg_alloc al) as [[|] al1]; [|done].
  destruct (get_hdr_field_aux mem al1 tmp (msg_end m) wk) as [[| |hf rest] al2] eqn:Hg; [done| |].
  - cbn. by apply (linked_same wk m).
  - destruct (add_hdr m hf) as [m'|] eqn:Ha; [|done]. apply IH. eapply add_hdr_linked; [done| |done].
    by eapply get_hdr_field_fresh.
Qed.

Lemma parse_headers_linked mem al m f next wk r m' al' : linked wk m →
  parse_headers_aux mem al m f next wk = Some (r, m', al') → linked wk m'.
Proof.
  intros Hm. unfold parse_headers_aux. set (m0 := if next then _ else m).
  assert (H0 : linked wk m0) by (unfold m0; destruct next; [by apply (linked_same wk m)|done]).
  pose proof (ph_loop_linked mem (dist (unparsed m0) (msg_end m0)) al m0 (unparsed m0) f wk H0) as Hl.
  destruct (ph_loop _ _ _ _ _ _ _) as [m1 tmp al1|m1 al1|]; cbn in Hl; [| |done]; intros [= <- <- <-].
  - by apply (linked_same wk m1).
  - destruct next; [by apply (linked_same wk m1)|done].
Qed.
End calls.

Lemma parse_headers_returns `{body_parsers_ok} mem al m f next wk : (∀ a, 0 <= mem a < 256) →
  ∃ r m' al', parse_headers_aux mem al m f next wk = Some (r, m', al').
Proof.
  intros Hmem. unfold parse_headers_aux. set (m0 := if next then _ else m).
  pose proof (ph_loop_ends mem Hmem _ al m0 (unparsed m0) f wk (Nat.le_refl _)) as He.
  destruct (ph_loop _ _ _ _ _ _ _); [by eexists _, _, _..|done].
Qed.

Lemma parse_calls_linked `{body_parsers_ok} mem m cs wk : (∀ a, 0 <= mem a < 256) → linked wk m →
  ∃ m', parse_calls mem m cs wk = Some m' ∧ linked wk m'.
Proof.
  intros Hmem. revert m. induction cs as [|[[al f] next] cs IH]; intros m Hl; cbn [parse_calls]; [by exists m|].
  destruct (parse_headers_returns mem al m f next wk Hmem) as (r & m' & al' & Hp). rewrite Hp. cbn [mbind option_bind].
  apply IH. by eapply parse_headers_linked.
Qed.

(** C13. However a message is parsed, in any number of calls, for any header fields, with or
    without [next], and also when memory runs out or a field is malformed, its fields are
    linked in the right places: the hook of a type leads to the first field of that type,
    the siblings from there through all of them in order, and [via1] and [via2] are the
    first two Via bodies. *)
Theorem headers_linked `{body_parsers_ok} mem start end_ cs wk : (∀ a, 0 <= mem a < 256) →
  ∃ m, parse_calls mem (fresh_msg start end_) cs wk = Some m ∧ linked wk m.
Proof.
  intros Hmem. apply parse_calls_linked; [done|apply fresh_linked].
Qed.

Definition sample : bytes :=
  bs "To: <sip:a@b>" ++ [13; 10] ++ bs "m: <sip:c>" ++ [13; 10] ++ bs "X-Info : y" ++ [13; 10; 32] ++ bs "z" ++ [13; 10] ++
  bs "Contact: <sip:d>" ++ [13; 10] ++ bs "TO: other" ++ [13; 10; 13; 10].

Lemma sample_bytes a : 0 <= mem_of 1000 sample a < 256.
Proof. by apply mem_of_range. Qed.

Lemma headers_linked_witness :
  ∃ m, @parse_calls line_parsers (mem_of 1000 sample) (fresh_msg 1000 (1000 + Z.of_nat (length sample)))
         [([], HDR_T2F HDR_CONTACT_T, false); ([], HDR_T2F HDR_EOH_T, false)] true = Some m ∧ linked true m.
Proof.
  apply (@headers_linked line_parsers line_parsers_ok (mem_of 1000 sample)). apply sample_bytes.
Defined.

(** The fields found in this message: the second Contact is the sibling of the first. *)
Example sample_fields :
  (λ m, (hf_type <$> headers m, hf_body <$> headers m, hook m HDR_TO_T, hook m HDR_CONTACT_T, hf_sibling <$> headers m)) <$>
    @parse_calls line_parsers (mem_of 1000 sample) (fresh_msg 1000 (1000 + Z.of_nat (length sample)))
         [([], HDR_T2F HDR_CONTACT_T, false); ([], HDR_T2F HDR_EOH_T, false)] true =
  Some ([HDR_TO_T; HDR_CONTACT_T; HDR_OTHER_T; HDR_CONTACT_T; HDR_TO_T],
        [(1004, 9); (1018, 7); (1036, 5); (1052, 7); (1065, 5)], Some 0%nat, Some 1%nat, [None; Some 3%nat; None; None; None]).
Proof. by vm_compute. Qed.

(** ** Cloning *)

Section clone.
Context `{body_parsers}.

(** The copy made of a prefix of the list. *)
Record cloned (m : sip_msg) (l : list hdr_field) : Prop := {
  cloned_types : hf_type <$> headers m = hf_type <$> l;
  cloned_sibling ty : clone_kind ty = Some HkSibling → hook m ty = head (type_idx l ty) ∧ chain_ok (headers m) ty;
  cloned_last ty : clone_kind ty = Some HkFirst → hook m ty = last (type_idx l ty)
}.

Lemma clone_hdr_cloned m l hf : cloned m l → cloned (clone_hdr m hf) (l ++ [hf]).
Proof.
  intros [Ht Hs Hf]. assert (Hidx : ∀ ty, type_idx (headers m) ty = type_idx l ty) by (intros; by apply type_idx_types).
  assert (Hlen : length (headers m) = length l) by (apply (f_equal length) in Ht; by rewrite !length_fmap in Ht).
  unfold clone_hdr. destruct (clone_kind (hf_type hf)) as [[]|] eqn:Hk.
  - destruct (link_sibling_snoc m (unlinked hf)) as (Ht' & _ & _ & _ & Hh' & Hc' & Hother).
    { unfold hook_first. rewrite Hidx. by apply Hs. } { by apply Hs. } { done. }
    cbn [hf_type unlinked] in *. set (m1 := link_sibling_hdr m (hf_type hf) (length (headers m))) in *.
    assert (Hidx' : ∀ ty, type_idx (headers m1 ++ [unlinked hf]) ty = type_idx (l ++ [hf]) ty).
    { intros ty. apply type_idx_types. rewrite !fmap_app, Ht', Ht. done. }
    split; cbn [headers with_headers hook].
    + by rewrite !fmap_app, Ht', Ht.
    + intros ty Hty. destruct (decide (ty = hf_type hf)) as [->|Hne].
      * by rewrite Hh', Hidx'.
      * destruct (Hother ty Hne) as [-> Hoc]. destruct (Hs ty Hty) as [Hh Hc].
        split; [|by apply Hoc]. by rewrite type_idx_snoc, decide_False, app_nil_r by done.
    + intros ty Hty. assert (Hne : ty ≠ hf_type hf) by congruence. destruct (Hother ty Hne) as [-> _].
      rewrite type_idx_snoc, decide_False, app_nil_r by done. by apply Hf.
  - split; cbn [headers with_headers hook with_hook].
    + by rewrite !fmap_app, Ht.
    + intros ty Hty. assert (Hne : ty ≠ hf_type hf) by congruence. rewrite decide_False by done.
      rewrite type_idx_snoc, decide_False, app_nil_r by done. destruct (Hs ty Hty). split; [done|]. by apply chain_snoc_other.
    + intros ty Hty. rewrite type_idx_snoc. destruct (decide (ty = hf_type hf)) as [->|Hne].
      * rewrite decide_True by done. by rewrite last_snoc, Hlen.
      * rewrite decide_False, app_nil_r by done. by apply Hf.
  - split; cbn [headers with_headers hook].
    + by rewrite !fmap_app, Ht.
    + intros ty Hty. assert (Hne : ty ≠ hf_type hf) by congruence.
      rewrite type_idx_snoc, decide_False, app_nil_r by done. destruct (Hs ty Hty). split; [done|]. by apply chain_snoc_other.
    + intros ty Hty. assert (Hne : ty ≠ hf_type hf) by congruence.
      rewrite type_idx_snoc, decide_False, app_nil_r by done. by apply Hf.
  - destruct (hf_type hf); done.
Qed.

Lemma foldl_cloned l2 : ∀ m l1, cloned m l1 → cloned (foldl clone_hdr m l2) (l1 ++ l2).
Proof.
  induction l2 as [|hf l2 IH]; intros m l1 Hm; cbn [foldl]; [by rewrite app_nil_r|].
  replace (l1 ++ hf :: l2) with ((l1 ++ [hf]) ++ l2) by (by rewrite <- app_assoc). by apply IH, clone_hdr_cloned.
Qed.
End clone.

(** Cloning the fields of a message onto itself, as the transaction module does before it
    works on a stored request: the fields and the chains of siblings stay as they were,
    but the other hooks are moved from the first field of their type to the last one, and
    so is the hook of Replaces, which has siblings before. *)
Theorem clone_headers_hooks `{body_parsers} wk m : linked wk m → headers m ≠ [] →
  ∃ m', clone_headers true m m = Some (0, m') ∧ hf_type <$> headers m' = hf_type <$> headers m ∧
    (∀ ty, clone_kind ty = Some HkSibling → hook m' ty = hook m ty ∧ chain_ok (headers m') ty) ∧
    (∀ ty, clone_kind ty = Some HkFirst →
       hook m ty = head (type_idx (headers m) ty) ∧ hook m' ty = last (type_idx (headers m) ty)).
Proof.
  intros Hm Hne. unfold clone_headers. destruct (headers m) as [|hf l] eqn:Hl; [done|].
  set (m0 := mk_msg _ _ _ _ [] _ _ _).
  assert (H0 : cloned m0 []).
  { split; [done| |]; intros ty Hty; cbn; by rewrite Hty. }
  apply (foldl_cloned (hf :: l)) in H0. rewrite app_nil_l in H0. eexists. split; [done|].
  split; [by destruct H0|]. split; intros ty Hty.
  - destruct (cloned_sibling _ _ H0 ty Hty) as [-> Hc]. split; [|done].
    rewrite (linked_hook _ _ Hm), Hl; [done|]. left. by destruct ty.
  - split; [|by apply (cloned_last _ _ H0)]. rewrite (linked_hook _ _ Hm), Hl; [done|]. destruct ty; auto; done.
Qed.

(** The message above, parsed: after cloning [msg->to] is the second To. *)
Definition sample_msg : @sip_msg line_parsers :=
  default (fresh_msg 0 0) (@parse_calls line_parsers (mem_of 1000 sample) (fresh_msg 1000 (1000 + Z.of_nat (length sample)))
    [([], HDR_T2F HDR_EOH_T, false)] true).

Lemma clone_headers_hooks_witness :
  hook sample_msg HDR_TO_T = Some 0%nat ∧
  ∃ m', clone_headers true sample_msg sample_msg = Some (0, m') ∧ hf_type <$> headers m' = hf_type <$> headers sample_msg ∧
    (∀ ty, clone_kind ty = Some HkSibling → hook m' ty = hook sample_msg ty ∧ chain_ok (headers m') ty) ∧
    (∀ ty, clone_kind ty = Some HkFirst →
       hook sample_msg ty = head (type_idx (headers sample_msg) ty) ∧ hook m' ty = last (type_idx (headers sample_msg) ty)).
Proof.
  split; [by vm_compute|]. apply (@clone_headers_hooks line_parsers true).
  - destruct (@parse_calls_linked line_parsers line_parsers_ok (mem_of 1000 sample)
      (fresh_msg 1000 (1000 + Z.of_nat (length sample))) [([], HDR_T2F HDR_EOH_T, false)] true sample_bytes) as (m & Hm & Hl);
      [apply fresh_linked|].
    unfold sample_msg. by rewrite Hm.
  - intros E. apply (f_equal length) in E. vm_compute in E. done.
Defined.

(** ** Failed calls *)

(** What a field says, without its sibling. *)
Definition hdr_key `{body_parsers} (hf : hdr_field) : hdr_types_t * (Z * Z) * (Z * Z) * Z :=
  (hf_type hf, hf_name hf, hf_body hf, hf_len hf).

Section failed.
Context `{body_parsers_ok} (mem : Z → byte).

Lemma get_hdr_field_allocs buf end_ wk r al : get_hdr_field_aux mem [] buf end_ wk = (r, al) → al = [].
Proof.
  pose proof (λ p, parse_via_allocs mem p end_) as Hv. pose proof (λ p, parse_to_allocs mem p end_) as Ht.
  unfold get_hdr_field_aux, body_parse, pkg_alloc.
  repeat case_match; simplify_eq/=; intros; simplify_eq/=; try done;
    first [specialize (Hv (eat_lws_end mem tmp end_)) | idtac]; specialize (Ht (eat_lws_end mem tmp end_));
    repeat match goal with E : _ = (_, _) |- _ => rewrite E in *; clear E end; done.
Qed.

Lemma log2_below a n : 0 < n → 0 <= a < 2 ^ n → Z.log2 a < n.
Proof. intros Hn Ha. destruct (decide (a = 0)) as [->|]; [done|]. apply Z.log2_lt_pow2; lia. Qed.

Lemma lor_below a b n : 0 < n → 0 <= a < 2 ^ n → 0 <= b < 2 ^ n → 0 <= Z.lor a b < 2 ^ n.
Proof.
  intros Hn Ha Hb. assert (0 <= Z.lor a b) by (apply Z.lor_nonneg; lia). split; [done|].
  destruct (decide (Z.lor a b = 0)) as [E|]; [rewrite E; lia|]. apply Z.log2_lt_pow2; [lia|].
  rewrite Z.log2_lor by lia. apply Z.max_lub_lt; by apply log2_below.
Qed.

Lemma flag_below ty : hdr_kind ty = Some HkSibling ∨ hdr_kind ty = Some HkFirst ∨ ty = HDR_VIA2_T → 0 <= HDR_T2F ty < 2 ^ 57.
Proof. destruct ty; intros Hk; try (by vm_compute); destruct Hk as [?|[?|?]]; done. Qed.

(** Linking a field keeps what is read of the others. *)
Lemma add_hdr_fmap {A} (g : hdr_field → A) m hf m' : (∀ x i, g (set_sibling x i) = g x) → add_hdr m hf = Some m' →
  g <$> headers m' = (g <$> headers m) ++ [g hf].
Proof.
  intros Hg. assert (Halter : ∀ (l : list hdr_field) (i j : nat), g <$> alter (λ x, set_sibling x i) j l = g <$> l).
  { intros l i j. apply list_eq. intros k. rewrite !list_lookup_fmap. destruct (decide (k = j)) as [->|];
      [rewrite list_lookup_alter_eq; destruct (l !! j); cbn; by rewrite ?Hg|by rewrite list_lookup_alter_ne]. }
  unfold add_hdr, link_hdr. destruct (hdr_kind (hf_type hf)) as [[]|]; [| | |done]; cbn [mbind option_bind]; intros [= <-].
  - assert (Hvias : ∀ m2, headers (link_vias m2 hf (length (headers m))) = headers m2) by (intros m2; unfold link_vias; by repeat case_match).
    destruct (decide _); cbn [headers with_headers]; rewrite ?Hvias, fmap_app; cbn [headers add_flag with_flag]; f_equal;
      unfold link_sibling_hdr; (destruct (hook m (hf_type hf)); cbn; [by rewrite Halter|done]).
  - cbn [headers with_headers add_flag with_flag]. rewrite fmap_app. by destruct (hook m (hf_type hf)).
  - cbn [headers with_headers]. by rewrite fmap_app.
Qed.

(** Adding a field, as far as the list and the flags are concerned. *)
Lemma add_hdr_keys m hf m' : add_hdr m hf = Some m' →
  hdr_key <$> headers m' = (hdr_key <$> headers m) ++ [hdr_key hf] ∧
  (0 <= parsed_flag m < 2 ^ 57 → 0 <= parsed_flag m' < 2 ^ 57).
Proof.
  intros Ha. split; [by apply add_hdr_fmap|]. intros Hb.
  assert (Hor : ∀ x ty, hdr_kind ty = Some HkSibling ∨ hdr_kind ty = Some HkFirst ∨ ty = HDR_VIA2_T → 0 <= x < 2 ^ 57 → 0 <= Z.lor x (HDR_T2F ty) < 2 ^ 57).
  { intros x ty Hty Hx. apply lor_below; [done|done|by apply flag_below]. }
  unfold add_hdr, link_hdr in Ha. destruct (hdr_kind (hf_type hf)) as [[]|] eqn:Hk; [| | |done]; cbn [mbind option_bind] in Ha; injection Ha as <-.
  - assert (Hlink : 0 <= parsed_flag (add_flag (link_sibling_hdr m (hf_type hf) (length (headers m))) (hf_type hf)) < 2 ^ 57).
    { apply Hor; [by left|]. unfold link_sibling_hdr. by destruct (hook m (hf_type hf)). }
    destruct (decide _); cbn [parsed_flag with_headers]; [|done]. unfold link_vias.
    repeat case_match; try done; cbn [parsed_flag add_flag with_flag with_vias with_hook] in *; apply Hor; auto.
  - apply Hor; [by right; left|]. by destruct (hook m (hf_type hf)).
  - done.
Qed.

Lemma add_hdr_none m m' hf : add_hdr m hf = None → add_hdr m' hf = None.
Proof. unfold add_hdr, link_hdr. by destruct (hdr_kind (hf_type hf)) as [[]|]. Qed.

(** The flag of the end of the headers is not set by any field. *)
Lemma unsatisfied_eoh f : 0 <= f < 2 ^ 57 → negb (Z.land (HDR_T2F HDR_EOH_T) f =? HDR_T2F HDR_EOH_T) = true.
Proof.
  intros Hf. apply negb_true_iff, Z.eqb_neq. intros E.
  assert (Hb : Z.testbit (Z.land (HDR_T2F HDR_EOH_T) f) 63 = true) by (rewrite E; done).
  rewrite Z.land_spec in Hb. apply andb_prop in Hb as [_ Hb].
  rewrite Z.bits_above_log2 in Hb; [done|lia|]. pose proof (log2_below f 57 ltac:(lia) Hf). lia.
Qed.

(** A call for all the headers that fails reads the same fields from any message. *)
Lemma ph_loop_fields n : ∀ m tmp wk m1 al1, 0 <= parsed_flag m < 2 ^ 57 →
  ph_loop mem n [] m tmp (HDR_T2F HDR_EOH_T) wk = PhError m1 al1 →
  ∃ fs, ∀ m', msg_end m' = msg_end m → 0 <= parsed_flag m' < 2 ^ 57 →
    ∃ m1', ph_loop mem n [] m' tmp (HDR_T2F HDR_EOH_T) wk = PhError m1' [] ∧
      hdr_key <$> headers m1' = (hdr_key <$> headers m') ++ fs ∧
      unparsed m1' = unparsed m' ∧ msg_end m1' = msg_end m' ∧ 0 <= parsed_flag m1' < 2 ^ 57.
Proof.
  pose proof unsatisfied_eoh as Hun.
  induction n as [|n IH]; intros m tmp wk m1 al1 Hf; cbn [ph_loop]; rewrite Hun, andb_true_r by done;
    (destruct (tmp <? msg_end m) eqn:Ht; [|done]); [done|]. cbn [pkg_alloc].
  destruct (get_hdr_field_aux mem [] tmp (msg_end m) wk) as [[| |hf rest] al2] eqn:Hg; [| done |];
    apply get_hdr_field_allocs in Hg as Hal; subst al2.
  - intros _. exists []. intros m' He Hf'. exists m'. rewrite He, Ht, Hun, Hg, app_nil_r by done. done.
  - destruct (add_hdr m hf) as [m2|] eqn:Ha.
    + destruct (add_hdr_frame m hf m2 Ha) as (He2 & _ & _). destruct (add_hdr_keys m hf m2 Ha) as [_ Hf2].
      intros Hrun. apply IH in Hrun as [fs Hfs]; [|by apply Hf2]. exists (hdr_key hf :: fs). intros m' He Hf'.
      rewrite He, Ht, Hun, Hg by done. cbn [andb].
      destruct (add_hdr m' hf) as [m2'|] eqn:Ha'; [|by rewrite (add_hdr_none _ m _ Ha') in Ha].
      destruct (add_hdr_frame m' hf m2' Ha') as (He2' & Hu2' & _). destruct (add_hdr_keys m' hf m2' Ha') as [Hk2' Hf2'].
      destruct (Hfs m2') as (m1' & Hrun' & Hk & Hu & He1 & Hb); [congruence|by apply Hf2'|].
      exists m1'. split; [done|]. split; [rewrite Hk, Hk2', <- app_assoc; done|]. split; [congruence|]. split; [congruence|done].
    + intros _. exists []. intros m' He Hf'. exists m'. rewrite He, Ht, Hun, Hg, (add_hdr_none _ m' _ Ha), app_nil_r by done. done.
Qed.
End failed.

(** C40. A call for all the header fields that fails, because one is malformed, leaves the ones
    before it in the message but not the place it has reached: the next such call fails
    again and adds the same fields to the list a second time. *)
Theorem failed_parse_relinks `{body_parsers_ok} mem m m1 al1 wk : 0 <= parsed_flag m < 2 ^ 57 →
  parse_headers_aux mem [] m (HDR_T2F HDR_EOH_T) false wk = Some (-1, m1, al1) →
  ∃ fs m2 al2, hdr_key <$> headers m1 = (hdr_key <$> headers m) ++ fs ∧
    parse_headers_aux mem [] m1 (HDR_T2F HDR_EOH_T) false wk = Some (-1, m2, al2) ∧
    hdr_key <$> headers m2 = (hdr_key <$> headers m) ++ fs ++ fs.
Proof.
  intros Hf. unfold parse_headers_aux.
  destruct (ph_loop mem (dist (unparsed m) (msg_end m)) [] m (unparsed m) (HDR_T2F HDR_EOH_T) wk) as [|m0 al0|] eqn:Hl; [done| |done].
  intros [= <- <-]. destruct (ph_loop_fields mem _ _ _ _ _ _ Hf Hl) as [fs Hfs].
  destruct (Hfs m eq_refl Hf) as (m1' & Hl' & Hk & Hu & He & Hb). rewrite Hl in Hl'. injection Hl' as -> ->.
  destruct (Hfs m1' He Hb) as (m2 & Hl2 & Hk2 & _). exists fs, m2, []. split; [done|].
  rewrite Hu, He, Hl2. split; [done|]. by rewrite Hk2, Hk, <- app_assoc.
Qed.

(** A message whose second field has no colon. *)
Definition broken : bytes := bs "Via: SIP/2.0/UDP a" ++ [13; 10] ++ bs "To: b" ++ [13; 10] ++ bs "no header" ++ [13; 10; 13; 10].
Definition broken_run (m : @sip_msg line_parsers) :=
  @parse_headers_aux line_parsers (mem_of 500 broken) [] m (HDR_T2F HDR_EOH_T) false true.
Definition broken_msg : @sip_msg line_parsers := @fresh_msg line_parsers 500 (500 + Z.of_nat (length broken)).
Definition broken_once : @sip_msg line_parsers :=
  match broken_run broken_msg with Some (_, m, _) => m | None => broken_msg end.

Lemma failed_parse_relinks_witness :
  hf_type <$> headers broken_once = [HDR_VIA_T; HDR_TO_T] ∧
  ∃ fs m2 al2, hdr_key <$> headers broken_once = (hdr_key <$> headers broken_msg) ++ fs ∧
    broken_run broken_once = Some (-1, m2, al2) ∧ hdr_key <$> headers m2 = (hdr_key <$> headers broken_msg) ++ fs ++ fs.
Proof.
  split; [by vm_compute|]. apply (@failed_parse_relinks line_parsers line_parsers_ok (mem_of 500 broken) broken_msg broken_once []).
  - done.
  - unfold broken_once. fold (broken_run broken_msg). by vm_compute.
Defined.

(** The second call takes the only Via for the second one too. *)
Example broken_via2 :
  (λ x, via2 x.1.2) <$> broken_run broken_msg = Some None ∧
  (λ x, via2 x.1.2) <$> broken_run broken_once = Some (Some tt).
Proof. by vm_compute. Qed.


(** ** Names *)

Definition name_text : bytes := bs "CONTENT-length  : 12" ++ [13; 10].

Lemma parse_hname2_correct_witness :
  hdr_type_of (bs "CONTENT-length") [32; 32] = HDR_CONTENTLENGTH_T ∧
  ∃ p, parse_hname2 (mem_of 40 name_text) 40 (40 + Z.of_nat (length name_text)) =
         HnOk (hdr_type_of (bs "CONTENT-length") [32; 32]) 14 p ∧
       after_colon (mem_of 40 name_text) 40 (bs "CONTENT-length") [32; 32] p.
Proof.
  split; [by vm_compute|].
  refine (proj1 (parse_hname2_correct (mem_of 40 name_text) 40 (40 + Z.of_nat (length name_text)) (bs "CONTENT-length") [32; 32]
    _ _ _ _ _ _)).
  - by apply mem_of_range.
  - by vm_compute.
  - by vm_compute.
  - intros i c Hi. apply mem_of_text. change name_text with ((bs "CONTENT-length" ++ [32; 32] ++ [58]) ++ bs " 12" ++ [13; 10]).
    by apply lookup_app_l_Some.
  - by vm_compute.
  - by vm_compute.
Defined.

(** The names of RFC 3261 that are not recognised: Accept-Disposition, whose second word
    has a wrong constant, and the names compared together with the next character, such
    as Via, when that is a tab; the or with 0x20 also makes a carriage return a dash. *)
Definition type_of_text (s : bytes) : option hdr_types_t :=
  match parse_hname2 (mem_of 0 s) 0 (Z.of_nat (length s)) with HnOk ty _ _ => Some ty | HnError _ => None end.

Example names_not_recognised :
  type_of_text (bs "Accept-Disposition: x") = Some HDR_OTHER_T ∧
  type_of_text (bs "AcceptADisposition: x") = Some HDR_ACCEPTDISPOSITION_T ∧
  type_of_text (bs "Via : x") = Some HDR_VIA_T ∧ type_of_text (bs "Via" ++ [9] ++ bs ": x") = Some HDR_OTHER_T ∧
  type_of_text (bs "v" ++ [9] ++ bs ": x") = Some HDR_VIA_T ∧ type_of_text (bs "t" ++ [9] ++ bs ": x") = Some HDR_OTHER_T ∧
  type_of_text (bs "Max" ++ [13] ++ bs "Forwards: 70") = Some HDR_MAXFORWARDS_T.
Proof. by vm_compute. Qed.
