(* ===== verification/MsgRoundtrip.v ===== *)
(** * Header fields are read back

    Header fields written one after the other, with spaces around the colon and folded
    lines, are found by [parse_headers_aux] with their types, names and bodies. *)

From stdpp Require Import prelude list strings fin_maps.
From Stdlib Require Import ZArith Lia Ascii.
From S2P Require Import Prelude HdrNames HdrNamesSpec HdrBodies MsgHeaders MsgHeadersSpec MsgHeadersProps.

(** ** Header fields as text *)

(** A field: its name, the blanks before and after the colon, and its body. *)
Record field := mk_field_text { fd_name : bytes; fd_ws : bytes; fd_sp : bytes; fd_body : bytes }.

Definition render (f : field) : bytes := fd_name f ++ fd_ws f ++ [58] ++ fd_sp f ++ fd_body f ++ [13; 10].

(** Every line feed is followed by white space, except at the end. *)
Fixpoint folded (s : bytes) : bool :=
  match s with
  | [] => true
  | c :: t =>
      (if c =? 10 then match t with [] => true | d :: _ => is_ws d end else true) && folded t
  end.

Definition field_ok (f : field) : bool :=
  negb (bool_decide (fd_name f = [])) && forallb plain (fd_name f) && forallb is_ws (fd_ws f) && forallb is_ws (fd_sp f) &&
  match head (fd_body f) with Some c => negb (is_ws c) && negb (is_eol c) && negb (c =? 0) | None => true end &&
  match last (fd_body f) with Some c => negb (is_eol c) && negb (c =? 0) | None => true end &&
  folded (fd_body f ++ [13; 10]).

(** The types of the table are those the header parser handles. *)
Lemma table_types : forallb (λ e, match hdr_kind e.1.2 with Some _ => true | None => false end) header_table = true.
Proof. by vm_compute. Qed.

Lemma hdr_type_of_kind name ws : hdr_kind (hdr_type_of name ws) ≠ None.
Proof.
  unfold hdr_type_of. destruct (list_find _ header_table) as [[k [[n ty] strict]]|] eqn:Hf; [|done].
  apply list_find_Some in Hf as (Hk & _ & _). destruct (strict && _); [done|].
  pose proof table_types as Ht. rewrite forallb_forall in Ht. apply list_elem_of_lookup_2, list_elem_of_In, Ht in Hk.
  cbn in Hk. by destruct (hdr_kind ty).
Qed.

Section scan.
Context (mem : Z → byte) (end_ : Z).

Lemma scan_text stop s c : ∀ p, forallb (λ c, negb (stop c)) s = true → stop c = true → text_at mem p (s ++ [c]) →
  p + Z.of_nat (length s) < end_ → scan mem stop p end_ = p + Z.of_nat (length s).
Proof.
  unfold scan, dist. induction s as [|d s IH]; intros p; cbn [app forallb]; rewrite text_at_cons; intros Hs Hc [Hd Ht] He.
  - simpl length in *. destruct (Z.to_nat (end_ - p)) eqn:E; [lia|]. cbn [scan_loop]. rewrite Hd, Hc. lia.
  - apply andb_prop in Hs as [Hnd Hs]. apply negb_true_iff in Hnd. simpl length in *.
    destruct (Z.to_nat (end_ - p)) eqn:E; [lia|]. cbn [scan_loop]. rewrite Hd, Hnd.
    replace n with (Z.to_nat (end_ - (p + 1))) by lia. rewrite (IH (p + 1) Hs Hc Ht) by lia. lia.
Qed.

(** The first line of a text that has one. *)
Lemma first_line s : 10 ∈ s → ∃ s1 s2, s = s1 ++ 10 :: s2 ∧ forallb (λ c, negb (c =? 10)) s1 = true.
Proof.
  induction s as [|c s IH]; intros Hin; [by apply not_elem_of_nil in Hin|].
  destruct (Z.eqb_spec c 10) as [->|Hc]; [by exists [], s|]. apply list_elem_of_In in Hin.
  destruct Hin as [->|Hin]; [done|]. destruct IH as (s1 & s2 & -> & Hs1); [by apply list_elem_of_In|].
  exists (c :: s1), s2. split; [done|]. cbn. rewrite Hs1. destruct (Z.eqb_spec c 10); [lia|done].
Qed.

Lemma folded_app s t : folded (s ++ t) = true → folded t = true.
Proof. induction s as [|c s IH]; [done|]. cbn [app folded]. intros [_ Ht]%andb_prop. by apply IH. Qed.

(** [skip_body] goes over folded lines to the end of the last one. *)
Lemma skip_lines_folded n : ∀ s p, (length s <= n)%nat → last s = Some 10 → folded s = true → text_at mem p s →
  p + Z.of_nat (length s) < end_ → is_ws (mem (p + Z.of_nat (length s))) = false →
  skip_lines mem n p end_ = Some (p + Z.of_nat (length s)).
Proof.
  induction n as [|n IH]; intros s p Hn Hl Hf Ht He Hnext; [destruct s; [done|simpl in Hn; lia]|].
  destruct (first_line s) as (s1 & s2 & -> & Hs1).
  { apply list_elem_of_lookup. exists (pred (length s)). by rewrite <- last_lookup. }
  rewrite length_app in *. simpl length in *. cbn [skip_lines]. unfold find_lf.
  replace (s1 ++ 10 :: s2) with ((s1 ++ [10]) ++ s2) in Ht by (by rewrite <- app_assoc). apply text_at_app in Ht as [Ht1 Ht2].
  rewrite (scan_text _ s1 10) by (done || lia). rewrite (proj2 (Z.ltb_lt _ _)) by lia.
  rewrite length_app in Ht2. simpl length in Ht2.
  replace (p + Z.of_nat (length s1) + 1) with (p + Z.of_nat (length s1 + 1)) by lia.
  apply folded_app in Hf. cbn [folded] in Hf. change (10 =? 10) with true in Hf. cbv iota in Hf.
  apply andb_prop in Hf as [Hd Hf]. destruct s2 as [|d s2].
  - simpl length in *. replace (length s1 + 1)%nat with (length s1 + 1)%nat in * by lia. rewrite Hnext, andb_false_r. done.
  - rewrite (proj2 (Z.ltb_lt _ _)) by (simpl length in *; lia).
    apply text_at_cons in Ht2 as Hd'. destruct Hd' as [-> _]. rewrite Hd. cbn [andb].
    rewrite (IH (d :: s2)); try done.
    + f_equal. simpl length. lia.
    + simpl length in *. lia.
    + rewrite last_app, last_cons_cons in Hl. destruct (last (d :: s2)) eqn:E; [done|]. by apply last_None in E.
    + simpl length in *. lia.
    + rewrite <- Hnext. do 2 f_equal. simpl length. lia.
Qed.

(** Spaces are eaten up to a character that does not continue them. *)
Lemma eat_lws_blanks sp : ∀ q, forallb is_ws sp = true → text_at mem q sp →
  q + Z.of_nat (length sp) < end_ →
  let b := q + Z.of_nat (length sp) in
  is_ws (mem b) = false → is_eol (mem b) = false ∨ mem b = 13 ∧ mem (b + 1) = 10 ∧ is_ws (mem (b + 2)) = false →
  eat_lws_end mem q end_ = b.
Proof.
  unfold eat_lws_end, dist. induction sp as [|c sp IH]; intros q; cbn [forallb]; simpl length; cbv zeta.
  - intros _ _ He. rewrite Z.add_0_r in *. intros Hws Hstop. destruct (Z.to_nat (end_ - q)) eqn:E; [lia|].
    cbn [eat_lws_loop]. rewrite (proj2 (Z.ltb_lt _ _)), Hws by lia. destruct Hstop as [Hs|(H1 & H2 & H3)].
    + unfold is_eol in Hs. apply orb_false_elim in Hs as [-> ->]. done.
    + rewrite H1, H3. cbn. by rewrite !andb_false_r.
  - intros [Hc Hsp]%andb_prop Ht He Hws Hstop. apply text_at_cons in Ht as [Hm Ht].
    destruct (Z.to_nat (end_ - q)) eqn:E; [lia|]. cbn [eat_lws_loop]. rewrite (proj2 (Z.ltb_lt _ _)), Hm, Hc by lia.
    replace n with (Z.to_nat (end_ - (q + 1))) by lia.
    replace (q + Z.of_nat (S (length sp))) with (q + 1 + Z.of_nat (length sp)) in * by lia. by apply IH.
Qed.

Lemma trim_r_body s b : text_at mem b (s ++ [13; 10]) →
  match last s with Some c => negb (is_eol c) && negb (c =? 0) | None => true end = true →
  trim_r mem b (Z.of_nat (length s) + 2) = Z.of_nat (length s).
Proof.
  intros Ht Hl. apply text_at_app in Ht as [Ht H2]. apply text_at_cons in H2 as [H13 H2]. apply text_at_cons in H2 as [H10 _].
  unfold trim_r. replace (Z.to_nat (Z.of_nat (length s) + 2)) with (S (S (length s))) by lia. cbn [trim_r_loop].
  replace (b + Z.of_nat (S (length s))) with (b + Z.of_nat (length s) + 1) by lia. rewrite H10, H13. cbn [Z.eqb orb].
  change ((10 =? 0) || (10 =? 13) || (10 =? 10)) with true. change ((13 =? 0) || (13 =? 13) || (13 =? 10)) with true. cbv iota.
  destruct s as [|c s _] using rev_ind; [done|]. rewrite last_snoc in Hl. rewrite length_app, Nat.add_1_r. cbn [trim_r_loop].
  apply text_at_app in Ht as [_ Hc]. apply text_at_cons in Hc as [-> _]. unfold is_eol in Hl.
  destruct (Z.eqb_spec c 0), (Z.eqb_spec c 13), (Z.eqb_spec c 10); cbn in *; done || rewrite ?andb_false_r in Hl; done.
Qed.
End scan.

(** ** One field *)

(** What a field is read as when it starts at [p]. *)
Definition read_key (p : Z) (f : field) : hdr_types_t * (Z * Z) * (Z * Z) * Z :=
  (hdr_type_of (fd_name f) (fd_ws f), (p, Z.of_nat (length (fd_name f))),
   (p + Z.of_nat (length (fd_name f) + length (fd_ws f) + 1 + length (fd_sp f)), Z.of_nat (length (fd_body f))),
   Z.of_nat (length (render f))).

Definition field_hdr `{body_parsers} (p : Z) (f : field) : hdr_field :=
  let '(ty, name, body, len) := read_key p f in mk_hdr ty name body len None None.

(** The bodies that are only skipped, with or without the parsers of well-known ones. *)
Definition skips (wk : bool) (f : field) : bool := negb wk || skipped (hdr_type_of (fd_name f) (fd_ws f)).

Section field.
Context `{body_parsers} (mem : Z → byte) (Hmem : ∀ a, 0 <= mem a < 256) (end_ : Z).

Lemma body_skipped al ty name tmp wk : hdr_kind ty ≠ None → negb wk || skipped ty = true →
  (if skipped ty then (body_skip mem ty name tmp end_, al)
   else match ty with
     | HDR_VIA_T => if wk then body_parse mem al (λ al, parse_via mem al tmp end_) ParsedVia ty name tmp else (body_skip mem ty name tmp end_, al)
     | HDR_CSEQ_T => if wk then body_parse mem al (λ al, (parse_cseq mem tmp end_, al)) ParsedCseq ty name tmp else (body_skip mem ty name tmp end_, al)
     | HDR_TO_T => if wk then body_parse mem al (λ al, parse_to mem al tmp end_) ParsedTo ty name tmp else (body_skip mem ty name tmp end_, al)
     | HDR_CONTENTLENGTH_T =>
         (if wk then match parse_content_length mem tmp end_ with
            | Some (next, n) => mk_field mem ty name tmp next (Some (ParsedLength n)) | None => HfError end
          else body_skip mem ty name tmp end_, al)
     | _ => (HfError, al)
     end) = (body_skip mem ty name tmp end_, al).
Proof. intros Hk Hs. destruct ty; try done; by destruct wk. Qed.

(** The name of a field and the blanks before its body: the body starts where it was
    written. *)
Lemma hdr_name_text p f : field_ok f = true → text_at mem p (render f) →
  p + Z.of_nat (length (render f)) < end_ → is_ws (mem (p + Z.of_nat (length (render f)))) = false →
  let b := p + Z.of_nat (length (fd_name f) + length (fd_ws f) + 1 + length (fd_sp f)) in
  is_eol (mem p) = false ∧ text_at mem b (fd_body f ++ [13; 10]) ∧ b < end_ ∧
  b + Z.of_nat (length (fd_body f)) + 2 = p + Z.of_nat (length (render f)) ∧
  ∃ q, parse_hname2 mem p end_ = HnOk (hdr_type_of (fd_name f) (fd_ws f)) (Z.of_nat (length (fd_name f))) q ∧ eat_lws_end mem q end_ = b.
Proof.
  intros Hok Ht He Hnext. destruct f as [name ws sp body]. unfold field_ok, render in *.
  cbn [fd_name fd_ws fd_sp fd_body] in *.
  apply andb_prop in Hok as [[[[[[Hne Hpl]%andb_prop Hws]%andb_prop Hsp]%andb_prop Hhd]%andb_prop _]%andb_prop _].
  apply negb_true_iff, bool_decide_eq_false in Hne. rewrite !length_app in He, Hnext |- *. simpl length in *.
  assert (Ht0 : text_at mem p (name ++ ws ++ [58])).
  { rewrite !app_assoc in Ht. do 3 apply text_at_app in Ht as [Ht _]. by rewrite <- app_assoc in Ht. }
  pose proof (parse_hname2_spec mem p end_ name ws Hmem Hpl Hws Ht0) as Hn.
  destruct Hn as (q & Hq & Hcolon); [lia|destruct name; [done|simpl length in *; lia]|].
  rewrite (app_assoc name), (app_assoc (name ++ ws)) in Ht. apply text_at_app in Ht as [_ Ht1].
  rewrite !length_app in Ht1. simpl length in Ht1. set (c1 := p + Z.of_nat (length name + length ws + 1)) in *.
  apply text_at_app in Ht1 as [Htsp Htbody]. cbv zeta. set (b := p + Z.of_nat _).
  assert (Hb : b = c1 + Z.of_nat (length sp)) by (unfold b, c1; lia). rewrite <- Hb in Htbody.
  assert (Hbend : p + Z.of_nat (length name + (length ws + (1 + (length sp + (length body + 2))))) = b + Z.of_nat (length body) + 2)
    by (unfold b; lia).
  (* the character where the blanks stop *)
  assert (Hstop : is_ws (mem b) = false ∧ mem b ≠ 0 ∧
            (is_eol (mem b) = false ∨ mem b = 13 ∧ mem (b + 1) = 10 ∧ is_ws (mem (b + 2)) = false)).
  { destruct body as [|c body]; cbn [app head] in *.
    - apply text_at_cons in Htbody as [H13 Htb]. apply text_at_cons in Htb as [H10 _]. rewrite H13. split; [done|]. split; [done|].
      right. split; [done|]. split; [done|]. rewrite <- Hnext, Hbend. simpl length. do 2 f_equal. lia.
    - apply text_at_cons in Htbody as [-> _]. apply andb_prop in Hhd as [[H1 H2]%andb_prop H3].
      apply negb_true_iff in H1, H2, H3. split; [done|]. split; [lia|]. by left. }
  destruct Hstop as (Hsb & Hb0 & Hstop). split.
  { destruct name as [|c name]; [done|]. cbn [app] in Ht0. apply text_at_cons in Ht0 as [-> _]. cbn [forallb] in Hpl.
    apply andb_prop in Hpl as [Hc _]. unfold plain in Hc. unfold is_eol. lia. }
  split; [done|]. split; [lia|]. split; [lia|]. exists q. split; [done|]. destruct Hcolon as [->|[-> Hc]].
  - replace (p + Z.of_nat (length name + length ws) + 1) with c1 by (unfold c1; lia). rewrite Hb in *.
    by apply eat_lws_blanks; [|done|lia| |].
  - replace (p + Z.of_nat (length name + length ws) + 1) with c1 in Hc by (unfold c1; lia).
    destruct sp as [|c sp].
    { exfalso. simpl length in Hb. rewrite Z.add_0_r in Hb. rewrite Hb in *. destruct Hc as [E|E]; [rewrite E in Hsb; done|lia]. }
    cbn [forallb] in Hsp. apply andb_prop in Hsp as [_ Hsp]. apply text_at_cons in Htsp as [_ Htsp].
    replace (p + Z.of_nat (length name + length ws) + 2) with (c1 + 1) by (unfold c1; lia).
    assert (E : b = c1 + 1 + Z.of_nat (length sp)) by (rewrite Hb; simpl length; lia). rewrite E in *.
    apply eat_lws_blanks; [done|done|lia|done|done].
Qed.

Lemma get_hdr_field_text al p f wk : field_ok f = true → skips wk f = true → text_at mem p (render f) →
  p + Z.of_nat (length (render f)) < end_ → is_ws (mem (p + Z.of_nat (length (render f)))) = false →
  get_hdr_field_aux mem al p end_ wk = (HfOk (field_hdr p f) (p + Z.of_nat (length (render f))), al).
Proof.
  intros Hok Hsk Ht He Hnext. destruct (hdr_name_text p f Hok Ht He Hnext) as (Heol & Htbody & Hbe & Hbend & q & Hq & Hq').
  set (b := p + Z.of_nat (_ + length (fd_sp f))) in *. rewrite <- Hbend in *. unfold get_hdr_field_aux.
  rewrite Heol, Hq, Hq'. destruct (Z.leb_spec end_ b); [lia|].
  rewrite body_skipped by (apply hdr_type_of_kind || done). f_equal. unfold body_skip, skip_body.
  unfold field_ok in Hok. apply andb_prop in Hok as [[_ Hlast]%andb_prop Hfold].
  rewrite (skip_lines_folded mem end_ _ (fd_body f ++ [13; 10])); try done.
  - unfold mk_field. rewrite length_app. simpl length.
    replace (b + Z.of_nat (length (fd_body f) + 2) - b) with (Z.of_nat (length (fd_body f)) + 2) by lia. rewrite trim_r_body by done.
    unfold field_hdr, read_key. cbn [fst]. fold b. f_equal; [|lia]. f_equal. lia.
  - rewrite length_app. simpl length. unfold dist. lia.
  - by rewrite last_app.
  - rewrite length_app. simpl length. lia.
  - rewrite length_app. simpl length. rewrite <- Hnext. do 2 f_equal. lia.
Qed.
End field.

(** ** A sequence of fields *)

Definition render_all (fs : list field) : bytes := (fs ≫= render) ++ [13; 10].

Fixpoint read_all (p : Z) (fs : list field) : list (hdr_types_t * (Z * Z) * (Z * Z) * Z) :=
  match fs with
  | [] => []
  | f :: fs => read_key p f :: read_all (p + Z.of_nat (length (render f))) fs
  end.

Lemma render_all_cons f fs : render_all (f :: fs) = render f ++ render_all fs.
Proof. unfold render_all. cbn [mbind list_bind]. by rewrite <- app_assoc. Qed.

Lemma render_all_length fs : (length fs < length (render_all fs))%nat.
Proof.
  unfold render_all. rewrite length_app. simpl. induction fs as [|f fs IH]; cbn [mbind list_bind length]; [lia|].
  rewrite length_app. unfold render at 1. rewrite !length_app. simpl. change (mbind render fs) with (fs ≫= render) in *. lia.
Qed.

Lemma render_all_head fs : forallb field_ok fs = true → ∃ c t, render_all fs = c :: t ∧ is_ws c = false.
Proof.
  destruct fs as [|f fs]; [by exists 13, [10]|]. cbn [forallb]. intros [Hf _]%andb_prop. unfold field_ok in Hf.
  do 5 apply andb_prop in Hf as [Hf _]. apply andb_prop in Hf as [Hne Hpl].
  apply negb_true_iff, bool_decide_eq_false in Hne. unfold render_all. cbn [mbind list_bind]. unfold render.
  destruct (fd_name f) as [|c name]; [done|]. cbn [forallb] in Hpl. apply andb_prop in Hpl as [Hc _].
  eexists c, _. split; [reflexivity|]. by apply plain_sep.
Qed.

Section fields.
Context `{body_parsers} (mem : Z → byte) (Hmem : ∀ a, 0 <= mem a < 256).

Lemma field_hdr_key p f : hdr_key (field_hdr p f) = read_key p f ∧ hf_type (field_hdr p f) = hdr_type_of (fd_name f) (fd_ws f).
Proof. done. Qed.

Lemma ph_loop_text fs : ∀ n m p wk, (length fs < n)%nat → forallb field_ok fs = true → forallb (skips wk) fs = true →
  text_at mem p (render_all fs) → p + Z.of_nat (length (render_all fs)) <= msg_end m → 0 <= parsed_flag m < 2 ^ 57 →
  let q := p + Z.of_nat (length (render_all fs)) - 2 in
  ∃ m', ph_loop mem n [] m p (HDR_T2F HDR_EOH_T) wk = PhSkip (add_flag (with_eoh m' q) HDR_EOH_T) q [] ∧
    hdr_key <$> headers m' = (hdr_key <$> headers m) ++ read_all p fs.
Proof.
  induction fs as [|f fs IH]; intros n m p wk Hn Hok Hsk Ht He Hf; (destruct n as [|n]; [lia|]); cbv zeta;
    cbn [ph_loop pkg_alloc]; rewrite (unsatisfied_eoh _ Hf), andb_true_r.
  - cbn in Ht, He |- *. rewrite (proj2 (Z.ltb_lt _ _)) by lia. apply text_at_cons in Ht as [H13 _].
    unfold get_hdr_field_aux. rewrite H13. cbn. exists m. split; [|by rewrite app_nil_r]. 
    by replace (p + Z.of_nat 2 - 2) with p by lia.
  - cbn [forallb] in Hok, Hsk. apply andb_prop in Hok as [Hfok Hok]. apply andb_prop in Hsk as [Hfsk Hsk].
    rewrite render_all_cons in Ht, He |- *.
    apply text_at_app in Ht as [Htf Ht]. rewrite length_app in He |- *.
    destruct (render_all_head fs Hok) as (c & t & Hr & Hc).
    assert (Hlen : (0 < length (render_all fs))%nat) by (rewrite Hr; simpl; lia).
    rewrite (proj2 (Z.ltb_lt _ _)) by lia.
    rewrite (get_hdr_field_text mem Hmem (msg_end m) [] p f wk Hfok Hfsk Htf); [|lia|].
    2:{ rewrite Hr in Ht. by apply text_at_cons in Ht as [-> _]. }
    destruct (add_hdr m (field_hdr p f)) as [m1|] eqn:Ha.
    2:{ exfalso. unfold add_hdr, link_hdr in Ha. pose proof (hdr_type_of_kind (fd_name f) (fd_ws f)) as Hk.
        rewrite (proj2 (field_hdr_key p f)) in Ha. by destruct (hdr_kind _) as [[]|]. }
    destruct (add_hdr_frame m _ m1 Ha) as (He1 & _ & _). destruct (add_hdr_keys m _ m1 Ha) as [Hk1 Hf1].
    destruct (IH n m1 (p + Z.of_nat (length (render f))) wk) as (m' & Hl & Hk); [simpl in Hn; lia|done|done|done|lia|by apply Hf1|].
    exists m'. split.
    + rewrite Hl. replace (p + Z.of_nat (length (render f)) + Z.of_nat (length (render_all fs)) - 2) with
        (p + Z.of_nat (length (render f) + length (render_all fs)) - 2) by lia. done.
    + rewrite Hk, Hk1, <- app_assoc. done.
Qed.
End fields.

(** C10. Header fields are read back: when the memory holds well-formed fields one after the
    other and an empty line (a name, blanks, a colon, blanks, a body whose lines are
    folded, the end of line), a call for all the headers succeeds, finds every field with
    the type of its name, its name, its body without the blanks around it and the end of
    line, and its length, in order, and stops at the empty line.  With the parsers of
    well-known bodies this holds for the fields that have none. *)
Theorem headers_read_back `{body_parsers} mem p end_ fs wk : (∀ a, 0 <= mem a < 256) →
  forallb field_ok fs = true → forallb (skips wk) fs = true →
  text_at mem p (render_all fs) → p + Z.of_nat (length (render_all fs)) <= end_ →
  let q := p + Z.of_nat (length (render_all fs)) - 2 in
  ∃ m, parse_headers_aux mem [] (fresh_msg p end_) (HDR_T2F HDR_EOH_T) false wk = Some (0, m, []) ∧
    hdr_key <$> headers m = read_all p fs ∧ eoh m = Some q ∧ unparsed m = q.
Proof.
  intros Hmem Hok Hsk Ht He. cbv zeta. unfold parse_headers_aux. cbn [unparsed msg_end fresh_msg].
  pose proof (render_all_length fs) as Hlen.
  destruct (ph_loop_text mem Hmem fs (dist p end_) (fresh_msg p end_) p wk) as (m' & Hl & Hk); try done; [unfold dist; lia|].
  rewrite Hl. eexists. split; [done|]. cbn [headers with_unparsed add_flag with_flag with_eoh].
  split; [by rewrite Hk|done].
Qed.

(** The fields of an INVITE, one of them folded. *)
Definition sample_hdrs : list field :=
  [mk_field_text (bs "Call-ID") [] [32] (bs "a84b4c76e66710"); mk_field_text (bs "f") [9] [] (bs "<sip:alice@atlanta.com>");
   mk_field_text (bs "Subject") [] [32; 32] (bs "I know you're there," ++ [13; 10; 32] ++ bs "pick up"); mk_field_text (bs "Allow") [] [] []].

Lemma headers_read_back_witness :
  let q := 77 + Z.of_nat (length (render_all sample_hdrs)) - 2 in
  ∃ m, @parse_headers_aux line_parsers (mem_of 77 (render_all sample_hdrs)) []
         (fresh_msg 77 (77 + Z.of_nat (length (render_all sample_hdrs)))) (HDR_T2F HDR_EOH_T) false true = Some (0, m, []) ∧
    hdr_key <$> headers m = read_all 77 sample_hdrs ∧ eoh m = Some q ∧ unparsed m = q.
Proof.
  apply (@headers_read_back line_parsers (mem_of 77 (render_all sample_hdrs)) 77).
  - by apply mem_of_range.
  - by vm_compute.
  - by vm_compute.
  - apply mem_of_text.
  - lia.
Defined.
