(* ===== verification/ToRoundtrip.v ===== *)
(** * ToRoundtrip: written addresses are read back (parser/parse_to.c)

    Addresses with a bare or an enclosed URI, a quoted display name or one of several words,
    and parameters without a value, with a token or with a quoted string, written with blanks
    where the grammar allows them and separated by commas, are read back by [_parse_to]. *)

From stdpp Require Import prelude list strings.
From Stdlib Require Import ZArith Lia Ascii.
From S2P Require Import Prelude CString UriParser HdrNames HdrNamesSpec HdrBodies ToParser ScanRuns MsgHeadersProps.

(** ** Addresses as text *)

(** The characters of a URI or of the words of a display name, those of the names and values
    of parameters, and quoted strings, in which a backslash quotes the next character. *)
Definition special (c : byte) : bool := is_ws c || is_eol c || (c =? 0) || (c =? chr "\") || (c =? 34).
Definition bare (c : byte) : bool :=
  negb (special c || (c =? chr ",") || (c =? chr ";") || (c =? chr "<") || (c =? chr ">")).
Definition enclosed (c : byte) : bool := negb (special c || (c =? chr "<") || (c =? chr ">")).
Definition word (c : byte) : bool := negb (special c || (c =? chr ",") || (c =? chr ";") || (c =? chr "=")).
Fixpoint quoted (s : bytes) : bool :=
  match s with
  | [] => true
  | c :: t =>
      if c =? chr "\" then match t with [] => false | d :: u => negb (is_eol d) && quoted u end
      else negb (is_eol c || (c =? 0) || (c =? 34)) && quoted t
  end.

(** A parameter: blanks, name, value with the blanks around "=", blanks. *)
Inductive wvalue := WToken (sp1 sp2 v : bytes) | WQuoted (sp1 sp2 v : bytes).
Record wparam := WParam { wp_sp : bytes; wp_name : bytes; wp_val : option wvalue; wp_end : bytes }.

Inductive wdisplay := WNone | WString (s sp : bytes) | WTokens (s sp : bytes).
Inductive wform := WBare (u : bytes) | WAngle (d : wdisplay) (u : bytes).
Record waddr := WAddr { wa_sp : bytes; wa_form : wform; wa_end : bytes; wa_params : list wparam }.

Definition write_value (o : option wvalue) : bytes :=
  match o with
  | None => []
  | Some (WToken sp1 sp2 v) => sp1 ++ chr "=" :: sp2 ++ v
  | Some (WQuoted sp1 sp2 v) => sp1 ++ chr "=" :: sp2 ++ 34 :: v ++ [34]
  end.
Definition write_param (w : wparam) : bytes :=
  chr ";" :: wp_sp w ++ wp_name w ++ write_value (wp_val w) ++ wp_end w.
Definition write_display (d : wdisplay) : bytes :=
  match d with WNone => [] | WString s sp => 34 :: s ++ 34 :: sp | WTokens s sp => s ++ sp end.
Definition write_form (f : wform) : bytes :=
  match f with WBare u => u | WAngle d u => write_display d ++ chr "<" :: u ++ [chr ">"] end.
Definition write_addr (a : waddr) : bytes :=
  wa_sp a ++ write_form (wa_form a) ++ wa_end a ++ (wa_params a ≫= write_param).
Fixpoint write_addrs (l : list waddr) : bytes :=
  match l with [] => [] | [a] => write_addr a | a :: l => write_addr a ++ chr "," :: write_addrs l end.

(** What is written correctly. *)
Definition filled (ok : byte → bool) (s : bytes) : bool := negb (bool_decide (s = [])) && forallb ok s.
Definition is_tag (name : bytes) : bool := bool_decide ((tolower <$> name) = bs "tag").
Definition tag_prefix (name : bytes) : bool :=
  bool_decide ((tolower <$> name) = bs "t") || bool_decide ((tolower <$> name) = bs "ta") || is_tag name.

Definition param_wf (w : wparam) : bool :=
  forallb is_ws (wp_sp w) && filled word (wp_name w) && forallb is_ws (wp_end w) &&
  match wp_val w with
  | None => negb (tag_prefix (wp_name w))
  | Some (WToken sp1 sp2 v) => forallb is_ws sp1 && forallb is_ws sp2 && filled word v
  | Some (WQuoted sp1 sp2 v) => forallb is_ws sp1 && forallb is_ws sp2 && quoted v
  end.
Definition display_wf (d : wdisplay) : bool :=
  match d with
  | WNone => true
  | WString s sp => quoted s && forallb is_ws sp
  | WTokens s sp =>
      forallb (λ c, bare c || is_ws c) s && forallb is_ws sp &&
      match head s, last s with Some a, Some b => bare a && bare b | _, _ => false end
  end.
Definition form_wf (f : wform) : bool :=
  match f with
  | WBare u => filled bare u
  | WAngle d u => display_wf d && match u with [] => false | c :: t => bare c && forallb enclosed t end
  end.
Definition addr_wf (a : waddr) : bool :=
  forallb is_ws (wa_sp a) && form_wf (wa_form a) && forallb is_ws (wa_end a) &&
  match wa_form a with WBare _ => bool_decide (wa_end a = []) | _ => true end && forallb param_wf (wa_params a).

(** ** What is read *)

Record view := View {
  v_error : bool; v_display : bytes; v_uri : bytes; v_tag : bytes; v_params : list (bool * bytes * bytes) }.

Definition param_view (mem : Z → byte) (t : to_param) : bool * bytes * bytes :=
  (tp_tag t, to_text mem (tp_name t), to_text mem (tp_value t)).
Definition addr_view (mem : Z → byte) (b : to_body) : view :=
  View (tb_error b) (to_text mem (tb_display b)) (to_text mem (tb_uri b)) (to_text mem (tb_tag_value b))
    (param_view mem <$> tb_params b).

Definition wp_view (w : wparam) : bool * bytes * bytes :=
  (is_tag (wp_name w), wp_name w, match wp_val w with Some (WToken _ _ v | WQuoted _ _ v) => v | None => [] end).
Definition add_view (v : view) (e : bool * bytes * bytes) : view :=
  View (v_error v) (v_display v) (v_uri v) (if e.1.1 then e.2 else v_tag v) (v_params v ++ [e]).
Definition form_view (f : wform) : view :=
  match f with
  | WBare u => View false [] u [] []
  | WAngle d u => View false (match d with WNone => [] | WString s _ => 34 :: s ++ [34] | WTokens s _ => s end) u [] []
  end.
(** The parameters in order; the tag is the last parameter of that name. *)
Definition wa_view (a : waddr) : view := foldl add_view (form_view (wa_form a)) (wp_view <$> wa_params a).

(** A character that cannot continue the header. *)
Definition to_next (c : byte) : bool := negb (is_ws c || (c =? 0) || (c =? chr "\") || (c =? chr ",")).

(** ** Parameters *)

(** The status inside a name, letter by letter. *)
Definition to_first (c : byte) : to_status := if tolower c =? chr "t" then TAG1 else PARA_NAME.
Definition to_after (q : to_status) (c : byte) : to_status :=
  match q with
  | TAG1 => if tolower c =? chr "a" then TAG2 else PARA_NAME
  | TAG2 => if tolower c =? chr "g" then TAG3 else PARA_NAME
  | _ => PARA_NAME
  end.
Definition name_status (name : bytes) : to_status :=
  match name with [] => S_PARA_NAME | c :: t => foldl to_after (to_first c) t end.

Lemma to_after_name t : foldl to_after PARA_NAME t = PARA_NAME.
Proof. by induction t. Qed.

Lemma name_status_spec name : name ≠ [] →
  (name_status name = TAG3 ∧ is_tag name = true) ∨
  (is_tag name = false ∧ (name_status name = TAG1 ∨ name_status name = TAG2) ∧ tag_prefix name = true) ∨
  (is_tag name = false ∧ name_status name = PARA_NAME).
Proof.
  unfold tag_prefix, is_tag. change (bs "tag") with [116; 97; 103]. change (bs "ta") with [116; 97]. change (bs "t") with [116].
  intros Hne. destruct name as [|a [|b [|c [|d t]]]]; [done|..]; cbn [fmap list_fmap name_status foldl].
  all: unfold to_first; change (chr "t") with 116; destruct (Z.eqb_spec (tolower a) 116) as [->|?]; cbn [to_after];
    change (chr "a") with 97; try destruct (Z.eqb_spec (tolower b) 97) as [->|?]; cbn [to_after];
    change (chr "g") with 103; try destruct (Z.eqb_spec (tolower c) 103) as [->|?]; cbn [to_after];
    rewrite ?to_after_name; repeat case_bool_decide; simplify_eq; naive_solver.
Qed.

(** A letter of a word. *)
Lemma pp_step_word multi c c1 tmp end_ x : word c = true →
  pp_step multi c c1 tmp end_ x = pp_letter tmp (to_first c) (λ q, to_after q c) x (PErr x).
Proof.
  intros Hc. unfold word, special, is_ws, is_eol in Hc. unfold pp_step.
  not_chars Hc.
  assert (Hlow : ∀ k, 97 <= k <= 122 → (c =? k - 32) || (c =? k) = (tolower c =? k)).
  { intros k Hk. unfold tolower. destruct ((65 <=? c) && (c <=? 90)) eqn:E; lia. }
  change (chr "T") with (116 - 32); change (chr "A") with (97 - 32); change (chr "G") with (103 - 32).
  change (chr "t") with 116; change (chr "a") with 97; change (chr "g") with 103.
  rewrite (Hlow 116), (Hlow 97), (Hlow 103) by lia.
  unfold to_first, to_after, pp_letter. 
  change (chr "t") with 116; change (chr "a") with 97; change (chr "g") with 103.
  destruct (Z.eqb_spec (tolower c) 116) as [E|?]; [|destruct (Z.eqb_spec (tolower c) 97) as [E|?]; [|destruct (Z.eqb_spec (tolower c) 103) as [E|?]]].
  all: try rewrite E; destruct (pp_st x); done.
Qed.

Definition in_name (q : to_status) : bool := match q with TAG1 | TAG2 | TAG3 | PARA_NAME => true | _ => false end.
Definition waits (q : to_status) : bool :=
  match q with S_PARA_NAME | S_EQUAL | S_PARA_VALUE | E_PARA_VALUE => true | _ => false end.

(** A parameter that has just been allocated. *)
Definition new_param : to_param := ToParam false str_null str_null.

Section params.
Context (mem : Z → byte) (multi : bool) (end_ : Z).

Abbreviation pruns := (runs (λ n p x, pp_loop mem n multi p end_ x) end_).
Abbreviation pends := (ends (λ n p x, pp_loop mem n multi p end_ x) end_).

Lemma p_go q x skip y : q < end_ → pp_step multi (mem q) (mem (q + 1)) q end_ x = PGo skip y →
  pruns q x (if skip then q + 2 else q + 1) y.
Proof.
  intros Hq Hs n Hn. destruct n as [|n]; [unfold dist in Hn; lia|]. exists n.
  split; [destruct skip; unfold dist in *; lia|]. cbn [pp_loop]. by rewrite (proj2 (Z.ltb_lt _ _) Hq), Hs.
Qed.

Lemma p_end q x y : q < end_ → pp_step multi (mem q) (mem (q + 1)) q end_ x = PEnd y → pends q x (pp_end q y).
Proof.
  intros Hq Hs n Hn. destruct n as [|n]; [unfold dist in Hn; lia|].
  cbn [pp_loop]. by rewrite (proj2 (Z.ltb_lt _ _) Hq), Hs.
Qed.

(** Blanks change nothing in the statuses that wait for something. *)
Lemma p_blanks s p x : forallb is_ws s = true → text_at mem p s → p + Z.of_nat (length s) <= end_ →
  waits (pp_st x) = true → pruns p x (p + Z.of_nat (length s)) x.
Proof.
  intros Hs Ht He Hx. apply (runs_while _ _ mem is_ws); try done. intros q Hq Hc.
  apply (p_go q x false); [done|]. unfold pp_step. unfold is_ws in Hc. rewrite Hc.
  by destruct (pp_st x).
Qed.

Lemma p_name s : ∀ p x, forallb word s = true → text_at mem p s → p + Z.of_nat (length s) <= end_ →
  in_name (pp_st x) = true →
  pruns p x (p + Z.of_nat (length s)) (pp_with x (foldl to_after (pp_st x) s)).
Proof.
  induction s as [|c s IH]; intros p x Hs Ht He Hx.
  - replace (p + Z.of_nat (length [])) with p by (simpl; lia). destruct x. apply runs_refl.
  - cbn [forallb] in Hs. apply andb_prop in Hs as [Hc Hs]. apply text_at_cons in Ht as [Hm Ht]. simpl length in *.
    eapply runs_trans; [apply (p_go _ _ false (pp_with x (to_after (pp_st x) c))); [lia|]|].
    { rewrite Hm, pp_step_word by done. unfold pp_letter, go, stay. destruct x as [st ? ? ? ?]. cbn in Hx. by destruct st. }
    replace (p + Z.of_nat (S (length s))) with (p + 1 + Z.of_nat (length s)) by lia. cbn [foldl].
    apply (IH (p + 1) (pp_with x (to_after (pp_st x) c))); [done|done|lia|]. cbn. unfold to_after.
    destruct (pp_st x); try destruct (_ =? _); done.
Qed.

(** A token of a value. *)
Lemma p_token s p x : forallb word s = true → text_at mem p s → p + Z.of_nat (length s) <= end_ →
  pp_st x = PARA_VALUE_TOKEN → pruns p x (p + Z.of_nat (length s)) x.
Proof.
  intros Hs Ht He Hx. apply (runs_while _ _ mem word); try done. intros q Hq Hc.
  apply (p_go q x false); [done|]. rewrite pp_step_word by done. unfold pp_letter. by rewrite Hx.
Qed.

(** The inside of a quoted value. *)
Lemma p_quoted n : ∀ s p x, (length s <= n)%nat → quoted s = true → text_at mem p s → p + Z.of_nat (length s) < end_ →
  pp_st x = PARA_VALUE_QUOTED → pruns p x (p + Z.of_nat (length s)) x.
Proof.
  induction n as [|n IH]; intros [|c s] p x Hn Hs Ht He Hx; simpl length in *; try lia;
    try (replace (p + Z.of_nat 0) with p by lia; apply runs_refl).
  apply text_at_cons in Ht as [Hm Ht]. cbn [quoted] in Hs. destruct (Z.eqb_spec c (chr "\")) as [->|Hc].
  - destruct s as [|d s]; [done|]. apply andb_prop in Hs as [Hd Hs]. apply text_at_cons in Ht as [Hm1 Ht]. simpl length in *.
    eapply runs_trans; [apply (p_go _ _ true x); [lia|]|].
    { rewrite Hm, Hm1. transitivity (if p + 1 =? end_ then PErr x else PGo (negb ((d =? 13) || (d =? 10))) x).
      - unfold pp_step. by rewrite Hx.
      - unfold is_eol in Hd. apply negb_true_iff, orb_false_iff in Hd as [-> ->]. by rewrite (proj2 (Z.eqb_neq _ _)) by lia. }
    replace (p + Z.of_nat (S (S (length s)))) with (p + 2 + Z.of_nat (length s)) by lia.
    replace (p + 1 + 1) with (p + 2) in Ht by lia. apply IH; [lia|done|done|lia|done].
  - apply andb_prop in Hs as [Hd Hs].
    eapply runs_trans; [apply (p_go _ _ false x); [lia|]|].
    { rewrite Hm. unfold pp_step, pp_letter, is_eol in *. rewrite Hx. change (chr "\") with 92 in *.
      apply negb_true_iff in Hd. apply orb_false_iff in Hd as [[[H1 H2]%orb_false_iff H3]%orb_false_iff H4].
      rewrite H1, H2, H3, H4. change (chr "\") with 92. rewrite (proj2 (Z.eqb_neq _ _) Hc). repeat case_match; done. }
    replace (p + Z.of_nat (S (length s))) with (p + 1 + Z.of_nat (length s)) by lia. apply IH; [lia|done|done|lia|done].
Qed.
(** The end of a line that is not folded. *)
Lemma p_line p x y : p + 2 < end_ → text_at mem p [13; 10] → to_next (mem (p + 2)) = true →
  pp_step multi 13 10 p end_ x = PGo false y → pp_st y = F_CR → ∀ r, (∀ q, pp_end (p + 2) (pp_with y q) = r) → pends p x r.
Proof.
  intros He Ht Hc Hstep Hy r Hr. apply text_at_cons in Ht as [H13 Ht]. apply text_at_cons in Ht as [H10 _].
  eapply runs_ends; [apply (p_go p x false y); [lia|by rewrite H13, H10]|].
  eapply runs_ends; [apply (p_go (p + 1) y false (pp_with y F_CRLF)); [lia|]|].
  { rewrite H10. unfold pp_step, pp_newline. by rewrite Hy. }
  replace (p + 1 + 1) with (p + 2) by lia.
  assert (Hend : ∃ z, pp_step multi (mem (p + 2)) (mem (p + 2 + 1)) (p + 2) end_ (pp_with y F_CRLF) = PEnd z ∧
    pp_end (p + 2) z = r).
  { unfold to_next, is_ws in Hc. unfold pp_step, pp_newline, pp_letter. cbn [pp_st pp_with pp_saved]. not_chars Hc.
    repeat (case_match; [by eexists; split; [reflexivity|apply Hr]|]). by eexists; split; [reflexivity|apply Hr]. }
  destruct Hend as (z & Hz & <-). apply p_end; [lia|done].
Qed.

Lemma p_stop p x y r : p < end_ → pp_step multi (mem p) (mem (p + 1)) p end_ x = PEnd y → pp_end p y = r → pends p x r.
Proof. intros Hp Hs <-. by apply p_end. Qed.

(** A place where a parameter is complete: whatever ends it, [v] is read. *)
Record ready (p : Z) (x : pp) (v : view) : Prop := {
  rd_next : p < end_ → mem p = chr ";" → ∃ b, addr_view mem b = v ∧
    pruns p x (p + 1) (PP S_PARA_NAME (pp_saved x) (Some new_param) b []);
  rd_comma : p < end_ → multi = true → mem p = chr "," → ∃ b, addr_view mem b = v ∧ pends p x (PResult p E_PARA_VALUE b []);
  rd_line : p + 2 < end_ → text_at mem p [13; 10] → to_next (mem (p + 2)) = true → ∃ b, addr_view mem b = v ∧
    pends p x (PResult (p + 2) E_PARA_VALUE b [])
}.

(** The body with one more parameter. *)
Definition body_add (b : to_body) (t : to_param) : to_body :=
  ToBody (tb_error b) (tb_body b) (tb_uri b) (tb_display b) (if tp_tag t then tp_value t else tb_tag_value b) (tb_params b ++ [t]).

Lemma body_add_view b t : addr_view mem (body_add b t) = add_view (addr_view mem b) (param_view mem t).
Proof. unfold addr_view, add_view, body_add. cbn. rewrite fmap_app. by destruct (tp_tag t). Qed.

Lemma valueless_view b p name value :
  addr_view mem (body_add b (value_len p (value_at p (ToParam false name value)))) =
  add_view (addr_view mem b) (false, to_text mem name, []).
Proof. rewrite body_add_view. unfold param_view, value_len, upto, str_to. cbn [tp_tag tp_name tp_value value_at at_ str_s]. by rewrite Z.sub_diag. Qed.

Lemma ready_end p sv b : ready p (PP E_PARA_VALUE sv None b []) (addr_view mem b).
Proof.
  constructor.
  - intros Hp Hc. exists b. split; [done|]. apply (p_go _ _ false); [done|]. by rewrite Hc.
  - intros Hp Hm Hc. exists b. split; [done|]. eapply p_stop; [done|rewrite Hc, Hm; reflexivity|done].
  - intros Hp Ht Hc. exists b. split; [done|]. by eapply p_line; [done..|reflexivity|done|].
Qed.

Lemma ready_token p sv t b :
  ready p (PP PARA_VALUE_TOKEN sv (Some t) b []) (add_view (addr_view mem b) (param_view mem (value_len p t))).
Proof.
  rewrite <- body_add_view. constructor.
  - intros Hp Hc. eexists. split; [reflexivity|]. apply (p_go _ _ false); [done|]. by rewrite Hc.
  - intros Hp Hm Hc. eexists. split; [reflexivity|]. eapply p_stop; [done|rewrite Hc, Hm; reflexivity|done].
  - intros Hp Ht Hc. eexists. split; [reflexivity|]. by eapply p_line; [done..|reflexivity|done|].
Qed.

Lemma ready_equal p sv t b : tp_tag t = false →
  ready p (PP S_EQUAL sv (Some t) b []) (add_view (addr_view mem b) (false, to_text mem (tp_name t), [])).
Proof.
  intros Htag. destruct t as [tag name value]. cbn in Htag. subst tag.
  constructor.
  - intros Hp Hc. exists (body_add b (value_len p (value_at p (ToParam false name value)))). split.
    + apply valueless_view.
    + apply (p_go _ _ false); [done|]. by rewrite Hc.
  - intros Hp Hm Hc. exists (body_add b (value_len p (value_at p (ToParam false name value)))). split.
    + apply valueless_view.
    + eapply p_stop; [done|rewrite Hc, Hm; reflexivity|done].
  - intros Hp Ht Hc. exists (body_add b (no_value (ToParam false name value))). split; [by rewrite body_add_view|].
    by eapply p_line; [done..|reflexivity|done|].
Qed.

Lemma ready_name p sv t b : tp_tag t = false →
  ready p (PP PARA_NAME sv (Some t) b []) (add_view (addr_view mem b) (false, to_text mem (upto (tp_name t) p), [])).
Proof.
  intros Htag. destruct t as [tag name value]. cbn in Htag. subst tag. cbn [tp_name].
  destruct (ready_equal p sv (ToParam false (upto name p) value) b eq_refl) as [H1 H2 H3].
  constructor.
  - intros Hp Hc. exists (body_add b (value_len p (value_at p (ToParam false (upto name p) value)))). split.
    + apply valueless_view.
    + apply (p_go _ _ false); [done|]. by rewrite Hc.
  - intros Hp Hm Hc. exists (body_add b (value_len p (value_at p (ToParam false (upto name p) value)))). split.
    + apply valueless_view.
    + eapply p_stop; [done|rewrite Hc, Hm; reflexivity|done].
  - intros Hp Ht Hc. exists (body_add b (no_value (ToParam false (upto name p) value))). split; [by rewrite body_add_view|].
    by eapply p_line; [done..|reflexivity|done|].
Qed.

(** The statuses of a name end it in the same way. *)
Definition named (q : to_status) (p : Z) (t : to_param) : to_param := ToParam (bool_decide (q = TAG3) || tp_tag t) (upto (tp_name t) p) (tp_value t).

Lemma end_name_named q p sv t b k : end_name p (PP q sv (Some t) b []) k = k (PP q sv (Some (named q p t)) b []).
Proof. unfold end_name, named. cbn [pp_st]. case_decide; [|by rewrite bool_decide_eq_false_2]. by rewrite bool_decide_eq_true_2. Qed.

(** Blanks and a name. *)
Lemma p_new_name sp name p sv b : forallb is_ws sp = true → filled word name = true → text_at mem p (sp ++ name) →
  p + Z.of_nat (length sp + length name) <= end_ →
  pruns p (PP S_PARA_NAME sv (Some new_param) b []) (p + Z.of_nat (length sp + length name))
    (PP (name_status name) sv (Some (ToParam false (Str (p + Z.of_nat (length sp)) 0) str_null)) b []).
Proof.
  intros Hsp Hn Ht He. apply text_at_app in Ht as [Ht1 Ht2]. apply andb_prop in Hn as [Hne Hn].
  destruct name as [|c name]; [done|]. cbn [forallb] in Hn. apply andb_prop in Hn as [Hc Hn].
  apply text_at_cons in Ht2 as [Hm Ht2]. simpl length in *.
  eapply runs_trans; [apply (p_blanks sp); [done|done|lia|done]|].
  eapply runs_trans; [apply (p_go _ _ false); [lia|rewrite Hm, pp_step_word by done; reflexivity]|].
  replace (p + Z.of_nat (length sp + S (length name))) with (p + Z.of_nat (length sp) + 1 + Z.of_nat (length name)) by lia.
  apply (p_name name _ (PP (to_first c) sv (Some (ToParam false (Str (p + Z.of_nat (length sp)) 0) str_null)) b []));
    [done|done|lia|]. cbn [pp_st]. unfold to_first. by case_match.
Qed.

(** The sign "=" with blanks around it, after a name. *)
Lemma p_equal sp1 sp2 q p sv t b : forallb is_ws sp1 = true → forallb is_ws sp2 = true →
  in_name q = true → text_at mem p (sp1 ++ chr "=" :: sp2) →
  p + Z.of_nat (length sp1 + S (length sp2)) <= end_ →
  pruns p (PP q sv (Some t) b []) (p + Z.of_nat (length sp1 + S (length sp2)))
    (PP S_PARA_VALUE sv (Some (named q p t)) b []).
Proof.
  intros H1 H2 Hq Ht He. apply text_at_app in Ht as [Ht1 Ht2]. apply text_at_cons in Ht2 as [Heq Ht2].
  replace (p + Z.of_nat (length sp1 + S (length sp2))) with (p + Z.of_nat (length sp1) + 1 + Z.of_nat (length sp2)) by lia.
  eapply runs_trans; [|apply (p_blanks sp2); [done|done|lia|done]].
  destruct sp1 as [|c sp1]; simpl length in *.
  - replace (p + Z.of_nat 0) with p in * by lia. apply (p_go _ _ false); [lia|]. rewrite Heq.
    by destruct q.
  - cbn [forallb] in H1. apply andb_prop in H1 as [Hc H1]. apply text_at_cons in Ht1 as [Hm Ht1].
    eapply runs_trans; [apply (p_go _ _ false (PP S_EQUAL sv (Some (named q p t)) b [])); [lia|]|].
    { rewrite Hm. unfold is_ws in Hc. unfold pp_step. rewrite Hc. cbn [pp_st].
      by destruct q. }
    eapply runs_trans; [apply (p_blanks sp1); [done|done|lia|done]|].
    replace (p + 1 + Z.of_nat (length sp1)) with (p + Z.of_nat (S (length sp1))) by lia.
    apply (p_go _ _ false); [lia|]. by rewrite Heq.
Qed.

(** A complete parameter stays complete after blanks. *)
Definition complete (p : Z) (x : pp) (v : view) : Prop :=
  ∀ s, forallb is_ws s = true → text_at mem p s → p + Z.of_nat (length s) <= end_ →
  ∃ y, pruns p x (p + Z.of_nat (length s)) y ∧ pp_saved y = pp_saved x ∧ ready (p + Z.of_nat (length s)) y v.

Lemma complete_from p x y v : ready p x v →
  (∀ c, mem p = c → is_ws c = true → p < end_ → pruns p x (p + 1) y) → waits (pp_st y) = true → pp_saved y = pp_saved x →
  (∀ q, ready q y v) → complete p x v.
Proof.
  intros Hr Hstep Hy Hsv Hr' s Hs Ht He. destruct s as [|c s].
  - exists x. replace (p + Z.of_nat (length [])) with p by (simpl; lia). split; [apply runs_refl|done].
  - cbn [forallb] in Hs. apply andb_prop in Hs as [Hc Hs]. apply text_at_cons in Ht as [Hm Ht]. simpl length in *. exists y.
    split; [|done]. eapply runs_trans; [apply (Hstep c); [done|done|lia]|].
    replace (p + Z.of_nat (S (length s))) with (p + 1 + Z.of_nat (length s)) by lia. apply p_blanks; [done|done|lia|done].
Qed.

Lemma complete_end p sv b : complete p (PP E_PARA_VALUE sv None b []) (addr_view mem b).
Proof.
  apply (complete_from _ _ (PP E_PARA_VALUE sv None b [])); [apply ready_end| |done|done|intros; apply ready_end].
  intros c Hm Hc Hp. apply (p_go _ _ false); [done|]. rewrite Hm. unfold is_ws in Hc. unfold pp_step. by rewrite Hc.
Qed.

Lemma complete_token p sv t b :
  complete p (PP PARA_VALUE_TOKEN sv (Some t) b []) (add_view (addr_view mem b) (param_view mem (value_len p t))).
Proof.
  apply (complete_from _ _ (PP E_PARA_VALUE sv None (body_add b (value_len p t)) [])); [apply ready_token| |done|done|].
  - intros c Hm Hc Hp. apply (p_go _ _ false); [done|]. rewrite Hm. unfold is_ws in Hc. unfold pp_step. by rewrite Hc.
  - intros q. rewrite <- body_add_view. apply ready_end.
Qed.

Lemma complete_name p sv t b : tp_tag t = false →
  complete p (PP PARA_NAME sv (Some t) b []) (add_view (addr_view mem b) (false, to_text mem (upto (tp_name t) p), [])).
Proof.
  intros Ht. apply (complete_from _ _ (PP S_EQUAL sv (Some (name_len p t)) b [])); [by apply ready_name| |done|done|].
  - intros c Hm Hc Hp. apply (p_go _ _ false); [done|]. rewrite Hm. unfold is_ws in Hc. unfold pp_step. by rewrite Hc.
  - intros q. by apply ready_equal.
Qed.

(** The two kinds of values. *)
Lemma p_value_token v p sv t b : filled word v = true → text_at mem p v → p + Z.of_nat (length v) <= end_ →
  pruns p (PP S_PARA_VALUE sv (Some t) b []) (p + Z.of_nat (length v)) (PP PARA_VALUE_TOKEN sv (Some (value_at p t)) b []).
Proof.
  intros [Hne Hv]%andb_prop Ht He. destruct v as [|c v]; [done|]. cbn [forallb] in Hv. apply andb_prop in Hv as [Hc Hv].
  apply text_at_cons in Ht as [Hm Ht]. simpl length in *.
  replace (p + Z.of_nat (S (length v))) with (p + 1 + Z.of_nat (length v)) by lia.
  eapply runs_trans; [apply (p_go _ _ false); [lia|]; rewrite Hm, pp_step_word by done; reflexivity|].
  apply p_token; [done|done|lia|done].
Qed.

Lemma p_value_quoted v p sv t b : quoted v = true → text_at mem p (34 :: v ++ [34]) → p + Z.of_nat (length v) + 2 <= end_ →
  pruns p (PP S_PARA_VALUE sv (Some t) b []) (p + Z.of_nat (length v) + 2)
    (PP E_PARA_VALUE sv None (body_add b (value_len (p + 1 + Z.of_nat (length v)) (value_at (p + 1) t))) []).
Proof.
  intros Hv Ht He. apply text_at_cons in Ht as [Hm Ht]. apply text_at_snoc in Ht as [Ht Hq].
  eapply runs_trans; [apply (p_go _ _ false (PP PARA_VALUE_QUOTED sv (Some (value_at (p + 1) t)) b [])); [lia|by rewrite Hm]|].
  eapply runs_trans; [apply (p_quoted (length v) v); [done|done|done|lia|done]|].
  replace (p + Z.of_nat (length v) + 2) with (p + 1 + Z.of_nat (length v) + 1) by lia.
  apply (p_go _ _ false); [lia|]. by rewrite Hq.
Qed.

Lemma complete_eq p p' x v v' : complete p x v → p = p' → v = v' → complete p' x v'.
Proof. by intros ? <- <-. Qed.

Context (A : Z) (HE : end_ - A <= INT_MAX).

Lemma name_status_in name : name ≠ [] → in_name (name_status name) = true ∧ bool_decide (name_status name = TAG3) = is_tag name.
Proof.
  intros Hne. destruct (name_status_spec name Hne) as [(-> & ->)|[(-> & [->| ->] & _)|(-> & ->)]]; done.
Qed.

(** The value of a parameter, with the name before it. *)
Lemma p_value val name q p sv a b : A <= p → name ≠ [] → q = name_status name →
  match val with
  | None => negb (tag_prefix name)
  | Some (WToken sp1 sp2 v) => forallb is_ws sp1 && forallb is_ws sp2 && filled word v
  | Some (WQuoted sp1 sp2 v) => forallb is_ws sp1 && forallb is_ws sp2 && quoted v
  end = true →
  text_at mem p (write_value val) → p + Z.of_nat (length (write_value val)) <= end_ → to_text mem (upto (Str a 0) p) = name →
  ∃ x, pruns p (PP q sv (Some (ToParam false (Str a 0) str_null)) b []) (p + Z.of_nat (length (write_value val))) x ∧ pp_saved x = sv ∧
    complete (p + Z.of_nat (length (write_value val))) x (add_view (addr_view mem b)
      (is_tag name, name, match val with Some (WToken _ _ v | WQuoted _ _ v) => v | None => [] end)).
Proof.
  intros HA Hne Hq Hval Ht He Hname. destruct (name_status_in name Hne) as [Hin Htag]. rewrite <- Hq in Hin, Htag.
  destruct val as [[sp1 sp2 v|sp1 sp2 v]|]; cbn [write_value] in *.
  1, 2: apply andb_prop in Hval as [[H1 H2]%andb_prop Hv]; rewrite app_comm_cons, app_assoc in Ht; apply text_at_app in Ht as [Heq Htv];
    rewrite ?length_app in *; cbn [length] in *; rewrite ?length_app in *; cbn [length] in *; rewrite ?length_app in *; cbn [length] in *;
    pose proof (p_equal sp1 sp2 q p sv (ToParam false (Str a 0) str_null) b H1 H2 Hin Heq ltac:(lia)) as Hequal;
    unfold named in Hequal; cbn [tp_name tp_tag tp_value] in Hequal; rewrite Htag, orb_false_r in Hequal.
  - eexists. split; [eapply runs_trans; [exact Hequal|]; eapply runs_to; [|by apply (p_value_token v); [..|lia]]; lia|]. split; [done|].
    eapply complete_eq; [apply complete_token|reflexivity|]. unfold param_view. cbn [value_at value_len tp_value tp_tag tp_name at_].
    rewrite Hname. do 2 f_equal. by apply to_text_upto; [|lia|lia].
  - eexists. split; [eapply runs_trans; [exact Hequal|]; eapply runs_to; [|by apply (p_value_quoted v); [..|lia]]; lia|]. split; [done|].
    eapply complete_eq; [apply complete_end|reflexivity|]. rewrite body_add_view. unfold param_view.
    cbn [value_at value_len tp_value tp_tag tp_name at_]. rewrite Hname. do 2 f_equal.
    apply text_at_cons in Htv as [_ Htv]. apply text_at_snoc in Htv as [Htv _]. by apply to_text_upto; [|lia|lia].
  - destruct (name_status_spec name Hne) as [(_ & Htt)|[(_ & _ & Hpre)|(Hno & Hst)]].
    + unfold tag_prefix in Hval. by rewrite Htt, orb_true_r in Hval.
    + by rewrite Hpre in Hval.
    + rewrite Hst in Hq. subst q. eexists. split; [eapply runs_to; [|apply runs_refl]; cbn; lia|]. split; [done|].
      eapply complete_eq; [by apply complete_name|reflexivity|]. cbn [tp_name length]. by rewrite Hno, Nat2Z.inj_0, Z.add_0_r, Hname.
Qed.

(** A list of parameters. *)
Lemma p_params ws : ∀ p x v, A <= p → forallb param_wf ws = true → text_at mem p (ws ≫= write_param) →
  p + Z.of_nat (length (ws ≫= write_param)) <= end_ → ready p x v →
  ∃ y, pruns p x (p + Z.of_nat (length (ws ≫= write_param))) y ∧
    ready (p + Z.of_nat (length (ws ≫= write_param))) y (foldl add_view v (wp_view <$> ws)).
Proof.
  induction ws as [|[sp name val s] ws IH]; intros p x v HA Hwf Ht He Hr.
  { exists x. replace (p + Z.of_nat (length ([] ≫= write_param))) with p by (simpl; lia). split; [apply runs_refl|done]. }
  cbn [forallb mbind list_bind fmap list_fmap foldl] in *. apply andb_prop in Hwf as [Hw Hwf]. unfold param_wf in Hw.
  apply andb_prop in Hw as [[[Hsp Hn]%andb_prop Hs]%andb_prop Hval].
  unfold write_param at 1 in Ht. unfold write_param at 1 in He. unfold write_param at 1 3.
  cbn [wp_sp wp_name wp_val wp_end] in *. rewrite <- app_comm_cons in *.
  apply text_at_cons in Ht as [Hsemi Ht]. apply text_at_app in Ht as [Ht Htws]. rewrite app_assoc in Ht.
  apply text_at_app in Ht as [Htn Ht]. apply text_at_app in Ht as [Htv Hts].
  cbn [length] in *. rewrite !length_app in *.
  destruct (rd_next p x v Hr ltac:(lia) Hsemi) as (b & <- & Hrun0).
  pose proof (p_new_name sp name (p + 1) (pp_saved x) b Hsp Hn Htn ltac:(lia)) as Hrun1.
  apply text_at_app in Htn as [_ Htn]. assert (Hne : name ≠ []) by (intros ->; done).
  destruct (p_value val name _ (p + 1 + Z.of_nat (length sp + length name)) (pp_saved x) (p + 1 + Z.of_nat (length sp)) b ltac:(lia) Hne eq_refl Hval Htv ltac:(lia))
    as (y & Hrun2 & Hsv & Hy).
  { apply to_text_upto; [done|lia|lia]. }
  destruct (Hy s Hs) as (z & Hrun3 & Hsv' & Hz); [done|lia|].
  match type of Hz with ready ?a _ ?u => destruct (IH a z u ltac:(lia) Hwf) as (y' & Hrun4 & Hy'); [..|exact Hz|] end.
  - match type of Htws with text_at _ ?a _ => match goal with |- text_at _ ?b _ => replace b with a by lia end end. done.
  - lia.
  - exists y'. split.
    + eapply runs_trans; [exact Hrun0|]. eapply runs_trans; [exact Hrun1|]. eapply runs_trans; [exact Hrun2|].
      eapply runs_trans; [exact Hrun3|]. eapply runs_to; [|exact Hrun4]. lia.
    + match type of Hy' with ready ?a _ _ => match goal with |- ready ?b _ _ => replace b with a by lia end end. done.
Qed.
End params.

(** ** Addresses *)

Section addrs.
Context (mem : Z → byte) (multi : bool) (end_ : Z).

Abbreviation truns := (runs (λ n p x, t_loop mem n multi p end_ x) end_).
Abbreviation tends := (ends (λ n p x, t_loop mem n multi p end_ x) end_).

Lemma t_go q x tmp y : q < end_ → q <= tmp → t_step mem multi (mem q) q end_ x = TGo tmp y → truns q x (tmp + 1) y.
Proof.
  intros Hq Htmp Hs n Hn. destruct n as [|n]; [unfold dist in Hn; lia|]. exists n.
  split; [unfold dist in *; lia|]. cbn [t_loop]. by rewrite (proj2 (Z.ltb_lt _ _) Hq), Hs.
Qed.

Lemma t_stop q x tmp y r : q < end_ → t_step mem multi (mem q) q end_ x = TAt tmp y → (t_end tmp y, t_al y) = r → tends q x r.
Proof.
  intros Hq Hs <- n Hn. destruct n as [|n]; [unfold dist in Hn; lia|].
  cbn [t_loop]. by rewrite (proj2 (Z.ltb_lt _ _) Hq), Hs.
Qed.

(** Blanks before an address, and after the display name or the URI. *)
Lemma t_blanks s p x : forallb is_ws s = true → text_at mem p s → p + Z.of_nat (length s) <= end_ →
  match t_st x with START_TO | E_DISPLAY_QUOTED | END | DISPLAY_TOKEN2 | MAYBE_URI_END => true | _ => false end = true →
  truns p x (p + Z.of_nat (length s)) x.
Proof.
  intros Hs Ht He Hx. apply (runs_while _ _ mem is_ws); try done. intros q Hq Hc. apply t_go; [done|lia|].
  unfold t_step. unfold is_ws in Hc. rewrite Hc. by destruct (t_st x).
Qed.

(** The characters of a URI. *)
Lemma t_bare s p x : forallb bare s = true → text_at mem p s → p + Z.of_nat (length s) <= end_ → t_st x = URI_OR_TOKEN →
  truns p x (p + Z.of_nat (length s)) x.
Proof.
  intros Hs Ht He Hx. apply (runs_while _ _ mem bare); try done. intros q Hq Hc. apply t_go; [done|lia|].
  unfold bare, special, is_ws, is_eol in Hc. unfold t_step. rewrite Hx. not_chars Hc. done.
Qed.

Lemma t_enclosed s p x : forallb enclosed s = true → text_at mem p s → p + Z.of_nat (length s) <= end_ → t_st x = URI_ENCLOSED →
  truns p x (p + Z.of_nat (length s)) x.
Proof.
  intros Hs Ht He Hx. apply (runs_while _ _ mem enclosed); try done. intros q Hq Hc. apply t_go; [done|lia|].
  unfold enclosed, special, is_ws, is_eol in Hc. unfold t_step. rewrite Hx. not_chars Hc. by repeat case_match.
Qed.

(** The inside of a quoted display name. *)
Lemma t_quoted n : ∀ s p x, (length s <= n)%nat → quoted s = true → text_at mem p s → p + Z.of_nat (length s) < end_ →
  t_st x = DISPLAY_QUOTED → truns p x (p + Z.of_nat (length s)) x.
Proof.
  induction n as [|n IH]; intros [|c s] p x Hn Hs Ht He Hx; simpl length in *; try lia;
    try (replace (p + Z.of_nat 0) with p by lia; apply runs_refl).
  apply text_at_cons in Ht as [Hm Ht]. cbn [quoted] in Hs. destruct (Z.eqb_spec c (chr "\")) as [->|Hc].
  - destruct s as [|d s]; [done|]. apply andb_prop in Hs as [_ Hs]. apply text_at_cons in Ht as [_ Ht]. simpl length in *.
    eapply runs_trans; [apply (t_go _ _ (p + 1) x); [lia|lia|]|].
    { rewrite Hm. unfold t_step. by rewrite Hx. }
    replace (p + Z.of_nat (S (S (length s)))) with (p + 1 + 1 + Z.of_nat (length s)) by lia. apply IH; [lia|done|done|lia|done].
  - apply andb_prop in Hs as [Hd Hs]. eapply runs_trans; [apply (t_go _ _ p x); [lia|lia|]|].
    { rewrite Hm. unfold t_step, t_newline. rewrite Hx. unfold is_eol in Hd. not_chars Hd.
      rewrite (proj2 (Z.eqb_neq _ _) Hc). by repeat case_match. }
    replace (p + Z.of_nat (S (length s))) with (p + 1 + Z.of_nat (length s)) by lia. apply IH; [lia|done|done|lia|done].
Qed.

(** The words of a display name, which may still be a URI at first. *)
Definition in_token (q : to_status) : bool :=
  match q with URI_OR_TOKEN | MAYBE_URI_END | DISPLAY_TOKEN | DISPLAY_TOKEN2 => true | _ => false end.

Lemma t_tokens s : ∀ p q sv m done b al c, forallb (λ c, bare c || is_ws c) s = true → bare c = true → in_token q = true →
  text_at mem p (s ++ [c]) → p + Z.of_nat (length (s ++ [c])) <= end_ →
  ∃ q' m', (q' = URI_OR_TOKEN ∨ q' = DISPLAY_TOKEN) ∧
    truns p (PT q sv m done b al) (p + Z.of_nat (length (s ++ [c]))) (PT q' sv m' done b al).
Proof.
  assert (Hstep : ∀ p c q sv m done b al, p < end_ → mem p = c → bare c = true → in_token q = true →
    ∃ q', (q' = URI_OR_TOKEN ∨ q' = DISPLAY_TOKEN) ∧ truns p (PT q sv m done b al) (p + 1) (PT q' sv m done b al)).
  { intros p c q sv m done b al Hp Hm Hc Hq. unfold bare, special, is_ws, is_eol in Hc.
    exists (match q with URI_OR_TOKEN => URI_OR_TOKEN | _ => DISPLAY_TOKEN end). split; [destruct q; auto|].
    apply t_go; [done|lia|]. rewrite Hm. unfold t_step, t_newline. cbn [t_st]. not_chars Hc. by destruct q. }
  induction s as [|d s IH]; intros p q sv m done b al c Hs Hc Hq Ht He.
  - cbn [app] in *. apply text_at_cons in Ht as [Hm _]. simpl length in *.
    destruct (Hstep p c q sv m done b al ltac:(lia) Hm Hc Hq) as (q' & Hq' & Hrun). exists q', m. done.
  - cbn [app forallb] in *. apply andb_prop in Hs as [Hd Hs]. apply text_at_cons in Ht as [Hm Ht]. simpl length in *.
    assert (Hone : ∃ q1 m1, in_token q1 = true ∧ truns p (PT q sv m done b al) (p + 1) (PT q1 sv m1 done b al)).
    { destruct (bare d) eqn:Hb.
      - destruct (Hstep p d q sv m done b al ltac:(lia) Hm Hb Hq) as (q' & Hq' & Hrun). exists q', m.
        split; [by destruct Hq' as [->| ->]|done].
      - cbn [orb] in Hd. unfold is_ws in Hd.
        exists (match q with URI_OR_TOKEN => MAYBE_URI_END | DISPLAY_TOKEN => DISPLAY_TOKEN2 | _ => q end),
          (match q with URI_OR_TOKEN | DISPLAY_TOKEN => p | _ => m end). split; [by destruct q|].
        apply t_go; [lia|lia|]. rewrite Hm. unfold t_step. rewrite Hd. by destruct q. }
    destruct Hone as (q1 & m1 & Hq1 & Hrun1).
    destruct (IH (p + 1) q1 sv m1 done b al c Hs Hc Hq1 Ht ltac:(lia)) as (q' & m' & Hq' & Hrun). exists q', m'. split; [done|].
    eapply runs_trans; [exact Hrun1|]. eapply runs_to; [|exact Hrun]. lia.
Qed.

Context (A : Z) (HE : end_ - A <= INT_MAX).

Definition fresh (done : list to_body) : pt := PT START_TO START_TO 0 done to_zero [].

(** The body before its URI is known. *)
Record has_display (b : to_body) (d : bytes) : Prop := {
  hd_text : to_text mem (tb_display b) = d;
  hd_rest : tb_error b = false ∧ tb_tag_value b = str_null ∧ tb_params b = []
}.

Definition display_text (d : wdisplay) : bytes := match d with WNone => [] | WString s _ => 34 :: s ++ [34] | WTokens s _ => s end.

(** A display name of words: where it ends, nothing of the body but the three pointers is set. *)
Lemma t_words s a p done : forallb (λ c, bare c || is_ws c) s = true → bare a = true →
  match head (s ++ [a]) with Some c => bare c | None => false end = true → text_at mem p (s ++ [a]) →
  p + Z.of_nat (length (s ++ [a])) <= end_ →
  ∃ q m, (q = URI_OR_TOKEN ∨ q = DISPLAY_TOKEN) ∧ truns p (fresh done) (p + Z.of_nat (length (s ++ [a])))
    (PT q START_TO m done (ToBody false (Str p 0) (Str p 0) (Str p 0) str_null []) []).
Proof.
  intros Hs Ha Hhd Hts He. set (b := ToBody _ _ _ _ _ _). destruct (head (s ++ [a])) as [c|] eqn:Hh; [|done].
  assert (Hfirst : mem p = c → truns p (fresh done) (p + 1) (PT URI_OR_TOKEN START_TO 0 done b [])).
  { intros Hm. apply t_go; [rewrite length_app in He; simpl length in He; lia|lia|]. rewrite Hm.
    unfold bare, special, is_ws, is_eol in Hhd. unfold t_step, t_newline. cbn [t_st fresh]. not_chars Hhd. done. }
  destruct s as [|d s]; cbn [app head forallb] in *; injection Hh as ->; apply text_at_cons in Hts as [Hm Hts].
  - exists URI_OR_TOKEN, 0. split; [by left|]. by apply Hfirst.
  - apply andb_prop in Hs as [_ Hs]. rewrite length_cons in *.
    destruct (t_tokens s (p + 1) URI_OR_TOKEN START_TO 0 done b [] a Hs Ha eq_refl Hts ltac:(lia)) as (q & m & Hq & Hrun).
    exists q, m. split; [done|]. eapply runs_trans; [by apply Hfirst|]. eapply runs_to; [|exact Hrun]. lia.
Qed.

(** The display name and the bracket after it. *)
Lemma t_display d p done : A <= p → display_wf d = true → text_at mem p (write_display d ++ [chr "<"]) →
  p + Z.of_nat (length (write_display d)) + 1 <= end_ →
  ∃ m b, has_display b (display_text d) ∧
    truns p (fresh done) (p + Z.of_nat (length (write_display d)) + 1) (PT S_URI_ENCLOSED START_TO m done b []).
Proof.
  intros HA Hwf Ht He. apply text_at_snoc in Ht as [Ht Hlt]. destruct d as [|s sp|s sp]; cbn [write_display display_text] in *.
  - simpl length in *. rewrite Z.add_0_r in *. exists 0, (body_at p to_zero). split; [by split|]. apply t_go; [lia|lia|]. by rewrite Hlt.
  - apply andb_prop in Hwf as [Hs Hsp]. apply text_at_cons in Ht as [Hq Ht0]. rewrite length_cons, length_app, length_cons in *.
    apply text_at_app in Ht0 as [Hts Ht]. apply text_at_cons in Ht as [Hq2 Htsp].
    exists 0, (set_display (body_at p to_zero) (Str p (i32 (p + 1 + Z.of_nat (length s) - p + 1)))).
    split; [split; [|done]; cbn [tb_display set_display]; apply to_text_str|].
    { apply text_at_cons. split; [done|]. apply text_at_snoc. done. }
    { rewrite i32_fits, length_cons, length_app by lia. simpl length. lia. }
    eapply runs_trans; [apply (t_go _ _ p); [lia|lia|rewrite Hq; reflexivity]|].
    eapply runs_trans; [apply (t_quoted (length s) s); [done|done|done|lia|done]|].
    eapply runs_trans; [apply (t_go _ _ (p + 1 + Z.of_nat (length s))); [lia|lia|rewrite Hq2; reflexivity]|].
    eapply runs_trans; [apply (t_blanks sp); [done|done|lia|done]|].
    match type of Hlt with mem ?a = _ => match goal with |- truns ?b _ _ _ => replace b with a by lia end end.
    apply t_go; [lia|lia|]. by rewrite Hlt.
  - apply andb_prop in Hwf as [[Hs Hsp]%andb_prop Hhl]. destruct s as [|a s] using rev_ind; [done|]. clear IHs.
    rewrite last_snoc in Hhl. assert (Hhl' : match head (s ++ [a]) with Some c => bare c | None => false end = true ∧ bare a = true).
    { destruct (head (s ++ [a])); [|done]. by apply andb_prop in Hhl. }
    destruct Hhl' as [Hhd Ha]. rewrite forallb_app in Hs. apply andb_prop in Hs as [Hs _]. rewrite length_app in *.
    apply text_at_app in Ht as [Hts Htsp]. destruct (t_words s a p done Hs Ha Hhd Hts ltac:(lia)) as (q & m & Hq & Hrun).
    set (b := ToBody false (Str p 0) (Str p 0) (Str p 0) str_null []) in *. set (e := p + Z.of_nat (length (s ++ [a]))) in *.
    assert (Hdisp : has_display (display_upto e b) (s ++ [a])).
    { split; [|done]. cbn [tb_display display_upto set_display]. apply to_text_upto; [done|done|unfold e in *; lia]. }
    exists e, (display_upto e b). split; [done|]. eapply runs_trans; [exact Hrun|]. destruct sp as [|w sp].
    + simpl length in *. rewrite Nat.add_0_r in *. apply t_go; [lia|lia|]. fold e in Hlt. rewrite Hlt. by destruct Hq as [->| ->].
    + cbn [forallb] in Hsp. apply andb_prop in Hsp as [Hw Hsp]. apply text_at_cons in Htsp as [Hmw Htsp]. rewrite length_cons in *.
      eapply runs_trans; [apply (t_go e _ e (PT (match q with URI_OR_TOKEN => MAYBE_URI_END | _ => DISPLAY_TOKEN2 end) START_TO e done b []));
        [unfold e; lia|lia|]|].
      { rewrite Hmw. unfold is_ws in Hw. unfold t_step. rewrite Hw. by destruct Hq as [->| ->]. }
      eapply runs_trans; [apply (t_blanks sp); [done|done|unfold e; lia|by destruct Hq as [->| ->]]|].
      match type of Hlt with mem ?a = _ => match goal with |- truns ?b _ _ _ => replace b with a by (unfold e; lia) end end.
      apply t_go; [lia|lia|]. rewrite Hlt. by destruct Hq as [->| ->].
Qed.

(** The end of a line that is not folded. *)
Lemma t_line p x y : p + 2 < end_ → text_at mem p [13; 10] → to_next (mem (p + 2)) = true →
  t_step mem multi 13 p end_ x = TGo p y → t_st y = F_CR → t_al y = [] → ∀ r, t_end (p + 2) y = r → tends p x (r, []).
Proof.
  intros He Ht Hc Hstep Hy Hal r <-. apply text_at_cons in Ht as [H13 Ht]. apply text_at_cons in Ht as [H10 _].
  eapply runs_ends; [apply (t_go p x p y); [lia|lia|by rewrite H13]|].
  eapply runs_ends; [apply (t_go (p + 1) y (p + 1) (t_with y F_CRLF)); [lia|lia|]|].
  { rewrite H10. unfold t_step, t_newline. by rewrite Hy. }
  replace (p + 1 + 1) with (p + 2) by lia. eapply (t_stop _ _ (p + 2) (t_with y F_CRLF)); [lia| |cbn; by rewrite Hal].
  unfold to_next, is_ws in Hc. unfold t_step, t_newline. cbn [t_st t_with]. not_chars Hc. by repeat case_match.
Qed.

Lemma add_view_error l : ∀ v, v_error (foldl add_view v l) = v_error v.
Proof. induction l as [|e l IH]; intros v; [done|]. cbn. by rewrite IH. Qed.

(** [endofheader] keeps what is read of a body. *)
Lemma t_end_view tmp st sv m done b al : (sv = END ∨ sv = E_PARA_VALUE) →
  ∃ b', addr_view mem b' = addr_view mem b ∧ t_end tmp (PT st sv m done b al) = TrOk tmp (done ++ [b']).
Proof.
  intros Hsv. unfold t_end. cbn [t_saved t_done t_cur]. set (b1 := if _ =? 0 then _ else _).
  assert (H1 : addr_view mem b1 = addr_view mem b).
  { unfold b1. destruct (Z.eqb_spec (str_len (tb_display b)) 0) as [E|?]; [|done]. unfold addr_view. cbn [tb_display set_display tb_error tb_uri tb_tag_value tb_params].
    f_equal. unfold to_text. cbn [str_len]. by rewrite E. }
  destruct Hsv as [->| ->]; eexists; (split; [|reflexivity]); [|done]. by rewrite <- H1.
Qed.

(** A place where the URI of a body is complete: whatever follows, [v] is read. *)
Record closed (p : Z) (x : pt) (done : list to_body) (v : view) : Prop := {
  cl_params : mem p = chr ";" → ∃ st sv m b, addr_view mem b = v ∧
    t_step mem multi (mem p) p end_ x = t_params mem multi p end_ (PT st sv m done b []);
  cl_comma : multi = true → mem p = chr "," → ∃ st sv m b, addr_view mem b = v ∧
    t_step mem multi (mem p) p end_ x = next_body p (PT st sv m done b []);
  cl_line : p + 2 < end_ → text_at mem p [13; 10] → to_next (mem (p + 2)) = true → ∃ b, addr_view mem b = v ∧
    tends p x (TrOk (p + 2) (done ++ [b]), [])
}.

Lemma closed_end p sv m done b : closed p (PT END sv m done b []) done (addr_view mem b).
Proof.
  constructor.
  - intros Hc. exists END, sv, m, b. split; [done|]. by rewrite Hc.
  - intros Hm Hc. exists END, sv, m, b. split; [done|]. by rewrite Hc, Hm.
  - intros Hp Ht Hc. destruct (t_end_view (p + 2) F_CR END m done b []) as (b' & Hb' & Hend); [by left|]. exists b'. split; [done|].
    by eapply t_line; [done..|reflexivity|done|done|].
Qed.

Lemma closed_bare u p a done : A <= a → u ≠ [] → text_at mem a u → p = a + Z.of_nat (length u) → p <= end_ →
  closed p (PT URI_OR_TOKEN START_TO 0 done (ToBody false (Str a 0) (Str a 0) (Str a 0) str_null []) []) done (View false [] u [] []).
Proof.
  intros HA Hne Ht -> He. set (p := a + Z.of_nat (length u)).
  assert (Hu : to_text mem (upto (Str a 0) p) = u) by (apply to_text_upto; [done|done|lia]).
  assert (Hv : addr_view mem (uri_upto p (ToBody false (Str a 0) (Str a 0) (Str a 0) str_null [])) = View false [] u [] []).
  { unfold addr_view. cbn [uri_upto set_uri tb_error tb_display tb_uri tb_tag_value tb_params]. by rewrite Hu. }
  constructor.
  - intros Hc. eexists URI_OR_TOKEN, START_TO, p, _. split; [exact Hv|]. by rewrite Hc.
  - intros Hm Hc. eexists URI_OR_TOKEN, START_TO, 0, _. split; [exact Hv|]. by rewrite Hc, Hm.
  - intros Hp Hl Hc. eexists. split; [|eapply t_line; [done..|reflexivity|done|done|reflexivity]]. by rewrite <- Hv.
Qed.

(** The URI of an address. *)
Lemma t_form f s p done : A <= p → form_wf f = true → forallb is_ws s = true → match f with WBare _ => bool_decide (s = []) | _ => true end = true →
  text_at mem p (write_form f ++ s) → p + Z.of_nat (length (write_form f ++ s)) <= end_ →
  ∃ x, truns p (fresh done) (p + Z.of_nat (length (write_form f ++ s))) x ∧
    closed (p + Z.of_nat (length (write_form f ++ s))) x done (form_view f).
Proof.
  intros HA Hwf Hs Hbs Ht He. destruct f as [u|d u]; cbn [form_wf write_form form_view] in *.
  - apply bool_decide_eq_true in Hbs. subst s. rewrite app_nil_r in *. apply andb_prop in Hwf as [Hne Hu].
    destruct u as [|c u]; [done|]. assert (Ht0 := Ht). cbn [forallb] in Hu. apply andb_prop in Hu as [Hc Hu].
    apply text_at_cons in Ht as [Hm Ht]. rewrite length_cons in He.
    eexists. split; [|apply (closed_bare (c :: u)); [done|done|done|done|rewrite length_cons; lia]].
    eapply runs_trans; [apply (t_go _ _ p); [lia|lia|]|].
    { rewrite Hm. unfold t_step, t_newline, bare, special, is_ws, is_eol in *. cbn [t_st fresh]. not_chars Hc. reflexivity. }
    eapply runs_to; [|apply (t_bare u); [done|done|lia|done]]. rewrite length_cons. lia.
  - apply andb_prop in Hwf as [Hd Hu]. destruct u as [|c u]; [done|]. apply andb_prop in Hu as [Hc Hu].
    rewrite <- app_assoc in Ht, He |- *. rewrite <- app_comm_cons in Ht, He |- *.
    rewrite cons_middle, app_assoc in Ht. apply text_at_app in Ht as [Htd Ht]. rewrite !length_app, ?length_cons, !length_app, ?length_cons in He |- *.
    simpl length in *. rewrite length_app in Ht. simpl length in Ht.
    destruct (t_display d p done HA Hd Htd ltac:(lia)) as (m & b & [Hdt (He1 & He2 & He3)] & Hrun).
    replace (p + Z.of_nat (length (write_display d) + 1)) with (p + Z.of_nat (length (write_display d)) + 1) in Ht by lia.
    set (a := p + Z.of_nat (length (write_display d)) + 1) in *. rewrite <- !app_comm_cons in Ht.
    apply text_at_cons in Ht as Ht'. destruct Ht' as [Hm Ht']. rewrite <- app_assoc in Ht'. apply text_at_app in Ht' as [Htu Ht'].
    apply text_at_cons in Ht' as [Hgt Hts]. set (b1 := set_uri b (Str a (str_len (tb_uri b)))).
    eexists. split.
    + eapply runs_trans; [exact Hrun|]. eapply runs_trans; [apply (t_go a _ a (PT URI_ENCLOSED START_TO m done b1 [])); [unfold a; lia|lia|]|].
      { rewrite Hm. unfold t_step, t_newline, bare, special, is_ws, is_eol in *. cbn [t_st]. not_chars Hc. reflexivity. }
      eapply runs_trans; [apply (t_enclosed u); [done|done|unfold a; lia|done]|].
      eapply runs_trans; [apply (t_go _ _ (a + 1 + Z.of_nat (length u))); [unfold a; lia|lia|rewrite Hgt; reflexivity]|].
      eapply runs_to; [|apply (t_blanks s); [done|done|unfold a; lia|done]]. unfold a. lia.
    + eassert (View _ _ _ _ _ = _) as ->; [|apply closed_end]. unfold addr_view. cbn [t_cur t_body uri_upto set_uri b1 tb_error tb_display tb_uri tb_tag_value tb_params].
      rewrite Hdt, He1, He2, He3. f_equal. symmetry. apply to_text_upto; [|rewrite length_cons; lia|rewrite length_cons; unfold a in *; lia].
      apply text_at_cons. done.
Qed.

(** The parameters of a body, if any, and what follows them. *)
Lemma t_tail ws p x done v : A <= p → v_error v = false → forallb param_wf ws = true → text_at mem p (ws ≫= write_param) →
  let q := p + Z.of_nat (length (ws ≫= write_param)) in
  let v' := foldl add_view v (wp_view <$> ws) in
  q < end_ → closed p x done v →
  (multi = true → mem q = chr "," → ∃ b, addr_view mem b = v' ∧ truns p x (q + 1) (fresh (done ++ [b]))) ∧
  (q + 2 < end_ → text_at mem q [13; 10] → to_next (mem (q + 2)) = true → ∃ b, addr_view mem b = v' ∧
     tends p x (TrOk (q + 2) (done ++ [b]), [])).
Proof.
  intros HA Hv Hwf Ht q v' He Hcl. destruct ws as [|w ws].
  { unfold q in *. simpl length in *. rewrite Z.add_0_r in *. split; [intros Hm Hc|by apply Hcl].
    destruct (cl_comma p x done v Hcl Hm Hc) as (st & sv & m & b & Hb & Hs). exists b. split; [done|].
    apply (t_go _ _ p); [done|lia|]. by rewrite Hs. }
  assert (Hsemi : mem p = chr ";").
  { cbn [mbind list_bind] in Ht. unfold write_param in Ht. rewrite <- app_comm_cons in Ht. by apply text_at_cons in Ht as [? _]. }
  destruct (cl_params p x done v Hcl Hsemi) as (st & sv & m & b & Hb & Hstep).
  set (b1 := body_upto p b). assert (Hb1 : addr_view mem b1 = v) by done.
  destruct (p_params mem multi end_ A HE (w :: ws) p (PP E_PARA_VALUE E_PARA_VALUE None b1 []) v HA Hwf Ht) as (y & Hrun & Hr).
  { fold q. lia. } { rewrite <- Hb1. apply ready_end. }
  fold q v' in Hrun, Hr.
  assert (Hp : p < end_) by (unfold q in He; lia).
  split.
  - intros Hm Hc. destruct (rd_comma _ _ _ _ _ _ Hr He Hm Hc) as (b2 & Hb2 & Hend). exists b2. split; [done|].
    apply t_go; [lia|unfold q; lia|]. rewrite Hstep. unfold t_params, parse_to_param. fold b1. cbn [t_cur t_body t_al].
    pose proof (runs_ends _ _ _ _ _ _ _ Hrun Hend (dist p end_) ltac:(done)) as Hres. cbn beta in Hres. fold b1. rewrite Hres.
    assert (Herr : tb_error b2 = false) by (change (v_error (addr_view mem b2) = false); rewrite Hb2; unfold v'; by rewrite add_view_error).
    by rewrite Herr, Hm, Hc.
  - intros Hq Hl Hc. destruct (rd_line _ _ _ _ _ _ Hr Hq Hl Hc) as (b2 & Hb2 & Hend).
    destruct (t_end_view (q + 2) st E_PARA_VALUE m done b2 []) as (b3 & Hb3 & Hend3); [by right|]. exists b3. split; [by rewrite Hb3|].
    eapply t_stop; [lia| |rewrite Hend3; reflexivity]. rewrite Hstep. unfold t_params, parse_to_param. cbn [t_cur t_body t_al].
    pose proof (runs_ends _ _ _ _ _ _ _ Hrun Hend (dist p end_) ltac:(done)) as Hres. cbn beta in Hres. fold b1. rewrite Hres.
    unfold to_next in Hc. not_chars Hc. by rewrite andb_false_r.
Qed.

(** A list of addresses from its first one on. *)
Lemma t_addrs l : ∀ p ds, A <= p → l ≠ [] → forallb addr_wf l = true → (multi = true ∨ (length l <= 1)%nat) →
  text_at mem p (write_addrs l ++ [13; 10]) → p + Z.of_nat (length (write_addrs l)) + 2 < end_ →
  to_next (mem (p + Z.of_nat (length (write_addrs l)) + 2)) = true →
  ∃ bs, addr_view mem <$> bs = wa_view <$> l ∧
    tends p (fresh ds) (TrOk (p + Z.of_nat (length (write_addrs l)) + 2) (ds ++ bs), []).
Proof.
  induction l as [|a l IH]; intros p ds HA Hne Hwf Hmulti Ht He Hc; [done|].
  cbn [forallb] in Hwf. apply andb_prop in Hwf as [Ha Hwf]. unfold addr_wf in Ha.
  apply andb_prop in Ha as [[[[Hsp Hf]%andb_prop Hend]%andb_prop Hbare]%andb_prop Hps].
  assert (Hw : ∃ rest, write_addrs (a :: l) = write_addr a ++ rest ∧ rest = match l with [] => [] | _ => chr "," :: write_addrs l end).
  { eexists. split; [|reflexivity]. destruct l; [by rewrite app_nil_r|done]. }
  destruct Hw as (rest & Hw & Hrest). rewrite Hw in *. unfold write_addr in *.
  set (form := write_form (wa_form a) ++ wa_end a) in *.
  assert (Hassoc : ∀ t, (wa_sp a ++ write_form (wa_form a) ++ wa_end a ++ (wa_params a ≫= write_param)) ++ t =
    wa_sp a ++ form ++ (wa_params a ≫= write_param) ++ t) by (intros; unfold form; by rewrite <- !app_assoc).
  rewrite Hassoc, !length_app in He, Hc |- *. rewrite <- app_assoc, Hassoc in Ht.
  apply text_at_app in Ht as [Htsp Ht]. apply text_at_app in Ht as [Htf Ht]. apply text_at_app in Ht as [Htp Ht].
  pose proof (t_blanks (wa_sp a) p (fresh ds) Hsp Htsp ltac:(lia) eq_refl) as Hrun0.
  destruct (t_form (wa_form a) (wa_end a) (p + Z.of_nat (length (wa_sp a))) ds ltac:(lia) Hf Hend Hbare Htf) as (x & Hrun1 & Hcl).
  { fold form. lia. } fold form in Hrun1, Hcl.
  match type of Hcl with closed ?c _ _ ?v => pose proof (t_tail (wa_params a) c x ds v ltac:(lia) ltac:(by destruct (wa_form a)) Hps Htp) as Htl end.
  cbv zeta in Htl. destruct Htl as [Hcomma Hline]; [destruct l; subst rest; simpl length in *; lia|done|].
  set (q := _ + Z.of_nat (length (wa_params a ≫= write_param))) in *.
  destruct l as [|a' l]; subst rest.
  - simpl length in *. destruct Hline as (b & Hb & Hend'); [unfold q; lia|done| |].
    { rewrite <- Hc. do 2 f_equal. unfold q. lia. }
    exists [b]. split; [cbn; by rewrite Hb|]. eapply runs_ends; [exact Hrun0|]. eapply runs_ends; [exact Hrun1|].
    match goal with |- tends _ _ (TrOk ?n _, _) => replace n with (q + 2) by (unfold q; lia) end. done.
  - rewrite <- app_comm_cons in Ht. apply text_at_cons in Ht as [Hcm Ht]. rewrite length_cons in *.
    assert (Hm : multi = true) by (destruct Hmulti as [|Hlen]; [done|simpl length in Hlen; lia]).
    destruct (Hcomma Hm Hcm) as (b & Hb & Hrun2).
    destruct (IH (q + 1) (ds ++ [b]) ltac:(unfold q; lia) ltac:(done) Hwf (or_introl Hm) Ht) as (bs & Hbs & Hend').
    { unfold q. lia. } { rewrite <- Hc. do 2 f_equal. unfold q. lia. }
    exists (b :: bs). split; [cbn [fmap list_fmap]; by rewrite Hb, Hbs|].
    eapply runs_ends; [exact Hrun0|]. eapply runs_ends; [exact Hrun1|]. eapply runs_ends; [exact Hrun2|].
    rewrite <- app_assoc in Hend'. cbn [app] in Hend'.
    match goal with |- tends _ _ (TrOk ?n _, _) => match type of Hend' with tends _ _ (TrOk ?m _, _) => replace n with m by (unfold q; lia) end end. done.
Qed.
End addrs.

(** ** The theorem *)

(** C6. Addresses written one after the other and separated by commas, the header being ended by a
    line that the next one does not continue, are read back by [parse_multi_to], and a single
    one by [parse_to]: display names, URIs, tags and parameters in order, the pointer returned
    being the beginning of the next line. *)
Theorem addresses_read_back mem multi buffer end_ l : end_ - buffer <= INT_MAX → l ≠ [] → forallb addr_wf l = true →
  (multi = true ∨ (length l <= 1)%nat) → text_at mem buffer (write_addrs l ++ [13; 10]) →
  let next := buffer + Z.of_nat (length (write_addrs l)) + 2 in
  next < end_ → to_next (mem next) = true →
  ∃ bs, _parse_to mem multi [] buffer end_ = (TrOk next bs, []) ∧ addr_view mem <$> bs = wa_view <$> l.
Proof.
  intros HE Hne Hwf Hmulti Ht next Hn Hc.
  destruct (t_addrs mem multi end_ buffer HE l buffer [] ltac:(lia) Hne Hwf Hmulti Ht Hn Hc) as (bs & Hbs & Hend).
  exists bs. split; [|done]. unfold _parse_to. by apply Hend.
Qed.

(** Two addresses: a quoted display name with an escaped quote and a tag, then words, a
    parameter without a value and one with a quoted string. *)
Definition sample_addrs : list waddr :=
  [WAddr [] (WAngle (WString (bs "A. G. \" ++ 34 :: bs "Bell") [32]) (bs "sip:agb@bell-telephone.com")) []
     [WParam [] (bs "tag") (Some (WToken [] [] (bs "a48s"))) []];
   WAddr [32] (WAngle (WTokens (bs "The Operator") [32]) (bs "sip:operator@cs.columbia.edu;transport=tcp")) [32]
     [WParam [32] (bs "lr") None []; WParam [] (bs "x-note") (Some (WQuoted [32] [9] (bs "a, b; c"))) [32]];
   WAddr [32] (WBare (bs "sip:+12125551212@server.phone2net.com")) [] [WParam [] (bs "TAG") (Some (WToken [] [] (bs "887s"))) []]].

Lemma addresses_read_back_witness :
  let text := write_addrs sample_addrs ++ [13; 10] ++ bs "Via" in
  ∃ bodies, _parse_to (mem_of 500 text) true [] 500 (500 + Z.of_nat (length text)) =
      (TrOk (500 + Z.of_nat (length (write_addrs sample_addrs)) + 2) bodies, []) ∧
    addr_view (mem_of 500 text) <$> bodies = wa_view <$> sample_addrs.
Proof.
  intros text. apply (addresses_read_back (mem_of 500 text) true 500 (500 + Z.of_nat (length text)) sample_addrs).
  - vm_compute. discriminate.
  - discriminate.
  - by vm_compute.
  - by left.
  - pose proof (mem_of_text 500 text) as Ht. unfold text in Ht at 2. rewrite app_assoc in Ht. by apply text_at_app in Ht as [? _].
  - by vm_compute.
  - by vm_compute.
Defined.
