(* ===== verification/ToSpec.v ===== *)
(** * ToSpec: the address parser on every text (parser/parse_to.c)

    [_parse_to] returns on every text, never writes through the null [param] and stores only
    strings of the header; the examples at the end are texts it treats unexpectedly. *)

From stdpp Require Import prelude list strings.
From Stdlib Require Import ZArith Lia Ascii.
From S2P Require Import Prelude CString UriParser UriFacts HdrNames HdrNamesSpec HdrBodies ToParser ToFacts ToBounds ScanRuns MsgHeadersProps ToRoundtrip.

(** C9. [_parse_to] always returns and never writes through a null pointer, whatever the text and
    the results of the allocations.  When it accepts, it has passed at least one character and
    none after the end, and the strings of every body lie in what it read, provided the header
    ends before the end of the text or the text ends with a line. *)
Theorem parse_to_in_bounds mem multi al buffer end_ : 0 < buffer → end_ - buffer <= INT_MAX →
  match (_parse_to mem multi al buffer end_).1 with
  | TrOk tmp l =>
      buffer < tmp <= end_ ∧ l ≠ [] ∧ (tmp < end_ ∨ is_eol (mem (end_ - 1)) = true → Forall (body_ok buffer tmp) l)
  | TrError => True
  | TrFault | TrStuck => False
  end.
Proof. apply parse_to_bounds. Qed.

(** A text whose parameters end with a line, at the end of the buffer. *)
Definition in_bounds_text : bytes := bs "Bob <sip:bob@biloxi.com>;tag=a6c85cf;x" ++ [13; 10].

Lemma parse_to_in_bounds_witness :
  ∃ tmp l, (_parse_to (mem_of 64 in_bounds_text) false [true; true] 64 104).1 = TrOk tmp l ∧ Forall (body_ok 64 tmp) l.
Proof.
  pose proof (parse_to_in_bounds (mem_of 64 in_bounds_text) false [true; true] 64 104 ltac:(lia) ltac:(unfold INT_MAX; lia)) as H.
  destruct (_parse_to _ _ _ _ _) as [[tmp l| | |] al] eqn:E; [|exfalso; vm_compute in E; discriminate E..].
  exists tmp, l. split; [done|]. destruct H as (_ & _ & H). apply H. right. by vm_compute.
Defined.

(** ** Texts treated unexpectedly *)

(** The views of the bodies of a text, or [None] when the first body is marked. *)
Definition read (multi : bool) (text : bytes) : option (list view) :=
  match (_parse_to (mem_of 64 text) multi [] 64 (64 + Z.of_nat (length text))).1 with
  | TrOk _ l => if existsb tb_error (take 1 l) then None else Some (addr_view (mem_of 64 text) <$> l)
  | _ => None
  end.

(** A parameter without a value may not be called "t" or "ta". *)
Example prefix_of_tag_rejected :
  read false (bs "<sip:a@b>;t;x" ++ [13; 10] ++ bs "V") = None ∧ read false (bs "<sip:a@b>;u;x" ++ [13; 10] ++ bs "V") ≠ None.
Proof. vm_compute. by split. Qed.

(** An error in the parameters of the second body leaves the first one unmarked. *)
Example later_error_lost :
  option_map (map v_error) (read true (bs "<sip:a@b>, <sip:c@d>;x=1 y" ++ [13; 10] ++ bs "V")) = Some [false; true].
Proof. by vm_compute. Qed.

(** Blanks before a comma belong to a bare URI, those before a semicolon do not. *)
Example blanks_in_uri :
  option_map (map v_uri) (read true (bs "sip:a@b , sip:c@d ;x" ++ [13; 10] ++ bs "V")) = Some [bs "sip:a@b "; bs "sip:c@d"].
Proof. by vm_compute. Qed.

(** The end of the line belongs to a display name of several words that is followed by a folded line. *)
Example fold_in_display :
  option_map (map v_display) (read false (bs "A B" ++ [13; 10; 32] ++ bs "<sip:a@b>" ++ [13; 10] ++ bs "V")) = Some [bs "A B" ++ [13; 10; 32]].
Proof. by vm_compute. Qed.

(** A text that ends after a folded address is accepted with a URI of negative length. *)
Example cut_after_fold :
  let text := bs "Bob" ++ [13; 10; 32] ++ bs "<sip:a@b>" in
  ∃ tmp b, _parse_to (mem_of 64 text) false [] 64 (64 + Z.of_nat (length text)) = (TrOk tmp [b], []) ∧ str_len (tb_uri b) = -4.
Proof. eexists _, _. split; [vm_compute; reflexivity|done]. Qed.
