(* ===== verification/ViaFacts.v ===== *)
(** * ViaFacts: the invariant of the Via parser (parser/parse_via.c)

    What each state knows of the strings of the current parameter and of the current body:
    those that are set lie between the beginning of the header and the place reached. *)

From stdpp Require Import prelude list strings.
From Stdlib Require Import ZArith Lia Ascii.
From S2P Require Import Prelude CString UriParser UriFacts Numbers HdrNames HdrBodies ToParser ToFacts ViaParser.

(** ** Parameters *)

Definition vparam_ok (A p : Z) (t : via_param) : Prop := inb A p (vp_name t) ∧ inb A p (vp_value t).

(** The states of the name, once its first character is read. *)
Definition in_vname (q : via_state) : bool := match q with F_PARAM | F_LF | F_CR | F_CRLF => false | _ => true end.

Definition n_inv (A p : Z) (x : np) : Prop :=
  in_vname (n_st x) = true ∧ begun A p (vp_name (n_param x)) ∧ vp_value (n_param x) = str_null.

(** The states of the value. *)
Definition fshape (A p : Z) (q : via_state) (t : via_param) : Prop :=
  inb A p (vp_name t) ∧
  match q with
  | L_VALUE | F_VALUE => vp_value t = str_null
  | P_VALUE | P_STRING => begun A p (vp_value t)
  | _ => False
  end.

Definition f_inv (A p : Z) (x : np) : Prop :=
  if is_crlf (n_st x) then fshape A p (n_saved x) (n_param x) else fshape A p (n_st x) (n_param x).

(** The states [parse_via_param] leaves in. *)
Definition n_final (x : np) : bool :=
  match n_st x with
  | F_PARAM | L_PARAM | F_VIA => true
  | F_LF | F_CR => bool_decide (n_saved x = L_PARAM)
  | _ => false
  end.

Definition nout_ok (A p : Z) (o : n_out) : Prop :=
  match o with
  | NGo y => n_inv A (p + 1) y
  | NFind y => f_inv A (p + 1) y
  | NEnd y => vparam_ok A p (n_param y) ∧ n_final y = true
  | NEndVia y => vparam_ok A p (n_param y) ∧ n_st y = END_OF_HEADER
  | NErr => True
  end.

Definition fout_ok (A p : Z) (o : n_out) : Prop :=
  match o with
  | NGo y => f_inv A (p + 1) y
  | NFind _ => False
  | _ => nout_ok A p o
  end.

Section bounds.
Context (A E : Z) (HA : 0 < A) (HE : E - A <= INT_MAX).

Lemma begun_upto s q p : begun A q s → q <= p → p <= E → inb A p (upto s q).
Proof. intros [? ?] ? ?. apply (upto_inb A E HE); [lia..]. Qed.

Lemma begun_null p s : s = str_null ∨ begun A p s → inb A p s.
Proof. intros [->|Hs]; [by left|by apply begun_inb]. Qed.

Section step.
Context (p : Z) (Hp : A <= p < E).

Lemma name_first_in c : in_vname (name_first c) = true.
Proof. unfold name_first. cbv zeta. repeat (destruct (_ =? _); [done|]). done. Qed.

Lemma name_next_in c q : in_vname (name_next c q) = true.
Proof. unfold name_next. cbv zeta. repeat (destruct (_ =? _); [by destruct q|]). done. Qed.

(** A name that ends here, without a value. *)
Lemma named_ok ty t : begun A p (vp_name t) → vp_value t = str_null → vparam_ok A p (vp_name_upto p (vp_set_type ty t)).
Proof. intros Hn Hv. split; cbn; [eapply begun_upto; [done|lia..]|rewrite Hv; by left]. Qed.

Lemma named_shape ty q t : begun A p (vp_name t) → vp_value t = str_null → q = L_VALUE ∨ q = F_VALUE →
  fshape A (p + 1) q (vp_name_upto p (vp_set_type ty t)).
Proof.
  intros Hn Hv Hq. split; [cbn; apply (inb_mono A p); [lia|eapply begun_upto; [done|lia..]]|]. destruct Hq as [->| ->]; by rewrite <- Hv.
Qed.

Lemma fshape_next q t : fshape A p q t → fshape A (p + 1) q t.
Proof.
  intros [Hn Hv]. split; [eapply inb_mono; [|done]; lia|]. destruct q; try done; (apply (begun_mono A p); [lia|done]).
Qed.

Lemma fshape_ok q t : fshape A p q t → vparam_ok A p t.
Proof. intros [Hn Hv]. split; [done|]. apply begun_null. destruct q; auto; done. Qed.


Lemma n_step_ok c x : n_inv A p x → nout_ok A p (n_step c p x).
Proof.
  destruct x as [st sv t]. intros (Hst & Hn & Hv). cbn [n_st n_saved n_param] in *.
  pose proof (λ ty, named_ok ty t Hn Hv) as Hok. pose proof (λ ty q, named_shape ty q t Hn Hv) as Hsh.
  assert (Hgo : ∀ q, in_vname q = true → nout_ok A p (NGo (NP q sv t))).
  { intros q Hq. split; [done|]. split; [|done]. apply (begun_mono A p); [lia|done]. }
  pose proof (name_next_in c st) as Hnext.
  unfold n_step, n_named, n_sized, n_map, n_goto, n_save. cbn [n_st n_saved n_param].
  repeat lazymatch goal with |- nout_ok _ _ (if ?b then _ else _) => destruct b end.
  all: destruct st; try discriminate Hst; cbn [nout_ok];
    first [ exact I | apply Hgo; exact Hnext | split; [apply Hok|reflexivity] | apply Hsh; auto ].
Qed.

(** The first character of a name, which [parse_via] has seen. *)
Lemma n_first_ok c sv t : is_ws c || is_eol c || (c =? chr ";") || (c =? chr ",") = false → vp_name t = str_null → vp_value t = str_null →
  nout_ok A p (n_step c p (NP F_PARAM sv t)).
Proof.
  intros Hc Hn Hv. unfold is_ws, is_eol in Hc.
  repeat match goal with H : (_ || _) = false |- _ => apply orb_false_iff in H; destruct H end.
  unfold n_step. repeat match goal with H : (c =? _) = false |- _ => rewrite H end. cbn [orb n_st].
  destruct (c =? chr "="); [done|]. split; [apply name_first_in|]. split; [|exact Hv]. split; cbn; [lia|by rewrite Hn].
Qed.

Lemma f_step_ok c x : f_inv A p x → fout_ok A p (f_step c p x).
Proof.
  destruct x as [st sv t]. unfold f_inv. cbn [n_st n_saved n_param]. intros Hx.
  assert (Hu : ∀ q, fshape A p q t → begun A p (vp_value t) → vparam_ok A p (vp_value_upto p t)).
  { intros q [Hn _] Hv. split; [done|]. cbn. eapply begun_upto; [done|lia..]. }
  assert (H0 : ∀ q, fshape A p q t → vp_value t = str_null → vparam_ok A p (vp_set_value (Str (str_s (vp_value t)) 0) t)).
  { intros q [Hn _] Hv. split; [done|]. cbn. rewrite Hv. by left. }
  assert (Hnull : ∀ q, fshape A p q t → vparam_ok A p (vp_set_value str_null t)).
  { intros q [Hn _]. split; [done|]. cbn. by left. }
  assert (Hval : ∀ q a, fshape A p F_VALUE t → q = P_VALUE ∨ q = P_STRING → A <= a <= p + 1 →
            fshape A (p + 1) q (vp_set_value (at_ (vp_value t) a) t)).
  { intros q a [Hn Hv] Hq Ha. split; [apply (inb_mono A p); [lia|done]|]. rewrite Hv. destruct Hq as [->| ->]; split; cbn; (lia || done). }
  unfold f_step, n_header_end, n_sized, n_map, n_goto, n_save. cbn [n_st n_saved n_param].
  repeat lazymatch goal with |- fout_ok _ _ (if ?b then _ else _) => destruct b end.
  all: destruct st; cbn [is_crlf] in Hx; try (by destruct Hx); cbn [fout_ok nout_ok n_final n_st n_saved n_param].
  all: try exact I.
  all: first
    [ by apply fshape_next
    | split; [by eapply fshape_ok|reflexivity]
    | split; [eapply Hu; [eassumption|by destruct Hx]|reflexivity]
    | split; [eapply H0; [eassumption|by destruct Hx]|reflexivity]
    | idtac ].
  all: try (unfold f_inv; cbn [n_st n_saved n_param is_crlf]; first
    [ by apply fshape_next
    | destruct sv; by apply fshape_next || destruct Hx ]).
  1, 2: case_decide; [split; [by eapply Hnull|reflexivity]|exact I].
  all: apply Hval; [done|auto|lia].
Qed.
End step.

(** ** The loops of a parameter *)

Definition nres_ok (p : Z) (r : np_result) : Prop :=
  match r with
  | NpOk tmp y => p <= tmp < E ∧ vparam_ok A tmp (n_param y) ∧ (n_final y = true ∨ n_st y = END_OF_HEADER ∧ n_saved y = L_PARAM)
  | NpErr => True
  | NpStuck => False
  end.

Lemma nres_mono p p' r : p <= p' → nres_ok p' r → nres_ok p r.
Proof. intros Hp. destruct r; [|done..]. intros (? & ?). split; [lia|done]. Qed.

Lemma nout_end p o : p < E → fout_ok A p o →
  match o with NEnd y => nres_ok p (NpOk p (n_sized p y)) | NEndVia y => nres_ok p (n_end_via p y) | _ => True end.
Proof.
  intros Hp Ho. destruct o as [|y|y|y|]; try done; destruct Ho as [Hv Hf].
  - split; [lia|]. split; [done|]. left. by destruct y.
  - unfold n_end_via. case_decide; [|done]. split; [lia|]. split; [done|]. right. by destruct y.
Qed.

Lemma f_loop_ok mem n : ∀ p x, A <= p → (dist p E <= n)%nat → f_inv A p x → nres_ok p (f_loop mem n p E x).
Proof.
  induction n as [|n IH]; intros p x Hp Hn Hx; cbn [f_loop]; destruct (Z.ltb_spec p E) as [Hlt|Hge]; try done; [unfold dist in Hn; lia|].
  pose proof (f_step_ok p ltac:(lia) (mem p) x Hx) as Ho. pose proof (nout_end p _ Hlt Ho) as He.
  destruct (f_step _ _ _) as [y|y|y|y|]; try done. apply (nres_mono p (p + 1)); [lia|]. apply IH; [lia|unfold dist in *; lia|done].
Qed.

Lemma n_loop_ok mem n : ∀ p x, A <= p → (dist p E <= n)%nat → (p < E → nout_ok A p (n_step (mem p) p x)) → nres_ok p (n_loop mem n p E x).
Proof.
  induction n as [|n IH]; intros p x Hp Hn Hx; cbn [n_loop]; destruct (Z.ltb_spec p E) as [Hlt|Hge]; try done; [unfold dist in Hn; lia|].
  specialize (Hx Hlt). destruct (n_step _ _ _) as [y|y|y|y|] eqn:Hs; try done.
  - apply (nres_mono p (p + 1)); [lia|]. apply IH; [lia|unfold dist in *; lia|]. intros Hlt'. apply n_step_ok; [lia|done].
  - apply (nres_mono p (p + 1)); [lia|]. apply f_loop_ok; [lia|done|done].
  - by apply (nout_end p (NEnd y)).
  - by apply (nout_end p (NEndVia y)).
Qed.
End bounds.
