(* ===== verification/ViaBounds.v ===== *)
(** * ViaBounds: the strings of a Via header lie in its text (parser/parse_via.c)

    The invariants of the two loops of [parse_via] over the one of its parameters, and lemmas
    on the results of [parse_via] as a whole. *)

From stdpp Require Import prelude list strings.
From Stdlib Require Import ZArith Lia Ascii.
From S2P Require Import Prelude CString UriParser UriFacts Numbers HdrNames HdrBodies ToParser ToFacts ToBounds ViaParser ViaFacts.

(** The parameters the body has a shortcut to. *)
Definition shortcut (q : via_state) : bool :=
  match q with PARAM_BRANCH | PARAM_RECEIVED | PARAM_RPORT | PARAM_I | PARAM_ALIAS | PARAM_MADDR => true | _ => false end.

(** The strings of a body and of its parameters; a shortcut points to the last parameter of its
    type. *)
Record vbody_ok (A p : Z) (b : via_body) : Prop := {
  vo_name : inb A p (vb_name b);
  vo_version : inb A p (vb_version b);
  vo_transport : inb A p (vb_transport b);
  vo_host : inb A p (vb_host b);
  vo_port : inb A p (vb_port_str b);
  vo_params : Forall (vparam_ok A p) (vb_param_lst b);
  vo_hook : ∀ q, vb_hook b q = if shortcut q then last (filter (λ t, vp_type t = q) (vb_param_lst b)) else None;
}.

(** What the states of the second loop know of the host and the port. *)
Definition vshape (A p : Z) (q : via_state) (b : via_body) : Prop :=
  match q with
  | F_HOST => vb_host b = str_null ∧ vb_port_str b = str_null
  | P_HOST | F_IP6HOST | P_IP6HOST => begun A p (vb_host b) ∧ vb_port_str b = str_null
  | L_PORT | F_PORT => vb_port_str b = str_null
  | P_PORT => begun A p (vb_port_str b)
  | L_PARAM | F_PARAM | P_PARAM | L_VIA | F_VIA | F_COMMENT | P_COMMENT => True
  | _ => False
  end.

Definition v_inv (A p : Z) (x : vs) : Prop :=
  vbody_ok A p (v_vb x) ∧ vshape A p (if is_crlf (v_st x) then v_saved x else v_st x) (v_vb x).

(** What the states of the first loop know of the protocol, the version and the transport. *)
Definition wshape (A p : Z) (q : via_state) (b : via_body) : Prop :=
  match q with
  | F_SIP => vb_name b = str_null ∧ vb_version b = str_null ∧ vb_transport b = str_null
  | SIP1 | SIP2 | FIN_SIP => begun A p (vb_name b) ∧ vb_version b = str_null ∧ vb_transport b = str_null
  | L_VER | F_VER => vb_version b = str_null ∧ vb_transport b = str_null
  | VER1 | VER2 | FIN_VER => begun A p (vb_version b) ∧ vb_transport b = str_null
  | L_PROTO | F_PROTO => vb_transport b = str_null
  | OTHER_PROTO => begun A p (vb_transport b)
  | q => in_proto q = true ∧ begun A p (vb_transport b)
  end.

Definition w_fold (q : via_state) : bool := match q with F_SIP | L_VER | F_VER | L_PROTO | F_PROTO => true | _ => false end.

Definition w_inv (A p : Z) (x : vs) : Prop :=
  vbody_ok A p (v_vb x) ∧ vb_host (v_vb x) = str_null ∧ vb_port_str (v_vb x) = str_null ∧
  if is_crlf (v_st x) then w_fold (v_saved x) = true ∧ wshape A p (v_saved x) (v_vb x) else wshape A p (v_st x) (v_vb x).

Definition vout_ok (A E p : Z) (o : v_out) : Prop :=
  match o with
  | VGo tmp y => p <= tmp < E ∧ v_inv A (tmp + 1) y
  | VEndHdr tmp y => p <= tmp < E ∧ vbody_ok A tmp (v_vb y)
  | VNext y => vbody_ok A p (v_vb y)
  | VErr _ => True
  | VMain _ | VStuck => False
  end.

Definition wout_ok (A p : Z) (o : v_out) : Prop :=
  match o with
  | VGo tmp y => tmp = p ∧ w_inv A (p + 1) y
  | VMain y => v_inv A (p + 1) y
  | VEndHdr _ y => final_state (v_saved y) = false
  | VErr _ => True
  | VNext _ | VStuck => False
  end.

Section bounds.
Context (A E : Z) (HA : 0 < A) (HE : E - A <= INT_MAX).

Lemma vparam_mono p p' t : p <= p' → vparam_ok A p t → vparam_ok A p' t.
Proof. intros Hp []. split; by eapply inb_mono. Qed.

Lemma vbody_mono p p' b : p <= p' → vbody_ok A p b → vbody_ok A p' b.
Proof.
  intros Hp []. constructor; try (by eapply inb_mono); [|done]. eapply Forall_impl; [done|]. intros t. by apply vparam_mono.
Qed.

Lemma vshape_mono p p' q b : p <= p' → vshape A p q b → vshape A p' q b.
Proof. intros Hp. destruct q; try done; cbn; intros Hs; try destruct Hs as [Hs ?]; try split; try done; by eapply begun_mono. Qed.

Lemma wshape_mono p p' q b : p <= p' → wshape A p q b → wshape A p' q b.
Proof.
  intros Hp. destruct q; cbn; try done; intros Hs; try (by eapply begun_mono); destruct Hs as (H1 & H2); repeat split; try done; try apply H2; try (by apply H1); try (destruct H1; lia); destruct H2; lia.
Qed.

Lemma via_zero_ok p : vbody_ok A p via_zero.
Proof. constructor; cbn; try (by left); try apply Forall_nil_2. intros q. by destruct (shortcut q). Qed.

Lemma add_via_param_ok p t b : vbody_ok A p b → vparam_ok A p t → vbody_ok A p (add_via_param t b).
Proof.
  intros [] Ht. constructor; cbn; try done.
  - apply Forall_app_2; [done|]. by apply Forall_singleton.
  - intros q. rewrite filter_app, filter_cons, filter_nil.
    assert (Hnew : (if decide (q = vp_type t) then Some t else vb_hook b q) =
      if shortcut q || bool_decide (q = vp_type t) then last (filter (λ t, vp_type t = q) (vb_param_lst b) ++ (if decide (vp_type t = q) then [t] else [])) else None).
    { case_decide as Hq; [subst q; by rewrite bool_decide_eq_true_2, orb_true_r, decide_True, last_snoc|].
      rewrite bool_decide_eq_false_2, orb_false_r, decide_False, app_nil_r by congruence. apply vo_hook0. }
    destruct (shortcut (vp_type t)) eqn:Hsc.
    + assert (Hor : shortcut q || bool_decide (q = vp_type t) = shortcut q).
      { case_bool_decide as Hq; [subst q; by rewrite Hsc|apply orb_false_r]. }
      rewrite Hor in Hnew. rewrite <- Hnew. by destruct (vp_type t).
    + transitivity (vb_hook b q); [by destruct (vp_type t)|]. rewrite vo_hook0. destruct (shortcut q) eqn:Hs; [|done].
      assert (Hne : vp_type t ≠ q) by congruence. by rewrite decide_False, app_nil_r.
Qed.
End bounds.

Section steps.
Context (A E : Z) (HA : 0 < A) (HE : E - A <= INT_MAX) (p : Z) (Hp : A <= p < E).

Lemma upto_here s q : begun A p s → p <= q → q <= E → inb A q (upto s p).
Proof. intros [? ?] ? ?. apply (upto_inb A E HE); lia. Qed.

Lemma begun_here s : str_len s = 0 → begun A (p + 1) (at_ s p) ∧ inb A (p + 1) (at_ s p).
Proof. intros Hs. assert (begun A (p + 1) (at_ s p)) by (split; [cbn; lia|done]). split; [done|by apply begun_inb]. Qed.

(** Close the goals on the strings of a step. *)
Ltac v_str :=
  repeat match goal with H : _ = str_null |- _ => rewrite H in * end;
  first
  [ done
  | left; done
  | by apply upto_here; [|lia|lia]
  | by apply begun_here
  | eapply begun_mono; [|eassumption]; lia
  | eapply inb_mono; [|eassumption]; lia
  | match goal with |- Forall _ _ => eapply Forall_impl; [eassumption|]; intros ?; apply vparam_mono; lia end ].
Ltac v_body :=
  lazymatch goal with
  | H : vbody_ok _ _ ?b |- vbody_ok _ _ ?b => first [exact H | eapply vbody_mono; [|exact H]; lia]
  | H : vbody_ok _ _ _ |- vbody_ok _ _ _ => destruct H; constructor; cbn; v_str
  end.

Ltac v_shape := split_and?; v_str.

(** The letters of a word keep what is known. *)
Lemma word_next_shape c q q' b : word_next c q = Some q' → wshape A p q b → wshape A (p + 1) q' b ∧ is_crlf q' = false.
Proof.
  intros Hq Hs. apply (wshape_mono A p (p + 1)) in Hs; [|lia]. revert Hq. unfold word_next. cbv zeta.
  repeat (destruct (_ =? _); [destruct q; intros [= <-]; done|]). done.
Qed.

Lemma word_first_shape c q b : word_first c = Some q → begun A (p + 1) (vb_transport b) → wshape A (p + 1) q b ∧ is_crlf q = false.
Proof. unfold word_first. cbv zeta. repeat (destruct (_ =? _); [intros [= <-]; done|]). cbn [orb]. by intros [= <-]. Qed.

Lemma w_step_ok c x : w_inv A p x → wout_ok A p (w_step c p x).
Proof.
  destruct x as [st sv nest ps b al]. intros (Hb & Hh & Hpt & Hs). cbn [v_vb v_st v_saved] in *.
  destruct (is_crlf st) eqn:Hcr.
  { destruct Hs as [Hf Hs]. assert (Hgo : w_inv A (p + 1) (VS sv sv nest ps b al)).
    { split; [v_body|]. split; [done|]. split; [done|]. cbn [v_st v_vb].
      destruct sv; try discriminate Hf; cbn [is_crlf]; (eapply wshape_mono; [|done]; lia). }
    assert (Hgo2 : w_inv A (p + 1) (VS F_CRLF sv nest ps b al)).
    { split; [v_body|]. split; [done|]. split; [done|]. split; [done|]. eapply wshape_mono; [|done]. lia. }
    assert (Hfin : final_state sv = false) by by destruct sv.
    destruct st; try discriminate Hcr; unfold w_step, w_newline; cbn [v_st v_saved v_goto];
    repeat lazymatch goal with |- wout_ok _ _ (if ?b then _ else _) => destruct b end; cbn [fin_proto word_next in_proto wout_ok]; try done.
    all: unfold word_next; cbv zeta; repeat (destruct (_ =? _)); done. }
  assert (Hgo : ∀ q b', vbody_ok A (p + 1) b' → vb_host b' = str_null → vb_port_str b' = str_null →
    is_crlf q = false → wshape A (p + 1) q b' → wout_ok A p (VGo p (VS q sv nest ps b' al))).
  { intros q b' H1 H2 H3 H4 H5. split; [done|]. split; [done|]. split; [done|]. split; [done|]. cbn [v_st v_vb]. by rewrite H4. }
  assert (Hfold : ∀ f q b', vbody_ok A (p + 1) b' → vb_host b' = str_null → vb_port_str b' = str_null →
    is_crlf f = true → w_fold q = true → wshape A (p + 1) q b' → wout_ok A p (VGo p (VS f q nest ps b' al))).
  { intros f q b' H1 H2 H3 H4 H5 H6. split; [done|]. split; [done|]. split; [done|]. split; [done|]. cbn [v_st v_vb]. by rewrite H4. }
  assert (Hmain : ∀ f sv' n, begun A p (vb_transport b) → f = F_HOST ∨ is_crlf f = true ∧ sv' = F_HOST →
    wout_ok A p (VMain (VS f sv' nest ps (set_vproto (set_transport b (upto (vb_transport b) p)) n) al))).
  { intros f sv' n Ht Hf. split; [cbn [v_vb]; v_body|]. cbn [v_st v_saved v_vb]. by destruct Hf as [->|[-> ->]]. }
  assert (Hb' : vbody_ok A (p + 1) b) by v_body.
  assert (Hs0 := Hs). assert (Hn := λ q', word_next_shape c st q' b). apply (wshape_mono A p (p + 1)) in Hs as Hs'; [|lia].
  destruct st; try discriminate Hcr; cbn [wshape] in Hs; try (destruct Hs as [Hs _]; discriminate Hs);
    repeat match type of Hs with _ ∧ _ => let H := fresh "Hs" in destruct Hs as [H Hs] end;
    unfold w_step, w_newline; cbn [v_st v_saved v_goto v_save v_map v_vb v_al v_nest v_pstart].
  all: repeat lazymatch goal with |- wout_ok _ _ (if ?b then _ else _) => destruct b
    | |- wout_ok _ _ (match word_next ?a ?b with _ => _ end) => destruct (word_next a b) as [q'|]; [destruct (Hn q' eq_refl Hs0); by apply Hgo|]; cbn [in_proto]
    | |- wout_ok _ _ (match word_first ?a with _ => _ end) => destruct (word_first a) as [q'|] eqn:Hw end; cbn [fin_proto in_proto]; try exact I.
  all: lazymatch goal with
    | |- wout_ok _ _ (VMain _) => apply Hmain; [done|auto]
    | |- wout_ok _ _ (VGo _ _) => first [ apply Hgo; [first [exact Hb'|v_body]|done|done|done|cbn; v_shape] | apply Hfold; [first [exact Hb'|v_body]|done|done|done|done|cbn; v_shape] | idtac ]
    | |- _ => idtac
    end.
  assert (Hat : begun A (p + 1) (vb_transport (set_transport b (at_ (vb_transport b) p)))) by (apply begun_here; by rewrite Hs).
  destruct (word_first_shape _ _ _ Hw Hat) as [Hsh Hc]. apply Hgo; [v_body|done|done|done|done].
Qed.

Lemma v_param_ok mem c x : mem p = c → is_ws c || is_eol c || (c =? chr ";") || (c =? chr ",") = false →
  v_st x = F_PARAM → vbody_ok A p (v_vb x) → vout_ok A E p (v_param mem p E x).
Proof.
  intros Hm Hc Hst Hb. unfold v_param. set (x1 := if _ =? 0 then _ else _).
  assert (Hx1 : vbody_ok A p (v_vb x1) ∧ v_st x1 = F_PARAM).
  { unfold x1. destruct (_ =? 0); [|done]. split; [|done]. cbn [v_vb v_map]. destruct Hb; by constructor. }
  destruct Hx1 as [Hb1 ->]. destruct (pkg_alloc _) as [[|] al']; [|done].
  pose proof (n_loop_ok A E HE mem (dist p E) p (NP F_PARAM (v_saved x1) (ViaParam PARAM_ERROR str_null str_null (v_pstart x1) 0)) ltac:(lia) ltac:(done)) as Hr.
  unfold parse_via_param, vp_set_type. cbn [vp_name vp_value vp_start vp_size].
  destruct (n_loop _ _ _ _ _) as [tmp y| |]; [|done|].
  2: { apply Hr. intros _. rewrite Hm. by eapply (n_first_ok A E). }
  destruct Hr as (Ht & Hv & Hf); [intros _; rewrite Hm; by eapply (n_first_ok A E)|].
  assert (Hadd : ∀ a, vbody_ok A tmp (add_via_param (n_param y) (params_upto a (v_vb x1)))).
  { intros a. apply add_via_param_ok; [|done]. apply (vbody_mono A p tmp); [lia|]. destruct Hb1; by constructor. }
  assert (Hgo : ∀ a x2, v_vb x2 = add_via_param (n_param y) (params_upto a (v_vb x1)) →
    match (if is_crlf (v_st x2) then v_saved x2 else v_st x2) with F_PARAM | L_PARAM | F_VIA => true | _ => false end = true → vout_ok A E p (VGo tmp x2)).
  { intros a x2 Hx2 Hq. split; [lia|]. split; rewrite Hx2; [apply (vbody_mono A tmp); [lia|done]|].
    by destruct (if is_crlf (v_st x2) then v_saved x2 else v_st x2). }
  unfold n_final in Hf.
  destruct (n_st y) eqn:Hy; try done; try (eapply Hgo; [reflexivity|done]).
  1, 2: destruct Hf as [Hf%bool_decide_eq_true|[? ?]]; [|done]; eapply Hgo; [reflexivity|]; cbn; by rewrite Hf.
  split; [lia|]. apply Hadd.
Qed.
Lemma v_step_ok mem x : v_inv A p x → vout_ok A E p (v_step mem (mem p) p E x).
Proof.
  destruct x as [st sv nest ps b al]. intros [Hb Hs]. cbn [v_vb v_st v_saved] in *. set (c := mem p). assert (Hmem : mem p = c) by done. clearbody c.
  assert (Hb' : vbody_ok A (p + 1) b) by v_body. apply (vshape_mono A p (p + 1)) in Hs as Hs'; [|lia].
  assert (Hgo : ∀ q sv' n ps' b', vbody_ok A (p + 1) b' → vshape A (p + 1) (if is_crlf q then sv' else q) b' →
    vout_ok A E p (VGo p (VS q sv' n ps' b' al))).
  { intros q sv' n ps' b' H1 H2. split; [lia|]. by split. }
  assert (Hend : ∀ q, vout_ok A E p (VEndHdr p (VS q sv nest ps b al))) by (intros q; split; [lia|done]).
  destruct (is_crlf st) eqn:Hcr.
  { destruct st; try discriminate Hcr; unfold v_step, v_newline, v_comment; cbn [v_st v_saved v_goto].
    all: repeat lazymatch goal with |- vout_ok _ _ _ (if ?b then _ else _) => destruct b end; try done; apply Hgo; try done.
    all: by destruct sv. }
  destruct st; try discriminate Hcr; cbn [vshape] in Hs; try (by destruct Hs);
    repeat match type of Hs with _ ∧ _ => let H := fresh "Hs" in destruct Hs as [H Hs] end;
    unfold v_step, v_newline, v_comment; cbn [v_st v_saved v_goto v_save v_map v_vb v_al v_nest v_pstart].
  all: repeat lazymatch goal with |- vout_ok _ _ _ (if ?b then _ else _) => destruct b eqn:? end; try exact I.
  all: lazymatch goal with
    | |- vout_ok _ _ _ (VGo _ _) => first [ apply Hgo; [first [exact Hb'|cbn [v_vb v_map]; v_body]|cbn; first [exact Hs'|v_shape]] | idtac ]
    | |- _ => idtac
    end.
  - apply (v_param_ok mem c); try done. unfold is_ws, is_eol. repeat match goal with H : _ = false |- _ => rewrite H; clear H end. done.
  - exact Hb.
  - match goal with H : begun _ _ (vb_host b) |- _ => destruct H end. apply Hgo; [|done]. destruct Hb'. constructor; cbn; try done. apply (quoted_inb A E HE p); lia.
Qed.
End steps.

(** ** The loops *)

Section loops.
Context (mem : Z → byte) (A E : Z) (HA : 0 < A) (HE : E - A <= INT_MAX).

(** How the two loops over a body that starts at [p0] end, at the place [q]. *)
Definition vend_ok (p0 : Z) (r : Z * v_out) : Prop :=
  let '(q, o) := r in
  match o with
  | VGo _ y => p0 < q <= E ∧ vbody_ok A q (v_vb y)
  | VEndHdr tmp y => p0 < tmp <= E ∧ vbody_ok A tmp (v_vb y) ∨ final_state (v_saved y) = false
  | VNext y => p0 < q < E ∧ vbody_ok A q (v_vb y)
  | VErr _ => True
  | VMain _ | VStuck => False
  end.

Lemma v_loop_ok p0 n : ∀ p x, A <= p → p0 < p <= E → (dist p E <= n)%nat → v_inv A p x → vend_ok p0 (v_loop mem n p E x).
Proof.
  induction n as [|n IH]; intros p x Hp Hp0 Hn Hx; cbn [v_loop]; destruct (Z.ltb_spec p E) as [Hlt|Hge];
    [unfold dist in Hn; lia|split; [lia|apply Hx]| |split; [lia|apply Hx]].
  pose proof (v_step_ok A E HE p ltac:(lia) mem x Hx) as Ho.
  destruct (v_step _ _ _ _ _) as [tmp y|y|tmp y|y|al|]; try done.
  - destruct Ho as [Ht Hy]. apply IH; [lia|lia|unfold dist in *; lia|done].
  - destruct Ho as [Ht Hy]. left. split; [lia|done].
  - split; [lia|done].
Qed.

Lemma w_loop_ok p0 n : ∀ p x, A <= p → p0 <= p → (dist p E <= n)%nat → w_inv A p x → vend_ok p0 (w_loop mem n p E x).
Proof.
  induction n as [|n IH]; intros p x Hp Hp0 Hn Hx; cbn [w_loop]; destruct (Z.ltb_spec p E) as [Hlt|Hge]; try done; [unfold dist in Hn; lia|].
  pose proof (w_step_ok A E HE p ltac:(lia) (mem p) x Hx) as Ho.
  destruct (w_step _ _ _) as [tmp y|y|tmp y|y|al|]; try done.
  - destruct Ho as [-> Hy]. apply IH; [lia|lia|unfold dist in *; lia|done].
  - apply v_loop_ok; [lia|lia|done|]. by destruct y.
  - by right.
Qed.

Definition vres_ok (p0 : Z) (r : via_result) : Prop :=
  match r with
  | ViaOk tmp l => p0 < tmp <= E ∧ l ≠ [] ∧ Forall (vbody_ok A tmp) l
  | ViaError => True
  | ViaStuck => False
  end.

Lemma v_close_ok buffer tmp p b b' : v_close mem buffer tmp b = Some b' → vbody_ok A p b → vbody_ok A p b'.
Proof.
  unfold v_close. intros Hc Hb. assert (Hs : vbody_ok A p (set_bsize b (u32 (tmp - buffer)))) by (destruct Hb; by constructor).
  destruct (_ =? 0); [by injection Hc as <-|]. destruct (str2s _) as [port [|]]; [done|]. injection Hc as <-. destruct Hs; by constructor.
Qed.

Lemma v_finish_ok l p0 buffer tmp st x : p0 < tmp <= E ∧ vbody_ok A tmp (v_vb x) ∧ Forall (vbody_ok A tmp) l ∨ final_state st = false →
  vres_ok p0 (v_finish mem l buffer tmp st x).
Proof.
  intros Hx. unfold v_finish. destruct (final_state st); [|done]. destruct Hx as [(Ht & Hb & Hl)|]; [|done].
  destruct (v_close _ _ _ _) as [b|] eqn:Hc; [|done]. split; [done|]. split; [by destruct l|].
  apply Forall_app_2; [done|]. apply Forall_singleton. by eapply v_close_ok.
Qed.

Lemma vbodies_mono p p' l : p <= p' → Forall (vbody_ok A p) l → Forall (vbody_ok A p') l.
Proof. intros Hp Hl. eapply Forall_impl; [done|]. intros b. by apply vbody_mono. Qed.

Lemma via_loop_ok p0 n : ∀ l al buffer, A <= buffer → p0 <= buffer → (dist buffer E < n)%nat → Forall (vbody_ok A buffer) l →
  vres_ok p0 (via_loop mem n l al buffer E).1.
Proof.
  induction n as [|n IH]; intros l al buffer Hbuf Hp0 Hn Hl; [lia|]. cbn [via_loop].
  pose proof (w_loop_ok buffer (dist buffer E) buffer (VS F_SIP F_HOST 0 0 via_zero al) Hbuf ltac:(lia) ltac:(done)) as Hw.
  destruct (w_loop _ _ _ _ _) as [q o]. specialize (Hw ltac:(split; [apply via_zero_ok|done])).
  destruct o as [tmp y|y|tmp y|y|al'|]; cbn [vend_ok] in Hw; try done.
  - destruct Hw as [Hq Hy]. apply v_finish_ok. left. split; [lia|]. split; [done|]. eapply vbodies_mono; [|done]. lia.
  - apply v_finish_ok. destruct Hw as [[Ht Hy]|Hf]; [left|by right]. split; [lia|]. split; [done|]. eapply vbodies_mono; [|done]. lia.
  - destruct Hw as [Hq Hy]. destruct (v_close _ _ _ _) as [b|] eqn:Hc; [|done]. destruct (pkg_alloc _) as [[|] al2]; [|done].
    apply IH; [lia|lia|unfold dist in *; lia|]. apply Forall_app_2; [eapply vbodies_mono; [|done]; lia|].
    apply Forall_singleton. by eapply v_close_ok.
Qed.
End loops.

(** ** Allocations *)

Definition vout_al (x : vs) (o : v_out) : list bool :=
  match o with VGo _ y | VMain y | VEndHdr _ y | VNext y => v_al y | VErr al => al | VStuck => v_al x end.

Ltac al_cases := repeat lazymatch goal with |- vout_al _ (match ?b with _ => _ end) = _ => destruct b end.

Lemma w_step_al c p x : vout_al x (w_step c p x) = v_al x.
Proof.
  unfold w_step, w_newline. destruct x as [st sv nest ps b al]. cbn [v_st].
  al_cases; reflexivity.
Qed.

Lemma v_step_al mem c p e x : v_al x = [] → vout_al x (v_step mem c p e x) = [].
Proof.
  intros Hal. assert (Hpar : vout_al x (v_param mem p e x) = []).
  { unfold v_param. set (x1 := if _ =? 0 then _ else _). assert (v_al x1 = []) as -> by (unfold x1; by destruct (_ =? 0)). cbn [pkg_alloc].
    destruct (parse_via_param _ _ _ _ _ _) as [tmp y| |]; [|done..]. by destruct (n_st y). }
  destruct x as [st sv nest ps b al]. cbn in Hal. subst al. unfold v_step, v_newline, v_comment. cbn [v_st] in *.
  al_cases; lazymatch goal with |- vout_al _ (v_param _ _ _ _) = _ => exact Hpar | |- _ => reflexivity end.
Qed.

Lemma v_loop_al mem e n : ∀ p x, v_al x = [] → vout_al x (v_loop mem n p e x).2 = [].
Proof.
  induction n as [|n IH]; intros p x Hx; cbn [v_loop]; destruct (p <? e); try done.
  pose proof (v_step_al mem (mem p) p e x Hx) as Ho. destruct (v_step _ _ _ _ _) as [tmp y|y|tmp y|y|al|]; try done.
  cbn in Ho. specialize (IH (tmp + 1) y Ho). destruct (v_loop _ _ _ _ _) as [q [| | | | |]]; done.
Qed.

Lemma w_loop_al mem e n : ∀ p x, v_al x = [] → vout_al x (w_loop mem n p e x).2 = [].
Proof.
  induction n as [|n IH]; intros p x Hx; cbn [w_loop]; destruct (p <? e); try done.
  pose proof (w_step_al (mem p) p x) as Ho. rewrite Hx in Ho. destruct (w_step _ _ _) as [tmp y|y|tmp y|y|al|]; try done.
  - cbn in Ho. specialize (IH (p + 1) y Ho). destruct (w_loop _ _ _ _ _) as [q [| | | | |]]; done.
  - cbn in Ho. pose proof (v_loop_al mem e (dist (p + 1) e) (p + 1) (v_nesting 0 y) Ho) as Hv.
    destruct (v_loop _ _ _ _ _) as [q [| | | | |]]; done.
Qed.

Lemma via_loop_al mem e n : ∀ l buffer, (via_loop mem n l [] buffer e).2 = [].
Proof.
  induction n as [|n IH]; intros l buffer; [done|]. cbn [via_loop].
  pose proof (w_loop_al mem e (dist buffer e) buffer (VS F_SIP F_HOST 0 0 via_zero []) eq_refl) as Hw.
  destruct (w_loop _ _ _ _ _) as [q [tmp y|y|tmp y|y|al|]]; cbn in Hw; try done.
  destruct (v_close _ _ _ _); [|done]. rewrite Hw. apply IH.
Qed.
