(* ===== verification/ViaSpec.v ===== *)
(** * ViaSpec: the Via parser on every text (parser/parse_via.c)

    [parse_via] returns on every text, and the strings it stores belong to the header; the
    examples at the end are texts it treats unexpectedly. *)

From stdpp Require Import prelude list strings.
From Stdlib Require Import ZArith Lia Ascii.
From S2P Require Import Prelude CString UriParser UriFacts Numbers HdrNames HdrBodies ToParser ToFacts ViaParser ViaFacts ViaBounds MsgHeadersProps.

(** C8. [parse_via] always returns, whatever the text and the results of the allocations.  When it
    accepts, it has passed at least one character and none after the end; in every body the
    protocol, the version, the transport, the host, the port and the names and values of the
    parameters lie in what it read, and each shortcut to a known parameter points to the
    last parameter of its type. *)
Theorem parse_via_in_bounds mem al buffer end_ : 0 < buffer → end_ - buffer <= INT_MAX →
  match (parse_via mem al buffer end_).1 with
  | ViaOk tmp l => buffer < tmp <= end_ ∧ l ≠ [] ∧ Forall (vbody_ok buffer tmp) l
  | ViaError => True
  | ViaStuck => False
  end.
Proof.
  intros HA HE. unfold parse_via. apply (via_loop_ok mem buffer end_ HE buffer); [lia|lia|lia|apply Forall_nil_2].
Qed.

Definition via_text : bytes :=
  bs "SIP/2.0/UDP pc33.atlanta.com:5066;branch=z9hG4bK776asdhds;rport , SIP / 2.0 / TCP [2001:db8::9:1];received=192.0.2.1" ++ [13; 10] ++ bs "To".

Lemma parse_via_in_bounds_witness :
  ∃ tmp l, (parse_via (mem_of 64 via_text) [true; true; true] 64 (64 + Z.of_nat (length via_text))).1 = ViaOk tmp l ∧ Forall (vbody_ok 64 tmp) l.
Proof.
  pose proof (parse_via_in_bounds (mem_of 64 via_text) [true; true; true] 64 (64 + Z.of_nat (length via_text)) ltac:(lia) ltac:(by vm_compute)) as H.
  destruct (parse_via _ _ _ _) as [[tmp l| |] al] eqn:E; [|exfalso; vm_compute in E; discriminate E..].
  exists tmp, l. split; [done|]. by destruct H as (_ & _ & H).
Defined.

(** ** Texts treated unexpectedly *)

(** The bodies of a text that is a header field and the beginning of the next one. *)
Definition read_via (text : bytes) : option (Z * list via_body) :=
  let t := text ++ [13; 10] ++ bs "To" in
  match (parse_via (mem_of 64 t) [] 64 (64 + Z.of_nat (length t))).1 with
  | ViaOk tmp l => Some (tmp - 64, l)
  | _ => None
  end.

(** WSS before a line feed is taken for WS, SCTP before a folded line is refused, and a transport
    that starts with one of some letters is refused where other unknown ones are accepted. *)
Example transports_at_line_end :
  option_map (λ r, vb_proto <$> r.2) (read_via (bs "SIP/2.0/WSS" ++ [10; 32] ++ bs "h")) = Some [PROTO_WS] ∧
  read_via (bs "SIP/2.0/SCTP" ++ [13; 10; 32] ++ bs "h") = None ∧ read_via (bs "SIP/2.0/SCTP h") ≠ None ∧
  read_via (bs "SIP/2.0/DTLS h") = None ∧ read_via (bs "SIP/2.0/QUIC h") ≠ None.
Proof. vm_compute. by repeat split. Qed.

(** A comma in a quoted value ends the header in the middle of the line. *)
Example comma_in_quotes : option_map fst (read_via (bs "SIP/2.0/UDP h;x=" ++ 34 :: bs "a,b" ++ [34])) = Some 18.
Proof. by vm_compute. Qed.

(** A generic parameter without a value must not be followed by a blank and another one. *)
Example blank_after_name : read_via (bs "SIP/2.0/UDP h;x ;y") = None ∧ read_via (bs "SIP/2.0/UDP h;x;y") ≠ None.
Proof. vm_compute. by split. Qed.

(** An empty comment has no address and a length made of one, and a comment after the host
    gives the parameters a length without an address. *)
Example empty_comment :
  option_map (λ r, (λ b, (vb_comment b, vb_params b)) <$> r.2) (read_via (bs "SIP/2.0/UDP h ()")) = Some [(Str 0 79, Str 0 78)].
Proof. by vm_compute. Qed.

(** A message that ends in the host is accepted with an empty host. *)
Example cut_in_host :
  let t := bs "SIP/2.0/UDP host" in
  match (parse_via (mem_of 64 t) [] 64 (64 + Z.of_nat (length t))).1 with ViaOk _ [b] => vb_host b = Str 76 0 | _ => False end.
Proof. by vm_compute. Qed.
