(* ===== verification/ViaWords.v ===== *)
(** * ViaWords: the words the Via parser recognises letter by letter (parser/parse_via.c)

    The names of the known parameters and of the transports are recognised by states that
    stand for the prefixes of these words.  [word_state_lookup] says that such a machine
    decides, without regard to case, which word of a table the text is; it is instantiated
    for the parameters and for the transports. *)

From stdpp Require Import prelude list strings.
From Stdlib Require Import ZArith Lia Ascii.
From S2P Require Import Prelude CString UriParser Numbers HdrNames HdrBodies ToParser ViaParser.

Definition lower (s : bytes) : bytes := tolower <$> s.

Lemma tolower_idemp c : tolower (tolower c) = tolower c.
Proof. unfold tolower. repeat case_match; lia. Qed.

(** ** Tables of prefixes *)

Section words.
Context {S : Type} `{EqDecision S} (start : byte → S) (step : byte → S → S) (D : S).
Context (table : list (S * bytes)) (letters : list byte).

Definition table_find (s : bytes) : S :=
  match list_find (λ e, e.2 = s) table with Some (_, e) => e.1 | None => D end.

Definition word_state (s : bytes) : S :=
  match s with [] => D | c :: t => foldl (λ q c, step c q) (start c) t end.

(** Each prefix is reached from the one without its last letter, and nothing else is. *)
Definition entry_from (e : S * bytes) : bool :=
  match reverse e.2 with
  | [] => false
  | [l] => bool_decide (start l = e.1)
  | l :: r => existsb (λ e', bool_decide (e'.2 = reverse r) && bool_decide (step l e'.1 = e.1)) table
  end.
Definition entry_to (e : S * bytes) : bool :=
  forallb (λ l, bool_decide (step l e.1 = D) || bool_decide ((step l e.1, e.2 ++ [l]) ∈ table)) letters.
Definition start_to : bool :=
  forallb (λ l, bool_decide (start l = D) || bool_decide ((start l, [l]) ∈ table)) letters.
Definition table_wf : bool :=
  bool_decide (NoDup table.*2) && forallb entry_from table && forallb entry_to table && start_to &&
  forallb (λ e, bool_decide (e.1 ≠ D)) table.

Context (Hwf : table_wf = true).
Context (Hstart : ∀ c, start (tolower c) = start c) (Hstep : ∀ c q, step (tolower c) q = step c q).
Context (Hletters : ∀ c q, step c q ≠ D → tolower c ∈ letters) (Hletters1 : ∀ c, start c ≠ D → tolower c ∈ letters).
Context (HD : ∀ c, step c D = D).

Lemma table_parts : NoDup table.*2 ∧ (∀ e, e ∈ table → entry_from e = true) ∧ (∀ e, e ∈ table → entry_to e = true) ∧ start_to = true ∧
  (∀ e, e ∈ table → e.1 ≠ D).
Proof.
  unfold table_wf in Hwf. apply andb_prop in Hwf as [[[[H1 H2]%andb_prop H3]%andb_prop H4]%andb_prop H5].
  rewrite forallb_forall in H2, H3, H5. apply bool_decide_eq_true in H1.
  repeat split; try done; intros e He%list_elem_of_In; [by apply H2|by apply H3|]. by apply (bool_decide_eq_true _), H5.
Qed.

Lemma find_in q s : (q, s) ∈ table → table_find s = q.
Proof.
  intros Hin. unfold table_find. destruct table_parts as [Hnd _].
  destruct (list_find _ table) as [[i e]|] eqn:Hf.
  - apply list_find_Some in Hf as (Hi & He & _). apply list_elem_of_lookup in Hin as [j Hj].
    assert (i = j) as ->; [|rewrite Hi in Hj; by injection Hj as ->]. eapply (NoDup_lookup _ i j s Hnd); by rewrite list_lookup_fmap, ?Hi, ?Hj, <- ?He.
  - apply list_find_None in Hf. rewrite Forall_forall in Hf. by apply Hf in Hin.
Qed.

Lemma find_some s q : table_find s = q → q ≠ D → (q, s) ∈ table.
Proof.
  unfold table_find. destruct (list_find _ table) as [[i [q' s']]|] eqn:Hf; [|done]. intros <- _.
  apply list_find_Some in Hf as (Hi & He & _). cbn in He. subst s'. by eapply list_elem_of_lookup_2.
Qed.

Lemma find_start c : table_find [tolower c] = start c.
Proof.
  destruct table_parts as (_ & Hfrom & _ & Hto & HneD). destruct (decide (start c = D)) as [E|E].
  - rewrite E. destruct (decide (table_find [tolower c] = D)) as [|Hne]; [done|]. pose proof (find_some _ _ eq_refl Hne) as Hin.
    specialize (Hfrom _ Hin). cbn in Hfrom. apply bool_decide_eq_true in Hfrom. by rewrite Hstart, E in Hfrom.
  - apply find_in. unfold start_to in Hto. rewrite forallb_forall in Hto. specialize (Hto _ (proj1 (list_elem_of_In _ _) (Hletters1 c E))).
    apply orb_prop in Hto as [Hto|Hto]; apply bool_decide_eq_true in Hto; rewrite Hstart in Hto; done.
Qed.

Lemma find_step s c : s ≠ [] → table_find (lower (s ++ [c])) = step c (table_find (lower s)).
Proof.
  intros Hs. unfold lower. rewrite fmap_app. cbn [fmap list_fmap]. fold (lower s).
  destruct table_parts as (_ & Hfrom & Hto & _ & HneD). set (p := lower s). set (l := tolower c).
  destruct (decide (table_find (p ++ [l]) = D)) as [E|E].
  - rewrite E. destruct (decide (table_find p = D)) as [E1|E1]; [by rewrite E1, HD|].
    pose proof (find_some _ _ eq_refl E1) as Hin. specialize (Hto _ Hin). unfold entry_to in Hto. rewrite forallb_forall in Hto.
    destruct (decide (step c (table_find p) = D)) as [|Hne]; [done|]. specialize (Hto _ (proj1 (list_elem_of_In _ _) (Hletters _ _ Hne))).
    cbn [fst snd] in Hto. apply orb_prop in Hto as [Hto|Hto]; apply bool_decide_eq_true in Hto; rewrite Hstep in Hto; [done|].
    apply find_in in Hto. fold l in Hto. congruence.
  - pose proof (find_some _ _ eq_refl E) as Hin. specialize (Hfrom _ Hin). unfold entry_from in Hfrom. cbn [fst snd] in Hfrom.
    rewrite reverse_snoc in Hfrom. destruct (reverse p) as [|d r] eqn:Hr.
    { exfalso. apply Hs. apply (f_equal length) in Hr. rewrite length_reverse in Hr. unfold p, lower in Hr. rewrite length_fmap in Hr.
      by destruct s. }
    apply existsb_exists in Hfrom as ([q' p'] & Hin' & [H1 H2]%andb_prop). apply bool_decide_eq_true in H1, H2. cbn [fst snd] in *.
    rewrite <- Hr, reverse_involutive in H1. subst p'. apply list_elem_of_In, find_in in Hin'. rewrite Hin', <- H2. unfold l. apply Hstep.
Qed.

(** The state after a word is the one the table has for it. *)
Lemma word_state_lookup s : s ≠ [] → word_state s = table_find (lower s).
Proof.
  destruct s as [|a s]; [done|]. intros _. induction s as [|c s IH] using rev_ind; [symmetry; apply find_start|].
  rewrite app_comm_cons, find_step by done. rewrite <- IH. cbn [word_state app]. by rewrite foldl_app.
Qed.
End words.

(** ** Parameters *)

Definition name_table : list (via_state * bytes) :=
  [(HIDDEN1, bs "h"); (HIDDEN2, bs "hi"); (HIDDEN3, bs "hid"); (HIDDEN4, bs "hidd"); (HIDDEN5, bs "hidde"); (FIN_HIDDEN, bs "hidden");
   (TTL1, bs "t"); (TTL2, bs "tt"); (FIN_TTL, bs "ttl");
   (BRANCH1, bs "b"); (BRANCH2, bs "br"); (BRANCH3, bs "bra"); (BRANCH4, bs "bran"); (BRANCH5, bs "branc"); (FIN_BRANCH, bs "branch");
   (MADDR1, bs "m"); (MADDR2, bs "ma"); (MADDR3, bs "mad"); (MADDR4, bs "madd"); (FIN_MADDR, bs "maddr");
   (RECEIVED1, bs "r"); (RECEIVED2, bs "re"); (RECEIVED3, bs "rec"); (RECEIVED4, bs "rece"); (RECEIVED5, bs "recei");
   (RECEIVED6, bs "receiv"); (RECEIVED7, bs "receive"); (FIN_RECEIVED, bs "received");
   (RPORT1, bs "rp"); (RPORT2, bs "rpo"); (RPORT3, bs "rpor"); (FIN_RPORT, bs "rport");
   (FIN_I, bs "i"); (ALIAS1, bs "a"); (ALIAS2, bs "al"); (ALIAS3, bs "ali"); (ALIAS4, bs "alia"); (FIN_ALIAS, bs "alias")].

Definition name_letters : bytes := bs "hidentlarcvpobms".

Definition vname_state : bytes → via_state := word_state name_first name_next GEN_PARAM.

(** The type of a parameter. *)
Definition vtype_of (name : bytes) : via_state :=
  let l := lower name in
  if bool_decide (l = bs "hidden") then PARAM_HIDDEN else if bool_decide (l = bs "ttl") then PARAM_TTL
  else if bool_decide (l = bs "branch") then PARAM_BRANCH else if bool_decide (l = bs "maddr") then PARAM_MADDR
  else if bool_decide (l = bs "received") then PARAM_RECEIVED else if bool_decide (l = bs "rport") then PARAM_RPORT
  else if bool_decide (l = bs "i") then PARAM_I else if bool_decide (l = bs "alias") then PARAM_ALIAS else GEN_PARAM.

(** The type [parse_via_param] gives to a name that ends in a state. *)
Definition fin_type (q : via_state) : via_state :=
  match q with
  | FIN_HIDDEN | FIN_ALIAS | FIN_BRANCH | FIN_TTL | FIN_MADDR | FIN_RECEIVED | FIN_RPORT | FIN_I => q
  | _ => GEN_PARAM
  end.

Ltac letter_cases c :=
  repeat match goal with |- context [tolower c =? ?k] =>
    destruct (Z.eqb_spec (tolower c) k) as [->|?]; [intros _; apply (bool_decide_unpack _); vm_compute; exact I|] end; intros [].

Lemma vname_state_lookup s : s ≠ [] → vname_state s = table_find GEN_PARAM name_table (lower s).
Proof.
  apply (word_state_lookup _ _ _ _ name_letters).
  - by vm_compute.
  - intros c. unfold name_first. by rewrite tolower_idemp.
  - intros c q. unfold name_next. by rewrite tolower_idemp.
  - intros c q. unfold name_next. cbv zeta.
    by letter_cases c.
  - intros c. unfold name_first. cbv zeta.
    by letter_cases c.
  - intros c. unfold name_next. cbv zeta. by repeat case_match.
Qed.

(** The states a name ends in. *)
Lemma table_find_type s : fin_type (table_find GEN_PARAM name_table s) =
  if bool_decide (s = bs "hidden") then PARAM_HIDDEN else if bool_decide (s = bs "ttl") then PARAM_TTL
  else if bool_decide (s = bs "branch") then PARAM_BRANCH else if bool_decide (s = bs "maddr") then PARAM_MADDR
  else if bool_decide (s = bs "received") then PARAM_RECEIVED else if bool_decide (s = bs "rport") then PARAM_RPORT
  else if bool_decide (s = bs "i") then PARAM_I else if bool_decide (s = bs "alias") then PARAM_ALIAS else GEN_PARAM.
Proof.
  unfold table_find. destruct (list_find _ name_table) as [[i e]|] eqn:Hf.
  - apply list_find_Some in Hf as (Hi & <- & _).
    do 38 (destruct i as [|i]; [injection Hi as <-; by vm_compute|]). done.
  - apply list_find_None in Hf.
    assert (Hno : ∀ w, w ∈ name_table.*2 → s ≠ w).
    { intros w Hin ->. apply list_elem_of_fmap in Hin as ([q w'] & -> & Hin). rewrite Forall_forall in Hf. by apply (Hf _ Hin). }
    repeat (rewrite bool_decide_eq_false_2; [|apply Hno, (bool_decide_unpack _); vm_compute; exact I]). done.
Qed.

Lemma vname_type s : s ≠ [] → fin_type (vname_state s) = vtype_of s.
Proof. intros Hs. rewrite vname_state_lookup by done. apply table_find_type. Qed.

(** ** Transports *)

Definition proto_table : list (via_state * bytes) :=
  [(UDP1, bs "u"); (UDP2, bs "ud"); (FIN_UDP, bs "udp"); (TCP_TLS1, bs "t"); (TCP2, bs "tc"); (FIN_TCP, bs "tcp"); (TLS2, bs "tl");
   (FIN_TLS, bs "tls"); (SCTP1, bs "s"); (SCTP2, bs "sc"); (SCTP3, bs "sct"); (FIN_SCTP, bs "sctp"); (WS1, bs "w"); (WS_WSS, bs "ws");
   (FIN_WSS, bs "wss")].

Definition proto_letters : bytes := bs "sutwipdcl2.0".

Definition proto_first (c : byte) : via_state := default OTHER_PROTO (word_first c).
Definition proto_next (c : byte) (q : via_state) : via_state := default OTHER_PROTO (word_next c q).
Definition proto_state : bytes → via_state := word_state proto_first proto_next OTHER_PROTO.

(** The transport a word names; a proper prefix of a known one names none. *)
Definition transport_of (t : bytes) : option Z :=
  let l := lower t in
  if bool_decide (l = bs "udp") then Some PROTO_UDP else if bool_decide (l = bs "tcp") then Some PROTO_TCP
  else if bool_decide (l = bs "tls") then Some PROTO_TLS else if bool_decide (l = bs "sctp") then Some PROTO_SCTP
  else if bool_decide (l = bs "ws") then Some PROTO_WS else if bool_decide (l = bs "wss") then Some PROTO_WSS
  else if bool_decide (l ∈ proto_table.*2) then None else Some PROTO_OTHER.

Lemma proto_state_lookup s : s ≠ [] → proto_state s = table_find OTHER_PROTO proto_table (lower s).
Proof.
  apply (word_state_lookup _ _ _ _ proto_letters).
  - by vm_compute.
  - intros c. unfold proto_first, word_first. by rewrite tolower_idemp.
  - intros c q. unfold proto_next, word_next. by rewrite tolower_idemp.
  - intros c q. unfold proto_next, word_next. cbv zeta. by letter_cases c.
  - intros c. unfold proto_first, word_first. cbv zeta. by letter_cases c.
  - intros c. unfold proto_next, word_next. cbv zeta. by repeat case_match.
Qed.

Lemma proto_state_fin s : s ≠ [] → fin_proto true false (proto_state s) = transport_of s.
Proof.
  intros Hs. rewrite proto_state_lookup by done. unfold transport_of. cbv zeta. generalize (lower s). clear. intros s.
  unfold table_find. destruct (list_find _ proto_table) as [[i e]|] eqn:Hf.
  - apply list_find_Some in Hf as (Hi & <- & _).
    do 15 (destruct i as [|i]; [injection Hi as <-; by vm_compute|]). done.
  - apply list_find_None in Hf.
    assert (Hno : ∀ w, w ∈ proto_table.*2 → s ≠ w).
    { intros w Hin ->. apply list_elem_of_fmap in Hin as ([q w'] & -> & Hin). rewrite Forall_forall in Hf. by apply (Hf _ Hin). }
    rewrite (bool_decide_eq_false_2 (s ∈ _)) by (intros Hin; by apply (Hno s)).
    repeat (rewrite bool_decide_eq_false_2; [|apply Hno, (bool_decide_unpack _); vm_compute; exact I]). done.
Qed.

(** The states of a transport stay those of a word. *)
Lemma proto_first_in c q : word_first c = Some q → in_proto q || bool_decide (q = OTHER_PROTO) = true.
Proof. unfold word_first. cbv zeta. repeat (destruct (_ =? _); [by intros [= <-]|]). cbn [orb]. by intros [= <-]. Qed.

Lemma proto_next_in c q q' : word_next c q = Some q' → in_proto q = true → in_proto q' = true.
Proof. unfold word_next. cbv zeta. repeat (destruct (_ =? _); [destruct q; intros [= <-]; done|]). done. Qed.
