(* ===== verification/ViaRoundtrip.v ===== *)
(** * ViaRoundtrip: written Via bodies are read back (parser/parse_via.c)

    Via bodies with a host name or an IPv6 reference, an optional port and parameters without
    a value, with a token or with a quoted string, written with blanks where the grammar allows
    them and separated by commas, are read back by [parse_via]. *)

From stdpp Require Import prelude list strings.
From Stdlib Require Import ZArith Lia Ascii.
From S2P Require Import Prelude CString UriParser Numbers NumbersSpec HdrNames HdrNamesSpec HdrBodies ToParser ScanRuns ViaParser ViaFacts ViaWords MsgHeadersProps.

(** ** Via bodies as text *)

(** The characters of the names and of the values of parameters, and of quoted values, where a
    backslash does not quote. *)
Definition vname_char (c : byte) : bool := negb (is_ws c || is_eol c || (c =? chr "=") || (c =? chr ";") || (c =? chr ",")).
Definition vname_head (c : byte) : bool :=
  vname_char c && negb ((c =? 0) || (c =? chr ":") || (c =? chr "(") || (c =? chr ")") || (c =? chr "[") || (c =? chr "]")).
Definition vvalue_char (c : byte) : bool :=
  negb (is_ws c || is_eol c || (c =? chr "=") || (c =? chr ";") || (c =? chr ",") || (c =? 34) || (c =? 0)).
Definition vquoted_char (c : byte) : bool := negb (is_eol c || (c =? chr ",") || (c =? 34)).

Inductive wvvalue := VNone | VToken (sp1 sp2 v : bytes) | VQuoted (sp1 sp2 v : bytes).
Record wvparam := WVParam { wq_sp : bytes; wq_name : bytes; wq_val : wvvalue; wq_end : bytes }.

Definition write_vvalue (v : wvvalue) : bytes :=
  match v with
  | VNone => []
  | VToken sp1 sp2 v => sp1 ++ chr "=" :: sp2 ++ v
  | VQuoted sp1 sp2 v => sp1 ++ chr "=" :: sp2 ++ 34 :: v ++ [34]
  end.

Definition valueless_type (q : via_state) : bool := match q with PARAM_HIDDEN | PARAM_ALIAS => true | _ => false end.
Definition bare_type (q : via_state) : bool := match q with PARAM_RPORT | GEN_PARAM => true | _ => false end.

(** Which values and which blanks after it a parameter may have. *)
Definition vvalue_wf (ty : via_state) (v : wvvalue) (s : bytes) : bool :=
  match v with
  | VNone => valueless_type ty || bare_type ty && bool_decide (s = [])
  | VToken sp1 sp2 v =>
      negb (valueless_type ty) && forallb is_ws sp1 && forallb is_ws sp2 && negb (bool_decide (v = [])) && forallb vvalue_char v
  | VQuoted sp1 sp2 v => negb (valueless_type ty) && forallb is_ws sp1 && forallb is_ws sp2 && forallb vquoted_char v
  end.

Definition vparam_wf (w : wvparam) : bool :=
  forallb is_ws (wq_sp w) && match wq_name w with [] => false | c :: t => vname_head c && forallb vname_char t end &&
  vvalue_wf (vtype_of (wq_name w)) (wq_val w) (wq_end w) && forallb is_ws (wq_end w).

Definition value_text (v : wvvalue) : bytes := match v with VNone => [] | VToken _ _ v | VQuoted _ _ v => v end.
Definition wq_view (w : wvparam) : via_state * bytes * bytes := (vtype_of (wq_name w), wq_name w, value_text (wq_val w)).
Definition vp_view (mem : Z → byte) (t : via_param) : via_state * bytes * bytes := (vp_type t, to_text mem (vp_name t), to_text mem (vp_value t)).

(** ** The names of parameters *)

Lemma name_head_in s : s ≠ [] → in_vname (vname_state s) = true.
Proof.
  intros Hs. rewrite vname_state_lookup by done. unfold table_find. destruct (list_find _ name_table) as [[i e]|] eqn:Hf; [|done].
  apply list_find_Some in Hf as (Hi & _ & _). do 38 (destruct i as [|i]; [by injection Hi as <-|]). done.
Qed.

(** What ends a name. *)
Definition ended (q : via_state) (p : Z) (t : via_param) : via_param := vp_name_upto p (vp_set_type (fin_type q) t).

Lemma n_step_equal q p sv t : in_vname q = true → valueless_type (fin_type q) = false →
  n_step (chr "=") p (NP q sv t) = NFind (NP F_VALUE sv (ended q p t)).
Proof. intros Hq Hv. by destruct q. Qed.

Lemma n_step_blank c q p sv t : is_ws c = true → in_vname q = true →
  n_step c p (NP q sv t) = if valueless_type (fin_type q) then NEnd (NP L_PARAM sv (ended q p t)) else NFind (NP L_VALUE sv (ended q p t)).
Proof. intros Hc Hq. unfold n_step. unfold is_ws in Hc. rewrite Hc. by destruct q. Qed.

Lemma n_step_stop c f q p sv t : (c = chr ";" ∧ f = F_PARAM ∨ c = chr "," ∧ f = F_VIA) → in_vname q = true →
  valueless_type (fin_type q) || bare_type (fin_type q) = true → n_step c p (NP q sv t) = NEnd (NP f sv (ended q p t)).
Proof. intros [[-> ->]|[-> ->]] Hq Hv; by destruct q. Qed.

Lemma n_step_line q p sv t : in_vname q = true →
  n_step 13 p (NP q sv t) = if valueless_type (fin_type q) then NEnd (NP F_CR L_PARAM (vp_size_upto p (ended q p t)))
    else NFind (NP F_CR L_VALUE (vp_size_upto p (ended q p t))).
Proof. intros Hq. by destruct q. Qed.

(** ** One parameter *)

Section param.
Context (mem : Z → byte) (end_ : Z).

Abbreviation nruns := (runs (λ n p x, n_loop mem n p end_ x) end_).
Abbreviation nends := (ends (λ n p x, n_loop mem n p end_ x) end_).
Abbreviation fruns := (runs (λ n p x, f_loop mem n p end_ x) end_).
Abbreviation fends := (ends (λ n p x, f_loop mem n p end_ x) end_).

Lemma n_go p x y : p < end_ → n_step (mem p) p x = NGo y → nruns p x (p + 1) y.
Proof.
  intros Hp Hs n Hn. destruct n as [|n]; [unfold dist in Hn; lia|]. exists n.
  split; [unfold dist in *; lia|]. cbn [n_loop]. by rewrite (proj2 (Z.ltb_lt _ _) Hp), Hs.
Qed.

Lemma f_go p x y : p < end_ → f_step (mem p) p x = NGo y → fruns p x (p + 1) y.
Proof.
  intros Hp Hs n Hn. destruct n as [|n]; [unfold dist in Hn; lia|]. exists n.
  split; [unfold dist in *; lia|]. cbn [f_loop]. by rewrite (proj2 (Z.ltb_lt _ _) Hp), Hs.
Qed.

Lemma n_find p x y r : p < end_ → n_step (mem p) p x = NFind y → fends (p + 1) y r → nends p x r.
Proof.
  intros Hp Hs He n Hn. destruct n as [|n]; [unfold dist in Hn; lia|].
  cbn [n_loop]. rewrite (proj2 (Z.ltb_lt _ _) Hp), Hs. by apply He.
Qed.

Lemma n_stop p x y r : p < end_ → n_step (mem p) p x = NEnd y → NpOk p (n_sized p y) = r → nends p x r.
Proof.
  intros Hp Hs <- n Hn. destruct n as [|n]; [unfold dist in Hn; lia|]. cbn [n_loop]. by rewrite (proj2 (Z.ltb_lt _ _) Hp), Hs.
Qed.

Lemma f_stop p x y r : p < end_ → f_step (mem p) p x = NEnd y → NpOk p (n_sized p y) = r → fends p x r.
Proof.
  intros Hp Hs <- n Hn. destruct n as [|n]; [unfold dist in Hn; lia|]. cbn [f_loop]. by rewrite (proj2 (Z.ltb_lt _ _) Hp), Hs.
Qed.

Lemma f_end_via p x y r : p < end_ → f_step (mem p) p x = NEndVia y → n_end_via p y = r → fends p x r.
Proof.
  intros Hp Hs <- n Hn. destruct n as [|n]; [unfold dist in Hn; lia|]. cbn [f_loop]. by rewrite (proj2 (Z.ltb_lt _ _) Hp), Hs.
Qed.

(** The letters of the name. *)
Lemma n_name s : ∀ p q sv t, forallb vname_char s = true → in_vname q = true → text_at mem p s → p + Z.of_nat (length s) <= end_ →
  nruns p (NP q sv t) (p + Z.of_nat (length s)) (NP (foldl (λ q c, name_next c q) q s) sv t).
Proof.
  induction s as [|c s IH]; intros p q sv t Hs Hq Ht He.
  - replace (p + Z.of_nat (length [])) with p by (simpl; lia). apply runs_refl.
  - cbn [forallb] in Hs. apply andb_prop in Hs as [Hc Hs]. apply text_at_cons in Ht as [Hm Ht]. rewrite length_cons in *.
    eapply runs_trans; [apply n_go; [lia|]|].
    { rewrite Hm. unfold vname_char, is_ws, is_eol in Hc. unfold n_step. cbn [n_st]. not_chars Hc. destruct q; try discriminate Hq; reflexivity. }
    cbn [foldl]. eapply runs_to; [|apply (IH (p + 1)); [done|apply name_next_in|done|lia]]. lia.
Qed.

Lemma n_whole_name name p sv t : match name with [] => false | c :: t => vname_head c && forallb vname_char t end = true →
  text_at mem p name → p + Z.of_nat (length name) <= end_ →
  nruns p (NP F_PARAM sv t) (p + Z.of_nat (length name)) (NP (vname_state name) sv (vp_name_at p t)).
Proof.
  destruct name as [|c s]; [done|]. intros [Hc Hs]%andb_prop Ht He. apply andb_prop in Hc as [Hc _].
  apply text_at_cons in Ht as [Hm Ht]. rewrite length_cons in *.
  eapply runs_trans; [apply n_go; [lia|]|].
  { rewrite Hm. unfold vname_char, is_ws, is_eol in Hc. unfold n_step. cbn [n_st]. not_chars Hc. reflexivity. }
  eapply runs_to; [|apply (n_name s); [done|apply name_first_in|done|lia]]. lia.
Qed.

(** Blanks before and inside a value. *)
Lemma f_blanks s p x : forallb is_ws s = true → text_at mem p s → p + Z.of_nat (length s) <= end_ →
  match n_st x with L_VALUE | F_VALUE => true | _ => false end = true → fruns p x (p + Z.of_nat (length s)) x.
Proof.
  intros Hs Ht He Hx. apply (runs_while _ _ mem is_ws); try done. intros q Hq Hc. apply f_go; [done|].
  unfold f_step. unfold is_ws in Hc. rewrite Hc. by destruct (n_st x).
Qed.

Lemma f_token s p x : forallb vvalue_char s = true → text_at mem p s → p + Z.of_nat (length s) <= end_ → n_st x = P_VALUE →
  fruns p x (p + Z.of_nat (length s)) x.
Proof.
  intros Hs Ht He Hx. apply (runs_while _ _ mem vvalue_char); try done. intros q Hq Hc. apply f_go; [done|].
  unfold vvalue_char, is_ws, is_eol in Hc. unfold f_step. rewrite Hx. not_chars Hc. done.
Qed.

Lemma f_quoted s p x : forallb vquoted_char s = true → text_at mem p s → p + Z.of_nat (length s) <= end_ → n_st x = P_STRING →
  fruns p x (p + Z.of_nat (length s)) x.
Proof.
  intros Hs Ht He Hx. apply (runs_while _ _ mem vquoted_char); try done. intros q Hq Hc. apply f_go; [done|].
  unfold vquoted_char, is_eol in Hc. unfold f_step. rewrite Hx. not_chars Hc. by repeat case_match.
Qed.

(** The sign "=" with blanks around it: the value is looked for from there. *)
Lemma n_equal sp1 sp2 p q sv t r : forallb is_ws sp1 = true → forallb is_ws sp2 = true → in_vname q = true →
  valueless_type (fin_type q) = false → text_at mem p (sp1 ++ chr "=" :: sp2) → p + Z.of_nat (length sp1 + S (length sp2)) <= end_ →
  fends (p + Z.of_nat (length sp1 + S (length sp2))) (NP F_VALUE sv (ended q p t)) r → nends p (NP q sv t) r.
Proof.
  intros H1 H2 Hq Hv Ht He Hr. apply text_at_app in Ht as [Ht1 Ht2]. apply text_at_cons in Ht2 as [Heq Ht2].
  assert (Hr2 : fends (p + Z.of_nat (length sp1) + 1) (NP F_VALUE sv (ended q p t)) r).
  { eapply runs_ends; [apply (f_blanks sp2); [done|done|lia|done]|].
    by replace (p + Z.of_nat (length sp1) + 1 + Z.of_nat (length sp2)) with (p + Z.of_nat (length sp1 + S (length sp2))) by lia. }
  destruct sp1 as [|c sp1]; simpl length in *.
  - replace (p + Z.of_nat 0) with p in * by lia. eapply n_find; [lia|rewrite Heq; by apply n_step_equal|done].
  - cbn [forallb] in H1. apply andb_prop in H1 as [Hc H1]. apply text_at_cons in Ht1 as [Hm Ht1].
    eapply n_find; [lia|rewrite Hm, n_step_blank, Hv by done; reflexivity|].
    eapply runs_ends; [apply (f_blanks sp1); [done|done|lia|done]|].
    replace (p + 1 + Z.of_nat (length sp1)) with (p + Z.of_nat (S (length sp1))) by lia.
    eapply runs_ends; [apply f_go; [lia|]|exact Hr2]. by rewrite Heq.
Qed.

Context (A : Z) (HE : end_ - A <= INT_MAX).

Definition new_vparam (start : Z) : via_param := ViaParam PARAM_ERROR str_null str_null start 0.

Section read.
Context (name : bytes) (val : wvvalue) (p : Z) (sv : via_state) (start : Z).
Context (HA : A <= p) (Hname : match name with [] => false | c :: t => vname_head c && forallb vname_char t end = true).
Context (Ht : text_at mem p (name ++ write_vvalue val)).
Let e := p + Z.of_nat (length (name ++ write_vvalue val)).
Context (He : e < end_).

(** The parameter is read, its type, name and value being those written, with a result [r]. *)
Definition reads (r : via_param → np_result) : Prop :=
  ∃ t, vp_view mem t = (vtype_of name, name, value_text val) ∧ nends p (NP F_PARAM sv (new_vparam start)) (r t).

(** The parameter once its name has ended. *)
Definition named_param : via_param := ended (vname_state name) (p + Z.of_nat (length name)) (vp_name_at p (new_vparam start)).

Lemma name_ne : name ≠ [].
Proof. clear Ht He. by intros ->. Qed.

Lemma len_name : p + Z.of_nat (length name) + Z.of_nat (length (write_vvalue val)) = e.
Proof. unfold e. rewrite length_app. lia. Qed.

Lemma name_run : nruns p (NP F_PARAM sv (new_vparam start)) (p + Z.of_nat (length name))
  (NP (vname_state name) sv (vp_name_at p (new_vparam start))).
Proof. pose proof len_name. apply text_at_app in Ht as [Htn _]. apply n_whole_name; [done|done|lia]. Qed.

Lemma named_view v : vp_view mem (vp_set_value v named_param) = (vtype_of name, name, to_text mem v).
Proof.
  unfold vp_view. cbn [vp_set_value vp_type vp_name vp_value named_param ended vp_name_upto vp_set_type].
  rewrite vname_type by apply name_ne. do 2 f_equal. pose proof len_name.
  apply text_at_app in Ht as [Htn _]. apply to_text_upto; [done|done|lia].
Qed.

Lemma sized_view k t : vp_view mem (vp_size_upto k t) = vp_view mem t.
Proof. done. Qed.

Lemma fin_facts : in_vname (vname_state name) = true ∧ fin_type (vname_state name) = vtype_of name.
Proof. split; [apply name_head_in, name_ne|apply vname_type, name_ne]. Qed.

(** Parameters without a value. *)
Section bare.
Context (Hval : val = VNone).

Lemma bare_len : p + Z.of_nat (length name) = e.
Proof. pose proof len_name as Hl. rewrite Hval in Hl. cbn [write_vvalue length] in Hl. lia. Qed.

Lemma bare_view : vp_view mem named_param = (vtype_of name, name, value_text val).
Proof. rewrite Hval. apply (named_view str_null). Qed.

Lemma reads_bare_stop c f : valueless_type (vtype_of name) || bare_type (vtype_of name) = true →
  (c = chr ";" ∧ f = F_PARAM ∨ c = chr "," ∧ f = F_VIA) → mem e = c → reads (λ t, NpOk e (NP f sv t)).
Proof.
  intros Hty Hcf Hc. exists (vp_size_upto e named_param). split; [rewrite sized_view; apply bare_view|].
  eapply runs_ends; [apply name_run|]. rewrite bare_len. destruct fin_facts as [Hin Hfin].
  eapply n_stop; [lia|rewrite Hc; apply n_step_stop; [done|done|by rewrite Hfin]|]. unfold named_param. by rewrite bare_len.
Qed.

Lemma reads_bare_blank : valueless_type (vtype_of name) = true → is_ws (mem e) = true → reads (λ t, NpOk e (NP L_PARAM sv t)).
Proof.
  intros Hty Hc. exists (vp_size_upto e named_param). split; [rewrite sized_view; apply bare_view|].
  eapply runs_ends; [apply name_run|]. rewrite bare_len. destruct fin_facts as [Hin Hfin].
  eapply n_stop; [lia|rewrite n_step_blank, Hfin, Hty by done; reflexivity|]. unfold named_param. by rewrite bare_len.
Qed.

Lemma reads_bare_line : valueless_type (vtype_of name) = true → mem e = 13 → reads (λ t, NpOk e (NP F_CR L_PARAM t)).
Proof.
  intros Hty Hc. exists (vp_size_upto e (vp_size_upto e named_param)). split; [rewrite !sized_view; apply bare_view|].
  eapply runs_ends; [apply name_run|]. rewrite bare_len. destruct fin_facts as [Hin Hfin].
  eapply n_stop; [lia|rewrite Hc, n_step_line, Hfin, Hty by done; reflexivity|]. unfold named_param. by rewrite bare_len.
Qed.

Lemma reads_bare_end : bare_type (vtype_of name) = true → text_at mem e [13; 10] → e + 2 < end_ →
  is_ws (mem (e + 2)) = false → mem (e + 2) ≠ 0 → reads (λ t, NpOk (e + 2) (NP END_OF_HEADER L_PARAM t)).
Proof.
  intros Hty Hl Hn Hws H0. apply text_at_cons in Hl as [H13 Hl]. apply text_at_cons in Hl as [H10 _].
  exists (vp_size_upto e named_param). split; [rewrite sized_view; apply bare_view|].
  eapply runs_ends; [apply name_run|]. rewrite bare_len. destruct fin_facts as [Hin Hfin].
  assert (Hnv : valueless_type (vtype_of name) = false) by (by destruct (vtype_of name)).
  eapply n_find; [lia|rewrite H13, n_step_line, Hfin, Hnv by done; reflexivity|].
  eapply runs_ends; [apply (f_go (e + 1) _ (NP F_CRLF L_VALUE (vp_size_upto e named_param))); [lia|]|].
  { rewrite H10. unfold named_param. by rewrite bare_len. }
  replace (e + 1 + 1) with (e + 2) by lia.
  eapply f_end_via; [lia| |].
  { unfold f_step. unfold is_ws in Hws. rewrite Hws, (proj2 (Z.eqb_neq _ _) H0). cbn [n_st].
    repeat lazymatch goal with |- (if ?b then _ else _) = _ => destruct b; [reflexivity|] end. reflexivity. }
  unfold n_end_via, n_goto. cbn [n_param n_saved]. unfold vp_size_upto. cbn [vp_type named_param ended vp_name_upto vp_set_type].
  rewrite Hfin. rewrite decide_True; [done|]. destruct (vtype_of name); try discriminate Hty; auto.
Qed.
End bare.

(** Parameters with a value. *)
Section token.
Context (sp1 sp2 v : bytes) (Hval : val = VToken sp1 sp2 v) (Hwf : vvalue_wf (vtype_of name) val [] = true).

(** The parameter once the value has begun. *)
Definition token_param : via_param := vp_set_value (Str (p + Z.of_nat (length name) + Z.of_nat (length sp1 + S (length sp2))) 0) named_param.

Lemma token_run r : fends e (NP P_VALUE sv token_param) r → nends p (NP F_PARAM sv (new_vparam start)) r.
Proof.
  intros Hr. unfold token_param in Hr. pose proof len_name as Hl. destruct fin_facts as [Hin Hfin].
  apply text_at_app in Ht as Ht'. destruct Ht' as [_ Htv]. pose proof Hwf as Hwf'. rewrite Hval in Hl, Htv, Hwf'. cbn [write_vvalue vvalue_wf] in *.
  apply andb_prop in Hwf' as [[[[Hty H1]%andb_prop H2]%andb_prop Hne]%andb_prop Hv]. apply negb_true_iff in Hty.
  rewrite app_comm_cons, app_assoc in Htv. apply text_at_app in Htv as [Heq Htv].
  rewrite length_app, length_cons, length_app in Hl. rewrite length_app, length_cons in Htv.
  assert (Hcons : ∃ c v', v = c :: v') by (destruct v; [done|eauto]). destruct Hcons as (c & v' & Hcons). rewrite Hcons in *. cbn [forallb] in Hv. apply andb_prop in Hv as [Hc Hv]. apply text_at_cons in Htv as [Hm Htv].
  rewrite length_cons in Hl.
  eapply runs_ends; [apply name_run|]. eapply (n_equal sp1 sp2); [done|done|done|by rewrite Hfin|done|lia|].
  eapply runs_ends; [apply f_go; [lia|]|].
  { rewrite Hm. unfold vvalue_char, is_ws, is_eol in Hc. unfold f_step. cbn [n_st]. not_chars Hc. reflexivity. }
  eapply runs_ends; [apply (f_token v'); [done|done|lia|done]|].
  match goal with |- fends ?a _ _ => replace a with e by lia end. exact Hr.
Qed.

Lemma token_view : vp_view mem (vp_value_upto e token_param) = (vtype_of name, name, value_text val).
Proof.
  change (vp_view mem (vp_set_value (upto (vp_value token_param) e) named_param) = (vtype_of name, name, value_text val)).
  rewrite named_view. unfold token_param. cbn [vp_set_value vp_value]. pose proof len_name as Hl. apply text_at_app in Ht as Ht'. destruct Ht' as [_ Htv].
  rewrite Hval in Hl, Htv |- *. cbn [write_vvalue value_text] in *.
  rewrite app_comm_cons, app_assoc in Htv. apply text_at_app in Htv as [_ Htv].
  rewrite length_app, length_cons, length_app in Hl. rewrite length_app, length_cons in Htv.
  f_equal. apply to_text_upto; [done|lia|lia].
Qed.

Lemma reads_token_stop c f : (c = chr ";" ∧ f = F_PARAM ∨ c = chr "," ∧ f = F_VIA) → mem e = c → reads (λ t, NpOk e (NP f sv t)).
Proof.
  intros Hcf Hc. exists (vp_size_upto e (vp_value_upto e token_param)). split; [rewrite sized_view; apply token_view|].
  apply token_run. eapply f_stop; [lia|rewrite Hc; by destruct Hcf as [[-> ->]|[-> ->]]|done].
Qed.

Lemma reads_token_blank : is_ws (mem e) = true → reads (λ t, NpOk e (NP L_PARAM sv t)).
Proof.
  intros Hc. exists (vp_size_upto e (vp_value_upto e token_param)). split; [rewrite sized_view; apply token_view|].
  apply token_run. eapply f_stop; [lia|unfold f_step; unfold is_ws in Hc; rewrite Hc; reflexivity|done].
Qed.

Lemma reads_token_line : mem e = 13 → reads (λ t, NpOk e (NP F_CR L_PARAM t)).
Proof.
  intros Hc. exists (vp_size_upto e (vp_value_upto e token_param)). split; [rewrite sized_view; apply token_view|].
  apply token_run. eapply f_stop; [lia|rewrite Hc; reflexivity|done].
Qed.
End token.

Lemma reads_quoted sp1 sp2 v : val = VQuoted sp1 sp2 v → vvalue_wf (vtype_of name) val [] = true → reads (λ t, NpOk (e - 1) (NP L_PARAM sv t)).
Proof.
  intros Hval Hwf. pose proof len_name as Hl. destruct fin_facts as [Hin Hfin].
  apply text_at_app in Ht as Ht'. destruct Ht' as [_ Htv]. unfold reads. rewrite Hval in Hl, Htv, Hwf |- *. cbn [write_vvalue vvalue_wf value_text] in *.
  apply andb_prop in Hwf as [[[Hty H1]%andb_prop H2]%andb_prop Hv]. apply negb_true_iff in Hty.
  rewrite app_comm_cons, app_assoc in Htv. apply text_at_app in Htv as [Heq Htv].
  rewrite length_app, length_cons, length_app, length_cons, length_app in Hl. simpl length in Hl. rewrite length_app, length_cons in Htv.
  apply text_at_cons in Htv as [Hm Htv]. apply text_at_snoc in Htv as [Htv Hq].
  set (a := p + Z.of_nat (length name) + Z.of_nat (length sp1 + S (length sp2))) in *.
  exists (vp_size_upto (e - 1) (vp_set_value (upto (Str (a + 1) 0) (e - 1)) named_param)). split.
  { rewrite sized_view, named_view. f_equal. apply to_text_upto; [done|unfold a; lia|lia]. }
  eapply runs_ends; [apply name_run|]. eapply (n_equal sp1 sp2); [done|done|done|by rewrite Hfin|done|lia|]. fold a.
  eapply runs_ends; [apply f_go; [unfold a; lia|rewrite Hm; reflexivity]|].
  eapply runs_ends; [apply (f_quoted v); [done|done|unfold a; lia|done]|].
  replace (a + 1 + Z.of_nat (length v)) with (e - 1) in * by (unfold a; lia).
  eapply f_stop; [lia|rewrite Hq; reflexivity|done].
Qed.
End read.
End param.

(** ** Parameters of a body *)

(** What is known of a body while it is read. *)
Record vcore := VCore {
  vc_name : bytes; vc_version : bytes; vc_transport : bytes; vc_proto : Z; vc_host : bytes; vc_port_set : bool; vc_port_str : bytes; vc_port : Z;
  vc_params : list (via_state * bytes * bytes) }.

Definition core (mem : Z → byte) (b : via_body) : vcore :=
  VCore (to_text mem (vb_name b)) (to_text mem (vb_version b)) (to_text mem (vb_transport b)) (vb_proto b)
    (to_text mem (vb_host b)) (negb (str_s (vb_port_str b) =? 0)) (to_text mem (vb_port_str b)) (vb_port b) (vp_view mem <$> vb_param_lst b).

Definition core_add (v : vcore) (e : via_state * bytes * bytes) : vcore :=
  VCore (vc_name v) (vc_version v) (vc_transport v) (vc_proto v) (vc_host v) (vc_port_set v) (vc_port_str v) (vc_port v) (vc_params v ++ [e]).

(** A character that cannot continue the header. *)
Definition via_next_char (c : byte) : bool := negb (is_ws c || (c =? 0)).

Section body.
Context (mem : Z → byte) (end_ : Z) (A : Z) (HE : end_ - A <= INT_MAX).

Abbreviation vruns := (runs (λ n p x, v_loop mem n p end_ x) end_).
Abbreviation vends := (ends (λ n p x, v_loop mem n p end_ x) end_).

Lemma v_go p x tmp y : p < end_ → p <= tmp → v_step mem (mem p) p end_ x = VGo tmp y → vruns p x (tmp + 1) y.
Proof.
  intros Hp Htmp Hs n Hn. destruct n as [|n]; [unfold dist in Hn; lia|]. exists n.
  split; [unfold dist in *; lia|]. cbn [v_loop]. by rewrite (proj2 (Z.ltb_lt _ _) Hp), Hs.
Qed.

Lemma v_stop p x o : p < end_ → v_step mem (mem p) p end_ x = o → match o with VGo _ _ => False | _ => True end → vends p x (p, o).
Proof.
  intros Hp Hs Ho n Hn. destruct n as [|n]; [unfold dist in Hn; lia|].
  cbn [v_loop]. rewrite (proj2 (Z.ltb_lt _ _) Hp), Hs. by destruct o.
Qed.

(** The end of a line that is not folded: [tmp] is the beginning of the next one. *)
Definition closes (p : Z) (x : vs) (tmp : Z) (sv : via_state) (v : vcore) : Prop :=
  ∃ q y, vends p x (q, VEndHdr tmp y) ∧ v_saved y = sv ∧ core mem (v_vb y) = v ∧ v_al y = [].

Lemma closes_run p x p1 x1 tmp sv v : vruns p x p1 x1 → closes p1 x1 tmp sv v → closes p x tmp sv v.
Proof. intros Hr (q & y & Hy & ?). exists q, y. split; [by eapply runs_ends|done]. Qed.

Lemma v_lf p sv nest ps b : p + 1 < end_ → mem p = 10 → via_next_char (mem (p + 1)) = true →
  closes p (VS F_CR sv nest ps b []) (p + 1) sv (core mem b).
Proof.
  intros Hp H10 Hc. eapply closes_run; [apply (v_go p _ p (VS F_CRLF sv nest ps b [])); [lia|lia|by rewrite H10]|].
  exists (p + 1), (VS F_CRLF sv nest ps b []). split; [|done]. apply v_stop; [lia| |done].
  unfold via_next_char, is_ws in Hc. unfold v_step, v_newline, v_comment. cbn [v_st]. not_chars Hc.
  repeat (case_match; [reflexivity|]). reflexivity.
Qed.

Lemma v_line p x sv nest ps b : p + 2 < end_ → text_at mem p [13; 10] → via_next_char (mem (p + 2)) = true →
  v_step mem 13 p end_ x = VGo p (VS F_CR sv nest ps b []) → closes p x (p + 2) sv (core mem b).
Proof.
  intros Hp Ht Hc Hs. apply text_at_cons in Ht as [H13 Ht]. apply text_at_cons in Ht as [H10 _].
  eapply closes_run; [apply (v_go p _ p); [lia|lia|by rewrite H13]|].
  replace (p + 2) with (p + 1 + 1) in * by lia. by apply v_lf; [lia|..].
Qed.

(** Blanks between the parts of a body. *)
Lemma v_blanks s p x : forallb is_ws s = true → text_at mem p s → p + Z.of_nat (length s) <= end_ →
  match v_st x with F_HOST | L_PORT | F_PORT | L_PARAM | F_PARAM | F_VIA => true | _ => false end = true →
  vruns p x (p + Z.of_nat (length s)) x.
Proof.
  intros Hs Ht He Hx. apply (runs_while _ _ mem is_ws); try done. intros q Hq Hc. apply v_go; [done|lia|].
  unfold v_step. unfold is_ws in Hc. rewrite Hc. by destruct (v_st x).
Qed.

(** What follows a parameter: [c] is the character and [f] the state it leads to. *)
Definition stop_char (c : byte) (f : via_state) : Prop := c = chr ";" ∧ f = F_PARAM ∨ c = chr "," ∧ f = F_VIA.

Lemma v_lparam_stop s c f p sv nest ps b : stop_char c f → forallb is_ws s = true → text_at mem p (s ++ [c]) →
  p + Z.of_nat (length s) < end_ →
  ∃ ps', vruns p (VS L_PARAM sv nest ps b []) (p + Z.of_nat (length s) + 1) (VS f sv nest ps' b []).
Proof.
  intros Hcf Hs Ht He. apply text_at_snoc in Ht as [Ht Hc].
  pose proof (v_blanks s p (VS L_PARAM sv nest ps b []) Hs Ht ltac:(lia) eq_refl) as Hr.
  destruct Hcf as [[-> ->]|[-> ->]]; (eexists; eapply runs_trans; [exact Hr|]; apply v_go; [lia|lia|rewrite Hc; reflexivity]).
Qed.

Lemma v_lparam_line s p sv nest ps b : forallb is_ws s = true → text_at mem p (s ++ [13; 10]) → p + Z.of_nat (length s) + 2 < end_ →
  via_next_char (mem (p + Z.of_nat (length s) + 2)) = true →
  closes p (VS L_PARAM sv nest ps b []) (p + Z.of_nat (length s) + 2) L_PARAM (core mem b).
Proof.
  intros Hs Ht He Hc. apply text_at_app in Ht as [Ht Hl].
  eapply closes_run; [by apply (v_blanks s); [..|lia|]|]. by eapply v_line; [lia|done..|].
Qed.

(** The first character of a name calls [parse_via_param]. *)
Lemma v_step_head p x : vname_head (mem p) = true → v_st x = F_PARAM → v_step mem (mem p) p end_ x = v_param mem p end_ x.
Proof.
  intros [Hc Hh]%andb_prop Hx. unfold vname_char, is_ws, is_eol in Hc. unfold v_step, v_newline, v_comment. rewrite Hx.
  apply negb_true_iff in Hh. not_chars Hc. done.
Qed.

Lemma v_param_result p sv nest ps b r : vname_head (mem p) = true →
  parse_via_param mem p end_ F_PARAM sv (ViaParam F_HOST str_null str_null ps 0) = r →
  ∃ bsz, core mem bsz = core mem b ∧
  v_step mem (mem p) p end_ (VS F_PARAM sv nest ps b []) =
    match r with
    | NpErr => VErr []
    | NpStuck => VStuck
    | NpOk tmp y =>
        let t := n_param y in
        let x := VS (n_st y) (n_saved y) nest ps bsz [] in
        match n_st y with
        | F_PARAM => VGo tmp (v_param_start (tmp + 1) (v_map (λ b, add_via_param t (params_upto tmp b)) x))
        | L_PARAM | F_LF | F_CR => VGo tmp (v_map (λ b, add_via_param t (params_upto tmp b)) x)
        | F_VIA => VGo tmp (v_map (λ b, add_via_param t (params_upto (vp_start t + vp_size t) b)) x)
        | END_OF_HEADER => VEndHdr tmp (v_map (λ b, add_via_param t (params_upto (vp_start t + vp_size t) b)) x)
        | _ => VErr []
        end
    end.
Proof.
  intros Hh Hr. rewrite v_step_head by done. unfold v_param. cbn [v_vb v_pstart]. destruct (str_s (vb_params b) =? 0).
  - eexists. split; [|cbn [v_al v_map v_st v_saved v_pstart pkg_alloc]; rewrite Hr; reflexivity]. done.
  - eexists b. split; [done|]. cbn [v_al v_st v_saved v_pstart pkg_alloc]. rewrite Hr. reflexivity.
Qed.

Lemma core_add_param t b k : core mem (add_via_param t (params_upto k b)) = core_add (core mem b) (vp_view mem t).
Proof. unfold core, core_add. cbn. by rewrite fmap_app. Qed.

(** A parameter that is read is added to the body. *)
Lemma v_reads_go name val p sv nest ps b f sv' tmp : vname_head (mem p) = true → p < end_ → p <= tmp →
  match f with F_PARAM | L_PARAM | F_CR | F_VIA => true | _ => false end = true →
  reads mem end_ name val p sv ps (λ t, NpOk tmp (NP f sv' t)) →
  ∃ ps' b', core mem b' = core_add (core mem b) (vtype_of name, name, value_text val) ∧
    vruns p (VS F_PARAM sv nest ps b []) (tmp + 1) (VS f sv' nest ps' b' []).
Proof.
  intros Hh Hp Htmp Hf (t & <- & Hn).
  destruct (v_param_result p sv nest ps b _ Hh (Hn (dist p end_) ltac:(done))) as (bsz & <- & Hs). cbn [n_st n_saved n_param] in Hs.
  destruct f; try discriminate Hf; (eexists _, _; split; [|by apply v_go; [..|exact Hs]]); apply core_add_param.
Qed.

Lemma v_reads_end name val p sv nest ps b tmp : vname_head (mem p) = true → p < end_ →
  reads mem end_ name val p sv ps (λ t, NpOk tmp (NP END_OF_HEADER L_PARAM t)) →
  closes p (VS F_PARAM sv nest ps b []) tmp L_PARAM (core_add (core mem b) (vtype_of name, name, value_text val)).
Proof.
  intros Hh Hp (t & <- & Hn).
  destruct (v_param_result p sv nest ps b _ Hh (Hn (dist p end_) ltac:(done))) as (bsz & <- & Hs). cbn [n_st n_saved n_param] in Hs.
  eexists p, _. split; [by apply v_stop; [..|exact Hs|]|]. split; [done|]. split; [apply core_add_param|done].
Qed.

(** A parameter from the first character of its name, with the blanks after it. *)
Section one.
Context (w : wvparam) (Hwf : vparam_wf w = true) (p : Z) (HA : A <= p).
Let text := wq_name w ++ write_vvalue (wq_val w).
Let e := p + Z.of_nat (length text).
Context (Ht : text_at mem p (text ++ wq_end w)).

Lemma one_parts : match wq_name w with [] => false | c :: t => vname_head c && forallb vname_char t end = true ∧
  vvalue_wf (vtype_of (wq_name w)) (wq_val w) (wq_end w) = true ∧ forallb is_ws (wq_end w) = true ∧ text_at mem p text ∧
  text_at mem e (wq_end w) ∧ vname_head (mem p) = true ∧ p < e.
Proof.
  unfold vparam_wf in Hwf. apply andb_prop in Hwf as [[[_ Hn]%andb_prop Hv]%andb_prop Hs]. apply text_at_app in Ht as Ht'. destruct Ht' as [H1 H2].
  repeat split; try done; unfold e, text in *; destruct (wq_name w) as [|c s]; try done.
  - apply andb_prop in Hn as [Hc _]. cbn [app] in H1. by apply text_at_cons in H1 as [-> _].
  - simpl length. lia.
Qed.

Lemma vvalue_wf_nil ty v s : vvalue_wf ty v s = true → v ≠ VNone → vvalue_wf ty v [] = true.
Proof. by destruct v. Qed.

Definition blank_end : bool := match wq_end w, wq_val w with [], VQuoted _ _ _ => true | [], _ => false | _, _ => true end.

(** After the parameter, either the blanks have been begun or there are none. *)
Lemma one_blank sv nest ps b : blank_end = true → e + Z.of_nat (length (wq_end w)) < end_ →
  ∃ s ps' b', forallb is_ws s = true ∧ text_at mem (e + Z.of_nat (length (wq_end w)) - Z.of_nat (length s)) s ∧
    core mem b' = core_add (core mem b) (wq_view w) ∧
    vruns p (VS F_PARAM sv nest ps b []) (e + Z.of_nat (length (wq_end w)) - Z.of_nat (length s)) (VS L_PARAM sv nest ps' b' []).
Proof.
  unfold blank_end. intros Hcase He. destruct one_parts as (Hn & Hv & Hs & H1 & H2 & Hh & Hpe).
  destruct (wq_val w) as [|a1 a2 a3|a1 a2 a3] eqn:Hval.
  3: { destruct (v_reads_go (wq_name w) (wq_val w) p sv nest ps b L_PARAM sv (e - 1) Hh ltac:(lia) ltac:(lia) eq_refl) as (ps' & b' & Hb & Hr).
       - rewrite Hval. unfold text in *. rewrite ?Hval in *. eapply (reads_quoted mem end_ A HE); try done. lia.
       - exists (wq_end w), ps', b'. split; [done|]. replace (e + Z.of_nat (length (wq_end w)) - Z.of_nat (length (wq_end w))) with e by lia.
         split; [done|]. split; [by rewrite Hb|]. eapply runs_to; [|exact Hr]. lia. }
  all: destruct (wq_end w) as [|c s] eqn:Hend; [done|]; rewrite length_cons in *;
    cbn [forallb] in Hs; apply andb_prop in Hs as [Hc Hs]; apply text_at_cons in H2 as [Hm H2].
  all: destruct (v_reads_go (wq_name w) (wq_val w) p sv nest ps b L_PARAM sv e Hh ltac:(lia) ltac:(lia) eq_refl) as (ps' & b' & Hb & Hr);
    [|exists s, ps', b'; split; [done|]; replace (e + Z.of_nat (S (length s)) - Z.of_nat (length s)) with (e + 1) by lia;
      split; [done|]; split; [by rewrite Hb|done]].
  - unfold e, text in *. rewrite ?Hval in *. cbn [vvalue_wf] in Hv. rewrite bool_decide_eq_false_2, andb_false_r, orb_false_r in Hv by done.
    apply (reads_bare_blank mem end_ A HE); try done; [lia|by rewrite Hm].
  - unfold e, text in *. rewrite ?Hval in *. eapply (reads_token_blank mem end_ A HE); try done; [lia|by rewrite Hm].
Qed.

Lemma one_stop c f sv nest ps b : stop_char c f → mem (e + Z.of_nat (length (wq_end w))) = c → e + Z.of_nat (length (wq_end w)) < end_ →
  ∃ ps' b', core mem b' = core_add (core mem b) (wq_view w) ∧
    vruns p (VS F_PARAM sv nest ps b []) (e + Z.of_nat (length (wq_end w)) + 1) (VS f sv nest ps' b' []).
Proof.
  intros Hcf Hc He. destruct one_parts as (Hn & Hv & Hs & H1 & H2 & Hh & Hpe).
  destruct blank_end eqn:Hcase.
  - destruct (one_blank sv nest ps b Hcase He) as (s & ps1 & b' & Hbs & Hts & Hb & Hr).
    destruct (v_lparam_stop s c f (e + Z.of_nat (length (wq_end w)) - Z.of_nat (length s)) sv nest ps1 b' Hcf Hbs) as (ps2 & Hr2); [apply text_at_snoc; split; [exact Hts|]|..].
    + rewrite <- Hc. f_equal. lia.
    + lia.
    + exists ps2, b'. split; [done|]. eapply runs_trans; [exact Hr|]. eapply runs_to; [|exact Hr2]. lia.
  - unfold blank_end in Hcase. destruct (wq_end w) as [|? ?] eqn:Hend; [|done]. simpl length in *. rewrite Z.add_0_r in *.
    destruct (v_reads_go (wq_name w) (wq_val w) p sv nest ps b f sv e Hh ltac:(lia) ltac:(lia)) as (ps' & b' & Hb & Hr); [| |by exists ps', b'].
    + by destruct Hcf as [[_ ->]|[_ ->]].
    + unfold e, text in *. destruct (wq_val w) as [|a1 a2 a3|a1 a2 a3] eqn:Hval; [| |done].
      * cbn [vvalue_wf] in Hv. rewrite bool_decide_eq_true_2, andb_true_r in Hv by done.
        by apply (reads_bare_stop mem end_ A HE (wq_name w) VNone p sv ps HA Hn H1 He eq_refl c f).
      * eapply (reads_token_stop mem end_ A HE); try done.
Qed.

Lemma one_line sv nest ps b : text_at mem (e + Z.of_nat (length (wq_end w))) [13; 10] → e + Z.of_nat (length (wq_end w)) + 2 < end_ →
  via_next_char (mem (e + Z.of_nat (length (wq_end w)) + 2)) = true →
  closes p (VS F_PARAM sv nest ps b []) (e + Z.of_nat (length (wq_end w)) + 2) L_PARAM (core_add (core mem b) (wq_view w)).
Proof.
  intros Hl He Hc. destruct one_parts as (Hn & Hv & Hs & H1 & H2 & Hh & Hpe). destruct blank_end eqn:Hcase.
  - destruct (one_blank sv nest ps b Hcase ltac:(lia)) as (s & ps1 & b' & Hbs & Hts & <- & Hr). eapply closes_run; [exact Hr|].
    match goal with |- closes ?a _ ?t _ _ => replace t with (a + Z.of_nat (length s) + 2) by lia end. apply v_lparam_line; [done|..].
    + apply text_at_app. split; [done|]. match type of Hl with text_at _ ?a _ => match goal with |- text_at _ ?b _ => replace b with a by lia end end. done.
    + lia.
    + rewrite <- Hc. do 2 f_equal. lia.
  - unfold blank_end in Hcase. destruct (wq_end w) as [|? ?] eqn:Hend; [|done]. simpl length in *. rewrite Z.add_0_r in *.
    apply text_at_cons in Hl as Hl'. destruct Hl' as [H13 H10]. apply text_at_cons in H10 as [H10 _].
    assert (Hcr : reads mem end_ (wq_name w) (wq_val w) p sv ps (λ t, NpOk e (NP F_CR L_PARAM t)) →
      closes p (VS F_PARAM sv nest ps b []) (e + 2) L_PARAM (core_add (core mem b) (wq_view w))).
    { intros Hrd. destruct (v_reads_go (wq_name w) (wq_val w) p sv nest ps b F_CR L_PARAM e Hh ltac:(lia) ltac:(lia) eq_refl Hrd) as (ps' & b' & Hb & Hr).
      eapply closes_run; [exact Hr|]. unfold wq_view. rewrite <- Hb. replace (e + 2) with (e + 1 + 1) in * by lia. apply v_lf; [lia|done|done]. }
    assert (He' : e < end_) by lia. unfold e, text in *. destruct (wq_val w) as [|a1 a2 a3|a1 a2 a3] eqn:Hval; [| |done].
    + cbn [vvalue_wf] in Hv. rewrite bool_decide_eq_true_2, andb_true_r in Hv by done.
      destruct (valueless_type (vtype_of (wq_name w))) eqn:Hty.
      * apply Hcr. by apply (reads_bare_line mem end_ A HE).
      * cbn [orb] in Hv. unfold wq_view. rewrite Hval. apply v_reads_end; [done|lia|]. unfold via_next_char in Hc. apply negb_true_iff, orb_false_iff in Hc as [Hws H0].
        apply (reads_bare_end mem end_ A HE); try done. lia.
    + apply Hcr. by eapply (reads_token_line mem end_ A HE).
Qed.
End one.

(** A list of parameters after a semicolon. *)
Definition write_vparam (w : wvparam) : bytes := chr ";" :: wq_sp w ++ (wq_name w ++ write_vvalue (wq_val w)) ++ wq_end w.

Definition add_all (v : vcore) (ws : list wvparam) : vcore := foldl core_add v (wq_view <$> ws).

(** What a body may be followed by: a comma, or the end of the header. *)
Record finishes (p : Z) (x : vs) (q : Z) (v : vcore) : Prop := {
  fi_comma : q < end_ → mem q = chr "," → ∃ sv nest ps b, core mem b = v ∧ vruns p x (q + 1) (VS F_VIA sv nest ps b []);
  fi_line : q + 2 < end_ → text_at mem q [13; 10] → via_next_char (mem (q + 2)) = true →
    ∃ sv, final_state sv = true ∧ closes p x (q + 2) sv v
}.

Lemma finishes_run p x p1 x1 q v : vruns p x p1 x1 → finishes p1 x1 q v → finishes p x q v.
Proof.
  intros Hr [Hc Hl]. constructor.
  - intros Hq Hm. destruct (Hc Hq Hm) as (sv & nest & ps & b & Hb & Hr2). exists sv, nest, ps, b. split; [done|]. by eapply runs_trans.
  - intros Hq Ht Hn. destruct (Hl Hq Ht Hn) as (sv & Hf & Hcl). exists sv. split; [done|]. by eapply closes_run.
Qed.

Lemma v_params_from ws : ∀ w p sv nest ps b, A <= p → forallb vparam_wf (w :: ws) = true → text_at mem p (tail ((w :: ws) ≫= write_vparam)) →
  p + Z.of_nat (length (tail ((w :: ws) ≫= write_vparam))) < end_ →
  finishes p (VS F_PARAM sv nest ps b []) (p + Z.of_nat (length (tail ((w :: ws) ≫= write_vparam)))) (add_all (core mem b) (w :: ws)).
Proof.
  induction ws as [|w' ws IH]; intros w p sv nest ps b HA Hwf Ht He; cbn [forallb] in Hwf; apply andb_prop in Hwf as [Hw Hwf].
  - cbn [mbind list_bind] in *. rewrite app_nil_r in *. unfold write_vparam in *. cbn [tail] in *.
    apply text_at_app in Ht as [Htsp Ht]. rewrite length_app in *.
    assert (Hsp : forallb is_ws (wq_sp w) = true) by (unfold vparam_wf in Hw; by apply andb_prop in Hw as [[[? _]%andb_prop _]%andb_prop _]).
    eapply finishes_run; [apply (v_blanks (wq_sp w)); [done|done|lia|done]|].
    rewrite length_app in *. set (p1 := p + Z.of_nat (length (wq_sp w))) in *.
    match goal with |- finishes _ _ ?q _ => replace q with (p1 + Z.of_nat (length (wq_name w ++ write_vvalue (wq_val w))) + Z.of_nat (length (wq_end w))) by (unfold p1; lia) end.
    constructor.
    + intros Hq Hc. destruct (one_stop w Hw p1 ltac:(unfold p1; lia) Ht (chr ",") F_VIA sv nest ps b ltac:(by right) Hc Hq) as (ps' & b' & Hb & Hr).
      exists sv, nest, ps', b'. done.
    + intros Hq Hl Hn. exists L_PARAM. split; [done|]. by apply one_line; [|unfold p1; lia|..].
  - change ((w :: w' :: ws) ≫= write_vparam) with (write_vparam w ++ ((w' :: ws) ≫= write_vparam)) in *.
    unfold write_vparam at 1 in Ht. unfold write_vparam at 1 in He. unfold write_vparam at 1. rewrite <- app_comm_cons in *. cbn [tail] in *.
    rewrite <- app_assoc in *. apply text_at_app in Ht as [Htsp Ht]. apply text_at_app in Ht as [Ht Htr]. rewrite length_app in *.
    assert (Hsp : forallb is_ws (wq_sp w) = true) by (unfold vparam_wf in Hw; by apply andb_prop in Hw as [[[? _]%andb_prop _]%andb_prop _]).
    eapply finishes_run; [apply (v_blanks (wq_sp w)); [done|done|lia|done]|].
    rewrite !length_app in *. set (p1 := p + Z.of_nat (length (wq_sp w))) in *. set (rest := (w' :: ws) ≫= write_vparam) in *.
    set (k := p1 + Z.of_nat (length (wq_name w) + length (write_vvalue (wq_val w))) + Z.of_nat (length (wq_end w))).
    assert (Hrest : rest = chr ";" :: tail rest) by (unfold rest; cbn [mbind list_bind]; unfold write_vparam at 1; by rewrite <- app_comm_cons).
    replace (p1 + Z.of_nat (length (wq_name w) + length (write_vvalue (wq_val w)) + length (wq_end w))) with k in Htr by (unfold k; lia).
    rewrite Hrest in Htr. apply text_at_cons in Htr as [Hsemi Htr].
    assert (Hlen : length rest = S (length (tail rest))) by (rewrite Hrest at 1; done).
    destruct (one_stop w Hw p1 ltac:(unfold p1; lia) Ht (chr ";") F_PARAM sv nest ps b ltac:(by left)) as (ps' & b' & Hb & Hr).
    { rewrite length_app. exact Hsemi. } { rewrite length_app. unfold p1; lia. }
    eapply finishes_run; [exact Hr|]. rewrite length_app. fold k. unfold add_all. cbn [fmap list_fmap foldl]. rewrite <- Hb.
    match goal with |- finishes _ _ ?q _ => replace q with (k + 1 + Z.of_nat (length (tail rest))) by (unfold k, p1; lia) end.
    apply (IH w' (k + 1) sv nest ps' b'); [unfold k, p1; lia|done|done|]. fold rest. unfold k, p1. lia.
Qed.

(** A place where the host and the port are complete. *)
Record vready (p : Z) (x : vs) (v : vcore) : Prop := {
  vr_stop c f : stop_char c f → p < end_ → mem p = c → ∃ sv nest ps b, core mem b = v ∧ vruns p x (p + 1) (VS f sv nest ps b []);
  vr_line : p + 2 < end_ → text_at mem p [13; 10] → via_next_char (mem (p + 2)) = true →
    ∃ sv, final_state sv = true ∧ closes p x (p + 2) sv v
}.

Lemma v_params ws p x v : A <= p → forallb vparam_wf ws = true → text_at mem p (ws ≫= write_vparam) →
  p + Z.of_nat (length (ws ≫= write_vparam)) < end_ → vready p x v →
  finishes p x (p + Z.of_nat (length (ws ≫= write_vparam))) (add_all v ws).
Proof.
  intros HA Hwf Ht He [Hs Hl]. destruct ws as [|w ws].
  - simpl length in *. rewrite Z.add_0_r in *. constructor; [|done]. intros Hp Hc. by apply (Hs (chr ",")); [right|..].
  - set (text := (w :: ws) ≫= write_vparam) in *.
    assert (Htext : text = chr ";" :: tail text) by (unfold text; cbn [mbind list_bind]; unfold write_vparam at 1; by rewrite <- app_comm_cons).
    assert (Hlen : length text = S (length (tail text))) by (rewrite Htext at 1; done).
    rewrite Htext in Ht. apply text_at_cons in Ht as [Hsemi Ht].
    destruct (Hs (chr ";") F_PARAM ltac:(by left) ltac:(lia) Hsemi) as (sv & nest & ps & b & <- & Hr).
    eapply finishes_run; [exact Hr|]. replace (p + Z.of_nat (length text)) with (p + 1 + Z.of_nat (length (tail text))) by lia.
    apply v_params_from; [lia|done|done|]. fold text. lia.
Qed.

(** ** Host and port *)

Definition core_host (v : vcore) (h : bytes) : vcore :=
  VCore (vc_name v) (vc_version v) (vc_transport v) (vc_proto v) h (vc_port_set v) (vc_port_str v) (vc_port v) (vc_params v).
Definition core_port (v : vcore) (s : bytes) : vcore :=
  VCore (vc_name v) (vc_version v) (vc_transport v) (vc_proto v) (vc_host v) true s (vc_port v) (vc_params v).

(** The port may follow a place where the host is complete. *)
Definition port_ready (p : Z) (x : vs) (v : vcore) : Prop :=
  p < end_ → mem p = chr ":" → ∃ sv nest ps b, core mem b = v ∧ vb_port_str b = str_null ∧ vruns p x (p + 1) (VS F_PORT sv nest ps b []).

Ltac v_ready_tac H := apply v_go; [done|lia|rewrite H; reflexivity].

Lemma lport_ready p sv nest ps b : vb_port_str b = str_null →
  vready p (VS L_PORT sv nest ps b []) (core mem b) ∧ port_ready p (VS L_PORT sv nest ps b []) (core mem b).
Proof.
  intros Hport. split; [constructor|].
  - intros c f Hcf Hp Hc. destruct Hcf as [[-> ->]|[-> ->]]; eexists _, _, _, b; (split; [done|]); v_ready_tac Hc.
  - intros Hp Ht Hc. exists L_PORT. split; [done|]. by eapply v_line.
  - intros Hp Hc. eexists _, _, _, b. split; [done|]. split; [done|]. v_ready_tac Hc.
Qed.

Lemma phost_ready p sv nest ps b : vb_port_str b = str_null →
  vready p (VS P_HOST sv nest ps b []) (core mem (host_upto p b)) ∧ port_ready p (VS P_HOST sv nest ps b []) (core mem (host_upto p b)).
Proof.
  intros Hport. split; [constructor|].
  - intros c f Hcf Hp Hc. destruct Hcf as [[-> ->]|[-> ->]]; eexists _, _, _, (host_upto p b); (split; [done|]); v_ready_tac Hc.
  - intros Hp Ht Hc. exists L_PORT. split; [done|]. by eapply v_line.
  - intros Hp Hc. eexists _, _, _, (host_upto p b). split; [done|]. split; [done|]. v_ready_tac Hc.
Qed.

Lemma lparam_ready p sv nest ps b : vready p (VS L_PARAM sv nest ps b []) (core mem b).
Proof.
  constructor.
  - intros c f Hcf Hp Hc. destruct Hcf as [[-> ->]|[-> ->]]; eexists _, _, _, b; (split; [done|]); v_ready_tac Hc.
  - intros Hp Ht Hc. exists L_PARAM. split; [done|]. by eapply v_line.
Qed.

Lemma pport_ready p sv nest ps b : vready p (VS P_PORT sv nest ps b []) (core mem (port_upto p b)).
Proof.
  constructor.
  - intros c f Hcf Hp Hc. destruct Hcf as [[-> ->]|[-> ->]]; eexists _, _, _, (port_upto p b); (split; [done|]); v_ready_tac Hc.
  - intros Hp Ht Hc. exists L_PARAM. split; [done|]. by eapply v_line.
Qed.

(** A host name, or an IPv6 reference in brackets. *)
Inductive whost := WName (s : bytes) | WIp6 (s : bytes).
Definition write_host (h : whost) : bytes := match h with WName s => s | WIp6 s => chr "[" :: s ++ [chr "]"] end.
Definition host_wf (h : whost) : bool :=
  match h with
  | WName s => negb (bool_decide (s = [])) && forallb host_char s
  | WIp6 s => negb (bool_decide (s = [])) && forallb ip6_char s
  end.

(** Characters of hosts and ports are none of those with a meaning of their own. *)
Lemma plain_step c p x : host_char c || port_char c = true → v_step mem c p end_ x =
  match v_st x with
  | F_HOST =>
      if host_char c then VGo p (v_goto P_HOST (v_map (λ b, set_vhost b (at_ (vb_host b) p)) x)) else VErr (v_al x)
  | P_HOST => if host_char c then VGo p x else VErr (v_al x)
  | F_PORT =>
      if port_char c then VGo p (v_goto P_PORT (v_map (λ b, set_port_str b (at_ (vb_port_str b) p)) x)) else VErr (v_al x)
  | P_PORT => if port_char c then VGo p x else VErr (v_al x)
  | F_PARAM => v_param mem p end_ x
  | P_PARAM => VGo p x
  | F_VIA => VNext x
  | F_IP6HOST => if ip6_char c then VGo p (v_goto P_IP6HOST x) else VErr (v_al x)
  | P_IP6HOST => if ip6_char c then VGo p x else VErr (v_al x)
  | _ => v_comment p x (VErr (v_al x))
  end.
Proof.
  intros Hc. set (special := [32; 9; 10; 13; chr ":"; chr ";"; chr ","; chr "("; chr ")"; chr "["; chr "]"; 0]).
  assert (Hsp : Forall (λ k, host_char k || port_char k = false) special) by (repeat constructor).
  assert (Hne : ∀ k, k ∈ special → (c =? k) = false).
  { intros k Hk. apply Z.eqb_neq. intros ->. rewrite Forall_forall in Hsp. rewrite (Hsp k Hk) in Hc. done. }
  unfold v_step. rewrite !Hne by (unfold special; set_solver). done.
Qed.

(** A host that is set, or whose end has been reached, and the blanks after it. *)
Lemma host_blanks v s e st sv nest ps b : forallb is_ws s = true → text_at mem e s → e + Z.of_nat (length s) < end_ → vb_port_str b = str_null →
  st = L_PORT ∧ core mem b = v ∨ st = P_HOST ∧ core mem (host_upto e b) = v →
  ∃ x, vruns e (VS st sv nest ps b []) (e + Z.of_nat (length s)) x ∧ vready (e + Z.of_nat (length s)) x v ∧ port_ready (e + Z.of_nat (length s)) x v.
Proof.
  intros Hs Hts He Hp' Hst. destruct s as [|c s].
  - simpl length. rewrite Z.add_0_r. eexists. split; [apply runs_refl|].
    destruct Hst as [[-> <-]|[-> <-]]; [by apply lport_ready|by apply phost_ready].
  - cbn [forallb] in Hs. apply andb_prop in Hs as [Hc Hs]. apply text_at_cons in Hts as [Hm Hts]. rewrite length_cons in *.
    assert (Hl : ∃ b2, core mem b2 = v ∧ vb_port_str b2 = str_null ∧ vruns e (VS st sv nest ps b []) (e + 1) (VS L_PORT sv nest ps b2 [])).
    { destruct Hst as [[-> Hc']|[-> Hc']]; [exists b|exists (host_upto e b)]; (split; [done|]); (split; [done|]);
        (apply v_go; [lia|lia|]); rewrite Hm; unfold v_step; unfold is_ws in Hc; rewrite Hc; done. }
    destruct Hl as (b2 & <- & Hp2 & Hr2). eexists. split.
    + eapply runs_trans; [exact Hr2|]. eapply runs_to; [|apply (v_blanks s); [done|done|lia|done]]. lia.
    + by apply lport_ready.
Qed.

(** The host with the blanks after it. *)
Lemma v_host h s p sv nest ps b : A <= p → host_wf h = true → forallb is_ws s = true → vb_host b = str_null → vb_port_str b = str_null →
  text_at mem p (write_host h ++ s) → p + Z.of_nat (length (write_host h ++ s)) < end_ →
  ∃ x, vruns p (VS F_HOST sv nest ps b []) (p + Z.of_nat (length (write_host h ++ s))) x ∧
    vready (p + Z.of_nat (length (write_host h ++ s))) x (core_host (core mem b) (write_host h)) ∧
    port_ready (p + Z.of_nat (length (write_host h ++ s))) x (core_host (core mem b) (write_host h)).
Proof.
  intros HA Hwf Hs Hh Hport Ht He. apply text_at_app in Ht as [Ht Hts]. rewrite length_app in *.
  set (e := p + Z.of_nat (length (write_host h))) in *.
  assert (Hset : ∀ st b', st = L_PORT ∧ core mem b' = core_host (core mem b) (write_host h) ∨
      st = P_HOST ∧ core mem (host_upto e b') = core_host (core mem b) (write_host h) → vb_port_str b' = str_null →
    vruns p (VS F_HOST sv nest ps b []) e (VS st sv nest ps b' []) →
    ∃ x, vruns p (VS F_HOST sv nest ps b []) (e + Z.of_nat (length s)) x ∧
      vready (e + Z.of_nat (length s)) x (core_host (core mem b) (write_host h)) ∧
      port_ready (e + Z.of_nat (length s)) x (core_host (core mem b) (write_host h))).
  { intros st b' Hst Hp' Hr. destruct (host_blanks _ s e st sv nest ps b' Hs Hts ltac:(unfold e; lia) Hp' Hst) as (x & Hx & Hready).
    exists x. split; [by eapply runs_trans|done]. }
  replace (p + Z.of_nat (length (write_host h) + length s)) with (e + Z.of_nat (length s)) in * by (unfold e; lia).
  destruct h as [t|t]; cbn [write_host host_wf] in *; apply andb_prop in Hwf as [Hne Hwf].
  - destruct t as [|c t]; [done|]. cbn [forallb] in Hwf. apply andb_prop in Hwf as [Hc Hwf]. apply text_at_cons in Ht as Ht'. destruct Ht' as [Hm Ht'].
    apply (Hset P_HOST (set_vhost b (at_ (vb_host b) p))); [right; split; [done|]|done|].
    + unfold core, core_host. cbn. f_equal. rewrite Hh. apply to_text_upto; [done|done|unfold e in *; lia].
    + eapply runs_trans; [apply (v_go _ _ p); [unfold e in *; rewrite length_cons in *; lia|lia|]|].
      { rewrite Hm, plain_step by (by rewrite Hc). cbn [v_st]. rewrite Hc. reflexivity. }
      unfold e in *. rewrite length_cons in *.
      eapply runs_to; [|apply (runs_while _ _ mem host_char _ t); [|done|done|lia]]; [lia|].
      intros q Hq Hcq. apply v_go; [done|lia|]. rewrite plain_step by (by rewrite Hcq). cbn. by rewrite Hcq.
  - apply text_at_cons in Ht as Ht'. destruct Ht' as [Hm Ht']. apply text_at_snoc in Ht' as [Htt Hcl].
    destruct t as [|c t]; [done|]. cbn [forallb] in Hwf. apply andb_prop in Hwf as [Hc Hwf]. apply text_at_cons in Htt as [Hmc Htt].
    assert (Hlen : e = p + 1 + Z.of_nat (length (c :: t)) + 1) by (unfold e; simpl length; rewrite length_app; simpl length; lia).
    simpl length in Hlen, Hcl.
    apply (Hset L_PORT (set_vhost b (Str p (i32 (e - 1 - p + 1))))); [left; split; [done|]|done|].
    + unfold core, core_host. cbn. f_equal. apply to_text_str; [done|]. rewrite i32_fits by lia. simpl length. rewrite length_app. simpl length. lia.
    + assert (Hip : ∀ q d nd, q < end_ → mem q = d → ip6_char d = true →
        vruns q (VS nd sv nest ps (set_vhost b (at_ (vb_host b) p)) []) (q + 1) (VS P_IP6HOST sv nest ps (set_vhost b (at_ (vb_host b) p)) []) ∨ nd ≠ F_IP6HOST ∧ nd ≠ P_IP6HOST).
      { intros q d nd Hq Hd Hcd. destruct (decide (nd = F_IP6HOST ∨ nd = P_IP6HOST)) as [Hnd|]; [left|right; tauto].
        apply v_go; [done|lia|]. rewrite Hd. destruct (Z.eqb_spec d (chr ":")) as [->|Hn]; [by destruct Hnd as [->| ->]|].
        rewrite plain_step.
        - destruct Hnd as [->| ->]; cbn [v_st]; by rewrite Hcd.
        - unfold ip6_char in Hcd. unfold host_char, port_char. rewrite (proj2 (Z.eqb_neq _ _) Hn) in Hcd. lia. }
      eapply runs_trans; [apply (v_go _ _ p (VS F_IP6HOST sv nest ps (set_vhost b (at_ (vb_host b) p)) [])); [lia|lia|by rewrite Hm]|].
      eapply runs_trans; [by destruct (Hip (p + 1) c F_IP6HOST ltac:(lia) Hmc Hc) as [Hr|[? _]]; [exact Hr|]|].
      eapply runs_trans; [apply (runs_while _ _ mem ip6_char _ t); [|done|done|lia]|].
      { intros q Hq Hcq. by destruct (Hip q _ P_IP6HOST Hq eq_refl Hcq) as [Hr|[_ ?]]. }
      replace (p + 1 + 1 + Z.of_nat (length t)) with (e - 1) by lia. replace (p + 1 + Z.of_nat (S (length t))) with (e - 1) in Hcl by lia.
      eapply runs_to; [|apply (v_go _ _ (e - 1)); [lia|lia|rewrite Hcl; reflexivity]]. lia.
Qed.

(** The port with the blanks around it. *)
Lemma v_port s1 ds s2 p sv nest ps b : A <= p → 0 < A → forallb is_ws s1 = true → ds ≠ [] → forallb port_char ds = true → forallb is_ws s2 = true →
  vb_port_str b = str_null → text_at mem p (s1 ++ ds ++ s2) → p + Z.of_nat (length (s1 ++ ds ++ s2)) < end_ →
  ∃ x, vruns p (VS F_PORT sv nest ps b []) (p + Z.of_nat (length (s1 ++ ds ++ s2))) x ∧
    vready (p + Z.of_nat (length (s1 ++ ds ++ s2))) x (core_port (core mem b) ds).
Proof.
  intros HA HA0 H1 Hne Hds H2 Hport Ht He. apply text_at_app in Ht as [Ht1 Ht]. apply text_at_app in Ht as [Htd Ht2]. rewrite !length_app in *.
  set (a := p + Z.of_nat (length s1)) in *. set (e := a + Z.of_nat (length ds)) in *.
  replace (p + Z.of_nat (length s1 + (length ds + length s2))) with (e + Z.of_nat (length s2)) in * by (unfold e, a; lia).
  set (b' := set_port_str b (at_ (vb_port_str b) a)).
  assert (Hcore : core mem (port_upto e b') = core_port (core mem b) ds).
  { unfold core, core_port, b'. cbn. f_equal; [unfold a in *; lia|]. rewrite Hport. apply to_text_upto; [done|done|unfold e, a in *; lia]. }
  assert (Hr : vruns p (VS F_PORT sv nest ps b []) e (VS P_PORT sv nest ps b' [])).
  { destruct ds as [|c ds]; [done|]. cbn [forallb] in Hds. apply andb_prop in Hds as [Hc Hds]. apply text_at_cons in Htd as [Hm Htd]. unfold e in *. rewrite length_cons in *.
    eapply runs_trans; [apply (v_blanks s1); [done|done|unfold a in *; lia|done]|]. fold a.
    eapply runs_trans; [apply (v_go _ _ a (VS P_PORT sv nest ps b' [])); [lia|lia|]|].
    { rewrite Hm, plain_step by (by rewrite Hc, orb_true_r). cbn [v_st]. by rewrite Hc. }
    eapply runs_to; [|apply (runs_while _ _ mem port_char _ ds); [|done|done|lia]]; [lia|].
    intros q Hq Hcq. apply v_go; [done|lia|]. rewrite plain_step by (by rewrite Hcq, orb_true_r). cbn. by rewrite Hcq. }
  destruct s2 as [|c s2].
  - simpl length in *. rewrite Z.add_0_r in *. eexists. split; [exact Hr|]. rewrite <- Hcore. apply pport_ready.
  - cbn [forallb] in H2. apply andb_prop in H2 as [Hc H2]. apply text_at_cons in Ht2 as [Hm Ht2]. rewrite length_cons in *.
    eexists. split.
    + eapply runs_trans; [exact Hr|]. eapply runs_trans; [apply (v_go e _ e (VS L_PARAM sv nest ps (port_upto e b') [])); [lia|lia|]|].
      { rewrite Hm. unfold v_step. unfold is_ws in Hc. by rewrite Hc. }
      eapply runs_to; [|apply (v_blanks s2); [done|done|lia|done]]. lia.
    + rewrite <- Hcore. apply lparam_ready.
Qed.
End body.

(** ** The protocol *)

Section protocol.
Context (mem : Z → byte) (end_ : Z) (A : Z) (HE : end_ - A <= INT_MAX).

Abbreviation vends := (ends (λ n p x, v_loop mem n p end_ x) end_).
Abbreviation wruns := (runs (λ n p x, w_loop mem n p end_ x) end_).
Abbreviation wends := (ends (λ n p x, w_loop mem n p end_ x) end_).

Lemma w_go p x y : p < end_ → w_step (mem p) p x = VGo p y → wruns p x (p + 1) y.
Proof.
  intros Hp Hs n Hn. destruct n as [|n]; [unfold dist in Hn; lia|]. exists n.
  split; [unfold dist in *; lia|]. cbn [w_loop]. by rewrite (proj2 (Z.ltb_lt _ _) Hp), Hs.
Qed.

Lemma w_main p x y r : p < end_ → w_step (mem p) p x = VMain y → vends (p + 1) (v_nesting 0 y) r → wends p x r.
Proof.
  intros Hp Hs He n Hn. destruct n as [|n]; [unfold dist in Hn; lia|].
  cbn [w_loop]. rewrite (proj2 (Z.ltb_lt _ _) Hp), Hs. by apply He.
Qed.

Lemma w_blanks s p x : forallb is_ws s = true → text_at mem p s → p + Z.of_nat (length s) <= end_ →
  match v_st x with F_SIP | L_VER | F_VER | L_PROTO | F_PROTO => true | _ => false end = true → wruns p x (p + Z.of_nat (length s)) x.
Proof.
  intros Hs Ht He Hx. apply (runs_while _ _ mem is_ws); try done. intros q Hq Hc. apply w_go; [done|].
  unfold w_step. unfold is_ws in Hc. rewrite Hc. by destruct (v_st x).
Qed.

(** The letters of "SIP", in any case, and the slash after it. *)
Definition sip_name (s : bytes) : bool := bool_decide (lower s = bs "sip").

Lemma lower_letter c k : tolower c = k → 97 <= k <= 122 → (c = k ∨ c = k - 32).
Proof. unfold tolower. case_match; lia. Qed.

Lemma w_sip name p b : sip_name name = true → text_at mem p name → p + 3 <= end_ → vb_name b = str_null →
  wruns p (VS F_SIP F_HOST 0 0 b []) (p + 3) (VS FIN_SIP F_HOST 0 0 (set_name b (Str p 0)) []).
Proof.
  unfold sip_name, lower. intros Hn%bool_decide_eq_true Ht He Hb. change (bs "sip") with [115; 105; 112] in Hn.
  destruct name as [|c1 [|c2 [|c3 [|]]]]; try discriminate Hn. injection Hn as H1 H2 H3.
  apply text_at_cons in Ht as [Hm1 Ht]. apply text_at_cons in Ht as [Hm2 Ht]. apply text_at_cons in Ht as [Hm3 _].
  eapply runs_trans; [apply (w_go p _ (VS SIP1 F_HOST 0 0 (set_name b (Str p 0)) [])); [lia|]|].
  { replace (Str p 0) with (at_ (vb_name b) p) by (by rewrite Hb). rewrite Hm1. apply lower_letter in H1 as [->| ->]; [done|done|lia]. }
  eapply runs_trans; [apply (w_go (p + 1) _ (VS SIP2 F_HOST 0 0 (set_name b (Str p 0)) [])); [lia|]|].
  { rewrite Hm2. apply lower_letter in H2 as [->| ->]; [done|done|lia]. }
  eapply runs_to; [|apply (w_go (p + 1 + 1)); [lia|]]; [lia|].
  rewrite Hm3. apply lower_letter in H3 as [->| ->]; [done|done|lia].
Qed.

Lemma w_version p b : text_at mem p (bs "2.0") → p + 3 <= end_ → vb_version b = str_null →
  wruns p (VS F_VER F_HOST 0 0 b []) (p + 3) (VS FIN_VER F_HOST 0 0 (set_version b (Str p 0)) []).
Proof.
  intros Ht He Hb. apply text_at_cons in Ht as [Hm1 Ht]. apply text_at_cons in Ht as [Hm2 Ht]. apply text_at_cons in Ht as [Hm3 _].
  eapply runs_trans; [apply (w_go p _ (VS VER1 F_HOST 0 0 (set_version b (Str p 0)) [])); [lia|]|].
  { replace (Str p 0) with (at_ (vb_version b) p) by (by rewrite Hb). by rewrite Hm1. }
  eapply runs_trans; [apply (w_go (p + 1) _ (VS VER2 F_HOST 0 0 (set_version b (Str p 0)) [])); [lia|by rewrite Hm2]|].
  eapply runs_to; [|apply (w_go (p + 1 + 1)); [lia|by rewrite Hm3]]. lia.
Qed.

(** A slash with blanks around it, after a word that ends at [p]. *)
Lemma w_slash s1 s2 p b q q1 q2 b' : (q, q1, q2, b') = (FIN_SIP, L_VER, F_VER, set_name b (upto (vb_name b) p)) ∨
    (q, q1, q2, b') = (FIN_VER, L_PROTO, F_PROTO, set_version b (upto (vb_version b) p)) →
  forallb is_ws s1 = true → forallb is_ws s2 = true → text_at mem p (s1 ++ chr "/" :: s2) → p + Z.of_nat (length s1 + S (length s2)) <= end_ →
  wruns p (VS q F_HOST 0 0 b []) (p + Z.of_nat (length s1 + S (length s2))) (VS q2 F_HOST 0 0 b' []).
Proof.
  intros Hq H1 H2 Ht He. apply text_at_app in Ht as [Ht1 Ht]. apply text_at_cons in Ht as [Hsl Ht2].
  replace (p + Z.of_nat (length s1 + S (length s2))) with (p + Z.of_nat (length s1) + 1 + Z.of_nat (length s2)) by lia.
  eapply runs_trans; [|apply (w_blanks s2); [done|done|lia|by destruct Hq as [[= -> -> -> ->]|[= -> -> -> ->]]]].
  destruct s1 as [|c s1].
  - simpl length in *. rewrite Z.add_0_r in *. apply w_go; [lia|]. rewrite Hsl. by destruct Hq as [[= -> -> -> ->]|[= -> -> -> ->]].
  - cbn [forallb] in H1. apply andb_prop in H1 as [Hc H1]. apply text_at_cons in Ht1 as [Hm Ht1]. rewrite length_cons in *.
    eapply runs_trans; [apply (w_go p _ (VS q1 F_HOST 0 0 b' [])); [lia|]|].
    { rewrite Hm. unfold w_step. unfold is_ws in Hc. rewrite Hc. by destruct Hq as [[= -> -> -> ->]|[= -> -> -> ->]]. }
    eapply runs_trans; [apply (w_blanks s1); [done|done|lia|by destruct Hq as [[= -> -> -> ->]|[= -> -> -> ->]]]|].
    replace (p + 1 + Z.of_nat (length s1)) with (p + Z.of_nat (S (length s1))) by lia.
    apply w_go; [lia|]. rewrite Hsl. by destruct Hq as [[= -> -> -> ->]|[= -> -> -> ->]].
Qed.

(** The transport. *)
Definition word_char (c : byte) : bool := negb (is_ws c || is_eol c || (c =? chr "/")).
Definition transport_wf (t : bytes) : bool :=
  match t with [] => false | c :: _ => bool_decide (word_first c ≠ None) end && forallb word_char t && bool_decide (transport_of t ≠ None).

Definition in_transport (q : via_state) : bool := in_proto q || bool_decide (q = OTHER_PROTO).

Lemma w_step_letter c p q b : word_char c = true → in_transport q = true →
  w_step c p (VS q F_HOST 0 0 b []) = VGo p (VS (proto_next c q) F_HOST 0 0 b []) ∧ in_transport (proto_next c q) = true.
Proof.
  intros Hc Hq. unfold word_char, is_ws, is_eol in Hc. unfold proto_next. split.
  - unfold w_step. cbn [v_st]. not_chars Hc. destruct (word_next c q) as [q'|] eqn:Hn.
    + destruct q; try discriminate Hq; try (by rewrite Hn). exfalso. revert Hn. unfold word_next. cbv zeta. by repeat case_match.
    + destruct q; try discriminate Hq; rewrite ?Hn; done.
  - destruct (word_next c q) as [q'|] eqn:Hn; [|done]. unfold in_transport in *. destruct (in_proto q) eqn:Hin.
    + cbn [default from_option id]. by rewrite (proto_next_in _ _ _ Hn Hin).
    + cbn [orb] in Hq. apply bool_decide_eq_true in Hq as ->. revert Hn. unfold word_next. cbv zeta. by repeat case_match.
Qed.

Lemma w_letters s : ∀ p q b, forallb word_char s = true → in_transport q = true → text_at mem p s → p + Z.of_nat (length s) <= end_ →
  wruns p (VS q F_HOST 0 0 b []) (p + Z.of_nat (length s)) (VS (foldl (λ q c, proto_next c q) q s) F_HOST 0 0 b []) ∧
  in_transport (foldl (λ q c, proto_next c q) q s) = true.
Proof.
  induction s as [|c s IH]; intros p q b Hs Hq Ht He.
  - replace (p + Z.of_nat (length [])) with p by (simpl; lia). split; [apply runs_refl|done].
  - cbn [forallb] in Hs. apply andb_prop in Hs as [Hc Hs]. apply text_at_cons in Ht as [Hm Ht]. rewrite length_cons in *.
    destruct (w_step_letter c p q b Hc Hq) as [Hstep Hq']. destruct (IH (p + 1) (proto_next c q) b Hs Hq' Ht ltac:(lia)) as [Hr Hin].
    split; [|done]. eapply runs_trans; [apply w_go; [lia|rewrite Hm; exact Hstep]|]. eapply runs_to; [|exact Hr]. lia.
Qed.

Lemma w_transport t p b : transport_wf t = true → text_at mem p t → p + Z.of_nat (length t) <= end_ → vb_transport b = str_null →
  wruns p (VS F_PROTO F_HOST 0 0 b []) (p + Z.of_nat (length t)) (VS (proto_state t) F_HOST 0 0 (set_transport b (Str p 0)) []) ∧
  in_transport (proto_state t) = true.
Proof.
  unfold transport_wf. destruct t as [|c t]; [done|]. intros [[Hf Hs]%andb_prop _]%andb_prop Ht He Hb.
  apply bool_decide_eq_true in Hf. destruct (word_first c) as [q|] eqn:Hq; [|done].
  cbn [forallb] in Hs. apply andb_prop in Hs as [Hc Hs]. apply text_at_cons in Ht as [Hm Ht]. rewrite length_cons in *.
  destruct (w_letters t (p + 1) q (set_transport b (Str p 0)) Hs) as [Hr Hin]; [by eapply proto_first_in|done|lia|].
  unfold proto_state. cbn [word_state]. unfold proto_first. rewrite Hq. cbn [default from_option]. split; [|done].
  eapply runs_trans; [apply w_go; [lia|]|eapply runs_to; [|exact Hr]; lia].
  replace (Str p 0) with (at_ (vb_transport b) p) by (by rewrite Hb). rewrite Hm. unfold word_char, is_ws, is_eol in Hc. unfold w_step. cbn [v_st].
  not_chars Hc. by rewrite Hq.
Qed.

(** The blank after the transport. *)
Lemma w_step_fin c p q b : is_ws c = true → in_transport q = true → w_step c p (VS q F_HOST 0 0 b []) =
  match fin_proto true false q with
  | Some n => VMain (VS F_HOST F_HOST 0 0 (set_vproto (set_transport b (upto (vb_transport b) p)) n) [])
  | None => VErr []
  end.
Proof. intros Hc Hq. unfold w_step. unfold is_ws in Hc. rewrite Hc. by destruct q. Qed.

(** ** A body *)

Record wvia := WVia {
  wv_name : bytes; wv_s1 : bytes; wv_s2 : bytes; wv_s3 : bytes; wv_s4 : bytes; wv_transport : bytes; wv_s5 : bytes;
  wv_host : whost; wv_s6 : bytes; wv_port : option (bytes * bytes * bytes); wv_params : list wvparam }.

Definition write_port (o : option (bytes * bytes * bytes)) : bytes :=
  match o with Some (s1, ds, s2) => chr ":" :: s1 ++ ds ++ s2 | None => [] end.
Definition write_proto (w : wvia) : bytes :=
  wv_name w ++ (wv_s1 w ++ chr "/" :: wv_s2 w) ++ bs "2.0" ++ (wv_s3 w ++ chr "/" :: wv_s4 w) ++ wv_transport w.
Definition write_rest (w : wvia) : bytes :=
  (write_host (wv_host w) ++ wv_s6 w) ++ write_port (wv_port w) ++ (wv_params w ≫= write_vparam).
Definition write_via (w : wvia) : bytes := write_proto w ++ wv_s5 w ++ write_rest w.

Definition port_wf (o : option (bytes * bytes * bytes)) : bool :=
  match o with
  | None => true
  | Some (s1, ds, s2) => forallb is_ws s1 && negb (bool_decide (ds = [])) && forallb is_digit ds && forallb is_ws s2 &&
      (length ds <=? 5)%nat && (dec_from 0 ds <=? USHRT_MAX)
  end.
Definition via_wf (w : wvia) : bool :=
  sip_name (wv_name w) && forallb is_ws (wv_s1 w) && forallb is_ws (wv_s2 w) && forallb is_ws (wv_s3 w) && forallb is_ws (wv_s4 w) &&
  transport_wf (wv_transport w) && negb (bool_decide (wv_s5 w = [])) && forallb is_ws (wv_s5 w) && host_wf (wv_host w) && forallb is_ws (wv_s6 w) &&
  port_wf (wv_port w) && forallb vparam_wf (wv_params w).

Definition w_core (w : wvia) (n : Z) : vcore :=
  VCore (wv_name w) (bs "2.0") (wv_transport w) (default 0 (transport_of (wv_transport w))) (write_host (wv_host w))
    (match wv_port w with Some _ => true | None => false end) (match wv_port w with Some (_, ds, _) => ds | None => [] end) n
    (wq_view <$> wv_params w).

Lemma add_all_params ws : ∀ v, add_all v ws = VCore (vc_name v) (vc_version v) (vc_transport v) (vc_proto v) (vc_host v) (vc_port_set v)
  (vc_port_str v) (vc_port v) (vc_params v ++ (wq_view <$> ws)).
Proof.
  induction ws as [|w ws IH]; intros [nm ver tr pr h ps pstr n par]; unfold add_all in *; cbn [fmap list_fmap foldl]; cbn; [by rewrite app_nil_r|].
  rewrite IH. cbn. by rewrite <- app_assoc.
Qed.

(** The port a body is given at its end. *)
Definition port_num (w : wvia) : Z := match wv_port w with Some (_, ds, _) => dec_from 0 ds | None => 0 end.

Context (HA0 : 0 < A).

(** The body before its host. *)
Definition bare_core (w : wvia) : vcore :=
  VCore (wv_name w) (bs "2.0") (wv_transport w) (default 0 (transport_of (wv_transport w))) [] false [] 0 [].

Lemma v_rest w p sv b : A <= p → via_wf w = true → vb_host b = str_null → vb_port_str b = str_null → core mem b = bare_core w →
  text_at mem p (write_rest w) → p + Z.of_nat (length (write_rest w)) < end_ →
  finishes mem end_ p (VS F_HOST sv 0 0 b []) (p + Z.of_nat (length (write_rest w))) (w_core w 0).
Proof.
  intros HA Hwf Hh Hport Hcore Ht He. unfold via_wf in Hwf.
  apply andb_prop in Hwf as [[[[_ Hhost]%andb_prop Hs6]%andb_prop Hpo]%andb_prop Hps].
  unfold write_rest in *. apply text_at_app in Ht as [Hth Ht]. apply text_at_app in Ht as [Htpo Htps].
  rewrite length_app in He |- *. rewrite (length_app (write_port _)) in He |- *.
  destruct (v_host mem end_ A HE (wv_host w) (wv_s6 w) p sv 0 0 b HA Hhost Hs6 Hh Hport Hth ltac:(lia)) as (x & Hr & Hready & Hpr).
  set (e := p + Z.of_nat (length (write_host (wv_host w) ++ wv_s6 w))) in *. eapply finishes_run; [exact Hr|].
  assert (Hfin : ∀ x' v, vready mem end_ (e + Z.of_nat (length (write_port (wv_port w)))) x' v →
    runs (λ n p x, v_loop mem n p end_ x) end_ e x (e + Z.of_nat (length (write_port (wv_port w)))) x' →
    add_all v (wv_params w) = w_core w 0 →
    finishes mem end_ e x (p + Z.of_nat (length (write_host (wv_host w) ++ wv_s6 w) + (length (write_port (wv_port w)) + length (wv_params w ≫= write_vparam)))) (w_core w 0)).
  { intros x' v Hv Hrx <-. eapply finishes_run; [exact Hrx|].
    match goal with |- finishes _ _ ?a _ ?q _ => replace q with (a + Z.of_nat (length (wv_params w ≫= write_vparam))) by (unfold e; lia) end.
    apply (v_params mem end_ A HE); [unfold e; lia|done|done|unfold e; lia|done]. }
  destruct (wv_port w) as [[[s1 ds] s2]|] eqn:Hw; cbn [write_port] in *.
  - unfold port_wf in Hpo. apply andb_prop in Hpo as [[[[[H1 Hne]%andb_prop Hds]%andb_prop H2]%andb_prop _]%andb_prop _].
    apply negb_true_iff, bool_decide_eq_false in Hne. apply text_at_cons in Htpo as [Hcolon Htpo]. rewrite length_cons in *.
    destruct (Hpr ltac:(unfold e; lia) Hcolon) as (sv1 & nest & ps & b1 & Hb1 & Hp1 & Hr1).
    destruct (v_port mem end_ A HE s1 ds s2 (e + 1) sv1 nest ps b1 ltac:(unfold e; lia) HA0 H1 Hne Hds H2 Hp1 Htpo ltac:(unfold e; lia)) as (x2 & Hr2 & Hready2).
    apply (Hfin x2 (core_port (core mem b1) ds)).
    + match goal with |- vready _ _ ?a _ _ => replace a with (e + 1 + Z.of_nat (length (s1 ++ ds ++ s2))) by lia end. exact Hready2.
    + eapply runs_trans; [exact Hr1|]. eapply runs_to; [|exact Hr2]. lia.
    + rewrite add_all_params, Hb1, Hcore. unfold w_core. by rewrite Hw.
  - simpl length in *. rewrite Z.add_0_r in *. apply (Hfin x _ Hready); [apply runs_refl|].
    rewrite add_all_params, Hcore. unfold w_core. by rewrite Hw.
Qed.

(** The protocol, and what follows it. *)
Lemma w_proto w p : A <= p → via_wf w = true → text_at mem p (write_proto w ++ wv_s5 w) →
  let e := p + Z.of_nat (length (write_proto w ++ wv_s5 w)) in
  e <= end_ → ∃ b, vb_host b = str_null ∧ vb_port_str b = str_null ∧ core mem b = bare_core w ∧
    ∀ r, vends e (VS F_HOST F_HOST 0 0 b []) r → wends p (VS F_SIP F_HOST 0 0 via_zero []) r.
Proof.
  intros HA Hwf Ht e He. unfold via_wf in Hwf.
  apply andb_prop in Hwf as [[[[[[[[[[[Hn H1]%andb_prop H2]%andb_prop H3]%andb_prop H4]%andb_prop Htr]%andb_prop Hne]%andb_prop H5]%andb_prop _]%andb_prop _]%andb_prop _]%andb_prop _].
  apply negb_true_iff, bool_decide_eq_false in Hne. unfold write_proto in Ht. rewrite <- !(app_assoc _ _ (wv_s5 w)) in Ht.
  apply text_at_app in Ht as [Htn Ht]. apply text_at_app in Ht as [Ht1 Ht]. apply text_at_app in Ht as [Htv Ht]. apply text_at_app in Ht as [Ht3 Ht].
  apply text_at_app in Ht as [Htt Ht5].
  assert (Hln : length (wv_name w) = 3%nat).
  { unfold sip_name, lower in Hn. apply bool_decide_eq_true, (f_equal length) in Hn. rewrite length_fmap in Hn. exact Hn. }
  assert (Hlen : e = p + 3 + Z.of_nat (length (wv_s1 w) + S (length (wv_s2 w))) + 3 + Z.of_nat (length (wv_s3 w) + S (length (wv_s4 w))) +
    Z.of_nat (length (wv_transport w)) + Z.of_nat (length (wv_s5 w))).
  { unfold e, write_proto. rewrite !length_app, !length_cons, Hln. simpl (length (bs "2.0")). lia. }
  clearbody e. rewrite Hln in *. change (length (bs "2.0")) with 3%nat in *. rewrite !(length_app (wv_s1 w)), !(length_app (wv_s3 w)), !length_cons in *.
  change (Z.of_nat 3) with 3 in *.
  set (p1 := p + 3) in *. set (p2 := p1 + Z.of_nat (length (wv_s1 w) + S (length (wv_s2 w)))) in *. set (p3 := p2 + 3) in *.
  set (p4 := p3 + Z.of_nat (length (wv_s3 w) + S (length (wv_s4 w)))) in *. set (p5 := p4 + Z.of_nat (length (wv_transport w))) in *.
  set (b1 := set_name via_zero (Str p 0)). set (b2 := set_name b1 (upto (vb_name b1) p1)). set (b3 := set_version b2 (Str p2 0)).
  set (b4 := set_version b3 (upto (vb_version b3) p3)). set (b5 := set_transport b4 (Str p4 0)).
  destruct (w_transport (wv_transport w) p4 b4 Htr Htt ltac:(unfold p5, p4, p3, p2, p1 in *; lia) eq_refl) as [Hrt Hin].
  unfold transport_wf in Htr. apply andb_prop in Htr as [[Hf _]%andb_prop Hto]. apply bool_decide_eq_true in Hto.
  assert (Hnt : wv_transport w ≠ []) by (intros E; by rewrite E in Hf).
  destruct (transport_of (wv_transport w)) as [n|] eqn:Hn'; [|done].
  destruct (wv_s5 w) as [|c s5]; [done|]. cbn [forallb] in H5. apply andb_prop in H5 as [Hc H5]. apply text_at_cons in Ht5 as [Hm Ht5]. rewrite length_cons in *.
  exists (set_vproto (set_transport b5 (upto (vb_transport b5) p5)) n). split; [done|]. split; [done|]. split.
  2: { intros r Hr. eapply runs_ends; [apply (w_sip (wv_name w)); [done|done|unfold p5, p4, p3, p2, p1 in *; lia|done]|]. fold p1 b1.
    eapply runs_ends; [eapply (w_slash (wv_s1 w) (wv_s2 w)); [by left|done|done|done|unfold p5, p4, p3, p2, p1 in *; lia]|]. fold p2 b2.
    eapply runs_ends; [apply w_version; [done|unfold p5, p4, p3, p2, p1 in *; lia|done]|]. fold p3 b3.
    eapply runs_ends; [eapply (w_slash (wv_s3 w) (wv_s4 w)); [by right|done|done|done|unfold p5, p4, p3, p2, p1 in *; lia]|]. fold p4 b4.
    eapply runs_ends; [exact Hrt|]. fold p5 b5.
    eapply w_main; [lia|rewrite Hm, w_step_fin, proto_state_fin, Hn' by done; reflexivity|].
    eapply runs_ends; [apply (v_blanks mem end_ s5); [done|done|lia|done]|]. unfold v_nesting. cbn [v_st v_saved v_pstart v_vb v_al].
    by replace (p5 + 1 + Z.of_nat (length s5)) with e by lia. }
  unfold bare_core. rewrite Hn'. unfold core. cbn [b5 b4 b3 b2 b1 set_vproto set_transport set_version set_name vb_name vb_version vb_transport vb_proto vb_host vb_port_str vb_port vb_param_lst via_zero].
  f_equal; apply to_text_upto; try done; unfold p5, p4, p3, p2, p1 in *; try lia; rewrite ?Hln; try done; try lia.
Qed.

(** The end of a body. *)
Lemma v_close_core w buffer tmp b : via_wf w = true → core mem b = w_core w 0 →
  ∃ b', v_close mem buffer tmp b = Some b' ∧ core mem b' = w_core w (port_num w).
Proof.
  intros Hwf Hc. unfold via_wf in Hwf. apply andb_prop in Hwf as [[_ Hpo]%andb_prop _].
  injection Hc as Hnm Hver Htr Hpr Hh Hset Hstr Hnum Hpar. unfold v_close. cbn [set_bsize vb_port_str].
  unfold port_num, w_core. destruct (wv_port w) as [[[s1 ds] s2]|]; cbn in Hset, Hstr.
  - apply negb_true_iff in Hset. rewrite Hset, Hstr. unfold port_wf in Hpo.
    apply andb_prop in Hpo as [[[[_ Hds]%andb_prop _]%andb_prop Hlen]%andb_prop Hmax]. apply Nat.leb_le in Hlen. apply Z.leb_le in Hmax.
    pose proof (str2s_loop_digits ds 0 0 ltac:(lia) Hds ltac:(lia)) as Hs. change (u16 0) with 0 in Hs. unfold str2s. rewrite Hs.
    eexists. split; [reflexivity|]. unfold core. cbn. rewrite Hset, Hnm, Hver, Htr, Hpr, Hh, Hstr, Hpar. f_equal.
    apply wrap_small. pose proof (dec_from_ge ds 0 ltac:(lia) Hds). unfold USHRT_MAX in *. lia.
  - apply negb_false_iff in Hset. rewrite Hset. eexists. split; [reflexivity|]. unfold core. cbn.
    by rewrite Hset, Hnm, Hver, Htr, Hpr, Hh, Hstr, Hpar, Hnum.
Qed.

(** Bodies separated by commas, with blanks after a comma. *)
Definition write_more (l : list (bytes * wvia)) : bytes := l ≫= λ e, chr "," :: e.1 ++ write_via e.2.
Definition write_vias (w : wvia) (l : list (bytes * wvia)) : bytes := write_via w ++ write_more l.
Definition vias_wf (w : wvia) (l : list (bytes * wvia)) : bool := via_wf w && forallb (λ e, forallb is_ws e.1 && via_wf e.2) l.

(** A body and a comma, up to the first character of the next body. *)
Lemma w_comma w p s : A <= p → via_wf w = true → text_at mem p (write_via w ++ chr "," :: s) → forallb is_ws s = true →
  let k := p + Z.of_nat (length (write_via w)) + 1 + Z.of_nat (length s) in
  k < end_ → host_char (mem k) = true →
  ∃ y, wends p (VS F_SIP F_HOST 0 0 via_zero []) (k, VNext y) ∧ core mem (v_vb y) = w_core w 0 ∧ v_al y = [].
Proof.
  intros HA Hwf Ht Hs k Hk Hc. unfold write_via in Ht. rewrite (app_assoc (write_proto w)), <- app_assoc in Ht.
  assert (Hlen : length (write_via w) = (length (write_proto w ++ wv_s5 w) + length (write_rest w))%nat).
  { unfold write_via. rewrite !length_app. lia. }
  unfold k in *. clear k. rewrite Hlen in *. apply text_at_app in Ht as [Htp Ht]. apply text_at_app in Ht as [Htr Ht]. apply text_at_cons in Ht as [Hcm Hts].
  destruct (w_proto w p HA Hwf Htp ltac:(lia)) as (b & H1 & H2 & H3 & Hw). set (e := p + Z.of_nat (length (write_proto w ++ wv_s5 w))) in *.
  destruct (v_rest w e F_HOST b ltac:(unfold e; lia) Hwf H1 H2 H3 Htr ltac:(unfold e; lia)) as [Hcomma _].
  destruct (Hcomma ltac:(unfold e; lia) Hcm) as (sv & nest & ps & b' & Hb' & Hr). exists (VS F_VIA sv nest ps b' []). split; [|done]. apply Hw.
  eapply runs_ends; [exact Hr|]. eapply runs_ends; [apply (v_blanks mem end_ s); [done|done|unfold e; lia|done]|].
  match goal with |- vends ?a _ (?k, _) => replace a with k by (unfold e; lia) end.
  apply v_stop; [done| |done]. by rewrite (plain_step mem end_ A HE) by (by rewrite Hc).
Qed.

(** A body and the end of the header. *)
Lemma w_line w p : A <= p → via_wf w = true → text_at mem p (write_via w ++ [13; 10]) →
  let q := p + Z.of_nat (length (write_via w)) in
  q + 2 < end_ → via_next_char (mem (q + 2)) = true →
  ∃ k y, wends p (VS F_SIP F_HOST 0 0 via_zero []) (k, VEndHdr (q + 2) y) ∧ final_state (v_saved y) = true ∧ core mem (v_vb y) = w_core w 0 ∧ v_al y = [].
Proof.
  intros HA Hwf Ht q Hq Hc. unfold write_via in Ht. rewrite (app_assoc (write_proto w)), <- app_assoc in Ht.
  assert (Hlen : length (write_via w) = (length (write_proto w ++ wv_s5 w) + length (write_rest w))%nat).
  { unfold write_via. rewrite !length_app. lia. }
  unfold q in *. clear q. rewrite Hlen in *. apply text_at_app in Ht as [Htp Ht]. apply text_at_app in Ht as [Htr Ht].
  destruct (w_proto w p HA Hwf Htp ltac:(lia)) as (b & H1 & H2 & H3 & Hw). set (e := p + Z.of_nat (length (write_proto w ++ wv_s5 w))) in *.
  destruct (v_rest w e F_HOST b ltac:(unfold e; lia) Hwf H1 H2 H3 Htr ltac:(unfold e; lia)) as [_ Hline].
  replace (p + Z.of_nat (length (write_proto w ++ wv_s5 w) + length (write_rest w))) with (e + Z.of_nat (length (write_rest w))) in * by (unfold e; lia).
  destruct (Hline Hq Ht Hc) as (sv & Hf & k & y & Hy & Hsv & Hcore & Hal). exists k, y. split; [by apply Hw|]. by rewrite Hsv.
Qed.

Lemma via_head w : via_wf w = true → ∃ c t, write_via w = c :: t ∧ host_char c = true.
Proof.
  unfold via_wf. intros Hwf. do 11 apply andb_prop in Hwf as [Hwf _]. unfold sip_name, lower in Hwf. apply bool_decide_eq_true in Hwf.
  unfold write_via, write_proto. destruct (wv_name w) as [|c s]; [done|]. injection Hwf as Hc _. rewrite <- !app_comm_cons. eexists c, _.
  split; [done|]. apply lower_letter in Hc as [->| ->]; [done|done|by split].
Qed.

(** The bodies one after the other. *)
Lemma via_loop_text l : ∀ w n bodies p, A <= p → vias_wf w l = true → (length l < n)%nat → text_at mem p (write_vias w l ++ [13; 10]) →
  let q := p + Z.of_nat (length (write_vias w l)) in
  q + 2 < end_ → via_next_char (mem (q + 2)) = true →
  ∃ bs, via_loop mem n bodies [] p end_ = (ViaOk (q + 2) (bodies ++ bs), []) ∧ core mem <$> bs = (λ w, w_core w (port_num w)) <$> w :: l.*2.
Proof.
  induction l as [|[s w'] l IH]; intros w n bodies p HA Hwf Hn Ht q Hq Hc; (destruct n as [|n]; [lia|]); cbn [via_loop];
    unfold vias_wf in Hwf; cbn [forallb] in Hwf; apply andb_prop in Hwf as [Hw Hwf].
  - unfold q in *. clear q. unfold write_vias, write_more in *. cbn [mbind list_bind] in *. rewrite app_nil_r in *.
    set (q := p + Z.of_nat (length (write_via w))) in *.
    destruct (w_line w p HA Hw Ht Hq Hc) as (k & y & Hend & Hf & Hcore & Hal). rewrite (Hend _ ltac:(done)). fold q. cbn beta.
    destruct (v_close_core w p (q + 2) (v_vb y) Hw Hcore) as (b' & Hb' & Hcore'). exists [b']. unfold v_finish. rewrite Hf, Hb', Hal.
    split; [done|]. cbn. by rewrite Hcore'.
  - cbn [fst snd] in Hwf. apply andb_prop in Hwf as [[Hs Hw']%andb_prop Hl].
    assert (Hmore : write_vias w ((s, w') :: l) = write_via w ++ (chr "," :: s) ++ write_vias w' l).
    { unfold write_vias, write_more. cbn [mbind list_bind fst snd]. by rewrite <- !app_comm_cons, <- !app_assoc. }
    unfold q in *. clear q. rewrite Hmore in *. rewrite <- !app_assoc in Ht. rewrite (app_assoc (write_via w)) in Ht. apply text_at_app in Ht as [Ht1 Ht2].
    rewrite !length_app, length_cons in *. destruct (via_head w' Hw') as (c & t & Hhead & Hch).
    set (k := p + Z.of_nat (length (write_via w)) + 1 + Z.of_nat (length s)).
    replace (p + Z.of_nat (length (write_via w) + S (length s))) with k in Ht2 by (unfold k; lia).
    assert (Hk : host_char (mem k) = true).
    { unfold write_vias in Ht2. rewrite Hhead in Ht2. apply text_at_cons in Ht2 as [-> _]. done. }
    destruct (w_comma w p s HA Hw Ht1 Hs ltac:(unfold k in *; lia) Hk) as (y & Hend & Hcore & Hal). rewrite (Hend _ ltac:(done)). cbn beta. fold k.
    destruct (v_close_core w p k (v_vb y) Hw Hcore) as (b' & Hb' & Hcore'). rewrite Hb', Hal. cbn [pkg_alloc].
    destruct (IH w' n (bodies ++ [b']) k) as (bs & Hbs & Hcs); [unfold k; lia|by unfold vias_wf; rewrite Hw'|simpl in Hn; lia|done|unfold k; lia| |].
    { rewrite <- Hc. do 2 f_equal. unfold k. lia. }
    exists (b' :: bs). rewrite Hbs, <- app_assoc. split; [f_equal; f_equal; unfold k; lia|]. cbn [fmap list_fmap]. f_equal; [done|]. exact Hcs.
Qed.
End protocol.

Lemma write_more_length l : (length l <= length (write_more l))%nat.
Proof.
  unfold write_more. induction l as [|e l IH]; [simpl; lia|].
  cbn [mbind list_bind]. rewrite length_app, !length_cons. change (mbind ?f l) with (l ≫= f). lia.
Qed.

(** ** The theorem *)

(** What is read of a body. *)
Definition via_view : (Z → byte) → via_body → vcore := core.
Definition wv_view (w : wvia) : vcore := w_core w (port_num w).

(** C7. Via bodies written one after the other and separated by commas, the header being ended by
    a line that the next one does not continue, are read back by [parse_via]: protocol, version,
    transport with its number, host, port with its number, and the parameters in order with
    their types, whatever the case of the known words and the blanks around the separators; a
    parameter without a value must be followed at once by its separator, as the code refuses a
    blank there ([ViaSpec.blank_after_name]).  The pointer returned is the beginning of the next
    line. *)
Theorem vias_read_back mem buffer end_ w l : 0 < buffer → end_ - buffer <= INT_MAX → vias_wf w l = true →
  text_at mem buffer (write_vias w l ++ [13; 10]) →
  let next := buffer + Z.of_nat (length (write_vias w l)) + 2 in
  next < end_ → via_next_char (mem next) = true →
  ∃ bodies, parse_via mem [] buffer end_ = (ViaOk next bodies, []) ∧ via_view mem <$> bodies = wv_view <$> w :: l.*2.
Proof.
  intros H0 HE Hwf Ht next Hn Hc. unfold parse_via.
  assert (Hlen : (length l <= length (write_vias w l))%nat) by (unfold write_vias; rewrite length_app; pose proof (write_more_length l); lia).
  destruct (via_loop_text mem end_ buffer HE H0 l w (S (dist buffer end_)) [] buffer ltac:(lia) Hwf ltac:(unfold dist, next in *; lia) Ht Hn Hc) as (bs & Hbs & Hv).
  by exists bs.
Qed.

(** Two bodies: known words in other cases, an IPv6 reference, a port, and parameters of all
    kinds. *)
Definition sample_via : wvia :=
  WVia (bs "SIP") [] [] [] [] (bs "UDP") [32] (WName (bs "pc33.atlanta.com")) [] (Some ([], bs "5066", []))
    [WVParam [] (bs "Branch") (VToken [] [] (bs "z9hG4bK776asdhds")) []; WVParam [32] (bs "rport") VNone [];
     WVParam [] (bs "note") (VQuoted [32] [] (bs "a; b=c")) [32]].
Definition sample_via2 : wvia :=
  WVia (bs "sip") [32] [32] [9] [] (bs "Tls") [32; 32] (WIp6 (bs "2001:db8::9:1")) [32] None
    [WVParam [] (bs "received") (VToken [] [32] (bs "192.0.2.1")) [32]; WVParam [] (bs "alias") VNone []; WVParam [] (bs "x") VNone []].

Lemma vias_read_back_witness :
  let text := write_vias sample_via [([32], sample_via2)] ++ [13; 10] ++ bs "To" in
  ∃ bodies, parse_via (mem_of 64 text) [] 64 (64 + Z.of_nat (length text)) =
      (ViaOk (64 + Z.of_nat (length (write_vias sample_via [([32], sample_via2)])) + 2) bodies, []) ∧
    via_view (mem_of 64 text) <$> bodies = wv_view <$> [sample_via; sample_via2].
Proof.
  intros text. apply (vias_read_back (mem_of 64 text) 64 (64 + Z.of_nat (length text)) sample_via [([32], sample_via2)]).
  - lia.
  - vm_compute. discriminate.
  - by vm_compute.
  - pose proof (mem_of_text 64 text) as Ht. unfold text in Ht at 2. rewrite app_assoc in Ht. by apply text_at_app in Ht as [? _].
  - by vm_compute.
  - by vm_compute.
Defined.
