(* ===== verification/MsgBodies.v ===== *)
(** * MsgBodies: the parsers of bodies in the header parser

    [parse_to] and [parse_via] keep to the interface of [parser/msg_parser.c]
    ([body_parsers_ok]): they return a place after the one they were given, and they only fail
    to allocate when the allocator does.  The theorems on the header parser hold for them. *)

From stdpp Require Import prelude list strings fin_maps.
From Stdlib Require Import ZArith Lia Ascii.
From S2P Require Import Prelude UriParser HdrNames HdrNamesSpec HdrBodies ToParser ToFacts ToBounds ViaParser ViaFacts ViaBounds MsgHeaders MsgHeadersSpec.

(** ** Progress *)

Section progress.
Context (mem : Z → byte).

Lemma pp_loop_ge multi e n : ∀ p x, match pp_loop mem n multi p e x with PResult tmp _ _ _ => p <= tmp | _ => True end.
Proof.
  assert (Hend : ∀ p x, match pp_end p x with PResult tmp _ _ _ => p <= tmp | _ => True end).
  { intros p x. unfold pp_end, pp_error. repeat case_match; simplify_eq; lia. }
  induction n as [|n IH]; intros p x; cbn [pp_loop]; destruct (p <? e); try done; try (case_decide; [cbn; lia|apply Hend]).
  destruct (pp_step _ _ _ _ _ _) as [skip y|y|y|]; [|apply Hend|cbn; lia|done].
  specialize (IH (if skip then p + 2 else p + 1) y). destruct (pp_loop _ _ _ _ _ _); [|done..]. destruct skip; lia.
Qed.

Definition t_after (p : Z) (o : pt_out) : Prop := match o with TGo tmp _ | TAt tmp _ => p <= tmp | _ => True end.

Lemma t_step_ge multi c p e x : t_after p (t_step mem multi c p e x).
Proof.
  assert (Hnext : ∀ tmp z, p <= tmp → t_after p (next_body tmp z)).
  { intros tmp z Hle. unfold next_body. by destruct (pkg_alloc _) as [[|] ?]. }
  assert (Hpar : ∀ z, t_after p (t_params mem multi p e z)).
  { intros z. unfold t_params, parse_to_param. pose proof (pp_loop_ge multi e (dist p e) p
      (PP E_PARA_VALUE E_PARA_VALUE None (t_cur (t_body z (body_upto p))) (t_al (t_body z (body_upto p))))) as Hl.
    destruct (pp_loop _ _ _ _ _ _); [|done..]. destruct (_ && _); [by apply Hnext|done]. }
  unfold t_step, t_newline. repeat lazymatch goal with |- t_after _ (match ?b with _ => _ end) => destruct b end;
    lazymatch goal with
    | |- t_after _ (next_body _ _) => apply Hnext; lia
    | |- t_after _ (t_params _ _ _ _ _) => apply Hpar
    | |- _ => cbn; lia || done
    end.
Qed.

Lemma t_loop_advances multi e p0 n : ∀ p x, p0 < p ∨ p = p0 ∧ t_st x = START_TO ∧ t_saved x = START_TO →
  match (t_loop mem n multi p e x).1 with TrOk tmp _ => p0 < tmp | _ => True end.
Proof.
  assert (Hend : ∀ p x, p0 < p ∨ t_saved x = START_TO → match t_end p x with TrOk tmp _ => p0 < tmp | _ => True end).
  { intros p x [Hp|Hs]; unfold t_end; [|by rewrite Hs]. by destruct (t_saved x). }
  induction n as [|n IH]; intros p x Hp; cbn [t_loop]; destruct (p <? e); try done; try (apply Hend; tauto).
  pose proof (t_step_ge multi (mem p) p e x) as Hge. destruct (t_step _ _ _ _ _ _) as [tmp y|tmp y|al| |] eqn:Hs; cbn in Hge; try done.
  - apply IH. left. destruct Hp as [|(? & ?)]; lia.
  - apply Hend. destruct Hp as [|(_ & Hst & _)]; [left; lia|]. by apply (t_step_start mem e multi p x tmp y) in Hst.
Qed.

Lemma parse_to_next multi al p end_ tmp l al' : _parse_to mem multi al p end_ = (TrOk tmp l, al') → p < tmp.
Proof.
  intros Hp. pose proof (t_loop_advances multi end_ p (dist p end_) p (PT START_TO START_TO 0 [] to_zero al)) as Ha.
  unfold _parse_to in Hp. rewrite Hp in Ha. apply Ha. by right.
Qed.

Definition n_after (p : Z) (r : np_result) : Prop := match r with NpOk tmp _ => p <= tmp | _ => True end.

Lemma n_end_via_ge p x : n_after p (n_end_via p x).
Proof. unfold n_end_via. case_decide; cbn; [lia|done]. Qed.

Lemma f_loop_ge e n : ∀ p x, n_after p (f_loop mem n p e x).
Proof.
  induction n as [|n IH]; intros p x; cbn [f_loop]; destruct (p <? e); try done.
  destruct (f_step _ _ _) as [y|y|y|y|]; try done; [|cbn; lia|apply n_end_via_ge].
  specialize (IH (p + 1) y). destruct (f_loop _ _ _ _ _); cbn in *; [lia|done..].
Qed.

Lemma n_loop_ge e n : ∀ p x, n_after p (n_loop mem n p e x).
Proof.
  induction n as [|n IH]; intros p x; cbn [n_loop]; destruct (p <? e); try done.
  destruct (n_step _ _ _) as [y|y|y|y|]; try done; [| |cbn; lia|apply n_end_via_ge].
  - specialize (IH (p + 1) y). destruct (n_loop _ _ _ _ _); cbn in *; [lia|done..].
  - pose proof (f_loop_ge e (dist (p + 1) e) (p + 1) y). destruct (f_loop _ _ _ _ _); cbn in *; [lia|done..].
Qed.

Definition v_after (p : Z) (o : v_out) : Prop := match o with VGo tmp _ | VEndHdr tmp _ => p <= tmp | _ => True end.

Lemma v_step_ge c p e x : v_after p (v_step mem c p e x).
Proof.
  assert (Hpar : v_after p (v_param mem p e x)).
  { unfold v_param, parse_via_param. set (x1 := if _ =? 0 then _ else _). destruct (pkg_alloc _) as [[|] al]; [|done].
    pose proof (n_loop_ge e (dist p e) p (NP (v_st x1) (v_saved x1) (vp_set_type PARAM_ERROR (ViaParam F_HOST str_null str_null (v_pstart x1) 0)))) as Hl.
    destruct (n_loop _ _ _ _ _) as [tmp y| |]; [|done..]. by destruct (n_st y). }
  unfold v_step, v_newline, v_comment.
  repeat lazymatch goal with |- v_after _ (match ?b with _ => _ end) => destruct b end;
    lazymatch goal with |- v_after _ (v_param _ _ _ _) => exact Hpar | |- _ => cbn; first [exact I | apply Z.le_refl] end.
Qed.

Lemma v_loop_ge e n : ∀ p x, let '(q, o) := v_loop mem n p e x in p <= q ∧ v_after p o.
Proof.
  induction n as [|n IH]; intros p x; cbn [v_loop]; destruct (p <? e); try (cbn; split; (lia || done)).
  pose proof (v_step_ge (mem p) p e x) as Hge. destruct (v_step _ _ _ _ _) as [tmp y|y|tmp y|y|al|]; try (by split).
  specialize (IH (tmp + 1) y). destruct (v_loop _ _ _ _ _) as [q o]. cbn in Hge. destruct IH as [Hq Ho]. split; [lia|].
  destruct o; cbn in *; try done; lia.
Qed.

(** Where the loops over a body that starts at [p0] end. *)
Definition w_after (p0 : Z) (r : Z * v_out) : Prop :=
  match r with (q, VGo _ _) | (q, VNext _) => p0 < q | (_, VEndHdr tmp _) => p0 < tmp | _ => True end.

Lemma w_step_sip c p x : v_st x = F_SIP → match w_step c p x with VEndHdr _ _ => False | _ => True end.
Proof. intros Hx. unfold w_step, w_newline. rewrite Hx. by repeat case_match. Qed.

Lemma w_step_tmp c p x : match w_step c p x with VEndHdr tmp _ => tmp = p | VNext _ => False | _ => True end.
Proof.
  unfold w_step, w_newline. set (P o := match o with VEndHdr tmp _ => tmp = p | VNext _ => False | _ => True end). change (P (w_step c p x)).
  unfold w_step, w_newline. repeat lazymatch goal with |- P (match ?b with _ => _ end) => destruct b end; exact I || reflexivity.
Qed.

Lemma w_loop_ge e p0 n : ∀ p x, p0 < p ∨ p = p0 ∧ v_st x = F_SIP → w_after p0 (w_loop mem n p e x).
Proof.
  induction n as [|n IH]; intros p x Hp; cbn [w_loop]; destruct (p <? e); try done.
  pose proof (w_step_tmp (mem p) p x) as Htmp. pose proof (w_step_sip (mem p) p x) as Hsip.
  destruct (w_step _ _ _) as [tmp y|y|tmp y|y|al|]; try done.
  - apply IH. lia.
  - pose proof (v_loop_ge e (dist (p + 1) e) (p + 1) (v_nesting 0 y)) as Hv. destruct (v_loop _ _ _ _ _) as [q o]. destruct Hv as [Hq Ho].
    destruct o; cbn in *; try done; lia.
  - subst tmp. cbn. destruct Hp as [|[_ Hp]]; [done|]. by apply Hsip in Hp.
Qed.

Lemma via_loop_ge e p0 n : ∀ l al buffer, p0 <= buffer → match (via_loop mem n l al buffer e).1 with ViaOk tmp _ => p0 < tmp | _ => True end.
Proof.
  assert (Hfin : ∀ l buffer tmp st x, p0 < tmp → match v_finish mem l buffer tmp st x with ViaOk tmp _ => p0 < tmp | _ => True end).
  { intros l buffer tmp st x Ht. unfold v_finish. destruct (final_state st); [|done]. by destruct (v_close _ _ _ _). }
  induction n as [|n IH]; intros l al buffer Hp0; [done|]. cbn [via_loop].
  pose proof (w_loop_ge e buffer (dist buffer e) buffer (VS F_SIP F_HOST 0 0 via_zero al) ltac:(by right)) as Hw.
  destruct (w_loop _ _ _ _ _) as [q [tmp y|y|tmp y|y|al'|]]; cbn in Hw; try done; try (apply Hfin; lia).
  destruct (v_close _ _ _ _); [|done]. destruct (pkg_alloc _) as [[|] ?]; [|done]. apply IH. lia.
Qed.
End progress.

(** ** The instance *)

(** A Via header is the list of its bodies, chained by [next]; an error of [parse_to] is the mark
    of the first body. *)
#[export] Instance opensips_parsers : body_parsers := {
  MsgHeaders.via_body := list ViaParser.via_body;
  via_next l := match l with _ :: (_ :: _) as r => Some r | _ => None end;
  MsgHeaders.to_body := ToParser.to_body;
  MsgHeaders.parse_via mem al p end_ :=
    let '(r, al) := ViaParser.parse_via mem al p end_ in (match r with ViaOk tmp l => Some (tmp, l) | _ => None end, al);
  MsgHeaders.parse_to mem al p end_ :=
    let '(r, al) := ToParser.parse_to mem al p end_ in ((λ x, (x.1, x.2.1)) <$> to_bodies r, al)
}.

#[export] Instance opensips_parsers_ok : body_parsers_ok.
Proof.
  split.
  - intros mem al p end_ q v al' _. cbn [MsgHeaders.parse_via MsgHeaders.parse_to opensips_parsers]. pose proof (via_loop_ge mem end_ p (S (dist p end_)) [] al p ltac:(lia)) as Hge.
    unfold ViaParser.parse_via. destruct (via_loop _ _ _ _ _ _) as [[tmp l| |] al1]; [|done..]. by intros [= <- _ _].
  - intros mem al p end_ q t al' _. cbn [MsgHeaders.parse_via MsgHeaders.parse_to opensips_parsers]. destruct (ToParser.parse_to mem al p end_) as [r al1] eqn:Hp.
    unfold to_bodies. destruct r as [tmp [|b bs]| | |]; try done. destruct (tb_error b); [done|]. cbn. intros [= <- _ _]. by eapply parse_to_next.
  - intros mem p end_. cbn [MsgHeaders.parse_via MsgHeaders.parse_to opensips_parsers]. pose proof (via_loop_al mem end_ (S (dist p end_)) [] p) as Hal. unfold ViaParser.parse_via.
    by destruct (via_loop _ _ _ _ _ _).
  - intros mem p end_. cbn [MsgHeaders.parse_via MsgHeaders.parse_to opensips_parsers]. pose proof (t_loop_al mem false end_ (dist p end_) p (PT START_TO START_TO 0 [] to_zero []) eq_refl) as Hal.
    unfold ToParser.parse_to, _parse_to. by destruct (t_loop _ _ _ _ _ _).
Qed.
