(* ===== verification/MsgStart.v ===== *)
(** * The first line and the whole message

    [eat_line] ([parser/parser_f.c]), [parse_first_line] ([parser/parse_fline.c]) and
    [parse_msg_opt] ([parser/msg_parser.c]): the line of a request or of a reply, then the
    header fields up to the empty line. *)

From stdpp Require Import prelude list strings.
From Stdlib Require Import ZArith Lia Ascii.
From S2P Require Import Prelude CString HdrNames HdrBodies MsgHeaders.

(** ** The first line *)

Definition SIP_INVALID : Z := 0.
Definition SIP_REQUEST : Z := 1.
Definition SIP_REPLY : Z := 2.
Definition SIP_VERSION : bytes := bs "SIP/2.0".
Definition SIP_VERSION_LEN : Z := 7.

(** [struct msg_start].  The members of the union share their memory: [fl_first] is the
    method of a request and the version of a reply, [fl_second] the URI and the status,
    [fl_third] the version and the reason, [fl_value] the number of the method and the
    status code.  Strings are an address and a length. *)
Record msg_start := MsgStart {
  fl_type : Z;
  fl_len : Z;
  fl_first : Z * Z;
  fl_second : Z * Z;
  fl_third : Z * Z;
  fl_value : Z
}.

Definition fl_zero : msg_start := MsgStart SIP_INVALID 0 (0, 0) (0, 0) (0, 0) 0.

Definition set_fl_type (ty : Z) (fl : msg_start) : msg_start :=
  MsgStart ty (fl_len fl) (fl_first fl) (fl_second fl) (fl_third fl) (fl_value fl).
Definition set_fl_value (v : Z) (fl : msg_start) : msg_start :=
  MsgStart (fl_type fl) (fl_len fl) (fl_first fl) (fl_second fl) (fl_third fl) v.
Definition set_first_len (n : Z) (fl : msg_start) : msg_start :=
  MsgStart (fl_type fl) (fl_len fl) ((fl_first fl).1, n) (fl_second fl) (fl_third fl) (fl_value fl).
Definition set_first_s (p : Z) (fl : msg_start) : msg_start :=
  MsgStart (fl_type fl) (fl_len fl) (p, (fl_first fl).2) (fl_second fl) (fl_third fl) (fl_value fl).
Definition set_second (s : Z * Z) (fl : msg_start) : msg_start :=
  MsgStart (fl_type fl) (fl_len fl) (fl_first fl) s (fl_third fl) (fl_value fl).
Definition set_third (s : Z * Z) (n : Z) (fl : msg_start) : msg_start :=
  MsgStart (fl_type fl) n (fl_first fl) (fl_second fl) s (fl_value fl).

Section first_line.
Context (mem : Z → byte).

(** The [n] bytes at [p]. *)
Definition mem_bytes (p : Z) (n : nat) : bytes := (λ i, mem (p + Z.of_nat i)) <$> seq 0 n.

(** The address after the next line feed, and after a carriage return that follows it. *)
Definition eat_line (buffer len : Z) : Z :=
  let end_ := buffer + len in
  let nl := scan mem (λ c, c =? 10) buffer end_ in
  if nl <? end_ then
    let nl := if nl + 1 <? end_ then nl + 1 else nl in
    if (nl + 1 <? end_) && (mem nl =? 13) then nl + 1 else nl
  else end_.

(** The test of [IFISMETHOD] for the method [name], in capitals. *)
Definition ISMETHOD (name : bytes) (tmp : Z) : bool :=
  match name with
  | [] => false
  | c :: rest =>
      ((mem tmp =? c) || (mem tmp =? Z.lor c 32)) &&
      (strncasecmp (length rest) (mem_bytes (tmp + 1) (length rest)) rest =? 0) &&
      (mem (tmp + Z.of_nat (length name)) =? 32)
  end.

Definition is_reply (tmp : Z) : bool :=
  ((mem tmp =? chr "S") || (mem tmp =? chr "s")) &&
  (strncasecmp (length SIP_VERSION - 1) (mem_bytes (tmp + 1) (length SIP_VERSION - 1)) (tail SIP_VERSION) =? 0) &&
  (mem (tmp + SIP_VERSION_LEN) =? 32).

(** The methods tested first, with their numbers. *)
Definition known_methods : list (bytes * Z) :=
  [(bs "INVITE", METHOD_INVITE); (bs "CANCEL", METHOD_CANCEL); (bs "ACK", METHOD_ACK);
   (bs "BYE", METHOD_BYE); (bs "INFO", METHOD_INFO)].

(** The first token: its end, or [goto error1]. *)
Definition first_token (buffer len : Z) (fl : msg_start) : option Z * msg_start :=
  if is_reply buffer then
    (Some (buffer + SIP_VERSION_LEN), set_first_len SIP_VERSION_LEN (set_fl_type SIP_REPLY fl))
  else
    match list_find (λ e, ISMETHOD e.1 buffer = true) known_methods with
    | Some (_, (name, value)) =>
        let n := Z.of_nat (length name) in
        (Some (buffer + n), set_fl_value value (set_first_len n (set_fl_type SIP_REQUEST fl)))
    | None =>
        let tmp := eat_token_end mem buffer (buffer + len) in
        if (tmp =? buffer) || (buffer + len <=? tmp) then (None, fl)
        else if negb (mem tmp =? 32) then (None, fl)
        else
          let fl := set_fl_type SIP_REQUEST fl in
          match parse_method mem buffer tmp with
          | (None, value) => (None, set_fl_value value fl)
          | (Some _, value) => (Some tmp, set_first_len (tmp - buffer) (set_fl_value value fl))
          end
    end.

Definition is_digit (c : byte) : bool := (48 <=? c) && (c <=? 57).

(** The status code of a reply; [None]: [goto error]. *)
Definition status_code (second len : Z) : option Z :=
  if negb (len =? 3) then None
  else
    let s1 := mem second in let s2 := mem (second + 1) in let s3 := mem (second + 2) in
    if is_digit s1 && is_digit s2 && is_digit s3 then Some ((s1 - 48) * 100 + 10 * (s2 - 48) + (s3 - 48))
    else None.

(** The end of the last part; [None]: [goto error]. *)
Definition last_part (type third end_ : Z) : option Z :=
  if type =? SIP_REQUEST then
    let tmp := eat_token_end mem third end_ in
    if (tmp =? third) || (end_ <=? tmp) then None
    else if is_empty_end mem tmp end_ then Some tmp else None
  else
    let tmp := eat_token2_end mem third end_ 13 in
    if end_ <=? tmp then None else Some tmp.

(** The two other parts, from the address of the second one; [None]: [goto error]. *)
Definition other_parts (buffer second end_ : Z) (fl : msg_start) : option Z * msg_start :=
  let tmp := eat_token_end mem second end_ in
  if end_ <=? tmp then (None, fl)
  else
    let third := eat_space_end mem tmp end_ in
    if third =? tmp then (None, fl)
    else
      let fl := set_second (second, tmp - second) fl in
      match (if fl_type fl =? SIP_REPLY then status_code second (tmp - second) else Some (fl_value fl)) with
      | None => (None, fl)
      | Some value =>
          let fl := set_fl_value value fl in
          match last_part (fl_type fl) third end_ with
          | None => (None, fl)
          | Some tmp =>
              let nl := eat_line tmp (end_ - tmp) in
              if end_ <=? nl then (None, fl)
              else (Some nl, set_third (third, tmp - third) (nl - buffer) fl)
          end
      end.

(** The address of the next line and the line; both error labels end at [error1]. *)
Definition parse_first_line (buffer len : Z) (fl : msg_start) : Z * msg_start :=
  let error1 fl := (eat_line buffer len, set_fl_type SIP_INVALID fl) in
  if len <=? 16 then error1 fl
  else
    match first_token buffer len fl with
    | (None, fl) => error1 fl
    | (Some tmp, fl) =>
        match other_parts buffer (tmp + 1) (buffer + len) (set_first_s buffer fl) with
        | (None, fl) => error1 fl
        | (Some nl, fl) => (nl, fl)
        end
    end.
End first_line.

(** ** The message *)

Section parse_msg.
Context `{body_parsers} (mem : Z → byte).

(** The message after [memset]. *)
Definition msg_zero : sip_msg := mk_msg 0 0 None 0 [] (λ _, None) None None.

(** The return value with the first line and the message; [msg_end m] is
    [msg->buf + msg->len]. *)
Definition parse_msg_opt (al : list bool) (buf len : Z) (fl : msg_start) (m : sip_msg) (free_on_err : bool)
    : option (Z * msg_start * sip_msg * list bool) :=
  let tmp := scan mem (λ c, negb (is_eol c)) buf (buf + len) in
  let '(rest, fl) := parse_first_line mem tmp (len - (tmp - buf)) fl in
  if fl_type fl =? SIP_INVALID then Some (-1, fl, with_unparsed m (msg_end m), al)
  else if (fl_type fl =? SIP_REQUEST) || (fl_type fl =? SIP_REPLY) then
    '(r, m, al) ← parse_headers mem al (with_unparsed m rest) (HDR_T2F HDR_EOH_T) false;
    if r =? -1 then
      if free_on_err then Some (-1, fl_zero, msg_zero, al) else Some (-1, fl, m, al)
    else Some (0, fl, m, al)
  else Some (-1, fl, m, al).

Definition parse_msg (al : list bool) (buf len : Z) (fl : msg_start) (m : sip_msg) :=
  parse_msg_opt al buf len fl m true.
End parse_msg.
