(* ===== verification/MsgStartFacts.v ===== *)
(** * The first line read back

    Method names and the first lines of requests and replies written as text are found by
    [parse_method] and [parse_first_line]. *)

From stdpp Require Import prelude list strings.
From Stdlib Require Import ZArith Lia Ascii.
From S2P Require Import Prelude CString HdrNames HdrNamesSpec HdrBodies ToParser ScanRuns MsgHeaders MsgHeadersSpec MsgRoundtrip ViaWords MsgStart.

(** ** Methods *)

(** The methods with a number of their own. *)
Definition method_table : list (bytes * Z) :=
  [(bs "ack", METHOD_ACK); (bs "bye", METHOD_BYE); (bs "cancel", METHOD_CANCEL); (bs "info", METHOD_INFO);
   (bs "invite", METHOD_INVITE); (bs "message", METHOD_MESSAGE); (bs "notify", METHOD_NOTIFY);
   (bs "options", METHOD_OPTIONS); (bs "prack", METHOD_PRACK); (bs "publish", METHOD_PUBLISH);
   (bs "refer", METHOD_REFER); (bs "register", METHOD_REGISTER); (bs "subscribe", METHOD_SUBSCRIBE);
   (bs "update", METHOD_UPDATE)].

(** The number of a method, whatever the case of its letters. *)
Definition method_id (s : bytes) : Z :=
  match list_find (λ e, lower s = e.1) method_table with Some (_, e) => e.2 | None => METHOD_OTHER end.

Definition letter (c : byte) : bool := (97 <=? c) && (c <=? 122).

Lemma either_case c l : letter l = true → (c =? l) || (c =? l - 32) = (tolower c =? l).
Proof. unfold letter, tolower. intros Hl. destruct (Z.leb_spec 65 c), (Z.leb_spec c 90); cbn [andb]; lia. Qed.

Section method.
Context (mem : Z → byte) (p : Z) (m : bytes).
Context (Ht : text_at mem p m) (Hm : forallb method_char m = true).
Let max := Z.of_nat (length m).

Lemma method_char_at i : (i < length m)%nat → ∃ c, m !! i = Some c ∧ mem (p + Z.of_nat i) = c ∧ method_char c = true ∧ method_end c = false.
Proof.
  intros Hi. destruct (lookup_lt_is_Some_2 m i Hi) as [c Hc]. exists c. split; [done|]. split; [by apply Ht|].
  rewrite forallb_forall in Hm. assert (Hmc : method_char c = true) by (apply Hm, list_elem_of_In; by eapply list_elem_of_lookup_2).
  split; [done|]. unfold method_char in Hmc. unfold method_end, is_ws, is_eol. lia.
Qed.

Lemma unknown_text len : 0 <= len <= max → unknown mem p max len = (Some (p + max), METHOD_OTHER).
Proof.
  intros Hlen. unfold unknown. f_equal. remember (Z.to_nat (max - len)) as n eqn:Hn. revert len Hlen Hn.
  induction n as [|n IH]; intros len Hlen Hn; cbn [unknown_loop]; [done|].
  destruct (method_char_at (Z.to_nat len)) as (c & _ & Hc & Hmc & Hme); [unfold max in *; lia|].
  rewrite Z2Nat.id in Hc by lia. rewrite Hc, Hme, Hmc. apply IH; lia.
Qed.

Lemma letters_text s : ∀ off, forallb letter s = true → (off + length s <= length m)%nat →
  letters mem p (Z.of_nat off) s = bool_decide (take (length s) (drop off (lower m)) = s).
Proof.
  induction s as [|l s IH]; intros off Hs Hlen; cbn [letters forallb length take] in *; [done|].
  apply andb_prop in Hs as [Hl Hs]. destruct (method_char_at off) as (c & Hc & Hmem & _); [lia|].
  rewrite Hmem, either_case by done. replace (Z.of_nat off + 1) with (Z.of_nat (S off)) by lia. rewrite (IH (S off)) by (done || lia).
  assert (Hd : drop off (lower m) = tolower c :: drop (S off) (lower m)).
  { apply drop_S. unfold lower. by rewrite list_lookup_fmap, Hc. }
  rewrite Hd. cbn [take]. apply Bool.eq_iff_eq_true. rewrite andb_true_iff, Z.eqb_eq, !bool_decide_eq_true.
  split; [intros [-> ->]; done|]. by intros [= -> ?].
Qed.

(** One method name as a function of the lower-case text. *)
Definition pick (id : Z) (rest : bytes) (other : Z) : Z :=
  if (length m <=? length rest)%nat then METHOD_OTHER
  else if bool_decide (take (length rest) (drop 1 (lower m)) = rest)
  then if (length m =? S (length rest))%nat then id else METHOD_OTHER
  else other.

Lemma try_method_text id len rest o : len = Z.of_nat (S (length (bs rest))) → forallb letter (bs rest) = true →
  try_method mem p max id len rest (Some (p + max), o) = (Some (p + max), pick id (bs rest) o).
Proof.
  intros -> Hr. unfold try_method, pick, max. destruct (Z.ltb_spec (Z.of_nat (length m)) (Z.of_nat (S (length (bs rest))))) as [Hlt|Hge].
  - rewrite (proj2 (Nat.leb_le _ _)) by lia. apply unknown_text. unfold max. lia.
  - rewrite (proj2 (Nat.leb_gt _ _)) by lia. change 1 with (Z.of_nat 1). rewrite letters_text by (done || lia).
    case_bool_decide; [|done]. unfold method_done. destruct (Nat.eqb_spec (length m) (S (length (bs rest)))) as [E|Hne].
    + rewrite (proj2 (Z.ltb_ge _ _)) by lia. cbn [andb]. by rewrite E.
    + rewrite (proj2 (Z.ltb_lt _ _)) by lia. destruct (method_char_at (S (length (bs rest)))) as (c & _ & Hc & _ & Hme); [lia|].
      rewrite Hc, Hme. cbn [andb negb]. apply unknown_text. unfold max. lia.
Qed.

(** What [pick] decides when the first letter is known. *)
Lemma pick_spec id l rest other : head (lower m) = Some l →
  pick id rest other = id ∧ lower m = l :: rest ∨ lower m ≠ l :: rest ∧
    (pick id rest other = other ∨ pick id rest other = METHOD_OTHER ∧ ((length (lower m) <=? length rest)%nat = true ∨ take (length rest) (drop 1 (lower m)) = rest)).
Proof.
  intros Hl. unfold pick. assert (Hlen : length (lower m) = length m) by apply length_fmap.
  destruct (Nat.leb_spec (length m) (length rest)) as [H|H].
  { right. split; [intros E; rewrite E in Hlen; simpl in Hlen; lia|]. right. split; [done|]. left. apply Nat.leb_le. lia. }
  case_bool_decide as Ht'.
  - destruct (Nat.eqb_spec (length m) (S (length rest))) as [E|E].
    + left. split; [done|]. destruct (lower m) as [|c t]; [done|]. injection Hl as ->. simpl length in Hlen. cbn [drop] in Ht'. f_equal.
      rewrite skipn_O, take_ge in Ht' by lia. done.
    + right. split; [intros E'; rewrite E' in Hlen; simpl in Hlen; lia|]. right. by auto.
  - right. split; [|by left]. intros E. apply Ht'. rewrite E. cbn. by rewrite take_ge.
Qed.

Lemma method_id_other : Forall (λ e, lower m ≠ e.1) method_table → method_id m = METHOD_OTHER.
Proof.
  intros Hno. unfold method_id. destruct (list_find _ _) as [[i e]|] eqn:Hf; [|done].
  apply list_find_Some in Hf as (Hi & He & _). rewrite Forall_lookup in Hno. by destruct (Hno i e Hi).
Qed.

Lemma parse_method_text : m ≠ [] → parse_method mem p (p + max) = (Some (p + max), method_id m).
Proof.
  intros Hne. unfold parse_method. replace (p + max - p) with max by lia. unfold parse_method_at. cbv zeta.
  rewrite (unknown_text 0) by (unfold max; lia). destruct (method_char_at 0) as (c & Hc & Hmem & _); [by destruct m; simpl; [|lia]|].
  rewrite Z.add_0_r in Hmem. rewrite Hmem. rewrite !either_case by done.
  assert (Hl : head (lower m) = Some (tolower c)) by (destruct m; [done|]; by injection Hc as ->).
  repeat match goal with
  | |- (if tolower c =? ?l then _ else _) = _ => destruct (Z.eqb_spec (tolower c) l) as [E|?]
  end; rewrite ?E in Hl; rewrite ?try_method_text by done; f_equal.
  all: repeat match goal with
  | |- context [pick ?i ?r ?o] => destruct (pick_spec i _ r o Hl) as [[-> Hw]|[? [->|[-> ?]]]]; [unfold method_id; rewrite Hw; reflexivity| |]
  end; symmetry; apply method_id_other; unfold method_table; repeat apply Forall_cons_2; try apply Forall_nil_2; cbn [fst];
    try done.
  all: intros E'; rewrite E' in *; try discriminate Hl; try (by injection Hl as E2; auto).
  all: repeat match goal with H : _ ∨ _ |- _ => destruct H end; discriminate || idtac.
Qed.
End method.

(** ** Words compared without regard to case *)

Lemma mem_bytes_text mem p s : text_at mem p s → mem_bytes mem p (length s) = s.
Proof. intros Ht. rewrite <- (to_text_str mem p s (Z.of_nat (length s)) Ht eq_refl) at 2. unfold to_text, mem_bytes. cbn. by rewrite Nat2Z.id. Qed.

Lemma mem_bytes_lookup mem p n i : (i < n)%nat → mem_bytes mem p n !! i = Some (mem (p + Z.of_nat i)).
Proof. intros Hi. unfold mem_bytes. by rewrite list_lookup_fmap, lookup_seq_lt. Qed.

Lemma mem_bytes_S mem p n : mem_bytes mem p (S n) = mem p :: mem_bytes mem (p + 1) n.
Proof.
  unfold mem_bytes. cbn [seq fmap list_fmap]. rewrite Z.add_0_r. f_equal. rewrite <- fmap_S_seq, <- list_fmap_compose.
  apply list_fmap_ext. intros i j _. cbn. f_equal. lia.
Qed.

Lemma strncmp_eq a : ∀ b, length a = length b → Forall (λ c, c ≠ 0) b → strncmp (length b) a b = 0 ↔ a = b.
Proof.
  induction a as [|x a IH]; intros [|y b] Hlen Hb; try done. apply Forall_cons in Hb as [Hy Hb]. injection Hlen as Hlen.
  cbn [strncmp length]. destruct (Z.eqb_spec x y) as [->|Hne].
  - destruct (Z.eqb_spec y 0); [done|]. rewrite IH by done. split; [by intros ->|by intros [= ->]].
  - split; [lia|congruence].
Qed.

Lemma strncasecmp_eq a b : length a = length b → Forall (λ c, c ≠ 0) b → strncasecmp (length b) a b = 0 ↔ lower a = lower b.
Proof.
  intros Hlen Hb. unfold strncasecmp. rewrite <- (length_fmap tolower b). rewrite strncmp_eq; [done|by rewrite !length_fmap|].
  apply Forall_fmap. eapply Forall_impl; [exact Hb|]. intros c Hc. cbn in *. unfold tolower. destruct (Z.leb_spec 65 c), (Z.leb_spec c 90); cbn [andb]; lia.
Qed.

(** The capitals, with the bit that makes them small. *)
Definition capital (c : byte) : bool := (65 <=? c) && (c <=? 90) && (Z.lor c 32 =? c + 32).

Section first_line.
Context (mem : Z → byte).

Lemma ISMETHOD_spec name p : forallb capital name = true →
  ISMETHOD mem name p = true ↔ name ≠ [] ∧ lower (mem_bytes mem p (length name)) = lower name ∧ mem (p + Z.of_nat (length name)) = 32.
Proof.
  intros Hn. unfold ISMETHOD. destruct name as [|c rest]; [split; [done|by intros []]|]. cbn [forallb] in Hn. apply andb_prop in Hn as [Hc Hr].
  unfold capital in Hc. rewrite !andb_true_iff, !Z.eqb_eq, strncasecmp_eq.
  2:{ unfold mem_bytes. by rewrite length_fmap, length_seq. }
  2:{ apply Forall_forall. intros d Hd%list_elem_of_In. rewrite forallb_forall in Hr. apply Hr in Hd. unfold capital in Hd. lia. }
  assert (Hfirst : (mem p =? c) || (mem p =? Z.lor c 32) = true ↔ tolower (mem p) = tolower c).
  { unfold tolower. destruct (Z.leb_spec 65 (mem p)), (Z.leb_spec (mem p) 90), (Z.leb_spec 65 c), (Z.leb_spec c 90); cbn [andb]; lia. }
  rewrite Hfirst. cbn [length]. rewrite mem_bytes_S. unfold lower. cbn [fmap list_fmap]. split.
  - by intros [[-> ->] ->].
  - by intros (_ & [= -> ->] & ->).
Qed.

(** A word with a space after it is read as that word. *)
Lemma word_here m w p : forallb method_char m = true → text_at mem p (m ++ [32]) → (∀ c, c ∈ w → tolower c ≠ 32) →
  lower (mem_bytes mem p (length w)) = lower w → mem (p + Z.of_nat (length w)) = 32 → lower m = lower w.
Proof.
  intros Hm Ht Hw He Hsp. apply text_at_snoc in Ht as [Ht Hend].
  assert (Hlen : length m = length w); [|by rewrite <- He, <- Hlen, mem_bytes_text].
  destruct (Nat.lt_total (length m) (length w)) as [Hlt|[?|Hgt]]; [|done|]; exfalso.
  - destruct (lookup_lt_is_Some_2 w (length m) Hlt) as [c Hc]. apply (Hw c); [by eapply list_elem_of_lookup_2|].
    assert (Hl : lower (mem_bytes mem p (length w)) !! length m = Some (tolower c)) by (rewrite He; unfold lower; by rewrite list_lookup_fmap, Hc).
    unfold lower in Hl. rewrite list_lookup_fmap, mem_bytes_lookup, Hend in Hl by done. by injection Hl as <-.
  - destruct (method_char_at mem p m Ht Hm (length w) Hgt) as (c & _ & Hc & Hmc & _). rewrite Hsp in Hc. by subst c.
Qed.

Lemma ISMETHOD_text name m p : forallb capital name = true → name ≠ [] → forallb method_char m = true → text_at mem p (m ++ [32]) →
  ISMETHOD mem name p = bool_decide (lower m = lower name).
Proof.
  intros Hn Hne Hm Ht. apply Bool.eq_iff_eq_true. rewrite ISMETHOD_spec, bool_decide_eq_true by done. split.
  - intros (_ & He & Hsp). eapply word_here; try done. intros c Hc%list_elem_of_In. rewrite forallb_forall in Hn. apply Hn in Hc.
    unfold capital in Hc. unfold tolower. case_match; lia.
  - intros He. assert (Hlen : length name = length m) by (rewrite <- (length_fmap tolower m), <- (length_fmap tolower name); unfold lower in He; by rewrite He).
    apply text_at_snoc in Ht as [Ht Hend]. split; [done|]. rewrite Hlen, mem_bytes_text by done. done.
Qed.

Lemma is_reply_spec p : is_reply mem p = true ↔ lower (mem_bytes mem p 7) = lower SIP_VERSION ∧ mem (p + 7) = 32.
Proof.
  unfold is_reply. change (length SIP_VERSION - 1)%nat with (length (tail SIP_VERSION)). rewrite !andb_true_iff, !Z.eqb_eq, strncasecmp_eq;
    [|unfold mem_bytes; by rewrite length_fmap, length_seq|by repeat constructor].
  assert (Hfirst : (mem p =? chr "S") || (mem p =? chr "s") = true ↔ tolower (mem p) = tolower (chr "S")).
  { change (tolower (chr "S")) with 115. change (chr "S") with 83. change (chr "s") with 115. unfold tolower. destruct (Z.leb_spec 65 (mem p)), (Z.leb_spec (mem p) 90); cbn [andb]; lia. }
  rewrite Hfirst, mem_bytes_S. change (length (tail SIP_VERSION)) with 6%nat. change SIP_VERSION_LEN with 7.
  set (t := tail SIP_VERSION). change SIP_VERSION with (chr "S" :: t). unfold lower. rewrite !fmap_cons.
  generalize (tolower <$> mem_bytes mem (p + 1) 6) (tolower <$> t) (tolower (chr "S")). intros a b c. split.
  - by intros [[-> ->] ->].
  - by intros ([= -> ->] & ->).
Qed.

(** ** Lines as text *)

Definition token (c : byte) : bool := negb (is_ws c || is_eol c).

Lemma eat_token_text s c p end_ : forallb token s = true → is_ws c || is_eol c = true → text_at mem p (s ++ [c]) →
  p + Z.of_nat (length s) < end_ → eat_token_end mem p end_ = p + Z.of_nat (length s).
Proof. intros Hs Hc Ht He. unfold eat_token_end. by rewrite (scan_text mem end_ _ s c). Qed.

Lemma eat_space_text s c p end_ : forallb is_ws s = true → is_ws c = false → text_at mem p (s ++ [c]) →
  p + Z.of_nat (length s) < end_ → eat_space_end mem p end_ = p + Z.of_nat (length s).
Proof.
  intros Hs Hc Ht He. unfold eat_space_end. rewrite (scan_text mem end_ _ s c); try done; [|by rewrite Hc].
  rewrite <- Hs. clear. induction s as [|d s IH]; [done|]. cbn [forallb]. by rewrite IH, negb_involutive.
Qed.

Lemma eat_line_text s p end_ : forallb (λ c, negb (c =? 10)) s = true → text_at mem p (s ++ [10]) →
  let nl := p + Z.of_nat (length s) + 1 in nl < end_ → mem nl ≠ 13 → eat_line mem p (end_ - p) = nl.
Proof.
  intros Hs Ht nl He Hc. unfold eat_line. replace (p + (end_ - p)) with end_ by lia.
  rewrite (scan_text mem end_ _ s 10) by (done || unfold nl in *; lia).
  rewrite (proj2 (Z.ltb_lt _ end_)) by (unfold nl in *; lia). fold nl. rewrite (proj2 (Z.ltb_lt nl end_) He).
  destruct (Z.eqb_spec (mem nl) 13); [done|]. by rewrite andb_false_r.
Qed.
End first_line.

(** A request: the method, the URI, blanks, the version and blanks; a reply: the version,
    the status, blanks and the reason. *)
Inductive wline := WRequest (m uri sp ver sp2 : bytes) | WReply (ver status sp reason : bytes).

Definition write_line (l : wline) : bytes :=
  match l with
  | WRequest m uri sp ver sp2 => m ++ [32] ++ uri ++ sp ++ ver ++ sp2 ++ [13; 10]
  | WReply ver status sp reason => ver ++ [32] ++ status ++ sp ++ reason ++ [13; 10]
  end.

Definition nonempty (s : bytes) : bool := negb (bool_decide (s = [])).

Definition line_wf (l : wline) : bool :=
  match l with
  | WRequest m uri sp ver sp2 =>
      nonempty m && forallb method_char m && forallb token uri && nonempty sp && forallb is_ws sp &&
      nonempty ver && forallb token ver && forallb is_ws sp2
  | WReply ver status sp reason =>
      bool_decide (lower ver = lower SIP_VERSION) && bool_decide (length status = 3%nat) && forallb is_digit status &&
      nonempty sp && forallb is_ws sp && forallb (λ c, negb (is_eol c)) reason &&
      match head reason with Some c => negb (is_ws c) | None => true end
  end.

(** What is read of a line at [p]. *)
Definition line_read (p : Z) (l : wline) : msg_start :=
  let len s := Z.of_nat (length s) in
  match l with
  | WRequest m uri sp ver _ =>
      MsgStart SIP_REQUEST (len (write_line l)) (p, len m) (p + len m + 1, len uri)
        (p + len m + 1 + len uri + len sp, len ver) (method_id m)
  | WReply ver status sp reason =>
      MsgStart SIP_REPLY (len (write_line l)) (p, len ver) (p + len ver + 1, len status)
        (p + len ver + 1 + len status + len sp, len reason) (foldl (λ n c, n * 10 + (c - 48)) 0 status)
  end.

Section lines.
Context (mem : Z → byte).

(** The first token of a request. *)
Lemma first_token_request m p len fl : m ≠ [] → forallb method_char m = true → text_at mem p (m ++ [32]) →
  Z.of_nat (length m) < len →
  first_token mem p len fl = (Some (p + Z.of_nat (length m)),
    set_fl_value (method_id m) (set_first_len (Z.of_nat (length m)) (set_fl_type SIP_REQUEST fl))).
Proof.
  intros Hne Hm Ht Hlen. unfold first_token.
  destruct (is_reply mem p) eqn:Hr.
  { exfalso. apply is_reply_spec in Hr as [Hw Hsp]. 
    assert (Hl : lower m = lower SIP_VERSION).
    { eapply (word_here mem m SIP_VERSION p); [done|done| |done|done]. unfold SIP_VERSION. intros c Hc. repeat (apply elem_of_cons in Hc as [->|Hc]; [by vm_compute|]).
      by apply not_elem_of_nil in Hc. }
    assert (Hs : lower m !! 3%nat = Some 47) by (by rewrite Hl). unfold lower in Hs. rewrite list_lookup_fmap in Hs.
    destruct (m !! 3%nat) as [c|] eqn:Hc; [|done]. rewrite forallb_forall in Hm. apply list_elem_of_lookup_2, list_elem_of_In, Hm in Hc.
    injection Hs as Hs. unfold tolower in Hs. unfold method_char in Hc. destruct (_ && _) in Hs; lia. }
  destruct (list_find _ known_methods) as [[i [name value]]|] eqn:Hf.
  - apply list_find_Some in Hf as (Hi & He & _). cbn [fst] in He.
    assert (Hk : forallb capital name = true ∧ name ≠ [] ∧ method_id name = value).
    { do 5 (destruct i as [|i]; [by injection Hi as <- <-; vm_compute|]). done. }
    destruct Hk as (Hcap & Hn & Hv). rewrite (ISMETHOD_text mem name m) in He by done. apply bool_decide_eq_true in He.
    assert (Hlm : length name = length m) by (rewrite <- (length_fmap tolower m), <- (length_fmap tolower name); unfold lower in He; by rewrite He).
    rewrite Hlm. assert (Hid : method_id m = value) by (rewrite <- Hv; unfold method_id; by rewrite He). by rewrite Hid.
  - assert (Htok : forallb token m = true).
    { rewrite forallb_forall in *. intros c Hc%Hm. unfold method_char in Hc. unfold token, is_ws, is_eol. lia. }
    rewrite (eat_token_text mem m 32 p) by (done || lia). apply text_at_snoc in Ht as [Ht Hsp].
    assert (0 < length m)%nat by (destruct m; [done|simpl; lia]).
    rewrite (proj2 (Z.eqb_neq _ _)), (proj2 (Z.leb_gt _ _)) by lia. cbn [orb]. rewrite Hsp. change (negb (32 =? 32)) with false. cbv iota.
    rewrite (parse_method_text mem p m Ht Hm Hne). by replace (p + Z.of_nat (length m) - p) with (Z.of_nat (length m)) by lia.
Qed.

Lemma first_token_reply ver p len fl : lower ver = lower SIP_VERSION → text_at mem p (ver ++ [32]) →
  first_token mem p len fl = (Some (p + 7), set_first_len 7 (set_fl_type SIP_REPLY fl)) ∧ length ver = 7%nat.
Proof.
  intros Hv Ht. assert (Hlen : length ver = 7%nat).
  { rewrite <- (length_fmap tolower ver). unfold lower in Hv. by rewrite Hv. }
  split; [|done]. unfold first_token. assert (Hr : is_reply mem p = true).
  { apply is_reply_spec. apply text_at_snoc in Ht as [Ht Hsp]. rewrite Hlen in Hsp. split; [|done]. by rewrite <- Hlen, mem_bytes_text. }
  by rewrite Hr.
Qed.

Lemma token_head s t : s ≠ [] → forallb token s = true → match head (s ++ t) with Some c => negb (is_ws c) | None => false end = true.
Proof. destruct s as [|c s]; [done|]. cbn [forallb app head]. unfold token. intros _ Hs. apply andb_prop in Hs as [Hc _]. by apply negb_true_iff, orb_false_elim in Hc as [-> _]. Qed.

(** A token and the blanks after it. *)
Lemma two_parts tok sp c p end_ : forallb token tok = true → sp ≠ [] → forallb is_ws sp = true → is_ws c = false →
  text_at mem p (tok ++ sp ++ [c]) → p + Z.of_nat (length tok) + Z.of_nat (length sp) < end_ →
  eat_token_end mem p end_ = p + Z.of_nat (length tok) ∧
  eat_space_end mem (p + Z.of_nat (length tok)) end_ = p + Z.of_nat (length tok) + Z.of_nat (length sp).
Proof.
  intros Htok Hne Hsp Hc Ht He. split.
  - destruct sp as [|s sp]; [done|]. apply (eat_token_text mem tok s); [done| | |simpl length in He; lia].
    + cbn [forallb] in Hsp. by apply andb_prop in Hsp as [-> _].
    + change (s :: sp) with ([s] ++ sp) in Ht. rewrite <- app_assoc, app_assoc in Ht. by apply text_at_app in Ht as [? _].
  - apply (eat_space_text mem sp c); [done|done| |lia]. by apply text_at_app in Ht as [_ ?].
Qed.

(** The version of a request. *)
Lemma last_part_request ver sp2 p end_ : ver ≠ [] → forallb token ver = true → forallb is_ws sp2 = true →
  text_at mem p (ver ++ sp2 ++ [13; 10]) → p + Z.of_nat (length ver) + Z.of_nat (length sp2) < end_ →
  last_part mem SIP_REQUEST p end_ = Some (p + Z.of_nat (length ver)).
Proof.
  intros Hne Hver Hsp2 Ht He. unfold last_part. change (SIP_REQUEST =? SIP_REQUEST) with true. cbv iota.
  assert (Hend : ∃ c t, sp2 ++ [13; 10] = c :: t ∧ is_ws c || is_eol c = true).
  { destruct sp2 as [|c t]; [by exists 13, [10]|]. cbn [forallb] in Hsp2. apply andb_prop in Hsp2 as [Hc _].
    eexists c, _. split; [reflexivity|]. by rewrite Hc. }
  destruct Hend as (c & t & Het & Hcend). rewrite (eat_token_text mem ver c p end_ Hver Hcend); [|  |lia].
  2:{ rewrite Het in Ht. change (c :: t) with ([c] ++ t) in Ht. rewrite app_assoc in Ht. by apply text_at_app in Ht as [? _]. }
  apply text_at_app in Ht as [_ Ht]. assert (0 < length ver)%nat by (destruct ver; [done|simpl; lia]).
  rewrite (proj2 (Z.eqb_neq _ _)), (proj2 (Z.leb_gt _ _)) by lia. cbn [orb]. unfold is_empty_end.
  change [13; 10] with ([13] ++ [10]) in Ht. rewrite app_assoc in Ht. apply text_at_app in Ht as [Ht _].
  rewrite (eat_space_text mem sp2 13) by (done || lia). apply text_at_snoc in Ht as [_ ->]. by rewrite (proj2 (Z.ltb_lt _ _)) by lia.
Qed.

(** The reason of a reply. *)
Lemma last_part_reply reason p end_ : forallb (λ c, negb (is_eol c)) reason = true → text_at mem p (reason ++ [13]) →
  p + Z.of_nat (length reason) < end_ → last_part mem SIP_REPLY p end_ = Some (p + Z.of_nat (length reason)).
Proof.
  intros Hr Ht He. unfold last_part, eat_token2_end. change (SIP_REPLY =? SIP_REQUEST) with false. cbv iota.
  rewrite (scan_text mem end_ _ reason 13); [by rewrite (proj2 (Z.leb_gt _ _)) by lia| |done|done|done].
  rewrite <- Hr. clear. induction reason as [|c r IH]; [done|]. cbn [forallb]. rewrite IH. f_equal. unfold is_eol. f_equal.
  by destruct (c =? 13), (c =? 10).
Qed.

(** The two other parts: a token, blanks, the last part and the end of the line. *)
Lemma other_parts_text tok sp rest s value ty buffer p end_ fl : fl_type fl = ty →
  forallb token tok = true → sp ≠ [] → forallb is_ws sp = true →
  match head (rest ++ s ++ [13; 10]) with Some c => negb (is_ws c) | None => false end = true →
  forallb (λ c, negb (c =? 10)) s = true → text_at mem p (tok ++ sp ++ rest ++ s ++ [13; 10]) →
  (if ty =? SIP_REPLY then status_code mem p (Z.of_nat (length tok)) else Some (fl_value fl)) = Some value →
  let q := p + Z.of_nat (length tok) + Z.of_nat (length sp) in
  last_part mem ty q end_ = Some (q + Z.of_nat (length rest)) →
  let nl := q + Z.of_nat (length rest) + Z.of_nat (length s) + 2 in nl < end_ → mem nl ≠ 13 →
  other_parts mem buffer p end_ fl = (Some nl,
    MsgStart ty (nl - buffer) (fl_first fl) (p, Z.of_nat (length tok)) (q, Z.of_nat (length rest)) value).
Proof.
  intros Hty Htok Hsp Hws Hhd Hs Ht Hval q Hlast nl Hnl Hc. unfold other_parts.
  destruct (rest ++ s ++ [13; 10]) as [|c t] eqn:Hr; [done|]. cbn [head] in Hhd. apply negb_true_iff in Hhd.
  assert (Ht2 : text_at mem p (tok ++ sp ++ [c])).
  { change (c :: t) with ([c] ++ t) in Ht. rewrite !app_assoc in Ht. apply text_at_app in Ht as [Ht _]. by rewrite <- app_assoc in Ht. }
  destruct (two_parts tok sp c p end_ Htok Hsp Hws Hhd Ht2 ltac:(unfold nl, q in *; lia)) as [-> ->]. fold q.
  assert (0 < length sp)%nat by (destruct sp; [done|simpl; lia]).
  rewrite (proj2 (Z.leb_gt _ _)), (proj2 (Z.eqb_neq _ _)) by (unfold nl, q in *; lia). cbn [fl_type set_second set_fl_value fl_value].
  rewrite Hty. replace (p + Z.of_nat (length tok) - p) with (Z.of_nat (length tok)) by lia. rewrite Hval, Hlast.
  rewrite app_assoc, <- Hr in Ht. apply text_at_app in Ht as [_ Ht]. apply text_at_app in Ht as [_ Ht]. rewrite length_app in Ht.
  replace (p + Z.of_nat (length tok + length sp) + Z.of_nat (length rest)) with (q + Z.of_nat (length rest)) in Ht by (unfold q; lia).
  assert (Hl : nl = q + Z.of_nat (length rest) + Z.of_nat (length (s ++ [13])) + 1) by (rewrite length_app; simpl length; unfold nl; lia).
  rewrite (eat_line_text mem (s ++ [13]) _ end_), <- Hl; [| |by rewrite <- app_assoc|by rewrite <- Hl|by rewrite <- Hl].
  - rewrite (proj2 (Z.leb_gt end_ _)) by lia. unfold set_third, set_fl_value, set_second. cbn [fl_type fl_first fl_second fl_value]. rewrite Hty.
    repeat f_equal; lia.
  - rewrite forallb_app, Hs. done.
Qed.

Lemma status_code_text s p : length s = 3%nat → forallb is_digit s = true → text_at mem p s →
  status_code mem p (Z.of_nat (length s)) = Some (foldl (λ n c, n * 10 + (c - 48)) 0 s).
Proof.
  intros Hl Hd Ht. destruct s as [|s1 [|s2 [|s3 [|]]]]; try done. unfold status_code. cbn [length Z.of_nat].
  apply text_at_cons in Ht as [-> Ht]. apply text_at_cons in Ht as [-> Ht].
  replace (p + 2) with (p + 1 + 1) by lia. apply text_at_cons in Ht as [-> _].
  cbn [forallb] in Hd. apply andb_prop in Hd as [-> [-> [-> _]%andb_prop]%andb_prop]. cbn. f_equal. lia.
Qed.

(** A first line that another line follows is read. *)
Lemma parse_first_line_text l p len fl : line_wf l = true → text_at mem p (write_line l) → 16 < len →
  let nl := p + Z.of_nat (length (write_line l)) in nl < p + len → mem nl ≠ 13 →
  parse_first_line mem p len fl = (nl, line_read p l).
Proof.
  intros Hwf Ht Hlen nl Hnl Hc. unfold nl in *. clear nl. unfold parse_first_line. rewrite (proj2 (Z.leb_gt _ _)) by done.
  assert (Hnv : ∀ s, nonempty s = true → s ≠ []) by (intros s H%negb_true_iff; by apply bool_decide_eq_false in H).
  destruct l as [m uri sp ver sp2|ver status sp reason]; cbn [write_line line_wf line_read] in *.
  - repeat apply andb_prop in Hwf as [Hwf ?]. rewrite !length_app in *. simpl (length [_]) in *. simpl (length [_; _]) in *.
    rewrite app_assoc in Ht. apply text_at_app in Ht as [Ht1 Ht2]. rewrite length_app in Ht2. simpl length in Ht2.
    rewrite (first_token_request m) by (auto || lia). set (fl1 := set_first_s _ _).
    replace (p + Z.of_nat (length m + 1)) with (p + Z.of_nat (length m) + 1) in Ht2 by lia.
    pose proof (other_parts_text uri sp ver sp2 (method_id m) SIP_REQUEST p (p + Z.of_nat (length m) + 1) (p + len) fl1) as Hop. cbv zeta in Hop.
    rewrite Hop; auto; try lia.
    + f_equal; [lia|]. f_equal; lia.
    + by apply token_head; auto.
    + rewrite forallb_forall in *. intros c Hc'. assert (is_ws c = true) by auto. unfold is_ws in *. lia.
    + apply (last_part_request ver sp2); auto; [|lia]. rewrite app_assoc in Ht2. apply text_at_app in Ht2 as [_ Ht2]. rewrite length_app in Ht2.
      by replace (p + Z.of_nat (length m) + 1 + Z.of_nat (length uri) + Z.of_nat (length sp)) with (p + Z.of_nat (length m) + 1 + Z.of_nat (length uri + length sp)) by lia.
    + intros E. apply Hc. rewrite <- E. f_equal. lia.
  - repeat apply andb_prop in Hwf as [Hwf ?]. apply bool_decide_eq_true in Hwf. rewrite !length_app in *. simpl (length [_]) in *. simpl (length [_; _]) in *.
    rewrite app_assoc in Ht. apply text_at_app in Ht as [Ht1 Ht2]. rewrite length_app in Ht2. simpl length in Ht2.
    destruct (first_token_reply ver p len fl Hwf Ht1) as [-> H7]. rewrite H7 in *. set (fl1 := set_first_s _ _).
    change (p + Z.of_nat (7 + 1)) with (p + (7 + 1)) in Ht2. rewrite Z.add_assoc in Ht2.
    assert (Hst : length status = 3%nat) by (by apply (bool_decide_eq_true _)).
    pose proof (status_code_text status _ Hst ltac:(done) (proj1 (proj1 (text_at_app _ _ _ _) Ht2))) as Hcode.
    pose proof (other_parts_text status sp reason [] (foldl (λ n c, n * 10 + (c - 48)) 0 status) SIP_REPLY p (p + 7 + 1) (p + len) fl1) as Hop. cbv zeta in Hop.
    rewrite Hop; auto; simpl (length []); try lia.
    + f_equal; [lia|]. f_equal; lia.
    + rewrite forallb_forall in *. intros c Hd%H3. unfold is_digit in Hd. unfold token, is_ws, is_eol. lia.
    + by destruct reason.
    + apply last_part_reply; [done| |lia]. rewrite app_assoc in Ht2. apply text_at_app in Ht2 as [_ Ht2]. rewrite length_app in Ht2.
      change [13; 10] with ([13] ++ [10]) in Ht2. rewrite app_assoc in Ht2. apply text_at_app in Ht2 as [Ht2 _].
      by replace (p + 7 + 1 + Z.of_nat (length status) + Z.of_nat (length sp)) with (p + 7 + 1 + Z.of_nat (length status + length sp)) by lia.
    + intros E. apply Hc. rewrite <- E. f_equal. lia.
Qed.
End lines.
