(* ===== verification/MsgComposed.v ===== *)
(** * Messages read back

    A request or a reply written as text, with its first line, plain header fields and To,
    Via, CSeq and Content-Length fields, is read back by [parse_msg] with the body parsers
    of the program: the composition of the parsers of the first line, of the header names
    and of the bodies. *)

From stdpp Require Import prelude list strings fin_maps.
From Stdlib Require Import ZArith Lia Ascii.
From S2P Require Import Prelude CString UriParser HdrNames HdrNamesSpec HdrBodies ToParser ScanRuns MsgHeaders MsgHeadersSpec MsgHeadersProps MsgRoundtrip.
From S2P Require Import ToRoundtrip ViaParser ViaWords ViaRoundtrip MsgBodies MsgStart MsgStartFacts.

(** ** CSeq and Content-Length *)

Section bodies.
Context (mem : Z → byte) (end_ : Z).

Lemma parse_cseq_text num sp m s p : forallb token num = true → sp ≠ [] → forallb is_ws sp = true → m ≠ [] → forallb method_char m = true →
  forallb is_ws s = true → text_at mem p (num ++ sp ++ m ++ s ++ [13; 10]) →
  let next := p + Z.of_nat (length (num ++ sp ++ m ++ s)) + 2 in next < end_ → is_ws (mem next) = false →
  parse_cseq mem p end_ = Some (next, mk_cseq (p, Z.of_nat (length num)) (p + Z.of_nat (length (num ++ sp)), Z.of_nat (length m)) (method_id m)).
Proof.
  intros Hnum Hne Hsp Hm Hmc Hs Ht next Hn Hnext. unfold next in *. clear next. rewrite !length_app in *. unfold parse_cseq.
  assert (Htok : forallb token m = true).
  { rewrite forallb_forall in *. intros c Hc%Hmc. unfold method_char in Hc. unfold token, is_ws, is_eol. lia. }
  pose proof (token_head m (s ++ [13; 10]) Hm Htok) as Hh. destruct (m ++ s ++ [13; 10]) as [|c t] eqn:Hr; [done|]. cbn [head] in Hh. apply negb_true_iff in Hh.
  assert (Ht2 : text_at mem p (num ++ sp ++ [c])).
  { change (c :: t) with ([c] ++ t) in Ht. rewrite !app_assoc in Ht. apply text_at_app in Ht as [Ht _]. by rewrite <- app_assoc in Ht. }
  destruct (two_parts mem num sp c p end_ Hnum Hne Hsp Hh Ht2 ltac:(lia)) as [-> ->].
  rewrite <- Hr in Ht. rewrite app_assoc in Ht. apply text_at_app in Ht as [_ Ht]. rewrite length_app in Ht.
  set (q := p + Z.of_nat (length num + length sp)) in *.
  replace (p + Z.of_nat (length num) + Z.of_nat (length sp)) with q by (unfold q; lia).
  rewrite (proj2 (Z.leb_gt _ _)) by lia.
  assert (Hend : ∃ d u, s ++ [13; 10] = d :: u ∧ is_ws d || is_eol d = true).
  { destruct s as [|d u]; [by exists 13, [10]|]. cbn [forallb] in Hs. apply andb_prop in Hs as [Hd _]. eexists d, _. split; [reflexivity|]. by rewrite Hd. }
  destruct Hend as (d & u & Hdu & Hd). rewrite (eat_token_text mem m d q end_ Htok Hd); [| |unfold q; lia].
  2:{ rewrite Hdu in Ht. change (d :: u) with ([d] ++ u) in Ht. rewrite app_assoc in Ht. by apply text_at_app in Ht as [? _]. }
  apply text_at_app in Ht as [Htm Ht]. assert (0 < length m)%nat by (destruct m; [done|simpl; lia]).
  rewrite (proj2 (Z.leb_gt _ _)), (proj2 (Z.eqb_neq _ _)), (parse_method_text mem q m Htm Hmc Hm) by (unfold q; lia).
  apply text_at_app in Ht as [Hts Ht]. apply text_at_cons in Ht as [H13 Ht]. apply text_at_cons in Ht as [H10 _].
  set (e := q + Z.of_nat (length m) + Z.of_nat (length s)) in *.
  assert (He : e + 2 = p + Z.of_nat (length num + (length sp + (length m + length s))) + 2) by (unfold e, q; lia). rewrite <- He in *.
  assert (Hlws : eat_lws_end mem (q + Z.of_nat (length m)) end_ = e).
  { apply eat_lws_blanks; [done|done|fold e; lia|fold e; by rewrite H13|fold e]. right. done. }
  rewrite Hlws, (proj2 (Z.leb_gt _ _)), H13, (proj2 (Z.ltb_lt _ _)), H10 by lia. cbn. repeat f_equal; unfold q; lia.
Qed.

(** The digits can be read without a possible overflow. *)
Fixpoint fits (n : Z) (ds : bytes) : bool :=
  match ds with [] => true | d :: ds => (n <? INT_MAX / 10) && fits (n * 10 + (d - 48)) ds end.

Definition decimal (ds : bytes) : Z := foldl (λ n d, n * 10 + (d - 48)) 0 ds.

Lemma cl_number_text ds c : ∀ k p n, forallb is_digit ds = true → fits n ds = true → text_at mem p (ds ++ [c]) → is_digit c = false →
  (length ds < k)%nat → cl_number mem k p n = Some (p + Z.of_nat (length ds), foldl (λ n d, n * 10 + (d - 48)) n ds).
Proof.
  induction ds as [|d ds IH]; intros k p n Hd Hf Ht Hc Hk; (destruct k as [|k]; [lia|]); cbn [cl_number app] in *;
    apply text_at_cons in Ht as [Hm Ht]; rewrite Hm.
  - unfold is_digit in Hc. rewrite Hc. simpl length. by rewrite Z.add_0_r.
  - cbn [forallb fits foldl] in *. apply andb_prop in Hd as [Hd Hds]. apply andb_prop in Hf as [Hn Hf]. unfold is_digit in Hd. rewrite Hd.
    rewrite (proj2 (Z.leb_gt _ _)) by lia. simpl length in *. rewrite (IH k (p + 1)) by (done || lia). do 2 f_equal. lia.
Qed.

Lemma cl_trail_text s : ∀ k p, forallb is_ws s = true → text_at mem p (s ++ [13]) → (length s < k)%nat →
  cl_trail mem k p end_ = p + Z.of_nat (length s).
Proof.
  induction s as [|c s IH]; intros k p Hs Ht Hk; (destruct k as [|k]; [lia|]); cbn [cl_trail app] in *; apply text_at_cons in Ht as [Hm Ht]; rewrite Hm.
  - cbn. lia.
  - cbn [forallb] in Hs. apply andb_prop in Hs as [Hc Hs]. rewrite Hc. cbn [orb]. simpl length in *. rewrite (IH k (p + 1)) by (done || lia). lia.
Qed.

Lemma parse_content_length_text ds s p : ds ≠ [] → forallb is_digit ds = true → fits 0 ds = true → forallb is_ws s = true →
  text_at mem p (ds ++ s ++ [13; 10]) →
  let next := p + Z.of_nat (length (ds ++ s)) + 2 in next < end_ →
  parse_content_length mem p end_ = Some (next, decimal ds).
Proof.
  intros Hne Hd Hf Hs Ht next Hn. unfold next in *. clear next. rewrite !length_app in *. unfold parse_content_length.
  assert (0 < length ds)%nat by (destruct ds; [done|simpl; lia]).
  assert (Hlead : cl_lead mem (dist p end_) p end_ = p).
  { unfold dist. destruct (Z.to_nat (end_ - p)) eqn:E; [done|]. cbn [cl_lead]. destruct ds as [|d ds]; [done|]. cbn [app forallb] in *.
    apply text_at_cons in Ht as [-> _]. apply andb_prop in Hd as [Hd _]. unfold is_digit in Hd. unfold is_ws.
    rewrite !(proj2 (Z.eqb_neq d _)) by lia. done. }
  rewrite Hlead, (proj2 (Z.eqb_neq _ _)) by lia.
  assert (Hc : ∃ c t, s ++ [13; 10] = c :: t ∧ is_digit c = false).
  { destruct s as [|c t]; [by exists 13, [10]|]. cbn [forallb] in Hs. apply andb_prop in Hs as [Hc _]. eexists c, _. split; [reflexivity|].
    unfold is_ws in Hc. unfold is_digit. lia. }
  destruct Hc as (c & t & Hct & Hc). rewrite (cl_number_text ds c); [| done | done | | done |unfold dist; lia].
  2:{ rewrite Hct in Ht. change (c :: t) with ([c] ++ t) in Ht. rewrite app_assoc in Ht. by apply text_at_app in Ht as [? _]. }
  rewrite !(proj2 (Z.eqb_neq _ _)) by lia. cbn [orb]. apply text_at_app in Ht as [_ Ht]. change [13; 10] with ([13] ++ [10]) in Ht.
  rewrite app_assoc in Ht. assert (Ht' := Ht). apply text_at_app in Ht' as [Hts _]. rewrite (cl_trail_text s) by (done || unfold dist; lia).
  rewrite <- app_assoc in Ht. apply text_at_app in Ht as [_ Ht]. apply text_at_cons in Ht as [H13 Ht]. apply text_at_cons in Ht as [H10 _].
  rewrite (proj2 (Z.eqb_neq _ end_)) by lia. rewrite H13, H10, (proj2 (Z.eqb_neq _ end_)) by lia.
  cbn. unfold decimal. do 2 f_equal. lia.
Qed.
End bodies.

(** ** Fields and their bodies *)

Inductive wbody :=
  | BPlain (s : bytes)
  | BTo (a : waddr)
  | BVia (w : wvia) (l : list (bytes * wvia))
  | BCseq (num sp m s : bytes)
  | BLength (ds s : bytes).

Definition write_body (b : wbody) : bytes :=
  match b with
  | BPlain s => s
  | BTo a => write_addr a
  | BVia w l => write_vias w l
  | BCseq num sp m s => num ++ sp ++ m ++ s
  | BLength ds s => ds ++ s
  end.

Record mfield := MField { mf_name : bytes; mf_ws : bytes; mf_sp : bytes; mf_body : wbody }.

Definition as_field (f : mfield) : field := mk_field_text (mf_name f) (mf_ws f) (mf_sp f) (write_body (mf_body f)).
Definition mf_type (f : mfield) : hdr_types_t := hdr_type_of (mf_name f) (mf_ws f).

Definition body_wf (ty : hdr_types_t) (b : wbody) : bool :=
  match b with
  | BPlain _ => skipped ty
  | BTo a => bool_decide (ty = HDR_TO_T) && addr_wf a
  | BVia w l => bool_decide (ty = HDR_VIA_T) && vias_wf w l
  | BCseq num sp m s =>
      bool_decide (ty = HDR_CSEQ_T) && forallb token num && nonempty sp && forallb is_ws sp && nonempty m &&
      forallb method_char m && forallb is_ws s
  | BLength ds s =>
      bool_decide (ty = HDR_CONTENTLENGTH_T) && nonempty ds && forallb is_digit ds && fits 0 ds && forallb is_ws s
  end.

(** A field that cannot be taken for the continuation of the one before it. *)
Definition mfield_ok (f : mfield) : bool :=
  field_ok (as_field f) && body_wf (mf_type f) (mf_body f) && match mf_name f with c :: _ => to_next c | [] => false end.

(** What is read of a body. *)
Definition body_read (mem : Z → byte) (b : wbody) (o : option parsed_body) : Prop :=
  match b with
  | BPlain _ => o = None
  | BTo a => ∃ t, o = Some (ParsedTo t) ∧ addr_view mem t = wa_view a
  | BVia w l => ∃ v, o = Some (ParsedVia v) ∧ via_view mem <$> v = wv_view <$> w :: l.*2
  | BCseq num sp m _ => ∃ c, o = Some (ParsedCseq c) ∧ mem_bytes mem (cs_number c).1 (Z.to_nat (cs_number c).2) = num ∧
      mem_bytes mem (cs_method c).1 (Z.to_nat (cs_method c).2) = m ∧ cs_method_id c = method_id m
  | BLength ds _ => o = Some (ParsedLength (decimal ds))
  end.

Section fields.
Context (mem : Z → byte) (Hmem : ∀ a, 0 <= mem a < 256) (end_ : Z).

(** The parser of the body at [b] goes to the next line and its result is what was written. *)
Definition reads_body (ty : hdr_types_t) (name : Z * Z) (w : wbody) (b : Z) : Prop :=
  let next := b + Z.of_nat (length (write_body w)) + 2 in
  ∃ o, body_read mem w o ∧
    (if skipped ty then (body_skip mem ty name b end_, [])
     else match ty with
       | HDR_VIA_T => body_parse mem [] (λ al, MsgHeaders.parse_via mem al b end_) ParsedVia ty name b
       | HDR_CSEQ_T => body_parse mem [] (λ al, (parse_cseq mem b end_, al)) ParsedCseq ty name b
       | HDR_TO_T => body_parse mem [] (λ al, MsgHeaders.parse_to mem al b end_) ParsedTo ty name b
       | HDR_CONTENTLENGTH_T =>
           (match parse_content_length mem b end_ with
            | Some (next, n) => mk_field mem ty name b next (Some (ParsedLength n)) | None => HfError end, [])
       | _ => (HfError, [])
       end) = (mk_field mem ty name b next o, []).

Lemma nonempty_ne s : nonempty s = true → s ≠ [].
Proof. intros H%negb_true_iff. by apply bool_decide_eq_false in H. Qed.

Lemma reads_to ty name a b : bool_decide (ty = HDR_TO_T) && addr_wf a = true → end_ - b <= INT_MAX →
  text_at mem b (write_addr a ++ [13; 10]) → b + Z.of_nat (length (write_addr a)) + 2 < end_ →
  to_next (mem (b + Z.of_nat (length (write_addr a)) + 2)) = true → reads_body ty name (BTo a) b.
Proof.
  intros Hwf HE Ht He Hc. apply andb_prop in Hwf as [Hty Ha]. apply (bool_decide_eq_true _) in Hty as ->.
  destruct (t_addrs mem false end_ b HE [a] b [] ltac:(lia)) as (bs & Hbs & Hend); [done|cbn; by rewrite Ha|right; simpl; lia|done|done|done|].
  destruct bs as [|t [|]]; [done| |done]. cbn [fmap list_fmap app] in Hbs, Hend. injection Hbs as Hv.
  exists (Some (@ParsedTo opensips_parsers t)). split; [by exists t|]. cbn [skipped]. unfold body_parse. cbn [pkg_alloc MsgHeaders.parse_to opensips_parsers].
  assert (Hp : ToParser.parse_to mem [] b end_ = (TrOk (b + Z.of_nat (length (write_addr a)) + 2) [t], [])).
  { unfold ToParser.parse_to, _parse_to. by apply Hend. }
  rewrite Hp. assert (Herr : tb_error t = false).
  { change (tb_error t) with (v_error (addr_view mem t)). rewrite Hv. unfold wa_view. rewrite add_view_error. by destruct (wa_form a). }
  unfold to_bodies. rewrite Herr. done.
Qed.

Lemma reads_via ty name w l b : bool_decide (ty = HDR_VIA_T) && vias_wf w l = true → 0 < b → end_ - b <= INT_MAX →
  text_at mem b (write_vias w l ++ [13; 10]) → b + Z.of_nat (length (write_vias w l)) + 2 < end_ →
  via_next_char (mem (b + Z.of_nat (length (write_vias w l)) + 2)) = true → reads_body ty name (BVia w l) b.
Proof.
  intros Hwf H0 HE Ht He Hc. apply andb_prop in Hwf as [Hty Hw]. apply (bool_decide_eq_true _) in Hty as ->.
  destruct (via_loop_text mem end_ b HE H0 l w (S (dist b end_)) [] b ltac:(lia) Hw) as (v & Hv & Hview); [|done|done|done|].
  { unfold dist. pose proof (write_more_length l). unfold write_vias in He. rewrite length_app in He. lia. }
  exists (Some (@ParsedVia opensips_parsers v)). split; [by exists v|]. cbn [skipped]. unfold body_parse.
  cbn [pkg_alloc MsgHeaders.parse_via opensips_parsers]. unfold ViaParser.parse_via. by rewrite Hv.
Qed.

(** Every body is read by the parser of its type. *)
Lemma reads_written ty name w b : body_wf ty w = true → 0 < b → end_ - b <= INT_MAX → folded (write_body w ++ [13; 10]) = true →
  text_at mem b (write_body w ++ [13; 10]) → let next := b + Z.of_nat (length (write_body w)) + 2 in next < end_ →
  to_next (mem next) = true → reads_body ty name w b.
Proof.
  intros Hwf H0 HE Hfold Ht next Hn Hc. unfold next in *. clear next.
  assert (Hnws : is_ws (mem (b + Z.of_nat (length (write_body w)) + 2)) = false).
  { unfold to_next in Hc. apply negb_true_iff in Hc. by do 3 apply orb_false_elim in Hc as [Hc _]. }
  destruct w as [s|a|w l|num sp m s|ds s]; cbn [write_body body_wf] in *.
  - exists None. split; [done|]. rewrite Hwf. unfold body_skip, skip_body. rewrite (skip_lines_folded mem end_ _ (s ++ [13; 10])); try done.
    + rewrite length_app. simpl length. by replace (b + Z.of_nat (length s + 2)) with (b + Z.of_nat (length s) + 2) by lia.
    + rewrite length_app. simpl length. unfold dist. lia.
    + by rewrite last_app.
    + rewrite length_app. simpl length. lia.
    + rewrite length_app. simpl length. rewrite <- Hnws. do 2 f_equal. lia.
  - by apply reads_to.
  - apply reads_via; try done. unfold to_next in Hc. unfold via_next_char. apply negb_true_iff in Hc.
    do 2 apply orb_false_elim in Hc as [Hc _]. by rewrite Hc.
  - repeat apply andb_prop in Hwf as [Hwf ?]. apply (bool_decide_eq_true _) in Hwf as ->. unfold reads_body. cbn [skipped write_body body_read].
    rewrite <- !app_assoc in Ht.
    rewrite (parse_cseq_text mem end_ num sp m s b) by (done || by apply nonempty_ne). eexists (Some (ParsedCseq _)).
    split; [|reflexivity]. eexists. split; [reflexivity|]. cbn [cs_number cs_method cs_method_id fst snd]. rewrite !Nat2Z.id.
    apply text_at_app in Ht as [Hnum Ht]. apply text_at_app in Ht as [Hsp Ht]. apply text_at_app in Ht as [Hm _].
    split; [by apply mem_bytes_text|]. split; [|done]. apply mem_bytes_text. rewrite length_app.
    by replace (b + Z.of_nat (length num + length sp)) with (b + Z.of_nat (length num) + Z.of_nat (length sp)) by lia.
  - repeat apply andb_prop in Hwf as [Hwf ?]. apply (bool_decide_eq_true _) in Hwf as ->. unfold reads_body. cbn [skipped write_body body_read].
    rewrite <- !app_assoc in Ht. rewrite (parse_content_length_text mem end_ ds s b) by (done || by apply nonempty_ne). by eexists.
Qed.
(** The field read at [p] with a parsed body. *)
Definition mfield_hdr (p : Z) (f : mfield) (o : option parsed_body) : hdr_field :=
  let '(ty, name, body, len) := read_key p (as_field f) in mk_hdr ty name body len o None.

Lemma get_hdr_field_written p f : mfield_ok f = true → text_at mem p (render (as_field f)) → 0 < p → end_ - p <= INT_MAX →
  let next := p + Z.of_nat (length (render (as_field f))) in next < end_ → to_next (mem next) = true →
  ∃ o, body_read mem (mf_body f) o ∧ get_hdr_field_aux mem [] p end_ true = (HfOk (mfield_hdr p f o) next, []).
Proof.
  intros Hok Ht H0 HE next Hn Hc. unfold next in *. clear next. unfold mfield_ok in Hok. apply andb_prop in Hok as [[Hok Hwf]%andb_prop _].
  assert (Hnws : is_ws (mem (p + Z.of_nat (length (render (as_field f))))) = false).
  { unfold to_next in Hc. apply negb_true_iff in Hc. by do 3 apply orb_false_elim in Hc as [Hc _]. }
  destruct (hdr_name_text mem Hmem end_ p _ Hok Ht Hn Hnws) as (Heol & Htbody & Hbe & Hbend & q & Hq & Hq').
  cbn [as_field fd_name fd_ws fd_sp fd_body] in Htbody, Hbe, Hbend, Hq, Hq'. set (b := p + Z.of_nat (_ + length (mf_sp f))) in *. rewrite <- Hbend in *.
  unfold field_ok in Hok. apply andb_prop in Hok as [[_ Hlast]%andb_prop Hfold]. cbn [as_field fd_body] in Hlast, Hfold.
  destruct (reads_written (mf_type f) (p, Z.of_nat (length (mf_name f))) (mf_body f) b Hwf) as (o & Ho & Hread); try done; [unfold b; lia|unfold b in *; lia|].
  exists o. split; [done|]. unfold get_hdr_field_aux. rewrite Heol, Hq, Hq', (proj2 (Z.leb_gt _ _)) by done. fold (mf_type f). etransitivity; [exact Hread|].
  f_equal. unfold mk_field. replace (_ - b) with (Z.of_nat (length (write_body (mf_body f))) + 2) by lia. rewrite trim_r_body by done.
  unfold mfield_hdr, read_key. cbn [as_field fd_name fd_ws fd_sp fd_body fst]. do 2 f_equal. change (mk_field_text _ _ _ _) with (as_field f). lia.
Qed.

Lemma written_head f fs : mfield_ok f = true → ∃ c t, render_all (as_field <$> f :: fs) = c :: t ∧ to_next c = true ∧ is_eol c = false.
Proof.
  unfold mfield_ok. intros [[Hok _]%andb_prop Hc]%andb_prop. unfold field_ok in Hok. do 5 apply andb_prop in Hok as [Hok _].
  apply andb_prop in Hok as [_ Hpl]. cbn [as_field fd_name] in Hpl. rewrite fmap_cons, render_all_cons. unfold render at 1. cbn [as_field fd_name].
  destruct (mf_name f) as [|c n]; [done|]. eexists c, _. split; [reflexivity|]. split; [done|]. cbn [forallb] in Hpl.
  apply andb_prop in Hpl as [Hc' _]. unfold plain in Hc'. unfold is_eol. lia.
Qed.
End fields.

(** ** The fields of a message *)

Section loop.
Context (mem : Z → byte) (Hmem : ∀ a, 0 <= mem a < 256).

Lemma ph_loop_written fs : ∀ n m p, (length fs < n)%nat → forallb mfield_ok fs = true → 0 < p → msg_end m - p <= INT_MAX →
  text_at mem p (render_all (as_field <$> fs)) → p + Z.of_nat (length (render_all (as_field <$> fs))) <= msg_end m → 0 <= parsed_flag m < 2 ^ 57 →
  let q := p + Z.of_nat (length (render_all (as_field <$> fs))) - 2 in
  ∃ m' os, ph_loop mem n [] m p (HDR_T2F HDR_EOH_T) true = PhSkip (add_flag (with_eoh m' q) HDR_EOH_T) q [] ∧
    hdr_key <$> headers m' = (hdr_key <$> headers m) ++ read_all p (as_field <$> fs) ∧
    hf_parsed <$> headers m' = (hf_parsed <$> headers m) ++ os ∧ Forall2 (body_read mem) (mf_body <$> fs) os.
Proof.
  induction fs as [|f fs IH]; intros n m p Hn Hok H0 HE Ht He Hf; (destruct n as [|n]; [lia|]); cbv zeta;
    cbn [ph_loop pkg_alloc]; rewrite (unsatisfied_eoh _ Hf), andb_true_r.
  - cbn in Ht, He |- *. rewrite (proj2 (Z.ltb_lt _ _)) by lia. apply text_at_cons in Ht as [H13 _].
    unfold get_hdr_field_aux. rewrite H13. cbn. exists m, []. split; [|by rewrite !app_nil_r].
    by replace (p + Z.of_nat 2 - 2) with p by lia.
  - cbn [forallb] in Hok. apply andb_prop in Hok as [Hfok Hok]. rewrite fmap_cons, render_all_cons in Ht, He |- *.
    apply text_at_app in Ht as [Htf Ht]. rewrite length_app in He |- *.
    assert (Hnext : ∃ c t, render_all (as_field <$> fs) = c :: t ∧ to_next c = true).
    { destruct fs as [|f' fs]; [by exists 13, [10]|]. cbn [forallb] in Hok. apply andb_prop in Hok as [Hf' _].
      destruct (written_head f' fs Hf') as (c & t & ? & ? & _). by exists c, t. }
    destruct Hnext as (c & t & Hr & Hc).
    assert (Hlen : (0 < length (render_all (as_field <$> fs)))%nat) by (rewrite Hr; simpl; lia).
    rewrite (proj2 (Z.ltb_lt _ _)) by lia.
    destruct (get_hdr_field_written mem Hmem (msg_end m) p f Hfok Htf H0 HE ltac:(lia)) as (o & Ho & Hg).
    { rewrite Hr in Ht. by apply text_at_cons in Ht as [-> _]. }
    rewrite Hg. destruct (add_hdr m (mfield_hdr p f o)) as [m1|] eqn:Ha.
    2:{ exfalso. unfold add_hdr, link_hdr in Ha. pose proof (hdr_type_of_kind (mf_name f) (mf_ws f)) as Hk.
        change (hf_type (mfield_hdr p f o)) with (hdr_type_of (mf_name f) (mf_ws f)) in Ha. by destruct (hdr_kind _) as [[]|]. }
    destruct (add_hdr_frame m _ m1 Ha) as (He1 & _ & _). destruct (add_hdr_keys m _ m1 Ha) as [Hk1 Hf1].
    pose proof (add_hdr_fmap hf_parsed m _ m1 (λ _ _, eq_refl) Ha) as Hp1.
    destruct (IH n m1 (p + Z.of_nat (length (render (as_field f))))) as (m' & os & Hl & Hk & Hps & Hos); [simpl in Hn; lia|done|lia|lia|done|lia|by apply Hf1|].
    exists m', (o :: os). split; [|split; [|split]].
    + rewrite Hl. replace (p + Z.of_nat (length (render (as_field f))) + Z.of_nat (length (render_all (as_field <$> fs))) - 2) with
        (p + Z.of_nat (length (render (as_field f)) + length (render_all (as_field <$> fs))) - 2) by lia. done.
    + rewrite Hk, Hk1, <- app_assoc. done.
    + rewrite Hps, Hp1, <- app_assoc. done.
    + rewrite fmap_cons. by constructor.
Qed.
End loop.

(** ** The theorem *)

Lemma line_head l : line_wf l = true → ∃ c t, write_line l = c :: t ∧ is_eol c = false.
Proof.
  destruct l as [m uri sp ver sp2|ver status sp reason]; cbn [line_wf write_line]; intros Hwf; repeat apply andb_prop in Hwf as [Hwf ?].
  - destruct m as [|c m]; [done|]. eexists c, _. split; [reflexivity|].
    match goal with H : forallb method_char _ = true |- _ => cbn [forallb] in H; apply andb_prop in H as [Hc _] end.
    unfold method_char in Hc. unfold is_eol. lia.
  - apply bool_decide_eq_true in Hwf. destruct ver as [|c ver]; [done|]. eexists c, _. split; [reflexivity|].
    unfold lower in Hwf. rewrite fmap_cons in Hwf. apply (f_equal head) in Hwf. cbn [head] in Hwf. injection Hwf as Hc.
    change (tolower (chr "S")) with 115 in Hc. unfold tolower in Hc. unfold is_eol. destruct (_ && _) in Hc; lia.
Qed.

(** C4. A written message is read back: empty lines, the first line of a request or of a reply,
    at least one header field, an empty line and a body.  [parse_msg] succeeds; the first line
    has its parts, the number of the method or the status code; the header fields are found in
    order with their types, names and bodies; the bodies of To, Via, CSeq and Content-Length
    are parsed into what was written; the fields are linked at the hooks of their types; and
    the parser stops at the empty line. *)
Theorem message_read_back mem buf eols l fs body fl free_on_err : (∀ a, 0 <= mem a < 256) → 0 < buf →
  forallb is_eol eols = true → line_wf l = true → fs ≠ [] → forallb mfield_ok fs = true →
  let msg := write_line l ++ render_all (as_field <$> fs) ++ body in
  text_at mem buf (eols ++ msg) → 16 < Z.of_nat (length msg) →
  let len := Z.of_nat (length (eols ++ msg)) in len <= INT_MAX →
  let start := buf + Z.of_nat (length eols) in
  let p := start + Z.of_nat (length (write_line l)) in
  let q := p + Z.of_nat (length (render_all (as_field <$> fs))) - 2 in
  ∃ m, parse_msg_opt mem [] buf len fl (fresh_msg buf (buf + len)) free_on_err = Some (0, line_read start l, m, []) ∧
    hdr_key <$> headers m = read_all p (as_field <$> fs) ∧ Forall2 (body_read mem) (mf_body <$> fs) (hf_parsed <$> headers m) ∧
    linked true m ∧ eoh m = Some q ∧ unparsed m = q.
Proof.
  intros Hmem H0 Heols Hline Hne Hfs msg Ht H16 len HE start p q. unfold parse_msg_opt.
  destruct (line_head l Hline) as (c & t & Hlc & Hc). destruct fs as [|f fs]; [done|]. clear Hne.
  assert (Hf : mfield_ok f = true) by (cbn [forallb] in Hfs; by apply andb_prop in Hfs as [? _]).
  destruct (written_head f fs Hf) as (d & u & Hd & _ & Hdeol). set (fields := render_all (as_field <$> f :: fs)) in *.
  assert (Hlen : len = Z.of_nat (length eols) + Z.of_nat (length msg)) by (unfold len; rewrite length_app; lia).
  assert (Hmsg : length msg = (length (write_line l) + (length fields + length body))%nat) by (unfold msg; by rewrite !length_app).
  assert (Hfl : (2 < length fields)%nat).
  { pose proof (render_all_length (as_field <$> fs)). unfold fields. rewrite fmap_cons, render_all_cons. unfold render at 1. rewrite !length_app.
    simpl (length [_; _]). lia. }
  assert (Hstart : scan mem (λ c, negb (is_eol c)) buf (buf + len) = start).
  { unfold start. apply (scan_text mem _ _ eols c); [|by rewrite Hc| |lia].
    - rewrite <- Heols. clear. induction eols as [|e s IH]; [done|]. cbn [forallb]. by rewrite IH, negb_involutive.
    - unfold msg in Ht. rewrite Hlc in Ht. change (c :: t) with ([c] ++ t) in Ht. rewrite <- !app_assoc, app_assoc in Ht. by apply text_at_app in Ht as [? _]. }
  apply text_at_app in Ht as [_ Ht]. fold start in Ht. unfold msg in Ht. apply text_at_app in Ht as [Htl Ht]. fold p in Ht. apply text_at_app in Ht as [Htf _].
  rewrite Hstart. replace (len - (start - buf)) with (Z.of_nat (length msg)) by (unfold start; lia).
  rewrite (parse_first_line_text mem l) by (done || (rewrite ?Hmsg; lia) ||
    (fold p; rewrite Hd in Htf; apply text_at_cons in Htf as [-> _]; unfold is_eol in Hdeol; lia)). fold p.
  assert (Hend : buf + len = p + Z.of_nat (length fields) + Z.of_nat (length body)) by (unfold p, start; lia).
  destruct (ph_loop_written mem Hmem (f :: fs) (dist p (buf + len)) (fresh_msg p (buf + len)) p) as (m' & os & Hl & Hk & Hps & Hos);
    try (by fold fields || done); [|unfold p, start; lia|cbn [msg_end fresh_msg]; unfold p, start; lia|cbn [msg_end fresh_msg]; fold fields; lia|].
  { pose proof (render_all_length (as_field <$> f :: fs)) as Hrl. fold fields in Hrl. rewrite length_fmap in Hrl. unfold dist. lia. }
  fold fields in Hl. fold q in Hl.
  assert (Hph : parse_headers mem [] (with_unparsed (fresh_msg buf (buf + len)) p) (HDR_T2F HDR_EOH_T) false =
    Some (0, with_unparsed (add_flag (with_eoh m' q) HDR_EOH_T) q, [])).
  { unfold parse_headers, parse_headers_aux. change (with_unparsed (fresh_msg buf (buf + len)) p) with (fresh_msg p (buf + len)). cbn [unparsed msg_end fresh_msg].
    by rewrite Hl. }
  exists (with_unparsed (add_flag (with_eoh m' q) HDR_EOH_T) q). cbn [headers with_unparsed add_flag with_flag with_eoh].
  rewrite Hk, Hps. split; [|split; [done|split; [done|split; [|done]]]].
  - rewrite Hph. by destruct l.
  - eapply parse_headers_linked; [|exact Hph]. apply fresh_linked.
Qed.

(** An INVITE with two Via bodies in one field, a folded Subject and a body, after an empty
    line. *)
Definition sample_msg_line : wline := WRequest (bs "INVITE") (bs "sip:bob@biloxi.com") [32] (bs "SIP/2.0") [].
Definition sample_msg_fields : list mfield :=
  [MField (bs "Via") [] [32] (BVia sample_via [([32], sample_via2)]); MField (bs "Max-Forwards") [] [32] (BPlain (bs "70"));
   MField (bs "To") [] [32] (BTo (WAddr [] (WAngle (WTokens (bs "Bob") [32]) (bs "sip:bob@biloxi.com")) [] []));
   MField (bs "f") [] [32] (BPlain (bs "Alice <sip:alice@atlanta.com>;tag=1928301774"));
   MField (bs "Call-ID") [] [32] (BPlain (bs "a84b4c76e66710@pc33.atlanta.com"));
   MField (bs "CSeq") [] [32] (BCseq (bs "314159") [32] (bs "INVITE") []);
   MField (bs "Subject") [] [32] (BPlain (bs "lunch" ++ [13; 10; 32] ++ bs "today"));
   MField (bs "Content-Length") [] [32] (BLength (bs "142") [])].
Definition sample_msg : bytes := write_line sample_msg_line ++ render_all (as_field <$> sample_msg_fields) ++ bs "v=0".

Lemma message_read_back_witness :
  let text := [13; 10] ++ sample_msg in let mem := mem_of 4096 text in
  let p := 4098 + Z.of_nat (length (write_line sample_msg_line)) in
  let q := p + Z.of_nat (length (render_all (as_field <$> sample_msg_fields))) - 2 in
  ∃ m, parse_msg_opt mem [] 4096 (Z.of_nat (length text)) fl_zero (fresh_msg 4096 (4096 + Z.of_nat (length text))) false =
      Some (0, line_read 4098 sample_msg_line, m, []) ∧
    hdr_key <$> headers m = read_all p (as_field <$> sample_msg_fields) ∧
    Forall2 (body_read mem) (mf_body <$> sample_msg_fields) (hf_parsed <$> headers m) ∧ linked true m ∧ eoh m = Some q ∧ unparsed m = q.
Proof.
  intros text mem.
  apply (message_read_back mem 4096 [13; 10] sample_msg_line sample_msg_fields (bs "v=0") fl_zero false).
  - by apply mem_of_range; vm_compute.
  - lia.
  - done.
  - by vm_compute.
  - discriminate.
  - by vm_compute.
  - apply mem_of_text.
  - by vm_compute.
  - vm_compute. discriminate.
Defined.
