(* ===== verification/MsgStartSpec.v ===== *)
(** * Any message is parsed within its bounds

    Whatever the bytes and the results of the allocator, [parse_msg_opt] returns; when it
    succeeds, the parts of the first line lie one after the other in the message and the
    header fields are linked. *)

From stdpp Require Import prelude list strings.
From Stdlib Require Import ZArith Lia Ascii.
From S2P Require Import Prelude CString HdrNames HdrNamesSpec HdrBodies ToParser MsgHeaders MsgHeadersSpec MsgHeadersProps MsgRoundtrip.
From S2P Require Import ViaParser MsgBodies MsgStart MsgStartFacts MsgComposed.

(** The three parts of a line in order, each in what the line takes. *)
Definition line_in (p end_ : Z) (fl : msg_start) : Prop :=
  let '(a, n) := fl_first fl in let '(b, k) := fl_second fl in let '(c, j) := fl_third fl in
  a = p ∧ 0 < n ∧ b = a + n + 1 ∧ 0 <= k ∧ b + k < c ∧ 0 <= j ∧ c + j <= p + fl_len fl ∧ p + fl_len fl < end_.

Section first_line.
Context (mem : Z → byte).

Lemma scan_le stop p end_ : p <= end_ → scan mem stop p end_ <= end_.
Proof.
  unfold scan, dist. remember (Z.to_nat (end_ - p)) as n eqn:Hn. revert p Hn.
  induction n as [|n IH]; intros p Hn Hp; cbn [scan_loop]; [lia|]. destruct (stop _); [lia|]. apply IH; lia.
Qed.

Lemma eat_line_bounds p len : 0 <= len → p <= eat_line mem p len <= p + len.
Proof.
  intros Hl. unfold eat_line. pose proof (scan_ge mem (λ c, c =? 10) p (p + len)). set (nl := scan _ _ _ _) in *.
  destruct (Z.ltb_spec nl (p + len)); [|lia]. destruct (Z.ltb_spec (nl + 1) (p + len)).
  - destruct (Z.ltb_spec (nl + 1 + 1) (p + len)); cbn [andb]; [destruct (_ =? 13)|]; lia.
  - destruct (Z.ltb_spec (nl + 1) (p + len)); [lia|]. cbn. lia.
Qed.

Lemma first_token_bounds p len fl tmp fl' : 16 < len → first_token mem p len fl = (Some tmp, fl') →
  p < tmp < p + len ∧ (fl_first fl').2 = tmp - p ∧ (fl_type fl' = SIP_REQUEST ∨ fl_type fl' = SIP_REPLY).
Proof.
  intros Hl. unfold first_token. destruct (is_reply mem p).
  { intros [= <- <-]. cbn. change SIP_VERSION_LEN with 7. split; [lia|]. split; [lia|by right]. }
  destruct (list_find _ known_methods) as [[i [name value]]|] eqn:Hf.
  - apply list_find_Some in Hf as (Hi & _ & _). assert (Hn : (0 < length name < 7)%nat).
    { do 5 (destruct i as [|i]; [injection Hi as <- <-; simpl; lia|]). done. }
    intros [= <- <-]. cbn. split; [lia|]. split; [lia|by left].
  - pose proof (scan_ge mem (λ c, is_ws c || is_eol c) p (p + len)) as Hge. fold (eat_token_end mem p (p + len)) in Hge.
    set (t := eat_token_end _ _ _) in *. destruct (Z.eqb_spec t p); [done|]. destruct (Z.leb_spec (p + len) t); [done|]. cbn [orb].
    destruct (negb _); [done|]. destruct (parse_method _ _ _) as [[?|] v]; [|done]. intros [= <- <-]. cbn. split; [lia|]. split; [lia|by left].
Qed.

Lemma last_part_bounds ty q end_ t : q <= end_ → last_part mem ty q end_ = Some t → q <= t < end_.
Proof.
  intros Hq. unfold last_part, eat_token_end, eat_token2_end. pose proof (scan_ge mem (λ c, is_ws c || is_eol c) q end_).
  pose proof (scan_ge mem (λ c, (c =? 13) || is_eol c) q end_). destruct (ty =? SIP_REQUEST).
  - destruct (Z.eqb_spec (scan mem (λ c, is_ws c || is_eol c) q end_) q); [done|].
    destruct (Z.leb_spec end_ (scan mem (λ c, is_ws c || is_eol c) q end_)); [done|]. cbn [orb]. destruct (is_empty_end _ _ _); [|done]. intros [= <-]. lia.
  - destruct (Z.leb_spec end_ (scan mem (λ c, (c =? 13) || is_eol c) q end_)); [done|]. intros [= <-]. lia.
Qed.

Lemma other_parts_bounds p q end_ fl nl fl' : p < q <= end_ → other_parts mem p q end_ fl = (Some nl, fl') →
  fl_type fl' = fl_type fl ∧ fl_first fl' = fl_first fl ∧ nl = p + fl_len fl' ∧ nl < end_ ∧
  ∃ k c j, fl_second fl' = (q, k) ∧ fl_third fl' = (c, j) ∧ 0 <= k ∧ q + k < c ∧ 0 <= j ∧ c + j <= nl.
Proof.
  intros Hq. unfold other_parts. pose proof (scan_ge mem (λ c, is_ws c || is_eol c) q end_) as H1. fold (eat_token_end mem q end_) in H1.
  set (t := eat_token_end _ _ _) in *. destruct (Z.leb_spec end_ t) as [|Ht]; [done|].
  pose proof (scan_ge mem (λ c, negb (is_ws c)) t end_) as H2. fold (eat_space_end mem t end_) in H2.
  pose proof (scan_le (λ c, negb (is_ws c)) t end_ ltac:(lia)) as H3. fold (eat_space_end mem t end_) in H3.
  set (c := eat_space_end _ _ _) in *. destruct (Z.eqb_spec c t); [done|]. cbn [fl_type set_second fl_value].
  destruct (if _ =? SIP_REPLY then _ else _) as [v|]; [|done]. cbn [fl_type set_second set_fl_value].
  destruct (last_part _ _ _ _) as [e|] eqn:Hlp; [|done]. apply last_part_bounds in Hlp; [|done].
  pose proof (eat_line_bounds e (end_ - e) ltac:(lia)) as Hel. destruct (Z.leb_spec end_ (eat_line mem e (end_ - e))); [done|].
  intros [= <- <-]. cbn. split; [done|]. split; [done|]. split; [lia|]. split; [lia|]. exists (t - q), c, (e - c). repeat split; lia.
Qed.

(** The line that is read lies in the message; otherwise its type says so. *)
Lemma parse_first_line_bounds p len fl nl fl' : 0 <= len → parse_first_line mem p len fl = (nl, fl') →
  p <= nl <= p + len ∧
  (fl_type fl' = SIP_INVALID ∨ (fl_type fl' = SIP_REQUEST ∨ fl_type fl' = SIP_REPLY) ∧ line_in p (p + len) fl').
Proof.
  intros Hl. unfold parse_first_line. pose proof (eat_line_bounds p len Hl) as Hel.
  destruct (Z.leb_spec len 16) as [|H16]; [intros [= <- <-]; by split; [|left]|].
  destruct (first_token mem p len fl) as [[t|] fl1] eqn:Hft; [|intros [= <- <-]; by split; [|left]].
  apply first_token_bounds in Hft as (Ht & Hn & Hty); [|done].
  destruct (other_parts _ _ _ _ _) as [[n|] fl2] eqn:Hop; [|intros [= <- <-]; by split; [|left]]. intros [= <- <-].
  apply other_parts_bounds in Hop as (Hty2 & Hfirst & Hnl & Hend & k & c & j & Hsec & Hthird & Hk & Hc & Hj & Hcj); [|lia].
  cbn [fl_type fl_first set_first_s] in Hty2, Hfirst. split; [lia|]. right. rewrite Hty2. split; [done|]. unfold line_in.
  rewrite Hfirst, Hsec, Hthird, Hn. repeat split; lia.
Qed.
End first_line.

(** C5. Any message is parsed: for all bytes and all results of the allocator [parse_msg_opt]
    returns 0 or -1.  When it returns 0 the message is a request or a reply whose first line
    lies in the buffer, its three parts one after the other, and the header fields found after
    it are linked at the hooks of their types; when it returns -1 and the caller asked for the
    message to be freed, the first line is invalid and no field is left in the message. *)
Theorem parse_msg_returns `{body_parsers_ok} mem al buf len fl free_on_err : (∀ a, 0 <= mem a < 256) → 0 <= len →
  ∃ r fl' m al', parse_msg_opt mem al buf len fl (fresh_msg buf (buf + len)) free_on_err = Some (r, fl', m, al') ∧
    (r = 0 ∧ (fl_type fl' = SIP_REQUEST ∨ fl_type fl' = SIP_REPLY) ∧
       (∃ p, buf <= p ∧ (∀ a, buf <= a < p → is_eol (mem a) = true) ∧ line_in p (buf + len) fl') ∧ linked true m ∨
     r = -1 ∧ linked true m ∧ (free_on_err = true → fl_type fl' = SIP_INVALID ∧ headers m = [])).
Proof.
  intros Hmem Hl. unfold parse_msg_opt. set (p := scan _ _ _ _).
  pose proof (scan_ge mem (λ c, negb (is_eol c)) buf (buf + len)) as Hge. fold p in Hge.
  pose proof (scan_le mem (λ c, negb (is_eol c)) buf (buf + len) ltac:(lia)) as Hle. fold p in Hle.
  destruct (parse_first_line mem p (len - (p - buf)) fl) as [rest fl1] eqn:Hpf.
  apply parse_first_line_bounds in Hpf as [Hr Hin]; [|lia]. replace (p + (len - (p - buf))) with (buf + len) in Hin by lia.
  destruct Hin as [Hinv|[Hty Hline]].
  { rewrite Hinv. cbn. eexists _, _, _, _. split; [done|]. right. split; [done|]. split; by split. }
  assert (Hno : (fl_type fl1 =? SIP_INVALID) = false ∧ (fl_type fl1 =? SIP_REQUEST) || (fl_type fl1 =? SIP_REPLY) = true) by (by destruct Hty as [->| ->]).
  destruct Hno as [-> ->]. unfold parse_headers.
  destruct (parse_headers_returns mem al (with_unparsed (fresh_msg buf (buf + len)) rest) (HDR_T2F HDR_EOH_T) false true Hmem) as (r & m & al' & Hph).
  rewrite Hph. cbn [mbind option_bind]. assert (Hlk : linked true m) by (eapply parse_headers_linked; [|exact Hph]; by split).
  destruct (Z.eqb_spec r (-1)) as [->|Hr1].
  - destruct free_on_err; eexists _, _, _, _; (split; [done|]); right; [split; [done|]; split; by split|done].
  - eexists _, _, _, _. split; [done|]. left. split; [done|]. split; [done|]. split; [|done]. exists p. split; [done|]. split; [|done].
    unfold p, scan, dist. clear. remember (Z.to_nat (buf + len - buf)) as n eqn:Hn. clear Hn. revert buf.
    induction n as [|n IH]; intros buf a Ha; cbn [scan_loop] in Ha; [lia|]. destruct (is_eol (mem buf)) eqn:E; cbn [negb] in Ha; [|lia].
    destruct (decide (a = buf)) as [->|]; [done|]. apply (IH (buf + 1)). lia.
Qed.

Lemma parse_msg_returns_witness :
  let text := [13; 10] ++ take 300 sample_msg in
  ∃ r fl' m al', parse_msg_opt (mem_of 16 text) [true; true; false] 16 (Z.of_nat (length text)) fl_zero
      (fresh_msg 16 (16 + Z.of_nat (length text))) true = Some (r, fl', m, al') ∧
    (r = 0 ∧ (fl_type fl' = SIP_REQUEST ∨ fl_type fl' = SIP_REPLY) ∧
       (∃ p, 16 <= p ∧ (∀ a, 16 <= a < p → is_eol (mem_of 16 text a) = true) ∧ line_in p (16 + Z.of_nat (length text)) fl') ∧ linked true m ∨
     r = -1 ∧ linked true m ∧ (true = true → fl_type fl' = SIP_INVALID ∧ headers m = [])).
Proof. apply parse_msg_returns; [apply mem_of_range; by vm_compute|lia]. Defined.

(** The result and the type of a message at 1. *)
Definition parsed_type (text : bytes) : option (Z * Z) :=
  (λ x, (x.1.1.1, fl_type x.1.1.2)) <$>
    parse_msg_opt (mem_of 1 text) [] 1 (Z.of_nat (length text)) fl_zero (fresh_msg 1 (1 + Z.of_nat (length text))) false.

(** A packet of one line is accepted when nothing follows its line feed, and refused
    without it. *)
Example single_line_accepted :
  parsed_type (bs "OPTIONS sip:bob@biloxi.com SIP/2.0" ++ [13; 10]) = Some (0, SIP_REQUEST) ∧
  parsed_type (bs "OPTIONS sip:bob@biloxi.com SIP/2.0" ++ [13]) = Some (-1, SIP_INVALID).
Proof. by vm_compute. Qed.

(** The version of a request is any token. *)
Example version_not_checked :
  parsed_type (bs "OPTIONS sip:bob@biloxi.com HTTP/1.1" ++ [13; 10] ++ bs "Via: x" ++ [13; 10]) = Some (-1, SIP_REQUEST) ∧
  parsed_type (bs "OPTIONS sip:bob@biloxi.com HTTP/1.1" ++ [13; 10; 13; 10]) = Some (0, SIP_REQUEST).
Proof. by vm_compute. Qed.
