(* ===== verification/TimeRec.v ===== *)
(** * Time recurrences

    [time_rec.c]: the parts of a recurrence (RFC 2445) separated by [|], and the test
    whether a time falls into one of its intervals.  A C string is the list of its bytes
    before the terminator; [struct tm] is a record; [TR_NOVAL] is -1.

    [localtime_r] and [mktime] depend on the time zone database of the system and on the
    environment variable [TZ], which the code changes and restores: the two functions are
    arguments ([libc_time]) and the variable is state.  Allocations succeed.  The printing
    functions are left out. *)

From stdpp Require Import prelude list strings.
From Stdlib Require Import ZArith Lia Ascii.
From S2P Require Import Prelude CString.

(** ** Times *)

Record tm := Tm {
  tm_sec : Z; tm_min : Z; tm_hour : Z; tm_mday : Z; tm_mon : Z; tm_year : Z;
  tm_wday : Z; tm_yday : Z; tm_isdst : Z; tm_gmtoff : Z
}.

Definition tm_zero : tm := Tm 0 0 0 0 0 0 0 0 0 0.

(** [struct tm] with a date and a time of the day, the other fields being zero. *)
Definition tm_at (year mon mday hour min sec isdst : Z) : tm := Tm sec min hour mday mon year 0 0 isdst 0.

(** The functions of the C library, given the value of [TZ]; [mktime] also normalises its
    argument. *)
Class libc_time := {
  localtime_r : option bytes → Z → tm;
  mktime : option bytes → tm → Z * tm
}.

(** ** The time zone *)

(** The variable [TZ], unset or a string, and [old_tz], [None] being [TZ_INTACT]. *)
Record tz_state := TzState { TZ : option bytes; old_tz : option (option bytes) }.

Definition _tz_set (tz : bytes) (st : tz_state) : tz_state := TzState (Some tz) (Some (TZ st)).
Definition tz_set (tz : bytes) (st : tz_state) : tz_state := if (50 <=? length tz)%nat then st else _tz_set tz st.
Definition tz_reset (st : tz_state) : tz_state :=
  match old_tz st with None => st | Some tz => TzState tz None end.

Section times.
Context `{libc_time}.

Definition tz_adjust_ts (st : tz_state) (unix_time : Z) (tz : option bytes) : Z * tz_state :=
  let st := tz_set (bs "UTC") st in
  let local_tm := localtime_r (TZ st) unix_time in
  let st := tz_reset st in
  let st := match tz with Some tz => tz_set tz st | None => st end in
  let '(adj_ts, local_tm) := mktime (TZ st) local_tm in
  (if 0 <? tm_isdst local_tm then adj_ts - 3600 else adj_ts, tz_reset st).

Definition _tz_offset (st : tz_state) (tz : bytes) (t : Z) : Z * tz_state :=
  let st := _tz_set tz st in (tm_gmtoff (localtime_r (TZ st) t), tz_reset st).
End times.

(** ** Constants *)

Definition TR_NOVAL : Z := -1.
Definition _IS_SET (x : Z) : bool := negb (x =? TR_NOVAL).
Definition REC_MATCH : Z := 0.
Definition REC_NOMATCH : Z := 1.
Definition FREQ_NOFREQ : Z := 0.
Definition FREQ_YEARLY : Z := 1.
Definition FREQ_MONTHLY : Z := 2.
Definition FREQ_WEEKLY : Z := 3.
Definition FREQ_DAILY : Z := 4.
Definition SEC_DAILY : Z := 60 * 60 * 24.
Definition SEC_WEEKLY : Z := 7 * SEC_DAILY.
Definition SEC_MONTHLY_MAX : Z := 31 * SEC_DAILY.
Definition SEC_YEARLY_MAX : Z := 366 * SEC_DAILY.
Definition TR_SEPARATOR : byte := chr "|".

Definition WDAY_SU : Z := 0.
Definition WDAY_MO : Z := 1.
Definition WDAY_TU : Z := 2.
Definition WDAY_WE : Z := 3.
Definition WDAY_TH : Z := 4.
Definition WDAY_FR : Z := 5.
Definition WDAY_SA : Z := 6.

(** ** Data *)

(** [tr_byxxx_t]: the values with their [req], the sign or the ordinal. *)
Abbreviation tr_byxxx := (list (Z * Z)).

(** [tmrec_t]; [has_byxxx] is the flag [TR_BYXXX]. *)
Record tmrec := Tmrec {
  dtstart : Z;
  ts : tm;
  dtend : Z;
  duration : Z;
  until : Z;
  freq : Z;
  interval : Z;
  byday : option tr_byxxx;
  bymday : option tr_byxxx;
  byyday : option tr_byxxx;
  bymonth : option tr_byxxx;
  byweekno : option tr_byxxx;
  has_byxxx : bool;
  tr_tz : option bytes
}.

Definition tmrec_init : tmrec :=
  Tmrec TR_NOVAL tm_zero TR_NOVAL TR_NOVAL TR_NOVAL TR_NOVAL TR_NOVAL None None None None None false None.

Definition set_dtstart (t : Z) (b : tm) (r : tmrec) := Tmrec t b (dtend r) (duration r) (until r) (freq r) (interval r) (byday r) (bymday r) (byyday r) (bymonth r) (byweekno r) (has_byxxx r) (tr_tz r).
Definition set_dtend (t : Z) (r : tmrec) := Tmrec (dtstart r) (ts r) t (duration r) (until r) (freq r) (interval r) (byday r) (bymday r) (byyday r) (bymonth r) (byweekno r) (has_byxxx r) (tr_tz r).
Definition set_duration (t : Z) (r : tmrec) := Tmrec (dtstart r) (ts r) (dtend r) t (until r) (freq r) (interval r) (byday r) (bymday r) (byyday r) (bymonth r) (byweekno r) (has_byxxx r) (tr_tz r).
Definition set_until (t : Z) (r : tmrec) := Tmrec (dtstart r) (ts r) (dtend r) (duration r) t (freq r) (interval r) (byday r) (bymday r) (byyday r) (bymonth r) (byweekno r) (has_byxxx r) (tr_tz r).
Definition set_freq (f : Z) (r : tmrec) := Tmrec (dtstart r) (ts r) (dtend r) (duration r) (until r) f (interval r) (byday r) (bymday r) (byyday r) (bymonth r) (byweekno r) (has_byxxx r) (tr_tz r).
Definition set_interval (i : Z) (r : tmrec) := Tmrec (dtstart r) (ts r) (dtend r) (duration r) (until r) (freq r) i (byday r) (bymday r) (byyday r) (bymonth r) (byweekno r) (has_byxxx r) (tr_tz r).
Definition set_byxxx (d md yd m w : option tr_byxxx) (r : tmrec) := Tmrec (dtstart r) (ts r) (dtend r) (duration r) (until r) (freq r) (interval r) d md yd m w true (tr_tz r).
Definition set_tz (z : option bytes) (r : tmrec) := Tmrec (dtstart r) (ts r) (dtend r) (duration r) (until r) (freq r) (interval r) (byday r) (bymday r) (byyday r) (bymonth r) (byweekno r) (has_byxxx r) z.

(** ** Parsing the parts *)

Definition _D (c : byte) : Z := c - 48.
Definition is_dec (c : byte) : bool := (48 <=? c) && (c <=? 57).

(** The sum of the digits at the beginning of a string. *)
Fixpoint strz2int_loop (v : Z) (p : bytes) : Z :=
  match p with c :: p => if is_dec c then strz2int_loop (v + (c - 48)) p else v | [] => v end.
Definition strz2int (p : bytes) : Z := strz2int_loop 0 p.

(** The date and time with the normalised [struct tm], or an error. *)
Definition ic_parse_datetime `{libc_time} (tz : option bytes) (s : bytes) : option (Z * tm) :=
  if negb (length s =? 15)%nat then None
  else
    let d i := _D (nth i s 0) in
    let year := d 0%nat * 1000 + d 1%nat * 100 + d 2%nat * 10 + d 3%nat in
    if year <? 1970 then None
    else
      let mon := d 4%nat * 10 + d 5%nat - 1 in
      let mday := d 6%nat * 10 + d 7%nat in
      if (mon =? -1) || (mday =? 0) then None
      else
        let '(t, b) := mktime tz (tm_at (year - 1900) mon mday (d 9%nat * 10 + d 10%nat) (d 11%nat * 10 + d 12%nat) (d 13%nat * 10 + d 14%nat) (-1)) in
        Some (t, b).

(** The characters of a duration; [fl] is set before the [T]. *)
Fixpoint duration_loop (p : bytes) (fl : bool) (t ft : Z) : Z :=
  match p with
  | [] => ft
  | c :: p =>
      let l := tolower c in
      if is_dec c then duration_loop p fl (t * 10 + c - 48) ft
      else if l =? chr "w" then if fl then duration_loop p fl 0 (ft + t * 7 * 24 * 3600) else 0
      else if l =? chr "d" then if fl then duration_loop p fl 0 (ft + t * 24 * 3600) else 0
      else if l =? chr "h" then if fl then 0 else duration_loop p fl 0 (ft + t * 3600)
      else if l =? chr "m" then if fl then 0 else duration_loop p fl 0 (ft + t * 60)
      else if l =? chr "s" then if fl then 0 else duration_loop p fl 0 (ft + t)
      else if l =? chr "t" then if fl then duration_loop p false t ft else 0
      else 0
  end.
Definition ic_parse_duration (s : bytes) : Z :=
  match s with
  | c :: ((_ :: _) as p) => if tolower c =? chr "p" then duration_loop p true 0 0 else duration_loop s false 0 0
  | _ => TR_NOVAL
  end.

Definition count_items (s : bytes) : nat := S (length (filter (λ c, c = chr ",") s)).

(** The ordinal of a day; zero-based when it is positive. *)
Definition day_req (s v : Z) : Z := if 0 <? s * v then s * v - 1 else s * v.

(** The two letters of a day of the week. *)
Definition two_letters (c d : byte) : option Z :=
  let c := tolower c in let d := tolower d in
  if c =? chr "s" then if d =? chr "a" then Some WDAY_SA else if d =? chr "u" then Some WDAY_SU else None
  else if c =? chr "m" then if d =? chr "o" then Some WDAY_MO else None
  else if c =? chr "t" then if d =? chr "h" then Some WDAY_TH else if d =? chr "u" then Some WDAY_TU else None
  else if c =? chr "w" then if d =? chr "e" then Some WDAY_WE else None
  else if c =? chr "f" then if d =? chr "r" then Some WDAY_FR else None
  else None.

(** The list of days: item [nr] with the sign [s] and the number [v] read so far.  The case
    of Wednesday resets them before they are stored. *)
Fixpoint byday_loop (p : bytes) (arr : tr_byxxx) (nr : nat) (s v : Z) : option tr_byxxx :=
  match p with
  | [] => Some arr
  | c :: p =>
      if is_dec c then byday_loop p arr nr s (v * 10 + c - 48)
      else if c =? chr "-" then byday_loop p arr nr (-1) v
      else if (c =? chr "+") || (c =? 32) || (c =? 9) then byday_loop p arr nr s v
      else if c =? chr "," then byday_loop p arr (S nr) s v
      else
        match p with
        | [] => None
        | d :: p =>
            match two_letters c d with
            | None => None
            | Some w =>
                let req := if w =? WDAY_WE then day_req 1 0 else day_req s v in
                byday_loop p (<[nr := (w, req)]> arr) nr 1 0
            end
        end
  end.
Definition ic_parse_byday (s : bytes) : option tr_byxxx :=
  byday_loop s (replicate (count_items s) (0, 0)) 0 1 0.

Fixpoint byxxx_loop (p : bytes) (arr : tr_byxxx) (nr : nat) (s v : Z) : option tr_byxxx :=
  match p with
  | [] => Some (<[nr := (v, s)]> arr)
  | c :: p =>
      if is_dec c then byxxx_loop p arr nr s (v * 10 + c - 48)
      else if c =? chr "-" then byxxx_loop p arr nr (-1) v
      else if (c =? chr "+") || (c =? 32) || (c =? 9) then byxxx_loop p arr nr s v
      else if c =? chr "," then byxxx_loop p (<[nr := (v, s)]> arr) (S nr) 1 0
      else None
  end.
Definition ic_parse_byxxx (s : bytes) : option tr_byxxx :=
  byxxx_loop s (replicate (count_items s) (0, 0)) 0 1 0.

Definition ic_parse_wkst (s : bytes) : Z :=
  match s with [c; d] => default WDAY_MO (two_letters c d) | _ => WDAY_MO end.

(** [strcasecmp] with a string, as a test. *)
Definition same_word (a b : bytes) : bool := bool_decide ((tolower <$> a) = (tolower <$> b)).

Section parts.
Context `{libc_time} (st : tz_state).

(** Each function returns 0, -1 for an error, or 1 when its input is for the next one. *)
Definition tr_parse_tz (r : tmrec) (s : bytes) : Z * tmrec :=
  let c := match s with c :: _ => c | [] => 0 end in
  if (c <? chr "A") || (chr "Z" <? c) then (1, r) else (0, set_tz (Some s) r).

Definition tr_parse_dtstart (r : tmrec) (s : bytes) : Z * tmrec :=
  match ic_parse_datetime (TZ st) s with
  | None => (-1, set_dtstart TR_NOVAL (ts r) r)
  | Some (t, b) => (if t =? TR_NOVAL then -1 else 0, set_dtstart t b r)
  end.

Definition datetime_or_noval (s : bytes) : Z :=
  match ic_parse_datetime (TZ st) s with None => TR_NOVAL | Some (t, _) => t end.
Definition rc_of (t : Z) : Z := if t =? TR_NOVAL then -1 else 0.

Definition tr_parse_dtend (r : tmrec) (s : bytes) : Z * tmrec :=
  let t := datetime_or_noval s in (rc_of t, set_dtend t r).
Definition tr_parse_duration (r : tmrec) (s : bytes) : Z * tmrec :=
  let t := ic_parse_duration s in (rc_of t, set_duration t r).
Definition tr_parse_until (r : tmrec) (s : bytes) : Z * tmrec :=
  let t := datetime_or_noval s in (rc_of t, set_until t r).
Definition tr_parse_freq (r : tmrec) (s : bytes) : Z * tmrec :=
  (0, set_freq (if (length s <? 5)%nat then FREQ_NOFREQ
                else if same_word s (bs "daily") then FREQ_DAILY
                else if same_word s (bs "weekly") then FREQ_WEEKLY
                else if same_word s (bs "monthly") then FREQ_MONTHLY
                else if same_word s (bs "yearly") then FREQ_YEARLY
                else FREQ_NOFREQ) r).
Definition tr_parse_interval (r : tmrec) (s : bytes) : Z * tmrec := (0, set_interval (strz2int s) r).
Definition tr_parse_byday (r : tmrec) (s : bytes) : Z * tmrec :=
  (0, set_byxxx (ic_parse_byday s) (bymday r) (byyday r) (bymonth r) (byweekno r) r).
Definition tr_parse_bymday (r : tmrec) (s : bytes) : Z * tmrec :=
  (0, set_byxxx (byday r) (ic_parse_byxxx s) (byyday r) (bymonth r) (byweekno r) r).
Definition tr_parse_byyday (r : tmrec) (s : bytes) : Z * tmrec :=
  (0, set_byxxx (byday r) (bymday r) (ic_parse_byxxx s) (bymonth r) (byweekno r) r).
Definition tr_parse_bymonth (r : tmrec) (s : bytes) : Z * tmrec :=
  (0, set_byxxx (byday r) (bymday r) (byyday r) (ic_parse_byxxx s) (byweekno r) r).
Definition tr_parse_byweekno (r : tmrec) (s : bytes) : Z * tmrec :=
  (0, set_byxxx (byday r) (bymday r) (byyday r) (bymonth r) (ic_parse_byxxx s) r).
End parts.

(** ** Parsing a recurrence *)

(** The text before the next separator, and what follows it when there is one. *)
Fixpoint cut_sep (p : bytes) : bytes * option bytes :=
  match p with
  | [] => ([], None)
  | c :: t => if c =? TR_SEPARATOR then ([], Some t) else let '(s, r) := cut_sep t in (c :: s, r)
  end.

(** The ways out of [load_TR_value]: the two labels, and the next part. *)
Inductive tr_load :=
  | TrFail (r : tmrec)
  | TrDone (r : tmrec)
  | TrNext (p : bytes) (r : tmrec).

Definition load_TR_value (func : tmrec → bytes → Z * tmrec) (p : bytes) (r : tmrec) : tr_load :=
  let '(s, rest) := cut_sep p in
  let '(rc, r) := match s, rest with [], Some _ => (0, r) | _, _ => func r s end in
  if rc <? 0 then TrFail r
  else
    match rest with
    | Some rest =>
        let p := if rc =? 0 then rest else p in
        match p with [] => TrDone r | _ => TrNext p r end
    | None => if rc =? 0 then TrDone r else TrNext p r
    end.

Definition tr_then (x : tr_load) (k : bytes → tmrec → tr_load) : tr_load :=
  match x with TrNext p r => k p r | _ => x end.

Definition get_min_interval (r : tmrec) : Z :=
  let given (o : option tr_byxxx) := match o with Some _ => true | None => false end in
  if (freq r =? FREQ_DAILY) || given (byday r) || given (bymday r) || given (byyday r) then FREQ_DAILY
  else if (freq r =? FREQ_WEEKLY) || given (byweekno r) then FREQ_WEEKLY
  else if (freq r =? FREQ_MONTHLY) || given (bymonth r) then FREQ_MONTHLY
  else if freq r =? FREQ_YEARLY then FREQ_YEARLY
  else FREQ_NOFREQ.

Definition day_secs (t : tm) : Z := tm_hour t * 3600 + tm_min t * 60 + tm_sec t.

(** The end of an interval that has neither an end nor a duration. *)
Definition default_end (r : tmrec) : Z :=
  let i := get_min_interval r in
  if i =? FREQ_DAILY then dtstart r + SEC_DAILY - day_secs (ts r)
  else if i =? FREQ_WEEKLY then dtstart r + SEC_WEEKLY - (tm_wday (ts r) * SEC_DAILY + day_secs (ts r))
  else if i =? FREQ_MONTHLY then dtstart r + SEC_MONTHLY_MAX - (tm_mday (ts r) * SEC_DAILY + day_secs (ts r))
  else if i =? FREQ_YEARLY then dtstart r + SEC_YEARLY_MAX - (tm_yday (ts r) * SEC_DAILY + day_secs (ts r))
  else 4294967295.

(** The missing values, after the label [done]; the return value is false for an error. *)
Definition tmrec_complete (r : tmrec) : bool * tmrec :=
  let r := if _IS_SET (dtstart r) then r else set_dtstart 0 (ts r) r in
  let r :=
    if _IS_SET (duration r) then set_dtend (dtstart r + duration r) r
    else
      let r := if _IS_SET (dtend r) then r else set_dtend (default_end r) r in
      set_duration (dtend r - dtstart r) r in
  (negb (negb (_IS_SET (freq r)) && (_IS_SET (until r) || _IS_SET (interval r) || has_byxxx r)), r).

Section parse.
Context `{libc_time}.

(** The parts after the time zone. *)
Definition tmrec_parts (st : tz_state) (p : bytes) (r : tmrec) : tr_load :=
  tr_then (load_TR_value (tr_parse_dtstart st) p r) (λ p r,
  tr_then (load_TR_value (tr_parse_dtend st) p r) (λ p r,
  tr_then (load_TR_value tr_parse_duration p r) (λ p r,
  tr_then (load_TR_value tr_parse_freq p r) (λ p r,
  tr_then (load_TR_value (tr_parse_until st) p r) (λ p r,
  tr_then (load_TR_value tr_parse_interval p r) (λ p r,
  tr_then (load_TR_value tr_parse_byday p r) (λ p r,
  tr_then (load_TR_value tr_parse_bymday p r) (λ p r,
  tr_then (load_TR_value tr_parse_byyday p r) (λ p r,
  tr_then (load_TR_value tr_parse_byweekno p r) (λ p r,
  tr_then (load_TR_value tr_parse_bymonth p r) (λ p r, TrDone r))))))))))).

(** The return value is true for 0 and false for -1. *)
Definition _tmrec_parse (st : tz_state) (tr : bytes) (r : tmrec) : bool * tmrec * tz_state :=
  match tr with
  | [] => (true, r, st)
  | _ =>
      let '(x, st) :=
        match load_TR_value tr_parse_tz tr r with
        | TrNext p r =>
            let st := match tr_tz r with Some tz => _tz_set tz st | None => st end in (tmrec_parts st p r, st)
        | x => (x, st)
        end in
      match x with
      | TrDone r | TrNext _ r =>
          let st := match tr_tz r with Some _ => tz_reset st | None => st end in
          let '(ok, r) := tmrec_complete r in (ok, r, st)
      | TrFail r =>
          match tr_tz r with Some _ => (false, set_tz None r, tz_reset st) | None => (false, r, st) end
      end
  end.

Definition tmrec_parse (st : tz_state) (tr : bytes) : option tmrec * tz_state :=
  let '(ok, r, st) := _tmrec_parse st tr tmrec_init in (if ok then Some r else None, st).
End parse.

(** ** Checking a time *)

Definition ac_get_yweek (t : tm) : Z := Z.quot (tm_yday t + 7 - (if tm_wday t =? 0 then 6 else tm_wday t - 1)) 7.
Definition ac_get_mweek (t : tm) : Z :=
  Z.quot (tm_mday t - 1) 7 + Z.quot (7 - Z.rem (6 + tm_wday t) 7 + Z.rem (tm_mday t - 1) 7) 7.
Definition ac_get_wday_yr (t : tm) : Z := Z.quot (tm_yday t) 7.
Definition ac_get_wday_mr (t : tm) : Z := Z.quot (tm_mday t - 1) 7.

Definition is_leap_year (y : Z) : Z :=
  if Z.rem y 400 =? 0 then 1 else if Z.rem y 100 =? 0 then 0 else if Z.rem y 4 =? 0 then 1 else 0.

(** [ac_tm_t]. *)
Record ac_tm := AcTm { at_time : Z; at_t : tm; at_yweek : Z; at_ywday : Z; at_wom : Z }.

Definition ac_tm_fill (time : Z) (t : tm) : ac_tm :=
  AcTm time t (ac_get_yweek t) (ac_get_wday_yr t) (ac_get_wday_mr t).

(** [ac_maxval_t]. *)
Record ac_maxval := AcMaxval { mv_yweek : Z; mv_yday : Z; mv_ywday : Z; mv_mday : Z; mv_mwday : Z }.

(** [x] in the recurring interval from [bgn] to [end_]. *)
Definition check_recur_itv (x bgn end_ : tm) (dur freq : Z) : Z :=
  let d (t : tm) := if freq =? FREQ_YEARLY then tm_yday t else if freq =? FREQ_MONTHLY then tm_mday t else tm_wday t in
  let d1 := d bgn in let d2 := d end_ in let dx := d x in
  let last :=
    let diff := if dx =? d1 then day_secs x - day_secs bgn else day_secs end_ - day_secs x in
    if 0 <? diff then REC_MATCH else REC_NOMATCH in
  let within :=
    if day_secs x - day_secs bgn <? 0 then REC_NOMATCH
    else if day_secs end_ - day_secs x <=? 0 then REC_NOMATCH
    else REC_MATCH in
  if (freq =? FREQ_YEARLY) || (freq =? FREQ_MONTHLY) || (freq =? FREQ_WEEKLY) then
    if d1 <? d2 then
      if (dx <? d1) || (d2 <? dx) then REC_NOMATCH
      else if (d1 <? dx) && (dx <? d2) then REC_MATCH
      else last
    else if d2 <? d1 then
      if (d2 <? dx) && (dx <? d1) then REC_NOMATCH
      else if (dx <? d2) || (d1 <? dx) then REC_MATCH
      else last
    else if negb (dx =? d1) then if dur <=? SEC_DAILY then REC_NOMATCH else REC_MATCH
    else within
  else if tm_mday bgn =? tm_mday end_ then within
  else if day_secs bgn - day_secs x <=? 0 then REC_MATCH
  else if day_secs x - day_secs end_ <? 0 then REC_MATCH
  else REC_NOMATCH.

Section check.
Context `{libc_time} (tz : option bytes).

Definition ac_get_maxval (a : ac_tm) : ac_maxval :=
  let yday := 365 + is_leap_year (tm_year (at_t a) + 1900) in
  let mon := tm_mon (at_t a) in
  let mday :=
    if mon =? 1 then if yday =? 366 then 29 else 28
    else if (mon =? 3) || (mon =? 5) || (mon =? 8) || (mon =? 10) then 30 else 31 in
  let '(_, last) := mktime tz (tm_at (tm_year (at_t a)) 11 31 0 0 0 0) in
  let v := if tm_wday last <? tm_wday (at_t a) then tm_wday (at_t a) - tm_wday last + 1 else tm_wday last - tm_wday (at_t a) in
  AcMaxval (ac_get_yweek last + 1) yday (Z.quot (tm_yday last - v) 7 + 1) mday
    (Z.quot (mday - 1 - Z.rem (mday - tm_mday (at_t a)) 7) 7 + 1).

(** The instance of the recurrence is one of the interval; [mktime] is cut to [int], and
    [None] is the division by zero. *)
Definition check_freq_interval (r : tmrec) (a : ac_tm) : option Z :=
  let divides n := if interval r =? 0 then None else Some (if Z.rem n (interval r) =? 0 then REC_MATCH else REC_NOMATCH) in
  if negb (_IS_SET (freq r)) then Some REC_NOMATCH
  else if negb (_IS_SET (interval r)) || (interval r =? 1) then Some REC_MATCH
  else
    let midnight t := i32 (mktime tz (tm_at (tm_year t) (tm_mon t) (tm_mday t) 0 0 0 0)).1 in
    let t0 := midnight (ts r) in let t1 := midnight (at_t a) in
    let monday t := Z.rem (tm_wday t + 6) 7 * 24 * 3600 in
    if freq r =? FREQ_DAILY then divides (Z.quot (i32 (t1 - t0)) (24 * 3600))
    else if freq r =? FREQ_WEEKLY then divides (Z.quot (i32 (i32 (t1 - monday (at_t a)) - i32 (t0 - monday (ts r)))) (7 * 24 * 3600))
    else if freq r =? FREQ_MONTHLY then
      divides ((tm_year (at_t a) - tm_year (ts r)) * 12 + tm_mon (at_t a) - tm_mon (ts r))
    else if freq r =? FREQ_YEARLY then divides (tm_year (at_t a) - tm_year (ts r))
    else Some REC_NOMATCH.

Definition check_min_unit (r : tmrec) (a : ac_tm) : Z :=
  let i := get_min_interval r in
  let long_enough :=
    if i =? FREQ_DAILY then SEC_DAILY <=? duration r
    else if i =? FREQ_WEEKLY then SEC_WEEKLY <=? duration r
    else if i =? FREQ_MONTHLY then SEC_MONTHLY_MAX <=? duration r
    else SEC_YEARLY_MAX <=? duration r in
  if i =? FREQ_NOFREQ then REC_NOMATCH
  else if long_enough then REC_MATCH
  else check_recur_itv (at_t a) (ts r) (localtime_r tz (dtend r)) (duration r) i.

(** A list restricts the times when it is there. *)
Definition by_ok (o : option tr_byxxx) (ok : Z * Z → bool) : bool :=
  match o with None => true | Some l => existsb ok l end.

Definition check_byxxx (r : tmrec) (a : ac_tm) : Z :=
  if negb (has_byxxx r) then REC_MATCH
  else
    let m := ac_get_maxval a in let t := at_t a in
    if by_ok (bymonth r) (λ e, tm_mon t =? Z.rem ((e.1 - 1) * e.2 + 12) 12) &&
       (negb (freq r =? FREQ_YEARLY) || by_ok (byweekno r) (λ e, at_yweek a =? Z.rem ((e.1 - 1) * e.2 + mv_yweek m) (mv_yweek m))) &&
       by_ok (byyday r) (λ e, tm_yday t =? Z.rem ((e.1 - 1) * e.2 + mv_yday m) (mv_yday m)) &&
       by_ok (bymday r) (λ e, tm_mday t =? Z.rem (e.1 * e.2 + mv_mday m) (mv_mday m) + (if e.2 <? 0 then 1 else 0)) &&
       by_ok (byday r) (λ e,
         (tm_wday t =? e.1) &&
         (if freq r =? FREQ_YEARLY then at_ywday a =? Z.rem (e.2 + mv_ywday m) (mv_ywday m)
          else if freq r =? FREQ_MONTHLY then at_wom a =? Z.rem (e.2 + mv_mwday m) (mv_mwday m)
          else true))
    then REC_MATCH else REC_NOMATCH.

Definition check_tmrec (r : tmrec) (a : ac_tm) : option Z :=
  if (at_time a <? dtstart r) || (negb (_IS_SET (freq r)) && (dtend r <=? at_time a)) then Some REC_NOMATCH
  else if negb (_IS_SET (freq r)) && (at_time a <? dtend r) then Some REC_MATCH
  else
    f ← check_freq_interval r a;
    Some (if negb (f =? REC_MATCH) then REC_NOMATCH
          else if negb (check_min_unit r a =? REC_MATCH) then REC_NOMATCH
          else if negb (check_byxxx r a =? REC_MATCH) then REC_NOMATCH
          else if negb (_IS_SET (until r)) || (at_time a <=? until r) then REC_MATCH else REC_NOMATCH).
End check.

Section tmrec_check.
Context `{libc_time}.

Definition _tmrec_check (st : tz_state) (r : tmrec) (time : Z) : option (bool * tz_state) :=
  if negb (_IS_SET (dtstart r)) then Some (true, st)
  else
    let st := match tr_tz r with Some tz => _tz_set tz st | None => st end in
    rc ← check_tmrec (TZ st) r (ac_tm_fill time (localtime_r (TZ st) time));
    Some (rc =? 0, match tr_tz r with Some _ => tz_reset st | None => st end).

(** 1, -1 or -2 for a parse error. *)
Definition _tmrec_check_str (st : tz_state) (tr : bytes) (check_time : Z) : option (Z * tz_state) :=
  let '(ok, r, st) := _tmrec_parse st tr tmrec_init in
  if ok then
    match _tmrec_check st r check_time with
    | Some (b, st) => Some (if b then 1 else -1, st)
    | None => None
    end
  else Some (-2, st).
End tmrec_check.
