(* ===== verification/Calendar.v ===== *)
(** * The Gregorian calendar

    Dates from numbers of days since 1970 and back, [gmtime] and [timegm] on them, and the
    time zones with a fixed offset as an instance of [libc_time].  The theorems about
    recurrences use a few facts of the calendar that are proved here; it repeats after 400
    years, 146097 days. *)

From stdpp Require Import prelude list strings.
From Stdlib Require Import ZArith Lia Ascii.
From S2P Require Import Prelude TimeRec.

(** ** Dates *)

Definition era_days : Z := 146097.

(** Month and day, the year of the period and the day of the year that begins in March, of
    day [doe] of a period that begins on a first of March. *)
Definition doe_century (doe : Z) : Z := Z.min (doe / 36524) 3.
Definition doe_quad (doe : Z) : Z := (doe - 36524 * doe_century doe) / 1461.
Definition doe_rest (doe : Z) : Z := doe - 36524 * doe_century doe - 1461 * doe_quad doe.
Definition doe_year (doe : Z) : Z := 100 * doe_century doe + 4 * doe_quad doe + Z.min (doe_rest doe / 365) 3.
Definition doe_doy (doe : Z) : Z := doe_rest doe - 365 * Z.min (doe_rest doe / 365) 3.
Definition doy_month (doy : Z) : Z := (5 * doy + 2) / 153.
Definition doy_mday (doy : Z) : Z := doy - (153 * doy_month doy + 2) / 5 + 1.

(** Year, month from 0 and day of the month. *)
Definition civil (days : Z) : Z * Z * Z :=
  let z := days + 719468 in
  let doe := z mod era_days in
  let mp := doy_month (doe_doy doe) in
  let mon := if mp <? 10 then mp + 2 else mp - 10 in
  (doe_year doe + z / era_days * 400 + (if mon <? 2 then 1 else 0), mon, doy_mday (doe_doy doe)).

Definition days_of (year mon mday : Z) : Z :=
  let y := if mon <? 2 then year - 1 else year in
  let yoe := y mod 400 in
  let doy := (153 * (if mon <? 2 then mon + 10 else mon - 2) + 2) / 5 in
  y / 400 * era_days + yoe * 365 + yoe / 4 - yoe / 100 + doy - 719468 + mday - 1.

(** ** Times *)

Definition gmtime (t off : Z) : tm :=
  let days := t / 86400 in let s := t mod 86400 in
  let '(year, mon, mday) := civil days in
  Tm (s mod 60) (s / 60 mod 60) (s / 3600) mday mon (year - 1900) ((days + 4) mod 7) (days - days_of year 0 1) 0 off.

(** Fields out of their range are carried over. *)
Definition timegm (t : tm) : Z :=
  days_of (tm_year t + 1900 + tm_mon t / 12) (tm_mon t mod 12) (tm_mday t) * 86400 + day_secs t.

(** Time zones whose offset from UTC does not change. *)
Definition fixed_offsets (off : option bytes → Z) : libc_time := {|
  localtime_r tz t := gmtime (t + off tz) (off tz);
  mktime tz b := let t := timegm b - off tz in (t, gmtime (t + off tz) (off tz))
|}.
Definition utc : libc_time := fixed_offsets (λ _, 0).

(** ** Facts *)

Lemma doe_parts doe : 0 <= doe < era_days →
  ∃ c q a, 0 <= c <= 3 ∧ 0 <= q <= 24 ∧ 0 <= a <= 3 ∧ 0 <= doe_doy doe <= 365 ∧ doe = 36524 * c + 1461 * q + 365 * a + doe_doy doe ∧
    (doe_doy doe = 365 → a = 3 ∧ (q = 24 → c = 3)).
Proof.
  unfold era_days. intros Hd. exists (doe_century doe), (doe_quad doe), (Z.min (doe_rest doe / 365) 3).
  unfold doe_doy. assert (0 <= doe_century doe <= 3 ∧ 0 <= doe - 36524 * doe_century doe <= 36524 ∧
    (doe - 36524 * doe_century doe = 36524 → doe_century doe = 3)).
  { unfold doe_century. Z.to_euclidean_division_equations. lia. }
  set (c := doe_century doe) in *. assert (0 <= doe_quad doe <= 24 ∧ 0 <= doe_rest doe <= 1460 ∧ (doe_rest doe = 1460 → doe_quad doe = 24 → c = 3)).
  { unfold doe_rest, doe_quad. fold c. Z.to_euclidean_division_equations. lia. }
  assert (doe = 36524 * c + 1461 * doe_quad doe + doe_rest doe) by (unfold doe_rest; fold c; lia).
  set (r := doe_rest doe) in *. Z.to_euclidean_division_equations. lia.
Qed.

(** The next day: the next one of the year, or the first one of the next year. *)
Lemma doy_next doe : 0 <= doe < era_days →
  doe_doy ((doe + 1) mod era_days) = doe_doy doe + 1 ∧ doe_doy doe < 365 ∨ doe_doy ((doe + 1) mod era_days) = 0 ∧ 364 <= doe_doy doe.
Proof.
  intros Hd. destruct (decide (doe + 1 = era_days)) as [E|Hne].
  { rewrite E, Z.mod_same by done. right. replace doe with (era_days - 1) by lia. by vm_compute. }
  rewrite Z.mod_small by lia. destruct (doe_parts doe Hd) as (c & q & a & ?). destruct (doe_parts (doe + 1) ltac:(lia)) as (c' & q' & a' & ?). lia.
Qed.

Fixpoint all_below (n : nat) (z : Z) (P : Z → bool) : bool :=
  match n with O => true | S n => P z && all_below n (z + 1) P end.

Lemma all_below_spec n P : ∀ z, all_below n z P = true → ∀ i, z <= i < z + Z.of_nat n → P i = true.
Proof.
  induction n as [|n IH]; intros z Ha i Hi; [lia|]. cbn [all_below] in Ha. apply andb_prop in Ha as [Hz Ha].
  destruct (decide (i = z)) as [->|]; [done|]. apply (IH (z + 1)); [done|lia].
Qed.

(** The day after another one has another number in its month. *)
Lemma mday_next d : (civil (d + 1)).2 ≠ (civil d).2.
Proof.
  unfold civil. cbn [snd]. set (z := d + 719468). replace (d + 1 + 719468) with (z + 1) by (unfold z; lia).
  assert (Hz : 0 <= z mod era_days < era_days) by (apply Z.mod_pos_bound; done).
  rewrite <- Zplus_mod_idemp_l. destruct (doe_parts _ Hz) as (_ & _ & _ & _ & _ & _ & Hb & _).
  destruct (doy_next _ Hz) as [[-> Hlt]|[-> Hge]]; set (x := doe_doy (z mod era_days)) in *.
  - assert (Hc : all_below 365 0 (λ x, negb (doy_mday (x + 1) =? doy_mday x)) = true) by (by vm_compute).
    pose proof (all_below_spec _ _ _ Hc x ltac:(lia)) as Hx. by apply negb_true_iff, Z.eqb_neq in Hx.
  - assert (x = 364 ∨ x = 365) as [->| ->] by lia; by vm_compute.
Qed.
Lemma day_secs_gmtime t off : day_secs (gmtime t off) = t mod 86400.
Proof.
  unfold day_secs, gmtime. destruct (civil _) as [[y m] d]. cbn [tm_hour tm_min tm_sec].
  pose proof (Z.mod_pos_bound t 86400 ltac:(lia)). set (s := t mod 86400) in *. 
  rewrite (Z.div_mod s 60) at 4 by lia. rewrite (Z.div_mod (s / 60) 60) at 2 by lia. rewrite Z.div_div by lia. change (60 * 60) with 3600. lia.
Qed.

Lemma mday_gmtime t off : tm_mday (gmtime t off) = (civil (t / 86400)).2.
Proof. unfold gmtime. by destruct (civil _) as [[y m] d]. Qed.

Lemma wday_gmtime t off : tm_wday (gmtime t off) = (t / 86400 + 4) mod 7.
Proof. unfold gmtime. by destruct (civil _) as [[y m] d]. Qed.
