(* ===== verification/TimeRecSpec.v ===== *)
(** * Recurrences that match the right times

    A daily or weekly recurrence matches the times of its interval repeated every day or
    week, in time zones with a fixed offset; the time zone of the process is restored; and
    cases in which the code does something else. *)

From stdpp Require Import prelude list strings.
From Stdlib Require Import ZArith Lia Ascii.
From S2P Require Import Prelude TimeRec Calendar.

(** Case analysis on the comparisons of a goal. *)
Ltac split_cmp :=
  repeat match goal with
  | |- context [Z.eqb ?a ?b] => destruct (Z.eqb_spec a b); try (exfalso; lia)
  | |- context [Z.ltb ?a ?b] => destruct (Z.ltb_spec a b); try (exfalso; lia)
  | |- context [Z.leb ?a ?b] => destruct (Z.leb_spec a b); try (exfalso; lia)
  end; cbn [andb orb negb].

(** ** The days of an interval *)

(** In what follows times are local: seconds since 1970 plus the offset. *)

Lemma day_split t : t = t / 86400 * 86400 + t mod 86400 ∧ 0 <= t mod 86400 < 86400.
Proof. pose proof (Z.div_mod t 86400 ltac:(lia)). pose proof (Z.mod_pos_bound t 86400 ltac:(lia)). lia. Qed.

(** A multiple of a period between two numbers. *)
Lemma repeat_iff (P s e t : Z) : 0 < P → 0 <= e - s < P →
  (∃ k, s + k * P <= t < e + k * P) ↔ (t - s) mod P < e - s.
Proof.
  intros HP He. pose proof (Z.div_mod (t - s) P ltac:(lia)) as Hd. pose proof (Z.mod_pos_bound (t - s) P HP) as Hm. split.
  - intros (k & H1 & H2). replace (t - s) with ((t - s - k * P) + k * P) by lia. rewrite Z.mod_add, Z.mod_small by lia. lia.
  - intros Hlt. exists ((t - s) / P). lia.
Qed.

Lemma wday_shift x n k : 0 <= n < 7 → (x + n + 7 * k) mod 7 = if x mod 7 + n <? 7 then x mod 7 + n else x mod 7 + n - 7.
Proof. intros Hn. Z.to_euclidean_division_equations. destruct (Z.ltb_spec (r0 + n) 7); lia. Qed.

Section zone.
Context `{libc_time} (tz : option bytes) (off : Z).
Context (Hzone : ∀ t, localtime_r tz t = gmtime (t + off) off).

(** The local day and the second of the day. *)
Definition lday (t : Z) : Z := (t + off) / 86400.
Definition lsec (t : Z) : Z := (t + off) mod 86400.

Lemma lday_lsec t : t + off = lday t * 86400 + lsec t ∧ 0 <= lsec t < 86400.
Proof. apply day_split. Qed.

Lemma day_secs_local t : day_secs (localtime_r tz t) = lsec t.
Proof. by rewrite Hzone, day_secs_gmtime. Qed.
Lemma wday_local t : tm_wday (localtime_r tz t) = (lday t + 4) mod 7.
Proof. by rewrite Hzone, wday_gmtime. Qed.

(** Two times less than a day apart are on the same day, or on days with other numbers. *)
Lemma mday_local s e : 0 <= e - s < 86400 →
  lday e = lday s ∧ tm_mday (localtime_r tz s) = tm_mday (localtime_r tz e) ∨
  lday e = lday s + 1 ∧ tm_mday (localtime_r tz s) ≠ tm_mday (localtime_r tz e).
Proof.
  intros Hse. pose proof (lday_lsec s). pose proof (lday_lsec e). rewrite !Hzone, !mday_gmtime. fold (lday s) (lday e).
  assert (Hd : lday e = lday s ∨ lday e = lday s + 1) by lia. destruct Hd as [E|E]; rewrite E; [by left|right].
  split; [done|]. apply not_eq_sym, mday_next.
Qed.

(** The interval [check_recur_itv] decides for a daily recurrence. *)
Lemma daily_itv s e t : 0 <= e - s < SEC_DAILY →
  check_recur_itv (localtime_r tz t) (localtime_r tz s) (localtime_r tz e) (e - s) FREQ_DAILY = REC_MATCH ↔
  ∃ k, s + k * SEC_DAILY <= t < e + k * SEC_DAILY.
Proof.
  change SEC_DAILY with 86400. intros Hse. rewrite repeat_iff by lia. unfold check_recur_itv. cbn [Z.eqb orb FREQ_DAILY FREQ_YEARLY FREQ_MONTHLY FREQ_WEEKLY Pos.eqb].
  rewrite !day_secs_local. pose proof (lday_lsec s). pose proof (lday_lsec e). pose proof (lday_lsec t).
  assert (Hm : (t - s) mod 86400 = if lsec s <=? lsec t then lsec t - lsec s else lsec t - lsec s + 86400).
  { destruct (Z.leb_spec (lsec s) (lsec t)).
    - replace (t - s) with (lsec t - lsec s + (lday t - lday s) * 86400) by lia. rewrite Z.mod_add, Z.mod_small; lia.
    - replace (t - s) with (lsec t - lsec s + 86400 + (lday t - lday s - 1) * 86400) by lia. rewrite Z.mod_add, Z.mod_small; lia. }
  rewrite Hm. destruct (mday_local s e Hse) as [[E ->]|[E Hne]].
  - rewrite Z.eqb_refl. destruct (Z.leb_spec (lsec s) (lsec t)), (Z.ltb_spec (lsec t - lsec s) 0), (Z.leb_spec (lsec e - lsec t) 0);
      unfold REC_MATCH, REC_NOMATCH; split; intros; lia || done.
  - rewrite (proj2 (Z.eqb_neq _ _) Hne). destruct (Z.leb_spec (lsec s) (lsec t)), (Z.leb_spec (lsec s - lsec t) 0), (Z.ltb_spec (lsec t - lsec e) 0);
      unfold REC_MATCH, REC_NOMATCH; split; intros; lia || done.
Qed.

(** A weekly one: the first second of an interval that ends on another day is left out. *)
Lemma weekly_itv s e t : 0 <= e - s <= 6 * SEC_DAILY →
  check_recur_itv (localtime_r tz t) (localtime_r tz s) (localtime_r tz e) (e - s) FREQ_WEEKLY = REC_MATCH ↔
  ∃ k, s + k * SEC_WEEKLY <= t < e + k * SEC_WEEKLY ∧ (t = s + k * SEC_WEEKLY → lday s = lday e).
Proof.
  change SEC_WEEKLY with 604800. change SEC_DAILY with 86400. intros Hse. unfold check_recur_itv. cbn [Z.eqb orb FREQ_DAILY FREQ_YEARLY FREQ_MONTHLY FREQ_WEEKLY Pos.eqb].
  rewrite !day_secs_local, !wday_local. pose proof (lday_lsec s). pose proof (lday_lsec e). pose proof (lday_lsec t).
  set (k := (lday t - lday s) / 7). set (j := (lday t - lday s) mod 7).
  assert (Hj : lday t = lday s + 7 * k + j ∧ 0 <= j < 7).
  { pose proof (Z.div_mod (lday t - lday s) 7 ltac:(lia)). pose proof (Z.mod_pos_bound (lday t - lday s) 7 ltac:(lia)). unfold k, j. lia. }
  set (n := lday e - lday s). assert (Hn : 0 <= n <= 6) by (unfold n; lia).
  assert (Hd1 : 0 <= (lday s + 4) mod 7 < 7) by (apply Z.mod_pos_bound; lia). set (d1 := (lday s + 4) mod 7) in *.
  assert (Hd2 : (lday e + 4) mod 7 = if d1 + n <? 7 then d1 + n else d1 + n - 7).
  { replace (lday e + 4) with (lday s + 4 + n + 7 * 0) by (unfold n; lia). apply wday_shift. lia. }
  assert (Hdx : (lday t + 4) mod 7 = if d1 + j <? 7 then d1 + j else d1 + j - 7).
  { replace (lday t + 4) with (lday s + 4 + j + 7 * k) by lia. apply wday_shift. lia. }
  assert (Hspec : (∃ k, s + k * 604800 <= t < e + k * 604800 ∧ (t = s + k * 604800 → lday s = lday e)) ↔
    (if j =? 0 then if n =? 0 then lsec s <= lsec t < lsec e else lsec s < lsec t
     else if j <? n then True else if j =? n then lsec t < lsec e else False)).
  { split.
    - intros (k' & Hk & Hfirst). assert (k' = k) as -> by (unfold n in *; lia). split_cmp; unfold n in *; lia.
    - intros Hc. exists k. revert Hc. split_cmp; unfold n in *; intros; lia. }
  rewrite Hspec, Hd2, Hdx. unfold REC_MATCH, REC_NOMATCH.
  clear Hspec Hd2 Hdx. change SEC_DAILY with 86400.
  destruct (Z.ltb_spec (d1 + n) 7), (Z.ltb_spec (d1 + j) 7); split_cmp; (split; intros; [lia|try lia; done]).
Qed.
End zone.

(** ** Daily and weekly recurrences *)

(** The recurrence is checked in its own time zone, or in the one of the process. *)
Definition rec_zone (st : tz_state) (r : tmrec) : option bytes := match tr_tz r with Some tz => Some tz | None => TZ st end.

(** A recurrence with a frequency only: the interval from [dtstart] to [dtend], repeated. *)
Record plain_rec `{libc_time} (st : tz_state) (f : Z) (r : tmrec) : Prop := {
  pl_freq : freq r = f;
  pl_set : dtstart r ≠ TR_NOVAL;
  pl_interval : interval r = TR_NOVAL ∨ interval r = 1;
  pl_by : has_byxxx r = false ∧ byday r = None ∧ bymday r = None ∧ byyday r = None ∧ bymonth r = None ∧ byweekno r = None;
  pl_ts : ts r = localtime_r (rec_zone st r) (dtstart r);
  pl_dur : dtend r = dtstart r + duration r ∧ 0 <= duration r
}.

Lemma tz_set_reset st tz : old_tz st = None → tz_reset (_tz_set tz st) = st.
Proof. destruct st as [e o]. cbn. by intros ->. Qed.

Section recurrence.
Context `{libc_time} (st : tz_state) (Hst : old_tz st = None).

(** Checking a plain recurrence comes down to its interval. *)
Lemma plain_check f r t : plain_rec st f r → f = FREQ_DAILY ∨ f = FREQ_WEEKLY →
  ∃ b, _tmrec_check st r t = Some (b, st) ∧
    (b = true ↔ dtstart r <= t ∧ (until r = TR_NOVAL ∨ t <= until r) ∧
      ((if f =? FREQ_DAILY then SEC_DAILY else SEC_WEEKLY) <= duration r ∨
       check_recur_itv (localtime_r (rec_zone st r) t) (ts r) (localtime_r (rec_zone st r) (dtend r)) (duration r) f = REC_MATCH)).
Proof.
  intros [Hf Hset Hint (Hby & Hbd & Hmd & Hyd & Hmo & Hwn) Hts Hdur] Hfreq. unfold _tmrec_check, _IS_SET at 1.
  rewrite (proj2 (Z.eqb_neq _ _) Hset). cbn [negb].
  assert (Hz : TZ (match tr_tz r with Some tz => _tz_set tz st | None => st end) = rec_zone st r) by (unfold rec_zone; by destruct (tr_tz r)).
  assert (Hend : (match tr_tz r with Some _ => tz_reset (match tr_tz r with Some tz => _tz_set tz st | None => st end)
                   | None => match tr_tz r with Some tz => _tz_set tz st | None => st end end) = st).
  { destruct (tr_tz r); [by apply tz_set_reset|done]. }
  rewrite Hz, Hend. set (a := ac_tm_fill _ _). unfold check_tmrec.
  assert (Hfs : _IS_SET (freq r) = true) by (rewrite Hf; by destruct Hfreq as [->| ->]). rewrite Hfs. cbn [negb andb orb]. rewrite orb_false_r.
  change (at_time a) with t. destruct (Z.ltb_spec t (dtstart r)) as [Hlt|Hge].
  { exists false. split; [done|]. split; [done|lia]. }
  assert (Hfi : check_freq_interval (rec_zone st r) r a = Some REC_MATCH).
  { unfold check_freq_interval. rewrite Hfs. cbn [negb]. by destruct Hint as [->| ->]. }
  assert (Hmin : get_min_interval r = f).
  { unfold get_min_interval. rewrite Hbd, Hmd, Hyd, Hwn, Hmo, Hf. by destruct Hfreq as [->| ->]. }
  assert (Hbx : check_byxxx (rec_zone st r) r a = REC_MATCH) by (unfold check_byxxx; by rewrite Hby).
  rewrite Hfi. cbn [mbind option_bind]. rewrite Z.eqb_refl, Hbx, Z.eqb_refl. cbn [negb]. eexists. split; [reflexivity|].
  unfold check_min_unit. rewrite Hmin. change (at_t a) with (localtime_r (rec_zone st r) t).
  set (m := check_recur_itv _ _ _ _ f). set (P := if f =? FREQ_DAILY then SEC_DAILY else SEC_WEEKLY).
  assert (Hunit : (if f =? FREQ_NOFREQ then REC_NOMATCH else
            if (if f =? FREQ_DAILY then SEC_DAILY <=? duration r else if f =? FREQ_WEEKLY then SEC_WEEKLY <=? duration r
                else if f =? FREQ_MONTHLY then SEC_MONTHLY_MAX <=? duration r else SEC_YEARLY_MAX <=? duration r)
            then REC_MATCH else m) = if P <=? duration r then REC_MATCH else m) by (unfold P; by destruct Hfreq as [->| ->]).
  rewrite Hunit. unfold _IS_SET.
  destruct (Z.leb_spec P (duration r)) as [HP|HP]; [rewrite Z.eqb_refl|destruct (Z.eqb_spec m REC_MATCH) as [Hm|Hm]]; cbn [negb];
    rewrite ?negb_involutive; destruct (Z.eqb_spec (until r) TR_NOVAL), (Z.leb_spec t (until r)); cbn [orb]; split; intros; try done; lia.
Qed.
End recurrence.

(** C36. Recurrences match the times of their repeated interval.  The recurrence has a start, whose
    broken-down form is its local time, and a duration that is not negative, its interval is 1
    or not given, and it has no further restrictions; for one without a start the statement is false
    ([daily_without_start]).  In a time zone with a fixed offset a daily recurrence matches exactly the times from the
    start on that lie in the interval moved by a number of days, and are not after the last
    time; a weekly one of at most six days matches those in the interval moved by a number
    of weeks, except the very first second of an interval that ends on another day.  The
    time zone of the process is as before. *)
Theorem recurrence_matches `{libc_time} st r t off : old_tz st = None →
  (∀ u, localtime_r (rec_zone st r) u = gmtime (u + off) off) →
  (plain_rec st FREQ_DAILY r → ∃ b, _tmrec_check st r t = Some (b, st) ∧
     (b = true ↔ (until r = TR_NOVAL ∨ t <= until r) ∧ ∃ k, 0 <= k ∧ dtstart r + k * SEC_DAILY <= t < dtend r + k * SEC_DAILY)) ∧
  (plain_rec st FREQ_WEEKLY r → duration r <= 6 * SEC_DAILY → ∃ b, _tmrec_check st r t = Some (b, st) ∧
     (b = true ↔ (until r = TR_NOVAL ∨ t <= until r) ∧ ∃ k, 0 <= k ∧ dtstart r + k * SEC_WEEKLY <= t < dtend r + k * SEC_WEEKLY ∧
        (t = dtstart r + k * SEC_WEEKLY → lday off (dtstart r) = lday off (dtend r)))).
Proof.
  intros Hst Hzone. split.
  - intros Hpl. destruct (plain_check st Hst FREQ_DAILY r t Hpl ltac:(by left)) as (b & Hb & Hiff). exists b. split; [done|]. rewrite Hiff. cbn [Z.eqb].
    change (FREQ_DAILY =? FREQ_DAILY) with true. cbv iota. destruct (pl_dur _ _ _ Hpl) as [He Hd]. rewrite (pl_ts _ _ _ Hpl).
    destruct (Z.le_gt_cases SEC_DAILY (duration r)) as [Hlong|Hshort].
    + split; [intros (Hs & Hu & _)|intros (Hu & k & Hk & Hk1 & Hk2)]; [split; [done|]|split; [|split; [done|by left]]; unfold SEC_DAILY in *; lia].
      exists ((t - dtstart r) / SEC_DAILY). pose proof (Z.div_mod (t - dtstart r) SEC_DAILY ltac:(done)).
      pose proof (Z.mod_pos_bound (t - dtstart r) SEC_DAILY ltac:(done)). split; [apply Z.div_pos; [lia|done]|lia].
    + replace (duration r) with (dtend r - dtstart r) by lia. rewrite (daily_itv _ off Hzone) by lia.
      split; [intros (Hs & Hu & [Hc|(k & Hk)])|intros (Hu & k & Hk & Hk')]; [lia| |].
      * split; [done|]. exists k. split; [unfold SEC_DAILY in *; lia|done].
      * split; [unfold SEC_DAILY in *; lia|]. split; [done|]. right. by exists k.
  - intros Hpl Hmax. destruct (plain_check st Hst FREQ_WEEKLY r t Hpl ltac:(by right)) as (b & Hb & Hiff). exists b. split; [done|]. rewrite Hiff.
    change (FREQ_WEEKLY =? FREQ_DAILY) with false. cbv iota. destruct (pl_dur _ _ _ Hpl) as [He Hd]. rewrite (pl_ts _ _ _ Hpl).
    replace (duration r) with (dtend r - dtstart r) by lia. rewrite (weekly_itv _ off Hzone) by lia.
    split; [intros (Hs & Hu & [Hc|(k & Hk & Hf)])|intros (Hu & k & Hk & Hk' & Hf)]; [unfold SEC_WEEKLY, SEC_DAILY in *; lia| |].
    + split; [done|]. exists k. split; [unfold SEC_WEEKLY, SEC_DAILY in *; lia|done].
    + split; [unfold SEC_WEEKLY, SEC_DAILY in *; lia|]. split; [done|]. right. by exists k.
Qed.

(** From ten in the evening to six in the morning, read from its text. *)
Definition night : tmrec :=
  match @tmrec_parse utc (TzState (Some (bs "Europe/Bucharest")) None) (bs "UTC|20200101T220000|20200102T060000||DAILY") with
  | (Some r, _) => r
  | _ => tmrec_init
  end.

Lemma recurrence_matches_witness :
  let st := TzState (Some (bs "Europe/Bucharest")) None in
  (@plain_rec utc st FREQ_DAILY night → ∃ b, @_tmrec_check utc st night 1591357895 = Some (b, st) ∧
     (b = true ↔ (until night = TR_NOVAL ∨ 1591357895 <= until night) ∧
        ∃ k, 0 <= k ∧ dtstart night + k * SEC_DAILY <= 1591357895 < dtend night + k * SEC_DAILY)) ∧
  (@plain_rec utc st FREQ_WEEKLY night → duration night <= 6 * SEC_DAILY → ∃ b, @_tmrec_check utc st night 1591357895 = Some (b, st) ∧
     (b = true ↔ (until night = TR_NOVAL ∨ 1591357895 <= until night) ∧
        ∃ k, 0 <= k ∧ dtstart night + k * SEC_WEEKLY <= 1591357895 < dtend night + k * SEC_WEEKLY ∧
        (1591357895 = dtstart night + k * SEC_WEEKLY → lday 0 (dtstart night) = lday 0 (dtend night)))) ∧
  @plain_rec utc st FREQ_DAILY night.
Proof.
  intros st.
  assert (Hz : ∀ u, @localtime_r utc (rec_zone st night) u = gmtime (u + 0) 0) by (intros u; reflexivity).
  destruct (@recurrence_matches utc st night 1591357895 0 eq_refl Hz) as [Hd Hw]. split; [exact Hd|]. split; [exact Hw|].
  split; [reflexivity|by vm_compute|by left; vm_compute|by vm_compute|by vm_compute|]. split; [by vm_compute|by vm_compute].
Defined.

(** ** The time zone is restored *)

Definition load_tz (x : tr_load) : option bytes := match x with TrFail r | TrDone r | TrNext _ r => tr_tz r end.

Lemma load_keeps_tz func p r : (∀ r s, tr_tz (func r s).2 = tr_tz r) → load_tz (load_TR_value func p r) = tr_tz r.
Proof.
  intros Hf. unfold load_TR_value. destruct (cut_sep p) as [s rest].
  assert (Hr : tr_tz (match s, rest with [], Some _ => (0, r) | _, _ => func r s end).2 = tr_tz r).
  { destruct s, rest; by rewrite ?Hf. }
  destruct (match s, rest with [], Some _ => (0, r) | _, _ => func r s end) as [rc r']. cbn in Hr.
  destruct (rc <? 0); [done|]. destruct rest as [rest|]; [|by destruct (rc =? 0)]. by destruct (if rc =? 0 then rest else p).
Qed.

Lemma then_keeps_tz x k z : load_tz x = z → (∀ p r, tr_tz r = z → load_tz (k p r) = z) → load_tz (tr_then x k) = z.
Proof. destruct x; cbn; auto. Qed.

Lemma parts_keep_tz `{libc_time} st p r : load_tz (tmrec_parts st p r) = tr_tz r.
Proof.
  unfold tmrec_parts. assert (Hd : ∀ r s, tr_tz (tr_parse_dtstart st r s).2 = tr_tz r).
  { intros r0 s. unfold tr_parse_dtstart. by destruct (ic_parse_datetime _ _) as [[? ?]|]. }
  repeat (apply then_keeps_tz; [etransitivity; [by apply load_keeps_tz|]; done|intros ? ? ?]). done.
Qed.

(** [_tmrec_parse] leaves the variable as it was, whatever it returns. *)
Lemma parse_restores_tz `{libc_time} st s : old_tz st = None → (_tmrec_parse st s tmrec_init).2 = st.
Proof.
  intros Hst. unfold _tmrec_parse. destruct s as [|c s]; [done|].
  assert (Hreset : tz_reset st = st) by (unfold tz_reset; by rewrite Hst).
  destruct (load_TR_value tr_parse_tz (c :: s) tmrec_init) as [r|r|p r] eqn:Hl.
  - destruct (tr_tz r); cbn; by rewrite ?Hreset.
  - destruct (tr_tz r); destruct (tmrec_complete r); cbn; by rewrite ?Hreset.
  - pose proof (parts_keep_tz (match tr_tz r with Some tz => _tz_set tz st | None => st end) p r) as Hz.
    destruct (tmrec_parts _ p r) as [r'|r'|p' r']; cbn in Hz; rewrite Hz; [|destruct (tmrec_complete r')..];
      (destruct (tr_tz r); cbn [snd]; [by apply tz_set_reset|done]).
Qed.

Lemma check_restores_tz `{libc_time} st r t b st' : old_tz st = None → _tmrec_check st r t = Some (b, st') → st' = st.
Proof.
  intros Hst. unfold _tmrec_check. destruct (negb _); [by intros [= _ <-]|].
  destruct (check_tmrec _ _ _) as [rc|]; [|done]. cbn. intros [= _ <-]. destruct (tr_tz r); [by apply tz_set_reset|done].
Qed.

(** ** Cases that go wrong *)

(** A text checked in UTC: [None] is a crash. *)
Definition check_utc (s : bytes) (t : Z) : option Z := option_map fst (@_tmrec_check_str utc (TzState None None) s t).
Definition parse_utc (s : bytes) : option tmrec := (@tmrec_parse utc (TzState None None) s).1.

(** Values of the tests of the repository, at 11:51:35 on Friday, June 5, 2020. *)
Example test_values :
  let now := 1591357895 in
  check_utc (bs "UTC|19700101T000000|||YEARLY|||||||6") now = Some 1 ∧ check_utc (bs "UTC|19700101T000000|||YEARLY|||||||7") now = Some (-1) ∧
  check_utc (bs "UTC|19700101T000000|||YEARLY||||||23") now = Some 1 ∧ check_utc (bs "UTC|19700101T000000|||YEARLY||||||24") now = Some (-1) ∧
  check_utc (bs "UTC|20200101T000000|20200101T115136||YEARLY|20201201T235959||||157") now = Some 1 ∧
  check_utc (bs "UTC|20200101T000000|20200101T115135||YEARLY|20201201T235959||||157") now = Some (-1) ∧
  check_utc (bs "UTC|19700101T000000|||MONTHLY|||-1FR") (now - 604800) = Some 1 ∧
  check_utc (bs "UTC|19700101T000000|||MONTHLY|||-1TH") (now - 604800) = Some (-1).
Proof. by vm_compute. Qed.

(** The digits of the interval are added up, and an interval of zero crashes. *)
Example interval_digits_added :
  option_map interval (parse_utc (bs "UTC|20200101T000000|||DAILY||12")) = Some 3 ∧
  check_utc (bs "UTC|20200101T000000|||DAILY||0") 1591357895 = None.
Proof. by vm_compute. Qed.

(** The ordinal before Wednesday is lost. *)
Example wednesday_ordinal_lost :
  ic_parse_byday (bs "2TU") = Some [(WDAY_TU, 1)] ∧ ic_parse_byday (bs "2WE") = Some [(WDAY_WE, 0)] ∧ ic_parse_byday (bs "-1WE") = Some [(WDAY_WE, 0)].
Proof. by vm_compute. Qed.

(** A list that cannot be parsed is dropped, a duration that cannot be parsed is zero. *)
Example bad_lists_ignored :
  check_utc (bs "UTC|20200101T000000|||WEEKLY|||MX") 1591357895 = Some 1 ∧
  option_map duration (parse_utc (bs "UTC|20200101T000000||1X|DAILY")) = Some 0.
Proof. by vm_compute. Qed.

(** Without a start the broken-down start is empty, and an hour a day matches at noon. *)
Example daily_without_start : check_utc (bs "UTC|||PT1H|DAILY") 1591357895 = Some 1.
Proof. by vm_compute. Qed.

(** An interval of six days and twenty hours from a Monday at ten does not match on that
    Monday at noon, which is inside, nor on the next one at five. *)
Example nearly_a_week :
  check_utc (bs "UTC|20200601T100000||P6DT20H|WEEKLY") 1591012800 = Some (-1) ∧
  check_utc (bs "UTC|20200601T100000||P6DT20H|WEEKLY") 1591592400 = Some (-1) ∧
  check_utc (bs "UTC|20200601T100000||P6DT20H|WEEKLY") 1591099200 = Some 1.
Proof. by vm_compute. Qed.

(** A month without an end stops one day early: not on the 31st, but on the 30th. *)
Example month_ends_early :
  check_utc (bs "UTC|20200101T000000|||MONTHLY") 1580472000 = Some (-1) ∧ check_utc (bs "UTC|20200101T000000|||MONTHLY") 1580385600 = Some 1.
Proof. by vm_compute. Qed.
