(* ===== verification/TimeRecExpr.v ===== *)
(** * Expressions of time recurrences

    Recurrences combined with [&], [/], [!] and parentheses ([time_rec.c]).  There are two
    implementations: [_tmrec_expr_check_str] reads the text and evaluates it at once, and
    [tmrec_expr_parse] builds a tree that [_tmrec_expr_check] evaluates.  The theorem at
    the end says that they agree. *)

From stdpp Require Import prelude list strings.
From Stdlib Require Import ZArith Lia Ascii.
From S2P Require Import Prelude TimeRec Calendar TimeRecSpec.

(** [is_ws] of [trim.h], and [trim]. *)
Definition is_white (c : byte) : bool := (c =? 32) || (c =? 13) || (c =? 10) || (c =? 9).

Fixpoint trim_leading (s : bytes) : bytes :=
  match s with c :: t => if is_white c then trim_leading t else s | [] => [] end.
Definition trim_trailing (s : bytes) : bytes := reverse (trim_leading (reverse s)).
Definition trim (s : bytes) : bytes := trim_trailing (trim_leading s).

(** The text up to the parenthesis that closes [need_close] open ones, a [char], and the text
    after it. *)
Fixpoint close_paren (need_close : Z) (q : bytes) : option (bytes * bytes) :=
  match q with
  | [] => None
  | c :: t =>
      let k n := if n =? 0 then Some ([], t) else (λ x, (c :: x.1, x.2)) <$> close_paren n t in
      if c =? chr "(" then k (swrap 8 (need_close + 1))
      else if c =? chr ")" then k (swrap 8 (need_close - 1))
      else (λ x, (c :: x.1, x.2)) <$> close_paren need_close t
  end.

(** The rest of a recurrence that started before [q]: it ends before a blank, an operator or
    the end of the text; [/] is one only after the first separator.  [None]: an unexpected
    character. *)
Fixpoint operand_end (is_valid : bool) (q : bytes) : option (bytes * bytes) :=
  match q with
  | [] => Some ([], [])
  | c :: t =>
      if (c =? chr "!") || (c =? chr "(") || (c =? chr ")") then None
      else
        let is_valid := is_valid || (c =? TR_SEPARATOR) in
        if is_white c || (c =? chr "&") || ((c =? chr "/") && is_valid) then Some ([], q)
        else (λ x, (c :: x.1, x.2)) <$> operand_end is_valid t
  end.

Inductive expr_state := NEED_OPERAND | NEED_OPERATOR.

Definition TR_OP_NUL : Z := 0.
Definition TR_OP_AND : Z := 1.
Definition TR_OP_OR : Z := 2.

Definition invert (rc : Z) : Z := Z.rem (rc + 2) 4.

(** ** Evaluation of the text *)

Record cs := Cs { cs_state : expr_state; cs_rc : Z; cs_tmp : Z; cs_op : Z; cs_inv : bool }.
Definition cs_init : cs := Cs NEED_OPERAND 0 77 0 false.

Definition cs_with (q : expr_state) (x : cs) : cs := Cs q (cs_rc x) (cs_tmp x) (cs_op x) (cs_inv x).

(** An operand with the value [v]: it is inverted when asked, then combined. *)
Definition cs_combine (v : Z) (x : cs) : cs :=
  if cs_op x =? 1 then Cs (cs_state x) (Z.land (cs_rc x) v) (cs_tmp x) (cs_op x) (cs_inv x)
  else if cs_op x =? 2 then Cs (cs_state x) (Z.lor (cs_rc x) v) (cs_tmp x) (cs_op x) (cs_inv x)
  else Cs (cs_state x) v v (cs_op x) (cs_inv x).
Definition cs_value (v : Z) (x : cs) : Z * cs :=
  if cs_inv x then (invert v, Cs (cs_state x) (cs_rc x) (cs_tmp x) (cs_op x) false) else (v, x).

(** The operator after a recurrence, with its value [v]; [None] when two operators are mixed. *)
Definition cs_leaf_op (q : bytes) (v : Z) (x : cs) : option cs :=
  match q with
  | c :: _ =>
      if c =? chr "&" then
        if cs_op x =? 2 then None
        else Some (Cs (cs_state x) (if cs_op x =? 0 then v else cs_rc x) (cs_tmp x) 1 (cs_inv x))
      else if c =? chr "/" then
        if cs_op x =? 1 then None else Some (Cs (cs_state x) (cs_rc x) (cs_tmp x) 2 (cs_inv x))
      else Some x
  | [] => Some x
  end.

(** The operator where one is needed. *)
Definition cs_operator (c : byte) (x : cs) : option cs :=
  if c =? chr "&" then
    if cs_op x =? 2 then None
    else Some (Cs NEED_OPERAND (if cs_op x =? 0 then cs_tmp x else cs_rc x) (cs_tmp x) 1 (cs_inv x))
  else if c =? chr "/" then
    if cs_op x =? 1 then None else Some (Cs NEED_OPERAND (cs_rc x) (cs_tmp x) 2 (cs_inv x))
  else None.

Definition cs_end (x : cs) : Z :=
  match cs_state x with
  | NEED_OPERAND => if negb (cs_op x =? 0) then -2 else if cs_inv x then invert (cs_rc x) - 1 else cs_rc x - 1
  | NEED_OPERATOR => if cs_inv x then invert (cs_rc x) - 1 else cs_rc x - 1
  end.

(** The state after a recurrence that is followed by [q]. *)
Definition after_leaf (q : bytes) (s : expr_state) : expr_state :=
  match q with c :: _ => if is_white c then NEED_OPERATOR else s | [] => s end.

Section check_str.
Context `{libc_time} (time : Z).

(** The outer [None] means that the fuel [n] is not enough, the inner one a crash. *)
Fixpoint cs_loop (n : nat) (st : tz_state) (p : bytes) (x : cs) : option (option (Z * tz_state)) :=
  match n with
  | O => None
  | S n =>
      match p with
      | [] => Some (Some (cs_end x, st))
      | c :: rest =>
          if is_white c then cs_loop n st rest x
          else
            match cs_state x with
            | NEED_OPERAND =>
                if (c =? chr ")") || (c =? chr "&") || (c =? chr "/") then Some (Some (-2, st))
                else if c =? chr "!" then cs_loop n st rest (Cs NEED_OPERAND (cs_rc x) (cs_tmp x) (cs_op x) (negb (cs_inv x)))
                else if c =? chr "(" then
                  match close_paren 1 rest with
                  | None => Some (Some (-2, st))
                  | Some (inner, after) =>
                      match cs_loop n st (trim inner) cs_init with
                      | Some (Some (r, st)) =>
                          if r + 1 <? 0 then Some (Some (-2, st))
                          else
                            let '(v, x) := cs_value (r + 1) x in
                            cs_loop n st after (cs_with NEED_OPERATOR (cs_combine v x))
                      | o => o
                      end
                  end
                else
                  match operand_end false rest with
                  | None => Some (Some (-2, st))
                  | Some (text, q) =>
                      match _tmrec_check_str st (trim (c :: text)) time with
                      | None => Some None
                      | Some (r, st) =>
                          if r + 1 <? 0 then Some (Some (r, st))
                          else
                            let '(v, x) := cs_value (r + 1) (cs_with (after_leaf q (cs_state x)) x) in
                            match cs_leaf_op q v x with
                            | None => Some (Some (-2, st))
                            | Some x =>
                                let x := cs_combine v x in
                                match q with
                                | [] => Some (Some (cs_rc x - 1, st))
                                | _ :: q => cs_loop n st q x
                                end
                            end
                      end
                  end
            | NEED_OPERATOR =>
                match cs_operator c x with
                | None => Some (Some (-2, st))
                | Some x => cs_loop n st rest x
                end
            end
      end
  end.

(** Every turn takes at least one character. *)
Definition _tmrec_expr_check_str (st : tz_state) (trx : bytes) : option (option (Z * tz_state)) :=
  cs_loop (S (length trx)) st trx cs_init.
End check_str.

(** ** Trees *)

(** [tmrec_expr_t]. *)
Inductive tmrec_expr := TmExpr (is_leaf : bool) (op : Z) (operands : list tmrec_expr) (inverted : bool) (tr : tmrec).

Definition leaf (r : tmrec) (inv : bool) : tmrec_expr := TmExpr true TR_OP_NUL [] inv r.
Definition node (op : Z) (es : list tmrec_expr) (inv : bool) : tmrec_expr := TmExpr false op es inv tmrec_init.
Definition set_inverted (e : tmrec_expr) : tmrec_expr := match e with TmExpr l op es _ r => TmExpr l op es true r end.

(** The expression under construction: its operator and operands. *)
Record pe := Pe { pe_state : expr_state; pe_op : Z; pe_es : list tmrec_expr; pe_inv : bool }.
Definition pe_init : pe := Pe NEED_OPERAND TR_OP_NUL [] false.

Definition pe_add (e : tmrec_expr) (q : expr_state) (y : pe) : pe :=
  Pe q (pe_op y) (pe_es y ++ [if pe_inv y then set_inverted e else e]) false.

Definition pe_set_op (c : byte) (q : expr_state) (y : pe) : option pe :=
  if c =? chr "&" then if pe_op y =? TR_OP_OR then None else Some (Pe q TR_OP_AND (pe_es y) (pe_inv y))
  else if c =? chr "/" then if pe_op y =? TR_OP_AND then None else Some (Pe q TR_OP_OR (pe_es y) (pe_inv y))
  else None.

Definition pe_leaf_op (q : bytes) (y : pe) : option pe :=
  match q with
  | c :: _ => if (c =? chr "&") || (c =? chr "/") then pe_set_op c (pe_state y) y else Some y
  | [] => Some y
  end.

Definition pe_end (y : pe) : option tmrec_expr :=
  match pe_state y with
  | NEED_OPERAND => if negb (pe_op y =? TR_OP_NUL) then None else Some (node (pe_op y) (pe_es y) (pe_inv y))
  | NEED_OPERATOR => Some (node (pe_op y) (pe_es y) (pe_inv y))
  end.

Section expr.
Context `{libc_time}.

(** [None]: not enough fuel; the inner option is the pointer returned. *)
Fixpoint pe_loop (n : nat) (st : tz_state) (p : bytes) (y : pe) : option (option tmrec_expr * tz_state) :=
  match n with
  | O => None
  | S n =>
      match p with
      | [] => Some (pe_end y, st)
      | c :: rest =>
          if is_white c then pe_loop n st rest y
          else
            match pe_state y with
            | NEED_OPERAND =>
                if (c =? chr ")") || (c =? chr "&") || (c =? chr "/") then Some (None, st)
                else if c =? chr "!" then pe_loop n st rest (Pe NEED_OPERAND (pe_op y) (pe_es y) (negb (pe_inv y)))
                else if c =? chr "(" then
                  match close_paren 1 rest with
                  | None => Some (None, st)
                  | Some (inner, after) =>
                      match pe_loop n st (trim inner) pe_init with
                      | Some (Some e, st) => pe_loop n st after (pe_add e NEED_OPERATOR y)
                      | o => o
                      end
                  end
                else
                  match operand_end false rest with
                  | None => Some (None, st)
                  | Some (text, q) =>
                      let '(ok, r, st) := _tmrec_parse st (trim (c :: text)) tmrec_init in
                      if ok then
                        match pe_leaf_op q (pe_add (leaf r false) (after_leaf q (pe_state y)) y) with
                        | None => Some (None, st)
                        | Some y =>
                            match q with
                            | [] => Some (Some (node (pe_op y) (pe_es y) false), st)
                            | _ :: q => pe_loop n st q y
                            end
                        end
                      else Some (None, st)
                  end
            | NEED_OPERATOR =>
                match pe_set_op c NEED_OPERAND y with
                | None => Some (None, st)
                | Some y => pe_loop n st rest y
                end
            end
      end
  end.

Definition tmrec_expr_parse (st : tz_state) (trx : bytes) : option (option tmrec_expr * tz_state) :=
  pe_loop (S (length trx)) st trx pe_init.

(** The value of a tree, [None] for a crash. *)
Fixpoint _tmrec_expr_check (st : tz_state) (e : tmrec_expr) (time : Z) : option (Z * tz_state) :=
  match e with
  | TmExpr is_leaf op es inv r =>
      let out (x : option (Z * tz_state)) := (λ x, (if inv : bool then invert x.1 - 1 else x.1 - 1, x.2)) <$> x in
      if is_leaf : bool then out ((λ x, (if x.1 : bool then 2 else 0, x.2)) <$> _tmrec_check st r time)
      else
        match es with
        | [] => out (Some (0, st))
        | _ =>
            out ((fix go st rc es :=
                    match es with
                    | [] => Some (rc, st)
                    | e :: es =>
                        match _tmrec_expr_check st e time with
                        | None => None
                        | Some (v, st) => go st (if op =? TR_OP_AND then Z.land rc (v + 1) else Z.lor rc (v + 1)) es
                        end
                    end) st (if op =? TR_OP_AND then 2 else 0) es)
        end
  end.
End expr.

(** ** The two agree *)

(** Every group below the whole expression has an operand. *)
Fixpoint proper (e : tmrec_expr) : bool :=
  match e with TmExpr l _ es _ _ => l || (match es with [] => false | _ => true end && forallb proper es) end.
Definition groups_ok (e : tmrec_expr) : bool := match e with TmExpr l _ es _ _ => l || forallb proper es end.

Lemma match_ne {A B} (l : list A) (x y : B) : l ≠ [] → match l with [] => x | _ => y end = y.
Proof. by destruct l. Qed.

Section agree.
Context `{libc_time} (time : Z) (st : tz_state) (Hst : old_tz st = None).

Abbreviation check e := (_tmrec_expr_check st e time).

Lemma parse_same s : ∃ ok r, _tmrec_parse st s tmrec_init = (ok, r, st).
Proof. pose proof (parse_restores_tz st s Hst) as Hp. destruct (_tmrec_parse st s tmrec_init) as [[ok r] st']. cbn in Hp. subst. by eexists _, _. Qed.

(** The operands of a node, evaluated one after the other. *)
Fixpoint check_all (op rc : Z) (es : list tmrec_expr) : option Z :=
  match es with
  | [] => Some rc
  | e :: es =>
      match check e with
      | None => None
      | Some (v, _) => check_all op (if op =? TR_OP_AND then Z.land rc (v + 1) else Z.lor rc (v + 1)) es
      end
  end.

Lemma tmrec_check_same r : match _tmrec_check st r time with Some (_, st') => st' = st | None => True end.
Proof. destruct (_tmrec_check st r time) as [[b st']|] eqn:E; [|done]. by eapply check_restores_tz. Qed.

Fixpoint expr_size (e : tmrec_expr) : nat := match e with TmExpr _ _ es _ _ => S (sum_list_with expr_size es) end.

Lemma check_same n : ∀ e, (expr_size e < n)%nat → match check e with Some (_, st') => st' = st | None => True end.
Proof.
  induction n as [|n IH]; intros [l op es inv r] Hn; [lia|]. cbn [_tmrec_expr_check expr_size] in *. destruct l.
  { pose proof (tmrec_check_same r). by destruct (_tmrec_check st r time) as [[b st']|]. }
  destruct (decide (es = [])) as [->|Hne]; [done|]. rewrite match_ne by done. clear Hne.
  lazymatch goal with |- context [?g st (if op =? TR_OP_AND then 2 else 0) es] => set (go := g) end.
  assert (Hgo : ∀ rc, match go st rc es with Some (_, st') => st' = st | None => True end).
  { clear inv r. induction es as [|e es IHes]; intros rc; cbn; [done|]. cbn [sum_list_with] in Hn. specialize (IH e ltac:(lia)).
    destruct (check e) as [[v st']|]; [subst st'|done]. apply IHes. lia. }
  specialize (Hgo (if op =? TR_OP_AND then 2 else 0)). by destruct (go _ _ _) as [[? ?]|].
Qed.

Lemma check_node op es inv : es ≠ [] →
  check (node op es inv) = (λ rc, (if inv then invert rc - 1 else rc - 1, st)) <$> check_all op (if op =? TR_OP_AND then 2 else 0) es.
Proof.
  intros Hne. unfold node. cbn [_tmrec_expr_check]. rewrite match_ne by done. clear Hne.
  lazymatch goal with |- context [?g st (if op =? TR_OP_AND then 2 else 0) es] => set (go := g) end.
  assert (Hgo : ∀ rc, go st rc es = (λ rc, (rc, st)) <$> check_all op rc es).
  { induction es as [|e es IH]; intros rc; cbn [check_all]; [done|]. unfold go at 1. fold go.
    pose proof (check_same (S (expr_size e)) e ltac:(lia)). destruct (check e) as [[v st']|]; [subst st'; apply IH|done]. }
  rewrite Hgo. by destruct (check_all _ _ es).
Qed.

Lemma check_all_app op es es' : ∀ rc, check_all op rc (es ++ es') = check_all op rc es ≫= λ rc, check_all op rc es'.
Proof. induction es as [|e es IH]; intros rc; cbn [check_all app]; [done|]. destruct (check e) as [[v ?]|]; [apply IH|done]. Qed.

(** A tree that is not inverted. *)
Lemma check_inverted l op es r : check (TmExpr l op es true r) = (λ x, (invert (x.1 + 1) - 1, x.2)) <$> check (TmExpr l op es false r).
Proof.
  cbn [_tmrec_expr_check]. destruct l; [destruct (_tmrec_check st r time) as [[b ?]|]; cbn; [by destruct b|done]|].
  destruct (decide (es = [])) as [->|Hne]; [done|]. rewrite !match_ne by done.
  lazymatch goal with |- context [?g st (if op =? TR_OP_AND then 2 else 0) es] => set (go := g) end.
  destruct (go _ _ _) as [[rc ?]|]; cbn; [|done].
  by replace (rc - 1 + 1) with rc by lia.
Qed.

(** *** Parsing *)

Lemma trim_leading_length s : (length (trim_leading s) <= length s)%nat.
Proof. induction s as [|c s IH]; [done|]. cbn. destruct (is_white c); simpl; lia. Qed.
Lemma trim_length s : (length (trim s) <= length s)%nat.
Proof.
  unfold trim, trim_trailing. rewrite length_reverse. etransitivity; [apply trim_leading_length|]. rewrite length_reverse. apply trim_leading_length.
Qed.

Lemma close_paren_length q : ∀ n a b, close_paren n q = Some (a, b) → (length a + length b < length q)%nat.
Proof.
  induction q as [|c q IH]; intros n a b; cbn [close_paren]; [done|].
  assert (Hmap : ∀ n, (λ x : bytes * bytes, (c :: x.1, x.2)) <$> close_paren n q = Some (a, b) → (length a + length b < length (c :: q))%nat).
  { intros m. destruct (close_paren m q) as [[a' b']|] eqn:E; [|done]. apply IH in E. intros [= <- <-]. simpl. lia. }
  assert (Hk : ∀ n, (if n =? 0 then Some ([], q) else (λ x : bytes * bytes, (c :: x.1, x.2)) <$> close_paren n q) = Some (a, b) →
    (length a + length b < length (c :: q))%nat).
  { intros m. destruct (m =? 0); [intros [= <- <-]; simpl; lia|apply Hmap]. }
  destruct (c =? chr "("); [apply Hk|]. destruct (c =? chr ")"); [apply Hk|apply Hmap].
Qed.

Lemma operand_end_length q : ∀ v a b, operand_end v q = Some (a, b) → (length b <= length q)%nat.
Proof.
  induction q as [|c q IH]; intros v a b; cbn [operand_end]; [by intros [= <- <-]|].
  destruct (_ || _ || _); [done|]. destruct (_ || _ || _); [intros [= <- <-]; done|].
  destruct (operand_end _ q) as [[a' b']|] eqn:E; [|done]. apply IH in E. intros [= <- <-]. simpl. lia.
Qed.

(** What is parsed is a node that has the operands found so far first; one with operands is not
    inverted. *)
Definition extends (es : list tmrec_expr) (e : tmrec_expr) : Prop :=
  ∃ op es' inv, e = node op (es ++ es') inv ∧ (inv = true → es ++ es' = []).

(** In the second state there is an operand, and in the first one there is one only after an
    operator. *)
Definition pe_ok (y : pe) : Prop :=
  0 <= pe_op y <= 2 ∧
  match pe_state y with
  | NEED_OPERAND => pe_op y = 0 → pe_es y = []
  | NEED_OPERATOR => pe_inv y = false ∧ pe_es y ≠ [] ∧ (pe_op y = 0 → length (pe_es y) = 1%nat)
  end.

Lemma extends_app es e0 e : extends (es ++ e0) e → extends es e.
Proof. intros (op & es' & inv & -> & Hi). exists op, (e0 ++ es'), inv. by rewrite app_assoc. Qed.

Lemma operand_end_head q : ∀ v a c b, operand_end v q = Some (a, c :: b) → is_white c = true ∨ c = chr "&" ∨ c = chr "/".
Proof.
  induction q as [|d q IH]; intros v a c b; cbn [operand_end]; [done|].
  destruct (_ || _ || _); [done|]. destruct (is_white d || _ || _) eqn:E.
  - intros [= <- <- <-]. destruct (is_white d); [by left|]. destruct (Z.eqb_spec d (chr "&")); [by auto|].
    destruct (Z.eqb_spec d (chr "/")); [by auto|done].
  - destruct (operand_end _ q) as [[a' b']|] eqn:E'; [|done]. intros [= <- ->]. by eapply IH.
Qed.

Lemma pe_add_ok e y : pe_ok y → pe_state y = NEED_OPERAND → pe_ok (pe_add e NEED_OPERATOR y).
Proof.
  intros [Hop Hy] Hs. rewrite Hs in Hy. split; [done|]. cbn. split; [done|]. split; [by destruct (pe_es y)|].
  intros H0. rewrite (Hy H0). done.
Qed.

Lemma pe_set_op_ok c q y y' : pe_set_op c q y = Some y' → pe_es y' = pe_es y ∧ pe_inv y' = pe_inv y ∧ pe_state y' = q ∧
  (c = chr "&" ∧ pe_op y' = 1 ∧ pe_op y ≠ 2 ∨ c = chr "/" ∧ pe_op y' = 2 ∧ pe_op y ≠ 1).
Proof.
  unfold pe_set_op, TR_OP_AND, TR_OP_OR. destruct (Z.eqb_spec c (chr "&")) as [->|].
  - destruct (Z.eqb_spec (pe_op y) 2); [done|]. intros [= <-]. cbn. auto 7.
  - destruct (Z.eqb_spec c (chr "/")) as [->|]; [|done]. destruct (Z.eqb_spec (pe_op y) 1); [done|]. intros [= <-]. cbn. auto 7.
Qed.

(** After a recurrence that something follows. *)
Lemma pe_leaf_ok e c q y y' : pe_ok y → pe_state y = NEED_OPERAND → is_white c = true ∨ c = chr "&" ∨ c = chr "/" →
  pe_leaf_op (c :: q) (pe_add e (after_leaf (c :: q) (pe_state y)) y) = Some y' →
  pe_ok y' ∧ pe_es y' = pe_es (pe_add e NEED_OPERATOR y).
Proof.
  intros Hy Hs Hc. unfold pe_leaf_op, after_leaf. destruct Hc as [Hw|Hc].
  - assert (Hne : (c =? chr "&") || (c =? chr "/") = false) by (change (chr "&") with 38; change (chr "/") with 47; unfold is_white in Hw; lia). rewrite Hne, Hw. intros [= <-].
    split; [by apply pe_add_ok|done].
  - assert (Hb : (c =? chr "&") || (c =? chr "/") = true ∧ is_white c = false) by (by destruct Hc as [->| ->]). destruct Hb as [-> ->].
    intros (He & Hi & Hst' & Hop)%pe_set_op_ok. split; [|by rewrite He]. split; [lia|]. rewrite Hst'. cbn. rewrite Hs. lia.
Qed.

Lemma pe_loop_total n : ∀ p y, (length p < n)%nat → pe_ok y →
  ∃ o, pe_loop n st p y = Some (o, st) ∧ match o with Some e => extends (pe_es y) e | None => True end.
Proof.
  induction n as [|n IH]; intros p y Hn Hy; [lia|]. cbn [pe_loop]. destruct p as [|c rest].
  { eexists. split; [done|]. destruct Hy as [_ Hy]. unfold pe_end. destruct (pe_state y).
    - destruct (Z.eqb_spec (pe_op y) TR_OP_NUL) as [H0|]; [|done]. cbn. exists (pe_op y), [], (pe_inv y). rewrite app_nil_r. auto.
    - exists (pe_op y), [], (pe_inv y). rewrite app_nil_r. split; [done|]. destruct Hy as [-> _]. done. }
  simpl in Hn. destruct (is_white c); [apply IH; [lia|done]|]. destruct (pe_state y) eqn:Hs.
  2:{ destruct (pe_set_op c NEED_OPERAND y) as [y'|] eqn:E; [|by exists None]. apply pe_set_op_ok in E as (He & Hi & Hst' & Hop).
      rewrite <- He. apply IH; [lia|]. split; [lia|]. rewrite Hst'. lia. }
  destruct (_ || _ || _); [by exists None|]. destruct (c =? chr "!").
  { destruct (IH rest (Pe NEED_OPERAND (pe_op y) (pe_es y) (negb (pe_inv y)))) as (o & Ho & He); [lia| |by exists o].
    destruct Hy as [Hop Hy]. rewrite Hs in Hy. done. }
  destruct (c =? chr "(").
  - destruct (close_paren 1 rest) as [[inner after]|] eqn:Hcp; [|by exists None]. apply close_paren_length in Hcp.
    pose proof (trim_length inner). destruct (IH (trim inner) pe_init) as (o & -> & He); [lia|by split; [|done]|].
    destruct o as [e|]; [|by exists None]. destruct (IH after (pe_add e NEED_OPERATOR y)) as (o & Ho & Hex); [lia|by apply pe_add_ok|].
    exists o. split; [done|]. destruct o; [|done]. cbn [pe_es pe_add] in Hex. by eapply extends_app.
  - destruct (operand_end false rest) as [[text q]|] eqn:Hoe; [|by exists None].
    destruct (parse_same (trim (c :: text))) as (ok & r & ->). destruct ok; [|by exists None]. cbn zeta.
    destruct (pe_leaf_op q _) as [y'|] eqn:Hl; [|by exists None]. destruct q as [|d q].
    + injection Hl as <-. eexists. split; [done|]. cbn. eexists _, _, false. split; [reflexivity|done].
    + rewrite <- Hs in Hl. eapply pe_leaf_ok in Hl as [Hok Hes]; [|done|done|by eapply operand_end_head].
      apply operand_end_length in Hoe. simpl in Hoe. destruct (IH q y') as (o & Ho & Hex); [lia|done|]. exists o. split; [done|]. destruct o; [|done].
      rewrite Hes in Hex. cbn [pe_es pe_add] in Hex. by eapply extends_app.
Qed.

(** *** The simulation *)

Definition bit (v : Z) : Prop := v = 0 ∨ v = 2.
Definition start_rc (op : Z) : Z := if op =? TR_OP_AND then 2 else 0.

Record agrees (x : cs) (y : pe) : Prop := {
  ag_state : cs_state x = pe_state y;
  ag_op : cs_op x = pe_op y;
  ag_inv : cs_inv x = pe_inv y;
  ag_bit : bit (cs_rc x);
  ag_tmp : pe_op y = 0 → if decide (pe_es y = []) then cs_rc x = 0 else cs_tmp x = cs_rc x;
  ag_rc : forallb proper (pe_es y) = true → check_all (pe_op y) (start_rc (pe_op y)) (pe_es y) = Some (cs_rc x)
}.

Lemma check_all_snoc op a es e v : check e = Some (v - 1, st) →
  check_all op a (es ++ [e]) = (λ rc, if op =? TR_OP_AND then Z.land rc v else Z.lor rc v) <$> check_all op a es.
Proof.
  intros He. rewrite check_all_app. destruct (check_all op a es) as [rc|]; [|done]. cbn [mbind option_bind check_all]. rewrite He.
  by replace (v - 1 + 1) with v by lia.
Qed.

Lemma bit_ops a b : bit a → bit b → bit (Z.land a b) ∧ bit (Z.lor a b) ∧ bit (invert a).
Proof. unfold bit. intros [->| ->] [->| ->]; cbn; auto. Qed.

Lemma forallb_snoc {A} (f : A → bool) l a : forallb f (l ++ [a]) = true → forallb f l = true ∧ f a = true.
Proof. rewrite forallb_app. cbn. rewrite andb_true_r. apply andb_prop. Qed.

(** An operand that is combined with the ones before it, when the operator [op] is known. *)
Lemma combine_agrees x y e v q : agrees x y → pe_ok y → pe_state y = NEED_OPERAND → bit v →
  (proper e = true → check e = Some (v - 1, st)) →
  agrees (Cs q (cs_rc (cs_combine v x)) (cs_tmp (cs_combine v x)) (cs_op x) false) (Pe q (pe_op y) (pe_es y ++ [e]) false).
Proof.
  intros [_ Hop _ Hbit Htmp Hrc] [Hrange Hy] Hs Hv He. rewrite Hs in Hy. destruct (bit_ops _ _ Hbit Hv) as (Hand & Hor & _).
  assert (Hne : pe_es y ++ [e] ≠ []) by (by destruct (pe_es y)). unfold cs_combine. rewrite Hop in *.
  assert (Hcase : pe_op y = 0 ∨ pe_op y = 1 ∨ pe_op y = 2) by lia.
  destruct Hcase as [E|[E|E]]; rewrite E in *; cbn [Z.eqb Pos.eqb cs_rc cs_tmp]; constructor; cbn [cs_state pe_state cs_op pe_op cs_inv pe_inv cs_rc cs_tmp pe_es]; try done.
  - intros _. by rewrite decide_False.
  - rewrite (Hy eq_refl). cbn [app]. intros [Hp _]%andb_prop. cbn [check_all]. rewrite (He Hp). by destruct Hv as [->| ->].
  - intros [Hp1 Hp2]%forallb_snoc. by rewrite (check_all_snoc _ _ _ _ v (He Hp2)), (Hrc Hp1).
  - intros [Hp1 Hp2]%forallb_snoc. by rewrite (check_all_snoc _ _ _ _ v (He Hp2)), (Hrc Hp1).
Qed.

(** A new operator: the value of the only operand so far is kept. *)
Lemma operator_agrees c x y : agrees x y → pe_ok y → pe_state y = NEED_OPERATOR →
  match cs_operator c x, pe_set_op c NEED_OPERAND y with Some x', Some y' => agrees x' y' | None, None => True | _, _ => False end.
Proof.
  intros [_ Hop Hinv Hbit Htmp Hrc] [Hrange Hy] Hs. rewrite Hs in Hy. destruct Hy as (Hi & Hne & Hone). unfold cs_operator, pe_set_op, TR_OP_OR, TR_OP_AND. rewrite Hop.
  assert (Hstart : pe_op y = 0 → forallb proper (pe_es y) = true → check_all 1 2 (pe_es y) = Some (cs_rc x) ∧ check_all 2 0 (pe_es y) = Some (cs_rc x)).
  { intros E Hp. specialize (Hrc Hp). rewrite E in Hrc. specialize (Hone E). destruct (pe_es y) as [|e [|]]; [done| |done].
    cbn [check_all] in *. destruct (check e) as [[v ?]|]; [|done]. cbn in Hrc. injection Hrc as Hv.
    change (1 =? TR_OP_AND) with true. change (2 =? TR_OP_AND) with false. cbv iota. rewrite Z.lor_0_l in *. rewrite Hv. by destruct Hbit as [->| ->]. }
  assert (Hcase : pe_op y = 0 ∨ pe_op y = 1 ∨ pe_op y = 2) by lia.
  destruct (c =? chr "&"); [|destruct (c =? chr "/"); [|done]]; destruct Hcase as [E|[E|E]]; rewrite E in *; cbn [Z.eqb Pos.eqb]; try done;
    constructor; cbn [cs_state pe_state cs_op pe_op cs_inv pe_inv cs_rc cs_tmp pe_es]; try done.
  - specialize (Htmp eq_refl). rewrite decide_False in Htmp by done. by rewrite Htmp.
  - intros Hp. specialize (Htmp eq_refl). rewrite decide_False in Htmp by done. rewrite Htmp. by apply Hstart.
  - intros Hp. by apply Hstart.
Qed.

Lemma cs_value_spec v x : cs_value v x = (if cs_inv x then invert v else v, Cs (cs_state x) (cs_rc x) (cs_tmp x) (cs_op x) false).
Proof. unfold cs_value. destruct x as [q rc tmp op []]; done. Qed.

Lemma cs_combine_state v q rc tmp op i : cs_combine v (Cs q rc tmp op i) =
  Cs q (cs_rc (cs_combine v (Cs NEED_OPERAND rc tmp op i))) (cs_tmp (cs_combine v (Cs NEED_OPERAND rc tmp op i))) op i.
Proof. unfold cs_combine. cbn. by destruct (op =? 1), (op =? 2). Qed.

Lemma cs_combine_values v x : cs_rc (cs_combine v (Cs NEED_OPERAND (cs_rc x) (cs_tmp x) (cs_op x) false)) = cs_rc (cs_combine v x) ∧
  cs_tmp (cs_combine v (Cs NEED_OPERAND (cs_rc x) (cs_tmp x) (cs_op x) false)) = cs_tmp (cs_combine v x).
Proof. unfold cs_combine. cbn. by destruct (cs_op x =? 1), (cs_op x =? 2). Qed.

(** A recurrence and what follows it. *)
Lemma leaf_agrees c q x y e v : agrees x y → pe_ok y → pe_state y = NEED_OPERAND → bit v →
  (proper e = true → check e = Some (v - 1, st)) → is_white c = true ∨ c = chr "&" ∨ c = chr "/" →
  let s := after_leaf (c :: q) NEED_OPERAND in
  match cs_leaf_op (c :: q) v (Cs s (cs_rc x) (cs_tmp x) (cs_op x) false), pe_leaf_op (c :: q) (Pe s (pe_op y) (pe_es y ++ [e]) false) with
  | Some x', Some y' => agrees (cs_combine v x') y'
  | None, None => True
  | _, _ => False
  end.
Proof.
  intros Ha Hy Hs Hv He Hc. pose proof (λ q, combine_agrees x y e v q Ha Hy Hs Hv He) as Hcomb. destruct (cs_combine_values v x) as [Hrc Htmp].
  cbv zeta. unfold cs_leaf_op, pe_leaf_op, pe_set_op, after_leaf. destruct Hc as [Hw|Hc].
  { assert (Hne : (c =? chr "&") = false ∧ (c =? chr "/") = false) by (change (chr "&") with 38; change (chr "/") with 47; unfold is_white in Hw; lia).
    destruct Hne as [-> ->]. cbn [orb]. rewrite Hw, cs_combine_state, Hrc, Htmp. apply Hcomb. }
  assert (Hb : is_white c = false) by (by destruct Hc as [->| ->]). rewrite Hb. cbn [cs_op pe_op cs_state pe_state cs_rc cs_tmp cs_inv pe_es pe_inv].
  destruct Ha as [_ Hop _ Hbit Hz _]. destruct Hy as [Hrange Hy]. rewrite Hs in Hy. rewrite Hop in *.
  assert (Hcase : pe_op y = 0 ∨ pe_op y = 1 ∨ pe_op y = 2) by lia.
  destruct Hcase as [E|[E|E]]; rewrite E in *; destruct Hc as [->| ->]; change (chr "&") with 38 in *; change (chr "/") with 47 in *; unfold TR_OP_OR, TR_OP_AND; cbn [Z.eqb Pos.eqb orb]; try done.
  - specialize (Hy eq_refl). rewrite Hy in *. cbn [app]. unfold cs_combine. cbn [cs_op Z.eqb Pos.eqb cs_state cs_rc cs_tmp cs_inv].
    constructor; cbn; try done; [destruct Hv as [->| ->]; [by left|by right]|]. intros [Hp _]%andb_prop. rewrite (He Hp). by destruct Hv as [->| ->].
  - specialize (Hy eq_refl). rewrite Hy in *. cbn [app]. unfold cs_combine. cbn [cs_op Z.eqb Pos.eqb cs_state cs_rc cs_tmp cs_inv].
    specialize (Hz eq_refl). rewrite decide_True in Hz by done. rewrite Hz.
    constructor; cbn; try done. intros [Hp _]%andb_prop. rewrite (He Hp). by destruct Hv as [->| ->].
  - rewrite cs_combine_state, Hrc, Htmp. apply Hcomb.
  - rewrite cs_combine_state, Hrc, Htmp. apply Hcomb.
Qed.

(** What the two return for the same text. *)
Definition verdict (o : option tmrec_expr) (c : option (Z * tz_state)) : Prop :=
  match o with
  | None => c = Some (-2, st) ∨ c = None
  | Some e => (c = None ∨ ∃ v, bit v ∧ c = Some (v - 1, st)) ∧ (groups_ok e = true → c = check e)
  end.

Lemma verdict_node x y op : agrees x y → pe_es y ≠ [] → op = pe_op y → verdict (Some (node op (pe_es y) false)) (Some (cs_rc x - 1, st)).
Proof.
  intros [_ _ _ Hbit _ Hrc] Hne ->. split; [right; by eexists|]. cbn [groups_ok node orb]. intros Hp. rewrite check_node by done. fold (start_rc (pe_op y)).
  by rewrite (Hrc Hp).
Qed.

Lemma end_agrees x y : agrees x y → pe_ok y → verdict (pe_end y) (Some (cs_end x, st)).
Proof.
  intros Ha [Hrange Hy]. pose proof Ha as [Hs Hop Hinv Hbit Htmp _]. unfold pe_end, cs_end. rewrite Hs, Hop, Hinv. change TR_OP_NUL with 0.
  destruct (pe_state y).
  - destruct (Z.eqb_spec (pe_op y) 0) as [E|]; [|by left]. rewrite (Hy E) in *. specialize (Htmp E). rewrite decide_True in Htmp by done. rewrite Htmp. cbn [negb].
    split; [|by destruct (pe_inv y)]. right. destruct (pe_inv y); eexists; (split; [|done]); [by right|by left].
  - destruct Hy as (-> & Hne & _). by apply verdict_node.
Qed.

(** An operand that crashes makes the whole expression crash. *)
Lemma crash_extends es e e' : check e = None → extends (es ++ [e]) e' → check e' = None.
Proof.
  intros He (op & es' & inv & -> & Hi). rewrite check_node by (by destruct es). rewrite <- app_assoc, check_all_app.
  destruct (check_all op _ es) as [rc|]; [|done]. cbn. by rewrite He.
Qed.

(** A group and the operand it becomes. *)
Lemma group_check op es inv b c : (inv = true → es = []) → (groups_ok (node op es inv) = true → c = check (node op es inv)) →
  proper (if b : bool then set_inverted (node op es inv) else node op es inv) = true →
  check (if b then set_inverted (node op es inv) else node op es inv) = (λ x, (if b then invert (x.1 + 1) - 1 else x.1, x.2)) <$> c.
Proof.
  intros Hinv Hc Hp.
  assert (Hpr : es ≠ [] ∧ forallb proper es = true).
  { destruct b; cbn in Hp; apply andb_prop in Hp as [H1 H2]; (split; [by destruct es|done]). }
  destruct Hpr as [Hne Hes]. assert (inv = false) as -> by (destruct inv; [by destruct (Hne (Hinv eq_refl))|done]).
  rewrite (Hc Hes). destruct b; [apply check_inverted|]. destruct (check (node op es false)) as [[? ?]|]; done.
Qed.

Lemma leaf_check r b : check (if b : bool then set_inverted (leaf r false) else leaf r false) =
  (λ x, ((if b then invert (if x.1 : bool then 2 else 0) else if x.1 : bool then 2 else 0) - 1, st)) <$> _tmrec_check st r time.
Proof.
  pose proof (tmrec_check_same r) as Hsame. destruct b; cbn; (destruct (_tmrec_check st r time) as [[b st']|]; [by subst st'|done]).
Qed.

Definition agreed (p : bytes) (n : nat) (x : cs) (y : pe) : Prop :=
  ∃ o c, pe_loop n st p y = Some (o, st) ∧ cs_loop time n st p x = Some c ∧ verdict o c.

Lemma negate_agrees x y : agrees x y → pe_state y = NEED_OPERAND →
  agrees (Cs NEED_OPERAND (cs_rc x) (cs_tmp x) (cs_op x) (negb (cs_inv x))) (Pe NEED_OPERAND (pe_op y) (pe_es y) (negb (pe_inv y))).
Proof. intros [Hs Hop Hinv Hbit Htmp Hrc] _. by constructor; cbn; rewrite ?Hinv. Qed.

Lemma init_agrees : agrees cs_init pe_init ∧ pe_ok pe_init.
Proof. split; [|by split]. constructor; try done; by left. Qed.

Lemma bit_sign v : bit v → (v - 1 + 1 <? 0) = false.
Proof. intros [->| ->]; done. Qed.

(** What the text after a crashed operand gives. *)
Lemma crash_agreed n p y e : (length p < n)%nat → pe_ok y → (∃ es, pe_es y = es ++ [e]) → check e = None ∨ proper e = false →
  ∃ o, pe_loop n st p y = Some (o, st) ∧ verdict o None.
Proof.
  intros Hn Hy [es Hes] He. destruct (pe_loop_total n p y Hn Hy) as (o & -> & Hext). exists o. split; [done|]. destruct o as [e'|]; [|by right].
  split; [by left|]. rewrite Hes in Hext. intros Hg. destruct He as [He|He]; [by rewrite (crash_extends es e e')|].
  destruct Hext as (op & es' & inv & -> & _). cbn in Hg. rewrite !forallb_app in Hg. cbn in Hg. rewrite He, andb_false_r in Hg. done.
Qed.

Lemma group_agreed n c rest x y : (∀ p x y, (length p < n)%nat → pe_ok y → agrees x y → agreed p n x y) →
  (length rest < n)%nat → pe_ok y → agrees x y → pe_state y = NEED_OPERAND → c = chr "(" → agreed (c :: rest) (S n) x y.
Proof.
  intros IH Hn Hy Ha Hs ->. destruct init_agrees as [Hai Hyi]. pose proof (ag_state _ _ Ha) as Hxs. rewrite Hs in Hxs. unfold agreed. cbn [pe_loop cs_loop].
  rewrite Hs, Hxs. change (is_white (chr "(")) with false. change ((chr "(" =? chr ")") || (chr "(" =? chr "&") || (chr "(" =? chr "/")) with false.
  change (chr "(" =? chr "!") with false. change (chr "(" =? chr "(") with true. cbv iota.
  destruct (close_paren 1 rest) as [[inner after]|] eqn:Hcp; [|eexists _, _; split_and!; [done|done|by left]]. apply close_paren_length in Hcp.
  pose proof (trim_length inner). destruct (pe_loop_total n (trim inner) pe_init) as (o' & Ho' & Hext); [lia|done|].
  destruct (IH (trim inner) cs_init pe_init) as (o & c & Ho & Hc & Hv); [lia|done|done|]. rewrite Ho' in Ho. injection Ho as ->. rewrite Ho', Hc.
  destruct o as [e|].
  2:{ destruct Hv as [->| ->]; (eexists _, _; split_and!; [done..|]); [by left|by right]. }
  destruct Hext as (op & es & inv & -> & Hinv). cbn [pe_es pe_init app] in *. destruct Hv as [Hv Hg].
  pose proof (group_check op es inv (pe_inv y) c Hinv Hg) as Hchk. set (e := node op es inv) in *. set (e' := if pe_inv y then set_inverted e else e) in *.
  pose proof (pe_add_ok e y Hy Hs) as Hok. destruct Hv as [->|(v & Hb & ->)].
  - destruct (crash_agreed n after (pe_add e NEED_OPERATOR y) e') as (o & Ho & Hv); [lia|done|by eexists| |by eexists _, _].
    destruct (proper e') eqn:Hp; [left; by rewrite (Hchk eq_refl)|by right].
  - rewrite bit_sign by done. replace (v - 1 + 1) with v by lia. rewrite cs_value_spec, (ag_inv _ _ Ha).
    set (w := if pe_inv y then invert v else v).
    assert (Hw : bit w) by (unfold w; destruct (pe_inv y); [by apply (bit_ops v v)|done]).
    apply IH; [lia|done|]. destruct (cs_combine_values w x) as [Hrc Htmp].
    pose proof (combine_agrees x y e' w NEED_OPERATOR Ha Hy Hs Hw) as Hcomb.
    unfold cs_with. rewrite cs_combine_state. cbn [cs_rc cs_tmp cs_op cs_inv]. rewrite Hrc, Htmp. apply Hcomb.
    intros Hp. rewrite (Hchk Hp). cbn. unfold w. destruct (pe_inv y); [by replace (v - 1 + 1) with v by lia|done].
Qed.

Lemma leaf_agreed n c rest x y : (∀ p x y, (length p < n)%nat → pe_ok y → agrees x y → agreed p n x y) →
  (length rest < n)%nat → pe_ok y → agrees x y → pe_state y = NEED_OPERAND → is_white c = false →
  (c =? chr ")") || (c =? chr "&") || (c =? chr "/") = false → (c =? chr "!") = false → (c =? chr "(") = false → agreed (c :: rest) (S n) x y.
Proof.
  intros IH Hn Hy Ha Hs Hw H1 H2 H3. pose proof (ag_state _ _ Ha) as Hxs. rewrite Hs in Hxs. unfold agreed. cbn [pe_loop cs_loop].
  rewrite Hs, Hxs, Hw, H1, H2, H3. destruct (operand_end false rest) as [[text q]|] eqn:Hoe; [|eexists _, _; split_and!; [done|done|by left]].
  unfold _tmrec_check_str. destruct (parse_same (trim (c :: text))) as (ok & r & ->).
  destruct ok; [|eexists _, _; split_and!; [done|done|by left]]. cbv zeta. pose proof (leaf_check r (pe_inv y)) as Hchk.
  pose proof (tmrec_check_same r) as Hsame. set (e := if pe_inv y then set_inverted (leaf r false) else leaf r false) in *.
  unfold pe_add. fold e. pose proof (operand_end_length _ _ _ _ Hoe) as Hlen.
  pose proof (pe_leaf_ok (leaf r false)) as Hlok. unfold pe_add in Hlok.
  destruct (_tmrec_check st r time) as [[b st']|].
  - subst st'. cbn in Hchk. set (v0 := if b then 2 else 0) in *. replace ((if b then 1 else -1) + 1) with v0 by (by destruct b).
    replace (v0 <? 0) with false by (by destruct b). rewrite cs_value_spec. cbn [cs_with cs_inv cs_state cs_rc cs_tmp cs_op]. rewrite (ag_inv _ _ Ha).
    set (w := if pe_inv y then invert v0 else v0) in *. assert (Hb : bit w) by (unfold w, v0; destruct b, (pe_inv y); first [by left|by right]).
    destruct (cs_combine_values w x) as [Hrc Htmp]. destruct q as [|d q].
    + cbn [cs_leaf_op pe_leaf_op after_leaf]. rewrite cs_combine_state, Hrc, Htmp. eexists _, _. split_and!; [done|done|].
      apply (verdict_node _ _ _ (combine_agrees x y e w NEED_OPERAND Ha Hy Hs Hb (λ _, Hchk))); [by destruct (pe_es y)|done].
    + pose proof (leaf_agrees d q x y e w Ha Hy Hs Hb (λ _, Hchk) (operand_end_head _ _ _ _ _ Hoe)) as Hag. cbv zeta in Hag.
      specialize (Hlok d q y). rewrite Hs in Hlok. fold e in Hlok.
      destruct (cs_leaf_op _ _ _) as [x'|], (pe_leaf_op _ _) as [y'|]; try done; [|eexists _, _; split_and!; [done|done|by left]].
      apply IH; [simpl in Hlen; lia| |done]. eapply Hlok; [done|done|by eapply operand_end_head|done].
  - cbn in Hchk. destruct q as [|d q].
    + cbn [pe_leaf_op after_leaf]. eexists _, _. split_and!; [done|done|]. split; [by left|]. intros _. symmetry.
      apply (crash_extends (pe_es y) e); [done|]. exists (pe_op y), [], false. by rewrite app_nil_r.
    + specialize (Hlok d q y). rewrite Hs in Hlok. fold e in Hlok.
      destruct (pe_leaf_op _ _) as [y'|]; [|eexists _, _; split_and!; [done|done|by right]].
      destruct (Hlok y') as [Hok Hes]; [done|done|by eapply operand_end_head|done|].
      destruct (crash_agreed n q y' e) as (o & Ho & Hv); [simpl in Hlen; lia|done|by eexists|by left|by eexists _, _].
Qed.

Lemma loop_agreed n : ∀ p x y, (length p < n)%nat → pe_ok y → agrees x y → agreed p n x y.
Proof.
  induction n as [|n IH]; intros p x y Hn Hy Ha; [lia|]. destruct p as [|c rest].
  { eexists _, _. split_and!; [done|done|]. by apply end_agrees. }
  simpl in Hn. assert (Hr : (length rest < n)%nat) by lia. pose proof (ag_state _ _ Ha) as Hxs.
  destruct (is_white c) eqn:Hw; [unfold agreed; cbn [pe_loop cs_loop]; rewrite Hw; by apply IH|]. destruct (pe_state y) eqn:Hs.
  2:{ unfold agreed. cbn [pe_loop cs_loop]. rewrite Hw, Hxs, Hs. pose proof (operator_agrees c x y Ha Hy Hs) as Hop.
      destruct (cs_operator c x) as [x'|], (pe_set_op c NEED_OPERAND y) as [y'|] eqn:E; try done; [|eexists _, _; split_and!; [done|done|by left]].
      apply IH; [done| |done]. apply pe_set_op_ok in E as (_ & _ & Hst' & Hcase). split; [lia|]. rewrite Hst'. lia. }
  destruct ((c =? chr ")") || (c =? chr "&") || (c =? chr "/")) eqn:H1.
  { unfold agreed. cbn [pe_loop cs_loop]. rewrite Hw, Hxs, Hs, H1. eexists _, _. split_and!; [done|done|by left]. }
  destruct (c =? chr "!") eqn:H2.
  { unfold agreed. cbn [pe_loop cs_loop]. rewrite Hw, Hxs, Hs, H1, H2. apply IH; [done| |by apply negate_agrees].
    destruct Hy as [Hop Hy]. rewrite Hs in Hy. done. }
  destruct (Z.eqb_spec c (chr "(")) as [Hc|Hc]; [by apply group_agreed|]. apply leaf_agreed; try done. by apply Z.eqb_neq.
Qed.
End agree.

(** C37. The two ways to evaluate an expression of recurrences agree.  Reading the text into a tree
    always ends, and leaves the time zone of the process as it was.  When there is no tree,
    because the text is not an expression, evaluating the text ends in the parse error -2 (or has
    crashed before, on a recurrence with the interval 0); when there is a tree of which every
    parenthesised group has an operand, evaluating the text gives what evaluating the tree gives. *)
Theorem expr_checks_agree `{libc_time} (st : tz_state) (s : bytes) (time : Z) : old_tz st = None →
  ∃ o c, tmrec_expr_parse st s = Some (o, st) ∧ _tmrec_expr_check_str time st s = Some c ∧
    match o with
    | None => c = Some (-2, st) ∨ c = None
    | Some e => groups_ok e = true → c = _tmrec_expr_check st e time
    end.
Proof.
  intros Hst. destruct init_agrees with (time := time) (st := st) as [Hai Hyi].
  destruct (loop_agreed time st Hst (S (length s)) s cs_init pe_init) as (o & c & Ho & Hc & Hv); [lia|done|done|].
  exists o, c. split_and!; [done|done|]. destruct o; [apply Hv|done].
Qed.

(** A recurrence and an inverted group of two. *)
Lemma expr_checks_agree_witness :
  let st := TzState None None in
  let s := bs "UTC|20200101T000000|20200101T120000||DAILY & !(UTC|20200601T000000||PT12H|WEEKLY / UTC|20200602T000000||PT12H|WEEKLY)" in
  ∃ o c, @tmrec_expr_parse utc st s = Some (o, st) ∧ @_tmrec_expr_check_str utc 1591357895 st s = Some c ∧
    match o with
    | None => c = Some (-2, st) ∨ c = None
    | Some e => groups_ok e = true → c = @_tmrec_expr_check utc st e 1591357895
    end.
Proof. intros st s. exact (@expr_checks_agree utc st s 1591357895 eq_refl). Defined.

(** ** Values *)

Definition expr_values (s : bytes) (t : Z) : option (option Z) * option (option Z) :=
  let st := TzState None None in
  (option_map (option_map fst) (@_tmrec_expr_check_str utc t st s),
   match @tmrec_expr_parse utc st s with
   | Some (Some e, _) => Some (option_map fst (@_tmrec_expr_check utc st e t))
   | _ => None
   end).

Example expr_values_utc :
  let now := 1591357895 in
  let on := "UTC|20200101T000000|20200101T120000||DAILY" in
  let off := "UTC|20200101T000000|20200101T110000||DAILY" in
  expr_values (bs (on +:+ " & !(" +:+ off +:+ " / " +:+ off +:+ ")")) now = (Some (Some 1), Some (Some 1)) ∧
  expr_values (bs (on +:+ "&" +:+ off)) now = (Some (Some (-1)), Some (Some (-1))) ∧
  expr_values (bs (on +:+ " & " +:+ off +:+ " / " +:+ on)) now = (Some (Some (-2)), None) ∧
  expr_values (bs (on +:+ " & ")) now = (Some (Some (-2)), None) ∧
  expr_values (bs "!") now = (Some (Some 1), Some (Some 1)).
Proof. by vm_compute. Qed.

(** A group with nothing but [!] inside, inverted again: the flag of the tree is set twice. *)
Example empty_group_inverted_twice : expr_values (bs "!(!)") 1591357895 = (Some (Some (-1)), Some (Some 1)).
Proof. by vm_compute. Qed.
