(* ===== verification/TmReply.v ===== *)
(** * Replies of a transaction

    The part of the transaction module that decides what happens to a reply
    ([modules/tm/t_reply.c], with [t_cancel.c], [t_cancel.h], [t_fwd.c] and the final
    response timer of [timer.c]).  A transaction has a server side, which owes one final reply
    upstream, and a list of branches, to which the request was forwarded.

    Each event decides under the lock of the transaction what happens; it is one step here,
    with what it still sends after the unlock.  The state is the transaction, the kill reason of
    the process and a trace of what was sent and of the timers that were started and stopped.
    The results of building and of allocating messages, of sending, and of the script are
    arguments ([env]): a failure route is a list of script functions.  Callbacks of other modules,
    statistics, to-tags and the contents of messages are left out.  [None] is a null
    dereference. *)

From stdpp Require Import prelude list.
From Stdlib Require Import ZArith Lia.
From S2P Require Import Prelude HdrBodies.

(** ** Data *)

Definition TM_BRANCH_MAX : nat := 256.

Definition T_IS_INVITE_FLAG : Z := 1.
Definition T_IS_LOCAL_FLAG : Z := 2.
Definition T_WAS_CANCELLED_FLAG : Z := 8.
Definition T_HOPBYHOP_CANCEL_FLAG : Z := 16.
Definition T_NO_AUTOACK_FLAG : Z := 32.
Definition T_NO_DNS_FAILOVER_FLAG : Z := 128.
Definition T_NO_NEW_BRANCHES_FLAG : Z := 256.
Definition T_MULTI_200OK_FLAG : Z := 1024.

Definition T_UAC_TO_CANCEL_FLAG : Z := 1.
Definition T_UAC_HAS_RECV_REPLY : Z := 2.
Definition T_UAC_IS_PHONY : Z := 4.

(** A test of a flag. *)
Definition flag (fl m : Z) : bool := negb (Z.land fl m =? 0).

(** A pointer to a reply: null, [FAKED_REPLY], or a message with its status. *)
Inductive reply_ptr := NoReply | FAKED_REPLY | Msg (REPLY_STATUS : Z).
(** The buffer of the local CANCEL: null, [BUSY_BUFFER], or a message. *)
Inductive cancel_ptr := NO_CANCEL | BUSY_BUFFER | CancelBuf.

(** [struct ua_client]: a branch. *)
Record ua_client := Uac {
  u_buffer : bool;
  u_proxy : bool;
  local_cancel : cancel_ptr;
  u_flags : Z;
  u_reply : reply_ptr;
  last_received : Z;
  br_flags : Z
}.

(** [struct cell]: a transaction.  [nr_of_outgoings] is the length of [uac];
    [request] is the method of the request of the server side, if there is one;
    [on_failure] is true when a callback is registered for failures. *)
Record cell := Cell {
  t_flags : Z;
  first_branch : nat;
  uac : list ua_client;
  uas_status : Z;
  relaied_reply_branch : Z;
  request : option Z;
  on_negative : bool;
  on_failure : bool
}.

Definition nr_of_outgoings (t : cell) : nat := length (uac t).
Definition is_invite (t : cell) : bool := flag (t_flags t) T_IS_INVITE_FLAG.
Definition is_local (t : cell) : bool := flag (t_flags t) T_IS_LOCAL_FLAG.
Definition was_cancelled (t : cell) : bool := flag (t_flags t) T_WAS_CANCELLED_FLAG.
Definition is_hopbyhop_cancel (t : cell) : bool := flag (t_flags t) T_HOPBYHOP_CANCEL_FLAG.
Definition no_autoack (t : cell) : bool := flag (t_flags t) T_NO_AUTOACK_FLAG.
Definition no_new_branches (t : cell) : bool := flag (t_flags t) T_NO_NEW_BRANCHES_FLAG.
Definition is_phony (u : ua_client) : bool := flag (u_flags u) T_UAC_IS_PHONY.

Definition set_uac (us : list ua_client) (t : cell) : cell :=
  Cell (t_flags t) (first_branch t) us (uas_status t) (relaied_reply_branch t) (request t) (on_negative t) (on_failure t).
Definition set_t_flags (fl : Z) (t : cell) : cell :=
  Cell fl (first_branch t) (uac t) (uas_status t) (relaied_reply_branch t) (request t) (on_negative t) (on_failure t).
Definition set_first_branch (b : nat) (t : cell) : cell :=
  Cell (t_flags t) b (uac t) (uas_status t) (relaied_reply_branch t) (request t) (on_negative t) (on_failure t).
Definition set_status (s : Z) (t : cell) : cell :=
  Cell (t_flags t) (first_branch t) (uac t) s (relaied_reply_branch t) (request t) (on_negative t) (on_failure t).
Definition set_relaied (b : Z) (t : cell) : cell :=
  Cell (t_flags t) (first_branch t) (uac t) (uas_status t) b (request t) (on_negative t) (on_failure t).
Definition set_request (m : option Z) (t : cell) : cell :=
  Cell (t_flags t) (first_branch t) (uac t) (uas_status t) (relaied_reply_branch t) m (on_negative t) (on_failure t).
Definition set_on_negative (b : bool) (t : cell) : cell :=
  Cell (t_flags t) (first_branch t) (uac t) (uas_status t) (relaied_reply_branch t) (request t) b (on_failure t).

Definition set_last_received (c : Z) (u : ua_client) : ua_client :=
  Uac (u_buffer u) (u_proxy u) (local_cancel u) (u_flags u) (u_reply u) c (br_flags u).
Definition set_u_reply (r : reply_ptr) (u : ua_client) : ua_client :=
  Uac (u_buffer u) (u_proxy u) (local_cancel u) (u_flags u) r (last_received u) (br_flags u).
Definition set_local_cancel (p : cancel_ptr) (u : ua_client) : ua_client :=
  Uac (u_buffer u) (u_proxy u) p (u_flags u) (u_reply u) (last_received u) (br_flags u).
Definition set_u_flags (fl : Z) (u : ua_client) : ua_client :=
  Uac (u_buffer u) (u_proxy u) (local_cancel u) fl (u_reply u) (last_received u) (br_flags u).
Definition set_u_buffer (b : bool) (u : ua_client) : ua_client :=
  Uac b (u_proxy u) (local_cancel u) (u_flags u) (u_reply u) (last_received u) (br_flags u).
Definition set_br_flags (fl : Z) (u : ua_client) : ua_client :=
  Uac (u_buffer u) (u_proxy u) (local_cancel u) (u_flags u) (u_reply u) (last_received u) fl.

(** [TM_BRANCH], and a write through it. *)
Definition TM_BRANCH (t : cell) (b : nat) : option ua_client := uac t !! b.
Definition upd_branch (b : nat) (f : ua_client → ua_client) (t : cell) : option cell :=
  u ← TM_BRANCH t b; Some (set_uac (<[b := f u]> (uac t)) t).

(** The buffers that are retransmitted, and what a step does outside the transaction. *)
Inductive retr_buf := UasResponse | Request (b : nat) | LocalCancel (b : nat).
Inductive act :=
  | SendReply (branch code : Z)
  | SendRequest (b : nat)
  | SendCancel (b : nat)
  | SendAck (b : nat)
  | StartRetr (rb : retr_buf)
  | ForceRetr (rb : retr_buf)
  | ResetRetr (rb : retr_buf)
  | ResetFr (rb : retr_buf)
  | SetFrInv (b : nat)
  | SetRetrT2 (b : nat)
  | PutOnWait.

#[global] Instance retr_buf_eq_dec : EqDecision retr_buf.
Proof. solve_decision. Defined.
#[global] Instance act_eq_dec : EqDecision act.
Proof. solve_decision. Defined.

Definition REQ_FWDED : Z := 1.
Definition REQ_RPLD : Z := 2.

Record tst := Tst { tc : cell; kr : Z; out : list act }.
Definition set_tc (t : cell) (s : tst) : tst := Tst t (kr s) (out s).
Definition emit (a : list act) (s : tst) : tst := Tst (tc s) (kr s) (out s ++ a).
Definition reset_kr (s : tst) : tst := Tst (tc s) 0 (out s).
Definition set_kr (k : Z) (s : tst) : tst := Tst (tc s) (Z.lor (kr s) k) (out s).
Definition put_on_wait (s : tst) : tst := emit [PutOnWait] s.

(** [enum rps]. *)
Inductive rps := RPS_ERROR | RPS_PUSHED_AFTER_COMPLETION | RPS_DISCARDED | RPS_STORE | RPS_COMPLETED | RPS_PROVISIONAL | RPS_RELAY.

(** The parameters of the module. *)
Record tm_cfg := TmCfg { disable_6xx_block : bool; minor_branch_flag : Z; restart_fr_on_each_reply : bool }.

(** A destination of a fork: its flags, and whether the branch could be added and the request
    sent. *)
Record dest := Dest { d_flags : Z; d_added : bool; d_sent : bool }.

(** What a script can ask for in a failure route. *)
Inductive script_op :=
  | Do_t_reply (code : Z)
  | Do_t_relay (ds : list dest)
  | Do_t_on_failure (set : bool)
  | Do_t_wait_for_new_branches (fl : Z).

(** The outcomes of one step: building and storing the reply that is relayed and the local one,
    cloning a reply (or the request that is rebuilt from its text, with its method), building a
    CANCEL, the next address of the resolver, preparing the request for a failure route or for
    another address, the flags of the branch after the reply routes if some ran, and the script. *)
Record env := Env {
  e_build : bool;
  e_shm : bool;
  e_clone : bool;
  e_build_local : bool;
  e_shm_local : bool;
  e_cancel : nat → bool;
  e_fake_req : bool;
  e_dns : option dest;
  e_method : Z;
  e_reply_flags : option Z;
  e_callback : list script_op;
  e_route_valid : bool;
  e_route : list script_op
}.

(** ** CANCEL *)

(** A set of branches, [branch_bm_t], as the number its words spell. *)
Abbreviation branch_bm := Z (only parsing).
Definition BRANCH_BM_SET_IDX (bm : branch_bm) (i : nat) : branch_bm := Z.lor bm (Z.shiftl 1 (Z.of_nat i)).
Definition BRANCH_BM_TST_IDX (bm : branch_bm) (i : nat) : bool := Z.testbit bm (Z.of_nat i).

Definition should_cancel_branch (u : ua_client) : bool * ua_client :=
  match local_cancel u with
  | NO_CANCEL => if negb (is_phony u) && (last_received u <? 200) then (true, set_local_cancel BUSY_BUFFER u) else (false, u)
  | _ => (false, u)
  end.

(** The loop over the branches from number [i] on. *)
Fixpoint which_cancel_loop (i : nat) (us : list ua_client) (bm : branch_bm) : list ua_client * branch_bm :=
  match us with
  | [] => ([], bm)
  | u :: us =>
      let '(b, u) := should_cancel_branch u in
      let '(us, bm) := which_cancel_loop (S i) us (if b then BRANCH_BM_SET_IDX bm i else bm) in
      (u :: us, bm)
  end.
Definition which_cancel (t : cell) (bm : branch_bm) : cell * branch_bm :=
  let '(us, bm) := which_cancel_loop (first_branch t) (drop (first_branch t) (uac t)) bm in
  (set_uac (take (first_branch t) (uac t) ++ us) t, bm).

Section env.
Context (cfg : tm_cfg) (e : env).

(** [cancel_branch]: the branch and what is sent. *)
Definition cancel_branch (i : nat) (u : ua_client) : ua_client * list act :=
  if e_cancel e i then (set_local_cancel CancelBuf u, [SendCancel i; StartRetr (LocalCancel i)]) else (u, []).

Fixpoint cancel_uacs_loop (i : nat) (us : list ua_client) (bm : branch_bm) : list ua_client * list act :=
  match us with
  | [] => ([], [])
  | u :: us =>
      let '(u, a) :=
        if BRANCH_BM_TST_IDX bm i then
          if negb (last_received u =? 0) then cancel_branch i u
          else (set_u_flags (Z.lor (u_flags u) T_UAC_TO_CANCEL_FLAG) u, [])
        else (u, []) in
      let '(us, a') := cancel_uacs_loop (S i) us bm in
      (u :: us, a ++ a')
  end.
Definition cancel_uacs (bm : branch_bm) (s : tst) : tst :=
  let '(us, a) := cancel_uacs_loop 0 (uac (tc s)) bm in emit a (set_tc (set_uac us (tc s)) s).

(** ** Timers of the transaction *)

Definition cleanup_uac_timers (s : tst) : tst :=
  let b := first_branch (tc s) in
  emit (concat ((λ i, [ResetRetr (Request i); ResetFr (Request i)]) <$> seq b (nr_of_outgoings (tc s) - b))) s.

Definition set_final_timer (s : tst) : option tst :=
  let t := tc s in
  if is_local t then Some (put_on_wait s)
  else
    m ← request t;
    Some (if (m =? METHOD_INVITE) && (300 <=? uas_status t) then emit [StartRetr UasResponse] s
          else if (m =? METHOD_INVITE) && (relaied_reply_branch t =? -2) && (200 <=? uas_status t) then emit [ForceRetr UasResponse] s
          else put_on_wait s).

(** For 401 and 407 the reply is not retransmitted. *)
Definition final_timer (code : Z) (s : tst) : option tst :=
  if negb (code =? 401) && negb (code =? 407) then set_final_timer s else Some (put_on_wait s).

(** ** Local replies *)

Definition reply_light_error (bm : branch_bm) (s : tst) : tst :=
  let s := cleanup_uac_timers s in
  put_on_wait (if is_invite (tc s) then cancel_uacs bm s else s).

(** [_reply_light]: the state and the return value. *)
Definition _reply_light (code : Z) (s : tst) : option (tst * Z) :=
  let t := tc s in
  if negb (e_build_local e) then
    let '(t, bm) := if is_invite t then which_cancel t 0 else (t, 0) in
    Some (reply_light_error bm (set_tc t s), -1)
  else if 200 <=? uas_status t then Some (reply_light_error 0 s, -1)
  else
    let '(t, bm) := if is_invite t && (200 <=? code) then which_cancel t 0 else (t, 0) in
    let t := set_status code t in
    if negb (e_shm_local e) then Some (reply_light_error bm (set_tc t s), -1)
    else
      let s := set_tc (set_relaied (-2) t) s in
      s ← (if (200 <=? code) && negb (is_hopbyhop_cancel t) then
             let s := cleanup_uac_timers s in
             final_timer code (if is_invite t then cancel_uacs bm s else s)
           else Some s);
      Some (emit [SendReply (-2) code] s, 1).

(** [_reply]; it reads the request. *)
Definition _reply (code : Z) (s : tst) : option (tst * Z) :=
  _ ← request (tc s);
  _reply_light code (if 200 <=? code then set_kr REQ_RPLD s else s).

(** ** Forwarding *)

(** [add_uac]: the new branch, with nothing received. *)
Definition add_uac (d : dest) (t : cell) : cell * bool :=
  if d_added d && negb (nr_of_outgoings t =? TM_BRANCH_MAX)%nat then
    (set_uac (uac t ++ [Uac true (negb (flag (t_flags t) T_NO_DNS_FAILOVER_FLAG)) NO_CANCEL 0 NoReply 0 (d_flags d)]) t, true)
  else (t, false).

(** The destinations that were added, with their branches. *)
Fixpoint add_uacs (ds : list dest) (t : cell) : cell * list (nat * bool) :=
  match ds with
  | [] => (t, [])
  | d :: ds =>
      let '(t', ok) := add_uac d t in
      let '(t'', l) := add_uacs ds t' in
      (t'', if ok then (nr_of_outgoings t, d_sent d) :: l else l)
  end.

Fixpoint send_uacs (l : list (nat * bool)) (s : tst) (success : nat) : option (tst * nat) :=
  match l with
  | [] => Some (s, success)
  | (b, ok) :: l =>
      if ok : bool then send_uacs l (set_kr REQ_FWDED (emit [SendRequest b; StartRetr (Request b)] s)) (S success)
      else t ← upd_branch b (set_u_buffer false) (tc s); send_uacs l (set_tc t s) success
  end.

(** [t_forward_nonack] of a request that is not CANCEL, under the lock; it writes to the
    request of the transaction. *)
Definition t_forward_nonack (ds : list dest) (reset_bcounter : bool) (s : tst) : option (tst * Z) :=
  let t := tc s in
  _ ← request t;
  if no_new_branches t then Some (s, -1)
  else if was_cancelled t then
    s ← (if (nr_of_outgoings t =? 0)%nat then fst <$> _reply 487 s else Some s); Some (s, -1)
  else
    let t :=
      if reset_bcounter then
        let n := nr_of_outgoings t in
        let phony := match n with S k => match uac t !! k with Some u => is_phony u | None => false end | O => false end in
        set_first_branch (if phony then (n - 1)%nat else n) t
      else t in
    let '(t, l) := add_uacs ds t in
    match l with
    | [] => Some (set_tc t s, -1)
    | _ => '(s, n) ← send_uacs l (set_tc t s) 0; Some (s, if (0 <? n)%nat then 1 else -1)
    end.

Definition add_phony_uac (fl : Z) (s : tst) : tst * Z :=
  let t := tc s in
  let b := nr_of_outgoings t in
  if (b =? TM_BRANCH_MAX)%nat || negb (e_shm e) then (s, -1)
  else (set_kr REQ_FWDED (emit [SetFrInv b] (set_tc (set_uac (uac t ++ [Uac true false NO_CANCEL T_UAC_IS_PHONY NoReply 0 fl]) t) s)), 0).

(** ** Failure routes *)

Definition run_op (o : script_op) (s : tst) : option tst :=
  match o with
  | Do_t_reply c => fst <$> _reply c s
  | Do_t_relay ds => fst <$> t_forward_nonack ds true s
  | Do_t_on_failure b => Some (set_tc (set_on_negative b (tc s)) s)
  | Do_t_wait_for_new_branches fl => Some (add_phony_uac fl s).1
  end.
Fixpoint run_ops (l : list script_op) (s : tst) : option tst :=
  match l with [] => Some s | o :: l => s ← run_op o s; run_ops l s end.

Definition run_failure_handlers (s : tst) : option tst :=
  let t := tc s in
  match request t with
  | None => Some s
  | Some m =>
      if m =? METHOD_CANCEL then Some s
      else if negb (on_negative t && e_route_valid e) && negb (on_failure t) then Some s
      else if negb (e_fake_req e) then Some s
      else
        s ← (if on_failure t then run_ops (e_callback e) s else Some s);
        if on_negative (tc s) && e_route_valid e then run_ops (e_route e) (set_tc (set_on_negative false (tc s)) s)
        else Some s
  end.

Definition is_3263_failure (u : ua_client) : bool :=
  if last_received u =? 408 then negb (flag (u_flags u) T_UAC_HAS_RECV_REPLY)
  else if last_received u =? 503 then match u_reply u with Msg _ => true | _ => false end
  else false.

(** True when a new branch was forwarded. *)
Definition do_dns_failover (s : tst) : option (tst * bool) :=
  match e_dns e with
  | None => Some (s, false)
  | Some d =>
      let t := tc s in
      match (match request t with None => if is_local t && e_clone e then Some (e_method e) else None | m => m end) with
      | None => Some (s, false)
      | m =>
          let s := set_tc (set_request m t) s in
          if negb (e_fake_req e) then Some (s, false) else '(s, r) ← t_forward_nonack [d] true s; Some (s, r =? 1)
      end
  end.

(** ** The choice of a branch *)

Definition branch_prio (ret_code : Z) (is_cancelled : bool) : Z :=
  let first_digit := Z.quot ret_code 100 in
  if (first_digit =? 1) || (first_digit =? 2) then ret_code
  else if first_digit =? 6 then ret_code - 300
  else if first_digit =? 3 then ret_code + 100
  else if first_digit =? 5 then if ret_code =? 503 then 801 else ret_code + 200
  else if first_digit =? 4 then
    if ret_code =? 401 then 500
    else if ret_code =? 407 then 501
    else if ret_code =? 415 then 502
    else if ret_code =? 420 then 503
    else if ret_code =? 484 then 504
    else if ret_code =? 408 then 800
    else if (ret_code =? 487) && is_cancelled then 0
    else ret_code + 200
  else ret_code + 200.

(** A phony branch that does not count. *)
Definition skip_phony (t : cell) (u : ua_client) : bool :=
  is_phony u &&
  (was_cancelled t && (last_received u <? 299) ||
   negb (br_flags u =? 0) && (br_flags u <=? Z.of_nat (nr_of_outgoings t))).

(** The loop from branch [b] on: the branch with its priority, or -2, and [do_cancel]. *)
Fixpoint pick_loop (t : cell) (b : nat) (us : list ua_client) (lowest_b lowest_s : Z) (do_cancel : bool) : Z * bool :=
  match us with
  | [] => (lowest_b, do_cancel)
  | u :: us =>
      if skip_phony t u then pick_loop t (S b) us lowest_b lowest_s do_cancel
      else if negb (u_buffer u) then pick_loop t (S b) us lowest_b lowest_s do_cancel
      else if last_received u <? 200 then
        if flag (br_flags u) (minor_branch_flag cfg) then pick_loop t (S b) us lowest_b lowest_s true else (-2, do_cancel)
      else
        let prio := branch_prio (last_received u) (was_cancelled t) in
        if (lowest_b =? -1) || (prio <? lowest_s) then pick_loop t (S b) us (Z.of_nat b) prio do_cancel
        else pick_loop t (S b) us lowest_b lowest_s do_cancel
  end.
Definition t_pick_branch (t : cell) : Z * bool :=
  pick_loop t (first_branch t) (drop (first_branch t) (uac t)) (-1) 999 false.

Definition tran_is_completed (t : cell) : bool :=
  forallb (λ u, negb (last_received u <? 200)) (drop (first_branch t) (uac t)).

(** ** What to do with a reply *)

Record relay_verdict := Verdict { v_rps : rps; should_store : bool; should_relay : Z; v_cancel : branch_bm }.
Definition discard (s : tst) : option (relay_verdict * tst) := Some (Verdict RPS_DISCARDED false (-1) 0, s).

(** A negative reply when there is no branch left to wait for: [picked] is the best branch. *)
Definition all_final (branch picked : nat) (bm : branch_bm) (s : tst) : option (relay_verdict * tst) :=
  let branch_cnt := nr_of_outgoings (tc s) in
  let s := reset_kr s in
  u ← TM_BRANCH (tc s) picked;
  '(s, branch_cnt) ←
    (if negb (flag (t_flags (tc s)) T_NO_DNS_FAILOVER_FLAG) && u_proxy u && is_3263_failure u then
       '(s, ok) ← do_dns_failover s; Some (s, if ok : bool then branch_cnt else nr_of_outgoings (tc s))
     else Some (s, branch_cnt));
  s ← (if (branch_cnt =? nr_of_outgoings (tc s))%nat && (on_failure (tc s) || on_negative (tc s)) then run_failure_handlers s else Some s);
  t ← upd_branch branch (set_u_reply NoReply) (tc s);
  let s := set_tc t s in
  Some
    (if 200 <=? uas_status t then (Verdict RPS_COMPLETED false (-1) bm, s)
     else if (branch_cnt <? nr_of_outgoings t)%nat && (kr s =? REQ_FWDED) then (Verdict RPS_STORE true (-1) bm, s)
     else (Verdict RPS_COMPLETED false (Z.of_nat picked) bm, s)).

(** A negative reply while no final one was sent. *)
Definition negative_reply (new_code : Z) (branch : nat) (reply : reply_ptr) (s : tst) : option (relay_verdict * tst) :=
  t ← upd_branch branch (λ u, set_u_reply reply (set_last_received new_code u)) (tc s);
  if (600 <=? new_code) && negb (disable_6xx_block cfg) then
    let '(t, bm) := which_cancel t 0 in
    all_final branch branch bm (set_tc (set_t_flags (Z.lor (t_flags t) T_NO_NEW_BRANCHES_FLAG) t) s)
  else
    let '(picked, do_cancel) := t_pick_branch t in
    if picked =? -2 then
      t ← upd_branch branch (set_u_reply NoReply) t; Some (Verdict RPS_STORE true (-1) 0, set_tc t s)
    else if picked =? -1 then
      t ← upd_branch branch (set_u_reply NoReply) t; discard (set_tc t s)
    else
      let s := set_tc t s in
      let s :=
        if do_cancel then let '(t, cb) := which_cancel t 0 in cancel_uacs cb (cleanup_uac_timers (set_tc t s)) else s in
      all_final branch (Z.to_nat picked) 0 s.

(** A provisional reply, or a 2xx. *)
Definition positive_reply (new_code : Z) (branch : nat) (s : tst) : option (relay_verdict * tst) :=
  t ← upd_branch branch (set_last_received new_code) (tc s);
  let relay := if new_code =? 100 then -1 else Z.of_nat branch in
  if 200 <=? new_code then
    if flag (t_flags t) T_MULTI_200OK_FLAG then
      Some (Verdict (if tran_is_completed t then RPS_COMPLETED else RPS_RELAY) false relay 0, set_tc t s)
    else
      let '(t, bm) := which_cancel t 0 in Some (Verdict RPS_COMPLETED false relay bm, set_tc t s)
  else Some (Verdict RPS_PROVISIONAL false relay 0, set_tc t s).

Definition t_should_relay_response (new_code : Z) (branch : nat) (reply : reply_ptr) (s : tst) : option (relay_verdict * tst) :=
  let t := tc s in
  u ← TM_BRANCH t branch;
  let inv_through := (200 <=? new_code) && (new_code <? 300) && is_invite t in
  if is_invite t && (200 <=? new_code) && flag (t_flags t) T_MULTI_200OK_FLAG && (200 <=? uas_status t) && (uas_status t <? 300) then
    t ← upd_branch branch (set_last_received new_code) t;
    let s := set_tc t s in
    if 300 <=? new_code then discard s
    else Some (Verdict (if tran_is_completed t then RPS_COMPLETED else RPS_RELAY) false (Z.of_nat branch) 0, s)
  else if 200 <=? uas_status t then
    if inv_through then
      t ← upd_branch branch (set_last_received new_code) t;
      Some (Verdict RPS_PUSHED_AFTER_COMPLETION false (Z.of_nat branch) 0, set_tc t s)
    else if is_hopbyhop_cancel t && (200 <=? new_code) then Some (Verdict RPS_COMPLETED false (-1) 0, s)
    else discard s
  else if (200 <=? last_received u) && negb (inv_through && (last_received u <? 300)) then discard s
  else if 300 <=? new_code then negative_reply new_code branch reply s
  else if 100 <=? new_code then positive_reply new_code branch s
  else discard s.

(** ** Relaying *)

Definition store_reply (branch : nat) (rpl : reply_ptr) (s : tst) : option (tst * bool) :=
  let r := match rpl with Msg _ => if e_clone e then rpl else NoReply | _ => rpl end in
  t ← upd_branch branch (set_u_reply r) (tc s);
  Some (set_tc t s, match r with NoReply => false | _ => true end).

(** The error exit of [relay_reply]: a local 500. *)
Definition relay_error (bm : branch_bm) (s : tst) : option (rps * tst) :=
  '(s, _) ← _reply 500 s;
  Some (RPS_ERROR, if is_invite (tc s) then cancel_uacs bm s else s).

(** The status of the reply of a branch; [None] when there is none. *)
Definition reply_code (r : reply_ptr) (status : Z) : option Z :=
  match r with NoReply => None | FAKED_REPLY => Some status | Msg c => Some c end.

Definition relay_reply (branch : nat) (p_msg : reply_ptr) (msg_status : Z) (s : tst) : option (rps * branch_bm * tst) :=
  '(v, s) ← t_should_relay_response msg_status branch p_msg s;
  '(s, stored) ← (if should_store v then store_reply branch p_msg s else Some (s, true));
  if negb stored then '(r, s) ← relay_error (v_cancel v) s; Some (r, v_cancel v, s)
  else if 0 <=? should_relay v then
    let relay := Z.to_nat (should_relay v) in
    let s := set_tc (set_relaied (should_relay v) (tc s)) s in
    u ← TM_BRANCH (tc s) relay;
    code ← (if (branch =? relay)%nat then reply_code p_msg msg_status else reply_code (u_reply u) (last_received u));
    if negb (e_build e && e_shm e) then
      s ← (if should_store v then t ← upd_branch branch (set_u_reply NoReply) (tc s); Some (set_tc t s) else Some s);
      '(r, s) ← relay_error (v_cancel v) s; Some (r, v_cancel v, s)
    else
      let s := set_tc (set_status code (tc s)) s in
      s ← match v_rps v with RPS_COMPLETED => final_timer code s | _ => Some s end;
      Some (v_rps v, v_cancel v, emit [SendReply (should_relay v) code] s)
  else
    s ← match v_rps v with RPS_COMPLETED => set_final_timer s | _ => Some s end;
    Some (v_rps v, v_cancel v, s).

(** The same for a transaction of this server; [cseq] is the method of the reply. *)
Definition local_reply (branch : nat) (p_msg : reply_ptr) (msg_status cseq : Z) (s : tst) : option (rps * branch_bm * tst) :=
  '(v, s) ← t_should_relay_response msg_status branch p_msg s;
  '(s, stored) ← (if should_store v then store_reply branch p_msg s else Some (s, true));
  if negb stored then
    let '(t, bm) := which_cancel (tc s) (v_cancel v) in
    let s := cleanup_uac_timers (set_tc t s) in
    Some (RPS_ERROR, bm, put_on_wait (if cseq =? METHOD_INVITE then cancel_uacs bm s else s))
  else if 0 <=? should_relay v then
    let winner := Z.to_nat (should_relay v) in
    u ← TM_BRANCH (tc s) winner;
    code ← (if (branch =? winner)%nat then reply_code p_msg msg_status else reply_code (u_reply u) (last_received u));
    Some (v_rps v, v_cancel v, set_tc (set_status code (tc s)) s)
  else Some (v_rps v, v_cancel v, s).

Definition process_reply_and_timer (branch : nat) (msg_status : Z) (p_msg : reply_ptr) (last_uac_status cseq : Z) (s : tst) : option tst :=
  let t := tc s in
  u ← TM_BRANCH t branch;
  s ← (if flag (u_flags u) T_UAC_TO_CANCEL_FLAG || (was_cancelled t && match local_cancel u with NO_CANCEL => true | _ => false end) then
         let '(u, a) := if msg_status <? 200 then cancel_branch branch u else (u, []) in
         let u := set_u_flags (Z.land (u_flags u) (Z.lnot T_UAC_TO_CANCEL_FLAG)) u in
         t ← upd_branch branch (λ _, u) t;
         Some (emit a (set_tc t s))
       else Some s);
  '(r, bm, s) ← (if is_local t then local_reply branch p_msg msg_status cseq s else relay_reply branch p_msg msg_status s);
  let s :=
    match r with
    | RPS_COMPLETED =>
        let s := cleanup_uac_timers s in
        let s := if is_invite t then cancel_uacs bm s else s in
        if is_local t then put_on_wait s else s
    | _ => s
    end in
  Some
    match r with
    | RPS_PROVISIONAL =>
        if (msg_status <? 200) &&
           (restart_fr_on_each_reply cfg || ((last_uac_status <? msg_status) && ((180 <=? msg_status) || (last_uac_status =? 0)))) then
          emit [if is_invite t then SetFrInv branch else SetRetrT2 branch] s
        else s
    | _ => s
    end.

(** ** Events *)

(** [reply_received], for a reply that matched the branch: [cseq] is its method, [drop] whether
    the reply routes drop it, and [acked] whether the ACK could be sent. *)
Definition reply_received (branch : nat) (msg_status cseq : Z) (drop acked : bool) (s : tst) : option tst :=
  let t := tc s in
  u ← TM_BRANCH t branch;
  if (cseq =? METHOD_CANCEL) && is_invite t then
    Some (emit (ResetRetr (LocalCancel branch) :: if 200 <=? msg_status then [ResetFr (LocalCancel branch)] else []) s)
  else
    let s := emit (ResetRetr (Request branch) :: if 200 <=? msg_status then [ResetFr (Request branch)] else []) s in
    let s :=
      if is_invite t && ((300 <=? msg_status) || (is_local t && negb (no_autoack t) && (200 <=? msg_status))) && acked
      then emit [SendAck branch] s else s in
    if drop && (msg_status <? 200) then Some s
    else
      t ← upd_branch branch (λ u, set_u_flags (Z.lor (u_flags u) T_UAC_HAS_RECV_REPLY)
                                    match e_reply_flags e with Some fl => set_br_flags fl u | None => u end) (tc s);
      process_reply_and_timer branch msg_status (Msg msg_status) (last_received u) cseq (set_tc t s).

Definition fake_reply (branch : nat) (code : Z) (s : tst) : option tst :=
  if is_local (tc s) then
    '(r, _, s) ← local_reply branch FAKED_REPLY code 0 s;
    Some match r with RPS_COMPLETED => put_on_wait s | _ => s end
  else '(_, _, s) ← relay_reply branch FAKED_REPLY code s; Some s.

(** The final response timer of a buffer hits. *)
Definition final_response_handler (rb : retr_buf) (s : tst) : option tst :=
  let s := emit [ResetRetr rb] s in
  match rb with
  | LocalCancel _ => Some s
  | UasResponse => Some (put_on_wait s)
  | Request b =>
      u ← TM_BRANCH (tc s) b;
      s ← (if is_invite (tc s) then
             let '(c, u) := should_cancel_branch u in
             t ← upd_branch b (λ _, u) (tc s);
             Some (if c then cancel_uacs (BRANCH_BM_SET_IDX 0 b) (set_tc t s) else s)
           else Some s);
      fake_reply b 408 s
  end.

(** [cancel_invite], on the INVITE transaction, after its flag was set. *)
Definition cancel_invite (s : tst) : option tst :=
  let t := set_t_flags (Z.lor (t_flags (tc s)) T_WAS_CANCELLED_FLAG) (tc s) in
  let '(t, bm) := which_cancel t 0 in
  let s := cancel_uacs bm (set_tc t s) in
  match drop (first_branch (tc s)) (uac (tc s)) with
  | [u] => if is_phony u then '(_, _, s) ← relay_reply (first_branch (tc s)) FAKED_REPLY 487 s; Some s else Some s
  | _ => Some s
  end.
End env.

Inductive event :=
  | EvReply (branch : nat) (msg_status cseq : Z) (drop acked : bool)
  | EvTimeout (rb : retr_buf)
  | EvLocalReply (code : Z)
  | EvForward (ds : list dest)
  | EvCancel
  | EvPhony (fl : Z).

(** One event with its environment. *)
Definition tm_step (cfg : tm_cfg) (e : env) (ev : event) (s : tst) : option tst :=
  match ev with
  | EvReply b c m d a => reply_received cfg e b c m d a s
  | EvTimeout rb => final_response_handler cfg e rb s
  | EvLocalReply c => fst <$> _reply e c s
  | EvForward ds => fst <$> t_forward_nonack e ds false s
  | EvCancel => cancel_invite cfg e s
  | EvPhony fl => Some (add_phony_uac e fl s).1
  end.
Fixpoint tm_run (cfg : tm_cfg) (l : list (env * event)) (s : tst) : option tst :=
  match l with [] => Some s | (e, ev) :: l => s ← tm_step cfg e ev s; tm_run cfg l s end.

(** ** Concrete transactions *)

(** Nothing fails, there is no other address and no failure route. *)
Definition env0 : env := Env true true true true true (λ _, true) true None METHOD_INVITE None [] false [].
Definition cfg0 : tm_cfg := TmCfg false 1 false.
Definition new_branch (fl : Z) : ua_client := Uac true false NO_CANCEL 0 NoReply 0 fl.
(** A transaction with the flags [tfl] for the method [m], forked to branches with the flags [fls]. *)
Definition forked_to (tfl m : Z) (fls : list Z) : tst := Tst (Cell tfl 0 (new_branch <$> fls) 0 (-1) (Some m) false false) 0 [].
Definition replies (m : Z) (l : list (nat * Z)) : list (env * event) := (λ bc, (env0, EvReply bc.1 bc.2 m false true)) <$> l.
