(* ===== verification/TmReplyFacts.v ===== *)
(** * Invariants of a transaction

    Two invariants of the reply processing: what was sent upstream agrees with the status of the
    transaction, and a branch was sent a CANCEL at most once. *)

From stdpp Require Import prelude list.
From Stdlib Require Import ZArith Lia.
From S2P Require Import Prelude HdrBodies TmReply.

(** ** What was sent upstream *)

Definition sent (l : list act) : list Z := omap (λ a, match a with SendReply _ c => Some c | _ => None end) l.

(** After a final reply only 2xx of an INVITE follow. *)
Fixpoint legal (inv fin : bool) (cs : list Z) : bool :=
  match cs with
  | [] => true
  | c :: cs => (negb fin || (inv && (200 <=? c) && (c <? 300))) && legal inv (fin || (200 <=? c)) cs
  end.

Definition has_final (cs : list Z) : bool := existsb (λ c, 200 <=? c) cs.

Lemma legal_app inv cs cs' : ∀ fin, legal inv fin (cs ++ cs') = legal inv fin cs && legal inv (fin || has_final cs) cs'.
Proof.
  induction cs as [|c cs IH]; intros fin; cbn; [by rewrite orb_false_r|]. rewrite IH, andb_assoc. f_equal. f_equal. by rewrite orb_assoc.
Qed.

Lemma sent_app l l' : sent (l ++ l') = sent l ++ sent l'.
Proof. apply omap_app. Qed.

(** The part of the state this invariant is about. *)
Definition core (s : tst) : bool * Z * list Z := (is_invite (tc s), uas_status (tc s), sent (out s)).

Definition upstream_ok (s : tst) : Prop :=
  legal (is_invite (tc s)) false (sent (out s)) = true ∧ (has_final (sent (out s)) = true → 200 <= uas_status (tc s)).

Lemma upstream_core s s' : core s' = core s → upstream_ok s → upstream_ok s'.
Proof. unfold core, upstream_ok. intros [= -> -> ->]. done. Qed.

Lemma core_emit a s : sent a = [] → core (emit a s) = core s.
Proof. intros Ha. unfold core. cbn. by rewrite sent_app, Ha, app_nil_r. Qed.

Lemma core_set_tc t s : is_invite t = is_invite (tc s) → uas_status t = uas_status (tc s) → core (set_tc t s) = core s.
Proof. unfold core. cbn. by intros -> ->. Qed.

Lemma core_kr k s : core (set_kr k s) = core s.
Proof. done. Qed.

Lemma which_cancel_cell t bm : let t' := (which_cancel t bm).1 in
  t' = set_uac (uac t') t ∧ length (uac t') = length (uac t).
Proof.
  unfold which_cancel. assert (Hl : ∀ us i bm, length (which_cancel_loop i us bm).1 = length us).
  { induction us as [|u us IH]; intros i b; cbn [which_cancel_loop]; [done|]. destruct (should_cancel_branch u) as [c u'].
    specialize (IH (S i) (if c then BRANCH_BM_SET_IDX b i else b)). destruct (which_cancel_loop _ us _). cbn in *. by rewrite IH. }
  specialize (Hl (drop (first_branch t) (uac t)) (first_branch t) bm).
  destruct (which_cancel_loop _ _ _) as [us b]. cbn in *. split; [done|]. rewrite length_app, Hl, <- length_app. by rewrite take_drop.
Qed.

Section facts.
Context (cfg : tm_cfg) (e : env).

Lemma cancel_uacs_core bm s : core (cancel_uacs e bm s) = core s.
Proof.
  unfold cancel_uacs. destruct (cancel_uacs_loop e 0 (uac (tc s)) bm) as [us a] eqn:E. rewrite core_emit; [by apply core_set_tc|].
  revert a us E. generalize (uac (tc s)) 0%nat. induction l as [|u l IH]; intros i a us; cbn [cancel_uacs_loop]; [by intros [= _ <-]|].
  destruct (if BRANCH_BM_TST_IDX bm i then _ else _) as [u' a'] eqn:Eu. destruct (cancel_uacs_loop e (S i) l bm) as [us' a''] eqn:El.
  intros [= <- <-]. rewrite sent_app, (IH _ _ _ El), app_nil_r. unfold cancel_branch in Eu. repeat case_match; simplify_eq; done.
Qed.

Lemma cleanup_core s : core (cleanup_uac_timers s) = core s.
Proof.
  apply core_emit. generalize (first_branch (tc s)). intros b. generalize (nr_of_outgoings (tc s) - b)%nat. intros n. revert b.
  induction n as [|n IH]; intros b; cbn; [done|]. apply IH.
Qed.

Lemma final_timer_core code s s' : final_timer code s = Some s' → core s' = core s.
Proof.
  unfold final_timer, set_final_timer, put_on_wait. intros Hf. repeat (case_match; simplify_eq; try by apply core_emit).
  all: destruct (request (tc s)); simplify_eq/=; repeat case_match; by apply core_emit.
Qed.
Lemma set_final_timer_core s s' : set_final_timer s = Some s' → core s' = core s.
Proof. intros Hs. apply (final_timer_core 0). done. Qed.

Lemma reply_light_error_core bm s : core (reply_light_error e bm s) = core s.
Proof.
  unfold reply_light_error, put_on_wait. rewrite core_emit by done. case_match; rewrite ?cancel_uacs_core; apply cleanup_core.
Qed.

Lemma which_cancel_core t bm s : is_invite t = is_invite (tc s) → uas_status t = uas_status (tc s) →
  core (set_tc (which_cancel t bm).1 s) = core s.
Proof. intros Hi Hs. destruct (which_cancel_cell t bm) as [-> _]. apply core_set_tc; done. Qed.

(** A local reply: nothing is sent when the transaction has a final status, and otherwise the
    status becomes the code. *)
Lemma reply_light_core code s s' r : _reply_light e code s = Some (s', r) →
  core s' = core s ∨
  (uas_status (tc s) < 200 ∧ (core s' = (is_invite (tc s), code, sent (out s)) ∨ core s' = (is_invite (tc s), code, sent (out s) ++ [code]))).
Proof.
  unfold _reply_light. destruct (e_build_local e); cbn [negb].
  2:{ destruct (is_invite (tc s)); [destruct (which_cancel (tc s) 0) as [t bm] eqn:E|]; intros [= <- _]; left; rewrite reply_light_error_core.
      - change t with ((t, bm).1). rewrite <- E. by apply which_cancel_core.
      - by apply core_set_tc. }
  destruct (Z.leb_spec 200 (uas_status (tc s))) as [Hf|Hf]; [intros [= <- _]; left; apply reply_light_error_core|].
  intros Hr. right. split; [lia|]. set (p := if is_invite (tc s) && (200 <=? code) then which_cancel (tc s) 0 else (tc s, 0)) in Hr.
  assert (Hp : is_invite p.1 = is_invite (tc s)).
  { unfold p. destruct (_ && _); [|done]. destruct (which_cancel_cell (tc s) 0) as [-> _]. done. }
  destruct p as [t bm]. cbn in Hp. destruct (e_shm_local e); cbn [negb] in Hr.
  2:{ injection Hr as <- _. left. rewrite reply_light_error_core. unfold core. cbn. by rewrite <- Hp. }
  right. set (s0 := set_tc (set_relaied (-2) (set_status code t)) s) in Hr.
  assert (H0 : core s0 = (is_invite (tc s), code, sent (out s))) by (unfold core; cbn; by rewrite <- Hp).
  destruct (if (200 <=? code) && _ then _ else Some s0) as [s1|] eqn:E1; [|done]. cbn in Hr. injection Hr as <- _.
  assert (H1 : core s1 = core s0).
  { destruct (_ && _); [|by simplify_eq]. apply final_timer_core in E1. rewrite E1. case_match; rewrite ?cancel_uacs_core; apply cleanup_core. }
  unfold core. cbn. rewrite sent_app. rewrite H0 in H1. unfold core in H1. injection H1 as -> -> ->. done.
Qed.

Lemma reply_core code s s' r : _reply e code s = Some (s', r) →
  core s' = core s ∨
  (uas_status (tc s) < 200 ∧ (core s' = (is_invite (tc s), code, sent (out s)) ∨ core s' = (is_invite (tc s), code, sent (out s) ++ [code]))).
Proof. unfold _reply. destruct (request (tc s)); [|done]. cbn. intros Hr%reply_light_core. by case_match. Qed.

Lemma upstream_send s s' code : upstream_ok s → uas_status (tc s) < 200 →
  core s' = (is_invite (tc s), code, sent (out s) ++ [code]) → upstream_ok s'.
Proof.
  intros [Hl Hf] Hs. unfold core, upstream_ok. intros [= -> -> ->]. rewrite legal_app, Hl. unfold has_final in *. rewrite existsb_app.
  destruct (existsb _ (sent (out s))); [lia|]. cbn. rewrite !orb_false_r. split; [done|lia].
Qed.

Lemma upstream_status s s' code : upstream_ok s → uas_status (tc s) < 200 →
  core s' = (is_invite (tc s), code, sent (out s)) → upstream_ok s'.
Proof.
  intros [Hl Hf] Hs. unfold core, upstream_ok. intros [= -> -> ->]. split; [done|]. destruct (has_final _); [lia|done].
Qed.

Lemma reply_upstream code s s' r : _reply e code s = Some (s', r) → upstream_ok s → upstream_ok s' ∧ is_invite (tc s') = is_invite (tc s).
Proof.
  intros Hr Hok. apply reply_core in Hr as [Hc|(Hs & [Hc|Hc])].
  - split; [by eapply upstream_core|]. unfold core in Hc. by simplify_eq.
  - split; [by eapply upstream_status|]. unfold core in Hc. by simplify_eq.
  - split; [by eapply upstream_send|]. unfold core in Hc. by simplify_eq.
Qed.

(** [upstream_ok] and the kind of the transaction are kept. *)
Definition keeps (s s' : tst) : Prop := (upstream_ok s → upstream_ok s') ∧ is_invite (tc s') = is_invite (tc s).

Lemma keeps_refl s : keeps s s.
Proof. done. Qed.
Lemma keeps_trans s1 s2 s3 : keeps s1 s2 → keeps s2 s3 → keeps s1 s3.
Proof. intros [H1 I1] [H2 I2]. split; [auto|congruence]. Qed.
Lemma keeps_core s s' : core s' = core s → keeps s s'.
Proof. intros Hc. split; [by apply upstream_core|]. unfold core in Hc. by simplify_eq. Qed.

Lemma reply_keeps code s s' r : _reply e code s = Some (s', r) → keeps s s'.
Proof.
  intros Hr. split; [by intros ?; eapply reply_upstream|]. apply reply_core in Hr. unfold core in Hr. naive_solver.
Qed.

Lemma add_uacs_core ds : ∀ t s, is_invite t = is_invite (tc s) → uas_status t = uas_status (tc s) → core (set_tc (add_uacs ds t).1 s) = core s.
Proof.
  induction ds as [|d ds IH]; intros t s Hi Hs; cbn [add_uacs]; [by apply core_set_tc|]. unfold add_uac.
  destruct (_ && _); match goal with |- context [add_uacs ds ?t'] => specialize (IH t' s Hi Hs); by destruct (add_uacs ds t') end.
Qed.

Lemma upd_branch_cell b f t t' : upd_branch b f t = Some t' → ∃ u, uac t !! b = Some u ∧ t' = set_uac (<[b := f u]> (uac t)) t.
Proof. unfold upd_branch, TM_BRANCH. destruct (uac t !! b) as [u|]; [|done]. intros [= <-]. by exists u. Qed.

Lemma upd_branch_core b f s t' : upd_branch b f (tc s) = Some t' → core (set_tc t' s) = core s.
Proof. intros (u & _ & ->)%upd_branch_cell. by apply core_set_tc. Qed.

Lemma send_uacs_core l : ∀ s n s' n', send_uacs l s n = Some (s', n') → core s' = core s.
Proof.
  induction l as [|[b ok] l IH]; intros s n s' n'; cbn [send_uacs]; [by intros [= <- _]|]. destruct ok.
  - intros ->%IH. by rewrite core_kr, core_emit.
  - destruct (upd_branch b _ (tc s)) as [t|] eqn:E; [|done]. cbn. intros ->%IH. by eapply upd_branch_core.
Qed.

Lemma forward_keeps ds reset s s' r : t_forward_nonack e ds reset s = Some (s', r) → keeps s s'.
Proof.
  unfold t_forward_nonack. destruct (request (tc s)); [|done]. cbn [mbind option_bind]. destruct (no_new_branches (tc s)); [by intros [= <- _]|]. destruct (was_cancelled (tc s)).
  { destruct (_ =? 0)%nat; [|by intros [= <- _]]. destruct (_reply e 487 s) as [[s1 r1]|] eqn:E; [|done]. cbn. intros [= <- _]. by eapply reply_keeps. }
  match goal with |- context [add_uacs ds ?t] => set (t0 := t) end.
  assert (Ht : is_invite t0 = is_invite (tc s) ∧ uas_status t0 = uas_status (tc s)) by (unfold t0; by destruct reset).
  destruct Ht as [Hi Hs]. pose proof (add_uacs_core ds t0 s Hi Hs) as Hc. destruct (add_uacs ds t0) as [t1 l]. cbn [fst] in Hc. intros Hr. apply keeps_core.
  destruct l; [by injection Hr as <- _|]. destruct (send_uacs _ _ 0) as [[s1 n]|] eqn:E; [|done]. cbn in Hr. injection Hr as <- _. apply send_uacs_core in E. by rewrite E.
Qed.

Lemma run_op_keeps o s s' : run_op e o s = Some s' → keeps s s'.
Proof.
  destruct o; cbn [run_op].
  - destruct (_reply e code s) as [[s1 r]|] eqn:E; [|done]. intros [= <-]. by eapply reply_keeps.
  - destruct (t_forward_nonack e ds true s) as [[s1 r]|] eqn:E; [|done]. intros [= <-]. by eapply forward_keeps.
  - intros [= <-]. by apply keeps_core, core_set_tc.
  - intros [= <-]. unfold add_phony_uac. destruct (_ || _); [done|]. cbn [fst]. apply keeps_core. rewrite core_kr, core_emit by done. by apply core_set_tc.
Qed.

Lemma run_ops_keeps l : ∀ s s', run_ops e l s = Some s' → keeps s s'.
Proof.
  induction l as [|o l IH]; intros s s'; cbn [run_ops]; [by intros [= <-]|]. destruct (run_op e o s) as [s1|] eqn:E; [|done]. cbn.
  intros Hs. eapply keeps_trans; [by eapply run_op_keeps|by apply IH].
Qed.

Lemma failure_keeps s s' : run_failure_handlers e s = Some s' → keeps s s'.
Proof.
  unfold run_failure_handlers. destruct (request (tc s)) as [m|]; [|by intros [= <-]]. destruct (m =? _); [by intros [= <-]|].
  destruct (_ && _); [by intros [= <-]|]. destruct (negb _); [by intros [= <-]|].
  destruct (if on_failure (tc s) then _ else _) as [s1|] eqn:E; [|done]. cbn. intros Hs. apply (keeps_trans _ s1).
  { destruct (on_failure (tc s)); [by eapply run_ops_keeps|by simplify_eq]. }
  destruct (_ && _); [|by simplify_eq]. apply run_ops_keeps in Hs. eapply keeps_trans; [|exact Hs]. by apply keeps_core, core_set_tc.
Qed.

Lemma dns_keeps s s' b : do_dns_failover e s = Some (s', b) → keeps s s'.
Proof.
  unfold do_dns_failover. destruct (e_dns e) as [d|]; [|by intros [= <- _]]. destruct (match request (tc s) with None => _ | m => m end) as [m|]; [|by intros [= <- _]].
  assert (Hc : keeps s (set_tc (set_request (Some m) (tc s)) s)) by (by apply keeps_core, core_set_tc).
  destruct (e_fake_req e); [|by intros [= <- _]]. cbn [negb].
  destruct (t_forward_nonack _ _ _ _) as [[s1 r]|] eqn:E; [|done]. cbn. intros [= <- _].
  eapply keeps_trans; [exact Hc|by eapply forward_keeps].
Qed.

Lemma all_final_keeps branch picked bm s v s' : all_final e branch picked bm s = Some (v, s') →
  keeps s s' ∧ (0 <= should_relay v → uas_status (tc s') < 200).
Proof.
  unfold all_final. destruct (TM_BRANCH _ picked) as [u|]; [|done]. cbn [mbind option_bind].
  destruct (if _ && _ then _ else _) as [[s1 n]|] eqn:E1; [|done]. cbn [mbind option_bind].
  assert (K1 : keeps s s1).
  { destruct (_ && _); [|by simplify_eq]. destruct (do_dns_failover e (reset_kr s)) as [[s2 ok]|] eqn:E; [|done]. cbn in E1. simplify_eq.
    by apply dns_keeps in E. }
  clear E1. destruct (if _ && _ then _ else _) as [s2|] eqn:E2; [|done]. cbn [mbind option_bind].
  assert (K2 : keeps s1 s2) by (destruct (_ && _); [by apply failure_keeps|by simplify_eq]).
  destruct (upd_branch branch _ (tc s2)) as [t|] eqn:E3; [|done]. cbn [mbind option_bind]. intros Hv. pose proof (keeps_core _ _ (upd_branch_core _ _ _ _ E3)) as K3.
  assert (K : keeps s (set_tc t s2)) by (eapply keeps_trans; [exact K1|]; by eapply keeps_trans).
  destruct (Z.leb_spec 200 (uas_status t)); [injection Hv as <- <-; split; [done|cbn; lia]|]. clear E2. destruct (_ && _); injection Hv as <- <-; (split; [done|cbn; lia]).
Qed.

Lemma keeps_which_cancel t bm s fl : is_invite t = is_invite (tc s) → uas_status t = uas_status (tc s) →
  flag fl T_IS_INVITE_FLAG = is_invite t → keeps s (set_tc (set_t_flags fl (which_cancel t bm).1) s).
Proof. intros Hi Hs Hf. apply keeps_core. apply core_set_tc; [by rewrite <- Hi|]. destruct (which_cancel_cell t bm) as [-> _]. done. Qed.

Lemma invite_lor fl m : Z.testbit m 0 = false → flag (Z.lor fl m) T_IS_INVITE_FLAG = flag fl T_IS_INVITE_FLAG.
Proof.
  intros Hm. unfold flag. f_equal. f_equal. apply Z.bits_inj'. intros n Hn. rewrite !Z.land_spec, Z.lor_spec.
  destruct (Z.eq_dec n 0) as [->|]; [by rewrite Hm, orb_false_r|]. change T_IS_INVITE_FLAG with (2 ^ 0). by rewrite Z.pow2_bits_false, !andb_false_r by lia.
Qed.

Lemma negative_keeps code branch reply s v s' : negative_reply cfg e code branch reply s = Some (v, s') →
  keeps s s' ∧ (0 <= should_relay v → uas_status (tc s') < 200).
Proof.
  unfold negative_reply. destruct (upd_branch branch _ (tc s)) as [t|] eqn:Eu; [|done]. cbn [mbind option_bind].
  apply upd_branch_cell in Eu as (u & _ & Ht). assert (Hi : is_invite t = is_invite (tc s) ∧ uas_status t = uas_status (tc s)) by (by subst).
  destruct Hi as [Hi Hs]. clear Ht. destruct (_ && _).
  { destruct (which_cancel t 0) as [t1 bm] eqn:Ew. pose proof (which_cancel_cell t 0) as Hw. rewrite Ew in Hw. destruct Hw as [Hw _]. cbn [fst] in Hw.
    intros [K Hr]%all_final_keeps. split; [|done]. eapply keeps_trans; [|exact K]. apply keeps_core, core_set_tc.
    - unfold is_invite. cbn. rewrite invite_lor by done. rewrite Hw. done.
    - rewrite Hw. done. }
  destruct (t_pick_branch cfg t) as [picked do_cancel]. destruct (picked =? -2); [|destruct (picked =? -1)].
  - destruct (upd_branch branch _ t) as [t1|] eqn:E; [|done]. intros [= <- <-]. split; [|cbn; lia].
    apply upd_branch_cell in E as (u' & _ & ->). by apply keeps_core, core_set_tc.
  - destruct (upd_branch branch _ t) as [t1|] eqn:E; [|done]. intros [= <- <-]. split; [|cbn; lia].
    apply upd_branch_cell in E as (u' & _ & ->). by apply keeps_core, core_set_tc.
  - intros [K Hr]%all_final_keeps. split; [|done]. eapply keeps_trans; [|exact K]. apply keeps_core. destruct do_cancel; [|by apply core_set_tc].
    destruct (which_cancel t 0) as [t1 bm] eqn:Ew. rewrite cancel_uacs_core, cleanup_core. pose proof (which_cancel_cell t 0) as [Hw _].
    rewrite Ew in Hw. cbn [fst] in Hw. rewrite Hw. transitivity (core (set_tc t s)); by apply core_set_tc.
Qed.

Lemma positive_keeps code branch s v s' : positive_reply code branch s = Some (v, s') → core s' = core s.
Proof.
  unfold positive_reply. destruct (upd_branch branch _ (tc s)) as [t|] eqn:Eu; [|done]. cbn [mbind option_bind].
  apply upd_branch_cell in Eu as (u & _ & ->). destruct (200 <=? code); [|by intros [= <- <-]; apply core_set_tc].
  destruct (flag _ _); [by intros [= <- <-]; apply core_set_tc|].
  lazymatch goal with |- context [which_cancel ?t 0] => pose proof (which_cancel_core t 0 s eq_refl eq_refl) as Hw; destruct (which_cancel t 0) as [t1 bm] end.
  by intros [= <- <-].
Qed.

(** A reply is chosen to be relayed when there was no final one, or when it is a 2xx of an
    INVITE, on its own branch. *)
Definition relay_ok (code : Z) (branch : nat) (v : relay_verdict) (s s' : tst) : Prop :=
  keeps s s' ∧ (0 <= should_relay v → uas_status (tc s') < 200 ∨ (should_relay v = Z.of_nat branch ∧ is_invite (tc s) = true ∧ 200 <= code < 300)).

Lemma should_relay_keeps code branch reply s v s' : t_should_relay_response cfg e code branch reply s = Some (v, s') → relay_ok code branch v s s'.
Proof.
  unfold t_should_relay_response, discard. destruct (TM_BRANCH (tc s) branch) as [u|]; [|done]. cbn [mbind option_bind].
  assert (Hno : ∀ r bm s1, keeps s s1 → Some (Verdict r false (-1) bm, s1) = Some (v, s') → relay_ok code branch v s s').
  { intros r bm s1 K [= <- <-]. split; [done|cbn; lia]. }
  assert (Hyes : ∀ t r bm, upd_branch branch (set_last_received code) (tc s) = Some t → is_invite (tc s) = true → 200 <= code < 300 →
    Some (Verdict r false (Z.of_nat branch) bm, set_tc t s) = Some (v, s') → relay_ok code branch v s s').
  { intros t r bm E Hi Hc [= <- <-]. split; [by apply keeps_core; eapply upd_branch_core|]. intros _. by right. }
  destruct (_ && (uas_status (tc s) <? 300)) eqn:Hm.
  { rewrite !andb_true_iff in Hm. destruct Hm as [[[[Hi Hc] _] _] _].
    destruct (upd_branch branch _ (tc s)) as [t|] eqn:E; [|done]. cbn [mbind option_bind].
    destruct (Z.leb_spec 300 code); [apply Hno; by apply keeps_core; eapply upd_branch_core|]. apply Hyes; [done|done|lia]. }
  clear Hm. destruct (Z.leb_spec 200 (uas_status (tc s))) as [Hf|Hf].
  - destruct (_ && is_invite (tc s)) eqn:Ht.
    + rewrite !andb_true_iff in Ht. destruct Ht as [Hc Hi]. destruct (upd_branch branch _ (tc s)) as [t|] eqn:E; [|done]. cbn [mbind option_bind].
      apply Hyes; [done|done|lia].
    + clear Ht. destruct (_ && (200 <=? code)); by apply Hno.
  - destruct (_ && negb _); [by apply Hno|]. destruct (300 <=? code).
    { intros [K Hr]%negative_keeps. split; [done|]. intros H0. left. by apply Hr. }
    destruct (100 <=? code); [|by apply Hno]. intros Hp%positive_keeps. split; [by apply keeps_core|]. intros _. left. unfold core in Hp. simplify_eq. lia.
Qed.

Lemma store_core branch rpl s s' b : store_reply e branch rpl s = Some (s', b) → core s' = core s.
Proof.
  unfold store_reply. destruct (upd_branch branch _ (tc s)) as [t|] eqn:E; [|done]. intros [= <- _]. by eapply upd_branch_core.
Qed.

Lemma relay_error_keeps bm s r s' : relay_error e bm s = Some (r, s') → keeps s s'.
Proof.
  unfold relay_error. destruct (_reply e 500 s) as [[s1 r1]|] eqn:E; [|done]. cbn. intros [= _ <-]. eapply keeps_trans; [by eapply reply_keeps|].
  destruct (is_invite (tc s1)); [apply keeps_core, cancel_uacs_core|done].
Qed.

(** The status of a message is the one the event carries. *)
Definition consistent (p_msg : reply_ptr) (status : Z) : Prop := p_msg = FAKED_REPLY ∨ p_msg = Msg status.

Lemma relay_reply_keeps branch p_msg status s r bm s' : consistent p_msg status →
  relay_reply cfg e branch p_msg status s = Some (r, bm, s') → keeps s s'.
Proof.
  intros Hcons. unfold relay_reply. destruct (t_should_relay_response _ _ _ _ _ s) as [[v s1]|] eqn:E; [|done]. cbn [mbind option_bind].
  apply should_relay_keeps in E as [K1 Hrel]. destruct (if should_store v then _ else _) as [[s2 stored]|] eqn:Est; [|done]. cbn [mbind option_bind].
  assert (C2 : core s2 = core s1) by (destruct (should_store v); [by eapply store_core|by simplify_eq]). clear Est.
  assert (K2 : keeps s s2) by (eapply keeps_trans; [exact K1|by apply keeps_core]).
  destruct stored; cbn [negb].
  2:{ destruct (relay_error _ _ s2) as [[r1 s3]|] eqn:Ee; [|done]. cbn. intros [= _ _ <-]. eapply keeps_trans; [done|by eapply relay_error_keeps]. }
  destruct (Z.leb_spec 0 (should_relay v)) as [H0|H0].
  2:{ destruct (match v_rps v with RPS_COMPLETED => _ | _ => _ end) as [s3|] eqn:Ef; [|done]. cbn. intros [= _ _ <-]. eapply keeps_trans; [done|].
      apply keeps_core. destruct (v_rps v); simplify_eq; try done. by apply set_final_timer_core. }
  set (s3 := set_tc (set_relaied (should_relay v) (tc s2)) s2). assert (C3 : core s3 = core s2) by done.
  destruct (TM_BRANCH (tc s3) _) as [u|]; [|done]. cbn [mbind option_bind].
  destruct (if (branch =? _)%nat then _ else _) as [code|] eqn:Ecode; [|done]. cbn [mbind option_bind]. destruct (negb _).
  { destruct (if should_store v then _ else _) as [s4|] eqn:E4; [|done]. cbn [mbind option_bind].
    assert (C4 : core s4 = core s3).
    { destruct (should_store v); [|by simplify_eq]. destruct (upd_branch branch _ (tc s3)) as [t4|] eqn:E; [|done]. cbn in E4. simplify_eq. by eapply upd_branch_core. }
    destruct (relay_error _ _ s4) as [[r1 s5]|] eqn:Ee; [|done]. cbn. intros [= _ _ <-]. eapply keeps_trans; [done|].
    eapply keeps_trans; [|by eapply relay_error_keeps]. apply keeps_core. by rewrite C4. }
  destruct (match v_rps v with RPS_COMPLETED => _ | _ => _ end) as [s4|] eqn:E4; [|done]. cbn [mbind option_bind]. intros [= _ _ <-].
  assert (C4 : core s4 = (is_invite (tc s2), code, sent (out s2))).
  { destruct (v_rps v); simplify_eq; try done. apply final_timer_core in E4. by rewrite E4. }
  assert (C5 : core (emit [SendReply (should_relay v) code] s4) = (is_invite (tc s2), code, sent (out s2) ++ [code])).
  { unfold core. cbn. rewrite sent_app. unfold core in C4. injection C4 as -> -> ->. done. }
  split.
  2:{ unfold core in C5. destruct K2 as [_ <-]. by injection C5. }
  intros Hok. apply K2 in Hok. destruct (Hrel H0) as [Hst|(Hbr & Hinv & Hcode)].
  - eapply upstream_send; [exact Hok| |exact C5]. unfold core in C2. injection C2 as _ -> _. done.
  - rewrite Hbr, Nat2Z.id, Nat.eqb_refl in Ecode. assert (code = status) as ->.
    { destruct Hcons as [->| ->]; cbn in Ecode; by simplify_eq. }
    clear C4. revert C5. generalize (emit [SendReply (should_relay v) status] s4). intros s5 C5.
    destruct Hok as [Hl Hf]. unfold core, upstream_ok in *. injection C5 as -> -> ->. rewrite legal_app, Hl. destruct K2 as [_ K2]. rewrite K2, Hinv. cbn.
    split; [|lia]. rewrite andb_true_r. replace (200 <=? status) with true by lia. replace (status <? 300) with true by lia. by destruct (has_final _).
Qed.

Lemma local_reply_keeps branch p_msg status cseq s r bm s' : consistent p_msg status →
  local_reply cfg e branch p_msg status cseq s = Some (r, bm, s') → keeps s s'.
Proof.
  intros Hcons. unfold local_reply. destruct (t_should_relay_response _ _ _ _ _ s) as [[v s1]|] eqn:E; [|done]. cbn [mbind option_bind].
  apply should_relay_keeps in E as [K1 Hrel]. destruct (if should_store v then _ else _) as [[s2 stored]|] eqn:Est; [|done]. cbn [mbind option_bind].
  assert (C2 : core s2 = core s1) by (destruct (should_store v); [by eapply store_core|by simplify_eq]). clear Est.
  assert (K2 : keeps s s2) by (eapply keeps_trans; [exact K1|by apply keeps_core]).
  destruct stored; cbn [negb].
  2:{ pose proof (which_cancel_core (tc s2) (v_cancel v) s2 eq_refl eq_refl) as Hw. destruct (which_cancel _ _) as [t b]. intros [= _ _ <-].
      eapply keeps_trans; [done|]. apply keeps_core. unfold put_on_wait. rewrite core_emit by done.
      destruct (_ =? _); rewrite ?cancel_uacs_core, cleanup_core; exact Hw. }
  destruct (Z.leb_spec 0 (should_relay v)) as [H0|H0]; [|by intros [= _ _ <-]].
  destruct (TM_BRANCH (tc s2) _) as [u|]; [|done]. cbn [mbind option_bind].
  destruct (if (branch =? _)%nat then _ else _) as [code|] eqn:Ecode; [|done]. cbn [mbind option_bind]. intros [= _ _ <-].
  eapply keeps_trans; [done|]. split; [|done]. intros Hok. destruct (Hrel H0) as [Hst|(Hbr & Hinv & Hcode)].
  - eapply upstream_status; [exact Hok| |done]. unfold core in C2. injection C2 as _ -> _. done.
  - rewrite Hbr, Nat2Z.id, Nat.eqb_refl in Ecode. assert (code = status) as -> by (destruct Hcons as [->| ->]; cbn in Ecode; by simplify_eq).
    destruct Hok as [Hl _]. split; [done|]. cbn. lia.
Qed.

Lemma process_keeps branch status p_msg last cseq s s' : consistent p_msg status →
  process_reply_and_timer cfg e branch status p_msg last cseq s = Some s' → keeps s s'.
Proof.
  intros Hcons. unfold process_reply_and_timer. destruct (TM_BRANCH (tc s) branch) as [u|]; [|done]. cbn [mbind option_bind].
  destruct (if _ || _ then _ else _) as [s1|] eqn:E1; [|done]. cbn [mbind option_bind].
  assert (C1 : core s1 = core s).
  { destruct (_ || _); [|by simplify_eq]. destruct (if status <? 200 then _ else _) as [u' a] eqn:Ea.
    destruct (upd_branch branch _ (tc s)) as [t|] eqn:E; [|done]. cbn in E1. simplify_eq. rewrite core_emit; [by eapply upd_branch_core|].
    destruct (status <? 200); [|by simplify_eq]. unfold cancel_branch in Ea. destruct (e_cancel e branch); by simplify_eq. }
  clear E1. destruct (if is_local (tc s) then _ else _) as [[[r bm] s2]|] eqn:E2; [|done]. cbn [mbind option_bind]. intros [= <-].
  assert (K2 : keeps s1 s2) by (destruct (is_local (tc s)); [by eapply local_reply_keeps|by eapply relay_reply_keeps]).
  eapply keeps_trans; [by apply keeps_core|]. eapply keeps_trans; [exact K2|]. apply keeps_core.
  destruct r; try done.
  - destruct (is_local _), (is_invite _); unfold put_on_wait; rewrite ?core_emit by done; rewrite ?cancel_uacs_core, ?cleanup_core; done.
  - destruct (_ && _); [|done]. apply core_emit. by destruct (is_invite _).
Qed.

Lemma reply_received_keeps branch status cseq drop acked s s' : reply_received cfg e branch status cseq drop acked s = Some s' → keeps s s'.
Proof.
  unfold reply_received. destruct (TM_BRANCH (tc s) branch) as [u|]; [|done]. cbn [mbind option_bind].
  destruct (_ && is_invite _); [intros [= <-]; apply keeps_core, core_emit; by destruct (200 <=? status)|].
  match goal with |- context [emit ?a s] => set (s1 := emit a s) end.
  assert (C1 : core s1 = core s) by (apply core_emit; by destruct (200 <=? status)).
  match goal with |- context [if _ && acked then ?a else ?b] => set (s2 := if _ && acked then a else b) end.
  assert (C2 : core s2 = core s) by (unfold s2; destruct (_ && acked); by rewrite ?core_emit).
  destruct (drop && _); [intros [= <-]; by apply keeps_core|].
  destruct (upd_branch branch _ (tc s2)) as [t|] eqn:E; [|done]. cbn [mbind option_bind]. intros Hp%process_keeps; [|by right].
  eapply keeps_trans; [|exact Hp]. apply keeps_core. rewrite <- C2. by eapply upd_branch_core.
Qed.

Lemma fake_reply_keeps branch code s s' : fake_reply cfg e branch code s = Some s' → keeps s s'.
Proof.
  unfold fake_reply. destruct (is_local (tc s)).
  - destruct (local_reply _ _ _ _ _ _ s) as [[[r bm] s1]|] eqn:E; [|done]. cbn. intros [= <-]. apply local_reply_keeps in E; [|by left].
    eapply keeps_trans; [exact E|]. apply keeps_core. destruct r; try done. by apply core_emit.
  - destruct (relay_reply _ _ _ _ _ s) as [[[r bm] s1]|] eqn:E; [|done]. cbn. intros [= <-]. apply relay_reply_keeps in E; [done|by left].
Qed.

Lemma timeout_keeps rb s s' : final_response_handler cfg e rb s = Some s' → keeps s s'.
Proof.
  unfold final_response_handler. assert (C1 : core (emit [ResetRetr rb] s) = core s) by (by apply core_emit).
  destruct rb as [|b|b]; [|  |intros [= <-]; by apply keeps_core].
  { intros [= <-]. apply keeps_core. unfold put_on_wait. by rewrite core_emit. }
  revert C1. generalize (emit [ResetRetr (Request b)] s). intros s1 C1 H. eapply keeps_trans; [by apply keeps_core|]. revert H.
  destruct (TM_BRANCH (tc s1) b) as [u|]; [|done]. cbn [mbind option_bind].
  destruct (if is_invite (tc s1) then _ else _) as [s2|] eqn:E; [|done]. cbn [mbind option_bind]. intros K%fake_reply_keeps.
  eapply keeps_trans; [|exact K]. apply keeps_core. destruct (is_invite (tc s1)); [|by simplify_eq].
  destruct (should_cancel_branch u) as [c u']. destruct (upd_branch b _ (tc s1)) as [t|] eqn:Et; [|done]. cbn in E. injection E as <-.
  destruct c; [|done]. rewrite cancel_uacs_core. by eapply upd_branch_core.
Qed.

Lemma cancel_invite_keeps s s' : cancel_invite cfg e s = Some s' → keeps s s'.
Proof.
  unfold cancel_invite. set (t0 := set_t_flags _ (tc s)).
  pose proof (which_cancel_core t0 0 s) as Hw. destruct (which_cancel t0 0) as [t bm]. cbn [fst] in Hw.
  set (s1 := cancel_uacs e bm (set_tc t s)).
  assert (K1 : keeps s s1) by (apply keeps_core; unfold s1; rewrite cancel_uacs_core; apply Hw; [|done]; unfold is_invite; cbn; by rewrite invite_lor).
  destruct (drop _ _) as [|u [|]]; [by intros [= <-]| |by intros [= <-]]. destruct (is_phony u); [|by intros [= <-]].
  destruct (relay_reply _ _ _ _ _ s1) as [[[r b] s2]|] eqn:E; [|done]. cbn. intros [= <-]. eapply keeps_trans; [exact K1|].
  apply relay_reply_keeps in E; [done|by left].
Qed.

Lemma step_keeps ev s s' : tm_step cfg e ev s = Some s' → keeps s s'.
Proof.
  destruct ev; cbn [tm_step].
  - apply reply_received_keeps.
  - apply timeout_keeps.
  - destruct (_reply e code s) as [[s1 r]|] eqn:E; [|done]. intros [= <-]. by eapply reply_keeps.
  - destruct (t_forward_nonack e ds false s) as [[s1 r]|] eqn:E; [|done]. intros [= <-]. by eapply forward_keeps.
  - apply cancel_invite_keeps.
  - intros Hs. by apply (run_op_keeps (Do_t_wait_for_new_branches fl)).
Qed.
End facts.

Lemma run_keeps cfg l : ∀ s s', tm_run cfg l s = Some s' → keeps s s'.
Proof.
  induction l as [|[e ev] l IH]; intros s s'; cbn [tm_run]; [by intros [= <-]|]. destruct (tm_step cfg e ev s) as [s1|] eqn:E; [|done]. cbn.
  intros Hs. eapply keeps_trans; [by eapply step_keeps|by apply IH].
Qed.
