(* ===== verification/TmReplyCancel.v ===== *)
(** * The CANCELs of a transaction

    A branch of which the buffer is empty was sent no CANCEL, one with a message was sent
    exactly one, and [BUSY_BUFFER] reserves the branch for the process that will send it. *)

From stdpp Require Import prelude list.
From Stdlib Require Import ZArith Lia.
From S2P Require Import Prelude HdrBodies TmReply TmReplyFacts.

(** How many CANCELs were sent to branch [i]. *)
Definition ncancel (i : nat) (l : list act) : nat := length (filter (λ j, j = i) (omap (λ a, match a with SendCancel j => Some j | _ => None end) l)).
#[global] Arguments ncancel : simpl never.

Lemma ncancel_app i l l' : ncancel i (l ++ l') = (ncancel i l + ncancel i l')%nat.
Proof. unfold ncancel. by rewrite omap_app, filter_app, length_app. Qed.

Definition to_cancel (u : ua_client) : bool := flag (u_flags u) T_UAC_TO_CANCEL_FLAG.

(** [pend]: the branch is in the set that will be given to [cancel_uacs]. *)
Definition branch_ok (o : option ua_client) (n : nat) (pend : bool) : Prop :=
  match o with
  | None => n = 0%nat ∧ pend = false
  | Some u =>
      match local_cancel u with
      | NO_CANCEL => n = 0%nat ∧ to_cancel u = false ∧ pend = false
      | BUSY_BUFFER => n = 0%nat ∧ (pend = true → to_cancel u = false)
      | CancelBuf => n = 1%nat ∧ to_cancel u = false ∧ pend = false
      end
  end.

Definition cinv (P : nat → bool) (s : tst) : Prop := ∀ i, branch_ok (uac (tc s) !! i) (ncancel i (out s)) (P i).
Definition ckeeps (s s' : tst) : Prop := ∀ P, cinv P s → cinv P s'.

Lemma cinv_weaken P Q s : (∀ i, Q i = true → P i = true) → cinv P s → cinv Q s.
Proof.
  intros HQ Hs i. specialize (Hs i). specialize (HQ i). unfold branch_ok in *.
  destruct (uac (tc s) !! i) as [u|]; [destruct (local_cancel u)|]; destruct (Q i), (P i); naive_solver.
Qed.

Lemma ckeeps_refl s : ckeeps s s.
Proof. by intros P. Qed.
#[export] Hint Resolve ckeeps_refl : core.
Lemma ckeeps_trans s1 s2 s3 : ckeeps s1 s2 → ckeeps s2 s3 → ckeeps s1 s3.
Proof. intros H1 H2 P H. by apply H2, H1. Qed.

Lemma ckeeps_emit a s : (∀ i, ncancel i a = 0%nat) → ckeeps s (emit a s).
Proof. intros Ha P Hs i. cbn. rewrite ncancel_app, Ha, Nat.add_0_r. apply Hs. Qed.

Lemma ckeeps_uac t s : uac t = uac (tc s) → ckeeps s (set_tc t s).
Proof. intros Ht P Hs i. cbn. rewrite Ht. apply Hs. Qed.

(** Two states that only differ in what is not looked at. *)
Lemma ckeeps_same s s' : uac (tc s') = uac (tc s) → out s' = out s → ckeeps s s'.
Proof. intros Ht Ho P Hs i. rewrite Ht, Ho. apply Hs. Qed.

Lemma ckeeps_upd b f s t : upd_branch b f (tc s) = Some t → (∀ u, local_cancel (f u) = local_cancel u ∧ to_cancel (f u) = to_cancel u) →
  ckeeps s (set_tc t s).
Proof.
  intros (u & Hu & ->)%upd_branch_cell Hf P Hs i. specialize (Hs i). cbn. destruct (decide (i = b)) as [->|].
  - rewrite list_lookup_insert_eq by (by eapply lookup_lt_Some). rewrite Hu in Hs. unfold branch_ok in *. destruct (Hf u) as [-> ->]. done.
  - by rewrite list_lookup_insert_ne by done.
Qed.

(** A new branch. *)
Lemma ckeeps_snoc u s t : uac t = uac (tc s) ++ [u] → local_cancel u = NO_CANCEL → to_cancel u = false → ckeeps s (set_tc t s).
Proof.
  intros Ht Hc Hf P Hs i. specialize (Hs i). cbn. rewrite Ht. destruct (decide (i < length (uac (tc s)))%nat).
  - by rewrite lookup_app_l.
  - rewrite lookup_app_r by lia. rewrite lookup_ge_None_2 in Hs by lia. destruct (i - _)%nat; cbn; [|done]. unfold branch_ok in *. rewrite Hc. naive_solver.
Qed.

(** ** The set of branches *)

Lemma tst_set_idx bm i j : BRANCH_BM_TST_IDX (BRANCH_BM_SET_IDX bm i) j = BRANCH_BM_TST_IDX bm j || bool_decide (i = j).
Proof.
  unfold BRANCH_BM_TST_IDX, BRANCH_BM_SET_IDX. rewrite Z.lor_spec, Z.shiftl_1_l. f_equal. destruct (decide (i = j)) as [->|].
  - rewrite Z.pow2_bits_true by lia. by rewrite bool_decide_true.
  - rewrite Z.pow2_bits_false by lia. by rewrite bool_decide_false.
Qed.

Lemma which_cancel_loop_spec us : ∀ i bm us' bm', which_cancel_loop i us bm = (us', bm') →
  (∀ k, us' !! k = (λ u, (should_cancel_branch u).2) <$> us !! k) ∧
  (∀ j, BRANCH_BM_TST_IDX bm' j = BRANCH_BM_TST_IDX bm j || (bool_decide (i <= j)%nat && match us !! (j - i)%nat with Some u => (should_cancel_branch u).1 | None => false end)).
Proof.
  induction us as [|u us IH]; intros i bm us' bm'; cbn [which_cancel_loop].
  { intros [= <- <-]. split; [done|]. intros j. cbn. by rewrite andb_false_r, orb_false_r. }
  destruct (should_cancel_branch u) as [c u'] eqn:Eu. destruct (which_cancel_loop (S i) us _) as [us1 bm1] eqn:E. intros [= <- <-].
  apply IH in E as [H1 H2]. split.
  - intros [|k]; cbn; [by rewrite Eu|apply H1].
  - intros j. rewrite H2. destruct (decide (i = j)) as [->|Hne].
    + rewrite (bool_decide_false (S j <= j)%nat), (bool_decide_true (j <= j)%nat) by lia. rewrite Nat.sub_diag. cbn. rewrite Eu. cbn. rewrite orb_false_r.
      destruct c; [|by rewrite orb_false_r]. rewrite tst_set_idx. by rewrite bool_decide_true.
    + assert (Hb : BRANCH_BM_TST_IDX (if c then BRANCH_BM_SET_IDX bm i else bm) j = BRANCH_BM_TST_IDX bm j).
      { destruct c; [|done]. rewrite tst_set_idx, bool_decide_false by done. by rewrite orb_false_r. }
      rewrite Hb. f_equal. destruct (decide (S i <= j)%nat).
      * rewrite !bool_decide_true by lia. cbn. by replace (j - i)%nat with (S (j - S i)) by lia.
      * rewrite !bool_decide_false by lia. done.
Qed.

Lemma which_cancel_spec t t' bm : which_cancel t 0 = (t', bm) →
  ∀ j, uac t' !! j = (λ u, if bool_decide (first_branch t <= j)%nat then (should_cancel_branch u).2 else u) <$> uac t !! j ∧
  BRANCH_BM_TST_IDX bm j = bool_decide (first_branch t <= j)%nat && match uac t !! j with Some u => (should_cancel_branch u).1 | None => false end.
Proof.
  unfold which_cancel. destruct (which_cancel_loop _ _ 0) as [us b] eqn:E. intros [= <- <-] j. apply which_cancel_loop_spec in E as [H1 H2].
  rewrite H2. cbn. rewrite lookup_drop. set (n := first_branch t) in *.
  change (BRANCH_BM_TST_IDX 0 j) with (Z.testbit 0 (Z.of_nat j)). rewrite Z.bits_0. cbn. destruct (decide (n <= j)%nat) as [Hj|Hj].
  - rewrite bool_decide_true by done. replace (n + (j - n))%nat with j by lia. split; [|done]. cbn.
    destruct (decide (length (uac t) < n)%nat) as [Hn|Hn].
    { rewrite take_ge by lia. rewrite (lookup_ge_None_2 (uac t)) by lia. cbn. rewrite lookup_app_r by lia. rewrite H1, lookup_drop, lookup_ge_None_2 by lia. done. }
    rewrite lookup_app_r by (rewrite length_take; lia). rewrite length_take, Nat.min_l by lia. rewrite H1, lookup_drop. by replace (n + (j - n))%nat with j by lia.
  - rewrite bool_decide_false by done. cbn. split; [|done]. destruct (decide (j < length (uac t))%nat).
    + rewrite lookup_app_l by (rewrite length_take; lia). rewrite lookup_take_lt by lia. by destruct (uac t !! j).
    + rewrite lookup_app_r by (rewrite length_take; lia). rewrite H1, lookup_drop. rewrite !lookup_ge_None_2 by (rewrite ?length_take; lia). done.
Qed.

(** Marking the branches adds them to the pending ones. *)
Lemma which_cancel_cinv P s t t' bm : which_cancel t 0 = (t', bm) → cinv P (set_tc t s) →
  cinv (λ i, P i || BRANCH_BM_TST_IDX bm i) (set_tc t' s) ∧ ∀ i, BRANCH_BM_TST_IDX bm i = true → P i = false.
Proof.
  intros Hw Hs. pose proof (which_cancel_spec _ _ _ Hw) as Hspec.
  assert (Hall : ∀ i, branch_ok (uac t' !! i) (ncancel i (out s)) (P i || BRANCH_BM_TST_IDX bm i) ∧ (BRANCH_BM_TST_IDX bm i = true → P i = false)).
  { intros i. specialize (Hs i). cbn in Hs. destruct (Hspec i) as [Hu Hb]. rewrite Hu, Hb. clear Hu Hb.
    destruct (uac t !! i) as [u|]; [|rewrite andb_false_r, orb_false_r; done]. cbn. destruct (bool_decide _); cbn; [|by rewrite orb_false_r].
    unfold should_cancel_branch. destruct (local_cancel u) eqn:El; cbn in *; rewrite ?El in *.
    - destruct Hs as (Hn & Hc & Hp). rewrite Hp. destruct (_ && _); cbn; [|by rewrite El]. done.
    - rewrite orb_false_r. done.
    - rewrite orb_false_r. done. }
  split; intros i; apply Hall.
Qed.

Section cancels.
Context (cfg : tm_cfg) (e : env).

(** What [cancel_uacs] does to branch [i]. *)
Definition cancel_one (bm : Z) (i : nat) (u : ua_client) : ua_client * list act :=
  if BRANCH_BM_TST_IDX bm i then
    if negb (last_received u =? 0) then cancel_branch e i u else (set_u_flags (Z.lor (u_flags u) T_UAC_TO_CANCEL_FLAG) u, [])
  else (u, []).

Lemma ncancel_one bm i j u : ncancel j (cancel_one bm i u).2 = if decide (i = j) then ncancel i (cancel_one bm i u).2 else 0%nat.
Proof.
  unfold cancel_one, cancel_branch. case_decide as Hd; [by subst|]. repeat case_match; try done. unfold ncancel. cbn. rewrite decide_False by congruence. done.
Qed.

Lemma cancel_uacs_loop_spec bm us : ∀ i us' a, cancel_uacs_loop e i us bm = (us', a) →
  (∀ k, us' !! k = (λ u, (cancel_one bm (i + k) u).1) <$> us !! k) ∧
  (∀ j, ncancel j a = if bool_decide (i <= j)%nat then match us !! (j - i)%nat with Some u => ncancel j (cancel_one bm j u).2 | None => 0%nat end else 0%nat).
Proof.
  induction us as [|u us IH]; intros i us' a; cbn [cancel_uacs_loop].
  { intros [= <- <-]. split; [done|]. intros j. cbn. by destruct (bool_decide _). }
  fold (cancel_one bm i u). destruct (cancel_one bm i u) as [u' a1] eqn:Eu. destruct (cancel_uacs_loop e (S i) us bm) as [us1 a2] eqn:E. intros [= <- <-].
  apply IH in E as [H1 H2]. split.
  - intros [|k]; cbn; [by rewrite Nat.add_0_r, Eu|]. rewrite H1. by replace (S i + k)%nat with (i + S k)%nat by lia.
  - intros j. rewrite ncancel_app, H2. replace a1 with (cancel_one bm i u).2 by (by rewrite Eu). rewrite ncancel_one. destruct (decide (i = j)) as [->|Hne].
    + rewrite bool_decide_false, bool_decide_true by lia. rewrite Nat.sub_diag. cbn. lia.
    + destruct (decide (i < j)%nat).
      * rewrite !bool_decide_true by lia. by replace (j - i)%nat with (S (j - S i)) by lia.
      * by rewrite !bool_decide_false by lia.
Qed.

(** Sending the CANCELs removes them from the pending ones. *)
Lemma to_cancel_lor u : to_cancel (set_u_flags (Z.lor (u_flags u) T_UAC_TO_CANCEL_FLAG) u) = true.
Proof.
  unfold to_cancel, flag. cbn. apply negb_true_iff. apply Z.eqb_neq. intros H0. assert (Hb : Z.testbit (Z.land (Z.lor (u_flags u) 1) 1) 0 = true).
  { rewrite Z.land_spec, Z.lor_spec. cbn. by rewrite orb_true_r. }
  change T_UAC_TO_CANCEL_FLAG with 1 in H0. rewrite H0 in Hb. done.
Qed.

Lemma cancel_uacs_cinv P bm s : cinv (λ i, P i || BRANCH_BM_TST_IDX bm i) s → (∀ i, BRANCH_BM_TST_IDX bm i = true → P i = false) →
  cinv P (cancel_uacs e bm s).
Proof.
  intros Hs Hd. unfold cancel_uacs. destruct (cancel_uacs_loop e 0 _ bm) as [us a] eqn:E. apply cancel_uacs_loop_spec in E as [H1 H2].
  intros i. specialize (Hs i). specialize (Hd i). cbn. rewrite ncancel_app, H1, H2, bool_decide_true, Nat.sub_0_r by lia. cbn.
  destruct (uac (tc s) !! i) as [u|]; cbn; [|destruct Hs as [-> Hp]; apply orb_false_iff in Hp as [-> _]; done].
  unfold cancel_one. destruct (BRANCH_BM_TST_IDX bm i); [|cbn; rewrite orb_false_r in Hs; by rewrite Nat.add_0_r].
  rewrite (Hd eq_refl) in *. cbn [orb] in Hs. unfold branch_ok in Hs. destruct (local_cancel u) eqn:El; [naive_solver| |naive_solver].
  destruct Hs as [Hn Hc]. specialize (Hc eq_refl). assert (Hz : ncancel i [] = 0%nat) by done. destruct (negb _).
  - unfold cancel_branch. destruct (e_cancel e i); cbn; unfold branch_ok.
    + cbn. unfold ncancel. cbn. rewrite decide_True by done. cbn. fold (ncancel i (out s)). rewrite Hn. done.
    + rewrite El. split; [lia|done].
  - cbn. unfold branch_ok. cbn. rewrite El. split; [lia|done].
Qed.

(** The two together. *)
Lemma cancel_now_cinv P s t t' bm s1 : which_cancel t 0 = (t', bm) → cinv P (set_tc t s) → ckeeps (set_tc t' s) s1 → cinv P (cancel_uacs e bm s1).
Proof. intros Hw Hs K. destruct (which_cancel_cinv P s t t' bm Hw Hs) as [Hc Hd]. apply cancel_uacs_cinv; [by apply K|done]. Qed.

Lemma cleanup_acts_ncancel i n : ∀ b, ncancel i (concat ((λ k, [ResetRetr (Request k); ResetFr (Request k)]) <$> seq b n)) = 0%nat.
Proof. induction n as [|n IH]; intros b; cbn; [done|]. apply (IH (S b)). Qed.
Lemma cleanup_ncancel i s : ncancel i (out (cleanup_uac_timers s)) = ncancel i (out s).
Proof. cbn. rewrite ncancel_app, cleanup_acts_ncancel. lia. Qed.
Lemma cleanup_ckeeps s : ckeeps s (cleanup_uac_timers s).
Proof. apply ckeeps_emit. intros i. apply cleanup_acts_ncancel. Qed.

Lemma final_timer_ckeeps code s s' : final_timer code s = Some s' → ckeeps s s'.
Proof.
  unfold final_timer, set_final_timer, put_on_wait. intros Hf. repeat (case_match; simplify_eq; try by apply ckeeps_emit).
  all: destruct (request (tc s)); simplify_eq/=; repeat case_match; by apply ckeeps_emit.
Qed.
Lemma set_final_timer_ckeeps s s' : set_final_timer s = Some s' → ckeeps s s'.
Proof. intros Hs. by apply (final_timer_ckeeps 0). Qed.

Lemma cancel_uacs_none s : ckeeps s (cancel_uacs e 0 s).
Proof.
  intros P Hs. apply cancel_uacs_cinv; [|intros i; change (BRANCH_BM_TST_IDX 0 i) with (Z.testbit 0 (Z.of_nat i)); by rewrite Z.bits_0].
  eapply cinv_weaken; [|exact Hs]. intros i. change (BRANCH_BM_TST_IDX 0 i) with (Z.testbit 0 (Z.of_nat i)). by rewrite Z.bits_0, orb_false_r.
Qed.

(** The end of a failed local reply, with the branches that were marked. *)
Lemma reply_light_error_cinv P s t bm : (is_invite (tc s) = true → (t, bm) = which_cancel (tc s) 0 ∨ (t, bm) = (tc s, 0)) → (is_invite (tc s) = false → t = tc s) →
  ∀ t1, uac t1 = uac t → is_invite t1 = is_invite (tc s) → cinv P s → cinv P (reply_light_error e bm (set_tc t1 s)).
Proof.
  intros Hi Hn t1 Hu Hinv Hs. unfold reply_light_error. change (is_invite (tc (cleanup_uac_timers (set_tc t1 s)))) with (is_invite t1). rewrite Hinv.
  apply ckeeps_emit; [done|]. destruct (is_invite (tc s)).
  - destruct (Hi eq_refl) as [Hw|[= -> ->]].
    + apply (cancel_now_cinv P s (tc s) t bm); [done|by apply (ckeeps_uac (tc s) s)|]. eapply ckeeps_trans; [|apply cleanup_ckeeps]. by apply ckeeps_same.
    + apply cancel_uacs_none, cleanup_ckeeps. by apply ckeeps_uac.
  - apply cleanup_ckeeps. apply ckeeps_uac; [|done]. rewrite Hu. by rewrite Hn.
Qed.

Lemma reply_light_ckeeps code s s' r : _reply_light e code s = Some (s', r) → ckeeps s s'.
Proof.
  unfold _reply_light. destruct (e_build_local e); cbn [negb].
  2:{ destruct (is_invite (tc s)) eqn:Hi.
      - destruct (which_cancel (tc s) 0) as [t bm] eqn:Ew. intros [= <- _] P Hs. pose proof (which_cancel_cell (tc s) 0) as [Ht _]. rewrite Ew in Ht.
        apply (reply_light_error_cinv P s t bm); [by left|by rewrite Hi|done| |done]. cbn in Ht. by rewrite Ht.
      - intros [= <- _] P Hs. by apply (reply_light_error_cinv P s (tc s) 0); [rewrite Hi|..]. }
  destruct (200 <=? uas_status (tc s)).
  { intros [= <- _] P Hs. replace s with (set_tc (tc s) s) by (by destruct s). apply (reply_light_error_cinv P s (tc s) 0); try done. by right. }
  destruct (if is_invite (tc s) && (200 <=? code) then _ else _) as [t bm] eqn:Ew.
  assert (Ht : (is_invite (tc s) = true → (t, bm) = which_cancel (tc s) 0 ∨ (t, bm) = (tc s, 0)) ∧ (is_invite (tc s) = false → t = tc s) ∧ is_invite t = is_invite (tc s)).
  { destruct (is_invite (tc s)) eqn:Hi; cbn [andb] in Ew; [|by simplify_eq]. destruct (200 <=? code); [|simplify_eq; by auto].
    split; [by left|]. split; [done|]. pose proof (which_cancel_cell (tc s) 0) as [Hc _]. rewrite Ew in Hc. cbn in Hc. rewrite Hc. done. }
  destruct Ht as (Ht1 & Ht2 & Hinv). destruct (e_shm_local e); cbn [negb].
  2:{ intros [= <- _] P Hs. by apply (reply_light_error_cinv P s t bm). }
  set (s0 := set_tc (set_relaied (-2) (set_status code t)) s). destruct (if _ && negb _ then _ else _) as [s1|] eqn:E1; [|done]. cbn [mbind option_bind].
  intros [= <- _]. eapply ckeeps_trans; [|by apply ckeeps_emit]. destruct (_ && negb _) eqn:Hc.
  - apply final_timer_ckeeps in E1. eapply ckeeps_trans; [|exact E1]. intros P Hs. change (is_invite (set_status code t)) with (is_invite t). rewrite Hinv.
    destruct (is_invite (tc s)) eqn:Hi.
    + destruct (Ht1 eq_refl) as [Hw|[= -> ->]].
      * apply (cancel_now_cinv P s (tc s) t bm); [done|by apply (ckeeps_uac (tc s) s)|]. eapply ckeeps_trans; [|apply cleanup_ckeeps]. by apply ckeeps_same.
      * apply cancel_uacs_none, cleanup_ckeeps. by apply ckeeps_uac.
    + apply cleanup_ckeeps. unfold s0. rewrite (Ht2 eq_refl). by apply ckeeps_uac.
  - injection E1 as <-. intros P Hs. destruct (is_invite (tc s)) eqn:Hi; [|unfold s0; rewrite (Ht2 eq_refl); by apply ckeeps_uac].
    destruct (Ht1 eq_refl) as [Hw|[= -> ->]]; [|by apply ckeeps_uac].
    symmetry in Hw. destruct (which_cancel_cinv P s (tc s) t bm Hw) as [Hci _]; [by apply (ckeeps_uac (tc s) s)|].
    apply (cinv_weaken (λ i, P i || BRANCH_BM_TST_IDX bm i)); [by intros i ->|]. by apply (ckeeps_same (set_tc t s)).
Qed.

Lemma reply_ckeeps code s s' r : _reply e code s = Some (s', r) → ckeeps s s'.
Proof.
  unfold _reply. destruct (request (tc s)); [|done]. cbn. intros Hr%reply_light_ckeeps. eapply ckeeps_trans; [|exact Hr]. apply ckeeps_same; by case_match.
Qed.

Lemma add_uacs_ckeeps ds : ∀ t s, ckeeps (set_tc t s) (set_tc (add_uacs ds t).1 s).
Proof.
  induction ds as [|d ds IH]; intros t s; cbn [add_uacs]; [done|]. unfold add_uac.
  destruct (_ && _); match goal with |- context [add_uacs ds ?t'] => specialize (IH t' s); destruct (add_uacs ds t') end; [|done].
  eapply ckeeps_trans; [|exact IH]. by eapply (ckeeps_snoc _ (set_tc t s)).
Qed.

Lemma send_uacs_ckeeps l : ∀ s n s' n', send_uacs l s n = Some (s', n') → ckeeps s s'.
Proof.
  induction l as [|[b ok] l IH]; intros s n s' n'; cbn [send_uacs]; [by intros [= <- _]|]. destruct ok.
  - intros K%IH. eapply ckeeps_trans; [|exact K]. eapply ckeeps_trans; [by apply (ckeeps_emit [SendRequest b; StartRetr (Request b)])|]. by apply ckeeps_same.
  - destruct (upd_branch b _ (tc s)) as [t|] eqn:E; [|done]. cbn. intros K%IH. eapply ckeeps_trans; [|exact K]. by eapply ckeeps_upd.
Qed.

Lemma forward_ckeeps ds reset s s' r : t_forward_nonack e ds reset s = Some (s', r) → ckeeps s s'.
Proof.
  unfold t_forward_nonack. destruct (request (tc s)); [|done]. cbn [mbind option_bind]. destruct (no_new_branches (tc s)); [by intros [= <- _]|]. destruct (was_cancelled (tc s)).
  { destruct (_ =? 0)%nat; [|by intros [= <- _]]. destruct (_reply e 487 s) as [[s1 r1]|] eqn:E; [|done]. cbn. intros [= <- _]. by eapply reply_ckeeps. }
  match goal with |- context [add_uacs ds ?t] => set (t0 := t) end.
  assert (K0 : ckeeps s (set_tc t0 s)) by (apply ckeeps_uac; unfold t0; by destruct reset).
  pose proof (add_uacs_ckeeps ds t0 s) as K1. destruct (add_uacs ds t0) as [t1 l]. cbn [fst] in K1. intros Hr. eapply ckeeps_trans; [exact K0|].
  destruct l; [by injection Hr as <- _|]. destruct (send_uacs _ _ 0) as [[s1 n]|] eqn:E; [|done]. cbn in Hr. injection Hr as <- _.
  eapply ckeeps_trans; [exact K1|]. by eapply send_uacs_ckeeps.
Qed.

Lemma run_op_ckeeps o s s' : run_op e o s = Some s' → ckeeps s s'.
Proof.
  destruct o; cbn [run_op].
  - destruct (_reply e code s) as [[s1 r]|] eqn:E; [|done]. intros [= <-]. by eapply reply_ckeeps.
  - destruct (t_forward_nonack e ds true s) as [[s1 r]|] eqn:E; [|done]. intros [= <-]. by eapply forward_ckeeps.
  - intros [= <-]. by apply ckeeps_uac.
  - intros [= <-]. unfold add_phony_uac. destruct (_ || _); [done|]. cbn [fst].
    set (s1 := set_tc _ s). apply (ckeeps_trans _ s1); [by eapply ckeeps_snoc|].
    apply (ckeeps_trans _ (emit [SetFrInv (nr_of_outgoings (tc s))] s1)); [by apply ckeeps_emit|by apply ckeeps_same].
Qed.

Lemma run_ops_ckeeps l : ∀ s s', run_ops e l s = Some s' → ckeeps s s'.
Proof.
  induction l as [|o l IH]; intros s s'; cbn [run_ops]; [by intros [= <-]|]. destruct (run_op e o s) as [s1|] eqn:E; [|done]. cbn.
  intros Hs. eapply ckeeps_trans; [by eapply run_op_ckeeps|by apply IH].
Qed.

Lemma failure_ckeeps s s' : run_failure_handlers e s = Some s' → ckeeps s s'.
Proof.
  unfold run_failure_handlers. destruct (request (tc s)) as [m|]; [|by intros [= <-]]. destruct (m =? _); [by intros [= <-]|].
  destruct (_ && _); [by intros [= <-]|]. destruct (negb _); [by intros [= <-]|].
  destruct (if on_failure (tc s) then _ else _) as [s1|] eqn:E; [|done]. cbn. intros Hs. apply (ckeeps_trans _ s1).
  { destruct (on_failure (tc s)); [by eapply run_ops_ckeeps|by simplify_eq]. }
  destruct (_ && _); [|by simplify_eq]. apply run_ops_ckeeps in Hs. eapply ckeeps_trans; [|exact Hs]. by apply ckeeps_uac.
Qed.

Lemma dns_ckeeps s s' b : do_dns_failover e s = Some (s', b) → ckeeps s s'.
Proof.
  unfold do_dns_failover. destruct (e_dns e) as [d|]; [|by intros [= <- _]]. destruct (match request (tc s) with None => _ | m => m end) as [m|]; [|by intros [= <- _]].
  assert (Hc : ckeeps s (set_tc (set_request (Some m) (tc s)) s)) by (by apply ckeeps_uac).
  destruct (e_fake_req e); [|by intros [= <- _]]. cbn [negb].
  destruct (t_forward_nonack _ _ _ _) as [[s1 r]|] eqn:E; [|done]. cbn. intros [= <- _].
  eapply ckeeps_trans; [exact Hc|by eapply forward_ckeeps].
Qed.

Lemma all_final_ckeeps branch picked bm s v s' : all_final e branch picked bm s = Some (v, s') → ckeeps s s' ∧ v_cancel v = bm.
Proof.
  unfold all_final. destruct (TM_BRANCH _ picked) as [u|]; [|done]. cbn [mbind option_bind].
  destruct (if _ && _ then _ else _) as [[s1 n]|] eqn:E1; [|done]. cbn [mbind option_bind].
  assert (K1 : ckeeps s s1).
  { eapply (ckeeps_trans _ (reset_kr s)); [by apply ckeeps_same|]. destruct (_ && _); [|by simplify_eq].
    destruct (do_dns_failover e (reset_kr s)) as [[s2 ok]|] eqn:E; [|done]. cbn in E1. simplify_eq. by apply dns_ckeeps in E. }
  clear E1. destruct (if _ && _ then _ else _) as [s2|] eqn:E2; [|done]. cbn [mbind option_bind].
  assert (K2 : ckeeps s1 s2) by (destruct (_ && _); [by apply failure_ckeeps|by simplify_eq]). clear E2.
  destruct (upd_branch branch _ (tc s2)) as [t|] eqn:E3; [|done]. cbn [mbind option_bind]. intros Hv.
  assert (K : ckeeps s (set_tc t s2)) by (eapply ckeeps_trans; [exact K1|]; eapply ckeeps_trans; [exact K2|]; by eapply ckeeps_upd).
  destruct (200 <=? uas_status t); [by injection Hv as <- <-|]. destruct (_ && _); by injection Hv as <- <-.
Qed.

(** Nothing is pending, or the branches of a set. *)
Abbreviation settled := (cinv (λ _, false)).
Abbreviation pending bm := (cinv (BRANCH_BM_TST_IDX bm)).

Lemma pending_0 s : settled s → pending 0 s.
Proof. apply cinv_weaken. intros i. change (BRANCH_BM_TST_IDX 0 i) with (Z.testbit 0 (Z.of_nat i)). by rewrite Z.bits_0. Qed.
Lemma pending_settled bm s : pending bm s → settled s.
Proof. by apply cinv_weaken. Qed.
Lemma mark_pending s t t' bm : which_cancel t 0 = (t', bm) → settled (set_tc t s) → pending bm (set_tc t' s).
Proof. intros Hw Hs. by destruct (which_cancel_cinv _ s t t' bm Hw Hs). Qed.
Lemma send_pending bm s : pending bm s → settled (cancel_uacs e bm s).
Proof. intros Hs. by apply cancel_uacs_cinv. Qed.

Lemma upd_settled b f s t P : upd_branch b f (tc s) = Some t → (∀ u, local_cancel (f u) = local_cancel u ∧ to_cancel (f u) = to_cancel u) →
  cinv P s → cinv P (set_tc t s).
Proof. intros Hu Hf. by eapply ckeeps_upd. Qed.

Lemma negative_pending code branch reply s v s' : negative_reply cfg e code branch reply s = Some (v, s') → settled s → pending (v_cancel v) s'.
Proof.
  unfold negative_reply. destruct (upd_branch branch _ (tc s)) as [t|] eqn:Eu; [|done]. cbn [mbind option_bind]. intros Hv Hs.
  assert (Ht : settled (set_tc t s)) by (by eapply upd_settled). revert Hv. destruct (_ && _).
  { destruct (which_cancel t 0) as [t1 bm] eqn:Ew. intros [K ->]%all_final_ckeeps. apply K. apply (ckeeps_same (set_tc t1 s)); [done|done|]. by eapply mark_pending. }
  destruct (t_pick_branch cfg t) as [picked do_cancel]. destruct (picked =? -2); [|destruct (picked =? -1)].
  - destruct (upd_branch branch _ t) as [t1|] eqn:E; [|done]. intros [= <- <-]. apply pending_0. by eapply (upd_settled _ _ (set_tc t s)) in E.
  - destruct (upd_branch branch _ t) as [t1|] eqn:E; [|done]. intros [= <- <-]. apply pending_0. by eapply (upd_settled _ _ (set_tc t s)) in E.
  - intros [K ->]%all_final_ckeeps. apply K, pending_0. destruct do_cancel; [|done]. destruct (which_cancel t 0) as [t1 bm] eqn:Ew.
    eapply cancel_now_cinv; [exact Ew|exact Ht|]. eapply ckeeps_trans; [|apply cleanup_ckeeps]. by apply ckeeps_same.
Qed.

Lemma positive_pending code branch s v s' : positive_reply code branch s = Some (v, s') → settled s → pending (v_cancel v) s'.
Proof.
  unfold positive_reply. destruct (upd_branch branch _ (tc s)) as [t|] eqn:Eu; [|done]. cbn [mbind option_bind]. intros Hv Hs.
  assert (Ht : settled (set_tc t s)) by (by eapply upd_settled). revert Hv. destruct (200 <=? code); [|intros [= <- <-]; by apply pending_0].
  destruct (flag _ _); [intros [= <- <-]; by apply pending_0|]. destruct (which_cancel t 0) as [t1 bm] eqn:Ew. intros [= <- <-]. by eapply mark_pending.
Qed.

Lemma should_relay_pending code branch reply s v s' : t_should_relay_response cfg e code branch reply s = Some (v, s') → settled s → pending (v_cancel v) s'.
Proof.
  unfold t_should_relay_response, discard. destruct (TM_BRANCH (tc s) branch) as [u|]; [|done]. cbn [mbind option_bind]. intros Hv Hs.
  assert (Hup : ∀ t, upd_branch branch (set_last_received code) (tc s) = Some t → pending 0 (set_tc t s)) by (intros t E; apply pending_0; by eapply upd_settled).
  apply pending_0 in Hs as H0. revert Hv.
  destruct (_ && (uas_status (tc s) <? 300)).
  { destruct (upd_branch branch _ (tc s)) as [t|] eqn:E; [|done]. cbn [mbind option_bind]. destruct (300 <=? code); intros [= <- <-]; by apply Hup. }
  destruct (200 <=? uas_status (tc s)).
  - destruct (_ && is_invite (tc s)); [|destruct (_ && (200 <=? code)); by intros [= <- <-]].
    destruct (upd_branch branch _ (tc s)) as [t|] eqn:E; [|done]. intros [= <- <-]. by apply Hup.
  - destruct (_ && negb _); [by intros [= <- <-]|]. destruct (300 <=? code); [intros Hn; by eapply negative_pending|].
    destruct (100 <=? code); [intros Hn; by eapply positive_pending|by intros [= <- <-]].
Qed.

Lemma store_ckeeps branch rpl s s' b : store_reply e branch rpl s = Some (s', b) → ckeeps s s'.
Proof.
  unfold store_reply. destruct (upd_branch branch _ (tc s)) as [t|] eqn:E; [|done]. intros [= <- _]. by eapply ckeeps_upd.
Qed.

Lemma relay_error_settled bm s r s' : relay_error e bm s = Some (r, s') → pending bm s → settled s'.
Proof.
  unfold relay_error. destruct (_reply e 500 s) as [[s1 r1]|] eqn:E; [|done]. cbn. intros [= _ <-] Hs. apply (reply_ckeeps _ _ _ _ E) in Hs.
  destruct (is_invite (tc s1)); [by apply send_pending|by apply pending_settled in Hs].
Qed.

Lemma relay_reply_pending branch p_msg status s r bm s' : relay_reply cfg e branch p_msg status s = Some (r, bm, s') → settled s →
  settled s' ∧ (r ≠ RPS_ERROR → pending bm s').
Proof.
  unfold relay_reply. destruct (t_should_relay_response _ _ _ _ _ s) as [[v s1]|] eqn:E; [|done]. cbn [mbind option_bind]. intros Hr Hs.
  apply should_relay_pending in E; [|done]. revert Hr. destruct (if should_store v then _ else _) as [[s2 stored]|] eqn:Est; [|done]. cbn [mbind option_bind].
  assert (H2 : pending (v_cancel v) s2) by (destruct (should_store v); [by eapply store_ckeeps|by simplify_eq]). clear Est.
  assert (Hend : ∀ s3 r', ckeeps s2 s3 → Some (r', v_cancel v, s3) = Some (r, bm, s') → settled s' ∧ (r ≠ RPS_ERROR → pending bm s')).
  { intros s3 r' K [= _ <- <-]. apply K in H2. split; [by apply pending_settled in H2|done]. }
  assert (Herr : ∀ s3 x, ckeeps s2 s3 → relay_error e (v_cancel v) s3 = x → ('(r, s) ← x; Some (r, v_cancel v, s)) = Some (r, bm, s') → settled s' ∧ (r ≠ RPS_ERROR → pending bm s')).
  { intros s3 x K Ee. destruct x as [[r1 s4]|]; [|done]. cbn. intros [= -> _ <-]. apply K in H2. pose proof (relay_error_settled _ _ _ _ Ee H2) as H4.
    split; [done|]. unfold relay_error in Ee. destruct (_reply e 500 s3) as [[? ?]|]; [|done]. cbn in Ee. by simplify_eq. }
  destruct stored; cbn [negb]; [|by eapply Herr].
  destruct (0 <=? should_relay v).
  2:{ destruct (match v_rps v with RPS_COMPLETED => _ | _ => _ end) as [s3|] eqn:Ef; [|done]. cbn. apply Hend.
      destruct (v_rps v); simplify_eq; try done. by apply set_final_timer_ckeeps. }
  set (s3 := set_tc (set_relaied (should_relay v) (tc s2)) s2). assert (K3 : ckeeps s2 s3) by (by apply ckeeps_uac).
  destruct (TM_BRANCH (tc s3) _) as [u|]; [|done]. cbn [mbind option_bind].
  destruct (if (branch =? _)%nat then _ else _) as [code|]; [|done]. cbn [mbind option_bind]. destruct (negb _).
  { destruct (if should_store v then _ else _) as [s4|] eqn:E4; [|done]. cbn [mbind option_bind]. eapply Herr; [|done]. eapply ckeeps_trans; [exact K3|].
    destruct (should_store v); [|by simplify_eq]. destruct (upd_branch branch _ (tc s3)) as [t4|] eqn:E'; [|done]. cbn in E4. simplify_eq. by eapply ckeeps_upd. }
  destruct (match v_rps v with RPS_COMPLETED => _ | _ => _ end) as [s4|] eqn:E4; [|done]. cbn [mbind option_bind]. apply Hend.
  eapply ckeeps_trans; [|by apply ckeeps_emit]. eapply (ckeeps_trans _ (set_tc (set_status code (tc s3)) s3)); [by apply ckeeps_same|].
  destruct (v_rps v); simplify_eq; try done. by apply final_timer_ckeeps in E4.
Qed.

(** The same with branches that are already pending. *)
Lemma which_cancel_more t bm : ∃ bm', (which_cancel t bm).1 = (which_cancel t 0).1 ∧ which_cancel t 0 = ((which_cancel t 0).1, bm') ∧
  ∀ i, BRANCH_BM_TST_IDX (which_cancel t bm).2 i = BRANCH_BM_TST_IDX bm i || BRANCH_BM_TST_IDX bm' i.
Proof.
  exists (which_cancel t 0).2. split_and!; [| |].
  - unfold which_cancel. set (us := drop _ _). destruct (which_cancel_loop _ us bm) as [u1 b1] eqn:E1, (which_cancel_loop _ us 0) as [u2 b2] eqn:E2.
    apply which_cancel_loop_spec in E1 as [H1 _]. apply which_cancel_loop_spec in E2 as [H2 _]. cbn. do 2 f_equal. apply list_eq. intros k. by rewrite H1, H2.
  - by destruct (which_cancel t 0).
  - unfold which_cancel. set (us := drop _ _). destruct (which_cancel_loop _ us bm) as [u1 b1] eqn:E1, (which_cancel_loop _ us 0) as [u2 b2] eqn:E2.
    apply which_cancel_loop_spec in E1 as [_ H1]. apply which_cancel_loop_spec in E2 as [_ H2]. cbn. intros i. rewrite H1, H2.
    change (BRANCH_BM_TST_IDX 0 i) with (Z.testbit 0 (Z.of_nat i)). by rewrite Z.bits_0.
Qed.

Lemma local_reply_pending branch p_msg status cseq s r bm s' : local_reply cfg e branch p_msg status cseq s = Some (r, bm, s') → settled s →
  settled s' ∧ (r ≠ RPS_ERROR → pending bm s').
Proof.
  unfold local_reply. destruct (t_should_relay_response _ _ _ _ _ s) as [[v s1]|] eqn:E; [|done]. cbn [mbind option_bind]. intros Hr Hs.
  apply should_relay_pending in E; [|done]. revert Hr. destruct (if should_store v then _ else _) as [[s2 stored]|] eqn:Est; [|done]. cbn [mbind option_bind].
  assert (H2 : pending (v_cancel v) s2) by (destruct (should_store v); [by eapply store_ckeeps|by simplify_eq]). clear Est.
  assert (Hend : ∀ s3 r', ckeeps s2 s3 → Some (r', v_cancel v, s3) = Some (r, bm, s') → settled s' ∧ (r ≠ RPS_ERROR → pending bm s')).
  { intros s3 r' K [= _ <- <-]. apply K in H2. split; [by apply pending_settled in H2|done]. }
  destruct stored; cbn [negb].
  2:{ destruct (which_cancel_more (tc s2) (v_cancel v)) as (bm' & Hc & Hw & Hb). destruct (which_cancel (tc s2) (v_cancel v)) as [t b]. cbn in Hc, Hb. subst t.
      intros [= <- <- <-]. split; [|done]. destruct (which_cancel_cinv (BRANCH_BM_TST_IDX (v_cancel v)) s2 _ _ _ Hw) as [Hci Hd]; [by apply (ckeeps_uac (tc s2) s2)|].
      set (t := (which_cancel (tc s2) 0).1) in *. set (s3 := set_tc t s2) in *.
      assert (H3 : pending b s3) by (eapply cinv_weaken; [|exact Hci]; intros i; by rewrite Hb).
      apply ckeeps_emit; [done|]. destruct (_ =? _).
      - apply send_pending. by apply cleanup_ckeeps.
      - apply cleanup_ckeeps. by apply pending_settled in H3. }
  destruct (0 <=? should_relay v); [|by apply Hend]. destruct (TM_BRANCH (tc s2) _) as [u|]; [|done]. cbn [mbind option_bind].
  destruct (if (branch =? _)%nat then _ else _) as [code|]; [|done]. cbn [mbind option_bind]. apply Hend. by apply ckeeps_uac.
Qed.

Lemma to_cancel_clear fl u : to_cancel (set_u_flags (Z.land fl (Z.lnot T_UAC_TO_CANCEL_FLAG)) u) = false.
Proof.
  unfold to_cancel, flag, T_UAC_TO_CANCEL_FLAG. cbn. apply negb_false_iff, Z.eqb_eq. rewrite <- Z.land_assoc. change (Z.land (-2) 1) with 0. apply Z.land_0_r.
Qed.

Lemma process_settled branch status p_msg last cseq s s' : process_reply_and_timer cfg e branch status p_msg last cseq s = Some s' → settled s → settled s'.
Proof.
  unfold process_reply_and_timer. destruct (TM_BRANCH (tc s) branch) as [u|] eqn:Eb; [|done]. cbn [mbind option_bind].
  destruct (if _ || _ then _ else _) as [s1|] eqn:E1; [|done]. cbn [mbind option_bind]. intros Hp Hs.
  assert (H1 : settled s1).
  { destruct (_ || _) eqn:Hc; [|by simplify_eq]. fold (to_cancel u) in Hc.
    destruct (if status <? 200 then _ else _) as [u' a] eqn:Ea. destruct (upd_branch branch _ (tc s)) as [t|] eqn:E; [|done]. cbn in E1. injection E1 as <-.
    apply upd_branch_cell in E as (u0 & Hu0 & ->). unfold TM_BRANCH in Eb. rewrite Eb in Hu0. injection Hu0 as <-.
    intros i. specialize (Hs i). cbn. rewrite ncancel_app. destruct (decide (i = branch)) as [->|Hne].
    2:{ rewrite list_lookup_insert_ne by done. replace (ncancel i a) with 0%nat; [by rewrite Nat.add_0_r|].
        destruct (status <? 200); [|by simplify_eq]. unfold cancel_branch in Ea. destruct (e_cancel e branch); simplify_eq; [|done].
        unfold ncancel. cbn. by rewrite decide_False. }
    rewrite list_lookup_insert_eq by (by eapply lookup_lt_Some). rewrite Eb in Hs. unfold branch_ok in *. rewrite to_cancel_clear.
    assert (Hl : ncancel branch (out s) = 0%nat ∧ local_cancel u ≠ CancelBuf) by (destruct (local_cancel u); [by destruct Hs|by destruct Hs|]; destruct Hs as (_ & Hf & _); rewrite Hf, andb_false_r in Hc; done). destruct Hl as [Hn Hl].
    destruct (status <? 200); [unfold cancel_branch in Ea; destruct (e_cancel e branch)|]; injection Ea as <- <-; cbn.
    - rewrite Hn. unfold ncancel. cbn. by rewrite decide_True.
    - rewrite Hn. by destruct (local_cancel u).
    - rewrite Hn. by destruct (local_cancel u). }
  clear E1. revert Hp. destruct (if is_local (tc s) then _ else _) as [[[r bm] s2]|] eqn:E2; [|done]. cbn [mbind option_bind]. intros [= <-].
  assert (H2 : settled s2 ∧ (r ≠ RPS_ERROR → pending bm s2)).
  { destruct (is_local (tc s)); [by eapply local_reply_pending|by eapply relay_reply_pending]. }
  destruct H2 as [H2 H2']. destruct r; try done.
  - assert (H3 : settled (if is_invite (tc s) then cancel_uacs e bm (cleanup_uac_timers s2) else cleanup_uac_timers s2)).
    { destruct (is_invite (tc s)); [apply send_pending; apply cleanup_ckeeps; by apply H2'|by apply cleanup_ckeeps]. }
    destruct (is_local (tc s)); [by apply ckeeps_emit|done].
  - destruct (_ && _); [|done]. apply ckeeps_emit; [by destruct (is_invite (tc s))|done].
Qed.

(** That a reply came does not change the other flags of a branch. *)
Lemma flag_recv fl m : m = T_UAC_TO_CANCEL_FLAG ∨ m = T_UAC_IS_PHONY → flag (Z.lor fl T_UAC_HAS_RECV_REPLY) m = flag fl m.
Proof. intros Hm. unfold flag. rewrite Z.land_lor_distr_l. f_equal. f_equal. destruct Hm as [->| ->]; apply Z.lor_0_r. Qed.

Lemma reply_received_settled branch status cseq drop acked s s' : reply_received cfg e branch status cseq drop acked s = Some s' → settled s → settled s'.
Proof.
  unfold reply_received. destruct (TM_BRANCH (tc s) branch) as [u|]; [|done]. cbn [mbind option_bind]. intros Hr Hs. revert Hr.
  destruct (_ && is_invite _); [intros [= <-]; apply ckeeps_emit; [by destruct (200 <=? status)|done]|].
  match goal with |- context [emit ?a s] => set (s1 := emit a s) end.
  assert (H1 : settled s1) by (apply ckeeps_emit; [by destruct (200 <=? status)|done]).
  match goal with |- context [if _ && acked then ?a else ?b] => set (s2 := if _ && acked then a else b) end.
  assert (H2 : settled s2) by (unfold s2; destruct (_ && acked); [by apply ckeeps_emit|done]).
  destruct (drop && _); [by intros [= <-]|].
  destruct (upd_branch branch _ (tc s2)) as [t|] eqn:E; [|done]. cbn [mbind option_bind]. intros Hp. eapply process_settled; [exact Hp|].
  eapply upd_settled; [exact E| |done]. intros u0. destruct (e_reply_flags e); (split; [done|]).
  all: unfold to_cancel; cbn; apply flag_recv; by left.
Qed.

Lemma fake_reply_settled branch code s s' : fake_reply cfg e branch code s = Some s' → settled s → settled s'.
Proof.
  unfold fake_reply. intros Hf Hs. revert Hf. destruct (is_local (tc s)).
  - destruct (local_reply _ _ _ _ _ _ s) as [[[r bm] s1]|] eqn:E; [|done]. cbn. intros [= <-]. apply local_reply_pending in E as [H1 _]; [|done].
    destruct r; try done. by apply ckeeps_emit.
  - destruct (relay_reply _ _ _ _ _ s) as [[[r bm] s1]|] eqn:E; [|done]. cbn. intros [= <-]. by apply relay_reply_pending in E as [H1 _].
Qed.

(** One branch that is marked and given to [cancel_uacs]. *)
Lemma timeout_settled rb s s' : final_response_handler cfg e rb s = Some s' → settled s → settled s'.
Proof.
  unfold final_response_handler. intros Hf Hs. assert (H1 : settled (emit [ResetRetr rb] s)) by (by apply ckeeps_emit). revert Hf H1.
  generalize (emit [ResetRetr rb] s). clear s Hs. intros s Hf Hs. revert Hf. destruct rb as [|b|b]; [intros [= <-]; by apply ckeeps_emit| |by intros [= <-]].
  destruct (TM_BRANCH (tc s) b) as [u|] eqn:Eb; [|done]. cbn [mbind option_bind].
  destruct (if is_invite (tc s) then _ else _) as [s2|] eqn:E; [|done]. cbn [mbind option_bind]. intros Hf. eapply fake_reply_settled; [exact Hf|].
  destruct (is_invite (tc s)); [|by simplify_eq]. destruct (should_cancel_branch u) as [c u'] eqn:Ec. destruct (upd_branch b _ (tc s)) as [t|] eqn:Et; [|done].
  cbn in E. injection E as <-. destruct c; [|done]. apply send_pending. apply upd_branch_cell in Et as (u0 & Hu0 & ->).
  unfold TM_BRANCH in Eb. rewrite Eb in Hu0. injection Hu0 as <-. intros i. specialize (Hs i). cbn. rewrite tst_set_idx.
  change (BRANCH_BM_TST_IDX 0 i) with (Z.testbit 0 (Z.of_nat i)). rewrite Z.bits_0. cbn. destruct (decide (i = b)) as [->|Hne].
  - rewrite bool_decide_true by done. rewrite list_lookup_insert_eq by (by eapply lookup_lt_Some). rewrite Eb in Hs.
    unfold should_cancel_branch in Ec. unfold branch_ok in *. destruct (local_cancel u); [|done|done]. destruct (_ && _); [|done]. injection Ec as <-. destruct Hs as (? & ? & _). by split.
  - rewrite bool_decide_false by done. by rewrite list_lookup_insert_ne.
Qed.

Lemma cancel_invite_settled s s' : cancel_invite cfg e s = Some s' → settled s → settled s'.
Proof.
  unfold cancel_invite. set (t0 := set_t_flags _ (tc s)). destruct (which_cancel t0 0) as [t bm] eqn:Ew. intros Hc Hs. revert Hc.
  assert (H1 : settled (cancel_uacs e bm (set_tc t s))).
  { apply send_pending. eapply mark_pending; [exact Ew|]. by apply ckeeps_uac. }
  revert H1. generalize (cancel_uacs e bm (set_tc t s)). intros s1 H1.
  destruct (drop _ _) as [|u [|]]; [by intros [= <-]| |by intros [= <-]]. destruct (is_phony u); [|by intros [= <-]].
  destruct (relay_reply _ _ _ _ _ s1) as [[[r b] s2]|] eqn:E; [|done]. cbn. intros [= <-]. by apply relay_reply_pending in E as [? _].
Qed.

Lemma step_settled ev s s' : tm_step cfg e ev s = Some s' → settled s → settled s'.
Proof.
  destruct ev; cbn [tm_step].
  - apply reply_received_settled.
  - apply timeout_settled.
  - destruct (_reply e code s) as [[s1 r]|] eqn:E; [|done]. intros [= <-]. by eapply reply_ckeeps.
  - destruct (t_forward_nonack e ds false s) as [[s1 r]|] eqn:E; [|done]. intros [= <-]. by eapply forward_ckeeps.
  - apply cancel_invite_settled.
  - intros Hs. by apply (run_op_ckeeps (Do_t_wait_for_new_branches fl)).
Qed.
End cancels.

Lemma run_settled cfg l : ∀ s s', tm_run cfg l s = Some s' → cinv (λ _, false) s → cinv (λ _, false) s'.
Proof.
  induction l as [|[e ev] l IH]; intros s s'; cbn [tm_run]; [by intros [= <-]|]. destruct (tm_step cfg e ev s) as [s1|] eqn:E; [|done]. cbn.
  intros Hs H. eapply IH; [exact Hs|]. by eapply step_settled.
Qed.
