(* ===== verification/TmReplySpec.v ===== *)
(** * What a transaction promises

    Two invariants of every run of a transaction ([modules/tm]): the final replies sent upstream
    and the CANCELs sent to the branches. *)

From stdpp Require Import prelude list.
From Stdlib Require Import ZArith Lia.
From S2P Require Import Prelude HdrBodies TmReply TmReplyFacts TmReplyCancel.

(** ** Traces *)

(** A transaction as it is created, before anything was sent for it. *)
Definition fresh (s : tst) : Prop := out s = [] ∧ Forall (λ u, local_cancel u = NO_CANCEL ∧ to_cancel u = false) (uac (tc s)).

(** C19. Whatever the order of replies, timeouts, CANCELs, local replies and new branches, whatever
    the failure routes do and whichever allocation fails: after a final reply was sent upstream
    nothing follows it but, for an INVITE, the 2xx of its branches.  In particular at most one
    final reply of a transaction is negative, and no provisional reply follows a final one. *)
Theorem final_replies_upstream (cfg : tm_cfg) (l : list (env * event)) (s s' : tst) : fresh s → tm_run cfg l s = Some s' →
  legal (is_invite (tc s)) false (sent (out s')) = true ∧ (has_final (sent (out s')) = true → 200 <= uas_status (tc s')).
Proof.
  intros [Ho _] Hr. destruct (run_keeps cfg l s s' Hr) as [Hk Hi]. destruct Hk as [Hl Hf].
  { unfold upstream_ok. by rewrite Ho. }
  by rewrite Hi in Hl.
Qed.

(** C20. Over its life a branch is sent at most one CANCEL, whatever the order of the events of
    [tm_step] (replies, timeouts of the buffers, local replies, forwarding, the CANCEL of the
    request and phony branches, with their failure routes), and exactly one when its buffer holds
    a CANCEL.  Two commands that cancel without the test of [should_cancel_branch], the management
    command t_uac_cancel and the script function t_cancel_branch for the current branch, are not
    among these events; for them it does not hold ([mi_cancel_twice]). *)
Theorem cancel_at_most_once (cfg : tm_cfg) (l : list (env * event)) (s s' : tst) (i : nat) : fresh s → tm_run cfg l s = Some s' →
  (ncancel i (out s') <= 1)%nat ∧ (ncancel i (out s') = 1%nat ↔ ∃ u, uac (tc s') !! i = Some u ∧ local_cancel u = CancelBuf).
Proof.
  intros [Ho Hu] Hr. assert (H0 : cinv (λ _, false) s).
  { intros j. rewrite Ho. destruct (uac (tc s) !! j) as [u|] eqn:E; [|done]. rewrite Forall_lookup in Hu. destruct (Hu j u E) as [Hc Hf]. unfold branch_ok. by rewrite Hc, Hf. }
  specialize (run_settled cfg l s s' Hr H0 i). unfold branch_ok. destruct (uac (tc s') !! i) as [u|]; [|intros [-> _]; split; [lia|split; [lia|by intros (u & ? & _)]]].
  destruct (local_cancel u) eqn:El; intros [-> _]; (split; [lia|]); (split; [try lia|try done]).
  1-2: intros (u' & [= <-] & Hc); congruence.
  intros _. by exists u.
Qed.


(** ** Concrete runs *)

(** An INVITE to three branches: the second one rings and answers, the first one is cancelled
    and the third one rings late. *)
Definition answered_call : list (env * event) := replies METHOD_INVITE [(0%nat, 180); (1%nat, 180); (1%nat, 200); (2%nat, 180); (0%nat, 487); (2%nat, 487)].

Lemma final_replies_upstream_witness : ∃ s', tm_run cfg0 answered_call (forked_to T_IS_INVITE_FLAG METHOD_INVITE [0; 0; 0]) = Some s' ∧
  sent (out s') = [180; 180; 200] ∧ legal true false (sent (out s')) = true.
Proof.
  eexists. split; [vm_compute; reflexivity|]. split; [reflexivity|].
  apply (final_replies_upstream cfg0 answered_call (forked_to T_IS_INVITE_FLAG METHOD_INVITE [0; 0; 0]) _); [split; [done|repeat constructor]|vm_compute; reflexivity].
Defined.

Lemma cancel_at_most_once_witness : ∃ s', tm_run cfg0 answered_call (forked_to T_IS_INVITE_FLAG METHOD_INVITE [0; 0; 0]) = Some s' ∧
  (ncancel 2 (out s') = 1%nat ↔ ∃ u, uac (tc s') !! 2%nat = Some u ∧ local_cancel u = CancelBuf).
Proof.
  eexists. split; [vm_compute; reflexivity|].
  apply (cancel_at_most_once cfg0 answered_call (forked_to T_IS_INVITE_FLAG METHOD_INVITE [0; 0; 0]) _ 2); [split; [done|repeat constructor]|vm_compute; reflexivity].
Defined.

(** The management command t_uac_cancel cancels all branches without [should_cancel_branch]: given
    twice, a second CANCEL is sent and the first one is lost from the buffer. *)
Example mi_cancel_twice : ∃ s', tm_run cfg0 (replies METHOD_INVITE [(0%nat, 180)]) (forked_to T_IS_INVITE_FLAG METHOD_INVITE [0]) = Some s' ∧
  ncancel 0 (out (cancel_uacs env0 (2 ^ 64 - 1) (cancel_uacs env0 (2 ^ 64 - 1) s'))) = 2%nat.
Proof. eexists. split; vm_compute; reflexivity. Qed.

(** With [T_MULTI_200OK_FLAG], a negative answer of the last branch after a 2xx is discarded: every
    branch has its final reply, and the transaction was not put on wait and has no timer. *)
Example multi_200_not_completed :
  ∃ s', tm_run cfg0 (replies METHOD_INVITE [(0%nat, 200); (1%nat, 486)]) (forked_to (Z.lor T_IS_INVITE_FLAG T_MULTI_200OK_FLAG) METHOD_INVITE [0; 0]) = Some s' ∧
    tran_is_completed (tc s') = true ∧ PutOnWait ∉ out s' ∧ StartRetr UasResponse ∉ out s'.
Proof. eexists. split; [vm_compute; reflexivity|]. split; [reflexivity|]. split; apply (bool_decide_unpack _); vm_compute; exact I. Qed.

(** A minor branch of a request that is not an INVITE is sent a CANCEL when the other branches are
    answered. *)
Example minor_branch_cancel_non_invite :
  ∃ s', tm_run cfg0 (replies METHOD_BYE [(1%nat, 100); (0%nat, 404)]) (forked_to 0 METHOD_BYE [0; 1]) = Some s' ∧ ncancel 1 (out s') = 1%nat.
Proof. eexists. split; vm_compute; reflexivity. Qed.
