(* ===== verification/TmPick.v ===== *)
(** * The branch that is picked

    What [t_pick_branch] of [modules/tm/t_reply.c] computes: while a branch is waited for no
    branch is picked, and otherwise the first of the branches with the least priority is. *)

From stdpp Require Import prelude list.
From Stdlib Require Import ZArith Lia.
From S2P Require Import Prelude TmReply.

Section pick.
Context (cfg : tm_cfg) (t : cell).

(** A branch that counts, and one that is waited for. *)
Definition counts (u : ua_client) : bool := negb (skip_phony t u) && u_buffer u.
Definition waited (u : ua_client) : bool := counts u && (last_received u <? 200) && negb (flag (br_flags u) (minor_branch_flag cfg)).
Definition final_branch (u : ua_client) : bool := counts u && negb (last_received u <? 200).
Definition prio (u : ua_client) : Z := branch_prio (last_received u) (was_cancelled t).

(** The best branch so far. *)
Definition best (us : list ua_client) (b : nat) : Prop :=
  ∃ u, us !! b = Some u ∧ final_branch u = true ∧
    ∀ j u', us !! j = Some u' → final_branch u' = true → prio u <= prio u' ∧ ((j < b)%nat → prio u < prio u').

Definition best_or_none (us : list ua_client) (lowest_b lowest_s : Z) : Prop :=
  lowest_b = -1 ∧ (∀ j u, us !! j = Some u → final_branch u = false) ∨
  ∃ b u, lowest_b = Z.of_nat b ∧ best us b ∧ us !! b = Some u ∧ lowest_s = prio u.

(** The active branches. *)
Definition active : list ua_client := drop (first_branch t) (uac t).

Lemma best_snoc_other us u lb ls : final_branch u = false → best_or_none us lb ls → best_or_none (us ++ [u]) lb ls.
Proof.
  intros Hu [[-> Hn]|(b & u0 & -> & (u1 & Hb & Hf & Hm) & Hb' & ->)].
  - left. split; [done|]. intros j u' [Hj|[_ Hj]]%lookup_app_Some; [by eapply Hn|]. by apply list_lookup_singleton_Some in Hj as [_ <-].
  - rewrite Hb in Hb'. injection Hb' as <-. right. exists b, u1. split_and!; [done| |by apply lookup_app_l_Some|done]. exists u1. split_and!; [by apply lookup_app_l_Some|done|].
    intros j u' [Hj|[_ Hj]]%lookup_app_Some; [by apply Hm|]. apply list_lookup_singleton_Some in Hj as [_ <-]. congruence.
Qed.

Lemma best_snoc_new us u lb ls : final_branch u = true → best_or_none us lb ls → lb = -1 ∨ prio u < ls → best_or_none (us ++ [u]) (Z.of_nat (length us)) (prio u).
Proof.
  intros Hu Hb Hlt. right. exists (length us), u. assert (Hl : (us ++ [u]) !! length us = Some u) by (by rewrite lookup_app_r, Nat.sub_diag).
  split_and!; [done| |done|done]. exists u. split_and!; [done|done|].
  intros j u' [Hj|[Hge Hj]]%lookup_app_Some Hf'.
  2:{ apply list_lookup_singleton_Some in Hj as [Hj <-]. split; [lia|lia]. }
  destruct Hb as [[-> Hn]|(b & u0 & -> & (u1 & Hb & Hf & Hm) & Hb' & ->)].
  - by rewrite (Hn _ _ Hj) in Hf'.
  - rewrite Hb in Hb'. injection Hb' as <-. destruct (Hm _ _ Hj Hf'). lia.
Qed.

Lemma best_snoc_worse us u b ls : final_branch u = true → best_or_none us (Z.of_nat b) ls → ls <= prio u → best_or_none (us ++ [u]) (Z.of_nat b) ls.
Proof.
  intros Hu [[? _]|(b' & u0 & Hb0 & (u1 & Hb & Hf & Hm) & Hb' & ->)] Hle; [lia|]. assert (b = b') as <- by lia. rewrite Hb in Hb'. injection Hb' as <-.
  right. exists b, u1. split_and!; [done| |by apply lookup_app_l_Some|done]. exists u1. split_and!; [by apply lookup_app_l_Some|done|].
  apply lookup_lt_Some in Hb. intros j u' [Hj|[Hge Hj]]%lookup_app_Some Hf'; [by apply Hm|]. apply list_lookup_singleton_Some in Hj as [Hj <-]. lia.
Qed.

Lemma of_nat_eqb n : (Z.of_nat n =? -1) = false.
Proof. apply Z.eqb_neq. lia. Qed.

(** The branches before the loop are [pre]; it starts at number [off + length pre]. *)
Lemma pick_loop_spec us : ∀ off pre lb ls dc p dc', (lb = -1 ∨ ∃ b, lb = Z.of_nat (off + b)) → best_or_none pre (if lb =? -1 then -1 else lb - Z.of_nat off) ls →
  pick_loop cfg t (off + length pre) us lb ls dc = (p, dc') →
  if existsb waited us then p = -2
  else p ≠ -2 ∧ (p = -1 ∨ ∃ b, p = Z.of_nat (off + b)) ∧ ∃ ls', best_or_none (pre ++ us) (if p =? -1 then -1 else p - Z.of_nat off) ls'.
Proof.
  induction us as [|u us IH]; intros off pre lb ls dc p dc' Hlb Hpre; cbn [pick_loop existsb].
  { intros [= <- <-]. split; [by destruct Hlb as [->|[b ->]]; lia|]. split; [done|]. rewrite app_nil_r. by exists ls. }
  replace (S (off + length pre)) with (off + length (pre ++ [u]))%nat by (rewrite length_app; cbn; lia).
  replace (pre ++ u :: us) with ((pre ++ [u]) ++ us) by (by rewrite <- app_assoc).
  assert (Hskip : final_branch u = false → waited u = false → ∀ dc0, pick_loop cfg t (off + length (pre ++ [u])) us lb ls dc0 = (p, dc') →
    if waited u || existsb waited us then p = -2
    else p ≠ -2 ∧ (p = -1 ∨ ∃ b, p = Z.of_nat (off + b)) ∧ ∃ ls', best_or_none ((pre ++ [u]) ++ us) (if p =? -1 then -1 else p - Z.of_nat off) ls').
  { intros Hf Hw dc0 Hp. rewrite Hw. cbn [orb]. eapply IH; [done| |exact Hp]. by apply best_snoc_other. }
  destruct (skip_phony t u) eqn:Hs; [apply Hskip; unfold final_branch, waited, counts; by rewrite Hs|].
  destruct (u_buffer u) eqn:Hb; cbn [negb]; [|apply Hskip; unfold final_branch, waited, counts; by rewrite Hb, andb_false_r].
  assert (Hc : counts u = true) by (unfold counts; by rewrite Hs, Hb). destruct (last_received u <? 200) eqn:Hr.
  { destruct (flag (br_flags u) _) eqn:Hm.
    - apply Hskip; unfold final_branch, waited; by rewrite Hc, Hr, ?Hm.
    - intros [= <- _]. unfold waited at 1. by rewrite Hc, Hr, Hm. }
  assert (Hf : final_branch u = true) by (unfold final_branch; by rewrite Hc, Hr).
  assert (Hw : waited u = false) by (unfold waited; by rewrite Hr, andb_false_r). rewrite Hw. cbn [orb]. fold (prio u).
  destruct ((lb =? -1) || (prio u <? ls)) eqn:Hbetter.
  - intros Hp. eapply (IH off (pre ++ [u])); [|  |exact Hp]; [right; by eexists|].
    rewrite of_nat_eqb. replace (Z.of_nat (off + length pre) - Z.of_nat off) with (Z.of_nat (length pre)) by lia.
    eapply best_snoc_new; [done|exact Hpre|]. apply orb_true_iff in Hbetter as [H1|H1]; [left; by rewrite H1|right; lia].
  - intros Hp. apply orb_false_iff in Hbetter as [H1 H2]. eapply (IH off (pre ++ [u])); [done| |exact Hp]. rewrite H1 in *.
    destruct Hlb as [->|[b ->]]; [done|]. replace (Z.of_nat (off + b) - Z.of_nat off) with (Z.of_nat b) in * by lia. apply best_snoc_worse; [done|done|lia].
Qed.

(** While a branch is waited for, nothing is picked; otherwise the first of the branches with the
    least priority is. *)
Lemma t_pick_branch_spec p dc : t_pick_branch cfg t = (p, dc) →
  if existsb waited active then p = -2
  else if existsb final_branch active then ∃ b, p = Z.of_nat (first_branch t + b) ∧ best active b
  else p = -1.
Proof.
  unfold t_pick_branch. fold active. intros Hp. pose proof (pick_loop_spec active (first_branch t) [] (-1) 999 false p dc) as Hs.
  cbn [length] in Hs. rewrite Nat.add_0_r in Hs. specialize (Hs (or_introl eq_refl)). cbn [Z.eqb] in Hs.
  assert (Hn : best_or_none [] (-1) 999) by (left; split; [done|by intros ? ?]). specialize (Hs Hn Hp). cbn [app] in Hs.
  destruct (existsb waited active); [done|]. destruct Hs as (_ & Hb & ls & Hbest). destruct (existsb final_branch active) eqn:Hex.
  - apply existsb_exists in Hex as (u & Hin & Hf). apply list_elem_of_In in Hin. apply list_elem_of_lookup_1 in Hin as [j Hj].
    destruct Hb as [->|[b ->]].
    + cbn in Hbest. destruct Hbest as [[_ Hno]|(b & ? & ? & _)]; [|lia]. by rewrite (Hno _ _ Hj) in Hf.
    + rewrite of_nat_eqb in Hbest. exists b. split; [done|].
      destruct Hbest as [[? _]|(b' & ? & Hb' & Hbest & _)]; [lia|]. by replace b with b' by lia.
  - destruct Hb as [->|[b ->]]; [done|]. rewrite of_nat_eqb in Hbest.
    destruct Hbest as [[? _]|(b' & ? & Hb' & (u & Hu & Hf & _) & _)]; [lia|]. exfalso.
    assert (existsb final_branch active = true); [|congruence]. apply existsb_exists. exists u. split; [|done]. apply list_elem_of_In. by eapply list_elem_of_lookup_2.
Qed.
End pick.
