(* ===== verification/TmFork.v ===== *)
(** * A fork with negative answers

    A request was forked by [t_forward_nonack] and each branch answers negatively: the replies
    are stored by [relay_reply] ([modules/tm/t_reply.c]) until the last one, with which the best
    of them is relayed. *)

From stdpp Require Import prelude list.
From Stdlib Require Import ZArith Lia.
From S2P Require Import Prelude HdrBodies TmReply TmReplyFacts TmReplyCancel TmPick.

(** ** The situation *)

(** The memory suffices and the resolver has no other address; no reply route ran. *)
Definition env_ok (e : env) : Prop := e_build e = true ∧ e_shm e = true ∧ e_clone e = true ∧ e_dns e = None ∧ e_reply_flags e = None.

(** A reply to the request on branch [b] with the status [c]. *)
Definition answer (ev : env * event) (bc : nat * Z) : Prop :=
  env_ok ev.1 ∧ ∃ cseq d a, ev.2 = EvReply bc.1 bc.2 cseq d a ∧ cseq ≠ METHOD_CANCEL.

(** A branch that waits, and one that was answered with [c]. *)
Definition plain (u : ua_client) : Prop := u_buffer u = true ∧ is_phony u = false ∧ to_cancel u = false.
Definition waiting (cfg : tm_cfg) (u : ua_client) : Prop := plain u ∧ last_received u < 200 ∧ flag (br_flags u) (minor_branch_flag cfg) = false.
Definition answered (c : Z) (u : ua_client) : Prop := plain u ∧ last_received u = c ∧ u_reply u = Msg c.

(** A transaction the server proxies, with all branches of one step outstanding, and without a
    failure route. *)
Record forked (cfg : tm_cfg) (t : cell) : Prop := {
  fk_local : is_local t = false;
  fk_cancelled : was_cancelled t = false;
  fk_first : first_branch t = 0%nat;
  fk_status : uas_status t < 200;
  fk_request : is_Some (request t);
  fk_route : on_negative t = false ∧ on_failure t = false;
  fk_uac : Forall (waiting cfg) (uac t)
}.

(** The state after the answers of [done]. *)
Record mid (cfg : tm_cfg) (t0 : cell) (o0 : list Z) (done : list (nat * Z)) (s : tst) : Prop := {
  md_cell : tc s = set_uac (uac (tc s)) t0;
  md_length : length (uac (tc s)) = length (uac t0);
  md_done b c u : (b, c) ∈ done → uac (tc s) !! b = Some u → answered c u;
  md_rest b u : b ∉ done.*1 → uac (tc s) !! b = Some u → waiting cfg u;
  md_sent : sent (out s) = o0
}.

(** What follows the relaying of a negative reply. *)
Definition after_relay (e : env) (inv : bool) (x : rps * Z * tst) : tst :=
  let '(r, bm, s) := x in
  match r with
  | RPS_COMPLETED => if inv then cancel_uacs e bm (cleanup_uac_timers s) else cleanup_uac_timers s
  | _ => s
  end.

(** The branch with its answer. *)
Definition with_answer (c : Z) (r : reply_ptr) (u : ua_client) : ua_client := set_u_reply r (set_last_received c u).

(** A negative status that does not end the fork at once. *)
Definition code_ok (cfg : tm_cfg) (c : Z) : Prop := 300 <= c ∧ (c < 600 ∨ disable_6xx_block cfg = true).


(** ** The steps *)

Lemma pick_no_cancel cfg t us : (∀ u, u ∈ us → last_received u < 200 → flag (br_flags u) (minor_branch_flag cfg) = false) →
  ∀ b lb ls dc, (pick_loop cfg t b us lb ls dc).2 = dc.
Proof.
  induction us as [|u us IH]; intros Hm b lb ls dc; cbn [pick_loop]; [done|].
  assert (IH' : ∀ b lb ls dc, (pick_loop cfg t b us lb ls dc).2 = dc) by (apply IH; intros u' Hu'; apply Hm; by right).
  destruct (skip_phony t u); [apply IH'|]. destruct (negb _); [apply IH'|]. destruct (Z.ltb_spec (last_received u) 200) as [Hr|].
  - rewrite Hm; [done|by left|done].
  - destruct (_ || _); apply IH'.
Qed.

Section fork.
Context (cfg : tm_cfg) (t0 : cell) (o0 : list Z) (Hfork : forked cfg t0).

(** A negative reply on a branch that waits goes to [relay_reply]. *)
Lemma received_negative e b c cseq d a s u : e_reply_flags e = None → uac (tc s) !! b = Some u → plain u → cseq ≠ METHOD_CANCEL → 300 <= c →
  is_local (tc s) = false → was_cancelled (tc s) = false →
  ∃ acts fl, sent acts = [] ∧ (∀ m, m = T_UAC_TO_CANCEL_FLAG ∨ m = T_UAC_IS_PHONY → flag fl m = flag (u_flags u) m) ∧
  reply_received cfg e b c cseq d a s =
    after_relay e (is_invite (tc s)) <$> relay_reply cfg e b (Msg c) c (emit acts (set_tc (set_uac (<[b := set_u_flags fl u]> (uac (tc s))) (tc s)) s)).
Proof.
  intros Hfl Hu (Hbuf & Hph & Htc) Hm Hc Hl Hw. unfold reply_received. rewrite Hfl. unfold TM_BRANCH at 1. rewrite Hu. cbn [mbind option_bind].
  destruct (Z.eqb_spec cseq METHOD_CANCEL) as [|_]; [done|]. cbn [andb]. replace (200 <=? c) with true by lia. replace (c <? 200) with false by lia.
  rewrite andb_false_r. set (inv := is_invite (tc s)). set (ack := if _ && a then _ else _).
  assert (Hack : ∃ acts, ack = emit acts s ∧ sent acts = []).
  { unfold ack. destruct (_ && a); [|by eexists]. exists ([ResetRetr (Request b); ResetFr (Request b)] ++ [SendAck b]). split; [|done]. unfold emit. cbn. by rewrite <- app_assoc. }
  destruct Hack as (acts & -> & Hacts). exists acts, (Z.lor (u_flags u) T_UAC_HAS_RECV_REPLY). split; [done|]. split.
  { intros m Hm'. by apply flag_recv. }
  unfold upd_branch, TM_BRANCH. cbn [tc emit]. rewrite Hu. cbn [mbind option_bind]. unfold process_reply_and_timer, TM_BRANCH.
  cbn [tc set_tc uac set_uac]. rewrite list_lookup_insert_eq by (by eapply lookup_lt_Some). cbn [mbind option_bind].
  assert (Hf : flag (u_flags (set_u_flags (Z.lor (u_flags u) T_UAC_HAS_RECV_REPLY) u)) T_UAC_TO_CANCEL_FLAG = false).
  { cbn. rewrite flag_recv by auto. done. }
  rewrite Hf. change (was_cancelled (set_uac _ (tc s))) with (was_cancelled (tc s)). rewrite Hw. cbn [orb andb mbind option_bind].
  change (is_local (set_uac _ (tc s))) with (is_local (tc s)). rewrite Hl. replace (c <? 200) with false by lia. cbn [andb].
  change (is_invite (set_uac _ (tc s))) with inv.
  change (set_tc (set_uac (<[b := set_u_flags (Z.lor (u_flags u) T_UAC_HAS_RECV_REPLY) u]> (uac (tc s))) (tc s)) (emit acts s))
    with (emit acts (set_tc (set_uac (<[b := set_u_flags (Z.lor (u_flags u) T_UAC_HAS_RECV_REPLY) u]> (uac (tc s))) (tc s)) s)).
  destruct (relay_reply _ _ _ _ _ _) as [[[r bm] s2]|]; [|done]. cbn. by destruct r, inv.
Qed.

Lemma should_relay_negative e b c r s u : uac (tc s) !! b = Some u → uas_status (tc s) < 200 → last_received u < 200 → 300 <= c →
  t_should_relay_response cfg e c b r s = negative_reply cfg e c b r s.
Proof.
  intros Hu Hs Hr Hc. unfold t_should_relay_response, TM_BRANCH. rewrite Hu. cbn [mbind option_bind].
  replace (200 <=? uas_status (tc s)) with false by lia. rewrite andb_false_r, andb_false_l. replace (200 <=? last_received u) with false by lia. cbn [andb].
  by replace (300 <=? c) with true by lia.
Qed.

Lemma insert_twice {A} (l : list A) i x y : <[i := x]> (<[i := y]> l) = <[i := x]> l.
Proof. apply list_insert_insert_eq. Qed.

(** While another branch is waited for the reply is stored. *)
Lemma relay_stores e b c s u : uac (tc s) !! b = Some u → uas_status (tc s) < 200 → last_received u < 200 → 300 <= c → (c < 600 ∨ disable_6xx_block cfg = true) →
  e_clone e = true →
  let t := set_uac (<[b := with_answer c (Msg c) u]> (uac (tc s))) (tc s) in
  existsb (waited cfg t) (active t) = true → relay_reply cfg e b (Msg c) c s = Some (RPS_STORE, 0, set_tc t s).
Proof.
  intros Hu Hs Hr Hc H6 Hcl t Hw. unfold relay_reply. rewrite (should_relay_negative _ _ _ _ _ u) by done. unfold negative_reply, upd_branch, TM_BRANCH.
  rewrite Hu. cbn [mbind option_bind]. fold (with_answer c (Msg c) u). fold t.
  replace ((600 <=? c) && negb (disable_6xx_block cfg)) with false by (destruct H6 as [H6|H6]; [by replace (600 <=? c) with false by lia|by rewrite H6, andb_false_r]).
  destruct (t_pick_branch cfg t) as [p dc] eqn:Ep. apply t_pick_branch_spec in Ep. rewrite Hw in Ep. subst p. cbn [Z.eqb Pos.eqb].
  assert (Hlt : (b < length (uac (tc s)))%nat) by (by eapply lookup_lt_Some).
  change (uac t) with (<[b := with_answer c (Msg c) u]> (uac (tc s))). rewrite list_lookup_insert_eq by done. cbn [mbind option_bind].
  cbn [should_store]. unfold store_reply, upd_branch, TM_BRANCH. rewrite Hcl. cbn [tc set_tc uac set_uac]. rewrite insert_twice, list_lookup_insert_eq by done.
  cbn [mbind option_bind negb should_relay Z.leb v_rps v_cancel]. cbn. unfold t, set_uac, set_tc. cbn. by rewrite !insert_twice.
Qed.

Lemma final_timer_total code s : is_Some (request (tc s)) → ∃ s', final_timer code s = Some s'.
Proof.
  intros [m Hm]. unfold final_timer, set_final_timer. destruct (_ && _); [|by eexists]. destruct (is_local (tc s)); [by eexists|]. rewrite Hm. by eexists.
Qed.

(** Without a failure route and another address, the picked branch is relayed. *)
Lemma all_final_plain e b p s u : uac (tc s) !! p = Some u → is_Some (uac (tc s) !! b) → e_dns e = None → on_negative (tc s) = false → on_failure (tc s) = false → uas_status (tc s) < 200 →
  ∃ t, upd_branch b (set_u_reply NoReply) (tc s) = Some t ∧ all_final e b p 0 s = Some (Verdict RPS_COMPLETED false (Z.of_nat p) 0, set_tc t (reset_kr s)).
Proof.
  intros Hp [ub Hb] Hd Hn Hf Hs. unfold all_final, TM_BRANCH, do_dns_failover. cbn [tc reset_kr]. rewrite Hp, Hd. cbn [mbind option_bind].
  assert (Hx : (if negb (flag (t_flags (tc s)) T_NO_DNS_FAILOVER_FLAG) && u_proxy u && is_3263_failure u
     then Some (reset_kr s, nr_of_outgoings (tc (reset_kr s))) else Some (reset_kr s, nr_of_outgoings (tc s))) = Some (reset_kr s, nr_of_outgoings (tc s))) by (by destruct (_ && _)).
  rewrite Hx. cbn [mbind option_bind tc reset_kr]. rewrite Hn, Hf, andb_false_r. cbn [mbind option_bind tc reset_kr].
  unfold upd_branch, TM_BRANCH. rewrite Hb. cbn [mbind option_bind]. eexists. split; [done|]. cbn [uas_status set_uac].
  replace (200 <=? uas_status (tc s)) with false by lia. unfold nr_of_outgoings. cbn [uac set_uac]. rewrite length_insert, Nat.ltb_irrefl. done.
Qed.

Lemma relay_completes e b c s u p up c' : uac (tc s) !! b = Some u → uas_status (tc s) < 200 → last_received u < 200 → 300 <= c → (c < 600 ∨ disable_6xx_block cfg = true) →
  env_ok e → is_Some (request (tc s)) → on_negative (tc s) = false → on_failure (tc s) = false →
  let t := set_uac (<[b := with_answer c (Msg c) u]> (uac (tc s))) (tc s) in
  t_pick_branch cfg t = (Z.of_nat p, false) → uac t !! p = Some up → u_reply up = Msg c' →
  ∃ s', relay_reply cfg e b (Msg c) c s = Some (RPS_COMPLETED, 0, s') ∧ core s' = (is_invite (tc s), c', sent (out s) ++ [c']).
Proof.
  intros Hu Hs Hr Hc H6 (Hbu & Hsh & _ & Hd & _) Hreq Hn Hf t Hpick Hup Hrep. unfold relay_reply. rewrite (should_relay_negative _ _ _ _ _ u) by done.
  unfold negative_reply, upd_branch, TM_BRANCH. rewrite Hu. cbn [mbind option_bind]. fold (with_answer c (Msg c) u). fold t.
  replace ((600 <=? c) && negb (disable_6xx_block cfg)) with false by (destruct H6 as [H6|H6]; [by replace (600 <=? c) with false by lia|by rewrite H6, andb_false_r]).
  rewrite Hpick. replace (Z.of_nat p =? -2) with false by (symmetry; apply Z.eqb_neq; lia). rewrite of_nat_eqb, Nat2Z.id.
  assert (Hlt : (b < length (uac (tc s)))%nat) by (by eapply lookup_lt_Some).
  assert (Hub : uac t !! b = Some (with_answer c (Msg c) u)) by (cbn; by apply list_lookup_insert_eq).
  destruct (all_final_plain e b p (set_tc t s) up) as (t1 & Ht1 & ->); [done|by eexists|done..|].
  apply upd_branch_cell in Ht1 as (ub & Hub' & ->). cbn [tc set_tc] in Hub'. rewrite Hub in Hub'. injection Hub' as <-.
  cbn [mbind option_bind should_store negb should_relay]. rewrite (proj2 (Z.leb_le 0 (Z.of_nat p))) by apply Nat2Z.is_nonneg. rewrite Nat2Z.id.
  set (s3 := set_tc (set_relaied _ _) _). assert (Hl3 : is_Some (uac (tc s3) !! p)).
  { apply lookup_lt_is_Some. cbn. rewrite length_insert. by apply lookup_lt_Some in Hup. }
  destruct Hl3 as [u3 Hu3]. rewrite Hu3. cbn [mbind option_bind].
  assert (Hcode : (if (b =? p)%nat then reply_code (Msg c) c else reply_code (u_reply u3) (last_received u3)) = Some c').
  { destruct (Nat.eqb_spec b p) as [->|Hne].
    - rewrite Hub in Hup. injection Hup as <-. cbn in Hrep. injection Hrep as <-. done.
    - cbn in Hu3. rewrite list_lookup_insert_ne in Hu3 by done. change (uac t !! p = Some u3) in Hu3. rewrite Hup in Hu3. injection Hu3 as <-. by rewrite Hrep. }
  rewrite Hcode. cbn [mbind option_bind]. rewrite Hbu, Hsh. cbn [andb negb v_rps v_cancel].
  destruct (final_timer_total c' (set_tc (set_status c' (tc s3)) s3)) as [s4 Hs4]; [done|]. rewrite Hs4. cbn [mbind option_bind]. eexists. split; [done|].
  apply final_timer_core in Hs4. unfold core in *. cbn [tc emit out]. rewrite sent_app. injection Hs4 as -> -> ->. done.
Qed.

Lemma plain_counts t u : plain u → counts t u = true.
Proof. intros (Hb & Hp & _). unfold counts, skip_phony. by rewrite Hb, Hp. Qed.

(** The first part of a step: the branch waits, and after its answer the other ones are as before. *)
Lemma mid_answer e b c cseq d a bs s : e_reply_flags e = None → mid cfg t0 o0 bs s → b ∉ bs.*1 → (b < length (uac t0))%nat → cseq ≠ METHOD_CANCEL → code_ok cfg c →
  ∃ s1 u, tm_step cfg e (EvReply b c cseq d a) s = after_relay e (is_invite t0) <$> relay_reply cfg e b (Msg c) c s1 ∧
    uac (tc s1) !! b = Some u ∧ last_received u < 200 ∧ mid cfg t0 o0 bs s1 ∧
    (∀ j cj v, (j, cj) ∈ (b, c) :: bs → (<[b := with_answer c (Msg c) u]> (uac (tc s1))) !! j = Some v → answered cj v) ∧
    (∀ j v, j ∉ ((b, c) :: bs).*1 → (<[b := with_answer c (Msg c) u]> (uac (tc s1))) !! j = Some v → waiting cfg v).
Proof.
  intros Hfe [Hcell Hlen Hdone Hrest Hsent] Hb Hlt Hm [Hc H6]. destruct (lookup_lt_is_Some_2 (uac (tc s)) b) as [u Hu]; [lia|].
  destruct (Hrest b u Hb Hu) as (Hpl & Hr & Hmin). destruct (received_negative e b c cseq d a s u) as (acts & fl & Hacts & Hfl & Heq); try done.
  { rewrite Hcell. apply (fk_local _ _ Hfork). } { rewrite Hcell. apply (fk_cancelled _ _ Hfork). }
  set (u1 := set_u_flags fl u) in *. set (s1 := emit acts _) in Heq. exists s1, u1.
  assert (Hpl1 : plain u1).
  { destruct Hpl as (H1 & H2 & H3). split_and!; [done|unfold is_phony; cbn; rewrite Hfl by auto; done|unfold to_cancel; cbn; rewrite Hfl by auto; done]. }
  assert (Hub : uac (tc s1) !! b = Some u1) by (apply list_lookup_insert_eq; by eapply lookup_lt_Some).
  assert (Hne : ∀ j, j ≠ b → uac (tc s1) !! j = uac (tc s) !! j) by (intros j Hj; by apply list_lookup_insert_ne).
  assert (Hmid : mid cfg t0 o0 bs s1).
  { constructor.
    - cbn. rewrite Hcell at 2. done.
    - cbn. rewrite length_insert. done.
    - intros j cj v Hj. rewrite Hne; [by apply Hdone|]. intros ->. apply Hb. apply (list_elem_of_fmap_2 fst) in Hj. done.
    - intros j v Hj Hv. destruct (decide (j = b)) as [->|]; [rewrite Hub in Hv; by injection Hv as <-|]. rewrite Hne in Hv by done. by eapply Hrest.
    - cbn. by rewrite sent_app, Hacts, app_nil_r. }
  split_and!; [|done|done|done| |].
  - cbn [tm_step]. rewrite Heq. f_equal. f_equal. by rewrite Hcell.
  - intros j cj v Hj Hv. destruct (decide (j = b)) as [->|Hjb].
    + rewrite list_lookup_insert_eq in Hv by (by eapply lookup_lt_Some). injection Hv as <-. apply elem_of_cons in Hj as [[= ->]|Hj].
      * split; [|done]. done.
      * exfalso. apply Hb. apply (list_elem_of_fmap_2 fst) in Hj. done.
    + rewrite list_lookup_insert_ne in Hv by done. apply elem_of_cons in Hj as [[= -> ->]|Hj]; [done|]. by eapply (md_done _ _ _ _ _ Hmid).
  - intros j v Hj Hv. cbn in Hj. apply not_elem_of_cons in Hj as [Hjb Hj]. rewrite list_lookup_insert_ne in Hv by done. by eapply (md_rest _ _ _ _ _ Hmid).
Qed.

(** More branches are outstanding: the reply is stored. *)
Lemma mid_step ev b c bs s : mid cfg t0 o0 bs s → b ∉ bs.*1 → (b < length (uac t0))%nat → answer ev (b, c) → code_ok cfg c →
  (∃ b', (b' < length (uac t0))%nat ∧ b' ∉ ((b, c) :: bs).*1) → ∃ s', tm_step cfg ev.1 ev.2 s = Some s' ∧ mid cfg t0 o0 ((b, c) :: bs) s'.
Proof.
  intros Hmid Hb Hlt (Henv & cseq & d & a & Hev & Hm) Hc (b' & Hlt' & Hb'). destruct ev as [e ev]. cbn in *. subst ev.
  destruct (mid_answer e b c cseq d a bs s (proj2 (proj2 (proj2 (proj2 Henv)))) Hmid Hb Hlt Hm Hc) as (s1 & u & -> & Hu & Hr & Hmid1 & Hans & Hwait). destruct Hmid1 as [Hcell Hlen _ _ Hsent].
  set (us := <[b := with_answer c (Msg c) u]> (uac (tc s1))) in *. set (t := set_uac us (tc s1)).
  assert (Hw : existsb (waited cfg t) (active t) = true).
  { apply existsb_exists. destruct (lookup_lt_is_Some_2 us b') as [v Hv]; [unfold us; rewrite length_insert; lia|]. exists v. destruct (Hwait b' v Hb' Hv) as (Hp & Hr' & Hmi).
    split.
    - apply list_elem_of_In, (list_elem_of_lookup_2 _ b'). unfold active. cbn. rewrite Hcell. cbn. by rewrite (fk_first _ _ Hfork).
    - unfold waited. rewrite plain_counts, Hmi by done. by replace (last_received v <? 200) with true by lia. }
  destruct Henv as (_ & _ & Hcl & _ & _). destruct Hc as [Hc H6].
  rewrite (relay_stores e b c s1 u) by (try done; rewrite Hcell; apply (fk_status _ _ Hfork)). cbn. eexists. split; [done|].
  constructor; cbn; [by rewrite Hcell at 2|unfold us; by rewrite length_insert|done|done|done].
Qed.

(** The last branch: the best reply is relayed. *)
Lemma mid_last ev b c bs s : mid cfg t0 o0 bs s → b ∉ bs.*1 → (b < length (uac t0))%nat → answer ev (b, c) → code_ok cfg c → (∀ j cj, (j, cj) ∈ bs → code_ok cfg cj ∧ (j < length (uac t0))%nat) →
  (∀ b', (b' < length (uac t0))%nat → b' ∈ ((b, c) :: bs).*1) →
  ∃ s' p c', tm_step cfg ev.1 ev.2 s = Some s' ∧ core s' = (is_invite t0, c', o0 ++ [c']) ∧ (p, c') ∈ (b, c) :: bs ∧
    ∀ j cj, (j, cj) ∈ (b, c) :: bs → branch_prio c' false <= branch_prio cj false ∧ ((j < p)%nat → branch_prio c' false < branch_prio cj false).
Proof.
  intros Hmid Hb Hlt (Henv & cseq & d & a & Hev & Hm) Hc Hbs Hall. destruct ev as [e ev]. cbn in Henv, Hev |- *. subst ev.
  destruct (mid_answer e b c cseq d a bs s (proj2 (proj2 (proj2 (proj2 Henv)))) Hmid Hb Hlt Hm Hc) as (s1 & u & -> & Hu & Hr & Hmid1 & Hans & Hwait). destruct Hmid1 as [Hcell Hlen _ _ Hsent].
  set (us := <[b := with_answer c (Msg c) u]> (uac (tc s1))) in *. set (t := set_uac us (tc s1)).
  assert (Hus : length us = length (uac t0)) by (unfold us; by rewrite length_insert).
  assert (Hcodes : ∀ j cj, (j, cj) ∈ (b, c) :: bs → code_ok cfg cj ∧ (j < length (uac t0))%nat) by (intros j cj [[= -> ->]|Hj]%elem_of_cons; [done|by apply Hbs]).
  assert (Hev : ∀ j v, us !! j = Some v → ∃ cj, (j, cj) ∈ (b, c) :: bs ∧ answered cj v ∧ final_branch t v = true).
  { intros j v Hv. assert (Hj : j ∈ ((b, c) :: bs).*1) by (apply Hall; apply lookup_lt_Some in Hv; lia).
    apply list_elem_of_fmap in Hj as ([j' cj] & -> & Hj). exists cj. destruct (Hans _ _ _ Hj Hv) as (Hp & Hl & Hrep). split_and!; [done|done|].
    unfold final_branch. rewrite plain_counts by done. destruct (Hcodes _ _ Hj) as [[? _] _]. by replace (last_received v <? 200) with false by lia. }
  assert (Hact : active t = us) by (unfold active; cbn; rewrite Hcell; cbn; by rewrite (fk_first _ _ Hfork)).
  assert (Hcanc : was_cancelled t = false) by (change (was_cancelled t) with (was_cancelled (tc s1)); rewrite Hcell; apply (fk_cancelled _ _ Hfork)).
  destruct (t_pick_branch cfg t) as [p dc] eqn:Ep. pose proof (t_pick_branch_spec cfg t p dc Ep) as Hpick. rewrite Hact in Hpick.
  assert (Hnw : existsb (waited cfg t) us = false).
  { apply not_true_is_false. intros (v & Hin & Hw)%existsb_exists. apply list_elem_of_In, list_elem_of_lookup_1 in Hin as [j Hj].
    destruct (Hev j v Hj) as (cj & _ & _ & Hf). unfold final_branch in Hf. unfold waited in Hw. destruct (last_received v <? 200); [by rewrite andb_false_r in Hf|by rewrite andb_false_r in Hw]. }
  rewrite Hnw in Hpick. assert (Hdc : dc = false).
  { replace dc with ((t_pick_branch cfg t).2) by (by rewrite Ep). unfold t_pick_branch. fold (active t). rewrite Hact. apply pick_no_cancel.
    intros v [j Hj]%list_elem_of_lookup_1 Hlow. destruct (Hev j v Hj) as (cj & Hin & (_ & Hl & _) & _). destruct (Hcodes _ _ Hin) as [[? _] _]. lia. }
  subst dc. replace (existsb (final_branch t) us) with true in Hpick.
  2:{ symmetry. apply existsb_exists. destruct (lookup_lt_is_Some_2 us b) as [v Hv]; [lia|]. exists v. destruct (Hev b v Hv) as (_ & _ & _ & Hf).
      split; [|done]. apply list_elem_of_In. by eapply list_elem_of_lookup_2. }
  destruct Hpick as (p' & -> & up & Hup & Hfin & Hmin). destruct (Hev p' up Hup) as (c' & Hin & (Hpl & Hlr & Hrep) & _).
  assert (Hf0 : first_branch t = 0%nat) by (cbn; rewrite Hcell; cbn; apply (fk_first _ _ Hfork)). rewrite Hf0 in Ep. cbn [Nat.add] in Ep.
  destruct Hc as [Hc H6]. destruct (fk_route _ _ Hfork) as [Hn Hf].
  destruct (relay_completes e b c s1 u p' up c') as (s2 & -> & Hcore); try done.
  1-4: rewrite Hcell; apply Hfork || done.
  cbn. exists (if is_invite t0 then cancel_uacs e 0 (cleanup_uac_timers s2) else cleanup_uac_timers s2), p', c'. split; [done|]. split.
  { assert (Hc2 : core s2 = (is_invite t0, c', o0 ++ [c'])) by (rewrite Hcore, Hsent; f_equal; f_equal; by rewrite Hcell).
    destruct (is_invite t0); rewrite ?cancel_uacs_core, cleanup_core; done. }
  split; [done|]. intros j cj Hj. destruct (lookup_lt_is_Some_2 us j) as [v Hv]; [destruct (Hcodes _ _ Hj); lia|].
  destruct (Hev j v Hv) as (_ & _ & _ & Hfv). destruct (Hans _ _ _ Hj Hv) as (_ & Hlv & _). specialize (Hmin j v Hv Hfv). unfold prio in Hmin. rewrite Hcanc, Hlr, Hlv in Hmin. done.
Qed.
End fork.

Lemma tm_run_app cfg l l' s : tm_run cfg (l ++ l') s = tm_run cfg l s ≫= tm_run cfg l'.
Proof. revert s. induction l as [|[e ev] l IH]; intros s; cbn [app tm_run]; [done|]. destruct (tm_step cfg e ev s); cbn; [apply IH|done]. Qed.

Lemma mid_run cfg t0 o0 (Hfork : forked cfg t0) l bs : Forall2 answer l bs → ∀ before s rest, rest ≠ [] → mid cfg t0 o0 before s →
  (bs ++ before ++ rest).*1 ≡ₚ seq 0 (length (uac t0)) → Forall (code_ok cfg) bs.*2 → ∃ s', tm_run cfg l s = Some s' ∧ mid cfg t0 o0 (reverse bs ++ before) s'.
Proof.
  induction 1 as [|ev [b c] l bs Ha _ IH]; intros before s rest Hrest Hmid Hperm Hcodes; [by exists s|].
  assert (Hnd : NoDup ((((b, c) :: bs) ++ before ++ rest).*1)) by (rewrite Hperm; apply NoDup_seq).
  cbn in Hcodes, Hnd. apply Forall_cons in Hcodes as [Hc Hcodes]. apply NoDup_cons in Hnd as [Hb Hnd]. rewrite !fmap_app in *.
  assert (Hin : ∀ x, x ∈ b :: (bs.*1 ++ before.*1 ++ rest.*1) → (x < length (uac t0))%nat).
  { intros x Hx. assert (x ∈ seq 0 (length (uac t0))) by (rewrite <- Hperm; done). apply elem_of_seq in H. lia. }
  destruct (mid_step cfg t0 o0 Hfork ev b c before s) as (s1 & Hs1 & Hmid1); [done| |apply Hin; by left|done|done| |].
  - intros Hx. apply Hb. apply elem_of_app. right. apply elem_of_app. by left.
  - destruct rest as [|[b' c'] rest]; [done|]. exists b'. split; [apply Hin; cbn; set_solver|].
    cbn. intros [->|Hx]%elem_of_cons.
    + apply Hb. cbn. set_solver.
    + apply NoDup_app in Hnd as (_ & _ & Hnd). apply NoDup_app in Hnd as (_ & Hd & _). apply (Hd b' Hx). by left.
  - destruct ev as [e ev]. cbn in Hs1. cbn [tm_run]. rewrite Hs1. cbn [mbind option_bind].
    destruct (IH ((b, c) :: before) s1 rest) as (s2 & Hs2 & Hmid2); [done|done| |done|].
    + rewrite <- Hperm. rewrite !fmap_app. cbn. symmetry. apply Permutation_middle.
    + exists s2. split; [done|]. by rewrite reverse_cons, <- app_assoc.
Qed.

(** C21. A proxied request that was not cancelled was forked, in one step, to all branches of a
    transaction without a failure route ([first_branch] is 0, no branch is phony, minor or marked
    to be cancelled), and every branch gets one negative answer (6xx only if they do not end the
    fork at once), in any order.  DNS failover offers no other address for a branch, the routes
    change no branch flags, and replies are built, copied and stored without a failure.  Then
    nothing is sent upstream before the last answer.  With the last one exactly one reply is
    sent: the answer with the least priority, of the first branch that has it. *)
Theorem fork_relays_best (cfg : tm_cfg) (s : tst) (l : list (env * event)) (bs : list (nat * Z)) :
  forked cfg (tc s) → uac (tc s) ≠ [] → Forall2 answer l bs → Forall (code_ok cfg) bs.*2 → bs.*1 ≡ₚ seq 0 (length (uac (tc s))) →
  (∀ l1 l2, l = l1 ++ l2 → l2 ≠ [] → ∃ s1, tm_run cfg l1 s = Some s1 ∧ sent (out s1) = sent (out s)) ∧
  ∃ s' p c, tm_run cfg l s = Some s' ∧ uas_status (tc s') = c ∧ sent (out s') = sent (out s) ++ [c] ∧ (p, c) ∈ bs ∧
    ∀ j cj, (j, cj) ∈ bs → branch_prio c false <= branch_prio cj false ∧ ((j < p)%nat → branch_prio c false < branch_prio cj false).
Proof.
  intros Hfork Hne Ha Hcodes Hperm. assert (Hmid : mid cfg (tc s) (sent (out s)) [] s).
  { constructor; [by destruct (tc s)|done|by intros ? ? ? ?%not_elem_of_nil| |done]. intros b u _ Hu. pose proof (fk_uac _ _ Hfork) as Hf. rewrite Forall_lookup in Hf. by eapply Hf. }
  assert (Hprefix : ∀ l1 bs1 bs2, bs = bs1 ++ bs2 → bs2 ≠ [] → Forall2 answer l1 bs1 → ∃ s1, tm_run cfg l1 s = Some s1 ∧ mid cfg (tc s) (sent (out s)) (reverse bs1) s1).
  { intros l1 bs1 bs2 -> Hbs2 Ha1. rewrite fmap_app in Hcodes. apply Forall_app in Hcodes as [Hc1 _].
    destruct (mid_run cfg (tc s) (sent (out s)) Hfork l1 bs1 Ha1 [] s bs2) as (s1 & Hs1 & Hm1); [done|done|done|done|]. exists s1. by rewrite app_nil_r in Hm1. }
  split.
  - intros l1 l2 -> Hl2. apply Forall2_app_inv_l in Ha as (bs1 & bs2 & Ha1 & Ha2 & ->).
    destruct (Hprefix l1 bs1 bs2 eq_refl) as (s1 & Hs1 & Hm1); [intros ->; by inversion Ha2; subst|done|]. exists s1. split; [done|]. apply Hm1.
  - destruct (exists_last (l := bs)) as (bs1 & [b c] & ->).
    { intros ->. apply Hne. apply length_zero_iff_nil. apply Permutation_length in Hperm. by rewrite length_seq in Hperm. }
    apply Forall2_app_inv_r in Ha as (l1 & l2 & Ha1 & Ha2 & ->). inversion Ha2 as [|ev ? l3 ? Hev Ha3]; subst. inversion Ha3; subst.
    destruct (Hprefix l1 bs1 [(b, c)] eq_refl) as (s1 & Hs1 & Hm1); [done|done|].
    assert (Hnd : NoDup (bs1 ++ [(b, c)]).*1) by (rewrite Hperm; apply NoDup_seq). rewrite fmap_app in Hnd, Hperm. rewrite fmap_app in Hcodes. apply NoDup_app in Hnd as (_ & Hdis & _).
    apply Forall_app in Hcodes as [Hc1 Hc2]. apply Forall_cons in Hc2 as [Hc _].
    assert (Hlt : ∀ x, x ∈ bs1.*1 ++ [b] → (x < length (uac (tc s)))%nat) by (intros x Hx; cbn in Hperm; rewrite Hperm in Hx; apply elem_of_seq in Hx; lia).
    destruct (mid_last cfg (tc s) (sent (out s)) Hfork ev b c (reverse bs1) s1) as (s2 & p & c' & Hs2 & Hcore & Hin & Hbest); [done| | |done|done| | |].
    + rewrite fmap_reverse, elem_of_reverse. intros Hx. apply (Hdis b Hx). by left.
    + apply Hlt. apply elem_of_app. right. by left.
    + intros j cj Hj. rewrite elem_of_reverse in Hj. split; [|apply Hlt, elem_of_app; left; exact (list_elem_of_fmap_2 fst _ _ Hj)].
      rewrite Forall_forall in Hc1. apply Hc1. exact (list_elem_of_fmap_2 snd _ _ Hj).
    + intros b' Hb'. cbn. rewrite fmap_reverse. assert (Hx : b' ∈ bs1.*1 ++ [b]) by (cbn in Hperm; rewrite Hperm; apply elem_of_seq; lia).
      apply elem_of_app in Hx as [Hx|Hx]; [right; by apply elem_of_reverse|]. apply list_elem_of_singleton in Hx as ->. by left.
    + assert (Hmem : ∀ x, x ∈ (b, c) :: reverse bs1 ↔ x ∈ bs1 ++ [(b, c)]) by (intros x; rewrite elem_of_cons, elem_of_reverse, elem_of_app, list_elem_of_singleton; tauto).
      exists s2, p, c'. rewrite tm_run_app, Hs1. cbn. destruct ev as [e ev]. cbn in Hs2. rewrite Hs2. cbn. unfold core in Hcore. injection Hcore as _ H1 H2.
      split_and!; [done|done|done|by apply Hmem|]. intros j cj Hj. apply Hbest. by apply Hmem.
Qed.

(** Three branches answer 404, 486 and 302, the last one first: the 404 of the first branch ranks
    behind the 302. *)
Definition three_answers : list (nat * Z) := [(2%nat, 302); (0%nat, 404); (1%nat, 486)].
Lemma fork_relays_best_witness : ∃ s' p c, tm_run cfg0 (replies METHOD_INVITE three_answers) (forked_to T_IS_INVITE_FLAG METHOD_INVITE [0; 0; 0]) = Some s' ∧
  uas_status (tc s') = c ∧ sent (out s') = [] ++ [c] ∧ (p, c) ∈ three_answers ∧
  ∀ j cj, (j, cj) ∈ three_answers → branch_prio c false <= branch_prio cj false ∧ ((j < p)%nat → branch_prio c false < branch_prio cj false).
Proof.
  apply (fork_relays_best cfg0 (forked_to T_IS_INVITE_FLAG METHOD_INVITE [0; 0; 0]) (replies METHOD_INVITE three_answers) three_answers).
  - constructor; try done. repeat constructor.
  - done.
  - repeat constructor; cbn; do 3 eexists; (split; [reflexivity|done]).
  - repeat constructor; cbn; lia.
  - apply (bool_decide_unpack _). vm_compute. exact I.
Defined.
