(* ===== verification/Tm2xx.v ===== *)
(** * The first 2xx of an INVITE

    A 2xx on a branch of an INVITE that has no final reply yet ([reply_received] and what it
    calls in [modules/tm/t_reply.c], [cancel_uacs] of [t_cancel.c]): it is relayed at once, and
    every branch that is still pending is cancelled, or marked when nothing came from it. *)

From stdpp Require Import prelude list.
From Stdlib Require Import ZArith Lia.
From S2P Require Import Prelude HdrBodies TmReply TmReplyFacts TmReplyCancel.

(** A branch that has to be cancelled when another one wins. *)
Definition pending_branch (v : ua_client) : bool := (should_cancel_branch v).1.

(** An INVITE the server proxies, without a final reply, that wants one 2xx. *)
Record open_invite (t : cell) : Prop := {
  oi_invite : is_invite t = true;
  oi_local : is_local t = false;
  oi_multi : flag (t_flags t) T_MULTI_200OK_FLAG = false;
  oi_status : uas_status t < 200;
  oi_request : is_Some (request t)
}.

Section win.
Context (cfg : tm_cfg) (e : env) (Hbuild : e_build e = true) (Hshm : e_shm e = true).

(** What is relayed, with the branches to cancel. *)
Lemma relay_2xx b c s u t bm : open_invite (tc s) → uac (tc s) !! b = Some u → last_received u < 200 → 200 <= c < 300 →
  which_cancel (set_uac (<[b := set_last_received c u]> (uac (tc s))) (tc s)) 0 = (t, bm) →
  relay_reply cfg e b (Msg c) c s =
    Some (RPS_COMPLETED, bm, emit [SendReply (Z.of_nat b) c] (put_on_wait (set_tc (set_status c (set_relaied (Z.of_nat b) t)) s))).
Proof.
  intros [Hi Hl Hm Hs [m Hr]] Hu Hlow Hc Hw. pose proof (which_cancel_cell (set_uac (<[b := set_last_received c u]> (uac (tc s))) (tc s)) 0) as [Ht Hlen].
  rewrite Hw in Ht, Hlen. cbn [fst] in Ht, Hlen.
  assert (Hv : t_should_relay_response cfg e c b (Msg c) s = Some (Verdict RPS_COMPLETED false (Z.of_nat b) bm, set_tc t s)).
  { unfold t_should_relay_response, positive_reply, upd_branch, TM_BRANCH. rewrite Hu. cbn [mbind option_bind]. rewrite Hm, andb_false_r. cbn [andb].
    replace (200 <=? uas_status (tc s)) with false by lia. replace (200 <=? last_received u) with false by lia. cbn [andb].
    replace (300 <=? c) with false by lia. replace (100 <=? c) with true by lia. cbn [t_flags set_uac]. rewrite Hm. replace (200 <=? c) with true by lia.
    rewrite Hw. replace (c =? 100) with false by (symmetry; apply Z.eqb_neq; lia). done. }
  unfold relay_reply. rewrite Hv. cbn [mbind option_bind should_store negb should_relay v_rps v_cancel].
  rewrite (proj2 (Z.leb_le 0 (Z.of_nat b))) by apply Nat2Z.is_nonneg. rewrite Nat2Z.id.
  assert (Hb : is_Some (uac t !! b)) by (apply lookup_lt_is_Some; rewrite Hlen; cbn; rewrite length_insert; by eapply lookup_lt_Some).
  destruct Hb as [ub Hb]. unfold TM_BRANCH. cbn [tc set_tc uac set_relaied]. rewrite Hb, Nat.eqb_refl, Hbuild, Hshm. cbn [mbind option_bind reply_code andb negb].
  assert (Hf : ∀ s0, is_local (tc s0) = false → request (tc s0) = Some m → uas_status (tc s0) = c → relaied_reply_branch (tc s0) = Z.of_nat b →
    final_timer c s0 = Some (put_on_wait s0)).
  { intros s0 H1 H2 H3 H4. unfold final_timer, set_final_timer. rewrite H1, H2, H3, H4. cbn [mbind option_bind]. replace (300 <=? c) with false by lia.
    replace (Z.of_nat b =? -2) with false by (symmetry; apply Z.eqb_neq; lia). rewrite !andb_false_r, andb_false_l. by destruct (negb _ && _). }
  rewrite Hf; [done| | |done|done]; cbn; rewrite Ht; [exact Hl|exact Hr].
Qed.

(** A 2xx on a branch, up to [relay_reply]: the branch lost its mark, and nothing was sent
    upstream or cancelled. *)
Lemma received_2xx b c cseq d a s u : is_invite (tc s) = true → is_local (tc s) = false → uac (tc s) !! b = Some u → 200 <= c < 300 → cseq ≠ METHOD_CANCEL →
  ∃ acts u', sent acts = [] ∧ (∀ j, ncancel j acts = 0%nat) ∧ last_received u' = last_received u ∧
  reply_received cfg e b c cseq d a s =
    ('(r, bm, s) ← relay_reply cfg e b (Msg c) c (emit acts (set_tc (set_uac (<[b := u']> (uac (tc s))) (tc s)) s));
     Some (match r with RPS_COMPLETED => cancel_uacs e bm (cleanup_uac_timers s) | _ => s end)).
Proof.
  intros Hi Hl Hu Hc Hm. unfold reply_received. unfold TM_BRANCH at 1. rewrite Hu. cbn [mbind option_bind].
  destruct (Z.eqb_spec cseq METHOD_CANCEL) as [|_]; [done|]. cbn [andb]. rewrite (proj2 (Z.leb_le 200 c)), (proj2 (Z.leb_gt 300 c)), (proj2 (Z.ltb_ge c 200)), Hi, Hl by lia.
  rewrite andb_false_r. cbn [andb orb]. unfold upd_branch, TM_BRANCH. cbn [tc emit]. rewrite Hu. cbn [mbind option_bind].
  unfold process_reply_and_timer, TM_BRANCH. cbn [tc set_tc uac set_uac]. rewrite list_lookup_insert_eq by (by eapply lookup_lt_Some). cbn [mbind option_bind].
  rewrite (proj2 (Z.ltb_ge c 200)) by lia. unfold upd_branch, TM_BRANCH. cbn [uac set_uac]. rewrite list_lookup_insert_eq by (by eapply lookup_lt_Some).
  cbn [mbind option_bind]. rewrite list_insert_insert_eq. change (is_local (set_uac _ (tc s))) with (is_local (tc s)). change (is_invite (set_uac _ (tc s))) with (is_invite (tc s)).
  rewrite Hl, Hi. set (w := match e_reply_flags e with Some fl => set_br_flags fl u | None => u end).
  assert (Hw : last_received w = last_received u ∧ u_flags w = u_flags u) by (unfold w; by destruct (e_reply_flags e)). destruct Hw as [Hw1 Hw2]. set (acts := [ResetRetr (Request b); ResetFr (Request b)]).
  destruct (flag _ _ || _); cbn [mbind option_bind]; exists acts.
  - exists (set_u_flags (Z.land (Z.lor (u_flags u) T_UAC_HAS_RECV_REPLY) (Z.lnot T_UAC_TO_CANCEL_FLAG)) w). split_and!; [done..|].
    unfold emit, set_tc. cbn [tc kr out uac set_uac]. rewrite app_nil_r.
    destruct (relay_reply _ _ _ _ _ _) as [[[r bm] s2]|]; [|done]. cbn. by destruct r.
  - exists (set_u_flags (Z.lor (u_flags u) T_UAC_HAS_RECV_REPLY) w). split_and!; [done..|].
    destruct (relay_reply _ _ _ _ _ _) as [[[r bm] s2]|]; [|done]. cbn. by destruct r.
Qed.

(** What [cancel_uacs] does to the branches [which_cancel] chose. *)
Lemma cancel_chosen t t' bm s j v : which_cancel t 0 = (t', bm) → uac (tc s) = uac t' → uac t !! j = Some v →
  let p := bool_decide (first_branch t <= j)%nat && pending_branch v in
  ncancel j (out (cancel_uacs e bm s)) = (ncancel j (out s) + if p && negb (last_received v =? 0)%Z && e_cancel e j then 1 else 0)%nat ∧
  ∃ v', uac (tc (cancel_uacs e bm s)) !! j = Some v' ∧ (p && (last_received v =? 0) = true → to_cancel v' = true).
Proof.
  intros Hw Hs Hv p. destruct (which_cancel_spec _ _ _ Hw j) as [Hj Hbm]. rewrite Hv in Hj, Hbm. cbn in Hj. fold (pending_branch v) in Hbm. fold p in Hbm.
  unfold cancel_uacs. destruct (cancel_uacs_loop e 0 (uac (tc s)) bm) as [us acts] eqn:E. apply cancel_uacs_loop_spec in E as [H1 H2].
  specialize (H1 j). specialize (H2 j). cbn [Nat.add] in H1. rewrite Hs, Hj in H1. rewrite bool_decide_true, Nat.sub_0_r, Hs, Hj in H2 by lia. cbn in H1.
  set (w := if bool_decide _ then _ else _) in H1, H2. assert (Hw' : last_received w = last_received v).
  { unfold w, should_cancel_branch. by repeat case_match. }
  cbn [out emit tc set_tc uac set_uac]. rewrite ncancel_app, H2. split.
  - f_equal. unfold cancel_one, cancel_branch. rewrite Hbm, Hw'. destruct p; [|done]. destruct (_ =? 0); [done|]. destruct (e_cancel e j); [|done].
    cbn. unfold ncancel. cbn. by rewrite decide_True.
  - eexists. split; [exact H1|]. intros [Hp H0]%andb_true_iff. unfold cancel_one. rewrite Hbm, Hp, Hw', H0. apply to_cancel_lor.
Qed.
End win.


(** The second of three branches answers while the first one rings. *)
Definition ringing : tst :=
  default (forked_to 0 METHOD_BYE []) (tm_run cfg0 (replies METHOD_INVITE [(0%nat, 180)]) (forked_to T_IS_INVITE_FLAG METHOD_INVITE [0; 0; 0])).
