(* ===== verification/TmTimer.v ===== *)
(** * The timers of transactions

    The timer lists of [modules/tm/timer.c] with [_set_fr_retr] of [t_funcs.h].  A list is
    doubly linked between the two sentinels of its [struct timer], ordered by the time its
    timers hit; the timers that hit at the same time form a run, whose two ends point to each
    other with [ld_tl], so that whole runs can be skipped.

    A heap maps addresses to links; a pointer is [None] when it is null, and an access through
    a null pointer, or a loop that does not end, is [None].  The lists of one timer set are
    modelled.  An operation under the lock of a list is one step; the timer process detaches
    the timers that hit in one step and runs their handlers in later ones, and other
    processes may interleave. *)

From stdpp Require Import prelude list gmap.
From Stdlib Require Import ZArith Lia.
From S2P Require Import Prelude.

(** ** Data *)

Inductive lists := FR_TIMER_LIST | FR_INV_TIMER_LIST | WT_TIMER_LIST | DELETE_LIST | RT_T1_TO_1 | RT_T1_TO_2 | RT_T1_TO_3 | RT_T2.

(** The address of a link: the sentinels of a list, or a link inside a transaction. *)
Inductive tl_addr := first_tl (l : lists) | last_tl (l : lists) | Link (n : nat).

#[global] Instance lists_eq_dec : EqDecision lists.
Proof. solve_decision. Defined.
#[global] Instance tl_addr_eq_dec : EqDecision tl_addr.
Proof. solve_decision. Defined.

Definition list_number (l : lists) : nat :=
  match l with
  | FR_TIMER_LIST => 0 | FR_INV_TIMER_LIST => 1 | WT_TIMER_LIST => 2 | DELETE_LIST => 3
  | RT_T1_TO_1 => 4 | RT_T1_TO_2 => 5 | RT_T1_TO_3 => 6 | RT_T2 => 7
  end.
Definition list_of_number (n : nat) : lists :=
  match n with
  | 0 => FR_TIMER_LIST | 1 => FR_INV_TIMER_LIST | 2 => WT_TIMER_LIST | 3 => DELETE_LIST
  | 4 => RT_T1_TO_1 | 5 => RT_T1_TO_2 | 6 => RT_T1_TO_3 | _ => RT_T2
  end%nat.
#[global] Program Instance tl_addr_countable : Countable tl_addr :=
  inj_countable' (λ a, match a with first_tl l => inl (inl (list_number l)) | last_tl l => inl (inr (list_number l)) | Link n => inr n end)
    (λ x, match x with inl (inl n) => first_tl (list_of_number n) | inl (inr n) => last_tl (list_of_number n) | inr n => Link n end) _.
Next Obligation. by intros [[]|[]|n]. Qed.

(** The list a link is on: none, [DETACHED_LIST], or a list. *)
Inductive timer_ref := NoList | DETACHED_LIST | OnList (l : lists).
#[global] Instance timer_ref_eq_dec : EqDecision timer_ref.
Proof. solve_decision. Defined.

(** [struct timer_link], without the number of its set. *)
Record timer_link := TimerLink {
  next_tl : option tl_addr;
  prev_tl : option tl_addr;
  ld_tl : option tl_addr;
  time_out : Z;
  timer_list : timer_ref;
  deleted : bool
}.
Abbreviation theap := (gmap tl_addr timer_link).

(** Assignments to one field. *)
Definition wr (a : tl_addr) (f : timer_link → timer_link) (h : theap) : option theap := n ← h !! a; Some (<[a := f n]> h).
Definition wr_next (a : tl_addr) (v : option tl_addr) : theap → option theap :=
  wr a (λ n, TimerLink v (prev_tl n) (ld_tl n) (time_out n) (timer_list n) (deleted n)).
Definition wr_prev (a : tl_addr) (v : option tl_addr) : theap → option theap :=
  wr a (λ n, TimerLink (next_tl n) v (ld_tl n) (time_out n) (timer_list n) (deleted n)).
Definition wr_ld (a : tl_addr) (v : option tl_addr) : theap → option theap :=
  wr a (λ n, TimerLink (next_tl n) (prev_tl n) v (time_out n) (timer_list n) (deleted n)).
Definition wr_time (a : tl_addr) (v : Z) : theap → option theap :=
  wr a (λ n, TimerLink (next_tl n) (prev_tl n) (ld_tl n) v (timer_list n) (deleted n)).
Definition wr_list (a : tl_addr) (v : timer_ref) : theap → option theap :=
  wr a (λ n, TimerLink (next_tl n) (prev_tl n) (ld_tl n) (time_out n) v (deleted n)).
Definition wr_deleted (a : tl_addr) (v : bool) : theap → option theap :=
  wr a (λ n, TimerLink (next_tl n) (prev_tl n) (ld_tl n) (time_out n) (timer_list n) v).

(** ** Lists *)

Definition reset_timer_list (l : lists) (h : theap) : option theap :=
  h ← wr_next (first_tl l) (Some (last_tl l)) h;
  h ← wr_prev (last_tl l) (Some (first_tl l)) h;
  h ← wr_next (last_tl l) None h;
  h ← wr_prev (first_tl l) None h;
  wr_time (last_tl l) (2 ^ 64 - 1) h.

Definition is_in_timer_list2 (t : timer_link) : bool := match timer_list t with OnList _ => true | _ => false end.

(** The run of [tl], which the link [t] describes, loses one of its ends. *)
Definition unlink_ld (tl : tl_addr) (t : timer_link) (h : theap) : option theap :=
  match ld_tl t with
  | Some ld =>
      if bool_decide (ld ≠ tl) then
        p ← prev_tl t; pn ← h !! p;
        if time_out t =? time_out pn then h ← wr_ld p (Some ld) h; wr_ld ld (Some p) h
        else n ← next_tl t; h ← wr_ld n (Some ld) h; wr_ld ld (Some n) h
      else Some h
  | None => Some h
  end.

Definition remove_timer_unsafe (tl : tl_addr) (h : theap) : option theap :=
  t ← h !! tl;
  if is_in_timer_list2 t then
    h ← unlink_ld tl t h;
    p ← prev_tl t; n ← next_tl t;
    h ← wr_next p (Some n) h;
    h ← wr_prev n (Some p) h;
    h ← wr_next tl None h;
    h ← wr_prev tl None h;
    h ← wr_ld tl None h;
    wr_list tl NoList h
  else Some h.

(** The loop of [insert_timer_unsafe], from [ptr] back. *)
Fixpoint insert_loop (fuel : nat) (h : theap) (l : lists) (t : Z) (ptr : tl_addr) : option tl_addr :=
  match fuel with
  | O => None
  | S k =>
      if bool_decide (ptr = first_tl l) then Some ptr
      else
        p ← h !! ptr;
        if time_out p <=? t then Some ptr
        else ld ← ld_tl p; d ← h !! ld; p ← prev_tl d; insert_loop k h l t p
  end.

Definition insert_timer_unsafe (l : lists) (tl : tl_addr) (t : Z) (h : theap) : option theap :=
  h ← wr_time tl t h;
  h ← wr_list tl (OnList l) h;
  h ← wr_deleted tl false h;
  e ← h !! last_tl l; ptr ← prev_tl e;
  ptr ← insert_loop (S (size h)) h l t ptr;
  h ← wr_prev tl (Some ptr) h;
  p ← h !! ptr; n ← next_tl p;
  h ← wr_next tl (Some n) h;
  h ← wr_next ptr (Some tl) h;
  h ← wr_prev n (Some tl) h;
  p ← h !! ptr;
  if t =? time_out p then
    ld ← ld_tl p;
    h ← wr_ld tl (Some ld) h;
    h ← wr_ld ptr None h;
    wr_ld ld (Some tl) h
  else wr_ld tl (Some tl) h.

(** The loops of [check_and_split_time_list]: to the first timer that does not hit, and over
    the timers that were detached. *)
Fixpoint split_loop (fuel : nat) (h : theap) (l : lists) (time : Z) (tl : tl_addr) : option tl_addr :=
  match fuel with
  | O => None
  | S k =>
      if bool_decide (tl = last_tl l) then Some tl
      else
        t ← h !! tl;
        if time_out t <=? time then ld ← ld_tl t; d ← h !! ld; n ← next_tl d; split_loop k h l time n
        else Some tl
  end.
Fixpoint detach_loop (fuel : nat) (tl : option tl_addr) (h : theap) : option theap :=
  match fuel, tl with
  | _, None => Some h
  | O, _ => None
  | S k, Some tl => h ← wr_list tl DETACHED_LIST h; t ← h !! tl; detach_loop k (next_tl t) h
  end.

(** The heap and the first of the timers that hit. *)
Definition check_and_split_time_list (l : lists) (time : Z) (h : theap) : option (theap * option tl_addr) :=
  f ← h !! first_tl l; start ← next_tl f;
  s ← h !! start;
  if bool_decide (start = last_tl l) || (time <? time_out s) then Some (h, None)
  else
    tl ← split_loop (S (size h)) h l time start;
    t ← h !! tl; p ← prev_tl t;
    if bool_decide (p = first_tl l) then Some (h, None)
    else
      h ← wr_next p None h;
      h ← wr_next (first_tl l) (Some tl) h;
      h ← wr_prev tl (Some (first_tl l)) h;
      h ← detach_loop (size h) (Some start) h;
      Some (h, Some start).

(** ** Timers *)

Definition UTIME_TYPE (l : lists) : bool := match l with RT_T1_TO_1 | RT_T1_TO_2 | RT_T1_TO_3 | RT_T2 => true | _ => false end.

(** The clocks, [get_ticks] in seconds and [get_uticks] in microseconds. *)
Record clock := Clock { get_ticks : Z; get_uticks : Z }.

(** When a timer that is set now hits; [tmo] is [timer_id2timeout]. *)
Definition hits_at (tmo : lists → Z) (c : clock) (l : lists) (ext_timeout : option Z) : Z :=
  u64 (default (tmo l) ext_timeout + if UTIME_TYPE l then get_uticks c else get_ticks c).

Definition reset_timer (tl : tl_addr) (h : theap) : option theap := wr_deleted tl true h.

Section timeouts.
Context (tmo : lists → Z).

Definition set_timer (c : clock) (tl : tl_addr) (l : lists) (ext_timeout : option Z) (h : theap) : option theap :=
  t ← h !! tl;
  match timer_list t with
  | DETACHED_LIST => Some h
  | _ => h ← remove_timer_unsafe tl h; insert_timer_unsafe l tl (hits_at tmo c l ext_timeout) h
  end.

(** True when the timer was added. *)
Definition set_1timer (c : clock) (tl : tl_addr) (l : lists) (ext_timeout : option Z) (h : theap) : option (theap * bool) :=
  t ← h !! tl;
  if time_out t =? 0 then h ← insert_timer_unsafe l tl (hits_at tmo c l ext_timeout) h; Some (h, true)
  else Some (h, false).

(** ** Steps *)

(** The heap, [retr_list] of the buffers with a retransmission timer, the timers the timer process
    still has to handle and the ones whose handlers it has run. *)
Record tm_timers := Timers { th : theap; retr_list : tl_addr → lists; cur : option tl_addr; fired : list tl_addr }.

Definition with_heap (s : tm_timers) (h : theap) : tm_timers := Timers h (retr_list s) (cur s) (fired s).
Definition set_retr (tl : tl_addr) (l : lists) (s : tm_timers) : tm_timers :=
  Timers (th s) (λ a, if bool_decide (a = tl) then l else retr_list s a) (cur s) (fired s).

(** [_set_fr_retr], of the buffer with the timers [rt] and [fr]; [retr] is whether it is
    retransmitted. *)
Definition _set_fr_retr (c : clock) (rt fr : tl_addr) (retr : bool) (fr_timeout : option Z) (s : tm_timers) : option tm_timers :=
  t ← th s !! rt;
  s ← (if retr && negb (deleted t) then
         let s := set_retr rt RT_T1_TO_1 s in h ← set_timer c rt RT_T1_TO_1 None (th s); Some (with_heap s h)
       else Some s);
  '(h, _) ← set_1timer c fr FR_TIMER_LIST fr_timeout (th s);
  Some (with_heap s h).

(** What a handler does to its own timer: nothing, the retransmission timer is set again, and so
    is the delete timer of a transaction that is still referenced. *)
Inductive handler := final_response_or_wait | retransmission_handler | delete_handler (reffed : bool).

Definition next_retr (id : lists) : lists :=
  match id with FR_TIMER_LIST => FR_INV_TIMER_LIST | FR_INV_TIMER_LIST => WT_TIMER_LIST | WT_TIMER_LIST => DELETE_LIST | DELETE_LIST => RT_T1_TO_1
  | RT_T1_TO_1 => RT_T1_TO_2 | RT_T1_TO_2 => RT_T1_TO_3 | RT_T1_TO_3 => RT_T2 | RT_T2 => RT_T2 end.

Definition rearm (c : clock) (tl : tl_addr) (l : lists) (h : theap) : option theap :=
  h ← wr_list tl NoList h; set_timer c tl l None h.

Definition run_handler (c : clock) (hd : handler) (tl : tl_addr) (s : tm_timers) : option tm_timers :=
  match hd with
  | final_response_or_wait => Some s
  | retransmission_handler =>
      let id := next_retr (retr_list s tl) in
      let s := set_retr tl id s in
      h ← rearm c tl id (th s); Some (with_heap s h)
  | delete_handler reffed => if reffed then h ← rearm c tl DELETE_LIST (th s); Some (with_heap s h) else Some s
  end.

(** One turn of [run_handler_for_each]. *)
Definition run_handler_for_each (c : clock) (hd : handler) (s : tm_timers) : option tm_timers :=
  match cur s with
  | None => Some s
  | Some tl =>
      t ← th s !! tl;
      let tmp_tl := next_tl t in
      h ← wr_prev tl None (th s);
      h ← wr_next tl None h;
      if deleted t then Some (Timers h (retr_list s) tmp_tl (fired s))
      else run_handler c hd tl (Timers h (retr_list s) tmp_tl (fired s ++ [tl]))
  end.

(** The start of the turn of [timer_routine] and [utimer_routine] for a list, once the timers
    of the list before were handled. *)
Definition detach_expired (l : lists) (time : Z) (s : tm_timers) : option tm_timers :=
  match cur s with
  | Some _ => Some s
  | None => '(h, tl) ← check_and_split_time_list l time (th s); Some (Timers h (retr_list s) tl (fired s))
  end.

(** [run_handler_for_each]; the fuel is more than the number of links. *)
Fixpoint handle_all (fuel : nat) (c : clock) (hd : handler) (s : tm_timers) : option tm_timers :=
  match cur s, fuel with
  | None, _ => Some s
  | _, O => None
  | _, S k => s ← run_handler_for_each c hd s; handle_all k c hd s
  end.

(** [utimer_routine]: the retransmission lists one after the other. *)
Definition retransmit_list (c : clock) (l : lists) (s : tm_timers) : option tm_timers :=
  s ← detach_expired l (get_uticks c) s; handle_all (S (size (th s))) c retransmission_handler s.
Definition utimer_routine (c : clock) (s : tm_timers) : option tm_timers :=
  s ← retransmit_list c RT_T1_TO_1 s;
  s ← retransmit_list c RT_T1_TO_2 s;
  s ← retransmit_list c RT_T1_TO_3 s;
  retransmit_list c RT_T2 s.

(** [TSlow] is a provisional reply to a request that is not an INVITE, [TUnlink] a timer of a
    transaction that is deleted. *)
Inductive timer_op :=
  | TSet (n : nat) (l : lists) (ext_timeout : option Z)
  | TSet1 (n : nat) (l : lists) (ext_timeout : option Z)
  | TReset (n : nat)
  | TUnlink (n : nat)
  | TStart (rt fr : nat) (retr : bool) (fr_timeout : option Z)
  | TSlow (n : nat)
  | TDetach (l : lists)
  | THandle (hd : handler).

Definition timer_step (c : clock) (o : timer_op) (s : tm_timers) : option tm_timers :=
  match o with
  | TSet n l x => with_heap s <$> set_timer c (Link n) l x (th s)
  | TSet1 n l x => with_heap s <$> (fst <$> set_1timer c (Link n) l x (th s))
  | TReset n => with_heap s <$> reset_timer (Link n) (th s)
  | TUnlink n => with_heap s <$> remove_timer_unsafe (Link n) (th s)
  | TStart rt fr retr x => _set_fr_retr c (Link rt) (Link fr) retr x s
  | TSlow n => let s := set_retr (Link n) RT_T2 s in with_heap s <$> set_timer c (Link n) RT_T2 None (th s)
  | TDetach l => detach_expired l (if UTIME_TYPE l then get_uticks c else get_ticks c) s
  | THandle hd => run_handler_for_each c hd s
  end.
Fixpoint timer_run (ops : list (clock * timer_op)) (s : tm_timers) : option tm_timers :=
  match ops with [] => Some s | (c, o) :: ops => s ← timer_step c o s; timer_run ops s end.
End timeouts.

(** ** Creation *)

Definition all_lists : list lists := [FR_TIMER_LIST; FR_INV_TIMER_LIST; WT_TIMER_LIST; DELETE_LIST; RT_T1_TO_1; RT_T1_TO_2; RT_T1_TO_3; RT_T2].
Definition MIN_TIMER_VALUE : Z := 2.

(** The timeouts after [tm_init_timers]; [None] when they are refused. *)
Definition init_timeouts (tmo : lists → Z) : option (lists → Z) :=
  if (tmo FR_TIMER_LIST <? MIN_TIMER_VALUE) || (tmo FR_INV_TIMER_LIST <? MIN_TIMER_VALUE) ||
     (tmo WT_TIMER_LIST <? MIN_TIMER_VALUE) || (tmo DELETE_LIST <? MIN_TIMER_VALUE) then None
  else if tmo RT_T2 <=? tmo RT_T1_TO_1 then None
  else
    let t1 := u32 (tmo RT_T1_TO_1 * 1000) in
    let t2 := u32 (tmo RT_T2 * 1000) in
    let upto n := let t := u32 (Z.shiftl t1 n) in if t <? t2 then t else t2 in
    Some (λ l, match l with RT_T1_TO_1 => t1 | RT_T2 => t2 | RT_T1_TO_2 => upto 1 | RT_T1_TO_3 => upto 2 | _ => tmo l end).

(** The default timeouts, before [tm_init_timers]. *)
Definition timer_id2timeout (l : lists) : Z :=
  match l with FR_TIMER_LIST => 30 | FR_INV_TIMER_LIST => 120 | WT_TIMER_LIST => 5 | DELETE_LIST => 2 | RT_T1_TO_1 => 500 | RT_T1_TO_2 => 0 | RT_T1_TO_3 => 0 | RT_T2 => 4000 end.

Definition zero_link : timer_link := TimerLink None None None 0 NoList false.
(** The lists of a set after [tm_init_timers], with [n] links that were never used. *)
Definition init_heap (n : nat) : option theap :=
  foldr (λ l h, h ← h; reset_timer_list l h)
    (Some (list_to_map ((λ a, (a, zero_link)) <$> (first_tl <$> all_lists) ++ (last_tl <$> all_lists) ++ (Link <$> seq 0 n))))
    all_lists.
