(* ===== verification/TmTimerFacts.v ===== *)
(** * The timer lists as sequences of runs

    The links of a list as a segment between its sentinels, grouped in runs that hit at the
    same time, and what the operations of [TmTimer] do to it. *)

From stdpp Require Import prelude list sorting gmap.
From Stdlib Require Import ZArith Lia.
From S2P Require Import Prelude TmTimer.

(** ** Doubly linked paths *)

Section paths.
Context {A : Type} `{!EqDecision A}.
Implicit Types (f g : A → option A) (l : list A).

Definition fupd {B} (f : A → B) (a : A) (v : B) : A → B := λ x, if decide (x = a) then v else f x.

Lemma fupd_eq {B} (f : A → B) a v : fupd f a v a = v.
Proof. unfold fupd. by rewrite decide_True. Qed.
Lemma fupd_ne {B} (f : A → B) a v x : x ≠ a → fupd f a v x = f x.
Proof. intros. unfold fupd. by rewrite decide_False. Qed.

(** Each element points to the next one with [f], and back with [g]. *)
Fixpoint path f g (l : list A) : Prop :=
  match l with
  | x :: t => match t with [] => True | y :: _ => f x = Some y ∧ g y = Some x ∧ path f g t end
  | [] => True
  end.

Lemma path_app f g a l1 c l2 :
  path f g ((a :: l1) ++ c :: l2) ↔ path f g (a :: l1) ∧ (f (last_or a l1) = Some c ∧ g c = Some (last_or a l1)) ∧ path f g (c :: l2).
Proof.
  revert a. induction l1 as [|x l1 IH]; intros a.
  - cbn. tauto.
  - rewrite last_or_cons. specialize (IH x). cbn [app] in *. change (path f g (a :: x :: l1 ++ c :: l2)) with (f a = Some x ∧ g x = Some a ∧ path f g (x :: l1 ++ c :: l2)).
    change (path f g (a :: x :: l1)) with (f a = Some x ∧ g x = Some a ∧ path f g (x :: l1)). tauto.
Qed.

(** What [f] is at the last element and [g] at the first one does not matter. *)
Lemma path_ext f g f' g' a l : NoDup (a :: l) → (∀ x, x ∈ a :: l → x ≠ last_or a l → f' x = f x) → (∀ x, x ∈ l → g' x = g x) →
  path f g (a :: l) → path f' g' (a :: l).
Proof.
  revert a. induction l as [|x l IH]; intros a Hnd Hf Hg Hp; [done|]. destruct Hp as (H1 & H2 & H3). apply NoDup_cons in Hnd as [Ha Hnd].
  rewrite last_or_cons in Hf. split_and!.
  - rewrite Hf; [done|by left|]. intros ->. apply Ha. apply last_or_elem.
  - rewrite Hg; [done|by left].
  - apply IH; [done| | |done].
    + intros y Hy. apply Hf. by right.
    + intros y Hy. apply Hg. by right.
Qed.

(** A node between two others. *)
Lemma path_insert f g a l1 c l2 n : path f g ((a :: l1) ++ c :: l2) → NoDup ((a :: l1) ++ c :: l2) → n ∉ (a :: l1) ++ c :: l2 →
  path (fupd (fupd f n (Some c)) (last_or a l1) (Some n)) (fupd (fupd g n (Some (last_or a l1))) c (Some n)) ((a :: l1) ++ n :: c :: l2).
Proof.
  intros (H1 & _ & H2)%path_app (N1 & Hd & N2)%NoDup_app [Hn1 Hn2]%not_elem_of_app. pose proof (last_or_elem a l1) as Hl. set (p := last_or a l1) in *.
  assert (n ≠ p) by (intros ->; done). assert (n ≠ c) by (intros ->; apply Hn2; by left).
  apply path_app. fold p. split_and!.
  - apply path_ext with f g; [done| | |done]; intros x Hx.
    + intros Hxp. rewrite !fupd_ne; [done|intros ->; done|done].
    + assert (x ∈ a :: l1) by (by right). rewrite !fupd_ne; [done|intros ->; done|]. intros ->. apply (Hd c); [done|by left].
  - by rewrite fupd_eq.
  - rewrite fupd_ne, fupd_eq; [done|done].
  - assert (p ∉ c :: l2) by (by apply Hd). split_and!.
    + rewrite fupd_ne, fupd_eq by done. done.
    + by rewrite fupd_eq.
    + apply path_ext with f g; [done| | |done]; intros x Hx.
      * intros _. rewrite !fupd_ne; [done|intros ->; done|intros ->; done].
      * assert (x ∈ c :: l2) by (by right). rewrite !fupd_ne; [done|intros ->; done|]. intros ->. apply NoDup_cons in N2 as [N2 _]. done.
Qed.

(** A node is taken out. *)
Lemma path_delete f g a l1 n c l2 : path f g ((a :: l1) ++ n :: c :: l2) → NoDup ((a :: l1) ++ n :: c :: l2) →
  path (fupd f (last_or a l1) (Some c)) (fupd g c (Some (last_or a l1))) ((a :: l1) ++ c :: l2).
Proof.
  intros (H1 & _ & H2)%path_app (N1 & Hd & N2)%NoDup_app. pose proof (last_or_elem a l1) as Hl. set (p := last_or a l1) in *. destruct H2 as (_ & _ & H2).
  apply NoDup_cons in N2 as [Hn N2]. assert (Hd' : ∀ x, x ∈ a :: l1 → x ∉ c :: l2) by (intros x Hx Hx'; apply (Hd x Hx); by right).
  apply path_app. fold p. split_and!.
  - apply path_ext with f g; [done| | |done]; intros x Hx.
    + intros Hxp. by rewrite fupd_ne.
    + rewrite fupd_ne; [done|]. intros ->. apply (Hd' c); [by right|by left].
  - by rewrite fupd_eq.
  - by rewrite fupd_eq.
  - apply path_ext with f g; [done| | |done]; intros x Hx.
    + intros _. rewrite fupd_ne; [done|]. intros ->. by apply (Hd' p).
    + rewrite fupd_ne; [done|]. intros ->. by apply NoDup_cons in N2 as [N2 _].
Qed.
End paths.

(** ** Heaps by field *)

(** The fields of the links of a heap as functions of the address. *)
Record view := View {
  fn : tl_addr → option tl_addr;
  fp : tl_addr → option tl_addr;
  fl : tl_addr → option tl_addr;
  ft : tl_addr → Z;
  fw : tl_addr → timer_ref;
  fd : tl_addr → bool
}.
Definition view_at (V : view) (a : tl_addr) : timer_link := TimerLink (fn V a) (fp V a) (fl V a) (ft V a) (fw V a) (fd V a).
Definition shows (h : theap) (V : view) (D : gset tl_addr) : Prop := ∀ a, h !! a = if decide (a ∈ D) then Some (view_at V a) else None.

Section shows.
Context (D : gset tl_addr).

Lemma shows_lookup h V a : shows h V D → a ∈ D → h !! a = Some (view_at V a).
Proof. intros H Ha. rewrite H. by rewrite decide_True. Qed.

Lemma shows_size h V : shows h V D → size h = size D.
Proof.
  intros H. rewrite <- size_dom. f_equal. apply leibniz_equiv. intros a. rewrite elem_of_dom, H. by case_decide; split.
Qed.

Lemma wr_shows h V V' a f : shows h V D → a ∈ D → f (view_at V a) = view_at V' a → (∀ b, b ≠ a → view_at V' b = view_at V b) →
  ∃ h', wr a f h = Some h' ∧ shows h' V' D.
Proof.
  intros H Ha Hf Ho. unfold wr. rewrite (shows_lookup h V a H Ha). cbn. eexists. split; [done|]. intros b. destruct (decide (b = a)) as [->|Hb].
  - by rewrite lookup_insert_eq, decide_True, Hf.
  - rewrite lookup_insert_ne by done. rewrite H. case_decide; [|done]. by rewrite Ho.
Qed.

Ltac wr_view := intros H Ha; eapply wr_shows; [exact H|exact Ha| |]; [unfold view_at; cbn; by rewrite fupd_eq|intros b Hb; unfold view_at; cbn; by rewrite fupd_ne].
Lemma wr_next_shows h V a v : shows h V D → a ∈ D → ∃ h', wr_next a v h = Some h' ∧ shows h' (View (fupd (fn V) a v) (fp V) (fl V) (ft V) (fw V) (fd V)) D.
Proof. wr_view. Qed.
Lemma wr_prev_shows h V a v : shows h V D → a ∈ D → ∃ h', wr_prev a v h = Some h' ∧ shows h' (View (fn V) (fupd (fp V) a v) (fl V) (ft V) (fw V) (fd V)) D.
Proof. wr_view. Qed.
Lemma wr_ld_shows h V a v : shows h V D → a ∈ D → ∃ h', wr_ld a v h = Some h' ∧ shows h' (View (fn V) (fp V) (fupd (fl V) a v) (ft V) (fw V) (fd V)) D.
Proof. wr_view. Qed.
Lemma wr_time_shows h V a v : shows h V D → a ∈ D → ∃ h', wr_time a v h = Some h' ∧ shows h' (View (fn V) (fp V) (fl V) (fupd (ft V) a v) (fw V) (fd V)) D.
Proof. wr_view. Qed.
Lemma wr_list_shows h V a v : shows h V D → a ∈ D → ∃ h', wr_list a v h = Some h' ∧ shows h' (View (fn V) (fp V) (fl V) (ft V) (fupd (fw V) a v) (fd V)) D.
Proof. wr_view. Qed.
Lemma wr_deleted_shows h V a v : shows h V D → a ∈ D → ∃ h', wr_deleted a v h = Some h' ∧ shows h' (View (fn V) (fp V) (fl V) (ft V) (fw V) (fupd (fd V) a v)) D.
Proof. wr_view. Qed.
End shows.

(** One assignment of a program. *)
Ltac step_wr :=
  match goal with
  | H : shows ?h ?V ?D |- context [wr_next ?a ?v ?h] => let h' := fresh "h" in let H' := fresh "Hsh" in destruct (wr_next_shows D h V a v H) as (h' & -> & H'); [|cbn [mbind option_bind fn fp fl ft fw fd] in H' |- *; clear H]
  | H : shows ?h ?V ?D |- context [wr_prev ?a ?v ?h] => let h' := fresh "h" in let H' := fresh "Hsh" in destruct (wr_prev_shows D h V a v H) as (h' & -> & H'); [|cbn [mbind option_bind fn fp fl ft fw fd] in H' |- *; clear H]
  | H : shows ?h ?V ?D |- context [wr_ld ?a ?v ?h] => let h' := fresh "h" in let H' := fresh "Hsh" in destruct (wr_ld_shows D h V a v H) as (h' & -> & H'); [|cbn [mbind option_bind fn fp fl ft fw fd] in H' |- *; clear H]
  | H : shows ?h ?V ?D |- context [wr_time ?a ?v ?h] => let h' := fresh "h" in let H' := fresh "Hsh" in destruct (wr_time_shows D h V a v H) as (h' & -> & H'); [|cbn [mbind option_bind fn fp fl ft fw fd] in H' |- *; clear H]
  | H : shows ?h ?V ?D |- context [wr_list ?a ?v ?h] => let h' := fresh "h" in let H' := fresh "Hsh" in destruct (wr_list_shows D h V a v H) as (h' & -> & H'); [|cbn [mbind option_bind fn fp fl ft fw fd] in H' |- *; clear H]
  | H : shows ?h ?V ?D |- context [wr_deleted ?a ?v ?h] => let h' := fresh "h" in let H' := fresh "Hsh" in destruct (wr_deleted_shows D h V a v H) as (h' & -> & H'); [|cbn [mbind option_bind fn fp fl ft fw fd] in H' |- *; clear H]
  end.
(** One read. *)
Ltac step_rd :=
  match goal with
  | H : shows ?h ?V ?D |- context [?h !! ?a] => rewrite (shows_lookup D h V a H); [unfold view_at at 1; cbn [mbind option_bind next_tl prev_tl ld_tl time_out timer_list deleted fn fp fl ft fw fd]|]
  end.

(** ** Runs *)

(** The timers that hit at a time, in the order in which they were set. *)
Abbreviation run := (Z * list tl_addr)%type.
Definition flat (rs : list run) : list tl_addr := concat (snd <$> rs).
Definition nodes (l : lists) (rs : list run) : list tl_addr := first_tl l :: flat rs ++ [last_tl l].

Lemma flat_app rs rs' : flat (rs ++ rs') = flat rs ++ flat rs'.
Proof. unfold flat. by rewrite fmap_app, concat_app. Qed.
Lemma flat_cons r rs : flat (r :: rs) = r.2 ++ flat rs.
Proof. done. Qed.

(** The ends of a run point to each other. *)
Definition ldrun (ld : tl_addr → option tl_addr) (l : list tl_addr) : Prop :=
  ∃ x t, l = x :: t ∧ ld x = Some (last_or x t) ∧ ld (last_or x t) = Some x ∧ ∀ y, y ∈ t → y ≠ last_or x t → ld y = None.

Lemma ldrun_ext ld ld' l : (∀ y, y ∈ l → ld' y = ld y) → ldrun ld l → ldrun ld' l.
Proof.
  intros He (x & t & -> & H1 & H2 & H3). exists x, t. split; [done|]. split; [rewrite He; [done|by left]|]. split; [rewrite He; [done|apply last_or_elem]|].
  intros y Hy Hn. rewrite He; [by apply H3|by right].
Qed.

Record rep (V : view) (l : lists) (rs : list run) : Prop := {
  rep_path : path (fn V) (fp V) (nodes l rs);
  rep_nodup : NoDup (nodes l rs);
  rep_ld : Forall (λ r, ldrun (fl V) r.2) rs;
  rep_time : Forall (λ r, Forall (λ a, ft V a = r.1) r.2) rs;
  rep_sorted : StronglySorted (λ r r', r.1 < r'.1) rs;
  rep_pos : Forall (λ r, 0 < r.1) rs;
  rep_first : ft V (first_tl l) = 0
}.

Lemma flat_elem r rs a : r ∈ rs → a ∈ r.2 → a ∈ flat rs.
Proof.
  intros Hr Ha. apply list_elem_of_split in Hr as (rs1 & rs2 & ->). rewrite flat_app, flat_cons. apply elem_of_app. right. apply elem_of_app. by left.
Qed.

Lemma rep_frame V V' l rs : rep V l rs → (∀ a, a ∈ nodes l rs → fn V' a = fn V a ∧ fp V' a = fp V a ∧ fl V' a = fl V a ∧ ft V' a = ft V a) → rep V' l rs.
Proof.
  intros [Hp Hn Hl Ht Hs Hpos Hf] He. constructor; [| done | | |done|done|].
  - apply path_ext with (fn V) (fp V); [done| | |done]; intros x Hx; [intros _; by apply He|]. apply He. by right.
  - rewrite Forall_forall in Hl |- *. intros r Hr. apply ldrun_ext with (fl V); [|by apply Hl]. intros y Hy. apply He. right. apply elem_of_app. left. by eapply flat_elem.
  - rewrite Forall_forall in Ht |- *. intros r Hr. specialize (Ht r Hr). rewrite Forall_forall in Ht |- *. intros a Ha. rewrite <- (Ht a Ha). apply He.
    right. apply elem_of_app. left. by eapply flat_elem.
  - rewrite <- Hf. apply He. by left.
Qed.

(** ** Insertion *)

(** The links of a run belong to the list. *)
Lemma run_nodes l ra t as' rb a : a ∈ as' → a ∈ nodes l (ra ++ (t, as') :: rb).
Proof. intros Ha. right. rewrite flat_app, flat_cons. apply elem_of_app. left. apply elem_of_app. right. apply elem_of_app. by left. Qed.

(** The ends of a run, and the links around it. *)
Lemma rep_run_ends V l ra t as' rb : rep V l (ra ++ (t, as') :: rb) →
  ∃ x tl, as' = x :: tl ∧ last_or (first_tl l) (flat (ra ++ [(t, as')])) = last_or x tl ∧ last_or x tl ≠ first_tl l ∧ ft V (last_or x tl) = t ∧
    fl V (last_or x tl) = Some x ∧ fl V x = Some (last_or x tl) ∧ ft V x = t ∧ fp V x = Some (last_or (first_tl l) (flat ra)).
Proof.
  intros [Hp Hn Hl Ht _ _ _]. apply Forall_app in Hl as [_ Hl]. apply Forall_cons in Hl as [Hl _]. apply Forall_app in Ht as [_ Ht]. apply Forall_cons in Ht as [Ht _].
  cbn in Hl, Ht. destruct Hl as (x & tl & -> & H1 & H2 & _). exists x, tl. rewrite Forall_forall in Ht.
  assert (He : last_or (first_tl l) (flat (ra ++ [(t, x :: tl)])) = last_or x tl).
  { rewrite flat_app, last_or_app. unfold flat at 2. cbn [fmap list_fmap concat snd app]. by rewrite app_nil_r, last_or_cons. }
  unfold nodes in Hp, Hn. rewrite flat_app, flat_cons in Hp, Hn. cbn [snd] in Hp, Hn. rewrite <- !app_assoc in Hp, Hn. cbn [app] in Hp, Hn.
  split_and!; [done|done| |apply Ht, last_or_elem|done|done|apply Ht; by left|].
  - intros E. apply NoDup_cons in Hn as [Hn _]. apply Hn. apply elem_of_app. right. apply (elem_of_app (x :: tl)). left. rewrite <- E. apply last_or_elem.
  - change (path (fn V) (fp V) ((first_tl l :: flat ra) ++ x :: (tl ++ flat rb ++ [last_tl l]))) in Hp. apply path_app in Hp as (_ & [_ H] & _). done.
Qed.

(** ** Insertion *)

Lemma insert_loop_spec D l h V t : shows h V D → ∀ rs2 rs1 rb fuel, rep V l (rs1 ++ rs2 ++ rb) → (∀ a, a ∈ nodes l (rs1 ++ rs2 ++ rb) → a ∈ D) →
  Forall (λ r, r.1 <= t) rs1 → Forall (λ r, t < r.1) rs2 → (length rs2 < fuel)%nat →
  insert_loop fuel h l t (last_or (first_tl l) (flat (rs1 ++ rs2))) = Some (last_or (first_tl l) (flat rs1)).
Proof.
  intros Hsh rs2. induction rs2 as [|[t' as'] rs2 IH] using rev_ind; intros rs1 rb [|fuel] Hrep HD Hle Hgt Hfuel; try lia; cbn [insert_loop].
  - rewrite app_nil_r. destruct rs1 as [|[t' as'] rs' _] using rev_ind; [by rewrite bool_decide_true|]. apply Forall_app in Hle as [_ Hle]. apply Forall_cons in Hle as [Hle _]. cbn in Hle.
    rewrite <- app_assoc in Hrep, HD. destruct (rep_run_ends V l rs' t' as' _ Hrep) as (x & tl & -> & -> & Hne & Ht & _). rewrite bool_decide_false by done.
    step_rd; [|apply HD, run_nodes, last_or_elem]. rewrite Ht. by rewrite (proj2 (Z.leb_le _ _) Hle).
  - apply Forall_app in Hgt as [Hgt Ht']. apply Forall_cons in Ht' as [Ht' _]. cbn in Ht'. rewrite length_app in Hfuel. cbn in Hfuel.
    rewrite <- app_assoc in Hrep, HD. cbn [app] in Hrep, HD. rewrite app_assoc in Hrep, HD. rewrite app_assoc.
    destruct (rep_run_ends V l (rs1 ++ rs2) t' as' rb Hrep) as (x & tl & -> & -> & Hne & Ht & Hld & _ & _ & Hpx). rewrite bool_decide_false by done.
    step_rd; [|apply HD, run_nodes, last_or_elem]. rewrite Ht, (proj2 (Z.leb_gt _ _) Ht'), Hld. cbn [mbind option_bind].
    step_rd; [|apply HD, run_nodes; by left]. rewrite Hpx. cbn [mbind option_bind]. rewrite <- app_assoc in Hrep, HD. by apply (IH rs1 ((t', x :: tl) :: rb)); [..|lia].
Qed.

(** A timer at the end of the run of its time. *)
Lemma ldrun_snoc ld x tl n : NoDup (x :: tl) → n ∉ x :: tl → ldrun ld (x :: tl) →
  ldrun (fupd (fupd (fupd ld n (Some x)) (last_or x tl) None) x (Some n)) (x :: tl ++ [n]).
Proof.
  intros Hnd Hn (x' & tl' & [= <- <-] & H1 & H2 & H3). exists x, (tl ++ [n]). rewrite last_or_snoc. apply NoDup_cons in Hnd as [Hx Hnd].
  assert (n ≠ x) by (intros ->; apply Hn; by left). assert (n ≠ last_or x tl) by (intros ->; apply Hn, last_or_elem).
  split_and!; [done|by rewrite fupd_eq|by rewrite !fupd_ne, fupd_eq by done|]. intros y Hy Hyn. apply elem_of_app in Hy as [Hy|Hy]; [|by apply list_elem_of_singleton in Hy].
  assert (y ≠ x) by (intros ->; done). rewrite fupd_ne by done. destruct (decide (y = last_or x tl)) as [->|Hne]; [by rewrite fupd_eq|].
  rewrite !fupd_ne by done. by apply H3.
Qed.

(** The list as a queue of timers with their times. *)
Definition queue (rs : list run) : list (tl_addr * Z) := concat ((λ r : run, (λ a, (a, r.1)) <$> r.2) <$> rs).
Lemma queue_app rs rs' : queue (rs ++ rs') = queue rs ++ queue rs'.
Proof. unfold queue. by rewrite fmap_app, concat_app. Qed.
Lemma queue_fst rs : (queue rs).*1 = flat rs.
Proof.
  induction rs as [|[t l] rs IH]; [done|]. change (queue ((t, l) :: rs)) with (((λ a, (a, t)) <$> l) ++ queue rs). rewrite fmap_app, IH, flat_cons. f_equal.
  cbn. rewrite <- list_fmap_compose. apply list_fmap_id.
Qed.

(** What an operation on [l] leaves alone: the links that are neither in it nor [tl]. *)
Definition untouched (l : lists) (rs : list run) (tl : tl_addr) (V V' : view) : Prop :=
  ∀ a, a ∉ nodes l rs → a ≠ tl → fn V' a = fn V a ∧ fp V' a = fp V a ∧ fl V' a = fl V a.

Lemma nodes_split l rs1 rs2 : ∃ c l2, flat rs2 ++ [last_tl l] = c :: l2 ∧ nodes l (rs1 ++ rs2) = (first_tl l :: flat rs1) ++ c :: l2.
Proof. unfold nodes. rewrite flat_app, <- app_assoc. destruct (flat rs2) as [|c l2]; cbn; eauto. Qed.

(** The times and the runs of a list with a timer more. *)
Lemma sorted_app_inv (rs1 rs2 : list run) : StronglySorted (λ r r' : run, r.1 < r'.1) (rs1 ++ rs2) →
  StronglySorted (λ r r' : run, r.1 < r'.1) rs1 ∧ StronglySorted (λ r r' : run, r.1 < r'.1) rs2 ∧ ∀ r r', r ∈ rs1 → r' ∈ rs2 → r.1 < r'.1.
Proof.
  induction rs1 as [|r rs1 IH]; cbn [app]; intros Hs; [split_and!; [constructor|done|by intros ? ? ?%not_elem_of_nil]|].
  inversion Hs as [|? ? H1 H2]; subst. destruct (IH H1) as (H3 & H4 & H5). apply Forall_app in H2 as [H2 H2']. split_and!; [by constructor|done|].
  intros r1 r2 [->|H6]%elem_of_cons H7; [by rewrite Forall_forall in H2'; apply H2'|by apply H5].
Qed.
Lemma sorted_app (rs1 rs2 : list run) : StronglySorted (λ r r' : run, r.1 < r'.1) rs1 → StronglySorted (λ r r' : run, r.1 < r'.1) rs2 → (∀ r r', r ∈ rs1 → r' ∈ rs2 → r.1 < r'.1) →
  StronglySorted (λ r r' : run, r.1 < r'.1) (rs1 ++ rs2).
Proof.
  induction 1 as [|r rs1 H1 IH H2]; intros Hs Hlt; [done|]. cbn. constructor; [apply IH; [done|]; intros r1 r2 ? ?; apply Hlt; [by right|done]|].
  apply Forall_app. split; [done|]. rewrite Forall_forall. intros r' Hr'. apply Hlt; [by left|done].
Qed.

(** The runs after an insertion. *)
Definition ins_runs (rs1 : list run) (a : tl_addr) (t : Z) (rs2 : list run) : list run :=
  match last rs1 with
  | Some (t', l') => if t' =? t then take (length rs1 - 1) rs1 ++ (t, l' ++ [a]) :: rs2 else rs1 ++ (t, [a]) :: rs2
  | None => (t, [a]) :: rs2
  end.

Lemma ins_runs_cases rs1 a t rs2 :
  (∃ rs l', rs1 = rs ++ [(t, l')] ∧ ins_runs rs1 a t rs2 = rs ++ (t, l' ++ [a]) :: rs2) ∨
  (∀ rs l', rs1 ≠ rs ++ [(t, l')]) ∧ ins_runs rs1 a t rs2 = rs1 ++ (t, [a]) :: rs2.
Proof.
  unfold ins_runs. destruct rs1 as [|[t' l'] rs _] using rev_ind; [right; split; [|done]; by intros [] ?|]. rewrite last_snoc.
  destruct (Z.eqb_spec t' t) as [->|Hne].
  - left. exists rs, l'. split; [done|]. rewrite length_app. cbn. rewrite Nat.add_sub, take_app_length. done.
  - right. split; [|done]. intros rs' l'' E. apply app_inj_tail in E as [_ [= -> _]]. done.
Qed.

Lemma ins_runs_queue rs1 a t rs2 : queue (ins_runs rs1 a t rs2) = queue rs1 ++ (a, t) :: queue rs2.
Proof.
  destruct (ins_runs_cases rs1 a t rs2) as [(rs & l' & -> & ->)|[_ ->]].
  - rewrite !queue_app. change (queue ((t, l' ++ [a]) :: rs2)) with (((λ a, (a, t)) <$> l' ++ [a]) ++ queue rs2). change (queue [(t, l')]) with (((λ a, (a, t)) <$> l') ++ []).
    rewrite fmap_app, app_nil_r, <- !app_assoc. done.
  - by rewrite queue_app.
Qed.
Lemma ins_runs_flat rs1 a t rs2 : flat (ins_runs rs1 a t rs2) = flat rs1 ++ a :: flat rs2.
Proof. rewrite <- !queue_fst, ins_runs_queue. by rewrite fmap_app. Qed.

Section inserted.
Context (V V' : view) (l : lists) (rs1 rs2 : list run) (a : tl_addr) (t : Z).
Context (Hrep : rep V l (rs1 ++ rs2)) (Ha : a ∉ nodes l (rs1 ++ rs2)) (Hle : Forall (λ r, r.1 <= t) rs1) (Hgt : Forall (λ r, t < r.1) rs2) (Hpos : 0 < t).
Context (Htime : ∀ b, ft V' b = fupd (ft V) a t b).

Lemma ins_rep : path (fn V') (fp V') (nodes l (ins_runs rs1 a t rs2)) → Forall (λ r, ldrun (fl V') r.2) (ins_runs rs1 a t rs2) → rep V' l (ins_runs rs1 a t rs2).
Proof.
  intros Hpath Hld. destruct Hrep as [_ Hnd _ Ht Hs Hp Hf]. destruct (sorted_app_inv _ _ Hs) as (S1 & S2 & S12). apply Forall_app in Hp as [P1 P2].
  assert (HT : ∀ r, r ∈ rs1 ++ rs2 → Forall (λ b, ft V' b = r.1) r.2).
  { intros r Hr. rewrite Forall_forall in Ht. specialize (Ht r Hr). rewrite Forall_forall in Ht |- *. intros b Hb. rewrite Htime, fupd_ne; [by apply Ht|].
    intros ->. apply Ha. right. apply elem_of_app. left. by eapply flat_elem. }
  assert (Hta : ft V' a = t) by (by rewrite Htime, fupd_eq). constructor; [done| |done| | | |].
  - unfold nodes in *. rewrite ins_runs_flat. rewrite flat_app in Hnd, Ha. rewrite <- app_assoc in *. cbn [app]. change (NoDup ((first_tl l :: flat rs1) ++ a :: (flat rs2 ++ [last_tl l]))).
    rewrite <- Permutation_middle. constructor; [exact Ha|exact Hnd].
  - destruct (ins_runs_cases rs1 a t rs2) as [(rs & l' & E & ->)|[_ ->]].
    + subst rs1. rewrite <- app_assoc in HT. apply Forall_app. split; [rewrite Forall_forall; intros r Hr; apply HT, elem_of_app; by left|]. constructor.
      * cbn. apply Forall_app. split; [|by constructor]. apply (HT (t, l')). apply elem_of_app. right. by left.
      * rewrite Forall_forall. intros r Hr. apply HT, elem_of_app. right. by right.
    + apply Forall_app. split; [rewrite Forall_forall; intros r Hr; apply HT, elem_of_app; by left|]. constructor; [by constructor|].
      rewrite Forall_forall. intros r Hr. apply HT, elem_of_app. by right.
  - rewrite Forall_forall in Hle, Hgt. destruct (ins_runs_cases rs1 a t rs2) as [(rs & l' & E & ->)|[Hne ->]].
    + subst rs1. destruct (sorted_app_inv _ _ S1) as (S3 & _ & S34). apply sorted_app; [done| |].
      * constructor; [done|]. by rewrite Forall_forall.
      * intros r r' Hr [->|Hr']%elem_of_cons; [apply (S34 r (t, l')); [done|by left]|]. apply S12; [|done]. apply elem_of_app. by left.
    + apply sorted_app; [done|constructor; [done|by rewrite Forall_forall]|]. intros r r' Hr [->|Hr']%elem_of_cons; [|by apply S12]. cbn.
      destruct rs1 as [|[t' l'] rs _] using rev_ind; [by apply not_elem_of_nil in Hr|]. assert (t' <= t) by (apply (Hle (t', l')), elem_of_app; right; by left).
      assert (t' ≠ t) by (intros ->; by apply (Hne rs l')). destruct (sorted_app_inv _ _ S1) as (_ & _ & S34).
      apply elem_of_app in Hr as [Hr|Hr]; [specialize (S34 r (t', l') Hr); cbn in S34; assert (r.1 < t') by (apply S34; by left); lia|].
      apply list_elem_of_singleton in Hr as ->. cbn. lia.
  - destruct (ins_runs_cases rs1 a t rs2) as [(rs & l' & E & ->)|[_ ->]].
    + subst rs1. apply Forall_app in P1 as [P1 _]. apply Forall_app. split; [done|]. by constructor.
    + apply Forall_app. split; [done|]. by constructor.
  - rewrite Htime, fupd_ne; [done|]. intros E. apply Ha. rewrite <- E. by left.
Qed.
End inserted.

Lemma rep_length V l rs : rep V l rs → (length rs <= length (flat rs))%nat.
Proof.
  intros [_ _ Hl _ _ _ _]. induction Hl as [|[t l'] rs (x & tl & E & _) _ IH]; [done|]. cbn in E. subst l'. rewrite flat_cons, length_app. cbn. lia.
Qed.
Lemma rep_size (D : gset tl_addr) V l rs : rep V l rs → (∀ a, a ∈ nodes l rs → a ∈ D) → (length (flat rs) < size D)%nat.
Proof.
  intros Hr HD. pose proof (rep_nodup _ _ _ Hr) as Hnd. assert (Hs : list_to_set (nodes l rs) ⊆ D) by (intros a; rewrite elem_of_list_to_set; apply HD).
  apply subseteq_size in Hs. rewrite size_list_to_set in Hs by done. unfold nodes in Hs. cbn in Hs. rewrite length_app in Hs. cbn in Hs. lia.
Qed.

(** The runs that no link of [P] belongs to are as before. *)
Lemma ldruns_ext V V' rs (P : tl_addr → Prop) : Forall (λ r, ldrun (fl V) r.2) rs → (∀ a, a ∈ flat rs → ¬ P a) → (∀ a, ¬ P a → fl V' a = fl V a) → Forall (λ r, ldrun (fl V') r.2) rs.
Proof.
  rewrite !Forall_forall. intros Hl Hp He r Hr. apply ldrun_ext with (fl V); [|by apply Hl]. intros y Hy. apply He, Hp. by eapply flat_elem.
Qed.

Lemma not_nodes l rs1 rs2 a : a ∉ nodes l (rs1 ++ rs2) → a ∉ flat rs1 ∧ a ∉ flat rs2.
Proof. unfold nodes. rewrite flat_app, not_elem_of_cons, !not_elem_of_app. tauto. Qed.

Lemma run_nodup V l ra t as' rb : rep V l (ra ++ (t, as') :: rb) →
  NoDup as' ∧ (∀ b, b ∈ flat ra → b ∉ as') ∧ (∀ b, b ∈ as' → b ∉ flat rb).
Proof.
  intros Hr. pose proof (rep_nodup _ _ _ Hr) as Hn. unfold nodes in Hn. rewrite flat_app, flat_cons in Hn. cbn [snd] in Hn. apply NoDup_cons in Hn as [_ Hn].
  apply NoDup_app in Hn as (Hn & _ & _). apply NoDup_app in Hn as (_ & H1 & Hn). apply NoDup_app in Hn as (H2 & H3 & _). split_and!; [done| |done].
  intros b Hb Hb'. apply (H1 b Hb). apply elem_of_app. by left.
Qed.

Lemma insert_timer_spec D h V l rs1 rs2 a t : shows h V D → rep V l (rs1 ++ rs2) → (∀ b, b ∈ nodes l (rs1 ++ rs2) → b ∈ D) → a ∈ D → a ∉ nodes l (rs1 ++ rs2) →
  Forall (λ r, r.1 <= t) rs1 → Forall (λ r, t < r.1) rs2 → 0 < t →
  ∃ h' V', insert_timer_unsafe l a t h = Some h' ∧ shows h' V' D ∧ rep V' l (ins_runs rs1 a t rs2) ∧ untouched l (rs1 ++ rs2) a V V' ∧
    ft V' = fupd (ft V) a t ∧ fw V' = fupd (fw V) a (OnList l) ∧ fd V' = fupd (fd V) a false.
Proof.
  intros Hsh Hrep HD HaD Ha Hle Hgt Hpos. unfold insert_timer_unsafe. do 3 (step_wr; [done|]).
  match goal with H : shows ?h0 ?V0 D |- _ => set (V1 := V0) in * end.
  assert (Hrep1 : rep V1 l (rs1 ++ rs2)).
  { apply rep_frame with V; [done|]. intros b Hb. split_and!; [done|done|done|]. cbn. rewrite fupd_ne; [done|]. intros ->. done. }
  destruct (nodes_split l rs1 rs2) as (c & l2 & Ec & En). pose proof (rep_path _ _ _ Hrep1) as Hpath. pose proof (rep_nodup _ _ _ Hrep1) as Hnd.
  step_rd; [|apply HD; right; apply elem_of_app; right; by left].
  assert (Hlast : fp V1 (last_tl l) = Some (last_or (first_tl l) (flat (rs1 ++ rs2)))).
  { unfold nodes in Hpath. change (path (fn V1) (fp V1) ((first_tl l :: flat (rs1 ++ rs2)) ++ [last_tl l])) in Hpath. apply path_app in Hpath. tauto. }
  change (fp V (last_tl l)) with (fp V1 (last_tl l)). rewrite Hlast. cbn [mbind option_bind].
  match goal with H : shows ?h0 V1 D |- _ => rewrite (insert_loop_spec D l h0 V1 t H rs2 rs1 []) end; rewrite ?app_nil_r; try done.
  2:{ match goal with H : shows _ V1 D |- _ => rewrite (shows_size D _ _ H) end. pose proof (rep_size D V1 l _ Hrep1 HD). pose proof (rep_length _ _ _ Hrep1).
      rewrite length_app in *. lia. }
  cbn [mbind option_bind]. set (p := last_or (first_tl l) (flat rs1)). assert (Hp : p ∈ nodes l (rs1 ++ rs2)) by (rewrite En; apply elem_of_app; left; apply last_or_elem).
  assert (Hc : c ∈ nodes l (rs1 ++ rs2)) by (rewrite En; apply elem_of_app; right; by left).
  assert (Hpa : p ≠ a) by (intros E; apply Ha; by rewrite <- E). assert (Hca : c ≠ a) by (intros E; apply Ha; by rewrite <- E).
  step_wr; [done|]. step_rd; [|by apply HD]. rewrite En in Hpath, Hnd, Ha. pose proof (proj1 (path_app _ _ _ _ _ _) Hpath) as (_ & [Hpc Hcp] & _). fold p in Hpc, Hcp.
  change (fn V p) with (fn V1 p). rewrite Hpc. cbn [mbind option_bind]. step_wr; [done|]. step_wr; [by apply HD|]. step_wr; [by apply HD|]. step_rd; [|by apply HD].
  pose proof (path_insert _ _ _ _ _ _ _ Hpath Hnd Ha) as Hpath'. fold p in Hpath'.
  assert (En' : nodes l (ins_runs rs1 a t rs2) = (first_tl l :: flat rs1) ++ a :: c :: l2) by (unfold nodes; rewrite ins_runs_flat, <- app_assoc; cbn; by rewrite Ec).
  rewrite <- En in Ha. destruct (ins_runs_cases rs1 a t rs2) as [(rs & l' & E & Eins)|[Hne Eins]].
  - assert (Hrep2 : rep V1 l (rs ++ (t, l') :: rs2)) by (by rewrite E, <- app_assoc in Hrep1).
    destruct (rep_run_ends V1 l rs t l' rs2 Hrep2) as (x & tl & -> & Hlp & _ & Htp & Hlx & _). rewrite <- E in Hlp. fold p in Hlp. rewrite <- Hlp in Htp, Hlx.
    rewrite Htp, Z.eqb_refl, Hlx. cbn [mbind option_bind]. assert (Hx : x ∈ nodes l (rs1 ++ rs2)) by (rewrite E, <- app_assoc; apply run_nodes; by left).
    step_wr; [done|]. step_wr; [by apply HD|]. step_wr; [by apply HD|]. eexists _, _. split; [done|]. split; [done|].
    destruct (run_nodup V1 l rs t (x :: tl) rs2 Hrep2) as (N1 & N2 & N3).
    assert (Ha' : a ∉ flat rs ∧ a ∉ x :: tl ∧ a ∉ flat rs2).
    { rewrite E, <- app_assoc in Ha. apply not_nodes in Ha as [Ha1 Ha2]. cbn [app] in Ha2. rewrite flat_cons in Ha2. apply not_elem_of_app in Ha2. tauto. }
    split_and!; [|intros b Hb Hba; cbn; rewrite !fupd_ne; [done|intros ->; done..]|done|done|done].
    eapply (ins_rep V _ l rs1 rs2); [done|done|done|done|done|done|by rewrite En'|]. rewrite Eins. pose proof (rep_ld _ _ _ Hrep2) as Hl. apply Forall_app in Hl as [L1 L2].
    apply Forall_cons in L2 as [L2 L3].
    assert (Hfr : ∀ rs0, Forall (λ r, ldrun (fl V1) r.2) rs0 → a ∉ flat rs0 → (∀ b, b ∈ flat rs0 → b ∉ x :: tl) →
      Forall (λ r, ldrun (fupd (fupd (fupd (fl V1) a (Some x)) p None) x (Some a)) r.2) rs0).
    { intros rs0 HL Ha0 Hd0. apply (ldruns_ext V1 (View (fn V1) (fp V1) (fupd (fupd (fupd (fl V1) a (Some x)) p None) x (Some a)) (ft V1) (fw V1) (fd V1)) rs0 (λ b, b = a ∨ b ∈ x :: tl)); [done| |].
      - intros b Hb [->|Hb']; [done|by apply (Hd0 b)].
      - intros b Hb. cbn. rewrite !fupd_ne; [done|tauto|intros ->; apply Hb; right; rewrite Hlp; apply last_or_elem|intros ->; apply Hb; right; by left]. }
    apply Forall_app. split; [apply Hfr; [done|tauto|]; intros b Hb; by apply N2|]. constructor; [|apply Hfr; [done|tauto|]; intros b Hb Hb'; by apply (N3 b Hb')].
    cbn [snd app fl]. rewrite Hlp. apply ldrun_snoc; [done|tauto|done].
  - assert (Htp : ft V1 p ≠ t).
    { destruct rs1 as [|[t' l'] rs _] using rev_ind; [change p with (first_tl l); rewrite (rep_first _ _ _ Hrep1); lia|].
      assert (Hrep2 : rep V1 l (rs ++ (t', l') :: rs2)) by (by rewrite <- app_assoc in Hrep1). destruct (rep_run_ends V1 l rs t' l' rs2 Hrep2) as (x & tl & El & Hlp & _ & Htp & _).
      fold p in Hlp. rewrite Hlp, Htp. intros ->. by apply (Hne rs l'). }
    rewrite (proj2 (Z.eqb_neq _ _)) by congruence. step_wr; [done|]. eexists _, _. split; [done|]. split; [done|].
    split_and!; [|intros b Hb Hba; cbn; rewrite !fupd_ne; [done|intros ->; done..]|done|done|done].
    eapply (ins_rep V _ l rs1 rs2); [done|done|done|done|done|done|by rewrite En'|]. rewrite Eins. pose proof (rep_ld _ _ _ Hrep1) as Hl. apply Forall_app in Hl as [L1 L2].
    assert (Hfr : ∀ rs0, Forall (λ r, ldrun (fl V1) r.2) rs0 → a ∉ flat rs0 → Forall (λ r, ldrun (fupd (fl V1) a (Some a)) r.2) rs0).
    { intros rs0 HL Ha0. apply (ldruns_ext V1 (View (fn V1) (fp V1) (fupd (fl V1) a (Some a)) (ft V1) (fw V1) (fd V1)) rs0 (λ b, b = a)); [done|by intros b Hb ->|].
      intros b Hb. cbn. by rewrite fupd_ne. }
    apply not_nodes in Ha as [Ha1 Ha2]. apply Forall_app. split; [by apply Hfr|]. constructor; [|by apply Hfr].
    exists a, []. cbn. rewrite fupd_eq. split_and!; [done|done|done|]. by intros y ?%not_elem_of_nil.
Qed.

(** The link before a run hits earlier. *)
Lemma before_run V l ra t as' rb : rep V l (ra ++ (t, as') :: rb) → ft V (last_or (first_tl l) (flat ra)) < t.
Proof.
  intros Hr. pose proof (rep_pos _ _ _ Hr) as Hpos. apply Forall_app in Hpos as [_ Hpos]. apply Forall_cons in Hpos as [Hpos _]. cbn in Hpos.
  destruct ra as [|[t' l'] ra _] using rev_ind; [cbn; by rewrite (rep_first _ _ _ Hr)|]. rewrite <- app_assoc in Hr. cbn [app] in Hr.
  destruct (rep_run_ends V l ra t' l' _ Hr) as (x & tl & _ & -> & _ & -> & _).
  pose proof (rep_sorted _ _ _ Hr) as Hs. apply sorted_app_inv in Hs as (_ & Hs & _). inversion Hs as [|? ? _ Hs']; subst. by apply Forall_cons in Hs' as [Hs' _].
Qed.

(** ** Removal *)

(** The runs [ra ++ (t, l) :: rb] without the run when it is empty. *)
Definition rem_runs (ra : list run) (t : Z) (l : list tl_addr) (rb : list run) : list run := match l with [] => ra ++ rb | _ => ra ++ (t, l) :: rb end.
Lemma rem_runs_queue ra t l rb : queue (rem_runs ra t l rb) = queue ra ++ ((λ a, (a, t)) <$> l) ++ queue rb.
Proof. destruct l; cbn [rem_runs]; by rewrite queue_app. Qed.
Lemma rem_runs_flat ra t l rb : flat (rem_runs ra t l rb) = flat ra ++ l ++ flat rb.
Proof. destruct l; cbn [rem_runs]; by rewrite flat_app. Qed.

Section remove.
Context (D : gset tl_addr) (h : theap) (V : view) (l : lists) (ra : list run) (t : Z) (as1 : list tl_addr) (a : tl_addr) (as2 : list tl_addr) (rb : list run).
Let rs := ra ++ (t, as1 ++ a :: as2) :: rb.
Context (Hsh : shows h V D) (Hrep : rep V l rs) (HD : ∀ b, b ∈ nodes l rs → b ∈ D).

Lemma rem_nodes : ∃ c l2, as2 ++ flat rb ++ [last_tl l] = c :: l2 ∧ nodes l rs = (first_tl l :: flat ra ++ as1) ++ a :: c :: l2.
Proof.
  destruct (as2 ++ flat rb ++ [last_tl l]) as [|c l2] eqn:E; [by destruct as2, (flat rb)|]. exists c, l2. split; [done|]. unfold nodes, rs. rewrite flat_app, flat_cons. cbn [snd].
  rewrite <- E. cbn [app]. by rewrite <- !app_assoc.
Qed.

Lemma rem_sides : ∃ c l2, as2 ++ flat rb ++ [last_tl l] = c :: l2 ∧ nodes l rs = (first_tl l :: flat ra ++ as1) ++ a :: c :: l2 ∧
  fp V a = Some (last_or (first_tl l) (flat ra ++ as1)) ∧ fn V a = Some c ∧ a ∉ (first_tl l :: flat ra ++ as1) ++ c :: l2 ∧ a ∈ D ∧
  last_or (first_tl l) (flat ra ++ as1) ∈ D ∧ c ∈ D.
Proof.
  destruct rem_nodes as (c & l2 & Ec & En). exists c, l2. pose proof (rep_path _ _ _ Hrep) as Hp. pose proof (rep_nodup _ _ _ Hrep) as Hn. rewrite En in Hp, Hn, HD.
  apply path_app in Hp as (_ & [_ H2] & (H3 & _ & _)). rewrite <- Permutation_middle in Hn. apply NoDup_cons in Hn as [Hn _].
  split_and!; try done; apply HD, elem_of_app; [right; by left|left; apply last_or_elem|right; right; by left].
Qed.

(** The time of the link before decides which end of its run [a] is. *)
Lemma rem_prev_time : (as1 = [] → ft V (last_or (first_tl l) (flat ra ++ as1)) ≠ t) ∧ (as1 ≠ [] → ft V (last_or (first_tl l) (flat ra ++ as1)) = t) ∧ ft V a = t.
Proof.
  pose proof (rep_time _ _ _ Hrep) as Ht. unfold rs in Ht. apply Forall_app in Ht as [_ Ht]. apply Forall_cons in Ht as [Ht _]. cbn in Ht. rewrite Forall_forall in Ht.
  assert (Hta : ft V a = t) by (apply Ht, elem_of_app; right; by left). split_and!; [| |done].
  - intros ->. rewrite app_nil_r. pose proof (before_run V l ra t _ rb Hrep). lia.
  - intros Hne. destruct as1 as [|x tl] using rev_ind; [done|]. rewrite app_assoc, last_or_snoc. apply Ht. apply elem_of_app. left. apply elem_of_app. right. by left.
Qed.

Lemma unlink_ld_spec : ∃ h1 f, unlink_ld a (view_at V a) h = Some h1 ∧ shows h1 (View (fn V) (fp V) f (ft V) (fw V) (fd V)) D ∧
  (as1 ++ as2 ≠ [] → ldrun f (as1 ++ as2)) ∧ ∀ b, b ∉ as1 ++ a :: as2 → f b = fl V b.
Proof.
  destruct rem_sides as (c & l2 & Ec & En & Hpa & Hna & _ & HaD & HpD & HcD). destruct rem_prev_time as (Ht1 & Ht2 & Hta).
  destruct (run_nodup V l ra t _ rb Hrep) as (Hnd & _ & _). pose proof (rep_ld _ _ _ Hrep) as Hl. unfold rs in Hl. apply Forall_app in Hl as [_ Hl]. apply Forall_cons in Hl as [Hl _].
  cbn in Hl. assert (Hrun : ∀ b, b ∈ as1 ++ a :: as2 → b ∈ D) by (intros b Hb; by apply HD, run_nodes).
  unfold unlink_ld, view_at. cbn [next_tl prev_tl ld_tl time_out]. rewrite Hpa, Hna. cbn [mbind option_bind].
  assert (HV : shows h (View (fn V) (fp V) (fl V) (ft V) (fw V) (fd V)) D) by (by destruct V).
  destruct as1 as [|x tl].
  - cbn [app] in *. destruct Hl as (x' & t' & [= <- <-] & Hla & Hlz & Hmid). rewrite Hla. destruct as2 as [|b bs].
    + cbn. exists h, (fl V). by rewrite bool_decide_false by tauto.
    + cbn [app] in Ec. injection Ec as <- _. rewrite last_or_cons in *. set (z := last_or b bs) in *. pose proof (last_or_elem b bs) as Hz. fold z in Hz. apply NoDup_cons in Hnd as [Hnd1 Hnd2].
      rewrite bool_decide_true by (intros ->; done). step_rd; [|done]. rewrite Hta, (proj2 (Z.eqb_neq _ _)) by (intros E; by apply Ht1). step_wr; [done|]. step_wr; [apply Hrun; by right|].
      eexists _, _. split; [done|]. split; [done|]. split.
      * intros _. exists b, bs. fold z. split_and!; [done| |by rewrite fupd_eq|]; [unfold fupd; case_decide as Hd; [by rewrite Hd|by rewrite decide_True]|].
        intros y Hy Hyz. apply NoDup_cons in Hnd2 as [Hnd2 _]. rewrite !fupd_ne; [apply Hmid; [by right|done]|intros ->; done|done].
      * intros y Hy. rewrite !fupd_ne; [done|intros ->; apply Hy; right; by left|intros ->; apply Hy; by right].
  - assert (Hne : x :: tl ≠ []) by done. specialize (Ht2 Hne). cbn [app] in Hl. destruct Hl as (x' & t' & [= <- <-] & Hlx & Hlz & Hmid). cbn [app] in Hnd. apply NoDup_cons in Hnd as [Hx Hnd].
    destruct as2 as [|b bs].
    + rewrite last_or_snoc in *. rewrite Hlz. cbn [mbind option_bind]. rewrite bool_decide_true by (intros ->; apply Hx, elem_of_app; right; by left).
      step_rd; [|done]. rewrite Hta, Ht2, Z.eqb_refl. assert (Hp : last_or (first_tl l) (flat ra ++ x :: tl) = last_or x tl) by (by rewrite last_or_app, last_or_cons).
      rewrite Hp in *. step_wr; [done|]. step_wr; [apply Hrun; by left|]. eexists _, _. split; [done|]. split; [done|]. split.
      * intros _. rewrite app_nil_r. exists x, tl. split_and!; [done|by rewrite fupd_eq| |].
        -- unfold fupd. case_decide as Hd; [by rewrite Hd|by rewrite decide_True].
        -- intros y Hy Hyp. rewrite !fupd_ne; [|done|intros ->; apply Hx, elem_of_app; by left]. apply Hmid; [apply elem_of_app; by left|].
           intros ->. apply NoDup_app in Hnd as (_ & Hd & _). apply (Hd a Hy). by left.
      * intros y Hy. rewrite !fupd_ne; [done|intros ->; apply Hy, (elem_of_app (x :: tl)); left; apply last_or_elem|intros ->; apply Hy; by left].
    + assert (Hlast : last_or x (tl ++ a :: b :: bs) = last_or b bs) by (by rewrite last_or_app, !last_or_cons). rewrite Hlast in *.
      apply NoDup_app in Hnd as (_ & _ & Hnd). apply NoDup_cons in Hnd as [Hab _].
      assert (Haz : a ≠ last_or b bs) by (intros E; apply Hab; rewrite E; apply last_or_elem).
      rewrite (Hmid a); [|apply elem_of_app; right; by left|done]. exists h, (fl V). split; [done|]. split; [done|]. split; [|done].
      intros _. cbn [app]. exists x, (tl ++ b :: bs). rewrite last_or_app, last_or_cons. split_and!; [done|done|done|].
      intros y Hy Hyz. apply Hmid; [|done]. apply elem_of_app in Hy as [Hy|Hy]; apply elem_of_app; [by left|right; by right].
Qed.

Lemma rem_rep V' : path (fn V') (fp V') (nodes l (rem_runs ra t (as1 ++ as2) rb)) → (as1 ++ as2 ≠ [] → ldrun (fl V') (as1 ++ as2)) →
  (∀ b, b ∉ as1 ++ a :: as2 → fl V' b = fl V b) → (∀ b, ft V' b = ft V b) → rep V' l (rem_runs ra t (as1 ++ as2) rb).
Proof.
  intros Hpath Hrun Hother Htime. destruct (run_nodup V l ra t _ rb Hrep) as (_ & N2 & N3). destruct Hrep as [_ Hnd Hl Ht Hs Hpos Hf]. unfold rs in *.
  assert (HL : Forall (λ r, ldrun (fl V') r.2) ra ∧ Forall (λ r, ldrun (fl V') r.2) rb).
  { apply Forall_app in Hl as [L1 L2]. apply Forall_cons in L2 as [_ L2].
    split; (eapply (ldruns_ext V V' _ (λ b, b ∈ as1 ++ a :: as2)); [done| |done]); intros b Hb Hb'; [by apply (N2 b)|by apply (N3 b)]. }
  assert (Hsub : ∀ P : run → Prop, Forall P (ra ++ (t, as1 ++ a :: as2) :: rb) → (P (t, as1 ++ a :: as2) → as1 ++ as2 ≠ [] → P (t, as1 ++ as2)) → Forall P (rem_runs ra t (as1 ++ as2) rb)).
  { intros P HP Hm. apply Forall_app in HP as [P1 P2]. apply Forall_cons in P2 as [P2 P3]. unfold rem_runs. destruct (as1 ++ as2); apply Forall_app; (split; [done|]); [done|].
    constructor; [by apply Hm|done]. }
  constructor; [done| | | | | |].
  - destruct rem_nodes as (c & l2 & Ec & En). unfold rs in En. rewrite En in Hnd. rewrite <- Permutation_middle in Hnd. apply NoDup_cons in Hnd as [_ Hnd].
    unfold nodes. rewrite rem_runs_flat, <- !app_assoc, Ec. change (first_tl l :: flat ra ++ as1 ++ c :: l2) with ((first_tl l :: flat ra) ++ as1 ++ c :: l2).
    by rewrite app_assoc.
  - unfold rem_runs. destruct HL as [L1 L2]. destruct (as1 ++ as2) eqn:E; apply Forall_app; (split; [done|]); [done|]. constructor; [by apply Hrun|done].
  - apply Hsub; [|].
    + rewrite Forall_forall in Ht |- *. intros r Hr. specialize (Ht r Hr). rewrite Forall_forall in Ht |- *. intros b Hb. rewrite Htime. by apply Ht.
    + cbn. rewrite !Forall_app, Forall_cons. tauto.
  - unfold rem_runs. apply sorted_app_inv in Hs as (S1 & S2 & S12). inversion S2 as [|? ? S3 S4]; subst.
    destruct (as1 ++ as2) eqn:E; apply sorted_app; [done|done| |done|by constructor|]; intros r r' Hr Hr'.
    + apply S12; [done|by right].
    + apply elem_of_cons in Hr' as [->|Hr']; [apply (S12 r (t, as1 ++ a :: as2)); [done|by left]|]. apply S12; [done|by right].
  - by apply Hsub.
  - by rewrite Htime.
Qed.

Lemma remove_timer_spec : fw V a = OnList l → ∃ h' V', remove_timer_unsafe a h = Some h' ∧ shows h' V' D ∧ rep V' l (rem_runs ra t (as1 ++ as2) rb) ∧ untouched l rs a V V' ∧
  ft V' = ft V ∧ fw V' = fupd (fw V) a NoList ∧ fd V' = fd V.
Proof.
  intros Hw. destruct rem_sides as (c & l2 & Ec & En & Hpa & Hna & Hnot & HaD & HpD & HcD). destruct unlink_ld_spec as (h1 & f & Hu & Hsh1 & Hrun & Hother).
  unfold remove_timer_unsafe. rewrite (shows_lookup D h V a Hsh HaD). cbn [mbind option_bind]. unfold is_in_timer_list2. cbn [timer_list view_at]. rewrite Hw, Hu. cbn [mbind option_bind].
  cbn [prev_tl next_tl view_at]. rewrite Hpa, Hna. cbn [mbind option_bind]. clear Hsh. do 6 (step_wr; [done|]). eexists _, _. split; [done|]. split; [done|].
  pose proof (rep_path _ _ _ Hrep) as Hp. pose proof (rep_nodup _ _ _ Hrep) as Hnd. rewrite En in Hp, Hnd. set (p := last_or (first_tl l) (flat ra ++ as1)) in *.
  assert (En' : nodes l (rem_runs ra t (as1 ++ as2) rb) = (first_tl l :: flat ra ++ as1) ++ c :: l2) by (unfold nodes; rewrite rem_runs_flat, <- !app_assoc, Ec; cbn [app]; by rewrite <- app_assoc).
  pose proof Hnd as Hnd'. rewrite <- Permutation_middle in Hnd'. apply NoDup_cons in Hnd' as [_ Hnd'].
  split_and!; [|intros b Hb Hba; cbn|done|done|done].
  - apply rem_rep; cbn [fn fp fl ft].
    + rewrite En'. cbn [app] in *. eapply path_ext; [done| | |by apply path_delete in Hp].
      * intros x Hx _. fold p. rewrite (fupd_ne _ a); [done|]. intros ->. done.
      * intros x Hx. fold p. rewrite (fupd_ne _ a); [done|]. intros ->. apply Hnot. by right.
    + intros Hne. apply ldrun_ext with f; [|by apply Hrun]. intros y Hy. rewrite fupd_ne; [done|]. intros ->. destruct (run_nodup V l ra t _ rb Hrep) as (Hn & _ & _).
      rewrite <- Permutation_middle in Hn. by apply NoDup_cons in Hn as [Hn _].
    + intros b Hb. rewrite fupd_ne; [by apply Hother|]. intros ->. apply Hb, elem_of_app. right. by left.
    + done.
  - assert (Hb1 : b ∉ as1 ++ a :: as2) by (intros Hx; by apply Hb, run_nodes). rewrite En in Hb. rewrite !fupd_ne; [by rewrite Hother|done| |done| |done].
    + intros ->. apply Hb, elem_of_app. right. right. by left.
    + intros ->. apply Hb, elem_of_app. left. apply last_or_elem.
Qed.
End remove.
