(* ===== verification/TmTimerSplit.v ===== *)
(** * Detaching the timers that hit

    [check_and_split_time_list] ([modules/tm/timer.c]) on the view of [TmTimerFacts]: the runs
    that hit are cut off as a chain that ends with a null pointer. *)

From stdpp Require Import prelude list sorting gmap.
From Stdlib Require Import ZArith Lia.
From S2P Require Import Prelude TmTimer TmTimerFacts.

(** ** Chains *)

(** The links of [L] from [p] on, up to a null pointer. *)
Fixpoint chain (f : tl_addr → option tl_addr) (p : option tl_addr) (L : list tl_addr) : Prop :=
  match L with [] => p = None | x :: L => p = Some x ∧ chain f (f x) L end.

Lemma chain_ext f f' p L : (∀ x, x ∈ L → f' x = f x) → chain f p L → chain f' p L.
Proof.
  revert p. induction L as [|x L IH]; intros p He; cbn; [done|]. intros [-> Hc]. split; [done|]. rewrite He by (by left). apply IH; [|done]. intros y Hy. apply He. by right.
Qed.

Lemma path_chain f g x tl : NoDup (x :: tl) → path f g (x :: tl) → chain (fupd f (last_or x tl) None) (Some x) (x :: tl).
Proof.
  revert x. induction tl as [|y tl IH]; intros x Hnd Hp.
  - cbn. by rewrite fupd_eq.
  - destruct Hp as (H1 & _ & H2). apply NoDup_cons in Hnd as [Hx Hnd]. rewrite last_or_cons. split; [done|]. rewrite fupd_ne by (intros ->; apply Hx, last_or_elem).
    rewrite H1. by apply IH.
Qed.

Lemma shows_ext D h V V' : shows h V D → (∀ a, view_at V' a = view_at V a) → shows h V' D.
Proof. intros H He a. rewrite H. case_decide; [|done]. by rewrite He. Qed.

Definition detach_view (L : list tl_addr) (V : view) : view :=
  View (fn V) (fp V) (fl V) (ft V) (λ b, if decide (b ∈ L) then DETACHED_LIST else fw V b) (fd V).

Lemma detach_loop_spec D L : ∀ p h V fuel, shows h V D → chain (fn V) p L → (∀ b, b ∈ L → b ∈ D) → (length L <= fuel)%nat →
  ∃ h', detach_loop fuel p h = Some h' ∧ shows h' (detach_view L V) D.
Proof.
  induction L as [|x L IH]; intros p h V fuel Hsh Hc HD Hf.
  - cbn in Hc. subst p. exists h. split; [by destruct fuel|]. eapply shows_ext; [exact Hsh|]. intros a. unfold view_at, detach_view. cbn. by rewrite decide_False by apply not_elem_of_nil.
  - destruct Hc as [-> Hc]. destruct fuel as [|fuel]; [cbn in Hf; lia|]. cbn [detach_loop]. step_wr; [apply HD; by left|]. step_rd; [|apply HD; by left].
    match goal with H : shows ?h0 ?V0 D |- _ => destruct (IH (fn V x) h0 V0 fuel H) as (h' & Hr & Hs') end; [done|intros b Hb; apply HD; by right|cbn in Hf; lia|].
    exists h'. split; [exact Hr|]. eapply shows_ext; [exact Hs'|]. intros a. unfold view_at, detach_view. cbn [fn fp fl ft fw fd]. f_equal.
    destruct (decide (a ∈ L)) as [Ha|Ha]; [rewrite decide_True by (by right); done|]. unfold fupd. destruct (decide (a = x)) as [->|Hax]; [by rewrite decide_True by (by left)|].
    rewrite decide_False; [done|]. intros [->|?]%elem_of_cons; done.
Qed.

(** ** The loop over the runs *)

Lemma rep_run_next V l ra t x tl rb c l2 : rep V l (ra ++ (t, x :: tl) :: rb) → flat rb ++ [last_tl l] = c :: l2 → fn V (last_or x tl) = Some c ∧ x ≠ last_tl l.
Proof.
  intros Hr Ec. pose proof (rep_path _ _ _ Hr) as Hp. pose proof (rep_nodup _ _ _ Hr) as Hn. unfold nodes in Hp, Hn. rewrite flat_app, flat_cons in Hp, Hn. cbn [snd] in Hp, Hn.
  rewrite <- !app_assoc, Ec in Hp. split.
  - change (path (fn V) (fp V) ((first_tl l :: flat ra) ++ (x :: tl) ++ c :: l2)) in Hp. rewrite app_assoc in Hp.
    change ((first_tl l :: flat ra) ++ x :: tl) with (first_tl l :: (flat ra ++ x :: tl)) in Hp. apply path_app in Hp as (_ & [Hp _] & _).
    by rewrite last_or_app, last_or_cons in Hp.
  - intros ->. apply NoDup_cons in Hn as [_ Hn]. apply NoDup_app in Hn as (_ & Hd & _). apply (Hd (last_tl l)); [|by left]. apply elem_of_app. right. by left.
Qed.

Lemma split_loop_spec D l h V time rs2 c l2 : shows h V D → flat rs2 ++ [last_tl l] = c :: l2 → Forall (λ r, time < r.1) rs2 → ∀ rs1 ra fuel x l', rep V l (ra ++ rs1 ++ rs2) →
  (∀ a, a ∈ nodes l (ra ++ rs1 ++ rs2) → a ∈ D) → Forall (λ r, r.1 <= time) rs1 → flat (rs1 ++ rs2) ++ [last_tl l] = x :: l' → (length rs1 < fuel)%nat → split_loop fuel h l time x = Some c.
Proof.
  intros Hsh Ec Hgt rs1. induction rs1 as [|[t as'] rs1 IH]; intros ra [|fuel] x l' Hrep HD Hle Ex Hf; try lia; cbn [split_loop].
  - cbn [app] in Ex, Hrep, HD. rewrite Ec in Ex. injection Ex as -> ->. case_bool_decide; [done|]. destruct rs2 as [|[t as'] rs2]; [by injection Ec as <- _|].
    destruct (rep_run_ends V l ra t as' rs2 Hrep) as (y & tl & -> & _ & _ & _ & _ & _ & Ht & _). rewrite flat_cons in Ec. injection Ec as <- _. step_rd; [|apply HD, run_nodes; by left].
    apply Forall_cons in Hgt as [Hgt _]. cbn in Hgt. by rewrite Ht, (proj2 (Z.leb_gt _ _) Hgt).
  - cbn [app] in Ex, Hrep, HD. destruct (rep_run_ends V l ra t as' _ Hrep) as (y & tl & -> & _ & _ & _ & _ & Hld & Ht & _). rewrite flat_cons in Ex. injection Ex as <- _.
    destruct (flat (rs1 ++ rs2) ++ [last_tl l]) as [|c' l0] eqn:Ec'; [by destruct (flat (rs1 ++ rs2))|]. destruct (rep_run_next V l ra t y tl _ c' l0 Hrep Ec') as [Hnext Hne].
    apply Forall_cons in Hle as [Hle Hle']. cbn in Hle. rewrite bool_decide_false by done. step_rd; [|apply HD, run_nodes; by left].
    rewrite Ht, (proj2 (Z.leb_le _ _) Hle), Hld. cbn [mbind option_bind]. step_rd; [|apply HD, run_nodes, last_or_elem]. rewrite Hnext. cbn [mbind option_bind].
    apply (IH (ra ++ [(t, y :: tl)]) fuel c' l0); rewrite <- ?app_assoc; cbn in Hf |- *; try done. lia.
Qed.

(** ** The split *)

Lemma rep_suffix V V' l rs1 rs2 c l2 : rep V l (rs1 ++ rs2) → flat rs2 ++ [last_tl l] = c :: l2 → fn V' (first_tl l) = Some c → fp V' c = Some (first_tl l) →
  (∀ b, b ∈ c :: l2 → fn V' b = fn V b) → (∀ b, b ∈ l2 → fp V' b = fp V b) → (∀ b, fl V' b = fl V b) → (∀ b, ft V' b = ft V b) → rep V' l rs2.
Proof.
  intros [Hp Hn Hl Ht Hs Hpos Hf] Ec H1 H2 H3 H4 H5 H6. unfold nodes in Hp, Hn. rewrite flat_app, <- app_assoc, Ec in Hp, Hn.
  change (NoDup ((first_tl l :: flat rs1) ++ c :: l2)) in Hn. change (path (fn V) (fp V) ((first_tl l :: flat rs1) ++ c :: l2)) in Hp.
  apply path_app in Hp as (_ & _ & Hp). apply NoDup_app in Hn as (_ & Hd & Hn). apply Forall_app in Hl as [_ Hl]. apply Forall_app in Ht as [_ Ht]. apply Forall_app in Hpos as [_ Hpos].
  apply sorted_app_inv in Hs as (_ & Hs & _). constructor; [| | | |done|done|by rewrite H6].
  - unfold nodes. rewrite Ec. split_and!; [done|done|]. apply path_ext with (fn V) (fp V); [done| |done|done]. intros x Hx _. by apply H3.
  - unfold nodes. rewrite Ec. constructor; [|done]. apply Hd. by left.
  - apply (ldruns_ext V V' rs2 (λ _, False)); [done|tauto|intros; apply H5].
  - rewrite Forall_forall in Ht |- *. intros r Hr. specialize (Ht r Hr). rewrite Forall_forall in Ht |- *. intros b Hb. rewrite H6. by apply Ht.
Qed.

Lemma split_spec D l h V time rs1 rs2 : shows h V D → rep V l (rs1 ++ rs2) → (∀ a, a ∈ nodes l (rs1 ++ rs2) → a ∈ D) →
  Forall (λ r, r.1 <= time) rs1 → Forall (λ r, time < r.1) rs2 →
  ∃ h' V' p, check_and_split_time_list l time h = Some (h', p) ∧ shows h' V' D ∧ rep V' l rs2 ∧ chain (fn V') p (flat rs1) ∧
    (∀ b, b ∉ nodes l (rs1 ++ rs2) → fn V' b = fn V b ∧ fp V' b = fp V b ∧ fl V' b = fl V b) ∧
    (∀ b, ft V' b = ft V b) ∧ (∀ b, fw V' b = if decide (b ∈ flat rs1) then DETACHED_LIST else fw V b) ∧ (∀ b, fd V' b = fd V b).
Proof.
  intros Hsh Hrep HD Hle Hgt. destruct (nodes_split l rs1 rs2) as (c & l2 & Ec & En). pose proof (rep_path _ _ _ Hrep) as Hp. pose proof (rep_nodup _ _ _ Hrep) as Hn.
  destruct (flat (rs1 ++ rs2) ++ [last_tl l]) as [|x l'] eqn:Ex; [by destruct (flat (rs1 ++ rs2))|]. assert (Enx : nodes l (rs1 ++ rs2) = first_tl l :: x :: l') by (unfold nodes; by rewrite Ex).
  assert (Hfx : fn V (first_tl l) = Some x) by (rewrite Enx in Hp; by destruct Hp).
  unfold check_and_split_time_list. step_rd; [|apply HD; by left]. rewrite Hfx. cbn [mbind option_bind]. step_rd; [|apply HD; rewrite Enx; right; by left].
  assert (Hnone : rs1 = [] → ∃ h' V' p, Some (h, None) = Some (h', p) ∧ shows h' V' D ∧ rep V' l rs2 ∧ chain (fn V') p (flat rs1) ∧
    (∀ b, b ∉ nodes l (rs1 ++ rs2) → fn V' b = fn V b ∧ fp V' b = fp V b ∧ fl V' b = fl V b) ∧
    (∀ b, ft V' b = ft V b) ∧ (∀ b, fw V' b = if decide (b ∈ flat rs1) then DETACHED_LIST else fw V b) ∧ (∀ b, fd V' b = fd V b)).
  { intros ->. by exists h, V, None. }
  destruct rs1 as [|[t as'] rs1].
  { clear Hle. destruct (bool_decide _ || _); [by apply Hnone|]. rewrite (split_loop_spec D l h V time rs2 c l2 Hsh Ec Hgt [] [] _ x l') by (cbn; try done; lia || constructor).
    cbn [mbind option_bind]. rewrite En in Hp. apply path_app in Hp as (_ & [_ Hcp] & _). step_rd; [|apply HD; rewrite En; apply elem_of_app; right; by left].
    cbn in Hcp. rewrite Hcp. cbn [mbind option_bind]. rewrite bool_decide_true by done. by apply Hnone. }
  clear Hnone. destruct (rep_run_ends V l [] t as' (rs1 ++ rs2) Hrep) as (x' & tl & -> & _ & _ & _ & _ & _ & Htx & _). cbn [app] in Ex. rewrite flat_cons in Ex. injection Ex as -> El.
  assert (Hxl : x ≠ last_tl l).
  { destruct (flat (rs1 ++ rs2) ++ [last_tl l]) as [|c' l0] eqn:Ec'; [by destruct (flat (rs1 ++ rs2))|]. by destruct (rep_run_next V l [] t x tl _ c' l0 Hrep Ec'). }
  pose proof (Forall_inv Hle) as Ht. cbn in Ht. rewrite bool_decide_false by done. cbn [orb]. rewrite Htx, (proj2 (Z.ltb_ge _ _) Ht).
  rewrite (split_loop_spec D l h V time rs2 c l2 Hsh Ec Hgt ((t, x :: tl) :: rs1) [] _ x l'); try done.
  2:{ cbn [app]. by rewrite flat_cons, <- El. }
  2:{ rewrite (shows_size D _ _ Hsh). pose proof (rep_size D V l _ Hrep HD). pose proof (rep_length _ _ _ Hrep). rewrite length_app in *. lia. }
  cbn [mbind option_bind]. set (R := (t, x :: tl) :: rs1) in *. rewrite En in Hp, Hn. pose proof (proj1 (path_app _ _ _ _ _ _) Hp) as (Hp1 & [Hpc Hcp] & Hp2).
  set (p := last_or (first_tl l) (flat R)) in *. assert (HcD : c ∈ D) by (apply HD; rewrite En; apply elem_of_app; right; by left).
  step_rd; [|done]. rewrite Hcp. cbn [mbind option_bind]. apply NoDup_app in Hn as (Hn1 & Hd & Hn2). assert (ER : flat R = x :: tl ++ flat rs1) by done.
  assert (HpR : p ∈ flat R) by (unfold p; rewrite ER, last_or_cons; apply last_or_elem). apply NoDup_cons in Hn1 as [Hf1 Hn1]. rewrite bool_decide_false by (intros E; by rewrite E in HpR).
  assert (HRD : ∀ b, b ∈ flat R → b ∈ D) by (intros b Hb; apply HD; rewrite En; apply elem_of_app; left; by right).
  assert (Hchain : chain (fupd (fupd (fn V) p None) (first_tl l) (Some c)) (Some x) (flat R)).
  { rewrite ER. apply chain_ext with (fupd (fn V) p None); [intros y Hy; apply fupd_ne; intros ->; by rewrite ER in Hf1|].
    unfold p. rewrite ER, last_or_cons. apply path_chain with (fp V); [by rewrite <- ER|]. rewrite ER in Hp1. by destruct Hp1 as (_ & _ & Hp1). }
  step_wr; [by apply HRD|]. step_wr; [apply HD; by left|]. step_wr; [done|].
  match goal with H : shows ?h0 ?V0 D |- _ => destruct (detach_loop_spec D (flat R) (Some x) h0 V0 (size h0) H) as (h' & -> & Hsh') end; [| done | |].
  { exact Hchain. }
  { match goal with H : shows ?h0 ?V0 D |- (_ <= size ?h0)%nat => rewrite (shows_size D _ _ H) end. pose proof (rep_size D V l _ Hrep HD) as Hsz. rewrite flat_app, length_app in Hsz. lia. }
  cbn [mbind option_bind]. eexists _, _, _. split; [done|]. split; [done|]. cbn [detach_view fn fp fl ft fw fd].
  assert (Hcf : c ≠ first_tl l) by (intros ->; apply (Hd (first_tl l)); by left). assert (Hcp' : ∀ b, b ∈ c :: l2 → b ≠ p ∧ b ≠ first_tl l).
  { intros b Hb. split; intros ->; [by apply (Hd p); [right|]|by apply (Hd (first_tl l)); [left|]]. }
  split_and!; [| | |done|done|done].
  - eapply (rep_suffix V _ l R rs2 c l2 Hrep Ec); cbn [detach_view fn fp fl ft]; [by rewrite fupd_eq|by rewrite fupd_eq| | |done|done].
    + intros b Hb. destruct (Hcp' b Hb). by rewrite !fupd_ne.
    + intros b Hb. rewrite fupd_ne; [done|]. intros ->. by apply NoDup_cons in Hn2 as [Hn2 _].
  - exact Hchain.
  - intros b Hb. rewrite En in Hb. rewrite !fupd_ne; [done|intros ->; apply Hb, elem_of_app; right; by left|intros ->; apply Hb, elem_of_app; left; by right|].
    intros ->. apply Hb. by left.
Qed.
