(* ===== verification/TmTimerSpec.v ===== *)
(** * The timers of transactions as queues

    The abstract machine [atimers] has a queue per list, ordered by the time its timers hit and
    by the order in which they were set, and the timers the timer process took out.  Every
    sequence of operations of [TmTimer] on the linked lists implements it. *)

From stdpp Require Import prelude list sorting gmap.
From Stdlib Require Import ZArith Lia.
From S2P Require Import Prelude TmTimer TmTimerFacts TmTimerSplit.

(** ** The abstract machine *)

(** The queues, the list a timer is on, whether it was ever set, whether it was reset, the list
    of its retransmission, the timers that are to be handled and those that were. *)
Record atimers := ATimers {
  aq : lists → list (tl_addr * Z);
  aw : tl_addr → timer_ref;
  anew : tl_addr → bool;
  adel : tl_addr → bool;
  aretr : tl_addr → lists;
  acur : list tl_addr;
  afired : list tl_addr
}.

Definition enqueue (a : tl_addr) (t : Z) (q : list (tl_addr * Z)) : list (tl_addr * Z) :=
  filter (λ e, e.2 <= t) q ++ (a, t) :: filter (λ e, t < e.2) q.
Definition dequeue (a : tl_addr) (q : list (tl_addr * Z)) : list (tl_addr * Z) := filter (λ e, e.1 ≠ a) q.

Definition a_insert (l : lists) (a : tl_addr) (t : Z) (A : atimers) : atimers :=
  ATimers (fupd (aq A) l (enqueue a t (aq A l))) (fupd (aw A) a (OnList l)) (fupd (anew A) a false) (fupd (adel A) a false) (aretr A) (acur A) (afired A).
Definition a_remove (a : tl_addr) (A : atimers) : atimers :=
  match aw A a with
  | OnList l => ATimers (fupd (aq A) l (dequeue a (aq A l))) (fupd (aw A) a NoList) (anew A) (adel A) (aretr A) (acur A) (afired A)
  | _ => A
  end.
Definition a_reset (a : tl_addr) (A : atimers) : atimers := ATimers (aq A) (aw A) (anew A) (fupd (adel A) a true) (aretr A) (acur A) (afired A).
Definition a_where (a : tl_addr) (r : timer_ref) (A : atimers) : atimers := ATimers (aq A) (fupd (aw A) a r) (anew A) (adel A) (aretr A) (acur A) (afired A).
Definition a_retr (a : tl_addr) (l : lists) (A : atimers) : atimers := ATimers (aq A) (aw A) (anew A) (adel A) (λ b, if bool_decide (b = a) then l else aretr A b) (acur A) (afired A).
Definition a_took (L fired : list tl_addr) (A : atimers) : atimers := ATimers (aq A) (aw A) (anew A) (adel A) (aretr A) L fired.

(** The timers of [l] that hit at [time] are taken out. *)
Definition a_detach (l : lists) (time : Z) (A : atimers) : atimers :=
  match acur A with
  | [] =>
      let L := (filter (λ e, e.2 <= time) (aq A l)).*1 in
      ATimers (fupd (aq A) l (filter (λ e, time < e.2) (aq A l))) (λ b, if decide (b ∈ L) then DETACHED_LIST else aw A b) (anew A) (adel A) (aretr A) L (afired A)
  | _ => A
  end.

Section timeouts.
Context (tmo : lists → Z).

Definition a_set (c : clock) (a : tl_addr) (l : lists) (x : option Z) (A : atimers) : atimers :=
  match aw A a with DETACHED_LIST => A | _ => a_insert l a (hits_at tmo c l x) (a_remove a A) end.
Definition a_set1 (c : clock) (a : tl_addr) (l : lists) (x : option Z) (A : atimers) : atimers :=
  if anew A a then a_insert l a (hits_at tmo c l x) A else A.
Definition a_start (c : clock) (rt fr : tl_addr) (retr : bool) (x : option Z) (A : atimers) : atimers :=
  a_set1 c fr FR_TIMER_LIST x (if retr && negb (adel A rt) then a_set c rt RT_T1_TO_1 None (a_retr rt RT_T1_TO_1 A) else A).
Definition a_rearm (c : clock) (a : tl_addr) (l : lists) (A : atimers) : atimers := a_set c a l None (a_where a NoList A).
Definition a_handler (c : clock) (hd : handler) (a : tl_addr) (A : atimers) : atimers :=
  match hd with
  | final_response_or_wait => A
  | retransmission_handler => a_rearm c a (next_retr (aretr A a)) (a_retr a (next_retr (aretr A a)) A)
  | delete_handler reffed => if reffed then a_rearm c a DELETE_LIST A else A
  end.
Definition a_handle (c : clock) (hd : handler) (A : atimers) : atimers :=
  match acur A with
  | [] => A
  | a :: L => if adel A a then a_took L (afired A) A else a_handler c hd a (a_took L (afired A ++ [a]) A)
  end.

Definition a_step (c : clock) (o : timer_op) (A : atimers) : atimers :=
  match o with
  | TSet n l x => a_set c (Link n) l x A
  | TSet1 n l x => a_set1 c (Link n) l x A
  | TReset n => a_reset (Link n) A
  | TUnlink n => a_remove (Link n) A
  | TStart rt fr retr x => a_start c (Link rt) (Link fr) retr x A
  | TSlow n => a_set c (Link n) RT_T2 None (a_retr (Link n) RT_T2 A)
  | TDetach l => a_detach l (if UTIME_TYPE l then get_uticks c else get_ticks c) A
  | THandle hd => a_handle c hd A
  end.
Definition a_run (ops : list (clock * timer_op)) (A : atimers) : atimers := foldl (λ A o, a_step o.1 o.2 A) A ops.

(** No timer is set to hit at the time 0, which marks the timers that were never set; and
    the links of an operation exist. *)
Definition clock_ok (c : clock) (x : option Z) : Prop := ∀ l, 0 < hits_at tmo c l None ∧ 0 < hits_at tmo c l x.
Definition op_ok (N : nat) (co : clock * timer_op) : Prop :=
  match co.2 with
  | TSet n l x | TSet1 n l x => (n < N)%nat ∧ clock_ok co.1 x
  | TReset n | TUnlink n => (n < N)%nat
  | TStart rt fr retr x => (rt < N)%nat ∧ (fr < N)%nat ∧ clock_ok co.1 x
  | TSlow n => (n < N)%nat ∧ clock_ok co.1 None
  | TDetach l => True
  | THandle hd => clock_ok co.1 None
  end.
End timeouts.

(** ** The relation *)

Record hinv (N : nat) (p : option tl_addr) (h : theap) (A : atimers) (V : view) (D : gset tl_addr) : Prop := {
  hi_shows : shows h V D;
  hi_ends l : first_tl l ∈ D ∧ last_tl l ∈ D;
  hi_links n : Link n ∈ D ↔ (n < N)%nat;
  hi_rep l : ∃ rs, rep V l rs ∧ queue rs = aq A l;
  hi_where n : (n < N)%nat → fw V (Link n) = aw A (Link n) ∧ fd V (Link n) = adel A (Link n) ∧ (ft V (Link n) =? 0) = anew A (Link n);
  hi_queued l a : a ∈ (aq A l).*1 ↔ ∃ n, a = Link n ∧ (n < N)%nat ∧ aw A a = OnList l;
  hi_new n : (n < N)%nat → anew A (Link n) = true → aw A (Link n) = NoList;
  hi_chain : chain (fn V) p (acur A);
  hi_nodup : NoDup (acur A);
  hi_cur a : a ∈ acur A → ∃ n, a = Link n ∧ (n < N)%nat ∧ aw A a = DETACHED_LIST
}.

Lemma flat_queue rs q : queue rs = q → flat rs = q.*1.
Proof. intros <-. by rewrite queue_fst. Qed.

Lemma filter_every {B} (P : B → Prop) `{!∀ x, Decision (P x)} (q : list B) : (∀ x, x ∈ q → P x) → filter P q = q.
Proof.
  induction q as [|x q IH]; intros Hq; [done|]. rewrite filter_cons_True by (apply Hq; by left). f_equal. apply IH. intros y Hy. apply Hq. by right.
Qed.
Lemma filter_no {B} (P : B → Prop) `{!∀ x, Decision (P x)} (q : list B) : (∀ x, x ∈ q → ¬ P x) → filter P q = [].
Proof.
  induction q as [|x q IH]; intros Hq; [done|]. rewrite filter_cons_False by (apply Hq; by left). apply IH. intros y Hy. apply Hq. by right.
Qed.

(** The runs up to a time, and after it. *)
Lemma queue_elem rs e : e ∈ queue rs → ∃ r, r ∈ rs ∧ e.2 = r.1.
Proof.
  induction rs as [|r rs IH]; [by intros ?%not_elem_of_nil|]. change (queue (r :: rs)) with (((λ a, (a, r.1)) <$> r.2) ++ queue rs).
  intros [Ha|Ha]%elem_of_app; [apply list_elem_of_fmap in Ha as (a & -> & _); exists r; by split; [left|]|]. destruct (IH Ha) as (r' & ? & ?). exists r'. by split; [right|].
Qed.
Lemma runs_before t rs : Forall (λ r, r.1 <= t) rs → filter (λ e, e.2 <= t) (queue rs) = queue rs ∧ filter (λ e, t < e.2) (queue rs) = [].
Proof.
  rewrite Forall_forall. intros Hr. assert (He : ∀ e, e ∈ queue rs → e.2 <= t) by (intros e (r & Hin & ->)%queue_elem; by apply Hr).
  split; [by apply filter_every|]. apply filter_no. intros e H. specialize (He e H). lia.
Qed.
Lemma runs_after t rs : Forall (λ r, t < r.1) rs → filter (λ e, e.2 <= t) (queue rs) = [] ∧ filter (λ e, t < e.2) (queue rs) = queue rs.
Proof.
  rewrite Forall_forall. intros Hr. assert (He : ∀ e, e ∈ queue rs → t < e.2) by (intros e (r & Hin & ->)%queue_elem; by apply Hr).
  split; [|by apply filter_every]. apply filter_no. intros e H. specialize (He e H). lia.
Qed.
Lemma split_runs t (rs : list run) : StronglySorted (λ r r' : run, r.1 < r'.1) rs →
  ∃ rs1 rs2, rs = rs1 ++ rs2 ∧ Forall (λ r, r.1 <= t) rs1 ∧ Forall (λ r, t < r.1) rs2 ∧
    queue rs1 = filter (λ e, e.2 <= t) (queue rs) ∧ queue rs2 = filter (λ e, t < e.2) (queue rs).
Proof.
  intros Hs. assert (∃ rs1 rs2, rs = rs1 ++ rs2 ∧ Forall (λ r, r.1 <= t) rs1 ∧ Forall (λ r, t < r.1) rs2) as (rs1 & rs2 & -> & H1 & H2).
  { induction Hs as [|r rs Hs IH Hr]; [by exists [], []|]. destruct (decide (r.1 <= t)) as [Hle|Hgt].
    - destruct IH as (rs1 & rs2 & -> & H1 & H2). exists (r :: rs1), rs2. by repeat constructor.
    - exists [], (r :: rs). split_and!; [done|done|]. constructor; [lia|]. eapply Forall_impl; [exact Hr|]. cbn. intros. lia. }
  exists rs1, rs2. rewrite queue_app, !filter_app. destruct (runs_before t rs1 H1) as [-> ->], (runs_after t rs2 H2) as [-> ->]. by rewrite app_nil_r.
Qed.

Lemma in_run rs a : a ∈ flat rs → ∃ ra t as1 as2 rb, rs = ra ++ (t, as1 ++ a :: as2) :: rb.
Proof.
  induction rs as [|[t l] rs IH]; [by intros ?%not_elem_of_nil|]. rewrite flat_cons. intros [Ha|Ha]%elem_of_app.
  - cbn in Ha. apply list_elem_of_split in Ha as (as1 & as2 & ->). by exists [], t, as1, as2, rs.
  - destruct (IH Ha) as (ra & t' & as1 & as2 & rb & ->). by exists ((t, l) :: ra), t', as1, as2, rb.
Qed.

Lemma dequeue_other a q : a ∉ q.*1 → dequeue a q = q.
Proof. intros Ha. apply filter_every. intros e He E. apply Ha. rewrite <- E. by apply list_elem_of_fmap_2. Qed.
Lemma dequeue_runs ra t as1 a as2 rb : a ∉ flat ra → a ∉ as1 ++ as2 → a ∉ flat rb → dequeue a (queue (ra ++ (t, as1 ++ a :: as2) :: rb)) = queue ra ++ ((λ b, (b, t)) <$> as1 ++ as2) ++ queue rb.
Proof.
  intros H1 H2 H3. rewrite queue_app. change (queue ((t, as1 ++ a :: as2) :: rb)) with (((λ b, (b, t)) <$> as1 ++ a :: as2) ++ queue rb). rewrite !fmap_app, fmap_cons. unfold dequeue.
  rewrite !filter_app, filter_cons_False by (cbn; tauto). rewrite not_elem_of_app in H2. destruct H2 as [H2 H2'].
  assert (Hid : ∀ l : list tl_addr, ((λ b, (b, t)) <$> l).*1 = l) by (intros l; rewrite <- list_fmap_compose; apply list_fmap_id).
  fold (dequeue a (queue ra)) (dequeue a (queue rb)). rewrite !dequeue_other by (by rewrite queue_fst). rewrite <- !app_assoc. f_equal.
  fold (dequeue a ((λ b, (b, t)) <$> as1)) (dequeue a ((λ b, (b, t)) <$> as2)). by rewrite !dequeue_other by (by rewrite Hid).
Qed.

Section inv.
Context (N : nat) (p : option tl_addr) (h : theap) (A : atimers) (V : view) (D : gset tl_addr) (H : hinv N p h A V D).

Lemma hi_nodes l rs b : queue rs = aq A l → b ∈ nodes l rs ↔ b = first_tl l ∨ b = last_tl l ∨ ∃ n, b = Link n ∧ (n < N)%nat ∧ aw A b = OnList l.
Proof.
  intros Hq. unfold nodes. rewrite elem_of_cons, elem_of_app, list_elem_of_singleton, (flat_queue rs _ Hq), (hi_queued _ _ _ _ _ _ H). tauto.
Qed.
Lemma hi_nodes_D l rs b : queue rs = aq A l → b ∈ nodes l rs → b ∈ D.
Proof.
  intros Hq [->|[->|(n & -> & Hn & _)]]%(hi_nodes l rs b Hq); [apply (hi_ends _ _ _ _ _ _ H)..|]. by apply (hi_links _ _ _ _ _ _ H).
Qed.

(** An operation on [l] and a link [a] that is not on another list does not change the others. *)
Lemma hinv_others l rs a V' : queue rs = aq A l → untouched l rs a V V' → (∀ b, b ≠ a → ft V' b = ft V b) → a ∉ acur A →
  (∀ l' rs', l' ≠ l → queue rs' = aq A l' → a ∉ nodes l' rs') →
  (∀ l', l' ≠ l → ∃ rs', rep V' l' rs' ∧ queue rs' = aq A l') ∧ chain (fn V') p (acur A).
Proof.
  intros Hq Hu Ht Hcur Hother. split.
  - intros l' Hl. destruct (hi_rep _ _ _ _ _ _ H l') as (rs' & Hr & Hq'). exists rs'. split; [|done]. apply rep_frame with V; [done|]. intros b Hb.
    assert (Hba : b ≠ a) by (intros ->; by apply (Hother l' rs' Hl Hq')). destruct (Hu b) as (? & ? & ?); [|done|split_and!; try done; by apply Ht].
    intros Hb'. apply (hi_nodes l' rs' b Hq') in Hb. apply (hi_nodes l rs b Hq) in Hb'.
    destruct Hb as [->|[->|(n & -> & _ & Hw)]], Hb' as [E|[E|(n' & E & _ & Hw')]]; congruence.
  - apply chain_ext with (fn V); [|apply H]. intros b Hb. destruct (Hu b) as (? & ? & ?); [|intros ->; done|done].
    destruct (hi_cur _ _ _ _ _ _ H b Hb) as (n & -> & _ & Hw). intros [E|[E|(n' & E & _ & Hw')]]%(hi_nodes l rs _ Hq); congruence.
Qed.

Lemma link_not_nodes n l l' rs' : aw A (Link n) = NoList ∨ aw A (Link n) = OnList l → l' ≠ l → queue rs' = aq A l' → Link n ∉ nodes l' rs'.
Proof. intros Hw Hl Hq [E|[E|(n' & E & _ & Hw')]]%(hi_nodes l' rs' _ Hq); destruct Hw; congruence. Qed.
Lemma link_not_cur n : aw A (Link n) ≠ DETACHED_LIST → Link n ∉ acur A.
Proof. intros Hw Hc. destruct (hi_cur _ _ _ _ _ _ H _ Hc) as (? & _ & _ & ?). done. Qed.

Lemma insert_inv l n t : (n < N)%nat → aw A (Link n) = NoList → 0 < t → ∃ h' V', insert_timer_unsafe l (Link n) t h = Some h' ∧ hinv N p h' (a_insert l (Link n) t A) V' D.
Proof.
  intros Hn Hw Ht. destruct (hi_rep _ _ _ _ _ _ H l) as (rs & Hrep & Hq). destruct (split_runs t rs) as (rs1 & rs2 & -> & Hle & Hgt & Q1 & Q2); [apply Hrep|].
  assert (Hnot : Link n ∉ nodes l (rs1 ++ rs2)) by (intros [E|[E|(n' & E & _ & Hw')]]%(hi_nodes l _ _ Hq); congruence).
  destruct (insert_timer_spec D h V l rs1 rs2 (Link n) t) as (h' & V' & Hi & Hsh & Hrep' & Hu & Eft & Efw & Efd); [apply H|done|by intros b; apply hi_nodes_D|by apply H|done..|].
  exists h', V'. split; [done|]. destruct (hinv_others l (rs1 ++ rs2) (Link n) V' Hq Hu) as [Ho Hc].
  { intros b Hb. rewrite Eft. by apply fupd_ne. } { apply link_not_cur. congruence. } { intros l' rs' Hl Hq'. apply (link_not_nodes n l); [by left|done|done]. }
  constructor; cbn [a_insert aq aw anew adel aretr acur afired]; try apply H; try done.
  - intros l'. destruct (decide (l' = l)) as [->|Hl]; [|rewrite fupd_ne by done; by apply Ho]. rewrite fupd_eq. exists (ins_runs rs1 (Link n) t rs2). split; [done|].
    rewrite ins_runs_queue, Q1, Q2, Hq. done.
  - intros m Hm. rewrite Efw, Efd, Eft. destruct (decide (m = n)) as [->|Hmn]; [rewrite !fupd_eq; split_and!; [done|done|]; apply Z.eqb_neq; lia|].
    rewrite !fupd_ne by congruence. by apply H.
  - intros l' b. destruct (decide (l' = l)) as [->|Hl].
    + rewrite fupd_eq. unfold enqueue. rewrite fmap_app, elem_of_app, fmap_cons, elem_of_cons. cbn [fst]. assert (Hqe : b ∈ (aq A l).*1 ↔ b ∈ (filter (λ e : tl_addr * Z, e.2 <= t) (aq A l)).*1 ∨ b ∈ (filter (λ e : tl_addr * Z, t < e.2) (aq A l)).*1).
      { rewrite <- elem_of_app, <- fmap_app. rewrite <- Hq, <- Q1, <- Q2, queue_app. done. }
      rewrite (hi_queued _ _ _ _ _ _ H) in Hqe. destruct (decide (b = Link n)) as [->|Hb]; [rewrite fupd_eq; split; [intros _; by exists n|by intros _; right; left]|].
      rewrite fupd_ne by done. tauto.
    + rewrite fupd_ne by done. rewrite (hi_queued _ _ _ _ _ _ H). destruct (decide (b = Link n)) as [->|Hb]; [|by rewrite fupd_ne by done]. rewrite fupd_eq, Hw.
      split; intros (m & ? & ? & ?); congruence.
  - intros m Hm. destruct (decide (m = n)) as [->|Hmn]; [by rewrite fupd_eq|]. rewrite !fupd_ne by congruence. by apply H.
  - intros b Hb. destruct (hi_cur _ _ _ _ _ _ H b Hb) as (m & -> & Hm & Hwm). exists m. split_and!; [done|done|]. rewrite fupd_ne; [done|]. intros [= ->]. congruence.
Qed.

Lemma remove_inv n : (n < N)%nat → ∃ h' V', remove_timer_unsafe (Link n) h = Some h' ∧ hinv N p h' (a_remove (Link n) A) V' D.
Proof.
  intros Hn. unfold a_remove. destruct (hi_where _ _ _ _ _ _ H n Hn) as (Hfw & _ & _). assert (HnD : Link n ∈ D) by (by apply H). destruct (aw A (Link n)) as [| |l] eqn:Hw.
  1-2: exists h, V; split; [|done]; unfold remove_timer_unsafe; rewrite (shows_lookup D h V _ (hi_shows _ _ _ _ _ _ H) HnD); cbn; unfold is_in_timer_list2; cbn; by rewrite Hfw.
  destruct (hi_rep _ _ _ _ _ _ H l) as (rs & Hrep & Hq). assert (Hin : Link n ∈ flat rs) by (rewrite (flat_queue rs _ Hq); apply (hi_queued _ _ _ _ _ _ H); by exists n).
  destruct (in_run rs _ Hin) as (ra & t & as1 & as2 & rb & ->).
  destruct (remove_timer_spec D h V l ra t as1 (Link n) as2 rb) as (h' & V' & Hr & Hsh & Hrep' & Hu & Eft & Efw & Efd); [apply H|done|by intros b; apply hi_nodes_D|done|].
  exists h', V'. split; [done|]. destruct (hinv_others l _ (Link n) V' Hq Hu) as [Ho Hc].
  { intros b _. by rewrite Eft. } { apply link_not_cur. congruence. } { intros l' rs' Hl Hq'. apply (link_not_nodes n l); [by right|done|done]. }
  assert (Hdq : dequeue (Link n) (aq A l) = queue (rem_runs ra t (as1 ++ as2) rb)).
  { rewrite <- Hq, rem_runs_queue. destruct (run_nodup V l ra t _ rb Hrep) as (N1 & N2 & N3). apply dequeue_runs; [by intros E; apply (N2 _ E), elem_of_app; right; left| |].
    - rewrite <- Permutation_middle in N1. by apply NoDup_cons in N1 as [N1 _].
    - apply N3, elem_of_app. right. by left. }
  constructor; cbn [aq aw anew adel aretr acur afired]; try apply H; try done.
  - intros l'. destruct (decide (l' = l)) as [->|Hl]; [|rewrite fupd_ne by done; by apply Ho]. rewrite fupd_eq, Hdq. by eexists.
  - intros m Hm. rewrite Efw, Efd, Eft. destruct (hi_where _ _ _ _ _ _ H m Hm) as (H1 & H2 & H3). destruct (decide (m = n)) as [->|Hmn]; [by rewrite !fupd_eq|].
    by rewrite !fupd_ne by congruence.
  - intros l' b. destruct (decide (l' = l)) as [->|Hl].
    + rewrite fupd_eq. unfold dequeue. rewrite list_elem_of_fmap. destruct (decide (b = Link n)) as [->|Hb].
      * rewrite fupd_eq. split; [|intros (m & ? & ? & ?); congruence]. intros (e & Ee & He). apply list_elem_of_filter in He as [He _]. by rewrite <- Ee in He.
      * rewrite fupd_ne by done. rewrite <- (hi_queued _ _ _ _ _ _ H), list_elem_of_fmap. split; intros (e & -> & He); exists e; (split; [done|]); [by apply list_elem_of_filter in He as [_ He]|].
        by apply list_elem_of_filter.
    + rewrite fupd_ne by done. rewrite (hi_queued _ _ _ _ _ _ H). destruct (decide (b = Link n)) as [->|Hb]; [|by rewrite fupd_ne by done]. rewrite fupd_eq, Hw.
      split; intros (m & ? & ? & ?); congruence.
  - intros m Hm Hnew. destruct (decide (m = n)) as [->|Hmn]; [by rewrite fupd_eq|]. rewrite fupd_ne by congruence. by apply H.
  - intros b Hb. destruct (hi_cur _ _ _ _ _ _ H b Hb) as (m & -> & Hm & Hwm). exists m. split_and!; [done|done|]. rewrite fupd_ne; [done|]. intros [= ->]. congruence.
Qed.

Lemma reset_inv n : (n < N)%nat → ∃ h' V', reset_timer (Link n) h = Some h' ∧ hinv N p h' (a_reset (Link n) A) V' D.
Proof.
  intros Hn. unfold reset_timer. destruct (wr_deleted_shows D h V (Link n) true (hi_shows _ _ _ _ _ _ H)) as (h' & Hh & Hsh); [by apply H|]. match type of Hsh with shows _ ?V0 _ => exists h', V0 end. split; [exact Hh|].
  constructor; cbn [a_reset aq aw anew adel aretr acur afired fn fp fl ft fw fd]; try apply H; try done.
  - intros l. destruct (hi_rep _ _ _ _ _ _ H l) as (rs & Hr & Hq). exists rs. split; [|done]. by apply rep_frame with V.
  - intros m Hm. destruct (hi_where _ _ _ _ _ _ H m Hm) as (H1 & H2 & H3). split_and!; [done| |done]. unfold fupd. by case_decide.
Qed.

(** A timer that was handled is released. *)
Lemma where_inv n : (n < N)%nat → aw A (Link n) = DETACHED_LIST → Link n ∉ acur A → ∃ h' V', wr_list (Link n) NoList h = Some h' ∧ hinv N p h' (a_where (Link n) NoList A) V' D.
Proof.
  intros Hn Hw Hc. destruct (wr_list_shows D h V (Link n) NoList (hi_shows _ _ _ _ _ _ H)) as (h' & Hh & Hsh); [by apply H|]. match type of Hsh with shows _ ?V0 _ => exists h', V0 end. split; [exact Hh|].
  constructor; cbn [a_where aq aw anew adel aretr acur afired fn fp fl ft fw fd]; try apply H; try done.
  - intros l. destruct (hi_rep _ _ _ _ _ _ H l) as (rs & Hr & Hq). exists rs. split; [|done]. by apply rep_frame with V.
  - intros m Hm. destruct (hi_where _ _ _ _ _ _ H m Hm) as (H1 & H2 & H3). split_and!; [|done|done]. unfold fupd. by case_decide.
  - intros l b. rewrite (hi_queued _ _ _ _ _ _ H). destruct (decide (b = Link n)) as [->|Hb]; [|by rewrite fupd_ne by done]. rewrite fupd_eq, Hw.
    split; intros (m & ? & ? & ?); congruence.
  - intros m Hm Hnew. destruct (decide (m = n)) as [->|Hmn]; [by rewrite fupd_eq|]. rewrite fupd_ne by congruence. by apply H.
  - intros b Hb. destruct (hi_cur _ _ _ _ _ _ H b Hb) as (m & -> & Hm & Hwm). exists m. split_and!; [done|done|]. rewrite fupd_ne; [done|]. intros E. by rewrite E in Hb.
Qed.
End inv.

(** ** Operations *)

Lemma hinv_same N p h A A' V D : hinv N p h A V D → aq A' = aq A → aw A' = aw A → anew A' = anew A → adel A' = adel A → acur A' = acur A → hinv N p h A' V D.
Proof. intros [] E1 E2 E3 E4 E5. constructor; rewrite ?E1, ?E2, ?E3, ?E4, ?E5; done. Qed.

Section operations.
Context (N : nat) (p : option tl_addr) (h : theap) (A : atimers) (V : view) (D : gset tl_addr) (H : hinv N p h A V D).

Lemma link_lookup n : (n < N)%nat → h !! Link n = Some (view_at V (Link n)).
Proof. intros Hn. apply (shows_lookup D); [apply H|by apply H]. Qed.

Lemma remove_where n : aw A (Link n) ≠ DETACHED_LIST → aw (a_remove (Link n) A) (Link n) = NoList.
Proof. unfold a_remove. destruct (aw A (Link n)) eqn:E; intros Hne; [done|done|]. cbn. by rewrite fupd_eq. Qed.

Lemma set_inv tmo c n l x : (n < N)%nat → 0 < hits_at tmo c l x → ∃ h' V', set_timer tmo c (Link n) l x h = Some h' ∧ hinv N p h' (a_set tmo c (Link n) l x A) V' D.
Proof.
  intros Hn Ht. destruct (hi_where _ _ _ _ _ _ H n Hn) as (Hfw & _ & _). unfold set_timer, a_set. rewrite (link_lookup n Hn). cbn [mbind option_bind timer_list view_at]. rewrite Hfw.
  assert (Hgo : aw A (Link n) ≠ DETACHED_LIST → ∃ h' V', (h0 ← remove_timer_unsafe (Link n) h; insert_timer_unsafe l (Link n) (hits_at tmo c l x) h0) = Some h' ∧
    hinv N p h' (a_insert l (Link n) (hits_at tmo c l x) (a_remove (Link n) A)) V' D).
  { intros Hne. destruct (remove_inv N p h A V D H n Hn) as (h1 & V1 & -> & H1). cbn [mbind option_bind]. by apply (insert_inv N p h1 _ V1 D H1); [|apply remove_where|]. }
  destruct (aw A (Link n)); [by apply Hgo|by exists h, V|by apply Hgo].
Qed.

Lemma set1_inv tmo c n l x : (n < N)%nat → 0 < hits_at tmo c l x → ∃ h' b V', set_1timer tmo c (Link n) l x h = Some (h', b) ∧ hinv N p h' (a_set1 tmo c (Link n) l x A) V' D.
Proof.
  intros Hn Ht. destruct (hi_where _ _ _ _ _ _ H n Hn) as (_ & _ & Hnew). unfold set_1timer, a_set1. rewrite (link_lookup n Hn). cbn [mbind option_bind time_out view_at]. rewrite Hnew.
  destruct (anew A (Link n)) eqn:E; [|by exists h, false, V]. destruct (insert_inv N p h A V D H l n (hits_at tmo c l x) Hn) as (h' & V' & -> & H'); [by apply (hi_new _ _ _ _ _ _ H)|done|].
  cbn. by exists h', true, V'.
Qed.

Lemma detach_inv l time : acur A = [] → ∃ h' V' p', check_and_split_time_list l time h = Some (h', p') ∧ hinv N p' h' (a_detach l time A) V' D.
Proof.
  intros Hcur. destruct (hi_rep _ _ _ _ _ _ H l) as (rs & Hrep & Hq). destruct (split_runs time rs) as (rs1 & rs2 & -> & Hle & Hgt & Q1 & Q2); [apply Hrep|].
  destruct (split_spec D l h V time rs1 rs2) as (h' & V' & p' & Hs & Hsh & Hrep' & Hch & Hout & Eft & Efw & Efd); [apply H|done|by intros a; apply (hi_nodes_D N p h A V D H)|done|done|].
  exists h', V', p'. split; [done|]. unfold a_detach. rewrite Hcur. rewrite Hq in Q1, Q2. set (L := (filter (λ e : tl_addr * Z, e.2 <= time) (aq A l)).*1).
  assert (HL : L = flat rs1) by (unfold L; rewrite <- Q1; apply queue_fst). assert (HR : flat rs2 = (filter (λ e : tl_addr * Z, time < e.2) (aq A l)).*1) by (rewrite <- Q2; by rewrite queue_fst).
  assert (HinL : ∀ b, b ∈ L → ∃ n, b = Link n ∧ (n < N)%nat ∧ aw A b = OnList l).
  { intros b Hb. apply (hi_queued _ _ _ _ _ _ H). rewrite <- (flat_queue _ _ Hq), flat_app, <- HL. apply elem_of_app. by left. }
  pose proof (rep_nodup _ _ _ Hrep) as Hnd. unfold nodes in Hnd. apply NoDup_cons in Hnd as [_ Hnd]. apply NoDup_app in Hnd as (Hnd & _ & _). rewrite flat_app, <- HL in Hnd.
  apply NoDup_app in Hnd as (Hnd1 & Hdis & Hnd2).
  destruct (hinv_others N p h A V D H l _ (first_tl l) V' Hq) as [Ho _].
  { intros b Hb _. by apply Hout. } { intros b _. apply Eft. } { rewrite Hcur. apply not_elem_of_nil. }
  { intros l' rs' Hl Hq' [E|[E|(n & E & _)]]%(hi_nodes N p h A V D H l' rs' _ Hq'); congruence. }
  constructor; cbn [aq aw anew adel aretr acur afired]; try apply H; try done.
  - intros l'. destruct (decide (l' = l)) as [->|Hl]; [|rewrite fupd_ne by done; by apply Ho]. rewrite fupd_eq. by exists rs2.
  - intros n Hn. destruct (hi_where _ _ _ _ _ _ H n Hn) as (H1 & H2 & H3). rewrite Efw, Efd, Eft, <- HL, H1. done.
  - intros l' b. destruct (decide (l' = l)) as [->|Hl].
    + rewrite fupd_eq, <- HR. assert (Hb : b ∈ L ∨ b ∈ flat rs2 ↔ ∃ n, b = Link n ∧ (n < N)%nat ∧ aw A b = OnList l).
      { rewrite <- (hi_queued _ _ _ _ _ _ H), <- (flat_queue _ _ Hq), flat_app, <- HL, elem_of_app. done. }
      case_decide as Hd; [split; [intros Hb'; by apply (Hdis b Hd) in Hb'|by intros (n & _ & _ & ?)]|]. tauto.
    + rewrite fupd_ne by done. rewrite (hi_queued _ _ _ _ _ _ H). case_decide as Hd; [|done]. destruct (HinL b Hd) as (n & -> & _ & Hw). rewrite Hw.
      split; intros (m & ? & ? & ?); congruence.
  - intros n Hn Hnew. case_decide as Hd; [|by apply H]. destruct (HinL _ Hd) as (m & E & _ & Hw). rewrite (hi_new _ _ _ _ _ _ H n Hn Hnew) in Hw. done.
  - by rewrite HL.
  - intros b Hb. destruct (HinL b Hb) as (n & -> & Hn & _). exists n. by rewrite decide_True.
Qed.

(** The timer process takes the next timer. *)
Lemma took_inv a L F : acur A = a :: L → ∃ n h' V', a = Link n ∧ (n < N)%nat ∧ p = Some a ∧ h !! a = Some (view_at V a) ∧ fd V a = adel A a ∧
  (h1 ← wr_prev a None h; wr_next a None h1) = Some h' ∧ hinv N (fn V a) h' (a_took L F A) V' D ∧ aw A a = DETACHED_LIST ∧ a ∉ L.
Proof.
  intros Hcur. destruct (hi_cur _ _ _ _ _ _ H a) as (n & -> & Hn & Hw); [rewrite Hcur; by left|]. pose proof (hi_chain _ _ _ _ _ _ H) as Hch. pose proof (hi_nodup _ _ _ _ _ _ H) as Hnd.
  rewrite Hcur in Hch, Hnd. destruct Hch as [Ep Hch]. apply NoDup_cons in Hnd as [HnL Hnd]. assert (HnD : Link n ∈ D) by (by apply H).
  pose proof (hi_shows _ _ _ _ _ _ H) as Hsh. destruct (wr_prev_shows D h V (Link n) None Hsh HnD) as (h1 & Eh1 & Hsh1).
  destruct (wr_next_shows D h1 _ (Link n) None Hsh1 HnD) as (h2 & Eh2 & Hsh2). cbn [fn fp fl ft fw fd] in Hsh2.
  match type of Hsh2 with shows _ ?V0 _ => exists n, h2, V0 end. destruct (hi_where _ _ _ _ _ _ H n Hn) as (_ & Hfd & _).
  split_and!; [done|done|done|by apply link_lookup|done|by rewrite Eh1| |done|done].
  constructor; cbn [a_took aq aw anew adel aretr acur afired fn fp fl ft fw fd]; try apply H; try done.
  - intros l. destruct (hi_rep _ _ _ _ _ _ H l) as (rs & Hr & Hq). exists rs. split; [|done]. apply rep_frame with V; [done|]. intros b Hb.
    assert (b ≠ Link n); [|by cbn; rewrite !fupd_ne by done]. intros ->. apply (hi_nodes N p h A V D H l rs _ Hq) in Hb as [E|[E|(m & E & _ & Hw')]]; congruence.
  - apply chain_ext with (fn V); [|done]. intros b Hb. apply fupd_ne. intros ->. done.
  - intros b Hb. apply (hi_cur _ _ _ _ _ _ H). rewrite Hcur. by right.
Qed.
End operations.
