(* ===== verification/TmTimerRefine.v ===== *)
(** * The timer lists implement the queues

    The initial lists, every operation, and one pass of [utimer_routine]
    ([modules/tm/timer.c]) against the abstract machine of [TmTimerSpec]. *)

From stdpp Require Import prelude list sorting gmap.
From Stdlib Require Import ZArith Lia.
From S2P Require Import Prelude TmTimer TmTimerFacts TmTimerSplit TmTimerSpec.

(** ** What is observed *)

(** The timers of a list with their times, read along the links. *)
Fixpoint walk (fuel : nat) (h : theap) (l : lists) (a : tl_addr) : list (tl_addr * Z) :=
  match fuel with
  | O => []
  | S k =>
      match h !! a ≫= next_tl with
      | Some b => if bool_decide (b = last_tl l) then [] else (b, default 0 (time_out <$> h !! b)) :: walk k h l b
      | None => []
      end
  end.
Definition queue_of (h : theap) (l : lists) : list (tl_addr * Z) := walk (size h) h l (first_tl l).
Definition is_deleted (h : theap) (a : tl_addr) : bool := default false (deleted <$> h !! a).

Definition a_init : atimers := ATimers (λ _, []) (λ _, NoList) (λ _, true) (λ _, false) (λ _, RT_T1_TO_1) [] [].
Definition timers_init (h : theap) : tm_timers := Timers h (λ _, RT_T1_TO_1) None [].

(** ** Steps *)

Definition refines (N : nat) (s : tm_timers) (A : atimers) : Prop :=
  ∃ V D, hinv N (cur s) (th s) A V D ∧ (∀ a, retr_list s a = aretr A a) ∧ fired s = afired A.

Lemma a_insert_rest l a t A : aretr (a_insert l a t A) = aretr A ∧ afired (a_insert l a t A) = afired A ∧ acur (a_insert l a t A) = acur A.
Proof. done. Qed.
Lemma a_remove_rest a A : aretr (a_remove a A) = aretr A ∧ afired (a_remove a A) = afired A ∧ acur (a_remove a A) = acur A.
Proof. unfold a_remove. by destruct (aw A a). Qed.
Lemma a_set_rest tmo c a l x A : aretr (a_set tmo c a l x A) = aretr A ∧ afired (a_set tmo c a l x A) = afired A ∧ acur (a_set tmo c a l x A) = acur A.
Proof. unfold a_set. destruct (aw A a); [|done|]; apply a_remove_rest. Qed.
Lemma a_set1_rest tmo c a l x A : aretr (a_set1 tmo c a l x A) = aretr A ∧ afired (a_set1 tmo c a l x A) = afired A ∧ acur (a_set1 tmo c a l x A) = acur A.
Proof. unfold a_set1. by destruct (anew A a). Qed.

Section steps.
Context (tmo : lists → Z) (N : nat).

Lemma set_refines s A c n l x : refines N s A → (n < N)%nat → 0 < hits_at tmo c l x →
  ∃ h', set_timer tmo c (Link n) l x (th s) = Some h' ∧ refines N (with_heap s h') (a_set tmo c (Link n) l x A).
Proof.
  intros (V & D & H & Hr & Hf) Hn Ht. destruct (set_inv N _ _ A V D H tmo c n l x Hn Ht) as (h' & V' & -> & H'). exists h'. split; [done|]. exists V', D.
  destruct (a_set_rest tmo c (Link n) l x A) as (-> & -> & _). done.
Qed.
Lemma set1_refines s A c n l x : refines N s A → (n < N)%nat → 0 < hits_at tmo c l x →
  ∃ h' b, set_1timer tmo c (Link n) l x (th s) = Some (h', b) ∧ refines N (with_heap s h') (a_set1 tmo c (Link n) l x A).
Proof.
  intros (V & D & H & Hr & Hf) Hn Ht. destruct (set1_inv N _ _ A V D H tmo c n l x Hn Ht) as (h' & b & V' & -> & H'). exists h', b. split; [done|]. exists V', D.
  destruct (a_set1_rest tmo c (Link n) l x A) as (-> & -> & _). done.
Qed.
Lemma retr_refines s A n l : refines N s A → refines N (set_retr (Link n) l s) (a_retr (Link n) l A).
Proof.
  intros (V & D & H & Hr & Hf). exists V, D. split; [by eapply hinv_same|]. split; [|done]. intros a. cbn. case_bool_decide; [done|apply Hr].
Qed.

Lemma rearm_refines s A c n l : refines N s A → (n < N)%nat → 0 < hits_at tmo c l None → aw A (Link n) = DETACHED_LIST → Link n ∉ acur A →
  ∃ h', rearm tmo c (Link n) l (th s) = Some h' ∧ refines N (with_heap s h') (a_rearm tmo c (Link n) l A).
Proof.
  intros (V & D & H & Hr & Hf) Hn Ht Hw Hc. unfold rearm. destruct (where_inv N _ _ A V D H n Hn Hw Hc) as (h1 & V1 & -> & H1). cbn [mbind option_bind].
  apply (set_refines (with_heap s h1) (a_where (Link n) NoList A) c n l None); [|done|done]. by exists V1, D.
Qed.

Lemma handle_refines s A c hd : refines N s A → clock_ok tmo c None → ∃ s', run_handler_for_each tmo c hd s = Some s' ∧ refines N s' (a_handle tmo c hd A).
Proof.
  intros (V & D & H & Hr & Hf) Hok. unfold run_handler_for_each, a_handle. destruct (acur A) as [|a L] eqn:Hcur.
  { pose proof (hi_chain _ _ _ _ _ _ H) as Hch. rewrite Hcur in Hch. cbn in Hch. rewrite Hch. exists s. split; [done|]. by exists V, D. }
  destruct (took_inv N _ _ A V D H a L (if adel A a then afired A else afired A ++ [a]) Hcur) as (n & h' & V' & -> & Hn & -> & Hlk & Hfd & Hwr & H' & Hw & HnL).
  rewrite Hlk. cbn [mbind option_bind]. destruct (wr_prev (Link n) None (th s)) as [h1|]; [|done]. cbn [mbind option_bind] in Hwr |- *. rewrite Hwr. cbn [mbind option_bind next_tl deleted view_at].
  rewrite Hfd. destruct (adel A (Link n)); [eexists; split; [done|]; exists V', D; by rewrite Hf|].
  set (s1 := Timers h' (retr_list s) (fn V (Link n)) (fired s ++ [Link n])). set (A1 := a_took L (afired A ++ [Link n]) A).
  assert (HR : refines N s1 A1) by (exists V', D; cbn; by rewrite Hf). unfold run_handler, a_handler. destruct hd as [| |reffed].
  - by exists s1.
  - change (aretr A1 (Link n)) with (aretr A (Link n)). change (retr_list s1 (Link n)) with (retr_list s (Link n)). rewrite Hr. set (id := next_retr (aretr A (Link n))).
    destruct (rearm_refines (set_retr (Link n) id s1) (a_retr (Link n) id A1) c n id) as (h2 & -> & H2); [by apply retr_refines|done|apply Hok|done|done|]. cbn [mbind option_bind]. by eexists.
  - destruct reffed; [|by exists s1]. destruct (rearm_refines s1 A1 c n DELETE_LIST HR Hn) as (h2 & -> & H2); [apply Hok|done|done|]. cbn [mbind option_bind]. by eexists.
Qed.

Lemma detach_refines s A l time : refines N s A → ∃ s', detach_expired l time s = Some s' ∧ refines N s' (a_detach l time A).
Proof.
  intros (V & D & H & Hr & Hf). unfold detach_expired. pose proof (hi_chain _ _ _ _ _ _ H) as Hch. destruct (acur A) as [|a L] eqn:Hcur; cbn in Hch.
  - rewrite Hch. destruct (detach_inv N _ _ A V D H l time Hcur) as (h' & V' & p' & -> & H'). cbn [mbind option_bind]. eexists. split; [done|]. exists V', D.
    split; [done|]. unfold a_detach. by rewrite Hcur.
  - destruct Hch as [-> _]. exists s. split; [done|]. unfold a_detach. rewrite Hcur. by exists V, D.
Qed.

Lemma step_refines s A c o : refines N s A → op_ok tmo N (c, o) → ∃ s', timer_step tmo c o s = Some s' ∧ refines N s' (a_step tmo c o A).
Proof.
  intros HR Hok. destruct o as [n l x|n l x|n|n|rt fr retr x|n|l|hd]; cbn [timer_step a_step op_ok fst snd] in *.
  - destruct Hok as [Hn Hx]. destruct (set_refines s A c n l x HR Hn) as (h' & -> & H'); [apply Hx|]. by eexists.
  - destruct Hok as [Hn Hx]. destruct (set1_refines s A c n l x HR Hn) as (h' & b & -> & H'); [apply Hx|]. by eexists.
  - destruct HR as (V & D & H & Hr & Hf). destruct (reset_inv N _ _ A V D H n Hok) as (h' & V' & -> & H'). eexists. split; [done|]. by exists V', D.
  - destruct HR as (V & D & H & Hr & Hf). destruct (remove_inv N _ _ A V D H n Hok) as (h' & V' & -> & H'). eexists. split; [done|]. exists V', D.
    destruct (a_remove_rest (Link n) A) as (-> & -> & _). done.
  - destruct Hok as (Hrt & Hfr & Hx). unfold _set_fr_retr, a_start. pose proof HR as (V & D & H & _ & _). rewrite (link_lookup N _ _ A V D H rt Hrt). cbn [mbind option_bind deleted view_at].
    destruct (hi_where _ _ _ _ _ _ H rt Hrt) as (_ & -> & _). destruct (retr && negb (adel A (Link rt))).
    + destruct (set_refines (set_retr (Link rt) RT_T1_TO_1 s) (a_retr (Link rt) RT_T1_TO_1 A) c rt RT_T1_TO_1 None) as (h' & -> & H'); [by apply retr_refines|done|apply Hx|].
      cbn [mbind option_bind]. destruct (set1_refines _ _ c fr FR_TIMER_LIST x H' Hfr) as (h2 & b & -> & H2); [apply Hx|]. cbn [mbind option_bind]. by eexists.
    + cbn [mbind option_bind]. destruct (set1_refines _ _ c fr FR_TIMER_LIST x HR Hfr) as (h2 & b & -> & H2); [apply Hx|]. cbn [mbind option_bind]. by eexists.
  - destruct Hok as [Hn Hx]. destruct (set_refines (set_retr (Link n) RT_T2 s) (a_retr (Link n) RT_T2 A) c n RT_T2 None) as (h' & -> & H'); [by apply retr_refines|done|apply Hx|]. by eexists.
  - by apply detach_refines.
  - by apply handle_refines.
Qed.

Lemma run_refines ops : Forall (op_ok tmo N) ops → ∀ s A, refines N s A → ∃ s', timer_run tmo ops s = Some s' ∧ refines N s' (a_run tmo ops A).
Proof.
  induction 1 as [|[c o] ops Hok _ IH]; intros s A HR; [by exists s|]. cbn [timer_run]. destruct (step_refines s A c o HR Hok) as (s1 & -> & H1). cbn [mbind option_bind]. by apply IH.
Qed.
End steps.

(** ** The initial lists *)

Definition zero_view : view := View (λ _, None) (λ _, None) (λ _, None) (λ _, 0) (λ _, NoList) (λ _, false).
Definition link_dom (N : nat) : gset tl_addr := list_to_set ((first_tl <$> all_lists) ++ (last_tl <$> all_lists) ++ (Link <$> seq 0 N)).

Lemma all_lists_elem l : l ∈ all_lists.
Proof. destruct l; apply list_elem_of_In; cbn; tauto. Qed.
Lemma link_dom_elem N a : a ∈ link_dom N ↔ match a with Link n => (n < N)%nat | _ => True end.
Proof.
  unfold link_dom. rewrite elem_of_list_to_set, !elem_of_app, !list_elem_of_fmap. destruct a as [l|l|n].
  - split; [done|]. intros _. left. exists l. split; [done|apply all_lists_elem].
  - split; [done|]. intros _. right. left. exists l. split; [done|apply all_lists_elem].
  - split; [intros [(? & ? & _)|[(? & ? & _)|(m & [= ->] & Hm)]]; try done; apply elem_of_seq in Hm; lia|]. intros Hn. right. right. exists n. split; [done|]. apply elem_of_seq. lia.
Qed.

Lemma reset_list_shows D h V l : shows h V D → first_tl l ∈ D → last_tl l ∈ D → ∃ h', reset_timer_list l h = Some h' ∧
  shows h' (View (fupd (fupd (fn V) (first_tl l) (Some (last_tl l))) (last_tl l) None) (fupd (fupd (fp V) (last_tl l) (Some (first_tl l))) (first_tl l) None)
    (fl V) (fupd (ft V) (last_tl l) (2 ^ 64 - 1)) (fw V) (fd V)) D.
Proof. intros Hsh H1 H2. unfold reset_timer_list. do 5 (step_wr; [done|]). by eexists. Qed.

Lemma init_lists N ls : ∃ h V, foldr (λ l h, h ← h; reset_timer_list l h)
    (Some (list_to_map ((λ a, (a, zero_link)) <$> (first_tl <$> all_lists) ++ (last_tl <$> all_lists) ++ (Link <$> seq 0 N)))) ls = Some h ∧
  shows h V (link_dom N) ∧ (∀ l, l ∈ ls → fn V (first_tl l) = Some (last_tl l) ∧ fp V (last_tl l) = Some (first_tl l)) ∧
  (∀ a, fw V a = NoList ∧ fd V a = false) ∧ (∀ l, ft V (first_tl l) = 0) ∧ ∀ n, ft V (Link n) = 0.
Proof.
  induction ls as [|l ls (h & V & Hf & Hsh & Hl & Hw & Ht & Hn)]; cbn [foldr].
  - eexists _, zero_view. split; [done|]. split; [|split; [by intros l ?%not_elem_of_nil|done]]. intros a. unfold link_dom. generalize ((first_tl <$> all_lists) ++ (last_tl <$> all_lists) ++ (Link <$> seq 0 N)).
    intros L. induction L as [|b L IH]; [done|]. cbn [fmap list_fmap list_to_map foldr fst snd]. destruct (decide (a = b)) as [->|Hne].
    + rewrite lookup_insert_eq, decide_True by (cbn; set_solver). done.
    + rewrite lookup_insert_ne by done. rewrite IH. destruct (decide (a ∈ _)) as [Hd|Hd]; [rewrite decide_True by (cbn; set_solver)|rewrite decide_False by (cbn; set_solver)]; done.
  - rewrite Hf. cbn [mbind option_bind]. destruct (reset_list_shows (link_dom N) h V l Hsh) as (h' & -> & Hsh'); [by apply link_dom_elem..|].
    match type of Hsh' with shows _ ?V0 _ => exists h', V0 end. split; [done|]. split; [done|]. cbn [fn fp fl ft fw fd]. split_and!; [|done| |].
    + intros l' Hl'. rewrite (fupd_ne _ (last_tl l) _ (first_tl l')), (fupd_ne _ (first_tl l) _ (last_tl l')) by done. destruct (decide (l' = l)) as [->|Hne]; [by rewrite !fupd_eq|].
      rewrite !fupd_ne by congruence. apply Hl. by apply elem_of_cons in Hl' as [?|?].
    + intros l'. rewrite fupd_ne by done. apply Ht.
    + intros n. rewrite fupd_ne by done. apply Hn.
Qed.

Lemma init_refines N : ∃ h, init_heap N = Some h ∧ refines N (timers_init h) a_init.
Proof.
  destruct (init_lists N all_lists) as (h & V & Hf & Hsh & Hl & Hw & Ht & Hn). exists h. split; [exact Hf|]. exists V, (link_dom N). split; [|done].
  constructor; cbn [timers_init a_init cur th aq aw anew adel acur]; try done.
  - intros l. split; by apply link_dom_elem.
  - intros n. apply link_dom_elem.
  - intros l. exists []. split; [|done]. destruct (Hl l (all_lists_elem l)) as [H1 H2].
    constructor; [by repeat split| |constructor|constructor|constructor|constructor|apply Ht]. apply NoDup_cons. split; [by intros ?%list_elem_of_singleton|apply NoDup_singleton].
  - intros n Hn'. destruct (Hw (Link n)) as [-> ->]. by rewrite Hn.
  - intros l a. split; [by intros ?%not_elem_of_nil|]. by intros (n & _ & _ & ?).
  - constructor.
  - by intros a ?%not_elem_of_nil.
Qed.

(** ** The observation *)

Lemma walk_path D h V l : shows h V D → ∀ L a fuel, path (fn V) (fp V) (a :: L ++ [last_tl l]) → (∀ b, b ∈ a :: L → b ∈ D) → last_tl l ∉ L → (length L < fuel)%nat →
  walk fuel h l a = (λ b, (b, ft V b)) <$> L.
Proof.
  intros Hsh L. induction L as [|b L IH]; intros a [|fuel] Hp HD Hl Hf; try (cbn in Hf; lia); cbn [walk].
  - rewrite (shows_lookup D h V a Hsh) by (apply HD; by left). destruct Hp as (Hp & _). cbn. rewrite Hp. by rewrite bool_decide_true.
  - rewrite (shows_lookup D h V a Hsh) by (apply HD; by left). destruct Hp as (Hp1 & _ & Hp2). cbn [mbind option_bind next_tl view_at]. rewrite Hp1. apply not_elem_of_cons in Hl as [Hlb Hl].
    rewrite bool_decide_false by done. rewrite (shows_lookup D h V b Hsh) by (apply HD; right; by left). cbn [fmap option_fmap option_map time_out view_at default list_fmap]. f_equal.
    apply IH; [done|intros c Hc; apply HD; by right|done|cbn in Hf; lia].
Qed.

Lemma queue_times V rs : Forall (λ r, Forall (λ a, ft V a = r.1) r.2) rs → (λ b, (b, ft V b)) <$> flat rs = queue rs.
Proof.
  induction 1 as [|[t l] rs Ht _ IH]; [done|]. rewrite flat_cons, fmap_app, IH. change (queue ((t, l) :: rs)) with (((λ a, (a, t)) <$> l) ++ queue rs). f_equal. cbn in Ht |- *.
  induction Ht as [|a l Ha _ IHl]; [done|]. cbn. by rewrite Ha, IHl.
Qed.

Lemma queue_sorted rs : StronglySorted (λ r r' : run, r.1 < r'.1) rs → StronglySorted (λ e e' : tl_addr * Z, e.2 <= e'.2) (queue rs).
Proof.
  induction 1 as [|[t l] rs _ IH Hr]; [constructor|]. change (queue ((t, l) :: rs)) with (((λ a, (a, t)) <$> l) ++ queue rs).
  assert (Hq : Forall (λ e : tl_addr * Z, t <= e.2) (queue rs)).
  { apply Forall_forall. intros e (r & Hin & ->)%queue_elem. pose proof (proj1 (Forall_forall _ _) Hr r Hin) as Hlt. cbn in Hlt. lia. }
  clear Hr. induction l as [|a l IHl]; [exact IH|]. cbn. constructor; [exact IHl|]. apply Forall_app. split; [|done]. rewrite Forall_forall. intros e (b & -> & _)%list_elem_of_fmap. cbn. lia.
Qed.

Lemma refines_queue N s A l : refines N s A → queue_of (th s) l = aq A l ∧ StronglySorted (λ e e' : tl_addr * Z, e.2 <= e'.2) (aq A l).
Proof.
  intros (V & D & H & _). destruct (hi_rep _ _ _ _ _ _ H l) as (rs & Hr & Hq). split; [|rewrite <- Hq; apply queue_sorted, Hr].
  rewrite <- Hq, <- (queue_times V) by apply Hr. unfold queue_of. pose proof (hi_shows _ _ _ _ _ _ H) as Hsh. pose proof (rep_nodup _ _ _ Hr) as Hnd.
  assert (HD : ∀ a, a ∈ nodes l rs → a ∈ D) by (intros a; by apply (hi_nodes_D N _ _ A V D H)).
  apply (walk_path D (th s) V l Hsh); [apply Hr| | |].
  - intros b Hb. apply HD. unfold nodes. apply (elem_of_app (first_tl l :: flat rs)). by left.
  - intros Hin. unfold nodes in Hnd. apply NoDup_cons in Hnd as [_ Hnd]. apply NoDup_app in Hnd as (_ & Hd & _). apply (Hd _ Hin). by left.
  - rewrite (shows_size D _ _ Hsh). by apply (rep_size D V l rs).
Qed.

Lemma refines_deleted N s A n : refines N s A → (n < N)%nat → is_deleted (th s) (Link n) = adel A (Link n).
Proof.
  intros (V & D & H & _) Hn. unfold is_deleted. rewrite (link_lookup N _ _ A V D H n Hn). cbn. by apply (hi_where _ _ _ _ _ _ H n Hn).
Qed.

(** C23. Every sequence of operations on the timer lists, by the processes that set, reset and unlink
    timers and by the timer process that detaches and handles them in between, runs without a
    null dereference and with loops that end.  After it each list holds the queue of the abstract
    machine, ordered by the time the timers hit and, for equal times, in the order in which they
    were set; and the handlers were run for the same timers in the same order. *)
Theorem timers_refine_queues (tmo : lists → Z) (N : nat) (ops : list (clock * timer_op)) : Forall (op_ok tmo N) ops →
  ∃ h s, init_heap N = Some h ∧ timer_run tmo ops (timers_init h) = Some s ∧ fired s = afired (a_run tmo ops a_init) ∧
    ∀ l, queue_of (th s) l = aq (a_run tmo ops a_init) l ∧ StronglySorted (λ e e' : tl_addr * Z, e.2 <= e'.2) (queue_of (th s) l).
Proof.
  intros Hok. destruct (init_refines N) as (h & Hh & H0). destruct (run_refines tmo N ops Hok _ _ H0) as (s & Hs & HR). exists h, s. split_and!; [done|done|by destruct HR as (V & D & _ & _ & HR)|].
  intros l. destruct (refines_queue N s _ l HR) as [-> Hsort]. done.
Qed.

(** ** A pass of the retransmission timers *)

(** The timers of a list that hit and were not reset. *)
Definition due (h : theap) (time : Z) (l : lists) : list tl_addr := filter (λ a, is_deleted h a = false) (filter (λ e, e.2 <= time) (queue_of h l)).*1.

(** The timeouts of the retransmission lists are positive, and the clock does not overflow. *)
Definition retr_ok (tmo : lists → Z) (c : clock) : Prop :=
  clock_ok tmo c None ∧ 0 <= get_uticks c ∧ ∀ l, UTIME_TYPE l = true → 0 < tmo l ∧ tmo l + get_uticks c < 2 ^ 64.

Section pass.
Context (tmo : lists → Z) (N : nat) (c : clock) (Hok : retr_ok tmo c).
Let u := get_uticks c.

Lemma rearmed_later l : UTIME_TYPE l = true → u < hits_at tmo c l None.
Proof.
  intros Hl. destruct Hok as (_ & Hu & Ht). destruct (Ht l Hl) as [H1 H2]. unfold hits_at, wrap. rewrite Hl. cbn. rewrite Z.mod_small by (unfold u in *; lia). unfold u. lia.
Qed.

(** A timer that hits later does not change what hits now. *)
Lemma enqueue_later a t q : u < t → filter (λ e, e.2 <= u) (enqueue a t q) = filter (λ e, e.2 <= u) q.
Proof.
  intros Ht. unfold enqueue. rewrite filter_app, filter_cons_False by (cbn; lia). rewrite (filter_no _ (filter (λ e : tl_addr * Z, t < e.2) q)).
  2:{ intros e [He _]%list_elem_of_filter. lia. }
  rewrite app_nil_r. rewrite list_filter_filter. apply list_filter_iff. intros e. lia.
Qed.

Lemma enqueue_keeps a t q e : e ∈ q → e ∈ enqueue a t q.
Proof.
  intros He. unfold enqueue. rewrite elem_of_app, elem_of_cons, !list_elem_of_filter. destruct (decide (e.2 <= t)); [by left|]. right. right. split; [lia|done].
Qed.

(** What is due on the lists is the same, and what hits later is still there. *)
Record same_due (A A' : atimers) : Prop := {
  sd_del a : adel A' a = adel A a;
  sd_due l : UTIME_TYPE l = true → filter (λ e, e.2 <= u) (aq A' l) = filter (λ e, e.2 <= u) (aq A l);
  sd_later l e : e ∈ aq A l → u < e.2 → e ∈ aq A' l
}.
Lemma same_due_trans A1 A2 A3 : same_due A1 A2 → same_due A2 A3 → same_due A1 A3.
Proof.
  intros [D1 D2 D3] [E1 E2 E3]. constructor; [intros a; by rewrite E1|intros l Hl; by rewrite E2, D2|]. intros l e He Hu. by apply E3, Hu; apply D3.
Qed.

(** The next list of a buffer, with the time of the next retransmission. *)
Definition rearmed (A A' : atimers) (a : tl_addr) : Prop :=
  UTIME_TYPE (next_retr (aretr A a)) = true → (a, hits_at tmo c (next_retr (aretr A a)) None) ∈ aq A' (next_retr (aretr A a)).

Lemma handle_due A a L : acur A = a :: L → let A' := a_handle tmo c retransmission_handler A in
  same_due A A' ∧ acur A' = L ∧ afired A' = afired A ++ (if adel A a then [] else [a]) ∧
  (∀ b, b ≠ a → aretr A' b = aretr A b) ∧ (adel A a = false → rearmed A A' a).
Proof.
  intros Hcur A'. unfold A', a_handle. rewrite Hcur. destruct (adel A a) eqn:Hd; [rewrite app_nil_r; by repeat split|]. unfold a_handler, a_rearm, a_set. cbn [a_where a_retr a_took aw]. rewrite fupd_eq.
  change (aretr (a_took L (afired A ++ [a]) A) a) with (aretr A a). unfold rearmed. set (id := next_retr _). unfold a_remove. cbn [aw a_where]. rewrite fupd_eq.
  cbn [a_insert aq aw adel acur afired aretr a_where a_retr a_took]. split_and!; [|done|done|intros b Hb; by rewrite bool_decide_false|].
  - constructor; cbn.
    + intros b. unfold fupd. case_decide; [by subst|done].
    + intros l Hl. destruct (decide (l = id)) as [->|Hne]; [|by rewrite fupd_ne]. rewrite fupd_eq. apply enqueue_later. by apply rearmed_later.
    + intros l e He _. destruct (decide (l = id)) as [->|Hne]; [|by rewrite fupd_ne]. rewrite fupd_eq. by apply enqueue_keeps.
  - intros _ _. rewrite fupd_eq. unfold enqueue. apply elem_of_app. right. by left.
Qed.

Lemma handle_all_refines fuel : ∀ s A, refines N s A → (length (acur A) < fuel)%nat → ∃ s' A', handle_all tmo fuel c retransmission_handler s = Some s' ∧ refines N s' A' ∧
  acur A' = [] ∧ same_due A A' ∧ afired A' = afired A ++ filter (λ a, adel A a = false) (acur A) ∧
  (∀ b, b ∉ acur A → aretr A' b = aretr A b) ∧ ∀ a, a ∈ acur A → adel A a = false → rearmed A A' a.
Proof.
  induction fuel as [|fuel IH]; intros s A HR Hf; [lia|]. pose proof HR as (V & D & H & _ & _). pose proof (hi_chain _ _ _ _ _ _ H) as Hch. cbn [handle_all].
  pose proof (hi_nodup _ _ _ _ _ _ H) as Hnd. destruct (acur A) as [|a L] eqn:Hcur; cbn in Hch.
  { rewrite Hch. exists s, A. rewrite app_nil_r. split_and!; try done. by intros a ?%not_elem_of_nil. }
  destruct Hch as [-> _]. destruct (handle_refines tmo N s A c retransmission_handler HR) as (s1 & -> & H1); [apply Hok|]. cbn [mbind option_bind].
  destruct (handle_due A a L Hcur) as (S1 & E1 & E2 & E3 & E4). set (A1 := a_handle tmo c retransmission_handler A) in *. apply NoDup_cons in Hnd as [Ha Hnd].
  destruct (IH s1 A1 H1) as (s' & A' & -> & H' & Hc' & S' & Hf' & Hr' & Hre'); [rewrite E1; cbn in Hf; lia|]. exists s', A'. rewrite E1 in Hf', Hr', Hre'.
  pose proof (sd_del _ _ S1) as D1. split_and!; [done|done|done|by eapply same_due_trans| | |].
  - rewrite Hf', E2, <- app_assoc. f_equal. rewrite (list_filter_iff (λ b, adel A1 b = false) (λ b, adel A b = false)) by (intros b; by rewrite D1).
    destruct (adel A a) eqn:Hd; [rewrite filter_cons_False by congruence|rewrite filter_cons_True by done]; done.
  - intros b [Hb1 Hb2]%not_elem_of_cons. by rewrite Hr', E3.
  - intros b [->|Hb]%elem_of_cons Hdb.
    + intros Hu. apply (sd_later _ _ S'); [by apply E4|]. cbn. by apply rearmed_later.
    + intros Hu. assert (b ≠ a) by (intros ->; done). unfold rearmed in Hre'. rewrite <- E3 in Hu |- * by done. apply Hre'; [done|by rewrite D1|done].
Qed.

Record passed (ls : list lists) (A A' : atimers) : Prop := {
  ps_cur : acur A' = [];
  ps_del a : adel A' a = adel A a;
  ps_fired : afired A' = afired A ++ concat ((λ l, filter (λ a, adel A a = false) (filter (λ e, e.2 <= u) (aq A l)).*1) <$> ls);
  ps_due l : UTIME_TYPE l = true → filter (λ e, e.2 <= u) (aq A' l) = if decide (l ∈ ls) then [] else filter (λ e, e.2 <= u) (aq A l);
  ps_later l e : e ∈ aq A l → u < e.2 → e ∈ aq A' l;
  ps_retr a : (∀ l, l ∈ ls → a ∉ (filter (λ e, e.2 <= u) (aq A l)).*1) → aretr A' a = aretr A a;
  ps_rearmed l a : l ∈ ls → a ∈ (filter (λ e, e.2 <= u) (aq A l)).*1 → adel A a = false → rearmed A A' a
}.

Lemma pass_refines l s A : UTIME_TYPE l = true → refines N s A → acur A = [] → ∃ s' A', retransmit_list tmo c l s = Some s' ∧ refines N s' A' ∧ passed [l] A A'.
Proof.
  intros Hl HR Hcur. unfold retransmit_list. destruct (detach_refines N s A l (get_uticks c) HR) as (s1 & -> & H1). cbn [mbind option_bind]. fold u in H1. set (A1 := a_detach l u A) in *.
  assert (E : acur A1 = (filter (λ e : tl_addr * Z, e.2 <= u) (aq A l)).*1 ∧ afired A1 = afired A ∧ (∀ a, adel A1 a = adel A a) ∧ (∀ a, aretr A1 a = aretr A a) ∧
    (∀ l', filter (λ e : tl_addr * Z, e.2 <= u) (aq A1 l') = if decide (l' = l) then [] else filter (λ e : tl_addr * Z, e.2 <= u) (aq A l')) ∧
    ∀ l' e, e ∈ aq A l' → u < e.2 → e ∈ aq A1 l').
  { unfold A1, a_detach. rewrite Hcur. cbn. split_and!; [done|done|done|done| |].
    - intros l'. case_decide as Hd; [|by rewrite fupd_ne]. subst l'. rewrite fupd_eq. apply filter_no. intros e [He _]%list_elem_of_filter. lia.
    - intros l' e He Hu. unfold fupd. case_decide as Hd; [|done]. subst l'. by apply list_elem_of_filter. }
  destruct E as (E1 & E2 & E3 & E4 & E5 & E6).
  destruct (handle_all_refines (S (size (th s1))) s1 A1 H1) as (s' & A' & -> & H' & Hc' & S' & Hf' & Hr' & Hre').
  { destruct H1 as (V & D & H & _). rewrite (shows_size D _ _ (hi_shows _ _ _ _ _ _ H)). pose proof (hi_nodup _ _ _ _ _ _ H) as Hnd. apply Nat.lt_succ_r. rewrite <- (size_list_to_set (C := gset tl_addr)) by done.
    apply subseteq_size. intros a. rewrite elem_of_list_to_set. intros Ha. destruct (hi_cur _ _ _ _ _ _ H a Ha) as (n & -> & Hn & _). by apply (hi_links _ _ _ _ _ _ H). }
  exists s', A'. split; [done|]. split; [done|]. rewrite E1 in Hf', Hr', Hre'. destruct S' as [D1 D2 D3]. constructor; [done|intros a; by rewrite D1| | | | |].
  - rewrite Hf', E2. f_equal. cbn. rewrite app_nil_r. apply list_filter_iff. intros a. by rewrite E3.
  - intros l' Hl'. rewrite D2, E5 by done. destruct (decide (l' = l)) as [->|Hne]; [by rewrite decide_True by (by left)|].
    rewrite decide_False; [done|]. by intros ?%list_elem_of_singleton.
  - intros l' e He Hu. apply D3; [by apply E6|done].
  - intros a Ha. rewrite Hr', E4; [done|]. apply Ha. by left.
  - intros l' a ->%list_elem_of_singleton Ha Hd. unfold rearmed in Hre'. specialize (Hre' a Ha). rewrite E3, E4 in Hre'. intros Hu. by apply Hre'.
Qed.

Lemma passed_trans ls l A A1 A2 : UTIME_TYPE l = true → l ∉ ls → (∀ l1 l2 a, l1 ≠ l2 → a ∈ (aq A l1).*1 → a ∉ (aq A l2).*1) → passed ls A A1 → passed [l] A1 A2 → passed (ls ++ [l]) A A2.
Proof.
  intros Hl Hnl Hdis [C1 D1 F1 G1 L1 R1 W1] [C2 D2 F2 G2 L2 R2 W2]. pose proof (G1 l Hl) as Gl. rewrite decide_False in Gl by done.
  assert (Hfst : ∀ l' a, a ∈ (filter (λ e : tl_addr * Z, e.2 <= u) (aq A l')).*1 → a ∈ (aq A l').*1).
  { intros l' a. rewrite !list_elem_of_fmap. intros (e & -> & He). exists e. split; [done|]. by apply list_elem_of_filter in He as [_ He]. }
  constructor; [done|intros a; by rewrite D2| | | | |].
  - rewrite F2, F1, <- app_assoc, fmap_app, concat_app. cbn. rewrite !app_nil_r. f_equal. f_equal. rewrite Gl. apply list_filter_iff. intros a. by rewrite D1.
  - intros l' Hl'. rewrite G2, G1 by done. destruct (decide (l' ∈ [l])) as [H1|H1]; [by rewrite decide_True by (apply elem_of_app; by right)|].
    destruct (decide (l' ∈ ls)) as [H2|H2]; [by rewrite decide_True by (apply elem_of_app; by left)|]. rewrite decide_False; [done|]. by intros [?|?]%elem_of_app.
  - intros l' e He Hu. apply L2; [by apply L1|done].
  - intros a Ha. rewrite R2, R1; [done| |].
    + intros l' Hl'. apply Ha, elem_of_app. by left.
    + intros l' ->%list_elem_of_singleton. rewrite Gl. apply Ha, elem_of_app. right. by left.
  - intros l' a [Hin| ->%list_elem_of_singleton]%elem_of_app Ha Hd Hu.
    + apply L2; [by eapply W1|]. cbn. by apply rearmed_later.
    + assert (Hra : aretr A1 a = aretr A a). { apply R1. intros l1 Hl1 Ha1. apply (Hdis l1 l a); [by intros ->|by apply Hfst|by apply Hfst]. }
      unfold rearmed in W2. specialize (W2 l a). rewrite Hra, Gl, D1 in W2. apply W2; [by left|done|done|done].
Qed.
Lemma routine_refines s A : refines N s A → acur A = [] → ∃ s' A', utimer_routine tmo c s = Some s' ∧ refines N s' A' ∧ passed [RT_T1_TO_1; RT_T1_TO_2; RT_T1_TO_3; RT_T2] A A'.
Proof.
  intros HR HA. assert (Hdis : ∀ l1 l2 a, l1 ≠ l2 → a ∈ (aq A l1).*1 → a ∉ (aq A l2).*1).
  { intros l1 l2 a Hne H1 H2. destruct HR as (V & D & H & _). apply (hi_queued _ _ _ _ _ _ H) in H1 as (n & -> & _ & W1). apply (hi_queued _ _ _ _ _ _ H) in H2 as (m & _ & _ & W2). congruence. }
  unfold utimer_routine.
  destruct (pass_refines RT_T1_TO_1 s A eq_refl HR HA) as (s1 & A1 & -> & R1 & P1). cbn [mbind option_bind].
  destruct (pass_refines RT_T1_TO_2 s1 A1 eq_refl R1 (ps_cur _ _ _ P1)) as (s2 & A2 & -> & R2 & P2). cbn [mbind option_bind].
  apply (passed_trans [RT_T1_TO_1] RT_T1_TO_2 A) in P2; [|done|by apply (bool_decide_unpack _)|done|done].
  destruct (pass_refines RT_T1_TO_3 s2 A2 eq_refl R2 (ps_cur _ _ _ P2)) as (s3 & A3 & -> & R3 & P3). cbn [mbind option_bind].
  apply (passed_trans [RT_T1_TO_1; RT_T1_TO_2] RT_T1_TO_3 A) in P3; [|done|by apply (bool_decide_unpack _)|done|done].
  destruct (pass_refines RT_T2 s3 A3 eq_refl R3 (ps_cur _ _ _ P3)) as (s4 & A4 & -> & R4 & P4).
  apply (passed_trans [RT_T1_TO_1; RT_T1_TO_2; RT_T1_TO_3] RT_T2 A) in P4; [|done|by apply (bool_decide_unpack _)|done|done]. by exists s4, A4.
Qed.
End pass.

Lemma refines_due N s A time l : refines N s A → due (th s) time l = filter (λ a, adel A a = false) (filter (λ e, e.2 <= time) (aq A l)).*1.
Proof.
  intros HR. unfold due. destruct (refines_queue N s A l HR) as [-> _]. assert (Hq : ∀ a, a ∈ (filter (λ e : tl_addr * Z, e.2 <= time) (aq A l)).*1 → is_deleted (th s) a = adel A a).
  { intros a Ha. assert (Hin : a ∈ (aq A l).*1).
    { rewrite list_elem_of_fmap in Ha |- *. destruct Ha as (e & -> & He). exists e. split; [done|]. by apply list_elem_of_filter in He as [_ He]. }
    pose proof HR as (V & D & H & _). apply (hi_queued _ _ _ _ _ _ H) in Hin as (n & -> & Hn & _). by apply (refines_deleted N). }
  revert Hq. generalize ((filter (λ e : tl_addr * Z, e.2 <= time) (aq A l)).*1). intros L. induction L as [|a L IH]; intros Hq; [done|]. rewrite !filter_cons.
  rewrite (Hq a) by (by left). rewrite IH by (intros b Hb; apply Hq; by right). done.
Qed.

(** C24. A pass of [utimer_routine] between any operations, with timeouts that are positive and a
    clock that does not overflow, ends.  It retransmits exactly the buffers whose timers hit and
    were not reset, each once, list by list and in the order of their times; afterwards no timer
    of these lists is overdue, and each of them is on the next list, up to the last one, with
    the time its timeout says. *)
Theorem utimer_routine_retransmits (tmo : lists → Z) (N : nat) (ops : list (clock * timer_op)) (c : clock) (h : theap) (s : tm_timers) :
  retr_ok tmo c → Forall (op_ok tmo N) ops → init_heap N = Some h → timer_run tmo ops (timers_init h) = Some s → cur s = None →
  ∃ s', utimer_routine tmo c s = Some s' ∧ cur s' = None ∧
    fired s' = fired s ++ due (th s) (get_uticks c) RT_T1_TO_1 ++ due (th s) (get_uticks c) RT_T1_TO_2 ++ due (th s) (get_uticks c) RT_T1_TO_3 ++ due (th s) (get_uticks c) RT_T2 ∧
    (∀ l, UTIME_TYPE l = true → filter (λ e, e.2 <= get_uticks c) (queue_of (th s') l) = []) ∧
    ∀ l a, UTIME_TYPE l = true → a ∈ due (th s) (get_uticks c) l → let id := next_retr (retr_list s a) in UTIME_TYPE id = true → (a, tmo id + get_uticks c) ∈ queue_of (th s') id.
Proof.
  intros Hok Hops Hh Hs Hcur. destruct (init_refines N) as (h' & Hh' & H0). rewrite Hh in Hh'. injection Hh' as <-. destruct (run_refines tmo N ops Hops _ _ H0) as (s0 & Hs0 & HR).
  rewrite Hs in Hs0. injection Hs0 as <-. set (A := a_run tmo ops a_init) in *. clearbody A. clear Hs Hops H0.
  assert (HA : acur A = []). { destruct HR as (V & D & H & _). pose proof (hi_chain _ _ _ _ _ _ H) as Hch. rewrite Hcur in Hch. destruct (acur A); [done|]. by destruct Hch as [? _]. }
  destruct (routine_refines tmo N c Hok s A HR HA) as (s' & A' & Hs' & R' & [C' _ F' G' _ _ W']). exists s'. split; [done|].
  assert (Hf : fired s = afired A) by (by destruct HR as (V & D & _ & _ & HR)). assert (Hf' : fired s' = afired A') by (by destruct R' as (V & D & _ & _ & R')).
  assert (Hret : ∀ a, retr_list s a = aretr A a) by (by destruct HR as (V & D & _ & HR & _)). split_and!.
  - destruct R' as (V & D & H & _). pose proof (hi_chain _ _ _ _ _ _ H) as Hch. by rewrite C' in Hch.
  - rewrite !(refines_due N s A) by done. rewrite Hf', F', Hf. cbn. by rewrite app_nil_r.
  - intros l Hl. destruct (refines_queue N s' A' l R') as [-> _]. rewrite G' by done. rewrite decide_True; [done|]. destruct l; try done; by apply (bool_decide_unpack _).
  - intros l a Hl Ha id Hid. unfold id in *. rewrite Hret in *. destruct (refines_queue N s' A' (next_retr (aretr A a)) R') as [-> _]. rewrite (refines_due N s A) in Ha by done.
    apply list_elem_of_filter in Ha as [Hd Ha]. assert (Ht : hits_at tmo c (next_retr (aretr A a)) None = tmo (next_retr (aretr A a)) + get_uticks c).
    { destruct Hok as (_ & Hu & Hb). destruct (Hb _ Hid). unfold hits_at, wrap. rewrite Hid. cbn. apply Z.mod_small. lia. }
    rewrite <- Ht. apply (W' l a); [|done|done|done]. destruct l; try done; by apply (bool_decide_unpack _).
Qed.

(** ** The intervals *)

(** The intervals of the retransmissions, in microseconds: T1, then twice and four times T1 and
    then T2, none longer than T2. *)
Lemma retransmission_intervals (tmo tmo' : lists → Z) : init_timeouts tmo = Some tmo' → 0 < tmo RT_T1_TO_1 → 4000 * tmo RT_T1_TO_1 < 2 ^ 32 → 1000 * tmo RT_T2 < 2 ^ 32 →
  let t1 := 1000 * tmo RT_T1_TO_1 in let t2 := 1000 * tmo RT_T2 in
  tmo' RT_T1_TO_1 = t1 ∧ tmo' RT_T1_TO_2 = Z.min (2 * t1) t2 ∧ tmo' RT_T1_TO_3 = Z.min (4 * t1) t2 ∧ tmo' RT_T2 = t2 ∧ t1 < t2.
Proof.
  unfold init_timeouts. destruct (_ || _); [done|]. destruct (Z.leb_spec (tmo RT_T2) (tmo RT_T1_TO_1)) as [|Hlt]; [done|]. intros [= <-] H1 H2 H3. unfold wrap.
  rewrite !Z.shiftl_mul_pow2 by lia. change (2 ^ 1) with 2. change (2 ^ 2) with 4. rewrite !(Z.mod_small (tmo _ * 1000)) by lia.
  rewrite (Z.mod_small (tmo RT_T1_TO_1 * 1000 * 2)), (Z.mod_small (tmo RT_T1_TO_1 * 1000 * 4)) by lia.
  split_and!; [lia| | |lia|lia]; match goal with |- context [?a <? ?b] => destruct (Z.ltb_spec a b) end; lia.
Qed.

(** ** A concrete run *)

Definition tmo0 : lists → Z := default (λ _, 0) (init_timeouts timer_id2timeout).
(** Three requests are sent within a second; the second one is answered. *)
Definition three_requests : list (clock * timer_op) :=
  [(Clock 10 10000000, TStart 0 1 true None); (Clock 10 10100000, TStart 2 3 true None); (Clock 10 10100000, TStart 4 5 true None); (Clock 10 10300000, TReset 2); (Clock 10 10400000, TReset 3)].

Lemma clock_ok0 t u x : 0 <= t < 2 ^ 40 → 0 <= u < 2 ^ 40 → default 1 x < 2 ^ 40 → 0 < default 1 x → clock_ok tmo0 (Clock t u) x.
Proof.
  intros Ht Hu Hx Hx' l. assert (Hl : 0 < tmo0 l < 2 ^ 40) by (destruct l; vm_compute; done). unfold hits_at, wrap. cbn [get_ticks get_uticks default]. set (v := if UTIME_TYPE l then u else t).
  assert (0 <= v < 2 ^ 40) by (unfold v; destruct (UTIME_TYPE l); lia). destruct x as [x|]; cbn in *; rewrite !Z.mod_small by lia; lia.
Qed.
Lemma three_requests_ok : Forall (op_ok tmo0 6) three_requests.
Proof. repeat constructor; cbn; try lia; apply clock_ok0; cbn; lia. Qed.

Lemma timers_refine_queues_witness : ∃ h s, init_heap 6 = Some h ∧ timer_run tmo0 three_requests (timers_init h) = Some s ∧
  queue_of (th s) RT_T1_TO_1 = [(Link 0, 10500000); (Link 2, 10600000); (Link 4, 10600000)].
Proof.
  destruct (timers_refine_queues tmo0 6 three_requests three_requests_ok) as (h & s & Hh & Hs & _ & Hq). exists h, s. split; [exact Hh|]. split; [exact Hs|].
  destruct (Hq RT_T1_TO_1) as [-> _]. vm_compute. reflexivity.
Defined.

Definition heap0 : theap := default ∅ (init_heap 6).
Definition waiting0 : tm_timers := default (timers_init ∅) (timer_run tmo0 three_requests (timers_init heap0)).
Lemma utimer_routine_retransmits_witness : ∃ s', utimer_routine tmo0 (Clock 10 10600000) waiting0 = Some s' ∧ cur s' = None ∧ fired s' = [Link 0; Link 4] ∧
  (Link 4, 11600000) ∈ queue_of (th s') RT_T1_TO_2.
Proof.
  destruct (utimer_routine_retransmits tmo0 6 three_requests (Clock 10 10600000) heap0 waiting0) as (s' & H1 & H2 & H3 & _ & H5).
  - split; [apply clock_ok0; cbn; lia|]. split; [cbn; lia|]. intros l Hl. destruct l; try done; vm_compute; done.
  - exact three_requests_ok.
  - vm_compute. reflexivity.
  - vm_compute. reflexivity.
  - vm_compute. reflexivity.
  - exists s'. split; [exact H1|]. split; [exact H2|]. split; [rewrite H3; vm_compute; reflexivity|].
    apply (H5 RT_T1_TO_1 (Link 4) eq_refl); [apply (bool_decide_unpack _); vm_compute; exact I|vm_compute; reflexivity].
Defined.
