(* ===== verification/UlContact.v ===== *)
(** * UlContact: the contacts of user location (modules/usrloc)

    A registration binds an address of record to contacts.  This file has the contact
    ([ucontact.h]), its creation and update from a REGISTER ([ucontact.c]), the states that
    tell whether the database has it, the doubly linked list of the contacts of a record and
    the store of keys attached to contacts ([kv_store.c], over the finite map that the AVL
    map implements).

    A contact has an address; the heap maps addresses to nodes, a node being the two links
    and the other members.  0 is [NULL]; an access to an address without a node is [None].
    A [str] that may be null is an [option].  The results of allocations are arguments,
    [ok i] for the [i]-th allocation of a function. *)

From stdpp Require Import prelude list strings gmap.
From Stdlib Require Import ZArith Lia.
From S2P Require Import Prelude CString UriParser UriOps.

(** ** Configuration *)

Inductive ul_cluster_mode :=
  | CM_NONE | CM_FEDERATION | CM_FEDERATION_CACHEDB | CM_FULL_SHARING
  | CM_FULL_SHARING_CACHEDB | CM_SQL_ONLY.
Inductive ul_rr_persist := RRP_NONE | RRP_LOAD_FROM_SQL | RRP_SYNC_FROM_CLUSTER.
Inductive ul_sql_write_mode := SQL_NO_WRITE | SQL_WRITE_THROUGH | SQL_WRITE_BACK.
#[export] Instance ul_cluster_mode_dec : EqDecision ul_cluster_mode.
Proof. solve_decision. Defined.
#[export] Instance ul_rr_persist_dec : EqDecision ul_rr_persist.
Proof. solve_decision. Defined.
#[export] Instance ul_sql_write_mode_dec : EqDecision ul_sql_write_mode.
Proof. solve_decision. Defined.

Inductive ul_cb_type :=
  | UL_CONTACT_INSERT | UL_CONTACT_UPDATE | UL_CONTACT_DELETE | UL_CONTACT_EXPIRE
  | UL_AOR_INSERT | UL_AOR_UPDATE | UL_AOR_DELETE | UL_AOR_EXPIRE.

(** The parameters of the module; [exists_ulcb_type] tells which callbacks are registered. *)
Record ul_cfg := UlCfg {
  cluster_mode : ul_cluster_mode; rr_persist : ul_rr_persist; sql_wmode : ul_sql_write_mode;
  desc_time_order : bool; matching_mode : Z; cseq_delay : Z; max_contact_delete : nat;
  use_domain : bool; exists_ulcb_type : ul_cb_type → bool;
}.

Definition have_mem_storage (cfg : ul_cfg) : bool :=
  match cluster_mode cfg with
  | CM_NONE | CM_FEDERATION_CACHEDB | CM_FULL_SHARING => true
  | _ => false
  end.
Definition have_data_replication (cfg : ul_cfg) : bool :=
  match cluster_mode cfg with CM_FEDERATION_CACHEDB | CM_FULL_SHARING => true | _ => false end.
Definition have_sql_con (cfg : ul_cfg) : bool :=
  bool_decide (cluster_mode cfg = CM_SQL_ONLY) || bool_decide (rr_persist cfg = RRP_LOAD_FROM_SQL).

(** ** Contact identifiers ([dlist.h]) *)

Definition CLABEL_MASK : Z := Z.shiftl 1 14 - 1.
Definition CLABEL_NEXT (clabel : Z) : Z := Z.land (clabel + 1) CLABEL_MASK.
Definition CID_GET_CLABEL (cid : Z) : Z := Z.land cid CLABEL_MASK.

Definition pack_indexes (aorhash rlabel clabel : Z) : Z :=
  u64 (Z.land clabel CLABEL_MASK + u64 (Z.shiftl rlabel 14) + u64 (Z.shiftl aorhash 46)).

(** The hash of the record, its label and the label of the contact. *)
Definition unpack_indexes (v : Z) : Z * Z * Z :=
  (u16 (Z.shiftr v 46), Z.land (Z.shiftr v 14) 0xFFFFFFFF, Z.land v CLABEL_MASK).

(** ** Stores of keys *)

(** [int_str_t]; a text is null when its allocation failed. *)
Inductive int_str := IntVal (i : Z) | StrVal (s : option bytes).

(** The map of a store; a value is null when its allocation failed. *)
Abbreviation kv_map := (gmap bytes (option int_str)).

Definition kv_get (store : kv_map) (key : bytes) : option int_str :=
  match store !! key with Some v => v | None => None end.

(** [kv_put]: the store and whether the value was put.  [ok 0] is the allocation of an entry
    of the map, [ok 1] of the value, [ok 2] of its text. *)
Definition kv_put (ok : nat → bool) (store : kv_map) (key : bytes) (val : int_str)
    : kv_map * bool :=
  match store !! key with
  | None =>
      if negb (ok 0%nat) then (store, false)
      else if negb (ok 1%nat) then (<[key := None]> store, false)
      else
        match val with
        | IntVal i => (<[key := Some (IntVal i)]> store, true)
        | StrVal s =>
            if ok 2%nat then (<[key := Some (StrVal (Some (default [] s)))]> store, true)
            else (<[key := Some (StrVal None)]> store, false)
        end
  | Some cur =>
      if match cur with None => negb (ok 1%nat) | Some _ => false end then (store, false)
      else
        match val with
        | IntVal i => (<[key := Some (IntVal i)]> store, true)
        | StrVal s =>
            if ok 2%nat then (<[key := Some (StrVal (Some (default [] s)))]> store, true)
            else
              (<[key := Some match cur with
                             | Some (StrVal t) => StrVal t
                             | _ => StrVal None
                             end]> store, false)
        end
  end.

Definition kv_del (store : kv_map) (key : bytes) : kv_map := delete key store.

Definition urec_store_key : bytes := bs "_urec_kvs".
Definition ul_shtag_key : bytes := bs "_st".

(** ** Contacts *)

Inductive cstate_t := CS_NEW | CS_SYNC | CS_DIRTY.
#[export] Instance cstate_dec : EqDecision cstate_t.
Proof. solve_decision. Defined.

Definition FL_MEM : Z := 1.
Definition UL_EXPIRED_TIME : Z := 10.

(** The members of [struct socket_info] that are stored, and [struct proxy_l]; the name of
    the next hop is a copy here, in the code it points into the text of the contact. *)
Record sock_names := SockNames { adv_sock_str : bytes; sock_str : bytes }.
Record next_hop_t := NextHop { nh_port : Z; nh_proto : Z; nh_name : bytes }.

(** [ucontact_t], but its links. *)
Record ucontact := UContact {
  contact_id : Z; c_domain : bytes; c_aor : bytes; c_c : bytes; c_received : option bytes;
  c_path : option bytes; c_expires : Z; c_expires_in : Z; c_expires_out : Z; c_q : Z;
  c_instance : option bytes; c_callid : bytes; c_cseq : Z; c_state : cstate_t; c_flags : Z;
  c_cflags : Z; c_user_agent : bytes; c_sock : option sock_names; c_last_modified : Z;
  c_methods : Z; c_attr : option bytes; c_next_hop : next_hop_t; c_label : Z;
  c_sipping_latency : Z; c_shtag : option bytes; c_cdb_key : option bytes;
  c_kv_storage : option kv_map; c_refresh_time : Z;
}.

(** [ucontact_info_t]; [ci_pre_replicate] is what the callback does to the keys of the
    contact. *)
Record ucontact_info := UCInfo {
  ci_contact_id : Z; ci_c : option bytes; ci_received : option bytes; ci_path : option bytes;
  ci_expires : Z; ci_expires_out : Z; ci_q : Z; ci_instance : option bytes; ci_callid : bytes;
  ci_cseq : Z; ci_flags : Z; ci_cflags : Z; ci_user_agent : bytes; ci_sock : option sock_names;
  ci_methods : Z; ci_last_modified : Z; ci_packed_kv_storage : option bytes;
  ci_attr : option bytes; ci_shtag : option bytes; ci_cdb_key : option bytes;
  ci_refresh_time : Z; ci_pre_replicate : option (kv_map → kv_map);
}.

Definition has_flag (f mask : Z) : bool := negb (Z.land f mask =? 0).
Definition mem_only (c : ucontact) : bool := has_flag (c_flags c) FL_MEM.

(** [VALID_CONTACT], [FORCE_EXPIRED_CONTACT] *)
Definition VALID_CONTACT (c : ucontact) (t : Z) : bool := (t <? c_expires c) || (c_expires c =? 0).
Definition FORCE_EXPIRED_CONTACT (c : ucontact) : bool := c_expires c =? UL_EXPIRED_TIME.

Definition set_state (s : cstate_t) (c : ucontact) : ucontact :=
  UContact (contact_id c) (c_domain c) (c_aor c) (c_c c) (c_received c) (c_path c) (c_expires c)
    (c_expires_in c) (c_expires_out c) (c_q c) (c_instance c) (c_callid c) (c_cseq c) s (c_flags c)
    (c_cflags c) (c_user_agent c) (c_sock c) (c_last_modified c) (c_methods c) (c_attr c)
    (c_next_hop c) (c_label c) (c_sipping_latency c) (c_shtag c) (c_cdb_key c) (c_kv_storage c)
    (c_refresh_time c).
Definition set_expires (e : Z) (c : ucontact) : ucontact :=
  UContact (contact_id c) (c_domain c) (c_aor c) (c_c c) (c_received c) (c_path c) e
    (c_expires_in c) (c_expires_out c) (c_q c) (c_instance c) (c_callid c) (c_cseq c) (c_state c)
    (c_flags c) (c_cflags c) (c_user_agent c) (c_sock c) (c_last_modified c) (c_methods c)
    (c_attr c) (c_next_hop c) (c_label c) (c_sipping_latency c) (c_shtag c) (c_cdb_key c)
    (c_kv_storage c) (c_refresh_time c).
Definition set_kv (kv : option kv_map) (c : ucontact) : ucontact :=
  UContact (contact_id c) (c_domain c) (c_aor c) (c_c c) (c_received c) (c_path c) (c_expires c)
    (c_expires_in c) (c_expires_out c) (c_q c) (c_instance c) (c_callid c) (c_cseq c) (c_state c)
    (c_flags c) (c_cflags c) (c_user_agent c) (c_sock c) (c_last_modified c) (c_methods c)
    (c_attr c) (c_next_hop c) (c_label c) (c_sipping_latency c) (c_shtag c) (c_cdb_key c) kv
    (c_refresh_time c).

Definition set_shtag (s : option bytes) (c : ucontact) : ucontact :=
  UContact (contact_id c) (c_domain c) (c_aor c) (c_c c) (c_received c) (c_path c) (c_expires c)
    (c_expires_in c) (c_expires_out c) (c_q c) (c_instance c) (c_callid c) (c_cseq c) (c_state c)
    (c_flags c) (c_cflags c) (c_user_agent c) (c_sock c) (c_last_modified c) (c_methods c)
    (c_attr c) (c_next_hop c) (c_label c) (c_sipping_latency c) s (c_cdb_key c) (c_kv_storage c)
    (c_refresh_time c).
Definition set_next_hop (nh : next_hop_t) (c : ucontact) : ucontact :=
  UContact (contact_id c) (c_domain c) (c_aor c) (c_c c) (c_received c) (c_path c) (c_expires c)
    (c_expires_in c) (c_expires_out c) (c_q c) (c_instance c) (c_callid c) (c_cseq c) (c_state c)
    (c_flags c) (c_cflags c) (c_user_agent c) (c_sock c) (c_last_modified c) (c_methods c)
    (c_attr c) nh (c_label c) (c_sipping_latency c) (c_shtag c) (c_cdb_key c) (c_kv_storage c)
    (c_refresh_time c).
Definition set_sipping_latency (x : Z) (c : ucontact) : ucontact :=
  UContact (contact_id c) (c_domain c) (c_aor c) (c_c c) (c_received c) (c_path c) (c_expires c)
    (c_expires_in c) (c_expires_out c) (c_q c) (c_instance c) (c_callid c) (c_cseq c) (c_state c)
    (c_flags c) (c_cflags c) (c_user_agent c) (c_sock c) (c_last_modified c) (c_methods c)
    (c_attr c) (c_next_hop c) (c_label c) x (c_shtag c) (c_cdb_key c) (c_kv_storage c)
    (c_refresh_time c).
(** The texts an update replaces. *)
Definition set_texts (callid ua ct : bytes) (received path attr : option bytes) (c : ucontact)
    : ucontact :=
  UContact (contact_id c) (c_domain c) (c_aor c) ct received path (c_expires c)
    (c_expires_in c) (c_expires_out c) (c_q c) (c_instance c) callid (c_cseq c) (c_state c)
    (c_flags c) (c_cflags c) ua (c_sock c) (c_last_modified c) (c_methods c)
    attr (c_next_hop c) (c_label c) (c_sipping_latency c) (c_shtag c) (c_cdb_key c)
    (c_kv_storage c) (c_refresh_time c).
(** The members an update copies. *)
Definition set_info (ci : ucontact_info) (act_time : Z) (c : ucontact) : ucontact :=
  UContact (contact_id c) (c_domain c) (c_aor c) (c_c c) (c_received c) (c_path c) (ci_expires ci)
    (ci_expires ci - act_time) (ci_expires_out ci) (ci_q ci) (c_instance c) (c_callid c)
    (ci_cseq ci) (c_state c) (ci_flags ci) (ci_cflags ci) (c_user_agent c) (ci_sock ci)
    (ci_last_modified ci) (ci_methods ci) (c_attr c) (c_next_hop c) (c_label c)
    (c_sipping_latency c) (c_shtag c) (c_cdb_key c) (c_kv_storage c) (ci_refresh_time ci).

(** ** The states of a contact *)

Definition st_update_ucontact (cfg : ul_cfg) (c : ucontact) : ucontact :=
  match c_state c with
  | CS_SYNC =>
      if negb (bool_decide (cluster_mode cfg = CM_NONE))
         || bool_decide (rr_persist cfg = RRP_LOAD_FROM_SQL)
      then set_state CS_DIRTY c else c
  | _ => c
  end.

(** [st_delete_ucontact]: [true] when the contact is removed from the memory at once. *)
Definition st_delete_ucontact (cfg : ul_cfg) (c : ucontact) : ucontact * bool :=
  match c_state c with
  | CS_NEW => (c, true)
  | _ =>
      if negb (bool_decide (sql_wmode cfg = SQL_WRITE_THROUGH))
      then (set_expires UL_EXPIRED_TIME c, false) else (c, true)
  end.

(** [st_expired_ucontact]: [true] when the database has the contact. *)
Definition st_expired_ucontact (c : ucontact) : bool :=
  match c_state c with CS_NEW => false | _ => true end.

(** [st_flush_ucontact]: 1 to insert, 2 to update, 0 for nothing. *)
Definition st_flush_ucontact (c : ucontact) : ucontact * Z :=
  match c_state c with
  | CS_NEW => (set_state CS_SYNC c, 1)
  | CS_SYNC => (c, 0)
  | CS_DIRTY => (set_state CS_SYNC c, 2)
  end.

(** ** What the contacts use of other parts *)

(** [get_path_dst_uri] of a Path, [bitmask_to_flag_list] of the branch flags, the JSON
    text of a store ([store_serialize], [store_deserialize] on allocated memory) and the key
    of a contact in a cache database. *)
Class ul_text := {
  get_path_dst_uri : bytes → option bytes;
  bitmask_to_flag_list : Z → bytes;
  store_serialize : kv_map → option bytes;
  store_deserialize : bytes → kv_map;
  cdb_build_ucontact_key : bytes → ucontact_info → option bytes;
}.

Section contacts.
Context {TX : ul_text}.

(** A non-empty text of a [str] that may be null. *)
Definition nonempty (s : option bytes) : option bytes :=
  match s with Some (b :: t) => Some (b :: t) | _ => None end.

(** The text of a URI in memory of its own. *)
Definition uri_buffer (t : bytes) : buffer := Buffer 1 t.

(** ** Creation and update *)

(** [compute_next_hop]: the next hop, or [None] on failure. *)
Definition compute_next_hop (path received : option bytes) (c : bytes) : option next_hop_t :=
  let hop uri :=
    match parse_uri 1 uri with
    | Ok u => Some (NextHop (port_no u) (proto u) (rd (uri_buffer uri) (host u)))
    | Err _ => None
    end in
  match nonempty path with
  | Some p => uri ← get_path_dst_uri p; hop uri
  | None =>
      match nonempty received with
      | Some r => hop r
      | None => hop c
      end
  end.

(** The tag of the contact, and its store with the tag: [shtag] given, or read in the store.
    The outer [None] is the access to a null store, the inner one a failed allocation.  [ok 0]
    is the copy of the text, [ok 1] to [ok 3] are for [kv_put]. *)
Definition new_shtag (cfg : ul_cfg) (ok : nat → bool) (shtag : option bytes)
    (kv : option kv_map) : option (option (option bytes * option kv_map)) :=
  match shtag with
  | Some t =>
      if negb (ok 0%nat) then Some None
      else
        m ← kv;
        let '(m, put) := kv_put (λ i, ok (S i)) m ul_shtag_key (StrVal (Some t)) in
        Some (if put then Some (Some t, Some m) else None)
  | None =>
      if have_mem_storage cfg then
        m ← kv;
        match kv_get m ul_shtag_key with
        | Some v =>
            if ok 0%nat
            then Some (Some (match v with StrVal s => s | IntVal _ => None end, kv))
            else Some None
        | None => Some (Some (None, kv))
        end
      else Some (Some (None, kv))
  end.

(** [new_ucontact]: the inner [None] is a null result, with everything freed.  The
    allocations are the structure, its store, and the copies of the texts in the order of
    the code (only the ones that are given). *)
Definition new_ucontact (cfg : ul_cfg) (ok : nat → bool) (dom aor contact : bytes)
    (ci : ucontact_info) (act_time : Z) : option (option ucontact) :=
  let copied i (s : option bytes) := match s with Some _ => ok i | None => true end in
  let kv :=
    if have_mem_storage cfg
    then Some match nonempty (ci_packed_kv_storage ci) with
              | Some p => store_deserialize p
              | None => ∅
              end
    else None in
  if negb (ok 0%nat) || (have_mem_storage cfg && negb (ok 1%nat)) then Some None
  else
    match parse_uri 1 contact with
    | Err _ => Some None
    | Ok _ =>
        let received := nonempty (ci_received ci) in
        let instance := nonempty (ci_instance ci) in
        let path := nonempty (ci_path ci) in
        let attr := nonempty (ci_attr ci) in
        let cdb_key := nonempty (ci_cdb_key ci) in
        if negb (ok 2%nat && ok 3%nat && ok 4%nat && copied 5%nat received
                 && copied 6%nat instance && copied 7%nat path && copied 8%nat attr
                 && copied 9%nat cdb_key)
        then Some None
        else
          r ← new_shtag cfg (λ i, ok (10 + i)%nat) (ci_shtag ci) kv;
          match r with
          | None => Some None
          | Some (shtag, kv) =>
              match compute_next_hop path received contact with
              | None => Some None
              | Some nh =>
                  Some (Some (UContact (ci_contact_id ci) dom aor contact received path
                    (ci_expires ci) (ci_expires ci - act_time) (ci_expires_out ci) (ci_q ci)
                    instance (ci_callid ci) (ci_cseq ci) CS_NEW (ci_flags ci) (ci_cflags ci)
                    (ci_user_agent ci) (ci_sock ci) (ci_last_modified ci) (ci_methods ci) attr nh
                    (CID_GET_CLABEL (ci_contact_id ci)) 0 shtag cdb_key kv (ci_refresh_time ci)))
              end
          end
    end.

(** The macro [update_str]: the new text, or [None] when it does not fit and the allocation
    fails.  An empty text is not written over a null one. *)
Definition update_str (ok : bool) (old : option bytes) (new : bytes) : option (option bytes) :=
  if (length (default [] old) <? length new)%nat
  then if ok then Some (Some new) else None
  else Some (match old with Some _ => Some new | None => None end).

(** The texts of [mem_update_ucontact], in order; a failure leaves the ones before it
    updated.  The result tells whether all were. *)
Definition update_texts (ok : nat → bool) (c : ucontact) (ci : ucontact_info)
    : ucontact * bool :=
  match update_str (ok 0%nat) (Some (c_callid c)) (ci_callid ci) with
  | None => (c, false)
  | Some callid =>
    let callid := default [] callid in
    let c1 := set_texts callid (c_user_agent c) (c_c c) (c_received c) (c_path c) (c_attr c) c in
    match update_str (ok 1%nat) (Some (c_user_agent c)) (ci_user_agent ci) with
    | None => (c1, false)
    | Some ua =>
      let ua := default [] ua in
      let c2 := set_texts callid ua (c_c c) (c_received c) (c_path c) (c_attr c) c in
      match (match ci_c ci with
             | Some t => update_str (ok 2%nat) (Some (c_c c)) t
             | None => Some (Some (c_c c))
             end) with
      | None => (c2, false)
      | Some ct =>
        let ct := default [] ct in
        let c3 := set_texts callid ua ct (c_received c) (c_path c) (c_attr c) c in
        match (match nonempty (ci_received ci) with
               | Some t => update_str (ok 3%nat) (c_received c) t
               | None => Some None
               end) with
        | None => (c3, false)
        | Some received =>
          let c4 := set_texts callid ua ct received (c_path c) (c_attr c) c in
          match (match ci_path ci with
                 | Some t => update_str (ok 4%nat) (c_path c) t
                 | None => Some None
                 end) with
          | None => (c4, false)
          | Some path =>
            let c5 := set_texts callid ua ct received path (c_attr c) c in
            match (match nonempty (ci_attr ci) with
                   | Some t => update_str (ok 5%nat) (c_attr c) t
                   | None => Some None
                   end) with
            | None => (c5, false)
            | Some attr => (set_texts callid ua ct received path attr c, true)
            end
          end
        end
      end
    end
  end.

(** The tag of an updated contact: given by the request, or read in the store. *)
Definition update_shtag (cfg : ul_cfg) (ok : nat → bool) (shtag : option bytes) (c : ucontact)
    : option (ucontact * bool) :=
  match shtag with
  | Some t =>
      match update_str (ok 0%nat) (c_shtag c) t with
      | None => Some (c, false)
      | Some t' =>
          m ← c_kv_storage c;
          let '(m, put) := kv_put (λ i, ok (S i)) m ul_shtag_key (StrVal (Some t)) in
          Some (set_kv (Some m) (set_shtag t' c), put)
      end
  | None =>
      if have_mem_storage cfg then
        m ← c_kv_storage c;
        match kv_get m ul_shtag_key with
        | Some v =>
            match update_str (ok 0%nat) (c_shtag c)
                    (match v with StrVal s => default [] s | IntVal _ => [] end) with
            | None => Some (c, false)
            | Some t' => Some (set_shtag t' c, true)
            end
        | None => Some (set_kv (Some (kv_del m ul_shtag_key)) (set_shtag None c), true)
        end
      else Some (c, true)
  end.

(** [mem_update_ucontact] without the refresh timer: the contact and whether the update
    succeeded; [None] is the access to a null store.  [ok 6] is the creation of the map. *)
Definition mem_update_ucontact (cfg : ul_cfg) (ok : nat → bool) (c : ucontact)
    (ci : ucontact_info) (act_time : Z) : option (ucontact * bool) :=
  let '(c, texts_ok) := update_texts ok c ci in
  if negb texts_ok then Some (c, false)
  else
    let c := set_info ci act_time c in
    let '(c, kv_ok) :=
      match nonempty (ci_packed_kv_storage ci) with
      | Some p =>
          if have_mem_storage cfg then
            if ok 6%nat then (set_kv (Some (store_deserialize p)) c, true)
            else (set_kv None c, false)
          else (c, true)
      | None => (c, true)
      end in
    if negb kv_ok then Some (c, false)
    else
      '(c, tag_ok) ← update_shtag cfg (λ i, ok (7 + i)%nat) (ci_shtag ci) c;
      if negb tag_ok then Some (c, false)
      else
        Some (match compute_next_hop (c_path c) (c_received c) (c_c c) with
              | Some nh => set_next_hop nh c
              | None => c
              end, true).
End contacts.

(** ** The list of the contacts of a record *)

Record ct_node := CtNode { n_next : Z; n_prev : Z; n_ct : ucontact }.
Abbreviation ct_heap := (gmap Z ct_node).

Definition set_next (h : ct_heap) (a x : Z) : option ct_heap :=
  n ← h !! a; Some (<[a := CtNode x (n_prev n) (n_ct n)]> h).
Definition set_prev (h : ct_heap) (a x : Z) : option ct_heap :=
  n ← h !! a; Some (<[a := CtNode (n_next n) x (n_ct n)]> h).
Definition set_ct (h : ct_heap) (a : Z) (c : ucontact) : option ct_heap :=
  n ← h !! a; Some (<[a := CtNode (n_next n) (n_prev n) c]> h).

(** [unlink_contact], also the first part of [mem_remove_ucontact]: the heap and the head
    [_r->contacts]. *)
Definition unlink_contact (h : ct_heap) (head a : Z) : option (ct_heap * Z) :=
  n ← h !! a;
  if negb (n_prev n =? 0) then
    h ← set_next h (n_prev n) (n_next n);
    if negb (n_next n =? 0) then h ← set_prev h (n_next n) (n_prev n); Some (h, head)
    else Some (h, head)
  else if negb (n_next n =? 0) then h ← set_prev h (n_next n) 0; Some (h, n_next n)
  else Some (h, n_next n).

(** The insertion of [mem_insert_ucontact] and [update_contact_pos]: the contact [a], whose
    links are null, is put before [ptr], or after [prev] when [ptr] is null, or alone. *)
Definition link_contact (h : ct_heap) (head ptr prev a : Z) : option (ct_heap * Z) :=
  if negb (ptr =? 0) then
    p ← h !! ptr;
    if n_prev p =? 0 then
      h ← set_prev h ptr a;
      h ← set_next h a ptr;
      Some (h, a)
    else
      h ← set_next h a ptr;
      h ← set_prev h a (n_prev p);
      h ← set_next h (n_prev p) a;
      h ← set_prev h ptr a;
      Some (h, head)
  else if negb (prev =? 0) then
    h ← set_next h prev a;
    h ← set_prev h a prev;
    Some (h, head)
  else Some (h, a).

(** The loops that look for the place: [ptr] and [prev] when the loop ends, at the first
    contact for which [stop] holds or at the end of the list. *)
Fixpoint find_place (fuel : nat) (h : ct_heap) (stop : Z → bool) (ptr prev : Z)
    : option (Z * Z) :=
  match fuel with
  | O => None
  | S k =>
      if ptr =? 0 then Some (ptr, prev)
      else
        n ← h !! ptr;
        if stop (c_q (n_ct n)) then Some (ptr, prev)
        else find_place k h stop (n_next n) ptr
  end.

(** The list part of [mem_insert_ucontact]: [while (ptr) { if (ptr->q < c->q) break; ... }],
    or the head of the list when contacts are ordered by time. *)
Definition insert_contact (cfg : ul_cfg) (h : ct_heap) (head a : Z) : option (ct_heap * Z) :=
  n ← h !! a;
  '(ptr, prev) ←
    (if negb (desc_time_order cfg)
     then find_place (S (size h)) h (λ q, q <? c_q (n_ct n)) head 0
     else Some (head, 0));
  link_contact h head ptr prev a.

(** [update_contact_pos] *)
Definition update_contact_pos (cfg : ul_cfg) (h : ct_heap) (head a : Z)
    : option (ct_heap * Z) :=
  n ← h !! a;
  if desc_time_order cfg then
    if n_prev n =? 0 then Some (h, head)
    else
      '(h, head) ← unlink_contact h head a;
      h ← set_next h a head;
      h ← set_prev h a 0;
      h ← set_prev h head a;
      Some (h, a)
  else
    before ← (if n_prev n =? 0 then Some true
              else p ← h !! n_prev n; Some (c_q (n_ct n) <=? c_q (n_ct p)));
    stay ← (if (before : bool) then
              if n_next n =? 0 then Some true
              else x ← h !! n_next n; Some (c_q (n_ct x) <=? c_q (n_ct n))
            else Some false);
    if (stay : bool) then Some (h, head)
    else
      '(h, head) ← unlink_contact h head a;
      h ← set_next h a 0;
      h ← set_prev h a 0;
      '(ptr, prev) ← find_place (S (size h)) h (λ q, c_q (n_ct n) <=? q) head 0;
      link_contact h head ptr prev a.
