(* ===== verification/UlRecord.v ===== *)
(** * UlRecord: the records of user location and their timer (modules/usrloc)

    The operations on the contacts of a record ([urecord.c], [ucontact.c]): insertion,
    update and deletion by a REGISTER, matching, the identifiers, the timer that removes
    expired contacts and writes the others to the database, and the list of pending refresh
    events ([ul_timer.c]).

    A record [r] is updated together with the world [w] it shares with the other records:
    the heap of contacts, the pending refreshes, the database, the identifiers to delete,
    the statistics and the trace of callbacks, events and replicated changes.  The SQL
    driver is the class [sql_api]; an operation that the code runs under the lock of the
    slot is one step. *)

From stdpp Require Import prelude list strings gmap.
From Stdlib Require Import ZArith Lia.
From S2P Require Import Prelude CString UriParser UriOps HashFunc UlContact.

(** ** The database *)

(** The columns of a contact but its identifier, as [db_insert_ucontact] fills them; [col_q]
    is the q value that [q2double] converts. *)
Record ul_row := UlRow {
  col_user : bytes; col_domain : option bytes; col_contact : bytes; col_instance : option bytes;
  col_expires : Z; col_q : Z; col_cseq : Z; col_flags : Z; col_cflags : bytes;
  col_user_agent : bytes; col_received : option bytes; col_path : option bytes;
  col_sock : option bytes; col_methods : option Z; col_last_mod : Z;
  col_kv_store : option bytes; col_attr : option bytes; col_callid : bytes;
}.

(** The functions of the SQL driver that the module calls; each returns whether it
    succeeded.  [sql_insert] is told whether an insert list is given, and gets no identifier
    when the database chooses it.  Rows are not collected in the insert list
    ([query_buffer_size] is at most 1, as by default): [con_set_inslist] and [ql_flush_rows]
    do nothing. *)
Class sql_api := {
  sql : Type;
  sql_use_table : sql → bytes → sql * bool;
  sql_insert : sql → bool → option Z → ul_row → sql * bool;
  sql_insert_update : sql → option Z → ul_row → sql * bool;
  sql_update : sql → Z → ul_row → sql * bool;
  sql_delete : sql → list Z → sql * bool;
}.

(** The columns that [db_update_ucontact] writes, over an old row. *)
Definition update_columns (new old : ul_row) : ul_row :=
  UlRow (col_user old) (col_domain old) (col_contact old) (col_instance old)
    (col_expires new) (col_q new) (col_cseq new) (col_flags new) (col_cflags new)
    (col_user_agent new) (col_received new) (col_path new) (col_sock new) (col_methods new)
    (col_last_mod new) (col_kv_store new) (col_attr new) (col_callid new).

(** What is notified: callbacks, events and changes sent to the cluster, with the address of
    the contact. *)
Inductive ul_event :=
  | Callback (t : ul_cb_type) (a : Z)
  | Event_insert (a : Z) | Event_update (a : Z) | Event_delete (a : Z) | Event_latency (a : Z)
  | Event_aor_insert | Event_aor_delete
  | Replicate_insert (a : Z) | Replicate_update (a : Z) | Replicate_delete (a : Z).

(** [struct ct_match]; the mode is a number, -1 for the one of the module. *)
Definition CT_MATCH_NONE : Z := -1.
Definition CT_MATCH_CONTACT_ONLY : Z := 0.
Definition CT_MATCH_CONTACT_CALLID : Z := 1.
Definition CT_MATCH_PARAMS : Z := 2.
Record ct_match := CtMatch { ct_mode : Z; match_params : list bytes }.

Section records.
Context {TX : ul_text} {DB : sql_api}.
Variable cfg : ul_cfg.

Record ul_world := UlWorld {
  w_heap : ct_heap; pending_refreshes : list Z; ul_dbh : sql; cid_vals : list Z;
  stat_contacts : Z; stat_expires : Z; ul_trace : list ul_event;
}.

(** [urecord_t]; [r_slot] tells whether the record is in the table of the domain. *)
Record urecord := URecord {
  r_domain : bytes; r_aor : bytes; r_aorhash : Z; r_label : Z; r_next_clabel : Z;
  r_contacts : Z; r_slot : bool; r_no_clear_ref : Z; r_kv_storage : option kv_map;
}.

Definition wr_heap (w : ul_world) (h : ct_heap) : ul_world :=
  UlWorld h (pending_refreshes w) (ul_dbh w) (cid_vals w) (stat_contacts w) (stat_expires w)
    (ul_trace w).
Definition wr_refreshes (w : ul_world) (l : list Z) : ul_world :=
  UlWorld (w_heap w) l (ul_dbh w) (cid_vals w) (stat_contacts w) (stat_expires w) (ul_trace w).
Definition wr_sql (w : ul_world) (d : sql) : ul_world :=
  UlWorld (w_heap w) (pending_refreshes w) d (cid_vals w) (stat_contacts w) (stat_expires w)
    (ul_trace w).
Definition wr_cids (w : ul_world) (l : list Z) : ul_world :=
  UlWorld (w_heap w) (pending_refreshes w) (ul_dbh w) l (stat_contacts w) (stat_expires w)
    (ul_trace w).
Definition add_contacts (w : ul_world) (n : Z) : ul_world :=
  UlWorld (w_heap w) (pending_refreshes w) (ul_dbh w) (cid_vals w) (stat_contacts w + n)
    (stat_expires w) (ul_trace w).
Definition add_expires (w : ul_world) : ul_world :=
  UlWorld (w_heap w) (pending_refreshes w) (ul_dbh w) (cid_vals w) (stat_contacts w)
    (stat_expires w + 1) (ul_trace w).
Definition emit (w : ul_world) (e : ul_event) : ul_world :=
  UlWorld (w_heap w) (pending_refreshes w) (ul_dbh w) (cid_vals w) (stat_contacts w)
    (stat_expires w) (ul_trace w ++ [e]).
(** [if (exists_ulcb_type(t)) run_ul_callbacks(t, ...)] *)
Definition run_ul_callbacks (w : ul_world) (t : ul_cb_type) (a : Z) : ul_world :=
  if exists_ulcb_type cfg t then emit w (Callback t a) else w.

Definition wr_contacts (r : urecord) (head : Z) : urecord :=
  URecord (r_domain r) (r_aor r) (r_aorhash r) (r_label r) (r_next_clabel r) head (r_slot r)
    (r_no_clear_ref r) (r_kv_storage r).
Definition wr_rkv (r : urecord) (kv : option kv_map) : urecord :=
  URecord (r_domain r) (r_aor r) (r_aorhash r) (r_label r) (r_next_clabel r) (r_contacts r)
    (r_slot r) (r_no_clear_ref r) kv.
Definition wr_next_clabel (r : urecord) (l : Z) : urecord :=
  URecord (r_domain r) (r_aor r) (r_aorhash r) (r_label r) l (r_contacts r) (r_slot r)
    (r_no_clear_ref r) (r_kv_storage r).

(** ** The columns of a contact *)

(** The user and the domain of an address of record, split at the first [@]. *)
Definition split_aor (aor : bytes) : bytes * bytes :=
  match list_find (λ b, b = 64) aor with
  | Some (i, _) => (take i aor, drop (S i) aor)
  | None => ([], aor)
  end.

Definition contact_row (c : ucontact) : ul_row :=
  UlRow (if use_domain cfg then (split_aor (c_aor c)).1 else c_aor c)
    (if use_domain cfg then Some (split_aor (c_aor c)).2 else None)
    (c_c c) (c_instance c) (i32 (c_expires c)) (c_q c) (c_cseq c) (c_flags c)
    (bitmask_to_flag_list (c_cflags c)) (c_user_agent c) (c_received c) (c_path c)
    (match c_sock c with
     | Some s =>
         Some (match adv_sock_str s with [] => sock_str s | _ :: _ => adv_sock_str s end)
     | None => None
     end)
    (if c_methods c =? 0xFFFFFFFF then None else Some (c_methods c))
    (c_last_modified c)
    (match c_kv_storage c with
     | Some m => if decide (m = ∅) then None else nonempty (store_serialize m)
     | None => None
     end)
    (c_attr c) (c_callid c).

(** [db_insert_ucontact]; [buffered] when an insert list is given. *)
Definition db_insert_ucontact (d : sql) (c : ucontact) (buffered update : bool) : sql * bool :=
  if mem_only c then (d, true)
  else
    let id := if decide (cluster_mode cfg = CM_SQL_ONLY) then None else Some (contact_id c) in
    let '(d, used) := sql_use_table d (c_domain c) in
    if negb used then (d, false)
    else if negb update then sql_insert d buffered id (contact_row c)
    else sql_insert_update d id (contact_row c).

Definition db_update_ucontact (d : sql) (c : ucontact) : sql * bool :=
  if mem_only c then (d, true)
  else
    let '(d, used) := sql_use_table d (c_domain c) in
    if negb used then (d, false) else sql_update d (contact_id c) (contact_row c).

Definition db_delete_ucontact (d : sql) (c : ucontact) : sql * bool :=
  if mem_only c then (d, true)
  else
    let '(d, used) := sql_use_table d (c_domain c) in
    if negb used then (d, false) else sql_delete d [contact_id c].

Definition db_multiple_ucontact_delete (d : sql) (domain : bytes) (cids : list Z) : sql * bool :=
  let '(d, used) := sql_use_table d domain in
  if negb used then (d, false) else sql_delete d cids.

(** ** The pending refresh events ([ul_timer.c])

    [pending_refreshes] is the sequence of the contacts in the list; a contact is in it when
    [list_empty(&ct->refresh_list)] does not hold. *)

Fixpoint refresh_insert (h : ct_heap) (t a : Z) (l : list Z) : option (list Z) :=
  match l with
  | [] => Some [a]
  | x :: l' =>
      n ← h !! x;
      if t <? c_refresh_time (n_ct n) then Some (a :: x :: l')
      else l'' ← refresh_insert h t a l'; Some (x :: l'')
  end.

Definition stop_refresh_timer (w : ul_world) (a : Z) : ul_world :=
  wr_refreshes w (filter (λ x, x ≠ a) (pending_refreshes w)).

Definition start_refresh_timer (w : ul_world) (a : Z) : option ul_world :=
  if negb (have_mem_storage cfg) then Some w
  else
    n ← w_heap w !! a;
    l ← refresh_insert (w_heap w) (c_refresh_time (n_ct n)) a
          (filter (λ x, x ≠ a) (pending_refreshes w));
    Some (wr_refreshes w l).

(** [trigger_ct_refreshes]: the contacts for which an event is raised. *)
Fixpoint trigger_loop (h : ct_heap) (now : Z) (l : list Z) : option (list Z * list Z) :=
  match l with
  | [] => Some ([], [])
  | x :: l' =>
      n ← h !! x;
      if now <? c_refresh_time (n_ct n) then Some ([], x :: l')
      else '(fired, rest) ← trigger_loop h now l'; Some (x :: fired, rest)
  end.
Definition trigger_ct_refreshes (w : ul_world) (now : Z) : option (ul_world * list Z) :=
  '(fired, rest) ← trigger_loop (w_heap w) now (pending_refreshes w);
  Some (wr_refreshes w rest, fired).

(** ** Stores of the record *)

(** [restore_urecord_kv_store]: the store of the record is read in its contact [c]; [ok] is
    the creation of the map. *)
Definition restore_urecord_kv_store (ok : bool) (r : urecord) (kv : kv_map) : option urecord :=
  match kv !! urec_store_key with
  | None => Some r
  | Some None => None
  | Some (Some v) =>
      Some (wr_rkv r (if ok
                      then Some (store_deserialize
                                   (match v with StrVal s => default [] s | IntVal _ => [] end))
                      else None))
  end.

(** The first contact whose store has the key of the record. *)
Fixpoint find_store (fuel : nat) (h : ct_heap) (ptr : Z) : option (option Z) :=
  match fuel with
  | O => None
  | S k =>
      if ptr =? 0 then Some None
      else
        n ← h !! ptr;
        kv ← c_kv_storage (n_ct n);
        match kv !! urec_store_key with
        | Some _ => Some (Some ptr)
        | None => find_store k h (n_next n)
        end
  end.

(** [put_ucontact_key] *)
Definition put_ucontact_key (ok : nat → bool) (h : ct_heap) (a : Z) (key : bytes) (v : int_str)
    : option (ct_heap * bool) :=
  n ← h !! a;
  kv ← c_kv_storage (n_ct n);
  let '(kv, put) := kv_put ok kv key v in
  h ← set_ct h a (set_kv (Some kv) (n_ct n));
  Some (h, put).

(** [persist_urecord_kv_store]: the heap and whether it returned 0. *)
Definition persist_urecord_kv_store (ok : nat → bool) (h : ct_heap) (r : urecord)
    : option (ct_heap * bool) :=
  if r_contacts r =? 0 then Some (h, false)
  else
    m ← r_kv_storage r;
    if decide (m = ∅) then Some (h, true)
    else
      match nonempty (store_serialize m) with
      | None => Some (h, false)
      | Some packed =>
          found ← find_store (S (size h)) h (r_contacts r);
          put_ucontact_key ok h (default (r_contacts r) found) urec_store_key
            (StrVal (Some packed))
      end.

(** ** Contacts in memory *)

(** [mem_insert_ucontact] with [a] the address of the new contact: its result is the address
    or 0.  [ok 20] is the map of [restore_urecord_kv_store]. *)
Definition mem_insert_ucontact (ok : nat → bool) (w : ul_world) (r : urecord) (a : Z)
    (contact : bytes) (ci : ucontact_info) (act_time : Z) : option (ul_world * urecord * Z) :=
  new ← new_ucontact cfg ok (r_domain r) (r_aor r) contact ci act_time;
  match new with
  | None => Some (w, r, 0)
  | Some c =>
      let w := wr_heap w (<[a := CtNode 0 0 c]> (w_heap w)) in
      w ← (if c_refresh_time c =? 0 then Some w else start_refresh_timer w a);
      let w := if r_slot r then add_contacts w 1 else w in
      r ← (match c_kv_storage c with
           | Some kv => restore_urecord_kv_store (ok 20%nat) r kv
           | None => Some r
           end);
      '(h, head) ← insert_contact cfg (w_heap w) (r_contacts r) a;
      Some (emit (wr_heap w h) (Event_insert a), wr_contacts r head, a)
  end.

(** [mem_remove_ucontact]; the store of the record moves to the first contact. *)
Definition mem_remove_ucontact (ok : nat → bool) (w : ul_world) (r : urecord) (a : Z)
    : option (ul_world * urecord) :=
  let w := stop_refresh_timer w a in
  n ← w_heap w !! a;
  '(h, head) ← unlink_contact (w_heap w) (r_contacts r) a;
  h ← (if decide (sql_wmode cfg = SQL_NO_WRITE) then Some h
       else
         kv ← c_kv_storage (n_ct n);
         match kv !! urec_store_key with
         | Some rstore =>
             if head =? 0 then Some h
             else
               v ← rstore;
               '(h, _) ← put_ucontact_key ok h head urec_store_key v;
               Some h
         | None => Some h
         end);
  Some (emit (wr_heap w h) (Event_delete a), wr_contacts r head).

Definition mem_delete_ucontact (ok : nat → bool) (w : ul_world) (r : urecord) (a : Z)
    : option (ul_world * urecord) :=
  '(w, r) ← mem_remove_ucontact ok w r a;
  let w := if r_slot r then add_contacts w (-1) else w in
  Some (wr_heap w (delete a (w_heap w)), r).

(** ** The timers of a record

    [ok a] are the allocations made for the contact at [a]. *)

(** The callback for a contact that expired by itself. *)
Definition notify_expired (w : ul_world) (a : Z) (c : ucontact) : ul_world :=
  if FORCE_EXPIRED_CONTACT c then w else run_ul_callbacks w UL_CONTACT_EXPIRE a.

(** [nodb_timer]; [update_stat] reads the slot of the record. *)
Fixpoint nodb_timer (fuel : nat) (ok : Z → nat → bool) (act_time : Z) (w : ul_world)
    (r : urecord) (ptr : Z) : option (ul_world * urecord) :=
  match fuel with
  | O => None
  | S k =>
      if ptr =? 0 then Some (w, r)
      else
        n ← w_heap w !! ptr;
        if negb (VALID_CONTACT (n_ct n) act_time) then
          let w := notify_expired w ptr (n_ct n) in
          '(w, r) ← mem_delete_ucontact (ok ptr) w r ptr;
          if r_slot r then nodb_timer k ok act_time (add_expires w) r (n_next n) else None
        else nodb_timer k ok act_time w r (n_next n)
  end.

(** The expired contact of [wb_timer] is put among the identifiers to delete, and they are
    deleted when there are enough; [false] when this fails and the contact is kept. *)
Definition batch_delete (w : ul_world) (domain : bytes) (c : ucontact) : ul_world * bool :=
  if have_sql_con cfg && st_expired_ucontact c && negb (mem_only c) then
    let cids := cid_vals w ++ [contact_id c] in
    if decide (length cids = max_contact_delete cfg) then
      let '(d, deleted) := db_multiple_ucontact_delete (ul_dbh w) domain cids in
      (wr_cids (wr_sql w d) [], deleted)
    else (wr_cids w cids, true)
  else (w, true).

(** A valid contact of [wb_timer] is written to the database: the contact, and whether an
    insertion was tried. *)
Definition flush_contact (d : sql) (buffered : bool) (c : ucontact) : sql * ucontact * bool :=
  let old_state := c_state c in
  let '(c', op) := st_flush_ucontact c in
  if op =? 1 then
    let '(d, done) := db_insert_ucontact d c' buffered false in
    (d, if done then c' else set_state old_state c', true)
  else if op =? 2 then
    let '(d, done) := db_update_ucontact d c' in
    (d, if done then c' else set_state old_state c', false)
  else (d, c', false).

(** The loop of [wb_timer]. *)
Fixpoint wb_loop (fuel : nat) (ok : Z → nat → bool) (buffered : bool) (act_time : Z)
    (w : ul_world) (r : urecord) (ptr : Z) (ins_done : bool)
    : option (ul_world * urecord * bool) :=
  match fuel with
  | O => None
  | S k =>
      if ptr =? 0 then Some (w, r, ins_done)
      else
        n ← w_heap w !! ptr;
        if negb (VALID_CONTACT (n_ct n) act_time) then
          let w := notify_expired w ptr (n_ct n) in
          w ← (if have_mem_storage cfg
               then if r_slot r then Some (add_expires w) else None
               else Some w);
          let '(w, deleted) := batch_delete w (r_domain r) (n_ct n) in
          if negb deleted then wb_loop k ok buffered act_time w r (n_next n) ins_done
          else
            '(w, r) ← mem_delete_ucontact (ok ptr) w r ptr;
            wb_loop k ok buffered act_time w r (n_next n) ins_done
        else
          let '(d, c, ins) := flush_contact (ul_dbh w) buffered (n_ct n) in
          h ← set_ct (w_heap w) ptr c;
          wb_loop k ok buffered act_time (wr_sql (wr_heap w h) d) r (n_next n) (ins_done || ins)
  end.

(** [wb_timer]: whether an insertion was tried; [ok 0] is for the store of the record. *)
Definition wb_timer (ok : Z → nat → bool) (buffered : bool) (act_time : Z) (w : ul_world)
    (r : urecord) : option (ul_world * urecord * bool) :=
  h ← (if decide (rr_persist cfg = RRP_LOAD_FROM_SQL)
       then '(h, _) ← persist_urecord_kv_store (ok 0) (w_heap w) r; Some h
       else Some (w_heap w));
  wb_loop (S (size h)) ok buffered act_time (wr_heap w h) r (r_contacts r) false.

(** Deleting the identifiers left, at the end of [db_only_timer] and of a pass over the
    domain ([mem_timer_udomain]); the buffer is not emptied here. *)
Definition flush_cids (w : ul_world) (domain : bytes) : ul_world * bool :=
  match cid_vals w with
  | [] => (w, true)
  | cids =>
      let '(d, deleted) := db_multiple_ucontact_delete (ul_dbh w) domain cids in
      (wr_sql w d, deleted)
  end.

(** [db_only_timer]: 0 or -1. *)
Definition db_only_timer (ok : Z → nat → bool) (act_time : Z) (w : ul_world) (r : urecord)
    : option (ul_world * urecord * Z) :=
  '(w, r, _) ← wb_timer ok false act_time w r;
  let '(w, deleted) := flush_cids w (r_domain r) in
  Some (w, r, if deleted then 0 else -1).

(** [timer_urecord]: the result of [wb_timer], that is whether there are rows to flush. *)
Definition timer_urecord (ok : Z → nat → bool) (act_time : Z) (w : ul_world) (r : urecord)
    : option (ul_world * urecord * bool) :=
  if negb (have_mem_storage cfg) then Some (w, r, false)
  else
    match rr_persist cfg with
    | RRP_NONE | RRP_SYNC_FROM_CLUSTER =>
        '(w, r) ← nodb_timer (S (size (w_heap w))) ok act_time w r (r_contacts r);
        Some (w, r, false)
    | RRP_LOAD_FROM_SQL => wb_timer ok true act_time w r
    end.

(** [mem_delete_urecord]: the record leaves the table and is freed. *)
Definition mem_delete_urecord (w : ul_world) : ul_world := emit w Event_aor_delete.

(** The visit of a record by [mem_timer_udomain]: an empty record that nobody holds is
    removed. *)
Definition remove_if_empty (w : ul_world) (r : urecord) : ul_world * option urecord :=
  if (r_no_clear_ref r <=? 0) && (r_contacts r =? 0)
  then (mem_delete_urecord (run_ul_callbacks w UL_AOR_EXPIRE 0), None)
  else (w, Some r).

(** [mem_timer_udomain] for a domain with one record: the identifiers to delete are collected
    from the start, the record is visited, and the identifiers left are deleted.  The result
    is the record, unless it was removed, and 0 or -1. *)
Definition mem_timer_udomain (ok : Z → nat → bool) (act_time : Z) (w : ul_world) (r : urecord)
    : option (ul_world * option urecord * Z) :=
  '(w, r, _) ← timer_urecord ok act_time (wr_cids w []) r;
  let '(w, rec) := remove_if_empty w r in
  let '(w, deleted) := flush_cids w (r_domain r) in
  Some (w, rec, if deleted then 0 else -1).

(** ** Insertion, update and deletion by the registrar *)

Definition next_contact_id (r : urecord) : urecord * Z :=
  (wr_next_clabel r (CLABEL_NEXT (r_next_clabel r)),
   pack_indexes (u16 (r_aorhash r)) (r_label r) (u16 (r_next_clabel r))).

Definition with_contact_id (ci : ucontact_info) (id : Z) (cdb_key : option bytes)
    : ucontact_info :=
  UCInfo id (ci_c ci) (ci_received ci) (ci_path ci) (ci_expires ci) (ci_expires_out ci)
    (ci_q ci) (ci_instance ci) (ci_callid ci) (ci_cseq ci) (ci_flags ci) (ci_cflags ci)
    (ci_user_agent ci) (ci_sock ci) (ci_methods ci) (ci_last_modified ci)
    (ci_packed_kv_storage ci) (ci_attr ci) (ci_shtag ci) cdb_key (ci_refresh_time ci)
    (ci_pre_replicate ci).

(** The end of [insert_ucontact] and of [update_ucontact]: the write to the database in
    write-through mode, which sets the state when it succeeds. *)
Definition write_through (write : sql → ucontact → sql * bool) (w : ul_world) (a : Z)
    : option ul_world :=
  n ← w_heap w !! a;
  let '(d, done) := write (ul_dbh w) (n_ct n) in
  h ← (if done then set_ct (w_heap w) a (set_state CS_SYNC (n_ct n)) else Some (w_heap w));
  Some (wr_sql (wr_heap w h) d).

(** [insert_ucontact]: the result (0 or -1) and the contact.  [ok 30] on are the
    allocations of [persist_urecord_kv_store]. *)
Definition insert_ucontact (ok : nat → bool) (w : ul_world) (r : urecord) (a : Z)
    (contact : bytes) (ci : ucontact_info) (act_time : Z) (skip_replication : bool)
    : option (ul_world * urecord * Z * Z) :=
  let first_contact := r_contacts r =? 0 in
  let '(r, id) := if ci_contact_id ci =? 0 then next_contact_id r else (r, ci_contact_id ci) in
  let key :=
    if bool_decide (cluster_mode cfg = CM_FULL_SHARING_CACHEDB)
       && negb (match ci_cdb_key ci with Some _ => true | None => false end)
    then k ← cdb_build_ucontact_key contact ci; Some (Some k)
    else Some (ci_cdb_key ci) in
  match key with
  | None => Some (w, r, -1, 0)
  | Some key =>
      '(w, r, c) ← mem_insert_ucontact ok w r a contact (with_contact_id ci id key) act_time;
      if c =? 0 then Some (w, r, -1, 0)
      else
        w ← (match ci_pre_replicate ci with
             | Some f =>
                 n ← w_heap w !! c;
                 h ← set_ct (w_heap w) c (set_kv (f <$> c_kv_storage (n_ct n)) (n_ct n));
                 Some (wr_heap w h)
             | None => Some w
             end);
        let w := if negb skip_replication && have_data_replication cfg
                 then emit w (Replicate_insert c) else w in
        let w := run_ul_callbacks w UL_CONTACT_INSERT c in
        let w := if negb first_contact then run_ul_callbacks w UL_AOR_UPDATE 0 else w in
        if decide (sql_wmode cfg = SQL_WRITE_THROUGH) then
          '(h, _) ← persist_urecord_kv_store (λ i, ok (30 + i)%nat) (w_heap w) r;
          w ← write_through (λ d ct, db_insert_ucontact d ct false false) (wr_heap w h) c;
          Some (w, r, 0, c)
        else Some (w, r, 0, c)
  end.

(** [update_ucontact] of the contact at [a]: the result (0 or -1).  [ok 20] is the map of
    [restore_urecord_kv_store], [ok 30] on are for [persist_urecord_kv_store]. *)
Definition update_ucontact (ok : nat → bool) (w : ul_world) (r : urecord) (a : Z)
    (ci : ucontact_info) (act_time : Z) (skip_replication : bool)
    : option (ul_world * urecord * Z) :=
  n ← w_heap w !! a;
  '(c, updated) ← mem_update_ucontact cfg ok (n_ct n) ci act_time;
  h ← set_ct (w_heap w) a c;
  let w := wr_heap w h in
  if negb updated then Some (w, r, -1)
  else
    w ← (if c_refresh_time c =? 0 then Some w else start_refresh_timer w a);
    let w := emit w (Event_update a) in
    r ← (match c_kv_storage c with
         | Some kv =>
             if skip_replication then restore_urecord_kv_store (ok 20%nat) r kv else Some r
         | None => Some r
         end);
    '(w, persist_kv_store) ←
      (if negb skip_replication && have_data_replication cfg then
         '(h, persisted) ← persist_urecord_kv_store (λ i, ok (30 + i)%nat) (w_heap w) r;
         Some (emit (wr_heap w h) (Replicate_update a), negb persisted)
       else Some (w, true));
    let w := run_ul_callbacks w UL_CONTACT_UPDATE a in
    '(w, r) ←
      (if have_mem_storage cfg then
         '(h, head) ← update_contact_pos cfg (w_heap w) (r_contacts r) a;
         Some (wr_heap w h, wr_contacts r head)
       else Some (w, r));
    n ← w_heap w !! a;
    h ← set_ct (w_heap w) a (st_update_ucontact cfg (n_ct n));
    let w := wr_heap w h in
    if decide (sql_wmode cfg = SQL_WRITE_THROUGH) then
      h ← (if (persist_kv_store : bool)
           then '(h, _) ← persist_urecord_kv_store (λ i, ok (40 + i)%nat) (w_heap w) r; Some h
           else Some (w_heap w));
      w ← write_through db_update_ucontact (wr_heap w h) a;
      Some (w, r, 0)
    else Some (w, r, 0).

(** [delete_ucontact] *)
Definition delete_ucontact (ok : Z → nat → bool) (w : ul_world) (r : urecord) (a : Z)
    (act_time : Z) (skip_replication : bool) : option (ul_world * urecord) :=
  let w := if negb skip_replication && have_data_replication cfg
           then emit w (Replicate_delete a) else w in
  let w := run_ul_callbacks w UL_CONTACT_DELETE a in
  let w := run_ul_callbacks w UL_AOR_UPDATE 0 in
  n ← w_heap w !! a;
  let '(c, remove) := st_delete_ucontact cfg (n_ct n) in
  h ← set_ct (w_heap w) a c;
  let w := wr_heap w h in
  if negb remove then Some (w, r)
  else
    let w := if decide (sql_wmode cfg = SQL_WRITE_THROUGH)
             then wr_sql w (db_delete_ucontact (ul_dbh w) c).1 else w in
    '(w, r) ← mem_delete_ucontact (ok a) w r a;
    if decide (cluster_mode cfg = CM_SQL_ONLY) then
      '(w, r, _) ← db_only_timer ok act_time w r;
      Some (w, r)
    else Some (w, r).

(** ** Matching *)

(** The contacts of the list for which [test] holds and which are not removed: the first
    one, or 0.  [test] is [None] when it reads out of bounds. *)
Fixpoint match_loop (fuel : nat) (h : ct_heap) (test : ucontact → option bool) (ptr : Z)
    : option Z :=
  match fuel with
  | O => None
  | S k =>
      if ptr =? 0 then Some 0
      else
        n ← h !! ptr;
        found ← test (n_ct n);
        if found && negb (FORCE_EXPIRED_CONTACT (n_ct n)) then Some ptr
        else match_loop k h test (n_next n)
  end.

(** [compare_uris(&ptr->c, NULL, _c, &_c_uri) == 0] *)
Definition same_uri (c : bytes) (u : sip_uri) (ct : ucontact) : option bool :=
  ret ← compare_uris (UriArg (Some (uri_buffer (c_c ct))) None)
          (UriArg (Some (uri_buffer c)) (Some (uri_buffer c, u)));
  Some (ret =? 0).

Definition contact_match (h : ct_heap) (ptr : Z) (c : bytes) : option Z :=
  match parse_uri 1 c with
  | Err _ => Some 0
  | Ok u => match_loop (S (size h)) h (same_uri c u) ptr
  end.

Definition contact_callid_match (h : ct_heap) (ptr : Z) (c callid : bytes) : option Z :=
  match parse_uri 1 c with
  | Err _ => Some 0
  | Ok u =>
      match_loop (S (size h)) h
        (λ ct,
          if bool_decide (length callid = length (c_callid ct)) then
            same ← same_uri c u ct;
            Some ((same : bool) && bool_decide (callid = c_callid ct))
          else Some false) ptr
  end.

(** The parameters of a URI that must have the same value, when both URIs have them. *)
Definition params_agree (params : list bytes) (c1 : bytes) (u1 : sip_uri) (c2 : bytes)
    (u2 : sip_uri) : bool :=
  forallb
    (λ p,
      match get_uri_param_val (uri_buffer c1) u1 p, get_uri_param_val (uri_buffer c2) u2 p with
      | Some v1, Some v2 => bool_decide (rd (uri_buffer c1) v1 = rd (uri_buffer c2) v2)
      | _, _ => true
      end) params.

Fixpoint contact_params_loop (fuel : nat) (h : ct_heap) (params : list bytes) (c : bytes)
    (u : sip_uri) (ptr : Z) : option Z :=
  match fuel with
  | O => None
  | S k =>
      if ptr =? 0 then Some 0
      else
        n ← h !! ptr;
        if FORCE_EXPIRED_CONTACT (n_ct n) then contact_params_loop k h params c u (n_next n)
        else
          match parse_uri 1 (c_c (n_ct n)) with
          | Err _ => Some 0
          | Ok ui =>
              if params_agree params c u (c_c (n_ct n)) ui then Some ptr
              else contact_params_loop k h params c u (n_next n)
          end
  end.
Definition contact_params_match (h : ct_heap) (ptr : Z) (c : bytes) (params : list bytes)
    : option Z :=
  match parse_uri 1 c with
  | Err _ => Some 0
  | Ok u => contact_params_loop (S (size h)) h params c u ptr
  end.

(** [get_ucontact]: the result and the contact ([*_co]). *)
Definition get_ucontact (w : ul_world) (r : urecord) (c callid : bytes) (cseq : Z)
    (m : ct_match) (act_time : Z) : option (Z * Z) :=
  let mode := if ct_mode m =? CT_MATCH_NONE then matching_mode cfg else ct_mode m in
  found ←
    (if mode =? CT_MATCH_CONTACT_ONLY then
       ptr ← contact_match (w_heap w) (r_contacts r) c; Some (Some (ptr, false))
     else if mode =? CT_MATCH_CONTACT_CALLID then
       ptr ← contact_callid_match (w_heap w) (r_contacts r) c callid; Some (Some (ptr, true))
     else if mode =? CT_MATCH_PARAMS then
       ptr ← contact_params_match (w_heap w) (r_contacts r) c (match_params m);
       Some (Some (ptr, false))
     else Some None);
  match found with
  | None => Some (-1, 0)
  | Some (ptr, no_callid) =>
      if ptr =? 0 then Some (1, 0)
      else
        n ← w_heap w !! ptr;
        if (no_callid : bool) || bool_decide (callid = c_callid (n_ct n)) then
          if cseq <? c_cseq (n_ct n) then Some (-1, 0)
          else if cseq =? c_cseq (n_ct n) then
            Some (if act_time <? c_last_modified (n_ct n) + cseq_delay cfg then -2 else -1, 0)
          else Some (0, ptr)
        else Some (0, ptr)
  end.

(** [get_simple_ucontact] *)
Definition get_simple_ucontact (w : ul_world) (r : urecord) (c : bytes) : option (Z * Z) :=
  ptr ← contact_match (w_heap w) (r_contacts r) c;
  Some (if ptr =? 0 then 1 else 0, ptr).

(** ** Records and latencies *)

(** [new_urecord]: [ok 0] to [ok 2] are the structure, its map and the copy of the address. *)
Definition new_urecord (ok : nat → bool) (dom aor : bytes) : option urecord :=
  if ok 0%nat && ok 1%nat && ok 2%nat
  then Some (URecord dom aor (core_hash aor None 0) 0 0 0 false 0 (Some ∅)) else None.

(** [init_urecord_labels] with the next label of the slot and a random number: the record
    and the label after it. *)
Definition init_urecord_labels (r : urecord) (next_label rand : Z) : urecord * Z :=
  (URecord (r_domain r) (r_aor r) (r_aorhash r) next_label (Z.land rand CLABEL_MASK)
     (r_contacts r) (r_slot r) (r_no_clear_ref r) (r_kv_storage r), u32 (next_label + 1)).

(** [mem_insert_urecord]; [ok 3] is the entry of the table. *)
Definition mem_insert_urecord (ok : nat → bool) (w : ul_world) (dom aor : bytes)
    : ul_world * option urecord :=
  match new_urecord ok dom aor with
  | Some r =>
      if ok 3%nat then
        (emit w Event_aor_insert,
         Some (URecord (r_domain r) (r_aor r) (r_aorhash r) (r_label r) (r_next_clabel r)
                 (r_contacts r) true (r_no_clear_ref r) (r_kv_storage r)))
      else (w, None)
  | None => (w, None)
  end.

(** [insert_urecord] in memory, but what it sends to a cluster: the labels are given unless
    the record was replicated. *)
Definition insert_urecord (ok : nat → bool) (w : ul_world) (dom aor : bytes)
    (skip_replication : bool) (next_label rand : Z) : ul_world * option urecord :=
  match mem_insert_urecord ok w dom aor with
  | (w, Some r) =>
      let r := if skip_replication then r else (init_urecord_labels r next_label rand).1 in
      (run_ul_callbacks w UL_AOR_INSERT 0, Some r)
  | (w, None) => (w, None)
  end.

(** The tests of [update_sipping_latency]: whether the event is raised. *)
Definition raises_latency (latency_event_min_us latency_event_min_us_delta old_latency new_latency : Z)
    : bool :=
  (negb (latency_event_min_us =? 0) && (latency_event_min_us <=? new_latency))
  || (negb (latency_event_min_us_delta =? 0) && negb (old_latency =? 0)
      && negb (Z.abs (if latency_event_min_us_delta <=? new_latency - old_latency then 1 else 0) =? 0))
  || ((latency_event_min_us =? 0) && (latency_event_min_us_delta =? 0)).

(** [update_sipping_latency] for the contact at [a]. *)
Definition update_sipping_latency (latency_event_min_us latency_event_min_us_delta : Z) (w : ul_world)
    (a new_latency : Z) : option ul_world :=
  n ← w_heap w !! a;
  h ← set_ct (w_heap w) a (set_sipping_latency new_latency (n_ct n));
  let w := wr_heap w h in
  Some (if raises_latency latency_event_min_us latency_event_min_us_delta
             (c_sipping_latency (n_ct n)) new_latency
        then emit w (Event_latency a) else w).
End records.
