(* ===== verification/UlFacts.v ===== *)
(** * UlFacts: the contacts of a record as a sequence, and the invariant of a record

    The doubly linked list of the contacts of a record as a sequence of addresses, and what
    removing, adding and moving a contact do to it; the members of the contacts that matter
    to the database.  Then what every operation on a record keeps: the contacts are a list of
    the heap without strangers, their stores can be read, the pending refreshes are contacts
    of the list and the statistics count them. *)

From stdpp Require Import prelude list strings gmap sorting.
From Stdlib Require Import ZArith Lia.
From S2P Require Import Prelude CString UriParser UriOps UlContact UlRecord.

(** ** Lists in the heap *)

Definition hd_or (d : Z) (l : list Z) : Z := match l with [] => d | a :: _ => a end.

(** The addresses [l] are linked one after the other, from the predecessor [prev] to the
    successor [nxt]. *)
Fixpoint seg (h : ct_heap) (prev : Z) (l : list Z) (nxt : Z) : Prop :=
  match l with
  | [] => True
  | a :: l' => (∃ c, h !! a = Some (CtNode (hd_or nxt l') prev c)) ∧ seg h a l' nxt
  end.

Definition is_list (h : ct_heap) (head : Z) (l : list Z) : Prop :=
  head = hd_or 0 l ∧ NoDup l ∧ 0 ∉ l ∧ seg h 0 l 0.

(** The contacts without their links. *)
Definition cts (h : ct_heap) : gmap Z ucontact := n_ct <$> h.

Lemma ct_hd_app d l1 l2 : hd_or d (l1 ++ l2) = hd_or (hd_or d l2) l1.
Proof. by destruct l1. Qed.

Lemma ct_seg_app h p l1 l2 q :
  seg h p (l1 ++ l2) q ↔ seg h p l1 (hd_or q l2) ∧ seg h (last_or p l1) l2 q.
Proof.
  revert p. induction l1 as [|a l1 IH]; intros p; cbn [app seg].
  - split; [intros Hs; by split|by intros [_ Hs]].
  - rewrite IH, last_or_cons, ct_hd_app. tauto.
Qed.

Lemma seg_insert h p l q a n : a ∉ l → seg h p l q → seg (<[a := n]> h) p l q.
Proof.
  revert p. induction l as [|b l IH]; intros p Ha; [done|].
  apply not_elem_of_cons in Ha as [Hab Ha]. intros [[c Hb] Hs]. split; [|by apply IH].
  exists c. by rewrite lookup_insert_ne.
Qed.

Lemma seg_delete h p l q a : a ∉ l → seg h p l q → seg (delete a h) p l q.
Proof.
  revert p. induction l as [|b l IH]; intros p Ha; [done|].
  apply not_elem_of_cons in Ha as [Hab Ha]. intros [[c Hb] Hs]. split; [|by apply IH].
  exists c. by rewrite lookup_delete_ne.
Qed.

Lemma seg_lookup h p l q a : a ∈ l → seg h p l q → ∃ n, h !! a = Some n.
Proof.
  revert p. induction l as [|b l IH]; intros p Ha Hs; [by apply not_elem_of_nil in Ha|].
  destruct Hs as [[c Hb] Hs].
  apply elem_of_cons in Ha as [->|Ha]; eauto.
Qed.

(** ** Writes to the links *)

Lemma cts_lookup h a : cts h !! a = n_ct <$> h !! a.
Proof. apply lookup_fmap. Qed.

Lemma cts_insert h a n : cts (<[a := n]> h) = <[a := n_ct n]> (cts h).
Proof. apply fmap_insert. Qed.

Lemma cts_insert_same h a n m : h !! a = Some m → n_ct n = n_ct m → cts (<[a := n]> h) = cts h.
Proof.
  intros Ha E. rewrite cts_insert. apply insert_id. rewrite cts_lookup, Ha. cbn. by rewrite E.
Qed.

Lemma set_next_run h a x n : h !! a = Some n →
  set_next h a x = Some (<[a := CtNode x (n_prev n) (n_ct n)]> h).
Proof. unfold set_next. by intros ->. Qed.
Lemma set_prev_run h a x n : h !! a = Some n →
  set_prev h a x = Some (<[a := CtNode (n_next n) x (n_ct n)]> h).
Proof. unfold set_prev. by intros ->. Qed.
Lemma set_ct_run h a c n : h !! a = Some n →
  set_ct h a c = Some (<[a := CtNode (n_next n) (n_prev n) c]> h).
Proof. unfold set_ct. by intros ->. Qed.

(** The predecessor of the first contact changes. *)
Lemma set_prev_seg h p p' a l q : a ∉ l → seg h p (a :: l) q →
  ∃ h', set_prev h a p' = Some h' ∧ seg h' p' (a :: l) q ∧ cts h' = cts h
    ∧ (∀ b, b ≠ a → h' !! b = h !! b).
Proof.
  intros Hn [[c Ha] Hs]. rewrite (set_prev_run h a p' _ Ha). eexists. split; [done|].
  split; [split; [|by apply seg_insert]|split].
  - exists c. by rewrite lookup_insert_eq.
  - by apply (cts_insert_same h a _ _ Ha).
  - intros b Hb. by rewrite lookup_insert_ne by done.
Qed.

(** The successor of the last contact changes. *)
Lemma set_next_seg h p a l q q' : a ∉ l → seg h p (l ++ [a]) q →
  ∃ h', set_next h a q' = Some h' ∧ seg h' p (l ++ [a]) q' ∧ cts h' = cts h
    ∧ (∀ b, b ≠ a → h' !! b = h !! b).
Proof.
  intros Hn Hs. apply ct_seg_app in Hs as [Hl [[c Ha] _]]. cbn [hd_or] in Hl, Ha.
  rewrite (set_next_run h a q' _ Ha). eexists. split; [done|].
  split; [apply ct_seg_app; split; [by apply seg_insert|split; [|done]]|split].
  - exists c. by rewrite lookup_insert_eq.
  - by apply (cts_insert_same h a _ _ Ha).
  - intros b Hb. by rewrite lookup_insert_ne by done.
Qed.

Lemma ct_seg_ext h h' p l q : (∀ b, b ∈ l → h' !! b = h !! b) → seg h p l q → seg h' p l q.
Proof.
  revert p. induction l as [|a l IH]; intros p He; [done|]. intros [[c Ha] Hs]. split.
  - exists c. rewrite He; [done|by left].
  - apply IH; [|done]. intros b Hb. apply He. by right.
Qed.

(** ** Removing and adding a contact *)

Lemma nodup_middle (l1 l2 : list Z) a :
  NoDup (l1 ++ a :: l2) → a ∉ l1 ∧ a ∉ l2 ∧ NoDup (l1 ++ l2) ∧ (∀ b, b ∈ l1 → b ∉ l2).
Proof.
  rewrite !NoDup_app, NoDup_cons. intros (H1 & H2 & H3 & H4). split_and!; try done.
  - intros Ha. apply (H2 a Ha). by left.
  - intros b Hb Hb'. apply (H2 b Hb). by right.
  - intros b Hb Hb'. apply (H2 b Hb). by right.
Qed.

(** [unlink_contact] takes a contact out of the list; its own links stay. *)
Lemma unlink_contact_ok h head l1 a l2 :
  is_list h head (l1 ++ a :: l2) →
  ∃ h' head', unlink_contact h head a = Some (h', head') ∧ is_list h' head' (l1 ++ l2)
    ∧ cts h' = cts h ∧ h' !! a = h !! a.
Proof.
  intros (-> & Hnd & H0 & Hs). apply nodup_middle in Hnd as (Ha1 & Ha2 & Hnd & Hdis).
  apply ct_seg_app in Hs as [H1 [[c Ha] H2]]. cbn [hd_or] in H1.
  assert (H0' : 0 ∉ l1 ++ l2) by (set_solver).
  assert (Hfin : ∀ h', seg h' 0 l1 (hd_or 0 l2) → seg h' (last_or 0 l1) l2 0 →
    is_list h' (hd_or 0 (l1 ++ l2)) (l1 ++ l2)) by (intros; split_and!; try done; by apply ct_seg_app).
  unfold unlink_contact. rewrite Ha. cbn [mbind option_bind n_prev n_next].
  destruct l1 as [|b l1 _] using rev_ind.
  - unfold last_or. cbn [last default from_option id]. rewrite Z.eqb_refl. cbn [negb].
    destruct l2 as [|d l2]; cbn [hd_or app].
    + rewrite Z.eqb_refl. cbn [negb]. exists h, 0. split_and!; try done.
    + assert (d ≠ 0) by set_solver. rewrite (proj2 (Z.eqb_neq d 0)) by done. cbn [negb].
      apply NoDup_cons in Hnd as [Hd _].
      destruct (set_prev_seg h a 0 d l2 0 Hd H2) as (h' & -> & Hs' & Hc & Hf).
      exists h', d. split_and!; try done; [by apply (Hfin h')|]. rewrite Hf; [exact Ha|set_solver].
  - rewrite last_or_snoc in *. assert (b ≠ 0) by set_solver.
    rewrite (proj2 (Z.eqb_neq b 0)) by done. cbn [negb].
    assert (Hb : b ∉ l1).
    { rewrite <- app_assoc in Hnd. apply nodup_middle in Hnd. tauto. }
    destruct (set_next_seg h 0 b l1 a (hd_or 0 l2) Hb H1) as (h1 & -> & Hs1 & Hc1 & Hf1).
    cbn [mbind option_bind].
    assert (H2' : seg h1 a l2 0).
    { eapply ct_seg_ext; [|done]. intros x Hx. apply Hf1. intros ->. apply (Hdis b); [|done]. set_solver. }
    assert (E : hd_or 0 ((l1 ++ [b]) ++ a :: l2) = hd_or 0 ((l1 ++ [b]) ++ l2)) by (by destruct l1).
    assert (Hab : a ≠ b) by set_solver.
    destruct l2 as [|d l2]; cbn [hd_or].
    + rewrite Z.eqb_refl. cbn [negb]. eexists _, _. split; [done|]. split_and!; [|done|rewrite Hf1; done].
      rewrite E. by apply Hfin.
    + assert (d ≠ 0) by set_solver. rewrite (proj2 (Z.eqb_neq d 0)) by done. cbn [negb].
      assert (Hd : d ∉ l2).
      { apply NoDup_app in Hnd as (_ & _ & Hnd). by apply NoDup_cons in Hnd as [? _]. }
      destruct (set_prev_seg h1 a b d l2 0 Hd H2') as (h2 & -> & Hs2 & Hc2 & Hf2).
      cbn [mbind option_bind]. eexists _, _. split; [done|]. split_and!.
      * rewrite E. apply Hfin; rewrite ?last_or_snoc; [|done].
        eapply ct_seg_ext; [|exact Hs1]. intros x Hx. apply Hf2. intros ->.
        apply (Hdis d Hx). by left.
      * congruence.
      * rewrite Hf2, Hf1 by set_solver. done.
Qed.

(** A contact is in the list between two parts of it. *)
Lemma is_list_middle h l1 a l2 c :
  NoDup (l1 ++ l2) → a ∉ l1 ++ l2 → 0 ∉ l1 ++ l2 → a ≠ 0 →
  seg h 0 l1 a → h !! a = Some (CtNode (hd_or 0 l2) (last_or 0 l1) c) → seg h a l2 0 →
  is_list h (hd_or 0 (l1 ++ a :: l2)) (l1 ++ a :: l2).
Proof.
  intros Hnd Ha H0 Ha0 H1 Hn H2. split_and!; [done| |set_solver|].
  - rewrite <- Permutation_middle. by apply NoDup_cons.
  - apply ct_seg_app. cbn [seg hd_or]. split_and!; eauto.
Qed.

Lemma link_last h b l1 a c :
  is_list h (hd_or 0 (l1 ++ [b])) (l1 ++ [b]) → a ∉ l1 ++ [b] → a ≠ 0 →
  h !! a = Some (CtNode 0 0 c) →
  ∃ h', link_contact h (hd_or 0 (l1 ++ [b])) 0 b a = Some (h', hd_or 0 ((l1 ++ [b]) ++ [a]))
    ∧ is_list h' (hd_or 0 ((l1 ++ [b]) ++ [a])) ((l1 ++ [b]) ++ [a]) ∧ cts h' = cts h.
Proof.
  intros (_ & Hnd & H0 & Hs) Hal Ha0 Ha. assert (b ≠ 0) by set_solver.
  unfold link_contact. cbn. rewrite (proj2 (Z.eqb_neq b 0)) by done. cbn [negb].
  assert (Hb : b ∉ l1) by (apply NoDup_app in Hnd as (_ & Hd & _); set_solver).
  destruct (set_next_seg h 0 b l1 0 a Hb Hs) as (h1 & -> & Hs1 & Hc1 & Hf1).
  assert (Ha' : h1 !! a = Some (CtNode 0 0 c)) by (rewrite Hf1; [done|set_solver]).
  cbn [mbind option_bind]. rewrite (set_prev_run h1 a b _ Ha'). cbn [mbind option_bind].
  exists (<[a := CtNode 0 b c]> h1). split; [by destruct l1|]. split.
  - eapply (is_list_middle _ (l1 ++ [b]) a []); rewrite ?app_nil_r, ?last_or_snoc;
      [done..|by apply seg_insert|by rewrite lookup_insert_eq|done].
  - by rewrite (cts_insert_same h1 a _ _ Ha').
Qed.

Lemma link_first h d l2 a c prev :
  is_list h d (d :: l2) → a ∉ d :: l2 → a ≠ 0 → h !! a = Some (CtNode 0 0 c) →
  ∃ h', link_contact h d d prev a = Some (h', a) ∧ is_list h' a (a :: d :: l2) ∧ cts h' = cts h.
Proof.
  intros (_ & Hnd & H0 & Hs) Hal Ha0 Ha. assert (d ≠ 0) by set_solver.
  assert (Hd : d ∉ l2) by (by apply NoDup_cons in Hnd as [? _]).
  pose proof Hs as [[cd Hdl] _].
  unfold link_contact. rewrite (proj2 (Z.eqb_neq d 0)) by done. cbn [negb].
  rewrite Hdl. cbn [mbind option_bind n_prev]. rewrite Z.eqb_refl.
  destruct (set_prev_seg h 0 a d l2 0 Hd Hs) as (h1 & -> & Hs1 & Hc1 & Hf1).
  assert (Ha' : h1 !! a = Some (CtNode 0 0 c)) by (rewrite Hf1; [done|set_solver]).
  cbn [mbind option_bind]. rewrite (set_next_run h1 a d _ Ha'). cbn [mbind option_bind].
  eexists. split; [done|]. split.
  - eapply (is_list_middle _ [] a (d :: l2)); [done..| |by apply seg_insert].
    by rewrite lookup_insert_eq.
  - by rewrite (cts_insert_same h1 a _ _ Ha').
Qed.

Lemma link_between h b l1 d l2 a c prev :
  is_list h (hd_or 0 (l1 ++ [b])) ((l1 ++ [b]) ++ d :: l2) → a ∉ (l1 ++ [b]) ++ d :: l2 → a ≠ 0 →
  h !! a = Some (CtNode 0 0 c) →
  ∃ h', link_contact h (hd_or 0 (l1 ++ [b])) d prev a = Some (h', hd_or 0 (l1 ++ [b]))
    ∧ is_list h' (hd_or 0 (l1 ++ [b])) ((l1 ++ [b]) ++ a :: d :: l2) ∧ cts h' = cts h.
Proof.
  intros (Eh & Hnd & H0 & Hs) Hal Ha0 Ha. apply ct_seg_app in Hs as [H1 H2].
  rewrite last_or_snoc in H2. cbn [hd_or] in H1.
  assert (d ≠ 0 ∧ b ≠ 0) as [Hd0 Hb0] by set_solver.
  pose proof (nodup_middle _ _ _ Hnd) as (Hdl1 & Hdl2 & Hnd12 & Hdis).
  assert (Hb : b ∉ l1) by (rewrite <- app_assoc in Hnd; apply nodup_middle in Hnd; tauto).
  pose proof H2 as [[cd Hdn] _].
  unfold link_contact. rewrite (proj2 (Z.eqb_neq d 0)) by done. cbn [negb].
  rewrite Hdn. cbn [mbind option_bind n_prev]. rewrite (proj2 (Z.eqb_neq b 0)) by done.
  rewrite (set_next_run h a d _ Ha). cbn [mbind option_bind n_prev n_ct].
  rewrite (set_prev_run _ a b (CtNode d 0 c)) by (by rewrite lookup_insert_eq).
  cbn [mbind option_bind n_next n_ct]. rewrite insert_insert_eq.
  set (h1 := <[a := CtNode d b c]> h).
  assert (H1' : seg h1 0 (l1 ++ [b]) d) by (apply seg_insert; [set_solver|done]).
  assert (H2' : seg h1 b (d :: l2) 0) by (apply seg_insert; [set_solver|done]).
  assert (Hc : cts h1 = cts h) by (by apply (cts_insert_same h a _ _ Ha)).
  assert (Ha' : h1 !! a = Some (CtNode d b c)) by (unfold h1; by rewrite lookup_insert_eq).
  destruct (set_next_seg h1 0 b l1 d a Hb H1') as (h2 & -> & Hs2 & Hc2 & Hf2).
  cbn [mbind option_bind].
  assert (H2'' : seg h2 b (d :: l2) 0).
  { eapply ct_seg_ext; [|exact H2']. intros x Hx. apply Hf2. intros ->.
    apply elem_of_cons in Hx as [->|Hx]; [set_solver|]. apply (Hdis b); set_solver. }
  destruct (set_prev_seg h2 b a d l2 0 Hdl2 H2'') as (h3 & -> & Hs3 & Hc3 & Hf3).
  cbn [mbind option_bind]. exists h3. split; [done|]. split; [|congruence].
  replace (hd_or 0 (l1 ++ [b])) with (hd_or 0 ((l1 ++ [b]) ++ a :: d :: l2)) by (by destruct l1).
  eapply is_list_middle; [done..| | |done].
  - eapply ct_seg_ext; [|exact Hs2]. intros x Hx. apply Hf3. set_solver.
  - rewrite last_or_snoc, Hf3, Hf2 by set_solver. exact Ha'.
Qed.

(** [link_contact] puts a contact between two parts of the list. *)
Lemma link_contact_ok h head l1 a l2 prev c :
  is_list h head (l1 ++ l2) → a ∉ l1 ++ l2 → a ≠ 0 → h !! a = Some (CtNode 0 0 c) →
  (l2 = [] → prev = last_or 0 l1) →
  ∃ h' head', link_contact h head (hd_or 0 l2) prev a = Some (h', head')
    ∧ is_list h' head' (l1 ++ a :: l2) ∧ cts h' = cts h.
Proof.
  intros Hl Hal Ha0 Ha Hprev. pose proof Hl as (-> & _).
  destruct l2 as [|d l2]; [rewrite (Hprev eq_refl), app_nil_r in *|];
    destruct l1 as [|b l1 _] using rev_ind; cbn [hd_or app].
  - exists h, a. split; [done|]. split; [|done]. split_and!; [done|apply NoDup_singleton|set_solver|].
    cbn. eauto.
  - rewrite last_or_snoc. destruct (link_last h b l1 a c) as (h' & E & Hl' & Hc); [done..|].
    rewrite E. eauto.
  - destruct (link_first h d l2 a c prev) as (h' & E & Hl' & Hc); [done..|]. eauto.
  - assert (E : hd_or 0 ((l1 ++ [b]) ++ d :: l2) = hd_or 0 (l1 ++ [b])) by (by destruct l1).
    rewrite E in *. destruct (link_between h b l1 d l2 a c prev) as (h' & -> & Hl' & Hc); [done..|].
    eauto.
Qed.

(** ** The place of a contact *)

(** A list split before the first element for which [stop] holds. *)
Fixpoint split_at (stop : Z → bool) (l : list Z) : list Z * list Z :=
  match l with
  | [] => ([], [])
  | a :: l' => if stop a then ([], l) else let '(x, y) := split_at stop l' in (a :: x, y)
  end.

Lemma split_at_app stop l : (split_at stop l).1 ++ (split_at stop l).2 = l.
Proof.
  induction l as [|a l IH]; cbn; [done|]. destruct (stop a); cbn; [done|].
  destruct (split_at stop l). cbn in *. by rewrite IH.
Qed.

Lemma split_at_before stop l : Forall (λ a, stop a = false) (split_at stop l).1.
Proof.
  induction l as [|a l IH]; cbn; [constructor|]. destruct (stop a) eqn:E; cbn; [constructor|].
  destruct (split_at stop l). by constructor.
Qed.

Lemma split_at_after stop l :
  match (split_at stop l).2 with [] => True | a :: _ => stop a = true end.
Proof.
  induction l as [|a l IH]; cbn; [done|]. destruct (stop a) eqn:E; cbn; [done|].
  by destruct (split_at stop l).
Qed.

Lemma split_at_ext f g l : (∀ a, f a = g a) → split_at f l = split_at g l.
Proof. intros E. induction l as [|a l IH]; cbn; [done|]. by rewrite E, IH. Qed.

(** The q value of a contact. *)
Definition q_of (m : gmap Z ucontact) (a : Z) : Z := match m !! a with Some c => c_q c | None => 0 end.

Lemma find_place_ok h stop l p fuel :
  seg h p l 0 → 0 ∉ l → (length l < fuel)%nat →
  find_place fuel h stop (hd_or 0 l) p
  = Some (hd_or 0 (split_at (λ a, stop (q_of (cts h) a)) l).2,
          last_or p (split_at (λ a, stop (q_of (cts h) a)) l).1).
Proof.
  revert p fuel. induction l as [|a l IH]; intros p fuel Hs H0 Hf; (destruct fuel as [|fuel]; [cbn in Hf; lia|]);
    cbn [find_place hd_or split_at]; [done|].
  destruct Hs as [[c Ha] Hs]. rewrite (proj2 (Z.eqb_neq a 0)) by set_solver.
  rewrite Ha. cbn [mbind option_bind n_ct n_next]. unfold q_of at 1 3. rewrite cts_lookup, Ha. cbn [fmap option_fmap option_map n_ct].
  destruct (stop (c_q c)) eqn:E; [by cbn|].
  rewrite IH; [|done|set_solver|cbn in Hf; lia].
  destruct (split_at _ l) as [x y]. cbn. by rewrite last_or_cons.
Qed.

Lemma list_fits h head l : is_list h head l → (length l ≤ size h)%nat.
Proof.
  intros (_ & Hnd & _ & Hs). rewrite <- size_dom.
  rewrite <- (size_list_to_set (C := gset Z) l Hnd). apply subseteq_size.
  intros a Ha. apply elem_of_list_to_set in Ha. apply elem_of_dom.
  destruct (seg_lookup h 0 l 0 a Ha Hs) as [n ->]. eauto.
Qed.

(** Where [mem_insert_ucontact] puts a contact. *)
Definition place_new (cfg : ul_cfg) (q : Z → Z) (a : Z) (l : list Z) : list Z :=
  if desc_time_order cfg then a :: l
  else
    let '(l1, l2) := split_at (λ b, q b <? q a) l in l1 ++ a :: l2.

Lemma place_new_perm cfg q a l : place_new cfg q a l ≡ₚ a :: l.
Proof.
  unfold place_new. destruct (desc_time_order cfg); [done|].
  pose proof (split_at_app (λ b, q b <? q a) l) as E. destruct (split_at _ l) as [l1 l2].
  cbn in E. subst l. symmetry. apply Permutation_middle.
Qed.

Lemma insert_contact_ok cfg h head l a c :
  is_list h head l → a ∉ l → a ≠ 0 → h !! a = Some (CtNode 0 0 c) →
  ∃ h' head', insert_contact cfg h head a = Some (h', head')
    ∧ is_list h' head' (place_new cfg (q_of (cts h)) a l) ∧ cts h' = cts h.
Proof.
  intros Hl Hal Ha0 Ha. unfold insert_contact, place_new. rewrite Ha. cbn [mbind option_bind n_ct].
  pose proof Hl as (Eh & _ & H0 & Hs). subst head. destruct (desc_time_order cfg); cbn [negb].
  - cbn [mbind option_bind]. by apply (link_contact_ok h _ [] a l 0 c).
  - rewrite find_place_ok; [|done..|pose proof (list_fits h _ l Hl); lia].
    cbn [mbind option_bind].
    assert (Eq : q_of (cts h) a = c_q c) by (unfold q_of; by rewrite cts_lookup, Ha). rewrite Eq.
    pose proof (split_at_app (λ b, q_of (cts h) b <? c_q c) l) as E.
    destruct (split_at _ l) as [l1 l2]. cbn [fst snd] in *. subst l.
    by apply (link_contact_ok h _ l1 a l2 (last_or 0 l1) c).
Qed.

(** A contact between its neighbours by descending q, and where [update_contact_pos] puts
    it otherwise. *)
Definition in_place (q : Z → Z) (l1 : list Z) (a : Z) (l2 : list Z) : bool :=
  match last l1 with None => true | Some b => q a <=? q b end
  && match l2 with [] => true | b :: _ => q b <=? q a end.

Definition place_updated (cfg : ul_cfg) (q : Z → Z) (l1 : list Z) (a : Z) (l2 : list Z) : list Z :=
  if desc_time_order cfg then a :: l1 ++ l2
  else if in_place q l1 a l2 then l1 ++ a :: l2
  else let '(x, y) := split_at (λ b, q a <=? q b) (l1 ++ l2) in x ++ a :: y.

Lemma place_updated_perm cfg q l1 a l2 : place_updated cfg q l1 a l2 ≡ₚ l1 ++ a :: l2.
Proof.
  unfold place_updated. destruct (desc_time_order cfg); [apply Permutation_middle|].
  destruct (in_place q l1 a l2); [done|]. rewrite <- Permutation_middle.
  pose proof (split_at_app (λ b, q a <=? q b) (l1 ++ l2)) as E.
  destruct (split_at _ (l1 ++ l2)) as [x y]. cbn in E. rewrite <- E. symmetry. apply Permutation_middle.
Qed.

Lemma in_place_code (h : ct_heap) l1 a l2 n :
  is_list h (hd_or 0 (l1 ++ a :: l2)) (l1 ++ a :: l2) → h !! a = Some n →
  (before ← (if n_prev n =? 0 then Some true
             else p ← h !! n_prev n; Some (c_q (n_ct n) <=? c_q (n_ct p)));
   if (before : bool) then
     if n_next n =? 0 then Some true
     else x ← h !! n_next n; Some (c_q (n_ct x) <=? c_q (n_ct n))
   else Some false) = Some (in_place (q_of (cts h)) l1 a l2).
Proof.
  intros (_ & _ & H0 & Hs) Ha. apply ct_seg_app in Hs as [H1 [[c Ha'] H2]].
  assert (Eq : ∀ b m, h !! b = Some m → q_of (cts h) b = c_q (n_ct m))
    by (intros b m Hb; unfold q_of; by rewrite cts_lookup, Hb).
  assert (Eaft : (if n_next n =? 0 then Some true
     else x ← h !! n_next n; Some (c_q (n_ct x) <=? c_q (n_ct n)))
     = Some match l2 with [] => true | b :: _ => q_of (cts h) b <=? q_of (cts h) a end).
  { rewrite (Eq a n Ha). rewrite Ha in Ha'. injection Ha' as ->. cbn [n_next].
    destruct l2 as [|b l2]; cbn [hd_or]; [done|]. rewrite (proj2 (Z.eqb_neq b 0)) by set_solver.
    destruct H2 as [[d Hb] _]. rewrite Hb. cbn. by rewrite (Eq b _ Hb). }
  rewrite Eaft. unfold in_place. rewrite (Eq a n Ha) in *. rewrite Ha in Ha'. injection Ha' as ->.
  cbn [n_prev]. destruct l1 as [|b l1 _] using rev_ind; [done|].
  rewrite last_or_snoc, last_snoc. rewrite (proj2 (Z.eqb_neq b 0)) by set_solver.
  apply ct_seg_app in H1 as [_ [[d Hb] _]]. rewrite Hb. cbn [mbind option_bind].
  rewrite (Eq b _ Hb). cbn [n_ct]. by destruct (_ <=? _).
Qed.

(** A contact that is updated goes to the head of the list when contacts are ordered by time. *)
Lemma update_pos_time cfg h head l1 a l2 :
  desc_time_order cfg = true →
  is_list h head (l1 ++ a :: l2) →
  ∃ h' head', update_contact_pos cfg h head a = Some (h', head')
    ∧ is_list h' head' (place_updated cfg (q_of (cts h)) l1 a l2) ∧ cts h' = cts h.
Proof.
  intros Hd Hl. pose proof Hl as (-> & Hnd & H0 & Hs).
  assert (Ha0 : a ≠ 0) by set_solver.
  assert (Hal : a ∉ l1 ++ l2) by (apply nodup_middle in Hnd; set_solver).
  destruct (seg_lookup h 0 (l1 ++ a :: l2) 0 a) as [n Ha]; [set_solver|done|].
  unfold update_contact_pos, place_updated. rewrite Hd, Ha. cbn [mbind option_bind].
  destruct (unlink_contact_ok h _ l1 a l2 Hl) as (h1 & head1 & Eu & Hl1 & Hc1 & Ha1).
  apply ct_seg_app in Hs as [_ [[c Ha'] _]]. rewrite Ha in Ha'. injection Ha' as ->. cbn [n_prev].
  destruct l1 as [|b l1 _] using rev_ind.
  { unfold last_or. cbn. eauto. }
  rewrite last_or_snoc in *. rewrite (proj2 (Z.eqb_neq b 0)) by set_solver.
  rewrite Eu. cbn [mbind option_bind]. rewrite Ha in Ha1.
  rewrite (set_next_run h1 a _ _ Ha1). cbn [mbind option_bind n_prev n_ct].
  rewrite (set_prev_run _ a 0 (CtNode head1 b c)) by (by rewrite lookup_insert_eq).
  cbn [mbind option_bind n_next n_ct]. rewrite insert_insert_eq.
  set (h2 := <[a := CtNode head1 0 c]> h1).
  destruct Hl1 as (Eh1 & Hnd1 & H01 & Hs1).
  assert (Hs2 : seg h2 0 ((l1 ++ [b]) ++ l2) 0) by (by apply seg_insert).
  assert (E : ∃ d l', (l1 ++ [b]) ++ l2 = d :: l') by (destruct l1; cbn; eauto).
  destruct E as (d & l' & E). rewrite E in *. cbn [hd_or] in Eh1. subst head1.
  assert (Hdl : d ∉ l') by (by apply NoDup_cons in Hnd1 as [? _]).
  destruct (set_prev_seg h2 0 a d l' 0 Hdl Hs2) as (h3 & -> & Hs3 & Hc3 & Hf3).
  cbn [mbind option_bind]. eexists _, _. split; [done|]. split.
  + eapply (is_list_middle h3 [] a (d :: l') c); try done.
    rewrite Hf3 by set_solver. unfold h2. by rewrite lookup_insert_eq.
  + rewrite Hc3. unfold h2. by rewrite (cts_insert_same h1 a _ _ Ha1).
Qed.

(** In the order of q it stays where it is, or is put before the first contact whose q is not
    less. *)
Lemma update_pos_q cfg h head l1 a l2 :
  desc_time_order cfg = false →
  is_list h head (l1 ++ a :: l2) →
  ∃ h' head', update_contact_pos cfg h head a = Some (h', head')
    ∧ is_list h' head' (place_updated cfg (q_of (cts h)) l1 a l2) ∧ cts h' = cts h.
Proof.
  intros Hd Hl. pose proof Hl as (-> & Hnd & H0 & Hs).
  assert (Ha0 : a ≠ 0) by set_solver.
  assert (Hal : a ∉ l1 ++ l2) by (apply nodup_middle in Hnd; set_solver).
  destruct (seg_lookup h 0 (l1 ++ a :: l2) 0 a) as [n Ha]; [set_solver|done|].
  unfold update_contact_pos, place_updated. rewrite Hd, Ha. cbn [mbind option_bind].
  destruct (unlink_contact_ok h _ l1 a l2 Hl) as (h1 & head1 & Eu & Hl1 & Hc1 & Ha1).
  pose proof (in_place_code h l1 a l2 n Hl Ha) as Ep. cbn [mbind option_bind] in Ep |- *.
  destruct (if n_prev n =? 0 then _ else _) as [before|]; [|done]. cbn [mbind option_bind] in Ep |- *.
  rewrite Ep. cbn [mbind option_bind]. destruct (in_place _ l1 a l2); [by eauto|].
  rewrite Eu. cbn [mbind option_bind]. rewrite Ha in Ha1.
  rewrite (set_next_run h1 a _ _ Ha1). cbn [mbind option_bind n_prev n_ct].
  rewrite (set_prev_run _ a 0 (CtNode 0 (n_prev n) (n_ct n))) by (by rewrite lookup_insert_eq).
  cbn [mbind option_bind n_next n_ct]. rewrite insert_insert_eq.
  set (h2 := <[a := CtNode 0 0 (n_ct n)]> h1).
  assert (Hl2 : is_list h2 head1 (l1 ++ l2)).
  { destruct Hl1 as (? & ? & ? & ?). split_and!; try done. by apply seg_insert. }
  assert (Hc2 : cts h2 = cts h) by (unfold h2; by rewrite (cts_insert_same h1 a _ _ Ha1)).
  pose proof Hl2 as (-> & _ & H02 & Hs2).
  rewrite find_place_ok; [|done..|pose proof (list_fits h2 _ _ Hl2); lia]. cbn [mbind option_bind].
  rewrite Hc2. assert (Eq : q_of (cts h) a = c_q (n_ct n)) by (unfold q_of; by rewrite cts_lookup, Ha).
  rewrite Eq. pose proof (split_at_app (λ b, c_q (n_ct n) <=? q_of (cts h) b) (l1 ++ l2)) as E.
  destruct (split_at _ (l1 ++ l2)) as [x y]. cbn [fst snd] in *. rewrite <- E in Hl2, Hal.
  rewrite <- E. rewrite <- Hc2.
  apply (link_contact_ok h2 _ x a y (last_or 0 x) (n_ct n)); try done.
  unfold h2. by rewrite lookup_insert_eq.
Qed.

Lemma update_contact_pos_ok cfg h head l1 a l2 :
  is_list h head (l1 ++ a :: l2) →
  ∃ h' head', update_contact_pos cfg h head a = Some (h', head')
    ∧ is_list h' head' (place_updated cfg (q_of (cts h)) l1 a l2) ∧ cts h' = cts h.
Proof.
  destruct (desc_time_order cfg) eqn:Hd; [by apply update_pos_time|by apply update_pos_q].
Qed.

(** ** Stores *)

Definition kv_full (m : kv_map) : Prop := ∀ k, m !! k ≠ Some None.
Definition kv_ok (c : ucontact) : Prop := ∃ m, c_kv_storage c = Some m ∧ kv_full m.
Definition heap_kv (m : gmap Z ucontact) : Prop := map_Forall (λ _, kv_ok) m.

(** The members of a contact without its store. *)
Definition core (c : ucontact) : ucontact := set_kv None c.
Definition cores (h : ct_heap) : gmap Z ucontact := core <$> cts h.

Lemma core_set_kv kv c : core (set_kv kv c) = core c.
Proof. done. Qed.

Lemma kv_put_full ok m k v : (∀ i, ok i = true) → kv_full m →
  ∃ m', kv_put ok m k v = (m', true) ∧ kv_full m'.
Proof.
  intros Hok Hm. unfold kv_put. rewrite !Hok. cbn [negb].
  assert (Hins : ∀ x, kv_full (<[k := Some x]> m)).
  { intros x k'. destruct (decide (k = k')) as [<-|]; [by rewrite lookup_insert_eq|].
    by rewrite lookup_insert_ne. }
  destruct (m !! k) as [[]|] eqn:E; [destruct v; eauto|by apply Hm in E|destruct v; eauto].
Qed.

(** What the texts of stores must be: reading one gives values. *)
Class ul_text_ok `{ul_text} : Prop :=
  store_deserialize_full p : kv_full (store_deserialize p).

(** ** The list with its contacts *)

Definition list_ok (h : ct_heap) (head : Z) (l : list Z) : Prop :=
  is_list h head l ∧ heap_kv (cts h).

Lemma list_ok_lookup h head l a : list_ok h head l → a ∈ l →
  ∃ n, h !! a = Some n ∧ kv_ok (n_ct n) ∧ a ≠ 0.
Proof.
  intros ((_ & _ & H0 & Hs) & Hkv) Ha.
  destruct (seg_lookup h 0 l 0 a Ha Hs) as [n Hn]. exists n. split_and!; [done| |set_solver].
  apply (Hkv a). by rewrite cts_lookup, Hn.
Qed.

Lemma cores_lookup h a : cores h !! a = core ∘ n_ct <$> h !! a.
Proof. unfold cores. rewrite lookup_fmap, cts_lookup. by destruct (h !! a). Qed.

Lemma q_of_cores h a : q_of (cores h) a = q_of (cts h) a.
Proof. unfold q_of, cores. rewrite lookup_fmap. by destruct (cts h !! a). Qed.

Lemma cores_dom h : dom (cores h) = dom h.
Proof. unfold cores, cts. by rewrite !dom_fmap_L. Qed.

(** Writing the members of a contact keeps the list. *)
Lemma set_ct_ok h head l a c : list_ok h head l → a ∈ l → kv_ok c →
  ∃ h', set_ct h a c = Some h' ∧ list_ok h' head l ∧ cts h' = <[a := c]> (cts h).
Proof.
  intros Hl Ha Hc. destruct (list_ok_lookup h head l a Hl Ha) as (n & Hn & _ & _).
  destruct Hl as ((-> & Hnd & H0 & Hs) & Hkv).
  rewrite (set_ct_run h a c n Hn). eexists. split; [done|].
  rewrite cts_insert. split; [|done]. split.
  - split_and!; try done. clear -Hs Hn Hnd Ha. revert Hs. generalize 0 at 1 3 as p.
    induction l as [|b l IH]; intros p Hs; [done|]. destruct Hs as [[d Hb] Hs].
    apply NoDup_cons in Hnd as [Hbl Hnd]. split.
    + destruct (decide (b = a)) as [->|Hba].
      * rewrite lookup_insert_eq. rewrite Hb in Hn. injection Hn as <-. by exists c.
      * rewrite lookup_insert_ne by done. eauto.
    + apply elem_of_cons in Ha as [->|Ha]; [|by apply IH]. by apply seg_insert.
  - rewrite cts_insert. apply map_Forall_insert_2; done.
Qed.

Lemma set_ct_core h head l a c : list_ok h head l → a ∈ l → kv_ok c →
  (∃ n, h !! a = Some n ∧ core (n_ct n) = core c) →
  ∃ h', set_ct h a c = Some h' ∧ list_ok h' head l ∧ cores h' = cores h.
Proof.
  intros Hl Ha Hc (n & Hn & E). destruct (set_ct_ok h head l a c Hl Ha Hc) as (h' & -> & Hl' & Hcts).
  exists h'. split_and!; try done. unfold cores. rewrite Hcts, fmap_insert. apply insert_id.
  rewrite lookup_fmap, cts_lookup, Hn. cbn. by rewrite E.
Qed.

Lemma put_ucontact_key_ok ok h head l a k v :
  list_ok h head l → a ∈ l → (∀ i, ok i = true) →
  ∃ h', put_ucontact_key ok h a k v = Some (h', true) ∧ list_ok h' head l ∧ cores h' = cores h.
Proof.
  intros Hl Ha Hok. destruct (list_ok_lookup h head l a Hl Ha) as (n & Hn & (m & Em & Hm) & _).
  unfold put_ucontact_key. rewrite Hn. cbn [mbind option_bind]. rewrite Em. cbn [mbind option_bind].
  destruct (kv_put_full ok m k v Hok Hm) as (m' & -> & Hm').
  destruct (set_ct_core h head l a (set_kv (Some m') (n_ct n))) as (h' & -> & Hl' & Hc); try done.
  - by exists m'.
  - by exists n.
  - cbn. eauto.
Qed.

Section stores.
Context {TX : ul_text} {DB : sql_api}.

Lemma find_store_ok h head l l1 l2 fuel :
  list_ok h head l → l = l1 ++ l2 → (length l2 < fuel)%nat →
  ∃ o, find_store fuel h (hd_or 0 l2) = Some o ∧ (∀ a, o = Some a → a ∈ l).
Proof.
  intros Hl. revert l1 fuel. induction l2 as [|a l2 IH]; intros l1 fuel E Hf;
    (destruct fuel as [|fuel]; [cbn in Hf; lia|]); cbn [find_store hd_or].
  - exists None. by rewrite Z.eqb_refl.
  - destruct (list_ok_lookup h head l a Hl) as (n & Hn & (m & Em & Hm) & Ha0); [set_solver|].
    rewrite (proj2 (Z.eqb_neq a 0)) by done. rewrite Hn. cbn [mbind option_bind].
    rewrite Em. cbn [mbind option_bind]. destruct (m !! urec_store_key).
    + exists (Some a). split; [done|]. intros b [= <-]. set_solver.
    + assert (n_next n = hd_or 0 l2) as ->.
      { destruct Hl as ((_ & _ & _ & Hs) & _). rewrite E in Hs. apply ct_seg_app in Hs as [_ [[c Hc] _]].
        rewrite Hc in Hn. by injection Hn as <-. }
      apply (IH (l1 ++ [a])); [by rewrite <- app_assoc|cbn in Hf; lia].
Qed.

Lemma persist_ok ok h (r : urecord) l m :
  list_ok h (r_contacts r) l → r_kv_storage r = Some m → (∀ i, ok i = true) →
  ∃ h' b, persist_urecord_kv_store ok h r = Some (h', b) ∧ list_ok h' (r_contacts r) l
    ∧ cores h' = cores h.
Proof.
  intros Hl Hm Hok. unfold persist_urecord_kv_store. destruct (Z.eqb_spec (r_contacts r) 0); [eauto|].
  rewrite Hm. cbn [mbind option_bind]. destruct (decide (m = ∅)); [eauto|].
  destruct (nonempty _) as [p|]; [|eauto].
  pose proof Hl as (Hil & _). pose proof Hil as (Eh & _).
  destruct (find_store_ok h _ l [] l (S (size h)) Hl eq_refl) as (o & E & Ho).
  { pose proof (list_fits h _ l Hil). lia. }
  rewrite <- Eh in E. rewrite E. cbn [mbind option_bind].
  destruct (put_ucontact_key_ok ok h (r_contacts r) l (default (r_contacts r) o) urec_store_key
    (StrVal (Some p)) Hl) as (h' & -> & Hl' & Hc); [|done|eauto].
  destruct o as [a|]; cbn; [by apply Ho|]. rewrite Eh in *. destruct l; [done|]. by left.
Qed.
End stores.

(** ** The invariant and the operations in memory *)

Section invariant.
Context {TX : ul_text} {TXok : ul_text_ok} {DB : sql_api}.
Variable cfg : ul_cfg.
Hypothesis Hmem : have_mem_storage cfg = true.

Definition ul_inv (w : ul_world) (r : urecord) (l : list Z) : Prop :=
  list_ok (w_heap w) (r_contacts r) l ∧ dom (w_heap w) = list_to_set l
  ∧ NoDup (pending_refreshes w) ∧ pending_refreshes w ⊆ l
  ∧ stat_contacts w = Z.of_nat (length l) ∧ r_slot r = true ∧ is_Some (r_kv_storage r).

(** A contact of the list. *)
Lemma at_contact w r l1 a l2 :
  ul_inv w r (l1 ++ a :: l2) →
  ∃ n, w_heap w !! a = Some n ∧ n_next n = hd_or 0 l2 ∧ (a =? 0) = false ∧ a ∉ l1 ∧ a ∉ l2
    ∧ cores (w_heap w) !! a = Some (core (n_ct n)) ∧ kv_ok (n_ct n).
Proof.
  intros (Hl & _). destruct (list_ok_lookup _ _ _ a Hl) as (n & Hn & Hkv & Ha0); [apply elem_of_app; right; by left|].
  destruct Hl as ((_ & Hnd & _ & Hs) & _). apply nodup_middle in Hnd as (H1 & H2 & _).
  apply ct_seg_app in Hs as [_ [[c Hc] _]]. exists n. split_and!; try done.
  - rewrite Hc in Hn. by injection Hn as <-.
  - by apply Z.eqb_neq.
  - by rewrite cores_lookup, Hn.
Qed.

(** The store of the record moves to the first contact when the contact [n] is removed. *)
Lemma move_store_ok ok h head l (n : ct_node) :
  list_ok h head l → kv_ok (n_ct n) → (∀ i, ok i = true) →
  ∃ h',
    (if decide (sql_wmode cfg = SQL_NO_WRITE) then Some h
     else kv ← c_kv_storage (n_ct n);
       match kv !! urec_store_key with
       | Some rstore =>
           if head =? 0 then Some h
           else v ← rstore; '(h, _) ← put_ucontact_key ok h head urec_store_key v; Some h
       | None => Some h
       end) = Some h'
    ∧ list_ok h' head l ∧ cores h' = cores h.
Proof.
  intros Hl (m & Em & Hm) Hok. case_decide; [eauto|]. rewrite Em. cbn [mbind option_bind].
  destruct (m !! urec_store_key) as [[v|]|] eqn:Ek; [|by apply Hm in Ek|eauto].
  destruct (Z.eqb_spec head 0); [eauto|]. cbn [mbind option_bind].
  destruct (put_ucontact_key_ok ok h head l head urec_store_key v Hl) as (h' & -> & Hl' & Hc);
    [|done|by eauto].
  destruct Hl as ((Eh & _) & _). destruct l; [done|]. rewrite Eh. by left.
Qed.

(** [mem_delete_ucontact] takes the contact out of the list and frees it. *)
Lemma mem_delete_ok ok w r l1 a l2 :
  ul_inv w r (l1 ++ a :: l2) → (∀ i, ok i = true) →
  ∃ h' head',
    mem_delete_ucontact cfg ok w r a
    = Some (UlWorld h' (filter (λ x, x ≠ a) (pending_refreshes w)) (ul_dbh w) (cid_vals w)
              (stat_contacts w + -1) (stat_expires w) (ul_trace w ++ [Event_delete a]),
            wr_contacts r head')
    ∧ list_ok h' head' (l1 ++ l2) ∧ cores h' = delete a (cores (w_heap w)).
Proof.
  intros (Hl & _ & _ & _ & _ & Hslot & _) Hok.
  destruct (list_ok_lookup _ _ _ a Hl) as (n & Hn & Hkvn & Ha0); [set_solver|].
  pose proof Hl as (Hil & Hkv).
  unfold mem_delete_ucontact, mem_remove_ucontact. cbn [w_heap wr_refreshes stop_refresh_timer].
  rewrite Hn. cbn [mbind option_bind].
  destruct (unlink_contact_ok _ _ l1 a l2 Hil) as (h1 & head1 & -> & Hl1 & Hc1 & Ha1).
  cbn [mbind option_bind].
  destruct (move_store_ok ok h1 head1 (l1 ++ l2) n) as (h2 & -> & [Hl2 Hkv2] & Hc2); [|done..|].
  { split; [done|by rewrite Hc1]. }
  cbn [mbind option_bind r_slot wr_contacts]. rewrite Hslot.
  eexists _, head1. split; [reflexivity|]. split; [split|].
  - destruct Hl2 as (? & ? & ? & ?). split_and!; try done. apply seg_delete; [|done].
    destruct Hil as (_ & Hnd & _). apply nodup_middle in Hnd. set_solver.
  - unfold cts. cbn [w_heap]. rewrite fmap_delete. by apply map_Forall_delete.
  - unfold cores, cts in *. cbn [w_heap]. rewrite !fmap_delete. f_equal.
    etransitivity; [exact Hc2|]. by rewrite Hc1.
Qed.

Lemma ul_inv_delete w r l1 a l2 h' head' d cids tr ex :
  ul_inv w r (l1 ++ a :: l2) → list_ok h' head' (l1 ++ l2) →
  cores h' = delete a (cores (w_heap w)) →
  ul_inv (UlWorld h' (filter (λ x, x ≠ a) (pending_refreshes w)) d cids
            (stat_contacts w + -1) ex tr) (wr_contacts r head') (l1 ++ l2).
Proof.
  intros (Hl & Hd & Hnd & Hsub & Hst & Hslot & Hkv) Hl' Hc. pose proof Hl as ((_ & Hndl & _) & _).
  apply nodup_middle in Hndl as (Ha1 & Ha2 & _ & _).
  split_and!; cbn; try done.
  - rewrite <- (cores_dom h'), Hc, dom_delete_L, cores_dom, Hd. set_solver.
  - by apply NoDup_filter.
  - intros x Hx. apply list_elem_of_filter in Hx as [Hx Hp]. apply Hsub in Hp. set_solver.
  - rewrite Hst, !length_app. cbn. lia.
Qed.

(** ** The refresh list *)

Lemma refresh_insert_ok h t a p :
  (∀ x, x ∈ p → is_Some (h !! x)) → ∃ p', refresh_insert h t a p = Some p' ∧ p' ≡ₚ a :: p.
Proof.
  induction p as [|x p IH]; intros Hin; cbn [refresh_insert]; [eauto|].
  destruct (Hin x) as [n ->]; [by left|]. cbn [mbind option_bind].
  destruct (t <? _); [eauto|]. destruct IH as (p' & -> & Hp); [intros; apply Hin; by right|].
  cbn. eexists. split; [done|]. rewrite Hp. apply Permutation_swap.
Qed.

Lemma start_refresh_ok w a l :
  dom (w_heap w) = list_to_set l → a ∈ l → NoDup (pending_refreshes w) → pending_refreshes w ⊆ l →
  ∃ p', start_refresh_timer cfg w a = Some (wr_refreshes w p') ∧ NoDup p' ∧ p' ⊆ l.
Proof.
  intros Hd Ha Hnd Hsub. unfold start_refresh_timer. rewrite Hmem. cbn [negb].
  assert (Hin : ∀ x, x ∈ l → is_Some (w_heap w !! x)).
  { intros x Hx. apply elem_of_dom. rewrite Hd. by apply elem_of_list_to_set. }
  destruct (Hin a Ha) as [n Hn]. rewrite Hn. cbn [mbind option_bind].
  destruct (refresh_insert_ok (w_heap w) (c_refresh_time (n_ct n)) a
    (filter (λ x, x ≠ a) (pending_refreshes w))) as (p' & -> & Hp).
  { intros x Hx. apply Hin, Hsub. by apply list_elem_of_filter in Hx as [_ Hx]. }
  cbn. eexists. split; [done|]. rewrite Hp. split.
  - apply NoDup_cons. split; [|by apply NoDup_filter]. intros Hx. by apply list_elem_of_filter in Hx as [? _].
  - intros x Hx. apply elem_of_cons in Hx as [->|Hx]; [done|].
    apply Hsub. by apply list_elem_of_filter in Hx as [_ Hx].
Qed.

(** ** Insertion *)

Lemma new_shtag_ok ok shtag m : (∀ i, ok i = true) → kv_full m →
  ∃ t m', new_shtag cfg ok shtag (Some m) = Some (Some (t, Some m')) ∧ kv_full m'.
Proof.
  intros Hok Hm. unfold new_shtag. rewrite Hok, Hmem. cbn [negb mbind option_bind].
  destruct shtag as [t|].
  - destruct (kv_put_full (λ i, ok (S i)) m ul_shtag_key (StrVal (Some t))) as (m' & -> & Hm');
      [by intros; apply Hok|done|]. eauto.
  - destruct (kv_get m ul_shtag_key); eauto.
Qed.

Lemma new_ucontact_ok ok dm aor contact ci now :
  (∀ i, (10 ≤ i)%nat → ok i = true) →
  ∃ o, new_ucontact cfg ok dm aor contact ci now = Some o
    ∧ ∀ c, o = Some c → kv_ok c ∧ c_state c = CS_NEW ∧ contact_id c = ci_contact_id ci
        ∧ c_aor c = aor ∧ c_flags c = ci_flags ci ∧ c_q c = ci_q ci ∧ c_expires c = ci_expires ci
        ∧ c_c c = contact ∧ c_refresh_time c = ci_refresh_time ci.
Proof.
  intros Hok. unfold new_ucontact. rewrite Hmem.
  destruct (negb (ok 0%nat) || _); [by exists None|].
  destruct (parse_uri 1 contact); [|by exists None].
  destruct (negb _); [by exists None|].
  set (m := match nonempty (ci_packed_kv_storage ci) with Some p => _ | None => _ end).
  assert (Hm : kv_full m).
  { unfold m. destruct (nonempty _); [apply store_deserialize_full|]. intros k. by rewrite lookup_empty. }
  destruct (new_shtag_ok (λ i, ok (10 + i)%nat) (ci_shtag ci) m) as (t & m' & -> & Hm'); [|done|].
  { intros. apply Hok. lia. }
  cbn [mbind option_bind]. destruct (compute_next_hop _ _ _); [|by exists None].
  eexists. split; [done|]. intros c [= <-]. split_and!; try done. by exists m'.
Qed.

Lemma restore_ok ok r kv : kv_full kv → ok = true → is_Some (r_kv_storage r) →
  ∃ m, restore_urecord_kv_store ok r kv = Some (wr_rkv r (Some m)).
Proof.
  intros Hkv -> [m Hm]. unfold restore_urecord_kv_store.
  destruct (kv !! urec_store_key) as [[v|]|] eqn:E; [eauto|by apply Hkv in E|].
  exists m. rewrite <- Hm. by destruct r.
Qed.

Lemma list_ok_alloc h head l a c :
  list_ok h head l → a ∉ l → kv_ok c →
  is_list (<[a := CtNode 0 0 c]> h) head l ∧ heap_kv (cts (<[a := CtNode 0 0 c]> h)).
Proof.
  intros ((-> & Hnd & H0 & Hs) & Hkv) Ha Hc. split.
  - split_and!; try done. by apply seg_insert.
  - rewrite cts_insert. by apply map_Forall_insert_2.
Qed.

(** [mem_insert_ucontact] fails and changes nothing, or it adds the new contact. *)
Lemma mem_insert_ok ok w r l a contact ci now :
  ul_inv w r l → a ∉ l → a ≠ 0 → (∀ i, (10 ≤ i)%nat → ok i = true) →
  mem_insert_ucontact cfg ok w r a contact ci now = Some (w, r, 0) ∨
  ∃ c h' p' m head',
    new_ucontact cfg ok (r_domain r) (r_aor r) contact ci now = Some (Some c)
    ∧ mem_insert_ucontact cfg ok w r a contact ci now
      = Some (UlWorld h' p' (ul_dbh w) (cid_vals w) (stat_contacts w + 1) (stat_expires w)
                (ul_trace w ++ [Event_insert a]), wr_contacts (wr_rkv r (Some m)) head', a)
    ∧ cores h' = <[a := core c]> (cores (w_heap w))
    ∧ ul_inv (UlWorld h' p' (ul_dbh w) (cid_vals w) (stat_contacts w + 1) (stat_expires w)
                (ul_trace w ++ [Event_insert a])) (wr_contacts (wr_rkv r (Some m)) head')
        (place_new cfg (q_of (cores h')) a l).
Proof.
  intros (Hl & Hd & Hnd & Hsub & Hst & Hslot & Hrkv) Hal Ha0 Hok. unfold mem_insert_ucontact.
  destruct (new_ucontact_ok ok (r_domain r) (r_aor r) contact ci now Hok) as ([c|] & En & Hnew);
    rewrite En; cbn [mbind option_bind]; [|by left]. right.
  destruct (Hnew c eq_refl) as ((m & Em & Hm) & _).
  destruct (list_ok_alloc (w_heap w) (r_contacts r) l a c Hl Hal) as [Hl1 Hkv1]; [by exists m|].
  set (h1 := <[a := CtNode 0 0 c]> (w_heap w)) in *.
  assert (Hd1 : dom h1 = list_to_set (a :: l)) by (unfold h1; rewrite dom_insert_L, Hd; done).
  assert (Href : ∃ p', (if c_refresh_time c =? 0 then Some (wr_heap w h1)
    else start_refresh_timer cfg (wr_heap w h1) a) = Some (wr_refreshes (wr_heap w h1) p')
    ∧ NoDup p' ∧ p' ⊆ a :: l).
  { destruct (c_refresh_time c =? 0).
    - exists (pending_refreshes w). split_and!; [by destruct w|done|]. set_solver.
    - apply start_refresh_ok; [done|by left|done|]. cbn. set_solver. }
  destruct Href as (p' & -> & Hndp & Hsubp). cbn [mbind option_bind].
  rewrite Hslot, Em. destruct (restore_ok (ok 20%nat) r m Hm) as (m' & ->); [apply Hok; lia|done|].
  cbn [mbind option_bind]. cbn [w_heap wr_refreshes wr_heap add_contacts r_contacts wr_rkv].
  destruct (insert_contact_ok cfg h1 (r_contacts r) l a c) as (h' & head' & -> & Hl' & Hc'); [done..| |].
  { unfold h1. by rewrite lookup_insert_eq. }
  assert (Hcores : cores h' = <[a := core c]> (cores (w_heap w))).
  { unfold cores. rewrite Hc'. unfold h1. by rewrite cts_insert, fmap_insert. }
  cbn [mbind option_bind]. exists c, h', p', m', head'. split; [done|]. split; [done|]. split; [done|].
  assert (Eq : place_new cfg (q_of (cores h')) a l = place_new cfg (q_of (cts h1)) a l).
  { unfold place_new. rewrite q_of_cores, Hc'. destruct (desc_time_order cfg); [done|].
    erewrite split_at_ext; [done|]. intros b. by rewrite q_of_cores, Hc'. }
  rewrite Eq. pose proof (place_new_perm cfg (q_of (cts h1)) a l) as Hp.
  split_and!; cbn; try done.
  - split; [done|]. by rewrite Hc'.
  - by rewrite <- (cores_dom h'), Hcores, dom_insert_L, cores_dom, Hd, (list_to_set_perm_L _ _ Hp).
  - intros x Hx. rewrite Hp. by apply Hsubp.
  - rewrite Hp, Hst. cbn. lia.
Qed.

(** ** Update *)

Lemma update_str_ok old new : ∃ t, update_str true old new = Some t.
Proof. unfold update_str. destruct (_ <? _)%nat; eauto. Qed.

(** What an update leaves of a contact; its address is replaced when the request has one. *)
Definition same_contact (ci : ucontact_info) (c c' : ucontact) : Prop :=
  contact_id c' = contact_id c ∧ c_aor c' = c_aor c ∧ c_domain c' = c_domain c
  ∧ c_instance c' = c_instance c ∧ c_state c' = c_state c ∧ c_c c' = default (c_c c) (ci_c ci).

Lemma update_texts_ok ok c ci : (∀ i, ok i = true) →
  ∃ callid ua received path attr,
    update_texts ok c ci = (set_texts callid ua (default (c_c c) (ci_c ci)) received path attr c, true).
Proof.
  intros Hok. unfold update_texts. rewrite !Hok.
  destruct (update_str_ok (Some (c_callid c)) (ci_callid ci)) as [t0 ->].
  destruct (update_str_ok (Some (c_user_agent c)) (ci_user_agent ci)) as [t1 ->].
  assert (E2 : (match ci_c ci with Some t => update_str true (Some (c_c c)) t
                | None => Some (Some (c_c c)) end) = Some (Some (default (c_c c) (ci_c ci))))
    by (destruct (ci_c ci); [|done]; unfold update_str; by destruct (_ <? _)%nat).
  rewrite E2. cbn [default].
  assert (E3 : ∃ t, (match nonempty (ci_received ci) with Some t => update_str true (c_received c) t
                     | None => Some None end) = Some t)
    by (destruct (nonempty _); [apply update_str_ok|eauto]).
  destruct E3 as [t3 ->].
  assert (E4 : ∃ t, (match ci_path ci with Some t => update_str true (c_path c) t
                     | None => Some None end) = Some t)
    by (destruct (ci_path ci); [apply update_str_ok|eauto]).
  destruct E4 as [t4 ->].
  assert (E5 : ∃ t, (match nonempty (ci_attr ci) with Some t => update_str true (c_attr c) t
                     | None => Some None end) = Some t)
    by (destruct (nonempty _); [apply update_str_ok|eauto]).
  destruct E5 as [t5 ->]. eauto 10.
Qed.

Lemma update_shtag_ok ok shtag c : (∀ i, ok i = true) → kv_ok c →
  ∃ t m, update_shtag cfg ok shtag c = Some (set_kv (Some m) (set_shtag t c), true) ∧ kv_full m.
Proof.
  intros Hok (m & Em & Hm). unfold update_shtag. rewrite Hok, Hmem, Em. destruct shtag as [t|].
  - destruct (update_str_ok (c_shtag c) t) as [t' ->]. cbn [mbind option_bind].
    destruct (kv_put_full (λ i, ok (S i)) m ul_shtag_key (StrVal (Some t))) as (m' & -> & Hm');
      [by intros; apply Hok|done|]. eauto.
  - cbn [mbind option_bind]. destruct (kv_get m ul_shtag_key) as [v|].
    + destruct (update_str_ok (c_shtag c) (match v with StrVal s => default [] s | IntVal _ => [] end)) as [t' ->].
      exists t', m. split; [|done]. rewrite <- Em. by destruct c.
    + eexists _, _. split; [done|]. intros k Hk. unfold kv_del in Hk.
      apply lookup_delete_Some in Hk as [_ Hk]. by apply (Hm k).
Qed.

Lemma mem_update_ok ok c ci now : (∀ i, ok i = true) → kv_ok c →
  ∃ c', mem_update_ucontact cfg ok c ci now = Some (c', true) ∧ kv_ok c' ∧ same_contact ci c c'
    ∧ c_flags c' = ci_flags ci ∧ c_q c' = ci_q ci ∧ c_expires c' = ci_expires ci
    ∧ c_refresh_time c' = ci_refresh_time ci.
Proof.
  intros Hok Hkv. unfold mem_update_ucontact.
  destruct (update_texts_ok ok c ci Hok) as (t0 & t1 & t3 & t4 & t5 & ->). cbn [negb].
  set (c1 := set_info ci now _).
  assert (H1 : ∃ m, (match nonempty (ci_packed_kv_storage ci) with
    | Some p => if have_mem_storage cfg
                then if ok 6%nat then (set_kv (Some (store_deserialize p)) c1, true)
                     else (set_kv None c1, false)
                else (c1, true)
    | None => (c1, true) end) = (set_kv (Some m) c1, true) ∧ kv_full m).
  { rewrite Hmem, Hok. destruct (nonempty _) as [p|].
    - eexists. split; [done|]. apply store_deserialize_full.
    - destruct Hkv as (m & Em & Hm). exists m. split; [|done]. rewrite <- Em. done. }
  destruct H1 as (m & -> & Hm). cbn [negb].
  destruct (update_shtag_ok (λ i, ok (7 + i)%nat) (ci_shtag ci) (set_kv (Some m) c1)) as (t & m' & -> & Hm');
    [by intros; apply Hok|by exists m|].
  cbn [mbind option_bind negb]. eexists. split; [reflexivity|].
  destruct (compute_next_hop _ _ _); split_and!; try done; by exists m'.
Qed.
End invariant.
