(* ===== verification/UlSync.v ===== *)
(** * UlSync: the contacts of a record and the rows of the database

    What the SQL driver must do, the relation between the state of a contact and its row,
    and the pass of the timer over the contacts of a record. *)

From stdpp Require Import prelude list strings gmap.
From Stdlib Require Import ZArith Lia.
From S2P Require Import Prelude CString UriParser UriOps UlContact UlRecord UlFacts.

(** ** The order by time *)

(** The contacts by the time of their last registration, as the events tell. *)
Definition recent (l : list Z) (e : ul_event) : list Z :=
  match e with
  | Event_insert a => a :: l
  | Event_update a => a :: filter (λ x, x ≠ a) l
  | Event_delete a => filter (λ x, x ≠ a) l
  | _ => l
  end.
Definition recency (tr : list ul_event) : list Z := fold_left recent tr [].

Lemma recency_snoc tr e : recency (tr ++ [e]) = recent (recency tr) e.
Proof. unfold recency. by rewrite fold_left_app. Qed.

Lemma filter_ne (l : list Z) a : a ∉ l → filter (λ x, x ≠ a) l = l.
Proof.
  induction l as [|x l IH]; intros Ha; [done|]. rewrite filter_cons_True by set_solver.
  by rewrite IH by set_solver.
Qed.

Lemma filter_middle (l1 l2 : list Z) a :
  a ∉ l1 → a ∉ l2 → filter (λ x, x ≠ a) (l1 ++ a :: l2) = l1 ++ l2.
Proof.
  intros H1 H2. rewrite filter_app, filter_cons_False by (by intros []). by rewrite !filter_ne.
Qed.

(** ** The driver *)

(** The rows of the table by identifier: a call that succeeds does what it says, a call that
    fails changes nothing. *)
Class sql_laws {DB : sql_api} := {
  sql_rows : sql → gmap Z ul_row;
  sql_use_table_rows d t : sql_rows (sql_use_table d t).1 = sql_rows d;
  sql_insert_rows d b id row :
    sql_rows (sql_insert d b (Some id) row).1
    = if (sql_insert d b (Some id) row).2 then <[id := row]> (sql_rows d) else sql_rows d;
  sql_update_rows d id row :
    sql_rows (sql_update d id row).1
    = if (sql_update d id row).2 then alter (update_columns row) id (sql_rows d) else sql_rows d;
  sql_delete_rows d ids :
    sql_rows (sql_delete d ids).1
    = if (sql_delete d ids).2 then filter (λ kv, kv.1 ∉ ids) (sql_rows d) else sql_rows d;
}.

(** The calls succeed; an insertion only of a new identifier. *)
Class sql_reliable {DB : sql_api} {L : sql_laws} : Prop := {
  use_table_succeeds d t : (sql_use_table d t).2 = true;
  insert_succeeds d b id row : sql_rows d !! id = None → (sql_insert d b (Some id) row).2 = true;
  update_succeeds d id row : (sql_update d id row).2 = true;
  delete_succeeds d ids : (sql_delete d ids).2 = true;
}.

(** The columns that an update does not write, and the row without the store of keys. *)
Definition fixed_columns (row : ul_row) := (col_user row, col_domain row, col_contact row, col_instance row).
Definition erase_row (row : ul_row) : ul_row :=
  UlRow (col_user row) (col_domain row) (col_contact row) (col_instance row)
    (col_expires row) (col_q row) (col_cseq row) (col_flags row) (col_cflags row)
    (col_user_agent row) (col_received row) (col_path row) (col_sock row) (col_methods row)
    (col_last_mod row) None (col_attr row) (col_callid row).

Lemma delete_rows_ne (rows : gmap Z ul_row) (ids : list Z) id :
  id ∉ ids → filter (λ kv, kv.1 ∉ ids) rows !! id = rows !! id.
Proof.
  intros Hn. apply option_eq. intros row. rewrite map_lookup_filter_Some. cbn. tauto.
Qed.

Section sync.
Context {TX : ul_text} {TXok : ul_text_ok} {DB : sql_api} {L : sql_laws}.
Variable cfg : ul_cfg.
Hypothesis Hmem : have_mem_storage cfg = true.

(** ** The functions on the database *)

Lemma not_sql_only : cluster_mode cfg ≠ CM_SQL_ONLY.
Proof. intros E. unfold have_mem_storage in Hmem. by rewrite E in Hmem. Qed.

Lemma db_insert_rows d c buf :
  let '(d', done) := db_insert_ucontact cfg d c buf false in
  sql_rows d' = (if done && negb (mem_only c)
                 then <[contact_id c := contact_row cfg c]> (sql_rows d) else sql_rows d)
  ∧ (sql_reliable → (mem_only c = false → sql_rows d !! contact_id c = None) → done = true).
Proof.
  unfold db_insert_ucontact. destruct (mem_only c); [by split|].
  rewrite decide_False by apply not_sql_only.
  pose proof (sql_use_table_rows d (c_domain c)) as Et.
  destruct (sql_use_table d (c_domain c)) as [d1 used] eqn:E1. cbn in Et.
  destruct used; cbn [negb].
  - pose proof (sql_insert_rows d1 buf (contact_id c) (contact_row cfg c)) as Ei.
    destruct (sql_insert d1 _ _ _) as [d2 done] eqn:E2. cbn in Ei. rewrite andb_true_r, <- Et. split; [done|].
    intros R Hn. pose proof (insert_succeeds d1 buf (contact_id c) (contact_row cfg c)) as Hs.
    rewrite E2 in Hs. apply Hs. by apply Hn.
  - split; [done|]. intros R _. pose proof (use_table_succeeds d (c_domain c)) as Hs. by rewrite E1 in Hs.
Qed.

Lemma db_update_rows d c :
  let '(d', done) := db_update_ucontact cfg d c in
  sql_rows d' = (if done && negb (mem_only c)
                 then alter (update_columns (contact_row cfg c)) (contact_id c) (sql_rows d)
                 else sql_rows d)
  ∧ (sql_reliable → done = true).
Proof.
  unfold db_update_ucontact. destruct (mem_only c); [by split|].
  pose proof (sql_use_table_rows d (c_domain c)) as Et.
  destruct (sql_use_table d (c_domain c)) as [d1 used] eqn:E1. cbn in Et.
  destruct used; cbn [negb].
  - pose proof (sql_update_rows d1 (contact_id c) (contact_row cfg c)) as Ei.
    destruct (sql_update d1 _ _) as [d2 done] eqn:E2. cbn in Ei. rewrite andb_true_r, <- Et. split; [done|].
    intros R. pose proof (update_succeeds d1 (contact_id c) (contact_row cfg c)) as Hs. by rewrite E2 in Hs.
  - split; [done|]. intros R. pose proof (use_table_succeeds d (c_domain c)) as Hs. by rewrite E1 in Hs.
Qed.

Lemma db_multiple_delete_rows d dm ids :
  let '(d', done) := db_multiple_ucontact_delete d dm ids in
  sql_rows d' = (if done then filter (λ kv, kv.1 ∉ ids) (sql_rows d) else sql_rows d)
  ∧ (sql_reliable → done = true).
Proof.
  unfold db_multiple_ucontact_delete.
  pose proof (sql_use_table_rows d dm) as Et.
  destruct (sql_use_table d dm) as [d1 used] eqn:E1. cbn in Et.
  destruct used; cbn [negb].
  - pose proof (sql_delete_rows d1 ids) as Ei.
    destruct (sql_delete d1 ids) as [d2 done] eqn:E2. cbn in Ei. rewrite <- Et. split; [done|].
    intros R. pose proof (delete_succeeds d1 ids) as Hs. by rewrite E2 in Hs.
  - split; [done|]. intros R. pose proof (use_table_succeeds d dm) as Hs. by rewrite E1 in Hs.
Qed.

Lemma db_delete_rows d c :
  let '(d', done) := db_delete_ucontact d c in
  sql_rows d' = (if done && negb (mem_only c)
                 then filter (λ kv, kv.1 ∉ [contact_id c]) (sql_rows d) else sql_rows d)
  ∧ (sql_reliable → done = true).
Proof.
  unfold db_delete_ucontact. destruct (mem_only c); [by split|].
  pose proof (db_multiple_delete_rows d (c_domain c) [contact_id c]) as E.
  unfold db_multiple_ucontact_delete in E.
  destruct (sql_use_table d (c_domain c)) as [d1 []]; cbn [negb] in *; [|done].
  destruct (sql_delete d1 _) as [d2 done]. by rewrite andb_true_r.
Qed.

(** ** States and rows *)

(** A new contact has no row; a synchronised one has the row of its members, up to the store of
    keys (unless it only waits for its removal, when its expiry is not the one of the row), a
    modified one has a row with its user, domain, address and instance. *)
Definition st_ok (rows : gmap Z ul_row) (c : ucontact) : Prop :=
  match c_state c with
  | CS_NEW => rows !! contact_id c = None
  | CS_SYNC =>
      ∃ row, rows !! contact_id c = Some row
        ∧ fixed_columns row = fixed_columns (contact_row cfg c)
        ∧ (FORCE_EXPIRED_CONTACT c = false → erase_row row = erase_row (contact_row cfg c))
  | CS_DIRTY =>
      ∃ row, rows !! contact_id c = Some row
        ∧ fixed_columns row = fixed_columns (contact_row cfg c)
  end.

(** The identifiers tell the contacts apart, the states of the contacts tell their rows, and
    the identifiers that wait for their deletion are not of contacts. *)
Definition db_inv (m : gmap Z ucontact) (rows : gmap Z ul_row) (cids : list Z) : Prop :=
  (∀ a b c d, m !! a = Some c → m !! b = Some d → contact_id c = contact_id d → a = b)
  ∧ ∀ a c, m !! a = Some c → mem_only c = false → st_ok rows c ∧ contact_id c ∉ cids.

(** Every row is of a contact in memory or waits for its deletion. *)
Definition no_stuck (m : gmap Z ucontact) (rows : gmap Z ul_row) (cids : list Z) : Prop :=
  ∀ id, is_Some (rows !! id) →
    id ∈ cids ∨ ∃ a c, m !! a = Some c ∧ contact_id c = id ∧ mem_only c = false.

Lemma st_ok_rows rows rows' c :
  rows' !! contact_id c = rows !! contact_id c → st_ok rows c → st_ok rows' c.
Proof. unfold st_ok. by intros ->. Qed.

(** A contact changes, and at most its row with it. *)
Lemma db_inv_change m rows rows' cids a c c' :
  db_inv m rows cids → m !! a = Some c → contact_id c' = contact_id c →
  mem_only c' = mem_only c →
  (∀ id, id ≠ contact_id c → rows' !! id = rows !! id) →
  (mem_only c = false → st_ok rows' c') →
  db_inv (<[a := c']> m) rows' cids.
Proof.
  intros [Hinj Hst] Ha Eid Emem Hrows Hc'. split.
  - intros x y cx cy Hx Hy E. destruct (decide (x = a)) as [->|Hxa], (decide (y = a)) as [->|Hya];
      rewrite ?lookup_insert_eq, ?lookup_insert_ne in Hx by done;
      rewrite ?lookup_insert_eq, ?lookup_insert_ne in Hy by done; simplify_eq; [done|..];
      eapply Hinj; eauto; congruence.
  - intros x cx Hx Hm. destruct (decide (x = a)) as [->|Hxa].
    + rewrite lookup_insert_eq in Hx. injection Hx as <-. rewrite Eid. split; [apply Hc'; congruence|].
      destruct (Hst a c Ha); [congruence|done].
    + rewrite lookup_insert_ne in Hx by done. destruct (Hst x cx Hx Hm) as [Hs Hn]. split; [|done].
      eapply st_ok_rows; [|exact Hs]. apply Hrows. intros E. apply Hxa. by eapply Hinj.
Qed.

(** A contact goes, with its identifier among the ones to delete or its row deleted; the
    identifiers of the others stay. *)
Lemma db_inv_delete m rows rows' cids cids' a c :
  db_inv m rows cids → m !! a = Some c →
  (∀ id, id ≠ contact_id c → id ∉ cids → rows' !! id = rows !! id) →
  (∀ id, id ∈ cids' → id ∈ cids ∨ id = contact_id c) →
  db_inv (delete a m) rows' cids'.
Proof.
  intros [Hinj Hst] Ha Hrows Hcids. split.
  - intros x y cx cy [_ Hx]%lookup_delete_Some [_ Hy]%lookup_delete_Some. by apply Hinj.
  - intros x cx [Hxa Hx]%lookup_delete_Some Hm. destruct (Hst x cx Hx Hm) as [Hs Hn].
    assert (contact_id cx ≠ contact_id c) by (intros E; apply Hxa; symmetry; by eapply Hinj).
    split; [by eapply st_ok_rows; [apply Hrows|]|]. intros Hi. by apply Hcids in Hi as [?|?].
Qed.

(** ** Writing a valid contact *)

Lemma erase_update new old :
  fixed_columns old = fixed_columns new → erase_row (update_columns new old) = erase_row new.
Proof. unfold fixed_columns. intros [= Eu Ed Ec Ei]. unfold erase_row, update_columns. cbn. congruence. Qed.

Lemma flush_state d buf c : let '(_, c', _) := flush_contact cfg d buf c in ∃ s, c' = set_state s c.
Proof.
  unfold flush_contact, st_flush_ucontact. destruct c as [? ? ? ? ? ? ? ? ? ? ? ? ? []];
    cbn [c_state Z.eqb Pos.eqb].
  - destruct (db_insert_ucontact _ _ _ _ _) as [d' []]; [by exists CS_SYNC|by exists CS_NEW].
  - by exists CS_SYNC.
  - destruct (db_update_ucontact _ _ _) as [d' []]; [by exists CS_SYNC|by exists CS_DIRTY].
Qed.

Lemma flush_contact_ok m a c d buf cids :
  db_inv m (sql_rows d) cids → m !! a = Some (core c) →
  let '(d', c', _) := flush_contact cfg d buf c in
  db_inv (<[a := core c']> m) (sql_rows d') cids
  ∧ (∀ id, is_Some (sql_rows d' !! id) →
       is_Some (sql_rows d !! id) ∨ (id = contact_id c ∧ mem_only c = false))
  ∧ (sql_reliable → c_state c' = CS_SYNC).
Proof.
  intros Hinv Ha. pose proof Hinv as [_ Hst].
  assert (Hc : mem_only c = false → st_ok (sql_rows d) c) by (intros Hm; by destruct (Hst a (core c) Ha Hm)).
  unfold flush_contact, st_flush_ucontact. destruct (c_state c) eqn:Es; cbn [Z.eqb Pos.eqb].
  - pose proof (db_insert_rows d (set_state CS_SYNC c) buf) as Hr.
    destruct (db_insert_ucontact _ _ _ _ _) as [d' done]. destruct Hr as [Hr Hrel].
    change (mem_only (set_state CS_SYNC c)) with (mem_only c) in *.
    change (contact_id (set_state CS_SYNC c)) with (contact_id c) in *.
    assert (Hnone : mem_only c = false → sql_rows d !! contact_id c = None)
      by (intros Hm; specialize (Hc Hm); unfold st_ok in Hc; by rewrite Es in Hc).
    split_and!.
    + apply (db_inv_change m (sql_rows d) _ cids a (core c)); try done; [by destruct done|by destruct done|..].
      * intros id Hid. rewrite Hr. destruct (_ && _); [|done]. by rewrite lookup_insert_ne.
      * intros Hm. change (mem_only (core c)) with (mem_only c) in Hm. rewrite Hr, Hm.
        destruct done; cbn [andb negb].
        -- eexists. rewrite lookup_insert_eq. done.
        -- unfold st_ok. cbn. by apply Hnone.
    + intros id. rewrite Hr. destruct (mem_only c) eqn:Em; rewrite ?andb_false_r; [by left|].
      destruct done; cbn; [|by left]. destruct (decide (id = contact_id c)) as [->|]; [by right|].
      rewrite lookup_insert_ne by done. by left.
    + intros R. by rewrite (Hrel R Hnone).
  - split_and!; [rewrite insert_id by done; done|by left|done].
  - pose proof (db_update_rows d (set_state CS_SYNC c)) as Hr.
    destruct (db_update_ucontact _ _ _) as [d' done]. destruct Hr as [Hr Hrel].
    change (mem_only (set_state CS_SYNC c)) with (mem_only c) in *.
    change (contact_id (set_state CS_SYNC c)) with (contact_id c) in *.
    split_and!.
    + apply (db_inv_change m (sql_rows d) _ cids a (core c)); try done; [by destruct done|by destruct done|..].
      * intros id Hid. rewrite Hr. destruct (_ && _); [|done]. by rewrite lookup_alter_ne.
      * intros Hm. change (mem_only (core c)) with (mem_only c) in Hm. rewrite Hr, Hm.
        specialize (Hc Hm). unfold st_ok in Hc. rewrite Es in Hc. destruct Hc as (row & Hrow & Hf).
        destruct done; cbn [andb negb].
        -- eexists. rewrite lookup_alter_eq, Hrow. cbn [fmap option_fmap option_map]. split; [done|].
           split; [done|]. intros _. by apply (erase_update (contact_row cfg c)).
        -- unfold st_ok. cbn. eauto.
    + intros id. rewrite Hr. destruct (_ && _); [|by left]. rewrite lookup_alter_is_Some. by left.
    + intros R. by rewrite (Hrel R).
Qed.

(** ** Deleting the rows of expired contacts *)

Lemma batch_delete_ok (Hsql : rr_persist cfg = RRP_LOAD_FROM_SQL) w dm c :
  let '(w', b) := batch_delete cfg w dm c in
  ∃ d' cids',
    w' = UlWorld (w_heap w) (pending_refreshes w) d' cids' (stat_contacts w) (stat_expires w)
           (ul_trace w)
    ∧ (b = false → sql_rows d' = sql_rows (ul_dbh w) ∧ cids' = [])
    ∧ (∀ id, id ≠ contact_id c → id ∉ cid_vals w → sql_rows d' !! id = sql_rows (ul_dbh w) !! id)
    ∧ (∀ id, id ∈ cids' → id ∈ cid_vals w ∨ id = contact_id c)
    ∧ (b = true → ∀ id, is_Some (sql_rows d' !! id) → id ∉ cids' →
         is_Some (sql_rows (ul_dbh w) !! id) ∧ id ∉ cid_vals w
         ∧ (id = contact_id c → c_state c = CS_NEW ∨ mem_only c = true))
    ∧ (sql_reliable → b = true).
Proof.
  unfold batch_delete. assert (have_sql_con cfg = true) as ->.
  { unfold have_sql_con. by rewrite (bool_decide_eq_true_2 (rr_persist cfg = _)), orb_true_r. }
  cbn [andb]. destruct (st_expired_ucontact c && negb (mem_only c)) eqn:Ec.
  - apply andb_true_iff in Ec as [_ Hm]. case_decide.
    + pose proof (db_multiple_delete_rows (ul_dbh w) dm (cid_vals w ++ [contact_id c])) as Hr.
      destruct (db_multiple_ucontact_delete _ _ _) as [d' b]. destruct Hr as [Hr Hrel].
      exists d', []. split_and!; [done|by intros ->| | | |done].
      * intros id Hid Hn. rewrite Hr. destruct b; [|done]. apply delete_rows_ne. set_solver.
      * intros id Hid. by apply not_elem_of_nil in Hid.
      * intros -> id Hid _. rewrite Hr in Hid. destruct Hid as [row Hid].
        apply map_lookup_filter_Some in Hid as [Hid Hn]. cbn in Hn. split_and!; [by eauto|set_solver|].
        intros ->. set_solver.
    + exists (ul_dbh w), (cid_vals w ++ [contact_id c]). split_and!; try done.
      * set_solver.
      * intros _ id Hid Hn. split_and!; [done|set_solver|]. intros ->. set_solver.
  - exists (ul_dbh w), (cid_vals w). split_and!; [by destruct w|try done..].
    + by left.
    + intros _ id Hid Hn. split_and!; try done. intros _. apply andb_false_iff in Ec as [Ec|Ec].
      * left. unfold st_expired_ucontact in Ec. by destruct (c_state c).
      * right. by apply negb_false_iff.
Qed.

(** ** A pass over the contacts *)

Definition valid_at (m : gmap Z ucontact) (now a : Z) : bool :=
  match m !! a with Some c => VALID_CONTACT c now | None => false end.

(** What is notified for the expired contacts: the callback unless the contact was deleted,
    and the event of its removal. *)
Definition expired_events (m : gmap Z ucontact) (now : Z) (l : list Z) : list ul_event :=
  l ≫= λ a,
    match m !! a with
    | Some c =>
        if VALID_CONTACT c now then []
        else (if FORCE_EXPIRED_CONTACT c then []
              else if exists_ulcb_type cfg UL_CONTACT_EXPIRE then [Callback UL_CONTACT_EXPIRE a]
              else []) ++ [Event_delete a]
    | None => []
    end.

Definition kept_valid (m : gmap Z ucontact) (now : Z) (l : list Z) : list Z :=
  filter (λ a, valid_at m now a = true) l.

Lemma kept_valid_ext m m' now l :
  (∀ a, a ∈ l → m !! a = m' !! a) → kept_valid m now l = kept_valid m' now l.
Proof.
  intros E. unfold kept_valid. induction l as [|a l IH]; [done|]. rewrite !filter_cons.
  assert (valid_at m now a = valid_at m' now a) as ->
    by (unfold valid_at; by rewrite (E a) by (by left)).
  rewrite IH; [done|]. intros b Hb. apply E. by right.
Qed.

Lemma expired_events_ext m m' now l :
  (∀ a, a ∈ l → m !! a = m' !! a) → expired_events m now l = expired_events m' now l.
Proof.
  intros E. unfold expired_events. induction l as [|a l IH]; [done|]. rewrite !bind_cons.
  rewrite (E a) by (by left). f_equal. apply IH. intros b Hb. apply E. by right.
Qed.

(** What a pass did to the contacts [l] of the world [w]: [kept] are left, with the valid
    ones among them, in their order and with their members but the state. *)
Record swept (now : Z) (w w' : ul_world) (l kept : list Z) : Prop := {
  swept_kept a : a ∈ kept →
    ∃ c s, cores (w_heap w) !! a = Some c ∧ cores (w_heap w') !! a = Some (set_state s c);
  swept_valid a : a ∈ l → valid_at (cores (w_heap w)) now a = true → a ∈ kept;
  swept_sublist : kept `sublist_of` l;
  swept_recent :
    recency (ul_trace w') = filter (λ x, x ∉ l ∨ x ∈ kept) (recency (ul_trace w));
}.

Lemma swept_refl now w : swept now w w [] [].
Proof.
  split; [by intros a Ha%not_elem_of_nil|by intros a Ha%not_elem_of_nil|constructor|].
  induction (recency (ul_trace w)) as [|x l IH]; [done|].
  by rewrite filter_cons_True, <- IH by (left; apply not_elem_of_nil).
Qed.

(** The contact at the head is kept, perhaps in another state. *)
Lemma swept_keep now w w1 w' a l kept c s :
  cores (w_heap w) !! a = Some c → a ∉ l →
  cores (w_heap w1) = <[a := set_state s c]> (cores (w_heap w)) →
  cores (w_heap w') !! a = cores (w_heap w1) !! a →
  recency (ul_trace w1) = recency (ul_trace w) →
  swept now w1 w' l kept → swept now w w' (a :: l) (a :: kept).
Proof.
  intros Ha Hal E1 Ea Et [Hk Hva Hsub Hr].
  assert (Ext : ∀ b, b ∈ l → cores (w_heap w1) !! b = cores (w_heap w) !! b).
  { intros b Hb. rewrite E1, lookup_insert_ne; [done|]. by intros <-. }
  split.
  - intros b [->|Hb]%elem_of_cons.
    + exists c, s. split; [done|]. by rewrite Ea, E1, lookup_insert_eq.
    + destruct (Hk b Hb) as (d & t & Hd & Hd'). exists d, t. split; [|done]. rewrite <- Ext; [done|].
      by eapply elem_of_sublist.
  - intros b [->|Hb]%elem_of_cons Hvb; [by left|]. right. apply Hva; [done|]. unfold valid_at in *.
    by rewrite Ext.
  - by constructor.
  - rewrite Hr, Et. apply list_filter_iff. intros x. rewrite not_elem_of_cons, elem_of_cons.
    destruct (decide (x = a)) as [->|]; tauto.
Qed.

(** The contact at the head is gone. *)
Lemma swept_remove now w w1 w' a l kept c :
  cores (w_heap w) !! a = Some c → VALID_CONTACT c now = false → a ∉ l →
  cores (w_heap w1) = delete a (cores (w_heap w)) →
  recency (ul_trace w1) = filter (λ x, x ≠ a) (recency (ul_trace w)) →
  swept now w1 w' l kept → swept now w w' (a :: l) kept.
Proof.
  intros Ha Hv Hal E1 Et [Hk Hva Hsub Hr].
  assert (Ext : ∀ b, b ∈ l → cores (w_heap w1) !! b = cores (w_heap w) !! b).
  { intros b Hb. rewrite E1, lookup_delete_ne; [done|]. by intros <-. }
  assert (Hkl : ∀ b, b ∈ kept → b ∈ l) by (intros b Hb; by eapply elem_of_sublist).
  split.
  - intros b Hb. destruct (Hk b Hb) as (d & t & Hd & Hd'). exists d, t. split; [|done].
    rewrite <- Ext; [done|by apply Hkl].
  - intros b [->|Hb]%elem_of_cons Hvb.
    + unfold valid_at in Hvb. rewrite Ha, Hv in Hvb. done.
    + apply Hva; [done|]. unfold valid_at in *. by rewrite Ext.
  - by constructor.
  - rewrite Hr, Et, list_filter_filter. apply list_filter_iff. intros x. rewrite not_elem_of_cons.
    specialize (Hkl x). destruct (decide (x = a)) as [->|]; tauto.
Qed.

(** The pass of [wb_timer]: when the database does not fail, exactly the valid contacts are
    left, all of them written, with the notifications of the others and no row without a
    contact. *)
Record passed (now : Z) (w w' : ul_world) (l kept : list Z) : Prop := {
  passed_swept : swept now w w' l kept;
  passed_sync : sql_reliable → ∀ a c, a ∈ kept → cores (w_heap w') !! a = Some c → c_state c = CS_SYNC;
  passed_reliable : sql_reliable →
    kept = kept_valid (cores (w_heap w)) now l
    ∧ (no_stuck (cores (w_heap w)) (sql_rows (ul_dbh w)) (cid_vals w) →
       no_stuck (cores (w_heap w')) (sql_rows (ul_dbh w')) (cid_vals w'))
    ∧ ul_trace w' = ul_trace w ++ expired_events (cores (w_heap w)) now l;
}.

(** The contact at the head was written. *)
Lemma passed_write now w w1 w' a l kept c s :
  cores (w_heap w) !! a = Some c → VALID_CONTACT c now = true → a ∉ l →
  cores (w_heap w1) = <[a := set_state s c]> (cores (w_heap w)) →
  (sql_reliable → s = CS_SYNC) →
  cores (w_heap w') !! a = cores (w_heap w1) !! a →
  ul_trace w1 = ul_trace w →
  (no_stuck (cores (w_heap w)) (sql_rows (ul_dbh w)) (cid_vals w) →
   no_stuck (cores (w_heap w1)) (sql_rows (ul_dbh w1)) (cid_vals w1)) →
  passed now w1 w' l kept → passed now w w' (a :: l) (a :: kept).
Proof.
  intros Ha Hv Hal E1 Hs Ea Et Hst [Hsw Hsy Hr].
  assert (Ext : ∀ b, b ∈ l → cores (w_heap w1) !! b = cores (w_heap w) !! b).
  { intros b Hb. rewrite E1, lookup_insert_ne; [done|]. by intros <-. }
  split.
  - eapply swept_keep; try done. by rewrite Et.
  - intros R b d [->|Hb]%elem_of_cons Hd; [|by eapply Hsy]. rewrite Ea, E1, lookup_insert_eq in Hd.
    injection Hd as <-. cbn. by apply Hs.
  - intros R. destruct (Hr R) as (Ek & Hn & Etr). split_and!.
    + unfold kept_valid. rewrite filter_cons_True by (unfold valid_at; by rewrite Ha). f_equal.
      rewrite Ek. by apply kept_valid_ext.
    + intros H0. apply Hn, Hst, H0.
    + rewrite Etr, Et. f_equal. unfold expired_events at 2. rewrite bind_cons, Ha, Hv. cbn [app].
      by apply expired_events_ext.
Qed.

Lemma recency_notify w a c : recency (ul_trace (notify_expired cfg w a c)) = recency (ul_trace w).
Proof.
  unfold notify_expired, run_ul_callbacks. destruct (FORCE_EXPIRED_CONTACT c); [done|].
  destruct (exists_ulcb_type cfg UL_CONTACT_EXPIRE); [|done]. cbn [ul_trace emit].
  by rewrite recency_snoc.
Qed.

(** The contact at the head has expired and is kept, since its row could not be deleted. *)
Lemma passed_kept_expired now w w1 w' a l kept c :
  cores (w_heap w) !! a = Some c → a ∉ l →
  cores (w_heap w1) = cores (w_heap w) → ¬ sql_reliable →
  cores (w_heap w') !! a = cores (w_heap w1) !! a →
  recency (ul_trace w1) = recency (ul_trace w) →
  passed now w1 w' l kept → passed now w w' (a :: l) (a :: kept).
Proof.
  intros Ha Hal E1 Hnr Ea Et [Hsw Hsy Hr]. split; [|done..].
  eapply (swept_keep now w w1 w' a l kept c (c_state c)); try done. rewrite E1, insert_id; [done|].
  rewrite Ha. by destruct c.
Qed.

(** The contact at the head has expired and is gone. *)
Lemma passed_removed now w w1 w' a l kept c :
  cores (w_heap w) !! a = Some c → VALID_CONTACT c now = false → a ∉ l →
  cores (w_heap w1) = delete a (cores (w_heap w)) →
  ul_trace w1 = ul_trace (notify_expired cfg w a c) ++ [Event_delete a] →
  (sql_reliable → no_stuck (cores (w_heap w)) (sql_rows (ul_dbh w)) (cid_vals w) →
   no_stuck (cores (w_heap w1)) (sql_rows (ul_dbh w1)) (cid_vals w1)) →
  passed now w1 w' l kept → passed now w w' (a :: l) kept.
Proof.
  intros Ha Hv Hal E1 Et Hst [Hsw Hsy Hr].
  assert (Ext : ∀ b, b ∈ l → cores (w_heap w1) !! b = cores (w_heap w) !! b).
  { intros b Hb. rewrite E1, lookup_delete_ne; [done|]. by intros <-. }
  split; [|done|].
  - eapply swept_remove; try done. by rewrite Et, recency_snoc, recency_notify.
  - intros R. destruct (Hr R) as (Ek & Hn & Etr). split_and!.
    + unfold kept_valid. rewrite filter_cons_False by (unfold valid_at; rewrite Ha; congruence).
      rewrite Ek. by apply kept_valid_ext.
    + intros H0. apply Hn, Hst, H0. done.
    + rewrite Etr, Et. unfold expired_events at 2. rewrite bind_cons, Ha, Hv, app_assoc. f_equal.
      2: by apply expired_events_ext.
      unfold notify_expired, run_ul_callbacks. destruct (FORCE_EXPIRED_CONTACT c); [done|].
      destruct (exists_ulcb_type cfg _); cbn; by rewrite <- ?app_assoc.
Qed.

(** The database changes and the memory does not. *)
Definition same_memory (w w' : ul_world) : Prop :=
  w_heap w' = w_heap w ∧ pending_refreshes w' = pending_refreshes w
  ∧ stat_contacts w' = stat_contacts w ∧ ul_trace w' = ul_trace w.

Definition inv_db (w : ul_world) : Prop :=
  db_inv (cores (w_heap w)) (sql_rows (ul_dbh w)) (cid_vals w).
Definition rows_known (w : ul_world) : Prop :=
  no_stuck (cores (w_heap w)) (sql_rows (ul_dbh w)) (cid_vals w).

(** An expired contact whose row was deleted, or waits for it, is removed. *)
Lemma no_stuck_delete m rows rows' cids cids' a c :
  m !! a = Some c → db_inv m rows cids →
  (∀ id, is_Some (rows' !! id) → id ∉ cids' →
     is_Some (rows !! id) ∧ id ∉ cids ∧ (id = contact_id c → c_state c = CS_NEW ∨ mem_only c = true)) →
  no_stuck m rows cids → no_stuck (delete a m) rows' cids'.
Proof.
  intros Ha [Hinj Hst] Hrows Hns id Hid. destruct (decide (id ∈ cids')) as [?|Hn]; [by left|]. right.
  destruct (Hrows id Hid Hn) as (Hid' & Hn' & Hc). destruct (Hns id Hid') as [?|(b & d & Hb & Ed & Hm)]; [done|].
  exists b, d. split_and!; try done. rewrite lookup_delete_ne; [done|]. intros <-.
  rewrite Ha in Hb. injection Hb as <-. destruct (Hc (eq_sym Ed)) as [Enew|]; [|congruence].
  destruct (Hst a c Ha Hm) as [Hs _]. unfold st_ok in Hs. rewrite Enew, Ed in Hs. rewrite Hs in Hid'.
  by destruct Hid'.
Qed.

(** What the loop does to one expired contact. *)
Lemma wb_expired_ok (Hsql : rr_persist cfg = RRP_LOAD_FROM_SQL) ok w r l1 a l2 n :
  ul_inv w r (l1 ++ a :: l2) → w_heap w !! a = Some n → (∀ i, ok i = true) →
  let '(w1, deleted) := batch_delete cfg (add_expires (notify_expired cfg w a (n_ct n))) (r_domain r) (n_ct n) in
  (deleted = false →
     ul_inv w1 r (l1 ++ a :: l2) ∧ (inv_db w → inv_db w1) ∧ w_heap w1 = w_heap w ∧ ¬ sql_reliable
     ∧ ul_trace w1 = ul_trace (notify_expired cfg w a (n_ct n)))
  ∧ (deleted = true →
     ∃ w2 head', mem_delete_ucontact cfg ok w1 r a = Some (w2, wr_contacts r head')
       ∧ ul_inv w2 (wr_contacts r head') (l1 ++ l2)
       ∧ cores (w_heap w2) = delete a (cores (w_heap w))
       ∧ ul_trace w2 = ul_trace (notify_expired cfg w a (n_ct n)) ++ [Event_delete a]
       ∧ (inv_db w → inv_db w2 ∧ (rows_known w → rows_known w2))).
Proof.
  intros Hinv Hn Hok.
  assert (Ha : cores (w_heap w) !! a = Some (core (n_ct n))) by (by rewrite cores_lookup, Hn).
  set (w0 := add_expires (notify_expired cfg w a (n_ct n))).
  assert (E0 : w_heap w0 = w_heap w ∧ pending_refreshes w0 = pending_refreshes w
    ∧ ul_dbh w0 = ul_dbh w ∧ cid_vals w0 = cid_vals w ∧ stat_contacts w0 = stat_contacts w
    ∧ ul_trace w0 = ul_trace (notify_expired cfg w a (n_ct n))).
  { unfold w0, notify_expired, run_ul_callbacks. by destruct (FORCE_EXPIRED_CONTACT _), (exists_ulcb_type cfg UL_CONTACT_EXPIRE). }
  destruct E0 as (Eh & Ep & Ed & Ei & Es & Et).
  pose proof (batch_delete_ok Hsql w0 (r_domain r) (n_ct n)) as Hb.
  destruct (batch_delete cfg w0 _ _) as [w1 deleted].
  destruct Hb as (d' & cids' & -> & Hf & Hrows & Hcids & Hdel & Hrel). rewrite Eh, Ep, Es, Et in *.
  rewrite Ed, Ei in *. split.
  - intros ->. destruct (Hf eq_refl) as [Er ->]. split_and!; [exact Hinv| |done| |done].
    + unfold inv_db. cbn [w_heap ul_dbh cid_vals]. rewrite Er. intros [Hi Hs]. split; [done|]. intros x c Hx Hm.
      split; [by apply (Hs x)|]. apply not_elem_of_nil.
    + intros R. by apply Hrel in R.
  - intros ->. set (w1 := UlWorld _ _ _ _ _ _ _).
    assert (Hinv1 : ul_inv w1 r (l1 ++ a :: l2)) by exact Hinv.
    destruct (mem_delete_ok cfg Hmem ok w1 r l1 a l2 Hinv1 Hok) as (h' & head' & -> & Hl' & Hc').
    eexists _, head'. split; [done|]. split; [by eapply ul_inv_delete|]. cbn [w_heap ul_dbh cid_vals ul_trace].
    split_and!; [exact Hc'|done|]. intros Hdb. unfold inv_db, rows_known. cbn [w_heap ul_dbh cid_vals].
    rewrite Hc'. split; [by eapply db_inv_delete|]. intros Hns. eapply no_stuck_delete; try done.
    by apply Hdel.
Qed.

(** What the loop does to one valid contact. *)
Lemma wb_written_ok buf w r l1 a l2 n :
  ul_inv w r (l1 ++ a :: l2) → w_heap w !! a = Some n →
  let '(d', c', _) := flush_contact cfg (ul_dbh w) buf (n_ct n) in
  ∃ s h', set_ct (w_heap w) a c' = Some h'
    ∧ ul_inv (wr_sql (wr_heap w h') d') r (l1 ++ a :: l2)
    ∧ cores h' = <[a := set_state s (core (n_ct n))]> (cores (w_heap w))
    ∧ (inv_db w → inv_db (wr_sql (wr_heap w h') d') ∧ (sql_reliable → s = CS_SYNC)
       ∧ (rows_known w → rows_known (wr_sql (wr_heap w h') d'))).
Proof.
  intros Hinv Hn. pose proof Hinv as (Hl & Hd & Hrest). assert (Hal : a ∈ l1 ++ a :: l2) by set_solver.
  destruct (list_ok_lookup _ _ _ a Hl Hal) as (n' & Hn' & Hkv & _). rewrite Hn in Hn'. injection Hn' as <-.
  assert (Ha : cores (w_heap w) !! a = Some (core (n_ct n))) by (by rewrite cores_lookup, Hn).
  pose proof (flush_state (ul_dbh w) buf (n_ct n)) as Hst.
  pose proof (λ Hdb, flush_contact_ok (cores (w_heap w)) a (n_ct n) (ul_dbh w) buf (cid_vals w) Hdb Ha) as Hfl.
  destruct (flush_contact cfg (ul_dbh w) buf (n_ct n)) as [[d' c'] i']. destruct Hst as [s ->].
  destruct (set_ct_ok _ _ _ a (set_state s (n_ct n)) Hl Hal) as (h' & Es & Hl' & Hc'); [done|].
  assert (Ec : cores h' = <[a := set_state s (core (n_ct n))]> (cores (w_heap w)))
    by (unfold cores; by rewrite Hc', fmap_insert).
  exists s, h'. split; [done|]. split; [|split; [done|]].
  - split; [done|]. split; [|done]. cbn [w_heap wr_sql wr_heap].
    rewrite <- cores_dom, Ec, dom_insert_L, cores_dom, Hd. set_solver.
  - intros Hdb. destruct (Hfl Hdb) as (Hdb' & Hrows' & Hrel). split; [|split; [done|]].
    { unfold inv_db. cbn [w_heap ul_dbh cid_vals wr_sql wr_heap]. by rewrite Ec. }
    intros Hns id Hid. cbn [w_heap ul_dbh cid_vals wr_sql wr_heap] in *. rewrite Ec.
    apply Hrows' in Hid as [Hid|[-> Hm]].
    + destruct (Hns id Hid) as [?|(b & d & Hb & Ed & Hm)]; [by left|right].
      destruct (decide (b = a)) as [->|]; [|exists b, d; by rewrite lookup_insert_ne].
      exists a, (set_state s (core (n_ct n))). rewrite lookup_insert_eq. rewrite Ha in Hb.
      by injection Hb as <-.
    + right. exists a, (set_state s (core (n_ct n))). by rewrite lookup_insert_eq.
Qed.

Lemma wb_loop_ok (Hsql : rr_persist cfg = RRP_LOAD_FROM_SQL) ok buf now l2 : ∀ fuel l1 w r ins,
  ul_inv w r (l1 ++ l2) → (length l2 < fuel)%nat → (∀ a i, ok a i = true) →
  ∃ w' head' ins' kept,
    wb_loop cfg fuel ok buf now w r (hd_or 0 l2) ins = Some (w', wr_contacts r head', ins')
    ∧ ul_inv w' (wr_contacts r head') (l1 ++ kept)
    ∧ (∀ a, a ∈ l1 → cores (w_heap w') !! a = cores (w_heap w) !! a)
    ∧ swept now w w' l2 kept ∧ (inv_db w → inv_db w' ∧ passed now w w' l2 kept).
Proof.
  induction l2 as [|a l2 IH]; intros fuel l1 w r ins Hinv Hf Hok;
    (destruct fuel as [|fuel]; [cbn in Hf; lia|]); cbn [wb_loop hd_or].
  - exists w, (r_contacts r), ins, []. rewrite Z.eqb_refl. split; [by destruct r|].
    split; [by destruct r|]. split; [done|]. split; [apply swept_refl|]. intros Hdb. split; [done|].
    split; [apply swept_refl|by intros _ b c Hb%not_elem_of_nil|].
    intros _. split_and!; [done|done|by rewrite app_nil_r].
  - pose proof Hinv as (_ & _ & _ & _ & _ & Hslot & _).
    destruct (at_contact w r l1 a l2 Hinv) as (n & Hn & Hnx & -> & Hal1 & Hal2 & Ha & _).
    rewrite Hn. cbn [mbind option_bind]. rewrite Hnx.
    destruct (VALID_CONTACT (n_ct n) now) eqn:Hv; cbn [negb].
    + pose proof (wb_written_ok buf w r l1 a l2 n Hinv Hn) as Hx.
      destruct (flush_contact cfg (ul_dbh w) buf (n_ct n)) as [[d' c'] i'].
      destruct Hx as (s & h' & -> & Hi1 & Ec & Hx). cbn [mbind option_bind].
      set (w1 := wr_sql (wr_heap w h') d') in *.
      destruct (IH fuel (l1 ++ [a]) w1 r (ins || i')) as (w' & head' & ins' & kept & -> & Hi' & Hfr & Hsw & Hp);
        [by rewrite <- app_assoc|cbn in Hf; lia|done|].
      exists w', head', ins', (a :: kept). rewrite <- app_assoc in Hi'. split_and!; try done.
      * intros b Hb. rewrite Hfr by set_solver. unfold w1. cbn [w_heap wr_sql wr_heap].
        rewrite Ec, lookup_insert_ne; [done|set_solver].
      * apply (swept_keep now w w1 w' a l2 kept (core (n_ct n)) s); try done. apply Hfr; set_solver.
      * intros Hdb. destruct (Hx Hdb) as (Hd1 & Hs & Hns). destruct (Hp Hd1) as [Hd' Hpa]. split; [done|].
        apply (passed_write now w w1 w' a l2 kept (core (n_ct n)) s); try done. apply Hfr; set_solver.
    + rewrite Hmem, Hslot. cbn [mbind option_bind].
      pose proof (wb_expired_ok Hsql (ok a) w r l1 a l2 n Hinv Hn (Hok a)) as Hx.
      destruct (batch_delete cfg _ _ _) as [w1 deleted]. destruct Hx as [Hx0 Hx1].
      destruct deleted; cbn [negb].
      * destruct (Hx1 eq_refl) as (w2 & head2 & -> & Hi2 & Hc2 & Ht2 & Hx). cbn [mbind option_bind].
        destruct (IH fuel l1 w2 (wr_contacts r head2) ins Hi2) as (w' & head' & ins' & kept & E & Hi' & Hfr & Hsw & Hp);
          [cbn in Hf; lia|done|].
        exists w', head', ins', kept. split; [exact E|]. split; [exact Hi'|]. split; [|split].
        -- intros b Hb. rewrite Hfr, Hc2, lookup_delete_ne; [done| |done]. by intros <-.
        -- eapply swept_remove; try done. by rewrite Ht2, recency_snoc, recency_notify.
        -- intros Hdb. destruct (Hx Hdb) as (Hd2 & Hns). destruct (Hp Hd2) as [Hd' Hpa]. split; [done|].
           apply (passed_removed now w w2 w' a l2 kept (core (n_ct n))); done.
      * destruct (Hx0 eq_refl) as (Hi1 & Hd1 & Eh & Hnr & Etr).
        destruct (IH fuel (l1 ++ [a]) w1 r ins) as (w' & head' & ins' & kept & -> & Hi' & Hfr & Hsw & Hp);
          [by rewrite <- app_assoc|cbn in Hf; lia|done|].
        exists w', head', ins', (a :: kept). rewrite <- app_assoc in Hi'. rewrite Eh in Hfr.
        assert (Hrec : recency (ul_trace w1) = recency (ul_trace w)) by (by rewrite Etr, recency_notify).
        split_and!; try done; [intros; apply Hfr; set_solver| |].
        -- eapply (swept_keep now w w1 w' a l2 kept _ (c_state (core (n_ct n)))); try done.
           ++ rewrite Eh, insert_id; [done|]. rewrite Ha. by destruct (n_ct n).
           ++ rewrite Eh. apply Hfr. set_solver.
        -- intros Hdb. destruct (Hp (Hd1 Hdb)) as [Hd' Hpa]. split; [done|].
           apply (passed_kept_expired now w w1 w' a l2 kept (core (n_ct n))); try done;
             [by rewrite Eh|rewrite Eh; apply Hfr; set_solver].
Qed.

(** ** The other passes *)

(** [nodb_timer] *)
Lemma nodb_timer_ok ok now l2 : ∀ fuel l1 w r,
  ul_inv w r (l1 ++ l2) → (length l2 < fuel)%nat → (∀ a i, ok a i = true) →
  ∃ w' head' kept,
    nodb_timer cfg fuel ok now w r (hd_or 0 l2) = Some (w', wr_contacts r head')
    ∧ ul_inv w' (wr_contacts r head') (l1 ++ kept)
    ∧ (∀ a, a ∈ l1 → cores (w_heap w') !! a = cores (w_heap w) !! a)
    ∧ swept now w w' l2 kept.
Proof.
  induction l2 as [|a l2 IH]; intros fuel l1 w r Hinv Hf Hok;
    (destruct fuel as [|fuel]; [cbn in Hf; lia|]); cbn [nodb_timer hd_or].
  { exists w, (r_contacts r), []. rewrite Z.eqb_refl. split; [by destruct r|].
    split; [by destruct r|]. split; [done|]. apply swept_refl. }
  pose proof Hinv as (_ & _ & _ & _ & _ & Hslot & _).
  destruct (at_contact w r l1 a l2 Hinv) as (n & Hn & Hnx & -> & Hal1 & Hal2 & Ha & _).
  rewrite Hn. cbn [mbind option_bind]. rewrite Hnx.
  destruct (VALID_CONTACT (n_ct n) now) eqn:Hv; cbn [negb].
  - destruct (IH fuel (l1 ++ [a]) w r) as (w' & head' & kept & -> & Hi' & Hfr & Hsw);
      [by rewrite <- app_assoc|cbn in Hf; lia|done|].
    exists w', head', (a :: kept). rewrite <- app_assoc in Hi'. split_and!; try done.
    + intros b Hb. apply Hfr. set_solver.
    + eapply (swept_keep now w w w' a l2 kept _ (c_state (core (n_ct n)))); try done.
      * rewrite insert_id; [done|]. rewrite Ha. by destruct (n_ct n).
      * apply Hfr. set_solver.
  - set (w0 := notify_expired cfg w a (n_ct n)).
    assert (Hi0 : ul_inv w0 r (l1 ++ a :: l2) ∧ w_heap w0 = w_heap w).
    { unfold w0, notify_expired, run_ul_callbacks.
      by destruct (FORCE_EXPIRED_CONTACT _), (exists_ulcb_type cfg UL_CONTACT_EXPIRE). }
    destruct Hi0 as [Hi0 Eh0].
    destruct (mem_delete_ok cfg Hmem (ok a) w0 r l1 a l2 Hi0 (Hok a)) as (h' & head1 & -> & Hl' & Hc').
    cbn [mbind option_bind r_slot wr_contacts]. rewrite Hslot. set (w1 := add_expires _).
    assert (Hi1 : ul_inv w1 (wr_contacts r head1) (l1 ++ l2)) by (by apply (ul_inv_delete cfg Hmem w0)).
    rewrite Eh0 in Hc'.
    destruct (IH fuel l1 w1 (wr_contacts r head1) Hi1) as (w' & head' & kept & E & Hi' & Hfr & Hsw);
      [cbn in Hf; lia|done|].
    exists w', head', kept. split; [exact E|]. split; [exact Hi'|]. split.
    + intros b Hb. rewrite Hfr by done. unfold w1. cbn [w_heap add_expires].
      rewrite Hc', lookup_delete_ne; [done|]. by intros <-.
    + apply (swept_remove now w w1 w' a l2 kept (core (n_ct n))); try done.
      unfold w1. cbn [ul_trace add_expires].
      rewrite recency_snoc. unfold w0. by rewrite recency_notify.
Qed.

(** The end of a pass: the rows of the identifiers left are deleted. *)
Lemma flush_cids_ok w dm :
  let '(w', deleted) := flush_cids w dm in
  same_memory w w' ∧ (sql_reliable → deleted = true)
  ∧ (inv_db w → db_inv (cores (w_heap w')) (sql_rows (ul_dbh w')) [])
  ∧ (sql_reliable → rows_known w → no_stuck (cores (w_heap w')) (sql_rows (ul_dbh w')) []).
Proof.
  assert (Hnil : cid_vals w = [] → inv_db w → db_inv (cores (w_heap w)) (sql_rows (ul_dbh w)) [])
    by (unfold inv_db; by intros ->).
  unfold flush_cids. destruct (cid_vals w) as [|x cids] eqn:Ei.
  { split; [done|]. split; [done|]. split; [by apply Hnil|]. unfold rows_known. by rewrite Ei. }
  pose proof (db_multiple_delete_rows (ul_dbh w) dm (x :: cids)) as Hr.
  destruct (db_multiple_ucontact_delete _ _ _) as [d' b]. destruct Hr as [Hr Hrel].
  split; [done|]. split; [done|]. cbn [w_heap ul_dbh wr_sql]. unfold inv_db, rows_known. rewrite Ei. split.
  - intros [Hi Hs]. split; [done|]. intros a c Ha Hm. destruct (Hs a c Ha Hm) as [Hst Hn].
    split; [|apply not_elem_of_nil]. eapply st_ok_rows; [|done]. rewrite Hr.
    destruct b; [by apply delete_rows_ne|done].
  - intros R Hns id. rewrite Hr, (Hrel R). intros [row [Hid Hn]%map_lookup_filter_Some].
    destruct (Hns id) as [?|?]; [by exists row|done|by right].
Qed.
End sync.
