(* ===== verification/UlOps.v ===== *)
(** * UlOps: the operations on a record keep its invariant

    Insertion, update and deletion by the registrar and the passes of the timers, for every
    mode with contacts in memory: they return, keep the list and its order. *)

From stdpp Require Import prelude list strings gmap.
From Stdlib Require Import ZArith Lia.
From S2P Require Import Prelude CString UriParser UriOps UlContact UlRecord UlFacts UlSync.

(** ** The order by q *)

Fixpoint q_sorted (q : Z → Z) (l : list Z) : Prop :=
  match l with [] => True | a :: l' => Forall (λ b, q b <= q a) l' ∧ q_sorted q l' end.

Lemma q_sorted_app q l1 l2 :
  q_sorted q (l1 ++ l2) ↔ q_sorted q l1 ∧ q_sorted q l2 ∧ ∀ a b, a ∈ l1 → b ∈ l2 → q b <= q a.
Proof.
  induction l1 as [|x l1 IH]; cbn [app q_sorted]; [set_solver|]. rewrite IH, Forall_app, !Forall_forall.
  set_solver.
Qed.

Lemma q_sorted_ext q q' l : (∀ a, a ∈ l → q a = q' a) → q_sorted q l → q_sorted q' l.
Proof.
  induction l as [|x l IH]; intros E; cbn [q_sorted]; [done|]. intros [Hx Hs]. split.
  - rewrite Forall_forall in *. intros b Hb. rewrite <- !E by set_solver. by apply Hx.
  - apply IH; [|done]. intros; apply E. by right.
Qed.

(** [mem_insert_ucontact] keeps the order: after the contacts with a higher or the same q. *)
Lemma place_new_sorted cfg q a l :
  desc_time_order cfg = false → q_sorted q l → q_sorted q (place_new cfg q a l).
Proof.
  intros Ho Hs. unfold place_new. rewrite Ho.
  pose proof (split_at_app (λ b, q b <? q a) l) as E.
  pose proof (split_at_before (λ b, q b <? q a) l) as Hb.
  pose proof (split_at_after (λ b, q b <? q a) l) as Ha.
  destruct (split_at _ l) as [l1 l2]. cbn [fst snd] in *. subst l.
  apply q_sorted_app in Hs as (H1 & H2 & H12). rewrite Forall_forall in Hb.
  assert (Hlt : ∀ b, b ∈ l2 → q b <= q a).
  { destruct l2 as [|d l2]; [set_solver|]. apply Z.ltb_lt in Ha. cbn in H2. destruct H2 as [H2 _].
    rewrite Forall_forall in H2. intros b [->|Hin]%elem_of_cons; [lia|]. specialize (H2 b Hin). lia. }
  apply q_sorted_app. split_and!; [done| |].
  - split; [|done]. by rewrite Forall_forall.
  - intros x b Hx [->|Hb']%elem_of_cons; [|by apply H12].
    specialize (Hb x Hx). apply Z.ltb_ge in Hb. lia.
Qed.

(** [update_contact_pos] moves a contact that is out of its place among contacts in
    descending order to one of the ends: to the end when its q is the highest. *)
Lemma place_updated_ends cfg q l1 a l2 :
  desc_time_order cfg = false → q_sorted q (l1 ++ l2) → in_place q l1 a l2 = false →
  place_updated cfg q l1 a l2
  = if match l1 ++ l2 with [] => true | b :: _ => q a <=? q b end
    then a :: l1 ++ l2 else (l1 ++ l2) ++ [a].
Proof.
  intros Ho Hs Hp. unfold place_updated. rewrite Ho, Hp.
  destruct (l1 ++ l2) as [|b l] eqn:E; [done|]. clear E Hp. cbn [split_at].
  destruct (q a <=? q b) eqn:Eb; [done|]. destruct Hs as [Hb _].
  assert (Hall : split_at (λ b, q a <=? q b) l = (l, [])).
  { clear -Hb Eb. induction l as [|d l IH]; [done|]. cbn. apply Forall_cons in Hb as [Hd Hb].
    destruct (Z.leb_spec (q a) (q d)); [apply Z.leb_gt in Eb; lia|]. by rewrite IH. }
  by rewrite Hall.
Qed.

Section ops.
Context {TX : ul_text} {TXok : ul_text_ok} {DB : sql_api}.
Variable cfg : ul_cfg.
Hypothesis Hmem : have_mem_storage cfg = true.

Lemma recency_callbacks w t a :
  recency (ul_trace (run_ul_callbacks cfg w t a)) = recency (ul_trace w).
Proof. unfold run_ul_callbacks. destruct (exists_ulcb_type cfg t); [|done]. cbn [ul_trace emit].
  by rewrite recency_snoc.
Qed.

(** The parts of the world that callbacks leave alone. *)
Definition same_world (w w' : ul_world) : Prop :=
  w_heap w' = w_heap w ∧ pending_refreshes w' = pending_refreshes w ∧ ul_dbh w' = ul_dbh w
  ∧ cid_vals w' = cid_vals w ∧ stat_contacts w' = stat_contacts w.

Lemma same_callbacks w t a : same_world w (run_ul_callbacks cfg w t a).
Proof. unfold run_ul_callbacks. by destruct (exists_ulcb_type cfg t). Qed.

Lemma same_world_trans w1 w2 w3 : same_world w1 w2 → same_world w2 w3 → same_world w1 w3.
Proof. unfold same_world. intuition congruence. Qed.

Lemma same_world_inv w w' r l : same_world w w' → ul_inv w r l → ul_inv w' r l.
Proof. unfold ul_inv. by intros (-> & -> & _ & _ & ->). Qed.

(** The heap changes and the contacts keep their addresses. *)
Lemma ul_inv_heap w r l h' head' l' :
  ul_inv w r l → list_ok h' head' l' → dom h' = dom (w_heap w) → l' ≡ₚ l →
  ul_inv (wr_heap w h') (wr_contacts r head') l'.
Proof.
  intros (Hl & Hd & Hnd & Hsub & Hst & Hslot & Hkv) Hl' Hd' Hp. split_and!; cbn; try done.
  - by rewrite Hd', Hd, (list_to_set_perm_L _ _ Hp).
  - intros x Hx. rewrite Hp. by apply Hsub.
  - by rewrite Hp.
Qed.

Lemma ul_inv_core w r l h' :
  ul_inv w r l → list_ok h' (r_contacts r) l → dom (cores h') = dom (cores (w_heap w)) →
  ul_inv (wr_heap w h') r l.
Proof.
  intros Hinv Hl' Hd. rewrite !cores_dom in Hd.
  pose proof (ul_inv_heap w r l h' (r_contacts r) l Hinv Hl' Hd (reflexivity _)) as H.
  by destruct r.
Qed.

Lemma ul_inv_sql w r l d : ul_inv w r l → ul_inv (wr_sql w d) r l.
Proof. done. Qed.

(** The write to the database in write-through mode. *)
Lemma write_through_ok f w r l a c :
  ul_inv w r l → cores (w_heap w) !! a = Some c →
  ∃ w' s, write_through f w a = Some w' ∧ ul_inv w' r l
    ∧ cores (w_heap w') = <[a := set_state s c]> (cores (w_heap w)) ∧ ul_trace w' = ul_trace w.
Proof.
  intros Hinv Ha. pose proof Hinv as (Hl & Hd & _).
  assert (Hal : a ∈ l).
  { apply (elem_of_list_to_set (C := gset Z)). rewrite <- Hd, <- cores_dom. by apply elem_of_dom_2 in Ha. }
  destruct (list_ok_lookup _ _ _ a Hl Hal) as (n & Hn & Hkv & _).
  rewrite cores_lookup, Hn in Ha. injection Ha as <-.
  unfold write_through. rewrite Hn. cbn [mbind option_bind].
  destruct (f (ul_dbh w) (n_ct n)) as [d []].
  - destruct (set_ct_ok _ _ _ a (set_state CS_SYNC (n_ct n)) Hl Hal) as (h' & -> & Hl' & Hc'); [done|].
    cbn [mbind option_bind].
    assert (Ec : cores h' = <[a := set_state CS_SYNC (core (n_ct n))]> (cores (w_heap w)))
      by (unfold cores; by rewrite Hc', fmap_insert).
    eexists _, CS_SYNC. split; [done|]. split; [|done]. apply ul_inv_sql, ul_inv_core; [done..|].
    rewrite Ec, dom_insert_L, cores_dom, Hd. set_solver.
  - cbn [mbind option_bind]. eexists _, (c_state (n_ct n)). split; [done|]. split; [by destruct w|].
    split; [|done]. cbn [w_heap wr_sql wr_heap]. rewrite insert_id; [done|]. rewrite cores_lookup, Hn. cbn. by destruct (n_ct n).
Qed.

Lemma persist_world ok w r l :
  ul_inv w r l → (∀ i, ok i = true) →
  ∃ h' b, persist_urecord_kv_store ok (w_heap w) r = Some (h', b) ∧ ul_inv (wr_heap w h') r l
    ∧ cores h' = cores (w_heap w).
Proof.
  intros Hinv Hok. pose proof Hinv as (Hl & _ & _ & _ & _ & _ & [m Hm]).
  destruct (persist_ok ok (w_heap w) r l m Hl Hm Hok) as (h' & b & -> & Hl' & Hc).
  exists h', b. split_and!; try done. apply ul_inv_core; [done..|by rewrite Hc].
Qed.

(** ** Insertion *)

(** The identifier of the new contact. *)
Definition insert_id_of (r : urecord) (ci : ucontact_info) : Z :=
  if ci_contact_id ci =? 0 then (next_contact_id r).2 else ci_contact_id ci.

(** The callback of the registrar puts values in the store. *)
Definition pre_ok (ci : ucontact_info) : Prop :=
  ∀ f m, ci_pre_replicate ci = Some f → kv_full m → kv_full (f m).

Lemma pre_replicate_ok w r l a ci :
  ul_inv w r l → a ∈ l → pre_ok ci →
  ∃ h', (match ci_pre_replicate ci with
         | Some f =>
             n ← w_heap w !! a;
             h ← set_ct (w_heap w) a (set_kv (f <$> c_kv_storage (n_ct n)) (n_ct n));
             Some (wr_heap w h)
         | None => Some w
         end) = Some (wr_heap w h') ∧ ul_inv (wr_heap w h') r l ∧ cores h' = cores (w_heap w).
Proof.
  intros Hinv Ha Hpre. destruct (ci_pre_replicate ci) as [f|] eqn:Ef;
    [|exists (w_heap w); by destruct w].
  pose proof Hinv as (Hl & _). destruct (list_ok_lookup _ _ _ a Hl Ha) as (n & Hn & (m & Em & Hm) & _).
  rewrite Hn. cbn [mbind option_bind]. rewrite Em.
  destruct (set_ct_core _ _ _ a (set_kv (f <$> Some m) (n_ct n)) Hl Ha) as (h' & -> & Hl' & Hc).
  - exists (f m). split; [done|]. by apply (Hpre f).
  - by exists n.
  - exists h'. split_and!; try done. apply ul_inv_core; [done..|by rewrite Hc].
Qed.

Lemma next_clabel_inv w r l x : ul_inv w r l → ul_inv w (wr_next_clabel r x) l.
Proof. done. Qed.

(** What a successful insertion leaves. *)
Definition inserted (w w' : ul_world) (r' : urecord) (l : list Z) (a id : Z) (ci : ucontact_info)
    : Prop :=
  ∃ ct s, c_state ct = CS_NEW ∧ contact_id ct = id ∧ c_flags ct = ci_flags ci
    ∧ c_q ct = ci_q ci ∧ c_expires ct = ci_expires ci
    ∧ cores (w_heap w') = <[a := set_state s (core ct)]> (cores (w_heap w))
    ∧ ul_inv w' r' (place_new cfg (q_of (cores (w_heap w'))) a l)
    ∧ recency (ul_trace w') = a :: recency (ul_trace w)
    ∧ (sql_wmode cfg ≠ SQL_WRITE_THROUGH →
       s = CS_NEW ∧ ul_dbh w' = ul_dbh w ∧ cid_vals w' = cid_vals w).

Lemma place_new_ext q q' a l : (∀ b, q b = q' b) → place_new cfg q a l = place_new cfg q' a l.
Proof.
  intros E. unfold place_new. destruct (desc_time_order cfg); [done|].
  by rewrite (split_at_ext _ (λ b, q' b <? q' a) l) by (intros; by rewrite !E).
Qed.

Lemma q_of_state m a c s b :
  q_of (<[a := set_state s c]> m) b = q_of (<[a := c]> m) b.
Proof.
  unfold q_of. destruct (decide (a = b)) as [->|]; [by rewrite !lookup_insert_eq|].
  by rewrite !lookup_insert_ne.
Qed.

(** The notifications of an insertion change the trace only. *)
Lemma insert_notify w x a (more : bool) l :
  recency (ul_trace w) = l →
  (x = emit w (Replicate_insert a) ∨ x = w) →
  let w3 := run_ul_callbacks cfg x UL_CONTACT_INSERT a in
  let w4 := if more then run_ul_callbacks cfg w3 UL_AOR_UPDATE 0 else w3 in
  same_world w w4 ∧ recency (ul_trace w4) = l.
Proof.
  intros Hr Hx w3 w4.
  assert (Hs : same_world w x ∧ recency (ul_trace x) = l).
  { destruct Hx as [->| ->]; [|done]. split; [done|]. cbn [ul_trace emit]. by rewrite recency_snoc. }
  assert (Hs3 : same_world w w3 ∧ recency (ul_trace w3) = l).
  { unfold w3. rewrite recency_callbacks. split; [|tauto].
    eapply same_world_trans; [apply Hs|]. apply same_callbacks. }
  unfold w4. destruct more; [|done]. rewrite recency_callbacks. split; [|tauto].
  eapply same_world_trans; [apply Hs3|]. apply same_callbacks.
Qed.

Lemma insert_ok ok w r l a contact ci now skip :
  ul_inv w r l → a ∉ l → a ≠ 0 → (∀ i, (10 ≤ i)%nat → ok i = true) → pre_ok ci →
  ∃ w' r' ret c,
    insert_ucontact cfg ok w r a contact ci now skip = Some (w', r', ret, c)
    ∧ ((ret = -1 ∧ w' = w ∧ ul_inv w r' l)
       ∨ (ret = 0 ∧ c = a ∧ inserted w w' r' l a (insert_id_of r ci) ci)).
Proof.
  intros Hinv Hal Ha0 Hok Hpre. unfold insert_ucontact.
  assert (E1 : ∃ r1, (if ci_contact_id ci =? 0 then next_contact_id r else (r, ci_contact_id ci))
    = (r1, insert_id_of r ci) ∧ ul_inv w r1 l).
  { unfold insert_id_of. destruct (ci_contact_id ci =? 0); [|eauto]. eexists. split; [done|].
    by apply next_clabel_inv. }
  destruct E1 as (r1 & -> & Hinv1).
  rewrite bool_decide_eq_false_2 by (intros E; unfold have_mem_storage in Hmem; by rewrite E in Hmem).
  cbn [andb]. set (ci' := with_contact_id ci (insert_id_of r ci) (ci_cdb_key ci)).
  destruct (mem_insert_ok cfg Hmem ok w r1 l a contact ci' now Hinv1 Hal Ha0 Hok) as
    [->|(ct & h' & p' & m & head' & En & -> & Hc & Hi)].
  { cbn [mbind option_bind]. rewrite Z.eqb_refl. eexists _, _, _, _. split; [done|]. by left. }
  cbn [mbind option_bind]. rewrite (proj2 (Z.eqb_neq a 0)) by done.
  set (w1 := UlWorld h' _ _ _ _ _ _) in *. set (r2 := wr_contacts _ head') in *.
  set (l' := place_new cfg _ a l) in *.
  assert (Hal' : a ∈ l') by (unfold l'; rewrite place_new_perm; by left).
  destruct (pre_replicate_ok w1 r2 l' a ci Hi Hal' Hpre) as (h2 & -> & Hi2 & Hc2).
  cbn [mbind option_bind].
  set (w2 := if negb skip && have_data_replication cfg then _ else _).
  set (w3 := run_ul_callbacks cfg w2 UL_CONTACT_INSERT a).
  set (w4 := if negb (r_contacts r =? 0) then run_ul_callbacks cfg w3 UL_AOR_UPDATE 0 else w3).
  assert (Hs4 : same_world (wr_heap w1 h2) w4 ∧ recency (ul_trace w4) = a :: recency (ul_trace w)).
  { apply insert_notify; [cbn [ul_trace emit wr_heap w1]; by rewrite recency_snoc|].
    unfold w2. destruct (negb skip && _); auto. }
  destruct Hs4 as [Hs4 Hr4]. assert (Hi4 : ul_inv w4 r2 l') by (by eapply same_world_inv).
  assert (Hc4 : cores (w_heap w4) = <[a := core ct]> (cores (w_heap w))).
  { destruct Hs4 as (-> & _). cbn [w_heap wr_heap]. by rewrite Hc2. }
  destruct (new_ucontact_ok cfg Hmem ok (r_domain r1) (r_aor r1) contact ci' now Hok) as (o & En' & Hct).
  rewrite En in En'. injection En' as <-.
  destruct (Hct ct eq_refl) as (_ & Hnew & Hid & _ & Hfl & Hq & Hex & _ & _).
  assert (Hl' : ∀ s, l' = place_new cfg (q_of (<[a := set_state s (core ct)]> (cores (w_heap w)))) a l).
  { intros s. unfold l'. apply place_new_ext. intros b. rewrite q_of_state. by rewrite Hc. }
  case_decide.
  - destruct (persist_world (λ i, ok (30 + i)%nat) w4 r2 l' Hi4) as (h5 & b & -> & Hi5 & Hc5);
      [intros; apply Hok; lia|]. cbn [mbind option_bind].
    destruct (write_through_ok (λ d ct, db_insert_ucontact cfg d ct false false) (wr_heap w4 h5) r2 l' a (core ct))
      as (w6 & s & -> & Hi6 & Hc6 & Ht6); [done|cbn [w_heap wr_heap]; by rewrite Hc5, Hc4, lookup_insert_eq|].
    cbn [mbind option_bind]. eexists _, _, _, _. split; [done|]. right. split; [done|]. split; [done|].
    cbn [w_heap wr_heap] in Hc6. rewrite Hc5, Hc4, insert_insert_eq in Hc6.
    exists ct, s. split_and!; try done.
    + rewrite Hc6, <- Hl'. done.
    + by rewrite Ht6.
  - eexists _, _, _, _. split; [done|]. right. split; [done|]. split; [done|].
    exists ct, CS_NEW. rewrite Hc4. assert (Es : set_state CS_NEW (core ct) = core ct)
      by (rewrite <- Hnew; by destruct ct). rewrite Es. split_and!; try done.
    + rewrite <- Es, <- Hl'. done.
    + intros _. destruct Hs4 as (_ & _ & -> & -> & _). done.
Qed.

(** ** Update *)

Lemma place_updated_ext q q' l1 a l2 :
  (∀ b, q b = q' b) → place_updated cfg q l1 a l2 = place_updated cfg q' l1 a l2.
Proof.
  intros E. unfold place_updated, in_place. destruct (desc_time_order cfg); [done|].
  rewrite (split_at_ext _ (λ b, q' a <=? q' b) (l1 ++ l2)) by (intros; by rewrite !E).
  rewrite !E. destruct (last l1), l2; by rewrite ?E.
Qed.

(** The new members are written and the refresh timer is started. *)
Lemma update_write ok w r l a c ci now :
  ul_inv w r l → (∀ i, ok i = true) → a ∈ l → cores (w_heap w) !! a = Some c →
  ∃ n c' h' p',
    w_heap w !! a = Some n ∧ mem_update_ucontact cfg ok (n_ct n) ci now = Some (c', true)
    ∧ set_ct (w_heap w) a c' = Some h'
    ∧ (if c_refresh_time c' =? 0 then Some (wr_heap w h') else start_refresh_timer cfg (wr_heap w h') a)
      = Some (wr_refreshes (wr_heap w h') p')
    ∧ ul_inv (wr_refreshes (wr_heap w h') p') r l ∧ kv_ok c'
    ∧ same_contact ci c c' ∧ c_flags c' = ci_flags ci ∧ c_q c' = ci_q ci ∧ c_expires c' = ci_expires ci
    ∧ cores h' = <[a := core c']> (cores (w_heap w)).
Proof.
  intros Hinv Hok Hal Ha. pose proof Hinv as (Hl & Hd & Hnd & Hsub & Hst & Hslot & Hkvr).
  destruct (list_ok_lookup _ _ _ a Hl Hal) as (n & Hn & Hkv & _).
  rewrite cores_lookup, Hn in Ha. injection Ha as <-.
  destruct (mem_update_ok cfg Hmem ok (n_ct n) ci now Hok Hkv) as (c' & Eu & Hkv' & Hsame & Hf & Hq & He & _).
  destruct (set_ct_ok _ _ _ a c' Hl Hal Hkv') as (h' & Es & Hl' & Hc').
  assert (Ec : cores h' = <[a := core c']> (cores (w_heap w))) by (unfold cores; by rewrite Hc', fmap_insert).
  assert (Hd' : dom h' = list_to_set l)
    by (rewrite <- cores_dom, Ec, dom_insert_L, cores_dom, Hd; set_solver).
  assert (Href : ∃ p', (if c_refresh_time c' =? 0 then Some (wr_heap w h')
      else start_refresh_timer cfg (wr_heap w h') a) = Some (wr_refreshes (wr_heap w h') p')
      ∧ NoDup p' ∧ p' ⊆ l).
  { destruct (c_refresh_time c' =? 0).
    - exists (pending_refreshes w). by destruct w.
    - by apply start_refresh_ok. }
  destruct Href as (p' & Er & Hnd' & Hsub'). exists n, c', h', p'. by split_and!.
Qed.

(** The store of the record is read in the contact when the update comes from the cluster. *)
Lemma update_restore ok w r l c' (skip : bool) :
  ul_inv w r l → ok = true → kv_ok c' →
  ∃ r', (match c_kv_storage c' with
         | Some kv => if skip then restore_urecord_kv_store ok r kv else Some r
         | None => Some r
         end) = Some r' ∧ ul_inv w r' l ∧ r_contacts r' = r_contacts r.
Proof.
  intros Hinv Hok (m & -> & Hm). destruct skip; [|eauto]. pose proof Hinv as (? & ? & ? & ? & ? & ? & Hkv).
  destruct (restore_ok ok r m Hm Hok Hkv) as (m' & ->). eexists. split; [done|]. by split_and!.
Qed.

(** The store of the record is written to a contact before the update is replicated. *)
Lemma update_replicate ok w r l a (skip : bool) :
  ul_inv w r l → (∀ i, ok i = true) →
  ∃ w' b, (if negb skip && have_data_replication cfg then
             '(h, persisted) ← persist_urecord_kv_store ok (w_heap w) r;
             Some (emit (wr_heap w h) (Replicate_update a), negb persisted)
           else Some (w, true)) = Some (w', b)
    ∧ ul_inv w' r l ∧ cores (w_heap w') = cores (w_heap w)
    ∧ recency (ul_trace w') = recency (ul_trace w) ∧ ul_dbh w' = ul_dbh w ∧ cid_vals w' = cid_vals w.
Proof.
  intros Hinv Hok. destruct (negb skip && _); [|by eauto 10].
  destruct (persist_world ok w r l Hinv Hok) as (h' & b & -> & Hi & Hc). cbn [mbind option_bind].
  eexists _, _. split; [done|]. split_and!; try done. cbn [ul_trace emit wr_heap].
  by rewrite recency_snoc.
Qed.

Lemma st_update_state c : ∃ s, st_update_ucontact cfg c = set_state s c.
Proof.
  unfold st_update_ucontact.
  destruct c as [? ? ? ? ? ? ? ? ? ? ? ? ? []]; cbn [c_state];
    [exists CS_NEW|case_match; [exists CS_DIRTY|exists CS_SYNC]|exists CS_DIRTY]; done.
Qed.

Lemma st_update_core c : core (st_update_ucontact cfg c) = st_update_ucontact cfg (core c).
Proof. unfold st_update_ucontact. cbn [c_state core set_kv]. repeat case_match; done. Qed.

(** The contact is moved to its place and its state is updated. *)
Lemma update_move w r l1 a l2 c :
  ul_inv w r (l1 ++ a :: l2) → cores (w_heap w) !! a = Some c →
  ∃ h1 head' n h2,
    update_contact_pos cfg (w_heap w) (r_contacts r) a = Some (h1, head')
    ∧ h1 !! a = Some n ∧ set_ct h1 a (st_update_ucontact cfg (n_ct n)) = Some h2
    ∧ cores h2 = <[a := st_update_ucontact cfg c]> (cores (w_heap w))
    ∧ ul_inv (wr_heap w h2) (wr_contacts r head') (place_updated cfg (q_of (cores h2)) l1 a l2).
Proof.
  intros Hinv Ha. pose proof Hinv as ((Hil & Hkv) & Hd & _).
  destruct (update_contact_pos_ok cfg _ _ _ _ _ Hil) as (h1 & head' & E1 & Hl1 & Hc1).
  set (l' := place_updated cfg _ l1 a l2) in *.
  assert (Hp : l' ≡ₚ l1 ++ a :: l2) by apply place_updated_perm.
  assert (Hal : a ∈ l') by (rewrite Hp; set_solver).
  assert (Hlk : list_ok h1 head' l') by (split; [done|by rewrite Hc1]).
  destruct (list_ok_lookup h1 head' l' a Hlk Hal) as (n & Hn & (m & Em & Hm) & _).
  assert (Ec : c = core (n_ct n)).
  { assert (Eh : cores h1 !! a = cores (w_heap w) !! a) by (unfold cores; by rewrite Hc1).
    rewrite cores_lookup, Hn, Ha in Eh. cbn in Eh. by injection Eh. }
  destruct (set_ct_ok h1 head' l' a (st_update_ucontact cfg (n_ct n)) Hlk Hal) as (h2 & E2 & Hl2 & Hc2).
  { destruct (st_update_state (n_ct n)) as [s ->]. by exists m. }
  assert (Ec2 : cores h2 = <[a := st_update_ucontact cfg c]> (cores (w_heap w))).
  { unfold cores. rewrite Hc2, fmap_insert, Hc1. f_equal. rewrite Ec. apply st_update_core. }
  exists h1, head', n, h2. split_and!; try done.
  assert (El : place_updated cfg (q_of (cores h2)) l1 a l2 = l').
  { unfold l'. apply place_updated_ext. intros b. rewrite <- q_of_cores. unfold q_of. rewrite Ec2.
    destruct (decide (a = b)) as [<-|]; [|by rewrite lookup_insert_ne].
    rewrite lookup_insert_eq, Ha. by destruct (st_update_state c) as [s ->]. }
  rewrite El. apply (ul_inv_heap w r (l1 ++ a :: l2)); try done.
  rewrite <- !cores_dom, Ec2, dom_insert_L, cores_dom, Hd. set_solver.
Qed.

(** What a successful update leaves. *)
Definition updated (w w' : ul_world) (r' : urecord) (l1 : list Z) (a : Z) (l2 : list Z)
    (c : ucontact) (ci : ucontact_info) : Prop :=
  ∃ c' s, same_contact ci c c' ∧ c_flags c' = ci_flags ci ∧ c_q c' = ci_q ci
    ∧ c_expires c' = ci_expires ci
    ∧ cores (w_heap w') = <[a := set_state s (core c')]> (cores (w_heap w))
    ∧ ul_inv w' r' (place_updated cfg (q_of (cores (w_heap w'))) l1 a l2)
    ∧ recency (ul_trace w') = recent (recency (ul_trace w)) (Event_update a)
    ∧ (sql_wmode cfg ≠ SQL_WRITE_THROUGH →
       set_state s (core c') = st_update_ucontact cfg (core c')
       ∧ ul_dbh w' = ul_dbh w ∧ cid_vals w' = cid_vals w).

Lemma update_ok ok w r l1 a l2 ci now skip c :
  ul_inv w r (l1 ++ a :: l2) → (∀ i, ok i = true) → cores (w_heap w) !! a = Some c →
  ∃ w' r', update_ucontact cfg ok w r a ci now skip = Some (w', r', 0)
    ∧ updated w w' r' l1 a l2 c ci.
Proof.
  intros Hinv Hok Ha. assert (Hal : a ∈ l1 ++ a :: l2) by set_solver.
  destruct (update_write ok w r _ a c ci now Hinv Hok Hal Ha)
    as (n & c' & h1 & p1 & Hn & Eu & Es & Er & Hi1 & Hkv' & Hsame & Hf & Hq & He & Hc1).
  unfold update_ucontact. rewrite Hn. cbn [mbind option_bind]. rewrite Eu. cbn [mbind option_bind].
  rewrite Es. cbn [mbind option_bind negb]. rewrite Er. cbn [mbind option_bind].
  set (w1 := emit (wr_refreshes (wr_heap w h1) p1) (Event_update a)).
  assert (Hi1' : ul_inv w1 r (l1 ++ a :: l2)) by exact Hi1.
  destruct (update_restore (ok 20%nat) w1 r _ c' skip Hi1' (Hok _) Hkv') as (r1 & -> & Hi1r & Ehd).
  cbn [mbind option_bind].
  destruct (update_replicate (λ i, ok (30 + i)%nat) w1 r1 _ a skip Hi1r) as (w2 & pk & -> & Hi2 & Hc2 & Ht2 & Hd2 & Hk2);
    [intros; apply Hok|]. cbn [mbind option_bind]. rewrite Hmem.
  pose proof (same_callbacks w2 UL_CONTACT_UPDATE a) as Hsw. pose proof (recency_callbacks w2 UL_CONTACT_UPDATE a) as Ht3.
  set (w3 := run_ul_callbacks cfg w2 UL_CONTACT_UPDATE a) in *.
  assert (Hi3 : ul_inv w3 r1 (l1 ++ a :: l2)) by (by eapply same_world_inv).
  destruct Hsw as (Hh3 & _ & Hd3 & Hk3 & _).
  assert (Hc3 : cores (w_heap w3) = <[a := core c']> (cores (w_heap w))) by (rewrite Hh3, Hc2; exact Hc1).
  destruct (update_move w3 r1 l1 a l2 (core c') Hi3) as (h4 & head' & n4 & h5 & -> & Hn4 & Es5 & Hc5 & Hi5);
    [by rewrite Hc3, lookup_insert_eq|].
  cbn [mbind option_bind w_heap wr_heap]. rewrite Hn4. cbn [mbind option_bind].
  rewrite Es5. cbn [mbind option_bind]. rewrite Hc3, insert_insert_eq in Hc5.
  change (wr_heap (wr_heap w3 h4) h5) with (wr_heap w3 h5).
  assert (Htr : recency (ul_trace w3) = recent (recency (ul_trace w)) (Event_update a)).
  { rewrite Ht3, Ht2. cbn [ul_trace emit w1 wr_refreshes wr_heap]. by rewrite recency_snoc. }
  destruct (st_update_state (core c')) as [s0 Es0].
  case_decide.
  - assert (E6 : ∃ h6, (if pk then '(h, _) ← persist_urecord_kv_store (λ i, ok (40 + i)%nat)
        h5 (wr_contacts r1 head'); Some h else Some h5) = Some h6
        ∧ ul_inv (wr_heap w3 h6) (wr_contacts r1 head') (place_updated cfg (q_of (cores h5)) l1 a l2)
        ∧ cores h6 = cores h5).
    { destruct pk; [|eauto].
      destruct (persist_world (λ i, ok (40 + i)%nat) (wr_heap w3 h5) (wr_contacts r1 head') _ Hi5) as (h6 & b & E & Hi6 & Hc6);
        [intros; apply Hok|]. cbn [w_heap wr_heap] in E. rewrite E. cbn. eauto. }
    destruct E6 as (h6 & -> & Hi6 & Hc6). cbn [mbind option_bind].
    change (wr_heap (wr_heap w3 h5) h6) with (wr_heap w3 h6).
    destruct (write_through_ok (db_update_ucontact cfg) (wr_heap w3 h6) (wr_contacts r1 head') _ a (st_update_ucontact cfg (core c')) Hi6)
      as (w7 & s & -> & Hi7 & Hc7 & Ht7); [cbn [w_heap wr_heap]; by rewrite Hc6, Hc5, lookup_insert_eq|].
    cbn [mbind option_bind]. eexists _, _. split; [done|]. exists c', s.
    cbn [w_heap wr_heap] in Hc7. rewrite Hc6, Hc5, insert_insert_eq, Es0 in Hc7.
    split_and!; try done.
    + erewrite place_updated_ext; [exact Hi7|]. intros b. rewrite Hc7, Hc5, Es0.
      by rewrite !(q_of_state _ _ (core c')), (q_of_state _ _ (set_state s0 (core c'))), q_of_state.
    + rewrite Ht7. exact Htr.
  - eexists _, _. split; [done|]. exists c', s0. rewrite <- Es0. split_and!; try done.
    intros _. split_and!; cbn [ul_dbh cid_vals wr_heap]; [done|by rewrite Hd3, Hd2|by rewrite Hk3, Hk2].
Qed.

(** ** Deletion *)

(** The contact waits for its removal by the timer, or it is removed at once. *)
Definition deleted (w w' : ul_world) (r' : urecord) (l1 : list Z) (a : Z) (l2 : list Z)
    (c : ucontact) : Prop :=
  cid_vals w' = cid_vals w
  ∧ (sql_wmode cfg ≠ SQL_WRITE_THROUGH → ul_dbh w' = ul_dbh w)
  ∧ ((c_state c ≠ CS_NEW ∧ ul_inv w' r' (l1 ++ a :: l2)
      ∧ cores (w_heap w') = <[a := set_expires UL_EXPIRED_TIME c]> (cores (w_heap w))
      ∧ recency (ul_trace w') = recency (ul_trace w))
     ∨ ((c_state c = CS_NEW ∨ sql_wmode cfg = SQL_WRITE_THROUGH) ∧ ul_inv w' r' (l1 ++ l2)
        ∧ cores (w_heap w') = delete a (cores (w_heap w))
        ∧ recency (ul_trace w') = filter (λ x, x ≠ a) (recency (ul_trace w)))).

Lemma delete_ok ok w r l1 a l2 now skip c :
  ul_inv w r (l1 ++ a :: l2) → (∀ a i, ok a i = true) → cores (w_heap w) !! a = Some c →
  ∃ w' r', delete_ucontact cfg ok w r a now skip = Some (w', r')
    ∧ deleted w w' r' l1 a l2 c.
Proof.
  intros Hinv Hok Ha. unfold delete_ucontact.
  set (w1 := if negb skip && have_data_replication cfg then _ else _).
  set (w2 := run_ul_callbacks cfg w1 UL_CONTACT_DELETE a).
  set (w3 := run_ul_callbacks cfg w2 UL_AOR_UPDATE 0).
  assert (Hs3 : same_world w w3 ∧ recency (ul_trace w3) = recency (ul_trace w)).
  { unfold w3, w2. rewrite !recency_callbacks. split.
    - eapply same_world_trans; [|apply same_callbacks]. eapply same_world_trans; [|apply same_callbacks].
      unfold w1. by destruct (negb skip && _).
    - unfold w1. destruct (negb skip && _); [|done]. cbn [ul_trace emit]. by rewrite recency_snoc. }
  destruct Hs3 as [Hs3 Hr3]. assert (Hi3 : ul_inv w3 r (l1 ++ a :: l2)) by (by eapply same_world_inv).
  destruct Hs3 as (Eh & _ & Ed & Ei & _). clearbody w3. clear w1 w2.
  destruct (at_contact w3 r l1 a l2 Hi3) as (n & Hn & _ & _ & _ & _ & Ha3 & m & Em & Hm).
  rewrite Eh, Ha in Ha3. injection Ha3 as ->. rewrite Hn. cbn [mbind option_bind].
  pose proof Hi3 as (Hl & _).
  assert (Hcase : (st_delete_ucontact cfg (n_ct n) = (set_expires UL_EXPIRED_TIME (n_ct n), false)
      ∧ c_state (n_ct n) ≠ CS_NEW)
    ∨ (st_delete_ucontact cfg (n_ct n) = (n_ct n, true)
      ∧ (c_state (n_ct n) = CS_NEW ∨ sql_wmode cfg = SQL_WRITE_THROUGH))).
  { unfold st_delete_ucontact. destruct (c_state (n_ct n)); [by right; auto|..];
      (destruct (bool_decide_reflect (sql_wmode cfg = SQL_WRITE_THROUGH)); [by right; auto|by left]). }
  destruct Hcase as [[-> Hst]|[-> Hst]].
  - destruct (set_ct_ok _ _ _ a (set_expires UL_EXPIRED_TIME (n_ct n)) Hl) as (h' & -> & Hl' & Hc');
      [set_solver|by exists m|]. cbn [mbind option_bind negb].
    assert (Ec : cores h' = <[a := set_expires UL_EXPIRED_TIME (core (n_ct n))]> (cores (w_heap w)))
      by (unfold cores; by rewrite Hc', fmap_insert, Eh).
    eexists _, _. split; [done|]. split; [done|]. split; [done|]. left. split_and!; try done.
    apply ul_inv_core; [done..|]. rewrite Ec, <- Eh, dom_insert_L, cores_dom.
    destruct Hi3 as (_ & -> & _). set_solver.
  - destruct (set_ct_core _ _ _ a (n_ct n) Hl) as (h' & -> & Hl' & Hc'); [set_solver|by exists m|by exists n|].
    cbn [mbind option_bind negb].
    set (w4 := if decide (sql_wmode cfg = SQL_WRITE_THROUGH) then _ else _).
    assert (H4 : ul_inv w4 r (l1 ++ a :: l2) ∧ w_heap w4 = h' ∧ cid_vals w4 = cid_vals w3 ∧ ul_trace w4 = ul_trace w3
      ∧ (sql_wmode cfg ≠ SQL_WRITE_THROUGH → ul_dbh w4 = ul_dbh w3)).
    { assert (ul_inv (wr_heap w3 h') r (l1 ++ a :: l2)) by (apply ul_inv_core; [done..|by rewrite Hc']).
      unfold w4. by case_decide. }
    destruct H4 as (Hi4 & Eh4 & Ei4 & Et4 & Ed4). clearbody w4.
    destruct (mem_delete_ok cfg Hmem (ok a) w4 r l1 a l2 Hi4 (Hok a)) as (h5 & head5 & -> & Hl5 & Hc5).
    cbn [mbind option_bind]. rewrite decide_False by (by apply not_sql_only).
    eexists _, _. split; [done|]. split; [cbn; congruence|]. split; [cbn; intros; rewrite Ed4; congruence|].
    right. split; [done|]. split; [by apply (ul_inv_delete cfg Hmem w4)|]. cbn [w_heap ul_trace].
    split; [by rewrite Hc5, Eh4, Hc', Eh|]. rewrite recency_snoc, Et4. cbn. by rewrite Hr3.
Qed.
End ops.

(** ** The pass of the timer *)

Section pass.
Context {TX : ul_text} {TXok : ul_text_ok} {DB : sql_api} {L : sql_laws}.
Variable cfg : ul_cfg.
Hypothesis Hmem : have_mem_storage cfg = true.

(** Between the operations no identifier waits for its deletion. *)
Definition db_ok (w : ul_world) : Prop := db_inv cfg (cores (w_heap w)) (sql_rows (ul_dbh w)) [].
Definition rows_ok (w : ul_world) : Prop := no_stuck (cores (w_heap w)) (sql_rows (ul_dbh w)) [].

(** The result of a pass that the database did not disturb. *)
Definition synchronized (now : Z) (w w' : ul_world) (removed : list ul_event) (l kept : list Z) : Prop :=
  kept = kept_valid (cores (w_heap w)) now l
  ∧ (∀ a c, a ∈ kept → cores (w_heap w') !! a = Some c → c_state c = CS_SYNC)
  ∧ (rows_ok w → rows_ok w')
  ∧ ul_trace w' = ul_trace w ++ expired_events cfg (cores (w_heap w)) now l ++ removed.

(** The notifications of the removal of a record. *)
Definition removal_events : list ul_event :=
  (if exists_ulcb_type cfg UL_AOR_EXPIRE then [Callback UL_AOR_EXPIRE 0] else []) ++ [Event_aor_delete].

(** The record after a pass that leaves the contacts [kept]: [None] when it is removed. *)
Definition record_left (r : urecord) (kept : list Z) : option urecord :=
  if (r_no_clear_ref r <=? 0) && bool_decide (kept = []) then None else Some (wr_contacts r (hd_or 0 kept)).

Lemma remove_if_empty_ok w r kept head :
  ul_inv w (wr_contacts r head) kept →
  ∃ w', remove_if_empty cfg w (wr_contacts r head) = (w', record_left r kept) ∧ same_world w w'
    ∧ recency (ul_trace w') = recency (ul_trace w)
    ∧ ul_trace w' = ul_trace w ++ match record_left r kept with None => removal_events | Some _ => [] end.
Proof.
  intros (((Eh & _ & H0 & _) & _) & _). cbn in Eh. subst head.
  unfold remove_if_empty, record_left, removal_events, mem_delete_urecord, run_ul_callbacks.
  cbn [r_no_clear_ref r_contacts wr_contacts].
  assert (E : (hd_or 0 kept =? 0) = bool_decide (kept = [])).
  { destruct kept as [|a kept]; [done|]. cbn [hd_or]. rewrite bool_decide_eq_false_2 by done.
    apply Z.eqb_neq. set_solver. }
  rewrite E. destruct (_ && _); [|eexists; rewrite app_nil_r; by split_and!].
  eexists. split; [done|]. destruct (exists_ulcb_type cfg UL_AOR_EXPIRE); split_and!; try done.
  - cbn [ul_trace emit]. by rewrite !recency_snoc.
  - cbn [ul_trace emit]. by rewrite <- app_assoc.
  - cbn [ul_trace emit]. by rewrite !recency_snoc.
Qed.

Lemma wb_timer_ok ok buf now w r l :
  ul_inv w r l → (∀ a i, ok a i = true) → rr_persist cfg = RRP_LOAD_FROM_SQL →
  ∃ w' head b kept, wb_timer cfg ok buf now w r = Some (w', wr_contacts r head, b)
    ∧ ul_inv w' (wr_contacts r head) kept
    ∧ swept now w w' l kept ∧ (inv_db cfg w → inv_db cfg w' ∧ passed cfg now w w' l kept).
Proof.
  intros Hinv Hok Hsql. unfold wb_timer. rewrite decide_True by done.
  destruct (persist_world (ok 0) w r l Hinv (Hok 0)) as (h & b & -> & Hi & Hc). cbn [mbind option_bind].
  pose proof Hi as ((Hil & _) & _). pose proof Hil as (Eh & _). rewrite Eh.
  destruct (wb_loop_ok cfg Hmem Hsql ok buf now l (S (size h)) [] (wr_heap w h) r false Hi)
    as (w' & head' & ins & kept & -> & Hi' & _ & Hsw & Hp); [|done|].
  { pose proof (list_fits _ _ _ Hil). cbn in *. lia. }
  exists w', head', ins, kept. split; [done|]. split; [done|].
  assert (Hcw : cores (w_heap (wr_heap w h)) = cores (w_heap w)) by exact Hc.
  split; [destruct Hsw; split; by rewrite <- ?Hcw|]. unfold inv_db in *. rewrite Hcw in Hp.
  intros Hdb. destruct (Hp Hdb) as [Hdb' [Hs1 Hs2 Hs3]]. split; [done|]. split.
  - destruct Hsw; split; by rewrite <- ?Hcw.
  - done.
  - by rewrite Hcw in Hs3.
Qed.

(** The visit of the record by the timer. *)
Lemma timer_urecord_ok ok now w r l :
  ul_inv w r l → (∀ a i, ok a i = true) →
  ∃ w' head b kept, timer_urecord cfg ok now w r = Some (w', wr_contacts r head, b)
    ∧ ul_inv w' (wr_contacts r head) kept ∧ swept now w w' l kept
    ∧ (rr_persist cfg = RRP_LOAD_FROM_SQL → inv_db cfg w → inv_db cfg w' ∧ passed cfg now w w' l kept).
Proof.
  intros Hi Hok. unfold timer_urecord. rewrite Hmem. cbn [negb].
  assert (Hno : ∃ w1 head b kept,
    ('(w, r) ← nodb_timer cfg (S (size (w_heap w))) ok now w r (r_contacts r); Some (w, r, false))
    = Some (w1, wr_contacts r head, b) ∧ ul_inv w1 (wr_contacts r head) kept ∧ swept now w w1 l kept).
  { pose proof Hi as ((Hil & _) & _). pose proof Hil as (Eh & _). rewrite Eh.
    destruct (nodb_timer_ok cfg Hmem ok now l (S (size (w_heap w))) [] w r Hi)
      as (w1 & head1 & kept & -> & Hi1 & _ & Hsw); [|done|].
    { pose proof (list_fits _ _ _ Hil). lia. }
    cbn [mbind option_bind]. by eexists _, _, _, kept. }
  destruct Hno as (w1 & h1 & b & kept & Eno & Hi1 & Hsw).
  destruct (rr_persist cfg) eqn:Ep; [by exists w1, h1, b, kept| |by exists w1, h1, b, kept].
  clear w1 h1 b kept Eno Hi1 Hsw.
  destruct (wb_timer_ok ok true now w r l Hi Hok Ep) as (w1 & h1 & b & kept & -> & Hi1 & Hsw & Hp).
  by exists w1, h1, b, kept.
Qed.

Lemma mem_timer_ok ok now w r l :
  ul_inv w r l → (∀ a i, ok a i = true) →
  ∃ w' ret kept, mem_timer_udomain cfg ok now w r = Some (w', record_left r kept, ret)
    ∧ ul_inv w' (wr_contacts r (hd_or 0 kept)) kept ∧ swept now w w' l kept
    ∧ (rr_persist cfg = RRP_LOAD_FROM_SQL → db_ok w →
       db_ok w' ∧ (sql_reliable → ret = 0 ∧
         synchronized now w w' (match record_left r kept with None => removal_events | Some _ => [] end) l kept)).
Proof.
  intros Hinv Hok. unfold mem_timer_udomain.
  destruct (timer_urecord_ok ok now (wr_cids w []) r l Hinv Hok)
    as (w1 & head & b & kept & -> & Hi1 & Hsw & Hp). cbn [mbind option_bind].
  destruct (remove_if_empty_ok w1 r kept head Hi1) as (w2 & -> & Hs2 & Hr2 & Ht2).
  assert (head = hd_or 0 kept) as -> by (by destruct Hi1 as (((Eh & _) & _) & _)).
  apply (same_world_inv w1 w2) in Hi1; [|done]. destruct Hs2 as (Eh2 & Er2 & Ed2 & Ei2 & Es2).
  cbn [r_domain wr_contacts]. pose proof (flush_cids_ok cfg w2 (r_domain r)) as Hf.
  destruct (flush_cids w2 (r_domain r)) as [w3 del]. destruct Hf as ((Eh & Er & Es & Et) & Hdel & Hdb & Hns).
  exists w3, (if del then 0 else -1), kept. split; [done|].
  split; [unfold ul_inv in *; by rewrite Eh, Er, Es|].
  split; [destruct Hsw; split; by rewrite ?Eh, ?Et, ?Eh2, ?Hr2|]. intros Ep Hdb0.
  destruct (Hp Ep Hdb0) as [Hdb1 [_ Hsy Hrel]]. unfold inv_db in Hdb1, Hdb. rewrite Eh2, Ed2, Ei2 in Hdb.
  split; [by apply Hdb|]. intros R. destruct (Hrel R) as (Hk & Hst & Htr).
  split; [by rewrite Hdel|]. split; [done|]. split; [|split].
  - intros a c Ha Hc. rewrite Eh, Eh2 in Hc. by eapply Hsy.
  - intros Hr. apply Hns; [done|]. unfold rows_known. rewrite Eh2, Ed2, Ei2. by apply Hst.
  - rewrite Et, Ht2, Htr. cbn [ul_trace wr_cids w_heap]. by rewrite <- app_assoc.
Qed.
End pass.
