(* ===== verification/UlTheorems.v ===== *)
(** * UlTheorems: what user location promises for a record

    Sequences of registrations, updates, deletions and timer passes on one record.  The
    theorems: the operations never access a null or freed contact and keep the contacts in
    order; the states of the contacts tell what the database has, whatever fails; a pass of
    the timer leaves exactly the valid contacts, in memory and in the database; matching and
    the identifiers of contacts.  A driver and requests on which the hypotheses are
    evaluated. *)

From stdpp Require Import prelude list strings gmap.
From Stdlib Require Import ZArith Lia.
From S2P Require Import Prelude CString UriParser UriOps HashFunc UlContact UlRecord UlFacts UlSync UlOps.

(** ** Runs *)

(** A registration of an address whose record the timer removed creates the record again: a
    pass that removes it ends with its creation, with a label and a random number. *)

Definition all_ok (i : nat) : bool := true.
Definition all_ok2 (a : Z) (i : nat) : bool := true.

Inductive ul_op :=
  | OpInsert (a : Z) (contact : bytes) (ci : ucontact_info) (ok : nat → bool) (now : Z) (skip : bool)
  | OpUpdate (a : Z) (ci : ucontact_info) (now : Z) (skip : bool)
  | OpDelete (a : Z) (now : Z) (skip : bool)
  | OpTimer (now label rand : Z)
  | OpRefresh (now : Z).

Section runs.
Context {TX : ul_text} {DB : sql_api}.
Variable cfg : ul_cfg.

Definition ul_state : Type := ul_world * urecord.

Definition ul_step (s : ul_state) (op : ul_op) : option ul_state :=
  let '(w, r) := s in
  match op with
  | OpInsert a contact ci ok now skip =>
      '(w, r, _, _) ← insert_ucontact cfg ok w r a contact ci now skip; Some (w, r)
  | OpUpdate a ci now skip =>
      '(w, r, _) ← update_ucontact cfg all_ok w r a ci now skip; Some (w, r)
  | OpDelete a now skip => delete_ucontact cfg all_ok2 w r a now skip
  | OpTimer now label rand =>
      '(w, rec, _) ← mem_timer_udomain cfg all_ok2 now w r;
      match rec with
      | Some r => Some (w, r)
      | None =>
          let '(w, rec) := insert_urecord cfg all_ok w (r_domain r) (r_aor r) false label rand in
          r ← rec; Some (w, r)
      end
  | OpRefresh now => '(w, _) ← trigger_ct_refreshes w now; Some (w, r)
  end.

Fixpoint ul_exec (s : ul_state) (ops : list ul_op) : option ul_state :=
  match ops with
  | [] => Some s
  | op :: ops' => s' ← ul_step s op; ul_exec s' ops'
  end.

(** [P] holds of every operation in the state it is run in. *)
Fixpoint ul_along (P : ul_state → ul_op → Prop) (s : ul_state) (ops : list ul_op) : Prop :=
  match ops with
  | [] => True
  | op :: ops' => P s op ∧ ∀ s', ul_step s op = Some s' → ul_along P s' ops'
  end.

(** A new contact has an address of its own, the allocations for its keys succeed, and the
    callback puts values; the other operations get a contact of the record. *)
Definition op_valid (s : ul_state) (op : ul_op) : Prop :=
  match op with
  | OpInsert a _ ci ok _ _ =>
      a ∉ dom (w_heap s.1) ∧ a ≠ 0 ∧ (∀ i, (10 ≤ i)%nat → ok i = true) ∧ pre_ok ci
  | OpUpdate a _ _ _ | OpDelete a _ _ => a ∈ dom (w_heap s.1)
  | OpTimer _ _ _ | OpRefresh _ => True
  end.

(** An update that keeps the q value. *)
Definition keeps_q (s : ul_state) (op : ul_op) : Prop :=
  match op with
  | OpUpdate a ci _ _ => ∀ n, w_heap s.1 !! a = Some n → ci_q ci = c_q (n_ct n)
  | _ => True
  end.

(** A record in the table without contacts. *)
Definition fresh_record (w : ul_world) (r : urecord) : Prop :=
  w_heap w = ∅ ∧ pending_refreshes w = [] ∧ stat_contacts w = 0 ∧ ul_trace w = []
  ∧ r_contacts r = 0 ∧ r_slot r = true ∧ is_Some (r_kv_storage r).

Lemma fresh_inv w r : fresh_record w r → ul_inv w r [].
Proof.
  intros (Eh & Ep & Es & Et & Ec & Hs & Hk). unfold ul_inv. rewrite Eh, Ep, Es, Ec. split_and!; try done.
  - split; [|unfold heap_kv, cts; rewrite fmap_empty; apply map_Forall_empty]. split_and!; [done|constructor|apply not_elem_of_nil|done].
  - constructor.
Qed.

Lemma trigger_ok h now p :
  (∀ x, x ∈ p → is_Some (h !! x)) →
  ∃ fired rest, trigger_loop h now p = Some (fired, rest) ∧ p = fired ++ rest.
Proof.
  induction p as [|x p IH]; intros Hin; cbn [trigger_loop]; [by eexists _, _|].
  destruct (Hin x) as [n ->]; [by left|]. cbn [mbind option_bind].
  destruct (now <? _); [by eexists [], _|].
  destruct IH as (fired & rest & -> & ->); [intros; apply Hin; by right|]. by eexists _, _.
Qed.

Lemma refresh_ok w r l now :
  ul_inv w r l →
  ∃ w' fired, trigger_ct_refreshes w now = Some (w', fired) ∧ ul_inv w' r l
    ∧ w_heap w' = w_heap w ∧ ul_trace w' = ul_trace w ∧ ul_dbh w' = ul_dbh w.
Proof.
  intros (Hl & Hd & Hnd & Hsub & Hst & Hslot & Hkv). unfold trigger_ct_refreshes.
  destruct (trigger_ok (w_heap w) now (pending_refreshes w)) as (fired & rest & -> & E).
  { intros x Hx. apply elem_of_dom. rewrite Hd. apply elem_of_list_to_set. by apply Hsub. }
  cbn [mbind option_bind]. eexists _, fired. split; [done|]. rewrite E in Hnd, Hsub.
  split; [|done]. split_and!; try done; cbn.
  - by apply NoDup_app in Hnd as (_ & _ & Hnd).
  - intros x Hx. apply Hsub. set_solver.
Qed.
End runs.

(** ** Order *)

Lemma sublist_filter (l kept : list Z) :
  NoDup l → kept `sublist_of` l → filter (λ x, x ∉ l ∨ x ∈ kept) l = kept.
Proof.
  intros Hnd Hsub.
  assert (E : ∀ l' : list Z, (∀ x, x ∈ l' → x ∈ l) →
    filter (λ x, x ∉ l ∨ x ∈ kept) l' = filter (λ x, x ∈ kept) l').
  { induction l' as [|x l' IH]; intros Hin; [done|]. rewrite !filter_cons, IH by set_solver.
    repeat case_decide; try done; set_solver. }
  rewrite E by done. clear E. induction Hsub as [|x k l Hs IH|x k l Hs IH]; [done| |];
    apply NoDup_cons in Hnd as [Hx Hnd].
  - rewrite filter_cons_True by (by left). f_equal.
    assert (E : ∀ l' : list Z, x ∉ l' → filter (λ y, y ∈ x :: k) l' = filter (λ y, y ∈ k) l').
    { induction l' as [|y l' IHl]; intros Hy; [done|]. rewrite !filter_cons, IHl by set_solver.
      repeat case_decide; try done; set_solver. }
    etransitivity; [by apply E|by apply IH].
  - rewrite filter_cons_False; [by apply IH|]. intros Hk. apply Hx. by eapply elem_of_sublist.
Qed.

Lemma q_sorted_sublist q kept l : kept `sublist_of` l → q_sorted q l → q_sorted q kept.
Proof.
  induction 1 as [|x k l Hs IH|x k l Hs IH]; cbn [q_sorted]; [done| |].
  - intros [Hx Hl]. split; [|by apply IH]. rewrite Forall_forall in *. intros b Hb.
    apply Hx. by eapply elem_of_sublist.
  - intros [_ Hl]. by apply IH.
Qed.

Lemma q_sorted_in_place q l1 a l2 : q_sorted q (l1 ++ a :: l2) → in_place q l1 a l2 = true.
Proof.
  intros Hs. apply q_sorted_app in Hs as (_ & [Ha _] & H12). unfold in_place. apply andb_true_iff. split.
  - destruct (last l1) as [b|] eqn:E; [|done]. apply Z.leb_le, H12; [|by left].
    apply last_Some in E as [l' ->]. set_solver.
  - destruct l2 as [|b l2]; [done|]. apply Z.leb_le. rewrite Forall_forall in Ha. apply Ha. by left.
Qed.

Section safe.
Context {TX : ul_text} {TXok : ul_text_ok} {DB : sql_api} {L : sql_laws}.
Variable cfg : ul_cfg.
Hypothesis Hmem : have_mem_storage cfg = true.

(** The order of the contacts after a step: by time as the events tell, or by q. *)
Definition order_kept (s s' : ul_state) (op : ul_op) (l l' : list Z) : Prop :=
  (desc_time_order cfg = true → l = recency (ul_trace s.1) → l' = recency (ul_trace s'.1))
  ∧ (desc_time_order cfg = false → keeps_q s op →
     q_sorted (q_of (cores (w_heap s.1))) l → q_sorted (q_of (cores (w_heap s'.1))) l').

Lemma q_of_insert_ne m a c b : b ≠ a → q_of (<[a := c]> m) b = q_of m b.
Proof. intros Hb. unfold q_of. by rewrite lookup_insert_ne. Qed.

Lemma inserted_order w r w' r' l a id ci op :
  a ∉ l → inserted cfg w w' r' l a id ci →
  order_kept (w, r) (w', r') op l (place_new cfg (q_of (cores (w_heap w'))) a l).
Proof.
  intros Ha (ct & s & _ & _ & _ & _ & _ & Hc & _ & Hr & _). split; cbn [fst].
  - intros Ho ->. unfold place_new. by rewrite Ho, Hr.
  - intros Ho _ Hs. apply place_new_sorted; [done|]. eapply q_sorted_ext; [|done].
    intros b Hb. rewrite Hc, q_of_insert_ne; [done|]. by intros ->.
Qed.

Lemma updated_order w r w' r' l1 a l2 c ci now skip :
  ul_inv w r (l1 ++ a :: l2) → cores (w_heap w) !! a = Some c → updated cfg w w' r' l1 a l2 c ci →
  order_kept (w, r) (w', r') (OpUpdate a ci now skip) (l1 ++ a :: l2)
    (place_updated cfg (q_of (cores (w_heap w'))) l1 a l2).
Proof.
  intros Hinv Ha (c' & s & _ & _ & Hq & _ & Hc & _ & Hr & _).
  destruct (at_contact w r l1 a l2 Hinv) as (n & Hn & _ & _ & H1 & H2 & Hn' & _).
  split; cbn [fst keeps_q].
  - intros Ho E. unfold place_updated. rewrite Ho, Hr, <- E. cbn [recent]. by rewrite filter_middle.
  - intros Ho Hkq Hs. specialize (Hkq n Hn). unfold place_updated. rewrite Ho.
    assert (Eq : ∀ b, q_of (cores (w_heap w')) b = q_of (cores (w_heap w)) b).
    { intros b. destruct (decide (b = a)) as [->|]; [|by rewrite Hc, q_of_insert_ne].
      unfold q_of. rewrite Hc, lookup_insert_eq, Hn'. cbn. by rewrite Hq. }
    assert (Hs' : q_sorted (q_of (cores (w_heap w'))) (l1 ++ a :: l2))
      by (eapply q_sorted_ext; [|done]; intros; by rewrite Eq).
    by rewrite (q_sorted_in_place _ l1 a l2 Hs').
Qed.

Lemma swept_order w r w' r' l kept now op :
  NoDup l → swept now w w' l kept → order_kept (w, r) (w', r') op l kept.
Proof.
  intros Hnd [Hk _ Hsub Hr]. split; cbn [fst].
  - intros _ E. rewrite Hr, <- E. symmetry. by apply sublist_filter.
  - intros _ _ Hs. apply (q_sorted_sublist _ kept) in Hs; [|done]. eapply q_sorted_ext; [|done].
    intros a Ha. destruct (Hk a Ha) as (c & s & E1 & E2). unfold q_of. by rewrite E1, E2.
Qed.

Lemma deleted_order w r w' r' l1 a l2 c op :
  ul_inv w r (l1 ++ a :: l2) → cores (w_heap w) !! a = Some c → deleted cfg w w' r' l1 a l2 c →
  ∃ l', ul_inv w' r' l' ∧ order_kept (w, r) (w', r') op (l1 ++ a :: l2) l'.
Proof.
  intros Hinv Ha (_ & _ & [(_ & Hi & Hc & Hr)|(_ & Hi & Hc & Hr)]);
    destruct (at_contact w r l1 a l2 Hinv) as (n & _ & _ & _ & H1 & H2 & _ & _).
  - exists (l1 ++ a :: l2). split; [done|]. split; cbn [fst]; [by rewrite Hr|]. intros _ _ Hs.
    eapply q_sorted_ext; [|done]. intros b _. rewrite Hc. unfold q_of.
    destruct (decide (b = a)) as [->|]; [by rewrite lookup_insert_eq, Ha|by rewrite lookup_insert_ne].
  - exists (l1 ++ l2). split; [done|]. split; cbn [fst].
    + intros _ E. rewrite Hr, <- E. by rewrite filter_middle.
    + intros _ _ Hs. apply q_sorted_app in Hs as (Hs1 & [_ Hs2] & H12).
      assert (Hs : q_sorted (q_of (cores (w_heap w))) (l1 ++ l2))
        by (apply q_sorted_app; split_and!; try done; intros; apply H12; set_solver).
      eapply q_sorted_ext; [|done]. intros b Hb. unfold q_of. rewrite Hc, lookup_delete_ne; [done|].
      intros <-. set_solver.
Qed.

Lemma dom_split w r l a : ul_inv w r l → a ∈ dom (w_heap w) →
  ∃ l1 l2 c, l = l1 ++ a :: l2 ∧ cores (w_heap w) !! a = Some c.
Proof.
  intros Hinv Ha. destruct Hinv as (_ & Hd & _). pose proof Ha as Hc. rewrite <- cores_dom in Hc.
  apply elem_of_dom in Hc as [c Hc]. rewrite Hd in Ha. apply elem_of_list_to_set in Ha.
  apply list_elem_of_split in Ha as (l1 & l2 & ->). eauto.
Qed.

(** A record that is created again. *)
Lemma insert_urecord_ok w dm aor label rand r :
  ul_inv w r [] →
  ∃ w' r', insert_urecord cfg all_ok w dm aor false label rand = (w', Some r') ∧ ul_inv w' r' []
    ∧ same_world w w' ∧ recency (ul_trace w') = recency (ul_trace w).
Proof.
  intros (_ & Hd & Hnd & Hsub & Hst & _). unfold insert_urecord, mem_insert_urecord, new_urecord, all_ok. cbn [andb].
  eexists _, _. split; [done|]. unfold run_ul_callbacks.
  assert (Eh : w_heap w = ∅) by (by apply dom_empty_inv_L).
  assert (Hr : ∀ tr, recency (tr ++ [Event_aor_insert]) = recency tr) by (intros; by rewrite recency_snoc).
  assert (Hi : ul_inv (emit w Event_aor_insert)
    (init_urecord_labels (URecord dm aor (core_hash aor None 0) 0 0 0 true 0 (Some ∅)) label rand).1 []).
  { unfold ul_inv, emit, init_urecord_labels. cbn. rewrite Eh in *. split_and!; try done.
    split; [split_and!; [done|constructor|apply not_elem_of_nil|done]|].
    unfold heap_kv, cts. rewrite fmap_empty. apply map_Forall_empty. }
  destruct (exists_ulcb_type cfg UL_AOR_INSERT); split_and!; try done; cbn [ul_trace emit];
    [by rewrite recency_snoc, Hr|by rewrite Hr].
Qed.

(** A pass of the timer in a run. *)
Lemma timer_step_ok now label rand w r l :
  ul_inv w r l →
  ∃ w1 ret w' r' kept,
    mem_timer_udomain cfg all_ok2 now w r = Some (w1, record_left r kept, ret)
    ∧ ul_step cfg (w, r) (OpTimer now label rand) = Some (w', r')
    ∧ ul_inv w' r' kept ∧ same_world w1 w' ∧ swept now w w' l kept
    ∧ (rr_persist cfg = RRP_LOAD_FROM_SQL → db_ok cfg w →
       db_ok cfg w1 ∧ (sql_reliable → rows_ok w → rows_ok w1)).
Proof.
  intros Hinv. cbn [ul_step].
  destruct (mem_timer_ok cfg Hmem all_ok2 now w r l Hinv) as (w1 & ret & kept & Et & Hi & Hsw & Hp); [done|].
  rewrite Et. cbn [mbind option_bind].
  assert (Hp' : rr_persist cfg = RRP_LOAD_FROM_SQL → db_ok cfg w →
    db_ok cfg w1 ∧ (sql_reliable → rows_ok w → rows_ok w1)).
  { intros Hs Hdb. destruct (Hp Hs Hdb) as [Hd Hrel]. split; [done|]. intros R.
    by destruct (Hrel R) as (_ & _ & _ & Hns & _). }
  destruct (record_left r kept) as [r'|] eqn:El.
  - assert (r' = wr_contacts r (hd_or 0 kept)) as ->
      by (unfold record_left in El; destruct (_ && _) in El; by simplify_eq).
    eexists w1, ret, w1, _, kept. rewrite El. by split_and!.
  - assert (Ek : kept = []).
    { unfold record_left in El. destruct (bool_decide_reflect (kept = [])); [done|]. by rewrite andb_false_r in El. }
    subst kept.
    destruct (insert_urecord_ok w1 (r_domain r) (r_aor r) label rand _ Hi) as (w2 & r2 & -> & Hi2 & Hs2 & Hr2).
    exists w1, ret, w2, r2, []. rewrite El. split_and!; try done. pose proof Hs2 as (Eh & _).
    destruct Hsw as [Hk Hv Hsub Hre]. split; [by rewrite Eh|done|done|by rewrite Hr2].
Qed.

Lemma step_ok w r l op :
  ul_inv w r l → op_valid (w, r) op →
  ∃ w' r' l', ul_step cfg (w, r) op = Some (w', r') ∧ ul_inv w' r' l'
    ∧ order_kept (w, r) (w', r') op l l'.
Proof.
  intros Hinv Hv. destruct op as [a contact ci ok now skip|a ci now skip|a now skip|now label rand|now]; cbn [ul_step].
  - destruct Hv as (Ha & Ha0 & Hok & Hpre). cbn [fst] in Ha.
    assert (Hal : a ∉ l).
    { intros Hin. apply Ha. destruct Hinv as (_ & -> & _). by apply elem_of_list_to_set. }
    destruct (insert_ok cfg Hmem ok w r l a contact ci now skip Hinv Hal Ha0 Hok Hpre)
      as (w' & r' & ret & c & -> & Hcase). cbn [mbind option_bind]. exists w', r'.
    destruct Hcase as [(_ & -> & Hi)|(_ & -> & Hins)].
    + exists l. split_and!; try done.
    + eexists. split; [done|]. split; [|by eapply inserted_order].
      destruct Hins as (ct & s & _ & _ & _ & _ & _ & _ & Hi & _). exact Hi.
  - destruct (dom_split w r l a Hinv Hv) as (l1 & l2 & c & -> & Hc).
    destruct (update_ok cfg Hmem all_ok w r l1 a l2 ci now skip c Hinv) as (w' & r' & -> & Hu); [done..|].
    cbn [mbind option_bind]. exists w', r'. eexists. split; [done|]. split; [|by eapply updated_order].
    destruct Hu as (c' & s & _ & _ & _ & _ & _ & Hi & _). exact Hi.
  - destruct (dom_split w r l a Hinv Hv) as (l1 & l2 & c & -> & Hc).
    destruct (delete_ok cfg Hmem all_ok2 w r l1 a l2 now skip c Hinv) as (w' & r' & -> & Hdel); [done..|].
    destruct (deleted_order w r w' r' l1 a l2 c (OpDelete a now skip) Hinv Hc Hdel) as (l' & Hi & Ho).
    by exists w', r', l'.
  - destruct (timer_step_ok now label rand w r l Hinv) as (w1 & ret & w' & r' & kept & _ & E & Hi & _ & Hsw & _).
    exists w', r', kept. split; [exact E|]. split; [done|].
    eapply swept_order; [|done]. by destruct Hinv as (((_ & ? & _) & _) & _).
  - destruct (refresh_ok w r l now Hinv) as (w' & fired & -> & Hi & Eh & Et & _). cbn [mbind option_bind].
    exists w', r, l. split; [done|]. split; [done|]. unfold order_kept. cbn [fst]. by rewrite Eh, Et.
Qed.

Lemma run_ok ops : ∀ w r l,
  ul_inv w r l → ul_along cfg op_valid (w, r) ops →
  ∃ w' r' l', ul_exec cfg (w, r) ops = Some (w', r') ∧ ul_inv w' r' l'
    ∧ (desc_time_order cfg = true → l = recency (ul_trace w) → l' = recency (ul_trace w'))
    ∧ (desc_time_order cfg = false → ul_along cfg keeps_q (w, r) ops →
       q_sorted (q_of (cores (w_heap w))) l → q_sorted (q_of (cores (w_heap w'))) l').
Proof.
  induction ops as [|op ops IH]; intros w r l Hinv Hv; cbn [ul_exec ul_along] in *.
  - by exists w, r, l.
  - destruct Hv as [Hv Hrest]. destruct (step_ok w r l op Hinv Hv) as (w1 & r1 & l1 & E & Hi1 & Ho1 & Hq1).
    rewrite E. cbn [mbind option_bind].
    destruct (IH w1 r1 l1 Hi1 (Hrest _ E)) as (w' & r' & l' & E' & Hi' & Ho & Hq).
    exists w', r', l'. split_and!; try done.
    + intros Hd El. apply Ho; [done|]. by apply Ho1.
    + intros Hd [Hk Hks] Hs. apply Hq; [done|by apply Hks|by apply Hq1].
Qed.

(** ** Rows *)

(** A new contact has an identifier of its own; an update leaves the flag that keeps a contact
    out of the database as it is and keeps the address of the contact, which is not written
    to its row ([updated_address_not_stored]). *)
Definition op_db (s : ul_state) (op : ul_op) : Prop :=
  match op with
  | OpInsert _ _ ci _ _ _ =>
      sql_rows (ul_dbh s.1) !! insert_id_of s.2 ci = None
      ∧ ∀ a n, w_heap s.1 !! a = Some n → contact_id (n_ct n) ≠ insert_id_of s.2 ci
  | OpUpdate a ci _ _ =>
      ∀ n, w_heap s.1 !! a = Some n → has_flag (ci_flags ci) FL_MEM = mem_only (n_ct n)
        ∧ default (c_c (n_ct n)) (ci_c ci) = c_c (n_ct n)
  | _ => True
  end.

Hypothesis Hsql : rr_persist cfg = RRP_LOAD_FROM_SQL.
Hypothesis Hwb : sql_wmode cfg ≠ SQL_WRITE_THROUGH.

Lemma db_inv_new m rows cids a c :
  db_inv cfg m rows cids → m !! a = None → c_state c = CS_NEW → rows !! contact_id c = None →
  contact_id c ∉ cids → (∀ b d, m !! b = Some d → contact_id d ≠ contact_id c) →
  db_inv cfg (<[a := c]> m) rows cids.
Proof.
  intros [Hinj Hst] Ha Hnew Hrow Hcid Hid. split.
  - intros x y cx cy [[<- <-]|[? Hx]]%lookup_insert_Some [[<- <-]|[? Hy]]%lookup_insert_Some E; try done.
    + by destruct (Hid y cy Hy).
    + by destruct (Hid x cx Hx).
    + by eapply Hinj.
  - intros x cx [[<- <-]|[? Hx]]%lookup_insert_Some Hm; [|by apply (Hst x)].
    split; [|done]. unfold st_ok. by rewrite Hnew.
Qed.

(** The contacts change and keep their identifiers. *)
Lemma no_stuck_mono m m' rows cids :
  no_stuck m rows cids →
  (∀ a c, m !! a = Some c → mem_only c = false →
     ∃ c', m' !! a = Some c' ∧ contact_id c' = contact_id c ∧ mem_only c' = false) →
  no_stuck m' rows cids.
Proof.
  intros Hns Hm id Hid. destruct (Hns id Hid) as [?|(a & c & Ha & <- & Hc)]; [by left|right].
  destruct (Hm a c Ha Hc) as (c' & Ha' & E & Hc'). eauto.
Qed.

Lemma insert_db w r w' r' l a ci contact ok now skip :
  ul_inv w r l → a ∉ l → op_db (w, r) (OpInsert a contact ci ok now skip) →
  inserted cfg w w' r' l a (insert_id_of r ci) ci → db_ok cfg w →
  db_ok cfg w' ∧ (rows_ok w → rows_ok w').
Proof.
  intros (_ & Hd & _) Hal [Hrow Hid] (ct & s & Hnew & Eid & Hfl & _ & _ & Hc & _ & _ & Hs) Hdb.
  destruct (Hs Hwb) as (-> & Ed & _). cbn [fst snd] in *.
  assert (Ha : cores (w_heap w) !! a = None).
  { apply not_elem_of_dom. rewrite cores_dom, Hd. by rewrite elem_of_list_to_set. }
  unfold db_ok, rows_ok. rewrite Hc, Ed. split.
  - apply db_inv_new; try done; [cbn; by rewrite Eid|apply not_elem_of_nil|].
    intros b d Hb. rewrite cores_lookup in Hb. destruct (w_heap w !! b) as [n|] eqn:En; [|done].
    injection Hb as <-. cbn. rewrite Eid. by apply (Hid b).
  - intros Hns. eapply no_stuck_mono; [done|]. intros b d Hb Hm. exists d.
    rewrite lookup_insert_ne; [done|]. intros <-. by rewrite Ha in Hb.
Qed.

Lemma update_db w r w' r' l1 a l2 c ci now skip :
  ul_inv w r (l1 ++ a :: l2) → cores (w_heap w) !! a = Some c →
  op_db (w, r) (OpUpdate a ci now skip) → updated cfg w w' r' l1 a l2 c ci → db_ok cfg w →
  db_ok cfg w' ∧ (rows_ok w → rows_ok w').
Proof.
  intros Hinv Ha Hfl (c' & s & (Eid & Eaor & _ & Einst & Est & Eaddr) & Ef & _ & _ & Hc & _ & _ & Hs) Hdb.
  destruct (Hs Hwb) as (Eup & Ed & _).
  destruct (at_contact w r l1 a l2 Hinv) as (n & Hn & _ & _ & _ & _ & Ha' & _).
  rewrite Ha in Ha'. injection Ha' as ->. destruct (Hfl n Hn) as [Hfm Hfa].
  change (c_c (core (n_ct n))) with (c_c (n_ct n)) in Eaddr. rewrite Hfa in Eaddr.
  assert (Em : mem_only c' = mem_only (core (n_ct n))) by (unfold mem_only at 1; by rewrite Ef).
  assert (Hst : mem_only (core (n_ct n)) = false → st_ok cfg (sql_rows (ul_dbh w)) (st_update_ucontact cfg (core c'))).
  { intros Hm. destruct Hdb as [_ Hdb]. destruct (Hdb a _ Ha Hm) as [Ho _].
    assert (Efix : fixed_columns (contact_row cfg c') = fixed_columns (contact_row cfg (core (n_ct n)))).
    { unfold fixed_columns, contact_row. cbn [col_user col_domain col_contact col_instance]. by rewrite Eaor, Einst, Eaddr. }
    unfold st_ok, st_update_ucontact in *. cbn [c_state core set_kv] in *. rewrite Est.
    destruct (c_state (n_ct n)) eqn:Es; cbn [core set_kv c_state contact_id] in *.
    - rewrite Est. cbn. by rewrite Eid.
    - rewrite (bool_decide_eq_true_2 _ Hsql), orb_true_r. cbn. rewrite Eid. destruct Ho as (row & Hr & Hf & _).
      exists row. split; [done|]. etransitivity; [exact Hf|]. symmetry. exact Efix.
    - rewrite Est. cbn. rewrite Eid. destruct Ho as (row & Hr & Hf).
      exists row. split; [done|]. etransitivity; [exact Hf|]. symmetry. exact Efix. }
  unfold db_ok, rows_ok. rewrite Hc, Ed, Eup. destruct (st_update_state cfg (core c')) as [s' Es'].
  split.
  - eapply db_inv_change; try done; rewrite Es'; done.
  - intros Hns. eapply no_stuck_mono; [done|]. intros b d Hb Hm. destruct (decide (b = a)) as [->|].
    + rewrite Ha in Hb. injection Hb as <-. eexists. rewrite lookup_insert_eq. split; [done|].
      rewrite Es'. split; [done|]. by rewrite <- Hm, <- Em.
    + exists d. by rewrite lookup_insert_ne.
Qed.

Lemma delete_db w r w' r' l1 a l2 c :
  ul_inv w r (l1 ++ a :: l2) → cores (w_heap w) !! a = Some c → deleted cfg w w' r' l1 a l2 c →
  db_ok cfg w → db_ok cfg w' ∧ (rows_ok w → rows_ok w').
Proof.
  intros Hinv Ha (_ & Ed & Hcase) Hdb. specialize (Ed Hwb). unfold db_ok, rows_ok. rewrite Ed.
  destruct Hcase as [(Hst & _ & Hc & _)|([Hst|?] & _ & Hc & _)]; [| |done]; rewrite Hc.
  - split.
    + eapply db_inv_change; try done. intros Hm. destruct Hdb as [_ Hdb]. destruct (Hdb a c Ha Hm) as [Ho _].
      unfold st_ok in *. cbn [c_state set_expires contact_id] in *.
      destruct (c_state c); [done| |done]. destruct Ho as (row & Hr & Hf & _).
      exists row. split_and!; try done.
    + intros Hns. eapply no_stuck_mono; [done|]. intros b d Hb Hm. destruct (decide (b = a)) as [->|].
      * rewrite Ha in Hb. injection Hb as <-. eexists. by rewrite lookup_insert_eq.
      * exists d. by rewrite lookup_insert_ne.
  - split.
    + eapply db_inv_delete; try done. intros id Hid%not_elem_of_nil. done.
    + intros Hns. eapply no_stuck_delete; try done. intros id Hid Hn. split_and!; try done. by left.
Qed.

Lemma step_db w r l op w' r' :
  ul_inv w r l → op_valid (w, r) op → op_db (w, r) op → ul_step cfg (w, r) op = Some (w', r') →
  db_ok cfg w → db_ok cfg w' ∧ (sql_reliable → rows_ok w → rows_ok w').
Proof.
  intros Hinv Hv Hop E Hdb. destruct op as [a contact ci ok now skip|a ci now skip|a now skip|now label rand|now]; cbn [ul_step] in E.
  - destruct Hv as (Ha & Ha0 & Hok & Hpre). cbn [fst] in Ha.
    assert (Hal : a ∉ l).
    { intros Hin. apply Ha. destruct Hinv as (_ & -> & _). by apply elem_of_list_to_set. }
    destruct (insert_ok cfg Hmem ok w r l a contact ci now skip Hinv Hal Ha0 Hok Hpre)
      as (w1 & r1 & ret & c & E1 & Hcase). rewrite E1 in E. cbn in E. injection E as <- <-.
    destruct Hcase as [(_ & -> & _)|(_ & _ & Hins)]; [done|].
    destruct (insert_db w r w1 r1 l a ci contact ok now skip Hinv Hal Hop Hins Hdb). by split.
  - destruct (dom_split w r l a Hinv Hv) as (l1 & l2 & c & -> & Hc).
    destruct (update_ok cfg Hmem all_ok w r l1 a l2 ci now skip c Hinv) as (w1 & r1 & E1 & Hu); [done..|].
    rewrite E1 in E. cbn in E. injection E as <- <-.
    destruct (update_db w r w1 r1 l1 a l2 c ci now skip Hinv Hc Hop Hu Hdb). by split.
  - destruct (dom_split w r l a Hinv Hv) as (l1 & l2 & c & -> & Hc).
    destruct (delete_ok cfg Hmem all_ok2 w r l1 a l2 now skip c Hinv) as (w1 & r1 & E1 & Hdel); [done..|].
    rewrite E1 in E. injection E as <- <-.
    destruct (delete_db w r w1 r1 l1 a l2 c Hinv Hc Hdel Hdb). by split.
  - destruct (timer_step_ok now label rand w r l Hinv) as (w1 & ret & w2 & r2 & kept & _ & E1 & _ & Hs & _ & Hp).
    cbn [ul_step] in E1. rewrite E1 in E. injection E as <- <-. destruct (Hp Hsql Hdb) as [Hdb' Hrel].
    destruct Hs as (Eh & _ & Ed & _). unfold db_ok, rows_ok in *. by rewrite Eh, Ed.
  - destruct (refresh_ok w r l now Hinv) as (w1 & fired & E1 & _ & Eh & _ & Ed). rewrite E1 in E. cbn in E.
    injection E as <- <-. unfold db_ok, rows_ok. by rewrite Eh, Ed.
Qed.
End safe.

(** ** Identifiers *)

Lemma clabel_mask x : Z.land x CLABEL_MASK = x mod 2 ^ 14.
Proof. unfold CLABEL_MASK. change (Z.shiftl 1 14 - 1) with (Z.ones 14). apply Z.land_ones. lia. Qed.

Lemma pack_value h r c :
  0 <= h < 2 ^ 16 → 0 <= r < 2 ^ 32 →
  pack_indexes h r c = c mod 2 ^ 14 + r * 2 ^ 14 + h * 2 ^ 46
  ∧ 0 <= pack_indexes h r c < 2 ^ 62.
Proof.
  intros Hh Hr. unfold pack_indexes. rewrite clabel_mask, !Z.shiftl_mul_pow2 by lia.
  pose proof (Z.mod_pos_bound c (2 ^ 14) ltac:(lia)).
  rewrite (wrap_small 64 (r * 2 ^ 14)), (wrap_small 64 (h * 2 ^ 46)) by lia.
  rewrite wrap_small by lia. lia.
Qed.

Lemma unpack_pack h r c :
  0 <= h < 2 ^ 16 → 0 <= r < 2 ^ 32 →
  unpack_indexes (pack_indexes h r c) = (h, r, c mod 2 ^ 14).
Proof.
  intros Hh Hr. destruct (pack_value h r c Hh Hr) as [E _]. rewrite E. unfold unpack_indexes.
  pose proof (Z.mod_pos_bound c (2 ^ 14) ltac:(lia)) as Hc. rewrite clabel_mask.
  change 0xFFFFFFFF with (Z.ones 32). rewrite Z.land_ones, !Z.shiftr_div_pow2 by lia.
  set (x := c mod 2 ^ 14) in *.
  assert (E1 : (x + r * 2 ^ 14 + h * 2 ^ 46) / 2 ^ 46 = h)
    by (symmetry; apply (Z.div_unique _ _ _ (x + r * 2 ^ 14)); lia).
  assert (E2 : (x + r * 2 ^ 14 + h * 2 ^ 46) / 2 ^ 14 = r + h * 2 ^ 32)
    by (symmetry; apply (Z.div_unique _ _ _ x); lia).
  assert (E3 : (x + r * 2 ^ 14 + h * 2 ^ 46) mod 2 ^ 14 = x)
    by (symmetry; apply (Z.mod_unique _ _ (r + h * 2 ^ 32)); lia).
  rewrite E1, E2, E3. rewrite wrap_small by lia. f_equal. f_equal.
  symmetry. apply (Z.mod_unique _ _ h); lia.
Qed.

(** The identifiers that successive calls of [next_contact_id] give. *)
Fixpoint contact_ids (n : nat) (r : urecord) : list Z :=
  match n with
  | O => []
  | S n' => let '(r, id) := next_contact_id r in id :: contact_ids n' r
  end.

Lemma contact_ids_lookup n : ∀ r i id,
  0 <= r_label r < 2 ^ 32 → 0 <= r_next_clabel r < 2 ^ 14 → contact_ids n r !! i = Some id →
  (i < n)%nat ∧ id = pack_indexes (u16 (r_aorhash r)) (r_label r) ((r_next_clabel r + Z.of_nat i) mod 2 ^ 14).
Proof.
  induction n as [|n IH]; intros r i id Hl Hc; cbn [contact_ids]; [done|].
  unfold next_contact_id. destruct i as [|i]; cbn [lookup list_lookup].
  - intros [= <-]. split; [lia|]. rewrite Z.add_0_r, (wrap_small 16 (r_next_clabel r)) by lia. by rewrite Z.mod_small.
  - assert (Hn : 0 <= CLABEL_NEXT (r_next_clabel r) < 2 ^ 14)
      by (unfold CLABEL_NEXT; rewrite clabel_mask; apply Z.mod_pos_bound; lia).
    intros E. destruct (IH (wr_next_clabel r (CLABEL_NEXT (r_next_clabel r))) _ _ Hl Hn E) as [Hi ->]. split; [lia|]. cbn [r_aorhash r_label r_next_clabel wr_next_clabel].
    f_equal. unfold CLABEL_NEXT. rewrite clabel_mask, Zplus_mod_idemp_l. f_equal. lia.
Qed.

(** The identifiers of contacts.  An identifier has the hash of its record, the label of
    the record and the label of the contact, which are read back from it, and it fits in 62
    bits; 16384 successive identifiers of a record are all different. *)
Theorem contact_ids_distinct n r :
  0 <= r_label r < 2 ^ 32 → 0 <= r_next_clabel r < 2 ^ 14 → Z.of_nat n <= 2 ^ 14 →
  NoDup (contact_ids n r)
  ∧ ∀ i id, contact_ids n r !! i = Some id →
      0 <= id < 2 ^ 62
      ∧ unpack_indexes id
        = (u16 (r_aorhash r), r_label r, (r_next_clabel r + Z.of_nat i) mod 2 ^ 14).
Proof.
  intros Hl Hc Hn. pose proof (wrap_range 16 (r_aorhash r) ltac:(lia)) as Hh.
  assert (Hun : ∀ i id, contact_ids n r !! i = Some id → (i < n)%nat ∧ 0 <= id < 2 ^ 62
    ∧ unpack_indexes id = (u16 (r_aorhash r), r_label r, (r_next_clabel r + Z.of_nat i) mod 2 ^ 14)).
  { intros i id E. destruct (contact_ids_lookup n r i id Hl Hc E) as [Hi ->]. split; [done|].
    split; [by apply pack_value|]. rewrite unpack_pack by lia. by rewrite Z.mod_mod by lia. }
  split; [|intros i id E; apply Hun in E; tauto]. apply NoDup_alt. intros i j id Ei Ej.
  destruct (Hun i id Ei) as (Hi & _ & Eu). destruct (Hun j id Ej) as (Hj & _ & Ev). rewrite Eu in Ev.
  injection Ev as Em. apply Nat2Z.inj.
  assert (Hd : (Z.of_nat i - Z.of_nat j) mod 2 ^ 14 = 0).
  { replace (Z.of_nat i - Z.of_nat j) with ((r_next_clabel r + Z.of_nat i) - (r_next_clabel r + Z.of_nat j)) by lia.
    rewrite Zminus_mod, Em, Z.sub_diag. done. }
  apply Z.mod_divide in Hd as [k Hk]; [|lia]. assert (k = 0) by lia. lia.
Qed.

Definition urecord_ex : urecord := URecord (bs "location") (bs "alice") 70000 5 16383 0 true 0 (Some ∅).

Lemma contact_ids_distinct_witness :
  0 <= r_label urecord_ex < 2 ^ 32 ∧ NoDup (contact_ids 3 urecord_ex)
  ∧ contact_ids 3 urecord_ex = [314126074009190399; 314126074009174016; 314126074009174017].
Proof.
  split; [vm_compute; split; [intros H; discriminate H|reflexivity]|]. split; [|vm_compute; reflexivity].
  apply (contact_ids_distinct 3 urecord_ex); vm_compute; [split; [intros H; discriminate H|reflexivity]..|].
  intros H; discriminate H.
Defined.

(** ** Matching *)

(** The first contact of the list for which [t] holds and which does not wait for its
    removal. *)
Definition first_match (h : ct_heap) (t : ucontact → bool) (l : list Z) : option (Z * ucontact) :=
  head (omap (λ a, match h !! a with
                   | Some n => if t (n_ct n) && negb (FORCE_EXPIRED_CONTACT (n_ct n))
                               then Some (a, n_ct n) else None
                   | None => None
                   end) l).

Lemma match_loop_ok h test t l p fuel :
  seg h p l 0 → 0 ∉ l → (length l < fuel)%nat →
  (∀ a n, a ∈ l → h !! a = Some n → test (n_ct n) = Some (t (n_ct n))) →
  match_loop fuel h test (hd_or 0 l)
  = Some (match first_match h t l with Some (a, _) => a | None => 0 end).
Proof.
  revert p fuel. induction l as [|a l IH]; intros p fuel Hs H0 Hf Ht;
    (destruct fuel as [|fuel]; [cbn in Hf; lia|]); cbn [match_loop hd_or]; [done|].
  destruct Hs as [[c Ha] Hs]. rewrite (proj2 (Z.eqb_neq a 0)) by set_solver.
  rewrite Ha. cbn [mbind option_bind n_ct n_next]. pose proof (Ht a _ (list_elem_of_here a l) Ha) as Et.
  cbn [n_ct] in Et. rewrite Et. cbn [mbind option_bind]. unfold first_match. cbn [omap list_omap].
  rewrite Ha. cbn [n_ct]. destruct (t c && negb (FORCE_EXPIRED_CONTACT c)); [done|].
  apply (IH a); [done|set_solver|cbn in Hf; lia|]. intros b n Hb. apply Ht. by right.
Qed.

Lemma first_match_lookup h t l a c : first_match h t l = Some (a, c) →
  ∃ n, h !! a = Some n ∧ n_ct n = c ∧ a ∈ l.
Proof.
  unfold first_match. intros E. apply head_Some_elem_of in E. apply list_elem_of_omap in E as (b & Hb & E).
  destruct (h !! b) as [n|] eqn:En; [|done]. destruct (_ && _); [|done]. injection E as -> <-. eauto.
Qed.

(** The test of the modes that compare addresses; with [callid_too] also the Call-ID. *)
Definition matches (c callid : bytes) (u : sip_uri) (callid_too : bool) (ct : ucontact) : bool :=
  (if callid_too then bool_decide (callid = c_callid ct) else true)
  && match same_uri c u ct with Some b => b | None => false end.

(** C28. Finding the contact of a REGISTER by its address, or by its address and Call-ID.
    When the address can be parsed and its comparisons with the contacts stay in bounds,
    [get_ucontact] returns, and considers the first contact of the list that matches and was
    not deleted: without one the result is 1; when the Call-ID is the same, an older CSeq
    gives -1 and the same CSeq gives -2, or -1 once the delay has passed; otherwise the
    contact is returned. *)
Theorem get_ucontact_correct {DB : sql_api} cfg (w : ul_world) r l c u callid cseq m act_time callid_too :
  is_list (w_heap w) (r_contacts r) l → parse_uri 1 c = Ok u →
  (if ct_mode m =? CT_MATCH_NONE then matching_mode cfg else ct_mode m)
  = (if (callid_too : bool) then CT_MATCH_CONTACT_CALLID else CT_MATCH_CONTACT_ONLY) →
  (∀ a n, a ∈ l → w_heap w !! a = Some n → is_Some (same_uri c u (n_ct n))) →
  get_ucontact cfg w r c callid cseq m act_time
  = Some (match first_match (w_heap w) (matches c callid u callid_too) l with
          | None => (1, 0)
          | Some (a, ct) =>
              if bool_decide (callid = c_callid ct) then
                if cseq <? c_cseq ct then (-1, 0)
                else if cseq =? c_cseq ct then
                  (if act_time <? c_last_modified ct + cseq_delay cfg then -2 else -1, 0)
                else (0, a)
              else (0, a)
          end).
Proof.
  intros Hl Hu Hm Hcmp. pose proof Hl as (Eh & Hnd & H0 & Hs). pose proof (list_fits _ _ _ Hl) as Hfit.
  assert (Hloop : (if callid_too then contact_callid_match (w_heap w) (r_contacts r) c callid
                   else contact_match (w_heap w) (r_contacts r) c)
    = Some (match first_match (w_heap w) (matches c callid u callid_too) l with Some (a, _) => a | None => 0 end)).
  { unfold contact_callid_match, contact_match. rewrite Hu, Eh.
    destruct callid_too; apply (match_loop_ok _ _ _ l 0); try done; try lia; intros a n Ha Hn;
      unfold matches; destruct (Hcmp a n Ha Hn) as [b Eb]; rewrite Eb; [|done].
    destruct (bool_decide_reflect (callid = c_callid (n_ct n))) as [->|Hne].
    - rewrite bool_decide_eq_true_2 by done. cbn. by rewrite andb_true_r.
    - destruct (bool_decide _); cbn; [|done]. by rewrite andb_false_r. }
  unfold get_ucontact. rewrite Hm. destruct callid_too;
    [change (CT_MATCH_CONTACT_CALLID =? CT_MATCH_CONTACT_ONLY) with false;
     change (CT_MATCH_CONTACT_CALLID =? CT_MATCH_CONTACT_CALLID) with true
    |change (CT_MATCH_CONTACT_ONLY =? CT_MATCH_CONTACT_ONLY) with true]; cbv iota;
    rewrite Hloop; cbn [mbind option_bind];
    (destruct (first_match _ _ l) as [[a ct]|] eqn:Ef; [|done]);
    destruct (first_match_lookup _ _ _ _ _ Ef) as (n & Hn & <- & Ha);
    rewrite (proj2 (Z.eqb_neq a 0)) by (by intros ->); rewrite Hn; cbn [mbind option_bind].
  - assert (Hc : bool_decide (callid = c_callid (n_ct n)) = true).
    { unfold first_match in Ef. apply head_Some_elem_of in Ef. apply list_elem_of_omap in Ef as (b & Hb & Ef).
      destruct (w_heap w !! b) as [n'|]; [|done]. destruct (matches _ _ _ _ (n_ct n')) eqn:Em; [|done].
      destruct (negb _); [|done]. injection Ef as _ Ef. rewrite <- Ef.
      unfold matches in Em. by apply andb_true_iff in Em as [? _]. }
    rewrite Hc. cbn [orb]. destruct (cseq <? _); [done|]. by destruct (cseq =? _).
  - cbn [orb]. destruct (bool_decide _); [|done]. destruct (cseq <? _); [done|]. by destruct (cseq =? _).
Qed.

(** ** The place of an updated contact *)

(** The contacts of a record are kept by descending q (or by time).  An update that
    leaves the contact between its neighbours does not move it.  Otherwise, when the other
    contacts are in descending order, the code moves the contact to one of the ends of the
    list, and to the wrong one: to the end when its q is higher than the ones of all the
    others, and to the front when it is not. *)
Theorem update_moves_to_ends cfg h head l1 a l2 :
  is_list h head (l1 ++ a :: l2) → desc_time_order cfg = false →
  q_sorted (q_of (cts h)) (l1 ++ l2) →
  ∃ h' head', update_contact_pos cfg h head a = Some (h', head') ∧ cts h' = cts h
    ∧ is_list h' head'
        (if in_place (q_of (cts h)) l1 a l2 then l1 ++ a :: l2
         else if match l1 ++ l2 with
                 | [] => true
                 | b :: _ => q_of (cts h) a <=? q_of (cts h) b
                 end
         then a :: l1 ++ l2 else (l1 ++ l2) ++ [a]).
Proof.
  intros Hl Ho Hs. destruct (update_contact_pos_ok cfg h head l1 a l2 Hl) as (h' & head' & E & Hl' & Hc).
  exists h', head'. split; [done|]. split; [done|].
  destruct (in_place (q_of (cts h)) l1 a l2) eqn:Ep.
  - unfold place_updated in Hl'. by rewrite Ho, Ep in Hl'.
  - by rewrite place_updated_ends in Hl'.
Qed.

(** ** Runs *)

Section theorems.
Context {TX : ul_text} {TXok : ul_text_ok} {DB : sql_api} {L : sql_laws}.

(** C26. Whatever sequence of registrations, updates, deletions, timer passes and refreshes is
    run on a record, also when contacts cannot be allocated or the database fails, no
    operation accesses a null or freed contact and every loop ends.  The contacts are a
    doubly linked list of exactly the contacts allocated, which the statistics count; the
    pending refreshes are contacts of the list, each once.  With the order by time the list
    is by the last registration; otherwise, as long as updates keep the q value, by
    descending q. *)
Theorem record_ops_safe cfg w0 r0 ops :
  have_mem_storage cfg = true → fresh_record w0 r0 → ul_along cfg op_valid (w0, r0) ops →
  ∃ w r l,
    ul_exec cfg (w0, r0) ops = Some (w, r)
    ∧ is_list (w_heap w) (r_contacts r) l ∧ dom (w_heap w) = list_to_set l
    ∧ NoDup (pending_refreshes w) ∧ pending_refreshes w ⊆ l
    ∧ stat_contacts w = Z.of_nat (length l)
    ∧ (desc_time_order cfg = true → l = recency (ul_trace w))
    ∧ (desc_time_order cfg = false → ul_along cfg keeps_q (w0, r0) ops →
       q_sorted (q_of (cts (w_heap w))) l).
Proof.
  intros Hmem Hf Hv. pose proof (fresh_inv w0 r0 Hf) as Hi0. destruct Hf as (_ & _ & _ & Et & _).
  destruct (run_ok cfg Hmem ops w0 r0 [] Hi0 Hv) as (w & r & l & E & Hi & Ho & Hq).
  destruct Hi as ((Hl & _) & Hd & Hnd & Hsub & Hst & _). exists w, r, l. split_and!; try done.
  - intros Hd'. apply Ho; [done|]. by rewrite Et.
  - intros Hd' Hk. eapply q_sorted_ext; [|by apply Hq]. intros. apply q_of_cores.
Qed.

Lemma run_db cfg ops : ∀ w r l,
  have_mem_storage cfg = true → rr_persist cfg = RRP_LOAD_FROM_SQL →
  sql_wmode cfg ≠ SQL_WRITE_THROUGH → ul_inv w r l →
  ul_along cfg op_valid (w, r) ops → ul_along cfg op_db (w, r) ops → db_ok cfg w →
  ∃ w' r' l', ul_exec cfg (w, r) ops = Some (w', r') ∧ ul_inv w' r' l' ∧ db_ok cfg w'
    ∧ (sql_reliable → rows_ok w → rows_ok w').
Proof.
  induction ops as [|op ops IH]; intros w r l Hmem Hsql Hwb Hinv Hv Hop Hdb; cbn [ul_exec ul_along] in *.
  - by exists w, r, l.
  - destruct Hv as [Hv Hvs], Hop as [Ho Hos].
    destruct (step_ok cfg Hmem w r l op Hinv Hv) as (w1 & r1 & l1 & E & Hi1 & _). rewrite E. cbn [mbind option_bind].
    destruct (step_db cfg Hmem Hsql Hwb w r l op w1 r1 Hinv Hv Ho E Hdb) as [Hdb1 Hr1].
    destruct (IH w1 r1 l1 Hmem Hsql Hwb Hi1 (Hvs _ E) (Hos _ E) Hdb1) as (w' & r' & l' & E' & Hi' & Hdb' & Hr').
    exists w', r', l'. split_and!; try done. intros R H0. apply Hr'; [done|]. by apply Hr1.
Qed.

Lemma fresh_db cfg w r : fresh_record w r → sql_rows (ul_dbh w) = ∅ → db_ok cfg w ∧ rows_ok w.
Proof.
  intros (Eh & _) Er. unfold db_ok, rows_ok. rewrite Eh, Er. unfold cores, cts. rewrite !fmap_empty. split.
  - split; [intros a b c d Ha; by rewrite lookup_empty in Ha|intros a c Ha; by rewrite lookup_empty in Ha].
  - intros id [row Hr]. by rewrite lookup_empty in Hr.
Qed.

Lemma db_ok_contact cfg w a n :
  db_ok cfg w → w_heap w !! a = Some n → mem_only (n_ct n) = false →
  st_ok cfg (sql_rows (ul_dbh w)) (n_ct n).
Proof.
  intros [_ Hdb] Hn Hm. destruct (Hdb a (core (n_ct n))) as [Hs _]; [by rewrite cores_lookup, Hn|done|].
  exact Hs.
Qed.

(** C27. With contacts kept in memory, written back by the timer and loaded from the database
    after a restart, whatever sequence of operations is run on a new record with an empty table and
    whatever calls of the SQL driver fail, the state of a contact tells what the database
    has: a new contact has no row, a synchronised one has a row with its members, its address
    included (unless it only waits for its removal), a modified one has a row with its user,
    domain, address and instance, to be updated.  Every new contact gets an identifier that no
    row or contact has, and updates change neither the flag that keeps a contact out of the
    database nor its address, which updates do not write to the row
    ([updated_address_not_stored]).  The column of the store of keys is left out: the timer
    changes the store of a synchronised contact without writing it ([stored_keys_not_written]). *)
Theorem states_tell_rows cfg w0 r0 ops :
  have_mem_storage cfg = true → rr_persist cfg = RRP_LOAD_FROM_SQL →
  sql_wmode cfg = SQL_WRITE_BACK → fresh_record w0 r0 → sql_rows (ul_dbh w0) = ∅ →
  ul_along cfg op_valid (w0, r0) ops → ul_along cfg op_db (w0, r0) ops →
  ∃ w r, ul_exec cfg (w0, r0) ops = Some (w, r)
    ∧ ∀ a n, w_heap w !! a = Some n → mem_only (n_ct n) = false →
        st_ok cfg (sql_rows (ul_dbh w)) (n_ct n).
Proof.
  intros Hmem Hsql Hwb Hf Hr Hv Ho. destruct (fresh_db cfg w0 r0 Hf Hr) as [Hdb _].
  destruct (run_db cfg ops w0 r0 [] Hmem Hsql) as (w & r & l & E & _ & Hdb' & _); try done; [by rewrite Hwb|by apply fresh_inv|].
  exists w, r. split; [done|]. intros a n. by apply db_ok_contact.
Qed.

(** The record that a pass leaves. *)
Lemma record_left_ok w r kept :
  ul_inv w (wr_contacts r (hd_or 0 kept)) kept →
  match record_left r kept with
  | Some r' => is_list (w_heap w) (r_contacts r') kept
  | None => kept = [] ∧ w_heap w = ∅
  end
  ∧ (record_left r kept = None ↔ kept = [] ∧ r_no_clear_ref r <= 0).
Proof.
  intros ((Hl & _) & Hd & _). unfold record_left.
  destruct (Z.leb_spec (r_no_clear_ref r) 0), (bool_decide_reflect (kept = [])) as [->|]; cbn [andb];
    (split; [try done|]); try (split; [done|intros []; (done || lia)]).
  split; [done|]. by apply dom_empty_inv_L.
Qed.

(** A contact that a pass of the timer leaves: it was valid, it is synchronised, and its row
    has its members. *)
Lemma kept_synced cfg w w' l kept now a n' :
  UL_EXPIRED_TIME <= now → kept = kept_valid (cores (w_heap w)) now l → dom (w_heap w') = list_to_set kept →
  swept now w w' l kept →
  (∀ a c, a ∈ kept → cores (w_heap w') !! a = Some c → c_state c = CS_SYNC) →
  db_ok cfg w' → w_heap w' !! a = Some n' →
  (∃ n, w_heap w !! a = Some n ∧ core (n_ct n') = set_state CS_SYNC (core (n_ct n)))
  ∧ (mem_only (n_ct n') = false →
     ∃ row, sql_rows (ul_dbh w') !! contact_id (n_ct n') = Some row
       ∧ erase_row row = erase_row (contact_row cfg (n_ct n'))).
Proof.
  intros Hnow Hk Hd' Hsw Hst Hdb Hn'.
  assert (Ha : a ∈ kept).
  { apply (elem_of_list_to_set (C := gset Z)). rewrite <- Hd'. by apply elem_of_dom_2 in Hn'. }
  destruct (swept_kept _ _ _ _ _ Hsw a Ha) as (c & s & Hc & Hc').
  assert (Hsync := Hst a _ Ha Hc'). cbn in Hsync. subst s. rewrite Hk in Ha.
  apply list_elem_of_filter in Ha as [Hval _]. unfold valid_at in Hval. rewrite Hc in Hval.
  rewrite cores_lookup in Hc. destruct (w_heap w !! a) as [n|]; [|done]. injection Hc as <-.
  rewrite cores_lookup, Hn' in Hc'. apply (inj Some) in Hc'.
  assert (Ec : core (n_ct n') = set_state CS_SYNC (core (n_ct n))) by exact Hc'.
  split; [by exists n|]. intros Hm.
  pose proof (db_ok_contact cfg w' a n' Hdb Hn' Hm) as Hs. unfold st_ok in Hs.
  assert (Es : c_state (n_ct n') = CS_SYNC) by (change (c_state (core (n_ct n')) = CS_SYNC); by rewrite Ec).
  rewrite Es in Hs. destruct Hs as (row & Hrow & _ & Her). exists row. split; [done|]. apply Her.
  unfold FORCE_EXPIRED_CONTACT. apply Z.eqb_neq. intros Ex.
  assert (Ex' : c_expires (core (n_ct n)) = UL_EXPIRED_TIME).
  { rewrite <- Ex. change (c_expires (n_ct n')) with (c_expires (core (n_ct n'))). by rewrite Ec. }
  unfold VALID_CONTACT in Hval. rewrite Ex' in Hval. unfold UL_EXPIRED_TIME in *.
  apply orb_true_iff in Hval as [Hval|Hval]; zbool; lia.
Qed.

(** C25. A pass of the timer synchronises memory and database.  Contacts are kept in memory,
    written back by the timer and loaded from the database after a restart, and the SQL driver
    does not fail; whatever operations were run before on a new record with an empty table,
    the pass returns 0 and
    leaves exactly the contacts that are valid, in their order and with their members, all
    in the synchronised state.  Every contact that is not kept out of the database has a row
    with its members, its address included, and every row is of such a contact; the store of
    keys is left out of both comparisons, as the pass changes the one of a synchronised
    contact without writing it ([stored_keys_not_written]).  For the others the callback is
    run once, unless they were deleted by a request, and their removal is notified; a record
    without valid contacts that is not held is removed.  The operations before the pass give
    every new contact an identifier that no row or contact has, and their updates change
    neither the flag that keeps a contact out of the database nor the address of the contact,
    which updates do not write to the row ([updated_address_not_stored]). *)
Theorem timer_synchronizes `{!sql_reliable} cfg w0 r0 ops now :
  have_mem_storage cfg = true → rr_persist cfg = RRP_LOAD_FROM_SQL →
  sql_wmode cfg = SQL_WRITE_BACK → fresh_record w0 r0 → sql_rows (ul_dbh w0) = ∅ →
  ul_along cfg op_valid (w0, r0) ops → ul_along cfg op_db (w0, r0) ops → UL_EXPIRED_TIME <= now →
  ∃ w r l w' rec,
    ul_exec cfg (w0, r0) ops = Some (w, r) ∧ is_list (w_heap w) (r_contacts r) l
    ∧ mem_timer_udomain cfg all_ok2 now w r = Some (w', rec, 0)
    ∧ (let kept := filter (λ a, valid_at (cores (w_heap w)) now a = true) l in
       match rec with
       | Some r' => is_list (w_heap w') (r_contacts r') kept
       | None => kept = [] ∧ w_heap w' = ∅
       end
       ∧ (rec = None ↔ kept = [] ∧ r_no_clear_ref r <= 0))
    ∧ (∀ a n', w_heap w' !! a = Some n' →
         (∃ n, w_heap w !! a = Some n ∧ core (n_ct n') = set_state CS_SYNC (core (n_ct n)))
         ∧ (mem_only (n_ct n') = false →
            ∃ row, sql_rows (ul_dbh w') !! contact_id (n_ct n') = Some row
              ∧ erase_row row = erase_row (contact_row cfg (n_ct n'))))
    ∧ (∀ id, is_Some (sql_rows (ul_dbh w') !! id) →
         ∃ a n', w_heap w' !! a = Some n' ∧ contact_id (n_ct n') = id ∧ mem_only (n_ct n') = false)
    ∧ ul_trace w' = ul_trace w ++ expired_events cfg (cores (w_heap w)) now l
        ++ match rec with None => removal_events cfg | Some _ => [] end.
Proof.
  intros Hmem Hsql Hwb Hf Hr Hv Ho Hnow. destruct (fresh_db cfg w0 r0 Hf Hr) as [Hdb Hro].
  destruct (run_db cfg ops w0 r0 [] Hmem Hsql) as (w & r & l & E & Hi & Hdb' & Hro'); try done;
    [by rewrite Hwb|by apply fresh_inv|].
  destruct (mem_timer_ok cfg Hmem all_ok2 now w r l Hi) as (w' & ret & kept & Et & Hi' & Hsw & Hp); [done|].
  destruct (Hp Hsql Hdb') as [Hdb2 Hsy]. destruct (Hsy _) as (-> & Hk & Hst & Hns & Htr).
  exists w, r, l, w', (record_left r kept). split; [done|]. pose proof Hi as ((Hl & _) & _). split; [done|].
  split; [done|]. pose proof Hi' as (_ & Hd' & _). split; [|split; [|split; [|done]]].
  - cbv zeta. change (filter _ l) with (kept_valid (cores (w_heap w)) now l). rewrite <- Hk.
    by apply record_left_ok.
  - intros a n' Hn'. by apply (kept_synced cfg w w' l kept now).
  - intros id Hid. destruct (Hns (Hro' _ Hro) id Hid) as [Hid'|(a & c & Ha & Eid & Hm)];
      [by apply not_elem_of_nil in Hid'|].
    rewrite cores_lookup in Ha. destruct (w_heap w' !! a) as [n'|] eqn:Hn'; [|done].
    injection Ha as <-. by exists a, n'.
Qed.
End theorems.

(** ** A driver and a record *)

(** Texts and a table of rows, for concrete inputs. *)
#[export] Instance text_ex : ul_text := {|
  get_path_dst_uri p := Some p;
  bitmask_to_flag_list _ := [];
  store_serialize _ := Some (bs "{}");
  store_deserialize _ := ∅;
  cdb_build_ucontact_key _ _ := None;
|}.
#[export] Instance text_ex_ok : ul_text_ok.
Proof. intros p k. cbn. by rewrite lookup_empty. Qed.

(** Insertions and deletions that succeed or fail. *)
Definition sql_gmap (can_insert can_delete : bool) : sql_api := {|
  sql := gmap Z ul_row;
  sql_use_table d _ := (d, true);
  sql_insert d _ id row :=
    match id with
    | Some i =>
        match d !! i with
        | None => if can_insert then (<[i := row]> d, true) else (d, false)
        | Some _ => (d, false)
        end
    | None => (d, false)
    end;
  sql_insert_update d id row :=
    match id with Some i => (<[i := row]> d, true) | None => (d, false) end;
  sql_update d id row := (alter (update_columns row) id d, true);
  sql_delete d ids := if can_delete then (filter (λ kv, kv.1 ∉ ids) d, true) else (d, false);
|}.
#[export] Instance sql_ex : sql_api := sql_gmap true true.
#[export] Instance sql_ex_laws : sql_laws.
Proof.
  refine {| sql_rows := (λ d : sql, d : gmap Z ul_row) |}; [done| |done|done].
  intros d b id row. cbn. by destruct ((d : gmap Z ul_row) !! id).
Defined.
#[export] Instance sql_ex_reliable : sql_reliable.
Proof. split; [done| |done|done]. intros d b id row E. cbn in *. by rewrite E. Qed.

Definition cfg_ex : ul_cfg :=
  UlCfg CM_NONE RRP_LOAD_FROM_SQL SQL_WRITE_BACK false 0 20 10 false (λ _, true).

Definition world_ex : ul_world := UlWorld ∅ [] (∅ : gmap Z ul_row) [] 0 0 [].

Definition ci_ex (q expires cseq : Z) : ucontact_info :=
  UCInfo 0 None None None expires 3600 q None (bs "call-1") cseq 0 0 (bs "phone") None 0 1 None None
    None None 0 None.

(** Two registrations, the second one for a short time, and an update of the first one. *)
Definition ops_ex : list ul_op :=
  [OpInsert 101 (bs "sip:alice@10.0.0.1") (ci_ex 500 1000 1) all_ok 20 false;
   OpInsert 102 (bs "sip:alice@10.0.0.2") (ci_ex 700 50 1) all_ok 21 false;
   OpTimer 30 6 0;
   OpUpdate 101 (ci_ex 500 2000 2) 40 false].

(** Evaluate a step of a concrete run. *)
Ltac ul_next :=
  let s := fresh "s" in let E := fresh "E" in
  intros s E;
  match type of E with
  | ?t = Some s =>
      let v := eval vm_compute in t in
      match v with
      | Some ?x =>
          assert (s = x) as -> by (apply (inj Some); rewrite <- E; vm_cast_no_check (@eq_refl _ v))
      end
  end; clear E.
Ltac ul_insert := split_and!; [apply not_elem_of_dom; vm_compute; reflexivity|done|done|done].
Ltac ul_present := apply elem_of_dom; vm_compute; eexists; reflexivity.

Lemma ops_ex_valid : ul_along cfg_ex op_valid (world_ex, urecord_ex) ops_ex.
Proof.
  split; [ul_insert|]. ul_next. split; [ul_insert|]. ul_next. split; [done|]. ul_next.
  split; [ul_present|]. ul_next. done.
Qed.

Lemma record_ops_safe_witness :
  ∃ w r l, ul_exec cfg_ex (world_ex, urecord_ex) ops_ex = Some (w, r)
    ∧ is_list (w_heap w) (r_contacts r) l ∧ stat_contacts w = Z.of_nat (length l).
Proof.
  destruct (record_ops_safe cfg_ex world_ex urecord_ex ops_ex eq_refl) as (w & r & l & E & Hl & _ & _ & _ & Hs & _).
  - split_and!; done.
  - exact ops_ex_valid.
  - exists w, r, l. split; [exact E|]. split; [exact Hl|exact Hs].
Defined.

Ltac ul_fresh_id :=
  split; [vm_compute; reflexivity|];
  match goal with
  | |- ∀ a n, ?h !! a = Some n → contact_id (n_ct n) ≠ ?i =>
      assert (map_Forall (λ _ n, contact_id (n_ct n) ≠ i) h) as H
        by (apply (bool_decide_unpack _); vm_cast_no_check I); exact H
  end.

Lemma ops_ex_db : ul_along cfg_ex op_db (world_ex, urecord_ex) ops_ex.
Proof.
  split; [ul_fresh_id|]. ul_next. split; [ul_fresh_id|]. ul_next. split; [done|]. ul_next.
  split; [|ul_next; done]. intros n Hn. vm_compute in Hn. injection Hn as <-. split; reflexivity.
Qed.

Lemma states_tell_rows_witness :
  ∃ w r, ul_exec cfg_ex (world_ex, urecord_ex) ops_ex = Some (w, r)
    ∧ ∀ a n, w_heap w !! a = Some n → mem_only (n_ct n) = false →
        st_ok cfg_ex (sql_rows (ul_dbh w)) (n_ct n).
Proof.
  apply (states_tell_rows cfg_ex world_ex urecord_ex ops_ex); try reflexivity.
  - split_and!; done.
  - exact ops_ex_valid.
  - exact ops_ex_db.
Defined.

Lemma timer_synchronizes_witness :
  ∃ w r l w' rec,
    ul_exec cfg_ex (world_ex, urecord_ex) ops_ex = Some (w, r) ∧ is_list (w_heap w) (r_contacts r) l
    ∧ mem_timer_udomain cfg_ex all_ok2 100 w r = Some (w', rec, 0)
    ∧ (rec = None ↔ filter (λ a, valid_at (cores (w_heap w)) 100 a = true) l = [] ∧ r_no_clear_ref r <= 0).
Proof.
  destruct (timer_synchronizes cfg_ex world_ex urecord_ex ops_ex 100)
    as (w & r & l & w' & rec & H1 & H2 & H3 & [_ H4] & _); try reflexivity.
  - split_and!; done.
  - exact ops_ex_valid.
  - exact ops_ex_db.
  - intros H; discriminate H.
  - exists w, r, l, w', rec. split; [exact H1|]. split; [exact H2|]. split; [exact H3|exact H4].
Defined.

(** The rows that the two passes leave: first of both contacts, then of the valid one. *)
Example rows_after_passes :
  let rows s := match s with Some (w, _) => (λ x, (x.1, col_expires x.2)) <$> map_to_list (sql_rows (ul_dbh w)) | None => [] end in
  rows (ul_exec cfg_ex (world_ex, urecord_ex) (take 3 ops_ex))
  = [(314126074009190399, 1000); (314126074009174016, 50)]
  ∧ rows (ul_exec cfg_ex (world_ex, urecord_ex) (ops_ex ++ [OpTimer 100 6 0])) = [(314126074009190399, 2000)].
Proof. split; vm_compute; reflexivity. Qed.

(** ** Where the code differs from what it means to do *)

Definition row_list {DB : sql_api} {L : sql_laws} (s : option ul_state) : list (Z * bytes * Z) :=
  match s with
  | Some (w, _) =>
      (λ x, (x.1, col_contact x.2, col_expires x.2)) <$> map_to_list (sql_rows (ul_dbh w))
  | None => []
  end.
Definition state_list {DB : sql_api} (s : option ul_state) : list (Z * cstate_t * Z) :=
  match s with
  | Some (w, _) => (λ x, (x.1, c_state (n_ct x.2), c_expires (n_ct x.2))) <$> map_to_list (w_heap w)
  | None => []
  end.

(** An update may change the address of the contact (matching by parameters), but the row
    keeps the old one. *)
Definition ci_moved : ucontact_info :=
  UCInfo 0 (Some (bs "sip:alice@10.9.9.9")) None None 2000 3600 500 None (bs "call-1") 2 0 0
    (bs "phone") None 0 1 None None None None 0 None.

Example updated_address_not_stored :
  let s := ul_exec cfg_ex (world_ex, urecord_ex) (take 1 ops_ex ++ [OpTimer 30 6 0; OpUpdate 101 ci_moved 40 false; OpTimer 50 6 0]) in
  row_list s = [(314126074009190399, bs "sip:alice@10.0.0.1", 2000)]
  ∧ state_list s = [(101, CS_SYNC, 2000)]
  ∧ match s with Some (w, _) => (λ n, c_c (n_ct n)) <$> w_heap w !! 101 | None => None end
    = Some (bs "sip:alice@10.9.9.9").
Proof. split_and!; vm_compute; reflexivity. Qed.

(** The pass of the timer puts the store of the record into a contact, also into a synchronised
    one: it is not marked as modified, and its row stays without the keys. *)
Example stored_keys_not_written :
  match ul_exec cfg_ex (world_ex, urecord_ex) (take 1 ops_ex ++ [OpTimer 30 6 0]) with
  | Some (w, r) =>
      let keys : kv_map := <[bs "key" := Some (StrVal (Some (bs "value")))]> ∅ in
      '(w, _, _) ← mem_timer_udomain cfg_ex all_ok2 40 w (wr_rkv r (Some keys));
      Some ((λ x, (c_state (n_ct x.2), size (default ∅ (c_kv_storage (n_ct x.2))))) <$> map_to_list (w_heap w),
            (λ x, col_kv_store x.2) <$> map_to_list (sql_rows (ul_dbh w)))
  | None => None
  end = Some ([(CS_SYNC, 1%nat)], [None]).
Proof. vm_compute. reflexivity. Qed.

(** A contact updated without a time of refresh stays among the pending refreshes, and the
    event is raised. *)
Definition ci_refresh (t : Z) : ucontact_info :=
  UCInfo 0 None None None 2000 3600 500 None (bs "call-1") 2 0 0 (bs "phone") None 0 1 None None
    None None t None.

Example refresh_still_pending :
  match ul_exec cfg_ex (world_ex, urecord_ex)
          [OpInsert 101 (bs "sip:alice@10.0.0.1") (ci_refresh 500) all_ok 20 false;
           OpUpdate 101 (ci_refresh 0) 40 false] with
  | Some (w, _) => snd <$> trigger_ct_refreshes w 41
  | None => None
  end = Some [101].
Proof. vm_compute. reflexivity. Qed.

(** Write-through with an insertion that fails: the contact stays new.  The update that
    follows finds no row, and the contact is taken for synchronised: the timer does not
    insert it any more. *)
Module InsertDown.
#[local] Instance down : sql_api := sql_gmap false true.
#[local] Instance down_rows : sql_laws.
Proof.
  refine {| sql_rows := (λ d : sql, d : gmap Z ul_row) |}; [done| |done|done].
  intros d b id row. cbn. by destruct ((d : gmap Z ul_row) !! id).
Defined.
Definition cfg_through : ul_cfg :=
  UlCfg CM_NONE RRP_LOAD_FROM_SQL SQL_WRITE_THROUGH false 0 20 10 false (λ _, true).

Example update_hides_failed_insert :
  let s0 : ul_state := (UlWorld ∅ [] (∅ : gmap Z ul_row) [] 0 0 [], urecord_ex) in
  state_list (ul_exec cfg_through s0 (take 1 ops_ex)) = [(101, CS_NEW, 1000)]
  ∧ state_list (ul_exec cfg_through s0 (take 1 ops_ex ++ [OpUpdate 101 (ci_ex 500 2000 2) 40 false]))
    = [(101, CS_SYNC, 2000)]
  ∧ row_list (ul_exec cfg_through s0 (take 1 ops_ex ++ [OpUpdate 101 (ci_ex 500 2000 2) 40 false; OpTimer 50 6 0]))
    = [].
Proof. split_and!; vm_compute; reflexivity. Qed.
End InsertDown.

(** A batch of deletions that fails: only the last contact of the batch is kept in memory to
    be tried again; the contacts before it are removed and their rows stay. *)
Module DeleteDown.
#[local] Instance down : sql_api := sql_gmap true false.
#[local] Instance down_rows : sql_laws.
Proof.
  refine {| sql_rows := (λ d : sql, d : gmap Z ul_row) |}; [done| |done|done].
  intros d b id row. cbn. by destruct ((d : gmap Z ul_row) !! id).
Defined.
Definition cfg_two : ul_cfg :=
  UlCfg CM_NONE RRP_LOAD_FROM_SQL SQL_WRITE_BACK false 0 20 2 false (λ _, true).

Example failed_batch_leaves_rows :
  let s0 : ul_state := (UlWorld ∅ [] (∅ : gmap Z ul_row) [] 0 0 [], urecord_ex) in
  let s := ul_exec cfg_two s0
    [OpInsert 101 (bs "sip:alice@10.0.0.1") (ci_ex 700 50 1) all_ok 20 false;
     OpInsert 102 (bs "sip:alice@10.0.0.2") (ci_ex 500 50 1) all_ok 21 false;
     OpTimer 30 6 0; OpTimer 100 6 0] in
  state_list s = [(102, CS_SYNC, 50)] ∧ length (row_list s) = 2%nat
  ∧ match s with Some (w, _) => cid_vals w | None => [0] end = [].
Proof. split_and!; vm_compute; reflexivity. Qed.
End DeleteDown.

(** The event for a difference of latencies is raised when the latency grows, and not when it
    drops: the code takes the absolute value of the result of the comparison. *)
Example latency_drop_not_raised :
  raises_latency 0 300000 100000 500000 = true ∧ raises_latency 0 300000 500000 100000 = false.
Proof. split; reflexivity. Qed.

(** The second of three contacts gets the highest q: it becomes the last. *)
Definition contact_q (q : Z) : ucontact :=
  UContact q [] [] [] None None 0 0 0 q None [] 0 CS_NEW 0 0 [] None 0 0 None (NextHop 0 0 []) 0 0 None
    None (Some ∅) 0.
Definition heap_q : ct_heap :=
  <[1 := CtNode 2 0 (contact_q 700)]> (<[2 := CtNode 3 1 (contact_q 900)]>
    (<[3 := CtNode 0 2 (contact_q 300)]> ∅)).

Lemma update_moves_to_ends_witness :
  is_list heap_q 1 [1; 2; 3]
  ∧ ∃ h' head', update_contact_pos cfg_ex heap_q 1 2 = Some (h', head') ∧ is_list h' head' [1; 3; 2].
Proof.
  assert (Hl : is_list heap_q 1 [1; 2; 3]).
  { split; [reflexivity|]. split; [apply (bool_decide_unpack _); exact I|].
    split; [apply (bool_decide_unpack _); exact I|]. cbn. split_and!; try (eexists; reflexivity). }
  split; [exact Hl|].
  destruct (update_moves_to_ends cfg_ex heap_q 1 [1] 2 [3] Hl eq_refl) as (h' & head' & E & _ & Hl').
  - split; [|split; [constructor|exact I]]. constructor; [vm_compute; intros H; discriminate H|constructor].
  - exists h', head'. split; [exact E|exact Hl'].
Defined.

(** A contact and a request of the same call with a newer CSeq. *)
Definition contact_m : ucontact :=
  UContact 1 [] [] (bs "sip:alice@10.0.0.1") None None 0 0 0 0 None (bs "call-1") 5 CS_NEW 0 0 [] None 100
    0 None (NextHop 0 0 []) 0 0 None None (Some ∅) 0.
Definition world_m : ul_world :=
  UlWorld (<[1 := CtNode 0 0 contact_m]> ∅) [] (∅ : gmap Z ul_row) [] 1 0 [].
Definition record_m : urecord := URecord (bs "location") (bs "alice") 70000 5 16383 1 true 0 (Some ∅).

Lemma get_ucontact_correct_witness :
  get_ucontact cfg_ex world_m record_m (bs "sip:alice@10.0.0.1") (bs "call-1") 6
    (CtMatch CT_MATCH_NONE []) 200 = Some (0, 1).
Proof.
  eapply eq_trans.
  - eapply (get_ucontact_correct cfg_ex world_m record_m [1] (bs "sip:alice@10.0.0.1") _ (bs "call-1") 6
      (CtMatch CT_MATCH_NONE []) 200 false).
    + split; [reflexivity|]. split; [apply (bool_decide_unpack _); exact I|].
      split; [apply (bool_decide_unpack _); exact I|]. cbn. split; [eexists; reflexivity|exact I].
    + vm_compute. reflexivity.
    + reflexivity.
    + intros a n Ha Hn. apply list_elem_of_singleton in Ha. subst a. vm_compute in Hn. injection Hn as <-.
      vm_compute. eexists. reflexivity.
  - vm_compute. reflexivity.
Defined.
